(* ===== verification/_CoqProject ===== *)
-Q . S2P
Prelude.v
TxgData.v
Avl.v
RangeTree.v
SpaceReftree.v
SpaceMap.v
SpaceMapLog.v
RangeSet.v
MetaslabAlloc.v
MetaslabData.v
MetaslabWeight.v
MetaslabGroup.v
Metaslab.v
MetaslabInv.v
MetaslabSteps.v
MetaslabWorld.v
MetaslabSync.v
MetaslabDone.v
MetaslabInit.v
MetaslabSpec.v
MetaslabDemo.v
MetaslabSpace.v
MetaslabChoice.v
MetaslabProps.v
Txg.v
TxgInv.v
TxgFrame.v
TxgSteps.v
TxgUsers.v
TxgLive.v
TxgProps.v
TxgList.v
Lzjb.v
Zle.v
Fletcher.v
Raidz.v
RaidzParity.v
RaidzAlloc.v
RaidzXlate.v
RaidzMatrix.v
RaidzSolve.v
RaidzInvert.v
RaidzRecover.v
RaidzGeneral.v
RaidzRuns.v
RaidzReconstruct.v
RaidzIo.v
RaidzEnum.v
RaidzCombrec.v
RaidzSearch.v
RaidzRead.v
RaidzSafe.v
RaidzStart.v
RaidzBlock.v
Rrwlock.v
RrwlockProps.v
Zrlock.v
RangeLock.v
RangeLockTree.v
RangeLockTiles.v
RangeLockInv.v
RangeLockReader.v
RangeLockEnter.v
RangeLockExit.v
RangeLockProps.v
RangeLockSpec.v
