(* ===== verification/Prelude.v ===== *)
(** * Verification of the storage core of Unleashed

    Unleashed is an operating system of the illumos family.  This development
    is about the part of it that decides which bytes of a disk hold what: the
    core of ZFS ([src/kernel/fs/zfs]) and the balanced tree of the kernel below
    it.  Paths in these comments are relative to [src/].

    ** The parts of the program

    A pool is made of virtual devices.  A RAID-Z device spreads every block
    over its children in columns, with up to three columns of parity, and
    rebuilds columns that were lost or are bad.  The space of a device is
    divided into metaslabs; what is free in one is, in core, a range tree
    (an AVL tree of segments) and, on disk, a space map, a log of allocations
    and frees that is replayed into a range tree.  Blocks are allocated from a
    metaslab, freed, and the changes written to its space map, one transaction
    group after the other; freed blocks are kept back for two more, so that an
    older state of the pool can be gone back to.  A transaction group is first
    open, then quiesced, when it waits for the transactions in it, then synced;
    two threads of the pool move them on, and other threads wait for them.
    What is dirty in a group is kept in lists.  What several copies of a
    device are missing is combined with a space reference tree.  Blocks are
    compressed (LZJB, zero-length encoding) and checksummed (Fletcher) on their
    way to the devices.  File system operations exclude each other by three
    kinds of locks: read locks that a thread can take again, reference locks on
    objects, and locks on byte ranges of a file.

    ** Files, and the code they model

    - [Prelude]: 64-bit arithmetic, the outcome type, buffers, counted loops,
      the tactics [bool_to_prop], [split_if] and the hint database [verif].
    - [Avl]: [usr/src/common/avl/avl.c].  A tree is an inductive value, a
      pointer to a node the node with the path of its ancestors; the two
      mirrored cases share one definition as in the code.
    - [RangeTree]: [range_tree.c] over [Avl]; the record [range_tree_ops]
      holds the callbacks of the owner, the class [OpsSpec] what they promise.
    - [SpaceReftree]: [space_reftree.c] over [Avl] and [RangeTree].
    - [SpaceMap], [SpaceMapLog]: [space_map.c]; the object that holds the log
      is an array of words read and written by blocks.
    - [RangeSet]: range trees as sets, in the form the metaslabs use.
    - [MetaslabAlloc], [MetaslabData], [MetaslabWeight], [Metaslab]
      (definitions): [metaslab.c] with [metaslab_impl.h], and what it uses of
      [vdev.c] and [txg.c]: the block allocators over a tree by offset and a
      tree by size; the records; fragmentation, weights and the group; the
      life of a block.  A state is a metaslab with its group and the space
      counts ([world]).  [MetaslabGroup] (the group's invariant),
      [MetaslabInv] (every byte has a state, and the trees and the log are what
      the states say), [MetaslabSteps], [MetaslabWorld], [MetaslabSync],
      [MetaslabDone], [MetaslabInit] (every operation keeps it), [MetaslabSpec]
      (the specification and the refinement), [MetaslabDemo] (an example),
      [MetaslabSpace] (accounting), [MetaslabChoice] (weights and the default
      allocator), [MetaslabProps] (what follows for the blocks of a pool).
      The class [AllocSpec] is what an allocator promises.
    - [TxgData] (numbers of transaction groups, for metaslabs too), [Txg]
      (definitions): [txg.c] with [txg_impl.h] and [txg.h].  A state is a
      [tx_state_t] with the places of all threads and what they sleep on.
      [TxgInv] (the invariant), [TxgFrame] (which parts of it a change leaves
      alone, and the tactics that say so), [TxgSteps], [TxgUsers] (every step
      keeps it), [TxgLive] (the threads make progress), [TxgProps] (the
      theorems).  [TxgList]: the per-txg lists, a memory of linked nodes, and
      the lists they stand for.
    - [Lzjb], [Zle], [Fletcher]: [lzjb.c], [zle.c], [common/zfs_fletcher.c].
    - [Raidz] (definitions), [RaidzParity], [RaidzAlloc], [RaidzXlate]:
      [vdev_raidz.c]: the field, the map of a block, parity, reconstruction of
      one or two columns, translation of ranges.  [RaidzMatrix] (definitions),
      [RaidzSolve], [RaidzInvert], [RaidzRecover], [RaidzGeneral],
      [RaidzReconstruct]: reconstruction by matrix inversion and the choice of
      the method ([RaidzRuns]: whatever a block held before, in any order of
      the bad columns).  [RaidzIo] (definitions): the requests sent to the
      children and what is done with their replies, with the search for a set
      of bad columns the checksum accepts.  [RaidzEnum] (the sets of a given
      size in the order of the search), [RaidzCombrec], [RaidzSearch] (what the
      search tries and finds), [RaidzRead] (a read that worked, and the
      columns it rewrites), [RaidzSafe] (a read of anything), [RaidzStart],
      [RaidzBlock] (a block written and read back).
    - [Rrwlock], [RrwlockProps]: [rrwlock.c].  [Zrlock]: [zrlock.c].
    - [RangeLock] (definitions), [RangeLockTree], [RangeLockTiles],
      [RangeLockInv], [RangeLockReader], [RangeLockEnter], [RangeLockExit],
      [RangeLockProps], [RangeLockSpec]: [zfs_rlock.c] and the callback of
      [zfs_znode.c], over [Avl].

    ** Conventions

    Integers are [Z]; arithmetic of [uint64_t] is written with [add64],
    [sub64] and the like, which wrap around, and other widths with their
    modulus; an [int] that indexes an array is a [nat].  Buffers are lists of
    bytes; reading or writing outside of one is a [Panic].  So is a [VERIFY]
    that does not hold, a [NULL] or freed pointer, and a loop that does not end:
    a theorem that an operation is [Ret] something says that none of these
    happens.  The kernel is modelled as compiled with assertions, but not every
    [ASSERT] is an outcome.  It is, as a [VERIFY] is, in [RangeTree] (but for
    [range_tree_stat_verify]), [SpaceReftree] (the two at the end of
    [space_reftree_generate_map] are in the statement of C24 instead), the
    loading and writing of space maps, [Txg], [TxgList], [RangeLock] and the
    RAID-Z files, where it is about the state that is modelled; what an
    assertion repeats of the test right before it, of the number of arguments,
    or of the contract of code outside (that a block has the size of the
    object's blocks, that a comparison is -1, 0 or 1) is left out.  It is not in
    [Avl], whose assertions are about the shape of a tree and are what the
    invariant says; in [Rrwlock] and [Zrlock], where what the assertions of
    [rrw_exit] and of the count say is in the theorems (C33, C35); in the
    histogram and the destruction of a space map; and in the metaslab files,
    where the assertions at the end of the two steps of a transaction group are
    proved to hold (C6).  The check that a [DEBUG] kernel makes of the size of a
    log it has written is an argument of [space_map_write]: it can fail
    ([estimate_exceeded] in [SpaceMapLog]), and the metaslabs are those of a
    kernel without it.  Counted
    loops are [for_loop]; the other loops are structural recursion, or have
    fuel: the number of nodes of the tree they walk, or of columns left, which
    the proofs show to be enough; the search for bad columns has [search_fuel],
    which is at least the number of the sets it can try (C19); a walk of a
    per-txg list has as much fuel as there were operations (C15).  Reads that can fail return
    the error as a value.

    What is outside the code modelled is an argument with its contract as a
    hypothesis: memory allocators return a buffer of the right length with any
    contents ([abd_alloc_linear], [kmem_alloc]) or a fresh address
    (the allocators of [SpaceReftree] and [RangeLock]), the data management
    unit returns a block or an error ([SpaceMap]), a file has a size and a block
    size ([RangeLock]), the children of a RAID-Z device reply to a request with
    some bytes or an error, and a checksum is a function of the data.

    Concurrent code is a relation between states: a thread moves from one
    point where it holds the mutex to the next where it releases it, or makes
    one atomic access; a thread in [cv_wait] can wake up for no reason.
    Invariants are proved by induction on the steps of any number of threads.
    The callers of [txg.c] keep to [allowed]: they use a pool while its threads
    run, and stop them when nobody else uses it.  The numbers of the txgs of a
    run are below [TXG_LIMIT], near [2^64].  A thread that waits is brought to
    its return by [drive] steps: those of the threads of the pool, of threads
    that release what they hold, and of the waiting thread itself.

    ** What the theorems show

    - Metaslabs (C1-C9): the code refines a specification in which every
      byte is free, allocated, being freed, freed or deferred; what follows is
      that no block is handed out twice, that a freed block comes back after
      two more transaction groups and not before, while frees are deferred (a
      pool short of space does not), that the tree of free space
      is exact, that a space map that was written and is opened again has what was
      allocated on disk and nothing else, that
      a transaction group can always be finished, that the group's tables are
      right, and the space counts those of the bytes deferred and allocated, and that the default allocator finds space
      when there is some.
    - Transaction groups (C10-C15): the groups go through their states in
      order and nobody is left in one that is quiesced; whoever waits for a
      group can be brought to its return, so there is no deadlock and no lost
      wake-up; a commit callback is called once, when its group is synced; no
      assertion fails, and a pool that was stopped can be taken down; the
      per-txg lists are lists without repetition.
    - RAID-Z (C16-C19, C31-C32, C40): parity is the polynomial the
      comments give; the map of a block puts every column on a device of its
      own, where the translation of ranges ([RaidzXlate]) finds it; any set of bad columns no
      larger than the number of parity columns is rebuilt.  A block written is
      the block read when no more children than there are parity columns lost
      or damaged it; whatever the children return, a read gives data the
      checksum accepts or an error, and, as long as not all parity is used
      up, a column is rewritten with what it should hold; the search for bad columns tries every set and ends.
    - Trees (C20-C22): insertion, removal and search keep a tree
      ordered, balanced and counted; a search looks at a logarithmic number of
      nodes.  Traversal, update and destruction are in [Avl] too.
    - Free space (C23-C24, C28-C29): range trees behave as sets of offsets,
      whatever the sequence of operations, with exact panics; a space map
      stands for the set its log describes, is loaded into exactly that set,
      and writing a tree adds or removes exactly it (a [DEBUG] kernel stops when
      its estimate was too small); reference trees find the
      offsets held by at least so many trees.
    - Data (C25-C27, C30): compression is lossless and stays in its
      buffers; checksums compose and do not depend on byte order (that they detect
      a changed word is in [Fletcher]).
    - Locks (C33-C39): exclusion in every reachable state, also of two writers,
      who hold what they were granted until they exit; no assertion of the range
      locks fails, a lock that can be granted is, and no wake-up is lost.

    The specification of metaslabs bounds what it is asked: sectors of 512
    bytes to 256 MB, offsets below [2^57], txgs below [2^63], allocations for
    the txg being synced or the next two, frees of what is allocated, a device
    that can be read, a pool whose space maps have histograms.  Frees under a
    pool checkpoint are modelled but not part of its runs.

    ** Not modelled

    The data management unit, the cache, the attribute processor, pools,
    datasets, the intent log and the I/O pipeline are threads, callbacks and
    caches around device I/O; the POSIX layer and volumes are glue to the rest
    of the kernel; compression and checksums that are third-party code or in
    other modules.  Of [metaslab.c] the search for a metaslab in a group and for
    a group in a class, the allocation throttle, trace records, indirect
    devices, and the interleaving of threads within an operation, which holds
    the metaslab's lock but for the writing of its space map.  Of
    [space_map.c] the functions that close and free the object; of
    [vdev_raidz.c] opening and closing the device, writing a crash dump to it
    and the copies kept for error reports; of [rrwlock.c]
    the wrappers over arrays of locks; of [txg.c] the time a txg was opened,
    probes and debugging output, suspend callbacks, and the assertions that the
    caller does not hold the lock of the pool's configuration; what [spa_sync]
    does and when there is enough dirty data are left open.  The rest of the system (other file
    systems, the kernel core, drivers, libraries and commands) is outside the
    storage core. *)

(** * Shared prelude

    Machine integers, the outcome monad and the list facts the components
    share. *)

From Stdlib Require Export ZArith Lia.
From stdpp Require Export base numbers option sets sorting list.

#[global] Open Scope Z_scope.
#[global] Set Default Goal Selector "!".

(** ** Outcomes

    The kernel's [VERIFY]/[panic] stop the machine: an operation that can
    reach one returns a [result].  A read of memory the code does not own is
    an outcome of the same kind. *)

Inductive result (A : Type) : Type :=
| Ret (a : A)
| Panic.
Arguments Ret {A} a.
Arguments Panic {A}.

#[export] Instance result_ret : MRet result := fun A a => Ret a.
#[export] Instance result_bind : MBind result := fun A B f m =>
  match m with
  | Ret a => f a
  | Panic => Panic
  end.

(** [VERIFY(b)], and [ASSERT(b)] where it is an outcome. *)
Definition verify (b : bool) : result unit := if b then Ret tt else Panic.

Lemma bind_Ret {A B} (f : A -> result B) (m : result A) (b : B) :
  m ≫= f = Ret b -> exists a, m = Ret a /\ f a = Ret b.
Proof. destruct m; cbn; [eauto | discriminate]. Qed.

Lemma verify_Ret b : verify b = Ret tt <-> b = true.
Proof. destruct b; cbn; split; congruence. Qed.

(** ** Unsigned 64-bit arithmetic *)

Definition wrap64 (x : Z) : Z := x mod 2 ^ 64.
Definition add64 (a b : Z) : Z := wrap64 (a + b).
Definition sub64 (a b : Z) : Z := wrap64 (a - b).

(** A value of type [uint64_t]. *)
Definition u64 (x : Z) : Prop := 0 <= x < 2 ^ 64.

Lemma wrap64_small x : u64 x -> wrap64 x = x.
Proof. intros H. apply Z.mod_small. exact H. Qed.

Lemma wrap64_u64 x : u64 (wrap64 x).
Proof. apply Z.mod_pos_bound. lia. Qed.

Lemma add64_small a b : u64 (a + b) -> add64 a b = a + b.
Proof. apply wrap64_small. Qed.

Lemma sub64_small a b : u64 (a - b) -> sub64 a b = a - b.
Proof. apply wrap64_small. Qed.

Lemma wrap64_add_l a b : wrap64 (wrap64 a + b) = wrap64 (a + b).
Proof. unfold wrap64. apply Zplus_mod_idemp_l. Qed.

Lemma wrap64_sub_l a b : wrap64 (wrap64 a - b) = wrap64 (a - b).
Proof. unfold wrap64. apply Zminus_mod_idemp_l. Qed.

(** ** Signed 64-bit arithmetic, two's complement *)

Definition wraps64 (x : Z) : Z := (x + 2 ^ 63) mod 2 ^ 64 - 2 ^ 63.

(** A value of type [int64_t]. *)
Definition s64 (x : Z) : Prop := - 2 ^ 63 <= x < 2 ^ 63.

Lemma wraps64_small x : s64 x -> wraps64 x = x.
Proof. intros H. unfold wraps64. rewrite Z.mod_small; unfold s64 in *; lia. Qed.

(** ** Bit fields *)

Lemma land_shiftl_low a b n :
  0 <= n -> 0 <= b < 2 ^ n -> Z.land (Z.shiftl a n) b = 0.
Proof.
  intros Hn Hb. apply Z.bits_inj'. intros k Hk. rewrite Z.bits_0, Z.land_spec.
  destruct (Z_lt_le_dec k n) as [Hlt|Hge].
  - by rewrite Z.shiftl_spec_low.
  - rewrite <- (Z.mod_small b (2 ^ n)), Z.mod_pow2_bits_high by lia. apply andb_false_r.
Qed.

(** Joining a field below another is addition. *)
Lemma lor_shiftl_add a b n :
  0 <= n -> 0 <= b < 2 ^ n -> Z.lor (Z.shiftl a n) b = a * 2 ^ n + b.
Proof.
  intros Hn Hb. pose proof (Z.add_lor_land (Z.shiftl a n) b) as H.
  rewrite land_shiftl_low, Z.add_0_r, Z.shiftl_mul_pow2 in H by done.
  by rewrite <- Z.shiftl_mul_pow2 in * by done.
Qed.

(** Joining fields that do not overlap is addition. *)
Lemma lor_add a b n : 0 <= n -> a mod 2 ^ n = 0 -> 0 <= b < 2 ^ n -> Z.lor a b = a + b.
Proof.
  intros Hn Ha Hb. rewrite (Z.div_mod a (2 ^ n)), Ha, Z.add_0_r, (Z.mul_comm (2 ^ n)) by lia.
  by rewrite <- Z.shiftl_mul_pow2, lor_shiftl_add, Z.shiftl_mul_pow2 by done.
Qed.

(** The byte at a bit position. *)
Lemma land_byte x k :
  0 <= k -> Z.land x (255 * 2 ^ k) = (x / 2 ^ k) mod 256 * 2 ^ k.
Proof.
  intros Hk. change 255 with (Z.ones 8). change 256 with (2 ^ 8).
  rewrite <- Z.land_ones, <- !Z.shiftl_mul_pow2, <- Z.shiftr_div_pow2 by lia.
  apply Z.bits_inj'. intros j Hj. rewrite Z.land_spec.
  destruct (Z_lt_le_dec j k) as [Hlt|Hge].
  - rewrite !Z.shiftl_spec_low by lia. apply andb_false_r.
  - rewrite !Z.shiftl_spec, Z.land_spec, Z.shiftr_spec by lia. do 2 f_equal; lia.
Qed.

(** ** Buffers

    A pointer into a buffer is an index into a list.  A read or write beyond
    the buffer is a [Panic]. *)

Definition rd (buf : list Z) (i : nat) : result Z :=
  match buf !! i with Some b => Ret b | None => Panic end.

Definition wr (buf : list Z) (i : nat) (b : Z) : result (list Z) :=
  if (i <? length buf)%nat then Ret (<[i := b]> buf) else Panic.

(** A buffer of [uchar_t]. *)
Definition bytes (buf : list Z) : Prop := Forall (fun b => 0 <= b < 256) buf.

Lemma wr_ok buf i b : (i < length buf)%nat -> wr buf i b = Ret (<[i := b]> buf).
Proof. intros H. unfold wr. by rewrite (proj2 (Nat.ltb_lt _ _) H). Qed.

Lemma rd_ok buf i b : buf !! i = Some b -> rd buf i = Ret b.
Proof. unfold rd. by intros ->. Qed.

Lemma take_insert_snoc {A} (k : list A) i x :
  (i < length k)%nat -> take (S i) (<[i := x]> k) = take i k ++ [x].
Proof.
  intros Hi. rewrite (take_S_r _ _ x) by (by apply list_lookup_insert_eq).
  by rewrite take_insert_ge by lia.
Qed.

(** ** Words of a buffer, low byte first *)

(** The number stored in bytes, low byte first. *)
Fixpoint le (bs : list Z) : Z :=
  match bs with [] => 0 | b :: bs' => b + 256 * le bs' end.

(** The first [n] words of [w] bytes of a buffer. *)
Fixpoint words (n w : nat) (buf : list Z) : list Z :=
  match n with
  | O => []
  | S n' => le (take w buf) :: words n' w (drop w buf)
  end.

(** All whole words: [size / sizeof (uintW_t)]. *)
Definition buf_words (w : nat) (buf : list Z) : list Z := words (length buf / w) w buf.

Lemma le_bound bs : bytes bs -> 0 <= le bs < 256 ^ Z.of_nat (length bs).
Proof.
  induction 1 as [|b bs Hb _ IH]; cbn [le length]; [lia|].
  rewrite Nat2Z.inj_succ, Z.pow_succ_r by lia. lia.
Qed.

Lemma words_app n1 n2 w buf1 buf2 :
  length buf1 = (n1 * w)%nat ->
  words (n1 + n2) w (buf1 ++ buf2) = words n1 w buf1 ++ words n2 w buf2.
Proof.
  revert buf1. induction n1 as [|n1 IH]; intros buf1 Hl; cbn in Hl.
  - by destruct buf1.
  - cbn. rewrite take_app_le, drop_app_le by lia. f_equal. apply IH. rewrite length_drop. lia.
Qed.

Lemma length_words n w buf : length (words n w buf) = n.
Proof. revert buf. induction n as [|n IH]; intros buf; cbn; [done|]. by rewrite IH. Qed.

Lemma buf_words_app w buf1 buf2 :
  (0 < w)%nat -> (length buf1 mod w = 0)%nat ->
  buf_words w (buf1 ++ buf2) = buf_words w buf1 ++ buf_words w buf2.
Proof.
  intros Hw Hm. unfold buf_words. apply Nat.Div0.div_exact in Hm.
  set (q := (length buf1 / w)%nat) in *.
  rewrite length_app, Hm, Nat.mul_comm, Nat.div_add_l by lia.
  apply words_app. lia.
Qed.

(** ** Loops *)

(** [for (c = c0; c < c0 + n; c++) body]. *)
Fixpoint for_loop {A} (n : nat) (c : nat) (body : nat -> A -> result A) (a : A) : result A :=
  match n with
  | O => Ret a
  | S n' => a' ← body c a; for_loop n' (S c) body a'
  end.

(** A loop keeps an invariant that its body keeps. *)
Lemma for_loop_inv {A} (I : nat -> A -> Prop) n c body (a : A) :
  (forall i a, (c <= i < c + n)%nat -> I i a -> exists a', body i a = Ret a' /\ I (S i) a') ->
  I c a -> exists a', for_loop n c body a = Ret a' /\ I (c + n)%nat a'.
Proof.
  revert c a. induction n as [|n IH]; intros c a Hb Hi; cbn [for_loop].
  - rewrite Nat.add_0_r. eauto.
  - destruct (Hb c a ltac:(lia) Hi) as (a' & -> & Hi'). cbn [mbind result_bind].
    replace (c + S n)%nat with (S c + n)%nat by lia. apply IH; [|done].
    intros i a'' Hr. apply Hb. lia.
Qed.

(** ** Lists *)

Lemma filter_all {A} (P Q : A -> Prop) `{!forall a, Decision (P a)} (k : list A) :
  Forall Q k -> (forall a, Q a -> P a) -> filter P k = k.
Proof.
  intros Hk HPQ. induction Hk; [done|]. rewrite filter_cons_True by auto. by f_equal.
Qed.

Lemma length_filter_mono {A} (P Q : A -> Prop) `{!forall a, Decision (P a)} `{!forall a, Decision (Q a)} (k : list A) :
  (forall a, a ∈ k -> P a -> Q a) -> (length (filter P k) <= length (filter Q k))%nat.
Proof.
  induction k as [|a k IH]; intros HPQ; [done|]. rewrite !filter_cons.
  specialize (IH ltac:(set_solver)). specialize (HPQ a ltac:(by left)). repeat case_decide; cbn [length]; tauto || lia.
Qed.

Lemma filter_none {A} (P Q : A -> Prop) `{!forall a, Decision (P a)} (k : list A) :
  Forall Q k -> (forall a, Q a -> ~ P a) -> filter P k = [].
Proof.
  intros Hk HPQ. induction Hk; [done|]. by rewrite filter_cons_False by auto.
Qed.

Lemma NoDup_middle {A} (x : A) k1 k2 : NoDup (k1 ++ x :: k2) -> (x ∉ k1) /\ (x ∉ k2).
Proof.
  intros (H1 & H2 & H3)%NoDup_app. apply NoDup_cons in H3 as [H3 _].
  split; [|done]. intros Hx. apply (H2 _ Hx). by left.
Qed.

Lemma NoDup_drop_middle {A} (x : A) k1 k2 : NoDup (k1 ++ x :: k2) -> NoDup (k1 ++ k2).
Proof. rewrite <- Permutation_middle. by intros [_ H]%NoDup_cons. Qed.

(** Where an element stands in a list without repetition is unique. *)
Lemma split_unique {A} (x : A) k1 k2 k1' k2' :
  NoDup (k1 ++ x :: k2) -> k1 ++ x :: k2 = k1' ++ x :: k2' -> k1 = k1' /\ k2 = k2'.
Proof.
  revert k1'; induction k1 as [|a k1 IH]; intros [|a' k1'] H Heq; cbn in Heq, H;
    simplify_eq; [done| | |].
  - apply NoDup_cons in H as [H _]. set_solver.
  - apply NoDup_cons in H as [H _]. set_solver.
  - apply NoDup_cons in H as [_ H]. by destruct (IH k1' H) as [-> ->].
Qed.

Lemma StronglySorted_weaken {A} (R R' : A -> A -> Prop) (k : list A) :
  (forall a b, R a b -> R' a b) -> StronglySorted R k -> StronglySorted R' k.
Proof.
  intros HR. induction 1 as [|a k _ IH Ha]; constructor; [done|].
  eapply Forall_impl; [exact Ha|auto].
Qed.

(** ** Automation *)

Create HintDb verif.
#[export] Hint Resolve wrap64_u64 : verif.

(** ** Threads *)

Definition tid := nat.

(** A function changed at one point. *)
Definition upd {A} (f : nat -> A) (i : nat) (a : A) : nat -> A := fun j => if (j =? i)%nat then a else f j.

Lemma upd_eq {A} (f : nat -> A) i a : upd f i a i = a.
Proof. unfold upd. by rewrite Nat.eqb_refl. Qed.
Lemma upd_ne {A} (f : nat -> A) i j a : j <> i -> upd f i a j = f j.
Proof. intros H. unfold upd. by rewrite (proj2 (Nat.eqb_neq _ _) H). Qed.

Lemma upd_case {A} (P : A -> Prop) (f : nat -> A) i a j : (j = i -> P a) -> (j <> i -> P (f j)) -> P (upd f i a j).
Proof. intros H1 H2. destruct (decide (j = i)) as [->|Hne]; [rewrite upd_eq|rewrite upd_ne]; auto. Qed.

(** ** Sums over the threads *)

Definition total (tids : list tid) (f : tid -> Z) : Z := foldr Z.add 0 (f <$> tids).

Lemma total_cons t ts f : total (t :: ts) f = f t + total ts f.
Proof. done. Qed.

Lemma total_ext tids f g : (forall t, t ∈ tids -> f t = g t) -> total tids f = total tids g.
Proof.
  induction tids as [|t ts IH]; intros H; [done|]. rewrite !total_cons, H by set_solver. f_equal. apply IH. set_solver.
Qed.

Lemma total_le tids f g : (forall t, f t <= g t) -> total tids f <= total tids g.
Proof. intros H. induction tids as [|t ts IH]; [done|]. rewrite !total_cons. specialize (H t). lia. Qed.

Lemma sum_threads_nonneg tids f : (forall t, 0 <= f t) -> 0 <= total tids f.
Proof. intros H. induction tids as [|t ts IH]; [done|]. rewrite total_cons. specialize (H t). lia. Qed.

Lemma total_ge tids f t : (forall t, 0 <= f t) -> t ∈ tids -> f t <= total tids f.
Proof.
  intros H. induction tids as [|t' ts IH]; intros Ht; [set_solver|]. rewrite total_cons.
  pose proof (sum_threads_nonneg ts f H). apply elem_of_cons in Ht as [<-|Ht]; [lia|]. specialize (IH Ht). specialize (H t'). lia.
Qed.

(** Sums of equal total, one below the other at each thread, are equal at each
    thread. *)
Lemma total_squeeze tids f g t :
  (forall t, f t <= g t) -> total tids g <= total tids f -> t ∈ tids -> f t = g t.
Proof.
  intros H. induction tids as [|t' ts IH]; intros Hle Ht; [set_solver|]. rewrite !total_cons in Hle.
  pose proof (total_le ts f g H). pose proof (H t'). apply elem_of_cons in Ht as [->|Ht]; [lia|]. apply IH; [lia|done].
Qed.

Lemma total_pos tids f : 0 < total tids f -> exists t, t ∈ tids /\ 0 < f t.
Proof.
  induction tids as [|t ts IH]; [done|]. rewrite total_cons. intros H.
  destruct (Z_lt_le_dec 0 (f t)); [exists t; set_solver|]. destruct IH as (u & Hu & Hf); [lia|]. exists u. set_solver.
Qed.

Lemma total_upd {A} tids (g : A -> Z) (f : tid -> A) t v :
  NoDup tids -> t ∈ tids -> total tids (fun i => g (upd f t v i)) = total tids (fun i => g (f i)) - g (f t) + g v.
Proof.
  induction 1 as [|t' ts Hni Hnd' IH]; intros Ht; [set_solver|]. rewrite !total_cons.
  apply elem_of_cons in Ht as [<-|Ht].
  - rewrite upd_eq. rewrite (total_ext ts _ (fun i => g (f i))); [lia|].
    intros u Hu. rewrite upd_ne; [done|]. by intros ->.
  - rewrite IH, upd_ne by (done || by intros ->). lia.
Qed.

(** A sum with a smaller term. *)
Lemma total_lt (f g : tid -> Z) k t : (forall u, f u <= g u) -> t ∈ k -> f t < g t -> total k f < total k g.
Proof.
  intros H. induction k as [|u k IH]; intros Ht Hlt; [set_solver|]. rewrite !total_cons. pose proof (total_le k f g H).
  apply elem_of_cons in Ht as [->|Ht]; [lia|]. specialize (IH Ht Hlt). specialize (H u). lia.
Qed.

(** Linear arithmetic with divisions by constants. *)
Ltac eucl := Z.div_mod_to_equations; lia.

(** Turn boolean integer tests of the hypotheses into propositions. *)
Ltac bool_to_prop :=
  repeat match goal with
  | H : (_ && _)%bool = true |- _ => apply andb_true_iff in H; destruct H
  | H : (_ || _)%bool = false |- _ => apply orb_false_iff in H; destruct H
  | H : (_ || _)%bool = true |- _ => apply orb_true_iff in H
  | H : (_ && _)%bool = false |- _ => apply andb_false_iff in H
  | H : negb _ = true |- _ => apply negb_true_iff in H
  | H : negb _ = false |- _ => apply negb_false_iff in H
  | H : (_ =? _) = true |- _ => apply Z.eqb_eq in H
  | H : (_ =? _) = false |- _ => apply Z.eqb_neq in H
  | H : (_ <? _) = true |- _ => apply Z.ltb_lt in H
  | H : (_ <? _) = false |- _ => apply Z.ltb_ge in H
  | H : (_ <=? _) = true |- _ => apply Z.leb_le in H
  | H : (_ <=? _) = false |- _ => apply Z.leb_gt in H
  end.

(** Case split on the conditional of the goal, tests turned into
    propositions. *)
Ltac split_if :=
  match goal with
  | |- context [if ?b then _ else _] =>
      lazymatch b with
      | context [if _ then _ else _] => fail
      | _ => let E := fresh "E" in destruct b eqn:E; bool_to_prop
      end
  end.
