(* ===== verification/TxgData.v ===== *)
(** * Numbers of transaction groups

    The constants of [kernel/fs/zfs/sys/txg.h] and the slot of a txg in the
    arrays that keep something for each of the last [TXG_SIZE] of them. *)

From S2P Require Import Prelude.

Definition TXG_CONCURRENT_STATES : Z := 3.
Definition TXG_SIZE : Z := 4.
Definition TXG_MASK : Z := TXG_SIZE - 1.
Definition TXG_INITIAL : Z := TXG_SIZE.
Definition TXG_DEFER_SIZE : Z := 2.
Definition TXG_CLEAN (txg : Z) : Z := sub64 txg 1.

Definition txg_slot (txg : Z) : nat := Z.to_nat (Z.land txg TXG_MASK).

Lemma txg_slot_mod t : txg_slot t = Z.to_nat (t mod 4).
Proof. unfold txg_slot. change TXG_MASK with (Z.ones 2). by rewrite Z.land_ones. Qed.

Lemma txg_slot_lt t : (txg_slot t < 4)%nat.
Proof. rewrite txg_slot_mod. pose proof (Z.mod_pos_bound t 4 ltac:(lia)). lia. Qed.

(** The slots of txgs less than four apart are different. *)
Lemma txg_slot_inj s t t' : s <= t <= s + 3 -> s <= t' <= s + 3 -> txg_slot t = txg_slot t' -> t = t'.
Proof.
  rewrite !txg_slot_mod. intros H1 H2 H. pose proof (Z.mod_pos_bound t 4 ltac:(lia)).
  pose proof (Z.mod_pos_bound t' 4 ltac:(lia)). apply Z2Nat.inj in H; [|lia..]. eucl.
Qed.

Lemma txg_slot_clean s : txg_slot (s + 3) = txg_slot (s - 1).
Proof. rewrite !txg_slot_mod. f_equal. eucl. Qed.
