(* ===== verification/Avl.v ===== *)
(** * AVL trees

    Model of [usr/src/common/avl/avl.c], the balanced tree every ordered
    in-core structure of this development is kept in.

    A subtree is a value of [tree]; a node pointer is a position: the subtree
    at the node and the [path] of ancestors above it, which is what the C code
    reaches through [avl_parent]/[avl_child_index].  An insertion point
    ([avl_index_t]) is the path to an empty child.  The [avl_child[]] array is
    indexed by a [bool], [false] for 0 (left) and [true] for 1 (right), so the
    mirrored cases share one definition as they do in C. *)

From S2P Require Import Prelude.

Inductive tree (A : Type) : Type :=
| Leaf
| Node (l : tree A) (x : A) (bal : Z) (r : tree A).
Arguments Leaf {A}.
Arguments Node {A} l x bal r.

(** An ancestor seen from one of its children: which child we came from, the
    ancestor's data and balance, and its other subtree. *)
Record frame (A : Type) : Type := Frame {
  f_child : bool;
  f_data : A;
  f_bal : Z;
  f_sib : tree A }.
Arguments Frame {A}.
Arguments f_child {A}.
Arguments f_data {A}.
Arguments f_bal {A}.
Arguments f_sib {A}.

Abbreviation path A := (list (frame A)).

(** [struct avl_tree]; the comparison function is an argument of the
    operations that use it. *)
Record avl_tree (A : Type) : Type := AvlTree {
  avl_root : tree A;
  avl_nnodes : Z }.
Arguments AvlTree {A}.
Arguments avl_root {A}.
Arguments avl_nnodes {A}.

(** [avl_compar(value, node)] as a three-way result in -1, 0, 1. *)
Class Compar (V A : Type) := avl_compar : V -> A -> Z.

Definition avl_child2balance (c : bool) : Z := if c then 1 else -1.
(** Indexed by [1 + diff] in C; [diff] is the argument here. *)
Definition avl_balance2child (diff : Z) : bool := 0 <? diff.

Section Avl.
Context {A : Type}.
Implicit Types (t l r c : tree A) (x y : A) (p : path A) (d : bool).

(** ** Nodes with an indexed pair of children *)

Definition avl_child (d : bool) l r : tree A := if d then r else l.

(** The node with [avl_child[d] = c] and [avl_child[1 - d] = s]. *)
Definition mk (d : bool) (c : tree A) (x : A) (b : Z) (s : tree A) : tree A :=
  if d then Node s x b c else Node c x b s.

Definition up (f : frame A) (b : Z) (c : tree A) : tree A :=
  mk (f_child f) c (f_data f) b (f_sib f).

(** The tree with [t] below the ancestors [p]. *)
Fixpoint plug (t : tree A) (p : path A) : tree A :=
  match p with
  | [] => t
  | f :: p' => plug (up f (f_bal f) t) p'
  end.

(** ** Positions and walks *)

(** A node of a tree: its two subtrees, data and balance, and the path of its
    ancestors. *)
Record pos : Type := Pos {
  p_l : tree A;
  p_x : A;
  p_bal : Z;
  p_r : tree A;
  p_path : path A }.

(** Go to [avl_child[d]] until it is NULL, from the root of [t]. *)
Fixpoint descend (d : bool) (t : tree A) (p : path A) : option pos :=
  match t with
  | Leaf => None
  | Node l x b r =>
      match descend d (avl_child d l r)
              (Frame d x b (avl_child (negb d) l r) :: p) with
      | Some z => Some z
      | None => Some (Pos l x b r p)
      end
  end.

(** Go up until we have come from child [right]; the node reached, if any. *)
Fixpoint climb (right : bool) (p : path A) : option A :=
  match p with
  | [] => None
  | f :: p' => if eqb (f_child f) right then Some (f_data f) else climb right p'
  end.

(** [avl_walk] from the position [z]: the neighbour of the node on the side
    [left] ([false] is AVL_PREV, [true] is AVL_NEXT). *)
Definition walk_pos (left : bool) (z : pos) : option A :=
  match avl_child left (p_l z) (p_r z) with
  | Leaf => climb (negb left) (p_path z)
  | c =>
      p_x <$> descend (negb left) c
        (Frame left (p_x z) (p_bal z) (avl_child (negb left) (p_l z) (p_r z))
           :: p_path z)
  end.

Definition avl_first (t : avl_tree A) : option A :=
  p_x <$> descend false (avl_root t) [].
Definition avl_last (t : avl_tree A) : option A :=
  p_x <$> descend true (avl_root t) [].

(** [avl_nearest]: the node on the side [direction] of an insertion point. *)
Definition avl_nearest (t : avl_tree A) (where_ : path A) (direction : bool) : option A :=
  match where_ with
  | [] => None
  | f :: p' =>
      if negb (eqb (f_child f) direction) then Some (f_data f)
      else walk_pos direction
             (Pos (if f_child f then f_sib f else Leaf) (f_data f) (f_bal f)
                (if f_child f then Leaf else f_sib f) p')
  end.

(** ** Search *)

Section Find.
Context {V : Type} `{!Compar V A}.

(** The loop of [avl_find]: the node found, or the insertion point. *)
Fixpoint find_loop (v : V) (t : tree A) (p : path A) : pos + path A :=
  match t with
  | Leaf => inr p
  | Node l x b r =>
      let diff := avl_compar v x in
      if diff =? 0 then inl (Pos l x b r p)
      else let c := avl_balance2child diff in
           find_loop v (avl_child c l r) (Frame c x b (avl_child (negb c) l r) :: p)
  end.

(** [avl_find]: the data found, or the insertion point stored in [*where]. *)
Definition avl_find (t : avl_tree A) (v : V) : A + path A :=
  match find_loop v (avl_root t) [] with
  | inl z => inl (p_x z)
  | inr w => inr w
  end.
End Find.

(** ** Rotation

    [l], [x], [r] are the node's subtrees and data and [balance] is the new
    balance, -2 or +2.  The second component is the return value: the subtree
    was reduced in height.  The two [Leaf] branches are NULL dereferences in C;
    no balanced tree reaches them. *)
Definition avl_rotation (l : tree A) (x : A) (r : tree A) (balance : Z) : tree A * bool :=
  let left := negb (balance <? 0) in
  let right := negb left in
  let left_heavy := Z.shiftr balance 1 in
  let right_heavy := - left_heavy in
  let other := avl_child right l r in
  match avl_child left l r with
  | Leaf => (Node l x balance r, false)
  | Node cl cx child_bal cr =>
      if negb (child_bal =? right_heavy) then
        let child_bal' := child_bal + right_heavy in
        let cright := avl_child right cl cr in
        let node := mk left cright x (- child_bal') other in
        (mk right node cx child_bal' (avl_child left cl cr), child_bal' =? 0)
      else
        match avl_child right cl cr with
        | Leaf => (Node l x balance r, false)
        | Node gl gx gbal gr =>
            let gleft := avl_child left gl gr in
            let gright := avl_child right gl gr in
            let child := mk left (avl_child left cl cr) cx
                           (if gbal =? right_heavy then left_heavy else 0) gleft in
            let node := mk left gright x
                          (if gbal =? left_heavy then right_heavy else 0) other in
            (mk left child gx 0 node, true)
        end
  end.

(** [avl_rotation] at the node of frame [f] with [c] below it. *)
Definition rotate_up (f : frame A) (c : tree A) (balance : Z) : tree A * bool :=
  if f_child f then avl_rotation (f_sib f) (f_data f) c balance
  else avl_rotation c (f_data f) (f_sib f) balance.

(** ** Insertion *)

(** The loop of [avl_insert]: the subtree [node] below [p] has grown. *)
Fixpoint insert_up (node : tree A) (p : path A) : tree A :=
  match p with
  | [] => node
  | f :: p' =>
      let old_balance := f_bal f in
      let new_balance := old_balance + avl_child2balance (f_child f) in
      if new_balance =? 0 then plug (up f 0 node) p'
      else if negb (old_balance =? 0) then plug (fst (rotate_up f node new_balance)) p'
      else insert_up (up f new_balance node) p'
  end.

Definition avl_insert (t : avl_tree A) (new_data : A) (where_ : path A) : avl_tree A :=
  AvlTree (insert_up (Node Leaf new_data 0 Leaf) where_) (add64 (avl_nnodes t) 1).

(** [avl_add]; [panic] when the value is already there. *)
Definition avl_add `{!Compar A A} (t : avl_tree A) (new_node : A) : result (avl_tree A) :=
  match avl_find t new_node with
  | inl _ => Panic
  | inr w => Ret (avl_insert t new_node w)
  end.

(** ** Operations on a node of the tree

    A node pointer is given by the data it holds.  Where the C code is handed
    a pointer, the model looks the node up by equality of that data; the
    trees of this development never hold the same data twice. *)

Context `{EqDecision A}.

Fixpoint locate (x : A) (t : tree A) (p : path A) : option pos :=
  match t with
  | Leaf => None
  | Node l y b r =>
      if decide (y = x) then Some (Pos l y b r p)
      else match locate x l (Frame false y b r :: p) with
           | Some z => Some z
           | None => locate x r (Frame true y b l :: p)
           end
  end.

Definition avl_walk (t : avl_tree A) (x : A) (left : bool) : option A :=
  locate x (avl_root t) [] ≫= walk_pos left.

Definition AVL_NEXT (t : avl_tree A) (x : A) : option A := avl_walk t x true.
Definition AVL_PREV (t : avl_tree A) (x : A) : option A := avl_walk t x false.

(** Insert next to the node [here], in [direction]. *)
Definition avl_insert_here (t : avl_tree A) (new_data here : A) (direction : bool)
    : avl_tree A :=
  match locate here (avl_root t) [] with
  | None => t
  | Some z =>
      let f := Frame direction (p_x z) (p_bal z)
                 (avl_child (negb direction) (p_l z) (p_r z)) in
      match avl_child direction (p_l z) (p_r z) with
      | Leaf => avl_insert t new_data (f :: p_path z)
      | c =>
          match descend (negb direction) c (f :: p_path z) with
          | None => t
          | Some n =>
              avl_insert t new_data
                (Frame (negb direction) (p_x n) (p_bal n)
                   (avl_child direction (p_l n) (p_r n)) :: p_path n)
          end
      end
  end.

(** ** Deletion *)

(** The loop of [avl_remove]: the subtree [sub] below [p] is one level
    shorter than it was. *)
Fixpoint remove_up (sub : tree A) (p : path A) : tree A :=
  match p with
  | [] => sub
  | f :: p' =>
      let old_balance := f_bal f in
      let new_balance := old_balance - avl_child2balance (f_child f) in
      if old_balance =? 0 then plug (up f new_balance sub) p'
      else if new_balance =? 0 then remove_up (up f new_balance sub) p'
      else let '(t', shrunk) := rotate_up f sub new_balance in
           if shrunk then remove_up t' p' else plug t' p'
  end.

(** Unlink a node with at most one child. *)
Definition unlink (l r : tree A) (p : path A) : tree A :=
  remove_up (match l with Leaf => r | _ => l end) p.

(** Delete the node at [z].  With two children it first trades places with
    its neighbour on the taller side. *)
Definition remove_pos (z : pos) : tree A :=
  match p_l z, p_r z with
  | Node _ _ _ _, Node _ _ _ _ =>
      let left := avl_balance2child (p_bal z) in
      match descend (negb left) (avl_child left (p_l z) (p_r z)) [] with
      | None => plug (Node (p_l z) (p_x z) (p_bal z) (p_r z)) (p_path z)
      | Some n =>
          unlink (p_l n) (p_r n)
            (p_path n ++
             Frame left (p_x n) (p_bal z) (avl_child (negb left) (p_l z) (p_r z))
               :: p_path z)
      end
  | _, _ => unlink (p_l z) (p_r z) (p_path z)
  end.

Definition avl_remove (t : avl_tree A) (x : A) : avl_tree A :=
  match locate x (avl_root t) [] with
  | None => t
  | Some z => AvlTree (remove_pos z) (sub64 (avl_nnodes t) 1)
  end.

(** ** In-place change of a node's data, and the [avl_update] family *)

Definition avl_set (t : avl_tree A) (x y : A) : avl_tree A :=
  match locate x (avl_root t) [] with
  | None => t
  | Some z => AvlTree (plug (Node (p_l z) y (p_bal z) (p_r z)) (p_path z)) (avl_nnodes t)
  end.

Definition AVL_REINSERT `{!Compar A A} (t : avl_tree A) (obj : A) : result (avl_tree A) :=
  avl_add (avl_remove t obj) obj.

Definition avl_update_lt `{!Compar A A} (t : avl_tree A) (obj : A)
    : result (avl_tree A * bool) :=
  match AVL_PREV t obj with
  | Some neighbor =>
      if avl_compar obj neighbor <? 0
      then t' ← AVL_REINSERT t obj; mret (t', true) else mret (t, false)
  | None => mret (t, false)
  end.

Definition avl_update_gt `{!Compar A A} (t : avl_tree A) (obj : A)
    : result (avl_tree A * bool) :=
  match AVL_NEXT t obj with
  | Some neighbor =>
      if 0 <? avl_compar obj neighbor
      then t' ← AVL_REINSERT t obj; mret (t', true) else mret (t, false)
  | None => mret (t, false)
  end.

Definition avl_update `{!Compar A A} (t : avl_tree A) (obj : A)
    : result (avl_tree A * bool) :=
  let next_side :=
    match AVL_NEXT t obj with
    | Some neighbor =>
        if 0 <? avl_compar obj neighbor
        then t' ← AVL_REINSERT t obj; mret (t', true) else mret (t, false)
    | None => mret (t, false)
    end in
  match AVL_PREV t obj with
  | Some neighbor =>
      if avl_compar obj neighbor <? 0
      then t' ← AVL_REINSERT t obj; mret (t', true) else next_side
  | None => next_side
  end.

(** ** Whole-tree operations *)

Definition avl_create : avl_tree A := AvlTree Leaf 0.
Definition avl_swap (t1 t2 : avl_tree A) : avl_tree A * avl_tree A :=
  (AvlTree (avl_root t2) (avl_nnodes t2), AvlTree (avl_root t1) (avl_nnodes t1)).
Definition avl_numnodes (t : avl_tree A) : Z := avl_nnodes t.
Definition avl_is_empty (t : avl_tree A) : bool := avl_nnodes t =? 0.

(** The cookie of [avl_destroy_nodes]: NULL before the first call, CHILDBIT
    when the root has been returned, otherwise the parent and child index of
    the node returned last, which is still attached there. *)
Inductive cookie : Type :=
| CookieNull
| CookieDone
| CookieAt (f : frame A) (p : path A).

Definition cookie_for (p : path A) : cookie :=
  match p with [] => CookieDone | f :: p' => CookieAt f p' end.

(** [check_right_side]: a node with no left child; its right child, when there
    is one, comes first. *)
Definition check_right_side (z : pos) : A * cookie :=
  match p_r z with
  | Leaf => (p_x z, cookie_for (p_path z))
  | Node _ y _ _ => (y, CookieAt (Frame true (p_x z) (p_bal z) (p_l z)) (p_path z))
  end.

Definition avl_destroy_nodes (t : avl_tree A) (ck : cookie)
    : option A * avl_tree A * cookie :=
  match ck with
  | CookieNull =>
      match descend false (avl_root t) [] with
      | None => (None, t, CookieDone)
      | Some z => let '(x, ck') := check_right_side z in (Some x, t, ck')
      end
  | CookieDone =>
      match avl_root t with
      | Leaf => (None, t, CookieDone)
      | Node _ _ _ _ => (None, AvlTree Leaf 0, CookieDone)
      end
  | CookieAt f p =>
      let t' := AvlTree (plug (up f (f_bal f) Leaf) p) (sub64 (avl_nnodes t) 1) in
      match f_child f, f_sib f with
      | false, Node _ _ _ _ =>
          match descend false (f_sib f) (Frame true (f_data f) (f_bal f) Leaf :: p) with
          | None => (None, t', CookieDone)
          | Some z => let '(x, ck') := check_right_side z in (Some x, t', ck')
          end
      | _, _ => (Some (f_data f), t', cookie_for p)
      end
  end.

(** [while ((node = avl_destroy_nodes(tree, &cookie)) != NULL)]: the nodes in
    the order they are returned, and the tree left. *)
Fixpoint destroy_loop (fuel : nat) (t : avl_tree A) (ck : cookie)
    : option (list A * avl_tree A) :=
  match fuel with
  | O => None
  | S fuel' =>
      match avl_destroy_nodes t ck with
      | (None, t', _) => Some ([], t')
      | (Some x, t', ck') =>
          '(xs, t'') ← destroy_loop fuel' t' ck'; Some (x :: xs, t'')
      end
  end.

(** [for (x = avl_first(t); x != NULL; x = AVL_NEXT(t, x))], the iteration the
    clients use: the nodes visited from [cur] on. *)
Fixpoint next_loop (fuel : nat) (t : avl_tree A) (cur : option A) : option (list A) :=
  match cur with
  | None => Some []
  | Some x =>
      match fuel with
      | O => None
      | S fuel' => cons x <$> next_loop fuel' t (AVL_NEXT t x)
      end
  end.
End Avl.

(** * Properties *)

Section Props.
Context {A : Type}.
Implicit Types (t l r c : tree A) (x y : A) (p : path A) (d : bool).

(** ** The abstract value of a tree: its nodes from left to right *)

Fixpoint inorder (t : tree A) : list A :=
  match t with
  | Leaf => []
  | Node l x _ r => inorder l ++ x :: inorder r
  end.

(** The nodes to the left and to the right of a position. *)
Fixpoint before (p : path A) : list A :=
  match p with
  | [] => []
  | f :: p' => before p' ++ (if f_child f then inorder (f_sib f) ++ [f_data f] else [])
  end.
Fixpoint after (p : path A) : list A :=
  match p with
  | [] => []
  | f :: p' => (if f_child f then [] else f_data f :: inorder (f_sib f)) ++ after p'
  end.

Lemma inorder_plug t p : inorder (plug t p) = before p ++ inorder t ++ after p.
Proof.
  revert t; induction p as [|f p IH]; intros t; cbn; [by rewrite app_nil_r|].
  rewrite IH. unfold up, mk. destruct (f_child f); cbn;
    repeat rewrite <- app_assoc; cbn; reflexivity.
Qed.

(** ** Balance *)

Fixpoint height (t : tree A) : Z :=
  match t with
  | Leaf => 0
  | Node l _ _ r => 1 + Z.max (height l) (height r)
  end.

Fixpoint balanced (t : tree A) : Prop :=
  match t with
  | Leaf => True
  | Node l _ b r =>
      b = height r - height l /\ -1 <= b <= 1 /\ balanced l /\ balanced r
  end.

(** [p] is the context of a balanced tree whose hole has height [h]. *)
Fixpoint path_ok (p : path A) (h : Z) : Prop :=
  match p with
  | [] => True
  | f :: p' =>
      f_bal f = (if f_child f then h - height (f_sib f) else height (f_sib f) - h) /\
      -1 <= f_bal f <= 1 /\ balanced (f_sib f) /\
      path_ok p' (1 + Z.max h (height (f_sib f)))
  end.

(** A tree as the client holds it: balanced, with its node count. *)
Definition avl_wf (t : avl_tree A) : Prop :=
  balanced (avl_root t) /\
  avl_nnodes t = wrap64 (Z.of_nat (length (inorder (avl_root t)))).

Lemma height_nonneg t : 0 <= height t.
Proof. induction t; cbn; lia. Qed.

Ltac heights :=
  repeat match goal with
  | t : tree A |- _ =>
      lazymatch goal with
      | _ : 0 <= height t |- _ => fail
      | _ => pose proof (height_nonneg t)
      end
  end.

Ltac solve_bal := heights; destruct_and?; split_and?; auto; lia.

Lemma height_mk d c x b s : height (mk d c x b s) = 1 + Z.max (height c) (height s).
Proof. destruct d; cbn; lia. Qed.

Lemma plug_balanced t p : balanced t -> path_ok p (height t) -> balanced (plug t p).
Proof.
  revert t; induction p as [|f p IH]; intros t Ht Hp; cbn in *; [done|].
  destruct Hp as (Hb & Hr & Hs & Hp). apply IH.
  - unfold up, mk. destruct (f_child f); cbn; solve_bal.
  - unfold up. by rewrite height_mk.
Qed.

Lemma balanced_plug t p : balanced (plug t p) -> balanced t /\ path_ok p (height t).
Proof.
  revert t; induction p as [|f p IH]; intros t H; cbn in *; [done|].
  apply IH in H as [H Hp]. unfold up in *. rewrite height_mk in Hp.
  unfold mk in H. destruct (f_child f); cbn in H; solve_bal.
Qed.

(** ** Rotation *)

Lemma rotation_inorder l x r b :
  inorder (fst (avl_rotation l x r b)) = inorder l ++ x :: inorder r.
Proof.
  unfold avl_rotation, avl_child, mk.
  destruct (b <? 0); cbn.
  - destruct l as [|cl cx cb cr]; cbn; [done|].
    split_if; cbn; [by rewrite <- app_assoc|].
    destruct cr as [|gl gx gb gr]; cbn; [done|].
    by repeat (rewrite <- app_assoc; cbn).
  - destruct r as [|cl cx cb cr]; cbn; [done|].
    split_if; cbn; [by rewrite <- app_assoc|].
    destruct cl as [|gl gx gb gr]; cbn; [done|].
    by repeat (rewrite <- app_assoc; cbn).
Qed.

Lemma rotation_balanced l x r b :
  balanced l -> balanced r -> b = height r - height l -> Z.abs b = 2 ->
  balanced (fst (avl_rotation l x r b)) /\
  height (fst (avl_rotation l x r b)) =
    1 + Z.max (height l) (height r) - (if snd (avl_rotation l x r b) then 1 else 0).
Proof.
  intros Hl Hr Hb Hab. unfold avl_rotation, avl_child, mk.
  assert (b = -2 \/ b = 2) as [-> | ->] by lia; cbn.
  - change (Z.shiftr (-2) 1) with (-1). change (- -1) with 1.
    destruct l as [|cl cx cb cr]; cbn in *; [heights; lia|].
    destruct Hl as (Hcb & Hcr & Hcl & Hcr').
    destruct (Z.eqb_spec cb 1) as [->|]; cbn.
    + destruct cr as [|gl gx gb gr]; cbn in *; [heights; lia|].
      destruct (Z.eqb_spec gb 1), (Z.eqb_spec gb (-1)); solve_bal.
    + destruct (Z.eqb_spec (cb + 1) 0); solve_bal.
  - change (Z.shiftr 2 1) with 1. change (Z.opp 1) with (-1).
    destruct r as [|cl cx cb cr]; cbn in *; [heights; lia|].
    destruct Hr as (Hcb & Hcr & Hcl & Hcr').
    destruct (Z.eqb_spec cb (-1)) as [->|]; cbn.
    + destruct cl as [|gl gx gb gr]; cbn in *; [heights; lia|].
      destruct (Z.eqb_spec gb 1), (Z.eqb_spec gb (-1)); solve_bal.
    + destruct (Z.eqb_spec (cb + -1) 0); solve_bal.
Qed.

Lemma rotate_up_inorder f c b :
  inorder (fst (rotate_up f c b)) = inorder (up f b c).
Proof.
  unfold rotate_up, up, mk. destruct (f_child f); by rewrite rotation_inorder.
Qed.

Lemma rotate_up_balanced f c b :
  balanced c -> balanced (f_sib f) ->
  b = (if f_child f then height c - height (f_sib f) else height (f_sib f) - height c) ->
  Z.abs b = 2 ->
  balanced (fst (rotate_up f c b)) /\
  height (fst (rotate_up f c b)) =
    1 + Z.max (height c) (height (f_sib f)) - (if snd (rotate_up f c b) then 1 else 0).
Proof.
  intros Hc Hs Hb Hab. unfold rotate_up. destruct (f_child f).
  - destruct (rotation_balanced (f_sib f) (f_data f) c b) as [H1 H2]; auto.
    split; [done|]. rewrite H2. lia.
  - apply rotation_balanced; auto.
Qed.
(** ** Insertion *)

Lemma inorder_up f b c :
  inorder (up f b c) =
  (if f_child f then inorder (f_sib f) ++ [f_data f] else []) ++ inorder c ++
  (if f_child f then [] else f_data f :: inorder (f_sib f)).
Proof.
  unfold up, mk. destruct (f_child f); cbn; [by rewrite app_nil_r, <- app_assoc|done].
Qed.

Lemma inorder_plug_up f b c p :
  inorder (plug (up f b c) p) = before (f :: p) ++ inorder c ++ after (f :: p).
Proof. rewrite inorder_plug, inorder_up. cbn. by rewrite <- !app_assoc. Qed.

Lemma insert_up_inorder c p :
  inorder (insert_up c p) = before p ++ inorder c ++ after p.
Proof.
  revert c; induction p as [|f p IH]; intros c; [cbn; by rewrite app_nil_r|].
  cbn [insert_up]. repeat split_if.
  - apply inorder_plug_up.
  - by rewrite inorder_plug, rotate_up_inorder, <- inorder_plug, inorder_plug_up.
  - rewrite IH, inorder_up. cbn. by rewrite <- !app_assoc.
Qed.

Definition root_bal (t : tree A) : Z :=
  match t with Leaf => 0 | Node _ _ b _ => b end.

Lemma rotation_shrinks l x r b :
  balanced l -> balanced r -> b = height r - height l -> Z.abs b = 2 ->
  root_bal (avl_child (negb (b <? 0)) l r) <> 0 ->
  snd (avl_rotation l x r b) = true.
Proof.
  intros Hl Hr Hb Hab Hne. unfold avl_rotation, avl_child in *.
  assert (b = -2 \/ b = 2) as [-> | ->] by lia; cbn in *.
  - change (Z.shiftr (-2) 1) with (-1). change (- -1) with 1.
    destruct l as [|cl cx cb cr]; cbn in *; [done|].
    destruct (Z.eqb_spec cb 1); cbn.
    + destruct cr; [cbn in *; solve_bal | done].
    + apply Z.eqb_eq. lia.
  - change (Z.shiftr 2 1) with 1. change (Z.opp 1) with (-1).
    destruct r as [|cl cx cb cr]; cbn in *; [done|].
    destruct (Z.eqb_spec cb (-1)); cbn.
    + destruct cl; [cbn in *; solve_bal | done].
    + apply Z.eqb_eq. lia.
Qed.

Lemma root_bal_up f b c : root_bal (up f b c) = b.
Proof. unfold up, mk. by destruct (f_child f). Qed.

Lemma up_balanced f b c :
  balanced c -> balanced (f_sib f) -> -1 <= b <= 1 ->
  b = (if f_child f then height c - height (f_sib f) else height (f_sib f) - height c) ->
  balanced (up f b c).
Proof. unfold up, mk. destruct (f_child f); cbn; intros; solve_bal. Qed.

Lemma height_up f b c : height (up f b c) = 1 + Z.max (height c) (height (f_sib f)).
Proof. apply height_mk. Qed.

Lemma insert_up_balanced c p h :
  balanced c -> height c = h + 1 -> (h = 0 \/ root_bal c <> 0) -> path_ok p h ->
  balanced (insert_up c p).
Proof.
  revert c h; induction p as [|f p IH]; intros c h Hc Hh Hg Hp; [done|]. cbn [insert_up].
  destruct Hp as (Hb & Hr & Hs & Hp).
  pose proof (height_nonneg (f_sib f)) as Hnn.
  assert (avl_child2balance (f_child f) = if f_child f then 1 else -1) as Hcb by done.
  repeat split_if.
  - apply plug_balanced.
    + apply up_balanced; auto; [lia|]. destruct (f_child f); lia.
    + rewrite height_up. replace (Z.max _ _) with (Z.max h (height (f_sib f)));
        [done|]. destruct (f_child f); lia.
  - destruct (rotate_up_balanced f c (f_bal f + avl_child2balance (f_child f)))
      as [H1 H2]; auto; [destruct (f_child f); lia .. |].
    apply plug_balanced; [done|]. rewrite H2.
    assert (snd (rotate_up f c (f_bal f + avl_child2balance (f_child f))) = true) as ->.
    { unfold rotate_up in *. destruct (f_child f) eqn:Ef.
      - apply rotation_shrinks; auto; [lia..|]. rewrite Hcb.
        destruct (Z.ltb_spec (f_bal f + 1) 0); [lia|]. cbn. destruct Hg; [lia|done].
      - apply rotation_shrinks; auto; [lia..|]. rewrite Hcb.
        destruct (Z.ltb_spec (f_bal f + -1) 0); [|lia]. cbn. destruct Hg; [lia|done]. }
    replace (1 + Z.max (height c) (height (f_sib f)) - 1)
      with (1 + Z.max h (height (f_sib f))); [done|].
    destruct (f_child f); lia.
  - eapply IH with (h := 1 + Z.max h (height (f_sib f))); auto.
    + apply up_balanced; auto; destruct (f_child f); lia.
    + rewrite height_up. destruct (f_child f); lia.
    + right. rewrite root_bal_up. destruct (f_child f); lia.
Qed.

(** ** Deletion *)

Lemma before_app q p : before (q ++ p) = before p ++ before q.
Proof.
  induction q as [|f q IH]; cbn; [by rewrite app_nil_r|].
  by rewrite IH, <- app_assoc.
Qed.

Lemma after_app q p : after (q ++ p) = after q ++ after p.
Proof. induction q as [|f q IH]; cbn; [done|]. by rewrite IH, <- app_assoc. Qed.

Lemma plug_app t q p : plug t (q ++ p) = plug (plug t q) p.
Proof. revert t; induction q as [|f q IH]; intros t; cbn; auto. Qed.

Lemma after_right q : Forall (fun f => f_child f = true) q -> after q = [].
Proof. induction 1 as [|f q Hf Hq IH]; cbn; [done|]. by rewrite Hf. Qed.

Lemma before_left q : Forall (fun f => f_child f = false) q -> before q = [].
Proof. induction 1 as [|f q Hf Hq IH]; cbn; [done|]. by rewrite Hf, IH. Qed.

(** The subtree at a position. *)
Definition at_pos (z : pos (A := A)) : tree A := Node (p_l z) (p_x z) (p_bal z) (p_r z).

Lemma descend_spec d t p z :
  descend d t p = Some z ->
  exists q, p_path z = q ++ p /\ Forall (fun f => f_child f = d) q /\
    plug (at_pos z) q = t /\ avl_child d (p_l z) (p_r z) = Leaf.
Proof.
  revert p; induction t as [|l IHl x b r IHr]; intros p; cbn; [done|].
  destruct (descend d (avl_child d l r) _) as [z'|] eqn:E; intros [= <-].
  - assert (exists q, p_path z' = q ++ Frame d x b (avl_child (negb d) l r) :: p /\
      Forall (fun f => f_child f = d) q /\
      plug (at_pos z') q = avl_child d l r /\ avl_child d (p_l z') (p_r z') = Leaf)
      as (q & Hq & Hall & Hplug & Hleaf) by (destruct d; eauto).
    exists (q ++ [Frame d x b (avl_child (negb d) l r)]). split_and!; auto.
    + by rewrite Hq, <- app_assoc.
    + apply Forall_app; auto.
    + rewrite plug_app, Hplug. by destruct d.
  - exists []. split_and!; auto. cbn.
    destruct (avl_child d l r) as [|l' x' b' r'] eqn:Ec; [done|exfalso].
    cbn in E. by case_match.
Qed.

Lemma descend_is_Some d l x b r p : is_Some (descend d (Node l x b r) p).
Proof. cbn. case_match; eauto. Qed.

Lemma remove_up_inorder c p :
  inorder (remove_up c p) = before p ++ inorder c ++ after p.
Proof.
  revert c; induction p as [|f p IH]; intros c; [cbn; by rewrite app_nil_r|].
  cbn [remove_up]. repeat split_if.
  - apply inorder_plug_up.
  - rewrite IH, inorder_up. cbn. by rewrite <- !app_assoc.
  - pose proof (rotate_up_inorder f c
      (f_bal f - avl_child2balance (f_child f))) as Hrot.
    destruct (rotate_up f c _) as [t' sh]; cbn in Hrot.
    destruct sh; rewrite ?IH, ?inorder_plug, Hrot, inorder_up; cbn;
      by rewrite <- !app_assoc.
Qed.

Lemma remove_up_balanced c p h :
  balanced c -> height c = h - 1 -> path_ok p h -> balanced (remove_up c p).
Proof.
  revert c h; induction p as [|f p IH]; intros c h Hc Hh Hp; [done|]. cbn [remove_up].
  destruct Hp as (Hb & Hr & Hs & Hp).
  assert (avl_child2balance (f_child f) = if f_child f then 1 else -1) as Hcb by done.
  repeat split_if.
  - apply plug_balanced.
    + apply up_balanced; auto; destruct (f_child f); lia.
    + rewrite height_up. replace (Z.max _ _) with (Z.max h (height (f_sib f)));
        [done|]. destruct (f_child f); lia.
  - eapply IH with (h := 1 + Z.max h (height (f_sib f))); auto.
    + apply up_balanced; auto; destruct (f_child f); lia.
    + rewrite height_up. destruct (f_child f); lia.
  - destruct (rotate_up_balanced f c (f_bal f - avl_child2balance (f_child f)))
      as [H1 H2]; auto; [destruct (f_child f); lia .. |].
    destruct (rotate_up f c _) as [t' sh]; cbn in *.
    destruct sh.
    + eapply IH with (h := 1 + Z.max h (height (f_sib f))); auto.
      rewrite H2. destruct (f_child f); lia.
    + apply plug_balanced; [done|]. rewrite H2.
      replace (1 + Z.max (height c) (height (f_sib f)) - 0)
        with (1 + Z.max h (height (f_sib f))); [done|]. destruct (f_child f); lia.
Qed.

(** Unlinking a node that has at most one child. *)
Lemma unlink_spec l x b r p d :
  avl_child d l r = Leaf -> balanced (plug (Node l x b r) p) ->
  balanced (unlink l r p) /\
  inorder (unlink l r p) = before p ++ (inorder l ++ inorder r) ++ after p.
Proof.
  intros Hd Hbal. apply balanced_plug in Hbal as [Hb Hp].
  assert (inorder (match l with Leaf => r | _ => l end) = inorder l ++ inorder r) as Hin.
  { destruct d, l; cbn in Hd; subst; cbn; by rewrite ?app_nil_r. }
  unfold unlink. split.
  - eapply remove_up_balanced; [..|exact Hp].
    + destruct l; cbn in Hb |- *; tauto.
    + destruct d; cbn in Hd; subst; cbn in Hb |- *.
      * destruct l; cbn in *; solve_bal.
      * solve_bal.
  - by rewrite remove_up_inorder, Hin.
Qed.

Lemma remove_pos_spec z :
  balanced (plug (at_pos z) (p_path z)) ->
  balanced (remove_pos z) /\
  inorder (remove_pos z) =
    before (p_path z) ++ (inorder (p_l z) ++ inorder (p_r z)) ++ after (p_path z).
Proof.
  destruct z as [l x b r p]; unfold at_pos, remove_pos.
  cbn [p_l p_x p_bal p_r p_path]. intros Hbal.
  destruct l as [|ll lx lb lr] eqn:El; [by eapply (unlink_spec Leaf x b r p false)|].
  destruct r as [|rl rx rb rr] eqn:Er; [by eapply (unlink_spec _ x b Leaf p true)|].
  rewrite <- El, <- Er in *.
  set (left := avl_balance2child b).
  destruct (descend (negb left) (avl_child left l r) []) as [n|] eqn:En.
  2: { exfalso. destruct left, l, r; cbn in En; simplify_eq; by case_match. }
  apply descend_spec in En as (q & Hq & Hall & Hplug & Hleaf).
  rewrite app_nil_r in Hq. rewrite Hq. clear ll lx lb lr El rl rx rb rr Er.
  set (f := Frame left (p_x n) b (avl_child (negb left) l r)).
  assert (balanced (plug (at_pos n) (q ++ f :: p))) as Hbal'.
  { rewrite plug_app, Hplug. cbn. apply balanced_plug in Hbal as [Hb1 Hp1].
    apply plug_balanced; unfold f, up, mk; destruct left; cbn in *; auto. }
  destruct (unlink_spec _ _ _ _ _ _ Hleaf Hbal') as [H1 H2].
  split; [done|]. rewrite H2.
  rewrite before_app, after_app. cbn. unfold at_pos in Hplug.
  apply (f_equal inorder) in Hplug. rewrite inorder_plug in Hplug. cbn in Hplug.
  destruct left; cbn in *.
  - rewrite (before_left q) in * by done. rewrite Hleaf in *. cbn in *.
    rewrite <- Hplug. by repeat (rewrite <- app_assoc; cbn).
  - rewrite (after_right q) in * by done. rewrite Hleaf in *. cbn in *.
    rewrite <- Hplug. by repeat (rewrite <- ?app_assoc, ?app_nil_r; cbn).
Qed.

(** ** Walks *)

Lemma descend_first t p : fmap (M := option) p_x (descend false t p) = head (inorder t).
Proof.
  destruct (descend false t p) as [z|] eqn:E.
  - apply descend_spec in E as (q & _ & Hall & <- & Hleaf). cbn.
    rewrite inorder_plug, before_left by done. cbn in *. by rewrite Hleaf.
  - destruct t as [|l x b r]; [done|].
    destruct (descend_is_Some false l x b r p) as [z Hz]. congruence.
Qed.

Lemma descend_last t p : fmap (M := option) p_x (descend true t p) = last (inorder t).
Proof.
  destruct (descend true t p) as [z|] eqn:E.
  - apply descend_spec in E as (q & _ & Hall & <- & Hleaf). cbn.
    rewrite inorder_plug, after_right by done. cbn in *.
    rewrite Hleaf, app_nil_r; cbn. by rewrite app_assoc, last_snoc.
  - destruct t as [|l x b r]; [done|].
    destruct (descend_is_Some true l x b r p) as [z Hz]. congruence.
Qed.

Lemma climb_next p : climb false p = head (after p).
Proof. induction p as [|f p IH]; cbn; [done|]. by destruct (f_child f). Qed.

Lemma climb_prev p : climb true p = last (before p).
Proof.
  induction p as [|f p IH]; cbn; [done|]. destruct (f_child f); cbn.
  - by rewrite app_assoc, last_snoc.
  - by rewrite app_nil_r.
Qed.

Lemma head_inorder_app l x b r (k : list A) :
  head (inorder (Node l x b r) ++ k) = head (inorder (Node l x b r)).
Proof. cbn. destruct (inorder l); done. Qed.

Lemma walk_pos_next z :
  walk_pos true z = head (inorder (p_r z) ++ after (p_path z)).
Proof.
  unfold walk_pos; cbn. destruct (p_r z) as [|l x b r] eqn:E; [apply climb_next|].
  rewrite head_inorder_app. apply (descend_first (Node l x b r)).
Qed.

Lemma last_app_r (k1 k2 : list A) : k2 <> [] -> last (k1 ++ k2) = last k2.
Proof. intros H. destruct k2 as [|k2 a _] using rev_ind; [done|].
  by rewrite app_assoc, !last_snoc. Qed.

Lemma walk_pos_prev z :
  walk_pos false z = last (before (p_path z) ++ inorder (p_l z)).
Proof.
  unfold walk_pos; cbn. destruct (p_l z) as [|l x b r] eqn:E.
  - cbn. rewrite app_nil_r. apply climb_prev.
  - rewrite last_app_r by (cbn; by destruct (inorder l)).
    apply (descend_last (Node l x b r)).
Qed.

Lemma avl_nearest_next (t : avl_tree A) w : avl_nearest t w true = head (after w).
Proof.
  destruct w as [|[[] x b s] p]; [done| |done]. apply (walk_pos_next (Pos s x b Leaf p)).
Qed.

Lemma avl_nearest_prev (t : avl_tree A) w : avl_nearest t w false = last (before w).
Proof.
  destruct w as [|[[] x b s] p]; [done| |].
  - cbn. by rewrite app_assoc, last_snoc.
  - etransitivity; [apply (walk_pos_prev (Pos Leaf x b s p))|].
    cbn. by rewrite !app_nil_r.
Qed.

Lemma avl_first_spec (t : avl_tree A) : avl_first t = head (inorder (avl_root t)).
Proof. apply descend_first. Qed.

Lemma avl_last_spec (t : avl_tree A) : avl_last t = last (inorder (avl_root t)).
Proof. apply descend_last. Qed.

(** ** Search *)

Section FindProps.
Context {V : Type} `{!Compar V A}.

(** The value [v] cuts a sequence in the nodes it is greater than, those it
    matches and those it is less than. *)
Definition cut (v : V) (L1 M L2 : list A) : Prop :=
  Forall (fun y => 0 < avl_compar v y) L1 /\
  Forall (fun y => avl_compar v y = 0) M /\
  Forall (fun y => avl_compar v y < 0) L2.

(** The sign of [avl_compar v] never grows along the sequence. *)
Definition mono (v : V) : list A -> Prop :=
  StronglySorted (fun y z => Z.sgn (avl_compar v z) <= Z.sgn (avl_compar v y)).

Lemma ss_all {B} (R : B -> B -> Prop) (k : list B) :
  (forall a b, a ∈ k -> b ∈ k -> R a b) -> StronglySorted R k.
Proof.
  induction k as [|a k IH]; intros H; constructor.
  - apply IH. intros; apply H; by right.
  - apply Forall_forall. intros; apply H; [by left | by right].
Qed.

Lemma cut_mono v L1 M L2 : cut v L1 M L2 -> mono v (L1 ++ M ++ L2).
Proof.
  intros (H1 & H2 & H3). rewrite Forall_forall in H1, H2, H3.
  assert (forall a, a ∈ L1 -> Z.sgn (avl_compar v a) = 1) as H1'.
  { intros; apply Z.sgn_pos; auto. }
  assert (forall a, a ∈ M -> Z.sgn (avl_compar v a) = 0) as H2'.
  { intros; apply Z.sgn_null_iff; auto. }
  assert (forall a, a ∈ L2 -> Z.sgn (avl_compar v a) = -1) as H3'.
  { intros; apply Z.sgn_neg; auto. }
  assert (forall a b, (a ∈ L1 \/ a ∈ M /\ b ∉ L1 \/ b ∈ L2) -> b ∈ L1 ++ M ++ L2 ->
    a ∈ L1 ++ M ++ L2 -> Z.sgn (avl_compar v b) <= Z.sgn (avl_compar v a)) as Hle.
  { intros a b Hab Hb Ha. pose proof (Z.sgn_spec (avl_compar v a)).
    pose proof (Z.sgn_spec (avl_compar v b)).
    destruct Hab as [Hab|[[Hab Hn]|Hab]].
    - rewrite (H1' a) by done. lia.
    - rewrite (H2' a) by done. rewrite !elem_of_app in Hb.
      destruct Hb as [Hb|[Hb|Hb]]; [done|rewrite (H2' b)|rewrite (H3' b)]; done || lia.
    - rewrite (H3' b) by done. lia. }
  apply StronglySorted_app_2; [set_solver|apply ss_all; set_solver|].
  apply StronglySorted_app_2; [set_solver| |apply ss_all; set_solver].
  apply ss_all. intros a b Ha Hb. by rewrite (H2' a), (H2' b).
Qed.

Lemma mono_split v k1 x k2 :
  mono v (k1 ++ x :: k2) ->
  (forall y, y ∈ k1 -> Z.sgn (avl_compar v x) <= Z.sgn (avl_compar v y)) /\
  (forall y, y ∈ k2 -> Z.sgn (avl_compar v y) <= Z.sgn (avl_compar v x)).
Proof.
  intros H. split.
  - intros y Hy. apply (StronglySorted_app_1_elem_of _ _ _ _ _ H); auto. by left.
  - apply StronglySorted_app_1_r in H. apply StronglySorted_inv in H as [_ H].
    by rewrite Forall_forall in H.
Qed.

Lemma find_loop_spec v t p :
  mono v (before p ++ inorder t ++ after p) ->
  Forall (fun y => 0 < avl_compar v y) (before p) ->
  Forall (fun y => avl_compar v y < 0) (after p) ->
  match find_loop v t p with
  | inl z => avl_compar v (p_x z) = 0 /\ plug (at_pos z) (p_path z) = plug t p
  | inr w => cut v (before w) [] (after w) /\ plug Leaf w = plug t p
  end.
Proof.
  revert p; induction t as [|l IHl x b r IHr]; intros p Hm Hb Ha; cbn.
  - split; [|done]. split_and!; auto.
  - destruct (Z.eqb_spec (avl_compar v x) 0) as [|Hne]; [done|].
    cbn in Hm. rewrite <- app_assoc in Hm.
    rewrite app_assoc in Hm. cbn in Hm.
    destruct (mono_split _ _ _ _ Hm) as [Hpre Hpost].
    unfold avl_balance2child. destruct (Z.ltb_spec 0 (avl_compar v x)) as [Hpos|Hneg].
    + change (avl_child true l r) with r. change (avl_child (negb true) l r) with l.
      apply (IHr (Frame true x b l :: p)); cbn; auto.
      * by rewrite <- !app_assoc in *.
      * rewrite app_assoc. apply Forall_app; split; [|by repeat constructor].
        apply Forall_forall. intros y Hy. apply Hpre in Hy.
        rewrite (Z.sgn_pos (avl_compar v x)) in Hy by done.
        apply Z.sgn_pos_iff. pose proof (Z.sgn_spec (avl_compar v y)). lia.
    + change (avl_child false l r) with l. change (avl_child (negb false) l r) with r.
      apply (IHl (Frame false x b r :: p)); cbn; rewrite ?app_nil_r; auto.
      * by rewrite <- !app_assoc in *.
      * constructor; [lia|]. apply Forall_forall. intros y Hy. apply Hpost in Hy.
        rewrite (Z.sgn_neg (avl_compar v x)) in Hy by lia.
        apply Z.sgn_neg_iff. pose proof (Z.sgn_spec (avl_compar v y)). lia.
Qed.

Lemma cut_unique v L1 M L2 L1' M' L2' :
  cut v L1 M L2 -> cut v L1' M' L2' -> L1 ++ M ++ L2 = L1' ++ M' ++ L2' ->
  L1 = L1' /\ M = M' /\ L2 = L2'.
Proof.
  intros Hc Hc' Heq.
  assert (forall K1 N K2, cut v K1 N K2 ->
    K1 = filter (fun y => 0 < avl_compar v y) (K1 ++ N ++ K2) /\
    N = filter (fun y => avl_compar v y = 0) (K1 ++ N ++ K2) /\
    K2 = filter (fun y => avl_compar v y < 0) (K1 ++ N ++ K2)) as Hf.
  { intros K1 N K2 (H1 & H2 & H3).
    rewrite !filter_app. split_and!.
    - rewrite (filter_all _ _ _ H1), (filter_none _ _ _ H2), (filter_none _ _ _ H3);
        [by rewrite app_nil_r|intros; cbn in *; lia..].
    - rewrite (filter_none _ _ _ H1), (filter_all _ _ _ H2), (filter_none _ _ _ H3);
        [by rewrite app_nil_r|intros; cbn in *; lia..].
    - rewrite (filter_none _ _ _ H1), (filter_none _ _ _ H2), (filter_all _ _ _ H3);
        [done|intros; cbn in *; lia..]. }
  destruct (Hf _ _ _ Hc) as (E1 & E2 & E3), (Hf _ _ _ Hc') as (E1' & E2' & E3').
  rewrite Heq in E1, E2, E3. split_and!; congruence.
Qed.

(** [avl_find] on a tree that [v] cuts. *)
Lemma avl_find_spec (t : avl_tree A) v L1 M L2 :
  cut v L1 M L2 -> inorder (avl_root t) = L1 ++ M ++ L2 ->
  match avl_find t v with
  | inl x => x ∈ M
  | inr w => M = [] /\ plug Leaf w = avl_root t /\ before w = L1 /\ after w = L2
  end.
Proof.
  intros Hc Hin. unfold avl_find.
  pose proof (find_loop_spec v (avl_root t) []) as Hf. cbn in Hf.
  rewrite app_nil_r, Hin in Hf.
  specialize (Hf (cut_mono _ _ _ _ Hc) (Forall_nil_2 _) (Forall_nil_2 _)).
  destruct (find_loop v (avl_root t) []) as [z|w].
  - destruct Hf as [H0 Hplug]. apply (f_equal inorder) in Hplug.
    rewrite inorder_plug, Hin in Hplug. cbn in Hplug.
    assert (p_x z ∈ L1 ++ M ++ L2) as Hx by (rewrite <- Hplug; set_solver).
    destruct Hc as (H1 & _ & H3). rewrite Forall_forall in H1, H3.
    rewrite !elem_of_app in Hx. destruct Hx as [Hx|[Hx|Hx]]; [|done|].
    + apply H1 in Hx. lia.
    + apply H3 in Hx. lia.
  - destruct Hf as [Hc' Hplug].
    assert (L1 ++ M ++ L2 = before w ++ [] ++ after w) as Heq.
    { rewrite <- Hin, <- Hplug, inorder_plug. done. }
    destruct (cut_unique _ _ _ _ _ _ _ Hc Hc' Heq) as (-> & -> & ->). done.
Qed.
End FindProps.

(** ** The operations on whole trees

    [elements t] is the abstract value of a tree; each lemma says what an
    operation does to it and that the tree stays well formed. *)

Definition elements (t : avl_tree A) : list A := inorder (avl_root t).

Lemma avl_create_wf : avl_wf (avl_create (A := A)).
Proof. split; done. Qed.

(** [w] is an insertion point of [t]. *)
Definition hole (t : avl_tree A) (w : path A) : Prop := plug Leaf w = avl_root t.

Lemma hole_elements (t : avl_tree A) w : hole t w -> elements t = before w ++ after w.
Proof. unfold hole, elements. intros <-. by rewrite inorder_plug. Qed.

Lemma avl_insert_spec (t : avl_tree A) x w :
  avl_wf t -> hole t w ->
  avl_wf (avl_insert t x w) /\ elements (avl_insert t x w) = before w ++ x :: after w.
Proof.
  intros [Hb Hn] Hw. pose proof (hole_elements _ _ Hw) as Hel.
  assert (elements (avl_insert t x w) = before w ++ x :: after w) as Hins.
  { unfold elements, avl_insert; cbn. by rewrite insert_up_inorder. }
  split; [|done]. unfold hole in Hw. rewrite <- Hw in Hb.
  apply balanced_plug in Hb as [_ Hp]. split.
  - apply (insert_up_balanced _ _ 0); cbn; auto with lia.
  - fold (elements (avl_insert t x w)). rewrite Hins. cbn. rewrite Hn.
    fold (elements t). rewrite Hel, !length_app. cbn. unfold add64.
    rewrite wrap64_add_l. f_equal. lia.
Qed.

Section OnNodes.
Context `{EqDecision A}.

Lemma locate_Some x t p z :
  locate x t p = Some z -> p_x z = x /\ plug (at_pos z) (p_path z) = plug t p.
Proof.
  revert p; induction t as [|l IHl y b r IHr]; intros p; cbn; [done|].
  destruct (decide (y = x)) as [->|]; [by intros [= <-]|].
  destruct (locate x l _) eqn:E; [intros [= <-]; by apply IHl in E|].
  intros E'. by apply IHr in E'.
Qed.

Lemma locate_None x t p : locate x t p = None -> x ∉ inorder t.
Proof.
  revert p; induction t as [|l IHl y b r IHr]; intros p; cbn; [set_solver|].
  destruct (decide (y = x)) as [->|]; [done|].
  destruct (locate x l _) eqn:E; [done|]. intros E'.
  apply IHl in E. apply IHr in E'. set_solver.
Qed.

(** The position of [x] in a tree that holds it once. *)
Lemma locate_split (t : avl_tree A) k1 x k2 :
  elements t = k1 ++ x :: k2 -> NoDup (elements t) ->
  exists z, locate x (avl_root t) [] = Some z /\ p_x z = x /\
    plug (at_pos z) (p_path z) = avl_root t /\
    k1 = before (p_path z) ++ inorder (p_l z) /\ k2 = inorder (p_r z) ++ after (p_path z).
Proof.
  intros Hel Hnd. destruct (locate x (avl_root t) []) as [z|] eqn:E.
  2: { apply locate_None in E. unfold elements in Hel. rewrite Hel in E. set_solver. }
  apply locate_Some in E as [Hx Hplug]. cbn in Hplug.
  assert (k1 ++ x :: k2 = (before (p_path z) ++ inorder (p_l z)) ++
            x :: inorder (p_r z) ++ after (p_path z)) as Heq.
  { rewrite <- Hel. unfold elements. rewrite <- Hplug, inorder_plug. cbn.
    rewrite Hx. by repeat (rewrite <- app_assoc; cbn). }
  rewrite Hel in Hnd. destruct (split_unique _ _ _ _ _ Hnd Heq) as [-> ->]. eauto 10.
Qed.

Lemma avl_remove_spec (t : avl_tree A) k1 x k2 :
  avl_wf t -> NoDup (elements t) -> elements t = k1 ++ x :: k2 ->
  avl_wf (avl_remove t x) /\ elements (avl_remove t x) = k1 ++ k2.
Proof.
  intros [Hb Hn] Hnd Hel.
  destruct (locate_split t k1 x k2 Hel Hnd) as (z & Hz & _ & Hplug & Hk1 & Hk2).
  rewrite <- Hplug in Hb. apply remove_pos_spec in Hb as [Hb Hin].
  assert (elements (avl_remove t x) = k1 ++ k2) as Hrem.
  { unfold elements, avl_remove. rewrite Hz; cbn. rewrite Hin, Hk1, Hk2.
    by rewrite <- !app_assoc. }
  split; [|done]. split; [unfold avl_remove; by rewrite Hz|].
  fold (elements (avl_remove t x)). rewrite Hrem. unfold avl_remove. rewrite Hz. cbn.
  rewrite Hn. fold (elements t). rewrite Hel, !length_app. cbn. unfold sub64.
  rewrite wrap64_sub_l. f_equal. lia.
Qed.

(** Deleting data the tree does not hold changes nothing. *)
Lemma avl_remove_absent (t : avl_tree A) x : x ∉ elements t -> avl_remove t x = t.
Proof.
  intros H. unfold avl_remove. destruct (locate x _ _) as [z|] eqn:E; [|done].
  apply locate_Some in E as [Hx Hp]. exfalso. apply H. unfold elements.
  apply (f_equal inorder) in Hp. cbn in Hp. rewrite <- Hp, inorder_plug. cbn. set_solver.
Qed.

Lemma avl_set_spec (t : avl_tree A) k1 x k2 y :
  avl_wf t -> NoDup (elements t) -> elements t = k1 ++ x :: k2 ->
  avl_wf (avl_set t x y) /\ elements (avl_set t x y) = k1 ++ y :: k2.
Proof.
  intros [Hb Hn] Hnd Hel.
  destruct (locate_split t k1 x k2 Hel Hnd) as (z & Hz & Hx & Hplug & Hk1 & Hk2).
  assert (elements (avl_set t x y) = k1 ++ y :: k2) as Hset.
  { unfold elements, avl_set. rewrite Hz; cbn. rewrite inorder_plug, Hk1, Hk2. cbn.
    by rewrite <- !app_assoc. }
  split; [|done]. split.
  - unfold avl_set. rewrite Hz; cbn. rewrite <- Hplug in Hb.
    apply balanced_plug in Hb as [Hb Hp]. apply plug_balanced; done.
  - fold (elements (avl_set t x y)). rewrite Hset. unfold avl_set. rewrite Hz. cbn.
    rewrite Hn. fold (elements t). by rewrite Hel, !length_app.
Qed.

Lemma avl_insert_here_spec (t : avl_tree A) k1 here k2 x d :
  avl_wf t -> NoDup (elements t) -> elements t = k1 ++ here :: k2 ->
  avl_wf (avl_insert_here t x here d) /\
  elements (avl_insert_here t x here d) =
    if d then k1 ++ here :: x :: k2 else k1 ++ x :: here :: k2.
Proof.
  intros Hwf Hnd Hel.
  destruct (locate_split t k1 here k2 Hel Hnd) as (z & Hz & Hx & Hplug & Hk1 & Hk2).
  unfold avl_insert_here. rewrite Hz.
  set (f := Frame d (p_x z) (p_bal z) (avl_child (negb d) (p_l z) (p_r z))).
  assert (plug (avl_child d (p_l z) (p_r z)) (f :: p_path z) = avl_root t) as Hf.
  { rewrite <- Hplug. cbn. unfold up, mk, f, at_pos. by destruct d. }
  destruct (avl_child d (p_l z) (p_r z)) as [|cl cx cb cr] eqn:Ec.
  - destruct (avl_insert_spec t x _ Hwf Hf) as [H1 H2]. split; [done|].
    rewrite H2. cbn. unfold f. cbn. rewrite Hk1, Hk2.
    destruct d; cbn in Ec |- *; rewrite Ec, Hx; cbn; by repeat (rewrite <- ?app_assoc, ?app_nil_r; cbn).
  - destruct (descend (negb d) (Node cl cx cb cr) (f :: p_path z)) as [n|] eqn:En.
    2: { destruct (descend_is_Some (negb d) cl cx cb cr (f :: p_path z)). congruence. }
    apply descend_spec in En as (q & Hq & Hall & Hplug' & Hleaf).
    set (g := Frame (negb d) (p_x n) (p_bal n) (avl_child d (p_l n) (p_r n))).
    assert (hole t (g :: p_path n)) as Hw.
    { unfold hole. rewrite Hq, app_comm_cons, plug_app, <- Hf. f_equal.
      rewrite <- Hplug'. cbn. f_equal. unfold up, mk, g, at_pos.
      destruct d; cbn in *; by rewrite Hleaf. }
    destruct (avl_insert_spec t x _ Hwf Hw) as [H1 H2]. split; [done|].
    rewrite H2. pose proof (hole_elements _ _ Hw) as Hall'.
    rewrite Hel in Hall'. cbn [before after] in *. rewrite Hq in *.
    rewrite before_app, after_app in *. cbn [before after] in *.
    apply (f_equal inorder) in Hplug'. rewrite inorder_plug in Hplug'. cbn in Hplug'.
    unfold f, g in *. destruct d; cbn in *.
    + rewrite (before_left q) in * by done. rewrite Hleaf in *. cbn in *.
      rewrite Hk1, Hk2, Ec, Hx. cbn. rewrite <- Hplug'. by repeat (rewrite <- ?app_assoc, ?app_nil_r; cbn).
    + rewrite (after_right q) in * by done. rewrite Hleaf in *. cbn in *.
      rewrite Hk1, Hk2, Ec, Hx. cbn. rewrite <- Hplug'. by repeat (rewrite <- ?app_assoc, ?app_nil_r; cbn).
Qed.

Lemma avl_walk_spec (t : avl_tree A) k1 x k2 :
  NoDup (elements t) -> elements t = k1 ++ x :: k2 ->
  AVL_NEXT t x = head k2 /\ AVL_PREV t x = last k1.
Proof.
  intros Hnd Hel.
  destruct (locate_split t k1 x k2 Hel Hnd) as (z & Hz & Hx & Hplug & Hk1 & Hk2).
  unfold AVL_NEXT, AVL_PREV, avl_walk. rewrite Hz. cbn.
  rewrite walk_pos_next, walk_pos_prev, Hk1, Hk2. done.
Qed.
End OnNodes.

(** ** Draining a tree with [avl_destroy_nodes] *)

(** The nodes still to come when the loop stands below [p]. *)
Fixpoint rest (p : path A) : list A :=
  match p with
  | [] => []
  | f :: p' => f_data f :: inorder (f_sib f) ++ rest p'
  end.

(** Left siblings are gone already; right siblings are untouched. *)
Definition drain_ok (p : path A) : Prop :=
  Forall (fun f => if f_child f then f_sib f = Leaf else balanced (f_sib f)) p.

Definition cookie_rest (ck : cookie (A := A)) : list A :=
  match ck with CookieAt f p => rest (f :: p) | _ => [] end.
Definition cookie_ok (ck : cookie (A := A)) : Prop :=
  match ck with CookieAt f p => drain_ok (f :: p) | CookieDone => True | CookieNull => False end.

Lemma rest_app q p : rest (q ++ p) = rest q ++ rest p.
Proof. induction q; cbn; [done|]. by rewrite IHq, <- app_assoc. Qed.

Lemma cookie_for_rest p : cookie_rest (cookie_for p) = rest p.
Proof. by destruct p. Qed.

Lemma cookie_for_ok p : drain_ok p -> cookie_ok (cookie_for p).
Proof. by destruct p. Qed.

Lemma balanced_plug_drain t q :
  Forall (fun f => f_child f = false) q -> balanced (plug t q) -> drain_ok q /\ balanced t.
Proof.
  intros Hq. revert t; induction Hq as [|f q Hf Hq IH]; intros t Hb; cbn in Hb;
    [by split; [constructor|]|].
  apply IH in Hb as [Hd Hb]. unfold up, mk in Hb. rewrite Hf in Hb. cbn in Hb.
  split; [|tauto]. constructor; [rewrite Hf; tauto|done].
Qed.

Lemma inorder_rest t q :
  Forall (fun f => f_child f = false) q -> inorder (plug t q) = inorder t ++ rest q.
Proof.
  intros Hq. rewrite inorder_plug, before_left by done. cbn. f_equal.
  induction Hq as [|f q Hf Hq IH]; cbn; [done|]. by rewrite Hf, IH.
Qed.

(** From a whole subtree [t] below [p], the first node returned. *)
Lemma descend_drain t p z :
  balanced t -> drain_ok p -> descend false t p = Some z ->
  exists x ck, check_right_side z = (x, ck) /\ cookie_ok ck /\
    x :: cookie_rest ck ≡ₚ inorder t ++ rest p.
Proof.
  intros Hb Hp Hz. apply descend_spec in Hz as (q & Hq & Hall & Hplug & Hleaf).
  destruct z as [l x b r pz]; cbn in *. subst l pz t.
  rewrite inorder_rest by done.
  apply balanced_plug_drain in Hb as [Hd Hb]; [|done].
  assert (drain_ok (q ++ p)) by (by apply Forall_app).
  unfold check_right_side, at_pos in *; cbn in *.
  destruct r as [|rl y rb rr]; cbn in *.
  - eexists _, _; split; [done|]. split; [by apply cookie_for_ok|].
    rewrite cookie_for_rest, rest_app. done.
  - assert (rl = Leaf /\ rr = Leaf) as [-> ->].
    { destruct rl, rr; cbn in *; try done; exfalso; solve_bal. }
    eexists _, _; split; [done|]. split.
    + constructor; [done|by apply Forall_app].
    + cbn. rewrite rest_app. apply perm_swap.
Qed.

Lemma destroy_loop_cookie n (t : avl_tree A) ck :
  cookie_ok ck -> avl_root t <> Leaf -> length (cookie_rest ck) = n ->
  exists xs, destroy_loop (S n) t ck = Some (xs, AvlTree Leaf 0) /\
    xs ≡ₚ cookie_rest ck.
Proof.
  revert t ck; induction n as [n IH] using lt_wf_ind; intros t ck Hok Ht Hn.
  destruct ck as [| |f p]; [done| |].
  - cbn. destruct (avl_root t) eqn:E; [done|]. exists []; split; done.
  - cbn [destroy_loop avl_destroy_nodes]. cbn in Hok, Hn.
    set (t' := AvlTree (plug (up f (f_bal f) Leaf) p) (sub64 (avl_nnodes t) 1)).
    assert (avl_root t' <> Leaf) as Ht'.
    { cbn. clear. generalize (f_bal f). intros b.
      assert (forall l x (c : Z) r (q : path A), plug (Node l x c r) q <> Leaf) as H.
      { intros l x c r q; revert l x c r; induction q as [|g q IH]; intros; [done|].
        cbn. unfold up, mk. destruct (f_child g); apply IH. }
      unfold up, mk. destruct (f_child f); apply H. }
    inversion_clear Hok as [|? ? Hf Hp].
    assert (forall x ck', cookie_ok ck' -> x :: cookie_rest ck' ≡ₚ rest (f :: p) ->
      exists xs, ('(xs, t'') ← destroy_loop n t' ck'; Some (x :: xs, t''))
        = Some (xs, AvlTree Leaf 0) /\ xs ≡ₚ rest (f :: p)) as Hnext.
    { intros x ck' Hok' Hperm. pose proof (Permutation_length Hperm) as Hlen.
      cbn in Hlen. destruct n as [|n]; [cbn in Hn; lia|].
      destruct (IH n ltac:(lia) t' ck' Hok' Ht') as (xs & Hxs & Hxp); [cbn in Hn; lia|].
      exists (x :: xs). rewrite Hxs. split; [done|]. by rewrite Hxp. }
    destruct (f_child f) eqn:Ef; [|destruct (f_sib f) as [|sl sx sb sr] eqn:Es].
    + apply Hnext; [by apply cookie_for_ok|]. rewrite cookie_for_rest. cbn.
      by rewrite Hf.
    + apply Hnext; [by apply cookie_for_ok|]. rewrite cookie_for_rest. cbn.
      by rewrite Es.
    + destruct (descend_is_Some false sl sx sb sr
                  (Frame true (f_data f) (f_bal f) Leaf :: p)) as [z Hz].
      rewrite Hz.
      assert (drain_ok (Frame true (f_data f) (f_bal f) Leaf :: p)) as Hp'
        by (by constructor).
      destruct (descend_drain _ _ _ Hf Hp' Hz) as (x & ck' & -> & Hok' & Hperm).
      apply Hnext; [done|]. rewrite Hperm. cbn [rest f_data f_sib inorder app].
      rewrite Es. symmetry. apply (Permutation_middle (inorder (Node sl sx sb sr))).
Qed.

Lemma destroy_spec (t : avl_tree A) :
  avl_wf t ->
  exists xs, destroy_loop (S (length (elements t))) t CookieNull = Some (xs, avl_create) /\
    xs ≡ₚ elements t.
Proof.
  intros [Hb Hn]. unfold elements. destruct (avl_root t) as [|l x b r] eqn:E.
  - exists []. cbn. rewrite E. cbn. split; [|done]. destruct t; cbn in *. by subst.
  - destruct (descend_is_Some false l x b r []) as [z Hz].
    destruct (descend_drain _ _ _ Hb (Forall_nil_2 _) Hz) as (y & ck & Hc & Hok & Hperm).
    cbn [rest] in Hperm. rewrite app_nil_r in Hperm.
    cbn [destroy_loop avl_destroy_nodes]. rewrite E, Hz, Hc.
    pose proof (Permutation_length Hperm) as Hlen. cbn [length] in Hlen. rewrite <- Hlen.
    destruct (destroy_loop_cookie (length (cookie_rest ck)) t ck Hok) as (xs & Hxs & Hxp); [by rewrite E|done|].
    rewrite Hxs. exists (y :: xs). split; [done|]. by rewrite Hxp.
Qed.

(** ** Logarithmic height *)

Lemma height_bound t :
  balanced t -> 2 ^ height t <= (Z.of_nat (length (inorder t)) + 1) ^ 2.
Proof.
  induction t as [|l IHl x b r IHr]; intros Hb; cbn in *; [lia|].
  destruct Hb as (Hb & Hr & Hl & Hr'). specialize (IHl Hl). specialize (IHr Hr').
  rewrite length_app. cbn.
  set (nl := Z.of_nat (length (inorder l))) in *.
  set (nr := Z.of_nat (length (inorder r))) in *.
  replace (Z.of_nat (length (inorder l) + S (length (inorder r))) + 1)
    with ((nl + 1) + (nr + 1)) by lia.
  assert (0 <= nl /\ 0 <= nr) as [? ?] by lia. clearbody nl nr.
  pose proof (height_nonneg l). pose proof (height_nonneg r).
  assert (forall k a c : Z, 0 <= a -> 0 <= c -> 2 * k <= (a + 1) ^ 2 -> k <= (c + 1) ^ 2 ->
    0 < k -> 4 * k <= ((a + 1) + (c + 1)) ^ 2) as Harith by (intros; nia).
  assert (forall h, 0 <= h -> 2 ^ (h + 1) = 2 * 2 ^ h) as Hpow.
  { intros. by rewrite Z.pow_add_r, Z.mul_comm by lia. }
  assert (forall h, 0 <= h -> 0 < 2 ^ h) as Hpos by (intros; by apply Z.pow_pos_nonneg).
  assert (height r = height l \/ height r = height l + 1 \/ height l = height r + 1)
    as [Eh|[Eh|Eh]] by lia.
  - rewrite Eh in *. rewrite Z.max_id, Z.add_comm, Hpow by lia.
    specialize (Hpos (height l)). nia.
  - rewrite Z.max_r by lia. rewrite Z.add_comm, Hpow by lia.
    rewrite Eh, Hpow in IHr |- * by lia.
    rewrite (Z.add_comm (nl + 1)). specialize (Harith (2 ^ height l) nr nl).
    specialize (Hpos (height l)). lia.
  - rewrite Z.max_l by lia. rewrite Z.add_comm, Hpow by lia.
    rewrite Eh, Hpow in IHl |- * by lia.
    specialize (Harith (2 ^ height r) nl nr). specialize (Hpos (height r)). lia.
Qed.

(** A path in a balanced tree is no longer than the tree is high. *)
Lemma path_length_height t p :
  Z.of_nat (length p) + height t <= height (plug t p).
Proof.
  revert t; induction p as [|f p IH]; intros t; cbn [plug length]; [lia|].
  specialize (IH (up f (f_bal f) t)). rewrite height_up in IH.
  pose proof (height_nonneg (f_sib f)). lia.
Qed.

(** How many nodes a search compares. *)
Definition visited (res : pos (A := A) + path A) : nat :=
  match res with inl z => S (length (p_path z)) | inr w => length w end.

Lemma find_loop_plug {V} `{!Compar V A} (v : V) t p :
  match find_loop v t p with
  | inl z => plug (at_pos z) (p_path z) = plug t p
  | inr w => plug Leaf w = plug t p
  end.
Proof.
  revert p; induction t as [|l IHl x b r IHr]; intros p; cbn; [done|].
  split_if; [done|]. unfold avl_balance2child.
  destruct (0 <? avl_compar v x); [apply (IHr (Frame true x b l :: p)) |
    apply (IHl (Frame false x b r :: p))].
Qed.

Lemma next_loop_spec `{EqDecision A} (t : avl_tree A) k1 k2 :
  NoDup (elements t) -> elements t = k1 ++ k2 ->
  next_loop (length k2) t (head k2) = Some k2.
Proof.
  intros Hnd. revert k1. induction k2 as [|x k2 IH]; intros k1 Hel; cbn; [done|].
  destruct (avl_walk_spec t k1 x k2 Hnd Hel) as [-> _].
  rewrite (IH (k1 ++ [x])); [done|]. by rewrite <- app_assoc.
Qed.

(** ** [avl_update] *)

Section Update.
Context `{EqDecision A} `{!Compar A A}.

Lemma cut_last_positive x k1 k2 L1 L2 y :
  cut x L1 [] L2 -> k1 ++ k2 = L1 ++ L2 -> last k1 = Some y ->
  0 <= avl_compar x y -> exists m, L1 = k1 ++ m /\ k2 = m ++ L2.
Proof.
  intros (H1 & _ & H3) Heq Hl Hy. apply last_Some in Hl as [k Hk]. subst k1.
  apply app_eq_inv in Heq as [(m & E1 & E2)|(m & E1 & E2)]; [|eauto].
  destruct m as [|z m _] using rev_ind.
  - exists []. rewrite app_nil_r in *. by subst.
  - rewrite app_assoc in E1. apply app_inj_tail in E1 as [-> ->].
    rewrite E2 in H3. apply Forall_app in H3 as [H3 _].
    apply Forall_app in H3 as [_ H3]. inversion H3; subst. lia.
Qed.

Lemma cut_head_negative x k1 k2 L1 L2 y :
  cut x L1 [] L2 -> k1 ++ k2 = L1 ++ L2 -> head k2 = Some y ->
  avl_compar x y <= 0 -> exists m, k1 = L1 ++ m /\ L2 = m ++ k2.
Proof.
  intros (H1 & _ & H3) Heq Hl Hy. destruct k2 as [|z k2]; cbn in Hl; simplify_eq.
  apply app_eq_inv in Heq as [(m & E1 & E2)|(m & E1 & E2)]; [eauto|].
  destruct m as [|z m]; cbn in E2.
  { exists []. rewrite app_nil_r in *. by subst. }
  injection E2 as -> ->. subst L1. apply Forall_app in H1 as [_ H1].
  inversion H1; subst. lia.
Qed.

(** Removing [obj] and adding it again puts it where the order wants it. *)
Lemma reinsert_spec (t : avl_tree A) k1 obj k2 L1 L2 :
  avl_wf t -> NoDup (elements t) -> elements t = k1 ++ obj :: k2 ->
  cut obj L1 [] L2 -> k1 ++ k2 = L1 ++ L2 ->
  exists t' : avl_tree A, AVL_REINSERT t obj = Ret t' /\ avl_wf t' /\ elements t' = L1 ++ obj :: L2.
Proof.
  intros Hwf Hnd Hel Hc Heq. unfold AVL_REINSERT, avl_add.
  destruct (avl_remove_spec t k1 obj k2 Hwf Hnd Hel) as [Hwf' Hel'].
  rewrite Heq in Hel'.
  pose proof (avl_find_spec (avl_remove t obj) obj L1 [] L2 Hc Hel') as Hf.
  destruct (avl_find _ _) as [y|w]; [set_solver|].
  destruct Hf as (_ & Hw & <- & <-).
  destruct (avl_insert_spec _ obj w Hwf' Hw) as [? ?]. eauto.
Qed.

Lemma cut_in_place x k1 k2 L1 L2 :
  cut x L1 [] L2 -> k1 ++ k2 = L1 ++ L2 ->
  (forall y, last k1 = Some y -> 0 <= avl_compar x y) ->
  (forall y, head k2 = Some y -> avl_compar x y <= 0) -> k1 = L1 /\ k2 = L2.
Proof.
  intros Hc Heq Hl Hh.
  assert (exists m, L1 = k1 ++ m /\ k2 = m ++ L2) as (m & -> & ->).
  { destruct (last k1) as [y|] eqn:E; [by eapply cut_last_positive; eauto|].
    apply last_None in E as ->. cbn in *. eauto. }
  destruct m as [|z m]; [by rewrite app_nil_r|].
  assert (avl_compar x z <= 0) by (by apply Hh).
  destruct Hc as (H1 & _). apply Forall_app in H1 as [_ H1]. inversion H1; subst. lia.
Qed.

(** [avl_update] of a node whose data has changed in place, when the rest of
    the tree is still ordered. *)
Lemma avl_update_spec (t : avl_tree A) k1 obj k2 L1 L2 :
  avl_wf t -> NoDup (elements t) -> elements t = k1 ++ obj :: k2 ->
  cut obj L1 [] L2 -> k1 ++ k2 = L1 ++ L2 ->
  exists (t' : avl_tree A) moved, avl_update t obj = Ret (t', moved) /\ avl_wf t' /\
    elements t' = L1 ++ obj :: L2 /\ (moved = false -> t' = t).
Proof.
  intros Hwf Hnd Hel Hc Heq.
  destruct (reinsert_spec t k1 obj k2 L1 L2) as (t' & Hre & Hwf' & Hel'); auto.
  destruct (avl_walk_spec t k1 obj k2 Hnd Hel) as [Hn Hp].
  pose proof (cut_in_place obj k1 k2 L1 L2 Hc Heq) as Hstay.
  unfold avl_update. rewrite Hn, Hp, Hre. cbn.
  destruct (last k1) as [y|]; [destruct (Z.ltb_spec (avl_compar obj y) 0)|];
    try (exists t', true; split_and!; done).
  all: destruct (head k2) as [z|];
    [destruct (Z.ltb_spec 0 (avl_compar obj z)); [exists t', true; split_and!; done|]|].
  all: destruct Hstay as [-> ->];
    [intros; simplify_eq; lia..|exists t, false; split_and!; done].
Qed.
End Update.

(** ** Trees under a lawful comparison

    What a client's comparison function promises to the tree: it is
    antisymmetric and transitive. *)

Class ComparLaws `{!Compar A A} : Prop := {
  compar_anti (a b : A) : Z.sgn (avl_compar b a) = - Z.sgn (avl_compar a b);
  compar_trans (a b c : A) : avl_compar a b < 0 -> avl_compar b c < 0 -> avl_compar a c < 0 }.

Section Ordered.
Context `{!Compar A A, !ComparLaws}.

Definition compar_lt (a b : A) : Prop := avl_compar a b < 0.

(** The elements are in the order of the comparison, without ties. *)
Definition ordered (t : avl_tree A) : Prop := StronglySorted compar_lt (elements t).

(** A node that ties with none of a sorted list cuts it. *)
Lemma sorted_cut x k :
  StronglySorted compar_lt k -> Forall (fun y => avl_compar x y <> 0) k ->
  exists L1 L2, k = L1 ++ L2 /\ cut x L1 [] L2.
Proof.
  induction 1 as [|a k Hk IH Ha]; intros Hne.
  { exists [], []. unfold cut. auto. }
  apply Forall_cons in Hne as [Hax Hne]. destruct (Z_lt_le_dec (avl_compar x a) 0) as [Hlt|Hge].
  - exists [], (a :: k). split; [done|]. unfold cut. split_and!; auto. constructor; [done|].
    eapply Forall_impl; [exact Ha|]. intros y Hy. by eapply compar_trans.
  - destruct (IH Hne) as (L1 & L2 & -> & H1 & H2 & H3). exists (a :: L1), L2.
    split; [done|]. unfold cut. split_and!; auto. constructor; [lia|done].
Qed.

Lemma cut_sorted x L1 L2 :
  cut x L1 [] L2 -> StronglySorted compar_lt (L1 ++ L2) ->
  StronglySorted compar_lt (L1 ++ x :: L2).
Proof.
  intros (H1 & _ & H2) Hs. apply StronglySorted_app_2.
  - intros a b Ha Hb.
    assert (compar_lt a x) as Hax.
    { rewrite Forall_forall in H1. apply H1 in Ha. pose proof (compar_anti x a).
      unfold compar_lt. lia. }
    apply elem_of_cons in Hb as [->|Hb]; [done|].
    rewrite Forall_forall in H2. eapply compar_trans; [done|]. by apply H2.
  - by apply StronglySorted_app_1_l in Hs.
  - constructor; [by apply StronglySorted_app_1_r in Hs|done].
Qed.

(** [avl_add] of a node that ties with no other. *)
Lemma avl_add_ordered (t : avl_tree A) x :
  avl_wf t -> ordered t -> Forall (fun y => avl_compar x y <> 0) (elements t) ->
  exists (t' : avl_tree A), avl_add t x = Ret t' /\ avl_wf t' /\ ordered t' /\ elements t' ≡ₚ x :: elements t.
Proof.
  intros Hwf Ho Hne. destruct (sorted_cut x (elements t) Ho Hne) as (L1 & L2 & Hel & Hc).
  pose proof (avl_find_spec t x L1 [] L2 Hc Hel) as Hf. unfold avl_add.
  destruct (avl_find t x) as [y|w]; [by inversion Hf|]. destruct Hf as (_ & Hw & <- & <-).
  destruct (avl_insert_spec t x w Hwf Hw) as [Hwf' Hel'].
  exists (avl_insert t x w). split_and!; auto.
  - unfold ordered in *. rewrite Hel'. apply cut_sorted; [done|]. by rewrite <- Hel.
  - rewrite Hel', Hel. symmetry. apply Permutation_middle.
Qed.

Lemma ordered_NoDup (t : avl_tree A) : ordered t -> NoDup (elements t).
Proof.
  unfold ordered. induction 1 as [|a k Hk IH Ha]; constructor; [|done].
  intros Hin. rewrite Forall_forall in Ha. apply Ha in Hin. unfold compar_lt in Hin.
  pose proof (compar_anti a a). lia.
Qed.
End Ordered.

(** ** The contract of the tree *)

(** C20: [avl_add] on a tree whose order the new node fits puts it between the
    nodes it is greater than and those it is less than, keeps the tree
    balanced and the node count right; it panics exactly when a node compares
    equal. *)
Theorem avl_add_correct `{!Compar A A} (t : avl_tree A) (x : A) (L1 M L2 : list A) :
  avl_wf t -> cut x L1 M L2 -> elements t = L1 ++ M ++ L2 ->
  match avl_add t x with
  | Ret t' => M = [] /\ avl_wf t' /\ elements t' = L1 ++ x :: L2
  | Panic => M <> []
  end.
Proof.
  intros Hwf Hc Hel. pose proof (avl_find_spec t x L1 M L2 Hc Hel) as Hf.
  unfold avl_add. destruct (avl_find t x) as [y|w]; [by intros ->; inversion Hf|].
  destruct Hf as (-> & Hw & <- & <-). destruct (avl_insert_spec t x w Hwf Hw). done.
Qed.

(** C21: [avl_remove] takes out the given node and no other, keeps the order of
    the rest, rebalances the tree and keeps its node count. *)
Theorem avl_remove_correct `{EqDecision A} (t : avl_tree A) (k1 : list A) (x : A) (k2 : list A) :
  avl_wf t -> NoDup (elements t) -> elements t = k1 ++ x :: k2 ->
  avl_wf (avl_remove t x) /\ elements (avl_remove t x) = k1 ++ k2 /\
  avl_numnodes (avl_remove t x) = wrap64 (Z.of_nat (length (k1 ++ k2))).
Proof.
  intros Hwf Hnd Hel. destruct (avl_remove_spec t k1 x k2 Hwf Hnd Hel) as [H1 H2].
  split_and!; auto. unfold avl_numnodes. destruct H1 as [_ ->]. fold (elements (avl_remove t x)).
  by rewrite H2.
Qed.

(** C22: [avl_find] finds a matching node when there is one and otherwise
    returns the insertion point that keeps the order, comparing at most
    [2 * log2 (n + 1)] of the [n] nodes. *)
Theorem avl_find_logarithmic {V} `{!Compar V A} (t : avl_tree A) (v : V) (L1 M L2 : list A) :
  avl_wf t -> cut v L1 M L2 -> elements t = L1 ++ M ++ L2 ->
  match avl_find t v with
  | inl x => x ∈ M
  | inr w => M = [] /\ hole t w /\ before w = L1 /\ after w = L2
  end /\
  2 ^ Z.of_nat (visited (find_loop v (avl_root t) [])) <=
    (Z.of_nat (length (elements t)) + 1) ^ 2.
Proof.
  intros [Hb _] Hc Hel. split; [by apply avl_find_spec|].
  etransitivity; [|apply height_bound, Hb]. apply Z.pow_le_mono_r; [lia|].
  pose proof (find_loop_plug v (avl_root t) []) as Hp. cbn in Hp.
  destruct (find_loop v (avl_root t) []) as [z|w]; cbn; rewrite <- Hp.
  - pose proof (path_length_height (at_pos z) (p_path z)) as Hh. cbn in Hh.
    pose proof (height_nonneg (p_l z)). lia.
  - pose proof (path_length_height Leaf w) as Hh. cbn in Hh. lia.
Qed.

(** Repeated [avl_destroy_nodes] returns every node exactly once and
    leaves an empty tree; [length + 1] calls are enough. *)
Theorem avl_destroy_nodes_drains (t : avl_tree A) :
  avl_wf t ->
  exists xs, destroy_loop (S (length (elements t))) t CookieNull = Some (xs, avl_create) /\
    xs ≡ₚ elements t.
Proof. apply destroy_spec. Qed.

(** Iterating [avl_first]/[AVL_NEXT] visits the nodes in order, once each,
    and stops. *)
Theorem avl_iteration_in_order `{EqDecision A} (t : avl_tree A) :
  NoDup (elements t) ->
  next_loop (length (elements t)) t (avl_first t) = Some (elements t).
Proof. intros Hnd. rewrite avl_first_spec. by apply (next_loop_spec t []). Qed.

(** After the key of a node has changed in place, [avl_update] moves the
    node to where the order wants it, and says whether it moved. *)
Theorem avl_update_restores_order `{EqDecision A} `{!Compar A A}
    (t : avl_tree A) k1 obj k2 L1 L2 :
  avl_wf t -> NoDup (elements t) -> elements t = k1 ++ obj :: k2 ->
  cut obj L1 [] L2 -> k1 ++ k2 = L1 ++ L2 ->
  exists (t' : avl_tree A) moved, avl_update t obj = Ret (t', moved) /\ avl_wf t' /\
    elements t' = L1 ++ obj :: L2 /\ (moved = false -> t' = t).
Proof. apply avl_update_spec. Qed.
End Props.

(** ** Concrete trees *)

Definition Z_compar (a b : Z) : Z := Z.sgn (a - b).
#[local] Instance Z_Compar : Compar Z Z := Z_compar.

(** The tree with 1..7 added in this order, and one of three nodes. *)
Definition tree7 : avl_tree Z :=
  match fold_left (fun m x => m ≫= fun t => avl_add t x) [1; 2; 3; 4; 5; 6; 7]
          (Ret avl_create) with
  | Ret t => t
  | Panic => avl_create
  end.

Example tree7_elements : elements tree7 = [1; 2; 3; 4; 5; 6; 7].
Proof. vm_compute. reflexivity. Qed.

Lemma tree7_wf : avl_wf tree7.
Proof. split; [vm_compute; intuition congruence | reflexivity]. Qed.

Lemma tree7_NoDup : NoDup (elements tree7).
Proof. rewrite tree7_elements. repeat constructor; set_solver. Qed.

Lemma avl_add_correct_witness :
  exists t', avl_add (avl_remove tree7 4) 4 = Ret t' /\ elements t' = [1;2;3;4;5;6;7].
Proof.
  pose proof (avl_add_correct (avl_remove tree7 4) 4 [1;2;3] [] [5;6;7]) as H.
  destruct (avl_add (avl_remove tree7 4) 4) as [t'|].
  - exists t'. split; [reflexivity|]. apply H.
    + split; [vm_compute; intuition congruence | reflexivity].
    + repeat constructor.
    + reflexivity.
  - exfalso. apply H; [..|reflexivity].
    + split; [vm_compute; intuition congruence | reflexivity].
    + repeat constructor.
    + reflexivity.
Defined.

Lemma avl_remove_correct_witness :
  avl_wf (avl_remove tree7 4) /\ elements (avl_remove tree7 4) = [1;2;3] ++ [5;6;7] /\
  avl_numnodes (avl_remove tree7 4) = wrap64 6.
Proof.
  apply (avl_remove_correct tree7 [1;2;3] 4 [5;6;7]);
    [apply tree7_wf | apply tree7_NoDup | reflexivity].
Defined.

Lemma avl_find_logarithmic_witness :
  match avl_find tree7 4 with inl x => x ∈ [4] | inr _ => False end.
Proof.
  pose proof (avl_find_logarithmic tree7 4 [1;2;3] [4] [5;6;7] tree7_wf) as H.
  destruct H as [H _]; [repeat constructor | reflexivity |].
  destruct (avl_find tree7 4); [exact H | destruct H; discriminate].
Defined.

Lemma avl_destroy_nodes_drains_witness :
  exists xs, destroy_loop 8 tree7 CookieNull = Some (xs, avl_create) /\
    xs ≡ₚ [1; 2; 3; 4; 5; 6; 7].
Proof. exact (avl_destroy_nodes_drains tree7 tree7_wf). Defined.

Lemma avl_iteration_in_order_witness :
  next_loop 7 tree7 (avl_first tree7) = Some [1; 2; 3; 4; 5; 6; 7].
Proof. exact (avl_iteration_in_order tree7 tree7_NoDup). Defined.

(** The node 4 becomes 9 and has to move to the right end. *)
Lemma avl_update_restores_order_witness :
  exists (t' : avl_tree Z) moved, avl_update (avl_set tree7 4 9) 9 = Ret (t', moved) /\
    avl_wf t' /\ elements t' = [1; 2; 3; 5; 6; 7] ++ [9] /\
    (moved = false -> t' = avl_set tree7 4 9).
Proof.
  apply (avl_update_restores_order (avl_set tree7 4 9) [1;2;3] 9 [5;6;7] [1;2;3;5;6;7] []).
  - split; [vm_compute; intuition congruence | reflexivity].
  - change (NoDup [1; 2; 3; 9; 5; 6; 7]). repeat constructor; set_solver.
  - reflexivity.
  - repeat constructor.
  - reflexivity.
Defined.
