(* ===== verification/RangeTree.v ===== *)
(** * Range trees

    Model of [kernel/fs/zfs/range_tree.c]: a set of 64-bit offsets kept as an
    AVL tree of disjoint, coalesced segments, with the number of offsets, a
    histogram of segment sizes and the callbacks of the tree's owner. *)

From S2P Require Import Prelude Avl.

Definition RANGE_TREE_HISTOGRAM_SIZE : nat := 64.

(** [range_seg_t] without its two AVL nodes: offsets [rs_start, rs_end). *)
Record range_seg : Type := RangeSeg { rs_start : Z; rs_end : Z }.

#[export] Instance range_seg_eq_dec : EqDecision range_seg.
Proof. solve_decision. Defined.

(** [range_tree_ops_t].  [S] is what [rt_arg] points to.  The tree itself is
    handed to the callbacks only for their assertions. *)
Record range_tree_ops (S : Type) : Type := RangeTreeOps {
  rtop_create : S -> result S;
  rtop_destroy : S -> result S;
  rtop_add : range_seg -> S -> result S;
  rtop_remove : range_seg -> S -> result S;
  rtop_vacate : S -> result S }.
Arguments rtop_create {S}.
Arguments rtop_destroy {S}.
Arguments rtop_add {S}.
Arguments rtop_remove {S}.
Arguments rtop_vacate {S}.

Record range_tree (S : Type) : Type := RangeTree {
  rt_root : avl_tree range_seg;
  rt_space : Z;
  rt_ops : option (range_tree_ops S);
  rt_arg : S;
  rt_histogram : list Z }.
Arguments RangeTree {S}.
Arguments rt_root {S}.
Arguments rt_space {S}.
Arguments rt_ops {S}.
Arguments rt_arg {S}.
Arguments rt_histogram {S}.

(** The highest bit set, counted from 1; 0 when there is none
    ([arch/x86/kernel/ml/i86_subr.s]). *)
Definition highbit64 (x : Z) : Z := if x =? 0 then 0 else Z.log2 x + 1.

(** [range_tree_seg_compare]: 0 for segments that overlap. *)
Definition range_tree_seg_compare (r1 r2 : range_seg) : Z :=
  if rs_start r1 <? rs_start r2 then
    (if rs_start r2 <? rs_end r1 then 0 else -1)
  else if rs_start r2 <? rs_start r1 then
    (if rs_start r1 <? rs_end r2 then 0 else 1)
  else 0.
#[export] Instance range_seg_compar : Compar range_seg range_seg := range_tree_seg_compare.

(** [zfs_panic_recover] ([spa_misc.c]): a panic, or a warning when the
    administrator has set [zfs_recover]. *)
Definition zfs_panic_recover (zfs_recover : bool) : result unit :=
  if zfs_recover then Ret tt else Panic.

Section RangeTree.
Context {S : Type}.
Implicit Types (rt : range_tree S) (rs : range_seg).

Definition set_root rt (t : avl_tree range_seg) : range_tree S :=
  RangeTree t (rt_space rt) (rt_ops rt) (rt_arg rt) (rt_histogram rt).
Definition set_space rt (n : Z) : range_tree S :=
  RangeTree (rt_root rt) n (rt_ops rt) (rt_arg rt) (rt_histogram rt).
Definition set_arg rt (s : S) : range_tree S :=
  RangeTree (rt_root rt) (rt_space rt) (rt_ops rt) s (rt_histogram rt).
Definition set_histogram rt (h : list Z) : range_tree S :=
  RangeTree (rt_root rt) (rt_space rt) (rt_ops rt) (rt_arg rt) h.

(** Call a callback when the tree has any. *)
Definition call rt (f : range_tree_ops S -> S -> result S) : result (range_tree S) :=
  match rt_ops rt with
  | None => Ret rt
  | Some o => s ← f o (rt_arg rt); Ret (set_arg rt s)
  end.

(** ** Histogram *)

Definition seg_size (rs : range_seg) : Z := sub64 (rs_end rs) (rs_start rs).
Definition seg_bucket (rs : range_seg) : Z := highbit64 (seg_size rs) - 1.

(** An empty segment would index the histogram at -1. *)
Definition range_tree_stat_incr rt rs : result (range_tree S) :=
  let idx := Z.to_nat (seg_bucket rs) in
  _ ← verify (negb (seg_size rs =? 0));
  _ ← verify (idx <? RANGE_TREE_HISTOGRAM_SIZE)%nat;
  let h := alter (fun n => add64 n 1) idx (rt_histogram rt) in
  n ← rd h idx;
  _ ← verify (negb (n =? 0));
  Ret (set_histogram rt h).

Definition range_tree_stat_decr rt rs : result (range_tree S) :=
  let idx := Z.to_nat (seg_bucket rs) in
  _ ← verify (negb (seg_size rs =? 0));
  _ ← verify (idx <? RANGE_TREE_HISTOGRAM_SIZE)%nat;
  n ← rd (rt_histogram rt) idx;
  _ ← verify (negb (n =? 0));
  Ret (set_histogram rt (alter (fun n => sub64 n 1) idx (rt_histogram rt))).

(** [range_tree_stat_verify]: recompute the histogram and compare. *)
Definition range_tree_stat_verify rt : result unit :=
  let hist :=
    foldl (fun h rs => alter (fun n => add64 n 1) (Z.to_nat (seg_bucket rs)) h)
      (replicate RANGE_TREE_HISTOGRAM_SIZE 0) (elements (rt_root rt)) in
  verify (bool_decide (hist = rt_histogram rt)).

(** ** Creation *)

Definition range_tree_create (ops : option (range_tree_ops S)) (arg : S)
    : result (range_tree S) :=
  call (RangeTree avl_create 0 ops arg (replicate RANGE_TREE_HISTOGRAM_SIZE 0)) rtop_create.

(** [range_tree_destroy]; what is left is the state of the callbacks. *)
Definition range_tree_destroy rt : result S :=
  _ ← verify (rt_space rt =? 0);
  rt1 ← call rt rtop_destroy;
  Ret (rt_arg rt1).

(** ** Addition and removal *)

(** The four ways [range_tree_add] changes the tree: [mb] and [ma] are the
    neighbours to merge with ([rs_before] when [merge_before], [rs_after] when
    [merge_after]).  Also the segment the new range is now part of. *)
Definition add_merge rt (where_ : path range_seg) (start end_ : Z)
    (mb ma : option range_seg) : result (range_tree S * range_seg) :=
  match mb, ma with
  | Some b, Some a =>
      let rs := RangeSeg (rs_start b) (rs_end a) in
      rt1 ← call (set_root rt (avl_remove (rt_root rt) b)) (fun o => rtop_remove o b);
      rt2 ← call rt1 (fun o => rtop_remove o a);
      rt3 ← range_tree_stat_decr rt2 b;
      rt4 ← range_tree_stat_decr rt3 a;
      Ret (set_root rt4 (avl_set (rt_root rt4) a rs), rs)
  | Some b, None =>
      let rs := RangeSeg (rs_start b) end_ in
      rt1 ← call rt (fun o => rtop_remove o b);
      rt2 ← range_tree_stat_decr rt1 b;
      Ret (set_root rt2 (avl_set (rt_root rt2) b rs), rs)
  | None, Some a =>
      let rs := RangeSeg start (rs_end a) in
      rt1 ← call rt (fun o => rtop_remove o a);
      rt2 ← range_tree_stat_decr rt1 a;
      Ret (set_root rt2 (avl_set (rt_root rt2) a rs), rs)
  | None, None =>
      let rs := RangeSeg start end_ in
      Ret (set_root rt (avl_insert (rt_root rt) rs where_), rs)
  end.

(** Keep a neighbour only when the test holds. *)
Definition neighbour (test : range_seg -> bool) (rs : option range_seg) : option range_seg :=
  match rs with
  | Some x => if test x then Some x else None
  | None => None
  end.

Definition range_tree_add (zfs_recover : bool) rt (start size : Z) : result (range_tree S) :=
  let end_ := add64 start size in
  _ ← verify (negb (size =? 0));
  match avl_find (rt_root rt) (RangeSeg start end_) with
  | inl rs =>
      if (rs_start rs <=? start) && (end_ <=? rs_end rs)
      then _ ← zfs_panic_recover zfs_recover; Ret rt
      else Panic
  | inr where_ =>
      let rs_before := avl_nearest (rt_root rt) where_ false in
      let rs_after := avl_nearest (rt_root rt) where_ true in
      '(rt1, rs) ← add_merge rt where_ start end_
                     (neighbour (fun b => rs_end b =? start) rs_before)
                     (neighbour (fun a => rs_start a =? end_) rs_after);
      rt2 ← call rt1 (fun o => rtop_add o rs);
      rt3 ← range_tree_stat_incr rt2 rs;
      Ret (set_space rt3 (add64 (rt_space rt3) size))
  end.

(** The rest of [range_tree_remove] once [rs] has left the histogram and the
    callbacks: also the part of [rs] that stays in its node, if any. *)
Definition remove_split rt rs (start end_ : Z) : result (range_tree S * option range_seg) :=
  let left_over := negb (rs_start rs =? start) in
  let right_over := negb (rs_end rs =? end_) in
  if left_over && right_over then
    let newseg := RangeSeg end_ (rs_end rs) in
    let rs' := RangeSeg (rs_start rs) start in
    rt1 ← range_tree_stat_incr rt newseg;
    let t1 := avl_set (rt_root rt1) rs rs' in
    rt2 ← call (set_root rt1 (avl_insert_here t1 newseg rs' true))
             (fun o => rtop_add o newseg);
    Ret (rt2, Some rs')
  else if left_over then
    let rs' := RangeSeg (rs_start rs) start in
    Ret (set_root rt (avl_set (rt_root rt) rs rs'), Some rs')
  else if right_over then
    let rs' := RangeSeg end_ (rs_end rs) in
    Ret (set_root rt (avl_set (rt_root rt) rs rs'), Some rs')
  else
    Ret (set_root rt (avl_remove (rt_root rt) rs), None).

Definition range_tree_remove (zfs_recover : bool) rt (start size : Z) : result (range_tree S) :=
  let end_ := add64 start size in
  _ ← verify (negb (size =? 0));
  _ ← verify (size <=? rt_space rt);
  match avl_find (rt_root rt) (RangeSeg start end_) with
  | inr _ => _ ← zfs_panic_recover zfs_recover; Ret rt
  | inl rs =>
      _ ← verify (rs_start rs <=? start);
      _ ← verify (end_ <=? rs_end rs);
      rt1 ← range_tree_stat_decr rt rs;
      rt2 ← call rt1 (fun o => rtop_remove o rs);
      '(rt3, left_) ← remove_split rt2 rs start end_;
      rt4 ← match left_ with
            | None => Ret rt3
            | Some rs' =>
                rt' ← range_tree_stat_incr rt3 rs';
                call rt' (fun o => rtop_add o rs')
            end;
      Ret (set_space rt4 (sub64 (rt_space rt4) size))
  end.

(** ** Queries *)

Definition range_tree_find_impl rt (start size : Z) : result (option range_seg) :=
  _ ← verify (negb (size =? 0));
  Ret (match avl_find (rt_root rt) (RangeSeg start (add64 start size)) with
       | inl rs => Some rs
       | inr _ => None
       end).

Definition range_tree_find rt (start size : Z) : result (option range_seg) :=
  o ← range_tree_find_impl rt start size;
  Ret (match o with
       | Some rs =>
           if (rs_start rs <=? start) && (add64 start size <=? rs_end rs) then Some rs else None
       | None => None
       end).

Definition range_tree_verify rt (off size : Z) : result unit :=
  o ← range_tree_find rt off size;
  match o with None => Ret tt | Some _ => Panic end.

Definition range_tree_contains rt (start size : Z) : result bool :=
  o ← range_tree_find rt start size;
  Ret (match o with Some _ => true | None => false end).

Definition range_tree_is_empty rt : bool := rt_space rt =? 0.
Definition range_tree_min rt : Z :=
  match avl_first (rt_root rt) with Some rs => rs_start rs | None => 0 end.
Definition range_tree_max rt : Z :=
  match avl_last (rt_root rt) with Some rs => rs_end rs | None => 0 end.
Definition range_tree_span rt : Z := sub64 (range_tree_max rt) (range_tree_min rt).

(** ** Bulk operations *)

(** The loop of [range_tree_clear]. *)
Fixpoint clear_loop (fuel : nat) (zfs_recover : bool) rt (start size : Z)
    : option (result (range_tree S)) :=
  match fuel with
  | O => None
  | Datatypes.S fuel' =>
      match range_tree_find_impl rt start size with
      | Panic => Some Panic
      | Ret None => Some (Ret rt)
      | Ret (Some rs) =>
          let free_start := Z.max (rs_start rs) start in
          let free_end := Z.min (rs_end rs) (add64 start size) in
          match range_tree_remove zfs_recover rt free_start (sub64 free_end free_start) with
          | Panic => Some Panic
          | Ret rt' => clear_loop fuel' zfs_recover rt' start size
          end
      end
  end.

Definition range_tree_clear (fuel : nat) (zfs_recover : bool) rt (start size : Z)
    : option (result (range_tree S)) :=
  if size =? 0 then Some (Ret rt) else clear_loop fuel zfs_recover rt start size.

(** [func(arg, start, size)] on each of a list of segments in turn. *)
Fixpoint for_segs {T} (func : T -> Z -> Z -> result T) (xs : list range_seg) (arg : T)
    : result T :=
  match xs with
  | [] => Ret arg
  | rs :: xs' => a ← func arg (rs_start rs) (seg_size rs); for_segs func xs' a
  end.

(** [range_tree_vacate]; [func] is optional.  The fuel is the number of
    nodes, which [avl_destroy_nodes] never exceeds. *)
Definition range_tree_vacate {T} rt (func : option (T -> Z -> Z -> result T)) (arg : T)
    : result (range_tree S * T) :=
  rt1 ← call rt rtop_vacate;
  match destroy_loop (Datatypes.S (length (elements (rt_root rt1)))) (rt_root rt1) CookieNull with
  | None => Panic
  | Some (xs, t') =>
      arg' ← match func with Some f => for_segs f xs arg | None => Ret arg end;
      Ret (RangeTree t' 0 (rt_ops rt1) (rt_arg rt1) (replicate RANGE_TREE_HISTOGRAM_SIZE 0),
           arg')
  end.

Definition range_tree_walk {T} rt (func : T -> Z -> Z -> result T) (arg : T) : result T :=
  match next_loop (length (elements (rt_root rt))) (rt_root rt) (avl_first (rt_root rt)) with
  | None => Panic
  | Some xs => for_segs func xs arg
  end.

(** [range_tree_swap]: the two pointers trade places. *)
Definition range_tree_swap (rtsrc rtdst : range_tree S) : result (range_tree S * range_tree S) :=
  _ ← verify (rt_space rtdst =? 0);
  _ ← verify (avl_numnodes (rt_root rtdst) =? 0);
  Ret (rtdst, rtsrc).
End RangeTree.

(** * Properties *)

(** ** Sequences of segments *)

Definition seg_ok (rs : range_seg) : Prop := 0 <= rs_start rs < rs_end rs /\ rs_end rs < 2 ^ 64.

(** [a] ends before [b] starts, with at least one offset between them. *)
Definition gap (a b : range_seg) : Prop := rs_end a < rs_start b.

(** Sorted, disjoint and coalesced. *)
Definition segs_ok (L : list range_seg) : Prop := StronglySorted gap L /\ Forall seg_ok L.

Definition in_seg (rs : range_seg) (x : Z) : Prop := rs_start rs <= x < rs_end rs.

(** The set of offsets a sequence of segments stands for. *)
Definition covers (L : list range_seg) (x : Z) : Prop := Exists (fun rs => in_seg rs x) L.

Fixpoint total (L : list range_seg) : Z :=
  match L with
  | [] => 0
  | rs :: L' => rs_end rs - rs_start rs + total L'
  end.

Lemma covers_app L1 L2 x : covers (L1 ++ L2) x <-> covers L1 x \/ covers L2 x.
Proof. apply Exists_app. Qed.

Lemma covers_cons rs L x : covers (rs :: L) x <-> in_seg rs x \/ covers L x.
Proof. apply Exists_cons. Qed.

Lemma covers_nil x : covers [] x <-> False.
Proof. apply Exists_nil. Qed.

Lemma total_app L1 L2 : total (L1 ++ L2) = total L1 + total L2.
Proof. induction L1; cbn; lia. Qed.

#[export] Hint Rewrite covers_app covers_cons covers_nil : covers.

Lemma segs_ok_app L1 L2 :
  segs_ok (L1 ++ L2) <->
  segs_ok L1 /\ segs_ok L2 /\ (forall a b, a ∈ L1 -> b ∈ L2 -> gap a b).
Proof. unfold segs_ok. rewrite StronglySorted_app, Forall_app. naive_solver. Qed.

Lemma segs_ok_cons rs L :
  segs_ok (rs :: L) <-> seg_ok rs /\ segs_ok L /\ (forall b, b ∈ L -> gap rs b).
Proof.
  unfold segs_ok. rewrite Forall_cons. split.
  - intros [H1 [H2 H3]]. apply StronglySorted_inv in H1 as [H1 H4].
    rewrite Forall_forall in H4. done.
  - intros (H1 & [H2 H3] & H4). split; [|done]. constructor; [done|].
    by apply Forall_forall.
Qed.

Lemma segs_ok_nil : segs_ok [].
Proof. split; constructor. Qed.

Lemma gap_trans a b c : gap a b -> seg_ok b -> gap b c -> gap a c.
Proof. unfold gap, seg_ok. lia. Qed.

(** Put [rs] in place of the segments between [K1] and [K2]. *)
Lemma segs_ok_splice K1 M K2 rs :
  segs_ok (K1 ++ M ++ K2) -> seg_ok rs ->
  (forall a, a ∈ K1 -> gap a rs) -> (forall b, b ∈ K2 -> gap rs b) ->
  segs_ok (K1 ++ rs :: K2).
Proof.
  rewrite !segs_ok_app, segs_ok_cons. intros (H1 & (H2 & H3 & _) & H4) Hrs Ha Hb.
  split_and!; auto. intros a b Hin. rewrite elem_of_cons. intros [->|Hb2]; [auto|].
  apply H4; set_solver.
Qed.

Lemma segs_ok_NoDup L : segs_ok L -> NoDup L.
Proof.
  induction L as [|rs L IH]; [constructor|]. rewrite segs_ok_cons.
  intros (Hrs & HL & Hg). constructor; [|auto]. intros Hin. apply Hg in Hin.
  unfold gap, seg_ok in *. lia.
Qed.

Lemma total_nonneg L : Forall seg_ok L -> 0 <= total L.
Proof. induction 1 as [|rs L H]; cbn; unfold seg_ok in *; lia. Qed.

(** Segments that lie in an interval add up to no more than it. *)
Lemma total_bound L lo hi :
  segs_ok L -> lo <= hi -> (forall b, b ∈ L -> lo <= rs_start b /\ rs_end b <= hi) ->
  total L <= hi - lo.
Proof.
  revert lo; induction L as [|rs L IH]; intros lo; [cbn; lia|].
  rewrite segs_ok_cons. intros (Hrs & HL & Hg) Hlo Hb. cbn.
  pose proof (Hb rs ltac:(left)). unfold seg_ok, gap in *.
  assert (total L <= hi - rs_end rs); [|lia].
  apply IH; [done|lia|]. intros b Hin. specialize (Hb b ltac:(by right)). apply Hg in Hin. lia.
Qed.

Lemma total_u64 L : segs_ok L -> u64 (total L).
Proof.
  intros H. split; [apply total_nonneg, H|].
  enough (total L <= 2 ^ 64 - 1 - 0) by lia. apply total_bound; [done|lia|]. intros b Hin.
  destruct H as [_ H]. rewrite Forall_forall in H. apply H in Hin. unfold seg_ok in *. lia.
Qed.

Lemma covers_seg_lt L rs x : segs_ok (rs :: L) -> covers L x -> rs_end rs < x.
Proof.
  rewrite segs_ok_cons. intros (_ & _ & Hg). unfold covers. rewrite Exists_exists.
  intros (b & Hb & Hx). apply Hg in Hb. unfold gap, in_seg in *. lia.
Qed.

(** ** Comparison and search *)

Lemma compare_before s e rs :
  s < e -> rs_end rs <= s -> rs_start rs < rs_end rs ->
  range_tree_seg_compare (RangeSeg s e) rs = 1.
Proof. unfold range_tree_seg_compare; cbn. intros. repeat split_if; lia. Qed.

Lemma compare_after s e rs :
  s < e -> e <= rs_start rs -> range_tree_seg_compare (RangeSeg s e) rs = -1.
Proof. unfold range_tree_seg_compare; cbn. intros. repeat split_if; lia. Qed.

Lemma compare_overlap s e rs :
  s < e -> rs_start rs < rs_end rs -> s < rs_end rs -> rs_start rs < e ->
  range_tree_seg_compare (RangeSeg s e) rs = 0.
Proof. unfold range_tree_seg_compare; cbn. intros. repeat split_if; lia. Qed.

(** The segments before, overlapping and after the range [s, e). *)
Definition parts (s e : Z) (L1 M L2 : list range_seg) : Prop :=
  (forall b, b ∈ L1 -> rs_end b <= s) /\
  (forall b, b ∈ M -> s < rs_end b /\ rs_start b < e) /\
  (forall b, b ∈ L2 -> e <= rs_start b).

Lemma parts_exist L s e :
  segs_ok L -> s < e -> exists L1 M L2, L = L1 ++ M ++ L2 /\ parts s e L1 M L2.
Proof.
  intros HL Hse. induction L as [|rs L IH].
  { exists [], [], []. split; [done|]. unfold parts. set_solver. }
  rewrite segs_ok_cons in HL. destruct HL as (Hrs & HL & Hg).
  destruct (IH HL) as (L1 & M & L2 & HLeq & H1 & HM & H2). unfold seg_ok, gap in *.
  destruct (Z.le_gt_cases (rs_end rs) s) as [Hc|Hc].
  - exists (rs :: L1), M, L2. subst L. split; [done|].
    split_and!; auto. intros b. rewrite elem_of_cons. intros [->|]; auto.
  - assert (L1 = []) as ->.
    { destruct L1 as [|b L1]; [done|]. exfalso.
      specialize (H1 b ltac:(left)). specialize (Hg b). subst L. 
      rewrite segs_ok_app, segs_ok_cons in HL. destruct HL as ((Hb & _) & _).
      unfold seg_ok in Hb. specialize (Hg ltac:(left)). lia. }
    cbn in HLeq. destruct (Z.lt_ge_cases (rs_start rs) e) as [Hc'|Hc'].
    + exists [], (rs :: M), L2. subst L. split; [done|]. split_and!; auto.
      intros b. rewrite elem_of_cons. intros [->|]; auto.
    + exists [], [], (rs :: L). split; [done|]. split_and!; [set_solver..|].
      intros b. rewrite elem_of_cons. intros [->|Hb]; [lia|]. apply Hg in Hb. lia.
Qed.

Lemma parts_cut s e L1 M L2 :
  segs_ok (L1 ++ M ++ L2) -> s < e -> parts s e L1 M L2 ->
  cut (RangeSeg s e) L1 M L2.
Proof.
  rewrite !segs_ok_app. intros ([_ H1] & ([_ HM] & [_ H2] & _) & _) Hse (P1 & PM & P2).
  rewrite Forall_forall in *. unfold seg_ok in *.
  split_and!; apply Forall_forall; intros b Hb; unfold avl_compar, range_seg_compar.
  - rewrite compare_before; auto; [lia|]. apply H1 in Hb. lia.
  - specialize (PM _ Hb). rewrite compare_overlap; auto; try lia. apply HM in Hb. lia.
  - rewrite compare_after; auto; lia.
Qed.

(** ** Histogram *)

Definition bucket (rs : range_seg) : nat := Z.to_nat (seg_bucket rs).

Definition count (i : nat) (L : list range_seg) : Z :=
  Z.of_nat (length (filter (fun rs => bucket rs = i) L)).

(** Bucket [i] counts the segments of size [2^i .. 2^(i+1) - 1]. *)
Definition hist_ok (h : list Z) (L : list range_seg) : Prop :=
  length h = RANGE_TREE_HISTOGRAM_SIZE /\
  forall i, (i < RANGE_TREE_HISTOGRAM_SIZE)%nat -> h !! i = Some (wrap64 (count i L)).

Lemma seg_size_ok rs : seg_ok rs -> seg_size rs = rs_end rs - rs_start rs.
Proof. unfold seg_ok, seg_size. intros. apply sub64_small. unfold u64. lia. Qed.

Lemma seg_bucket_log2 rs : seg_ok rs -> seg_bucket rs = Z.log2 (rs_end rs - rs_start rs).
Proof.
  intros H. unfold seg_bucket, highbit64. rewrite seg_size_ok by done.
  unfold seg_ok in H. split_if; lia.
Qed.

Lemma bucket_lt rs : seg_ok rs -> (bucket rs < RANGE_TREE_HISTOGRAM_SIZE)%nat.
Proof.
  intros H. unfold bucket. rewrite seg_bucket_log2 by done. unfold seg_ok in H.
  assert (Z.log2 (rs_end rs - rs_start rs) < 64) by (apply Z.log2_lt_pow2; lia).
  pose proof (Z.log2_nonneg (rs_end rs - rs_start rs)). unfold RANGE_TREE_HISTOGRAM_SIZE. lia.
Qed.

Lemma count_cons i rs L :
  count i (rs :: L) = count i L + (if decide (bucket rs = i) then 1 else 0).
Proof. unfold count. rewrite filter_cons. case_decide; cbn; lia. Qed.

(** Segments with gaps between them are so few that no bucket overflows. *)
Lemma segs_few_from lo L :
  segs_ok L -> (forall b, b ∈ L -> lo <= rs_start b) -> 0 <= lo <= 2 ^ 64 -> 2 * Z.of_nat (length L) + lo <= 2 ^ 64 + 1.
Proof.
  revert lo. induction L as [|rs L IH]; intros lo HL Hlo H0; [cbn; lia|].
  apply segs_ok_cons in HL as ([Hrs He] & HL & Hg). specialize (Hlo rs ltac:(left)).
  specialize (IH (rs_end rs + 1) HL). cbn [length].
  enough (2 * Z.of_nat (length L) + (rs_end rs + 1) <= 2 ^ 64 + 1) by lia. apply IH; [|lia].
  intros b Hb. specialize (Hg b Hb). unfold gap in Hg. lia.
Qed.

Lemma segs_few L : segs_ok L -> Z.of_nat (length L) <= 2 ^ 63.
Proof.
  intros HL. pose proof (segs_few_from 0 L HL) as H. destruct HL as [_ HL]. rewrite Forall_forall in HL.
  enough (2 * Z.of_nat (length L) + 0 <= 2 ^ 64 + 1) by lia. apply H; [|lia]. intros b Hb. by apply HL.
Qed.

(** A part of the segments of [H] is as few. *)
Ltac few H :=
  let F := fresh in pose proof (segs_few _ H) as F; rewrite ?length_app in *; cbn [length] in *; lia.

Lemma bucket_count_bound i L : 0 <= count i L <= Z.of_nat (length L).
Proof. unfold count. pose proof (length_filter (fun rs => bucket rs = i) L). lia. Qed.

Lemma hist_ok_perm h L L' : L ≡ₚ L' -> hist_ok h L -> hist_ok h L'.
Proof. intros HP [Hl H]. split; [done|]. intros i Hi. rewrite H by done.
  unfold count. by rewrite HP. Qed.

Lemma hist_ok_nil : hist_ok (replicate RANGE_TREE_HISTOGRAM_SIZE 0) [].
Proof. split; [done|]. intros i Hi. by apply lookup_replicate_2. Qed.

Lemma hist_ok_unique h h' L : hist_ok h L -> hist_ok h' L -> h = h'.
Proof.
  intros [Hl H] [Hl' H']. apply list_eq. intros i.
  destruct (decide (i < RANGE_TREE_HISTOGRAM_SIZE)%nat) as [Hi|Hi].
  - by rewrite H, H'.
  - rewrite !lookup_ge_None_2 by lia. done.
Qed.

Lemma hist_incr h L rs :
  hist_ok h L -> hist_ok (alter (fun n => add64 n 1) (bucket rs) h) (rs :: L).
Proof.
  intros [Hl H]. split; [by rewrite length_alter|]. intros i Hi.
  rewrite count_cons. destruct (decide (bucket rs = i)) as [<-|Hne].
  - rewrite list_lookup_alter_eq, H by done. cbn. unfold add64. by rewrite wrap64_add_l.
  - rewrite list_lookup_alter_ne, H by done. by rewrite Z.add_0_r.
Qed.

Lemma hist_decr h L rs :
  hist_ok h (rs :: L) -> hist_ok (alter (fun n => sub64 n 1) (bucket rs) h) L.
Proof.
  intros [Hl H]. split; [by rewrite length_alter|]. intros i Hi.
  specialize (H i Hi). rewrite count_cons in H.
  destruct (decide (bucket rs = i)) as [<-|Hne].
  - rewrite list_lookup_alter_eq, H. cbn. unfold sub64. rewrite wrap64_sub_l.
    do 2 f_equal. lia.
  - rewrite list_lookup_alter_ne, H by done. by rewrite Z.add_0_r.
Qed.

(** ** Callbacks

    What an owner's callbacks promise: [I L s] relates the segments in the
    tree to the owner's state [s], and every callback keeps it. *)
Class OpsSpec {S} (o : range_tree_ops S) (I : list range_seg -> S -> Prop) : Prop := {
  ops_perm L L' s : L ≡ₚ L' -> I L s -> I L' s;
  ops_add L rs s : segs_ok [rs] -> rs ∉ L -> I L s ->
    exists s', rtop_add o rs s = Ret s' /\ I (rs :: L) s';
  ops_remove L rs s : rs ∉ L -> I (rs :: L) s ->
    exists s', rtop_remove o rs s = Ret s' /\ I L s';
  ops_vacate L s : I L s -> exists s', rtop_vacate o s = Ret s' /\ I [] s' }.

Section Wf.
Context {S : Type} (I : list range_seg -> S -> Prop).
Implicit Types (rt : range_tree S) (rs : range_seg).

(** The [create] callback sets the owner's state up for an empty tree. *)
Definition creates (o : range_tree_ops S) (s : S) : Prop :=
  exists s', rtop_create o s = Ret s' /\ I [] s'.

(** The owner's state agrees with the segments [L]. *)
Definition ops_inv (o : option (range_tree_ops S)) (s : S) (L : list range_seg) : Prop :=
  match o with
  | None => True
  | Some o => OpsSpec o I /\ I L s
  end.

Definition segs rt : list range_seg := elements (rt_root rt).

(** The invariant of a range tree. *)
Definition rt_wf rt : Prop :=
  avl_wf (rt_root rt) /\ segs_ok (segs rt) /\ rt_space rt = total (segs rt) /\
  hist_ok (rt_histogram rt) (segs rt) /\ ops_inv (rt_ops rt) (rt_arg rt) (segs rt).

(** The set of offsets in the tree. *)
Definition rt_mem rt (x : Z) : Prop := covers (segs rt) x.

Lemma ops_inv_perm o s L L' : L ≡ₚ L' -> ops_inv o s L -> ops_inv o s L'.
Proof. destruct o; cbn; [|done]. intros HP [Ho H]. split; [done|]. by eapply ops_perm. Qed.

Lemma set_arg_id rt : set_arg rt (rt_arg rt) = rt.
Proof. by destruct rt. Qed.

Lemma call_remove rt rs L :
  rs ∉ L -> ops_inv (rt_ops rt) (rt_arg rt) (rs :: L) ->
  exists s, call rt (fun o => rtop_remove o rs) = Ret (set_arg rt s) /\
    ops_inv (rt_ops rt) s L.
Proof.
  intros Hn. unfold call. destruct (rt_ops rt) as [o|] eqn:E; cbn.
  - intros [Ho H]. destruct (ops_remove L rs (rt_arg rt)) as (s & -> & Hs); auto.
    cbn. eauto.
  - intros _. exists (rt_arg rt). by rewrite set_arg_id.
Qed.

Lemma call_add rt rs L :
  seg_ok rs -> rs ∉ L -> ops_inv (rt_ops rt) (rt_arg rt) L ->
  exists s, call rt (fun o => rtop_add o rs) = Ret (set_arg rt s) /\
    ops_inv (rt_ops rt) s (rs :: L).
Proof.
  intros Hrs Hn. unfold call. destruct (rt_ops rt) as [o|] eqn:E; cbn.
  - intros [Ho H]. destruct (ops_add L rs (rt_arg rt)) as (s & -> & Hs); auto.
    + apply segs_ok_cons. split_and!; auto using segs_ok_nil. set_solver.
    + cbn. eauto.
  - intros _. exists (rt_arg rt). by rewrite set_arg_id.
Qed.

Lemma bucket_nonzero rs L :
  Z.of_nat (length L) <= 2 ^ 63 -> negb (wrap64 (count (bucket rs) (rs :: L)) =? 0) = true.
Proof.
  intros Hf. rewrite count_cons, decide_True by done. pose proof (bucket_count_bound (bucket rs) L).
  rewrite wrap64_small by (unfold u64; lia). apply negb_true_iff, Z.eqb_neq. lia.
Qed.

Lemma stat_incr_ok rt rs L :
  seg_ok rs -> hist_ok (rt_histogram rt) L -> Z.of_nat (length L) <= 2 ^ 63 ->
  exists h, range_tree_stat_incr rt rs = Ret (set_histogram rt h) /\ hist_ok h (rs :: L).
Proof.
  intros Hrs Hh Hf. pose proof (bucket_lt rs Hrs) as Hb. unfold range_tree_stat_incr. rewrite seg_size_ok by done.
  unfold seg_ok in Hrs. destruct (Z.eqb_spec (rs_end rs - rs_start rs) 0); [lia|]. cbn [negb verify mbind result_bind].
  fold (bucket rs). rewrite (proj2 (Nat.ltb_lt _ _) Hb). cbn [verify mbind result_bind].
  pose proof (hist_incr _ _ rs Hh) as Hh'. rewrite (rd_ok _ _ _ (proj2 Hh' _ Hb)). cbn [mbind result_bind].
  rewrite (bucket_nonzero rs L Hf). by eexists.
Qed.

Lemma stat_decr_ok rt rs L :
  seg_ok rs -> hist_ok (rt_histogram rt) (rs :: L) -> Z.of_nat (length L) <= 2 ^ 63 ->
  exists h, range_tree_stat_decr rt rs = Ret (set_histogram rt h) /\ hist_ok h L.
Proof.
  intros Hrs Hh Hf. pose proof (bucket_lt rs Hrs) as Hb. unfold range_tree_stat_decr. rewrite seg_size_ok by done.
  unfold seg_ok in Hrs. destruct (Z.eqb_spec (rs_end rs - rs_start rs) 0); [lia|]. cbn [negb verify mbind result_bind].
  fold (bucket rs). rewrite (proj2 (Nat.ltb_lt _ _) Hb). cbn [verify mbind result_bind].
  rewrite (rd_ok _ _ _ (proj2 Hh _ Hb)). cbn [mbind result_bind]. rewrite (bucket_nonzero rs L Hf).
  cbn [verify mbind result_bind]. eexists; split; [done|]. by apply hist_decr.
Qed.

(** ** Addition *)

Lemma neighbour_before L1 start :
  segs_ok L1 -> (forall b, b ∈ L1 -> rs_end b <= start) ->
  match neighbour (fun b => rs_end b =? start) (last L1) with
  | Some b => exists K1, L1 = K1 ++ [b] /\ rs_end b = start
  | None => forall b, b ∈ L1 -> rs_end b < start
  end.
Proof.
  intros HL Hb. destruct (last L1) as [b|] eqn:E; cbn.
  2: { apply last_None in E as ->. set_solver. }
  apply last_Some in E as [K1 ->]. destruct (Z.eqb_spec (rs_end b) start); [eauto|].
  intros c. rewrite elem_of_app, list_elem_of_singleton. intros [Hc| ->].
  - rewrite segs_ok_app in HL. destruct HL as (_ & H2 & Hg).
    rewrite segs_ok_cons in H2. destruct H2 as (Hbk & _).
    specialize (Hg c b Hc ltac:(left)). specialize (Hb b ltac:(set_solver)).
    unfold gap, seg_ok in *. lia.
  - specialize (Hb b ltac:(set_solver)). lia.
Qed.

Lemma neighbour_after L2 end_ :
  segs_ok L2 -> (forall b, b ∈ L2 -> end_ <= rs_start b) ->
  match neighbour (fun a => rs_start a =? end_) (head L2) with
  | Some a => exists K2, L2 = a :: K2 /\ rs_start a = end_
  | None => forall b, b ∈ L2 -> end_ < rs_start b
  end.
Proof.
  intros HL Hb. destruct L2 as [|a L2]; cbn; [set_solver|].
  destruct (Z.eqb_spec (rs_start a) end_); [eauto|].
  rewrite segs_ok_cons in HL. destruct HL as (Hak & _ & Hg).
  intros c. rewrite elem_of_cons. intros [->|Hc].
  - specialize (Hb a ltac:(left)). lia.
  - specialize (Hg c Hc). specialize (Hb a ltac:(left)). unfold gap, seg_ok in *. lia.
Qed.

(** [rt1] still has the node of [rs] in its tree, between [K1] and [K2], while
    its histogram and callback state hold only the other segments. *)
Definition pending rt rt1 (K1 : list range_seg) rs (K2 : list range_seg) : Prop :=
  avl_wf (rt_root rt1) /\ segs rt1 = K1 ++ rs :: K2 /\
  hist_ok (rt_histogram rt1) (K1 ++ K2) /\
  ops_inv (rt_ops rt1) (rt_arg rt1) (K1 ++ K2) /\
  rt_space rt1 = rt_space rt /\ rt_ops rt1 = rt_ops rt.

Lemma inv_middle {P : list range_seg -> Prop} rs K1 K2 :
  (forall L L', L ≡ₚ L' -> P L -> P L') -> P (K1 ++ rs :: K2) -> P (rs :: K1 ++ K2).
Proof. intros HP. apply HP. symmetry. apply Permutation_middle. Qed.

Section AddCases.
Context (rt : range_tree S) (w : path range_seg) (start end_ : Z).
Context (Hwf : rt_wf rt).

(** Both neighbours touch the new range. *)
Lemma add_merge_both K1 b a K2 :
  segs rt = K1 ++ b :: a :: K2 -> rs_end b = start -> rs_start a = end_ ->
  exists rt1, add_merge rt w start end_ (Some b) (Some a) =
      Ret (rt1, RangeSeg (rs_start b) (rs_end a)) /\
    pending rt rt1 K1 (RangeSeg (rs_start b) (rs_end a)) K2.
Proof.
  intros Hsegs Hb Ha. destruct Hwf as (Hav & Hs & _ & Hh & Ho).
  rewrite Hsegs in Hs, Hh, Ho. pose proof (segs_ok_NoDup _ Hs) as Hnd.
  pose proof (NoDup_drop_middle _ _ _ Hnd) as Hnd1.
  pose proof (NoDup_middle _ _ _ Hnd) as [? ?].
  pose proof (NoDup_middle _ _ _ Hnd1) as [? ?].
  pose proof Hs as (_ & (Hbk & (Hak & _)%segs_ok_cons & _)%segs_ok_cons & _)%segs_ok_app.
  destruct (avl_remove_spec (rt_root rt) K1 b (a :: K2)) as [Hwf1 Hel1]; auto.
  { unfold segs in Hsegs. by rewrite Hsegs. }
  destruct (avl_set_spec (avl_remove (rt_root rt) b) K1 a K2
              (RangeSeg (rs_start b) (rs_end a))) as [Hwf2 Hel2]; [done|by rewrite Hel1|done|].
  unfold add_merge.
  destruct (call_remove (set_root rt (avl_remove (rt_root rt) b)) b (K1 ++ a :: K2))
    as (s1 & -> & Ho1); [set_solver|by apply (inv_middle b _ _ (ops_inv_perm _ _))|].
  cbn in Ho1 |- *.
  destruct (call_remove (set_arg (set_root rt (avl_remove (rt_root rt) b)) s1) a (K1 ++ K2))
    as (s2 & -> & Ho2); [set_solver|by apply (inv_middle a _ _ (ops_inv_perm _ _))|].
  cbn in Ho2 |- *.
  destruct (stat_decr_ok (set_arg (set_arg (set_root rt (avl_remove (rt_root rt) b)) s1) s2)
              b (K1 ++ a :: K2)) as (h1 & -> & Hh1);
    [done|by apply (inv_middle b _ _ (hist_ok_perm _))|few Hs|]. cbn.
  destruct (stat_decr_ok (set_histogram
              (set_arg (set_arg (set_root rt (avl_remove (rt_root rt) b)) s1) s2) h1)
              a (K1 ++ K2)) as (h2 & -> & Hh2);
    [done|by apply (inv_middle a _ _ (hist_ok_perm _))|few Hs|]. cbn.
  eexists; split; [done|]. unfold pending, segs; cbn. auto 10.
Qed.

(** One neighbour [n] touches it and grows to [rs]. *)
Lemma add_merge_one K1 n K2 rs :
  segs rt = K1 ++ n :: K2 ->
  exists rt1,
    (rt1 ← call rt (fun o => rtop_remove o n);
     rt2 ← range_tree_stat_decr rt1 n;
     Ret (set_root rt2 (avl_set (rt_root rt2) n rs), rs)) = Ret (rt1, rs) /\
    pending rt rt1 K1 rs K2.
Proof.
  intros Hsegs. destruct Hwf as (Hav & Hs & _ & Hh & Ho).
  rewrite Hsegs in Hs, Hh, Ho. pose proof (segs_ok_NoDup _ Hs) as Hnd.
  pose proof (NoDup_middle _ _ _ Hnd) as [? ?].
  pose proof Hs as (_ & (Hnk & _)%segs_ok_cons & _)%segs_ok_app.
  destruct (avl_set_spec (rt_root rt) K1 n K2 rs) as [Hwf2 Hel2]; auto.
  { unfold segs in Hsegs. by rewrite Hsegs. }
  destruct (call_remove rt n (K1 ++ K2)) as (s & -> & Ho1);
    [set_solver|by apply (inv_middle n _ _ (ops_inv_perm _ _))|]. cbn.
  destruct (stat_decr_ok (set_arg rt s) n (K1 ++ K2)) as (h & -> & Hh1);
    [done|by apply (inv_middle n _ _ (hist_ok_perm _))|few Hs|]. cbn.
  eexists; split; [done|]. unfold pending, segs; cbn. auto 10.
Qed.

(** No neighbour touches it. *)
Lemma add_merge_none L1 L2 :
  segs rt = L1 ++ L2 -> hole (rt_root rt) w -> before w = L1 -> after w = L2 ->
  exists rt1, add_merge rt w start end_ None None = Ret (rt1, RangeSeg start end_) /\
    pending rt rt1 L1 (RangeSeg start end_) L2.
Proof.
  intros Hsegs Hw <- <-. destruct Hwf as (Hav & Hs & _ & Hh & Ho).
  rewrite Hsegs in Hs, Hh, Ho.
  destruct (avl_insert_spec (rt_root rt) (RangeSeg start end_) w Hav Hw) as [H1 H2].
  eexists; split; [done|]. unfold pending, segs; cbn. auto 10.
Qed.
End AddCases.

Ltac solve_covers :=
  intros; autorewrite with covers; unfold in_seg, seg_ok in *; cbn; intuition lia.

(** What [range_tree_add] has done before it accounts for the new segment. *)
Lemma add_merge_ok rt w start end_ L1 L2 :
  rt_wf rt -> 0 <= start < end_ -> end_ < 2 ^ 64 -> segs rt = L1 ++ L2 ->
  parts start end_ L1 [] L2 -> hole (rt_root rt) w -> before w = L1 -> after w = L2 ->
  exists rt1 rs K1 K2,
    add_merge rt w start end_
      (neighbour (fun b => rs_end b =? start) (last L1))
      (neighbour (fun a => rs_start a =? end_) (head L2)) = Ret (rt1, rs) /\
    pending rt rt1 K1 rs K2 /\ segs_ok (K1 ++ rs :: K2) /\
    (forall x, covers (K1 ++ rs :: K2) x <-> covers (L1 ++ L2) x \/ start <= x < end_) /\
    total (K1 ++ rs :: K2) = total (L1 ++ L2) + (end_ - start).
Proof.
  intros Hwf Hse He Hsegs (P1 & _ & P2) Hw Hb1 Hb2.
  pose proof Hwf as (_ & Hs & _). rewrite Hsegs in Hs.
  pose proof Hs as (Hs1 & Hs2 & Hg)%segs_ok_app.
  pose proof (neighbour_before L1 start Hs1 P1) as Hnb.
  pose proof (neighbour_after L2 end_ Hs2 P2) as Hna.
  destruct (neighbour _ (last L1)) as [b|], (neighbour _ (head L2)) as [a|].
  - destruct Hnb as (K1 & -> & Hbe), Hna as (K2 & -> & Has).
    rewrite <- app_assoc in Hsegs, Hs. cbn in Hsegs, Hs.
    destruct (add_merge_both rt w start end_ Hwf K1 b a K2) as (rt1 & -> & Hp); auto.
    eexists _, _, K1, K2. split; [done|]. split; [done|]. 
    pose proof Hs as (_ & (Hbk & (Hak & _ & Hga)%segs_ok_cons & Hgb)%segs_ok_cons & HgK)%segs_ok_app.
    split_and!; [|solve_covers|rewrite !total_app; cbn; rewrite ?total_app; cbn; lia].
    apply (segs_ok_splice K1 [b; a] K2); auto; unfold seg_ok, gap in *; cbn in *; [lia|].
    intros c Hc. apply (HgK c b); [done|left].
  - destruct Hnb as (K1 & -> & Hbe). rewrite <- app_assoc in Hsegs, Hs. cbn in Hsegs, Hs.
    destruct (add_merge_one rt Hwf K1 b L2 (RangeSeg (rs_start b) end_)) as (rt1 & Heq & Hp); auto.
    eexists _, _, K1, L2. split; [exact Heq|]. split; [done|].
    pose proof Hs as (_ & (Hbk & _ & Hgb)%segs_ok_cons & HgK)%segs_ok_app.
    split_and!; [|solve_covers|rewrite !total_app; cbn; rewrite ?total_app; cbn; lia].
    apply (segs_ok_splice K1 [b] L2); auto; unfold seg_ok, gap in *; cbn in *; [lia|].
    intros c Hc. apply (HgK c b); [done|left].
  - destruct Hna as (K2 & -> & Has).
    destruct (add_merge_one rt Hwf L1 a K2 (RangeSeg start (rs_end a))) as (rt1 & Heq & Hp); auto.
    eexists _, _, L1, K2. split; [exact Heq|]. split; [done|].
    pose proof Hs2 as (Hak & _ & Hga)%segs_ok_cons.
    split_and!; [|solve_covers|rewrite !total_app; cbn; lia].
    apply (segs_ok_splice L1 [a] K2); auto; unfold seg_ok, gap in *; cbn in *; lia.
  - destruct (add_merge_none rt w start end_ Hwf L1 L2) as (rt1 & -> & Hp); auto.
    eexists _, _, L1, L2. split; [done|]. split; [done|].
    split_and!; [|solve_covers|rewrite !total_app; cbn; lia].
    apply (segs_ok_splice L1 [] L2); auto; unfold seg_ok, gap; cbn; lia.
Qed.

(** ** Search *)

Lemma find_spec rt s e :
  segs_ok (segs rt) -> s < e ->
  match avl_find (rt_root rt) (RangeSeg s e) with
  | inl rs => rs ∈ segs rt /\ s < rs_end rs /\ rs_start rs < e
  | inr w => exists L1 L2, segs rt = L1 ++ L2 /\ parts s e L1 [] L2 /\
      hole (rt_root rt) w /\ before w = L1 /\ after w = L2
  end.
Proof.
  intros Hs Hse. destruct (parts_exist _ s e Hs Hse) as (L1 & M & L2 & HL & Hp).
  pose proof (parts_cut s e L1 M L2) as Hc. rewrite <- HL in Hc.
  pose proof (avl_find_spec (rt_root rt) (RangeSeg s e) L1 M L2 (Hc Hs Hse Hp) HL) as Hf.
  destruct (avl_find _ _) as [rs|w].
  - destruct Hp as (_ & HM & _). rewrite HL. split; [set_solver|auto].
  - destruct Hf as (-> & ? & ? & ?). exists L1, L2. done.
Qed.

Lemma covers_In L x : covers L x <-> exists rs, rs ∈ L /\ in_seg rs x.
Proof. apply Exists_exists. Qed.

Lemma parts_nil_disjoint s e L1 L2 x :
  parts s e L1 [] L2 -> s <= x < e -> ~ covers (L1 ++ L2) x.
Proof.
  intros (P1 & _ & P2) Hx. rewrite covers_In. intros (rs & Hrs & Hin).
  unfold in_seg in Hin. rewrite elem_of_app in Hrs.
  destruct Hrs as [H%P1|H%P2]; lia.
Qed.

Lemma segs_unique L a b x :
  segs_ok L -> a ∈ L -> b ∈ L -> in_seg a x -> rs_start b <= x <= rs_end b -> a = b.
Proof.
  intros HL Ha Hb Hx Hy. apply list_elem_of_split in Ha as (K1 & K2 & ->).
  apply segs_ok_app in HL as (_ & (Hak & _ & Hg2)%segs_ok_cons & Hg1).
  rewrite elem_of_app, elem_of_cons in Hb. unfold in_seg in Hx.
  destruct Hb as [Hb|[->|Hb]]; [|done|].
  - specialize (Hg1 b a Hb ltac:(left)). unfold gap in *. lia.
  - specialize (Hg2 b Hb). unfold gap in *. lia.
Qed.

(** A range is in the set only when one segment holds all of it. *)
Lemma covers_range L s e :
  segs_ok L -> s < e ->
  (forall x, s <= x < e -> covers L x) <->
  exists rs, rs ∈ L /\ rs_start rs <= s /\ e <= rs_end rs.
Proof.
  intros HL Hse. split.
  - intros H. destruct (proj1 (covers_In _ _) (H s ltac:(lia))) as (rs & Hrs & Hin).
    unfold in_seg in Hin. exists rs. split_and!; [done|lia|].
    destruct (Z.le_gt_cases e (rs_end rs)) as [|Hlt]; [done|exfalso].
    destruct (proj1 (covers_In _ _) (H (rs_end rs) ltac:(lia))) as (c & Hc & Hin').
    assert (c = rs) as -> by (eapply (segs_unique L c rs (rs_end rs)); eauto; lia).
    unfold in_seg in Hin'. lia.
  - intros (rs & Hrs & H1 & H2) x Hx. apply covers_In. exists rs. split; [done|].
    unfold in_seg. lia.
Qed.

Lemma find_containing rt rs s e :
  segs_ok (segs rt) -> s < e -> rs ∈ segs rt -> rs_start rs <= s -> e <= rs_end rs ->
  avl_find (rt_root rt) (RangeSeg s e) = inl rs.
Proof.
  intros Hs Hse Hin H1 H2. pose proof (find_spec rt s e Hs Hse) as Hf.
  destruct (avl_find _ _) as [c|w].
  - destruct Hf as (Hc & Hc1 & Hc2). f_equal.
    eapply (segs_unique _ c rs (Z.max s (rs_start c))); eauto; [|lia].
    destruct Hs as [_ Hok]. rewrite Forall_forall in Hok. apply Hok in Hc.
    unfold seg_ok, in_seg in *. lia.
  - destruct Hf as (L1 & L2 & Hsegs & Hp & _). exfalso.
    apply (parts_nil_disjoint _ _ _ _ s Hp); [lia|]. rewrite <- Hsegs.
    apply covers_In. exists rs. split; [done|]. unfold in_seg. lia.
Qed.

(** ** [range_tree_add] on every input *)

Lemma add_ok zfs_recover rt start size :
  rt_wf rt -> 0 <= start -> 0 < size -> start + size < 2 ^ 64 ->
  (forall x, start <= x < start + size -> ~ rt_mem rt x) ->
  exists rt', range_tree_add zfs_recover rt start size = Ret rt' /\ rt_wf rt' /\
    (forall x, rt_mem rt' x <-> rt_mem rt x \/ start <= x < start + size) /\
    rt_space rt' = rt_space rt + size /\ rt_ops rt' = rt_ops rt.
Proof.
  intros Hwf Hs0 Hsz Hend Hdis. pose proof Hwf as (Hav & Hs & Hsp & Hh & Ho).
  unfold range_tree_add. rewrite add64_small by (unfold u64; lia).
  destruct (Z.eqb_spec size 0); [lia|]. cbn.
  pose proof (find_spec rt start (start + size) Hs ltac:(lia)) as Hf.
  destruct (avl_find _ _) as [rs|w].
  { exfalso. destruct Hf as (Hin & H1 & H2). apply (Hdis (Z.max start (rs_start rs))).
    - lia.
    - apply covers_In. exists rs. split; [done|]. unfold in_seg.
      destruct Hs as [_ Hok]. rewrite Forall_forall in Hok. apply Hok in Hin.
      unfold seg_ok in Hin. lia. }
  destruct Hf as (L1 & L2 & Hsegs & Hp & Hw & Hb1 & Hb2).
  rewrite avl_nearest_prev, avl_nearest_next, Hb1, Hb2.
  destruct (add_merge_ok rt w start (start + size) L1 L2) as
    (rt1 & rs & K1 & K2 & -> & (Hav1 & Hseg1 & Hh1 & Ho1 & Hsp1 & Hops1) & Hok & Hcov & Htot);
    auto; [lia|]. cbn.
  pose proof (segs_ok_NoDup _ Hok) as Hnd. pose proof (NoDup_middle _ _ _ Hnd) as [? ?].
  assert (seg_ok rs) as Hrs by (by apply segs_ok_app in Hok as (_ & (? & _)%segs_ok_cons & _)).
  destruct (call_add rt1 rs (K1 ++ K2)) as (s & -> & Ho2); [done|set_solver|done|]. cbn.
  destruct (stat_incr_ok (set_arg rt1 s) rs (K1 ++ K2)) as (h & -> & Hh2); [done|done|few Hok|]. cbn.
  rewrite Hsegs in Hsp. pose proof (total_u64 _ Hok) as Hu. rewrite Htot in Hu.
  eexists; split; [done|]. unfold rt_wf, rt_mem, segs; cbn.
  unfold segs in Hseg1, Hsegs. rewrite Hseg1, Hsegs.
  rewrite add64_small by (rewrite Hsp1, Hsp; replace size with (start + size - start) by lia; done).
  split_and!; auto; try lia.
  - eapply hist_ok_perm, Hh2. apply Permutation_middle.
  - eapply ops_inv_perm, Ho2. apply Permutation_middle.
Qed.

(** Adding a range that is already there: [zfs_panic_recover]. *)
Lemma add_present zfs_recover rt start size :
  rt_wf rt -> 0 <= start -> 0 < size -> start + size < 2 ^ 64 ->
  (forall x, start <= x < start + size -> rt_mem rt x) ->
  range_tree_add zfs_recover rt start size = if zfs_recover then Ret rt else Panic.
Proof.
  intros (_ & Hs & _) Hs0 Hsz Hend Hall.
  apply covers_range in Hall as (c & Hc & Hc1 & Hc2); [|done|lia].
  unfold range_tree_add. rewrite add64_small by (unfold u64; lia).
  destruct (Z.eqb_spec size 0); [lia|]. cbn.
  rewrite (find_containing rt c) by (auto; lia).
  destruct (Z.leb_spec (rs_start c) start), (Z.leb_spec (start + size) (rs_end c)); try lia.
  by destruct zfs_recover.
Qed.

(** Adding a range that is there in part: [VERIFY] fails. *)
Lemma add_partial zfs_recover rt start size x y :
  rt_wf rt -> 0 <= start -> 0 < size -> start + size < 2 ^ 64 ->
  start <= x < start + size -> rt_mem rt x ->
  start <= y < start + size -> ~ rt_mem rt y ->
  range_tree_add zfs_recover rt start size = Panic.
Proof.
  intros (_ & Hs & _) Hs0 Hsz Hend Hx Hmx Hy Hmy.
  unfold range_tree_add. rewrite add64_small by (unfold u64; lia).
  destruct (Z.eqb_spec size 0); [lia|]. cbn.
  pose proof (find_spec rt start (start + size) Hs ltac:(lia)) as Hf.
  destruct (avl_find _ _) as [rs|w].
  - destruct Hf as (Hin & _).
    destruct (Z.leb_spec (rs_start rs) start), (Z.leb_spec (start + size) (rs_end rs));
      try done. exfalso. apply Hmy. apply covers_In. exists rs. unfold in_seg. split; [done|lia].
  - destruct Hf as (L1 & L2 & Hsegs & Hp & _). exfalso.
    apply (parts_nil_disjoint _ _ _ _ x Hp); [lia|]. by rewrite <- Hsegs.
Qed.

(** ** [range_tree_remove] on every input *)

(** [L'] is [L] without the offsets [start, end_). *)
Definition minus (L L' : list range_seg) (start end_ : Z) : Prop :=
  segs_ok L' /\ total L' = total L - (end_ - start) /\
  forall x, covers L' x <-> covers L x /\ ~ start <= x < end_.

Lemma minus_splice K1 rs K2 M start end_ :
  segs_ok (K1 ++ rs :: K2) -> rs_start rs <= start < end_ -> end_ <= rs_end rs ->
  segs_ok M -> total M = rs_end rs - rs_start rs - (end_ - start) ->
  (forall x, covers M x <-> in_seg rs x /\ ~ start <= x < end_) ->
  Forall (fun b => rs_start rs <= rs_start b /\ rs_end b <= rs_end rs) M ->
  minus (K1 ++ rs :: K2) (K1 ++ M ++ K2) start end_.
Proof.
  intros (H1 & (Hrs & H2 & Hg2)%segs_ok_cons & Hg)%segs_ok_app Hse He HM Ht Hcov Hb.
  rewrite Forall_forall in Hb. split_and!.
  - rewrite !segs_ok_app. unfold gap in *. split_and!; auto.
    + intros a b Ha Hb2. apply Hb in Ha. apply Hg2 in Hb2. lia.
    + intros a b Ha. rewrite elem_of_app. intros [Hb2|Hb2].
      * apply Hb in Hb2. specialize (Hg a rs Ha ltac:(left)). lia.
      * apply Hg; [done|by right].
  - rewrite !total_app. cbn. lia.
  - intros x. autorewrite with covers. rewrite Hcov. unfold in_seg.
    assert (covers K1 x -> x < rs_start rs).
    { rewrite covers_In. intros (a & Ha & Hx). specialize (Hg a rs Ha ltac:(left)).
      unfold in_seg, gap in *. lia. }
    assert (covers K2 x -> rs_end rs < x).
    { rewrite covers_In. intros (a & Ha & Hx). specialize (Hg2 a Ha).
      unfold in_seg, gap in *. lia. }
    intuition lia.
Qed.

(** The four ways [range_tree_remove] changes the tree. *)
Lemma remove_split_ok rt rt2 K1 rs K2 start end_ :
  pending rt rt2 K1 rs K2 -> segs_ok (K1 ++ rs :: K2) ->
  rs_start rs <= start < end_ -> end_ <= rs_end rs ->
  exists rt3 o,
    remove_split rt2 rs start end_ = Ret (rt3, o) /\
    match o with
    | Some rs' => exists K2', pending rt rt3 K1 rs' K2' /\
        minus (K1 ++ rs :: K2) (K1 ++ rs' :: K2') start end_
    | None => avl_wf (rt_root rt3) /\ segs rt3 = K1 ++ K2 /\
        hist_ok (rt_histogram rt3) (K1 ++ K2) /\
        ops_inv (rt_ops rt3) (rt_arg rt3) (K1 ++ K2) /\
        rt_space rt3 = rt_space rt /\ rt_ops rt3 = rt_ops rt /\
        minus (K1 ++ rs :: K2) (K1 ++ K2) start end_
    end.
Proof.
  intros (Hav & Hsegs & Hh & Ho & Hsp & Hops) Hs Hse He.
  pose proof (segs_ok_NoDup _ Hs) as Hnd.
  pose proof Hs as (Hs1 & (Hrs & Hs2 & Hg2)%segs_ok_cons & Hg)%segs_ok_app.
  assert (NoDup (elements (rt_root rt2))) as Hnd2 by (unfold segs in Hsegs; by rewrite Hsegs).
  assert (forall rs', avl_wf (avl_set (rt_root rt2) rs rs') /\
    elements (avl_set (rt_root rt2) rs rs') = K1 ++ rs' :: K2) as Hset.
  { intros. by apply avl_set_spec. }
  unfold remove_split.
  destruct (Z.eqb_spec (rs_start rs) start) as [El|El],
           (Z.eqb_spec (rs_end rs) end_) as [Er|Er]; cbn [negb andb].
  - destruct (avl_remove_spec (rt_root rt2) K1 rs K2) as [Hwf1 Hel1]; auto.
    eexists _, None. split; [done|]. unfold segs; cbn. split_and!; auto.
    apply (minus_splice K1 rs K2 []); auto using segs_ok_nil.
    + cbn; lia.
    + solve_covers.
  - set (rs' := RangeSeg end_ (rs_end rs)).
    eexists _, (Some rs'). split; [done|]. exists K2. destruct (Hset rs') as [Hw1 He1].
    split; [unfold pending, segs; cbn; by auto 10|].
    unfold seg_ok in Hrs. apply (minus_splice K1 rs K2 [rs']); auto.
    + split; repeat constructor; cbn; lia.
    + cbn; lia.
    + solve_covers.
    + repeat constructor; cbn; lia.
  - set (rs' := RangeSeg (rs_start rs) start).
    eexists _, (Some rs'). split; [done|]. exists K2. destruct (Hset rs') as [Hw1 He1].
    split; [unfold pending, segs; cbn; by auto 10|].
    unfold seg_ok in Hrs. apply (minus_splice K1 rs K2 [rs']); auto.
    + split; repeat constructor; cbn; lia.
    + cbn; lia.
    + solve_covers.
    + repeat constructor; cbn; lia.
  - set (rs' := RangeSeg (rs_start rs) start). set (nseg := RangeSeg end_ (rs_end rs)).
    assert (minus (K1 ++ rs :: K2) (K1 ++ [rs'; nseg] ++ K2) start end_) as Hm.
    { unfold seg_ok in Hrs. apply minus_splice; auto.
      - split; repeat constructor; unfold gap; cbn; lia.
      - cbn; lia.
      - solve_covers.
      - repeat constructor; cbn; lia. }
    pose proof (segs_ok_NoDup _ (proj1 Hm)) as Hndm. cbn in Hndm.
    assert (seg_ok nseg) as Hnk by (unfold seg_ok in *; cbn; lia).
    destruct (stat_incr_ok rt2 nseg (K1 ++ K2)) as (h & -> & Hh1); [done|done|few (proj1 Hm)|]. cbn.
    destruct (Hset rs') as [Hw1 He1].
    destruct (avl_insert_here_spec (avl_set (rt_root rt2) rs rs') K1 rs' K2 nseg true)
      as [Hw2 He2]; [done| |done|].
    { rewrite He1. rewrite cons_middle, app_assoc in Hndm. 
      apply NoDup_drop_middle in Hndm. by rewrite <- app_assoc in Hndm. }
    match goal with |- context [call ?r _] =>
      destruct (call_add r nseg (K1 ++ K2)) as (s & -> & Ho1) end; [done| |done|].
    { rewrite cons_middle, app_assoc in Hndm.
      apply NoDup_middle in Hndm. set_solver. }
    cbn. eexists _, (Some rs'). split; [done|]. exists (nseg :: K2). split; [|done].
    unfold pending, segs; cbn. split_and!; auto.
    + eapply hist_ok_perm, Hh1. apply Permutation_middle.
    + eapply ops_inv_perm, Ho1. apply Permutation_middle.
Qed.

(** The end of [range_tree_remove], with the segments [L'] left. *)
Lemma removed_wf rt rt4 L' start size :
  rt_wf rt -> 0 < size -> avl_wf (rt_root rt4) -> segs rt4 = L' ->
  hist_ok (rt_histogram rt4) L' -> ops_inv (rt_ops rt4) (rt_arg rt4) L' ->
  rt_space rt4 = rt_space rt -> rt_ops rt4 = rt_ops rt ->
  minus (segs rt) L' start (start + size) ->
  let rt' := set_space rt4 (sub64 (rt_space rt4) size) in
  rt_wf rt' /\ (forall x, rt_mem rt' x <-> rt_mem rt x /\ ~ start <= x < start + size) /\
  rt_space rt' = rt_space rt - size /\ rt_ops rt' = rt_ops rt.
Proof.
  intros (_ & Hs & Hsp & _) Hsz Hw4 Hs4 Hh4 Ho4 Hsp4 Hop4 (Hm1 & Hm2 & Hm3).
  unfold rt_wf, rt_mem, segs in *. cbn. rewrite Hs4.
  pose proof (total_u64 _ Hm1) as Hu. rewrite Hm2 in Hu. unfold u64 in Hu.
  pose proof (total_u64 _ Hs) as Hu'. unfold u64 in Hu'.
  rewrite sub64_small by (unfold u64; lia). split_and!; auto; lia.
Qed.

Lemma seg_le_total L rs : segs_ok L -> rs ∈ L -> rs_end rs - rs_start rs <= total L.
Proof.
  intros Hs Hin. apply list_elem_of_split in Hin as (K1 & K2 & ->).
  apply segs_ok_app in Hs as (Hs1 & (_ & Hs2 & _)%segs_ok_cons & _).
  rewrite total_app. cbn. pose proof (total_nonneg K1 (proj2 Hs1)).
  pose proof (total_nonneg K2 (proj2 Hs2)). lia.
Qed.

Lemma remove_ok zfs_recover rt start size :
  rt_wf rt -> 0 <= start -> 0 < size -> start + size < 2 ^ 64 ->
  (forall x, start <= x < start + size -> rt_mem rt x) ->
  exists rt', range_tree_remove zfs_recover rt start size = Ret rt' /\ rt_wf rt' /\
    (forall x, rt_mem rt' x <-> rt_mem rt x /\ ~ start <= x < start + size) /\
    rt_space rt' = rt_space rt - size /\ rt_ops rt' = rt_ops rt.
Proof.
  intros Hwf Hs0 Hsz Hend Hall. pose proof Hwf as (Hav & Hs & Hsp & Hh & Ho).
  apply covers_range in Hall as (rs & Hin & Hc1 & Hc2); [|done|lia].
  pose proof (seg_le_total _ _ Hs Hin) as Hle.
  unfold range_tree_remove. rewrite add64_small by (unfold u64; lia).
  destruct (Z.eqb_spec size 0); [lia|].
  destruct (Z.leb_spec size (rt_space rt)); [|lia].
  rewrite (find_containing rt rs) by (auto; lia).
  destruct (Z.leb_spec (rs_start rs) start); [|lia].
  destruct (Z.leb_spec (start + size) (rs_end rs)); [|lia]. cbn.
  apply list_elem_of_split in Hin as (K1 & K2 & Hsegs). rewrite Hsegs in Hs, Hh, Ho.
  pose proof (NoDup_middle _ _ _ (segs_ok_NoDup _ Hs)) as [? ?].
  pose proof Hs as (_ & (Hrs & _)%segs_ok_cons & _)%segs_ok_app.
  destruct (stat_decr_ok rt rs (K1 ++ K2)) as (h & -> & Hh1);
    [done|by apply (inv_middle rs _ _ (hist_ok_perm _))|few Hs|]. cbn.
  destruct (call_remove (set_histogram rt h) rs (K1 ++ K2)) as (s & -> & Ho1);
    [set_solver|by apply (inv_middle rs _ _ (ops_inv_perm _ _))|]. cbn.
  destruct (remove_split_ok rt (set_arg (set_histogram rt h) s) K1 rs K2 start (start + size))
    as (rt3 & o & -> & Hcase); [by unfold pending, segs in *; cbn; auto 10|done|lia|lia|].
  cbn. rewrite <- Hsegs in Hcase. destruct o as [rs'|].
  - destruct Hcase as (K2' & (Hp1 & Hp2 & Hp3 & Hp4 & Hp5 & Hp6) & Hm).
    assert (seg_ok rs') as Hrs'
      by (by apply proj1, segs_ok_app in Hm as (_ & (? & _)%segs_ok_cons & _)).
    pose proof (NoDup_middle _ _ _ (segs_ok_NoDup _ (proj1 Hm))) as [? ?].
    destruct (stat_incr_ok rt3 rs' (K1 ++ K2')) as (h4 & -> & Hh4); [done|done|few (proj1 Hm)|]. cbn.
    destruct (call_add (set_histogram rt3 h4) rs' (K1 ++ K2')) as (s4 & -> & Ho4);
      [done|set_solver|done|]. cbn.
    eexists; split; [done|].
    eapply (removed_wf rt (set_arg (set_histogram rt3 h4) s4)); eauto; cbn.
    + eapply hist_ok_perm, Hh4. apply Permutation_middle.
    + eapply ops_inv_perm, Ho4. apply Permutation_middle.
  - destruct Hcase as (Hp1 & Hp2 & Hp3 & Hp4 & Hp5 & Hp6 & Hm). cbn.
    eexists; split; [done|]. eapply removed_wf; eauto.
Qed.

(** Removing a range none of which is there. *)
Lemma remove_absent zfs_recover rt start size :
  rt_wf rt -> 0 <= start -> 0 < size -> start + size < 2 ^ 64 ->
  (forall x, start <= x < start + size -> ~ rt_mem rt x) ->
  range_tree_remove zfs_recover rt start size =
    if (size <=? rt_space rt) && zfs_recover then Ret rt else Panic.
Proof.
  intros (_ & Hs & _) Hs0 Hsz Hend Hall.
  unfold range_tree_remove. rewrite add64_small by (unfold u64; lia).
  destruct (Z.eqb_spec size 0); [lia|]. cbn.
  destruct (size <=? rt_space rt); [|done]. cbn.
  pose proof (find_spec rt start (start + size) Hs ltac:(lia)) as Hf.
  destruct (avl_find _ _) as [rs|w]; [|by destruct zfs_recover].
  exfalso. destruct Hf as (Hin & H1 & H2). apply (Hall (Z.max start (rs_start rs))); [lia|].
  apply covers_In. exists rs. split; [done|]. destruct Hs as [_ Hok].
  rewrite Forall_forall in Hok. apply Hok in Hin. unfold seg_ok, in_seg in *. lia.
Qed.

(** Removing a range that is there only in part: [VERIFY] fails. *)
Lemma remove_partial zfs_recover rt start size x y :
  rt_wf rt -> 0 <= start -> 0 < size -> start + size < 2 ^ 64 ->
  start <= x < start + size -> rt_mem rt x ->
  start <= y < start + size -> ~ rt_mem rt y ->
  range_tree_remove zfs_recover rt start size = Panic.
Proof.
  intros (_ & Hs & _) Hs0 Hsz Hend Hx Hmx Hy Hmy.
  unfold range_tree_remove. rewrite add64_small by (unfold u64; lia).
  destruct (Z.eqb_spec size 0); [lia|]. cbn.
  destruct (size <=? rt_space rt); [|done]. cbn.
  pose proof (find_spec rt start (start + size) Hs ltac:(lia)) as Hf.
  destruct (avl_find _ _) as [rs|w].
  - destruct Hf as (Hin & _).
    destruct (Z.leb_spec (rs_start rs) start); [|done].
    destruct (Z.leb_spec (start + size) (rs_end rs)); [|done].
    exfalso. apply Hmy. apply covers_In. exists rs. unfold in_seg. split; [done|lia].
  - destruct Hf as (L1 & L2 & Hsegs & Hp & _). exfalso.
    apply (parts_nil_disjoint _ _ _ _ x Hp); [lia|]. by rewrite <- Hsegs.
Qed.

(** Whatever is asked of it, an addition or removal that returns keeps the
    invariant. *)
Lemma add_preserves zfs_recover rt start size rt' :
  rt_wf rt -> 0 <= start -> 0 <= size -> start + size < 2 ^ 64 ->
  range_tree_add zfs_recover rt start size = Ret rt' -> rt_wf rt' /\ rt_ops rt' = rt_ops rt.
Proof.
  intros Hwf Hs0 Hsz Hend Hadd. pose proof Hwf as (_ & Hs & _).
  destruct (Z.eqb_spec size 0) as [->|Hne]; [done|].
  pose proof (find_spec rt start (start + size) Hs ltac:(lia)) as Hf.
  destruct (avl_find (rt_root rt) (RangeSeg start (start + size))) as [rs|w] eqn:E.
  - unfold range_tree_add in Hadd. rewrite add64_small, E in Hadd by (unfold u64; lia).
    destruct (Z.eqb_spec size 0); [done|]. cbn in Hadd.
    destruct (_ && _); [|done]. destruct zfs_recover; cbn in Hadd; by simplify_eq.
  - destruct Hf as (L1 & L2 & Hsegs & Hp & _).
    destruct (add_ok zfs_recover rt start size) as (rt2 & Heq & Hwf2 & _ & _ & Hops); auto;
      [lia| |].
    + intros x Hx. unfold rt_mem. rewrite Hsegs. by eapply parts_nil_disjoint.
    + rewrite Heq in Hadd. by simplify_eq.
Qed.

Lemma remove_preserves zfs_recover rt start size rt' :
  rt_wf rt -> 0 <= start -> 0 <= size -> start + size < 2 ^ 64 ->
  range_tree_remove zfs_recover rt start size = Ret rt' -> rt_wf rt' /\ rt_ops rt' = rt_ops rt.
Proof.
  intros Hwf Hs0 Hsz Hend Hrem. pose proof Hwf as (_ & Hs & _).
  destruct (Z.eqb_spec size 0) as [->|Hne]; [done|].
  pose proof (find_spec rt start (start + size) Hs ltac:(lia)) as Hf.
  destruct (avl_find (rt_root rt) (RangeSeg start (start + size))) as [rs|w] eqn:E.
  - assert (rs_start rs <= start /\ start + size <= rs_end rs) as [H1 H2].
    { unfold range_tree_remove in Hrem. rewrite add64_small, E in Hrem by (unfold u64; lia).
      destruct (Z.eqb_spec size 0); [done|]. destruct (size <=? rt_space rt); [|done].
      destruct (Z.leb_spec (rs_start rs) start); [|done].
      destruct (Z.leb_spec (start + size) (rs_end rs)); done. }
    destruct (remove_ok zfs_recover rt start size) as (rt2 & Heq & Hwf2 & _ & _ & Hops);
      auto; [lia| |rewrite Heq in Hrem; by simplify_eq].
    apply covers_range; [done|lia|]. exists rs. destruct Hf. done.
  - unfold range_tree_remove in Hrem. rewrite add64_small, E in Hrem by (unfold u64; lia).
    destruct (Z.eqb_spec size 0); [done|]. destruct (size <=? rt_space rt); [|done].
    destruct zfs_recover; cbn in Hrem; by simplify_eq.
Qed.

(** ** Creation, queries and bulk operations *)

Lemma create_ok o arg :
  (forall ops, o = Some ops -> OpsSpec ops I /\ creates ops arg) ->
  exists rt, range_tree_create o arg = Ret rt /\ rt_wf rt /\ segs rt = [] /\ rt_ops rt = o.
Proof.
  intros Ho. unfold range_tree_create, call. cbn. destruct o as [ops|].
  - destruct (Ho ops eq_refl) as [Hspec (s & -> & Hs)].
    eexists; split; [done|]. unfold rt_wf, segs; cbn.
    split_and!; auto using avl_create_wf, segs_ok_nil, hist_ok_nil.
  - eexists; split; [done|]. unfold rt_wf, segs; cbn.
    split_and!; auto using avl_create_wf, segs_ok_nil, hist_ok_nil.
Qed.

Lemma stat_verify_ok rt : rt_wf rt -> range_tree_stat_verify rt = Ret tt.
Proof.
  intros (_ & _ & _ & Hh & _). unfold range_tree_stat_verify. apply verify_Ret.
  apply bool_decide_eq_true. eapply hist_ok_unique; [|exact Hh]. unfold segs.
  assert (forall L K h, hist_ok h K -> hist_ok (foldl (fun h rs =>
    alter (fun n => add64 n 1) (Z.to_nat (seg_bucket rs)) h) h L) (L ++ K)) as H.
  { induction L as [|rs L IH]; intros K h Hk; cbn; [done|].
    eapply hist_ok_perm; [|apply (IH (rs :: K)), hist_incr, Hk].
    symmetry. apply Permutation_middle. }
  specialize (H (elements (rt_root rt)) [] _ hist_ok_nil). by rewrite app_nil_r in H.
Qed.

Lemma contains_ok rt start size :
  rt_wf rt -> 0 <= start -> 0 < size -> start + size < 2 ^ 64 ->
  exists b, range_tree_contains rt start size = Ret b /\
    (b = true <-> forall x, start <= x < start + size -> rt_mem rt x).
Proof.
  intros (_ & Hs & _) Hs0 Hsz Hend.
  unfold range_tree_contains, range_tree_find, range_tree_find_impl.
  destruct (Z.eqb_spec size 0); [lia|]. rewrite add64_small by (unfold u64; lia). cbn.
  pose proof (find_spec rt start (start + size) Hs ltac:(lia)) as Hf.
  eexists; split; [done|].
  etransitivity; [|symmetry; apply covers_range; [done|lia]].
  destruct (avl_find _ _) as [rs|w] eqn:E.
  - destruct Hf as (Hin & _). split.
    + destruct (Z.leb_spec (rs_start rs) start), (Z.leb_spec (start + size) (rs_end rs));
        cbn; try done. eauto.
    + intros (c & Hc & Hc1 & Hc2).
      rewrite (find_containing rt c) in E by (auto; lia). simplify_eq.
      destruct (Z.leb_spec (rs_start rs) start), (Z.leb_spec (start + size) (rs_end rs));
        done || lia.
  - split; [done|]. intros (c & Hc & Hc1 & Hc2).
    by rewrite (find_containing rt c) in E by (auto; lia).
Qed.

(** [range_tree_verify] panics exactly when the whole range is in the tree. *)
Lemma verify_ok rt off size :
  rt_wf rt -> 0 <= off -> 0 < size -> off + size < 2 ^ 64 ->
  range_tree_verify rt off size = Ret tt <->
  ~ (forall x, off <= x < off + size -> rt_mem rt x).
Proof.
  intros Hwf H1 H2 H3. destruct (contains_ok rt off size Hwf H1 H2 H3) as (b & Hb & Hiff).
  rewrite <- Hiff. unfold range_tree_verify, range_tree_contains in *.
  destruct (range_tree_find rt off size) as [[rs|]|]; cbn in *; simplify_eq; split; done.
Qed.

Lemma clear_loop_ok zfs_recover start size : forall n rt,
  rt_wf rt -> 0 <= start -> 0 < size -> start + size < 2 ^ 64 ->
  (Z.to_nat (rt_space rt) < n)%nat ->
  exists rt', clear_loop n zfs_recover rt start size = Some (Ret rt') /\ rt_wf rt' /\
    (forall x, rt_mem rt' x <-> rt_mem rt x /\ ~ start <= x < start + size) /\
    rt_ops rt' = rt_ops rt.
Proof.
  induction n as [|n IH]; intros rt Hwf Hs0 Hsz Hend Hn; [lia|]. cbn [clear_loop].
  pose proof Hwf as (_ & Hs & Hsp & _).
  unfold range_tree_find_impl. destruct (Z.eqb_spec size 0); [lia|].
  rewrite add64_small by (unfold u64; lia). cbn.
  pose proof (find_spec rt start (start + size) Hs ltac:(lia)) as Hf.
  destruct (avl_find _ _) as [rs|w].
  - destruct Hf as (Hin & H1 & H2).
    assert (seg_ok rs) as Hrs by (destruct Hs as [_ Hok]; rewrite Forall_forall in Hok; auto).
    unfold seg_ok in Hrs.
    set (fs := Z.max (rs_start rs) start). set (fe := Z.min (rs_end rs) (start + size)).
    rewrite sub64_small by (unfold u64; lia).
    destruct (remove_ok zfs_recover rt fs (fe - fs)) as (rt1 & -> & Hwf1 & Hm1 & Hsp1 & Hop1);
      auto; [lia..| |].
    { apply covers_range; [done|lia|]. exists rs. split; [done|lia]. }
    pose proof Hwf1 as (_ & Hs1 & Hsp1' & _). pose proof (total_nonneg _ (proj2 Hs1)).
    destruct (IH rt1) as (rt' & -> & Hwf' & Hm' & Hop'); auto; [lia|].
    exists rt'. split_and!; auto; [|congruence]. intros x. rewrite Hm', Hm1. unfold fs, fe. intuition lia.
  - destruct Hf as (L1 & L2 & Hsegs & Hp & _). exists rt. split_and!; auto.
    intros x. split; [|by intros [? _]]. intros Hx. split; [done|]. intros Hr.
    eapply parts_nil_disjoint; eauto. by rewrite <- Hsegs.
Qed.

Lemma vacate_ok {T} rt (func : option (T -> Z -> Z -> result T)) (arg : T) :
  rt_wf rt ->
  exists rt' xs, xs ≡ₚ segs rt /\ rt_wf rt' /\ segs rt' = [] /\ rt_ops rt' = rt_ops rt /\
    range_tree_vacate rt func arg =
      (arg' ← match func with Some f => for_segs f xs arg | None => Ret arg end;
       Ret (rt', arg')).
Proof.
  intros (Hav & _ & _ & _ & Ho). unfold range_tree_vacate.
  assert (exists s, call rt rtop_vacate = Ret (set_arg rt s) /\ ops_inv (rt_ops rt) s [])
    as (s & -> & Hs).
  { unfold call. destruct (rt_ops rt) as [o|]; cbn in *.
    - destruct Ho as [Hspec Ho]. destruct (ops_vacate _ _ Ho) as (s & -> & Hs). cbn. eauto.
    - exists (rt_arg rt). by rewrite set_arg_id. }
  cbn [mbind result_bind set_arg rt_root rt_ops rt_arg].
  destruct (destroy_spec (rt_root rt) Hav) as (xs & -> & Hxs).
  eexists (RangeTree avl_create 0 (rt_ops rt) s _), xs. split_and!; auto; cbn; auto.
  unfold rt_wf, segs; cbn. split_and!; auto using avl_create_wf, segs_ok_nil, hist_ok_nil.
Qed.

Lemma walk_ok {T} rt (func : T -> Z -> Z -> result T) (arg : T) :
  rt_wf rt -> range_tree_walk rt func arg = for_segs func (segs rt) arg.
Proof.
  intros (_ & Hs & _). unfold range_tree_walk. rewrite avl_first_spec.
  pose proof (next_loop_spec (rt_root rt) [] (segs rt) (segs_ok_NoDup _ Hs) eq_refl) as H.
  unfold segs, elements in *. by rewrite H.
Qed.

(** ** Copying a tree into another with [range_tree_vacate]/[range_tree_walk] *)

Lemma for_segs_add_ok zfs_recover : forall xs rt,
  rt_wf rt -> NoDup xs -> (exists L, xs ≡ₚ L /\ segs_ok L) ->
  (forall x, covers xs x -> ~ rt_mem rt x) ->
  exists rt', for_segs (range_tree_add zfs_recover) xs rt = Ret rt' /\ rt_wf rt' /\
    (forall x, rt_mem rt' x <-> rt_mem rt x \/ covers xs x) /\
    rt_space rt' = rt_space rt + total xs /\ rt_ops rt' = rt_ops rt.
Proof.
  induction xs as [|rs xs IH]; intros rt Hwf Hnd (L & HL & Hok) Hdis.
  { exists rt. split_and!; auto; [|cbn; lia]. intros x. rewrite covers_nil. tauto. }
  assert (rs ∈ L) as Hin by (rewrite <- HL; left).
  apply list_elem_of_split in Hin as (K1 & K2 & ->).
  rewrite <- Permutation_middle in HL. apply Permutation_cons_inv in HL.
  pose proof Hok as (Hs1 & (Hrs & Hs2 & Hg2)%segs_ok_cons & Hg)%segs_ok_app.
  pose proof Hrs as [Hrs1 Hrs2]. cbn [for_segs]. rewrite seg_size_ok by done.
  destruct (add_ok zfs_recover rt (rs_start rs) (rs_end rs - rs_start rs))
    as (rt1 & -> & Hwf1 & Hm1 & Hsp1 & Hop1); auto; [lia..| |].
  { intros x Hx. apply Hdis. apply covers_cons. left. unfold in_seg. lia. }
  cbn. apply NoDup_cons in Hnd as [Hn Hnd].
  destruct (IH rt1) as (rt' & -> & Hwf' & Hm' & Hsp' & Hop'); auto.
  - exists (K1 ++ K2). split; [done|]. apply segs_ok_app. split_and!; auto.
    intros a b Ha Hb. apply Hg; [done|by right].
  - intros x Hx. rewrite Hm1. intros [Hr|Hr].
    + apply (Hdis x); [|done]. apply covers_cons. by right.
    + apply covers_In in Hx as (c & Hc & Hcx). rewrite HL in Hc.
      unfold in_seg in Hcx. rewrite elem_of_app in Hc. destruct Hc as [Hc|Hc].
      * specialize (Hg c rs Hc ltac:(left)). unfold gap in Hg. lia.
      * specialize (Hg2 c Hc). unfold gap in Hg2. lia.
  - exists rt'. split_and!; auto; [|cbn; lia|congruence]. intros x. rewrite Hm', Hm1, covers_cons.
    unfold in_seg. intuition lia.
Qed.

(** The same with removals: the segments leave a tree that holds them all. *)
Lemma for_segs_remove_ok zfs_recover : forall xs rt,
  rt_wf rt -> segs_ok xs -> (forall x, covers xs x -> rt_mem rt x) ->
  exists rt', for_segs (range_tree_remove zfs_recover) xs rt = Ret rt' /\ rt_wf rt' /\
    (forall x, rt_mem rt' x <-> rt_mem rt x /\ ~ covers xs x) /\ rt_ops rt' = rt_ops rt.
Proof.
  induction xs as [|rs xs IH]; intros rt Hwf Hok Hin.
  { exists rt. split_and!; auto. intros x. rewrite covers_nil. tauto. }
  pose proof Hok as (Hrs & Hs2 & Hg)%segs_ok_cons. pose proof Hrs as [Hrs1 Hrs2].
  cbn [for_segs]. rewrite seg_size_ok by done.
  destruct (remove_ok zfs_recover rt (rs_start rs) (rs_end rs - rs_start rs))
    as (rt1 & -> & Hwf1 & Hm1 & _ & Hop1); auto; [lia..| |].
  { intros x Hx. apply Hin, covers_cons. left. unfold in_seg. lia. }
  destruct (IH rt1) as (rt' & Heq & Hwf' & Hm' & Hop'); auto.
  - intros x Hx. apply Hm1. split; [apply Hin, covers_cons; by right|].
    pose proof (covers_seg_lt _ _ _ Hok Hx). lia.
  - exists rt'. split_and!; auto; [|congruence]. intros x. rewrite Hm', Hm1, covers_cons.
    unfold in_seg. intuition lia.
Qed.

Lemma covers_perm L L' x : L ≡ₚ L' -> covers L x <-> covers L' x.
Proof. intros HP. rewrite !covers_In. by setoid_rewrite HP. Qed.

Lemma total_perm L L' : L ≡ₚ L' -> total L = total L'.
Proof. induction 1; cbn; lia. Qed.

Lemma space_bound rt lo hi :
  rt_wf rt -> lo <= hi -> (forall x, rt_mem rt x -> lo <= x < hi) -> rt_space rt <= hi - lo.
Proof.
  intros (_ & Hs & -> & _) Hlo Hin. apply total_bound; [done|done|]. intros b Hb.
  pose proof Hs as [_ Hok]. rewrite Forall_forall in Hok. specialize (Hok b Hb). unfold seg_ok in Hok.
  pose proof (Hin (rs_start b)) as H1. pose proof (Hin (rs_end b - 1)) as H2. unfold rt_mem in *.
  rewrite covers_In in H1, H2. split.
  - apply H1. exists b. split; [done|]. unfold in_seg. lia.
  - enough (lo <= rs_end b - 1 < hi) by lia. apply H2. exists b. split; [done|]. unfold in_seg. lia.
Qed.

(** ** The contract of the range tree *)

(** An operation and its arguments, and what it does to the set of offsets. *)
Inductive rt_op : Type :=
| OpAdd (start size : Z)
| OpRemove (start size : Z)
| OpClear (start size : Z)
| OpVacate.

Definition op_ok (op : rt_op) : Prop :=
  match op with
  | OpAdd s n | OpRemove s n | OpClear s n => 0 <= s /\ 0 <= n /\ s + n < 2 ^ 64
  | OpVacate => True
  end.

Definition run_op (op : rt_op) rt : result (range_tree S) :=
  match op with
  | OpAdd s n => range_tree_add false rt s n
  | OpRemove s n => range_tree_remove false rt s n
  | OpClear s n =>
      match range_tree_clear (Datatypes.S (Z.to_nat (rt_space rt))) false rt s n with
      | Some r => r
      | None => Panic
      end
  | OpVacate => r ← range_tree_vacate (T := unit) rt None tt; Ret (fst r)
  end.

(** The abstract set: when an operation is allowed, and the set after it. *)
Definition op_pre (op : rt_op) (X : Z -> Prop) : Prop :=
  match op with
  | OpAdd s n => 0 < n /\ forall x, s <= x < s + n -> ~ X x
  | OpRemove s n => 0 < n /\ forall x, s <= x < s + n -> X x
  | OpClear _ _ | OpVacate => True
  end.

Definition op_post (op : rt_op) (X : Z -> Prop) (x : Z) : Prop :=
  match op with
  | OpAdd s n => X x \/ s <= x < s + n
  | OpRemove s n | OpClear s n => X x /\ ~ s <= x < s + n
  | OpVacate => False
  end.

Fixpoint spec_ok (ops : list rt_op) (X : Z -> Prop) : Prop :=
  match ops with
  | [] => True
  | op :: ops' => op_pre op X /\ spec_ok ops' (op_post op X)
  end.

Fixpoint spec_run (ops : list rt_op) (X : Z -> Prop) : Z -> Prop :=
  match ops with
  | [] => X
  | op :: ops' => spec_run ops' (op_post op X)
  end.

Fixpoint run_ops (ops : list rt_op) rt : result (range_tree S) :=
  match ops with
  | [] => Ret rt
  | op :: ops' => rt' ← run_op op rt; run_ops ops' rt'
  end.

Lemma clear_ok zfs_recover n rt start size :
  rt_wf rt -> 0 <= start -> 0 <= size -> start + size < 2 ^ 64 ->
  (Z.to_nat (rt_space rt) < n)%nat ->
  exists rt', range_tree_clear n zfs_recover rt start size = Some (Ret rt') /\ rt_wf rt' /\
    (forall x, rt_mem rt' x <-> rt_mem rt x /\ ~ start <= x < start + size) /\
    rt_ops rt' = rt_ops rt.
Proof.
  intros Hwf Hs Hn Hend Hf. unfold range_tree_clear. destruct (Z.eqb_spec size 0) as [->|].
  - exists rt. split_and!; auto. intros x. intuition lia.
  - apply clear_loop_ok; auto. lia.
Qed.

Lemma op_sound op rt X :
  rt_wf rt -> op_ok op -> (forall x, rt_mem rt x <-> X x) -> op_pre op X ->
  exists rt', run_op op rt = Ret rt' /\ rt_wf rt' /\ forall x, rt_mem rt' x <-> op_post op X x.
Proof.
  intros Hwf Hop HX Hpre. destruct op as [s n|s n|s n|]; cbn in *.
  - destruct Hop as (? & ? & ?), Hpre as [? Hd].
    destruct (add_ok false rt s n) as (rt' & -> & ? & Hm & _); auto.
    { intros x Hx. rewrite HX. auto. }
    exists rt'. split_and!; auto. intros x. by rewrite Hm, HX.
  - destruct Hop as (? & ? & ?), Hpre as [? Hd].
    destruct (remove_ok false rt s n) as (rt' & -> & ? & Hm & _); auto.
    { intros x Hx. rewrite HX. auto. }
    exists rt'. split_and!; auto. intros x. by rewrite Hm, HX.
  - destruct Hop as (? & ? & ?).
    destruct (clear_ok false (Datatypes.S (Z.to_nat (rt_space rt))) rt s n)
      as (rt' & -> & ? & Hm & _); auto.
    exists rt'. split_and!; auto. intros x. by rewrite Hm, HX.
  - destruct (vacate_ok (T := unit) rt None tt Hwf) as (rt' & xs & _ & ? & Hs & _ & ->).
    exists rt'. split_and!; auto. intros x. unfold rt_mem. by rewrite Hs, covers_nil.
Qed.

Lemma op_complete op rt X rt' :
  rt_wf rt -> op_ok op -> (forall x, rt_mem rt x <-> X x) -> run_op op rt = Ret rt' ->
  op_pre op X.
Proof.
  intros Hwf Hop HX Hrun. pose proof Hwf as (_ & Hs & _).
  destruct op as [s n|s n|s n|]; cbn in *; auto; destruct Hop as (? & ? & ?).
  - destruct (Z.eq_dec n 0) as [->|]; [done|]. split; [lia|]. intros x Hx Hm.
    rewrite <- HX in Hm. destruct (contains_ok rt s n Hwf) as ([|] & _ & Hb); [lia..| |].
    + rewrite add_present in Hrun; auto; [done|lia|]. by apply Hb.
    + unfold range_tree_add in Hrun. rewrite add64_small in Hrun by (unfold u64; lia).
      destruct (Z.eqb_spec n 0); [lia|]. cbn in Hrun.
      pose proof (find_spec rt s (s + n) Hs ltac:(lia)) as Hf.
      destruct (avl_find _ _) as [rs|w]; [by destruct (_ && _)|].
      destruct Hf as (L1 & L2 & Hsegs & Hp & _).
      apply (parts_nil_disjoint _ _ _ _ x Hp Hx). by rewrite <- Hsegs.
  - destruct (Z.eq_dec n 0) as [->|]; [done|]. split; [lia|].
    setoid_rewrite <- HX. apply covers_range; [done|lia|].
    unfold range_tree_remove in Hrun. rewrite add64_small in Hrun by (unfold u64; lia).
    destruct (Z.eqb_spec n 0); [lia|]. destruct (n <=? rt_space rt); [|done]. cbn in Hrun.
    pose proof (find_spec rt s (s + n) Hs ltac:(lia)) as Hf.
    destruct (avl_find _ _) as [rs|w]; [|done]. destruct Hf as [Hin _]. exists rs.
    destruct (Z.leb_spec (rs_start rs) s); [|done].
    by destruct (Z.leb_spec (s + n) (rs_end rs)).
Qed.

Lemma run_ops_refine ops : forall rt X,
  rt_wf rt -> Forall op_ok ops -> (forall x, rt_mem rt x <-> X x) ->
  (spec_ok ops X -> exists rt', run_ops ops rt = Ret rt') /\
  (forall rt', run_ops ops rt = Ret rt' ->
     spec_ok ops X /\ rt_wf rt' /\ forall x, rt_mem rt' x <-> spec_run ops X x).
Proof.
  induction ops as [|op ops IH]; intros rt X Hwf Hall HX; cbn.
  { split; [eauto|]. intros rt' ?; simplify_eq; auto. }
  apply Forall_cons in Hall as [Hop Hall]. split.
  - intros [Hpre Hok]. destruct (op_sound op rt X) as (rt1 & -> & Hwf1 & Hm1); auto.
    cbn. by apply (IH rt1 (op_post op X)).
  - intros rt' (rt1 & Hr1 & Hr2)%bind_Ret.
    pose proof (op_complete _ _ _ _ Hwf Hop HX Hr1) as Hpre.
    destruct (op_sound op rt X) as (rt1' & Heq & Hwf1 & Hm1); auto.
    rewrite Hr1 in Heq. injection Heq as <-.
    destruct (IH rt1 (op_post op X) Hwf1 Hall Hm1) as [_ IH2].
    destruct (IH2 rt' Hr2) as (? & ? & ?). done.
Qed.

(** ** Main theorems *)

(** [range_tree_add] on every range of a well-formed tree.  A range none
    of whose offsets is in the tree is added: the tree then holds exactly the
    old offsets and the range, coalesced with its neighbours, the space grows
    by the size, and the histogram and the owner's callbacks follow.  A range
    that is wholly in the tree is left alone if [zfs_recover] is set and
    panics if not; a range that is there in part panics. *)
Theorem range_tree_add_correct zfs_recover rt start size :
  rt_wf rt -> 0 <= start -> 0 < size -> start + size < 2 ^ 64 ->
  ((forall x, start <= x < start + size -> ~ rt_mem rt x) ->
   exists rt', range_tree_add zfs_recover rt start size = Ret rt' /\ rt_wf rt' /\
     (forall x, rt_mem rt' x <-> rt_mem rt x \/ start <= x < start + size) /\
     rt_space rt' = rt_space rt + size) /\
  ((forall x, start <= x < start + size -> rt_mem rt x) ->
   range_tree_add zfs_recover rt start size = if zfs_recover then Ret rt else Panic) /\
  (forall x y, start <= x < start + size -> rt_mem rt x ->
     start <= y < start + size -> ~ rt_mem rt y ->
     range_tree_add zfs_recover rt start size = Panic).
Proof.
  intros Hwf H0 H1 H2. split_and!.
  - intros Hd. destruct (add_ok zfs_recover rt start size) as (rt' & ? & ? & ? & ? & _); auto.
    by exists rt'.
  - by apply add_present.
  - intros x y ????. by apply (add_partial _ _ _ _ x y).
Qed.

(** [range_tree_remove] on every range of a well-formed tree.  A range
    that is wholly in the tree is taken out, splitting or shrinking the
    segment it lies in, and nothing else changes; a range none of which is in
    the tree is ignored if [zfs_recover] is set (and is not larger than the
    whole tree) and panics if not; a range that is there in part panics. *)
Theorem range_tree_remove_correct zfs_recover rt start size :
  rt_wf rt -> 0 <= start -> 0 < size -> start + size < 2 ^ 64 ->
  ((forall x, start <= x < start + size -> rt_mem rt x) ->
   exists rt', range_tree_remove zfs_recover rt start size = Ret rt' /\ rt_wf rt' /\
     (forall x, rt_mem rt' x <-> rt_mem rt x /\ ~ start <= x < start + size) /\
     rt_space rt' = rt_space rt - size) /\
  ((forall x, start <= x < start + size -> ~ rt_mem rt x) ->
   range_tree_remove zfs_recover rt start size =
     if (size <=? rt_space rt) && zfs_recover then Ret rt else Panic) /\
  (forall x y, start <= x < start + size -> rt_mem rt x ->
     start <= y < start + size -> ~ rt_mem rt y ->
     range_tree_remove zfs_recover rt start size = Panic).
Proof.
  intros Hwf H0 H1 H2. split_and!.
  - intros Hd. destruct (remove_ok zfs_recover rt start size) as (rt' & ? & ? & ? & ? & _); auto.
    by exists rt'.
  - by apply remove_absent.
  - intros x y ????. by apply (remove_partial _ _ _ _ x y).
Qed.

(** [range_tree_contains] answers whether every offset of the range is in
    the tree, and [range_tree_verify] panics exactly when it says yes. *)
Theorem range_tree_contains_correct rt start size :
  rt_wf rt -> 0 <= start -> 0 < size -> start + size < 2 ^ 64 ->
  exists b, range_tree_contains rt start size = Ret b /\
    (b = true <-> forall x, start <= x < start + size -> rt_mem rt x) /\
    range_tree_verify rt start size = if b then Panic else Ret tt.
Proof.
  intros Hwf H0 H1 H2. destruct (contains_ok rt start size) as (b & Hb & Hiff); auto.
  exists b. split; [done|]. split; [done|].
  unfold range_tree_verify, range_tree_contains in *.
  by destruct (range_tree_find rt start size) as [[?|]|]; cbn in *; simplify_eq.
Qed.

(** [range_tree_vacate(src, range_tree_add, dst)], which the allocator
    uses to hand space from one tree to another: when the two trees are
    disjoint, [dst] ends as their union and [src] as an empty tree, whatever
    order [avl_destroy_nodes] frees the segments in. *)
Theorem range_tree_vacate_union zfs_recover rt dst :
  rt_wf rt -> rt_wf dst -> (forall x, rt_mem rt x -> ~ rt_mem dst x) ->
  exists rt' dst',
    range_tree_vacate rt (Some (range_tree_add zfs_recover)) dst = Ret (rt', dst') /\
    rt_wf rt' /\ rt_space rt' = 0 /\ (forall x, ~ rt_mem rt' x) /\
    rt_wf dst' /\ (forall x, rt_mem dst' x <-> rt_mem dst x \/ rt_mem rt x) /\
    rt_space dst' = rt_space dst + rt_space rt.
Proof.
  intros Hwf Hwfd Hdis. pose proof Hwf as (_ & Hs & Hsp & _).
  destruct (vacate_ok rt (Some (range_tree_add zfs_recover)) dst Hwf)
    as (rt' & xs & Hxs & Hwf' & Hnil & _ & ->).
  destruct (for_segs_add_ok zfs_recover xs dst) as (dst' & -> & Hwfd' & Hm' & Hsp' & _); auto.
  { rewrite Hxs. by apply segs_ok_NoDup. }
  { eauto. }
  { intros x Hx. apply Hdis. unfold rt_mem. by apply (covers_perm xs). }
  exists rt', dst'. split_and!; auto.
  - destruct Hwf' as (_ & _ & -> & _). by rewrite Hnil.
  - intros x. unfold rt_mem. rewrite Hnil, covers_nil. tauto.
  - intros x. rewrite Hm'. unfold rt_mem. by rewrite (covers_perm xs).
  - rewrite Hsp', Hsp. f_equal. by apply total_perm.
Qed.

(** C23: the range tree refines a set of offsets.  From a new tree, a sequence
    of additions, removals, clears and vacates runs without a panic exactly
    when no addition overlaps the set and no removal leaves it; the tree then
    satisfies its invariant, its histogram passes [range_tree_stat_verify] and
    it holds exactly the abstract set.  Clearing always terminates: its loop
    needs no more turns than there are offsets. *)
Theorem range_tree_refines_set ops (o : option (range_tree_ops S)) arg :
  (forall callbacks, o = Some callbacks -> OpsSpec callbacks I /\ creates callbacks arg) ->
  Forall op_ok ops ->
  exists rt0, range_tree_create o arg = Ret rt0 /\
    (spec_ok ops (fun _ => False) <-> exists rt, run_ops ops rt0 = Ret rt) /\
    forall rt, run_ops ops rt0 = Ret rt ->
      rt_wf rt /\ range_tree_stat_verify rt = Ret tt /\
      forall x, rt_mem rt x <-> spec_run ops (fun _ => False) x.
Proof.
  intros Ho Hall. destruct (create_ok o arg Ho) as (rt0 & Hc & Hwf & Hnil & _).
  destruct (run_ops_refine ops rt0 (fun _ => False) Hwf Hall) as [H1 H2].
  { intros x. unfold rt_mem. by rewrite Hnil, covers_nil. }
  exists rt0. split_and!; auto.
  - split; [auto|]. intros (rt & Hrt). by apply H2 in Hrt as [? _].
  - intros rt Hrt. apply H2 in Hrt as (_ & Hwf' & Hm). auto using stat_verify_ok.
Qed.
End Wf.

(** ** An owner that keeps its own list of the segments *)

Definition mirror_ops : range_tree_ops (list range_seg) := {|
  rtop_create := fun _ => Ret [];
  rtop_destroy := fun _ => Ret [];
  rtop_add := fun rs s => Ret (rs :: s);
  rtop_remove := fun rs s => if decide (rs ∈ s) then Ret (filter (fun x => x <> rs) s) else Panic;
  rtop_vacate := fun _ => Ret [] |}.

Lemma mirror_ops_spec : OpsSpec mirror_ops (fun L s => L ≡ₚ s).
Proof.
  constructor; cbn.
  - intros L L' s HL Hs. by rewrite <- HL.
  - intros L rs s _ _ Hs. eexists; split; [done|]. by rewrite Hs.
  - intros L rs s Hn Hs. rewrite decide_True by (rewrite <- Hs; left).
    eexists; split; [done|]. rewrite <- Hs, filter_cons_False by auto.
    rewrite (filter_all _ (fun x => x <> rs)); [done| |done].
    apply Forall_forall. intros x Hx ->. done.
  - eauto.
Qed.

Lemma mirror_creates s : creates (fun L s => L ≡ₚ s) mirror_ops s.
Proof. by exists []. Qed.

Definition demo (ops : list rt_op) : range_tree (list range_seg) :=
  match range_tree_create (Some mirror_ops) [] ≫= run_ops ops with
  | Ret rt => rt
  | Panic => RangeTree avl_create 0 None [] []
  end.

Lemma demo_wf ops :
  Forall op_ok ops -> spec_ok ops (fun _ => False) ->
  rt_wf (fun L s => L ≡ₚ s) (demo ops) /\
  forall x, rt_mem (demo ops) x <-> spec_run ops (fun _ => False) x.
Proof.
  intros Hall Hok. unfold demo.
  destruct (create_ok (fun L s => L ≡ₚ s) (Some mirror_ops) []) as (rt0 & -> & Hwf & Hnil & _).
  { intros ? [= <-]. auto using mirror_ops_spec, mirror_creates. }
  destruct (run_ops_refine _ ops rt0 (fun _ => False) Hwf Hall) as [H1 H2].
  { intros x. unfold rt_mem. by rewrite Hnil, covers_nil. }
  destruct (H1 Hok) as (rt & Hrt). cbn. rewrite Hrt. by apply H2 in Hrt as [_ ?].
Qed.

Definition demo_ops : list rt_op := [OpAdd 0 10; OpAdd 20 10; OpRemove 24 2; OpAdd 10 5].

Lemma demo_ops_wf : rt_wf (fun L s => L ≡ₚ s) (demo demo_ops) /\
  forall x, rt_mem (demo demo_ops) x <-> 0 <= x < 15 \/ 20 <= x < 24 \/ 26 <= x < 30.
Proof.
  destruct (demo_wf demo_ops) as [? Hm]; cbn.
  - repeat constructor; cbn; lia.
  - split_and!; try lia; intros x; lia.
  - split; [done|]. intros x. rewrite Hm. cbn. lia.
Qed.

Lemma range_tree_add_correct_witness :
  (exists rt, range_tree_add false (demo demo_ops) 24 2 = Ret rt /\
     rt_space rt = rt_space (demo demo_ops) + 2) /\
  range_tree_add false (demo demo_ops) 2 3 = Panic.
Proof.
  destruct demo_ops_wf as [Hwf Hm]. split.
  - destruct (range_tree_add_correct _ false (demo demo_ops) 24 2 Hwf) as [H _]; try lia.
    destruct H as (rt & ? & _ & _ & ?); [intros x; rewrite Hm; lia|eauto].
  - apply (range_tree_add_correct _ false (demo demo_ops) 2 3 Hwf); try lia.
    intros x. rewrite Hm. lia.
Defined.

Lemma range_tree_remove_correct_witness :
  (exists rt, range_tree_remove false (demo demo_ops) 3 4 = Ret rt /\
     rt_space rt = rt_space (demo demo_ops) - 4) /\
  range_tree_remove true (demo demo_ops) 23 2 = Panic.
Proof.
  destruct demo_ops_wf as [Hwf Hm]. split.
  - destruct (range_tree_remove_correct _ false (demo demo_ops) 3 4 Hwf) as [H _]; try lia.
    destruct H as (rt & ? & _ & _ & ?); [intros x; rewrite Hm; lia|eauto].
  - apply (range_tree_remove_correct _ true (demo demo_ops) 23 2 Hwf) with 23 24;
      rewrite ?Hm; lia.
Defined.

Lemma range_tree_contains_correct_witness :
  range_tree_contains (demo demo_ops) 3 12 = Ret true /\
  range_tree_verify (demo demo_ops) 3 12 = Panic.
Proof.
  destruct demo_ops_wf as [Hwf Hm].
  destruct (range_tree_contains_correct _ (demo demo_ops) 3 12 Hwf) as (b & -> & Hb & ->); try lia.
  destruct b; [done|]. exfalso. enough (false = true) by done.
  apply Hb. intros x. rewrite Hm. lia.
Defined.

Lemma range_tree_vacate_union_witness :
  exists rt' dst',
    range_tree_vacate (demo demo_ops) (Some (range_tree_add false)) (demo [OpAdd 24 2])
      = Ret (rt', dst') /\
    rt_space rt' = 0 /\ rt_space dst' = 25.
Proof.
  destruct demo_ops_wf as [Hwf Hm].
  destruct (demo_wf [OpAdd 24 2]) as [Hwf2 Hm2]; cbn.
  { repeat constructor; cbn; lia. }
  { split_and!; [lia|auto|done]. }
  destruct (range_tree_vacate_union _ false (demo demo_ops) (demo [OpAdd 24 2]) Hwf Hwf2)
    as (rt' & dst' & H & _ & Hz & _ & _ & _ & Hsp).
  { intros x. rewrite Hm, Hm2. cbn. lia. }
  exists rt', dst'. split_and!; [exact H|exact Hz|]. rewrite Hsp. reflexivity.
Defined.

Lemma range_tree_refines_set_witness :
  exists rt0 rt, range_tree_create (Some mirror_ops) [] = Ret rt0 /\
    run_ops (demo_ops ++ [OpClear 5 18; OpVacate]) rt0 = Ret rt /\
    range_tree_stat_verify rt = Ret tt.
Proof.
  destruct (range_tree_refines_set (fun L s => L ≡ₚ s) (demo_ops ++ [OpClear 5 18; OpVacate])
              (Some mirror_ops) []) as (rt0 & Hc & Hiff & H).
  - intros ? [= <-]. auto using mirror_ops_spec, mirror_creates.
  - repeat constructor; cbn; lia.
  - destruct (proj1 Hiff) as (rt & Hrt); [cbn; split_and!; try lia; intros x; lia|].
    exists rt0, rt. split_and!; [done..|]. by apply H.
Defined.
