(* ===== verification/SpaceReftree.v ===== *)
(** * Space reference trees

    Model of [kernel/fs/zfs/space_reftree.c]: an AVL tree of the ends of
    segments, each with the change of reference count it makes, from which
    unions and intersections of range trees are computed. *)

From S2P Require Import Prelude Avl RangeTree.

(** [space_ref_t]; [sr_addr] is the address of the node, which breaks ties in
    the comparison. *)
Record space_ref : Type := SpaceRef { sr_offset : Z; sr_refcnt : Z; sr_addr : Z }.

#[export] Instance space_ref_eq_dec : EqDecision space_ref.
Proof. solve_decision. Defined.

Definition space_reftree_compare (sr1 sr2 : space_ref) : Z :=
  if sr_offset sr1 <? sr_offset sr2 then -1
  else if sr_offset sr2 <? sr_offset sr1 then 1
  else if sr_addr sr1 <? sr_addr sr2 then -1
  else if sr_addr sr2 <? sr_addr sr1 then 1
  else 0.
#[export] Instance space_ref_compar : Compar space_ref space_ref := space_reftree_compare.

(** The kernel memory allocator: what it hands out is not in use. *)
Class Kmem (H : Type) := {
  kmem_alloc : H -> Z * H;
  kmem_live : H -> list Z;
  kmem_fresh h : fst (kmem_alloc h) ∉ kmem_live h;
  kmem_keeps h : kmem_live (snd (kmem_alloc h)) = fst (kmem_alloc h) :: kmem_live h }.

Section SpaceReftree.
Context {H : Type} `{!Kmem H} {S : Type}.
Implicit Types (h : H) (t : avl_tree space_ref).

Definition space_reftree_create : avl_tree space_ref := avl_create.

(** [space_reftree_destroy]: the nodes that are freed, in that order. *)
Definition space_reftree_destroy t : option (list space_ref * avl_tree space_ref) :=
  destroy_loop (Datatypes.S (length (elements t))) t CookieNull.

Definition space_reftree_add_node t h (offset refcnt : Z) : result (avl_tree space_ref * H) :=
  let '(sr, h') := kmem_alloc h in
  t' ← avl_add t (SpaceRef offset refcnt sr);
  Ret (t', h').

Definition space_reftree_add_seg t h (start end_ refcnt : Z) : result (avl_tree space_ref * H) :=
  '(t1, h1) ← space_reftree_add_node t h start refcnt;
  space_reftree_add_node t1 h1 end_ (wraps64 (- refcnt)).

Fixpoint add_segs t h (rss : list range_seg) (refcnt : Z) : result (avl_tree space_ref * H) :=
  match rss with
  | [] => Ret (t, h)
  | rs :: rss' =>
      '(t1, h1) ← space_reftree_add_seg t h (rs_start rs) (rs_end rs) refcnt;
      add_segs t1 h1 rss' refcnt
  end.

Definition space_reftree_add_map t h (rt : range_tree S) (refcnt : Z)
    : result (avl_tree space_ref * H) :=
  match next_loop (length (elements (rt_root rt))) (rt_root rt) (avl_first (rt_root rt)) with
  | None => Panic
  | Some rss => add_segs t h rss refcnt
  end.

(** [-1ULL], no segment open. *)
Definition NO_START : Z := 2 ^ 64 - 1.

(** The loop of [space_reftree_generate_map] over the nodes in order; the
    range tree and the final values of [refcnt] and [start]. *)
Fixpoint generate_loop (zfs_recover : bool) (srs : list space_ref) (rt : range_tree S)
    (start refcnt minref : Z) : result (range_tree S * Z * Z) :=
  match srs with
  | [] => Ret (rt, refcnt, start)
  | sr :: srs' =>
      let refcnt := wraps64 (refcnt + sr_refcnt sr) in
      if minref <=? refcnt then
        let start := if start =? NO_START then sr_offset sr else start in
        generate_loop zfs_recover srs' rt start refcnt minref
      else if negb (start =? NO_START) then
        let end_ := sr_offset sr in
        _ ← verify (start <=? end_);
        rt' ← (if start <? end_
               then range_tree_add zfs_recover rt start (sub64 end_ start)
               else Ret rt);
        generate_loop zfs_recover srs' rt' NO_START refcnt minref
      else generate_loop zfs_recover srs' rt start refcnt minref
  end.

Definition space_reftree_generate_map (zfs_recover : bool) t (rt : range_tree S) (minref : Z)
    : result (range_tree S * Z * Z) :=
  '(rt1, _) ← range_tree_vacate (T := unit) rt None tt;
  match next_loop (length (elements t)) t (avl_first t) with
  | None => Panic
  | Some srs => generate_loop zfs_recover srs rt1 NO_START 0 minref
  end.

End SpaceReftree.

(** * Properties *)

#[export] Instance in_seg_dec rs x : Decision (in_seg rs x).
Proof. unfold in_seg. apply _. Defined.
#[export] Instance covers_dec L x : Decision (covers L x).
Proof. unfold covers. apply _. Defined.
#[export] Instance rt_mem_dec {S} (rt : range_tree S) x : Decision (rt_mem rt x).
Proof. unfold rt_mem. apply _. Defined.

#[export] Instance space_ref_laws : ComparLaws (A := space_ref).
Proof.
  split; intros; unfold avl_compar, space_ref_compar, space_reftree_compare in *;
    repeat match goal with
    | |- context [?a <? ?b] => destruct (Z.ltb_spec a b)
    | H : context [?a <? ?b] |- _ => destruct (Z.ltb_spec a b)
    end; cbn; lia.
Qed.

(** The reference count at an offset, as the nodes record it. *)
Fixpoint cnt (srs : list space_ref) (x : Z) : Z :=
  match srs with
  | [] => 0
  | sr :: srs' => (if sr_offset sr <=? x then sr_refcnt sr else 0) + cnt srs' x
  end.

Fixpoint sum (srs : list space_ref) : Z :=
  match srs with [] => 0 | sr :: srs' => sr_refcnt sr + sum srs' end.

Fixpoint weight (srs : list space_ref) : Z :=
  match srs with [] => 0 | sr :: srs' => Z.abs (sr_refcnt sr) + weight srs' end.

Lemma weight_nonneg srs : 0 <= weight srs.
Proof. induction srs; cbn; lia. Qed.

Lemma cnt_below srs x : Forall (fun sr => x < sr_offset sr) srs -> cnt srs x = 0.
Proof. induction 1; cbn; [done|]. destruct (Z.leb_spec (sr_offset x0) x); lia. Qed.

Lemma cnt_perm srs srs' x : srs ≡ₚ srs' -> cnt srs x = cnt srs' x.
Proof. induction 1; cbn; lia. Qed.
Lemma sum_perm srs srs' : srs ≡ₚ srs' -> sum srs = sum srs'.
Proof. induction 1; cbn; lia. Qed.
Lemma weight_perm srs srs' : srs ≡ₚ srs' -> weight srs = weight srs'.
Proof. induction 1; cbn; lia. Qed.

(** ** [space_reftree_generate_map] *)

Section Generate.
Context {S : Type} (I : list range_seg -> S -> Prop).
Implicit Types (rt : range_tree S).

(** From where on the loop still decides about offsets: [b] is a lower bound
    of the nodes to come. *)
Definition frontier (b start refcnt minref : Z) : Z := if minref <=? refcnt then start else b.

(** Closing the open segment, if there is one, at the node's offset [o]. *)
Lemma close_segment zfs_recover rt b start o refcnt minref :
  rt_wf I rt -> b <= o < 2 ^ 64 ->
  (if minref <=? refcnt then 0 <= start <= b else start = NO_START) ->
  (forall x, rt_mem rt x -> x < frontier b start refcnt minref) ->
  exists rt1, (if negb (start =? NO_START) && (start <? o)
               then range_tree_add zfs_recover rt start (sub64 o start)
               else Ret rt) = Ret rt1 /\ rt_wf I rt1 /\
    forall x, rt_mem rt1 x <-> rt_mem rt x \/ minref <= refcnt /\ start <= x < o.
Proof.
  intros Hwf Ho Hst Hrt. unfold frontier in Hrt.
  destruct (Z.leb_spec minref refcnt) as [Hge|Hlt].
  - destruct (Z.eqb_spec start NO_START) as [->|]; cbn.
    { exists rt. split_and!; auto. intros x. unfold NO_START in *. intuition lia. }
    destruct (Z.ltb_spec start o) as [Hso|Hso].
    + rewrite sub64_small by (unfold u64; lia).
      destruct (add_ok I zfs_recover rt start (o - start)) as (rt1 & -> & ? & Hm & _);
        auto; try lia.
      { intros x Hx Hx'. apply Hrt in Hx'. lia. }
      exists rt1. split_and!; auto. intros x. rewrite Hm. intuition lia.
    + exists rt. split_and!; auto. intros x. intuition lia.
  - subst start. cbn. exists rt. split_and!; auto. intros x. intuition lia.
Qed.

Lemma generate_loop_ok zfs_recover minref : 0 < minref -> forall srs rt b start refcnt,
  rt_wf I rt -> 0 <= b ->
  StronglySorted (fun a c => sr_offset a <= sr_offset c) srs ->
  Forall (fun sr => b <= sr_offset sr < 2 ^ 64) srs ->
  Z.abs refcnt + weight srs < 2 ^ 63 -> refcnt + sum srs = 0 ->
  (if minref <=? refcnt then 0 <= start <= b else start = NO_START) ->
  (forall x, rt_mem rt x -> x < frontier b start refcnt minref) ->
  exists rt', generate_loop zfs_recover srs rt start refcnt minref = Ret (rt', 0, NO_START) /\
    rt_wf I rt' /\
    forall x, rt_mem rt' x <->
      rt_mem rt x \/ frontier b start refcnt minref <= x /\ minref <= refcnt + cnt srs x.
Proof.
  intros Hmin. induction srs as [|sr srs IH]; intros rt b start refcnt Hwf Hb Hsort Hoff Hw Hsum Hst Hrt.
  { cbn in *. exists rt. unfold frontier.
    destruct (Z.leb_spec minref refcnt); [lia|]. subst start.
    replace refcnt with 0 by lia. split_and!; auto. intros x. intuition lia. }
  apply Forall_cons in Hoff as [Ho Hoff]. apply StronglySorted_inv in Hsort as [Hsort Hle].
  assert (Forall (fun a => sr_offset sr <= sr_offset a < 2 ^ 64) srs) as Hoff'.
  { rewrite Forall_forall in Hoff, Hle |- *. intros a Ha. specialize (Hoff a Ha). specialize (Hle a Ha). lia. }
  pose proof (weight_nonneg srs). cbn [weight sum] in Hw, Hsum. cbn [generate_loop].
  rewrite wraps64_small by (unfold s64; lia).
  set (o := sr_offset sr) in *. set (r' := refcnt + sr_refcnt sr) in *.
  assert (forall x, x < o -> cnt srs x = 0) as Hlow'.
  { intros x Hx. apply cnt_below. eapply Forall_impl; [exact Hoff'|]. cbn. intros a Ha. lia. }
  assert (forall x, x < o -> cnt (sr :: srs) x = 0) as Hlow.
  { intros x Hx. cbn [cnt]. fold o. rewrite Hlow' by done. destruct (Z.leb_spec o x); lia. }
  assert (forall x, o <= x -> refcnt + cnt (sr :: srs) x = r' + cnt srs x) as Hhigh.
  { intros x Hx. cbn [cnt]. fold o. destruct (Z.leb_spec o x); lia. }
  assert (forall x, refcnt < minref -> x < o -> ~ minref <= refcnt + cnt (sr :: srs) x) as Hno.
  { intros x ??. rewrite Hlow by done. lia. }
  unfold frontier in *. destruct (Z.leb_spec minref r') as [Hr|Hr].
  - destruct (IH rt o (if start =? NO_START then o else start) r')
      as (rt' & -> & Hwf' & Hm); auto; try lia.
    + destruct (Z.leb_spec minref r'); [|lia]. destruct (Z.leb_spec minref refcnt);
        split_if; unfold NO_START in *; lia.
    + destruct (Z.leb_spec minref r'); [|lia]. intros x Hx. apply Hrt in Hx.
      destruct (Z.leb_spec minref refcnt); split_if; unfold NO_START in *; lia.
    + exists rt'. split_and!; auto. intros x. rewrite Hm.
      destruct (Z.leb_spec minref r'); [|lia].
      destruct (Z_lt_le_dec x o) as [Hx|Hx].
      * rewrite Hlow, Hlow' by done.
        destruct (Z.leb_spec minref refcnt); split_if; unfold NO_START in *; intuition lia.
      * rewrite (Hhigh x) by done.
        destruct (Z.leb_spec minref refcnt); split_if; unfold NO_START in *; intuition lia.
  - destruct (close_segment zfs_recover rt b start o refcnt minref)
      as (rt1 & Hadd & Hwf1 & Hm1); auto.
    destruct (IH rt1 o NO_START r') as (rt' & Heq & Hwf' & Hm); auto; try lia.
    { destruct (Z.leb_spec minref r'); lia. }
    { destruct (Z.leb_spec minref r'); [lia|]. intros x. rewrite Hm1. intros [Hx|Hx]; [|lia].
      apply Hrt in Hx. destruct (Z.leb_spec minref refcnt); lia. }
    exists rt'. split; [|split; [done|]].
    + destruct (Z.eqb_spec start NO_START) as [->|]; cbn in *.
      * by injection Hadd as ->.
      * destruct (Z.leb_spec minref refcnt); [|done]. rewrite (proj2 (Z.leb_le start o)) by lia. cbn. rewrite Hadd. done.
    + intros x. rewrite Hm, Hm1. destruct (Z.leb_spec minref r'); [lia|].
      destruct (Z_lt_le_dec x o) as [Hx|Hx].
      * rewrite Hlow by done. destruct (Z.leb_spec minref refcnt); intuition lia.
      * rewrite (Hhigh x) by done. destruct (Z.leb_spec minref refcnt); intuition lia.
Qed.
End Generate.

(** ** Building a reference tree *)

(** The reference count a list of weighted segments gives an offset. *)
Fixpoint refs (G : list (range_seg * Z)) (x : Z) : Z :=
  match G with
  | [] => 0
  | (rs, r) :: G' => (if decide (in_seg rs x) then r else 0) + refs G' x
  end.

Fixpoint load (G : list (range_seg * Z)) : Z :=
  match G with [] => 0 | (_, r) :: G' => 2 * Z.abs r + load G' end.

Section Build.
Context {H : Type} `{!Kmem H} {S : Type}.
Implicit Types (h : H) (t : avl_tree space_ref).

(** The tree holds the ends of the segments of [G], in nodes that are in
    use. *)
Definition reft_wf t h (G : list (range_seg * Z)) : Prop :=
  avl_wf t /\ ordered t /\ Forall (fun sr => sr_addr sr ∈ kmem_live h) (elements t) /\
  Forall (fun sr => u64 (sr_offset sr)) (elements t) /\
  (forall x, cnt (elements t) x = refs G x) /\
  sum (elements t) = 0 /\ weight (elements t) = load G.

Lemma reft_create h : reft_wf space_reftree_create h [].
Proof. unfold reft_wf, ordered; cbn. split_and!; auto using avl_create_wf. constructor. Qed.

(** One node more. *)
Lemma add_node_ok t h offset refcnt :
  avl_wf t -> ordered t -> Forall (fun sr => sr_addr sr ∈ kmem_live h) (elements t) ->
  exists t' h' addr, space_reftree_add_node t h offset refcnt = Ret (t', h') /\
    avl_wf t' /\ ordered t' /\ Forall (fun sr => sr_addr sr ∈ kmem_live h') (elements t') /\
    elements t' ≡ₚ SpaceRef offset refcnt addr :: elements t.
Proof.
  intros Hwf Ho Hl. unfold space_reftree_add_node.
  pose proof (kmem_fresh h) as Hf. pose proof (kmem_keeps h) as Hk.
  destruct (kmem_alloc h) as [a h']; cbn in *.
  destruct (avl_add_ordered t (SpaceRef offset refcnt a)) as (t' & -> & Hwf' & Ho' & Hel); auto.
  { eapply Forall_impl; [exact Hl|]. cbn. intros sr Hsr.
    unfold avl_compar, space_ref_compar, space_reftree_compare; cbn.
    assert (a <> sr_addr sr) by (by intros ->). repeat split_if; lia. }
  exists t', h', a. split_and!; auto. rewrite Hel, Hk. constructor; cbn; [left|].
  eapply Forall_impl; [exact Hl|]. intros sr Hsr. by right.
Qed.

Lemma add_seg_ok t h G rs refcnt :
  reft_wf t h G -> seg_ok rs -> s64 refcnt -> s64 (- refcnt) ->
  exists t' h', space_reftree_add_seg t h (rs_start rs) (rs_end rs) refcnt = Ret (t', h') /\
    reft_wf t' h' ((rs, refcnt) :: G).
Proof.
  intros (Hwf & Ho & Hl & Hu & Hc & Hs & Hw) [Hrs1 Hrs2] Hr Hnr. unfold space_reftree_add_seg.
  destruct (add_node_ok t h (rs_start rs) refcnt) as (t1 & h1 & a1 & -> & Hwf1 & Ho1 & Hl1 & Hel1);
    auto. cbn. rewrite wraps64_small by done.
  destruct (add_node_ok t1 h1 (rs_end rs) (- refcnt))
    as (t2 & h2 & a2 & -> & Hwf2 & Ho2 & Hl2 & Hel2); auto.
  exists t2, h2. split; [done|]. rewrite Hel1 in Hel2. unfold reft_wf. split_and!; auto.
  - rewrite Hel2. repeat constructor; cbn; try lia. done.
  - intros x. rewrite (cnt_perm _ _ x Hel2). cbn. rewrite Hc. unfold in_seg.
    destruct (Z.leb_spec (rs_start rs) x), (Z.leb_spec (rs_end rs) x);
      destruct (decide _); lia.
  - rewrite (sum_perm _ _ Hel2). cbn. lia.
  - rewrite (weight_perm _ _ Hel2). cbn. lia.
Qed.

Lemma add_segs_ok refcnt : s64 refcnt -> s64 (- refcnt) -> forall rss t h G,
  reft_wf t h G -> Forall seg_ok rss ->
  exists t' h', add_segs t h rss refcnt = Ret (t', h') /\
    reft_wf t' h' (rev ((fun rs => (rs, refcnt)) <$> rss) ++ G).
Proof.
  intros Hr Hnr. induction rss as [|rs rss IH]; intros t h G Hwf Hall; cbn; [eauto|].
  apply Forall_cons in Hall as [Hrs Hall].
  destruct (add_seg_ok t h G rs refcnt) as (t1 & h1 & -> & Hwf1); auto. cbn.
  destruct (IH t1 h1 _ Hwf1 Hall) as (t2 & h2 & -> & Hwf2). exists t2, h2. split; [done|].
  by rewrite <- app_assoc.
Qed.

Lemma refs_app G1 G2 x : refs (G1 ++ G2) x = refs G1 x + refs G2 x.
Proof. induction G1 as [|[rs r] G1 IH]; cbn; lia. Qed.
Lemma load_app G1 G2 : load (G1 ++ G2) = load G1 + load G2.
Proof. induction G1 as [|[rs r] G1 IH]; cbn; lia. Qed.

(** The segments of one tree cover an offset at most once. *)
Lemma refs_segs L r x :
  segs_ok L -> refs (rev ((fun rs => (rs, r)) <$> L)) x = if decide (covers L x) then r else 0.
Proof.
  induction L as [|rs L IH]; intros Hok; cbn; [rewrite decide_False; [done|]; rewrite covers_nil; tauto|].
  pose proof Hok as (_ & HL & _)%segs_ok_cons. rewrite refs_app, IH by done. cbn.
  assert (covers L x -> ~ in_seg rs x) as Hone.
  { intros Hc. pose proof (covers_seg_lt _ _ _ Hok Hc). unfold in_seg. lia. }
  pose proof (covers_cons rs L x).
  destruct (decide (covers L x)), (decide (in_seg rs x)), (decide (covers (rs :: L) x));
    try tauto; lia.
Qed.

Lemma load_segs L r : load (rev ((fun rs => (rs, r)) <$> L)) = 2 * Z.of_nat (length L) * Z.abs r.
Proof. induction L as [|rs L IH]; [done|]. cbn [fmap list_fmap rev]. rewrite load_app, IH. cbn. lia. Qed.

(** ** The contract: unions and intersections of range trees *)

Fixpoint add_maps t h (maps : list (range_tree S * Z)) : result (avl_tree space_ref * H) :=
  match maps with
  | [] => Ret (t, h)
  | (rt, r) :: maps' => '(t1, h1) ← space_reftree_add_map t h rt r; add_maps t1 h1 maps'
  end.

(** How often the trees hold an offset, each counted with its weight. *)
Fixpoint mem_count (maps : list (range_tree S * Z)) (x : Z) : Z :=
  match maps with
  | [] => 0
  | (rt, r) :: maps' => (if decide (rt_mem rt x) then r else 0) + mem_count maps' x
  end.

(** Twice the number of segments, each counted with its weight. *)
Fixpoint map_load (maps : list (range_tree S * Z)) : Z :=
  match maps with
  | [] => 0
  | (rt, r) :: maps' => 2 * Z.of_nat (length (segs rt)) * Z.abs r + map_load maps'
  end.

Lemma add_maps_ok (I : list range_seg -> S -> Prop) maps : forall t h G,
  reft_wf t h G ->
  Forall (fun m => rt_wf I (fst m) /\ s64 (snd m) /\ s64 (- snd m)) maps ->
  exists t' h' G', add_maps t h maps = Ret (t', h') /\ reft_wf t' h' G' /\
    (forall x, refs G' x = mem_count maps x + refs G x) /\ load G' = map_load maps + load G.
Proof.
  induction maps as [|[rt r] maps IH]; intros t h G Hwf Hall; cbn.
  { exists t, h, G. split_and!; auto. }
  apply Forall_cons in Hall as [(Hrt & Hr & Hnr) Hall]; cbn in *.
  pose proof Hrt as (_ & Hs & _). unfold space_reftree_add_map. rewrite avl_first_spec.
  pose proof (next_loop_spec (rt_root rt) [] (segs rt) (segs_ok_NoDup _ Hs) eq_refl) as Hn.
  unfold segs, elements in Hn |- *. rewrite Hn. change (inorder (avl_root (rt_root rt))) with (segs rt).
  destruct (add_segs_ok r Hr Hnr (segs rt) t h G Hwf) as (t1 & h1 & -> & Hwf1); [apply Hs|].
  destruct (IH t1 h1 _ Hwf1 Hall) as (t2 & h2 & G' & Heq & Hwf2 & Hrefs & Hload).
  exists t2, h2, G'. cbn. split_and!; auto.
  - intros x. rewrite Hrefs, refs_app, refs_segs by done.
    change (covers (segs rt) x) with (rt_mem rt x). repeat (destruct (decide _); try done); lia.
  - rewrite Hload, load_app, load_segs. lia.
Qed.

Lemma generate_map_ok (I : list range_seg -> S -> Prop) zfs_recover t h G (rt : range_tree S) minref :
  reft_wf t h G -> load G < 2 ^ 63 -> rt_wf I rt -> 0 < minref ->
  exists rt', space_reftree_generate_map zfs_recover t rt minref = Ret (rt', 0, NO_START) /\
    rt_wf I rt' /\ forall x, 0 <= x -> rt_mem rt' x <-> minref <= refs G x.
Proof.
  intros (Hwf & Ho & Hl & Hu & Hc & Hs & Hw) Hload Hrt Hmin. unfold space_reftree_generate_map.
  destruct (vacate_ok (T := unit) I rt None tt Hrt) as (rt1 & xs & _ & Hwf1 & Hnil & _ & ->).
  cbn. rewrite avl_first_spec.
  pose proof (next_loop_spec t [] (elements t) (ordered_NoDup _ Ho) eq_refl) as Hn.
  unfold elements in *. rewrite Hn.
  assert (forall x, ~ rt_mem rt1 x) as Hempty.
  { intros x. unfold rt_mem. rewrite Hnil, covers_nil. tauto. }
  destruct (generate_loop_ok I zfs_recover minref Hmin (inorder (avl_root t)) rt1 0 NO_START 0)
    as (rt' & -> & Hwf' & Hm); auto; try lia.
  - eapply StronglySorted_weaken; [|exact Ho]. intros a b.
    unfold compar_lt, avl_compar, space_ref_compar, space_reftree_compare. repeat split_if; lia.
  - destruct (Z.leb_spec minref 0); lia.
  - intros x Hx. by apply Hempty in Hx.
  - exists rt'. split_and!; auto. intros x Hx. rewrite Hm, Hc. unfold frontier.
    destruct (Z.leb_spec minref 0); [lia|]. pose proof (Hempty x). intuition lia.
Qed.

(** C24: the union, intersection and every threshold in between.  When range
    trees are added to a new reference tree, each with a weight, then
    [space_reftree_generate_map] replaces the contents of [dst] by the offsets
    whose weights add up to at least [minref] (with weights 1: those in at
    least [minref] of the trees), wherever the allocator puts the nodes; the
    closing assertions, count 0 and no open segment, hold. *)
Theorem space_reftree_threshold (I : list range_seg -> S -> Prop) zfs_recover h
    (maps : list (range_tree S * Z)) (dst : range_tree S) minref :
  Forall (fun m => rt_wf I (fst m) /\ s64 (snd m) /\ s64 (- snd m)) maps ->
  map_load maps < 2 ^ 63 -> rt_wf I dst -> 0 < minref ->
  exists t h' dst', add_maps space_reftree_create h maps = Ret (t, h') /\
    space_reftree_generate_map zfs_recover t dst minref = Ret (dst', 0, NO_START) /\
    rt_wf I dst' /\ forall x, 0 <= x -> rt_mem dst' x <-> minref <= mem_count maps x.
Proof.
  intros Hall Hload Hdst Hmin.
  destruct (add_maps_ok I maps _ h [] (reft_create h) Hall) as (t & h' & G & Ht & Hwf & Hr & Hg).
  destruct (generate_map_ok I zfs_recover t h' G dst minref) as (dst' & Hd & Hwf' & Hm); auto.
  { cbn in Hg. lia. }
  exists t, h', dst'. split_and!; auto. intros x Hx. rewrite Hm, Hr by done. cbn. by rewrite Z.add_0_r.
Qed.
End Build.

(** An allocator that hands out ever higher addresses. *)
#[export] Instance bump_kmem : Kmem (list Z).
Proof.
  refine {| kmem_alloc := fun h => (foldr Z.max 0 h + 64, (foldr Z.max 0 h + 64) :: h);
            kmem_live := fun h => h |}; [|done].
  intros h. cbn. intros Hin.
  assert (forall k x, x ∈ k -> x <= foldr Z.max 0 k) as Hle.
  { induction k as [|a k IH]; intros x; [set_solver|]. cbn.
    intros [->|Hx]%elem_of_cons; [lia|]. apply IH in Hx. lia. }
  apply Hle in Hin. lia.
Defined.

(** Offsets in at least two of three trees. *)
Lemma space_reftree_threshold_witness :
  let t1 := demo [OpAdd 0 10; OpAdd 20 10] in
  let t2 := demo [OpAdd 5 20] in
  let t3 := demo [OpAdd 8 2; OpAdd 28 10] in
  exists t h' dst', add_maps space_reftree_create ([] : list Z) [(t1, 1); (t2, 1); (t3, 1)] = Ret (t, h') /\
    space_reftree_generate_map false t (demo [OpAdd 100 7]) 2 = Ret (dst', 0, NO_START) /\
    rt_mem dst' 22 /\ ~ rt_mem dst' 26.
Proof.
  intros t1 t2 t3.
  assert (forall ops, Forall op_ok ops -> spec_ok ops (fun _ => False) ->
            rt_wf (fun L s => L ≡ₚ s) (demo ops) /\ s64 1 /\ s64 (- 1)) as Hwf
    by (intros; split; [by apply demo_wf|unfold s64; lia]).
  destruct (space_reftree_threshold (fun L s => L ≡ₚ s) false ([] : list Z)
              [(t1, 1); (t2, 1); (t3, 1)] (demo [OpAdd 100 7]) 2)
    as (t & h' & dst' & H1 & H2 & H3 & H4).
  - repeat apply Forall_cons_2; try apply Forall_nil_2;
      (apply Hwf; [repeat constructor; cbn; lia|cbn; split_and!; try lia; intros x; lia]).
  - vm_compute. done.
  - apply Hwf; [repeat constructor; cbn; lia|cbn; split_and!; try lia; intros x; lia].
  - lia.
  - exists t, h', dst'. split; [exact H1|]. split; [exact H2|]. rewrite !H4 by lia.
    destruct (demo_wf [OpAdd 0 10; OpAdd 20 10]) as [_ M1];
      [repeat constructor; cbn; lia|cbn; split_and!; try lia; intros x; lia|].
    destruct (demo_wf [OpAdd 5 20]) as [_ M2];
      [repeat constructor; cbn; lia|cbn; split_and!; try lia; intros x; lia|].
    destruct (demo_wf [OpAdd 8 2; OpAdd 28 10]) as [_ M3];
      [repeat constructor; cbn; lia|cbn; split_and!; try lia; intros x; lia|].
    subst t1 t2 t3. cbn [mem_count].
    split; repeat (let Hd := fresh "Hd" in
      destruct (decide _) as [Hd|Hd]; rewrite ?M1, ?M2, ?M3 in Hd; cbn in Hd); lia.
Defined.
