(* ===== verification/SpaceMap.v ===== *)
(** * Space maps

    Model of [kernel/fs/zfs/space_map.c]: the on-disk log of allocations and
    frees of a metaslab.  The object that holds the log is a list of 64-bit
    words, read and written through blocks of [sm_blksz] bytes; a block that
    was never written reads as zeros.  Reading a block can fail: the error the
    data management unit gives for an offset is an argument. *)

From S2P Require Import Prelude Avl RangeTree.

(** ** Bit fields of [sys/spa.h] and [sys/sysmacros.h] *)

Definition P2PHASE (x align : Z) : Z := Z.land x (align - 1).
Definition BF64_DECODE (x low len : Z) : Z := P2PHASE (Z.shiftr x low) (Z.shiftl 1 len).
Definition BF64_ENCODE (x low len : Z) : Z := Z.shiftl (P2PHASE x (Z.shiftl 1 len)) low.

Definition SPA_VDEVBITS : Z := 24.
Definition SM_NO_VDEVID : Z := Z.shiftl 1 SPA_VDEVBITS.
Definition SM_DEBUG_PREFIX : Z := 2.
Definition SM_OFFSET_BITS : Z := 47.
Definition SM_RUN_BITS : Z := 15.
Definition SM2_PREFIX : Z := 3.
Definition SM2_OFFSET_BITS : Z := 63.
Definition SM2_RUN_BITS : Z := 36.
Definition SPACE_MAP_HISTOGRAM_SIZE : nat := 32.

Definition SM_PREFIX_DECODE (x : Z) : Z := BF64_DECODE x 62 2.
Definition SM_PREFIX_ENCODE (x : Z) : Z := BF64_ENCODE x 62 2.
Definition SM_DEBUG_ACTION_ENCODE (x : Z) : Z := BF64_ENCODE x 60 2.
Definition SM_DEBUG_SYNCPASS_ENCODE (x : Z) : Z := BF64_ENCODE x 50 10.
Definition SM_DEBUG_TXG_ENCODE (x : Z) : Z := BF64_ENCODE x 0 50.
Definition SM_OFFSET_DECODE (x : Z) : Z := BF64_DECODE x 16 SM_OFFSET_BITS.
Definition SM_OFFSET_ENCODE (x : Z) : Z := BF64_ENCODE x 16 SM_OFFSET_BITS.
Definition SM_TYPE_DECODE (x : Z) : Z := BF64_DECODE x 15 1.
Definition SM_TYPE_ENCODE (x : Z) : Z := BF64_ENCODE x 15 1.
Definition SM_RUN_DECODE (x : Z) : Z := BF64_DECODE x 0 SM_RUN_BITS + 1.
Definition SM_RUN_ENCODE (x : Z) : Z := BF64_ENCODE (x - 1) 0 SM_RUN_BITS.
Definition SM2_RUN_DECODE (x : Z) : Z := BF64_DECODE x SPA_VDEVBITS SM2_RUN_BITS + 1.
Definition SM2_RUN_ENCODE (x : Z) : Z := BF64_ENCODE (x - 1) SPA_VDEVBITS SM2_RUN_BITS.
Definition SM2_VDEV_DECODE (x : Z) : Z := BF64_DECODE x 0 SPA_VDEVBITS.
Definition SM2_VDEV_ENCODE (x : Z) : Z := BF64_ENCODE x 0 SPA_VDEVBITS.
Definition SM2_TYPE_DECODE (x : Z) : Z := BF64_DECODE x SM2_OFFSET_BITS 1.
Definition SM2_TYPE_ENCODE (x : Z) : Z := BF64_ENCODE x SM2_OFFSET_BITS 1.
Definition SM2_OFFSET_DECODE (x : Z) : Z := BF64_DECODE x 0 SM2_OFFSET_BITS.
Definition SM2_OFFSET_ENCODE (x : Z) : Z := BF64_ENCODE x 0 SM2_OFFSET_BITS.

(** [~0ULL]. *)
Definition ONES : Z := 2 ^ 64 - 1.
Definition SM_RUN_MAX : Z := SM_RUN_DECODE ONES.
Definition SM_OFFSET_MAX : Z := SM_OFFSET_DECODE ONES.
Definition SM2_RUN_MAX : Z := SM2_RUN_DECODE ONES.

(** ** Data *)

Inductive maptype : Type := SM_ALLOC | SM_FREE.

#[export] Instance maptype_eq_dec : EqDecision maptype.
Proof. solve_decision. Defined.

Definition maptype_num (t : maptype) : Z := match t with SM_ALLOC => 0 | SM_FREE => 1 end.
Definition maptype_of (x : Z) : maptype := if x =? 0 then SM_ALLOC else SM_FREE.

Record space_map_entry : Type := SpaceMapEntry {
  sme_type : maptype; sme_vdev : Z; sme_offset : Z; sme_run : Z }.

(** [space_map_t] with the [space_map_phys_t] it points to.  [sm_has_hist]: the
    bonus buffer is large enough to hold a histogram.  [sm_words]: the contents
    of the object. *)
Record space_map : Type := SpaceMap {
  sm_start : Z; sm_size : Z; sm_shift : Z; sm_length : Z; sm_alloc : Z;
  sm_object : Z; sm_blksz : Z;
  smp_object : Z; smp_objsize : Z; smp_alloc : Z; smp_histogram : list Z;
  sm_has_hist : bool; sm_words : list Z }.

Definition set_log (sm : space_map) (words : list Z) (objsize : Z) : space_map :=
  SpaceMap (sm_start sm) (sm_size sm) (sm_shift sm) (sm_length sm) (sm_alloc sm) (sm_object sm)
    (sm_blksz sm) (smp_object sm) objsize (smp_alloc sm) (smp_histogram sm) (sm_has_hist sm) words.
Definition set_alloc (sm : space_map) (alloc : Z) : space_map :=
  SpaceMap (sm_start sm) (sm_size sm) (sm_shift sm) (sm_length sm) (sm_alloc sm) (sm_object sm)
    (sm_blksz sm) (smp_object sm) (smp_objsize sm) alloc (smp_histogram sm) (sm_has_hist sm)
    (sm_words sm).
Definition set_object (sm : space_map) (object : Z) : space_map :=
  SpaceMap (sm_start sm) (sm_size sm) (sm_shift sm) (sm_length sm) (sm_alloc sm) (sm_object sm)
    (sm_blksz sm) object (smp_objsize sm) (smp_alloc sm) (smp_histogram sm) (sm_has_hist sm)
    (sm_words sm).
Definition set_smp_histogram (sm : space_map) (h : list Z) : space_map :=
  SpaceMap (sm_start sm) (sm_size sm) (sm_shift sm) (sm_length sm) (sm_alloc sm) (sm_object sm)
    (sm_blksz sm) (smp_object sm) (smp_objsize sm) (smp_alloc sm) h (sm_has_hist sm) (sm_words sm).

(** [space_map_update]: what was written becomes what is synced. *)
Definition space_map_update (sm : space_map) : space_map :=
  SpaceMap (sm_start sm) (sm_size sm) (sm_shift sm) (smp_objsize sm) (smp_alloc sm) (sm_object sm)
    (sm_blksz sm) (smp_object sm) (smp_objsize sm) (smp_alloc sm) (smp_histogram sm)
    (sm_has_hist sm) (sm_words sm).

Definition space_map_alloc_delta (sm : space_map) : Z := wraps64 (smp_alloc sm - sm_alloc sm).

(** [space_map_object], [space_map_allocated] and [space_map_length] of a
    pointer that may be null. *)
Definition space_map_object (sm : option space_map) : Z :=
  match sm with Some sm => sm_object sm | None => 0 end.
Definition space_map_allocated (sm : option space_map) : Z :=
  match sm with Some sm => wrap64 (sm_alloc sm) | None => 0 end.
Definition space_map_length (sm : option space_map) : Z :=
  match sm with Some sm => sm_length sm | None => 0 end.

(** [space_map_open] of an object whose header and contents are those of
    [disk]: nothing counts as synced until [space_map_update]. *)
Definition space_map_open (disk : space_map) (start size shift : Z) : space_map :=
  SpaceMap start size shift 0 0 (sm_object disk) (sm_blksz disk) (smp_object disk)
    (smp_objsize disk) (smp_alloc disk) (smp_histogram disk) (sm_has_hist disk) (sm_words disk).

(** The object [space_map_alloc] makes, before it is opened: an empty log under
    the number the object layer gives it.  [hist]: the feature
    [SPA_FEATURE_SPACEMAP_HISTOGRAM] is enabled.  The buffer of a header too
    small for a histogram still reads as zeros there. *)
Definition space_map_alloc (hist : bool) (object blocksize : Z) : space_map :=
  SpaceMap 0 0 0 0 0 object blocksize 0 0 0 (replicate SPACE_MAP_HISTOGRAM_SIZE 0) hist [].

(** [space_map_truncate]: the object is made anew when its header or block size
    is not what it should be, and emptied otherwise.  [ibs_ok]: the size of its
    indirect blocks is that of [space_map_ibs]; [object]: the number of a new
    object. *)
Definition space_map_truncate (hist ibs_ok : bool) (object blocksize : Z) (sm : space_map) : space_map :=
  let sm' :=
    if (hist && negb (sm_has_hist sm)) || negb (sm_blksz sm =? blocksize) || negb ibs_ok then
      let fresh := space_map_alloc hist object blocksize in
      SpaceMap (sm_start sm) (sm_size sm) (sm_shift sm) (sm_length sm) (sm_alloc sm)
        object (sm_blksz fresh) (smp_object fresh) (smp_objsize fresh) (smp_alloc fresh)
        (smp_histogram fresh) (sm_has_hist fresh) (sm_words fresh)
    else
      SpaceMap (sm_start sm) (sm_size sm) (sm_shift sm) (sm_length sm) (sm_alloc sm)
        (sm_object sm) (sm_blksz sm) (smp_object sm) (smp_objsize sm) (smp_alloc sm)
        (replicate SPACE_MAP_HISTOGRAM_SIZE 0) (sm_has_hist sm) [] in
  set_alloc (set_log sm' (sm_words sm') 0) 0.

(** Words in a block. *)
Definition blk_words (sm : space_map) : nat := Z.to_nat (sm_blksz sm / 8).

(** ** Entries *)

Definition sm_entry_is_debug (e : Z) : bool := SM_PREFIX_DECODE e =? SM_DEBUG_PREFIX.
Definition sm_entry_is_single_word (e : Z) : bool :=
  let prefix := SM_PREFIX_DECODE e in
  negb (prefix =? SM_DEBUG_PREFIX) && negb (prefix =? SM2_PREFIX).
Definition sm_entry_is_double_word (e : Z) : bool := SM_PREFIX_DECODE e =? SM2_PREFIX.

(** [type], [vdev_id], [raw_offset] and [raw_run] of an entry of one and of two
    words. *)
Definition decode_single (e : Z) : maptype * Z * Z * Z :=
  (maptype_of (SM_TYPE_DECODE e), SM_NO_VDEVID, SM_OFFSET_DECODE e, SM_RUN_DECODE e).
Definition decode_double (e e2 : Z) : maptype * Z * Z * Z :=
  (maptype_of (SM2_TYPE_DECODE e2), SM2_VDEV_DECODE e, SM2_OFFSET_DECODE e2, SM2_RUN_DECODE e).

(** The entry in bytes, with the [VERIFY0]s of its alignment. *)
Definition make_entry (sm : space_map) (d : maptype * Z * Z * Z) : result space_map_entry :=
  let '(type, vdev_id, raw_offset, raw_run) := d in
  let entry_offset := add64 (wrap64 (Z.shiftl raw_offset (sm_shift sm))) (sm_start sm) in
  let entry_run := wrap64 (Z.shiftl raw_run (sm_shift sm)) in
  _ ← verify (P2PHASE entry_offset (Z.shiftl 1 (sm_shift sm)) =? 0);
  _ ← verify (P2PHASE entry_run (Z.shiftl 1 (sm_shift sm)) =? 0);
  Ret (SpaceMapEntry type vdev_id entry_offset entry_run).

(** The assertions that the entry lies in the map. *)
Definition check_entry (sm : space_map) (sme : space_map_entry) : result unit :=
  let limit := add64 (sm_start sm) (sm_size sm) in
  _ ← verify (sm_start sm <=? sme_offset sme);
  _ ← verify (sme_offset sme <? limit);
  _ ← verify (sme_run sme <=? sm_size sm);
  verify (add64 (sme_offset sme) (sme_run sme) <=? limit).

(** ** [space_map_iterate] *)

Section Iterate.
Context {T : Type} (callback : space_map_entry -> T -> result (T * Z)).

(** The inner loop over the words of a block, from [cursor] to [end_].  It
    ends with the state of the callback and [error]. *)
Fixpoint iterate_block (fuel : nat) (sm : space_map) (blk : list Z) (cursor end_ : nat) (arg : T)
    : result (T * Z) :=
  if (cursor <? end_)%nat then
    match fuel with
    | O => Panic
    | S fuel' =>
        e ← rd blk cursor;
        if sm_entry_is_debug e then iterate_block fuel' sm blk (S cursor) end_ arg
        else
          '(d, cursor) ←
            (if sm_entry_is_single_word e then Ret (decode_single e, cursor)
             else
               _ ← verify (sm_entry_is_double_word e);
               let cursor := S cursor in
               e2 ← rd blk cursor;
               _ ← verify (cursor <=? end_)%nat;
               Ret (decode_double e e2, cursor));
          sme ← make_entry sm d;
          _ ← check_entry sm sme;
          '(arg, error) ← callback sme arg;
          if error =? 0 then iterate_block fuel' sm blk (S cursor) end_ arg else Ret (arg, error)
    end
  else Ret (arg, 0).

(** The contents of the block at a word offset, as [dmu_buf_hold] gives it. *)
Definition block_at (sm : space_map) (base : nat) : list Z :=
  take (blk_words sm) (drop base (sm_words sm ++ replicate (blk_words sm) 0)).

(** The outer loop over the blocks; [block_base] and [sm_len] are in bytes. *)
Fixpoint iterate_loop (fuel : nat) (io : Z -> Z) (sm : space_map) (sm_len block_base : Z) (arg : T)
    : result (T * Z) :=
  if block_base <? sm_len then
    match fuel with
    | O => Panic
    | S fuel' =>
        if io block_base =? 0 then
          let block_length := Z.min (sm_len - block_base) (sm_blksz sm) in
          let block_end := Z.to_nat (block_length / 8) in
          _ ← verify (P2PHASE block_length 8 =? 0);
          _ ← verify (negb (block_length =? 0));
          '(arg, error) ← iterate_block block_end sm (block_at sm (Z.to_nat (block_base / 8)))
                            0 block_end arg;
          if error =? 0 then iterate_loop fuel' io sm sm_len (block_base + sm_blksz sm) arg
          else Ret (arg, error)
        else Ret (arg, io block_base)
    end
  else Ret (arg, 0).

(** There are no more blocks than words. *)
Definition space_map_iterate (io : Z -> Z) (sm : space_map) (arg : T) : result (T * Z) :=
  _ ← verify (negb (sm_blksz sm =? 0));
  iterate_loop (Z.to_nat (sm_length sm / 8 + 1)) io sm (sm_length sm) 0 arg.
End Iterate.

(** ** [space_map_load] *)

Section Load.
Context {S : Type}.

Definition space_map_load_callback (zfs_recover : bool) (sm : space_map) (maptype : maptype)
    (sme : space_map_entry) (rt : range_tree S) : result (range_tree S * Z) :=
  rt' ← (if decide (sme_type sme = maptype) then
           _ ← verify (add64 (rt_space rt) (sme_run sme) <=? sm_size sm);
           range_tree_add zfs_recover rt (sme_offset sme) (sme_run sme)
         else range_tree_remove zfs_recover rt (sme_offset sme) (sme_run sme));
  Ret (rt', 0).

Definition space_map_load (zfs_recover : bool) (io : Z -> Z) (sm : space_map) (rt : range_tree S)
    (maptype : maptype) : result (range_tree S * Z) :=
  _ ← verify (rt_space rt =? 0);
  let space := wrap64 (sm_alloc sm) in
  '(rt, space) ←
    (match maptype with
     | SM_FREE =>
         rt ← range_tree_add zfs_recover rt (sm_start sm) (sm_size sm);
         Ret (rt, sub64 (sm_size sm) space)
     | SM_ALLOC => Ret (rt, space)
     end);
  '(rt, err) ← space_map_iterate (space_map_load_callback zfs_recover sm maptype) io sm rt;
  if err =? 0 then _ ← verify (rt_space rt =? space); Ret (rt, err)
  else '(rt, _) ← range_tree_vacate (T := unit) rt None tt; Ret (rt, err).
End Load.

(** ** [space_map_estimate_optimal_size] *)

Section Estimate.
Context {S : Type}.

(** [for (; idx <= last; idx++) size += histogram[idx] * unit(idx)]: [n]
    rounds from [idx] on. *)
Fixpoint estimate_loop (n : nat) (hist : list Z) (idx : nat) (unit : nat -> Z) (size : Z)
    : result Z :=
  match n with
  | O => Ret size
  | Datatypes.S n' =>
      c ← rd hist idx;
      estimate_loop n' hist (Datatypes.S idx) unit (add64 size (wrap64 (c * unit idx)))
  end.

(** [v2]: the feature [SPA_FEATURE_SPACEMAP_V2] is enabled; [force]: the value
    of [zfs_force_some_double_word_sm_entries]. *)
Definition space_map_estimate_optimal_size (v2 force : bool) (sm : space_map) (rt : range_tree S)
    (vdev_id : Z) : result Z :=
  let shift := Z.to_nat (sm_shift sm) in
  let hist := rt_histogram rt in
  let single_max := (Z.to_nat SM_RUN_BITS + shift - 1)%nat in
  let double_max := (Z.to_nat SM2_RUN_BITS + shift - 1)%nat in
  let entry_size := if v2 && force then 16 else 8 in
  '(idx, size) ←
    (if negb v2 || ((vdev_id =? SM_NO_VDEVID) && (sm_size sm <? SM_OFFSET_MAX)) then
       size ← estimate_loop (Datatypes.S single_max) hist 0 (fun _ => entry_size) 0;
       Ret (Datatypes.S single_max, size)
     else Ret (0%nat, 0));
  if negb v2 then
    estimate_loop (RANGE_TREE_HISTOGRAM_SIZE - idx) hist idx
      (fun i => wrap64 (Z.shiftl 1 (Z.of_nat i - Z.of_nat single_max)) * entry_size) size
  else
    size ← estimate_loop (Datatypes.S double_max - idx) hist idx (fun _ => 16) size;
    size ← estimate_loop (RANGE_TREE_HISTOGRAM_SIZE - Datatypes.S double_max) hist
             (Datatypes.S double_max)
             (fun i => wrap64 (Z.shiftl 1 (Z.of_nat i - Z.of_nat double_max)) * 16) size;
    Ret (add64 size (wrap64 ((size / sm_blksz sm + 1) * 8))).
End Estimate.

(** ** [space_map_write] *)

(** A block is held at word offset [db] ([dmu_buf_hold] of a byte of it): the
    object reaches to the end of the block then. *)
Definition hold_block (sm : space_map) (words : list Z) (word : nat) : nat * list Z :=
  let db := (word / blk_words sm * blk_words sm)%nat in
  (db, words ++ replicate (db + blk_words sm - length words) 0).

(** [dmu_write] of one word at [smp_objsize], which is moved behind it. *)
Definition append_word (sm : space_map) (w : Z) : space_map :=
  let i := Z.to_nat (smp_objsize sm / 8) in
  let words := sm_words sm ++ replicate (Datatypes.S i - length (sm_words sm)) 0 in
  set_log sm (<[i := w]> words) (add64 (smp_objsize sm) 8).

Definition space_map_write_intro_debug (sm : space_map) (maptype : maptype) (pass txg : Z)
    : space_map :=
  append_word sm
    (Z.lor (Z.lor (Z.lor (SM_PREFIX_ENCODE SM_DEBUG_PREFIX)
                         (SM_DEBUG_ACTION_ENCODE (maptype_num maptype)))
                  (SM_DEBUG_SYNCPASS_ENCODE pass)) (SM_DEBUG_TXG_ENCODE txg)).

Definition pad_entry : Z :=
  Z.lor (Z.lor (Z.lor (SM_PREFIX_ENCODE SM_DEBUG_PREFIX) (SM_DEBUG_ACTION_ENCODE 0))
               (SM_DEBUG_SYNCPASS_ENCODE 0)) (SM_DEBUG_TXG_ENCODE 0).

Definition single_entry (start : Z) (maptype : maptype) (run_len : Z) : Z :=
  Z.lor (Z.lor (SM_OFFSET_ENCODE start) (SM_TYPE_ENCODE (maptype_num maptype)))
        (SM_RUN_ENCODE run_len).
Definition double_entry1 (run_len vdev_id : Z) : Z :=
  Z.lor (Z.lor (SM_PREFIX_ENCODE SM2_PREFIX) (SM2_RUN_ENCODE run_len)) (SM2_VDEV_ENCODE vdev_id).
Definition double_entry2 (start : Z) (maptype : maptype) : Z :=
  Z.lor (SM2_TYPE_ENCODE (maptype_num maptype)) (SM2_OFFSET_ENCODE start).

(** The loop of [space_map_write_seg].  The block held starts at word [db];
    [cursor] is [block_cursor - block_base].  Also the block held at the end. *)
Fixpoint write_loop (fuel : nat) (sm : space_map) (maptype : maptype) (vdev_id : Z) (words : Z)
    (db cursor : nat) (start size : Z) : result (space_map * nat) :=
  if size =? 0 then Ret (sm, db)
  else
    match fuel with
    | O => Panic
    | Datatypes.S fuel' =>
        _ ← verify (cursor <=? blk_words sm)%nat;
        let '(sm, db, cursor) :=
          (if (cursor =? blk_words sm)%nat then
             let '(db, ws) := hold_block sm (sm_words sm) (Z.to_nat (smp_objsize sm / 8)) in
             (set_log sm ws (smp_objsize sm), db, 0%nat)
           else (sm, db, cursor)) in
        if (Datatypes.S cursor =? blk_words sm)%nat && (1 <? words) then
          _ ← verify (words =? 2);
          ws ← wr (sm_words sm) (db + cursor) pad_entry;
          write_loop fuel' (set_log sm ws (add64 (smp_objsize sm) 8)) maptype vdev_id words
            db (Datatypes.S cursor) start size
        else
          let run_max := if words =? 2 then SM2_RUN_MAX else SM_RUN_MAX in
          let run_len := Z.min size run_max in
          '(ws, cursor) ←
            (if words =? 1 then
               ws ← wr (sm_words sm) (db + cursor) (single_entry start maptype run_len);
               Ret (ws, Datatypes.S cursor)
             else if words =? 2 then
               ws1 ← wr (sm_words sm) (db + cursor) (double_entry1 run_len vdev_id);
               _ ← verify (Datatypes.S cursor <? blk_words sm)%nat;
               ws2 ← wr ws1 (db + Datatypes.S cursor) (double_entry2 start maptype);
               Ret (ws2, Datatypes.S (Datatypes.S cursor))
             else Panic);
          write_loop fuel' (set_log sm ws (add64 (smp_objsize sm) (words * 8))) maptype vdev_id words
            db cursor (add64 start run_len) (sub64 size run_len)
    end.

(** Every entry but a padding takes [run_max] off the size, and a padding is
    followed by an entry. *)
Definition space_map_write_seg (sm : space_map) (rs : range_seg) (maptype : maptype)
    (vdev_id words : Z) (db : nat) : result (space_map * nat) :=
  _ ← verify (negb (words =? 0));
  _ ← verify (words <=? 2);
  _ ← verify (vdev_id <=? SM_NO_VDEVID);
  _ ← verify (negb (words =? 1) || (vdev_id =? SM_NO_VDEVID));
  let cursor := (Z.to_nat (smp_objsize sm / 8) - db)%nat in
  let size := Z.shiftr (sub64 (rs_end rs) (rs_start rs)) (sm_shift sm) in
  let start := Z.shiftr (sub64 (rs_start rs) (sm_start sm)) (sm_shift sm) in
  let run_max := if words =? 2 then SM2_RUN_MAX else SM_RUN_MAX in
  let limit := add64 (sm_start sm) (sm_size sm) in
  _ ← verify (cursor <=? blk_words sm)%nat;
  _ ← verify (sm_start sm <=? rs_start rs);
  _ ← verify (rs_start rs <? limit);
  _ ← verify (sub64 (rs_end rs) (rs_start rs) <=? sm_size sm);
  _ ← verify (rs_end rs <=? limit);
  write_loop (Z.to_nat (2 * (size / run_max + 1))) sm maptype vdev_id words db cursor start size.

(** How many words an entry of the segment takes.  [v2]: the feature
    [SPA_FEATURE_SPACEMAP_V2] is active; [force]: the test hook
    [zfs_force_some_double_word_sm_entries] and its dice. *)
Definition seg_words (v2 : bool) (force : range_seg -> bool) (sm : space_map) (vdev_id : Z)
    (rs : range_seg) : Z :=
  let offset := Z.shiftr (sub64 (rs_start rs) (sm_start sm)) (sm_shift sm) in
  let length := Z.shiftr (sub64 (rs_end rs) (rs_start rs)) (sm_shift sm) in
  if v2 && ((Z.shiftl 1 SM_OFFSET_BITS <=? offset) || (SM_RUN_MAX <? length) ||
            negb (vdev_id =? SM_NO_VDEVID) || force rs)
  then 2 else 1.

Fixpoint write_segs (v2 : bool) (force : range_seg -> bool) (sm : space_map) (rss : list range_seg)
    (maptype : maptype) (vdev_id : Z) (db : nat) : result space_map :=
  match rss with
  | [] => Ret sm
  | rs :: rss' =>
      '(sm, db) ← space_map_write_seg sm rs maptype vdev_id (seg_words v2 force sm vdev_id rs) db;
      write_segs v2 force sm rss' maptype vdev_id db
  end.

Section Write.
Context {S : Type}.

(** [debug]: the kernel is compiled with [DEBUG], so that the size the log has
    at the end is held against the estimate; [force_some]: the value of
    [zfs_force_some_double_word_sm_entries].  The feature is active as soon as it
    is enabled. *)
Definition space_map_write_impl (debug force_some v2 : bool) (force : range_seg -> bool) (pass txg : Z)
    (sm : space_map) (rt : range_tree S) (maptype : maptype) (vdev_id : Z) : result space_map :=
  let sm := space_map_write_intro_debug sm maptype pass txg in
  let initial_objsize := smp_objsize sm in
  estimated_growth ← (if debug then space_map_estimate_optimal_size v2 force_some sm rt SM_NO_VDEVID else Ret 0);
  let estimated_final_objsize := add64 initial_objsize estimated_growth in
  let '(db, ws) := hold_block sm (sm_words sm) (Z.to_nat (smp_objsize sm / 8)) in
  match next_loop (length (elements (rt_root rt))) (rt_root rt) (avl_first (rt_root rt)) with
  | None => Panic
  | Some rss =>
      sm ← write_segs v2 force (set_log sm ws (smp_objsize sm)) rss maptype vdev_id db;
      _ ← verify (negb debug || (smp_objsize sm <=? estimated_final_objsize));
      Ret sm
  end.

Definition space_map_write (debug force_some v2 : bool) (force : range_seg -> bool) (pass txg : Z)
    (sm : space_map) (rt : range_tree S) (maptype : maptype) (vdev_id : Z) : result space_map :=
  _ ← verify (negb (sm_object sm =? 0));
  let sm := set_object sm (sm_object sm) in
  if range_tree_is_empty rt then Ret sm
  else
    let sm := set_alloc sm (wraps64 (match maptype with
                                     | SM_ALLOC => smp_alloc sm + rt_space rt
                                     | SM_FREE => smp_alloc sm - rt_space rt
                                     end)) in
    space_map_write_impl debug force_some v2 force pass txg sm rt maptype vdev_id.
End Write.

(** ** Histogram *)

Definition space_map_histogram_clear (sm : space_map) : space_map :=
  if sm_has_hist sm then set_smp_histogram sm (replicate SPACE_MAP_HISTOGRAM_SIZE 0) else sm.

Section Histogram.
Context {S : Type}.

Definition space_map_histogram_verify (sm : space_map) (rt : range_tree S) : bool :=
  forallb (fun n => n =? 0) (take (Z.to_nat (sm_shift sm)) (rt_histogram rt)).

(** [for (int i = sm->sm_shift; i < RANGE_TREE_HISTOGRAM_SIZE; i++)], [n] more
    rounds. *)
Fixpoint histogram_add_loop (n : nat) (shift : Z) (rth : list Z) (i : Z) (idx : nat) (h : list Z)
    : result (list Z) :=
  match n with
  | O => Ret h
  | Datatypes.S n' =>
      c ← rd rth (Z.to_nat i);
      old ← rd h idx;
      h ← wr h idx (add64 old (wrap64 (Z.shiftl c (i - Z.of_nat idx - shift))));
      histogram_add_loop n' shift rth (i + 1)
        (if (idx <? SPACE_MAP_HISTOGRAM_SIZE - 1)%nat then Datatypes.S idx else idx) h
  end.

Definition space_map_histogram_add (sm : space_map) (rt : range_tree S) : result space_map :=
  _ ← verify (negb (sm_object sm =? 0));
  if sm_has_hist sm then
    h ← histogram_add_loop (Z.to_nat (Z.of_nat RANGE_TREE_HISTOGRAM_SIZE - sm_shift sm))
          (sm_shift sm) (rt_histogram rt) (sm_shift sm) 0 (smp_histogram sm);
    Ret (set_smp_histogram sm h)
  else Ret sm.
End Histogram.

(** ** [space_map_incremental_destroy] *)

(** A write at an index of type [uint64_t]. *)
Definition wr64 (buf : list Z) (j w : Z) : result (list Z) :=
  if j <? 0 then Panic else wr buf (Z.to_nat j) w.

(** The loop of [space_map_reversed_last_block_entries]: [words] is the block,
    [i] and [j] run towards each other. *)
Fixpoint reverse_loop (fuel : nat) (words : list Z) (n i : nat) (buf : list Z) (j : Z)
    : result (list Z) :=
  if (i <? n)%nat then
    match fuel with
    | O => Panic
    | S fuel' =>
        entry ← rd words i;
        if sm_entry_is_double_word entry then
          buf ← wr64 buf (j - 1) entry;
          entry2 ← rd words (S i);
          buf ← wr64 buf j entry2;
          reverse_loop fuel' words n (S (S i)) buf (j - 2)
        else
          buf ← wr64 buf j entry;
          reverse_loop fuel' words n (S i) buf (j - 1)
    end
  else Ret buf.

(** The error, the buffer and [*nwords]. *)
Definition space_map_reversed_last_block_entries (io : Z -> Z) (sm : space_map) (buf : list Z)
    : result (Z * list Z * nat) :=
  let last_word := Z.to_nat ((smp_objsize sm - 8) / 8) in
  let db := (last_word / blk_words sm * blk_words sm)%nat in
  let error := io (Z.of_nat db * 8) in
  if error =? 0 then
    let n := (Z.to_nat (smp_objsize sm / 8) - db)%nat in
    buf ← reverse_loop n (block_at sm db) n 0 buf (Z.of_nat n - 1);
    Ret (0, buf, n)
  else Ret (error, buf, 0%nat).

Section Destroy.
Context {T : Type} (callback : space_map_entry -> T -> result (T * Z)).

(** [smp_objsize -= words * 8], and what was synced follows. *)
Definition drop_words (sm : space_map) (words : Z) : space_map :=
  space_map_update (set_log sm (sm_words sm) (sub64 (smp_objsize sm) (words * 8))).

Fixpoint destroy_block (fuel : nat) (sm : space_map) (buf : list Z) (nwords i : nat) (arg : T)
    : result (space_map * T * Z) :=
  if (i <? nwords)%nat then
    match fuel with
    | O => Panic
    | S fuel' =>
        e ← rd buf i;
        if sm_entry_is_debug e then
          destroy_block fuel' (drop_words sm 1) buf nwords (S i) arg
        else
          '(d, words, i) ←
            (if sm_entry_is_single_word e then Ret (decode_single e, 1, i)
             else e2 ← rd buf (S i); Ret (decode_double e e2, 2, S i));
          sme ← make_entry sm d;
          _ ← check_entry sm sme;
          '(arg, error) ← callback sme arg;
          if error =? 0 then
            let sm := set_alloc sm (wraps64 (match sme_type sme with
                                             | SM_ALLOC => smp_alloc sm - sme_run sme
                                             | SM_FREE => smp_alloc sm + sme_run sme
                                             end)) in
            destroy_block fuel' (drop_words sm words) buf nwords (S i) arg
          else Ret (sm, arg, error)
    end
  else Ret (sm, arg, 0).

Fixpoint destroy_log (fuel : nat) (io : Z -> Z) (sm : space_map) (buf : list Z) (arg : T)
    : result (space_map * T * Z) :=
  if 0 <? sm_length sm then
    match fuel with
    | O => Panic
    | S fuel' =>
        '(error, buf, nwords) ← space_map_reversed_last_block_entries io sm buf;
        if error =? 0 then
          '(sm, arg, error) ← destroy_block nwords sm buf nwords 0 arg;
          if error =? 0 then destroy_log fuel' io sm buf arg else Ret (sm, arg, error)
        else Ret (sm, arg, error)
    end
  else Ret (sm, arg, 0).

(** The buffer is at least a block; there are no more blocks than words. *)
Definition space_map_incremental_destroy (io : Z -> Z) (sm : space_map) (arg : T)
    : result (space_map * T * Z) :=
  let bufsz := Z.max (sm_blksz sm) 512 in
  destroy_log (Z.to_nat (sm_length sm / 8 + 1)) io sm (replicate (Z.to_nat (bufsz / 8)) 0) arg.
End Destroy.
