(* ===== verification/SpaceMapLog.v ===== *)
(** * Space maps: the log and the set it stands for

    Properties of the definitions of [SpaceMap.v]. *)

From S2P Require Import Prelude Avl RangeTree SpaceMap.

(** ** Encodings *)

Lemma P2PHASE_mod x n : 0 <= n -> P2PHASE x (Z.shiftl 1 n) = x mod 2 ^ n.
Proof.
  intros Hn. unfold P2PHASE. rewrite Z.shiftl_1_l, <- Z.land_ones by done.
  f_equal. rewrite Z.ones_equiv. lia.
Qed.

Lemma BF64_DECODE_mod x low len :
  0 <= low -> 0 <= len -> BF64_DECODE x low len = (x / 2 ^ low) mod 2 ^ len.
Proof. intros. unfold BF64_DECODE. by rewrite P2PHASE_mod, Z.shiftr_div_pow2. Qed.

Lemma BF64_ENCODE_mul x low len :
  0 <= low -> 0 <= len -> BF64_ENCODE x low len = (x mod 2 ^ len) * 2 ^ low.
Proof. intros. unfold BF64_ENCODE. by rewrite P2PHASE_mod, Z.shiftl_mul_pow2. Qed.

Lemma maptype_num_bound t : 0 <= maptype_num t < 2.
Proof. destruct t; cbn; lia. Qed.

Lemma maptype_of_num t : maptype_of (maptype_num t) = t.
Proof. by destruct t. Qed.

Ltac fields := rewrite ?BF64_ENCODE_mul, ?BF64_DECODE_mod by lia.

Lemma single_entry_value start t run :
  0 <= start < 2 ^ 47 -> 1 <= run <= 2 ^ 15 ->
  single_entry start t run = start * 2 ^ 16 + maptype_num t * 2 ^ 15 + (run - 1).
Proof.
  intros Hs Hr. pose proof (maptype_num_bound t).
  unfold single_entry, SM_OFFSET_ENCODE, SM_TYPE_ENCODE, SM_RUN_ENCODE, SM_OFFSET_BITS, SM_RUN_BITS.
  fields. rewrite !Z.mod_small by lia.
  rewrite (lor_add (start * 2 ^ 16) _ 16); [|lia|apply Z.mod_mul; lia|lia].
  rewrite (lor_add _ _ 15); [lia|lia| |lia].
  replace (start * 2 ^ 16 + maptype_num t * 2 ^ 15) with ((start * 2 + maptype_num t) * 2 ^ 15) by lia.
  apply Z.mod_mul. lia.
Qed.

Lemma single_entry_decode start t run :
  0 <= start < 2 ^ 47 -> 1 <= run <= 2 ^ 15 ->
  let e := single_entry start t run in
  sm_entry_is_debug e = false /\ sm_entry_is_single_word e = true /\
  decode_single e = (t, SM_NO_VDEVID, start, run).
Proof.
  intros Hs Hr e. subst e. pose proof (maptype_num_bound t) as Ht.
  assert (SM_PREFIX_DECODE (single_entry start t run) < 2) as Hp.
  { unfold SM_PREFIX_DECODE. fields. rewrite single_entry_value by done.
    change (2 ^ 62) with 4611686018427387904. change (2 ^ 2) with 4. eucl. }
  unfold sm_entry_is_debug, sm_entry_is_single_word, SM_DEBUG_PREFIX, SM2_PREFIX.
  split; [lia|]. split.
  { destruct (Z.eqb_spec (SM_PREFIX_DECODE (single_entry start t run)) 2); [lia|].
    destruct (Z.eqb_spec (SM_PREFIX_DECODE (single_entry start t run)) 3); [lia|done]. }
  unfold decode_single, SM_TYPE_DECODE, SM_OFFSET_DECODE, SM_RUN_DECODE, SM_OFFSET_BITS, SM_RUN_BITS.
  fields. rewrite single_entry_value by done.
  assert ((start * 2 ^ 16 + maptype_num t * 2 ^ 15 + (run - 1)) / 2 ^ 15 = start * 2 + maptype_num t) as E1
    by eucl.
  assert ((start * 2 ^ 16 + maptype_num t * 2 ^ 15 + (run - 1)) / 2 ^ 16 = start) as E2 by eucl.
  rewrite E1, E2, Z.div_1_r, (Z.mod_small start) by lia.
  replace ((start * 2 + maptype_num t) mod 2 ^ 1) with (maptype_num t) by eucl.
  replace ((start * 2 ^ 16 + maptype_num t * 2 ^ 15 + (run - 1)) mod 2 ^ 15) with (run - 1) by eucl.
  rewrite maptype_of_num. do 2 f_equal. lia.
Qed.

Lemma double_entry1_value run vdev :
  1 <= run <= 2 ^ 36 ->
  double_entry1 run vdev = 3 * 2 ^ 62 + (run - 1) * 2 ^ 24 + vdev mod 2 ^ 24.
Proof.
  intros Hr. pose proof (Z.mod_pos_bound vdev (2 ^ 24) ltac:(lia)).
  unfold double_entry1, SM_PREFIX_ENCODE, SM2_RUN_ENCODE, SM2_VDEV_ENCODE, SM2_RUN_BITS,
    SPA_VDEVBITS, SM2_PREFIX.
  fields. rewrite (Z.mod_small (run - 1)) by lia. change (3 mod 2 ^ 2) with 3.
  rewrite (lor_add (3 * 2 ^ 62) _ 62); [|lia|apply Z.mod_mul; lia|lia].
  rewrite (lor_add _ _ 24); [lia|lia| |lia].
  replace (3 * 2 ^ 62 + (run - 1) * 2 ^ 24) with ((3 * 2 ^ 38 + (run - 1)) * 2 ^ 24) by lia.
  apply Z.mod_mul. lia.
Qed.

Lemma double_entry2_value start t :
  0 <= start < 2 ^ 63 -> double_entry2 start t = maptype_num t * 2 ^ 63 + start.
Proof.
  intros Hs. pose proof (maptype_num_bound t).
  unfold double_entry2, SM2_TYPE_ENCODE, SM2_OFFSET_ENCODE, SM2_OFFSET_BITS.
  fields. rewrite !Z.mod_small by lia.
  rewrite (lor_add _ _ 63); [lia|lia|apply Z.mod_mul; lia|lia].
Qed.

Lemma double_entry_decode start t run vdev :
  0 <= start < 2 ^ 63 -> 1 <= run <= 2 ^ 36 ->
  let e := double_entry1 run vdev in
  sm_entry_is_debug e = false /\ sm_entry_is_single_word e = false /\
  sm_entry_is_double_word e = true /\
  decode_double e (double_entry2 start t) = (t, vdev mod 2 ^ 24, start, run).
Proof.
  intros Hs Hr e. subst e. pose proof (maptype_num_bound t) as Ht.
  pose proof (Z.mod_pos_bound vdev (2 ^ 24) ltac:(lia)) as Hv.
  assert (SM_PREFIX_DECODE (double_entry1 run vdev) = 3) as Hp.
  { unfold SM_PREFIX_DECODE. fields. rewrite double_entry1_value by done. eucl. }
  unfold sm_entry_is_debug, sm_entry_is_single_word, sm_entry_is_double_word.
  rewrite Hp. split_and!; auto.
  unfold decode_double, SM2_TYPE_DECODE, SM2_OFFSET_DECODE, SM2_RUN_DECODE, SM2_VDEV_DECODE,
    SM2_OFFSET_BITS, SM2_RUN_BITS, SPA_VDEVBITS.
  fields. rewrite double_entry1_value, double_entry2_value by done. rewrite !Z.div_1_r.
  set (v := vdev mod 2 ^ 24) in *.
  replace ((maptype_num t * 2 ^ 63 + start) / 2 ^ 63) with (maptype_num t) by eucl.
  replace ((maptype_num t * 2 ^ 63 + start) mod 2 ^ 63) with start by eucl.
  replace ((3 * 2 ^ 62 + (run - 1) * 2 ^ 24 + v) mod 2 ^ 24) with v by eucl.
  replace ((3 * 2 ^ 62 + (run - 1) * 2 ^ 24 + v) / 2 ^ 24) with (3 * 2 ^ 38 + (run - 1)) by eucl.
  replace ((3 * 2 ^ 38 + (run - 1)) mod 2 ^ 36) with (run - 1) by eucl.
  rewrite (Z.mod_small (maptype_num t)), maptype_of_num by lia. do 2 f_equal. lia.
Qed.

Lemma debug_entry_ok a b c :
  0 <= a < 4 -> 0 <= b -> 0 <= c ->
  sm_entry_is_debug (Z.lor (Z.lor (Z.lor (SM_PREFIX_ENCODE SM_DEBUG_PREFIX)
    (SM_DEBUG_ACTION_ENCODE a)) (SM_DEBUG_SYNCPASS_ENCODE b)) (SM_DEBUG_TXG_ENCODE c)) = true.
Proof.
  intros Ha Hb Hc. unfold sm_entry_is_debug, SM_PREFIX_DECODE, SM_PREFIX_ENCODE,
    SM_DEBUG_ACTION_ENCODE, SM_DEBUG_SYNCPASS_ENCODE, SM_DEBUG_TXG_ENCODE, SM_DEBUG_PREFIX.
  fields. change (2 mod 2 ^ 2) with 2. rewrite (Z.mod_small a) by lia.
  pose proof (Z.mod_pos_bound b (2 ^ 10) ltac:(lia)). pose proof (Z.mod_pos_bound c (2 ^ 50) ltac:(lia)).
  set (b' := b mod 2 ^ 10) in *. set (c' := c mod 2 ^ 50) in *.
  rewrite (lor_add (2 * 2 ^ 62) _ 62); [|lia|apply Z.mod_mul; lia|lia].
  rewrite (lor_add (2 * 2 ^ 62 + a * 2 ^ 60) _ 60); [|lia| |lia].
  2: { replace (2 * 2 ^ 62 + a * 2 ^ 60) with ((8 + a) * 2 ^ 60) by lia. apply Z.mod_mul. lia. }
  rewrite (lor_add _ _ 50); [|lia| |lia].
  2: { replace (2 * 2 ^ 62 + a * 2 ^ 60 + b' * 2 ^ 50) with ((2 ^ 13 + a * 2 ^ 10 + b') * 2 ^ 50) by lia.
       apply Z.mod_mul. lia. }
  apply Z.eqb_eq. eucl.
Qed.

Lemma pad_entry_debug : sm_entry_is_debug pad_entry = true.
Proof. reflexivity. Qed.

Lemma SM_RUN_MAX_val : SM_RUN_MAX = 2 ^ 15.
Proof. reflexivity. Qed.
Lemma SM2_RUN_MAX_val : SM2_RUN_MAX = 2 ^ 36.
Proof. reflexivity. Qed.

(** ** The words of a log *)

Definition raw_entry : Type := maptype * Z * Z * Z.

(** The words from position [pos] on are these entries; an entry of two words
    does not straddle a block. *)
Inductive parses (bw : nat) : nat -> list Z -> list raw_entry -> Prop :=
| parses_nil pos : parses bw pos [] []
| parses_debug pos w ws es :
    sm_entry_is_debug w = true -> parses bw (S pos) ws es -> parses bw pos (w :: ws) es
| parses_single pos w ws es :
    sm_entry_is_debug w = false -> sm_entry_is_single_word w = true ->
    parses bw (S pos) ws es -> parses bw pos (w :: ws) (decode_single w :: es)
| parses_double pos w w2 ws es :
    sm_entry_is_debug w = false -> sm_entry_is_single_word w = false ->
    (pos mod bw + 1 < bw)%nat -> parses bw (S (S pos)) ws es ->
    parses bw pos (w :: w2 :: ws) (decode_double w w2 :: es).

Lemma parses_app bw pos ws1 es1 ws2 es2 :
  parses bw pos ws1 es1 -> parses bw (pos + length ws1) ws2 es2 ->
  parses bw pos (ws1 ++ ws2) (es1 ++ es2).
Proof.
  intros H1 H2. induction H1; cbn [length app] in *.
  - by rewrite Nat.add_0_r in H2.
  - constructor; [done|]. apply IHparses. by rewrite Nat.add_succ_comm.
  - constructor; [done..|]. apply IHparses. by rewrite Nat.add_succ_comm.
  - constructor; [done..|]. apply IHparses.
    replace (S (S pos) + length ws)%nat with (pos + S (S (length ws)))%nat by lia. done.
Qed.

(** At the boundary of a block the words and the entries split. *)
Lemma parses_split bw pos ws es : (0 < bw)%nat -> parses bw pos ws es -> forall k,
  ((pos + k) mod bw = 0)%nat -> (k <= length ws)%nat ->
  exists es1 es2, es = es1 ++ es2 /\ parses bw pos (take k ws) es1 /\
    parses bw (pos + k) (drop k ws) es2.
Proof.
  intros Hbw. induction 1 as [pos|pos w ws es Hd Hp IH|pos w ws es Hd Hs Hp IH|pos w w2 ws es Hd Hs Hlt Hp IH];
    intros k Hk Hle; cbn [length] in Hle.
  - destruct k; [|lia]. exists [], []. split_and!; constructor.
  - destruct k as [|k]; [exists [], es; rewrite Nat.add_0_r; split_and!; [done|constructor|by constructor]|].
    destruct (IH k) as (es1 & es2 & -> & H1 & H2); [by rewrite Nat.add_succ_comm|lia|].
    exists es1, es2. cbn. rewrite <- Nat.add_succ_comm. split_and!; [done|by constructor|done].
  - destruct k as [|k];
      [exists [], (decode_single w :: es); rewrite Nat.add_0_r; split_and!; [done|constructor|by constructor]|].
    destruct (IH k) as (es1 & es2 & -> & H1 & H2); [by rewrite Nat.add_succ_comm|lia|].
    exists (decode_single w :: es1), es2. cbn. rewrite <- Nat.add_succ_comm.
    split_and!; [done|by constructor|done].
  - destruct k as [|[|k]].
    + exists [], (decode_double w w2 :: es). rewrite Nat.add_0_r.
      split_and!; [done|constructor|by constructor].
    + exfalso. rewrite Nat.Div0.add_mod, (Nat.mod_small 1) in Hk by lia.
      rewrite Nat.mod_small in Hk by lia. lia.
    + destruct (IH k) as (es1 & es2 & -> & H1 & H2); [|lia|].
      { replace (S (S pos) + k)%nat with (pos + S (S k))%nat by lia. done. }
      exists (decode_double w w2 :: es1), es2. cbn.
      replace (pos + S (S k))%nat with (S (S pos) + k)%nat by lia.
      split_and!; [done|by constructor|done].
Qed.

(** ** [space_map_iterate] runs the callback over the entries *)

Section Iterate.
Context {T : Type} (callback : space_map_entry -> T -> result (T * Z)).

Fixpoint run_entries (sm : space_map) (es : list raw_entry) (arg : T) : result (T * Z) :=
  match es with
  | [] => Ret (arg, 0)
  | d :: es' =>
      sme ← make_entry sm d;
      _ ← check_entry sm sme;
      '(arg, error) ← callback sme arg;
      if error =? 0 then run_entries sm es' arg else Ret (arg, error)
  end.

Lemma run_entries_app sm es1 es2 arg :
  run_entries sm (es1 ++ es2) arg =
    ('(arg, error) ← run_entries sm es1 arg;
     if error =? 0 then run_entries sm es2 arg else Ret (arg, error)).
Proof.
  revert arg. induction es1 as [|d es1 IH]; intros arg; cbn [app run_entries]; [done|].
  destruct (make_entry sm d); [|done]. cbn [mbind result_bind].
  destruct (check_entry sm a); [|done]. cbn [mbind result_bind].
  destruct (callback a arg) as [[arg' err]|]; [|done]. cbn [mbind result_bind].
  destruct (err =? 0) eqn:E; [apply IH|]. cbn [mbind result_bind]. by rewrite E.
Qed.

(** What is neither a debugging entry nor one of one word has two. *)
Lemma double_word e :
  sm_entry_is_debug e = false -> sm_entry_is_single_word e = false -> sm_entry_is_double_word e = true.
Proof.
  unfold sm_entry_is_debug, sm_entry_is_single_word, sm_entry_is_double_word. intros ->. cbn [negb andb].
  apply negb_false_iff.
Qed.

Lemma iterate_block_ok sm blk n : (n <= length blk)%nat -> forall fuel bw pos cursor es arg,
  parses bw pos (drop cursor (take n blk)) es -> (cursor <= n)%nat -> (n - cursor <= fuel)%nat ->
  iterate_block callback fuel sm blk cursor n arg = run_entries sm es arg.
Proof.
  intros Hn. induction fuel as [|fuel IH]; intros bw pos cursor es arg Hp Hc Hf.
  { assert (cursor = n) as -> by lia. rewrite drop_ge in Hp by (rewrite length_take; lia).
    inversion Hp; subst. cbn [iterate_block]. by rewrite Nat.ltb_irrefl. }
  assert (forall k w, drop cursor (take n blk) !! k = Some w ->
    rd blk (cursor + k) = Ret w /\ (cursor + k < n)%nat) as Hrd.
  { intros k w Hk. rewrite lookup_drop in Hk. apply lookup_take_Some in Hk as [Hk ?].
    split; [by apply rd_ok|done]. }
  assert (forall k ws, drop k (drop cursor (take n blk)) = ws -> drop (cursor + k) (take n blk) = ws) as Hdr.
  { intros k ws <-. by rewrite drop_drop. }
  cbn [iterate_block]. destruct (Nat.ltb_spec cursor n) as [Hlt|Hge].
  2: { rewrite drop_ge in Hp by (rewrite length_take; lia). by inversion Hp. }
  remember (drop cursor (take n blk)) as k eqn:Hw.
  destruct Hp as [pos|pos w ws es Hd Hp'|pos w ws es Hd Hs Hp'|pos w w2 ws es Hd Hs Hlt2 Hp'].
  - exfalso. apply (f_equal length) in Hw. rewrite length_drop, length_take in Hw. cbn in Hw. lia.
  - destruct (Hrd 0%nat w eq_refl) as [Hr _].
    rewrite Nat.add_0_r in Hr. rewrite Hr. cbn [mbind result_bind]. rewrite Hd.
    eapply IH; [|lia..]. rewrite <- Nat.add_1_r, (Hdr 1%nat ws eq_refl). exact Hp'.
  - destruct (Hrd 0%nat w eq_refl) as [Hr _].
    rewrite Nat.add_0_r in Hr. rewrite Hr. cbn [mbind result_bind]. rewrite Hd, Hs.
    cbn [mbind result_bind run_entries]. destruct (make_entry sm _); [|done]. cbn [mbind result_bind].
    destruct (check_entry sm a); [|done]. cbn [mbind result_bind].
    destruct (callback a arg) as [[arg' err]|]; [|done]. cbn [mbind result_bind].
    destruct (err =? 0); [|done].
    eapply IH; [|lia..]. rewrite <- Nat.add_1_r, (Hdr 1%nat ws eq_refl). exact Hp'.
  - destruct (Hrd 0%nat w eq_refl) as [Hr _].
    destruct (Hrd 1%nat w2 eq_refl) as [Hr2 Hlt1].
    rewrite Nat.add_0_r in Hr. rewrite Hr. cbn [mbind result_bind]. rewrite Hd, Hs.
    rewrite (double_word w Hd Hs). cbn [verify mbind result_bind].
    rewrite Nat.add_1_r in Hr2. rewrite Hr2. cbn [mbind result_bind].
    destruct (Nat.leb_spec (S cursor) n); [|lia]. cbn [mbind result_bind verify run_entries].
    destruct (make_entry sm _); [|done]. cbn [mbind result_bind].
    destruct (check_entry sm a); [|done]. cbn [mbind result_bind].
    destruct (callback a arg) as [[arg' err]|]; [|done]. cbn [mbind result_bind].
    destruct (err =? 0); [|done].
    eapply IH; [|lia..]. replace (S (S cursor)) with (cursor + 2)%nat by lia.
    rewrite (Hdr 2%nat ws eq_refl). exact Hp'.
Qed.
Lemma block_at_take sm base n :
  (n <= blk_words sm)%nat -> (base + n <= length (sm_words sm))%nat ->
  take n (block_at sm base) = take n (drop base (sm_words sm)).
Proof.
  intros Hn Hle. unfold block_at. rewrite take_take, Nat.min_l by done.
  rewrite drop_app_le, take_app_le by (rewrite ?length_drop; lia). done.
Qed.

Lemma length_block_at sm base :
  (base <= length (sm_words sm))%nat -> length (block_at sm base) = blk_words sm.
Proof.
  intros Hle. unfold block_at. rewrite length_take, length_drop, length_app, length_replicate. lia.
Qed.

Lemma P2PHASE_8 x : P2PHASE (8 * x) 8 = 0.
Proof.
  change 8 with (Z.shiftl 1 3) at 2. rewrite P2PHASE_mod by lia.
  rewrite Z.mul_comm. change (2 ^ 3) with 8. apply Z.mod_mul. lia.
Qed.

Lemma iterate_loop_ok io sm len :
  sm_blksz sm = 8 * Z.of_nat (blk_words sm) -> (2 <= blk_words sm)%nat ->
  (len <= length (sm_words sm))%nat -> (forall b, io b = 0) ->
  forall fuel base es arg, (base mod blk_words sm = 0)%nat ->
  parses (blk_words sm) base (drop base (take len (sm_words sm))) es -> (len - base < fuel)%nat ->
  iterate_loop callback fuel io sm (8 * Z.of_nat len) (8 * Z.of_nat base) arg = run_entries sm es arg.
Proof.
  intros Hblk Hbw Hlen Hio. induction fuel as [|fuel IH]; intros base es arg Hbase Hp Hf; [lia|].
  cbn [iterate_loop]. destruct (Z.ltb_spec (8 * Z.of_nat base) (8 * Z.of_nat len)) as [Hlt|Hge].
  2: { rewrite drop_ge in Hp by (rewrite length_take; lia). by inversion Hp. }
  rewrite Hio. change (0 =? 0) with true. cbn match. rewrite Hblk.
  set (n := Nat.min (len - base) (blk_words sm)).
  replace (Z.min (8 * Z.of_nat len - 8 * Z.of_nat base) (8 * Z.of_nat (blk_words sm)))
    with (8 * Z.of_nat n) by lia.
  rewrite P2PHASE_8. destruct (Z.eqb_spec (8 * Z.of_nat n) 0); [lia|]. cbn [negb verify mbind result_bind Z.eqb].
  rewrite !(Z.mul_comm 8), !Z.div_mul, !Nat2Z.id by lia.
  assert (exists es1 es2, es = es1 ++ es2 /\
    parses (blk_words sm) base (take n (drop base (take len (sm_words sm)))) es1 /\
    parses (blk_words sm) (base + blk_words sm) (drop (base + blk_words sm) (take len (sm_words sm))) es2)
    as (es1 & es2 & -> & H1 & H2).
  { destruct (Nat.le_gt_cases (len - base) (blk_words sm)).
    - exists es, []. rewrite app_nil_r, (take_ge (drop base _) n),
        (drop_ge _ (base + blk_words sm)) by (rewrite ?length_drop, ?length_take; lia).
      split_and!; auto. constructor.
    - destruct (parses_split (blk_words sm) _ _ _ ltac:(lia) Hp (blk_words sm)) as (es1 & es2 & -> & H1 & H2).
      + rewrite Nat.Div0.add_mod, Hbase, Nat.Div0.mod_same. apply Nat.Div0.mod_0_l.
      + rewrite length_drop, length_take. lia.
      + exists es1, es2. rewrite drop_drop in H2. replace n with (blk_words sm) by lia. done. }
  rewrite (iterate_block_ok sm _ n) with (es := es1) (bw := blk_words sm) (pos := base);
    [|rewrite length_block_at; lia| |lia..].
  - rewrite run_entries_app. destruct (run_entries sm es1 arg) as [[arg' err]|]; [|done].
    cbn [mbind result_bind]. destruct (err =? 0); [|done].
    replace (Z.of_nat base * 8 + Z.of_nat (blk_words sm) * 8)
      with (8 * Z.of_nat (base + blk_words sm)) by lia.
    rewrite (Z.mul_comm _ 8). apply IH; [|done|lia].
    rewrite Nat.Div0.add_mod, Hbase, Nat.Div0.mod_same. apply Nat.Div0.mod_0_l.
  - rewrite drop_0, block_at_take by lia.
    rewrite take_drop_commute, take_take, Nat.min_l in H1 by lia. by rewrite take_drop_commute.
Qed.
End Iterate.

(** ** Writing: [space_map_write_seg] *)

(** Consecutive runs of one type from [start] to [stop], in units. *)
Fixpoint seq_runs (t : maptype) (vd start : Z) (es : list raw_entry) (stop : Z) : Prop :=
  match es with
  | [] => start = stop
  | (t', vd', off, run) :: es' =>
      t' = t /\ vd' = vd /\ off = start /\ 1 <= run /\ seq_runs t vd (start + run) es' stop
  end.

Definition geometry (sm : space_map) : Prop :=
  sm_blksz sm = 8 * Z.of_nat (blk_words sm) /\ (2 <= blk_words sm)%nat.

(** The block at word [db] is held, [cursor] words of it are in use, and the
    log up to there has the entries [es]. *)
Definition wstate (sm : space_map) (db cursor : nat) (es : list raw_entry) : Prop :=
  geometry sm /\ smp_objsize sm = 8 * Z.of_nat (db + cursor) /\
  (db mod blk_words sm = 0)%nat /\ (cursor <= blk_words sm)%nat /\
  (db + blk_words sm <= length (sm_words sm))%nat /\
  parses (blk_words sm) 0 (take (db + cursor) (sm_words sm)) es.

Lemma hold_block_spec sm words word :
  let '(db, ws) := hold_block sm words word in
  (2 <= blk_words sm)%nat ->
  (db mod blk_words sm = 0)%nat /\ (db <= word < db + blk_words sm)%nat /\
  (db + blk_words sm <= length ws)%nat /\
  (forall n, (n <= length words)%nat -> take n ws = take n words).
Proof.
  unfold hold_block. intros Hbw. split_and!.
  - apply Nat.Div0.mod_mul.
  - rewrite Nat.mul_comm. apply Nat.Div0.mul_div_le.
  - pose proof (Nat.div_mod_eq word (blk_words sm)). pose proof (Nat.mod_upper_bound word (blk_words sm)).
    lia.
  - rewrite length_app, length_replicate. lia.
  - intros n Hn. by rewrite take_app_le.
Qed.

(** Only the log changes, and what it held stays. *)
Definition same_but_log (sm sm' : space_map) : Prop :=
  exists ws n, sm' = set_log sm ws n /\ smp_objsize sm <= n /\
    forall k, 8 * Z.of_nat k <= smp_objsize sm -> take k ws = take k (sm_words sm).

Lemma same_but_log_refl sm : same_but_log sm sm.
Proof. exists (sm_words sm), (smp_objsize sm). split; [by destruct sm|]. done. Qed.

Lemma same_but_log_trans a b c : same_but_log a b -> same_but_log b c -> same_but_log a c.
Proof.
  intros (ws & n & -> & Hn & Hk) (ws' & n' & -> & Hn' & Hk'). exists ws', n'. cbn in *.
  split_and!; [done|lia|]. intros k H. rewrite Hk' by lia. by apply Hk.
Qed.

(** Words written behind the log. *)
Lemma same_but_log_words sm ws n len :
  smp_objsize sm = 8 * Z.of_nat len -> smp_objsize sm <= n ->
  take len ws = take len (sm_words sm) -> same_but_log sm (set_log sm ws n).
Proof.
  intros Ho Hn Ht. exists ws, n. split_and!; [done..|]. intros k Hk.
  replace k with (k `min` len)%nat by lia. by rewrite <- !take_take, Ht.
Qed.

Lemma next_block sm db cursor es :
  wstate sm db cursor es ->
  let '(sm1, db1, cursor1) :=
    (if (cursor =? blk_words sm)%nat then
       let '(db, ws) := hold_block sm (sm_words sm) (Z.to_nat (smp_objsize sm / 8)) in
       (set_log sm ws (smp_objsize sm), db, 0%nat)
     else (sm, db, cursor)) in
  wstate sm1 db1 cursor1 es /\ (cursor1 < blk_words sm1)%nat /\
  (cursor1 = cursor \/ cursor1 = 0%nat) /\
  (db1 + cursor1 = db + cursor)%nat /\ same_but_log sm sm1 /\ smp_objsize sm1 = smp_objsize sm.
Proof.
  intros (Hg & Hobj & Hdb & Hc & Hlen & Hp). destruct (Nat.eqb_spec cursor (blk_words sm)) as [E|E].
  - pose proof (hold_block_spec sm (sm_words sm) (Z.to_nat (smp_objsize sm / 8))) as Hh.
    destruct (hold_block _ _ _) as [db1 ws]. destruct Hg as [Hblk Hbw].
    destruct (Hh Hbw) as (H1 & H2 & H3 & H4).
    rewrite Hobj, Z.mul_comm, Z.div_mul, Nat2Z.id in H2 by lia.
    assert (db1 = (db + cursor)%nat) as ->.
    { subst cursor. apply Nat.Div0.div_exact in Hdb, H1.
      set (a := (db / blk_words sm)%nat) in *. set (b := (db1 / blk_words sm)%nat) in *.
      assert (b = S a) by nia. nia. }
    unfold wstate. change (blk_words (set_log sm ws (smp_objsize sm))) with (blk_words sm). cbn.
    split_and!; eauto; try done; try lia.
    + rewrite Nat.add_0_r, H4 by lia. done.
    + apply (same_but_log_words sm ws _ (db + cursor)); [done|lia|]. apply H4. lia.
  - split; [done|]. split; [lia|]. split_and!; auto using same_but_log_refl.
Qed.

(** Words written at the cursor. *)
Lemma wstate_append sm db cursor es ws' es' objsize :
  wstate sm db cursor es -> (cursor + length ws' <= blk_words sm)%nat ->
  parses (blk_words sm) (db + cursor) ws' es' ->
  objsize = smp_objsize sm + 8 * Z.of_nat (length ws') ->
  forall words, length words = length (sm_words sm) ->
  take (db + cursor + length ws') words = take (db + cursor) (sm_words sm) ++ ws' ->
  wstate (set_log sm words objsize) db (cursor + length ws') (es ++ es').
Proof.
  intros (Hg & Hobj & Hdb & Hc & Hlen & Hp) Hfit Hp' -> words Hl Ht.
  unfold wstate. change (blk_words (set_log _ _ _)) with (blk_words sm). cbn.
  split_and!; auto; try done; try lia.
  rewrite Nat.add_assoc, Ht. apply parses_app; [done|].
  rewrite length_take, Nat.min_l by lia. done.
Qed.

Section WriteLoop.
Context (t : maptype) (vdev_id words : Z).
Hypothesis Hwords : words = 1 \/ words = 2.

Definition run_max : Z := if words =? 2 then SM2_RUN_MAX else SM_RUN_MAX.
Definition off_max : Z := if words =? 2 then 2 ^ 63 else 2 ^ 47.
Definition entry_vdev : Z := if words =? 2 then vdev_id mod 2 ^ 24 else SM_NO_VDEVID.

Lemma write_entry sm db cursor es start run :
  wstate sm db cursor es -> (cursor < blk_words sm)%nat ->
  ~ (S cursor = blk_words sm /\ words = 2) ->
  0 <= start < off_max -> 1 <= run <= run_max ->
  exists ws n, (if words =? 1 then
       ws ← wr (sm_words sm) (db + cursor) (single_entry start t run); Ret (ws, S cursor)
     else if words =? 2 then
       ws1 ← wr (sm_words sm) (db + cursor) (double_entry1 run vdev_id);
       _ ← verify (S cursor <? blk_words sm)%nat;
       ws2 ← wr ws1 (db + S cursor) (double_entry2 start t);
       Ret (ws2, S (S cursor))
     else Panic) = Ret (ws, (cursor + n)%nat) /\ Z.of_nat n = words /\
    wstate (set_log sm ws (smp_objsize sm + words * 8)) db (cursor + n)
      (es ++ [(t, entry_vdev, start, run)]) /\
    same_but_log sm (set_log sm ws (smp_objsize sm + words * 8)).
Proof.
  intros Hst Hc Hroom Hs Hr. pose proof Hst as (_ & Hob & Hdb & _ & Hlen & _).
  unfold off_max, run_max, entry_vdev in *. rewrite ?SM_RUN_MAX_val, ?SM2_RUN_MAX_val in *.
  destruct Hwords as [-> | ->]; cbn match in *.
  - change (1 =? 2) with false in *. change (1 =? 1) with true. cbn match in *.
    rewrite wr_ok by lia. cbn [mbind result_bind]. eexists _, 1%nat.
    split; [by rewrite Nat.add_1_r|]. split; [done|]. split.
    2: { apply (same_but_log_words _ _ _ _ Hob); [lia|]. by apply take_insert_ge. }
    destruct (single_entry_decode start t run) as (Hd & Hsw & Hdec); [lia..|].
    apply (wstate_append sm db cursor es [single_entry start t run]); auto; cbn [length]; try lia.
    + rewrite <- Hdec. apply parses_single; auto. constructor.
    + by rewrite length_insert.
    + rewrite Nat.add_1_r. apply take_insert_snoc. lia.
  - change (2 =? 2) with true in *. change (2 =? 1) with false. cbn match in *.
    rewrite wr_ok by lia. cbn [mbind result_bind]. rewrite (proj2 (Nat.ltb_lt _ _)) by lia. cbn [verify mbind result_bind].
    rewrite wr_ok by (rewrite length_insert; lia).
    cbn [mbind result_bind]. eexists _, 2%nat.
    split; [do 2 f_equal; lia|]. split; [done|]. split.
    2: { apply (same_but_log_words _ _ _ _ Hob); [lia|]. by rewrite !take_insert_ge by lia. }
    destruct (double_entry_decode start t run vdev_id) as (Hd & Hsw & _ & Hdec); [lia..|].
    apply (wstate_append sm db cursor es [double_entry1 run vdev_id; double_entry2 start t]);
      auto; cbn [length]; try lia.
    + rewrite <- Hdec. apply parses_double; auto; [|constructor].
      rewrite Nat.Div0.add_mod, Hdb, Nat.add_0_l, Nat.Div0.mod_mod, Nat.mod_small by lia. lia.
    + by rewrite !length_insert.
    + replace (db + cursor + 2)%nat with (S (db + S cursor)) by lia.
      rewrite take_insert_snoc by (rewrite length_insert; lia).
      replace (db + S cursor)%nat with (S (db + cursor)) by lia.
      rewrite take_insert_snoc by lia. by rewrite <- app_assoc.
Qed.
Lemma run_max_pos : 1 <= run_max.
Proof. unfold run_max. rewrite SM_RUN_MAX_val, SM2_RUN_MAX_val. destruct (words =? 2); lia. Qed.

(** Every entry of the run starts where its offset can be encoded. *)
Definition room (start size : Z) : Prop :=
  0 < size -> start < off_max /\ (run_max < size -> start + size <= off_max).

Lemma maxima : off_max <= 2 ^ 63 /\ run_max <= 2 ^ 36.
Proof.
  unfold off_max, run_max. rewrite SM_RUN_MAX_val, SM2_RUN_MAX_val. destruct (words =? 2); lia.
Qed.

(** The block held for the next entry. *)
Definition held (sm : space_map) (db cursor : nat) : space_map * nat * nat :=
  if (cursor =? blk_words sm)%nat then
    let '(db, ws) := hold_block sm (sm_words sm) (Z.to_nat (smp_objsize sm / 8)) in
    (set_log sm ws (smp_objsize sm), db, 0%nat)
  else (sm, db, cursor).

Lemma wstate_cursor sm db cursor es : wstate sm db cursor es -> (cursor <=? blk_words sm)%nat = true.
Proof using. intros (_ & _ & _ & Hc & _). by apply Nat.leb_le. Qed.

(** An entry for which there is room in the block. *)
Lemma write_now fuel sm db cursor es start size :
  wstate sm db cursor es -> 0 < size -> 0 <= start -> room start size ->
  size < 2 ^ 64 -> smp_objsize sm + 16 < 2 ^ 64 ->
  let '(sm1, db1, cursor1) := held sm db cursor in
  ~ (S cursor1 = blk_words sm1 /\ words = 2) ->
  exists sm' cursor',
    write_loop (S fuel) sm t vdev_id words db cursor start size =
      write_loop fuel sm' t vdev_id words db1 cursor'
        (start + Z.min size run_max) (size - Z.min size run_max) /\
    wstate sm' db1 cursor' (es ++ [(t, entry_vdev, start, Z.min size run_max)]) /\
    same_but_log sm sm' /\ smp_objsize sm' <= smp_objsize sm + 16.
Proof.
  intros Hst Hsz Hs Hend H64 Hobj. pose proof run_max_pos as Hrm.
  pose proof maxima as [Hom Hrm']. destruct (Hend Hsz) as [Hstart _].
  pose proof (next_block sm db cursor es Hst) as Hnb. unfold held. cbn [write_loop].
  rewrite (wstate_cursor _ _ _ _ Hst). cbn [verify mbind result_bind].
  destruct (if (cursor =? blk_words sm)%nat then _ else _) as [[sm1 db1] cursor1].
  destruct Hnb as (Hst1 & Hc1 & _ & _ & Hsm1 & Ho). intros Hroom.
  destruct (Z.eqb_spec size 0) as [|_]; [lia|].
  destruct (write_entry sm1 db1 cursor1 es start (Z.min size run_max))
    as (ws & n & Heq & Hn & Hst2 & Hsame2); auto; [lia..|].
  assert ((S cursor1 =? blk_words sm1)%nat && (1 <? words) = false) as ->.
  { destruct (Nat.eqb_spec (S cursor1) (blk_words sm1)), (Z.ltb_spec 1 words); cbn; auto.
    exfalso. apply Hroom. split; [done|]. lia. }
  unfold run_max in Heq. rewrite Heq. cbn [mbind result_bind].
  assert (0 <= smp_objsize sm1) by (destruct Hst1 as (_ & -> & _); lia).
  fold run_max. rewrite !add64_small, sub64_small by (unfold u64; lia).
  eexists _, _. split; [done|]. split; [exact Hst2|]. split; [|cbn; lia].
  by eapply same_but_log_trans.
Qed.

(** The padding of the last word of a block. *)
Lemma pad_wstate sm db cursor es :
  wstate sm db cursor es -> S cursor = blk_words sm -> smp_objsize sm + 8 < 2 ^ 64 ->
  wr (sm_words sm) (db + cursor) pad_entry = Ret (<[(db + cursor)%nat := pad_entry]> (sm_words sm)) /\
  wstate (set_log sm (<[(db + cursor)%nat := pad_entry]> (sm_words sm)) (smp_objsize sm + 8))
    db (S cursor) es.
Proof.
  intros Hst Hpad Hobj. pose proof Hst as (_ & _ & _ & _ & Hlen & _).
  split; [apply wr_ok; lia|]. rewrite <- (app_nil_r es), <- Nat.add_1_r.
  apply (wstate_append sm db cursor es [pad_entry]); auto; cbn [length]; try lia.
  - apply parses_debug; [apply pad_entry_debug|constructor].
  - by rewrite length_insert.
  - rewrite Nat.add_1_r. apply take_insert_snoc. lia.
Qed.

(** One entry, with the padding before it if it needs one. *)
Lemma write_step sm db cursor es start size fuel :
  wstate sm db cursor es -> 0 < size -> 0 <= start -> room start size ->
  size < 2 ^ 64 -> smp_objsize sm + 24 < 2 ^ 64 ->
  exists sm' db' cursor' fuel', (fuel <= fuel')%nat /\
    write_loop (S (S fuel)) sm t vdev_id words db cursor start size =
      write_loop fuel' sm' t vdev_id words db' cursor'
        (start + Z.min size run_max) (size - Z.min size run_max) /\
    wstate sm' db' cursor' (es ++ [(t, entry_vdev, start, Z.min size run_max)]) /\
    same_but_log sm sm' /\ smp_objsize sm' <= smp_objsize sm + 24.
Proof.
  intros Hst Hsz Hs Hend H64 Hobj.
  pose proof (next_block sm db cursor es Hst) as Hnb. fold (held sm db cursor) in Hnb.
  pose proof (write_now (S fuel) sm db cursor es start size Hst Hsz Hs Hend H64 ltac:(lia)) as Hgo.
  destruct (held sm db cursor) as [[sm1 db1] cursor1] eqn:E.
  destruct Hnb as (Hst1 & Hc1 & Hcc & _ & Hsm1 & Ho).
  destruct (decide (S cursor1 = blk_words sm1 /\ words = 2)) as [[Hpad Hw2]|Hroom].
  2: { destruct (Hgo Hroom) as (sm' & cursor' & Heq & Hst' & Hsame & Ho').
       exists sm', db1, cursor', (S fuel). split_and!; auto; lia. }
  clear Hgo.
  destruct (pad_wstate sm1 db1 cursor1 es Hst1 Hpad ltac:(lia)) as [Hwr Hst2].
  set (sm2 := set_log sm1 _ _) in Hst2.
  pose proof (write_now fuel sm2 db1 (S cursor1) es start size Hst2 Hsz Hs Hend H64) as Hentry.
  unfold held in Hentry. change (blk_words sm2) with (blk_words sm1) in Hentry.
  rewrite (proj2 (Nat.eqb_eq _ _) Hpad) in Hentry.
  destruct (hold_block sm2 _ _) as [db3 ws3]. pose proof Hst1 as ([_ Hbw] & Hobj1 & _).
  destruct Hentry as (sm' & cursor' & Heq & Hst' & Hsame & Ho').
  { cbn. lia. }
  { change (blk_words (set_log sm2 ws3 (smp_objsize sm2))) with (blk_words sm1). lia. }
  exists sm', db3, cursor', fuel. split; [done|]. split.
  { rewrite <- Heq. remember (S fuel) as f1 eqn:Ef1. cbn [write_loop].
    rewrite (wstate_cursor _ _ _ _ Hst). cbn [verify mbind result_bind]. fold (held sm db cursor). rewrite E. destruct (Z.eqb_spec size 0) as [|_]; [lia|].
    rewrite (proj2 (Nat.eqb_eq _ _) Hpad), (proj2 (Z.ltb_lt 1 words)) by lia. cbn [andb].
    rewrite (proj2 (Z.eqb_eq words 2) Hw2). cbn [verify mbind result_bind]. rewrite Hwr. cbn [mbind result_bind]. by rewrite add64_small by (unfold u64; lia). }
  split; [exact Hst'|]. split; [|cbn in Ho'; lia].
  eapply same_but_log_trans; [|exact Hsame]. eapply same_but_log_trans; [exact Hsm1|].
  apply (same_but_log_words _ _ _ _ Hobj1); [lia|]. by apply take_insert_ge.
Qed.

Lemma write_loop_ok : forall (n : nat) fuel sm db cursor es start size,
  wstate sm db cursor es -> 0 <= size -> 0 <= start -> room start size ->
  size <= Z.of_nat n * run_max -> (2 * n <= fuel)%nat -> size < 2 ^ 64 ->
  smp_objsize sm + 24 * Z.of_nat n < 2 ^ 64 ->
  exists sm' db' cursor' es', write_loop fuel sm t vdev_id words db cursor start size = Ret (sm', db') /\
    wstate sm' db' cursor' (es ++ es') /\ seq_runs t entry_vdev start es' (start + size) /\
    same_but_log sm sm' /\ smp_objsize sm' <= smp_objsize sm + 24 * Z.of_nat n.
Proof.
  pose proof run_max_pos as Hrm.
  induction n as [|n IH]; intros fuel sm db cursor es start size Hst Hsz Hs Hend Hn Hf H64 Hobj.
  all: destruct (Z.eq_dec size 0) as [->|Hne]; [|try lia].
  1, 2: exists sm, db, cursor, []; rewrite app_nil_r; destruct fuel; cbn [write_loop Z.eqb];
    split_and!; auto using same_but_log_refl; try (cbn; lia).
  destruct fuel as [|[|fuel]]; [lia..|].
  destruct (write_step sm db cursor es start size fuel)
    as (sm1 & db1 & c1 & f1 & Hf1 & -> & Hst1 & Hsame1 & Ho1); auto; [lia..|].
  destruct (IH f1 sm1 db1 c1 _ (start + Z.min size run_max) (size - Z.min size run_max) Hst1)
    as (sm' & db' & c' & es' & -> & Hst' & Hruns & Hsame & Ho); try lia.
  { unfold room in *. lia. }
  exists sm', db', c', ((t, entry_vdev, start, Z.min size run_max) :: es').
  rewrite <- app_assoc in Hst'. split_and!; auto.
  - cbn. split_and!; auto; [lia|].
    replace (start + Z.min size run_max + (size - Z.min size run_max)) with (start + size) in Hruns by lia.
    done.
  - by eapply same_but_log_trans.
  - lia.
Qed.
End WriteLoop.

(** ** The set a log stands for *)

(** The space the map is about. *)
Definition span_ok (sm : space_map) : Prop :=
  1 <= sm_shift sm < 64 /\ 0 <= sm_start sm /\ 0 < sm_size sm < 2 ^ 63 /\
  sm_start sm + sm_size sm < 2 ^ 64 /\ sm_start sm mod 2 ^ sm_shift sm = 0.

(** The bytes of a run of units. *)
Definition span (sm : space_map) (off run x : Z) : Prop :=
  sm_start sm + off * 2 ^ sm_shift sm <= x < sm_start sm + (off + run) * 2 ^ sm_shift sm.

Definition run_ok (sm : space_map) (off run : Z) : Prop :=
  0 <= off /\ 1 <= run /\ (off + run) * 2 ^ sm_shift sm <= sm_size sm.

(** From the allocated set [X] of [n] bytes the entries lead to [Y] of [m]
    bytes: nothing is allocated twice, nothing free is freed. *)
Inductive replay (sm : space_map) : list raw_entry -> (Z -> Prop) -> Z -> (Z -> Prop) -> Z -> Prop :=
| replay_nil X Y n : (forall x, X x <-> Y x) -> replay sm [] X n Y n
| replay_alloc vd off run es X n Y m :
    run_ok sm off run -> (forall x, span sm off run x -> ~ X x) ->
    replay sm es (fun x => X x \/ span sm off run x) (n + run * 2 ^ sm_shift sm) Y m ->
    replay sm ((SM_ALLOC, vd, off, run) :: es) X n Y m
| replay_free vd off run es X n Y m :
    run_ok sm off run -> (forall x, span sm off run x -> X x) ->
    replay sm es (fun x => X x /\ ~ span sm off run x) (n - run * 2 ^ sm_shift sm) Y m ->
    replay sm ((SM_FREE, vd, off, run) :: es) X n Y m.

Definition in_map (sm : space_map) (x : Z) : Prop := sm_start sm <= x < sm_start sm + sm_size sm.

Lemma shift_pos sm : span_ok sm -> 0 < 2 ^ sm_shift sm.
Proof. intros (H & _). apply Z.pow_pos_nonneg; lia. Qed.

Lemma span_in_map sm off run x :
  span_ok sm -> run_ok sm off run -> span sm off run x -> in_map sm x.
Proof.
  intros Hs (H1 & H2 & H3). pose proof (shift_pos sm Hs). unfold span, in_map. nia.
Qed.

Lemma make_entry_ok sm t vd off run :
  span_ok sm -> run_ok sm off run ->
  make_entry sm (t, vd, off, run) =
    Ret (SpaceMapEntry t vd (sm_start sm + off * 2 ^ sm_shift sm) (run * 2 ^ sm_shift sm)).
Proof.
  intros Hs (H1 & H2 & H3). pose proof (shift_pos sm Hs) as Hp. pose proof Hs as (Hsh & Hst & Hsz & Hend & Hal).
  unfold make_entry. rewrite (Z.shiftl_mul_pow2 off), (Z.shiftl_mul_pow2 run) by lia.
  set (u := 2 ^ sm_shift sm) in *.
  assert (0 <= off * u /\ 0 <= run * u /\ off * u + run * u <= sm_size sm) by nia.
  rewrite (wrap64_small (off * u)), (wrap64_small (run * u)), add64_small by (unfold u64; lia).
  rewrite !P2PHASE_mod by lia. fold u.
  replace ((off * u + sm_start sm) mod u) with 0
    by (by rewrite Z.add_comm, Z.mod_add, Hal by lia).
  rewrite Z.mod_mul by lia. cbn. by rewrite (Z.add_comm (off * u)).
Qed.

Lemma check_entry_ok sm t vd off run :
  span_ok sm -> run_ok sm off run ->
  check_entry sm (SpaceMapEntry t vd (sm_start sm + off * 2 ^ sm_shift sm) (run * 2 ^ sm_shift sm)) = Ret tt.
Proof.
  intros Hs (H1 & H2 & H3). pose proof (shift_pos sm Hs) as Hp. pose proof Hs as (Hsh & Hst & Hsz & Hend & Hal).
  unfold check_entry. cbn [sme_offset sme_run]. set (u := 2 ^ sm_shift sm) in *.
  assert (0 <= off * u /\ 0 < run * u /\ off * u + run * u <= sm_size sm) by nia.
  rewrite !add64_small by (unfold u64; lia). rewrite (proj2 (Z.leb_le _ _)) by lia. cbn [verify mbind result_bind].
  rewrite (proj2 (Z.ltb_lt _ _)) by lia. cbn [verify mbind result_bind].
  rewrite !(proj2 (Z.leb_le _ _)) by lia. done.
Qed.

(** ** [space_map_load] *)

Section Load.
Context {S : Type} (I : list range_seg -> S -> Prop) (zfs_recover : bool) (sm : space_map).
Hypothesis Hsm : span_ok sm.
Implicit Types (rt : range_tree S).

(** What loading with [t] makes of the allocated set. *)
Definition wanted (t : maptype) (X : Z -> Prop) (x : Z) : Prop :=
  match t with SM_ALLOC => X x | SM_FREE => in_map sm x /\ ~ X x end.

Definition loaded (ops : option (range_tree_ops S)) (t : maptype) (X : Z -> Prop) (n : Z) rt : Prop :=
  rt_wf I rt /\ (forall x, rt_mem rt x <-> wanted t X x) /\
  rt_space rt = match t with SM_ALLOC => n | SM_FREE => sm_size sm - n end /\ rt_ops rt = ops.

Lemma load_add rt off run :
  rt_wf I rt -> run_ok sm off run -> (forall x, rt_mem rt x -> in_map sm x) ->
  (forall x, span sm off run x -> ~ rt_mem rt x) ->
  exists rt', (_ ← verify (add64 (rt_space rt) (run * 2 ^ sm_shift sm) <=? sm_size sm);
    range_tree_add zfs_recover rt (sm_start sm + off * 2 ^ sm_shift sm) (run * 2 ^ sm_shift sm)) = Ret rt' /\
    rt_wf I rt' /\ (forall x, rt_mem rt' x <-> rt_mem rt x \/ span sm off run x) /\
    rt_space rt' = rt_space rt + run * 2 ^ sm_shift sm /\ rt_ops rt' = rt_ops rt.
Proof.
  intros Hwf Hrun Hin Hdis. pose proof (shift_pos sm Hsm) as Hp. pose proof Hsm as (Hsh & Hst & Hsz & Hend & Hal).
  pose proof Hrun as (H1 & H2 & H3). unfold span in *. set (u := 2 ^ sm_shift sm) in *.
  destruct (add_ok I zfs_recover rt (sm_start sm + off * u) (run * u))
    as (rt' & Hadd & Hwf' & Hm & Hsp & Hop); auto; try nia.
  { intros x Hx. apply Hdis. lia. }
  assert (rt_space rt' <= sm_start sm + sm_size sm - sm_start sm) as Hle.
  { apply (space_bound I); [done|lia|]. intros x. rewrite Hm. intros [Hx|Hx]; [by apply Hin|nia]. }
  pose proof Hwf as (_ & Hs & Htot & _). pose proof (total_nonneg _ (proj2 Hs)).
  rewrite add64_small by (unfold u64; nia).
  destruct (Z.leb_spec (rt_space rt + run * u) (sm_size sm)); [|lia]. cbn.
  exists rt'. split_and!; auto. intros x. rewrite Hm.
  replace (sm_start sm + (off + run) * u) with (sm_start sm + off * u + run * u) by lia. done.
Qed.

Lemma load_remove rt off run :
  rt_wf I rt -> run_ok sm off run -> (forall x, span sm off run x -> rt_mem rt x) ->
  exists rt',
    range_tree_remove zfs_recover rt (sm_start sm + off * 2 ^ sm_shift sm) (run * 2 ^ sm_shift sm) = Ret rt' /\
    rt_wf I rt' /\ (forall x, rt_mem rt' x <-> rt_mem rt x /\ ~ span sm off run x) /\
    rt_space rt' = rt_space rt - run * 2 ^ sm_shift sm /\ rt_ops rt' = rt_ops rt.
Proof.
  intros Hwf Hrun Hin. pose proof (shift_pos sm Hsm) as Hp. pose proof Hsm as (Hsh & Hst & Hsz & Hend & Hal).
  pose proof Hrun as (H1 & H2 & H3). unfold span in *. set (u := 2 ^ sm_shift sm) in *.
  destruct (remove_ok I zfs_recover rt (sm_start sm + off * u) (run * u))
    as (rt' & Hadd & Hwf' & Hm & Hsp & Hop); auto; try nia.
  { intros x Hx. apply Hin. lia. }
  exists rt'. split_and!; auto. intros x. rewrite Hm.
  replace (sm_start sm + (off + run) * u) with (sm_start sm + off * u + run * u) by lia. done.
Qed.
(** The callback on one entry that adds to, or removes from, the tree. *)
Lemma load_callback_add t sme rt rt' :
  sme_type sme = t ->
  (_ ← verify (add64 (rt_space rt) (sme_run sme) <=? sm_size sm);
   range_tree_add zfs_recover rt (sme_offset sme) (sme_run sme)) = Ret rt' ->
  space_map_load_callback zfs_recover sm t sme rt = Ret (rt', 0).
Proof.
  intros Ht H. unfold space_map_load_callback. rewrite decide_True by done. by rewrite H.
Qed.

Lemma load_callback_remove t sme rt rt' :
  sme_type sme <> t ->
  range_tree_remove zfs_recover rt (sme_offset sme) (sme_run sme) = Ret rt' ->
  space_map_load_callback zfs_recover sm t sme rt = Ret (rt', 0).
Proof.
  intros Ht H. unfold space_map_load_callback. rewrite decide_False by done. by rewrite H.
Qed.

Lemma run_entries_load ops t es X n Y m :
  replay sm es X n Y m -> forall rt, (forall x, X x -> in_map sm x) -> loaded ops t X n rt ->
  exists rt', run_entries (space_map_load_callback zfs_recover sm t) sm es rt = Ret (rt', 0) /\
    loaded ops t Y m rt' /\ forall x, Y x -> in_map sm x.
Proof.
  induction 1 as [X Y n HXY|vd off run es X n Y m Hrun Hdis _ IH|vd off run es X n Y m Hrun Hdis _ IH];
    intros rt HX (Hwf & Hm & Hsp & Hop).
  { exists rt. cbn. split; [done|]. split; [|intros x Hx; apply HX, HXY, Hx].
    split_and!; auto. intros x. rewrite Hm. unfold wanted. destruct t; by rewrite HXY. }
  all: cbn [run_entries]; rewrite make_entry_ok by done; cbn [mbind result_bind].
  all: rewrite check_entry_ok by done; cbn [mbind result_bind].
  all: pose proof (span_in_map sm off run) as Hspan.
  - assert (exists rt', space_map_load_callback zfs_recover sm t (SpaceMapEntry SM_ALLOC vd
        (sm_start sm + off * 2 ^ sm_shift sm) (run * 2 ^ sm_shift sm)) rt = Ret (rt', 0) /\
      loaded ops t (fun x => X x \/ span sm off run x) (n + run * 2 ^ sm_shift sm) rt')
      as (rt' & -> & Hl).
    { destruct t; cbn [wanted] in Hm.
      - destruct (load_add rt off run) as (rt' & Heq & Hwf' & Hm' & Hsp' & Hop'); auto.
        { intros x. rewrite Hm. apply HX. }
        { intros x Hx. rewrite Hm. by apply Hdis. }
        exists rt'. split; [by apply load_callback_add|]. split_and!; auto; [|lia|congruence].
        intros x. rewrite Hm', Hm. done.
      - destruct (load_remove rt off run) as (rt' & Heq & Hwf' & Hm' & Hsp' & Hop'); auto.
        { intros x Hx. rewrite Hm. auto. }
        exists rt'. split; [by apply load_callback_remove|]. split_and!; auto; [|lia|congruence].
        intros x. rewrite Hm', Hm. cbn. tauto. }
    cbn [mbind result_bind Z.eqb]. apply IH; [|done]. intros x [Hx|Hx]; auto.
  - assert (exists rt', space_map_load_callback zfs_recover sm t (SpaceMapEntry SM_FREE vd
        (sm_start sm + off * 2 ^ sm_shift sm) (run * 2 ^ sm_shift sm)) rt = Ret (rt', 0) /\
      loaded ops t (fun x => X x /\ ~ span sm off run x) (n - run * 2 ^ sm_shift sm) rt')
      as (rt' & -> & Hl).
    { destruct t; cbn [wanted] in Hm.
      - destruct (load_remove rt off run) as (rt' & Heq & Hwf' & Hm' & Hsp' & Hop'); auto.
        { intros x Hx. rewrite Hm. auto. }
        exists rt'. split; [by apply load_callback_remove|]. split_and!; auto; [|lia|congruence].
        intros x. rewrite Hm', Hm. done.
      - destruct (load_add rt off run) as (rt' & Heq & Hwf' & Hm' & Hsp' & Hop'); auto.
        { intros x. rewrite Hm. tauto. }
        { intros x Hx. rewrite Hm. specialize (Hdis x Hx). tauto. }
        exists rt'. split; [by apply load_callback_add|]. split_and!; auto; [|lia|congruence].
        intros x. rewrite Hm', Hm. cbn. specialize (Hspan x Hsm Hrun). specialize (Hdis x).
        unfold span. destruct (decide (sm_start sm + off * 2 ^ sm_shift sm <= x <
          sm_start sm + (off + run) * 2 ^ sm_shift sm)); unfold span in *; tauto. }
    cbn [mbind result_bind Z.eqb]. apply IH; [|done]. intros x [Hx _]; auto.
Qed.
End Load.

(** The log of [sm], up to what has been written, stands for the allocated set
    [X], and the allocated space is right. *)
Definition log_repr (sm : space_map) (X : Z -> Prop) : Prop :=
  geometry sm /\ span_ok sm /\ 0 <= smp_objsize sm < 2 ^ 64 /\
  exists es len, smp_objsize sm = 8 * Z.of_nat len /\ (len <= length (sm_words sm))%nat /\
    parses (blk_words sm) 0 (take len (sm_words sm)) es /\
    replay sm es (fun _ => False) 0 X (smp_alloc sm).

(** What is written is synced. *)
Definition synced (sm : space_map) : Prop :=
  sm_length sm = smp_objsize sm /\ sm_alloc sm = smp_alloc sm.

(** Maps of the same space. *)
Definition same_span (sm sm' : space_map) : Prop :=
  sm_start sm' = sm_start sm /\ sm_size sm' = sm_size sm /\ sm_shift sm' = sm_shift sm.

Lemma replay_same_span sm sm' es X n Y m :
  same_span sm sm' -> replay sm es X n Y m -> replay sm' es X n Y m.
Proof.
  intros (H1 & H2 & H3). induction 1 as [X Y n HXY|vd off run es X n Y m Hrun Hdis _ IH|vd off run es X n Y m Hrun Hdis _ IH];
    constructor; auto; unfold run_ok, span in *; rewrite ?H1, ?H2, ?H3 in *; auto.
Qed.

(** The synced part of the log. *)
Definition rollback (sm : space_map) : space_map :=
  set_alloc (set_log sm (sm_words sm) (sm_length sm)) (sm_alloc sm).

Lemma load_ok {S} (I : list range_seg -> S -> Prop) zfs_recover io sm
    (rt : range_tree S) t X :
  log_repr (rollback sm) X -> rt_wf I rt -> rt_space rt = 0 -> (forall b, io b = 0) ->
  exists rt', space_map_load zfs_recover io sm rt t = Ret (rt', 0) /\ rt_wf I rt' /\
    (forall x, rt_mem rt' x <-> wanted sm t X x) /\ rt_ops rt' = rt_ops rt.
Proof.
  intros (Hg & Hsm & Hobj & es & len & Hsl & Hle & Hp & Hrep) Hwf Hz Hio.
  change (smp_objsize (rollback sm)) with (sm_length sm) in Hsl.
  change (smp_alloc (rollback sm)) with (sm_alloc sm) in Hrep.
  change (blk_words (rollback sm)) with (blk_words sm) in Hp. change (sm_words (rollback sm)) with (sm_words sm) in Hle, Hp.
  change (span_ok sm) in Hsm. change (geometry sm) in Hg.
  apply (replay_same_span _ sm) in Hrep; [|done].
  assert (forall x, ~ rt_mem rt x) as Hempty.
  { intros x. pose proof Hwf as (_ & Hs & Ht & _). unfold rt_mem.
    destruct (segs rt) as [|rs L]; [rewrite covers_nil; tauto|]. exfalso.
    apply segs_ok_cons in Hs as (Hrs & HL & _). cbn in Ht. pose proof (total_nonneg _ (proj2 HL)).
    unfold seg_ok in Hrs. lia. }
  assert (exists rt1 space, match t with
     | SM_FREE =>
         rt ← range_tree_add zfs_recover rt (sm_start sm) (sm_size sm);
         Ret (rt, sub64 (sm_size sm) (wrap64 (sm_alloc sm)))
     | SM_ALLOC => Ret (rt, wrap64 (sm_alloc sm))
     end = Ret (rt1, space) /\ loaded I sm (rt_ops rt) t (fun _ => False) 0 rt1 /\
     space = match t with SM_ALLOC => wrap64 (sm_alloc sm)
                        | SM_FREE => sub64 (sm_size sm) (wrap64 (sm_alloc sm)) end)
    as (rt1 & space & Hinit & Hl1 & Hspace).
  { destruct t; [eexists _, _; split; [done|]; split; [|done];
                 split_and!; auto; intros x; specialize (Hempty x); cbn; tauto|].
    pose proof Hsm as (_ & H1 & H2 & H3 & _).
    destruct (add_ok I zfs_recover rt (sm_start sm) (sm_size sm)) as (rt1 & -> & Hwf1 & Hm & Hsp & Hop); auto; [lia|].
    eexists _, _. split; [done|]. split; [|done]. split_and!; auto; [|lia].
    intros x. rewrite Hm. specialize (Hempty x). cbn. unfold in_map. tauto. }
  unfold space_map_load. rewrite Hz. cbn [verify mbind result_bind Z.eqb]. rewrite Hinit.
  cbn [mbind result_bind]. unfold space_map_iterate. rewrite Hsl.
  assert (negb (sm_blksz sm =? 0) = true) as -> by (apply negb_true_iff, Z.eqb_neq; destruct Hg; lia).
  cbn [verify mbind result_bind].
  destruct (run_entries_load I zfs_recover sm Hsm (rt_ops rt) t es _ _ _ _ Hrep rt1) as (rt2 & Hrun & (Hwf2 & Hm2 & Hsp2 & Hop2) & _);
    auto; [tauto|]. destruct Hg as [Hblk Hbw].
  change 0 with (8 * Z.of_nat 0) at 3.
  rewrite (iterate_loop_ok _ io sm len Hblk Hbw Hle Hio _ 0 es); [|apply Nat.Div0.mod_0_l|by rewrite drop_0|].
  2: { rewrite Z.mul_comm, Z.div_mul by lia. lia. }
  rewrite Hrun. cbn [mbind result_bind Z.eqb].
  exists rt2. split; [|by split_and!].
  assert (rt_space rt2 = space) as ->; [|by rewrite Z.eqb_refl].
  pose proof Hwf2 as (_ & Hs2 & Ht2 & _). pose proof (total_u64 _ (proj1 (conj Hs2 Hs2))) as Hu.
  rewrite <- Ht2 in Hu. rewrite Hspace, Hsp2. destruct t.
  - rewrite Hsp2 in Hu. by rewrite wrap64_small.
  - rewrite Hsp2 in Hu. unfold sub64, wrap64. rewrite Zminus_mod_idemp_r.
    symmetry. apply Z.mod_small. exact Hu.
Qed.

(** C28: loading a space map gives exactly the set its log stands for.  From an
    empty range tree, [space_map_load] with [SM_ALLOC] returns 0 and a tree of
    the allocated offsets, and with [SM_FREE] one of the offsets of the map
    that are not allocated; none of the [VERIFY]s on the way fails. *)
Theorem space_map_load_correct {S} (I : list range_seg -> S -> Prop) zfs_recover io sm
    (rt : range_tree S) t X :
  log_repr sm X -> synced sm -> rt_wf I rt -> rt_space rt = 0 -> (forall b, io b = 0) ->
  exists rt', space_map_load zfs_recover io sm rt t = Ret (rt', 0) /\ rt_wf I rt' /\
    forall x, rt_mem rt' x <-> wanted sm t X x.
Proof.
  intros Hl [Hsl Hsa] Hwf Hz Hio.
  destruct (load_ok I zfs_recover io sm rt t X) as (rt' & -> & Hwf' & Hm & _); auto; [|by exists rt'].
  unfold rollback. rewrite Hsl, Hsa. by destruct sm.
Qed.

(** ** [space_map_write] *)

(** The segment lies in the map and is made of whole units. *)
Definition seg_in (sm : space_map) (rs : range_seg) : Prop :=
  sm_start sm <= rs_start rs < rs_end rs /\ rs_end rs <= sm_start sm + sm_size sm /\
  (rs_start rs - sm_start sm) mod 2 ^ sm_shift sm = 0 /\
  (rs_end rs - rs_start rs) mod 2 ^ sm_shift sm = 0.

(** One-word entries reach the whole map, unless there are two-word entries. *)
Definition reachable (v2 : bool) (sm : space_map) : Prop :=
  v2 = true \/ sm_size sm <= 2 ^ 47 * 2 ^ sm_shift sm.

Definition seg_off (sm : space_map) (rs : range_seg) : Z := (rs_start rs - sm_start sm) / 2 ^ sm_shift sm.
Definition seg_units (sm : space_map) (rs : range_seg) : Z := (rs_end rs - rs_start rs) / 2 ^ sm_shift sm.

Lemma seg_in_units sm rs :
  span_ok sm -> seg_in sm rs ->
  0 <= seg_off sm rs /\ 1 <= seg_units sm rs /\
  rs_start rs = sm_start sm + seg_off sm rs * 2 ^ sm_shift sm /\
  rs_end rs = sm_start sm + (seg_off sm rs + seg_units sm rs) * 2 ^ sm_shift sm /\
  run_ok sm (seg_off sm rs) (seg_units sm rs).
Proof.
  intros Hsm (H1 & H2 & H3 & H4). pose proof (shift_pos sm Hsm) as Hp.
  unfold run_ok, seg_off, seg_units. set (u := 2 ^ sm_shift sm) in *.
  pose proof (Z.div_mod (rs_start rs - sm_start sm) u ltac:(lia)).
  pose proof (Z.div_mod (rs_end rs - rs_start rs) u ltac:(lia)).
  set (a := (rs_start rs - sm_start sm) / u) in *. set (b := (rs_end rs - rs_start rs) / u) in *.
  split_and!; nia.
Qed.

Lemma seg_words_cases v2 force sm vdev rs :
  seg_words v2 force sm vdev rs = 1 \/ seg_words v2 force sm vdev rs = 2.
Proof. unfold seg_words. destruct (_ && _); auto. Qed.

(** The ids that can be written: none without two-word entries. *)
Definition vdev_ok (v2 : bool) (vdev : Z) : Prop :=
  0 <= vdev <= SM_NO_VDEVID /\ (v2 = false -> vdev = SM_NO_VDEVID).

Lemma seg_words_vdev v2 force sm vdev rs :
  vdev_ok v2 vdev ->
  negb (seg_words v2 force sm vdev rs =? 1) || (vdev =? SM_NO_VDEVID) = true.
Proof.
  intros [_ Hv]. destruct (Z.eqb_spec vdev SM_NO_VDEVID) as [E|E]; [by rewrite orb_true_r|].
  destruct v2; [|by specialize (Hv eq_refl)]. unfold seg_words. rewrite (proj2 (Z.eqb_neq _ _) E).
  cbn [negb]. by rewrite orb_true_r.
Qed.

Lemma seg_room v2 force sm vdev rs :
  span_ok sm -> seg_in sm rs -> reachable v2 sm ->
  room (seg_words v2 force sm vdev rs) (seg_off sm rs) (seg_units sm rs).
Proof.
  intros Hsm Hin Hreach. pose proof (seg_in_units sm rs Hsm Hin) as (H1 & H2 & H3 & H4 & (_ & _ & H5)).
  pose proof Hsm as (Hsh & Hst & Hsz & Hend & _). pose proof (shift_pos sm Hsm) as Hp.
  assert (2 <= 2 ^ sm_shift sm) as Hu.
  { change 2 with (2 ^ 1) at 1. apply Z.pow_le_mono_r; lia. }
  assert (seg_off sm rs + seg_units sm rs <= 2 ^ 63) as Hbig by nia.
  unfold room, off_max, run_max, seg_words. rewrite SM_RUN_MAX_val, SM2_RUN_MAX_val.
  rewrite !sub64_small, !Z.shiftr_div_pow2 by (unfold u64; destruct Hin; lia).
  fold (seg_off sm rs) (seg_units sm rs). change (Z.shiftl 1 SM_OFFSET_BITS) with (2 ^ 47).
  destruct (v2 && _) eqn:E; cbn; [lia|]. intros _.
  destruct v2; cbn in E; bool_to_prop.
  - lia.
  - destruct Hreach as [?|Hreach]; [done|]. nia.
Qed.

Lemma write_seg_ok v2 force sm rs t vdev db cursor es :
  wstate sm db cursor es -> span_ok sm -> seg_in sm rs -> reachable v2 sm -> vdev_ok v2 vdev ->
  smp_objsize sm + 48 * seg_units sm rs < 2 ^ 64 ->
  exists sm' db' cursor' es' vd,
    space_map_write_seg sm rs t vdev (seg_words v2 force sm vdev rs) db = Ret (sm', db') /\
    wstate sm' db' cursor' (es ++ es') /\
    seq_runs t vd (seg_off sm rs) es' (seg_off sm rs + seg_units sm rs) /\
    same_but_log sm sm' /\ smp_objsize sm' <= smp_objsize sm + 48 * seg_units sm rs.
Proof.
  intros Hst Hsm Hin Hreach Hvd Hobj. pose proof (seg_words_vdev v2 force sm vdev rs Hvd) as Himp.
  pose proof (seg_in_units sm rs Hsm Hin) as (H1 & H2 & H3 & H4 & _).
  pose proof Hsm as (Hsh & Hss & Hsz & Hend & _). pose proof (shift_pos sm Hsm) as Hp.
  pose proof (seg_room v2 force sm vdev rs Hsm Hin Hreach) as Hroom.
  pose proof (seg_words_cases v2 force sm vdev rs) as Hw.
  set (words := seg_words v2 force sm vdev rs) in *.
  unfold space_map_write_seg.
  assert (negb (words =? 0) = true /\ (words <=? 2) = true) as [-> ->] by (by destruct Hw as [-> | ->]).
  rewrite (proj2 (Z.leb_le vdev _)), Himp by apply Hvd.
  rewrite !sub64_small, add64_small, !Z.shiftr_div_pow2 by (unfold u64; destruct Hin; lia).
  rewrite (proj2 (Z.leb_le (sm_start sm) _)), (proj2 (Z.ltb_lt _ _)), !(proj2 (Z.leb_le _ _)) by (destruct Hin; lia).
  cbn [verify mbind result_bind]. fold (seg_off sm rs) (seg_units sm rs) (run_max words).
  pose proof (run_max_pos words) as Hrm. pose proof Hst as (_ & Hob & _ & _).
  replace (Z.to_nat (smp_objsize sm / 8) - db)%nat with cursor
    by (rewrite Hob, Z.mul_comm, Z.div_mul, Nat2Z.id; lia).
  rewrite (wstate_cursor _ _ _ _ Hst). cbn [verify mbind result_bind].
  set (n := Z.to_nat (seg_units sm rs / run_max words + 1)).
  assert (0 <= seg_units sm rs / run_max words <= seg_units sm rs) as Hq.
  { split; [apply Z.div_pos; lia|]. apply Z.div_le_upper_bound; nia. }
  assert (seg_units sm rs < 2 ^ 64) by nia.
  destruct (write_loop_ok t vdev words Hw n (Z.to_nat (2 * (seg_units sm rs / run_max words + 1)))
    sm db cursor es (seg_off sm rs) (seg_units sm rs))
    as (sm' & db' & c' & es' & -> & Hst' & Hruns & Hsame & Ho); auto; try lia.
  { unfold n. rewrite Z2Nat.id by lia.
    pose proof (Z.mod_pos_bound (seg_units sm rs) (run_max words) ltac:(lia)).
    pose proof (Z.div_mod (seg_units sm rs) (run_max words) ltac:(lia)). nia. }
  exists sm', db', c', es', (entry_vdev vdev words). split_and!; auto. lia.
Qed.

Lemma same_but_log_span sm sm' : same_but_log sm sm' -> same_span sm sm'.
Proof. by intros (ws & n & -> & _). Qed.

Lemma replay_equiv sm es X n Y m : replay sm es X n Y m -> forall X',
  (forall x, X x <-> X' x) -> replay sm es X' n Y m.
Proof.
  induction 1 as [X Y n HXY|vd off run es X n Y m Hrun Hdis _ IH|vd off run es X n Y m Hrun Hdis _ IH];
    intros X' HX; constructor; auto.
  - intros x. by rewrite <- HX.
  - intros x Hx. rewrite <- HX. auto.
  - apply IH. intros x. by rewrite HX.
  - intros x Hx. rewrite <- HX. auto.
  - apply IH. intros x. by rewrite HX.
Qed.

Lemma replay_app sm es1 X n Y m es2 Z k :
  replay sm es1 X n Y m -> replay sm es2 Y m Z k -> replay sm (es1 ++ es2) X n Z k.
Proof.
  induction 1 as [X Y n HXY|vd off run es X n Y m Hrun Hdis _ IH|vd off run es X n Y m Hrun Hdis _ IH];
    intros H2; cbn [app].
  - eapply replay_equiv; [exact H2|]. intros x. by rewrite HXY.
  - constructor; auto.
  - constructor; auto.
Qed.

(** The set and its size after a change of type [t] by the runs [off, off + run). *)
Definition change (t : maptype) (X Q : Z -> Prop) (x : Z) : Prop :=
  match t with SM_ALLOC => X x \/ Q x | SM_FREE => X x /\ ~ Q x end.
Definition change_ok (t : maptype) (X Q : Z -> Prop) : Prop :=
  forall x, Q x -> match t with SM_ALLOC => ~ X x | SM_FREE => X x end.
Definition change_num (t : maptype) (n k : Z) : Z :=
  match t with SM_ALLOC => n + k | SM_FREE => n - k end.

(** The entries of one segment. *)
Lemma replay_runs sm t vd : span_ok sm -> forall es a b X n,
  seq_runs t vd a es b -> 0 <= a -> b * 2 ^ sm_shift sm <= sm_size sm ->
  change_ok t X (span sm a (b - a)) ->
  replay sm es X n (change t X (span sm a (b - a))) (change_num t n ((b - a) * 2 ^ sm_shift sm)) /\ a <= b.
Proof.
  intros Hsm. pose proof (shift_pos sm Hsm) as Hp. set (u := 2 ^ sm_shift sm) in *.
  induction es as [|[[[t' vd'] off] run] es IH]; intros a b X n Hr Ha Hb Hok; cbn [seq_runs] in Hr.
  - subst b. split; [|lia]. replace (change_num t n ((a - a) * u)) with n by (destruct t; cbn; lia).
    constructor. intros x. unfold change, span. fold u.
    replace (a + (a - a)) with a by lia. destruct t; intuition lia.
  - destruct Hr as (-> & -> & -> & Hrun & Hr).
    assert (forall x, span sm a (b - a) x <-> span sm a run x \/ span sm (a + run) (b - (a + run)) x) as Hsplit.
    { assert (a + run <= b) as Hle.
      { clear -Hr. revert Hr. generalize (a + run). induction es as [|[[[t' vd'] off] r] es IH]; intros c;
          cbn [seq_runs]; [lia|]. intros (_ & _ & _ & ? & H). apply IH in H. lia. }
      intros x. unfold span. fold u. replace (a + (b - a)) with b by lia.
      replace (a + run + (b - (a + run))) with b by lia. nia. }
    assert (forall x, span sm (a + run) (b - (a + run)) x -> ~ span sm a run x) as Hdis.
    { intros x. unfold span. fold u. lia. }
    destruct (IH (a + run) b (change t X (span sm a run)) (change_num t n (run * u))) as [Hrep Hle]; auto; [lia| |].
    { intros x Hx. specialize (Hok x). specialize (Hdis x Hx). rewrite Hsplit in Hok.
      destruct t; cbn in *; tauto. }
    split; [|lia].
    assert (run_ok sm a run) as Hro by (unfold run_ok; fold u; nia).
    replace (change_num t n ((b - a) * u)) with (change_num t (change_num t n (run * u)) ((b - (a + run)) * u))
      by (destruct t; cbn; lia).
    eapply (replay_app sm [_]) with (Y := change t X (span sm a run)) (m := change_num t n (run * u)).
    + destruct t; constructor; auto; try (intros x Hx; apply (Hok x); rewrite Hsplit; by left);
        by constructor.
    + clear -Hrep Hsplit Hok. eapply (replay_app sm es _ _ _ _ []) in Hrep; [rewrite app_nil_r in Hrep; exact Hrep|].
      constructor. intros x. specialize (Hsplit x). destruct t; cbn; tauto.
Qed.

Fixpoint total_units (sm : space_map) (L : list range_seg) : Z :=
  match L with [] => 0 | rs :: L' => seg_units sm rs + total_units sm L' end.

Lemma total_units_same sm sm' L : same_span sm sm' -> total_units sm' L = total_units sm L.
Proof.
  intros (H1 & H2 & H3). induction L as [|rs L IH]; cbn; [done|].
  unfold seg_units. by rewrite IH, H3.
Qed.

Lemma span_seg sm rs x :
  span_ok sm -> seg_in sm rs -> span sm (seg_off sm rs) (seg_units sm rs) x <-> in_seg rs x.
Proof.
  intros Hsm Hin. pose proof (seg_in_units sm rs Hsm Hin) as (_ & _ & H3 & H4 & _).
  unfold span, in_seg. lia.
Qed.

(** The segments of a range tree, one after the other. *)
Lemma write_segs_ok v2 force t vdev : forall L sm db cursor es X n,
  wstate sm db cursor es -> span_ok sm -> segs_ok L -> Forall (seg_in sm) L -> reachable v2 sm -> vdev_ok v2 vdev ->
  smp_objsize sm + 48 * total_units sm L < 2 ^ 64 -> change_ok t X (covers L) ->
  exists sm' db' cursor' es', write_segs v2 force sm L t vdev db = Ret sm' /\
    wstate sm' db' cursor' (es ++ es') /\ same_but_log sm sm' /\
    replay sm es' X n (change t X (covers L)) (change_num t n (total L)) /\
    smp_objsize sm' <= smp_objsize sm + 48 * total_units sm L.
Proof.
  induction L as [|rs L IH]; intros sm db cursor es X n Hst Hsm Hok Hin Hreach Hvd Hobj Hch; cbn [write_segs].
  { exists sm, db, cursor, []. rewrite app_nil_r. split_and!; auto using same_but_log_refl; [|cbn; lia].
    - cbn [total]. replace (change_num t n 0) with n by (destruct t; cbn; lia).
      constructor. intros x. destruct t; cbn [change]; rewrite covers_nil; tauto. }
  apply Forall_cons in Hin as [Hrs Hin]. pose proof Hok as (_ & HL & Hgap)%segs_ok_cons.
  cbn [total_units] in Hobj |- *.
  pose proof (seg_in_units sm rs Hsm Hrs) as (U1 & U2 & U3 & U4 & (_ & _ & U5)).
  assert (0 <= total_units sm L) as Hnn.
  { clear -Hsm Hin. induction Hin as [|r L Hr _ IH]; cbn; [lia|].
    pose proof (seg_in_units sm r Hsm Hr). lia. }
  destruct (write_seg_ok v2 force sm rs t vdev db cursor es)
    as (sm1 & db1 & c1 & es1 & vd & -> & Hst1 & Hruns & Hsame1 & Ho1); auto; [lia|].
  cbn [mbind result_bind].
  destruct (replay_runs sm t vd Hsm es1 _ _ X n Hruns) as [Hrep1 _]; auto.
  { intros x. replace (seg_off sm rs + seg_units sm rs - seg_off sm rs) with (seg_units sm rs) by lia.
    rewrite span_seg by done. intros Hx. apply Hch. apply covers_cons. by left. }
  replace (seg_off sm rs + seg_units sm rs - seg_off sm rs) with (seg_units sm rs) in Hrep1 by lia.
  pose proof (same_but_log_span _ _ Hsame1) as Hss. pose proof Hsame1 as (ws1 & n1 & -> & _).
  destruct (IH (set_log sm ws1 n1) db1 c1 (es ++ es1)
      (change t X (span sm (seg_off sm rs) (seg_units sm rs)))
      (change_num t n (seg_units sm rs * 2 ^ sm_shift sm)))
    as (sm' & db' & c' & es2 & -> & Hst' & Hsame & Hrep2 & Ho2); auto.
  { rewrite (total_units_same sm) by done. lia. }
  { intros x Hx. specialize (Hch x). rewrite covers_cons in Hch.
    pose proof (covers_seg_lt _ _ _ Hok Hx). unfold in_seg in *.
    destruct t; cbn [change]; rewrite span_seg by done; unfold in_seg; intuition lia. }
  exists sm', db', c', (es1 ++ es2). rewrite app_assoc. split_and!; auto.
  - by eapply same_but_log_trans.
  - eapply replay_app; [exact Hrep1|].
    apply (replay_same_span _ sm) in Hrep2; [|done].
    replace (change_num t n (total (rs :: L))) with
      (change_num t (change_num t n (seg_units sm rs * 2 ^ sm_shift sm)) (total L))
      by (destruct t; cbn; lia).
    rewrite <- (app_nil_r es2). eapply replay_app; [exact Hrep2|]. constructor.
    intros x. destruct t; cbn [change]; rewrite span_seg, covers_cons by done; tauto.
  - rewrite (total_units_same sm) in Ho2 by done. lia.
Qed.

(** What is replayed fits in the map. *)
Lemma replay_bounds sm es Y m :
  span_ok sm -> replay sm es (fun _ => False) 0 Y m -> 0 <= m <= sm_size sm.
Proof.
  intros Hsm Hrep. pose proof Hsm as (_ & _ & Hsz & _).
  set (I := fun (_ : list range_seg) (_ : unit) => True).
  destruct (create_ok I None tt) as (rt & _ & Hwf & Hnil & _); [done|].
  destruct (run_entries_load I false sm Hsm (rt_ops rt) SM_ALLOC es _ _ _ _ Hrep rt)
    as (rt' & _ & (Hwf' & Hm & Hsp & _) & Hin); [tauto| |].
  { split_and!; auto.
    - intros x. unfold rt_mem. rewrite Hnil, covers_nil. done.
    - destruct Hwf as (_ & _ & -> & _). by rewrite Hnil. }
  rewrite <- Hsp. split.
  - destruct Hwf' as (_ & Hs & -> & _). apply total_nonneg, Hs.
  - enough (rt_space rt' <= sm_start sm + sm_size sm - sm_start sm) by lia.
    apply (space_bound I); [done|lia|]. intros x Hx. by apply Hin, Hm.
Qed.

(** The debugging entry that opens a batch of entries, and the block held for
    what follows. *)
Lemma intro_debug_ok sm t pass txg es len :
  geometry sm -> smp_objsize sm = 8 * Z.of_nat len -> (len <= length (sm_words sm))%nat ->
  parses (blk_words sm) 0 (take len (sm_words sm)) es -> 0 <= pass -> 0 <= txg ->
  smp_objsize sm + 8 < 2 ^ 64 ->
  let sm1 := space_map_write_intro_debug sm t pass txg in
  let '(db, ws) := hold_block sm1 (sm_words sm1) (Z.to_nat (smp_objsize sm1 / 8)) in
  same_but_log sm (set_log sm1 ws (smp_objsize sm1)) /\
  wstate (set_log sm1 ws (smp_objsize sm1)) db (S len - db) es /\
  smp_objsize sm1 = smp_objsize sm + 8.
Proof.
  intros Hg Hobj Hlen Hp Hpass Htxg H64. unfold space_map_write_intro_debug, append_word.
  set (w := Z.lor _ _). assert (sm_entry_is_debug w = true) as Hw.
  { apply debug_entry_ok; auto. destruct t; cbn; lia. }
  rewrite Hobj, Z.mul_comm, Z.div_mul, Nat2Z.id by lia.
  rewrite add64_small by (unfold u64; lia). cbn zeta.
  set (words := sm_words sm ++ _). set (sm1 := set_log sm _ _).
  assert (smp_objsize sm1 = 8 * Z.of_nat (S len)) as Hobj1 by (cbn; lia).
  assert (S len <= length words)%nat as Hl by (unfold words; rewrite length_app, length_replicate; lia).
  pose proof (hold_block_spec sm1 (sm_words sm1) (Z.to_nat (smp_objsize sm1 / 8))) as Hh.
  destruct (hold_block _ _ _) as [db ws]. destruct (Hh (proj2 Hg)) as (H1 & H2 & H3 & H4).
  rewrite Hobj1, Z.mul_comm, Z.div_mul, Nat2Z.id in H2 by lia.
  change (blk_words sm1) with (blk_words sm) in *.
  split.
  { apply (same_but_log_words sm _ _ len); [done|cbn; lia|].
    rewrite H4 by (cbn; rewrite length_insert; lia). cbn [sm_words sm1 set_log].
    rewrite take_insert_ge by lia. unfold words. by rewrite take_app_le by lia. }
  split; [|cbn; lia].
  unfold wstate. change (blk_words (set_log sm1 ws (smp_objsize sm1))) with (blk_words sm). cbn [sm_words set_log].
  replace (db + (S len - db))%nat with (S len) by lia.
  split_and!; auto; try lia; [apply Hg..|].
  rewrite H4 by (cbn; rewrite length_insert; lia). cbn [sm_words sm1 set_log].
  rewrite take_insert_snoc by lia. unfold words. rewrite take_app_le by lia.
  rewrite <- (app_nil_r es). apply parses_app; [done|]. apply parses_debug; [done|constructor].
Qed.

Lemma total_units_le sm L :
  span_ok sm -> Forall (seg_in sm) L -> 0 <= total_units sm L <= total L.
Proof.
  intros Hsm. induction 1 as [|rs L Hrs _ IH]; cbn; [lia|].
  pose proof (seg_in_units sm rs Hsm Hrs) as (H1 & H2 & H3 & H4 & _). pose proof (shift_pos sm Hsm). nia.
Qed.

(** What a log stands for depends on the log and the space it is about. *)
Lemma log_repr_same sm sm' X :
  log_repr sm X -> same_span sm sm' -> sm_blksz sm' = sm_blksz sm ->
  smp_objsize sm' = smp_objsize sm -> smp_alloc sm' = smp_alloc sm -> sm_words sm' = sm_words sm ->
  log_repr sm' X.
Proof.
  intros (Hg & Hs & Ho & es & len & Hlen & Hle & Hp & Hrep) Hss Hb Hobj Ha Hw.
  pose proof Hss as (E1 & E2 & E3).
  assert (blk_words sm' = blk_words sm) as Hbw by (unfold blk_words; by rewrite Hb).
  unfold log_repr, geometry, span_ok. rewrite Hbw, Hb, Hobj, Ha, Hw, E1, E2, E3.
  split_and!; try apply Hg; try apply Hs; try lia. exists es, len. split_and!; auto.
  by apply (replay_same_span sm).
Qed.

Lemma log_repr_equiv sm X Y : log_repr sm X -> (forall x, X x <-> Y x) -> log_repr sm Y.
Proof.
  intros (Hg & Hs & Ho & es & len & Hlen & Hle & Hp & Hrep) HXY. do 3 (split; [done|]).
  exists es, len. split_and!; auto. rewrite <- (app_nil_r es).
  eapply replay_app; [exact Hrep|]. by constructor.
Qed.

(** What [space_map_write] leaves of the rest of the space map: its synced
    length and space, its object and histogram, and the log it had. *)
Definition written (sm sm' : space_map) : Prop :=
  same_span sm sm' /\ sm_length sm' = sm_length sm /\ sm_alloc sm' = sm_alloc sm /\
  sm_object sm' = sm_object sm /\ sm_blksz sm' = sm_blksz sm /\
  smp_histogram sm' = smp_histogram sm /\ sm_has_hist sm' = sm_has_hist sm /\
  smp_objsize sm <= smp_objsize sm' /\
  forall k, 8 * Z.of_nat k <= smp_objsize sm -> take k (sm_words sm') = take k (sm_words sm).

(** The estimate is made from a whole histogram. *)
Lemma estimate_loop_ok unit hist : forall n idx sz,
  (idx + n <= length hist)%nat -> exists r, estimate_loop n hist idx unit sz = Ret r.
Proof.
  induction n as [|n IH]; intros idx sz Hl; cbn [estimate_loop]; [eauto|].
  destruct (lookup_lt_is_Some_2 hist idx) as [v Hv]; [lia|]. rewrite (rd_ok _ _ _ Hv).
  cbn [mbind result_bind]. apply IH. lia.
Qed.

Lemma estimate_ok {S} v2 force sm (rt : range_tree S) vd :
  0 <= sm_shift sm <= 28 -> length (rt_histogram rt) = RANGE_TREE_HISTOGRAM_SIZE ->
  exists r, space_map_estimate_optimal_size v2 force sm rt vd = Ret r.
Proof.
  intros Hsh Hl. unfold space_map_estimate_optimal_size.
  unfold RANGE_TREE_HISTOGRAM_SIZE in *. set (sh := Z.to_nat (sm_shift sm)).
  assert (sh <= 28)%nat as Hb by lia. set (single := (Z.to_nat SM_RUN_BITS + sh - 1)%nat).
  set (double := (Z.to_nat SM2_RUN_BITS + sh - 1)%nat).
  assert (single = sh + 14 /\ double = sh + 35)%nat as [Es Ed]
    by (unfold single, double, SM_RUN_BITS, SM2_RUN_BITS; lia).
  set (es := if v2 && force then 16 else 8).
  assert (exists idx sz, (if negb v2 || ((vd =? SM_NO_VDEVID) && (sm_size sm <? SM_OFFSET_MAX)) then
       size ← estimate_loop (Datatypes.S single) (rt_histogram rt) 0 (fun _ => es) 0;
       Ret (Datatypes.S single, size) else Ret (0%nat, 0)) = Ret (idx, sz) /\ (idx <= Datatypes.S single)%nat)
    as (idx & sz & -> & Hidx).
  { destruct (_ || _); [|eexists _, _; split; [done|lia]].
    destruct (estimate_loop_ok (fun _ => es) (rt_histogram rt) (Datatypes.S single) 0 0) as [r ->]; [lia|].
    cbn [mbind result_bind]. eexists _, _; split; [done|lia]. }
  cbn [mbind result_bind]. destruct (negb v2); [apply estimate_loop_ok; lia|].
  destruct (estimate_loop_ok (fun _ => 16) (rt_histogram rt) (Datatypes.S double - idx) idx sz) as [r ->]; [lia|].
  cbn [mbind result_bind].
  match goal with |- context [estimate_loop (64 - Datatypes.S double) _ _ ?u r] =>
    destruct (estimate_loop_ok u (rt_histogram rt) (64 - Datatypes.S double) (Datatypes.S double) r) as [r' ->]; [lia|] end.
  cbn [mbind result_bind]. eauto.
Qed.

(** What [space_map_write] makes of the map, and what a [DEBUG] kernel adds. *)
Lemma write_gen {S} (I : list range_seg -> S -> Prop) v2 force pass txg sm
    (rt : range_tree S) t vdev X :
  log_repr sm X -> rt_wf I rt -> Forall (seg_in sm) (segs rt) -> reachable v2 sm -> vdev_ok v2 vdev ->
  sm_object sm <> 0 -> 0 <= pass -> 0 <= txg ->
  smp_objsize sm + 48 * (rt_space rt + 1) < 2 ^ 64 -> change_ok t X (rt_mem rt) ->
  exists sm', (forall debug some, space_map_write debug some v2 force pass txg sm rt t vdev =
      if range_tree_is_empty rt then Ret sm'
      else
        g ← (if debug then space_map_estimate_optimal_size v2 some sm rt SM_NO_VDEVID else Ret 0);
        _ ← verify (negb debug || (smp_objsize sm' <=? add64 (smp_objsize sm + 8) g));
        Ret sm') /\
    log_repr sm' (change t X (rt_mem rt)) /\ written sm sm' /\
    smp_objsize sm' <= smp_objsize sm + 48 * (rt_space rt + 1).
Proof.
  intros (Hg & Hsm & Hobj & es & len & Hlen & Hle & Hp & Hrep) Hwf Hin Hreach Hvd Ho Hpass Htxg H64 Hch.
  pose proof Hwf as (_ & Hs & Hsp & _). pose proof (total_units_le sm _ Hsm Hin) as Htu.
  unfold space_map_write. destruct (Z.eqb_spec (sm_object sm) 0); [done|]. cbn [negb verify mbind result_bind].
  unfold range_tree_is_empty. destruct (Z.eqb_spec (rt_space rt) 0) as [Hz|Hnz].
  { eexists; split; [done|]. split; [|split; [|cbn; lia]; unfold written; by split_and!].
    assert (segs rt = []) as Hnil.
    { destruct (segs rt) as [|rs L]; [done|]. exfalso. apply Forall_cons in Hin as [Hrs _].
      pose proof (seg_in_units sm rs Hsm Hrs). cbn in Hsp. pose proof Hs as (_ & HL & _)%segs_ok_cons.
      pose proof (total_nonneg _ (proj2 HL)). destruct Hrs. lia. }
    split; [done|]. split; [done|]. split; [done|]. exists es, len. split_and!; auto.
    apply (replay_same_span sm); [done|]. rewrite <- (app_nil_r es).
    eapply replay_app; [exact Hrep|]. constructor. intros x. unfold rt_mem. rewrite Hnil.
    destruct t; cbn [change]; rewrite covers_nil; tauto. }
  set (sm0 := set_alloc (set_object sm (sm_object sm)) _). unfold space_map_write_impl.
  pose proof (intro_debug_ok sm0 t pass txg es len Hg Hlen Hle Hp Hpass Htxg ltac:(cbn; lia)) as Hi.
  set (sm1 := space_map_write_intro_debug sm0 t pass txg) in *. cbn zeta in Hi.
  destruct (hold_block sm1 _ _) as [db ws]. destruct Hi as (Hsame & Hst & Hob1).
  rewrite avl_first_spec.
  pose proof (next_loop_spec (rt_root rt) [] (segs rt) (segs_ok_NoDup _ Hs) eq_refl) as Hn.
  unfold segs, elements in Hn. unfold elements. rewrite Hn. fold (elements (rt_root rt)). fold (segs rt).
  pose proof Hsame as (ws0 & n0 & Heq0 & _). rewrite Heq0 in Hst, Hsame |- *.
  assert (n0 = smp_objsize sm + 8) as Hn0.
  { apply (f_equal smp_objsize) in Heq0. cbn in Heq0. rewrite <- Heq0. exact Hob1. }
  destruct (write_segs_ok v2 force t vdev (segs rt) (set_log sm0 ws0 n0) db _ es X (smp_alloc sm) Hst)
    as (sm' & db' & c' & es' & -> & Hst' & Hsame' & Hrep' & Ho'); auto.
  { rewrite (total_units_same sm) by done. cbn. lia. }
  pose proof (same_but_log_trans _ _ _ Hsame Hsame') as (ws' & n' & -> & Hn' & Hk').
  apply (replay_same_span _ sm) in Hrep'; [|done].
  pose proof (replay_app _ _ _ _ _ _ _ _ _ Hrep Hrep') as Hall.
  pose proof (replay_bounds sm _ _ _ Hsm Hall) as Hb. pose proof Hsm as (_ & _ & Hsz & _).
  rewrite (total_units_same sm) in Ho' by done.
  destruct Hst' as (_ & Hobj' & _ & Hc' & Hlen' & Hp').
  eexists; split.
  { intros debug some. cbn [smp_objsize set_log]. change (space_map_estimate_optimal_size v2 some sm1 rt) with
      (space_map_estimate_optimal_size v2 some sm rt). rewrite Hob1. reflexivity. }
  split; [|split; [unfold written; by split_and!|cbn in *; lia]].
  split; [done|]. split; [done|]. split; [cbn in *; lia|]. exists (es ++ es'), (db' + c')%nat. split_and!.
  - exact Hobj'.
  - cbn in Hlen' |- *. change (blk_words _) with (blk_words sm) in Hlen', Hc'. lia.
  - exact Hp'.
  - apply (replay_same_span sm); [done|]. cbn [smp_alloc space_map_update set_log sm0 set_alloc set_object].
    replace (wraps64 _) with (change_num t (smp_alloc sm) (total (segs rt))); [exact Hall|].
    rewrite <- Hsp in *. destruct t; cbn [change_num] in *; rewrite wraps64_small by (unfold s64; lia); done.
Qed.

Lemma write_ok {S} (I : list range_seg -> S -> Prop) v2 force some pass txg sm
    (rt : range_tree S) t vdev X :
  log_repr sm X -> rt_wf I rt -> Forall (seg_in sm) (segs rt) -> reachable v2 sm -> vdev_ok v2 vdev ->
  sm_object sm <> 0 -> 0 <= pass -> 0 <= txg ->
  smp_objsize sm + 48 * (rt_space rt + 1) < 2 ^ 64 -> change_ok t X (rt_mem rt) ->
  exists sm', space_map_write false some v2 force pass txg sm rt t vdev = Ret sm' /\
    log_repr sm' (change t X (rt_mem rt)) /\ written sm sm' /\
    smp_objsize sm' <= smp_objsize sm + 48 * (rt_space rt + 1).
Proof.
  intros H1 H2 H3 H4 Hv H5 H6 H7 H8 H9.
  destruct (write_gen I v2 force pass txg sm rt t vdev X H1 H2 H3 H4 Hv H5 H6 H7 H8 H9) as (sm' & Hw & Hrest).
  exists sm'. split; [|exact Hrest]. rewrite Hw. by destruct (range_tree_is_empty rt).
Qed.

(** C29: writing a range tree to a space map records the change.  If the log
    stands for [X] and a range tree of whole units of the map is written with
    [SM_ALLOC], disjoint from [X], or with [SM_FREE], inside [X], then
    [space_map_write] succeeds and none of its assertions fails, and the log
    stands for the union or the difference, whichever mix of one- and two-word
    entries, splits of long runs and paddings at the ends of blocks it took.
    The id of a vdev fits its field, and one is given only where there are
    two-word entries.  A kernel compiled with [DEBUG] does the same when the log
    has not outgrown [space_map_estimate_optimal_size], and panics otherwise. *)
Theorem space_map_write_correct {S} (I : list range_seg -> S -> Prop) v2 force some pass txg sm
    (rt : range_tree S) t vdev X :
  log_repr sm X -> rt_wf I rt -> Forall (seg_in sm) (segs rt) -> reachable v2 sm -> vdev_ok v2 vdev ->
  sm_object sm <> 0 -> 0 <= pass -> 0 <= txg ->
  smp_objsize sm + 48 * (rt_space rt + 1) < 2 ^ 64 -> change_ok t X (rt_mem rt) ->
  exists sm', space_map_write false some v2 force pass txg sm rt t vdev = Ret sm' /\
    log_repr (space_map_update sm') (change t X (rt_mem rt)) /\ synced (space_map_update sm') /\
    same_span sm sm' /\
    (sm_shift sm <= 28 ->
     exists growth, space_map_estimate_optimal_size v2 some sm rt SM_NO_VDEVID = Ret growth /\
       space_map_write true some v2 force pass txg sm rt t vdev =
         if range_tree_is_empty rt || (smp_objsize sm' <=? add64 (smp_objsize sm + 8) growth) then Ret sm' else Panic).
Proof.
  intros H1 H2 H3 H4 Hv H5 H6 H7 H8 H9.
  destruct (write_gen I v2 force pass txg sm rt t vdev X H1 H2 H3 H4 Hv H5 H6 H7 H8 H9)
    as (sm' & Hw & Hl & [Hs _] & _). exists sm'. split_and!; [|by apply (log_repr_same sm')|done|done|].
  - rewrite Hw. by destruct (range_tree_is_empty rt).
  - intros Hsh. destruct H1 as (_ & (Hsh0 & _) & _). destruct H2 as (_ & _ & _ & [Hh _] & _).
    destruct (estimate_ok v2 some sm rt SM_NO_VDEVID) as [g Hg]; [lia|done|]. exists g. split; [done|].
    rewrite Hw, Hg. destruct (range_tree_is_empty rt); [done|]. cbn [mbind result_bind negb orb].
    by destruct (smp_objsize sm' <=? _).
Qed.

(** What an entry encodes is what is read back.  A one-word entry carries
    47 bits of offset and runs of up to 2^15 units, a two-word entry 63 bits of
    offset and runs of up to 2^36; debugging entries are recognised as such.
    A two-word entry keeps a vdev id of 24 bits, so that an entry written
    without one, for a large offset or run, is read back as one of vdev 0. *)
Theorem space_map_entry_roundtrip t off run vdev act pass txg :
  0 <= off < 2 ^ 63 -> 1 <= run <= 2 ^ 36 -> 0 <= act < 4 -> 0 <= pass -> 0 <= txg ->
  (off < 2 ^ 47 -> run <= 2 ^ 15 ->
   let e := single_entry off t run in
   sm_entry_is_single_word e = true /\ sm_entry_is_debug e = false /\
   sm_entry_is_double_word e = false /\ decode_single e = (t, SM_NO_VDEVID, off, run)) /\
  (let e := double_entry1 run vdev in
   sm_entry_is_double_word e = true /\ sm_entry_is_debug e = false /\
   sm_entry_is_single_word e = false /\
   decode_double e (double_entry2 off t) = (t, vdev mod 2 ^ 24, off, run)) /\
  decode_double (double_entry1 run SM_NO_VDEVID) (double_entry2 off t) = (t, 0, off, run) /\
  sm_entry_is_debug (Z.lor (Z.lor (Z.lor (SM_PREFIX_ENCODE SM_DEBUG_PREFIX)
    (SM_DEBUG_ACTION_ENCODE act)) (SM_DEBUG_SYNCPASS_ENCODE pass)) (SM_DEBUG_TXG_ENCODE txg)) = true.
Proof.
  intros Hoff Hrun Hact Hpass Htxg.
  destruct (double_entry_decode off t run vdev) as (D1 & D2 & D3 & D4); auto.
  destruct (double_entry_decode off t run SM_NO_VDEVID) as (_ & _ & _ & D5); auto.
  split_and!; auto using debug_entry_ok.
  intros Ho Hr e. destruct (single_entry_decode off t run) as (S1 & S2 & S3); [lia..|].
  split_and!; auto. unfold sm_entry_is_single_word, sm_entry_is_double_word in *.
  apply andb_true_iff in S2 as [_ S2]. by apply negb_true_iff in S2.
Qed.

Lemma space_map_entry_roundtrip_witness :
  decode_single (single_entry 1000 SM_FREE 32768) = (SM_FREE, SM_NO_VDEVID, 1000, 32768) /\
  decode_double (double_entry1 40000 7) (double_entry2 (2 ^ 50) SM_ALLOC) = (SM_ALLOC, 7, 2 ^ 50, 40000).
Proof.
  split.
  - apply (space_map_entry_roundtrip SM_FREE 1000 32768 7 1 0 0); lia.
  - apply (space_map_entry_roundtrip SM_ALLOC (2 ^ 50) 40000 7 1 0 0); lia.
Defined.

(** A map of 1M in units of 512 bytes, with a log of three entries: 2048 bytes
    allocated at 1024, 512 of them freed again at 2048. *)
Definition demo_sm : space_map :=
  SpaceMap 0 (2 ^ 20) 9 32 1536 5 512 5 32 1536 [] false
    (single_entry 2 SM_ALLOC 4 :: pad_entry :: double_entry1 1 SM_NO_VDEVID :: double_entry2 4 SM_FREE :: replicate 60 0).

Lemma demo_sm_repr :
  log_repr demo_sm (fun x => (False \/ span demo_sm 2 4 x) /\ ~ span demo_sm 4 1 x).
Proof.
  split; [split; [done|by vm_compute; lia]|]. split; [unfold span_ok; cbn [sm_shift sm_start sm_size demo_sm]; split_and!; done || lia|]. split; [cbn; lia|].
  exists [(SM_ALLOC, SM_NO_VDEVID, 2, 4); (SM_FREE, 0, 4, 1)], 4%nat.
  split; [done|]. split; [cbn; lia|]. split.
  - change (take 4 (sm_words demo_sm)) with
      [single_entry 2 SM_ALLOC 4; pad_entry; double_entry1 1 SM_NO_VDEVID; double_entry2 4 SM_FREE].
    apply (parses_single _ 0 (single_entry 2 SM_ALLOC 4)); [done..|].
    apply parses_debug; [done|]. apply (parses_double _ 2 (double_entry1 1 SM_NO_VDEVID) (double_entry2 4 SM_FREE));
      [done|done|by vm_compute; lia|constructor].
  - apply replay_alloc; [unfold run_ok; cbn; lia|tauto|].
    apply replay_free; [unfold run_ok; cbn; lia| |by constructor].
    unfold span. cbn. intros x. lia.
Qed.

Lemma space_map_load_correct_witness :
  exists rt', space_map_load false (fun _ => 0) demo_sm (demo []) SM_ALLOC = Ret (rt', 0) /\
    rt_mem rt' 1024 /\ ~ rt_mem rt' 2048 /\ rt_mem rt' 2560.
Proof.
  destruct (demo_wf []) as [Hwf _]; [constructor|done|].
  destruct (space_map_load_correct (fun L s => L ≡ₚ s) false (fun _ => 0) demo_sm (demo []) SM_ALLOC _
              demo_sm_repr) as (rt' & Hl & _ & Hm); auto; [by split|].
  exists rt'. split; [exact Hl|]. rewrite !Hm. unfold wanted, span. cbn. lia.
Defined.

Lemma space_map_write_correct_witness :
  exists sm', space_map_write false false true (fun _ => false) 1 77 demo_sm
      (demo [OpAdd 4096 1024; OpAdd 8192 512]) SM_ALLOC SM_NO_VDEVID = Ret sm' /\
    space_map_write true false true (fun _ => false) 1 77 demo_sm
      (demo [OpAdd 4096 1024; OpAdd 8192 512]) SM_ALLOC SM_NO_VDEVID = Ret sm' /\
    synced (space_map_update sm').
Proof.
  destruct (demo_wf [OpAdd 4096 1024; OpAdd 8192 512]) as [Hwf Hm];
    [repeat constructor; cbn; lia|cbn; split_and!; try lia; intros x; lia|].
  destruct (space_map_write_correct (fun L s => L ≡ₚ s) true (fun _ => false) false 1 77 demo_sm
              (demo [OpAdd 4096 1024; OpAdd 8192 512]) SM_ALLOC SM_NO_VDEVID _ demo_sm_repr Hwf)
    as (sm' & H & _ & Hs & _ & Hd).
  - change (segs (demo [OpAdd 4096 1024; OpAdd 8192 512])) with [RangeSeg 4096 5120; RangeSeg 8192 8704].
    repeat constructor; cbn; lia.
  - by left.
  - split; [by vm_compute|done].
  - done.
  - lia.
  - lia.
  - vm_compute. reflexivity.
  - intros x. rewrite Hm. unfold span. cbn. lia.
  - exists sm'. split; [exact H|]. split; [|exact Hs].
    destruct (Hd ltac:(cbn; lia)) as (g & Hg & Hw). rewrite Hw. vm_compute in H, Hg. injection H as <-. injection Hg as <-.
    reflexivity.
Defined.

(** The estimate counts one padding for every [sm_blksz] bytes of entries and
    one more, where there can be one for every [sm_blksz - 8]: here a log of
    blocks of 4K starts at the last word of one, and four two-word entries with
    509 one-word entries between each two are padded four times, not three. *)
Definition padded_ops : list rt_op :=
  flat_map (fun k => OpAdd (k * 2 ^ 26) (2 ^ 24 + 512) ::
    (if k <? 3 then map (fun i => OpAdd (k * 2 ^ 26 + 2 ^ 25 + 1024 * Z.of_nat i) 512) (seq 0 509) else []))
    [0; 1; 2; 3].

Definition padded_sm : space_map :=
  SpaceMap 0 (2 ^ 30) 9 4080 0 5 4096 5 4080 0 [] false (replicate 510 pad_entry).

(** An id is written in two-word entries, which the estimate does not count. *)
Lemma estimate_exceeded :
  (let rt := demo padded_ops in
   exists sm' growth, space_map_write false false true (fun _ => false) 1 77 padded_sm rt SM_ALLOC SM_NO_VDEVID = Ret sm' /\
     space_map_estimate_optimal_size true false padded_sm rt SM_NO_VDEVID = Ret growth /\
     smp_objsize sm' = smp_objsize padded_sm + 8 + growth + 8 /\
     space_map_write true false true (fun _ => false) 1 77 padded_sm rt SM_ALLOC SM_NO_VDEVID = Panic) /\
  let rt := demo [OpAdd 4096 512; OpAdd 8192 512] in
  space_map_write true false true (fun _ => false) 1 77 demo_sm rt SM_ALLOC 7 = Panic.
Proof.
  split; [|vm_compute; reflexivity].
  eexists _, _. split; [vm_compute; reflexivity|]. split; [vm_compute; reflexivity|].
  split; vm_compute; reflexivity.
Qed.
