(* ===== verification/RangeSet.v ===== *)
(** * Range trees as sets

    What a client of the range tree needs of it: a tree holds a set of offsets,
    and the operations of [RangeTree] act on the set.  Sizes are determined by
    the set, add up over disjoint sets, and the segments of a set made of whole
    sectors are whole sectors. *)

From S2P Require Import Prelude Avl RangeTree.

(** A tree that holds the offsets of [Q]. *)
Definition is_set {S} (I : list range_seg -> S -> Prop) (Q : Z -> Prop) (rt : range_tree S) : Prop :=
  rt_wf I rt /\ forall x, rt_mem rt x <-> Q x.

Section Sets.
Context {S : Type} (I : list range_seg -> S -> Prop).
Implicit Types (rt : range_tree S) (Q : Z -> Prop).

Lemma is_set_ext Q Q' rt : is_set I Q rt -> (forall x, Q x <-> Q' x) -> is_set I Q' rt.
Proof. intros [Hwf Hm] HQ. split; [done|]. intros x. by rewrite Hm. Qed.

Lemma set_add r rt Q Q' off n :
  is_set I Q rt -> 0 <= off -> 0 < n -> off + n < 2 ^ 64 -> (forall x, off <= x < off + n -> ~ Q x) ->
  (forall x, Q' x <-> Q x \/ off <= x < off + n) ->
  exists rt', range_tree_add r rt off n = Ret rt' /\ is_set I Q' rt' /\
    rt_space rt' = rt_space rt + n /\ rt_ops rt' = rt_ops rt.
Proof.
  intros [Hwf Hm] H1 H2 H3 Hdis HQ'.
  destruct (add_ok I r rt off n) as (rt' & -> & Hwf' & Hm' & Hsp & Hop); auto.
  { intros x Hx. rewrite Hm. auto. }
  exists rt'. split; [done|]. split; [|done]. split; [done|]. intros x. by rewrite Hm', HQ', Hm.
Qed.

Lemma set_remove r rt Q Q' off n :
  is_set I Q rt -> 0 <= off -> 0 < n -> off + n < 2 ^ 64 -> (forall x, off <= x < off + n -> Q x) ->
  (forall x, Q' x <-> Q x /\ ~ off <= x < off + n) ->
  exists rt', range_tree_remove r rt off n = Ret rt' /\ is_set I Q' rt' /\
    rt_space rt' = rt_space rt - n /\ rt_ops rt' = rt_ops rt.
Proof.
  intros [Hwf Hm] H1 H2 H3 Hin HQ'.
  destruct (remove_ok I r rt off n) as (rt' & -> & Hwf' & Hm' & Hsp & Hop); auto.
  { intros x Hx. rewrite Hm. auto. }
  exists rt'. split; [done|]. split; [|done]. split; [done|]. intros x. by rewrite Hm', HQ', Hm.
Qed.

Lemma set_nil rt : rt_wf I rt -> segs rt = [] -> is_set I (fun _ => False) rt /\ rt_space rt = 0.
Proof.
  intros Hwf Hn. split.
  - split; [done|]. intros x. unfold rt_mem. by rewrite Hn, covers_nil.
  - destruct Hwf as (_ & _ & -> & _). by rewrite Hn.
Qed.

Lemma set_vacate rt Q :
  is_set I Q rt ->
  exists rt', range_tree_vacate (T := unit) rt None tt = Ret (rt', tt) /\ is_set I (fun _ => False) rt' /\
    rt_space rt' = 0 /\ rt_ops rt' = rt_ops rt /\ segs rt' = [].
Proof.
  intros [Hwf Hm]. destruct (vacate_ok I (T := unit) rt None tt Hwf) as (rt' & xs & _ & Hwf' & Hn & Hop & ->).
  destruct (set_nil rt' Hwf' Hn) as [Hs Hz]. by exists rt'.
Qed.

(** The test for emptiness. *)
Lemma set_empty rt Q : is_set I Q rt -> rt_space rt = 0 <-> forall x, ~ Q x.
Proof.
  intros [(_ & Hs & -> & _) Hm]. setoid_rewrite <- Hm. unfold rt_mem.
  destruct (segs rt) as [|rs L]; [split; [intros _ x Hx; by apply covers_nil in Hx|done]|].
  pose proof Hs as (Hrs & HL & _)%segs_ok_cons. pose proof (total_nonneg _ (proj2 HL)).
  unfold seg_ok in Hrs. cbn [total]. split; [lia|]. intros Hno. exfalso.
  apply (Hno (rs_start rs)). apply covers_cons. left. unfold in_seg. lia.
Qed.

Lemma set_swap src rt Q : is_set I Q rt -> (forall x, ~ Q x) -> range_tree_swap src rt = Ret (rt, src).
Proof.
  intros Hset Hno. pose proof (proj2 (set_empty rt Q Hset) Hno) as Hz. destruct Hset as [([_ Hn] & Hs & Hsp & _) _].
  unfold range_tree_swap, avl_numnodes. rewrite Hz, Hn. fold (elements (rt_root rt)) (segs rt).
  destruct (segs rt) as [|rs L]; [done|]. exfalso. apply segs_ok_cons in Hs as (Hrs & HL & _).
  pose proof (total_nonneg _ (proj2 HL)). unfold seg_ok in Hrs. cbn [total] in Hsp. lia.
Qed.

Lemma set_space_nonneg rt Q : is_set I Q rt -> 0 <= rt_space rt.
Proof. intros [(_ & [_ Hs] & -> & _) _]. by apply total_nonneg. Qed.
End Sets.

(** Vacating a tree into another one. *)
Lemma set_vacate_into {S T} (I : list range_seg -> S -> Prop) (J : list range_seg -> T -> Prop)
    r (rt : range_tree S) (dst : range_tree T) Q R :
  is_set I Q rt -> is_set J R dst -> (forall x, Q x -> ~ R x) ->
  exists rt' dst', range_tree_vacate rt (Some (range_tree_add r)) dst = Ret (rt', dst') /\
    is_set I (fun _ => False) rt' /\ rt_space rt' = 0 /\ rt_ops rt' = rt_ops rt /\ segs rt' = [] /\
    is_set J (fun x => R x \/ Q x) dst' /\ rt_space dst' = rt_space dst + rt_space rt /\
    rt_ops dst' = rt_ops dst.
Proof.
  intros [Hwf Hm] [Hwfd Hmd] Hdis.
  destruct (vacate_ok I rt (Some (range_tree_add (S := T) r)) dst Hwf) as (rt' & xs & Hxs & Hwf' & Hn & Hop & ->).
  pose proof Hwf as (_ & Hs & Hsp & _).
  destruct (for_segs_add_ok J r xs dst Hwfd) as (dst' & -> & Hwfd' & Hmd' & Hspd & Hopd).
  - rewrite Hxs. by apply segs_ok_NoDup.
  - eauto.
  - intros x Hx. rewrite (covers_perm xs _ x Hxs) in Hx. rewrite Hmd. intros HR. apply (Hdis x); [|done]. by apply Hm.
  - destruct (set_nil I rt' Hwf' Hn) as [Hs' Hz]. exists rt', dst'. split; [done|].
    do 4 (split; [done|]). split; [|split; [|done]].
    + split; [done|]. intros x. rewrite Hmd', Hmd, (covers_perm xs _ x Hxs). by rewrite <- (Hm x).
    + by rewrite Hspd, Hsp, (total_perm xs (segs rt)).
Qed.

(** Walking a tree with removals from another one. *)
Lemma set_walk_remove {S T} (I : list range_seg -> S -> Prop) (J : list range_seg -> T -> Prop)
    r (rt : range_tree S) (dst : range_tree T) Q R R' :
  is_set I Q rt -> is_set J R dst -> (forall x, Q x -> R x) -> (forall x, R' x <-> R x /\ ~ Q x) ->
  exists dst', range_tree_walk rt (range_tree_remove r) dst = Ret dst' /\ is_set J R' dst' /\
    rt_ops dst' = rt_ops dst.
Proof.
  intros [Hwf Hm] [Hwfd Hmd] Hin HR'. rewrite (walk_ok I) by done.
  destruct (for_segs_remove_ok J r (segs rt) dst Hwfd) as (dst' & -> & Hwfd' & Hmd' & Hop); [apply Hwf| |].
  - intros x Hx. apply Hmd, Hin, Hm. done.
  - exists dst'. split; [done|]. split; [|done]. split; [done|]. intros x.
    by rewrite Hmd', HR', Hmd, <- (Hm x).
Qed.

(** The segments of a set, and so its size, are determined by the set. *)
Lemma segs_ext L1 : forall L2, segs_ok L1 -> segs_ok L2 -> (forall x, covers L1 x <-> covers L2 x) -> L1 = L2.
Proof.
  assert (forall a K b K', segs_ok (a :: K) -> segs_ok (b :: K') ->
    (forall x, covers (a :: K) x <-> covers (b :: K') x) -> rs_start b <= rs_start a) as Hle.
  { intros a K b K' H1 H2 Hc. pose proof H1 as (Ha & _)%segs_ok_cons. pose proof H2 as (Hb & _)%segs_ok_cons.
    unfold seg_ok in *. specialize (Hc (rs_start a)). rewrite !covers_cons in Hc. unfold in_seg in Hc.
    destruct (proj1 Hc) as [?|Hk]; [lia|lia|]. pose proof (covers_seg_lt _ _ _ H2 Hk). lia. }
  assert (forall a K b K', segs_ok (a :: K) -> segs_ok (b :: K') -> rs_start a = rs_start b ->
    (forall x, covers (a :: K) x <-> covers (b :: K') x) -> rs_end b <= rs_end a) as Hle2.
  { intros a K b K' H1 H2 Hst Hc. pose proof H1 as (Ha & _)%segs_ok_cons. pose proof H2 as (Hb & _)%segs_ok_cons.
    unfold seg_ok in *. destruct (Z.le_gt_cases (rs_end b) (rs_end a)) as [|Hlt]; [done|exfalso].
    specialize (Hc (rs_end a)). rewrite !covers_cons in Hc. unfold in_seg in Hc.
    destruct (proj2 Hc) as [?|Hk]; [lia|lia|]. pose proof (covers_seg_lt _ _ _ H1 Hk). lia. }
  induction L1 as [|a L1 IH]; intros [|b L2] H1 H2 Hc; [done| | |].
  - exfalso. pose proof H2 as (Hb & _)%segs_ok_cons. unfold seg_ok in Hb.
    apply (covers_nil (rs_start b)), Hc, covers_cons. left. unfold in_seg. lia.
  - exfalso. pose proof H1 as (Ha & _)%segs_ok_cons. unfold seg_ok in Ha.
    apply (covers_nil (rs_start a)), Hc, covers_cons. left. unfold in_seg. lia.
  - assert (rs_start a = rs_start b) as Hst.
    { apply Z.le_antisymm; eapply Hle; eauto. intros x. by rewrite Hc. }
    assert (a = b) as ->.
    { destruct a as [sa ea], b as [sb eb]. cbn in Hst. subst sb. f_equal.
      apply Z.le_antisymm; [eapply (Hle2 (RangeSeg sa eb) L2 (RangeSeg sa ea) L1)|
        eapply (Hle2 (RangeSeg sa ea) L1 (RangeSeg sa eb) L2)]; auto. intros x. by rewrite Hc. }
    f_equal. pose proof H1 as (_ & HL1 & _)%segs_ok_cons. pose proof H2 as (_ & HL2 & _)%segs_ok_cons.
    apply IH; auto. intros x. specialize (Hc x). rewrite !covers_cons in Hc.
    pose proof (covers_seg_lt _ _ x H1). pose proof (covers_seg_lt _ _ x H2). unfold in_seg in *.
    intuition lia.
Qed.

Lemma set_space_eq {S T} (I : list range_seg -> S -> Prop) (J : list range_seg -> T -> Prop)
    (rt : range_tree S) (rt' : range_tree T) Q Q' :
  is_set I Q rt -> is_set J Q' rt' -> (forall x, Q x <-> Q' x) -> rt_space rt = rt_space rt'.
Proof.
  intros [(_ & Hs & -> & _) Hm] [(_ & Hs' & -> & _) Hm'] HQ. f_equal. apply segs_ext; auto.
  intros x. fold (rt_mem rt x) (rt_mem rt' x). by rewrite Hm, Hm'.
Qed.

(** No owner. *)
Definition no_owner : list range_seg -> unit -> Prop := fun _ _ => True.

Lemma set_create : exists rt, range_tree_create (S := unit) None tt = Ret rt /\
  is_set no_owner (fun _ => False) rt /\ rt_space rt = 0.
Proof.
  destruct (create_ok no_owner None tt) as (rt & Hc & Hwf & Hn & _); [done|].
  destruct (set_nil no_owner rt Hwf Hn). eauto.
Qed.

(** Two disjoint sets joined. *)
Lemma set_join {S T} (I : list range_seg -> S -> Prop) (J : list range_seg -> T -> Prop)
    (r1 : range_tree S) (r2 : range_tree T) Q R :
  is_set I Q r1 -> is_set J R r2 -> (forall x, Q x -> ~ R x) ->
  exists r : range_tree unit, is_set no_owner (fun x => Q x \/ R x) r /\
    rt_space r = rt_space r1 + rt_space r2.
Proof.
  intros H1 H2 Hd. destruct set_create as (r0 & _ & H0 & Hz).
  destruct (set_vacate_into I no_owner false r1 r0 Q _ H1 H0) as (_ & r & _ & _ & _ & _ & _ & Hr & Hsp & _); [tauto|].
  destruct (set_vacate_into J no_owner false r2 r R _ H2 Hr) as (_ & r' & _ & _ & _ & _ & _ & Hr' & Hsp' & _).
  { intros x HR [[]|HQ]. by apply (Hd x). }
  exists r'. split; [|lia]. eapply is_set_ext; [exact Hr'|]. intros x. cbn. tauto.
Qed.

(** An interval. *)
Lemma set_interval lo n :
  0 <= lo -> 0 < n -> lo + n < 2 ^ 64 ->
  exists r : range_tree unit, is_set no_owner (fun x => lo <= x < lo + n) r /\ rt_space r = n.
Proof.
  intros H1 H2 H3. destruct set_create as (r0 & _ & H0 & Hz).
  destruct (set_add no_owner false r0 _ (fun x => lo <= x < lo + n) lo n H0) as (r & _ & Hr & Hsp & _); auto.
  { tauto. }
  exists r. split; [done|lia].
Qed.

(** The segments of a set of whole sectors. *)
Lemma set_aligned {S} (I : list range_seg -> S -> Prop) (rt : range_tree S) Q u rs :
  is_set I Q rt -> 0 < u -> (forall x y, x / u = y / u -> Q x -> Q y) -> rs ∈ segs rt ->
  rs_start rs mod u = 0 /\ rs_end rs mod u = 0.
Proof.
  intros [(_ & Hs & _) Hm] Hu HQ Hin. pose proof Hs as [_ Hok]. rewrite Forall_forall in Hok.
  specialize (Hok rs Hin). unfold seg_ok in Hok.
  assert (forall x, Q x -> exists rs', rs' ∈ segs rt /\ in_seg rs' x) as Hex.
  { intros x Hx. apply Hm, covers_In in Hx as (rs' & ? & ?). eauto. }
  assert (forall x, in_seg rs x -> Q x) as HinQ.
  { intros x Hx. apply Hm, covers_In. eauto. }
  split.
  - destruct (Z.eq_dec (rs_start rs mod u) 0) as [|Hne]; [done|exfalso].
    destruct (Hex (rs_start rs - 1)) as (rs' & Hin' & Hx').
    { apply (HQ (rs_start rs)); [|apply HinQ; unfold in_seg; lia].
      apply (Z.div_unique_pos _ _ _ (rs_start rs mod u - 1)).
      - pose proof (Z.mod_pos_bound (rs_start rs) u Hu). lia.
      - pose proof (Z.div_mod (rs_start rs) u ltac:(lia)). lia. }
    assert (rs = rs') as <-.
    { apply (segs_unique _ rs rs' (rs_start rs) Hs Hin Hin'); unfold in_seg in *; lia. }
    unfold in_seg in Hx'. lia.
  - destruct (Z.eq_dec (rs_end rs mod u) 0) as [|Hne]; [done|exfalso].
    destruct (Hex (rs_end rs)) as (rs' & Hin' & Hx').
    { apply (HQ (rs_end rs - 1)); [|apply HinQ; unfold in_seg; lia].
      symmetry. apply (Z.div_unique_pos _ _ _ (rs_end rs mod u - 1)).
      - pose proof (Z.mod_pos_bound (rs_end rs) u Hu). lia.
      - pose proof (Z.div_mod (rs_end rs) u ltac:(lia)). lia. }
    assert (rs' = rs) as ->.
    { apply (segs_unique _ rs' rs (rs_end rs) Hs Hin' Hin); unfold in_seg in *; lia. }
    unfold in_seg in Hx'. lia.
Qed.

(** ** Sizes of sets *)

(** A set of [n] offsets. *)
Definition sized (Q : Z -> Prop) (n : Z) : Prop :=
  exists rt : range_tree unit, is_set no_owner Q rt /\ rt_space rt = n.

Lemma sized_set {S} (I : list range_seg -> S -> Prop) (rt : range_tree S) Q :
  is_set I Q rt -> sized Q (rt_space rt).
Proof.
  intros H. destruct set_create as (r0 & _ & H0 & Hz).
  destruct (set_join I no_owner rt r0 Q _ H H0) as (r & Hr & Hsp); [tauto|].
  exists r. split; [|lia]. eapply is_set_ext; [exact Hr|]. intros x. cbn. tauto.
Qed.

Lemma sized_join P Q R n m :
  sized Q n -> sized R m -> (forall x, Q x -> ~ R x) -> (forall x, P x <-> Q x \/ R x) -> sized P (n + m).
Proof.
  intros (r1 & H1 & <-) (r2 & H2 & <-) Hd HP.
  destruct (set_join no_owner no_owner r1 r2 Q R H1 H2 Hd) as (r & Hr & Hsp).
  exists r. split; [|done]. eapply is_set_ext; [exact Hr|]. intros x. by rewrite HP.
Qed.

Lemma sized_unique Q n m : sized Q n -> sized Q m -> n = m.
Proof. intros (r1 & H1 & <-) (r2 & H2 & <-). by apply (set_space_eq no_owner no_owner r1 r2 Q Q). Qed.

Lemma sized_nonneg Q n : sized Q n -> 0 <= n.
Proof. intros (r & H & <-). by eapply set_space_nonneg. Qed.

Lemma sized_none Q n : sized Q n -> (forall x, ~ Q x) -> n = 0.
Proof. intros (r & H & <-) Hn. by apply (set_empty no_owner r Q H). Qed.

Lemma sized_bound Q n lo hi : sized Q n -> lo <= hi -> (forall x, Q x -> lo <= x < hi) -> n <= hi - lo.
Proof.
  intros (r & [Hwf Hm] & <-) Hle HQ. apply (space_bound no_owner); auto. intros x Hx. by apply HQ, Hm.
Qed.

(** A range none of whose offsets is in the set passes [range_tree_verify]. *)
Lemma set_verify {S} (I : list range_seg -> S -> Prop) (rt : range_tree S) Q off n :
  is_set I Q rt -> 0 <= off -> 0 < n -> off + n < 2 ^ 64 -> ~ Q off ->
  range_tree_verify rt off n = Ret tt.
Proof.
  intros [Hwf Hm] H1 H2 H3 Hn. apply (verify_ok I); auto. intros Hall. apply Hn, Hm, Hall. lia.
Qed.

Lemma set_contains {S} (I : list range_seg -> S -> Prop) (rt : range_tree S) Q off n :
  is_set I Q rt -> 0 <= off -> 0 < n -> off + n < 2 ^ 64 ->
  exists b, range_tree_contains rt off n = Ret b /\ (b = true <-> forall x, off <= x < off + n -> Q x).
Proof.
  intros [Hwf Hm] H1 H2 H3. destruct (contains_ok I rt off n) as (b & Hb & Hiff); auto.
  exists b. split; [done|]. rewrite Hiff. by setoid_rewrite Hm.
Qed.

(** A tree of its own, without callbacks, created and in the end destroyed. *)
Lemma set_create_plain : exists rt, range_tree_create (S := unit) None tt = Ret rt /\
  is_set no_owner (fun _ => False) rt /\ rt_ops rt = None.
Proof.
  destruct (create_ok no_owner None tt) as (rt & Hc & Hwf & Hn & Hop); [done|].
  destruct (set_nil no_owner rt Hwf Hn). eauto.
Qed.

Lemma set_destroy_plain (rt : range_tree unit) :
  rt_space rt = 0 -> rt_ops rt = None -> range_tree_destroy rt = Ret (rt_arg rt).
Proof. intros Hz Hop. unfold range_tree_destroy, call. by rewrite Hz, Hop. Qed.

(** Vacating a tree and forgetting what it held. *)
Lemma set_vacate_any {S T} (I : list range_seg -> S -> Prop) (rt : range_tree S) Q (arg : T) :
  is_set I Q rt ->
  exists rt', range_tree_vacate rt None arg = Ret (rt', arg) /\ is_set I (fun _ => False) rt' /\
    rt_space rt' = 0 /\ rt_ops rt' = rt_ops rt /\ segs rt' = [].
Proof.
  intros [Hwf Hm]. destruct (vacate_ok I rt None arg Hwf) as (rt' & xs & _ & Hwf' & Hn & Hop & ->).
  destruct (set_nil I rt' Hwf' Hn) as [Hs Hz]. by exists rt'.
Qed.
