(* ===== verification/MetaslabAlloc.v ===== *)
(** * Block allocators of a metaslab

    Model of the size-ordered tree and the block allocators of
    [kernel/fs/zfs/metaslab.c]: the callbacks [metaslab_rt_ops] that keep
    [ms_allocatable_by_size] in step with [ms_allocatable], the search for a
    block and the four allocators (first fit, dynamic fit, cursor fit, new
    dynamic fit).  The callbacks discharge the interface [OpsSpec] of the range
    tree. *)

From S2P Require Import Prelude Avl RangeTree.

(** [metaslab_rangesize_compare]: by size, then by start. *)
Definition metaslab_rangesize_compare (r1 r2 : range_seg) : Z :=
  let rs_size1 := sub64 (rs_end r1) (rs_start r1) in
  let rs_size2 := sub64 (rs_end r2) (rs_start r2) in
  if rs_size1 <? rs_size2 then -1
  else if rs_size2 <? rs_size1 then 1
  else if rs_start r1 <? rs_start r2 then -1
  else if rs_start r2 <? rs_start r1 then 1
  else 0.

(** The comparison a tree was created with, named where it is searched. *)
Definition by_start : Compar range_seg range_seg := range_tree_seg_compare.
Definition by_size : Compar range_seg range_seg := metaslab_rangesize_compare.

(** ** The callbacks *)

(** What the callbacks use of the [metaslab_t] they get as [rt_arg]. *)
Record rt_owner : Type := RtOwner {
  ms_allocatable_by_size : avl_tree range_seg;
  ms_condensing : bool }.

Definition set_by_size (o : rt_owner) (t : avl_tree range_seg) : rt_owner :=
  RtOwner t (ms_condensing o).

Definition metaslab_rt_create (o : rt_owner) : result rt_owner := Ret (set_by_size o avl_create).

(** [avl_destroy] only checks that the tree is empty. *)
Definition metaslab_rt_destroy (o : rt_owner) : result rt_owner := Ret o.

Definition metaslab_rt_add (rs : range_seg) (o : rt_owner) : result rt_owner :=
  _ ← verify (negb (ms_condensing o));
  t ← @avl_add _ by_size (ms_allocatable_by_size o) rs;
  Ret (set_by_size o t).

Definition metaslab_rt_remove (rs : range_seg) (o : rt_owner) : result rt_owner :=
  _ ← verify (negb (ms_condensing o));
  Ret (set_by_size o (avl_remove (ms_allocatable_by_size o) rs)).

Definition metaslab_rt_vacate (o : rt_owner) : result rt_owner := Ret (set_by_size o avl_create).

Definition metaslab_rt_ops : range_tree_ops rt_owner :=
  RangeTreeOps rt_owner metaslab_rt_create metaslab_rt_destroy metaslab_rt_add
    metaslab_rt_remove metaslab_rt_vacate.

(** ** The search *)

(** [P2ROUNDUP] on [uint64_t]. *)
Definition neg64 (x : Z) : Z := wrap64 (- x).
Definition P2ROUNDUP (x align : Z) : Z := neg64 (Z.land (neg64 x) (neg64 align)).

(** [-1ULL], the offset that stands for a failed allocation. *)
Definition NO_OFFSET : Z := 2 ^ 64 - 1.

Definition metaslab_block_maxsize (rt : range_tree rt_owner) : Z :=
  match avl_last (ms_allocatable_by_size (rt_arg rt)) with
  | None => 0
  | Some rs => sub64 (rs_end rs) (rs_start rs)
  end.

Section Picker.
Context (cmp : Compar range_seg range_seg) (t : avl_tree range_seg).

Definition metaslab_block_find (start size : Z) : option range_seg :=
  match @avl_find _ _ cmp t (RangeSeg start (add64 start size)) with
  | inl rs => Some rs
  | inr where_ => avl_nearest t where_ true
  end.

(** The [while] loop of [metaslab_block_picker]; it moves to the next node each
    time, so that the number of nodes bounds its rounds. *)
Fixpoint picker_loop (fuel : nat) (rs : option range_seg) (size align : Z) : option (option Z) :=
  match rs with
  | None => Some None
  | Some rs =>
      match fuel with
      | O => None
      | S fuel' =>
          let offset := P2ROUNDUP (rs_start rs) align in
          if add64 offset size <=? rs_end rs then Some (Some offset)
          else picker_loop fuel' (AVL_NEXT t rs) size align
      end
  end.

(** One pass of [metaslab_block_picker] from the cursor. *)
Definition picker_pass (cursor size align : Z) : option (option Z) :=
  picker_loop (length (elements t)) (metaslab_block_find cursor size) size align.

(** The offset found and the cursor after it.  The recursive call starts from
    cursor 0, where it gives up. *)
Definition metaslab_block_picker (cursor size align : Z) : result (Z * Z) :=
  match picker_pass cursor size align with
  | None => Panic
  | Some (Some offset) => Ret (offset, add64 offset size)
  | Some None =>
      if cursor =? 0 then Ret (NO_OFFSET, cursor)
      else
        match picker_pass 0 size align with
        | None => Panic
        | Some (Some offset) => Ret (offset, add64 offset size)
        | Some None => Ret (NO_OFFSET, 0)
        end
  end.
End Picker.

(** ** The allocators

    The state an allocator works on: the range tree [ms_allocatable] with its
    size-ordered tree, and the cursors. *)

Definition MAX_LBAS : nat := 64.

(** The tunables, by their names in the source. *)
Record alloc_params : Type := AllocParams {
  metaslab_df_alloc_threshold : Z;
  metaslab_df_free_pct : Z;
  metaslab_ndf_clump_shift : Z }.

Definition default_params : alloc_params := AllocParams (2 ^ 17) 4 4.

(** An allocator: from the cursors and the size to the offset and the cursors. *)
Definition allocator : Type :=
  range_tree rt_owner -> Z -> list Z -> Z -> result (Z * list Z).

(** [size & -size], the largest power of two that divides the size. *)
Definition lowbit (size : Z) : Z := Z.land size (neg64 size).

Definition metaslab_ff_alloc : allocator := fun rt ms_size ms_lbas size =>
  let align := lowbit size in
  let i := Z.to_nat (highbit64 align - 1) in
  cursor ← rd ms_lbas i;
  '(offset, cursor) ← metaslab_block_picker by_start (rt_root rt) cursor size align;
  ms_lbas ← wr ms_lbas i cursor;
  Ret (offset, ms_lbas).

(** [range_tree_space(rt) * 100 / ms_size]. *)
Definition free_pct (rt : range_tree rt_owner) (ms_size : Z) : Z :=
  wrap64 (rt_space rt * 100) / ms_size.

Definition metaslab_df_alloc (p : alloc_params) : allocator := fun rt ms_size ms_lbas size =>
  let align := lowbit size in
  let i := Z.to_nat (highbit64 align - 1) in
  let max_size := metaslab_block_maxsize rt in
  if max_size <? size then Ret (NO_OFFSET, ms_lbas)
  else
    cursor ← rd ms_lbas i;
    '(offset, cursor) ←
      (if (max_size <? metaslab_df_alloc_threshold p) ||
          (free_pct rt ms_size <? metaslab_df_free_pct p)
       then metaslab_block_picker by_size (ms_allocatable_by_size (rt_arg rt)) 0 size 1
       else metaslab_block_picker by_start (rt_root rt) cursor size 1);
    ms_lbas ← wr ms_lbas i cursor;
    Ret (offset, ms_lbas).

(** [offset = *cursor; *cursor += size; return (offset);] *)
Definition cf_take (cursor : Z) (ms_lbas : list Z) (size : Z) : result (Z * list Z) :=
  ms_lbas ← wr ms_lbas 0 (add64 cursor size);
  Ret (cursor, ms_lbas).

Definition metaslab_cf_alloc : allocator := fun rt ms_size ms_lbas size =>
  cursor ← rd ms_lbas 0;
  cursor_end ← rd ms_lbas 1;
  if cursor_end <? add64 cursor size then
    match avl_last (ms_allocatable_by_size (rt_arg rt)) with
    | None => Ret (NO_OFFSET, ms_lbas)
    | Some rs =>
        if sub64 (rs_end rs) (rs_start rs) <? size then Ret (NO_OFFSET, ms_lbas)
        else
          ms_lbas ← wr ms_lbas 1 (rs_end rs);
          cf_take (rs_start rs) ms_lbas size
    end
  else cf_take cursor ms_lbas size.

(** The segment [metaslab_ndf_alloc] settles on; the assertion that there is
    one guards a dereference. *)
Definition ndf_pick (p : alloc_params) (rt : range_tree rt_owner) (cursor size : Z)
    : result range_seg :=
  let by_size_tree := ms_allocatable_by_size (rt_arg rt) in
  let largest :=
    match metaslab_block_find by_size by_size_tree 0
            (Z.min (metaslab_block_maxsize rt)
               (wrap64 (Z.shiftl 1 (highbit64 size + metaslab_ndf_clump_shift p)))) with
    | None => Panic
    | Some rs => Ret rs
    end in
  match @avl_find _ _ by_start (rt_root rt) (RangeSeg cursor (add64 cursor size)) with
  | inr _ => largest
  | inl rs => if sub64 (rs_end rs) (rs_start rs) <? size then largest else Ret rs
  end.

Definition metaslab_ndf_alloc (p : alloc_params) : allocator := fun rt ms_size ms_lbas size =>
  let i := Z.to_nat (highbit64 size - 1) in
  let max_size := metaslab_block_maxsize rt in
  if max_size <? size then Ret (NO_OFFSET, ms_lbas)
  else
    cursor ← rd ms_lbas i;
    rs ← ndf_pick p rt cursor size;
    if size <=? sub64 (rs_end rs) (rs_start rs) then
      ms_lbas ← wr ms_lbas i (add64 (rs_start rs) size);
      Ret (rs_start rs, ms_lbas)
    else Ret (NO_OFFSET, ms_lbas).

(** * Properties *)

(** ** The order by size *)

#[local] Existing Instance by_size | 0.

#[export] Instance by_size_laws : @ComparLaws range_seg by_size.
Proof.
  constructor; unfold avl_compar, by_size, metaslab_rangesize_compare.
  - intros a b. repeat split_if; cbn; lia.
  - intros a b c. repeat split_if; cbn; lia.
Qed.

Lemma rangesize_eq a b :
  seg_ok a -> seg_ok b -> metaslab_rangesize_compare a b = 0 -> a = b.
Proof.
  intros Ha Hb. unfold metaslab_rangesize_compare. 
  pose proof (seg_size_ok a Ha) as Sa. pose proof (seg_size_ok b Hb) as Sb. unfold seg_size in *.
  rewrite Sa, Sb. destruct a as [s e], b as [s' e']; cbn in *.
  repeat split_if; try done. intros _. f_equal; lia.
Qed.

(** The size-ordered tree holds the segments of the range tree. *)
Definition mirrors (L : list range_seg) (o : rt_owner) : Prop :=
  ms_condensing o = false /\ avl_wf (ms_allocatable_by_size o) /\
  @ordered _ by_size (ms_allocatable_by_size o) /\
  elements (ms_allocatable_by_size o) ≡ₚ L /\ Forall seg_ok L.

Lemma metaslab_rt_creates t : creates mirrors metaslab_rt_ops (RtOwner t false).
Proof.
  eexists; split; [done|]. unfold mirrors. cbn. split_and!; auto using avl_create_wf.
  unfold ordered. constructor.
Qed.

(** The callbacks keep the promise the range tree relies on. *)
#[export] Instance metaslab_rt_ops_spec : OpsSpec metaslab_rt_ops mirrors.
Proof.
  constructor; cbn.
  - intros L L' o HP (H1 & H2 & H3 & H4 & H5). unfold mirrors. rewrite <- HP. done.
  - intros L rs o Hrs Hn (H1 & H2 & H3 & H4 & H5). unfold metaslab_rt_add. rewrite H1. cbn.
    apply segs_ok_cons in Hrs as [Hrs _].
    destruct (avl_add_ordered (ms_allocatable_by_size o) rs) as (t' & -> & Hw & Ho & Hel); auto.
    { apply Forall_forall. intros y Hy Heq. rewrite H4 in Hy.
      rewrite Forall_forall in H5. apply rangesize_eq in Heq as ->; auto. }
    eexists; split; [done|]. unfold mirrors; cbn. split_and!; auto. by rewrite Hel, H4.
  - intros L rs o Hn (H1 & H2 & H3 & H4 & H5). unfold metaslab_rt_remove. rewrite H1. cbn.
    assert (rs ∈ elements (ms_allocatable_by_size o)) as Hin by (rewrite H4; left).
    apply list_elem_of_split in Hin as (k1 & k2 & Hel).
    destruct (avl_remove_spec (ms_allocatable_by_size o) k1 rs k2) as [Hw Hel'];
      [done|by apply ordered_NoDup|done|].
    eexists; split; [done|]. apply Forall_cons in H5 as [_ H5].
    unfold mirrors; cbn. split_and!; auto.
    + unfold ordered in *. rewrite Hel', Hel in *. apply StronglySorted_app in H3 as (S1 & S2 & S3).
      apply StronglySorted_app. split_and!; auto.
      * intros; apply S1; auto. by right.
      * by apply StronglySorted_inv in S3 as [? _].
    + rewrite Hel' . rewrite Hel, <- Permutation_middle in H4. by apply Permutation_cons_inv in H4.
  - intros L o (H1 & _). eexists; split; [done|]. unfold mirrors; cbn.
    split_and!; auto using avl_create_wf. unfold ordered. constructor.
Qed.

(** ** The search for a block *)

Lemma neg64_pow2 k : 0 <= k < 64 -> neg64 (2 ^ k) = 2 ^ 64 - 2 ^ k.
Proof.
  intros Hk. unfold neg64, wrap64. pose proof (Z.pow_pos_nonneg 2 k ltac:(lia) ltac:(lia)).
  assert (2 ^ k <= 2 ^ 63) by (apply Z.pow_le_mono_r; lia).
  symmetry. apply (Z.mod_unique_pos _ _ (-1)); lia.
Qed.

Lemma land_high y k : 0 <= k <= 64 -> u64 y -> Z.land y (2 ^ 64 - 2 ^ k) = y - y mod 2 ^ k.
Proof.
  intros Hk Hy. assert (y - y mod 2 ^ k = Z.ldiff y (Z.ones k)) as ->.
  { rewrite Z.ldiff_ones_r, Z.shiftl_mul_pow2, Z.shiftr_div_pow2 by lia.
    pose proof (Z.pow_pos_nonneg 2 k ltac:(lia) ltac:(lia)). 
    rewrite (Z.div_mod y (2 ^ k)) at 1 by lia. lia. }
  replace (2 ^ 64 - 2 ^ k) with (Z.ldiff (Z.ones 64) (Z.ones k)).
  2: { rewrite Z.ldiff_ones_r, Z.shiftl_mul_pow2, Z.shiftr_div_pow2, Z.ones_equiv by lia.
    assert (2 ^ 64 = 2 ^ k * 2 ^ (64 - k)) as Hp by (rewrite <- Z.pow_add_r by lia; f_equal; lia).
    pose proof (Z.pow_pos_nonneg 2 k ltac:(lia) ltac:(lia)).
    replace (Z.pred (2 ^ 64) / 2 ^ k) with (2 ^ (64 - k) - 1); [lia|].
    apply (Z.div_unique_pos _ _ _ (2 ^ k - 1)); lia. }
  apply Z.bits_inj'. intros n Hn. rewrite Z.land_spec, !Z.ldiff_spec.
  destruct (Z_lt_le_dec n 64) as [Hlt|Hge].
  - rewrite (Z.ones_spec_low 64) by lia. done.
  - rewrite <- (Z.mod_small y (2 ^ 64)), Z.mod_pow2_bits_high by (unfold u64 in Hy; lia). done.
Qed.

(** [P2ROUNDUP] rounds up to a multiple of a power of two. *)
Lemma P2ROUNDUP_spec x k :
  0 <= k < 64 -> 0 <= x -> x + 2 ^ k <= 2 ^ 64 ->
  x <= P2ROUNDUP x (2 ^ k) < x + 2 ^ k /\ P2ROUNDUP x (2 ^ k) mod 2 ^ k = 0.
Proof.
  intros Hk Hx Hb. unfold P2ROUNDUP. rewrite neg64_pow2, land_high by (lia || apply wrap64_u64).
  pose proof (Z.pow_pos_nonneg 2 k ltac:(lia) ltac:(lia)) as Hp.
  assert (2 ^ 64 mod 2 ^ k = 0) as H64.
  { replace (2 ^ 64) with (2 ^ (64 - k) * 2 ^ k) by (rewrite <- Z.pow_add_r by lia; f_equal; lia).
    by apply Z.mod_mul; lia. }
  destruct (Z.eq_dec x 0) as [->|Hnz].
  - change (neg64 0) with 0. rewrite Z.mod_0_l by lia. change (neg64 (0 - 0)) with 0.
    rewrite Z.mod_0_l; lia.
  - assert (neg64 x = 2 ^ 64 - x) as ->.
    { unfold neg64, wrap64. symmetry. apply (Z.mod_unique_pos _ _ (-1)); lia. }
    pose proof (Z.mod_pos_bound (2 ^ 64 - x) (2 ^ k) ltac:(lia)) as Hm.
    set (r := (2 ^ 64 - x) mod 2 ^ k) in *.
    assert (neg64 (2 ^ 64 - x - r) = x + r) as ->.
    { unfold neg64, wrap64. replace (- (2 ^ 64 - x - r)) with (x + r + -1 * 2 ^ 64) by lia.
      rewrite Z.mod_add by lia. apply Z.mod_small. lia. }
    split; [lia|]. unfold r. rewrite Zplus_mod_idemp_r. by replace (x + (2 ^ 64 - x)) with (2 ^ 64) by lia.
Qed.

Lemma odd_part n : 0 < n -> exists k m, 0 <= k /\ 0 <= m /\ n = 2 ^ k * (2 * m + 1).
Proof.
  intros Hn. assert (0 <= n) as H0 by lia. revert Hn. pattern n.
  apply Zlt_0_ind; [|done]. clear n H0. intros n IH _ Hn.
  destruct (Z.Even_or_Odd n) as [[m ->]|[m ->]].
  - destruct (IH m) as (k & m' & Hk & Hm & ->); [lia..|]. exists (Z.succ k), m'.
    rewrite Z.pow_succ_r by lia. lia.
  - exists 0, m. lia.
Qed.

Lemma land_neg_odd m n : 0 < n -> 0 <= m -> 2 * m + 1 < 2 ^ n -> Z.land (2 * m + 1) (2 ^ n - (2 * m + 1)) = 1.
Proof.
  intros Hn Hm Hlt. replace (2 ^ n - (2 * m + 1)) with (Z.ldiff (Z.ones n) (2 * m)).
  2: { rewrite <- Z.sub_nocarry_ldiff; [rewrite Z.ones_equiv; lia|].
    apply Z.ldiff_ones_r_low; [lia|]. destruct (Z.eq_dec m 0) as [->|]; [done|].
    apply Z.log2_lt_pow2; lia. }
  apply Z.bits_inj'. intros i Hi. rewrite Z.land_spec, Z.ldiff_spec.
  destruct (Z.eq_dec i 0) as [->|].
  - rewrite Z.testbit_odd_0, Z.testbit_even_0, Z.ones_spec_low by lia. done.
  - replace i with (Z.succ (Z.pred i)) by lia.
    rewrite Z.testbit_odd_succ, Z.testbit_even_succ by lia.
    rewrite (Z.bits_above_log2 1) by (cbn; lia). by destruct (Z.testbit m _), (Z.testbit _ _).
Qed.

Lemma pow2_divides k j m : 0 <= k -> 0 <= j -> (2 ^ k * (2 * m + 1)) mod 2 ^ j = 0 -> j <= k.
Proof.
  intros Hk Hj Hmod. destruct (Z_le_gt_dec j k) as [|Hgt]; [done|exfalso].
  apply Z.mod_divide in Hmod as [q Hq]; [|lia].
  replace (2 ^ j) with (2 ^ k * (2 * 2 ^ (j - k - 1))) in Hq.
  2: { rewrite <- Z.pow_succ_r, <- Z.pow_add_r by lia. f_equal. lia. }
  pose proof (Z.pow_pos_nonneg 2 k ltac:(lia) ltac:(lia)).
  assert (2 * m + 1 = q * (2 * 2 ^ (j - k - 1))) by nia. lia.
Qed.

(** [size & -size] is the largest power of two that divides the size. *)
Lemma lowbit_spec size :
  0 < size < 2 ^ 64 ->
  exists k, 0 <= k < 64 /\ lowbit size = 2 ^ k /\ highbit64 (lowbit size) - 1 = k /\
    size mod 2 ^ k = 0 /\ forall j, 0 <= j -> size mod 2 ^ j = 0 -> j <= k.
Proof.
  intros Hs. destruct (odd_part size) as (k & m & Hk & Hm & Heq); [lia|].
  pose proof (Z.pow_pos_nonneg 2 k ltac:(lia) ltac:(lia)) as Hp.
  assert (k < 64) as Hk64.
  { apply (Z.pow_lt_mono_r_iff 2); [lia..|]. nia. }
  assert (lowbit size = 2 ^ k) as Hl.
  { unfold lowbit. replace (neg64 size) with (2 ^ 64 - size).
    2: { unfold neg64, wrap64. apply (Z.mod_unique_pos _ _ (-1)); lia. }
    replace (2 ^ 64) with (2 ^ k * 2 ^ (64 - k)) in * by (rewrite <- Z.pow_add_r by lia; f_equal; lia).
    replace (2 ^ k * 2 ^ (64 - k) - size) with (2 ^ k * (2 ^ (64 - k) - (2 * m + 1))) by lia.
    rewrite Heq, !(Z.mul_comm (2 ^ k)), <- !Z.shiftl_mul_pow2, <- Z.shiftl_land by lia.
    rewrite land_neg_odd; [rewrite Z.shiftl_1_l; lia|lia|lia|nia]. }
  exists k. rewrite Hl. split_and!; auto.
  - unfold highbit64. destruct (Z.eqb_spec (2 ^ k) 0); [lia|]. rewrite Z.log2_pow2; lia.
  - rewrite Heq, Z.mul_comm. by apply Z.mod_mul; lia.
  - intros j Hj. rewrite Heq. by apply pow2_divides.
Qed.

(** Where a block of [size] at a multiple of [align] fits in a segment. *)
Definition fits (size align : Z) (rs : range_seg) : bool :=
  add64 (P2ROUNDUP (rs_start rs) align) size <=? rs_end rs.

(** The loop takes the first node from [rs] on in which the block fits. *)
Lemma picker_loop_ok (t : avl_tree range_seg) size align : forall k2 k1 fuel,
  NoDup (elements t) -> elements t = k1 ++ k2 -> (length k2 <= fuel)%nat ->
  picker_loop t fuel (head k2) size align =
    Some ((fun rs => P2ROUNDUP (rs_start rs) align) <$> head (filter (fits size align) k2)).
Proof.
  induction k2 as [|rs k2 IH]; intros k1 fuel Hnd Hel Hf; cbn [head]; [by destruct fuel|].
  destruct fuel as [|fuel]; cbn [length] in Hf; [lia|]. cbn [picker_loop].
  rewrite filter_cons. fold (fits size align rs). destruct (fits size align rs) eqn:E.
  - by rewrite decide_True by done.
  - rewrite decide_False by (intros []). 
    destruct (avl_walk_spec t k1 rs k2) as [-> _]; [done..|].
    apply (IH (k1 ++ [rs])); [done| |lia]. by rewrite <- app_assoc.
Qed.

(** Where the search starts. *)
Lemma block_find_split (cmp : Compar range_seg range_seg) (t : avl_tree range_seg) start size :
  exists k1 k2, elements t = k1 ++ k2 /\ metaslab_block_find cmp t start size = head k2.
Proof.
  unfold metaslab_block_find, avl_find.
  pose proof (@find_loop_plug _ _ cmp (RangeSeg start (add64 start size)) (avl_root t) []) as H.
  destruct (find_loop _ _ _) as [z|w].
  - apply (f_equal inorder) in H. rewrite inorder_plug in H. unfold at_pos in H.
    cbn [plug inorder] in H. exists (before (p_path z) ++ inorder (p_l z)), (p_x z :: inorder (p_r z) ++ after (p_path z)).
    split; [|done]. unfold elements. rewrite <- H. by rewrite <- !app_assoc.
  - apply (f_equal inorder) in H. rewrite inorder_plug in H. cbn [plug inorder app] in H.
    exists (before w), (after w). split; [done|]. apply avl_nearest_next.
Qed.

(** What a search from cursor 0 must not pass over. *)
Definition starts_low (cmp : Compar range_seg range_seg) (t : avl_tree range_seg) (size : Z) : Prop :=
  exists k1 k2, elements t = k1 ++ k2 /\ metaslab_block_find cmp t 0 size = head k2 /\
    Forall (fun rs => rs_end rs - rs_start rs < size) k1.

Lemma starts_low_by_start (rt : range_tree rt_owner) size :
  segs_ok (segs rt) -> 0 < size < 2 ^ 64 -> starts_low by_start (rt_root rt) size.
Proof.
  intros Hs Hsz. unfold starts_low, metaslab_block_find. rewrite add64_small by (unfold u64; lia).
  pose proof (find_spec mirrors rt 0 (0 + size) Hs ltac:(lia)) as Hf. unfold avl_compar in *.
  change range_seg_compar with by_start in Hf. unfold segs in *.
  destruct (@avl_find _ _ by_start _ _) as [rs|w].
  - destruct Hf as (Hin & H1 & H2). apply list_elem_of_split in Hin as (k1 & k2 & Hel).
    exists k1, (rs :: k2). split_and!; [done|done|]. rewrite Hel in Hs.
    apply segs_ok_app in Hs as ([_ Hk] & _ & Hg). rewrite Forall_forall in Hk |- *.
    intros a Ha. specialize (Hk a Ha). specialize (Hg a rs Ha ltac:(left)).
    unfold gap, seg_ok in *. lia.
  - destruct Hf as (L1 & L2 & Hel & (P1 & _ & P2) & _ & <- & <-).
    exists (before w), (after w). split_and!; [done|apply avl_nearest_next|].
    rewrite Hel in Hs. apply segs_ok_app in Hs as ([_ Hk] & _).
    rewrite Forall_forall in Hk |- *. intros a Ha. specialize (Hk a Ha). specialize (P1 a Ha).
    unfold seg_ok in *. lia.
Qed.

(** A list in the order by size, cut at the segments of at least [size]. *)
Lemma by_size_cut size k :
  0 < size < 2 ^ 64 -> StronglySorted (@compar_lt _ by_size) k -> Forall seg_ok k ->
  exists L1 M L2, k = L1 ++ M ++ L2 /\ @cut _ _ by_size (RangeSeg 0 size) L1 M L2 /\
    Forall (fun rs => rs_end rs - rs_start rs < size) L1.
Proof.
  intros Hsz. induction 1 as [|a k Hk IH Ha]; intros Hok.
  { exists [], [], []. split_and!; auto; unfold cut; auto. }
  apply Forall_cons in Hok as [Hak Hok]. destruct (IH Hok) as (L1 & M & L2 & -> & (C1 & C2 & C3) & Hlt).
  pose proof (seg_size_ok a Hak) as Sa. unfold seg_size in Sa.
  assert (@avl_compar _ _ by_size (RangeSeg 0 size) a = 0 \/
    @avl_compar _ _ by_size (RangeSeg 0 size) a < 0 \/
    (0 < @avl_compar _ _ by_size (RangeSeg 0 size) a /\ rs_end a - rs_start a < size)) as Hc.
  { unfold avl_compar, by_size, metaslab_rangesize_compare. cbn [rs_start rs_end].
    rewrite Sa, sub64_small by (unfold u64; lia). unfold seg_ok in Hak. repeat split_if; lia. }
  assert (forall y, y ∈ L1 ++ M ++ L2 -> @avl_compar _ _ by_size (RangeSeg 0 size) a <= 0 ->
    @avl_compar _ _ by_size (RangeSeg 0 size) y < 0) as Hup.
  { intros y Hy Hle. rewrite Forall_forall in Ha. specialize (Ha y Hy). unfold compar_lt in Ha.
    destruct (Z.eq_dec (@avl_compar _ _ by_size (RangeSeg 0 size) a) 0) as [Hz|].
    - revert Hz Ha. unfold avl_compar, by_size, metaslab_rangesize_compare. cbn [rs_start rs_end].
      repeat split_if; lia.
    - eapply (@compar_trans _ by_size _ _ a); [lia|done]. }
  destruct Hc as [Hc|[Hc|[Hc Hs]]].
  - exists [], [a], (L1 ++ M ++ L2). split_and!; auto. unfold cut. split_and!; auto.
    apply Forall_forall. intros y Hy. apply Hup; [done|lia].
  - exists [], [], (a :: L1 ++ M ++ L2). split_and!; auto. unfold cut. split_and!; auto.
    constructor; [done|]. apply Forall_forall. intros y Hy. apply Hup; [done|lia].
  - exists (a :: L1), M, L2. split_and!; auto. unfold cut. split_and!; auto.
Qed.

Lemma starts_low_by_size L o size :
  mirrors L o -> 0 < size < 2 ^ 64 -> starts_low by_size (ms_allocatable_by_size o) size.
Proof.
  intros (_ & _ & Ho & Hel & Hok) Hsz. rewrite <- Hel in Hok.
  destruct (by_size_cut size _ Hsz Ho Hok) as (L1 & M & L2 & Heq & Hc & Hlt).
  pose proof (@avl_find_spec _ _ by_size (ms_allocatable_by_size o) _ _ _ _ Hc Heq) as Hf.
  unfold starts_low, metaslab_block_find. rewrite add64_small by (unfold u64; lia).
  rewrite Z.add_0_l. destruct (@avl_find _ _ by_size _ _) as [rs|w].
  - apply list_elem_of_split in Hf as (m1 & m2 & ->). exists (L1 ++ m1), (rs :: m2 ++ L2).
    split_and!; [by rewrite Heq, <- !app_assoc|done|].
    apply Forall_app. split; [done|]. destruct Hc as (_ & C2 & C3).
    apply Forall_app in C2 as [C2 C2'%Forall_inv]. apply Forall_forall. intros a Ha. exfalso.
    rewrite Forall_forall in C2. specialize (C2 a Ha).
    assert (a = rs) as ->.
    { rewrite Heq in Hok. rewrite !Forall_app, Forall_cons in Hok.
      destruct Hok as (_ & (Hm1 & Hrs & _) & _). rewrite Forall_forall in Hm1.
      apply rangesize_eq; [by apply Hm1|done|].
      revert C2 C2'. unfold avl_compar, by_size, metaslab_rangesize_compare. cbn [rs_start rs_end].
      repeat split_if; lia. }
    pose proof (ordered_NoDup _ Ho) as Hnd. rewrite Heq in Hnd. rewrite <- !app_assoc in Hnd.
    apply NoDup_app in Hnd as (_ & _ & Hnd). cbn in Hnd.
    apply NoDup_middle in Hnd as [Hn _]. done.
  - destruct Hf as (-> & _ & <- & <-). exists (before w), (after w).
    split_and!; [done|apply avl_nearest_next|done].
Qed.

(** A segment below [2^63], so that rounding up and adding a size stay in 64 bits. *)
Definition small_seg (rs : range_seg) : Prop := seg_ok rs /\ rs_end rs <= 2 ^ 63.

(** [o] is where a block of [size] bytes at a multiple of [2^k] fits in [rs]. *)
Definition fits_at (size k : Z) (rs : range_seg) (o : Z) : Prop :=
  rs_start rs <= o /\ o + size <= rs_end rs /\ o mod 2 ^ k = 0.

(** The first such place. *)
Definition fits_first (size k : Z) (rs : range_seg) (o : Z) : Prop :=
  fits_at size k rs o /\ o < rs_start rs + 2 ^ k.

Section PickerOk.
Context (size k : Z) (Hsize : 0 < size <= 2 ^ 62) (Hk : 0 <= k) (Hkle : 2 ^ k <= size).

Lemma k_small : k < 63.
Proof using All.
  apply (Z.pow_lt_mono_r_iff 2); [lia..|]. 
  assert (2 ^ 62 < 2 ^ 63) by (apply Z.pow_lt_mono_r; lia). lia.
Qed.

Lemma roundup_ok rs :
  small_seg rs ->
  rs_start rs <= P2ROUNDUP (rs_start rs) (2 ^ k) < rs_start rs + 2 ^ k /\
  P2ROUNDUP (rs_start rs) (2 ^ k) mod 2 ^ k = 0 /\
  add64 (P2ROUNDUP (rs_start rs) (2 ^ k)) size = P2ROUNDUP (rs_start rs) (2 ^ k) + size.
Proof using All.
  intros [[H1 H2] H3]. pose proof k_small.
  destruct (P2ROUNDUP_spec (rs_start rs) k) as [H4 H5]; [lia..|].
  split_and!; auto; try lia. apply add64_small. unfold u64. lia.
Qed.

Lemma fits_true rs :
  small_seg rs -> fits size (2 ^ k) rs = true -> fits_first size k rs (P2ROUNDUP (rs_start rs) (2 ^ k)).
Proof using All.
  intros Hrs. pose proof (roundup_ok rs Hrs) as (H1 & H2 & H3). unfold fits, fits_first, fits_at. rewrite H3.
  intros H%Z.leb_le. lia.
Qed.

Lemma fits_false rs o : small_seg rs -> fits size (2 ^ k) rs = false -> ~ fits_at size k rs o.
Proof using All.
  intros Hrs. pose proof (roundup_ok rs Hrs) as (H1 & H2 & H3). unfold fits, fits_at. rewrite H3.
  intros H%Z.leb_gt (H4 & H5 & H6).
  pose proof (Z.pow_pos_nonneg 2 k ltac:(lia) ltac:(lia)).
  apply Z.mod_divide in H2 as [a Ha]; [|lia]. apply Z.mod_divide in H6 as [b Hb]; [|lia].
  rewrite Ha in *. rewrite Hb in *. clear Ha Hb H3.
  assert (a <= b); [|nia]. assert (a * 2 ^ k < (b + 1) * 2 ^ k) as Hlt by lia.
  apply Z.mul_lt_mono_pos_r in Hlt; lia.
Qed.

Context (cmp : Compar range_seg range_seg) (t : avl_tree range_seg).
Context (Hnd : NoDup (elements t)) (Hsmall : Forall small_seg (elements t)).

Lemma picker_pass_ok cursor :
  exists k1 k2, elements t = k1 ++ k2 /\
    metaslab_block_find cmp t cursor size = head k2 /\
    match picker_pass cmp t cursor size (2 ^ k) with
    | Some (Some o) => exists rs, rs ∈ elements t /\ fits_first size k rs o
    | Some None => forall rs o, rs ∈ k2 -> ~ fits_at size k rs o
    | None => False
    end.
Proof using All.
  destruct (block_find_split cmp t cursor size) as (k1 & k2 & Hel & Hf). exists k1, k2.
  split_and!; auto. unfold picker_pass. rewrite Hf, (picker_loop_ok t size (2 ^ k) k2 k1); auto.
  2: { rewrite Hel, length_app. lia. }
  rewrite Hel, Forall_app, !Forall_forall in Hsmall. destruct Hsmall as [_ Hs2].
  destruct (filter (fits size (2 ^ k)) k2) as [|rs fs] eqn:E; cbn.
  - intros rs o Hrs. apply fits_false; [auto|]. destruct (fits size (2 ^ k) rs) eqn:Ef; [|done].
    assert (rs ∈ filter (fits size (2 ^ k)) k2) as Hin
      by (apply list_elem_of_filter; split; [by rewrite Ef|done]).
    rewrite E in Hin. by apply not_elem_of_nil in Hin.
  - assert (rs ∈ filter (fits size (2 ^ k)) k2) as Hin by (rewrite E; left).
    apply list_elem_of_filter in Hin as [Hfit Hin]. exists rs. split.
    + rewrite Hel, elem_of_app. by right.
    + apply fits_true; [auto|]. by destruct (fits size (2 ^ k) rs).
Qed.

(** The search finds a block when there is one, whatever the cursor. *)
Lemma picker_ok cursor :
  starts_low cmp t size ->
  exists o c, metaslab_block_picker cmp t cursor size (2 ^ k) = Ret (o, c) /\
    ((o = NO_OFFSET /\ c = 0 /\ forall rs o', rs ∈ elements t -> ~ fits_at size k rs o') \/
     (exists rs, rs ∈ elements t /\ fits_first size k rs o /\ c = o + size)).
Proof using All.
  intros (k1 & k2 & Hel & Hf & Hlow).
  assert (forall rs o, rs ∈ elements t -> fits_first size k rs o -> add64 o size = o + size) as Hadd.
  { intros rs o Hrs [(H1 & H2 & _) _]. rewrite Forall_forall in Hsmall.
    destruct (Hsmall rs Hrs) as [[? ?] ?]. apply add64_small. unfold u64. lia. }
  assert (match picker_pass cmp t 0 size (2 ^ k) with
    | Some (Some o) => exists rs, rs ∈ elements t /\ fits_first size k rs o
    | Some None => forall rs o', rs ∈ elements t -> ~ fits_at size k rs o'
    | None => False end) as H0.
  { destruct (picker_pass_ok 0) as (k1' & k2' & Hel' & Hf' & H).
    destruct (picker_pass cmp t 0 size (2 ^ k)) as [[o|]|]; [done| |done].
    intros rs o' Hrs. rewrite Hf' in Hf. rewrite Hel, elem_of_app in Hrs. destruct Hrs as [Hrs|Hrs].
    - rewrite Forall_forall in Hlow. specialize (Hlow rs Hrs). unfold fits_at. lia.
    - apply H. assert (k2' = k2) as ->; [|done]. rewrite Hel in Hel', Hnd.
      destruct k2 as [|a k2]; [by apply not_elem_of_nil in Hrs|].
      destruct k2' as [|a' k2']; [done|]. cbn in Hf. injection Hf as ->.
      by destruct (split_unique a k1 k2 k1' k2' Hnd Hel') as [_ ->]. }
  unfold metaslab_block_picker. destruct (picker_pass_ok cursor) as (? & ? & _ & _ & H).
  destruct (picker_pass cmp t cursor size (2 ^ k)) as [[o|]|] eqn:E; [| |done].
  - destruct H as (rs & Hrs & Hfit). exists o, (o + size). rewrite (Hadd rs) by done.
    split; [done|]. right. eauto.
  - destruct (Z.eqb_spec cursor 0) as [->|].
    + rewrite E in H0. exists NO_OFFSET, 0. split; [done|]. by left.
    + destruct (picker_pass cmp t 0 size (2 ^ k)) as [[o|]|]; [| |done].
      * destruct H0 as (rs & Hrs & Hfit). exists o, (o + size). rewrite (Hadd rs) by done.
        split; [done|]. right. eauto.
      * exists NO_OFFSET, 0. split; [done|]. by left.
Qed.
End PickerOk.

(** ** The allocators *)

(** [ms_allocatable] as an allocator finds it. *)
Definition free_tree (rt : range_tree rt_owner) : Prop :=
  rt_wf mirrors rt /\ rt_ops rt = Some metaslab_rt_ops /\ forall x, rt_mem rt x -> x < 2 ^ 63.

Lemma free_tree_mirrors rt : free_tree rt -> mirrors (segs rt) (rt_arg rt).
Proof. intros ((_ & _ & _ & _ & Ho) & Hop & _). rewrite Hop in Ho. apply Ho. Qed.

Lemma free_tree_small rt : free_tree rt -> Forall small_seg (segs rt).
Proof.
  intros ((_ & [_ Hok] & _) & _ & Hb). rewrite Forall_forall in *. intros rs Hrs.
  split; [auto|]. specialize (Hok rs Hrs). unfold seg_ok in Hok.
  enough (rs_end rs - 1 < 2 ^ 63) by lia. apply Hb, covers_In. exists rs. split; [done|]. unfold in_seg. lia.
Qed.

Lemma by_size_elements rt :
  free_tree rt ->
  NoDup (elements (ms_allocatable_by_size (rt_arg rt))) /\
  Forall small_seg (elements (ms_allocatable_by_size (rt_arg rt))) /\
  forall rs, rs ∈ elements (ms_allocatable_by_size (rt_arg rt)) <-> rs ∈ segs rt.
Proof.
  intros Hrt. pose proof (free_tree_mirrors rt Hrt) as (_ & _ & Ho & Hel & _).
  pose proof (free_tree_small rt Hrt) as Hs. rewrite <- Hel in Hs.
  split_and!; auto; [by apply ordered_NoDup|]. intros rs. by rewrite Hel.
Qed.

Lemma largest_last rt rs :
  free_tree rt -> avl_last (ms_allocatable_by_size (rt_arg rt)) = Some rs ->
  rs ∈ segs rt /\ forall rs', rs' ∈ segs rt -> rs_end rs' - rs_start rs' <= rs_end rs - rs_start rs.
Proof.
  intros Hrt. pose proof (by_size_elements rt Hrt) as (_ & Hsm & Hin). rewrite avl_last_spec.
  pose proof (free_tree_mirrors rt Hrt) as (_ & _ & Ho & _). unfold ordered in Ho.
  change (inorder (avl_root ?t)) with (elements t). intros (k & Hel)%last_Some.
  rewrite Hel in Ho, Hsm, Hin. split; [apply Hin; set_solver|]. intros rs' Hrs'%Hin.
  rewrite Forall_forall in Hsm. apply elem_of_app in Hrs' as [Hk|Hk%list_elem_of_singleton]; [|subst; lia].
  pose proof (StronglySorted_app_1_elem_of _ _ _ _ _ Ho Hk ltac:(left)) as Hlt.
  revert Hlt. unfold compar_lt, avl_compar, by_size, metaslab_rangesize_compare.
  destruct (Hsm rs' ltac:(set_solver)) as [Hok' _], (Hsm rs ltac:(set_solver)) as [Hok _].
  pose proof (seg_size_ok _ Hok) as S1. pose proof (seg_size_ok _ Hok') as S2. unfold seg_size in *.
  rewrite S1, S2. repeat split_if; lia.
Qed.

(** [metaslab_block_maxsize] is the size of the largest free segment. *)
Lemma maxsize_ok rt size :
  free_tree rt -> 0 < size ->
  size <= metaslab_block_maxsize rt <-> exists rs, rs ∈ segs rt /\ size <= rs_end rs - rs_start rs.
Proof.
  intros Hrt Hsz. unfold metaslab_block_maxsize.
  destruct (avl_last (ms_allocatable_by_size (rt_arg rt))) as [rs|] eqn:E.
  - destruct (largest_last rt rs Hrt E) as [Hin Hmax].
    pose proof (free_tree_small rt Hrt) as Hs. rewrite Forall_forall in Hs.
    pose proof (seg_size_ok rs (proj1 (Hs rs Hin))) as Hz. unfold seg_size in Hz. rewrite Hz. split.
    + eauto.
    + intros (rs' & Hrs' & Hle). specialize (Hmax rs' Hrs'). lia.
  - split; [lia|]. intros (rs & Hrs & _). exfalso.
    rewrite avl_last_spec in E. apply last_None in E.
    apply (by_size_elements rt Hrt) in Hrs. unfold elements in Hrs. rewrite E in Hrs.
    by apply not_elem_of_nil in Hrs.
Qed.

(** A free block: all of it is in the tree. *)
Definition free_block (rt : range_tree rt_owner) (size o : Z) : Prop :=
  forall x, o <= x < o + size -> rt_mem rt x.

Lemma free_block_fits rt size o :
  rt_wf mirrors rt -> 0 < size ->
  free_block rt size o <-> exists rs, rs ∈ segs rt /\ rs_start rs <= o /\ o + size <= rs_end rs.
Proof. intros (_ & Hs & _) Hsz. apply covers_range; [done|lia]. Qed.

(** What an allocator's block is: free, and aligned when the size and the free
    segments are. *)
Definition allocated (rt : range_tree rt_owner) (size o : Z) : Prop :=
  free_block rt size o /\ 0 <= o /\ o + size <= 2 ^ 63 /\
  forall j, 0 <= j -> size mod 2 ^ j = 0 ->
    (forall rs, rs ∈ segs rt -> rs_start rs mod 2 ^ j = 0) -> o mod 2 ^ j = 0.

Lemma allocated_NO_OFFSET rt size : 0 < size -> ~ allocated rt size NO_OFFSET.
Proof. intros Hsz (_ & _ & H & _). unfold NO_OFFSET in H. lia. Qed.

Lemma allocated_start rt size rs :
  free_tree rt -> 0 < size -> rs ∈ segs rt -> size <= rs_end rs - rs_start rs ->
  allocated rt size (rs_start rs).
Proof.
  intros Hrt Hsz Hin Hle. pose proof (free_tree_small rt Hrt) as Hs. rewrite Forall_forall in Hs.
  destruct (Hs rs Hin) as [[? ?] ?]. unfold allocated. split_and!; [|lia|lia|auto].
  apply free_block_fits; [apply Hrt|done|]. exists rs. split_and!; [done|lia|lia].
Qed.

Lemma mod_pow2_le o j k : 0 <= j <= k -> o mod 2 ^ k = 0 -> o mod 2 ^ j = 0.
Proof.
  intros Hjk Ho. pose proof (Z.pow_pos_nonneg 2 j ltac:(lia) ltac:(lia)).
  pose proof (Z.pow_pos_nonneg 2 k ltac:(lia) ltac:(lia)).
  apply Z.mod_divide in Ho; [|lia]. apply Z.mod_divide; [lia|]. etransitivity; [|exact Ho].
  exists (2 ^ (k - j)). rewrite <- Z.pow_add_r by lia. f_equal. lia.
Qed.

(** What [metaslab_block_alloc] relies on of an allocator. *)
Class AllocSpec (a : allocator) : Prop := alloc_spec rt ms_size ms_lbas size :
  free_tree rt -> 0 < size <= 2 ^ 62 -> length ms_lbas = MAX_LBAS ->
  exists o ms_lbas', a rt ms_size ms_lbas size = Ret (o, ms_lbas') /\
    length ms_lbas' = MAX_LBAS /\ (o = NO_OFFSET \/ allocated rt size o).

Lemma rd_lba ms_lbas i : length ms_lbas = MAX_LBAS -> 0 <= i < 64 ->
  exists c, rd ms_lbas (Z.to_nat i) = Ret c.
Proof.
  intros Hl Hi. destruct (lookup_lt_is_Some_2 ms_lbas (Z.to_nat i)) as [c Hc];
    [rewrite Hl; unfold MAX_LBAS; lia|]. exists c. by apply rd_ok.
Qed.

Lemma wr_lba ms_lbas i c : length ms_lbas = MAX_LBAS -> 0 <= i < 64 ->
  wr ms_lbas (Z.to_nat i) c = Ret (<[Z.to_nat i := c]> ms_lbas) /\
  length (<[Z.to_nat i := c]> ms_lbas) = MAX_LBAS.
Proof.
  intros Hl Hi. rewrite length_insert. split; [|done]. apply wr_ok. rewrite Hl. unfold MAX_LBAS. lia.
Qed.

Lemma size_lowbit size : 0 < size <= 2 ^ 62 ->
  exists k, 0 <= k < 64 /\ 2 ^ k <= size /\ lowbit size = 2 ^ k /\ highbit64 (lowbit size) - 1 = k /\
    forall j, 0 <= j -> size mod 2 ^ j = 0 -> j <= k.
Proof.
  intros Hsz. assert (2 ^ 62 < 2 ^ 64) by (apply Z.pow_lt_mono_r; lia).
  destruct (lowbit_spec size) as (k & Hk & H1 & H2 & H3 & H4); [lia|]. exists k. split_and!; auto; try lia.
  apply Z.mod_divide in H3; [|lia]. apply Z.divide_pos_le; [lia|done].
Qed.

(** First fit: a block at a multiple of the size's alignment, found whenever
    there is one. *)
Lemma ff_alloc_ok rt ms_size ms_lbas size :
  free_tree rt -> 0 < size <= 2 ^ 62 -> length ms_lbas = MAX_LBAS ->
  exists o ms_lbas', metaslab_ff_alloc rt ms_size ms_lbas size = Ret (o, ms_lbas') /\
    length ms_lbas' = MAX_LBAS /\
    (o = NO_OFFSET /\ (forall o', o' mod lowbit size = 0 -> ~ free_block rt size o') \/
     allocated rt size o /\ o mod lowbit size = 0).
Proof.
  intros Hrt Hsz Hl. destruct (size_lowbit size Hsz) as (k & Hk & Hle & Hlow & Hhigh & Hj).
  unfold metaslab_ff_alloc. rewrite Hhigh, Hlow.
  destruct (rd_lba ms_lbas k Hl Hk) as [c ->]. cbn [mbind result_bind].
  pose proof Hrt as ((_ & Hs & _) & _).
  destruct (picker_ok size k Hsz (proj1 Hk) Hle by_start (rt_root rt)) with (cursor := c)
    as (o & c' & -> & Ho).
  { by apply segs_ok_NoDup. }
  { by apply free_tree_small. }
  { apply starts_low_by_start; [done|]. assert (2 ^ 62 < 2 ^ 64) by (apply Z.pow_lt_mono_r; lia). lia. }
  cbn [mbind result_bind]. destruct (wr_lba ms_lbas k c' Hl Hk) as [-> Hl']. cbn [mbind result_bind].
  eexists _, _. split; [done|]. split; [done|].
  destruct Ho as [(-> & _ & Hno)|(rs & Hrs & [(H1 & H2 & H3) H4] & _)].
  - left. split; [done|]. intros o' Ho' Hfree.
    apply free_block_fits in Hfree as (rs & Hrs & ? & ?); [|apply Hrt|lia].
    by apply (Hno rs o' Hrs).
  - right. split; [|done]. pose proof (free_tree_small rt Hrt) as Hsm. rewrite Forall_forall in Hsm.
    destruct (Hsm rs Hrs) as [[? ?] ?]. unfold allocated. split_and!; [|lia|lia|].
    + apply free_block_fits; [apply Hrt|lia|]. exists rs. auto.
    + intros j Hj0 Hmod _. apply (mod_pow2_le _ j k); [|done]. auto.
Qed.

#[export] Instance ff_alloc_spec : AllocSpec metaslab_ff_alloc.
Proof.
  intros rt ms_size ms_lbas size H1 H2 H3.
  destruct (ff_alloc_ok rt ms_size ms_lbas size H1 H2 H3) as (o & l & ? & ? & [[? _]|[? _]]); eauto 10.
Qed.

(** A search with alignment 1 returns the start of a segment. *)
Lemma picker_one_ok rt cmp t cursor size :
  free_tree rt -> 0 < size <= 2 ^ 62 -> NoDup (elements t) -> Forall small_seg (elements t) ->
  (forall rs, rs ∈ elements t <-> rs ∈ segs rt) -> starts_low cmp t size ->
  size <= metaslab_block_maxsize rt ->
  exists o, metaslab_block_picker cmp t cursor size 1 = Ret (o, o + size) /\ allocated rt size o.
Proof.
  intros Hrt Hsz Hnd Hsm Hin Hlow Hmax. change 1 with (2 ^ 0).
  destruct (picker_ok size 0 Hsz ltac:(lia) ltac:(lia) cmp t Hnd Hsm cursor Hlow) as (o & c & -> & Ho).
  destruct Ho as [(_ & _ & Hno)|(rs & Hrs & [(H1 & H2 & _) H3] & ->)].
  - apply maxsize_ok in Hmax as (rs & Hrs & Hle); [|done|lia]. exfalso.
    apply (Hno rs (rs_start rs)); [by apply Hin|]. unfold fits_at. rewrite Z.mod_1_r. lia.
  - exists o. split; [done|]. assert (o = rs_start rs) as -> by lia.
    apply allocated_start; [done|lia|by apply Hin|lia].
Qed.

(** Dynamic fit, whichever of the two trees it searches: a block whenever some
    free segment is large enough. *)
Lemma df_alloc_ok p rt ms_size ms_lbas size :
  free_tree rt -> 0 < size <= 2 ^ 62 -> length ms_lbas = MAX_LBAS ->
  exists o ms_lbas', metaslab_df_alloc p rt ms_size ms_lbas size = Ret (o, ms_lbas') /\
    length ms_lbas' = MAX_LBAS /\
    (o = NO_OFFSET /\ ms_lbas' = ms_lbas /\ metaslab_block_maxsize rt < size \/
     allocated rt size o /\ size <= metaslab_block_maxsize rt).
Proof.
  intros Hrt Hsz Hl. destruct (size_lowbit size Hsz) as (k & Hk & Hle & Hlow & Hhigh & _).
  assert (2 ^ 62 < 2 ^ 64) by (apply Z.pow_lt_mono_r; lia).
  unfold metaslab_df_alloc. destruct (Z.ltb_spec (metaslab_block_maxsize rt) size) as [Hm|Hm]; [by eauto 10|].
  rewrite Hhigh. destruct (rd_lba ms_lbas k Hl Hk) as [c ->]. cbn [mbind result_bind].
  pose proof Hrt as ((_ & Hs & _) & _).
  pose proof (by_size_elements rt Hrt) as (Hnd & Hsm & Hin).
  pose proof (starts_low_by_size _ _ size (free_tree_mirrors rt Hrt) ltac:(lia)) as Hbs.
  pose proof (starts_low_by_start rt size Hs ltac:(lia)) as Hbo.
  match goal with |- context [if ?b then _ else _] =>
    assert (exists o, (if b then metaslab_block_picker by_size (ms_allocatable_by_size (rt_arg rt)) 0 size 1
      else metaslab_block_picker by_start (rt_root rt) c size 1) = Ret (o, o + size) /\ allocated rt size o)
      as (o & -> & Ho) end.
  { destruct (_ || _).
    - by apply (picker_one_ok rt).
    - apply (picker_one_ok rt); auto; [by apply segs_ok_NoDup|by apply free_tree_small]. }
  cbn [mbind result_bind]. destruct (wr_lba ms_lbas k (o + size) Hl Hk) as [-> Hl'].
  cbn [mbind result_bind]. eauto 10.
Qed.

#[export] Instance df_alloc_spec p : AllocSpec (metaslab_df_alloc p).
Proof.
  intros rt ms_size ms_lbas size H1 H2 H3.
  destruct (df_alloc_ok p rt ms_size ms_lbas size H1 H2 H3) as (o & l & ? & ? & [[? _]|[? _]]); eauto 10.
Qed.

(** The best fit by size: the smallest segment of at least [z] bytes. *)
Lemma find_by_size_ok L o z :
  mirrors L o -> 0 < z < 2 ^ 64 -> (exists rs, rs ∈ L /\ z <= rs_end rs - rs_start rs) ->
  exists rs, metaslab_block_find by_size (ms_allocatable_by_size o) 0 z = Some rs /\ rs ∈ L /\
    z <= rs_end rs - rs_start rs.
Proof.
  intros (_ & _ & Ho & Hel & Hok) Hz (rs' & Hrs' & Hle). rewrite <- Hel in Hok, Hrs'.
  destruct (by_size_cut z _ Hz Ho Hok) as (L1 & M & L2 & Heq & Hc & Hlt).
  assert (forall rs, rs ∈ M ++ L2 -> z <= rs_end rs - rs_start rs) as Hge.
  { intros rs Hrs. assert (seg_ok rs) as Hk.
    { rewrite Forall_forall in Hok. apply Hok. rewrite Heq, elem_of_app. by right. }
    pose proof (seg_size_ok rs Hk) as Sa. unfold seg_size in Sa.
    assert (@avl_compar _ _ by_size (RangeSeg 0 z) rs <= 0) as Hcmp.
    { destruct Hc as (_ & C2 & C3). rewrite Forall_forall in C2, C3.
      apply elem_of_app in Hrs as [Hrs|Hrs]; [rewrite C2 by done; lia|]. apply C3 in Hrs. lia. }
    revert Hcmp. unfold avl_compar, by_size, metaslab_rangesize_compare. cbn [rs_start rs_end].
    rewrite Sa, sub64_small by (unfold u64; lia). repeat split_if; lia. }
  pose proof (@avl_find_spec _ _ by_size (ms_allocatable_by_size o) _ _ _ _ Hc Heq) as Hf.
  unfold metaslab_block_find. rewrite add64_small by (unfold u64; lia). rewrite Z.add_0_l.
  destruct (@avl_find _ _ by_size _ _) as [rs|w].
  - exists rs. split_and!; [done| |apply Hge, elem_of_app; by left].
    rewrite <- Hel, Heq, !elem_of_app. auto.
  - destruct Hf as (-> & _ & <- & <-). rewrite avl_nearest_next.
    destruct (after w) as [|rs L2] eqn:Ea; cbn.
    + exfalso. rewrite Heq in Hrs'. rewrite !app_nil_r in Hrs'. rewrite Forall_forall in Hlt.
      apply Hlt in Hrs'. lia.
    + exists rs. split_and!; [done| |apply Hge; left]. rewrite <- Hel, Heq. set_solver.
Qed.

Lemma highbit64_ok size : 0 < size -> 0 <= highbit64 size - 1 /\ size < 2 ^ highbit64 size.
Proof.
  intros Hsz. unfold highbit64. destruct (Z.eqb_spec size 0); [lia|].
  pose proof (Z.log2_nonneg size). pose proof (Z.log2_spec size Hsz) as [_ Hlt].
  split; [lia|]. by rewrite Z.add_1_r.
Qed.

(** The segment [metaslab_ndf_alloc] settles on is large enough. *)
Lemma ndf_pick_ok p rt cursor size :
  free_tree rt -> 0 < size -> 0 <= metaslab_ndf_clump_shift p ->
  highbit64 size + metaslab_ndf_clump_shift p < 64 -> size <= metaslab_block_maxsize rt ->
  exists rs, ndf_pick p rt cursor size = Ret rs /\ rs ∈ segs rt /\ size <= rs_end rs - rs_start rs.
Proof.
  intros Hrt Hsz Hcl Hhb Hmax. pose proof (free_tree_small rt Hrt) as Hsm. rewrite Forall_forall in Hsm.
  unfold ndf_pick. destruct (highbit64_ok size Hsz) as [Hh1 Hh2].
  set (z := Z.min (metaslab_block_maxsize rt) (wrap64 (Z.shiftl 1 (highbit64 size + metaslab_ndf_clump_shift p)))).
  assert (size <= z <= metaslab_block_maxsize rt) as Hz.
  { unfold z. rewrite Z.shiftl_1_l, wrap64_small.
    - assert (2 ^ highbit64 size <= 2 ^ (highbit64 size + metaslab_ndf_clump_shift p))
        by (apply Z.pow_le_mono_r; lia). lia.
    - split; [lia|]. apply Z.pow_lt_mono_r; lia. }
  assert (exists rs, metaslab_block_find by_size (ms_allocatable_by_size (rt_arg rt)) 0 z = Some rs /\
    rs ∈ segs rt /\ z <= rs_end rs - rs_start rs) as (rs1 & -> & Hrs1 & Hle1).
  { apply find_by_size_ok; [by apply free_tree_mirrors| |].
    - assert (metaslab_block_maxsize rt < 2 ^ 64); [|lia]. unfold metaslab_block_maxsize.
      destruct (avl_last _); [apply wrap64_u64|lia].
    - apply maxsize_ok; [done|lia|lia]. }
  destruct (block_find_split by_start (rt_root rt) cursor size) as (k1 & k2 & Hel & Hf).
  unfold metaslab_block_find in Hf.
  destruct (@avl_find _ _ by_start _ _) as [rs|w].
  2: { exists rs1. split_and!; auto; lia. }
  destruct k2 as [|rs2 k2]; [done|]. cbn in Hf. injection Hf as <-.
  assert (rs ∈ segs rt) as Hin by (unfold segs; rewrite Hel; set_solver).
  pose proof (seg_size_ok rs (proj1 (Hsm rs Hin))) as Hss. unfold seg_size in Hss. rewrite Hss.
  split_if.
  - exists rs1. split_and!; auto; lia.
  - exists rs. auto.
Qed.

(** New dynamic fit, for sizes whose clump fits in 64 bits. *)
Lemma ndf_alloc_ok p rt ms_size ms_lbas size :
  free_tree rt -> 0 < size -> length ms_lbas = MAX_LBAS -> 0 <= metaslab_ndf_clump_shift p ->
  highbit64 size + metaslab_ndf_clump_shift p < 64 ->
  exists o ms_lbas', metaslab_ndf_alloc p rt ms_size ms_lbas size = Ret (o, ms_lbas') /\
    length ms_lbas' = MAX_LBAS /\
    (o = NO_OFFSET /\ metaslab_block_maxsize rt < size \/
     allocated rt size o /\ size <= metaslab_block_maxsize rt).
Proof.
  intros Hrt Hsz Hl Hcl Hhb. unfold metaslab_ndf_alloc.
  destruct (Z.ltb_spec (metaslab_block_maxsize rt) size) as [Hm|Hm]; [by eauto 10|].
  destruct (highbit64_ok size Hsz) as [Hh _].
  destruct (rd_lba ms_lbas (highbit64 size - 1) Hl) as [c ->]; [lia|]. cbn [mbind result_bind].
  destruct (ndf_pick_ok p rt c size) as (rs & -> & Hin & Hle); auto. cbn [mbind result_bind].
  pose proof (free_tree_small rt Hrt) as Hsm. rewrite Forall_forall in Hsm.
  pose proof (seg_size_ok rs (proj1 (Hsm rs Hin))) as Hss. unfold seg_size in Hss. rewrite Hss.
  destruct (Z.leb_spec size (rs_end rs - rs_start rs)); [|lia].
  destruct (wr_lba ms_lbas (highbit64 size - 1) (add64 (rs_start rs) size) Hl ltac:(lia)) as [-> Hl'].
  cbn [mbind result_bind]. eexists _, _. split; [done|]. split; [done|]. right.
  split; [by apply allocated_start|done].
Qed.

(** What the cursors of the cursor-fit allocator delimit: free space. *)
Definition cf_inv (rt : range_tree rt_owner) (ms_lbas : list Z) : Prop :=
  length ms_lbas = MAX_LBAS /\
  exists c e, ms_lbas !! 0%nat = Some c /\ ms_lbas !! 1%nat = Some e /\ 0 <= c <= e /\ e <= 2 ^ 63 /\
    forall x, c <= x < e -> rt_mem rt x.

(** Cursor fit: it takes from the region between the cursors, and from the
    largest segment when that is used up; the cursors then delimit free space
    without the block. *)
Lemma cf_alloc_ok rt ms_size ms_lbas size :
  free_tree rt -> 0 < size <= 2 ^ 62 -> cf_inv rt ms_lbas ->
  exists o ms_lbas', metaslab_cf_alloc rt ms_size ms_lbas size = Ret (o, ms_lbas') /\
    (o = NO_OFFSET /\ ms_lbas' = ms_lbas /\ metaslab_block_maxsize rt < size \/
     free_block rt size o /\ o + size <= 2 ^ 63 /\
     forall rt', rt_wf mirrors rt' ->
       (forall x, rt_mem rt' x <-> rt_mem rt x /\ ~ o <= x < o + size) -> cf_inv rt' ms_lbas').
Proof.
  intros Hrt Hsz (Hl & c & e & H0 & H1 & Hc & He & Hfree).
  assert (forall c' e' l, length l = MAX_LBAS -> l !! 1%nat = Some e' -> 0 <= c' -> c' + size <= e' <= 2 ^ 63 ->
    (forall x, c' <= x < e' -> rt_mem rt x) ->
    exists o l', cf_take c' l size = Ret (o, l') /\ free_block rt size o /\ o + size <= 2 ^ 63 /\
      forall rt', rt_wf mirrors rt' ->
       (forall x, rt_mem rt' x <-> rt_mem rt x /\ ~ o <= x < o + size) -> cf_inv rt' l') as Htake.
  { intros c' e' l Hl' Hl1 Hc' Hce' Hmem. unfold cf_take.
    rewrite wr_ok by (rewrite Hl'; unfold MAX_LBAS; lia). cbn [mbind result_bind].
    rewrite add64_small by (unfold u64; lia). eexists _, _. split; [done|]. split_and!.
    - intros x Hx. apply Hmem. lia.
    - lia.
    - intros rt' _ Hm'. split; [by rewrite length_insert|]. exists (c' + size), e'.
      rewrite list_lookup_insert_eq by (rewrite Hl'; unfold MAX_LBAS; lia).
      rewrite list_lookup_insert_ne by done. split_and!; [done|done|lia..|].
      intros x Hx. rewrite Hm'. split; [apply Hmem; lia|lia]. }
  unfold metaslab_cf_alloc. rewrite (rd_ok _ _ _ H0), (rd_ok _ _ _ H1). cbn [mbind result_bind].
  rewrite add64_small by (unfold u64; lia).
  destruct (Z.ltb_spec e (c + size)) as [Hlt|Hge].
  2: { destruct (Htake c e ms_lbas) as (o & l' & -> & Ho); auto; [lia..|]. eauto 10. }
  destruct (avl_last (ms_allocatable_by_size (rt_arg rt))) as [rs|] eqn:E.
  2: { eexists _, _. split; [done|]. left. split_and!; auto. unfold metaslab_block_maxsize. rewrite E. lia. }
  destruct (largest_last rt rs Hrt E) as [Hin _].
  pose proof (free_tree_small rt Hrt) as Hsm. rewrite Forall_forall in Hsm.
  destruct (Hsm rs Hin) as [Hok Hle]. pose proof (seg_size_ok rs Hok) as Hss. unfold seg_size in Hss.
  rewrite Hss. destruct (Z.ltb_spec (rs_end rs - rs_start rs) size) as [Hz|Hz].
  { eexists _, _. split; [done|]. left. split_and!; auto. unfold metaslab_block_maxsize. by rewrite E, Hss. }
  rewrite wr_ok by (rewrite Hl; unfold MAX_LBAS; lia). cbn [mbind result_bind].
  destruct (Htake (rs_start rs) (rs_end rs) (<[1%nat := rs_end rs]> ms_lbas)) as (o & l' & -> & Ho).
  - by rewrite length_insert.
  - apply list_lookup_insert_eq. rewrite Hl. unfold MAX_LBAS. lia.
  - destruct Hok; lia.
  - lia.
  - intros x Hx. apply covers_In. exists rs. unfold in_seg. auto.
  - eauto 10.
Qed.
