(* ===== verification/MetaslabData.v ===== *)
(** * Metaslabs: the data

    The records of [kernel/fs/zfs/sys/metaslab_impl.h] and what the metaslab
    code reads of its device, pool and tunables.  A [metaslab_t] is the record
    [metaslab]; the trees that [metaslab_sync_done] creates together are the
    record [txg_trees], null before; the fields that only steer the choice
    between metaslabs are the record [ms_selection].  [ms_condensing] and
    [ms_allocatable_by_size] are with [ms_allocatable], whose callbacks use
    them. *)

From S2P Require Import Prelude Avl RangeTree SpaceMap MetaslabAlloc.

Definition SPA_MINBLOCKSHIFT : Z := 9.
Definition SPA_MINBLOCKSIZE : Z := 2 ^ SPA_MINBLOCKSHIFT.
Definition ZFS_FRAG_INVALID : Z := 2 ^ 64 - 1.

(** ** A metaslab *)

(** The range trees of the transaction groups under way. *)
Record txg_trees : Type := TxgTrees {
  ms_allocating : list (range_tree unit);
  ms_freeing : range_tree unit;
  ms_freed : range_tree unit;
  ms_defer : list (range_tree unit);
  ms_checkpointing : range_tree unit }.

(** What steers the choice between metaslabs. *)
Record ms_selection : Type := MsSelection {
  ms_weight : Z;
  ms_activation_weight : Z;
  ms_selected_txg : Z;
  ms_max_size : Z;
  ms_fragmentation : Z;
  ms_allocator : Z;
  ms_primary : bool;
  ms_condense_wanted : bool;
  ms_condense_checked_txg : Z }.

(** [metaslab_t].  [ms_txg_node] is [tn_member]: for each of the last transaction
    groups, whether the metaslab is on the device's list of dirty metaslabs. *)
Record metaslab : Type := Metaslab {
  ms_id : Z;
  ms_start : Z;
  ms_size : Z;
  ms_sm : option space_map;
  ms_allocatable : range_tree rt_owner;
  ms_trees : option txg_trees;
  ms_lbas : list Z;
  ms_loaded : bool;
  ms_initializing : Z;
  ms_deferspace : Z;
  ms_alloc_txg : Z;
  ms_new : bool;
  ms_txg_node : list bool;
  ms_sel : ms_selection }.

(** ** Its group and the pool

    What [metaslab_compare] reads of a metaslab: a node of [mg_metaslab_tree]. *)
Record ms_key : Type := MsKey { k_start : Z; k_weight : Z; k_allocator : Z; k_primary : bool }.

#[export] Instance ms_key_eq_dec : EqDecision ms_key.
Proof. solve_decision. Defined.

Definition key (ms : metaslab) : ms_key :=
  MsKey (ms_start ms) (ms_weight (ms_sel ms)) (ms_allocator (ms_sel ms)) (ms_primary (ms_sel ms)).

(** [metaslab_group_t] and the histogram of its class.  An entry of
    [mg_primaries] or [mg_secondaries] is the start of a metaslab. *)
Record metaslab_group : Type := MetaslabGroup {
  mg_metaslab_tree : avl_tree ms_key;
  mg_primaries : list (option Z);
  mg_secondaries : list (option Z);
  mg_ms_ready : Z;
  mg_histogram : list Z;
  mc_histogram : list Z }.

(** [vdev_stat] of the device and of the root, and the space of the class. *)
Record space_stats : Type := SpaceStats {
  vs_alloc : Z;
  vs_space : Z;
  vs_dspace : Z;
  rvs_alloc : Z;
  rvs_space : Z;
  rvs_dspace : Z;
  mc_alloc : Z;
  mc_deferred : Z;
  mc_space : Z;
  mc_dspace : Z }.

(** The pool checkpoint's space map of the device, its accounting and its entry
    in the device's ZAP. *)
Record checkpoint_state : Type := CheckpointState {
  vdev_checkpoint_sm : option space_map;
  sci_dspace : Z;
  vs_checkpoint_space : Z;
  zap_checkpoint_sm : option Z }.

(** What an operation on a metaslab can change; [w_ms_array] is the metaslab's
    entry in the object [vdev_ms_array]. *)
Record world : Type := World {
  w_ms : metaslab;
  w_mg : metaslab_group;
  w_st : space_stats;
  w_ck : checkpoint_state;
  w_ms_array : Z }.

(** What the operations read: the device, the pool's features and state, the
    block allocator of the class and the tunables.  [sm_io] is the error of
    reading a block of a space map, [sm_force] the dice of
    [zfs_force_some_double_word_sm_entries]; [debug_metaslab_verify] and
    [debug_zio_free] are bits of [zfs_flags]. *)
Record env : Type := Env {
  zfs_recover : bool;
  sm_io : Z -> Z;
  sm_v2 : bool;
  sm_force_some : bool;
  sm_force : range_seg -> bool;
  sm_hist : bool;
  ms_ops : allocator;
  vdev_ashift : Z;
  vdev_ms_count : Z;
  vdev_removing : bool;
  vdev_asize : Z;
  vdev_deflate_ratio : Z;
  normal_class : bool;
  spa_writeable : bool;
  debug_metaslab_verify : bool;
  debug_zio_free : bool;
  zfs_metaslab_segment_weight_enabled : bool;
  metaslab_fragmentation_factor_enabled : bool;
  metaslab_lba_weighting_enabled : bool;
  zfs_metaslab_fragmentation_threshold : Z;
  zfs_metaslab_switch_threshold : Z;
  metaslab_unload_delay : Z;
  metaslab_debug_unload : bool;
  zfs_condense_pct : Z;
  zfs_metaslab_condense_block_threshold : Z;
  zfs_metaslab_sm_blksz : Z;
  vdev_standard_sm_blksz : Z }.

(** ** Assignments to a field *)

Definition set_ms_allocating (tr : txg_trees) (v : list (range_tree unit)) : txg_trees :=
  TxgTrees v (ms_freeing tr) (ms_freed tr) (ms_defer tr) (ms_checkpointing tr).
Definition set_ms_freeing (tr : txg_trees) (v : range_tree unit) : txg_trees :=
  TxgTrees (ms_allocating tr) v (ms_freed tr) (ms_defer tr) (ms_checkpointing tr).
Definition set_ms_freed (tr : txg_trees) (v : range_tree unit) : txg_trees :=
  TxgTrees (ms_allocating tr) (ms_freeing tr) v (ms_defer tr) (ms_checkpointing tr).
Definition set_ms_defer (tr : txg_trees) (v : list (range_tree unit)) : txg_trees :=
  TxgTrees (ms_allocating tr) (ms_freeing tr) (ms_freed tr) v (ms_checkpointing tr).
Definition set_ms_checkpointing (tr : txg_trees) (v : range_tree unit) : txg_trees :=
  TxgTrees (ms_allocating tr) (ms_freeing tr) (ms_freed tr) (ms_defer tr) v.
Definition set_ms_weight (s : ms_selection) (v : Z) : ms_selection :=
  MsSelection v (ms_activation_weight s) (ms_selected_txg s) (ms_max_size s)
    (ms_fragmentation s) (ms_allocator s) (ms_primary s) (ms_condense_wanted s)
    (ms_condense_checked_txg s).
Definition set_ms_activation_weight (s : ms_selection) (v : Z) : ms_selection :=
  MsSelection (ms_weight s) v (ms_selected_txg s) (ms_max_size s) (ms_fragmentation s)
    (ms_allocator s) (ms_primary s) (ms_condense_wanted s) (ms_condense_checked_txg s).
Definition set_ms_selected_txg (s : ms_selection) (v : Z) : ms_selection :=
  MsSelection (ms_weight s) (ms_activation_weight s) v (ms_max_size s) (ms_fragmentation s)
    (ms_allocator s) (ms_primary s) (ms_condense_wanted s) (ms_condense_checked_txg s).
Definition set_ms_max_size (s : ms_selection) (v : Z) : ms_selection :=
  MsSelection (ms_weight s) (ms_activation_weight s) (ms_selected_txg s) v (ms_fragmentation s)
    (ms_allocator s) (ms_primary s) (ms_condense_wanted s) (ms_condense_checked_txg s).
Definition set_ms_fragmentation (s : ms_selection) (v : Z) : ms_selection :=
  MsSelection (ms_weight s) (ms_activation_weight s) (ms_selected_txg s) (ms_max_size s) v
    (ms_allocator s) (ms_primary s) (ms_condense_wanted s) (ms_condense_checked_txg s).
Definition set_ms_allocator (s : ms_selection) (v : Z) : ms_selection :=
  MsSelection (ms_weight s) (ms_activation_weight s) (ms_selected_txg s) (ms_max_size s)
    (ms_fragmentation s) v (ms_primary s) (ms_condense_wanted s) (ms_condense_checked_txg s).
Definition set_ms_primary (s : ms_selection) (v : bool) : ms_selection :=
  MsSelection (ms_weight s) (ms_activation_weight s) (ms_selected_txg s) (ms_max_size s)
    (ms_fragmentation s) (ms_allocator s) v (ms_condense_wanted s) (ms_condense_checked_txg s).
Definition set_ms_condense_wanted (s : ms_selection) (v : bool) : ms_selection :=
  MsSelection (ms_weight s) (ms_activation_weight s) (ms_selected_txg s) (ms_max_size s)
    (ms_fragmentation s) (ms_allocator s) (ms_primary s) v (ms_condense_checked_txg s).
Definition set_ms_condense_checked_txg (s : ms_selection) (v : Z) : ms_selection :=
  MsSelection (ms_weight s) (ms_activation_weight s) (ms_selected_txg s) (ms_max_size s)
    (ms_fragmentation s) (ms_allocator s) (ms_primary s) (ms_condense_wanted s) v.
Definition set_ms_sm (ms : metaslab) (v : option space_map) : metaslab :=
  Metaslab (ms_id ms) (ms_start ms) (ms_size ms) v (ms_allocatable ms) (ms_trees ms)
    (ms_lbas ms) (ms_loaded ms) (ms_initializing ms) (ms_deferspace ms) (ms_alloc_txg ms)
    (ms_new ms) (ms_txg_node ms) (ms_sel ms).
Definition set_ms_allocatable (ms : metaslab) (v : range_tree rt_owner) : metaslab :=
  Metaslab (ms_id ms) (ms_start ms) (ms_size ms) (ms_sm ms) v (ms_trees ms) (ms_lbas ms)
    (ms_loaded ms) (ms_initializing ms) (ms_deferspace ms) (ms_alloc_txg ms) (ms_new ms)
    (ms_txg_node ms) (ms_sel ms).
Definition set_ms_trees (ms : metaslab) (v : option txg_trees) : metaslab :=
  Metaslab (ms_id ms) (ms_start ms) (ms_size ms) (ms_sm ms) (ms_allocatable ms) v (ms_lbas ms)
    (ms_loaded ms) (ms_initializing ms) (ms_deferspace ms) (ms_alloc_txg ms) (ms_new ms)
    (ms_txg_node ms) (ms_sel ms).
Definition set_ms_lbas (ms : metaslab) (v : list Z) : metaslab :=
  Metaslab (ms_id ms) (ms_start ms) (ms_size ms) (ms_sm ms) (ms_allocatable ms) (ms_trees ms) v
    (ms_loaded ms) (ms_initializing ms) (ms_deferspace ms) (ms_alloc_txg ms) (ms_new ms)
    (ms_txg_node ms) (ms_sel ms).
Definition set_ms_loaded (ms : metaslab) (v : bool) : metaslab :=
  Metaslab (ms_id ms) (ms_start ms) (ms_size ms) (ms_sm ms) (ms_allocatable ms) (ms_trees ms)
    (ms_lbas ms) v (ms_initializing ms) (ms_deferspace ms) (ms_alloc_txg ms) (ms_new ms)
    (ms_txg_node ms) (ms_sel ms).
Definition set_ms_initializing (ms : metaslab) (v : Z) : metaslab :=
  Metaslab (ms_id ms) (ms_start ms) (ms_size ms) (ms_sm ms) (ms_allocatable ms) (ms_trees ms)
    (ms_lbas ms) (ms_loaded ms) v (ms_deferspace ms) (ms_alloc_txg ms) (ms_new ms)
    (ms_txg_node ms) (ms_sel ms).
Definition set_ms_deferspace (ms : metaslab) (v : Z) : metaslab :=
  Metaslab (ms_id ms) (ms_start ms) (ms_size ms) (ms_sm ms) (ms_allocatable ms) (ms_trees ms)
    (ms_lbas ms) (ms_loaded ms) (ms_initializing ms) v (ms_alloc_txg ms) (ms_new ms)
    (ms_txg_node ms) (ms_sel ms).
Definition set_ms_alloc_txg (ms : metaslab) (v : Z) : metaslab :=
  Metaslab (ms_id ms) (ms_start ms) (ms_size ms) (ms_sm ms) (ms_allocatable ms) (ms_trees ms)
    (ms_lbas ms) (ms_loaded ms) (ms_initializing ms) (ms_deferspace ms) v (ms_new ms)
    (ms_txg_node ms) (ms_sel ms).
Definition set_ms_new (ms : metaslab) (v : bool) : metaslab :=
  Metaslab (ms_id ms) (ms_start ms) (ms_size ms) (ms_sm ms) (ms_allocatable ms) (ms_trees ms)
    (ms_lbas ms) (ms_loaded ms) (ms_initializing ms) (ms_deferspace ms) (ms_alloc_txg ms) v
    (ms_txg_node ms) (ms_sel ms).
Definition set_ms_txg_node (ms : metaslab) (v : list bool) : metaslab :=
  Metaslab (ms_id ms) (ms_start ms) (ms_size ms) (ms_sm ms) (ms_allocatable ms) (ms_trees ms)
    (ms_lbas ms) (ms_loaded ms) (ms_initializing ms) (ms_deferspace ms) (ms_alloc_txg ms)
    (ms_new ms) v (ms_sel ms).
Definition set_ms_sel (ms : metaslab) (v : ms_selection) : metaslab :=
  Metaslab (ms_id ms) (ms_start ms) (ms_size ms) (ms_sm ms) (ms_allocatable ms) (ms_trees ms)
    (ms_lbas ms) (ms_loaded ms) (ms_initializing ms) (ms_deferspace ms) (ms_alloc_txg ms)
    (ms_new ms) (ms_txg_node ms) v.
Definition set_mg_metaslab_tree (mg : metaslab_group) (v : avl_tree ms_key) : metaslab_group :=
  MetaslabGroup v (mg_primaries mg) (mg_secondaries mg) (mg_ms_ready mg) (mg_histogram mg)
    (mc_histogram mg).
Definition set_mg_primaries (mg : metaslab_group) (v : list (option Z)) : metaslab_group :=
  MetaslabGroup (mg_metaslab_tree mg) v (mg_secondaries mg) (mg_ms_ready mg) (mg_histogram mg)
    (mc_histogram mg).
Definition set_mg_secondaries (mg : metaslab_group) (v : list (option Z)) : metaslab_group :=
  MetaslabGroup (mg_metaslab_tree mg) (mg_primaries mg) v (mg_ms_ready mg) (mg_histogram mg)
    (mc_histogram mg).
Definition set_mg_ms_ready (mg : metaslab_group) (v : Z) : metaslab_group :=
  MetaslabGroup (mg_metaslab_tree mg) (mg_primaries mg) (mg_secondaries mg) v (mg_histogram mg)
    (mc_histogram mg).
Definition set_mg_histogram (mg : metaslab_group) (v : list Z) : metaslab_group :=
  MetaslabGroup (mg_metaslab_tree mg) (mg_primaries mg) (mg_secondaries mg) (mg_ms_ready mg) v
    (mc_histogram mg).
Definition set_mc_histogram (mg : metaslab_group) (v : list Z) : metaslab_group :=
  MetaslabGroup (mg_metaslab_tree mg) (mg_primaries mg) (mg_secondaries mg) (mg_ms_ready mg)
    (mg_histogram mg) v.
Definition set_w_ms (w : world) (v : metaslab) : world :=
  World v (w_mg w) (w_st w) (w_ck w) (w_ms_array w).
Definition set_w_mg (w : world) (v : metaslab_group) : world :=
  World (w_ms w) v (w_st w) (w_ck w) (w_ms_array w).
Definition set_w_st (w : world) (v : space_stats) : world :=
  World (w_ms w) (w_mg w) v (w_ck w) (w_ms_array w).
Definition set_w_ck (w : world) (v : checkpoint_state) : world :=
  World (w_ms w) (w_mg w) (w_st w) v (w_ms_array w).
Definition set_w_ms_array (w : world) (v : Z) : world :=
  World (w_ms w) (w_mg w) (w_st w) (w_ck w) v.
