(* ===== verification/MetaslabWeight.v ===== *)
(** * Metaslabs: weights and the group

    Model of the selection side of [kernel/fs/zfs/metaslab.c]: fragmentation,
    space- and segment-based weights, [metaslab_should_allocate], the ordered
    tree of a group and the activation of metaslabs for an allocator. *)

From S2P Require Import Prelude TxgData Avl RangeTree SpaceMap MetaslabAlloc MetaslabData.

(** ** Bit fields of a weight *)

Definition BF64_SET (x low len val : Z) : Z :=
  Z.lxor x (BF64_ENCODE (Z.lxor (Z.shiftr x low) val) low len).

Definition METASLAB_WEIGHT_PRIMARY : Z := 2 ^ 63.
Definition METASLAB_WEIGHT_SECONDARY : Z := 2 ^ 62.
Definition METASLAB_WEIGHT_CLAIM : Z := 2 ^ 61.
Definition METASLAB_WEIGHT_TYPE : Z := 2 ^ 60.
Definition METASLAB_ACTIVE_MASK : Z :=
  Z.lor (Z.lor METASLAB_WEIGHT_PRIMARY METASLAB_WEIGHT_SECONDARY) METASLAB_WEIGHT_CLAIM.
(** [~x] on 64 bits. *)
Definition not64 (x : Z) : Z := 2 ^ 64 - 1 - x.

Definition WEIGHT_GET_ACTIVE (weight : Z) : Z := BF64_DECODE weight 61 3.
Definition WEIGHT_SET_ACTIVE (weight x : Z) : Z := BF64_SET weight 61 3 x.
Definition WEIGHT_IS_SPACEBASED (weight : Z) : bool :=
  (weight =? 0) || negb (BF64_DECODE weight 60 1 =? 0).
Definition WEIGHT_SET_SPACEBASED (weight : Z) : Z := BF64_SET weight 60 1 1.
Definition WEIGHT_GET_INDEX (weight : Z) : Z := BF64_DECODE weight 54 6.
Definition WEIGHT_SET_INDEX (weight x : Z) : Z := BF64_SET weight 54 6 x.
Definition WEIGHT_GET_COUNT (weight : Z) : Z := BF64_DECODE weight 0 54.
Definition WEIGHT_SET_COUNT (weight x : Z) : Z := BF64_SET weight 0 54 x.

(** ** Fragmentation *)

(** What an operation reads of the transaction group being synced. *)
Record sync_ctx : Type := SyncCtx {
  spa_syncing_txg : Z; spa_final_dirty_txg : Z; spa_sync_pass : Z }.

(** [vdev_dirty(vd, VDD_METASLAB, msp, txg)]: on the list of that txg's slot. *)
Definition vdev_dirty (ms : metaslab) (txg : Z) : metaslab :=
  set_ms_txg_node ms (<[txg_slot txg := true]> (ms_txg_node ms)).

Definition FRAGMENTATION_TABLE_SIZE : Z := 17.
Definition zfs_frag_table : list Z :=
  [100; 100; 98; 95; 90; 80; 70; 60; 50; 40; 30; 20; 15; 10; 5; 0; 0].

Definition set_fragmentation (ms : metaslab) (v : Z) : metaslab :=
  set_ms_sel ms (set_ms_fragmentation (ms_sel ms) v).

(** One round of the loop over the histogram: the weighted and the total
    space so far. *)
Definition frag_step (shift : Z) (hist : list Z) (i : nat) (acc : Z * Z) : result (Z * Z) :=
  let '(fragmentation, total) := acc in
  n ← rd hist i;
  if n =? 0 then Ret acc
  else
    let idx := Z.min (shift - SPA_MINBLOCKSHIFT + Z.of_nat i) (FRAGMENTATION_TABLE_SIZE - 1) in
    _ ← verify (0 <=? idx);
    f ← rd zfs_frag_table (Z.to_nat idx);
    let space := wrap64 (Z.shiftl n (Z.of_nat i + shift)) in
    Ret (add64 fragmentation (wrap64 (space * f)), add64 total space).

Definition metaslab_set_fragmentation (e : env) (c : sync_ctx) (ms : metaslab) : result metaslab :=
  if negb (sm_hist e) then Ret (set_fragmentation ms ZFS_FRAG_INVALID)
  else
    match ms_sm ms with
    | None => Ret (set_fragmentation ms 0)
    | Some sm =>
        if negb (sm_has_hist sm) then
          let ms1 :=
            if spa_writeable e && (spa_syncing_txg c <? spa_final_dirty_txg c) then
              vdev_dirty (set_ms_sel ms (set_ms_condense_wanted (ms_sel ms) true))
                (add64 (spa_syncing_txg c) 1)
            else ms in
          Ret (set_fragmentation ms1 ZFS_FRAG_INVALID)
        else
          '(fragmentation, total) ←
            for_loop SPACE_MAP_HISTOGRAM_SIZE 0 (frag_step (sm_shift sm) (smp_histogram sm)) (0, 0);
          Ret (set_fragmentation ms (if 0 <? total then fragmentation / total else fragmentation))
    end.

(** ** Weights *)

Definition metaslab_space_weight (e : env) (ms : metaslab) : Z :=
  let frag := ms_fragmentation (ms_sel ms) in
  let space := sub64 (ms_size ms) (space_map_allocated (ms_sm ms)) in
  let space :=
    if metaslab_fragmentation_factor_enabled e && negb (frag =? ZFS_FRAG_INVALID) then
      let space := wrap64 (space * sub64 100 (sub64 frag 1)) / 100 in
      if (0 <? space) && (space <? SPA_MINBLOCKSIZE) then SPA_MINBLOCKSIZE else space
    else space in
  let weight :=
    if metaslab_lba_weighting_enabled e then
      sub64 (wrap64 (2 * space)) (wrap64 (ms_id ms * space) / vdev_ms_count e)
    else space in
  let weight :=
    if ms_loaded ms && negb (frag =? ZFS_FRAG_INVALID) &&
       (frag <=? zfs_metaslab_fragmentation_threshold e)
    then Z.lor weight (Z.land (ms_weight (ms_sel ms)) METASLAB_ACTIVE_MASK)
    else weight in
  WEIGHT_SET_SPACEBASED weight.

Definition wrap32 (x : Z) : Z := x mod 2 ^ 32.

(** A segment-based weight: count and index of a bucket, not active. *)
Definition bucket_weight (count idx : Z) : Z :=
  WEIGHT_SET_ACTIVE (WEIGHT_SET_INDEX (WEIGHT_SET_COUNT 0 count) idx) 0.

(** [for (int i = RANGE_TREE_HISTOGRAM_SIZE - 1; i >= SPA_MINBLOCKSHIFT; i--)]:
    [n] more rounds, the next with [i = n - 1 + SPA_MINBLOCKSHIFT]. *)
Fixpoint range_tree_weight_loop (n : nat) (ashift : Z) (hist : list Z) (segments : Z) : result Z :=
  match n with
  | O => Ret 0
  | S n' =>
      let i := Z.of_nat n' + SPA_MINBLOCKSHIFT in
      let max_idx := Z.of_nat SPACE_MAP_HISTOGRAM_SIZE + ashift - 1 in
      h ← rd hist (Z.to_nat i);
      let segments := wrap32 (wrap32 (Z.shiftl segments 1) + h) in
      if max_idx <? i then range_tree_weight_loop n' ashift hist segments
      else if negb (segments =? 0) then Ret (bucket_weight segments i)
      else range_tree_weight_loop n' ashift hist segments
  end.

Definition metaslab_weight_from_range_tree (e : env) (ms : metaslab) : result Z :=
  range_tree_weight_loop (Z.to_nat (Z.of_nat RANGE_TREE_HISTOGRAM_SIZE - SPA_MINBLOCKSHIFT))
    (vdev_ashift e) (rt_histogram (ms_allocatable ms)) 0.

(** [for (int i = SPACE_MAP_HISTOGRAM_SIZE - 1; i >= 0; i--)]. *)
Fixpoint spacemap_weight_loop (n : nat) (shift : Z) (hist : list Z) : result Z :=
  match n with
  | O => Ret 0
  | S n' =>
      h ← rd hist n';
      if negb (h =? 0) then Ret (bucket_weight h (Z.of_nat n' + shift))
      else spacemap_weight_loop n' shift hist
  end.

Definition metaslab_weight_from_spacemap (sm : space_map) : result Z :=
  spacemap_weight_loop SPACE_MAP_HISTOGRAM_SIZE (sm_shift sm) (smp_histogram sm).

Definition metaslab_segment_weight (e : env) (ms : metaslab) : result Z :=
  let allocated := space_map_allocated (ms_sm ms) in
  if allocated =? 0 then
    let idx := highbit64 (ms_size ms) - 1 in
    let max_idx := Z.of_nat SPACE_MAP_HISTOGRAM_SIZE + vdev_ashift e - 1 in
    Ret (if idx <? max_idx then bucket_weight 1 idx
         else bucket_weight (wrap64 (Z.shiftl 1 (idx - max_idx))) max_idx)
  else if allocated =? ms_size ms then Ret 0
  else
    weight ← (if ms_loaded ms then metaslab_weight_from_range_tree e ms
              else match ms_sm ms with
                   | Some sm => metaslab_weight_from_spacemap sm
                   | None => Panic
                   end);
    Ret (if negb (ms_activation_weight (ms_sel ms) =? 0) && negb (weight =? 0)
         then WEIGHT_SET_ACTIVE weight (WEIGHT_GET_ACTIVE (ms_weight (ms_sel ms)))
         else weight).

Definition metaslab_should_allocate (ms : metaslab) (asize : Z) : bool :=
  let s := ms_sel ms in
  if negb (ms_max_size s =? 0) then asize <=? ms_max_size s
  else if negb (WEIGHT_IS_SPACEBASED (ms_weight s)) then
    asize <? wrap64 (Z.shiftl 1 (WEIGHT_GET_INDEX (ms_weight s) + 1))
  else asize <=? Z.land (ms_weight s) (not64 METASLAB_WEIGHT_TYPE).

(** [metaslab_weight]: the weight, and the metaslab with its fragmentation and
    maximum size brought up to date. *)
Definition metaslab_weight (e : env) (c : sync_ctx) (ms : metaslab) : result (metaslab * Z) :=
  if vdev_removing e then Ret (ms, 0)
  else
    ms ← metaslab_set_fragmentation e c ms;
    let ms :=
      if ms_loaded ms
      then set_ms_sel ms (set_ms_max_size (ms_sel ms) (metaslab_block_maxsize (ms_allocatable ms)))
      else ms in
    weight ←
      (if zfs_metaslab_segment_weight_enabled e && sm_hist e &&
          match ms_sm ms with None => true | Some sm => sm_has_hist sm end
       then metaslab_segment_weight e ms
       else Ret (metaslab_space_weight e ms));
    Ret (ms, weight).

(** ** The tree of the group *)

(** Inactive metaslabs first, then primaries, then secondaries. *)
Definition key_class (k : ms_key) : Z :=
  if k_allocator k =? -1 then 0 else if k_primary k then 1 else 2.

Definition metaslab_compare (m1 m2 : ms_key) : Z :=
  if key_class m1 <? key_class m2 then -1
  else if key_class m2 <? key_class m1 then 1
  else if k_weight m1 <? k_weight m2 then 1
  else if k_weight m2 <? k_weight m1 then -1
  else if k_start m1 <? k_start m2 then -1
  else if k_start m2 <? k_start m1 then 1
  else 0.
#[export] Instance ms_key_compar : Compar ms_key ms_key := metaslab_compare.

(** [metaslab_group_sort_impl]: out of the tree, with the new weight back in. *)
Definition metaslab_group_sort_impl (w : world) (weight : Z) : result world :=
  let ms := w_ms w in
  let t := avl_remove (mg_metaslab_tree (w_mg w)) (key ms) in
  let ms' := set_ms_sel ms (set_ms_weight (ms_sel ms) weight) in
  t' ← avl_add t (key ms');
  Ret (set_w_mg (set_w_ms w ms') (set_mg_metaslab_tree (w_mg w) t')).

Definition metaslab_group_sort (w : world) (weight : Z) : result world :=
  metaslab_group_sort_impl w weight.

(** A change of [ms_allocator] and [ms_primary] while the metaslab is in the
    tree: the node changes in place. *)
Definition set_allocator (w : world) (allocator : Z) (primary : bool) : world :=
  let ms := w_ms w in
  let ms' := set_ms_sel ms (set_ms_primary (set_ms_allocator (ms_sel ms) allocator) primary) in
  set_w_mg (set_w_ms w ms')
    (set_mg_metaslab_tree (w_mg w) (avl_set (mg_metaslab_tree (w_mg w)) (key ms) (key ms'))).

Definition EEXIST : Z := 17.
Definition EBUSY : Z := 16.
Definition ENOENT : Z := 2.
Definition ENXIO : Z := 6.

(** A slot of [mg_primaries] or [mg_secondaries]. *)
Definition slots (mg : metaslab_group) (primary : bool) : list (option Z) :=
  if primary then mg_primaries mg else mg_secondaries mg.
Definition set_slot (mg : metaslab_group) (primary : bool) (allocator : Z) (v : option Z)
    : metaslab_group :=
  let arr := <[Z.to_nat allocator := v]> (slots mg primary) in
  if primary then set_mg_primaries mg arr else set_mg_secondaries mg arr.

Definition metaslab_activate_allocator (w : world) (allocator activation_weight : Z)
    : result (world * Z) :=
  if activation_weight =? METASLAB_WEIGHT_CLAIM then Ret (w, 0)
  else
    let primary := activation_weight =? METASLAB_WEIGHT_PRIMARY in
    match slots (w_mg w) primary !! Z.to_nat allocator with
    | None => Panic
    | Some (Some _) => Ret (w, EEXIST)
    | Some None =>
        let w := set_w_mg w (set_slot (w_mg w) primary allocator (Some (ms_start (w_ms w)))) in
        Ret (set_allocator w allocator primary, 0)
    end.

Definition metaslab_passivate_allocator (w : world) (weight : Z) : result world :=
  let ms := w_ms w in
  if negb (Z.land (ms_weight (ms_sel ms)) METASLAB_WEIGHT_CLAIM =? 0)
  then metaslab_group_sort w weight
  else
    let primary := ms_primary (ms_sel ms) in
    let a := ms_allocator (ms_sel ms) in
    _ ← verify ((0 <=? a) && (a <? Z.of_nat (length (slots (w_mg w) primary))));
    let w := set_w_mg w (set_slot (w_mg w) primary a None) in
    metaslab_group_sort_impl (set_allocator w (-1) primary) weight.

Definition metaslab_passivate (w : world) (weight : Z) : result world :=
  let ms := w_ms w in
  metaslab_passivate_allocator
    (set_w_ms w (set_ms_sel ms (set_ms_activation_weight (ms_sel ms) 0))) weight.

Definition metaslab_segment_may_passivate (e : env) (c : sync_ctx) (w : world) : result world :=
  let ms := w_ms w in
  if WEIGHT_IS_SPACEBASED (ms_weight (ms_sel ms)) || (1 <? spa_sync_pass c) then Ret w
  else
    weight ← metaslab_weight_from_range_tree e ms;
    let activation_idx := WEIGHT_GET_INDEX (ms_activation_weight (ms_sel ms)) in
    if WEIGHT_GET_INDEX weight <=? activation_idx - zfs_metaslab_switch_threshold e
    then metaslab_passivate w weight
    else Ret w.

(** ** Histograms of the group *)

(** [mg_histogram[i + ashift] op= smp_histogram[i]] for every [i], and the same
    for the class. *)
Definition group_histogram (op : Z -> Z -> Z) (ashift : Z) (sm : space_map) (h : list Z)
    : result (list Z) :=
  for_loop SPACE_MAP_HISTOGRAM_SIZE 0
    (fun i h =>
       n ← rd (smp_histogram sm) i;
       old ← rd h (Z.to_nat (Z.of_nat i + ashift));
       wr h (Z.to_nat (Z.of_nat i + ashift)) (op old n)) h.

Definition group_histograms (op : Z -> Z -> Z) (e : env) (w : world) : result world :=
  match ms_sm (w_ms w) with
  | None => Ret w
  | Some sm =>
      let mg := w_mg w in
      h1 ← group_histogram op (vdev_ashift e) sm (mg_histogram mg);
      h2 ← group_histogram op (vdev_ashift e) sm (mc_histogram mg);
      Ret (set_w_mg w (set_mc_histogram (set_mg_histogram mg h1) h2))
  end.

Definition metaslab_group_histogram_add : env -> world -> result world := group_histograms add64.
Definition metaslab_group_histogram_remove : env -> world -> result world := group_histograms sub64.

(** [metaslab_group_add] and [metaslab_group_remove]. *)
Definition metaslab_group_add (e : env) (w : world) : result world :=
  let ms := set_ms_sel (w_ms w) (set_ms_weight (ms_sel (w_ms w)) 0) in
  t ← avl_add (mg_metaslab_tree (w_mg w)) (key ms);
  metaslab_group_histogram_add e (set_w_mg (set_w_ms w ms) (set_mg_metaslab_tree (w_mg w) t)).

Definition metaslab_group_remove (e : env) (w : world) : result world :=
  w ← metaslab_group_histogram_remove e w;
  Ret (set_w_mg w (set_mg_metaslab_tree (w_mg w)
                     (avl_remove (mg_metaslab_tree (w_mg w)) (key (w_ms w))))).
