(* ===== verification/MetaslabGroup.v ===== *)
(** * Metaslabs: the group keeps its order

    The invariant of a metaslab group's tree and the operations of
    [MetaslabWeight] that move a metaslab in it; the weights themselves never
    fail. *)

From S2P Require Import Prelude TxgData Avl RangeTree SpaceMap MetaslabAlloc MetaslabData MetaslabWeight.

(** ** The comparison *)

#[export] Instance ms_key_laws : ComparLaws (A := ms_key).
Proof.
  constructor; unfold avl_compar, ms_key_compar, metaslab_compare.
  - intros a b. repeat split_if; cbn; lia.
  - intros a b c. repeat split_if; cbn; lia.
Qed.

Lemma compare_start a b : k_start a <> k_start b -> metaslab_compare a b <> 0.
Proof. unfold metaslab_compare. intros H. repeat split_if; lia. Qed.

(** [avl_add] of a node that ties with no other, whatever the order of the
    tree. *)
Lemma avl_add_any {A} `{!Compar A A} (t : avl_tree A) x :
  avl_wf t -> Forall (fun y => avl_compar x y <> 0) (elements t) ->
  exists (t' : avl_tree A), avl_add t x = Ret t' /\ avl_wf t' /\ elements t' ≡ₚ x :: elements t.
Proof.
  intros Hwf Hne. unfold avl_add, avl_find.
  assert (forall t p, Forall (fun y => avl_compar x y <> 0) (inorder t) ->
    exists w, find_loop x t p = inr w) as Hnf.
  { clear. induction t as [|l IHl y b r IHr]; intros p Hf; cbn; [eauto|].
    cbn in Hf. rewrite Forall_app, Forall_cons in Hf. destruct Hf as (Hl & Hy & Hr).
    destruct (Z.eqb_spec (avl_compar x y) 0); [done|]. destruct (avl_balance2child _); auto. }
  pose proof (find_loop_plug x (avl_root t) []) as Hp.
  destruct (Hnf (avl_root t) [] Hne) as [w Hw]. rewrite Hw in Hp |- *. cbn in Hp.
  destruct (avl_insert_spec t x w Hwf Hp) as [Hwf' Hel].
  eexists; split; [done|]. split; [done|]. rewrite Hel, (hole_elements t w Hp).
  symmetry. apply Permutation_middle.
Qed.

(** ** The fields of a weight *)

(** The bits that say a metaslab is active. *)
Definition act (weight : Z) : Z := Z.land weight METASLAB_ACTIVE_MASK.

Lemma active_mask : METASLAB_ACTIVE_MASK = Z.shiftl (Z.ones 3) 61.
Proof. reflexivity. Qed.

Lemma act_bits weight n : 0 <= n ->
  Z.testbit (act weight) n = Z.testbit weight n && (61 <=? n) && (n <? 64).
Proof.
  intros Hn. unfold act. rewrite active_mask, Z.land_spec.
  destruct (Z.leb_spec 61 n); [|by rewrite Z.shiftl_spec_low, !andb_false_r by lia].
  rewrite Z.shiftl_spec by lia. destruct (Z.ltb_spec n 64).
  - by rewrite Z.ones_spec_low, !andb_true_r by lia.
  - by rewrite Z.ones_spec_high, !andb_false_r by lia.
Qed.

Lemma testbit_small x k n : 0 <= x < 2 ^ k -> 0 <= k <= n -> Z.testbit x n = false.
Proof. intros Hx Hk. rewrite <- (Z.mod_small x (2 ^ k)) by lia. by apply Z.mod_pow2_bits_high. Qed.

Lemma act_small x : 0 <= x < 2 ^ 61 -> act x = 0.
Proof.
  intros Hx. apply Z.bits_inj'. intros n Hn. rewrite act_bits, Z.bits_0 by done.
  destruct (Z.leb_spec 61 n); [|by rewrite andb_false_r]. by rewrite (testbit_small x 61) by lia.
Qed.

Lemma act_lor a b : act (Z.lor a b) = Z.lor (act a) (act b).
Proof. unfold act. apply Z.land_lor_distr_l. Qed.

Lemma act_act a : act (act a) = act a.
Proof. unfold act. by rewrite <- Z.land_assoc, Z.land_diag. Qed.

Lemma act_off a : act (Z.land a (not64 METASLAB_ACTIVE_MASK)) = 0.
Proof. unfold act. rewrite <- Z.land_assoc. change (Z.land _ METASLAB_ACTIVE_MASK) with 0. apply Z.land_0_r. Qed.

(** Setting a field that is clear adds it. *)
Lemma BF64_SET_clear x low len v :
  0 <= low -> 0 <= len -> 0 <= x < 2 ^ low -> BF64_SET x low len v = x + (v mod 2 ^ len) * 2 ^ low.
Proof.
  intros Hlow Hlen Hx. unfold BF64_SET, BF64_ENCODE, P2PHASE.
  rewrite Z.shiftr_div_pow2, Z.div_small, Z.lxor_0_l by lia.
  replace (Z.shiftl 1 len - 1) with (Z.ones len) by (rewrite Z.ones_equiv, Z.shiftl_1_l; lia).
  rewrite Z.land_ones by lia.
  assert (Z.land x (Z.shiftl (v mod 2 ^ len) low) = 0) as Hl.
  { rewrite Z.land_comm. by apply land_shiftl_low. }
  rewrite <- Z.add_nocarry_lxor, Z.shiftl_mul_pow2 by done. done.
Qed.

Lemma bucket_weight_value count idx :
  bucket_weight count idx = count mod 2 ^ 54 + (idx mod 2 ^ 6) * 2 ^ 54 /\
  0 <= bucket_weight count idx < 2 ^ 60.
Proof.
  unfold bucket_weight, WEIGHT_SET_ACTIVE, WEIGHT_SET_INDEX, WEIGHT_SET_COUNT.
  rewrite (BF64_SET_clear 0 0 54) by lia. rewrite Z.add_0_l, Z.mul_1_r.
  pose proof (Z.mod_pos_bound count (2 ^ 54) ltac:(lia)) as Hc.
  rewrite (BF64_SET_clear _ 54 6) by lia.
  pose proof (Z.mod_pos_bound idx (2 ^ 6) ltac:(lia)) as Hi.
  set (y := _ + _). assert (0 <= y < 2 ^ 60) as Hy by (unfold y; lia).
  rewrite (BF64_SET_clear y 61 3) by lia. rewrite Z.mod_0_l by lia. lia.
Qed.

Lemma act_set_active x w : 0 <= x < 2 ^ 61 -> act (WEIGHT_SET_ACTIVE x (WEIGHT_GET_ACTIVE w)) = act w.
Proof.
  intros Hx. unfold WEIGHT_SET_ACTIVE. rewrite BF64_SET_clear by lia.
  unfold WEIGHT_GET_ACTIVE, BF64_DECODE, P2PHASE. change (Z.shiftl 1 3 - 1) with (Z.ones 3).
  rewrite Z.land_ones, Z.mod_mod by lia. rewrite <- Z.land_ones by lia.
  rewrite Z.add_comm, <- lor_shiftl_add by lia. apply Z.bits_inj'. intros n Hn.
  rewrite !act_bits, Z.lor_spec by done. destruct (Z.leb_spec 61 n); [|by rewrite !andb_false_r].
  rewrite (testbit_small x 61), orb_false_r, Z.shiftl_spec, Z.land_spec, Z.shiftr_spec by lia.
  replace (n - 61 + 61) with n by lia. destruct (Z.ltb_spec n 64); [|by rewrite !andb_false_r].
  by rewrite Z.ones_spec_low, !andb_true_r by lia.
Qed.

(** ** The invariant of the group *)

Definition slot_ok (mg : metaslab_group) (s : ms_selection) : Prop :=
  ms_allocator s = -1 \/ 0 <= ms_allocator s < Z.of_nat (length (slots mg (ms_primary s))).

(** The metaslab is a node of the tree, and no other has its start. *)
Definition in_group (ms : metaslab) (t : avl_tree ms_key) : Prop :=
  avl_wf t /\ exists ks, elements t ≡ₚ key ms :: ks /\ Forall (fun k => k_start k <> ms_start ms) ks /\
    NoDup (elements t).

Definition group_ok (w : world) : Prop :=
  in_group (w_ms w) (mg_metaslab_tree (w_mg w)) /\
  length (mg_histogram (w_mg w)) = RANGE_TREE_HISTOGRAM_SIZE /\
  length (mc_histogram (w_mg w)) = RANGE_TREE_HISTOGRAM_SIZE /\ slot_ok (w_mg w) (ms_sel (w_ms w)).

(** Only what steers the choice of a metaslab has changed, and the metaslab may
    have become dirty. *)
Definition more_dirty (l l' : list bool) : Prop :=
  length l' = length l /\ forall i, l !! i = Some true -> l' !! i = Some true.

Definition reselect (ms ms' : metaslab) : Prop :=
  exists node sel, ms' = set_ms_txg_node (set_ms_sel ms sel) node /\ more_dirty (ms_txg_node ms) node /\
    ms_selected_txg sel = ms_selected_txg (ms_sel ms).

Lemma more_dirty_refl l : more_dirty l l.
Proof. done. Qed.

Lemma reselect_sel ms sel :
  ms_selected_txg sel = ms_selected_txg (ms_sel ms) -> reselect ms (set_ms_sel ms sel).
Proof. intros H. exists (ms_txg_node ms), sel. by split_and!. Qed.

Lemma reselect_refl ms : reselect ms ms.
Proof. exists (ms_txg_node ms), (ms_sel ms). split; [by destruct ms|]. by split. Qed.

Lemma reselect_trans a b c : reselect a b -> reselect b c -> reselect a c.
Proof.
  intros (n1 & s1 & -> & [L1 D1] & S1) (n2 & s2 & -> & [L2 D2] & S2). cbn in *. exists n2, s2.
  split; [done|]. split; [|congruence]. split; [congruence|auto].
Qed.

(** Only the metaslab's selection and the group differ. *)
Definition regroup (w w' : world) : Prop :=
  reselect (w_ms w) (w_ms w') /\ w_st w' = w_st w /\ w_ck w' = w_ck w /\ w_ms_array w' = w_ms_array w /\
  forall p, length (slots (w_mg w') p) = length (slots (w_mg w) p).

Lemma regroup_refl w : regroup w w.
Proof. by split_and!; [apply reselect_refl|..]. Qed.

Lemma regroup_trans a b c : regroup a b -> regroup b c -> regroup a c.
Proof.
  intros (H1 & H2 & H3 & H4 & L1) (H5 & H6 & H7 & H8 & L2). split_and!; try congruence.
  by eapply reselect_trans.
Qed.

(** The tables of the group say for which allocator the metaslab is active. *)
Definition owner_ok (w : world) : Prop :=
  forall p a, slots (w_mg w) p !! a = Some (Some (ms_start (w_ms w))) <->
    ms_allocator (ms_sel (w_ms w)) = Z.of_nat a /\ ms_primary (ms_sel (w_ms w)) = p.

Lemma owner_same w w' :
  owner_ok w -> ms_start (w_ms w') = ms_start (w_ms w) ->
  ms_allocator (ms_sel (w_ms w')) = ms_allocator (ms_sel (w_ms w)) ->
  ms_primary (ms_sel (w_ms w')) = ms_primary (ms_sel (w_ms w)) ->
  (forall p, slots (w_mg w') p = slots (w_mg w) p) -> owner_ok w'.
Proof. intros Ho H1 H2 H3 H4 p a. rewrite H1, H2, H3, H4. apply Ho. Qed.

Lemma slots_set mg primary a v p :
  slots (set_slot mg primary a v) p =
    if Bool.eqb p primary then <[Z.to_nat a := v]> (slots mg p) else slots mg p.
Proof. by destruct primary, p. Qed.

(** ** Operations on the tree *)

Lemma in_group_sort ms ms' t :
  in_group ms t -> ms_start ms' = ms_start ms ->
  exists t', avl_add (avl_remove t (key ms)) (key ms') = Ret t' /\ in_group ms' t'.
Proof.
  intros (Hwf & ks & Hel & Hks & Hnd) Hst.
  assert (key ms ∈ elements t) as Hin by (rewrite Hel; left).
  apply list_elem_of_split in Hin as (k1 & k2 & Heq).
  destruct (avl_remove_spec t k1 (key ms) k2 Hwf Hnd Heq) as [Hwf1 Hel1].
  rewrite Heq, <- Permutation_middle in Hel. apply Permutation_cons_inv in Hel.
  assert (Forall (fun k => k_start k <> ms_start ms') (k1 ++ k2)) as Hst' by (by rewrite Hel, Hst).
  destruct (avl_add_any (avl_remove t (key ms)) (key ms')) as (t' & Hadd & Hwf' & Hel'); [done| |].
  { rewrite Hel1. eapply Forall_impl; [exact Hst'|]. intros k Hk. apply compare_start. cbn. congruence. }
  exists t'. split; [done|]. split; [done|]. exists (k1 ++ k2). rewrite Hel', Hel1. split_and!; auto.
  apply NoDup_cons. split.
  - intros Hin. rewrite Forall_forall in Hst'. by apply (Hst' _ Hin).
  - rewrite Heq in Hnd. by apply NoDup_drop_middle in Hnd.
Qed.

Lemma in_group_set ms ms' t :
  in_group ms t -> ms_start ms' = ms_start ms -> in_group ms' (avl_set t (key ms) (key ms')).
Proof.
  intros (Hwf & ks & Hel & Hks & Hnd) Hst.
  assert (key ms ∈ elements t) as Hin by (rewrite Hel; left).
  apply list_elem_of_split in Hin as (k1 & k2 & Heq).
  destruct (avl_set_spec t k1 (key ms) k2 (key ms') Hwf Hnd Heq) as [Hwf1 Hel1].
  rewrite Heq, <- Permutation_middle in Hel. apply Permutation_cons_inv in Hel.
  assert (Forall (fun k => k_start k <> ms_start ms') (k1 ++ k2)) as Hst' by (by rewrite Hel, Hst).
  split; [done|]. exists (k1 ++ k2). rewrite Hel1, <- Permutation_middle. split_and!; auto.
  apply NoDup_cons. split.
  - intros Hin. rewrite Forall_forall in Hst'. by apply (Hst' _ Hin).
  - rewrite Heq in Hnd. by apply NoDup_drop_middle in Hnd.
Qed.

Lemma group_sort_ok w weight :
  group_ok w ->
  exists w', metaslab_group_sort_impl w weight = Ret w' /\ group_ok w' /\ regroup w w' /\
    ms_sel (w_ms w') = set_ms_weight (ms_sel (w_ms w)) weight /\
    forall p, slots (w_mg w') p = slots (w_mg w) p.
Proof.
  intros (Hg & Hh1 & Hh2 & Hs). unfold metaslab_group_sort_impl.
  set (ms' := set_ms_sel (w_ms w) (set_ms_weight (ms_sel (w_ms w)) weight)).
  destruct (in_group_sort (w_ms w) ms' _ Hg) as (t' & -> & Hg'); [done|]. cbn [mbind result_bind].
  eexists; split; [done|]. split; [by split_and!|]. split; [|by split; [|intros []]].
  split_and!; [|done..|by intros []]. by apply reselect_sel.
Qed.

Lemma set_allocator_ok w a primary :
  group_ok w -> a = -1 \/ 0 <= a < Z.of_nat (length (slots (w_mg w) primary)) ->
  group_ok (set_allocator w a primary) /\ regroup w (set_allocator w a primary).
Proof.
  intros (Hg & Hh1 & Hh2 & Hs) Ha. split; [|split_and!; [by apply reselect_sel|done..|by intros []]].
  split; [by apply in_group_set|]. done.
Qed.

Lemma set_slot_ok w primary a v :
  group_ok w -> group_ok (set_w_mg w (set_slot (w_mg w) primary a v)) /\
  regroup w (set_w_mg w (set_slot (w_mg w) primary a v)) /\
  forall p, length (slots (set_slot (w_mg w) primary a v) p) = length (slots (w_mg w) p).
Proof.
  intros (Hg & Hh1 & Hh2 & Hs).
  assert (forall p, length (slots (set_slot (w_mg w) primary a v) p) = length (slots (w_mg w) p)) as Hl.
  { intros p. unfold set_slot, slots. destruct primary, p; cbn; by rewrite ?length_insert. }
  split; [|split; [|done]].
  - unfold group_ok, slot_ok in *. cbn [w_ms w_mg set_w_mg]. rewrite Hl. by destruct primary.
  - split_and!; [apply reselect_refl|done..].
Qed.

(** The slot and the fields of the metaslab change together. *)
Lemma owner_clear w p :
  owner_ok w -> ms_primary (ms_sel (w_ms w)) = p -> 0 <= ms_allocator (ms_sel (w_ms w)) ->
  owner_ok (set_allocator (set_w_mg w (set_slot (w_mg w) p (ms_allocator (ms_sel (w_ms w))) None)) (-1) p).
Proof.
  intros Ho Hp Ha p' a'. cbn [w_ms set_allocator set_w_mg set_w_ms ms_start set_ms_sel ms_sel].
  split; [|intros [? _]; cbn in *; lia].
  replace (slots _ p') with (slots (set_slot (w_mg w) p (ms_allocator (ms_sel (w_ms w))) None) p') by (by destruct p').
  rewrite slots_set. intros Hl. exfalso. destruct (Bool.eqb_spec p' p) as [-> |Hne].
  - apply list_lookup_insert_Some in Hl as [(_ & ? & _)|[Hne Hl]]; [done|].
    apply Ho in Hl as [Hl _]. apply Hne. rewrite Hl. lia.
  - apply Ho in Hl as [_ Hl]. congruence.
Qed.

Lemma owner_take w p a :
  owner_ok w -> ms_allocator (ms_sel (w_ms w)) = -1 -> 0 <= a < Z.of_nat (length (slots (w_mg w) p)) ->
  owner_ok (set_allocator (set_w_mg w (set_slot (w_mg w) p a (Some (ms_start (w_ms w))))) a p).
Proof.
  intros Ho Hm Ha p' a'. cbn [w_ms set_allocator set_w_mg set_w_ms ms_start set_ms_sel ms_sel
    ms_primary set_ms_primary ms_allocator set_ms_allocator].
  replace (slots _ p') with (slots (set_slot (w_mg w) p a (Some (ms_start (w_ms w)))) p') by (by destruct p').
  rewrite slots_set. destruct (Bool.eqb_spec p' p) as [-> |Hne].
  - destruct (decide (Z.to_nat a = a')) as [<- |Hn].
    + rewrite list_lookup_insert_eq by lia. split; [intros _; split; [lia|done]|done].
    + rewrite list_lookup_insert_ne by done. split; [intros Hl|intros [? _]; lia].
      apply Ho in Hl as [Hl _]. lia.
  - split; [intros Hl|intros [_ ?]; congruence]. apply Ho in Hl as [Hl _]. lia.
Qed.

Lemma passivate_ok w weight :
  group_ok w -> ms_allocator (ms_sel (w_ms w)) <> -1 \/
    Z.land (ms_weight (ms_sel (w_ms w))) METASLAB_WEIGHT_CLAIM <> 0 ->
  exists w', metaslab_passivate w weight = Ret w' /\ group_ok w' /\ regroup w w' /\
    ms_weight (ms_sel (w_ms w')) = weight /\ ms_max_size (ms_sel (w_ms w')) = ms_max_size (ms_sel (w_ms w)) /\
    (ms_allocator (ms_sel (w_ms w')) = -1 \/
     Z.land (ms_weight (ms_sel (w_ms w))) METASLAB_WEIGHT_CLAIM <> 0 /\
     ms_allocator (ms_sel (w_ms w')) = ms_allocator (ms_sel (w_ms w))) /\
    (owner_ok w -> owner_ok w').
Proof.
  intros Hg Hcase. unfold metaslab_passivate, metaslab_passivate_allocator.
  set (w0 := set_w_ms w _). assert (group_ok w0) as Hg0 by done.
  assert (regroup w w0) as Hr0 by (split_and!; [by apply reselect_sel|done..]).
  change (ms_weight (ms_sel (w_ms w0))) with (ms_weight (ms_sel (w_ms w))).
  destruct (Z.eqb_spec (Z.land (ms_weight (ms_sel (w_ms w))) METASLAB_WEIGHT_CLAIM) 0) as [Hc|Hc]; cbn [negb].
  - destruct Hcase as [Hcase|]; [|done]. pose proof Hg0 as (_ & _ & _ & Hs).
    set (p := ms_primary (ms_sel (w_ms w0))). set (a := ms_allocator (ms_sel (w_ms w0))).
    destruct Hs as [Hs|Hs]; [done|]. change (0 <= a < Z.of_nat (length (slots (w_mg w0) p))) in Hs.
    assert ((0 <=? a) && (a <? Z.of_nat (length (slots (w_mg w0) p))) = true) as ->
      by (apply andb_true_iff; split; [apply Z.leb_le|apply Z.ltb_lt]; lia).
    cbn [verify mbind result_bind].
    destruct (set_slot_ok w0 p a None Hg0) as (Hg1 & Hr1 & _).
    set (w1 := set_w_mg w0 _) in *.
    destruct (set_allocator_ok w1 (-1) p Hg1) as [Hg2 Hr2]; [by left|].
    destruct (group_sort_ok _ weight Hg2) as (w' & -> & Hg' & Hr' & Hsel & Hsl).
    exists w'. split; [done|]. split; [done|]. split; [|rewrite Hsel; do 3 (split; [auto|])].
    { eapply regroup_trans; [exact Hr0|]. eapply regroup_trans; [exact Hr1|].
      eapply regroup_trans; [exact Hr2|exact Hr']. }
    intros Ho. pose proof (owner_clear w0 p Ho eq_refl ltac:(fold a; lia)) as Ho'.
    apply (owner_same _ w') in Ho'; auto; try (by rewrite Hsel). by destruct Hr' as ((? & ? & -> & _) & _).
  - unfold metaslab_group_sort. destruct (group_sort_ok w0 weight Hg0) as (w' & -> & Hg' & Hr' & Hsel & Hsl).
    exists w'. split; [done|]. split; [done|]. split; [|rewrite Hsel; do 3 (split; [auto|])].
    { eapply regroup_trans; [exact Hr0|exact Hr']. }
    intros Ho. apply (owner_same w0 w'); auto; try (by rewrite Hsel). by destruct Hr' as ((? & ? & -> & _) & _).
Qed.

Lemma activate_allocator_ok w a aw :
  group_ok w -> 0 <= a < Z.of_nat (length (mg_primaries (w_mg w))) ->
  length (mg_secondaries (w_mg w)) = length (mg_primaries (w_mg w)) ->
  exists w' err, metaslab_activate_allocator w a aw = Ret (w', err) /\ group_ok w' /\ regroup w w' /\
    (err <> 0 -> err = EEXIST /\ w' = w) /\
    ms_weight (ms_sel (w_ms w')) = ms_weight (ms_sel (w_ms w)) /\
    (err = 0 -> aw <> METASLAB_WEIGHT_CLAIM -> ms_allocator (ms_sel (w_ms w')) = a) /\
    (aw = METASLAB_WEIGHT_CLAIM -> w' = w /\ err = 0) /\
    (owner_ok w -> ms_allocator (ms_sel (w_ms w)) = -1 -> owner_ok w').
Proof.
  intros Hg Ha Hl. unfold metaslab_activate_allocator.
  destruct (Z.eqb_spec aw METASLAB_WEIGHT_CLAIM) as [Haw|Haw].
  { exists w, 0. do 2 (split; [done|]). split; [apply regroup_refl|]. done. }
  set (p := aw =? METASLAB_WEIGHT_PRIMARY).
  assert (length (slots (w_mg w) p) = length (mg_primaries (w_mg w))) as Hlp by (by destruct p).
  destruct (lookup_lt_is_Some_2 (slots (w_mg w) p) (Z.to_nat a)) as [o Ho]; [rewrite Hlp; lia|].
  rewrite Ho. destruct o as [m|].
  { exists w, EEXIST. do 2 (split; [done|]). split; [apply regroup_refl|]. by split_and!. }
  destruct (set_slot_ok w p a (Some (ms_start (w_ms w))) Hg) as (Hg1 & Hr1 & Hl1).
  set (w1 := set_w_mg w _) in *.
  destruct (set_allocator_ok w1 a p Hg1) as [Hg2 Hr2].
  { right. unfold w1. cbn [w_mg set_w_mg]. rewrite Hl1. lia. }
  eexists _, _. do 2 (split; [done|]). split; [eapply regroup_trans; [exact Hr1|exact Hr2]|].
  do 4 (split; [done|]). intros Hown Hm. apply owner_take; auto. lia.
Qed.

(** ** Weights and histograms never fail *)

(** The space map as the weights find it. *)
Definition sm_shape (ashift : Z) (sm : space_map) : Prop :=
  sm_shift sm = ashift /\ length (smp_histogram sm) = SPACE_MAP_HISTOGRAM_SIZE.

Section Weights.
Context (e : env) (Hash : 9 <= vdev_ashift e <= 28).

Lemma group_histogram_ok op sm h :
  sm_shape (vdev_ashift e) sm -> length h = RANGE_TREE_HISTOGRAM_SIZE ->
  exists h', group_histogram op (vdev_ashift e) sm h = Ret h' /\ length h' = RANGE_TREE_HISTOGRAM_SIZE.
Proof using All.
  intros [_ Hl] Hh. unfold group_histogram.
  destruct (for_loop_inv (fun _ (h : list Z) => length h = RANGE_TREE_HISTOGRAM_SIZE)
    SPACE_MAP_HISTOGRAM_SIZE 0
    (fun i h => n ← rd (smp_histogram sm) i;
       old ← rd h (Z.to_nat (Z.of_nat i + vdev_ashift e));
       wr h (Z.to_nat (Z.of_nat i + vdev_ashift e)) (op old n)) h) as (h' & -> & Hh'); [|done|eauto].
  unfold SPACE_MAP_HISTOGRAM_SIZE, RANGE_TREE_HISTOGRAM_SIZE in *. intros i a Hi Ha.
  destruct (lookup_lt_is_Some_2 (smp_histogram sm) i) as [n Hn]; [lia|]. rewrite (rd_ok _ _ _ Hn).
  destruct (lookup_lt_is_Some_2 a (Z.to_nat (Z.of_nat i + vdev_ashift e))) as [o Ho]; [lia|].
  cbn [mbind result_bind]. rewrite (rd_ok _ _ _ Ho). cbn [mbind result_bind].
  rewrite wr_ok by lia. eexists; split; [done|]. by rewrite length_insert.
Qed.

Lemma group_histograms_ok op w :
  group_ok w -> (forall sm, ms_sm (w_ms w) = Some sm -> sm_shape (vdev_ashift e) sm) ->
  exists w', group_histograms op e w = Ret w' /\ group_ok w' /\ w_ms w' = w_ms w /\
    w_st w' = w_st w /\ w_ck w' = w_ck w /\ w_ms_array w' = w_ms_array w /\
    forall p, slots (w_mg w') p = slots (w_mg w) p.
Proof using All.
  intros (Hg & Hh1 & Hh2 & Hs) Hsm. unfold group_histograms.
  destruct (ms_sm (w_ms w)) as [sm|]; [|by exists w]. specialize (Hsm sm eq_refl).
  destruct (group_histogram_ok op sm (mg_histogram (w_mg w)) Hsm Hh1) as (h1 & -> & Hl1).
  cbn [mbind result_bind].
  destruct (group_histogram_ok op sm (mc_histogram (w_mg w)) Hsm Hh2) as (h2 & -> & Hl2).
  cbn [mbind result_bind]. eexists; split; [done|]. split; [by split_and!|]. split_and!; [done..|by intros []].
Qed.

Lemma set_fragmentation_ok c ms :
  (forall sm, ms_sm ms = Some sm -> sm_shape (vdev_ashift e) sm) ->
  exists ms', metaslab_set_fragmentation e c ms = Ret ms' /\ reselect ms ms' /\ key ms' = key ms.
Proof using All.
  intros Hsm. unfold metaslab_set_fragmentation.
  destruct (sm_hist e); cbn [negb]; [|eexists; split; [done|]; split; [by apply reselect_sel|done]].
  destruct (ms_sm ms) as [sm|]; [|eexists; split; [done|]; split; [by apply reselect_sel|done]].
  specialize (Hsm sm eq_refl). destruct (sm_has_hist sm); cbn [negb].
  - destruct Hsm as [Hsh Hl]. rewrite Hsh.
    destruct (for_loop_inv (fun _ _ => True) SPACE_MAP_HISTOGRAM_SIZE 0
      (frag_step (vdev_ashift e) (smp_histogram sm)) (0, 0)) as ([f t] & -> & _); [|done|].
    + unfold SPACE_MAP_HISTOGRAM_SIZE in *. intros i [f t] Hi _.
      unfold frag_step, FRAGMENTATION_TABLE_SIZE, SPA_MINBLOCKSHIFT.
      destruct (lookup_lt_is_Some_2 (smp_histogram sm) i) as [n Hn]; [lia|]. rewrite (rd_ok _ _ _ Hn).
      cbn [mbind result_bind]. destruct (n =? 0); [eauto|].
      set (idx := Z.min _ _). destruct (Z.leb_spec 0 idx); [|lia]. cbn [verify mbind result_bind].
      destruct (lookup_lt_is_Some_2 zfs_frag_table (Z.to_nat idx)) as [v Hv]; [cbn; lia|].
      rewrite (rd_ok _ _ _ Hv). cbn [mbind result_bind]. eauto.
    + cbn [mbind result_bind]. eexists; split; [done|]. split; [by apply reselect_sel|done].
  - eexists; split; [done|]. destruct (spa_writeable e && _); [|split; [by apply reselect_sel|done]].
    split; [|done]. eexists _, _. split; [done|]. split; [|done]. split; [apply length_insert|].
    intros i Hi. cbn. destruct (decide (i = txg_slot (add64 (spa_syncing_txg c) 1))) as [->|].
    + rewrite list_lookup_insert_eq; [done|]. by eapply lookup_lt_Some.
    + by rewrite list_lookup_insert_ne.
Qed.

Lemma range_tree_weight_loop_ok hist : length hist = RANGE_TREE_HISTOGRAM_SIZE -> forall n segments,
  (n <= 55)%nat ->
  exists r, range_tree_weight_loop n (vdev_ashift e) hist segments = Ret r /\ 0 <= r < 2 ^ 60.
Proof using All.
  intros Hl. unfold RANGE_TREE_HISTOGRAM_SIZE in Hl.
  induction n as [|n IH]; intros segments Hn; cbn [range_tree_weight_loop]; [exists 0; split; [done|lia]|].
  destruct (lookup_lt_is_Some_2 hist (Z.to_nat (Z.of_nat n + SPA_MINBLOCKSHIFT))) as [h Hh];
    [unfold SPA_MINBLOCKSHIFT; lia|].
  rewrite (rd_ok _ _ _ Hh). cbn [mbind result_bind]. split_if; [apply IH; lia|].
  split_if; [|apply IH; lia]. eexists; split; [done|]. apply bucket_weight_value.
Qed.

Lemma weight_from_range_tree_ok ms :
  length (rt_histogram (ms_allocatable ms)) = RANGE_TREE_HISTOGRAM_SIZE ->
  exists r, metaslab_weight_from_range_tree e ms = Ret r /\ 0 <= r < 2 ^ 60.
Proof using All.
  intros H. apply range_tree_weight_loop_ok; [done|].
  unfold RANGE_TREE_HISTOGRAM_SIZE, SPA_MINBLOCKSHIFT. lia.
Qed.

Lemma spacemap_weight_loop_ok shift hist : forall n, (n <= length hist)%nat ->
  exists r, spacemap_weight_loop n shift hist = Ret r /\ 0 <= r < 2 ^ 60.
Proof using All.
  induction n as [|n IH]; intros Hn; cbn [spacemap_weight_loop]; [exists 0; split; [done|lia]|].
  destruct (lookup_lt_is_Some_2 hist n) as [h Hh]; [lia|]. rewrite (rd_ok _ _ _ Hh).
  cbn [mbind result_bind]. split_if; [|apply IH; lia]. eexists; split; [done|]. apply bucket_weight_value.
Qed.

(** The weight keeps what it says about activation, or says nothing. *)
Definition act_from (ms : metaslab) (weight : Z) : Prop :=
  act weight = 0 \/ act weight = act (ms_weight (ms_sel ms)).

Lemma segment_weight_ok ms :
  length (rt_histogram (ms_allocatable ms)) = RANGE_TREE_HISTOGRAM_SIZE ->
  (forall sm, ms_sm ms = Some sm -> sm_shape (vdev_ashift e) sm) ->
  exists r, metaslab_segment_weight e ms = Ret r /\ act_from ms r.
Proof using All.
  intros Hrt Hsm. unfold metaslab_segment_weight.
  destruct (Z.eqb_spec (space_map_allocated (ms_sm ms)) 0) as [|Hnz].
  { eexists; split; [done|]. left. apply act_small.
    split_if; match goal with |- context [bucket_weight ?c ?i] => destruct (bucket_weight_value c i) end; lia. }
  destruct (_ =? ms_size ms); [exists 0; split; [done|]; by left|].
  assert (exists r, (if ms_loaded ms then metaslab_weight_from_range_tree e ms
    else match ms_sm ms with Some sm => metaslab_weight_from_spacemap sm | None => Panic end) = Ret r /\
    0 <= r < 2 ^ 60) as (r & -> & Hr).
  { destruct (ms_loaded ms); [by apply weight_from_range_tree_ok|].
    destruct (ms_sm ms) as [sm|]; [|done]. destruct (Hsm sm eq_refl) as [_ Hl].
    apply spacemap_weight_loop_ok. lia. }
  cbn [mbind result_bind]. eexists; split; [done|]. split_if.
  - right. apply act_set_active. lia.
  - left. apply act_small. lia.
Qed.

(** The pool has space map histograms and weighs metaslabs by segments. *)
Definition seg_weights : Prop := zfs_metaslab_segment_weight_enabled e = true /\ sm_hist e = true.

Lemma weight_ok c ms :
  seg_weights -> length (rt_histogram (ms_allocatable ms)) = RANGE_TREE_HISTOGRAM_SIZE ->
  (forall sm, ms_sm ms = Some sm -> sm_shape (vdev_ashift e) sm /\ sm_has_hist sm = true) ->
  exists ms' r, metaslab_weight e c ms = Ret (ms', r) /\ reselect ms ms' /\ key ms' = key ms /\
    act_from ms r.
Proof using All.
  intros [Hsw Hh] Hrt Hsm. unfold metaslab_weight.
  destruct (vdev_removing e).
  { exists ms, 0. split; [done|]. split; [apply reselect_refl|]. split; [done|]. by left. }
  destruct (set_fragmentation_ok c ms) as (ms1 & -> & Hr1 & Hk1); [intros sm H; by apply Hsm|].
  cbn [mbind result_bind]. set (ms2 := if ms_loaded ms1 then _ else _).
  assert (reselect ms1 ms2) as Hr2.
  { unfold ms2. destruct (ms_loaded ms1); [by apply reselect_sel|apply reselect_refl]. }
  assert (key ms2 = key ms) as Hk2 by (rewrite <- Hk1; unfold ms2; by destruct (ms_loaded ms1)).
  pose proof (reselect_trans _ _ _ Hr1 Hr2) as Hr. pose proof Hr as (node & sel & Heq & _).
  assert (ms_sm ms2 = ms_sm ms) as Esm by (by rewrite Heq).
  assert (ms_allocatable ms2 = ms_allocatable ms) as Ert by (by rewrite Heq).
  rewrite Hsw, Hh. cbn [andb]. rewrite Esm.
  replace (match ms_sm ms with Some sm => sm_has_hist sm | None => true end) with true.
  2: { destruct (ms_sm ms) as [sm|]; [|done]. by destruct (Hsm sm eq_refl) as [_ ->]. }
  destruct (segment_weight_ok ms2) as (r & -> & Hact); [by rewrite Ert|rewrite Esm; intros sm H; by apply Hsm|].
  cbn [mbind result_bind]. exists ms2, r. do 3 (split; [done|]).
  unfold act_from in *. injection Hk2 as _ Hw _ _. by rewrite Hw in Hact.
Qed.
End Weights.
