(* ===== verification/Metaslab.v ===== *)
(** * Metaslabs: the life of a block

    Model of the core of [kernel/fs/zfs/metaslab.c]: loading and unloading,
    allocation, free, claim and the undoing of an allocation, and the two steps
    of a transaction group, [metaslab_sync] and [metaslab_sync_done], with the
    condensing of a space map.  An operation is atomic: it holds [ms_lock], or
    [ms_sync_lock] and the rules on who may touch which tree, for its length. *)

From S2P Require Import Prelude TxgData Avl RangeTree SpaceMap MetaslabAlloc MetaslabData MetaslabWeight.

(** ** The trees of the transaction groups *)

Definition trees (ms : metaslab) : result txg_trees :=
  match ms_trees ms with Some tr => Ret tr | None => Panic end.

Definition set_trees (ms : metaslab) (tr : txg_trees) : metaslab := set_ms_trees ms (Some tr).

(** [arr[i]] of an array of range trees. *)
Definition tree_at (arr : list (range_tree unit)) (i : nat) : result (range_tree unit) :=
  match arr !! i with Some rt => Ret rt | None => Panic end.

Definition allocating (tr : txg_trees) (txg : Z) : result (range_tree unit) :=
  tree_at (ms_allocating tr) (txg_slot txg).

Definition set_allocating (tr : txg_trees) (txg : Z) (rt : range_tree unit) : txg_trees :=
  set_ms_allocating tr (<[txg_slot txg := rt]> (ms_allocating tr)).

Definition defer_slot (txg : Z) : nat := Z.to_nat (txg mod TXG_DEFER_SIZE).

(** ** Loading *)

(** [range_tree_walk(ms_defer[t], range_tree_remove, rt)] for every [t]. *)
Definition walk_defer {S} (e : env) (tr : txg_trees) (rt : range_tree S) : result (range_tree S) :=
  for_loop (Z.to_nat TXG_DEFER_SIZE) 0
    (fun t rt => d ← tree_at (ms_defer tr) t;
                 range_tree_walk d (range_tree_remove (zfs_recover e)) rt) rt.

Definition set_max_size (ms : metaslab) : metaslab :=
  set_ms_sel ms (set_ms_max_size (ms_sel ms) (metaslab_block_maxsize (ms_allocatable ms))).

Definition metaslab_load (e : env) (ms : metaslab) : result (metaslab * Z) :=
  '(rt, error) ←
    match ms_sm ms with
    | Some sm => space_map_load (zfs_recover e) (sm_io e) sm (ms_allocatable ms) SM_FREE
    | None =>
        rt ← range_tree_add (zfs_recover e) (ms_allocatable ms) (ms_start ms) (ms_size ms);
        Ret (rt, 0)
    end;
  let ms := set_ms_allocatable ms rt in
  if error =? 0 then
    let ms := set_ms_loaded ms true in
    rt ← match ms_sm ms with
         | Some _ => tr ← trees ms; walk_defer e tr (ms_allocatable ms)
         | None => Ret (ms_allocatable ms)
         end;
    Ret (set_max_size (set_ms_allocatable ms rt), 0)
  else Ret (ms, error).

Definition metaslab_preload (e : env) (c : sync_ctx) (ms : metaslab) : result metaslab :=
  '(ms, _) ← (if ms_loaded ms then Ret (ms, 0) else metaslab_load e ms);
  Ret (set_ms_sel ms (set_ms_selected_txg (ms_sel ms) (spa_syncing_txg c))).

(** The weight changes in place, in the tree of the group. *)
Definition metaslab_unload (w : world) : result world :=
  let ms := w_ms w in
  '(rt, _) ← range_tree_vacate (T := unit) (ms_allocatable ms) None tt;
  let ms' := set_ms_loaded (set_ms_allocatable ms rt) false in
  let weight := Z.land (ms_weight (ms_sel ms)) (not64 METASLAB_ACTIVE_MASK) in
  let ms' := set_ms_sel ms' (set_ms_max_size (set_ms_weight (ms_sel ms') weight) 0) in
  Ret (set_w_mg (set_w_ms w ms')
         (set_mg_metaslab_tree (w_mg w) (avl_set (mg_metaslab_tree (w_mg w)) (key ms) (key ms')))).

Definition metaslab_activate (e : env) (w : world) (allocator activation_weight : Z)
    : result (world * Z) :=
  let active w := negb (Z.land (ms_weight (ms_sel (w_ms w))) METASLAB_ACTIVE_MASK =? 0) in
  if active w then Ret (w, 0)
  else
    '(ms, error) ← (if ms_loaded (w_ms w) then Ret (w_ms w, 0) else metaslab_load e (w_ms w));
    let w := set_w_ms w ms in
    if negb (error =? 0) then
      w ← metaslab_group_sort w 0;
      Ret (w, error)
    else if active w then Ret (w, EBUSY)
    else
      '(w, error) ← metaslab_activate_allocator w allocator activation_weight;
      if negb (error =? 0) then Ret (w, error)
      else
        let weight := ms_weight (ms_sel (w_ms w)) in
        let w := set_w_ms w (set_ms_sel (w_ms w) (set_ms_activation_weight (ms_sel (w_ms w)) weight)) in
        w ← metaslab_group_sort w (Z.lor weight activation_weight);
        Ret (w, 0).

(** ** Allocation *)

(** [metaslab_verify_space]: the space map agrees with the in-core trees. *)
Definition metaslab_verify_space (e : env) (c : sync_ctx) (ms : metaslab) (txg : Z) : result unit :=
  if negb (debug_metaslab_verify e) then Ret tt
  else
    match ms_sm ms with
    | None => Ret tt
    | Some sm =>
        if negb (txg =? spa_syncing_txg c) || negb (ms_loaded ms) then Ret tt
        else
          tr ← trees ms;
          let sm_free_space :=
            sub64 (sub64 (ms_size ms) (space_map_allocated (Some sm))) (wrap64 (space_map_alloc_delta sm)) in
          allocated ← for_loop (Z.to_nat TXG_CONCURRENT_STATES) 0
            (fun t n => rt ← allocating tr (add64 txg (Z.of_nat t)); Ret (add64 n (rt_space rt))) 0;
          let msp_free_space :=
            add64 (add64 (add64 (rt_space (ms_allocatable ms)) allocated) (wrap64 (ms_deferspace ms)))
              (rt_space (ms_freed tr)) in
          verify (sm_free_space =? msp_free_space)
    end.

(** [P2PHASE(x, 1ULL << vd->vdev_ashift) == 0]. *)
Definition on_sector (e : env) (x : Z) : bool := P2PHASE x (Z.shiftl 1 (vdev_ashift e)) =? 0.

(** A range goes to the allocations of [txg], which makes the metaslab dirty. *)
Definition add_allocating (e : env) (ms : metaslab) (offset size txg : Z) : result metaslab :=
  tr ← trees ms;
  al ← allocating tr txg;
  let ms := if range_tree_is_empty al then vdev_dirty ms txg else ms in
  al ← range_tree_add (zfs_recover e) al offset size;
  Ret (set_trees ms (set_allocating tr txg al)).

Definition metaslab_block_alloc (e : env) (c : sync_ctx) (ms : metaslab) (size txg : Z)
    : result (metaslab * Z) :=
  _ ← verify (negb (ms_condensing (rt_arg (ms_allocatable ms))));
  _ ← verify (ms_initializing ms =? 0);
  '(start, lbas) ← ms_ops e (ms_allocatable ms) (ms_size ms) (ms_lbas ms) size;
  let ms := set_ms_lbas ms lbas in
  ms ←
    (if negb (start =? NO_OFFSET) then
       _ ← verify (on_sector e start);
       _ ← verify (on_sector e size);
       _ ← verify (sub64 (rt_space (ms_allocatable ms)) size <=? ms_size ms);
       rt ← range_tree_remove (zfs_recover e) (ms_allocatable ms) start size;
       ms ← add_allocating e (set_ms_allocatable ms rt) start size txg;
       let ms := set_ms_alloc_txg ms txg in
       _ ← metaslab_verify_space e c ms txg;
       Ret ms
     else Ret ms);
  Ret (set_max_size ms, start).

(** One round of the loop of [metaslab_group_alloc_normal] with the metaslab it
    has selected, up to the decision to pick again: [None] to pick again, and
    the offset otherwise. *)
Definition alloc_from (e : env) (c : sync_ctx) (w : world) (was_active : bool)
    (asize txg allocator activation_weight : Z) : result (world * option Z) :=
  let s := ms_sel (w_ms w) in
  let active := negb (Z.land (ms_weight s) METASLAB_ACTIVE_MASK =? 0) in
  if was_active && negb active then Ret (w, None)
  else if negb was_active && active && negb (ms_allocator s =? -1) &&
          (negb (ms_allocator s =? allocator) ||
           negb (Bool.eqb (activation_weight =? METASLAB_WEIGHT_PRIMARY) (ms_primary s)))
  then Ret (w, None)
  else if negb (Z.land (ms_weight s) METASLAB_WEIGHT_CLAIM =? 0) &&
          negb (activation_weight =? METASLAB_WEIGHT_CLAIM)
  then
    w ← metaslab_passivate w (Z.land (ms_weight s) (not64 METASLAB_WEIGHT_CLAIM));
    Ret (w, None)
  else
    '(w, error) ← metaslab_activate e w allocator activation_weight;
    if negb (error =? 0) then Ret (w, None)
    else
      let w := set_w_ms w (set_ms_sel (w_ms w) (set_ms_selected_txg (ms_sel (w_ms w)) txg)) in
      let pick_next w :=
        let ms := w_ms w in
        weight ← (if WEIGHT_IS_SPACEBASED (ms_weight (ms_sel ms))
                  then Ret (WEIGHT_SET_SPACEBASED (metaslab_block_maxsize (ms_allocatable ms)))
                  else metaslab_weight_from_range_tree e ms);
        w ← metaslab_passivate w weight;
        Ret (w, None) in
      if negb (metaslab_should_allocate (w_ms w) asize) then pick_next w
      else if ms_condensing (rt_arg (ms_allocatable (w_ms w))) || (0 <? ms_initializing (w_ms w)) then
        w ← metaslab_passivate w
              (Z.land (ms_weight (ms_sel (w_ms w))) (not64 METASLAB_ACTIVE_MASK));
        Ret (w, None)
      else
        '(ms, offset) ← metaslab_block_alloc e c (w_ms w) asize txg;
        let w := set_w_ms w ms in
        if negb (offset =? NO_OFFSET) then
          w ← metaslab_segment_may_passivate e c w;
          Ret (w, Some offset)
        else pick_next w.

(** ** Free, claim and the undoing of an allocation

    [w_ms] is the metaslab [vdev_ms[offset >> vdev_ms_shift]] of a device that
    is not indirect. *)

(** [metaslab_check_free_impl]: with the debugging flag, what is freed is not
    free already. *)
Definition metaslab_check_free_impl (e : env) (ms : metaslab) (offset size : Z) : result unit :=
  if negb (debug_zio_free e) then Ret tt
  else
    _ ← (if ms_loaded ms then range_tree_verify (ms_allocatable ms) offset size else Ret tt);
    tr ← trees ms;
    _ ← range_tree_verify (ms_freeing tr) offset size;
    _ ← range_tree_verify (ms_checkpointing tr) offset size;
    _ ← range_tree_verify (ms_freed tr) offset size;
    for_loop (Z.to_nat TXG_DEFER_SIZE) 0
      (fun j _ => d ← tree_at (ms_defer tr) j; range_tree_verify d offset size) tt.

(** [offset >= ms_start] and [offset + size <= ms_start + ms_size]. *)
Definition in_ms (ms : metaslab) (offset size : Z) : bool :=
  (ms_start ms <=? offset) && (add64 offset size <=? add64 (ms_start ms) (ms_size ms)).

Definition metaslab_free_concrete (e : env) (c : sync_ctx) (ms : metaslab) (offset asize : Z)
    (checkpoint : bool) : result metaslab :=
  _ ← verify (negb (ms_condensing (rt_arg (ms_allocatable ms))));
  _ ← verify (in_ms ms offset asize);
  _ ← verify (on_sector e offset);
  _ ← verify (on_sector e asize);
  _ ← metaslab_check_free_impl e ms offset asize;
  tr ← trees ms;
  let ms :=
    if range_tree_is_empty (ms_freeing tr) && range_tree_is_empty (ms_checkpointing tr)
    then vdev_dirty ms (spa_syncing_txg c) else ms in
  if checkpoint then
    rt ← range_tree_add (zfs_recover e) (ms_checkpointing tr) offset asize;
    Ret (set_trees ms (set_ms_checkpointing tr rt))
  else
    rt ← range_tree_add (zfs_recover e) (ms_freeing tr) offset asize;
    Ret (set_trees ms (set_ms_freeing tr rt)).

(** The part of [metaslab_unalloc_dva] under the lock of the metaslab. *)
Definition metaslab_unalloc_dva (e : env) (ms : metaslab) (offset size txg : Z) : result metaslab :=
  tr ← trees ms;
  al ← allocating tr txg;
  al ← range_tree_remove (zfs_recover e) al offset size;
  let ms := set_trees ms (set_allocating tr txg al) in
  _ ← verify (negb (ms_condensing (rt_arg (ms_allocatable ms))));
  _ ← verify (in_ms ms offset size);
  _ ← verify (add64 (rt_space (ms_allocatable ms)) size <=? ms_size ms);
  _ ← verify (on_sector e offset);
  _ ← verify (on_sector e size);
  rt ← range_tree_add (zfs_recover e) (ms_allocatable ms) offset size;
  Ret (set_ms_allocatable ms rt).

(** [metaslab_claim_concrete] of a range of this metaslab. *)
Definition metaslab_claim_concrete (e : env) (w : world) (offset size txg : Z)
    : result (world * Z) :=
  '(w, error) ←
    (if (negb (txg =? 0) && spa_writeable e) || negb (ms_loaded (w_ms w))
     then metaslab_activate e w 0 METASLAB_WEIGHT_CLAIM
     else Ret (w, 0));
  let error := if error =? EBUSY then 0 else error in
  error ←
    (if error =? 0 then
       b ← range_tree_contains (ms_allocatable (w_ms w)) offset size;
       Ret (if (b : bool) then 0 else ENOENT)
     else Ret error);
  if negb (error =? 0) || (txg =? 0) then Ret (w, error)
  else
    let ms := w_ms w in
    _ ← verify (negb (ms_condensing (rt_arg (ms_allocatable ms))));
    _ ← verify (on_sector e offset);
    _ ← verify (on_sector e size);
    _ ← verify (sub64 (rt_space (ms_allocatable ms)) size <=? ms_size ms);
    rt ← range_tree_remove (zfs_recover e) (ms_allocatable ms) offset size;
    let ms := set_ms_allocatable ms rt in
    ms ← (if spa_writeable e then add_allocating e ms offset size txg else Ret ms);
    Ret (set_w_ms w ms, 0).

(** ** Condensing *)

(** What the object layer supplies to a sync: the numbers of new objects and
    the sizes of the space map's blocks. *)
Record sync_io : Type := SyncIo {
  new_object : Z; new_checkpoint_object : Z; truncate_object : Z;
  doi_data_block_size : Z; ibs_ok : bool }.

Definition metaslab_should_condense (e : env) (c : sync_ctx) (io : sync_io) (ms : metaslab)
    (sm : space_map) : result (metaslab * bool) :=
  let s := ms_sel ms in
  if ms_condense_checked_txg s =? spa_syncing_txg c then Ret (ms, false)
  else
    let ms := set_ms_sel ms (set_ms_condense_checked_txg s (spa_syncing_txg c)) in
    if avl_is_empty (ms_allocatable_by_size (rt_arg (ms_allocatable ms))) || ms_condense_wanted s
    then Ret (ms, true)
    else
      optimal_size ←
        space_map_estimate_optimal_size (sm_v2 e) (sm_force_some e) sm (ms_allocatable ms) SM_NO_VDEVID;
      let object_size := space_map_length (Some sm) in
      let record_size := Z.max (doi_data_block_size io) (Z.shiftl 1 (vdev_ashift e)) in
      Ret (ms, (wrap64 (optimal_size * zfs_condense_pct e) / 100 <=? object_size) &&
               (wrap64 (zfs_metaslab_condense_block_threshold e * record_size) <? object_size)).

Definition set_condensing (ms : metaslab) (b : bool) : metaslab :=
  let rt := ms_allocatable ms in
  set_ms_allocatable ms (set_arg rt (RtOwner (ms_allocatable_by_size (rt_arg rt)) b)).

(** The tree that [metaslab_condense] records as allocated. *)
Definition condense_tree (e : env) (ms : metaslab) (tr : txg_trees) (txg : Z)
    : result (range_tree unit) :=
  let remove := range_tree_remove (S := unit) (zfs_recover e) in
  ct ← range_tree_create None tt;
  ct ← range_tree_add (zfs_recover e) ct (ms_start ms) (ms_size ms);
  ct ← range_tree_walk (ms_freeing tr) remove ct;
  ct ← range_tree_walk (ms_freed tr) remove ct;
  ct ← walk_defer e tr ct;
  for_loop (Z.to_nat (TXG_CONCURRENT_STATES - 1)) 1
    (fun t ct => al ← allocating tr (add64 txg (Z.of_nat t)); range_tree_walk al remove ct) ct.

(** [space_map_write(sm, rt, maptype, SM_NO_VDEVID, tx)], in a kernel compiled
    without [DEBUG]. *)
Definition sm_write {S} (e : env) (c : sync_ctx) (txg : Z) (sm : space_map) (rt : range_tree S)
    (t : maptype) : result space_map :=
  space_map_write false (sm_force_some e) (sm_v2 e) (sm_force e) (spa_sync_pass c) txg sm rt t SM_NO_VDEVID.

Definition metaslab_condense (e : env) (c : sync_ctx) (io : sync_io) (ms : metaslab) (sm : space_map)
    (txg : Z) : result (metaslab * space_map) :=
  let ms := set_ms_sel ms (set_ms_condense_wanted (ms_sel ms) false) in
  tr ← trees ms;
  ct ← condense_tree e ms tr txg;
  let ms := set_condensing ms true in
  let sm := space_map_truncate (sm_hist e) (ibs_ok io) (truncate_object io) (zfs_metaslab_sm_blksz e) sm in
  sm ← sm_write e c txg sm ct SM_ALLOC;
  '(ct, _) ← range_tree_vacate (T := unit) ct None tt;
  _ ← range_tree_destroy ct;
  sm ← sm_write e c txg sm (ms_allocatable ms) SM_FREE;
  Ret (set_condensing ms false, sm).

(** ** Syncing a transaction group *)

(** The checkpoint's space map, made when there is something to put in it. *)
Definition open_checkpoint_sm (e : env) (io : sync_io) (w : world) (tr : txg_trees) : result world :=
  let ck := w_ck w in
  match vdev_checkpoint_sm ck with
  | Some _ => Ret w
  | None =>
      if range_tree_is_empty (ms_checkpointing tr) then Ret w
      else
        let object := new_checkpoint_object io in
        _ ← verify (negb (object =? 0));
        let sm := space_map_open (space_map_alloc (sm_hist e) object (vdev_standard_sm_blksz e))
                    0 (vdev_asize e) (vdev_ashift e) in
        _ ← verify (match zap_checkpoint_sm ck with None => true | Some _ => false end);
        Ret (set_w_ck w (CheckpointState (Some sm) (sci_dspace ck) (vs_checkpoint_space ck) (Some object)))
  end.

(** What was freed under a checkpoint goes to the checkpoint's space map. *)
Definition sync_checkpointing (e : env) (c : sync_ctx) (w : world) (txg : Z) : result world :=
  tr ← trees (w_ms w);
  let rt := ms_checkpointing tr in
  if range_tree_is_empty rt then Ret w
  else
    let ck := w_ck w in
    match vdev_checkpoint_sm ck with
    | None => Panic
    | Some sm =>
        sm ← sm_write e c txg sm rt SM_FREE;
        let ck := CheckpointState (Some (space_map_update sm)) (add64 (sci_dspace ck) (rt_space rt))
                    (add64 (vs_checkpoint_space ck) (rt_space rt)) (zap_checkpoint_sm ck) in
        '(rt, _) ← range_tree_vacate (T := unit) rt None tt;
        Ret (set_w_ck (set_w_ms w (set_trees (w_ms w) (set_ms_checkpointing tr rt))) ck)
    end.

(** The histogram of the space map brought up to date. *)
Definition sync_histogram (ms : metaslab) (tr : txg_trees) (sm : space_map) : result space_map :=
  sm ← (if ms_loaded ms then
          sm ← space_map_histogram_add (space_map_histogram_clear sm) (ms_allocatable ms);
          sm ← space_map_histogram_add sm (ms_freed tr);
          for_loop (Z.to_nat TXG_DEFER_SIZE) 0
            (fun t sm => d ← tree_at (ms_defer tr) t; space_map_histogram_add sm d) sm
        else Ret sm);
  space_map_histogram_add sm (ms_freeing tr).

(** What is freed in this pass joins what was freed before, and the allocations
    of the txg are on disk. *)
Definition sync_trees (e : env) (c : sync_ctx) (ms : metaslab) (txg : Z) : result metaslab :=
  tr ← trees ms;
  '(freeing, freed) ←
    (if spa_sync_pass c =? 1 then range_tree_swap (ms_freeing tr) (ms_freed tr)
     else range_tree_vacate (ms_freeing tr) (Some (range_tree_add (zfs_recover e))) (ms_freed tr));
  let tr := set_ms_freed (set_ms_freeing tr freeing) freed in
  al ← allocating tr txg;
  '(al, _) ← range_tree_vacate (T := unit) al None tt;
  Ret (set_trees ms (set_allocating tr txg al)).

(** The log of the metaslab gets the allocations and frees, or is condensed. *)
Definition sync_log (e : env) (c : sync_ctx) (io : sync_io) (ms : metaslab) (sm : space_map) (txg : Z)
    : result (metaslab * space_map) :=
  '(ms, condense) ←
    (if ms_loaded ms then metaslab_should_condense e c io ms sm else Ret (ms, false));
  if condense : bool then metaslab_condense e c io ms sm txg
  else
    tr ← trees ms;
    al ← allocating tr txg;
    sm ← sm_write e c txg sm al SM_ALLOC;
    sm ← sm_write e c txg sm (ms_freeing tr) SM_FREE;
    Ret (ms, sm).

Definition metaslab_sync (e : env) (c : sync_ctx) (io : sync_io) (w : world) (txg : Z)
    : result world :=
  match ms_trees (w_ms w) with
  | None => Ret w
  | Some tr =>
      al ← allocating tr txg;
      if range_tree_is_empty al && range_tree_is_empty (ms_freeing tr) &&
         range_tree_is_empty (ms_checkpointing tr) &&
         negb (ms_loaded (w_ms w) && ms_condense_wanted (ms_sel (w_ms w)))
      then Ret w
      else
        let ms := w_ms w in
        let object := space_map_object (ms_sm ms) in
        _ ← verify (txg <=? spa_final_dirty_txg c);
        sm ← match ms_sm ms with
             | Some sm => Ret sm
             | None =>
                 _ ← verify (negb (new_object io =? 0));
                 Ret (space_map_open (space_map_alloc (sm_hist e) (new_object io) (zfs_metaslab_sm_blksz e))
                        (ms_start ms) (ms_size ms) (vdev_ashift e))
             end;
        w ← open_checkpoint_sm e io (set_w_ms w (set_ms_sm ms (Some sm))) tr;
        w ← metaslab_group_histogram_remove e w;
        '(ms, sm) ← sync_log e c io (w_ms w) sm txg;
        w ← sync_checkpointing e c (set_w_ms w ms) txg;
        tr ← trees (w_ms w);
        sm ← sync_histogram (w_ms w) tr sm;
        w ← metaslab_group_histogram_add e (set_w_ms w (set_ms_sm (w_ms w) (Some sm)));
        ms ← sync_trees e c (w_ms w) txg;
        let w := set_w_ms w ms in
        Ret (if object =? space_map_object (ms_sm ms) then w
             else set_w_ms_array w (space_map_object (ms_sm ms)))
  end.

(** ** The end of a transaction group *)

(** [vdev_space_update]. *)
Definition vdev_space_update (e : env) (st : space_stats) (alloc_delta defer_delta space_delta : Z)
    : space_stats :=
  let dspace_delta := wraps64 (Z.shiftr space_delta SPA_MINBLOCKSHIFT * vdev_deflate_ratio e) in
  let root (x d : Z) := if normal_class e then add64 x d else x in
  SpaceStats (add64 (vs_alloc st) alloc_delta) (add64 (vs_space st) space_delta)
    (add64 (vs_dspace st) dspace_delta)
    (root (rvs_alloc st) alloc_delta) (root (rvs_space st) space_delta)
    (root (rvs_dspace st) dspace_delta)
    (add64 (mc_alloc st) alloc_delta) (add64 (mc_deferred st) defer_delta)
    (add64 (mc_space st) space_delta) (add64 (mc_dspace st) dspace_delta).

(** The trees of a metaslab that is just becoming available. *)
Definition create_trees : result txg_trees :=
  rt ← range_tree_create (S := unit) None tt;
  Ret (TxgTrees (replicate (Z.to_nat TXG_SIZE) rt) rt rt (replicate (Z.to_nat TXG_DEFER_SIZE) rt) rt).

Definition init_trees (e : env) (w : world) : result world :=
  match ms_trees (w_ms w) with
  | Some _ => Ret w
  | None =>
      tr ← create_trees;
      Ret (set_w_st (set_w_ms w (set_trees (w_ms w) tr))
             (vdev_space_update e (w_st w) 0 0 (ms_size (w_ms w))))
  end.

(** What the pool's normal class has, and the slop it keeps back. *)
Record pool_space : Type := PoolSpace { normal_space : Z; normal_alloc : Z; slop_space : Z }.

Definition defer_allowed (e : env) (ps : pool_space) : bool :=
  negb ((sub64 (normal_space ps) (normal_alloc ps) <=? slop_space ps) || vdev_removing e).

(** [range_tree_vacate(src, ms_loaded ? range_tree_add : NULL, ms_allocatable)]. *)
Definition vacate_to_free (e : env) (ms : metaslab) (src : range_tree unit)
    : result (range_tree unit * metaslab) :=
  '(src, rt) ← range_tree_vacate src
                 (if ms_loaded ms then Some (range_tree_add (zfs_recover e)) else None)
                 (ms_allocatable ms);
  Ret (src, set_ms_allocatable ms rt).

(** The oldest deferred frees become free, and those of this txg deferred. *)
Definition rotate_defer (e : env) (ps : pool_space) (ms : metaslab) (txg : Z) : result metaslab :=
  tr ← trees ms;
  d ← tree_at (ms_defer tr) (defer_slot txg);
  '(d, ms) ← vacate_to_free e ms d;
  if defer_allowed e ps then
    '(freed, d) ← range_tree_swap (ms_freed tr) d;
    Ret (set_trees ms (set_ms_defer (set_ms_freed tr freed) (<[defer_slot txg := d]> (ms_defer tr))))
  else
    '(freed, ms) ← vacate_to_free e ms (ms_freed tr);
    Ret (set_trees ms (set_ms_defer (set_ms_freed tr freed) (<[defer_slot txg := d]> (ms_defer tr)))).

(** The change of the deferred space. *)
Definition defer_delta (e : env) (ps : pool_space) (tr : txg_trees) (txg : Z) : result Z :=
  d ← tree_at (ms_defer tr) (defer_slot txg);
  Ret (if defer_allowed e ps then wraps64 (rt_space (ms_freed tr) - rt_space d)
       else wraps64 (0 - rt_space d)).

(** The metaslab has not been used for some time. *)
Definition may_unload (e : env) (ms : metaslab) (txg : Z) : bool :=
  ms_loaded ms && (ms_initializing ms =? 0) &&
  (add64 (ms_selected_txg (ms_sel ms)) (metaslab_unload_delay e) <? txg).

Definition unload_idle (e : env) (w : world) (txg : Z) : result world :=
  if may_unload e (w_ms w) txg then
    tr ← trees (w_ms w);
    _ ← for_loop (Z.to_nat (TXG_CONCURRENT_STATES - 1)) 1
          (fun t _ => al ← allocating tr (add64 txg (Z.of_nat t)); verify (rt_space al =? 0)) tt;
    w ← (if negb (ms_allocator (ms_sel (w_ms w)) =? -1)
         then metaslab_passivate w (Z.land (ms_weight (ms_sel (w_ms w))) (not64 METASLAB_ACTIVE_MASK))
         else Ret w);
    if metaslab_debug_unload e then Ret w else metaslab_unload w
  else Ret w.

(** [if (msp->ms_new) ... mg_ms_ready++]. *)
Definition count_ready (w : world) : world :=
  if ms_new (w_ms w) then
    set_w_mg (set_w_ms w (set_ms_new (w_ms w) false))
      (set_mg_ms_ready (w_mg w) (add64 (mg_ms_ready (w_mg w)) 1))
  else w.

Definition sm_alloc_delta (sm : option space_map) : Z :=
  match sm with Some sm => space_map_alloc_delta sm | None => 0 end.

Definition metaslab_sync_done (e : env) (c : sync_ctx) (ps : pool_space) (w : world) (txg : Z)
    : result world :=
  w ← init_trees e w;
  tr ← trees (w_ms w);
  dd ← defer_delta e ps tr txg;
  let alloc_delta := sm_alloc_delta (ms_sm (w_ms w)) in
  let w := set_w_st w (vdev_space_update e (w_st w) (wraps64 (alloc_delta + dd)) dd 0) in
  ms ← rotate_defer e ps (w_ms w) txg;
  let ms := set_ms_sm ms (space_map_update <$> ms_sm ms) in
  let ms := set_ms_deferspace ms (wraps64 (ms_deferspace ms + dd)) in
  let ms := if negb (ms_deferspace ms =? 0) then vdev_dirty ms (add64 txg 1) else ms in
  let w := count_ready (set_w_ms w ms) in
  '(ms, weight) ← metaslab_weight e c (w_ms w);
  w ← metaslab_group_sort (set_w_ms w ms)
        (Z.lor weight (Z.land (ms_weight (ms_sel ms)) METASLAB_ACTIVE_MASK));
  unload_idle e w txg.

(** ** Dirty metaslabs of a device

    What [vdev_sync] and [vdev_sync_done] do for this metaslab: it is synced
    when it is on the list of the txg, and put on the list that
    [vdev_sync_done] works through. *)

Definition is_dirty (ms : metaslab) (txg : Z) : bool :=
  default false (ms_txg_node ms !! txg_slot txg).

Definition txg_list_remove (ms : metaslab) (txg : Z) : metaslab :=
  set_ms_txg_node ms (<[txg_slot txg := false]> (ms_txg_node ms)).

Definition vdev_sync (e : env) (c : sync_ctx) (io : sync_io) (w : world) (txg : Z) : result world :=
  if is_dirty (w_ms w) txg then
    w ← metaslab_sync e c io (set_w_ms w (txg_list_remove (w_ms w) txg)) txg;
    Ret (set_w_ms w (vdev_dirty (w_ms w) (TXG_CLEAN txg)))
  else Ret w.

Definition vdev_sync_done (e : env) (c : sync_ctx) (ps : pool_space) (w : world) (txg : Z)
    : result world :=
  if is_dirty (w_ms w) (TXG_CLEAN txg) then
    metaslab_sync_done e c ps (set_w_ms w (txg_list_remove (w_ms w) (TXG_CLEAN txg))) txg
  else Ret w.

(** ** Creation and destruction *)

(** A [metaslab_t] fresh from [kmem_zalloc] with its identity set. *)
Definition new_metaslab (id ms_shift : Z) (sm : option space_map) : result metaslab :=
  rt ← range_tree_create (Some metaslab_rt_ops) (RtOwner avl_create false);
  Ret (Metaslab id (wrap64 (Z.shiftl id ms_shift)) (wrap64 (Z.shiftl 1 ms_shift)) sm rt None
         (replicate MAX_LBAS 0) false 0 0 0 true (replicate (Z.to_nat TXG_SIZE) false)
         (MsSelection 0 0 0 0 0 (-1) false false 0)).

(** [metaslab_init] once the space map is open; [disk] is that of an existing
    metaslab.  [load] is the tunable [metaslab_debug_load]. *)
Definition init_opened (e : env) (c : sync_ctx) (ps : pool_space) (load : bool)
    (mg : metaslab_group) (st : space_stats) (ck : checkpoint_state)
    (id ms_shift : Z) (disk : option space_map) (txg : Z) : result world :=
  let sm := (fun d => space_map_open d (wrap64 (Z.shiftl id ms_shift)) (wrap64 (Z.shiftl 1 ms_shift))
                        (vdev_ashift e)) <$> disk in
  ms ← new_metaslab id ms_shift sm;
  w ← metaslab_group_add e (World ms mg st ck (space_map_object sm));
  ms ← metaslab_set_fragmentation e c (w_ms w);
  w ← (if txg <=? TXG_INITIAL then metaslab_sync_done e c ps (set_w_ms w ms) 0 else Ret (set_w_ms w ms));
  w ← match ms_sm (w_ms w) with
      | Some _ =>
          if load then
            '(ms, error) ← metaslab_load e (w_ms w);
            _ ← verify (error =? 0);
            Ret (set_w_ms w ms)
          else Ret w
      | None => Ret w
      end;
  Ret (if txg =? 0 then w else set_w_ms w (vdev_dirty (w_ms w) txg)).

(** [metaslab_init]: for an existing metaslab, [object] is what
    [space_map_open] finds, the space map or an error. *)
Definition metaslab_init (e : env) (c : sync_ctx) (ps : pool_space) (load : bool)
    (mg : metaslab_group) (st : space_stats) (ck : checkpoint_state)
    (id ms_shift : Z) (object : option (Z + space_map)) (txg : Z) : result (Z + world) :=
  let opened disk := w ← init_opened e c ps load mg st ck id ms_shift disk txg; Ret (inr w) in
  match object with
  | None => opened None
  | Some (inr disk) => opened (Some disk)
  | Some (inl error) => Ret (inl error)
  end.

(** [metaslab_fini]: what is left is the group and the space of the pool. *)
Definition metaslab_fini (e : env) (w : world) : result (metaslab_group * space_stats) :=
  w ← metaslab_group_remove e w;
  let ms := w_ms w in
  let st := vdev_space_update e (w_st w) (wraps64 (- space_map_allocated (ms_sm ms))) 0
              (wraps64 (- ms_size ms)) in
  w ← metaslab_unload w;
  let ms := w_ms w in
  _ ← range_tree_destroy (ms_allocatable ms);
  tr ← trees ms;
  _ ← range_tree_destroy (ms_freeing tr);
  _ ← range_tree_destroy (ms_freed tr);
  _ ← for_loop (Z.to_nat TXG_SIZE) 0
        (fun t _ => rt ← tree_at (ms_allocating tr) t; range_tree_destroy rt) tt;
  _ ← for_loop (Z.to_nat TXG_DEFER_SIZE) 0
        (fun t _ => rt ← tree_at (ms_defer tr) t; range_tree_destroy rt) tt;
  _ ← range_tree_destroy (ms_checkpointing tr);
  Ret (w_mg w, st).
