(* ===== verification/MetaslabInv.v ===== *)
(** * Metaslabs: the invariant

    Every byte of a metaslab is in one state of its life, and the range trees
    and the space map of the metaslab are what those states say.  The abstract
    states and their changes are the specification; the lemmas here show that
    each operation of [Metaslab] keeps the invariant. *)

From S2P Require Import Prelude TxgData Avl RangeTree RangeSet SpaceMap SpaceMapLog.
From S2P Require Import MetaslabAlloc MetaslabData MetaslabWeight MetaslabGroup Metaslab.

(** ** The life of a byte *)

(** [Live born disk]: allocated in txg [born]; [disk]: the space map says so.
    [Freeing disk]: freed in the txg being synced, not yet in the space map.
    [Freed]: freed in the txg being synced, as the space map says.
    [Deferred i]: freed in an earlier txg, kept back in [ms_defer[i]]. *)
Inductive ostate : Type :=
| Free
| Live (born : Z) (disk : bool)
| Freeing (disk : bool)
| Freed
| Deferred (i : nat).

#[export] Instance ostate_eq_dec : EqDecision ostate.
Proof. solve_decision. Defined.

(** Allocated according to the space map. *)
Definition on_disk (o : ostate) : Prop :=
  match o with Live _ true | Freeing true => True | _ => False end.

(** In [ms_allocating[t]] while [s] is being synced. *)
Definition is_allocating (s t : Z) (o : ostate) : Prop :=
  o = Live t false \/ (t = s /\ o = Freeing false).

Definition is_freeing (o : ostate) : Prop := exists d, o = Freeing d.

(** What a pass of [metaslab_sync] and what [metaslab_sync_done] make of a
    state. *)
Definition sync_state (s : Z) (o : ostate) : ostate :=
  match o with
  | Live b false => if b =? s then Live b true else o
  | Freeing _ => Freed
  | _ => o
  end.

Definition done_state (s : Z) (defer : bool) (o : ostate) : ostate :=
  match o with
  | Deferred i => if (i =? defer_slot s)%nat then Free else o
  | Freed => if defer then Deferred (defer_slot s) else Free
  | _ => o
  end.

(** The states of a range set to [o]. *)
Definition upd_range (sp : Z -> ostate) (off n : Z) (o : Z -> ostate) (x : Z) : ostate :=
  if (off <=? x) && (x <? off + n) then o x else sp x.

Lemma upd_range_in sp off n o x : off <= x < off + n -> upd_range sp off n o x = o x.
Proof.
  intros H. unfold upd_range. by rewrite (proj2 (Z.leb_le _ _)), (proj2 (Z.ltb_lt _ _)) by lia.
Qed.

Lemma upd_range_out sp off n o x : ~ off <= x < off + n -> upd_range sp off n o x = sp x.
Proof.
  intros H. unfold upd_range. destruct (Z.leb_spec off x), (Z.ltb_spec x (off + n)); try done. lia.
Qed.

(** ** The invariant *)

Section Inv.
Context (e : env) (start size : Z).

(** The bytes of the metaslab. *)
Definition inside (x : Z) : Prop := start <= x < start + size.

(** A tree that holds the bytes whose state satisfies [P]. *)
Definition holds (sp : Z -> ostate) (P : ostate -> Prop) (rt : range_tree unit) : Prop :=
  is_set no_owner (fun x => inside x /\ P (sp x)) rt.

Definition trees_ok (s : Z) (sp : Z -> ostate) (tr : txg_trees) : Prop :=
  length (ms_allocating tr) = 4%nat /\
  (forall t, s <= t <= s + 3 -> exists rt, ms_allocating tr !! txg_slot t = Some rt /\
     holds sp (is_allocating s t) rt) /\
  holds sp is_freeing (ms_freeing tr) /\ holds sp (fun o => o = Freed) (ms_freed tr) /\
  (exists d0 d1, ms_defer tr = [d0; d1] /\ holds sp (fun o => o = Deferred 0) d0 /\
     holds sp (fun o => o = Deferred 1) d1) /\
  holds sp (fun _ => False) (ms_checkpointing tr).

(** The free tree of a loaded metaslab; an unloaded one has no allocations
    under way. *)
Definition free_ok (sp : Z -> ostate) (loaded : bool) (rt : range_tree rt_owner) : Prop :=
  rt_wf mirrors rt /\ rt_ops rt = Some metaslab_rt_ops /\
  if loaded then forall x, rt_mem rt x <-> inside x /\ sp x = Free
  else segs rt = [] /\ forall x, inside x -> (forall b, sp x <> Live b false) /\ sp x <> Freeing false.

(** The space map: what is written of it, and what of it is synced. *)
Definition sm_ok (sm : space_map) : Prop :=
  sm_start sm = start /\ sm_size sm = size /\ sm_shape (vdev_ashift e) sm /\
  sm_object sm <> 0 /\ sm_has_hist sm = true /\ 0 <= sm_alloc sm <= size.

Definition log_ok (sp : Z -> ostate) (loaded : bool) (osm : option space_map) : Prop :=
  match osm with
  | None => forall x, inside x -> sp x = Free \/ (exists b, sp x = Live b false) \/ sp x = Freeing false
  | Some sm =>
      sm_ok sm /\ log_repr sm (fun x => inside x /\ on_disk (sp x)) /\
      (loaded = false -> sm_length sm <= smp_objsize sm /\
         log_repr (rollback sm) (fun x => inside x /\ (on_disk (sp x) \/ sp x = Freed)))
  end.

(** Whatever has to be synced makes the metaslab dirty in its txg, and what is
    freed or deferred in the one being synced or the one before it. *)
Definition dirty_ok (s : Z) (sp : Z -> ostate) (ms : metaslab) : Prop :=
  length (ms_txg_node ms) = 4%nat /\
  forall x, inside x ->
    match sp x with
    | Live t false => is_dirty ms t = true
    | Freeing _ => is_dirty ms s = true
    | Freed => is_dirty ms (s - 1) = true
    | Deferred _ => is_dirty ms s = true \/ is_dirty ms (s - 1) = true
    | _ => True
    end.

Definition unit_bytes : Z := 2 ^ vdev_ashift e.

(** States are the same over a sector, births are where they can be. *)
Definition states_ok (s pass : Z) (sp : Z -> ostate) : Prop :=
  (forall x y, inside x -> x / unit_bytes = y / unit_bytes -> sp x = sp y) /\
  (forall x b d, inside x -> sp x = Live b d -> if d then b <= s else s <= b <= s + 2) /\
  (forall x i, inside x -> sp x = Deferred i -> (i < 2)%nat) /\
  (pass = 0 -> forall x, inside x -> sp x <> Freed).

(** The invariant of a metaslab while txg [s] is being synced, after [pass]
    passes: without, and with, what makes it dirty. *)
Record core0 (s pass : Z) (sp : Z -> ostate) (ms : metaslab) : Prop := Core0 {
  core_start : ms_start ms = start;
  core_size : ms_size ms = size;
  core_idle : ms_initializing ms = 0;
  core_lbas : length (ms_lbas ms) = MAX_LBAS;
  core_states : states_ok s pass sp;
  core_trees : exists tr, ms_trees ms = Some tr /\ trees_ok s sp tr /\
    forall d0 d1, ms_defer tr = [d0; d1] -> ms_deferspace ms = rt_space d0 + rt_space d1;
  core_free : free_ok sp (ms_loaded ms) (ms_allocatable ms);
  core_log : log_ok sp (ms_loaded ms) (ms_sm ms) }.

Record core (s pass : Z) (sp : Z -> ostate) (ms : metaslab) : Prop := Core {
  core_body :> core0 s pass sp ms;
  core_dirty : dirty_ok s sp ms }.

(** Where the metaslab is, and what txgs are like. *)
Definition place_ok : Prop :=
  9 <= vdev_ashift e <= 28 /\ 0 <= start /\ 0 < size /\ start + size <= 2 ^ 57 /\
  start mod unit_bytes = 0 /\ size mod unit_bytes = 0 /\
  (sm_v2 e = true \/ size <= 2 ^ 47 * unit_bytes) /\ (forall b, sm_io e b = 0).
End Inv.

(** ** Slots *)

Lemma defer_slot_cases t : defer_slot t = 0%nat \/ defer_slot t = 1%nat.
Proof. unfold defer_slot, TXG_DEFER_SIZE. pose proof (Z.mod_pos_bound t 2 ltac:(lia)). lia. Qed.

Lemma is_dirty_more ms ms' t :
  more_dirty (ms_txg_node ms) (ms_txg_node ms') -> is_dirty ms t = true -> is_dirty ms' t = true.
Proof.
  intros [_ H]. unfold is_dirty. destruct (ms_txg_node ms !! txg_slot t) as [[]|] eqn:E; cbn; try done.
  intros _. by rewrite (H _ E).
Qed.

Lemma is_dirty_set ms t t' :
  length (ms_txg_node ms) = 4%nat ->
  is_dirty (vdev_dirty ms t) t' = true <-> is_dirty ms t' = true \/ txg_slot t' = txg_slot t.
Proof.
  intros Hl. pose proof (txg_slot_lt t) as Ht. unfold is_dirty, vdev_dirty; cbn.
  destruct (decide (txg_slot t = txg_slot t')) as [<-|Hne].
  - rewrite list_lookup_insert_eq by lia. cbn. tauto.
  - rewrite list_lookup_insert_ne by done. split; [auto|]. intros [?|?]; [done|congruence].
Qed.

Lemma vdev_dirty_more ms t : more_dirty (ms_txg_node ms) (ms_txg_node (vdev_dirty ms t)).
Proof.
  split; [apply length_insert|]. intros i Hi. cbn.
  destruct (decide (i = txg_slot t)) as [->|].
  - rewrite list_lookup_insert_eq; [done|]. by eapply lookup_lt_Some.
  - by rewrite list_lookup_insert_ne.
Qed.

(** Two conditions on a state exclude each other. *)
Ltac states_apart :=
  let o := fresh "o" in
  intros o; destruct o as [|? []|[]| |]; cbn; intuition (simplify_eq; try lia).

Section Facts.
Context (e : env) (start size : Z) (Hp : place_ok e start size).
Notation inside := (inside start size).
Notation core := (core e start size).
Notation core0 := (core0 e start size).

Lemma unit_pos : 0 < unit_bytes e.
Proof using All. destruct Hp as (H & _). apply Z.pow_pos_nonneg; lia. Qed.

(** A byte of a sector that reaches into the metaslab is in it. *)
Lemma inside_unit x y : inside x -> x / unit_bytes e = y / unit_bytes e -> inside y.
Proof using All.
  pose proof unit_pos as Hu. destruct Hp as (_ & H1 & H2 & _ & Hs & Hz & _). unfold MetaslabInv.inside.
  intros Hx Heq. set (u := unit_bytes e) in *.
  apply Z.mod_divide in Hs as [a Ha]; [|lia]. apply Z.mod_divide in Hz as [b Hb]; [|lia].
  pose proof (Z.div_mod x u ltac:(lia)). pose proof (Z.mod_pos_bound x u Hu).
  pose proof (Z.div_mod y u ltac:(lia)). pose proof (Z.mod_pos_bound y u Hu).
  rewrite <- Heq in *. set (q := x / u) in *. clear Heq.
  assert (a <= q < a + b) as Hq by nia. nia.
Qed.

(** A range of whole sectors of the metaslab. *)
Definition block_ok (off n : Z) : Prop :=
  start <= off /\ 0 < n /\ off + n <= start + size /\ off mod unit_bytes e = 0 /\ n mod unit_bytes e = 0.

Lemma block_unit off n x y :
  block_ok off n -> x / unit_bytes e = y / unit_bytes e -> off <= x < off + n -> off <= y < off + n.
Proof using All.
  pose proof unit_pos as Hu. intros (_ & H2 & _ & Hs & Hz) Heq Hx. set (u := unit_bytes e) in *.
  apply Z.mod_divide in Hs as [a Ha]; [|lia]. apply Z.mod_divide in Hz as [b Hb]; [|lia].
  pose proof (Z.div_mod x u ltac:(lia)). pose proof (Z.mod_pos_bound x u Hu).
  pose proof (Z.div_mod y u ltac:(lia)). pose proof (Z.mod_pos_bound y u Hu).
  rewrite <- Heq in *. set (q := x / u) in *. clear Heq.
  assert (a <= q < a + b) as Hq by nia. nia.
Qed.

Lemma block_bounds off n : block_ok off n -> 0 <= off /\ 0 < n /\ off + n < 2 ^ 64 /\
  forall x, off <= x < off + n -> inside x.
Proof using All.
  destruct Hp as (_ & H1 & H2 & H3 & _). intros (B1 & B2 & B3 & _). unfold MetaslabInv.inside.
  assert (2 ^ 57 < 2 ^ 64) by (apply Z.pow_lt_mono_r; lia). split_and!; lia.
Qed.

Lemma upd_units sp off n o :
  (forall x y, inside x -> x / unit_bytes e = y / unit_bytes e -> sp x = sp y) -> block_ok off n ->
  (forall x y, inside x -> x / unit_bytes e = y / unit_bytes e -> o x = o y) ->
  forall x y, inside x -> x / unit_bytes e = y / unit_bytes e -> upd_range sp off n o x = upd_range sp off n o y.
Proof using All.
  intros Hsp Hb Ho x y Hx Heq. destruct (decide (off <= x < off + n)) as [Hin|Hout].
  - rewrite !upd_range_in; auto. by eapply block_unit.
  - rewrite !upd_range_out; auto. intros Hin. apply Hout. by eapply block_unit.
Qed.

Lemma on_sector_ok x : 0 <= x -> x mod unit_bytes e = 0 -> on_sector e x = true.
Proof using All.
  intros Hx Hm. unfold on_sector. destruct Hp as (Ha & _). rewrite P2PHASE_mod by lia.
  apply Z.eqb_eq. exact Hm.
Qed.

(** The segments of a set of states. *)
Lemma holds_seg_in s pass sp {S} (I : list range_seg -> S -> Prop) (rt : range_tree S) P sm :
  states_ok e start size s pass sp -> is_set I (fun x => inside x /\ P (sp x)) rt ->
  sm_ok e start size sm -> Forall (seg_in sm) (segs rt).
Proof using All.
  intros (Hu & _) Hset (E1 & E2 & [E3 _] & _). apply Forall_forall. intros rs Hrs.
  pose proof (set_aligned I rt _ (unit_bytes e) rs Hset unit_pos) as Hal.
  destruct Hal as [A1 A2]; [|done|].
  { intros x y Heq [Hx HP]. split; [by eapply inside_unit|]. by rewrite <- (Hu x y Hx Heq). }
  destruct Hset as [(_ & [_ Hok] & _) Hm]. rewrite Forall_forall in Hok. specialize (Hok rs Hrs).
  unfold seg_ok in Hok.
  assert (inside (rs_start rs)) as [I1 _] by (apply Hm, covers_In; exists rs; unfold in_seg; split; [done|lia]).
  assert (inside (rs_end rs - 1)) as [_ I2] by (apply Hm, covers_In; exists rs; unfold in_seg; split; [done|lia]).
  destruct Hp as (_ & _ & _ & _ & Hs & _). pose proof unit_pos.
  unfold seg_in. rewrite E1, E2, E3. fold (unit_bytes e). split_and!; try lia.
  - by rewrite Zminus_mod, A1, Hs, Z.sub_0_r, Z.mod_0_l by lia.
  - by rewrite Zminus_mod, A1, A2, Z.sub_0_r, Z.mod_0_l by lia.
Qed.

(** Changes that concern only the choice of the metaslab. *)
Lemma core_reselect s pass sp ms ms' : core s pass sp ms -> reselect ms ms' -> core s pass sp ms'.
Proof using All.
  intros [[] [Hl H]] (node & sel & -> & Hd & _). split; [by constructor|]. split; [cbn; destruct Hd; congruence|]. intros x Hx. specialize (H x Hx).
  assert (forall t, is_dirty ms t = true -> is_dirty (set_ms_txg_node (set_ms_sel ms sel) node) t = true) as Hmore.
  { intros t. by apply is_dirty_more. }
  destruct (sp x) as [|b []| | |]; auto. destruct H; auto.
Qed.

(** ** The space map agrees with the trees *)

(** The bytes whose state satisfies [P], counted. *)
Definition counted (sp : Z -> ostate) (P : ostate -> Prop) : Z -> Prop :=
  sized (fun x => inside x /\ P (sp x)).

Lemma counted_join sp P Q n m :
  counted sp P n -> counted sp Q m -> (forall o, P o -> ~ Q o) ->
  counted sp (fun o => P o \/ Q o) (n + m).
Proof using All.
  intros H1 H2 Hd. eapply sized_join; [exact H1|exact H2| |].
  - intros x [_ HP] [_ HQ]. by apply (Hd (sp x)).
  - intros x. tauto.
Qed.

Lemma holds_counted {S} (I : list range_seg -> S -> Prop) sp P (rt : range_tree S) :
  is_set I (fun x => inside x /\ P (sp x)) rt -> counted sp P (rt_space rt).
Proof using All. apply sized_set. Qed.

Lemma counted_all sp P n : counted sp P n -> (forall x, inside x -> P (sp x)) -> n = size.
Proof using All.
  intros H HP. destruct Hp as (_ & H1 & H2 & H3 & _).
  assert (2 ^ 57 < 2 ^ 64) by (apply Z.pow_lt_mono_r; lia).
  destruct (set_interval start size) as (r & Hr & Hn); [lia..|].
  eapply sized_unique; [exact H|]. exists r. split; [|done].
  eapply is_set_ext; [exact Hr|]. intros x. split; [|intros [Hx _]; exact Hx]. intros Hx. split; [done|]. by apply HP.
Qed.

Lemma counted_bound sp P n : counted sp P n -> 0 <= n <= size.
Proof using All.
  intros H. split; [by eapply sized_nonneg|]. destruct Hp as (_ & _ & H2 & _).
  enough (n <= start + size - start) by lia. apply (sized_bound _ _ _ _ H); [lia|]. by intros x [? _].
Qed.

(** The allocated space of a log is the size of what it stands for. *)
Lemma log_sized sm X : log_repr sm X -> sized X (smp_alloc sm).
Proof using All.
  intros (_ & Hsm & _ & es & len & _ & _ & _ & Hrep). destruct set_create as (rt & _ & [Hwf Hm] & Hz).
  destruct (run_entries_load no_owner false sm Hsm (rt_ops rt) SM_ALLOC es _ _ _ _ Hrep rt)
    as (rt' & _ & (Hwf' & Hm' & Hsp & _) & _); [by intros ? []| |].
  { split_and!; auto. }
  exists rt'. split; [|done]. by split.
Qed.

Lemma allocating_ok s sp tr t :
  trees_ok start size s sp tr -> s <= t <= s + 3 ->
  exists rt, allocating tr t = Ret rt /\ ms_allocating tr !! txg_slot t = Some rt /\
    holds start size sp (is_allocating s t) rt.
Proof using All.
  intros (_ & H & _) Ht. destruct (H t Ht) as (rt & Hl & Hh). exists rt. unfold allocating, tree_at.
  by rewrite Hl.
Qed.

(** Everything is somewhere. *)
Lemma spaces_ok s pass sp ms sm tr a0 a1 a2 d0 d1 :
  core0 s pass sp ms -> ms_loaded ms = true -> ms_sm ms = Some sm -> ms_trees ms = Some tr ->
  trees_ok start size s sp tr -> holds start size sp (is_allocating s s) a0 ->
  holds start size sp (is_allocating s (s + 1)) a1 -> holds start size sp (is_allocating s (s + 2)) a2 ->
  ms_defer tr = [d0; d1] ->
  0 <= smp_alloc sm <= size /\ 0 <= rt_space (ms_allocatable ms) /\ 0 <= rt_space a0 /\
  0 <= rt_space a1 /\ 0 <= rt_space a2 /\ 0 <= rt_space d0 /\ 0 <= rt_space d1 /\ 0 <= rt_space (ms_freed tr) /\
  smp_alloc sm + (rt_space (ms_allocatable ms) + (rt_space a0 + (rt_space a1 + (rt_space a2 +
    (rt_space d0 + (rt_space d1 + rt_space (ms_freed tr))))))) = size.
Proof using All.
  intros Hc Hld Hsm Htr Ht H0 H1 H2 Hd.
  pose proof (core_free _ _ _ _ _ _ _ Hc) as (Hwf & _ & Hm). rewrite Hld in Hm.
  pose proof (core_log _ _ _ _ _ _ _ Hc) as Hl. rewrite Hsm in Hl. destruct Hl as (_ & Hl & _).
  pose proof Ht as (_ & _ & _ & Hfd & (d0' & d1' & Hd' & Hd0 & Hd1) & _).
  rewrite Hd in Hd'. injection Hd' as <- <-.
  pose proof (log_sized _ _ Hl : counted sp on_disk _) as C0.
  pose proof (holds_counted mirrors sp (fun o => o = Free) (ms_allocatable ms) (conj Hwf Hm)) as C1.
  pose proof (holds_counted _ _ _ _ H0) as C2. pose proof (holds_counted _ _ _ _ H1) as C3.
  pose proof (holds_counted _ _ _ _ H2) as C4. pose proof (holds_counted _ _ _ _ Hd0) as C5.
  pose proof (holds_counted _ _ _ _ Hd1) as C6. pose proof (holds_counted _ _ _ _ Hfd) as C7.
  do 8 (split; [first [by eapply counted_bound|by eapply sized_nonneg]|]).
  unfold is_allocating in *.
  pose proof (counted_join _ _ _ _ _ C6 C7 ltac:(states_apart)) as J6.
  pose proof (counted_join _ _ _ _ _ C5 J6 ltac:(states_apart)) as J5.
  pose proof (counted_join _ _ _ _ _ C4 J5 ltac:(states_apart)) as J4.
  pose proof (counted_join _ _ _ _ _ C3 J4 ltac:(states_apart)) as J3.
  pose proof (counted_join _ _ _ _ _ C2 J3 ltac:(states_apart)) as J2.
  pose proof (counted_join _ _ _ _ _ C1 J2 ltac:(states_apart)) as J1.
  pose proof (counted_join _ _ _ _ _ C0 J1 ltac:(states_apart)) as J0.
  apply (counted_all _ _ _ J0). intros x Hx. cbn beta.
  pose proof (core_states _ _ _ _ _ _ _ Hc) as (_ & Hb & Hdf & _).
  destruct (sp x) as [|b []|[]| |i] eqn:E; cbn; auto 20.
  - pose proof (Hb x b false Hx E) as Hbb. cbn in Hbb.
    assert (b = s \/ b = s + 1 \/ b = s + 2) as [-> | [-> | ->]] by lia; auto 20.
  - specialize (Hdf x i Hx E). destruct i as [|[|i]]; [auto 20|auto 20|lia].
Qed.

(** [metaslab_verify_space] never fails. *)
Lemma verify_space_ok s pass sp ms c txg :
  core0 s pass sp ms -> 0 < s < 2 ^ 63 -> s - 1 <= spa_syncing_txg c <= s -> s <= txg ->
  metaslab_verify_space e c ms txg = Ret tt.
Proof using All.
  intros Hc Hs Hsync Htxg. unfold metaslab_verify_space. destruct (debug_metaslab_verify e); [cbn [negb]|done].
  destruct (ms_sm ms) as [sm|] eqn:Hsm; [|done].
  destruct (Z.eqb_spec txg (spa_syncing_txg c)) as [E|]; cbn [negb orb]; [|done].
  assert (txg = s) as -> by lia. clear E.
  destruct (ms_loaded ms) eqn:Hld; cbn [negb]; [|done].
  pose proof (core_trees _ _ _ _ _ _ _ Hc) as (tr & Htr & Ht & Hds). unfold trees. rewrite Htr.
  cbn [mbind result_bind].
  destruct (allocating_ok s sp tr s Ht) as (a0 & A0 & _ & H0); [lia|].
  destruct (allocating_ok s sp tr (s + 1) Ht) as (a1 & A1 & _ & H1); [lia|].
  destruct (allocating_ok s sp tr (s + 2) Ht) as (a2 & A2 & _ & H2); [lia|].
  pose proof Ht as (_ & _ & _ & _ & (d0 & d1 & Hd & _) & _).
  destruct (spaces_ok s pass sp ms sm tr a0 a1 a2 d0 d1 Hc Hld Hsm Htr Ht H0 H1 H2 Hd)
    as (B0 & B1 & B2 & B3 & B4 & B5 & B6 & B7 & Hsum).
  rewrite (Hds d0 d1 Hd).
  assert (0 <= sm_alloc sm <= size /\ size < 2 ^ 63) as [Ba Hz].
  { pose proof (core_log _ _ _ _ _ _ _ Hc) as Hl. rewrite Hsm in Hl. destruct Hl as (Hok & _).
    split; [apply Hok|]. destruct Hp as (_ & ? & ? & ? & _).
    assert (2 ^ 57 < 2 ^ 63) by (apply Z.pow_lt_mono_r; lia). lia. }
  assert (2 ^ 63 + 2 ^ 63 = 2 ^ 64) as E64 by reflexivity.
  change (Z.to_nat TXG_CONCURRENT_STATES) with 3%nat. cbn [for_loop].
  rewrite !add64_small by (unfold u64; lia). change (Z.of_nat 0) with 0. change (Z.of_nat 1) with 1.
  change (Z.of_nat 2) with 2. rewrite Z.add_0_r, A0. cbn [mbind result_bind]. rewrite A1.
  cbn [mbind result_bind]. rewrite A2. cbn [mbind result_bind]. rewrite (core_size _ _ _ _ _ _ _ Hc).
  rewrite (add64_small 0 (rt_space a0)), (add64_small (0 + rt_space a0) (rt_space a1)),
    (add64_small (0 + rt_space a0 + rt_space a1) (rt_space a2)) by (unfold u64; lia).
  set (al := 0 + rt_space a0 + rt_space a1 + rt_space a2). set (df := rt_space d0 + rt_space d1).
  set (fr := rt_space (ms_allocatable ms)) in *. set (fd := rt_space (ms_freed tr)) in *.
  rewrite (wrap64_small df), (add64_small fr al), (add64_small (fr + al) df),
    (add64_small (fr + al + df) fd) by (unfold u64; lia).
  apply verify_Ret, Z.eqb_eq. unfold space_map_allocated, space_map_alloc_delta.
  rewrite (wrap64_small (sm_alloc sm)), wraps64_small by (unfold u64, s64; lia).
  rewrite (sub64_small size) by (unfold u64; lia).
  unfold sub64, wrap64. rewrite Zminus_mod_idemp_r, Z.mod_small by lia. lia.
Qed.
End Facts.
