(* ===== verification/MetaslabSteps.v ===== *)
(** * Metaslabs: blocks taken and given back

    The operations of [Metaslab] that move a block from one state to another,
    and the loading of a metaslab, keep the invariant of [MetaslabInv]: the
    states of the block change as they should and the others stay. *)

From S2P Require Import Prelude TxgData Avl RangeTree RangeSet SpaceMap SpaceMapLog.
From S2P Require Import MetaslabAlloc MetaslabData MetaslabWeight MetaslabGroup Metaslab MetaslabInv.

Section Steps.
Context (e : env) (start size : Z) (Hp : place_ok e start size).
Notation inside := (inside start size).
Notation core := (core e start size).
Notation core0 := (core0 e start size).
Notation holds := (holds start size).
Notation trees_ok := (trees_ok start size).
Notation block_ok := (block_ok e start size).

(** ** Changes of states *)

Lemma upd_cases sp off n (o : Z -> ostate) (P : ostate -> Prop) :
  (forall x, off <= x < off + n -> P (sp x)) ->
  forall x, upd_range sp off n o x = o x /\ P (sp x) /\ off <= x < off + n \/
    upd_range sp off n o x = sp x /\ ~ off <= x < off + n.
Proof using All.
  intros HP x. destruct (decide (off <= x < off + n)); [left|right].
  - split; [by apply upd_range_in|auto].
  - split; [by apply upd_range_out|done].
Qed.

(** By cases on whether [x] is in the block, with [Hcase] from [upd_cases]. *)
Ltac by_range x :=
  match goal with
  | Hcase : forall y, _ \/ _ /\ ~ _ |- _ =>
      let E := fresh "E" in let P := fresh "P" in let R := fresh "R" in
      destruct (Hcase x) as [(E & P & R)|(E & R)]; rewrite ?E, ?P
  end.

Lemma holds_ext sp sp' P P' rt :
  holds sp P rt -> (forall x, inside x -> P (sp x) <-> P' (sp' x)) -> holds sp' P' rt.
Proof using All.
  intros H HP. eapply is_set_ext; [exact H|]. intros x. specialize (HP x). tauto.
Qed.

(** Blocks that become allocations of [t], or cease to be. *)
Definition toggles (t : Z) (o o' : ostate) : Prop :=
  o = o' \/ o = Free /\ o' = Live t false \/ o = Live t false /\ o' = Free.

Lemma set_allocating_ok s sp sp' tr t al :
  trees_ok s sp tr -> s <= t <= s + 3 -> holds sp' (is_allocating s t) al ->
  (forall x, inside x -> toggles t (sp x) (sp' x)) ->
  trees_ok s sp' (set_allocating tr t al).
Proof using All.
  intros (Hl & Ha & Hf & Hd & (d0 & d1 & Hdf & H0 & H1) & Hc) Ht Hal Hx.
  assert (forall P rt, holds sp P rt -> ~ P Free -> ~ P (Live t false) -> holds sp' P rt) as Hkeep.
  { intros P rt Hh N1 N2. eapply holds_ext; [exact Hh|]. intros x Hin.
    destruct (Hx x Hin) as [-> |[[-> ->]|[-> ->]]]; tauto. }
  split; [cbn; by rewrite length_insert|]. split; [|split_and!].
  - intros u Hu. cbn. destruct (decide (u = t)) as [-> |Hne].
    + exists al. split; [|done]. apply list_lookup_insert_eq. rewrite Hl. apply txg_slot_lt.
    + destruct (Ha u Hu) as (rt & Hrt & Hh). exists rt. split.
      { rewrite list_lookup_insert_ne; [done|]. intros E. apply Hne. by apply (txg_slot_inj s). }
      apply Hkeep; [done|unfold is_allocating; intuition congruence..].
  - apply Hkeep; [done|intros []; congruence..].
  - apply Hkeep; done.
  - exists d0, d1. split; [done|]. split; apply Hkeep; done.
  - apply Hkeep; auto.
Qed.

(** Blocks that are freed. *)
Definition frees (s : Z) (o o' : ostate) : Prop :=
  o = o' \/ exists b d, o = Live b d /\ o' = Freeing d /\ (d = false -> b = s).

Lemma set_freeing_ok s sp sp' tr fr :
  trees_ok s sp tr -> holds sp' is_freeing fr -> (forall x, inside x -> frees s (sp x) (sp' x)) ->
  trees_ok s sp' (set_ms_freeing tr fr).
Proof using All.
  intros (Hl & Ha & Hf & Hd & (d0 & d1 & Hdf & H0 & H1) & Hc) Hfr Hx.
  assert (forall P rt, holds sp P rt -> (forall o o', frees s o o' -> P o <-> P o') -> holds sp' P rt) as Hkeep.
  { intros P rt Hh N. eapply holds_ext; [exact Hh|]. auto. }
  split; [done|]. split; [|split_and!; [done|..]].
  - intros u Hu. destruct (Ha u Hu) as (rt & Hrt & Hh). exists rt. split; [done|].
    apply Hkeep; [done|]. intros o o' [-> |(b & d & -> & -> & Hb)]; [done|]. unfold is_allocating.
    destruct d; intuition (simplify_eq; auto).
  - apply Hkeep; [done|]. intros o o' [-> |(b & d & -> & -> & Hb)]; [done|]. intuition congruence.
  - exists d0, d1. split; [done|]. split; (apply Hkeep; [done|]);
      (intros o o' [-> |(b & d & -> & -> & Hb)]; [done|]; intuition congruence).
  - apply Hkeep; [done|]. done.
Qed.

Lemma holds_empty sp P rt :
  holds sp P rt -> range_tree_is_empty rt = false -> exists x, inside x /\ P (sp x).
Proof using All.
  intros [Hwf Hm]. unfold range_tree_is_empty. intros Hne%Z.eqb_neq.
  pose proof Hwf as (_ & Hs & Hsp & _). destruct (segs rt) as [|rs L] eqn:E; [done|].
  apply segs_ok_cons in Hs as (Hrs & _). unfold seg_ok in Hrs. exists (rs_start rs). apply Hm.
  unfold rt_mem. rewrite E. apply covers_cons. left. unfold in_seg. lia.
Qed.

Lemma states_upd s pass sp off n (o : Z -> ostate) :
  states_ok e start size s pass sp -> block_ok off n ->
  (forall x y, inside x -> x / unit_bytes e = y / unit_bytes e -> o x = o y) ->
  (forall x, off <= x < off + n -> o x = Free \/ (exists t, s <= t <= s + 2 /\ o x = Live t false) \/
     exists d, o x = Freeing d) ->
  states_ok e start size s pass (upd_range sp off n o).
Proof using All.
  intros (Hu & Hb & Hd & Hf) Hbl Ho Hnew.
  assert (forall x, inside x -> upd_range sp off n o x = sp x \/
    (off <= x < off + n /\ upd_range sp off n o x = o x)) as Hcase.
  { intros x _. destruct (decide (off <= x < off + n)) as [Hin|Hout].
    - right. split; [done|]. by apply upd_range_in.
    - left. by apply upd_range_out. }
  split; [by apply (upd_units e start size)|]. split_and!.
  - intros x b d Hx E. destruct (Hcase x Hx) as [Hc|[Hr Hc]]; rewrite Hc in E; [by eapply Hb|].
    destruct (Hnew x Hr) as [N|[(t & Ht & N)|(d' & N)]]; rewrite N in E; simplify_eq. done.
  - intros x i Hx E. destruct (Hcase x Hx) as [Hc|[Hr Hc]]; rewrite Hc in E; [by eapply Hd|].
    destruct (Hnew x Hr) as [N|[(t & Ht & N)|(d' & N)]]; rewrite N in E; simplify_eq.
  - intros Hp0 x Hx E. destruct (Hcase x Hx) as [Hc|[Hr Hc]]; rewrite Hc in E; [by eapply Hf|].
    destruct (Hnew x Hr) as [N|[(t & Ht & N)|(d' & N)]]; rewrite N in E; simplify_eq.
Qed.

(** What is dirty stays dirty, and new states are. *)
Lemma dirty_upd s sp sp' ms ms' :
  dirty_ok start size s sp ms -> length (ms_txg_node ms') = 4%nat ->
  (forall t, is_dirty ms t = true -> is_dirty ms' t = true) ->
  (forall x, inside x -> sp' x = sp x \/ sp' x = Free \/
     (exists t, sp' x = Live t false /\ is_dirty ms' t = true) \/
     (exists d, sp' x = Freeing d) /\ is_dirty ms' s = true) ->
  dirty_ok start size s sp' ms'.
Proof using All.
  intros [_ Hd] Hl Hmore Hnew. split; [done|]. intros x Hx.
  destruct (Hnew x Hx) as [-> |[-> |[(t & -> & Ht)|[[d ->] Ht]]]]; auto.
  specialize (Hd x Hx). destruct (sp x) as [|b []| | |]; auto. destruct Hd; auto.
Qed.

(** [vdev_dirty] of a metaslab that is not known to be dirty already. *)
Lemma mark_dirty_ok ms (b : bool) t :
  length (ms_txg_node ms) = 4%nat -> (b = false -> is_dirty ms t = true) ->
  exists node, (if b then vdev_dirty ms t else ms) = set_ms_txg_node ms node /\ length node = 4%nat /\
    is_dirty (set_ms_txg_node ms node) t = true /\
    forall u, is_dirty ms u = true -> is_dirty (set_ms_txg_node ms node) u = true.
Proof using All.
  intros Hl Hb. destruct b.
  - exists (<[txg_slot t := true]> (ms_txg_node ms)). split; [done|]. split; [by rewrite length_insert|].
    change (set_ms_txg_node ms _) with (vdev_dirty ms t).
    split; [|intros u Hu]; apply is_dirty_set; auto.
  - exists (ms_txg_node ms). replace (set_ms_txg_node ms (ms_txg_node ms)) with ms by (by destruct ms). auto.
Qed.

(** A space map, when nothing changes on disk. *)
Lemma log_keep sp sp' loaded osm :
  log_ok e start size sp loaded osm ->
  (forall x, inside x -> on_disk (sp x) <-> on_disk (sp' x)) ->
  (forall x, inside x -> sp' x = sp x \/ sp' x = Free \/ (exists b, sp' x = Live b false) \/ exists d, sp' x = Freeing d) ->
  (loaded = false -> forall x, inside x -> sp x = Freed <-> sp' x = Freed) ->
  log_ok e start size sp' loaded osm.
Proof using All.
  intros Hl Hd Hn Hf. destruct osm as [sm|].
  - destruct Hl as (Hok & Hl & Hr). split; [done|].
    split; [|intros Hu; destruct (Hr Hu) as [? Hr']; specialize (Hf Hu); split; [done|]];
      (eapply log_repr_equiv; [eassumption|]); intros x; specialize (Hd x); [|specialize (Hf x)]; tauto.
  - intros x Hx. specialize (Hl x Hx). specialize (Hd x Hx).
    destruct (Hn x Hx) as [-> |[-> |[? |[[] E]]]]; auto. exfalso. rewrite E in Hd.
    destruct Hl as [E'|[[b E']|E']]; rewrite E' in Hd; cbn in Hd; tauto.
Qed.

(** The block [off, off + n) is free, and taken by txg [txg]. *)
Lemma take_free_ok s pass sp ms off n txg :
  core s pass sp ms -> ms_loaded ms = true -> block_ok off n ->
  (forall x, off <= x < off + n -> sp x = Free) -> s <= txg <= s + 2 ->
  exists rt ms', range_tree_remove (zfs_recover e) (ms_allocatable ms) off n = Ret rt /\
    add_allocating e (set_ms_allocatable ms rt) off n txg = Ret ms' /\
    core s pass (upd_range sp off n (fun _ => Live txg false)) ms' /\ ms_loaded ms' = true /\
    ms_sel ms' = ms_sel ms /\ ms_start ms' = ms_start ms.
Proof using All.
  intros Hc Hld Hb Hfree Htxg. pose proof (block_bounds e start size Hp off n Hb) as (B1 & B2 & B3 & Bin).
  set (sp' := upd_range sp off n _).
  assert (forall x, sp' x = Live txg false /\ sp x = Free /\ off <= x < off + n \/
    sp' x = sp x /\ ~ off <= x < off + n) as Hcase by (apply (upd_cases _ _ _ (fun _ => Live txg false) (fun o => o = Free)); auto).
  pose proof (core_free _ _ _ _ _ _ _ Hc) as (Hwf & Hop & Hm). rewrite Hld in Hm.
  destruct (set_remove mirrors (zfs_recover e) (ms_allocatable ms) (fun x => inside x /\ sp x = Free)
    (fun x => inside x /\ sp' x = Free) off n) as (rt & Hrt & Hset & _ & Hop'); auto.
  { by split. }
  { intros x. by_range x; intuition congruence. }
  pose proof (core_trees _ _ _ _ _ _ _ Hc) as (tr & Htr & Ht & Hds).
  destruct (allocating_ok e start size Hp s sp tr txg Ht) as (al & Hal & Hlk & Hh); [lia|].
  destruct (set_add no_owner (zfs_recover e) al (fun x => inside x /\ is_allocating s txg (sp x))
    (fun x => inside x /\ is_allocating s txg (sp' x)) off n) as (al' & Hal' & Hset' & _); auto.
  { intros x Hx [_ Ha]. rewrite (Hfree x Hx) in Ha. unfold is_allocating in Ha. intuition congruence. }
  { intros x. by_range x; [|tauto]. split; [auto|]. intros _. split; [auto|]. by left. }
  exists rt. set (ms1 := set_ms_allocatable ms rt).
  destruct (mark_dirty_ok ms1 (range_tree_is_empty al) txg) as (node & E2 & Hnl & Hdt & Hmore).
  { apply Hc. }
  { intros Hem. destruct (core_dirty _ _ _ _ _ _ _ Hc) as [_ Hdirty].
    destruct (holds_empty sp _ al Hh Hem) as (x & Hx & [E|[-> E]]);
      specialize (Hdirty x Hx); by rewrite E in Hdirty. }
  exists (set_trees (set_ms_txg_node ms1 node) (set_allocating tr txg al')). split; [done|]. split.
  { unfold add_allocating, trees. cbn [ms_trees ms1 set_ms_allocatable]. rewrite Htr.
    cbn [mbind result_bind]. rewrite Hal. cbn [mbind result_bind]. rewrite Hal'. cbn [mbind result_bind].
    by rewrite E2. }
  split; [|done].
  split; [constructor; cbn; try apply Hc|].
  - apply states_upd; auto; [apply Hc|]. intros x _. right. left. eauto.
  - eexists; split; [done|]. split; [|done].
    apply (set_allocating_ok s sp); auto; [lia|]. intros x _. by_range x.
    + right. by left.
    + by left.
  - destruct Hset as [Hwf' Hm']. split; [done|]. split; [congruence|]. by rewrite Hld.
  - pose proof (core_log _ _ _ _ _ _ _ Hc) as Hl. rewrite Hld in Hl |- *.
    apply (log_keep sp); auto; [..|done]; intros x Hx; by_range x; eauto.
  - eapply (dirty_upd s sp); [apply Hc|done|done|]. intros x _. by_range x; eauto 10.
Qed.

(** ** The checks of a block *)

Lemma not_condensing s pass sp ms : core0 s pass sp ms -> ms_condensing (rt_arg (ms_allocatable ms)) = false.
Proof using All.
  intros Hc. pose proof (core_free _ _ _ _ _ _ _ Hc) as ((_ & _ & _ & _ & Ho) & Hop & _).
  rewrite Hop in Ho. apply Ho.
Qed.

Lemma block_sector off n : block_ok off n -> on_sector e off = true /\ on_sector e n = true.
Proof using All.
  intros (B1 & B2 & B3 & B4 & B5). destruct Hp as (_ & ? & _).
  split; apply (on_sector_ok e start size); auto; lia.
Qed.

Lemma in_ms_ok s pass sp ms off n : core0 s pass sp ms -> block_ok off n -> in_ms ms off n = true.
Proof using All.
  intros Hc (B1 & B2 & B3 & _). unfold in_ms. rewrite (core_start _ _ _ _ _ _ _ Hc), (core_size _ _ _ _ _ _ _ Hc).
  destruct Hp as (_ & H1 & H2 & H3 & _). assert (2 ^ 57 < 2 ^ 64) by (apply Z.pow_lt_mono_r; lia).
  rewrite !add64_small by (unfold u64; lia). apply andb_true_iff. split; apply Z.leb_le; lia.
Qed.

(** The undoing of an allocation: the block is free again. *)
Lemma unalloc_ok s pass sp ms off n txg :
  core s pass sp ms -> block_ok off n -> (forall x, off <= x < off + n -> sp x = Live txg false) ->
  s <= txg <= s + 2 ->
  exists ms', metaslab_unalloc_dva e ms off n txg = Ret ms' /\
    core s pass (upd_range sp off n (fun _ => Free)) ms' /\ ms_loaded ms' = ms_loaded ms /\
    ms_sel ms' = ms_sel ms /\ ms_start ms' = ms_start ms.
Proof using All.
  intros Hc Hb Hlive Htxg. pose proof (block_bounds e start size Hp off n Hb) as (B1 & B2 & B3 & Bin).
  set (sp' := upd_range sp off n _).
  assert (forall x, sp' x = Free /\ sp x = Live txg false /\ off <= x < off + n \/
    sp' x = sp x /\ ~ off <= x < off + n) as Hcase
    by (apply (upd_cases _ _ _ (fun _ => Free) (fun o => o = Live txg false)); auto).
  pose proof (core_free _ _ _ _ _ _ _ Hc) as (Hwf & Hop & Hm).
  assert (ms_loaded ms = true) as Hld.
  { destruct (ms_loaded ms); [done|]. exfalso. destruct Hm as [_ Hno].
    apply (proj1 (Hno off ltac:(apply Bin; lia)) txg), Hlive. lia. }
  rewrite Hld in Hm.
  destruct (set_add mirrors (zfs_recover e) (ms_allocatable ms) (fun x => inside x /\ sp x = Free)
    (fun x => inside x /\ sp' x = Free) off n) as (rt & Hrt & Hset & Hsp & Hop'); auto.
  { by split. }
  { intros x Hx [_ E]. rewrite Hlive in E; done. }
  { intros x. by_range x; [|tauto]. split; [auto|]. split; auto. }
  pose proof (core_trees _ _ _ _ _ _ _ Hc) as (tr & Htr & Ht & Hds).
  destruct (allocating_ok e start size Hp s sp tr txg Ht) as (al & Hal & Hlk & Hh); [lia|].
  destruct (set_remove no_owner (zfs_recover e) al (fun x => inside x /\ is_allocating s txg (sp x))
    (fun x => inside x /\ is_allocating s txg (sp' x)) off n) as (al' & Hal' & Hset' & _); auto.
  { intros x Hx. split; [auto|]. left. auto. }
  { intros x. by_range x; [|tauto]. unfold is_allocating. intuition congruence. }
  exists (set_ms_allocatable (set_trees ms (set_allocating tr txg al')) rt).
  split; [|split; [|done]].
  - unfold metaslab_unalloc_dva, trees. rewrite Htr. cbn [mbind result_bind]. rewrite Hal.
    cbn [mbind result_bind]. rewrite Hal'. cbn [mbind result_bind].
    change (ms_allocatable (set_trees ms _)) with (ms_allocatable ms).
    rewrite (not_condensing _ _ _ _ Hc). change (in_ms (set_trees ms _) off n) with (in_ms ms off n).
    rewrite (in_ms_ok _ _ _ _ _ _ Hc Hb). destruct (block_sector off n Hb) as [-> ->].
    cbn [negb verify mbind result_bind]. change (ms_size (set_trees ms _)) with (ms_size ms).
    pose proof (holds_counted e start size Hp mirrors sp' (fun o => o = Free) rt Hset) as Hn.
    apply (counted_bound e start size Hp) in Hn. rewrite Hsp in Hn.
    pose proof (set_space_nonneg mirrors _ _ (conj Hwf Hm)).
    destruct Hp as (_ & ? & ? & ? & _). assert (2 ^ 57 < 2 ^ 64) by (apply Z.pow_lt_mono_r; lia).
    rewrite (core_size _ _ _ _ _ _ _ Hc), add64_small by (unfold u64; lia).
    destruct (Z.leb_spec (rt_space (ms_allocatable ms) + n) size); [|lia].
    cbn [verify mbind result_bind]. by rewrite Hrt.
  - split; [constructor; cbn; try apply Hc|].
    + apply states_upd; auto. apply Hc.
    + eexists; split; [done|]. split; [|done].
      apply (set_allocating_ok s sp); auto; [lia|]. intros x _. by_range x; [right; by right|by left].
    + destruct Hset as [Hwf' Hm']. split; [done|]. split; [congruence|]. by rewrite Hld.
    + pose proof (core_log _ _ _ _ _ _ _ Hc) as Hl. rewrite Hld in Hl |- *.
      apply (log_keep sp); auto; [..|done]; intros x Hx; by_range x; eauto.
    + eapply (dirty_upd s sp); [apply Hc|apply Hc|done|]. intros x _. by_range x; eauto 10.
Qed.

(** ** Freeing *)

Definition free_state (o : ostate) : ostate := match o with Live _ d => Freeing d | _ => o end.

(** A block that may be freed while [s] is being synced. *)
Definition freeable (s : Z) (o : ostate) : Prop := exists b d, o = Live b d /\ (d = false -> b = s).

Lemma check_free_ok s pass sp ms off n :
  core s pass sp ms -> block_ok off n -> freeable s (sp off) ->
  metaslab_check_free_impl e ms off n = Ret tt.
Proof using All.
  intros Hc Hb (b & d & E & _). pose proof (block_bounds e start size Hp off n Hb) as (B1 & B2 & B3 & Bin).
  unfold metaslab_check_free_impl. destruct (debug_zio_free e); [cbn [negb]|done].
  pose proof (core_trees _ _ _ _ _ _ _ Hc) as (tr & Htr & (_ & _ & Hf & Hd & (d0 & d1 & Hdf & H0 & H1) & Hck) & _).
  assert (forall P (rt : range_tree unit), holds sp P rt -> ~ P (Live b d) -> range_tree_verify rt off n = Ret tt) as Hv.
  { intros P rt Hh Hn. apply (set_verify no_owner rt (fun x => inside x /\ P (sp x))); auto.
    intros [_ HP]. by rewrite E in HP. }
  assert ((if ms_loaded ms then range_tree_verify (ms_allocatable ms) off n else Ret tt) = Ret tt) as ->.
  { pose proof (core_free _ _ _ _ _ _ _ Hc) as (Hwf & _ & Hm). destruct (ms_loaded ms); [|done].
    apply (set_verify mirrors _ (fun x => inside x /\ sp x = Free)); auto; [by split|].
    intros [_ HP]. congruence. }
  cbn [mbind result_bind]. unfold trees. rewrite Htr. cbn [mbind result_bind].
  rewrite (Hv _ _ Hf) by (intros [? ?]; congruence). cbn [mbind result_bind].
  rewrite (Hv _ _ Hck) by tauto. cbn [mbind result_bind].
  rewrite (Hv _ _ Hd) by congruence. cbn [mbind result_bind].
  change (Z.to_nat TXG_DEFER_SIZE) with 2%nat. cbn [for_loop]. unfold tree_at. rewrite Hdf. cbn [lookup list_lookup].
  cbn [mbind result_bind]. rewrite (Hv _ _ H0) by congruence. cbn [mbind result_bind].
  rewrite (Hv _ _ H1) by congruence. done.
Qed.

Lemma free_concrete_ok s pass sp ms c off n :
  core s pass sp ms -> block_ok off n -> spa_syncing_txg c = s ->
  (forall x, off <= x < off + n -> freeable s (sp x)) ->
  exists ms', metaslab_free_concrete e c ms off n false = Ret ms' /\
    core s pass (upd_range sp off n (fun x => free_state (sp x))) ms' /\
    ms_loaded ms' = ms_loaded ms /\ ms_sel ms' = ms_sel ms /\ ms_start ms' = ms_start ms.
Proof using All.
  intros Hc Hb Hsync Hlive. pose proof (block_bounds e start size Hp off n Hb) as (B1 & B2 & B3 & Bin).
  set (sp' := upd_range sp off n _).
  assert (forall x, sp' x = free_state (sp x) /\ freeable s (sp x) /\ off <= x < off + n \/
    sp' x = sp x /\ ~ off <= x < off + n) as Hcase
    by (apply (upd_cases _ _ _ (fun x => free_state (sp x)) (freeable s)); auto).
  assert (forall x, frees s (sp x) (sp' x)) as Hfrees.
  { intros x. destruct (Hcase x) as [(E & (b & d & E' & Hbd) & _)|(E & _)]; [right|by left].
    exists b, d. rewrite E, E'. auto. }
  pose proof (core_trees _ _ _ _ _ _ _ Hc) as (tr & Htr & Ht & Hds).
  pose proof Ht as (_ & _ & Hf & _ & _ & Hck).
  destruct (set_add no_owner (zfs_recover e) (ms_freeing tr) (fun x => inside x /\ is_freeing (sp x))
    (fun x => inside x /\ is_freeing (sp' x)) off n) as (fr & Hfr & Hset & _); auto.
  { intros x Hx [_ [d E]]. destruct (Hlive x Hx) as (? & ? & E' & _). congruence. }
  { intros x. destruct (Hcase x) as [(E & (b & d & E' & _) & R)|(E & R)]; rewrite E; [|tauto].
    rewrite E'. split; [auto|]. intros _. split; [auto|]. by exists d. }
  destruct (mark_dirty_ok ms (range_tree_is_empty (ms_freeing tr) && range_tree_is_empty (ms_checkpointing tr)) s)
    as (node & E2 & Hnl & Hdt & Hmore).
  { apply Hc. }
  { intros Hem. destruct (core_dirty _ _ _ _ _ _ _ Hc) as [_ Hdirty]. apply andb_false_iff in Hem as [Hem|Hem].
    - destruct (holds_empty sp _ _ Hf Hem) as (x & Hx & [d E]). specialize (Hdirty x Hx). by rewrite E in Hdirty.
    - by destruct (holds_empty sp _ _ Hck Hem) as (x & Hx & []). }
  exists (set_trees (set_ms_txg_node ms node) (set_ms_freeing tr fr)). split; [|split; [|done]].
  - unfold metaslab_free_concrete. rewrite (not_condensing _ _ _ _ Hc), (in_ms_ok _ _ _ _ _ _ Hc Hb).
    destruct (block_sector off n Hb) as [-> ->]. cbn [negb verify mbind result_bind].
    rewrite (check_free_ok s pass sp) by (auto; apply Hlive; lia). cbn [mbind result_bind].
    unfold trees. rewrite Htr, Hsync. cbn [mbind result_bind]. rewrite E2, Hfr. done.
  - split; [constructor; cbn; try apply Hc|].
    + apply states_upd; auto; [apply Hc|intros x y Hx Hy; f_equal; by apply Hc|].
      intros x Hx. destruct (Hlive x Hx) as (b & d & E & _). rewrite E. cbn. eauto.
    + eexists; split; [done|]. split; [|done]. apply (set_freeing_ok s sp); auto.
    + pose proof (core_free _ _ _ _ _ _ _ Hc) as (Hwf & Hop & Hm). split; [done|]. split; [done|].
      destruct (ms_loaded ms).
      * intros x. rewrite Hm. destruct (Hfrees x) as [-> |(b & d & -> & -> & _)]; intuition congruence.
      * destruct Hm as [Hm1 Hm2]. split; [done|]. intros x Hx. specialize (Hm2 x Hx).
        destruct (Hfrees x) as [<- |(b & d & E & -> & _)]; [done|]. destruct Hm2 as [Hm2 _].
        split; [congruence|]. intros [= ->]. by apply (Hm2 b).
    + apply (log_keep sp); [apply Hc| | |intros _]; intros x Hx;
        destruct (Hfrees x) as [<- |(b & d & E & E' & _)]; rewrite ?E, ?E'; eauto. by destruct d.
    + eapply (dirty_upd s sp); [apply Hc|done|done|]. intros x _.
      destruct (Hfrees x) as [<- |(b & d & E & -> & _)]; eauto 10.
Qed.

(** ** Loading *)

(** The tree of a space map that is loaded: what the log has free, less what is
    deferred. *)
Lemma load_free_ok s pass sp ms sm tr d0 d1 :
  core0 s pass sp ms -> ms_loaded ms = false -> ms_sm ms = Some sm -> ms_defer tr = [d0; d1] ->
  holds sp (fun o => o = Deferred 0) d0 -> holds sp (fun o => o = Deferred 1) d1 ->
  exists rt rt', space_map_load (zfs_recover e) (sm_io e) sm (ms_allocatable ms) SM_FREE = Ret (rt, 0) /\
    walk_defer e tr rt = Ret rt' /\ is_set mirrors (fun x => inside x /\ sp x = Free) rt' /\
    rt_ops rt' = rt_ops (ms_allocatable ms).
Proof using All.
  intros Hc Hld Hsm Hd H0 H1. pose proof (core_free _ _ _ _ _ _ _ Hc) as (Hwf & Hop & Hm). rewrite Hld in Hm.
  destruct Hm as [Hnil Hno]. destruct (set_nil mirrors _ Hwf Hnil) as [_ Hz].
  pose proof (core_log _ _ _ _ _ _ _ Hc) as Hl. rewrite Hsm, Hld in Hl. destruct Hl as (Hok & _ & Hl).
  pose proof Hok as (E1 & E2 & _). pose proof Hp as (_ & _ & _ & _ & _ & _ & _ & Hio).
  destruct (load_ok mirrors (zfs_recover e) (sm_io e) sm (ms_allocatable ms) SM_FREE _ (proj2 (Hl eq_refl)) Hwf Hz Hio)
    as (rt & Hrt & Hwf1 & Hm1 & Hop1).
  assert (is_set mirrors (fun x => inside x /\ (sp x = Free \/ sp x = Deferred 0 \/ sp x = Deferred 1)) rt) as Hs1.
  { split; [done|]. intros x. rewrite Hm1. unfold wanted, in_map. rewrite E1, E2. fold (inside x).
    pose proof (core_states _ _ _ _ _ _ _ Hc) as (_ & _ & Hdf & _). specialize (Hdf x). specialize (Hno x).
    destruct (sp x) as [|b [] |[] | |i]; cbn; try solve [intuition congruence].
    split; [intros [Hx _]; split; [done|]|intros [Hx _]; split; [done|]; intuition congruence].
      specialize (Hdf i Hx eq_refl). destruct i as [|[|i]]; [auto|auto|lia]. }
  destruct (set_walk_remove no_owner mirrors (zfs_recover e) d0 rt _ _
    (fun x => inside x /\ (sp x = Free \/ sp x = Deferred 1)) H0 Hs1) as (rt2 & W0 & Hs2 & Hop2).
  { intros x [Hx ->]. auto. }
  { intros x. destruct (sp x); intuition congruence. }
  destruct (set_walk_remove no_owner mirrors (zfs_recover e) d1 rt2 _ _
    (fun x => inside x /\ sp x = Free) H1 Hs2) as (rt3 & W1 & Hs3 & Hop3).
  { intros x [Hx ->]. auto. }
  { intros x. destruct (sp x); intuition congruence. }
  exists rt, rt3. split; [done|]. split; [|split; [done|congruence]].
  unfold walk_defer. change (Z.to_nat TXG_DEFER_SIZE) with 2%nat. cbn [for_loop]. unfold tree_at. rewrite Hd.
  cbn [lookup list_lookup mbind result_bind]. rewrite W0. cbn [mbind result_bind]. by rewrite W1.
Qed.

Lemma load_ms_ok s pass sp ms :
  core s pass sp ms -> ms_loaded ms = false ->
  exists ms', metaslab_load e ms = Ret (ms', 0) /\ core s pass sp ms' /\ ms_loaded ms' = true /\
    ms_start ms' = ms_start ms /\
    ms_sel ms' = set_ms_max_size (ms_sel ms) (metaslab_block_maxsize (ms_allocatable ms')).
Proof using All.
  intros Hc Hld. pose proof (core_trees _ _ _ _ _ _ _ Hc) as (tr & Htr & Ht & Hds).
  pose proof Ht as (_ & _ & _ & _ & (d0 & d1 & Hd & H0 & H1) & _).
  assert (forall rt, is_set mirrors (fun x => inside x /\ sp x = Free) rt -> rt_ops rt = rt_ops (ms_allocatable ms) ->
    let ms' := set_max_size (set_ms_allocatable (set_ms_loaded ms true) rt) in
    core s pass sp ms' /\ ms_loaded ms' = true /\ ms_start ms' = ms_start ms /\
    ms_sel ms' = set_ms_max_size (ms_sel ms) (metaslab_block_maxsize (ms_allocatable ms'))) as Hfin.
  { intros rt [Hwf Hm] Hop. split; [|done]. pose proof (core_free _ _ _ _ _ _ _ Hc) as (_ & Hop' & _).
    split; [constructor; cbn; try apply Hc|apply Hc].
    - split; [done|]. split; [congruence|done].
    - pose proof (core_log _ _ _ _ _ _ _ Hc) as Hl. destruct (ms_sm ms); [|done].
      destruct Hl as (? & ? & _). split; [done|]. by split. }
  unfold metaslab_load. destruct (ms_sm ms) as [sm|] eqn:Hsm.
  - destruct (load_free_ok s pass sp ms sm tr d0 d1 Hc Hld Hsm Hd H0 H1) as (rt & rt' & -> & Hw & Hs & Hop).
    cbn [mbind result_bind Z.eqb]. cbn [ms_sm set_ms_loaded set_ms_allocatable]. rewrite Hsm.
    unfold trees. cbn [ms_trees set_ms_loaded set_ms_allocatable]. rewrite Htr. cbn [mbind result_bind].
    cbn [ms_allocatable set_ms_loaded set_ms_allocatable]. rewrite Hw. cbn [mbind result_bind].
    eexists. split; [done|]. by apply (Hfin rt').
  - pose proof (core_free _ _ _ _ _ _ _ Hc) as (Hwf & Hop & Hm). rewrite Hld in Hm. destruct Hm as [Hnil Hno].
    destruct (set_nil mirrors _ Hwf Hnil) as [Hs _].
    pose proof Hp as (_ & P1 & P2 & P3 & _). assert (2 ^ 57 < 2 ^ 64) by (apply Z.pow_lt_mono_r; lia).
    destruct (set_add mirrors (zfs_recover e) (ms_allocatable ms) _ (fun x => inside x /\ sp x = Free) start size Hs)
      as (rt & Hadd & Hs' & _ & Hop'); auto; [lia| |].
    { pose proof (core_log _ _ _ _ _ _ _ Hc) as Hl. rewrite Hsm in Hl. intros x. fold (inside x).
      split; [tauto|]. intros [[]|Hx]. split; [done|]. destruct (Hno x Hx) as [N1 N2].
      destruct (Hl x Hx) as [?|[[b ?]|?]]; [done|by destruct (N1 b)|done]. }
    replace (range_tree_add _ _ (ms_start ms) (ms_size ms)) with (Ret rt)
      by (by rewrite (core_start _ _ _ _ _ _ _ Hc), (core_size _ _ _ _ _ _ _ Hc)).
    cbn [mbind result_bind Z.eqb]. cbn [ms_sm set_ms_loaded set_ms_allocatable]. rewrite Hsm. cbn [mbind result_bind].
    eexists. split; [done|]. exact (Hfin rt Hs' Hop').
Qed.

(** ** Allocation *)

Lemma core_free_tree s pass sp ms :
  core0 s pass sp ms -> ms_loaded ms = true ->
  free_tree (ms_allocatable ms) /\ is_set mirrors (fun x => inside x /\ sp x = Free) (ms_allocatable ms).
Proof using All.
  intros Hc Hld. pose proof (core_free _ _ _ _ _ _ _ Hc) as (Hwf & Hop & Hm). rewrite Hld in Hm.
  split; [|by split]. split_and!; auto. intros x Hx%Hm. destruct Hx as [[_ Hx] _].
  destruct Hp as (_ & _ & _ & H & _). assert (2 ^ 57 < 2 ^ 63) by (apply Z.pow_lt_mono_r; lia). lia.
Qed.

(** A block an allocator finds is one of the metaslab's. *)
Lemma allocated_block s pass sp ms n o :
  core0 s pass sp ms -> ms_loaded ms = true -> 0 < n -> n mod unit_bytes e = 0 ->
  allocated (ms_allocatable ms) n o ->
  block_ok o n /\ o <> NO_OFFSET /\ forall x, o <= x < o + n -> sp x = Free.
Proof using All.
  intros Hc Hld Hn Hmod Hal. destruct (core_free_tree s pass sp ms Hc Hld) as [_ Hset].
  pose proof Hset as [_ Hm]. pose proof Hal as (Hfree & H0 & H63 & Halign).
  assert (forall x, o <= x < o + n -> inside x /\ sp x = Free) as Hin by (intros x Hx; apply Hm, Hfree, Hx).
  split; [|split; [intros ->; by apply (allocated_NO_OFFSET (ms_allocatable ms) n)|intros x Hx; apply Hin, Hx]].
  pose proof (proj1 (Hin o ltac:(lia))) as [I1 _]. pose proof (proj1 (Hin (o + n - 1) ltac:(lia))) as [_ I2].
  pose proof (unit_pos e start size Hp) as Hu.
  split_and!; auto; [lia|]. apply Halign; auto; [destruct Hp as (? & _); lia|].
  intros rs Hrs. apply (set_aligned mirrors _ _ (unit_bytes e) rs Hset Hu); [|done].
  intros x y Hxy [Hx Hf]. split; [by apply (inside_unit e start size Hp x)|].
  pose proof (core_states _ _ _ _ _ _ _ Hc) as (Hun & _). by rewrite <- (Hun x y).
Qed.

(** The free space that is left is not more than the metaslab has. *)
Lemma take_space_ok s pass sp ms o n :
  core0 s pass sp ms -> ms_loaded ms = true -> block_ok o n -> (forall x, o <= x < o + n -> sp x = Free) ->
  sub64 (rt_space (ms_allocatable ms)) n <=? ms_size ms = true.
Proof using All.
  intros Hc Hld Hb Hfree. destruct (core_free_tree s pass sp ms Hc Hld) as [_ Hset].
  pose proof (counted_bound e start size Hp _ _ _ (holds_counted e start size Hp mirrors sp (fun o => o = Free) _ Hset)) as Hb1.
  assert (n <= rt_space (ms_allocatable ms)) as Hb2.
  { destruct (set_remove mirrors (zfs_recover e) (ms_allocatable ms) (fun x => inside x /\ sp x = Free)
      (fun x => (inside x /\ sp x = Free) /\ ~ o <= x < o + n) o n) as (rt2 & _ & Hs2 & Hsp2 & _); auto;
      [destruct (block_bounds e start size Hp o n Hb) as (?&?&?&?); auto; lia..| |].
    - intros x Hx. split; [|auto]. by apply (block_bounds e start size Hp o n Hb).
    - apply set_space_nonneg in Hs2. lia. }
  pose proof (block_bounds e start size Hp o n Hb) as (_ & Hn & _).
  destruct Hp as (_ & ? & ? & ? & _). assert (2 ^ 57 < 2 ^ 64) by (apply Z.pow_lt_mono_r; lia).
  rewrite sub64_small, (core_size _ _ _ _ _ _ _ Hc) by (unfold u64; lia). apply Z.leb_le. lia.
Qed.

Lemma core_lbas_set s pass sp ms lbas :
  core s pass sp ms -> length lbas = MAX_LBAS -> core s pass sp (set_ms_lbas ms lbas).
Proof using All. intros [[] ?] Hl. by split. Qed.

Lemma core_alloc_txg s pass sp ms t : core s pass sp ms -> core s pass sp (set_ms_alloc_txg ms t).
Proof using All. intros [[] ?]. by split. Qed.

Lemma core0_sel s pass sp ms sel : core0 s pass sp ms -> core0 s pass sp (set_ms_sel ms sel).
Proof using All. intros []. by constructor. Qed.

Lemma core_sel s pass sp ms sel : core s pass sp ms -> core s pass sp (set_ms_sel ms sel).
Proof using All. intros [[] ?]. by split. Qed.

Lemma block_alloc_ok `{!AllocSpec (ms_ops e)} s pass sp ms c n txg :
  core s pass sp ms -> ms_loaded ms = true -> 0 < n <= 2 ^ 62 -> n mod unit_bytes e = 0 ->
  s <= txg <= s + 2 -> 0 < s < 2 ^ 63 -> s - 1 <= spa_syncing_txg c <= s ->
  exists ms' o, metaslab_block_alloc e c ms n txg = Ret (ms', o) /\ ms_loaded ms' = true /\
    ms_start ms' = ms_start ms /\
    ms_sel ms' = set_ms_max_size (ms_sel ms) (metaslab_block_maxsize (ms_allocatable ms')) /\
    (o = NO_OFFSET /\ core s pass sp ms' \/
     o <> NO_OFFSET /\ block_ok o n /\ (forall x, o <= x < o + n -> sp x = Free) /\
     core s pass (upd_range sp o n (fun _ => Live txg false)) ms').
Proof using All.
  intros Hc Hld Hn Hmod Htxg Hs Hsync. destruct (core_free_tree s pass sp ms Hc Hld) as [Hft Hset].
  unfold metaslab_block_alloc. rewrite (not_condensing _ _ _ _ Hc), (core_idle _ _ _ _ _ _ _ Hc).
  cbn [negb verify mbind result_bind Z.eqb].
  destruct (alloc_spec (ms_allocatable ms) (ms_size ms) (ms_lbas ms) n Hft Hn (core_lbas _ _ _ _ _ _ _ Hc))
    as (o & lbas & -> & Hl & Ho). cbn [mbind result_bind].
  pose proof (core_lbas_set _ _ _ _ _ Hc Hl) as Hc1.
  destruct Ho as [-> |Hal].
  { rewrite Z.eqb_refl. cbn [negb mbind result_bind]. eexists _, _. split; [done|].
    do 3 (split; [done|]). left. split; [done|]. by apply core_sel. }
  destruct (allocated_block s pass sp ms n o Hc Hld ltac:(lia) Hmod Hal) as (Hb & Hno & Hfree).
  destruct (Z.eqb_spec o NO_OFFSET); [done|]. destruct (block_sector o n Hb) as [-> ->].
  cbn [negb verify mbind result_bind].
  destruct (take_free_ok s pass sp (set_ms_lbas ms lbas) o n txg Hc1 Hld Hb Hfree Htxg)
    as (rt & ms' & Hrt & Hadd & Hc' & Hld' & Hsel & Hst).
  change (ms_allocatable (set_ms_lbas ms lbas)) with (ms_allocatable ms) in *.
  change (ms_size (set_ms_lbas ms lbas)) with (ms_size ms).
  rewrite (take_space_ok s pass sp ms o n Hc Hld Hb Hfree). cbn [verify mbind result_bind].
  rewrite Hrt. cbn [mbind result_bind]. rewrite Hadd. cbn [mbind result_bind].
  rewrite (verify_space_ok e start size Hp s pass _ (set_ms_alloc_txg ms' txg) c txg (core_alloc_txg _ _ _ _ _ Hc') Hs Hsync ltac:(lia)).
  cbn [mbind result_bind]. eexists _, _. split; [done|]. split; [done|]. split; [done|].
  split; [cbn; by rewrite Hsel|]. right. do 3 (split; [done|]). apply core_sel, core_alloc_txg, Hc'.
Qed.
End Steps.
