(* ===== verification/MetaslabWorld.v ===== *)
(** * Metaslabs: allocation from a group

    The invariant of a metaslab with the group it is in, and the operations
    that choose and activate the metaslab to allocate from. *)

From S2P Require Import Prelude Avl RangeTree RangeSet SpaceMap SpaceMapLog MetaslabAlloc MetaslabData.
From S2P Require Import MetaslabWeight MetaslabGroup Metaslab MetaslabInv MetaslabSteps.

(** An active metaslab is loaded, and active for an allocator or for claims. *)
Definition active_ok (ms : metaslab) : Prop :=
  let s := ms_sel ms in
  (act (ms_weight s) <> 0 -> ms_loaded ms = true) /\
  (ms_allocator s = -1 /\ (act (ms_weight s) = 0 \/ act (ms_weight s) = METASLAB_WEIGHT_CLAIM) \/
   ms_allocator s <> -1 /\
     (act (ms_weight s) = METASLAB_WEIGHT_PRIMARY \/ act (ms_weight s) = METASLAB_WEIGHT_SECONDARY)).

Lemma land_claim w : Z.land w METASLAB_WEIGHT_CLAIM = Z.land (act w) METASLAB_WEIGHT_CLAIM.
Proof. unfold act. rewrite <- Z.land_assoc. by replace (Z.land METASLAB_ACTIVE_MASK METASLAB_WEIGHT_CLAIM) with METASLAB_WEIGHT_CLAIM. Qed.

Lemma act_land_r w m : act (Z.land w m) = Z.land (act w) m.
Proof. unfold act. by rewrite <- !Z.land_assoc, (Z.land_comm m). Qed.

Section World.
Context (e : env) (start size : Z) (Hp : place_ok e start size).
Notation inside := (inside start size).
Notation core := (core e start size).
Notation core0 := (core0 e start size).
Notation block_ok := (block_ok e start size).

(** The last txg a metaslab was selected for bounds the births of what is not
    on disk. *)
Definition selected_ok (s : Z) (sp : Z -> ostate) (sel : ms_selection) : Prop :=
  0 <= ms_selected_txg sel < 2 ^ 63 /\
  forall x b, inside x -> sp x = Live b false -> b <> s -> b <= ms_selected_txg sel + 3.

Record winv0 (s pass : Z) (sp : Z -> ostate) (w : world) : Prop := Winv0 {
  winv_core0 : core0 s pass sp (w_ms w);
  winv_group : group_ok w;
  winv_owner : owner_ok w;
  winv_slots : length (mg_secondaries (w_mg w)) = length (mg_primaries (w_mg w));
  winv_active : active_ok (w_ms w);
  winv_selected : selected_ok s sp (ms_sel (w_ms w)) }.

Record winv (s pass : Z) (sp : Z -> ostate) (w : world) : Prop := Winv {
  winv_body :> winv0 s pass sp w;
  winv_dirty : dirty_ok start size s sp (w_ms w) }.

Lemma winv_core s pass sp w : winv s pass sp w -> core s pass sp (w_ms w).
Proof using All. intros [[] ?]. by split. Qed.

Lemma regroup_slots w w' :
  regroup w w' -> length (mg_secondaries (w_mg w)) = length (mg_primaries (w_mg w)) ->
  length (mg_secondaries (w_mg w')) = length (mg_primaries (w_mg w')).
Proof using All. intros (_ & _ & _ & _ & H). pose proof (H true) as Ht. pose proof (H false) as Hf. cbn in *. congruence. Qed.

(** A change that concerns only the choice of the metaslab. *)
Lemma winv_regroup s pass sp w w' :
  winv s pass sp w -> regroup w w' -> group_ok w' -> owner_ok w' -> active_ok (w_ms w') -> winv s pass sp w'.
Proof using All.
  intros Hw Hr Hg Ho Ha. pose proof Hr as (Hr' & _).
  pose proof (core_reselect e start size Hp _ _ _ _ _ (winv_core _ _ _ _ Hw) Hr') as [Hc Hd].
  destruct Hw as [[] _]. split; [constructor; auto|done].
  - by eapply regroup_slots.
  - destruct Hr as ((node & sel & -> & _ & Hs) & _). unfold selected_ok. cbn. by rewrite Hs.
Qed.

Lemma passivate_winv s pass sp w weight :
  winv s pass sp w -> act (ms_weight (ms_sel (w_ms w))) <> 0 -> act weight = 0 ->
  exists w', metaslab_passivate w weight = Ret w' /\ winv s pass sp w' /\
    ms_weight (ms_sel (w_ms w')) = weight /\
    ms_max_size (ms_sel (w_ms w')) = ms_max_size (ms_sel (w_ms w)) /\ regroup w w'.
Proof using All.
  intros Hw Hact H0. pose proof (winv_active _ _ _ _ Hw) as [_ Ha].
  destruct (passivate_ok w weight (winv_group _ _ _ _ Hw)) as (w' & -> & Hg & Hr & Hwt & Hmax & Hal & Ho).
  { destruct Ha as [[_ [?|Hc]]|[? _]]; [done| |by left]. right. by rewrite land_claim, Hc. }
  exists w'. split; [done|]. split; [|done]. eapply winv_regroup; eauto; [apply Ho, Hw|].
  split; rewrite Hwt; [done|]. left. split; [|by left].
  destruct Hal as [?|[Hc ->]]; [done|]. destruct Ha as [[? _]|[_ [Hc'|Hc']]]; [done|..];
    rewrite land_claim, Hc' in Hc; done.
Qed.

(** A change of the metaslab that the group does not see. *)
Lemma winv_ms s pass sp sp' w ms' :
  winv s pass sp w -> core s pass sp' ms' -> key ms' = key (w_ms w) ->
  (ms_loaded (w_ms w) = true -> ms_loaded ms' = true) -> selected_ok s sp' (ms_sel ms') ->
  winv s pass sp' (set_w_ms w ms').
Proof using All.
  intros [[Hc Hg Ho Hsl Ha Hs] _] [Hc' Hd'] Hk Hld Hs'. injection Hk as Kst Kw Ka Kp. split; [constructor; auto|done].
  - destruct Hg as ((Hwf & ks & Hel & Hks & Hnd) & Hh1 & Hh2 & Hslot). split_and!; auto.
    + split; [done|]. exists ks. cbn [w_ms set_w_ms]. unfold key. rewrite Kst, Kw, Ka, Kp. done.
    + unfold slot_ok in *. cbn [w_ms set_w_ms w_mg]. by rewrite Ka, Kp.
  - by apply (owner_same w).
  - destruct Ha as [Ha1 Ha2]. unfold active_ok. cbn [w_ms set_w_ms]. rewrite Kw, Ka. split; auto.
Qed.

Lemma activate_winv s pass sp w a aw :
  winv s pass sp w -> 0 <= a < Z.of_nat (length (mg_primaries (w_mg w))) ->
  aw = METASLAB_WEIGHT_PRIMARY \/ aw = METASLAB_WEIGHT_SECONDARY \/ aw = METASLAB_WEIGHT_CLAIM ->
  exists w' err, metaslab_activate e w a aw = Ret (w', err) /\ winv s pass sp w' /\
    (err = 0 \/ err = EEXIST /\ aw <> METASLAB_WEIGHT_CLAIM) /\ (err = 0 -> act (ms_weight (ms_sel (w_ms w'))) <> 0) /\
    ms_loaded (w_ms w') = true.
Proof using All.
  intros Hw Ha Haw. unfold metaslab_activate. fold (act (ms_weight (ms_sel (w_ms w)))).
  destruct (Z.eqb_spec (act (ms_weight (ms_sel (w_ms w)))) 0) as [Hact|Hact]; cbn [negb].
  2: { exists w, 0. split; [done|]. split; [done|]. split; [by left|]. split; [done|].
       by apply (winv_active _ _ _ _ Hw). }
  assert (exists ms, (if ms_loaded (w_ms w) then Ret (w_ms w, 0) else metaslab_load e (w_ms w)) = Ret (ms, 0) /\
    winv s pass sp (set_w_ms w ms) /\ ms_loaded ms = true /\ key ms = key (w_ms w)) as (ms & -> & Hw1 & Hld & Hk).
  { destruct (ms_loaded (w_ms w)) eqn:Hl.
    - exists (w_ms w). split; [done|]. split; [by destruct w|]. done.
    - destruct (load_ms_ok e start size Hp s pass sp (w_ms w) (winv_core _ _ _ _ Hw) Hl)
        as (ms & -> & Hc & Hld & Hst & Hsel).
      assert (key ms = key (w_ms w)) as Hk by (unfold key; by rewrite Hsel, Hst).
      exists ms. split; [done|]. split; [|done]. eapply winv_ms; eauto. rewrite Hsel. apply Hw. }
  cbn [mbind result_bind Z.eqb negb]. set (w1 := set_w_ms w ms) in *.
  injection Hk as Kst Kw Ka Kp. fold (act (ms_weight (ms_sel (w_ms w1)))).
  change (ms_weight (ms_sel (w_ms w1))) with (ms_weight (ms_sel ms)). rewrite Kw, Hact. cbn [Z.eqb negb].
  pose proof (winv_active _ _ _ _ Hw1) as [_ Hac1]. change (w_ms w1) with ms in Hac1. rewrite Kw, Hact in Hac1.
  assert (ms_allocator (ms_sel ms) = -1) as Hm1 by (destruct Hac1 as [[? _]|[_ [?|?]]]; done).
  destruct (activate_allocator_ok w1 a aw (winv_group _ _ _ _ Hw1) Ha (winv_slots _ _ _ _ Hw1))
    as (w2 & err & -> & Hg2 & Hr2 & Herr & Hwt & Hal & Hcl & Ho). cbn [mbind result_bind].
  destruct (Z.eqb_spec err 0) as [-> |Hne]; cbn [negb].
  2: { destruct (Herr Hne) as [-> ->]. exists w1, EEXIST. split; [done|]. split; [done|]. split; [|done].
       right. split; [done|]. intros E. by destruct (Hcl E). }
  set (w3 := set_w_ms w2 _). assert (group_ok w3) as Hg3 by done.
  destruct (group_sort_ok w3 (Z.lor (ms_weight (ms_sel (w_ms w2))) aw) Hg3) as (w' & Hsort & Hg' & Hr' & Hsel' & Hsl').
  unfold metaslab_group_sort. rewrite Hsort. cbn [mbind result_bind].
  assert (regroup w2 w3) as Hr3 by (split_and!; [by apply reselect_sel|done..]).
  pose proof (regroup_trans _ _ _ Hr2 (regroup_trans _ _ _ Hr3 Hr')) as Hr.
  assert (ms_loaded (w_ms w') = true) as Hld' by (by destruct Hr as ((? & ? & -> & _) & _)).
  assert (act (ms_weight (ms_sel (w_ms w'))) = aw) as Hact'.
  { rewrite Hsel', Hwt. cbn. rewrite Kw, act_lor, Hact. by destruct Haw as [-> |[-> | ->]]. }
  exists w', 0. split; [done|]. split; [|split; [by left|]; split; [|done]].
  2: { intros _. rewrite Hact'. by destruct Haw as [-> |[-> | ->]]. }
  eapply winv_regroup; [exact Hw1|done|done| |].
  - apply (owner_same w3); [|by destruct Hr' as ((? & ? & -> & _) & _)|by rewrite Hsel'..|done].
    by apply (owner_same w2); [apply Ho; [apply Hw1|done]|..].
  - split; [done|]. rewrite Hact', Hsel'. cbn [ms_allocator set_ms_weight w_ms w3 set_w_ms ms_sel set_ms_sel set_ms_activation_weight].
    destruct (Z.eq_dec aw METASLAB_WEIGHT_CLAIM) as [-> |Hn].
    + left. destruct (Hcl eq_refl) as [-> _]. cbn. auto.
    + right. rewrite (Hal eq_refl Hn). split; [lia|]. tauto.
Qed.

(** ** One round of [metaslab_group_alloc_normal] *)

Lemma core_histogram s pass sp ms :
  core0 s pass sp ms -> length (rt_histogram (ms_allocatable ms)) = RANGE_TREE_HISTOGRAM_SIZE.
Proof using All.
  intros Hc. pose proof (core_free _ _ _ _ _ _ _ Hc) as ((_ & _ & _ & Hh & _) & _). apply Hh.
Qed.

Lemma range_tree_weight_ok s pass sp ms :
  core0 s pass sp ms -> exists r, metaslab_weight_from_range_tree e ms = Ret r /\ act r = 0.
Proof using All.
  intros Hc. destruct Hp as (Hash & _).
  destruct (weight_from_range_tree_ok e Hash ms (core_histogram _ _ _ _ Hc)) as (r & -> & Hr).
  exists r. split; [done|]. apply act_small. lia.
Qed.

Lemma maxsize_weight s pass sp ms :
  core0 s pass sp ms -> ms_loaded ms = true ->
  act (WEIGHT_SET_SPACEBASED (metaslab_block_maxsize (ms_allocatable ms))) = 0.
Proof using All.
  intros Hc Hld. destruct (core_free_tree e start size Hp s pass sp ms Hc Hld) as [Hft Hset].
  assert (0 <= metaslab_block_maxsize (ms_allocatable ms) < 2 ^ 60) as Hm.
  { pose proof (maxsize_ok (ms_allocatable ms) (metaslab_block_maxsize (ms_allocatable ms)) Hft) as Hmax.
    assert (0 <= metaslab_block_maxsize (ms_allocatable ms)) as H0.
    { unfold metaslab_block_maxsize. destruct (avl_last _); [|lia]. apply wrap64_u64. }
    split; [done|]. destruct (Z.eq_dec (metaslab_block_maxsize (ms_allocatable ms)) 0) as [-> |Hne]; [lia|].
    destruct (proj1 (Hmax ltac:(lia)) ltac:(lia)) as (rs & Hin & Hle).
    pose proof (free_tree_small _ Hft) as Hs. rewrite Forall_forall in Hs.
    destruct (Hs rs Hin) as [Hok _]. unfold seg_ok in Hok. destruct Hset as [_ Hset].
    assert (inside (rs_end rs - 1)) as [_ I2].
    { apply Hset, covers_In. exists rs. unfold in_seg. split; [done|lia]. }
    destruct Hp as (_ & ? & ? & ? & _). assert (2 ^ 57 < 2 ^ 60) by (apply Z.pow_lt_mono_r; lia). lia. }
  unfold WEIGHT_SET_SPACEBASED. rewrite BF64_SET_clear by lia. apply act_small.
  change (1 mod 2 ^ 1) with 1. assert (2 ^ 60 + 2 ^ 60 = 2 ^ 61) by reflexivity. lia.
Qed.

(** What [alloc_from] does when it gets nothing out of the metaslab. *)
Lemma pick_next_ok s pass sp w :
  winv s pass sp w -> act (ms_weight (ms_sel (w_ms w))) <> 0 ->
  exists w', (weight ← (if WEIGHT_IS_SPACEBASED (ms_weight (ms_sel (w_ms w)))
                        then Ret (WEIGHT_SET_SPACEBASED (metaslab_block_maxsize (ms_allocatable (w_ms w))))
                        else metaslab_weight_from_range_tree e (w_ms w));
              w ← metaslab_passivate w weight; Ret (w, None (A := Z))) = Ret (w', None) /\ winv s pass sp w'.
Proof using All.
  intros Hw Hact. pose proof (winv_core _ _ _ _ Hw) as Hc.
  assert (exists r, (if WEIGHT_IS_SPACEBASED (ms_weight (ms_sel (w_ms w)))
    then Ret (WEIGHT_SET_SPACEBASED (metaslab_block_maxsize (ms_allocatable (w_ms w))))
    else metaslab_weight_from_range_tree e (w_ms w)) = Ret r /\ act r = 0) as (r & -> & Hr).
  { destruct (WEIGHT_IS_SPACEBASED _); [|by eapply (range_tree_weight_ok s pass sp); apply Hc].
    eexists; split; [done|]. eapply (maxsize_weight s pass sp); [apply Hc|]. by apply (winv_active _ _ _ _ Hw). }
  cbn [mbind result_bind]. destruct (passivate_winv s pass sp w r Hw Hact Hr) as (w' & -> & Hw' & _).
  cbn [mbind result_bind]. eauto.
Qed.

Lemma may_passivate_ok s pass sp w c :
  winv s pass sp w -> act (ms_weight (ms_sel (w_ms w))) <> 0 ->
  exists w', metaslab_segment_may_passivate e c w = Ret w' /\ winv s pass sp w'.
Proof using All.
  intros Hw Hact. unfold metaslab_segment_may_passivate.
  destruct (_ || _); [eauto|]. destruct (range_tree_weight_ok s pass sp (w_ms w) (winv_core _ _ _ _ Hw)) as (r & -> & Hr).
  cbn [mbind result_bind]. split_if; [|eauto].
  destruct (passivate_winv s pass sp w r Hw Hact Hr) as (w' & -> & Hw' & _). eauto.
Qed.

(** What an allocation does to the states. *)
Definition alloc_result (sp : Z -> ostate) (n txg : Z) (r : option Z) (sp' : Z -> ostate) : Prop :=
  match r with
  | None => sp' = sp
  | Some o => block_ok o n /\ (forall x, o <= x < o + n -> sp x = Free) /\
      sp' = upd_range sp o n (fun _ => Live txg false)
  end.

Lemma active_land w : negb (Z.land w METASLAB_ACTIVE_MASK =? 0) = true <-> act w <> 0.
Proof using All. unfold act. rewrite negb_true_iff, Z.eqb_neq. done. Qed.

Lemma selected_set s pass sp sel txg :
  states_ok e start size s pass sp ->
  s - 1 <= txg <= s + 2 -> 0 < s -> s + 2 < 2 ^ 63 -> selected_ok s sp (set_ms_selected_txg sel txg).
Proof using All.
  intros (_ & Hb & _) Ht H0 H1.
  split; [cbn; lia|]. intros x b Hx E _. specialize (Hb x b false Hx E). cbn in *. lia.
Qed.

Lemma no_block s pass sp n txg w :
  winv s pass sp w -> exists w' r sp', Ret (w, None) = Ret (w', r) /\ alloc_result sp n txg r sp' /\ winv s pass sp' w'.
Proof using All. intros Hw. exists w, None, sp. by split_and!. Qed.

Lemma alloc_from_ok `{!AllocSpec (ms_ops e)} s pass sp w c was_active n txg a aw :
  winv s pass sp w -> 0 <= a < Z.of_nat (length (mg_primaries (w_mg w))) ->
  aw = METASLAB_WEIGHT_PRIMARY \/ aw = METASLAB_WEIGHT_SECONDARY \/ aw = METASLAB_WEIGHT_CLAIM ->
  0 < n <= 2 ^ 62 -> n mod unit_bytes e = 0 -> s <= txg <= s + 2 -> 0 < s -> s + 2 < 2 ^ 63 ->
  s - 1 <= spa_syncing_txg c <= s ->
  exists w' r sp', alloc_from e c w was_active n txg a aw = Ret (w', r) /\
    alloc_result sp n txg r sp' /\ winv s pass sp' w'.
Proof using All.
  intros Hw Ha Haw Hn Hmod Htxg Hs Hs' Hsync. unfold alloc_from.
  cbn zeta.
  set (active := negb (Z.land (ms_weight (ms_sel (w_ms w))) METASLAB_ACTIVE_MASK =? 0)). destruct (was_active && negb active); [by apply no_block|].
  destruct (negb was_active && active && _ && _); [by apply no_block|].
  destruct (_ && negb (aw =? METASLAB_WEIGHT_CLAIM)) eqn:Ecl.
  { apply andb_true_iff in Ecl as [Ecl%negb_true_iff _]. apply Z.eqb_neq in Ecl. rewrite land_claim in Ecl.
    pose proof (winv_active _ _ _ _ Hw) as [_ Hac].
    assert (act (ms_weight (ms_sel (w_ms w))) = METASLAB_WEIGHT_CLAIM) as Hcl.
    { destruct Hac as [[_ [H|H]]|[_ [H|H]]]; rewrite H in Ecl |- *; done. }
    destruct (passivate_winv s pass sp w (Z.land (ms_weight (ms_sel (w_ms w))) (not64 METASLAB_WEIGHT_CLAIM)) Hw)
      as (w' & -> & Hw' & _); [by rewrite Hcl|by rewrite act_land_r, Hcl|].
    by apply no_block. }
  destruct (activate_winv s pass sp w a aw Hw Ha Haw) as (w1 & err & -> & Hw1 & Herr & Hact & Hld).
  cbn [mbind result_bind]. destruct (Z.eqb_spec err 0) as [-> |]; cbn [negb]; [|by apply no_block].
  specialize (Hact eq_refl). set (ms2 := set_ms_sel (w_ms w1) _).
  assert (winv s pass sp (set_w_ms w1 ms2)) as Hw2.
  { eapply winv_ms; [exact Hw1|apply core_sel; [exact Hp|by apply winv_core]|done|done|].
    apply (selected_set s pass); auto; [apply (winv_core _ _ _ _ Hw1)|lia]. }
  set (w2 := set_w_ms w1 ms2) in *. cbn zeta.
  destruct (pick_next_ok s pass sp w2 Hw2 Hact) as (wg & Hgu & Hwg).
  destruct (metaslab_should_allocate (w_ms w2) n); cbn [negb]; [|rewrite Hgu; by apply no_block].
  pose proof (winv_core _ _ _ _ Hw2) as Hc2.
  rewrite (not_condensing e start size Hp _ _ _ _ Hc2), (core_idle _ _ _ _ _ _ _ Hc2). cbn [orb Z.ltb].
  destruct (block_alloc_ok e start size Hp s pass sp (w_ms w2) c n txg Hc2 Hld Hn Hmod Htxg ltac:(lia) Hsync)
    as (ms3 & o & -> & Hld3 & Hst3 & Hsel3 & Hres). cbn [mbind result_bind].
  assert (key ms3 = key (w_ms w2)) as Hk3 by (unfold key; by rewrite Hsel3, Hst3).
  destruct Hres as [[-> Hc3]|(Hno & Hb & Hfree & Hc3)].
  - rewrite Z.eqb_refl. cbn [negb]. assert (winv s pass sp (set_w_ms w2 ms3)) as Hw3.
    { eapply winv_ms; [exact Hw2|done|done|done|]. rewrite Hsel3. apply Hw2. }
    destruct (pick_next_ok s pass sp (set_w_ms w2 ms3) Hw3) as (w4 & Hgu4 & Hw4).
    { cbn [w_ms set_w_ms]. by rewrite Hsel3. }
    rewrite Hgu4. by apply no_block.
  - destruct (Z.eqb_spec o NO_OFFSET) as [|_]; [done|]. cbn [negb].
    assert (winv s pass (upd_range sp o n (fun _ => Live txg false)) (set_w_ms w2 ms3)) as Hw3.
    { eapply winv_ms; [exact Hw2|done|done|done|]. rewrite Hsel3.
      apply (selected_set s pass _ (set_ms_max_size (ms_sel (w_ms w1)) _) txg); auto; [apply Hc3|lia]. }
    destruct (may_passivate_ok s pass _ _ c Hw3) as (w4 & -> & Hw4).
    { cbn [w_ms set_w_ms]. by rewrite Hsel3. }
    cbn [mbind result_bind]. eexists w4, (Some o), _. split; [done|]. split; [|exact Hw4]. by split.
Qed.

(** ** Claims *)

(** What a claim does: the block was free, and is allocated in [txg], unless the
    claim is only a check. *)
Definition claim_result (sp : Z -> ostate) (off n txg err : Z) (sp' : Z -> ostate) : Prop :=
  (err = 0 /\ (forall x, off <= x < off + n -> sp x = Free) /\
     sp' = if txg =? 0 then sp else upd_range sp off n (fun _ => Live txg false)) \/
  (err = ENOENT /\ ~ (forall x, off <= x < off + n -> sp x = Free) /\ sp' = sp).

Lemma claim_activate_ok s pass sp w txg :
  winv s pass sp w -> (0 < length (mg_primaries (w_mg w)))%nat ->
  exists w', (if (negb (txg =? 0) && spa_writeable e) || negb (ms_loaded (w_ms w))
     then metaslab_activate e w 0 METASLAB_WEIGHT_CLAIM else Ret (w, 0)) = Ret (w', 0) /\
    winv s pass sp w' /\ ms_loaded (w_ms w') = true.
Proof using All.
  intros Hw Hl. destruct (_ || _) eqn:E.
  - destruct (activate_winv s pass sp w 0 METASLAB_WEIGHT_CLAIM Hw) as (w' & err & -> & Hw' & Herr & _ & Hld);
      [lia|auto|]. destruct Herr as [-> |[_ ?]]; [|done]. eauto.
  - apply orb_false_iff in E as [_ E%negb_false_iff]. eauto.
Qed.

Lemma claim_ok s pass sp w off n txg :
  winv s pass sp w -> (0 < length (mg_primaries (w_mg w)))%nat -> spa_writeable e = true ->
  block_ok off n -> txg = 0 \/ txg = s -> 0 < s ->
  exists w' err sp', metaslab_claim_concrete e w off n txg = Ret (w', err) /\
    claim_result sp off n txg err sp' /\ winv s pass sp' w'.
Proof using All.
  intros Hw Hl Hwr Hb Htxg Hs. unfold metaslab_claim_concrete.
  destruct (claim_activate_ok s pass sp w txg Hw Hl) as (w1 & -> & Hw1 & Hld). cbn [mbind result_bind].
  change (0 =? EBUSY) with false. cbn [Z.eqb]. pose proof (winv_core _ _ _ _ Hw1) as Hc.
  destruct (core_free_tree e start size Hp s pass sp _ Hc Hld) as [_ Hset].
  pose proof (block_bounds e start size Hp off n Hb) as (B1 & B2 & B3 & Bin).
  destruct (set_contains mirrors _ _ off n Hset B1 B2 B3) as (b & -> & Hiff). cbn [mbind result_bind].
  destruct b.
  2: { exists w1, ENOENT, sp. split; [done|]. split; [|done]. right. split; [done|]. split; [|done].
       intros Hall. enough (false = true) by done. apply Hiff. auto. }
  assert (forall x, off <= x < off + n -> sp x = Free) as Hfree by (intros x Hx; by apply Hiff).
  cbn [Z.eqb negb orb]. destruct (Z.eqb_spec txg 0) as [-> |Hnz].
  { exists w1, 0, sp. split; [done|]. split; [|done]. left. auto. }
  destruct Htxg as [?| ->]; [done|].
  rewrite (not_condensing e start size Hp _ _ _ _ Hc). destruct (block_sector e start size Hp off n Hb) as [-> ->].
  cbn [negb verify mbind result_bind].
  destruct (take_free_ok e start size Hp s pass sp (w_ms w1) off n s Hc Hld Hb Hfree ltac:(lia))
    as (rt & ms' & Hrt & Hadd & Hc' & Hld' & Hsel & Hst).
  rewrite (take_space_ok e start size Hp s pass sp (w_ms w1) off n Hc Hld Hb Hfree).
  cbn [verify mbind result_bind]. rewrite Hrt. cbn [mbind result_bind]. rewrite Hwr, Hadd. cbn [mbind result_bind].
  eexists _, 0, (upd_range sp off n (fun _ => Live s false)). split; [done|]. split; [left; split; [done|]; split; [done|]|].
  { by rewrite (proj2 (Z.eqb_neq s 0)). }
  eapply winv_ms; [exact Hw1|done|unfold key; by rewrite Hsel, Hst|done|]. rewrite Hsel.
  destruct (winv_selected _ _ _ _ Hw1) as [Hb1 Hb2]. split; [done|]. intros x b Hx E Hne.
  destruct (decide (off <= x < off + n)) as [Hr|Hr]; [rewrite upd_range_in in E by done; congruence|].
  rewrite upd_range_out in E by done. by apply (Hb2 x).
Qed.

(** ** Preloading *)

Lemma preload_ok s pass sp w c :
  winv s pass sp w -> 0 < s -> s + 2 < 2 ^ 63 -> s - 1 <= spa_syncing_txg c <= s ->
  exists ms', metaslab_preload e c (w_ms w) = Ret ms' /\ winv s pass sp (set_w_ms w ms') /\ ms_loaded ms' = true.
Proof using All.
  intros Hw H0 Hs Hsync. pose proof (winv_core _ _ _ _ Hw) as Hc. unfold metaslab_preload.
  assert (exists ms err, (if ms_loaded (w_ms w) then Ret (w_ms w, 0) else metaslab_load e (w_ms w)) = Ret (ms, err) /\
    core s pass sp ms /\ ms_loaded ms = true /\ key ms = key (w_ms w)) as (ms & err & -> & Hc1 & Hld & Hk).
  { destruct (ms_loaded (w_ms w)) eqn:Hl; [by exists (w_ms w), 0|].
    destruct (load_ms_ok e start size Hp s pass sp (w_ms w) Hc Hl) as (ms & -> & Hc1 & Hld & Hst & Hsel).
    exists ms, 0. split; [done|]. split; [done|]. split; [done|]. unfold key. by rewrite Hsel, Hst. }
  cbn [mbind result_bind]. eexists. split; [done|]. split; [|done].
  eapply winv_ms; [exact Hw|by apply core_sel|done|done|]. apply (selected_set s pass); auto; [apply Hc|lia].
Qed.
End World.
