(* ===== verification/MetaslabSync.v ===== *)
(** * Metaslabs: syncing a transaction group

    [metaslab_sync] writes the allocations and the frees of the txg to the
    space map, or writes the space map anew, and the states of [MetaslabInv]
    change as [sync_state] says. *)

From S2P Require Import Prelude TxgData Avl RangeTree RangeSet SpaceMap SpaceMapLog MetaslabAlloc MetaslabData.
From S2P Require Import MetaslabWeight MetaslabGroup Metaslab MetaslabInv MetaslabSteps MetaslabWorld.

(** What is synced of a log stays when more is written. *)
Lemma rollback_written sm sm' X :
  log_repr (rollback sm) X -> sm_length sm <= smp_objsize sm -> written sm sm' ->
  sm_length sm' <= smp_objsize sm' /\ log_repr (rollback sm') X.
Proof.
  intros (Hg & Hs & Ho & es & len & Hlen & Hle & Hpa & Hrep) Hsl
    ((E1 & E2 & E3) & El & Ea & Eo & Eb & Eh & Ehh & Hgrow & Htake).
  split; [lia|]. cbn in Hlen, Hle, Ho.
  assert (blk_words sm' = blk_words sm) as Hbw by (unfold blk_words; by rewrite Eb).
  pose proof (Htake len ltac:(lia)) as Ht.
  assert (len <= length (sm_words sm'))%nat as Hle'.
  { apply (f_equal length) in Ht. rewrite !length_take in Ht. lia. }
  unfold log_repr, geometry, span_ok in *. cbn in *. rewrite E1, E2, E3, El, Ea, Eb in *.
  change (blk_words (rollback sm')) with (blk_words sm'). change (blk_words (rollback sm)) with (blk_words sm) in *.
  rewrite Hbw. do 3 (split; [done|]). exists es, len. split_and!; auto; [by rewrite Ht|].
  by apply (replay_same_span (rollback sm)).
Qed.

Section Sync.
Context (e : env) (start size : Z) (Hp : place_ok e start size).
Notation inside := (inside start size).
Notation core := (core e start size).
Notation core0 := (core0 e start size).
Notation holds := (holds start size).
Notation trees_ok := (trees_ok start size).
Notation sm_ok := (sm_ok e start size).

(** The tunables: segment weights, blocks of at least two words for the space
    maps, and no unloading of what was used in the last three txgs. *)
Definition config_ok : Prop :=
  seg_weights e /\ (exists k, zfs_metaslab_sm_blksz e = 8 * Z.of_nat k /\ (2 <= k)%nat) /\
  3 <= metaslab_unload_delay e < 2 ^ 62.
Hypothesis Hcf : config_ok.

(** ** The space map *)

Lemma sm_ok_written sm sm' : sm_ok sm -> written sm sm' -> sm_ok sm'.
Proof using All.
  intros (H1 & H2 & [H3 H4] & H5 & H6 & H7) ((E1 & E2 & E3) & El & Ea & Eo & Eb & Eh & Ehh & _).
  unfold MetaslabInv.sm_ok, sm_shape. rewrite E1, E2, E3, Eh, Eo, Ehh, Ea.
  split_and!; auto; apply H7.
Qed.

Lemma written_trans a b c : written a b -> written b c -> written a c.
Proof using All.
  intros ((E1 & E2 & E3) & El & Ea & Eo & Eb & Eh & Ehh & Hgrow & Htake)
    ((F1 & F2 & F3) & Fl & Fa & Fo & Fb & Fh & Fhh & Fgrow & Ftake).
  unfold written, same_span. split_and!; try congruence; [lia|]. intros k Hk. rewrite Ftake by lia. by apply Htake.
Qed.

(** The states of one kind written to the log. *)
Lemma sm_write_ok {S} (I : list range_seg -> S -> Prop) s pass sp c txg sm (rt : range_tree S) t P X Y :
  states_ok e start size s pass sp -> sm_ok sm -> log_repr sm X ->
  is_set I (fun x => inside x /\ P (sp x)) rt -> 0 <= spa_sync_pass c -> 0 <= txg ->
  smp_objsize sm + 48 * (size + 1) < 2 ^ 64 -> change_ok t X (fun x => inside x /\ P (sp x)) ->
  (forall x, Y x <-> change t X (fun x => inside x /\ P (sp x)) x) ->
  exists sm', sm_write e c txg sm rt t = Ret sm' /\ log_repr sm' Y /\ written sm sm' /\ sm_ok sm' /\
    smp_objsize sm' <= smp_objsize sm + 48 * (size + 1).
Proof using All.
  intros Hst Hok Hl Hset Hpass Htxg Hroom Hch HY. pose proof Hset as [Hwf Hm].
  pose proof (counted_bound e start size Hp sp P _ (holds_counted e start size Hp I sp P rt Hset)) as Hb.
  destruct (write_ok I (sm_v2 e) (sm_force e) (sm_force_some e) (spa_sync_pass c) txg sm rt t SM_NO_VDEVID X)
    as (sm' & Hw & Hl' & Hwr & Hobj); auto.
  - by eapply (holds_seg_in e start size Hp).
  - destruct Hok as (_ & E2 & [E3 _] & _). unfold reachable. rewrite E2, E3. apply Hp.
  - split; [by vm_compute|done].
  - apply Hok.
  - lia.
  - unfold change_ok in *. destruct t; intros x Hx; apply Hch; by apply Hm.
  - exists sm'. split; [done|]. split; [|split; [done|]; split; [by eapply sm_ok_written|lia]].
    eapply log_repr_equiv; [exact Hl'|]. intros x. rewrite HY. destruct t; cbn; by rewrite (Hm x).
Qed.

(** A log with nothing in it. *)
Lemma empty_log sm :
  sm_start sm = start -> sm_size sm = size -> sm_shift sm = vdev_ashift e ->
  sm_blksz sm = zfs_metaslab_sm_blksz e -> smp_objsize sm = 0 -> smp_alloc sm = 0 ->
  log_repr sm (fun _ => False).
Proof using All.
  intros E1 E2 E3 E4 E5 E6. destruct Hcf as (_ & (k & Hk & Hk2) & _).
  destruct Hp as (Ha & P1 & P2 & P3 & P4 & _).
  assert (2 ^ 57 < 2 ^ 63) by (apply Z.pow_lt_mono_r; lia). assert (2 ^ 63 < 2 ^ 64) by (apply Z.pow_lt_mono_r; lia).
  assert (blk_words sm = k) as Hbw.
  { unfold blk_words. rewrite E4, Hk, Z.mul_comm, Z.div_mul by lia. lia. }
  split; [unfold geometry; rewrite Hbw, E4; auto|].
  split; [unfold span_ok; rewrite E1, E2, E3; split_and!; auto; lia|]. rewrite E5. split; [lia|].
  exists [], 0%nat. split; [done|]. split; [lia|]. split; [constructor|]. rewrite E6. by constructor.
Qed.

Lemma fresh_sm_ok obj :
  obj <> 0 ->
  let sm := space_map_open (space_map_alloc (sm_hist e) obj (zfs_metaslab_sm_blksz e)) start size (vdev_ashift e) in
  sm_ok sm /\ log_repr sm (fun _ => False) /\ log_repr (rollback sm) (fun _ => False).
Proof using All.
  intros Ho sm. destruct Hcf as ((_ & Hh) & _). destruct Hp as (_ & _ & P2 & _).
  split; [|split; by apply empty_log].
  unfold MetaslabInv.sm_ok, sm_shape, sm. cbn. rewrite Hh. split_and!; auto; lia.
Qed.

Lemma truncate_ok ibs obj sm :
  sm_ok sm -> obj <> 0 ->
  let sm' := space_map_truncate (sm_hist e) ibs obj (zfs_metaslab_sm_blksz e) sm in
  sm_ok sm' /\ log_repr sm' (fun _ => False) /\ smp_objsize sm' = 0.
Proof using All.
  intros (E1 & E2 & [E3 E4] & E5 & E6 & E7) Ho sm'. destruct Hcf as ((_ & Hh) & _).
  assert (sm_blksz sm' = zfs_metaslab_sm_blksz e) as Hb.
  { unfold sm', space_map_truncate. rewrite Hh, E6. cbn [andb negb orb].
    destruct (Z.eqb_spec (sm_blksz sm) (zfs_metaslab_sm_blksz e)); [|done]. by destruct ibs. }
  assert (sm_start sm' = start /\ sm_size sm' = size /\ sm_shift sm' = vdev_ashift e /\ smp_objsize sm' = 0 /\
    smp_alloc sm' = 0 /\ sm_alloc sm' = sm_alloc sm) as (F1 & F2 & F3 & F4 & F5 & F6)
    by (unfold sm', space_map_truncate; split_if; by split_and!).
  split; [|split; [by apply empty_log|done]].
  unfold MetaslabInv.sm_ok, sm_shape. rewrite F1, F2, F3, F6.
  split_and!; auto; try lia; unfold sm', space_map_truncate; split_if; cbn; auto.
Qed.

(** ** Condensing *)

(** The part of the space that is free or allocated on disk once [s] is
    synced. *)
Definition condensed (s : Z) (o : ostate) : Prop :=
  match o with Free => True | Live b d => d = true \/ b = s | _ => False end.

(** The states that satisfy none of the conditions [Ps]. *)
Definition avoids (Ps : list (ostate -> Prop)) (o : ostate) : Prop := Forall (fun P => ~ P o) Ps.

(** Walking a tree of states out of one that holds them. *)
Lemma walk_out sp Ps P rt (ct : range_tree unit) :
  holds sp P rt -> is_set no_owner (fun x => inside x /\ avoids Ps (sp x)) ct ->
  Forall (fun Q : ostate -> Prop => forall o, P o -> ~ Q o) Ps ->
  exists ct', range_tree_walk rt (range_tree_remove (zfs_recover e)) ct = Ret ct' /\
    is_set no_owner (fun x => inside x /\ avoids (P :: Ps) (sp x)) ct' /\ rt_ops ct' = rt_ops ct.
Proof using All.
  intros Hh Hct Hdis. destruct (set_walk_remove no_owner no_owner (zfs_recover e) rt ct _ _
    (fun x => inside x /\ avoids (P :: Ps) (sp x)) Hh Hct) as (ct' & -> & Hs & Hop); [| |eauto].
  - intros x [Hx HP]. split; [done|]. eapply Forall_impl; [exact Hdis|]. auto.
  - intros x. unfold avoids. rewrite Forall_cons. tauto.
Qed.

Ltac all_apart := repeat (apply Forall_cons; split; [unfold is_allocating, is_freeing; naive_solver lia|]); apply Forall_nil_2.

Lemma condense_tree_ok s pass sp ms tr :
  core0 s pass sp ms -> ms_trees ms = Some tr -> 0 < s -> s + 3 < 2 ^ 64 ->
  exists ct, condense_tree e ms tr s = Ret ct /\
    is_set no_owner (fun x => inside x /\ condensed s (sp x)) ct /\ rt_ops ct = None.
Proof using All.
  intros Hc Htr H0 Hs. pose proof (core_trees _ _ _ _ _ _ _ Hc) as (tr' & Htr' & Ht & _).
  rewrite Htr in Htr'. injection Htr' as <-. pose proof Ht as (_ & _ & Hf & Hd & (d0 & d1 & Hdf & D0 & D1) & _).
  destruct (allocating_ok e start size Hp s sp tr (s + 1) Ht) as (a1 & A1 & _ & H1); [lia|].
  destruct (allocating_ok e start size Hp s sp tr (s + 2) Ht) as (a2 & A2 & _ & H2); [lia|].
  pose proof Hp as (_ & P1 & P2 & P3 & _). assert (2 ^ 57 < 2 ^ 64) by (apply Z.pow_lt_mono_r; lia).
  unfold condense_tree. destruct set_create_plain as (ct0 & -> & S0 & O0). cbn [mbind result_bind].
  rewrite (core_start _ _ _ _ _ _ _ Hc), (core_size _ _ _ _ _ _ _ Hc).
  destruct (set_add no_owner (zfs_recover e) ct0 _ (fun x => inside x /\ avoids [] (sp x)) start size S0)
    as (ct1 & -> & S1 & _ & O1); auto; [lia| |]; cbn [mbind result_bind].
  { intros x. split; [intros [Hx _]; by right|intros [[]|Hx]; split; [done|constructor]]. }
  destruct (walk_out sp _ _ _ ct1 Hf S1) as (ct2 & -> & S2 & O2); [all_apart|]. cbn [mbind result_bind].
  destruct (walk_out sp _ _ _ ct2 Hd S2) as (ct3 & -> & S3 & O3); [all_apart|]. cbn [mbind result_bind].
  destruct (walk_out sp _ _ _ ct3 D0 S3) as (ct4 & W4 & S4 & O4); [all_apart|].
  destruct (walk_out sp _ _ _ ct4 D1 S4) as (ct5 & W5 & S5 & O5); [all_apart|].
  unfold walk_defer. change (Z.to_nat TXG_DEFER_SIZE) with 2%nat. cbn [for_loop]. unfold tree_at. rewrite Hdf.
  cbn [lookup list_lookup mbind result_bind]. rewrite W4. cbn [mbind result_bind]. rewrite W5. cbn [mbind result_bind].
  change (Z.to_nat (TXG_CONCURRENT_STATES - 1)) with 2%nat. cbn [for_loop].
  rewrite !add64_small by (unfold u64; lia). change (Z.of_nat 1) with 1. change (Z.of_nat 2) with 2.
  rewrite A1. cbn [mbind result_bind].
  destruct (walk_out sp _ _ _ ct5 H1 S5) as (ct6 & -> & S6 & O6); [all_apart|]. cbn [mbind result_bind].
  rewrite A2. cbn [mbind result_bind].
  destruct (walk_out sp _ _ _ ct6 H2 S6) as (ct7 & -> & S7 & O7); [all_apart|]. eexists; split; [done|].
  split; [|congruence]. eapply is_set_ext; [exact S7|]. intros x. pose proof (core_states _ _ _ _ _ _ _ Hc) as (_ & Hb & Hdf' & _).
  split; intros [Hx Ho]; (split; [done|]); unfold avoids in *; rewrite ?Forall_cons in *; unfold is_allocating, is_freeing in *.
  - destruct (sp x) as [|b []|[]| |i] eqn:E; cbn; auto; try solve [exfalso; intuition eauto].
    + specialize (Hb x b false Hx E). cbn in Hb. right. destruct Ho as (N2 & N1 & _).
      destruct (Z.eq_dec b (s + 1)) as [-> |]; [exfalso; apply N1; by left|].
      destruct (Z.eq_dec b (s + 2)) as [-> |]; [exfalso; apply N2; by left|]. lia.
    + specialize (Hdf' x i Hx E). destruct Ho as (_ & _ & N1 & N0 & _). destruct i as [|[|i]]; [done|done|lia].
  - destruct (sp x) as [|b []|[]| |i]; cbn in Ho; try done.
    all: split_and!; try apply Forall_nil_2; intuition (simplify_eq; try lia); destruct H3; congruence.
Qed.

(** Writing the free space of a metaslab that is marked as condensing. *)
Lemma sm_write_arg {S} c txg sm (rt : range_tree S) a t : sm_write e c txg sm (set_arg rt a) t = sm_write e c txg sm rt t.
Proof using All. reflexivity. Qed.

(** Only the marks of the condensing have changed. *)
Definition condense_marks (sel sel' : ms_selection) : Prop :=
  exists wanted checked, sel' = set_ms_condense_checked_txg (set_ms_condense_wanted sel wanted) checked.

Lemma condense_ok s pass sp ms sm c io :
  core0 s pass sp ms -> ms_loaded ms = true -> sm_ok sm -> truncate_object io <> 0 ->
  0 < s -> s + 3 < 2 ^ 64 -> 0 <= spa_sync_pass c ->
  exists sm', metaslab_condense e c io ms sm s =
      Ret (set_ms_sel ms (set_ms_condense_wanted (ms_sel ms) false), sm') /\ sm_ok sm' /\
    log_repr sm' (fun x => inside x /\ on_disk (sync_state s (sp x))).
Proof using All.
  intros Hc Hld Hok Hobj H0 Hs Hpass. pose proof (core_trees _ _ _ _ _ _ _ Hc) as (tr & Htr & Ht & _).
  unfold metaslab_condense. set (ms1 := set_ms_sel ms _).
  assert (core0 s pass sp ms1) as Hc1 by (by apply core0_sel). unfold trees. change (ms_trees ms1) with (ms_trees ms).
  rewrite Htr. cbn [mbind result_bind].
  destruct (condense_tree_ok s pass sp ms1 tr Hc1 Htr H0 Hs) as (ct & -> & Hct & Hop). cbn [mbind result_bind].
  destruct (truncate_ok (ibs_ok io) (truncate_object io) sm Hok Hobj) as (Hok1 & Hl1 & Ho1).
  set (sm1 := space_map_truncate _ _ _ _ _) in *. pose proof Hp as (_ & P1 & P2 & P3 & _).
  assert (2 * (48 * (2 ^ 57 + 1)) < 2 ^ 64) as Hroom by reflexivity.
  destruct (sm_write_ok no_owner s pass sp c s sm1 ct SM_ALLOC (condensed s) _
    (fun x => inside x /\ condensed s (sp x)) (core_states _ _ _ _ _ _ _ Hc) Hok1 Hl1 Hct Hpass ltac:(lia))
    as (sm2 & -> & Hl2 & _ & Hok2 & Ho2); [lia|intros x _ []|cbn; tauto|]. cbn [mbind result_bind].
  destruct (set_vacate no_owner ct _ Hct) as (ct' & -> & _ & Hz & Hop' & _). cbn [mbind result_bind].
  rewrite set_destroy_plain by congruence. cbn [mbind result_bind].
  destruct (core_free_tree e start size Hp s pass sp ms Hc Hld) as [_ Hfree].
  change (ms_allocatable (set_condensing ms1 true)) with
    (set_arg (ms_allocatable ms) (RtOwner (ms_allocatable_by_size (rt_arg (ms_allocatable ms))) true)).
  rewrite sm_write_arg.
  destruct (sm_write_ok mirrors s pass sp c s sm2 (ms_allocatable ms) SM_FREE (fun o => o = Free) _
    (fun x => inside x /\ on_disk (sync_state s (sp x))) (core_states _ _ _ _ _ _ _ Hc) Hok2 Hl2 Hfree Hpass ltac:(lia))
    as (sm3 & -> & Hl3 & _ & Hok3 & _).
  { lia. }
  { intros x [Hx ->]. done. }
  { intros x. cbn [change]. destruct (sp x) as [|b []|[]| |]; cbn; try solve [intuition congruence].
    destruct (Z.eqb_spec b s); cbn; intuition congruence. }
  cbn [mbind result_bind]. exists sm3. split; [|done]. do 2 f_equal.
  pose proof (not_condensing e start size Hp _ _ _ _ Hc) as Hnc.
  unfold set_condensing. cbn. unfold ms1. destruct ms as [? ? ? ? [? ? ? [? ?] ?]]; cbn in *. by subst.
Qed.

Lemma set_ms_sel_id ms : set_ms_sel ms (ms_sel ms) = ms.
Proof using All. by destruct ms. Qed.

Lemma should_condense_ok s pass sp ms sm c io :
  core0 s pass sp ms -> sm_ok sm ->
  exists sel b, metaslab_should_condense e c io ms sm = Ret (set_ms_sel ms sel, b) /\ condense_marks (ms_sel ms) sel.
Proof using All.
  intros Hc Hok. unfold metaslab_should_condense. cbn zeta. split_if.
  { exists (ms_sel ms), false. rewrite set_ms_sel_id. split; [done|].
    exists (ms_condense_wanted (ms_sel ms)), (ms_condense_checked_txg (ms_sel ms)). by destruct ms as [? ? ? ? ? ? ? ? ? ? ? ? ? []]. }
  assert (condense_marks (ms_sel ms) (set_ms_condense_checked_txg (ms_sel ms) (spa_syncing_txg c))) as Hm.
  { exists (ms_condense_wanted (ms_sel ms)), (spa_syncing_txg c). by destruct ms as [? ? ? ? ? ? ? ? ? ? ? ? ? []]. }
  destruct (_ || _); [by eexists _, true|].
  destruct (estimate_ok (sm_v2 e) (sm_force_some e) sm (ms_allocatable ms) SM_NO_VDEVID) as [r Hr];
    [|by eapply (core_histogram e start size Hp)|].
  { destruct Hok as (_ & _ & [-> _] & _). destruct Hp as (Ha & _). lia. }
  cbn [ms_allocatable set_ms_sel]. rewrite Hr. cbn [mbind result_bind]. by eexists _, _.
Qed.

Lemma marks_trans a b c : condense_marks a b -> condense_marks b c -> condense_marks a c.
Proof using All. intros (w1 & c1 & ->) (w2 & c2 & ->). by exists w2, c2. Qed.

Lemma is_freeing_iff o : is_freeing o <-> match o with Freeing _ => True | _ => False end.
Proof using All.
  split; [by intros [d ->]|]. destruct o; try done. eexists; done.
Qed.

Lemma on_disk_sync s o :
  on_disk (sync_state s o) <-> (on_disk o \/ is_allocating s s o) /\ ~ is_freeing o.
Proof using All.
  rewrite is_freeing_iff. unfold is_allocating.
  destruct o as [|b []|[]| |]; cbn; try tauto; try (intuition congruence).
  destruct (Z.eqb_spec b s) as [-> |]; cbn; intuition congruence.
Qed.

(** The log after the sync. *)
Lemma sync_log_ok s pass sp ms sm c io :
  core0 s pass sp ms -> ms_sm ms = Some sm -> truncate_object io <> 0 ->
  0 < s -> s + 3 < 2 ^ 64 -> 0 <= spa_sync_pass c -> smp_objsize sm + 96 * (size + 1) < 2 ^ 64 ->
  exists sel sm', sync_log e c io ms sm s = Ret (set_ms_sel ms sel, sm') /\ condense_marks (ms_sel ms) sel /\
    sm_ok sm' /\ log_repr sm' (fun x => inside x /\ on_disk (sync_state s (sp x))) /\
    (ms_loaded ms = false -> written sm sm').
Proof using All.
  intros Hc Hsm Hobj H0 Hs Hpass Hroom. pose proof (core_log _ _ _ _ _ _ _ Hc) as Hl. rewrite Hsm in Hl.
  destruct Hl as (Hok & Hl & _). unfold sync_log.
  assert (exists sel b, (if ms_loaded ms then metaslab_should_condense e c io ms sm else Ret (ms, false)) =
    Ret (set_ms_sel ms sel, b) /\ condense_marks (ms_sel ms) sel /\ (b = true -> ms_loaded ms = true)) as (sel & b & -> & Hm & Hb).
  { destruct (ms_loaded ms).
    - destruct (should_condense_ok s pass sp ms sm c io Hc Hok) as (sel & b & -> & Hm). by exists sel, b.
    - exists (ms_sel ms), false. rewrite set_ms_sel_id. split; [done|]. split; [|done].
      exists (ms_condense_wanted (ms_sel ms)), (ms_condense_checked_txg (ms_sel ms)). by destruct ms as [? ? ? ? ? ? ? ? ? ? ? ? ? []]. }
  cbn [mbind result_bind]. assert (core0 s pass sp (set_ms_sel ms sel)) as Hc1 by (by apply core0_sel).
  destruct b.
  { destruct (condense_ok s pass sp (set_ms_sel ms sel) sm c io Hc1 (Hb eq_refl) Hok Hobj H0 Hs Hpass) as (sm' & -> & Hok' & Hl').
    eexists _, sm'. split; [done|]. split; [|split; [done|]; split; [done|]; by rewrite (Hb eq_refl)].
    eapply marks_trans; [exact Hm|]. exists false, (ms_condense_checked_txg sel). by destruct sel. }
  pose proof (core_trees _ _ _ _ _ _ _ Hc1) as (tr & Htr & Ht & _). unfold trees. rewrite Htr. cbn [mbind result_bind].
  destruct (allocating_ok e start size Hp s sp tr s Ht) as (al & -> & _ & Hal); [lia|]. cbn [mbind result_bind].
  pose proof Ht as (_ & _ & Hf & _). pose proof Hp as (_ & P1 & P2 & P3 & _).
  destruct (sm_write_ok no_owner s pass sp c s sm al SM_ALLOC (is_allocating s s) _
    (fun x => inside x /\ (on_disk (sp x) \/ is_allocating s s (sp x))) (core_states _ _ _ _ _ _ _ Hc) Hok Hl Hal Hpass ltac:(lia))
    as (sm1 & -> & Hl1 & Hw1 & Hok1 & Ho1).
  { lia. }
  { intros x [_ Ha] [_ Hd]. destruct Ha as [E|[_ E]]; by rewrite E in Hd. }
  { intros x. cbn [change]. tauto. }
  cbn [mbind result_bind].
  destruct (sm_write_ok no_owner s pass sp c s sm1 (ms_freeing tr) SM_FREE is_freeing _
    (fun x => inside x /\ on_disk (sync_state s (sp x))) (core_states _ _ _ _ _ _ _ Hc) Hok1 Hl1 Hf Hpass ltac:(lia))
    as (sm2 & -> & Hl2 & Hw2 & Hok2 & Ho2).
  { lia. }
  { intros x [Hx [d E]]. split; [done|]. unfold is_allocating. rewrite E. destruct d; cbn; auto. }
  { intros x. cbn [change]. rewrite on_disk_sync. tauto. }
  cbn [mbind result_bind]. exists sel, sm2. split; [done|]. do 3 (split; [done|]). intros _. by eapply written_trans.
Qed.

(** ** The histogram *)

Lemma histogram_add_loop_ok rth shift : length rth = RANGE_TREE_HISTOGRAM_SIZE ->
  forall n i idx h, 0 <= i -> i + Z.of_nat n <= 64 -> (idx < 32)%nat -> length h = SPACE_MAP_HISTOGRAM_SIZE ->
  exists h', histogram_add_loop n shift rth i idx h = Ret h' /\ length h' = SPACE_MAP_HISTOGRAM_SIZE.
Proof using All.
  unfold RANGE_TREE_HISTOGRAM_SIZE, SPACE_MAP_HISTOGRAM_SIZE. intros Hr.
  induction n as [|n IH]; intros i idx h Hi Hn Hx Hh; cbn [histogram_add_loop]; [eauto|].
  destruct (lookup_lt_is_Some_2 rth (Z.to_nat i)) as [v Hv]; [lia|]. rewrite (rd_ok _ _ _ Hv).
  destruct (lookup_lt_is_Some_2 h idx) as [o Ho]; [lia|]. cbn [mbind result_bind]. rewrite (rd_ok _ _ _ Ho).
  cbn [mbind result_bind]. rewrite wr_ok by lia. cbn [mbind result_bind].
  apply IH; try lia; [|by rewrite length_insert]. unfold SPACE_MAP_HISTOGRAM_SIZE. destruct (Nat.ltb_spec idx (32 - 1)); lia.
Qed.

(** Maps that differ in the histogram. *)
Definition rehist (sm sm' : space_map) : Prop :=
  exists h, sm' = set_smp_histogram sm h /\ length h = SPACE_MAP_HISTOGRAM_SIZE.

Lemma rehist_trans a b c : rehist a b -> rehist b c -> rehist a c.
Proof using All. intros (h1 & -> & _) (h2 & -> & H). by exists h2. Qed.

Lemma rehist_ok sm sm' : sm_ok sm -> rehist sm sm' -> sm_ok sm'.
Proof using All. intros (H1 & H2 & [H3 H4] & H5 & H6 & H7) (h & -> & Hl). unfold MetaslabInv.sm_ok, sm_shape. by split_and!; try apply H7. Qed.

Lemma rehist_log sm sm' X :
  rehist sm sm' -> (log_repr sm X -> log_repr sm' X) /\ (log_repr (rollback sm) X -> log_repr (rollback sm') X).
Proof using All. intros (h & -> & _). split; intros Hl; by eapply log_repr_same. Qed.

Lemma histogram_add_ok {S} sm (rt : range_tree S) :
  sm_ok sm -> length (rt_histogram rt) = RANGE_TREE_HISTOGRAM_SIZE ->
  exists sm', space_map_histogram_add sm rt = Ret sm' /\ rehist sm sm'.
Proof using All.
  intros (_ & _ & [H3 H4] & H5 & H6 & _) Hr. unfold space_map_histogram_add.
  destruct (Z.eqb_spec (sm_object sm) 0); [done|]. rewrite H6, H3. cbn [negb verify mbind result_bind].
  pose proof Hp as (Ha & _).
  destruct (histogram_add_loop_ok (rt_histogram rt) (vdev_ashift e) Hr
    (Z.to_nat (Z.of_nat RANGE_TREE_HISTOGRAM_SIZE - vdev_ashift e)) (vdev_ashift e) 0 (smp_histogram sm))
    as (h & -> & Hl); [lia|unfold RANGE_TREE_HISTOGRAM_SIZE; lia|lia|done|].
  eexists. split; [done|]. by exists h.
Qed.

Lemma set_histogram_length {S} (I : list range_seg -> S -> Prop) Q (rt : range_tree S) :
  is_set I Q rt -> length (rt_histogram rt) = RANGE_TREE_HISTOGRAM_SIZE.
Proof using All. intros [(_ & _ & _ & Hh & _) _]. apply Hh. Qed.

Lemma sync_histogram_ok s pass sp ms tr sm :
  core0 s pass sp ms -> ms_trees ms = Some tr -> sm_ok sm ->
  exists sm', sync_histogram ms tr sm = Ret sm' /\ rehist sm sm'.
Proof using All.
  intros Hc Htr Hok. pose proof (core_trees _ _ _ _ _ _ _ Hc) as (tr' & Htr' & Ht & _). rewrite Htr in Htr'.
  injection Htr' as <-. pose proof Ht as (_ & _ & Hf & Hd & (d0 & d1 & Hdf & D0 & D1) & _). unfold sync_histogram.
  assert (exists sm1, (if ms_loaded ms then
      sm ← space_map_histogram_add (space_map_histogram_clear sm) (ms_allocatable ms);
      sm ← space_map_histogram_add sm (ms_freed tr);
      for_loop (Z.to_nat TXG_DEFER_SIZE) 0
        (fun t sm => d ← tree_at (ms_defer tr) t; space_map_histogram_add sm d) sm else Ret sm) = Ret sm1 /\
    rehist sm sm1) as (sm1 & -> & R1).
  { destruct (ms_loaded ms).
    2: { exists sm. split; [done|]. exists (smp_histogram sm). split; [by destruct sm|apply Hok]. }
    assert (rehist sm (space_map_histogram_clear sm)) as R0.
    { unfold space_map_histogram_clear. destruct Hok as (_ & _ & _ & _ & -> & _). eexists; split; [done|done]. }
    pose proof (rehist_ok _ _ Hok R0) as Hok0.
    destruct (histogram_add_ok _ (ms_allocatable ms) Hok0 (core_histogram e start size Hp _ _ _ _ Hc)) as (sm2 & -> & R2).
    pose proof (rehist_ok _ _ Hok0 R2) as Hok2. cbn [mbind result_bind].
    destruct (histogram_add_ok _ (ms_freed tr) Hok2 (set_histogram_length _ _ _ Hd)) as (sm3 & -> & R3).
    pose proof (rehist_ok _ _ Hok2 R3) as Hok3. cbn [mbind result_bind].
    change (Z.to_nat TXG_DEFER_SIZE) with 2%nat. cbn [for_loop]. unfold tree_at. rewrite Hdf. cbn [lookup list_lookup mbind result_bind].
    destruct (histogram_add_ok _ d0 Hok3 (set_histogram_length _ _ _ D0)) as (sm4 & -> & R4).
    pose proof (rehist_ok _ _ Hok3 R4) as Hok4. cbn [mbind result_bind].
    destruct (histogram_add_ok _ d1 Hok4 (set_histogram_length _ _ _ D1)) as (sm5 & -> & R5).
    cbn [mbind result_bind]. exists sm5. split; [done|]. eauto using rehist_trans. }
  cbn [mbind result_bind]. pose proof (rehist_ok _ _ Hok R1) as Hok1.
  destruct (histogram_add_ok _ (ms_freeing tr) Hok1 (set_histogram_length _ _ _ Hf)) as (sm2 & -> & R2).
  exists sm2. split; [done|]. by eapply rehist_trans.
Qed.

(** ** The trees *)

Lemma sync_freed s o : sync_state s o = Freed <-> o = Freed \/ is_freeing o.
Proof using All.
  rewrite is_freeing_iff. destruct o as [|b []|[]| |]; cbn; try (intuition congruence).
  destruct (b =? s); intuition congruence.
Qed.

Lemma sync_allocating s t o : s <= t -> is_allocating s t (sync_state s o) <-> is_allocating s t o /\ t <> s.
Proof using All.
  intros Ht. unfold is_allocating. destruct o as [|b []|[]| |]; cbn; try (intuition congruence).
  destruct (Z.eqb_spec b s); intuition congruence.
Qed.

Lemma sync_not_freeing s o : ~ is_freeing (sync_state s o).
Proof using All.
  rewrite is_freeing_iff. destruct o as [|b []|[]| |]; cbn; try tauto. destruct (b =? s); tauto.
Qed.

Lemma sync_deferred s o i : sync_state s o = Deferred i <-> o = Deferred i.
Proof using All. destruct o as [|b []|[]| |]; cbn; try done. destruct (b =? s); intuition congruence. Qed.

Lemma sync_trees_ok s pass sp ms tr c :
  ms_trees ms = Some tr -> trees_ok s sp tr -> states_ok e start size s pass sp ->
  spa_sync_pass c = pass + 1 -> 0 <= pass ->
  exists tr', sync_trees e c ms s = Ret (set_trees ms tr') /\ trees_ok s (fun x => sync_state s (sp x)) tr' /\
    ms_defer tr' = ms_defer tr.
Proof using All.
  intros Htr Ht Hst Hpass H0. pose proof Ht as (Hlen & Ha & Hf & Hd & (d0 & d1 & Hdf & D0 & D1) & Hck).
  set (sp' := fun x => sync_state s (sp x)). unfold sync_trees, trees. rewrite Htr. cbn [mbind result_bind].
  assert (exists fr fd, (if spa_sync_pass c =? 1 then range_tree_swap (ms_freeing tr) (ms_freed tr)
     else range_tree_vacate (ms_freeing tr) (Some (range_tree_add (zfs_recover e))) (ms_freed tr)) = Ret (fr, fd) /\
    holds sp' is_freeing fr /\ holds sp' (fun o => o = Freed) fd) as (fr & fd & -> & Hfr & Hfd).
  { rewrite Hpass. destruct (Z.eqb_spec (pass + 1) 1) as [E|E].
    - pose proof Hst as (_ & _ & _ & Hnf). specialize (Hnf ltac:(lia)).
      rewrite (set_swap no_owner (ms_freeing tr) _ _ Hd) by (intros x [Hx E']; by apply (Hnf x)).
      eexists _, _. split; [done|]. split; (eapply holds_ext; [exact Hp|eassumption|]); intros x Hx; unfold sp'.
      + split; [intros Hf'; by destruct (Hnf x Hx)|intros Hf'; by apply sync_not_freeing in Hf'].
      + rewrite sync_freed. split; [by right|]. intros [Hf'|?]; [by destruct (Hnf x Hx)|done].
    - destruct (set_vacate_into no_owner no_owner (zfs_recover e) (ms_freeing tr) (ms_freed tr) _ _ Hf Hd)
        as (fr & fd & -> & Hfr & _ & _ & _ & Hfd & _).
      { intros x [_ [d E1]] [_ E2]. congruence. }
      exists fr, fd. split; [done|]. split; (eapply is_set_ext; [eassumption|]); intros x; unfold sp'.
      + split; [done|]. intros [_ Hf']. by apply sync_not_freeing in Hf'.
      + rewrite sync_freed. cbn. tauto. }
  cbn [mbind result_bind]. destruct (Ha s ltac:(lia)) as (al & Hal & Hh).
  unfold allocating, tree_at. cbn [ms_allocating set_ms_freed set_ms_freeing]. rewrite Hal. cbn [mbind result_bind].
  destruct (set_vacate no_owner al _ Hh) as (al' & -> & Hal' & _). cbn [mbind result_bind].
  eexists. split; [done|]. split; [|done]. split; [cbn; by rewrite length_insert|]. split_and!; auto; cbn.
  - intros t Htt. destruct (decide (t = s)) as [-> |Hne].
    + exists al'. split; [apply list_lookup_insert_eq; rewrite Hlen; apply txg_slot_lt|].
      eapply is_set_ext; [exact Hal'|]. intros x. unfold sp'. rewrite sync_allocating by lia. tauto.
    + destruct (Ha t Htt) as (rt & Hrt & Hh'). exists rt. split.
      { rewrite list_lookup_insert_ne; [done|]. intros E. apply Hne. by apply (txg_slot_inj s); [| |symmetry]; try lia. }
      eapply holds_ext; [exact Hp|exact Hh'|]. intros x Hx. unfold sp'. rewrite sync_allocating by lia. tauto.
  - exists d0, d1. split; [done|]. split; (eapply holds_ext; [exact Hp|eassumption|]); intros x Hx; unfold sp'; by rewrite sync_deferred.
Qed.

(** ** The metaslab *)

Lemma sync_free s o : sync_state s o = Free <-> o = Free.
Proof using All. destruct o as [|b []|[]| |]; cbn; try done. destruct (b =? s); intuition congruence. Qed.

Lemma sync_live s o b : sync_state s o = Live b false -> o = Live b false /\ b <> s.
Proof using All.
  destruct o as [|b' []|[]| |]; cbn; try done. destruct (Z.eqb_spec b' s); intuition congruence.
Qed.

Lemma states_sync s pass pass' sp :
  states_ok e start size s pass sp -> pass' <> 0 -> states_ok e start size s pass' (fun x => sync_state s (sp x)).
Proof using All.
  intros (Hu & Hb & Hd & _) Hp'. split_and!.
  - intros x y Hx Hxy. by rewrite (Hu x y).
  - intros x b d Hx E. destruct d.
    + destruct (sp x) as [|b' []|[]| |] eqn:E'; cbn in E; simplify_eq; [by apply (Hb x b true)|].
      destruct (Z.eqb_spec b' s); simplify_eq. lia.
    + apply sync_live in E as [E _]. by apply (Hb x b false).
  - intros x i Hx E%sync_deferred. eauto.
  - done.
Qed.

(** The metaslab after a pass. *)
Lemma core_sync s pass sp ms sel sm tr :
  core0 s pass sp ms -> 0 <= pass -> (exists tr0, ms_trees ms = Some tr0 /\ ms_defer tr = ms_defer tr0) ->
  trees_ok s (fun x => sync_state s (sp x)) tr -> sm_ok sm ->
  log_repr sm (fun x => inside x /\ on_disk (sync_state s (sp x))) ->
  (ms_loaded ms = false -> sm_length sm <= smp_objsize sm /\
     log_repr (rollback sm) (fun x => inside x /\ (on_disk (sp x) \/ sp x = Freed))) ->
  core0 s (pass + 1) (fun x => sync_state s (sp x)) (set_trees (set_ms_sm (set_ms_sel ms sel) (Some sm)) tr).
Proof using All.
  intros Hc H0 (tr0 & Htr0 & Hdf) Ht Hok Hl Hr. constructor; try apply Hc.
  - eapply states_sync; [apply Hc|lia].
  - exists tr. split; [done|]. split; [done|]. pose proof (core_trees _ _ _ _ _ _ _ Hc) as (tr1 & Htr1 & _ & Hds).
    intros d0 d1 Hd. rewrite Htr0 in Htr1. injection Htr1 as <-. cbn. apply Hds. congruence.
  - pose proof (core_free _ _ _ _ _ _ _ Hc) as (Hwf & Hop & Hm). split; [done|]. split; [done|]. cbn.
    destruct (ms_loaded ms).
    + intros x. rewrite Hm, sync_free. done.
    + destruct Hm as [Hn Hno]. split; [done|]. intros x Hx. destruct (Hno x Hx) as [N1 N2]. split.
      * intros b [E _]%sync_live. by apply (N1 b).
      * intros E. apply (sync_not_freeing s (sp x)). rewrite E. eexists; done.
  - cbn. split; [done|]. split; [done|]. intros Hu. destruct (Hr Hu) as [Hle Hlog]. split; [done|].
    eapply log_repr_equiv; [exact Hlog|]. intros x.
    pose proof (core_free _ _ _ _ _ _ _ Hc) as (_ & _ & Hm). rewrite Hu in Hm. destruct Hm as [_ Hno].
    specialize (Hno x). rewrite on_disk_sync, sync_freed, is_freeing_iff. unfold is_allocating.
    destruct (sp x) as [|b []|[]| |]; cbn; split; intros [Hx H]; (split; [done|]); specialize (Hno Hx);
      destruct Hno as [N1 N2]; intuition congruence.
Qed.

Lemma sync_empty sp P rt : holds sp P rt -> range_tree_is_empty rt = true -> forall x, inside x -> ~ P (sp x).
Proof using All.
  intros Hh Hem x Hx HP. unfold range_tree_is_empty in Hem. apply Z.eqb_eq in Hem.
  by apply (proj1 (set_empty no_owner rt _ Hh) Hem x).
Qed.

(** The invariant looks at the states of the metaslab's own bytes. *)
Lemma core0_ext s pass pass' sp sp' ms :
  core0 s pass sp ms -> (forall x, inside x -> sp' x = sp x) -> (pass' = 0 -> pass = 0) -> core0 s pass' sp' ms.
Proof using All.
  intros Hc Heq Hp'. assert (forall P rt, holds sp P rt -> holds sp' P rt) as Hh.
  { intros P rt H. eapply holds_ext; [exact Hp|exact H|]. intros x Hx. by rewrite (Heq x Hx). }
  constructor; try apply Hc.
  - pose proof (core_states _ _ _ _ _ _ _ Hc) as (Hu & Hb & Hd & Hf). split_and!.
    + intros x y Hx Hxy. rewrite !Heq; auto. by apply (inside_unit e start size Hp x).
    + intros x b d Hx. rewrite Heq by done. by apply Hb.
    + intros x i Hx. rewrite Heq by done. by apply Hd.
    + intros E x Hx. rewrite Heq by done. apply Hf; auto.
  - pose proof (core_trees _ _ _ _ _ _ _ Hc) as (tr & Htr & (Hl & Ha & Hf & Hd & (d0 & d1 & Hdf & D0 & D1) & Hck) & Hds).
    exists tr. split; [done|]. split; [|done]. split; [done|]. split_and!; auto.
    + intros t Ht. destruct (Ha t Ht) as (rt & Hrt & H). eauto.
    + exists d0, d1. auto.
  - pose proof (core_free _ _ _ _ _ _ _ Hc) as (Hwf & Hop & Hm). split; [done|]. split; [done|].
    destruct (ms_loaded ms).
    + intros x. rewrite Hm. split; intros [Hx E]; (split; [done|]); by rewrite Heq in *.
    + destruct Hm as [Hn Hno]. split; [done|]. intros x Hx. rewrite Heq by done. auto.
  - pose proof (core_log _ _ _ _ _ _ _ Hc) as Hl. destruct (ms_sm ms) as [sm|].
    + destruct Hl as (Hok & Hl & Hr). split; [done|]. split; [|intros Hu; destruct (Hr Hu) as [? Hr']; split; [done|]];
        (eapply log_repr_equiv; [eassumption|]); intros x; split; intros [Hx Hon]; (split; [done|]); by rewrite Heq in *.
    + intros x Hx. rewrite Heq by done. auto.
Qed.

(** What [metaslab_sync] is called with. *)
Definition sync_args (s pass : Z) (c : sync_ctx) (io : sync_io) (ms : metaslab) : Prop :=
  0 < s /\ s + 3 < 2 ^ 63 /\ 0 <= pass /\ spa_syncing_txg c = s /\ spa_sync_pass c = pass + 1 /\
  s <= spa_final_dirty_txg c /\ new_object io <> 0 /\ truncate_object io <> 0 /\
  forall sm, ms_sm ms = Some sm -> smp_objsize sm + 96 * (size + 1) < 2 ^ 64.

(** The space map, made when there is none. *)
Lemma open_sm_ok s pass sp w c io :
  winv0 e start size s pass sp w -> sync_args s pass c io (w_ms w) ->
  exists sm, match ms_sm (w_ms w) with
      | Some sm => Ret sm
      | None => _ ← verify (negb (new_object io =? 0));
          Ret (space_map_open (space_map_alloc (sm_hist e) (new_object io) (zfs_metaslab_sm_blksz e))
                 (ms_start (w_ms w)) (ms_size (w_ms w)) (vdev_ashift e))
      end = Ret sm /\ winv0 e start size s pass sp (set_w_ms w (set_ms_sm (w_ms w) (Some sm))) /\
    smp_objsize sm + 96 * (size + 1) < 2 ^ 64.
Proof using All.
  intros Hw (_ & _ & _ & _ & _ & _ & Hno & _ & Hroom). pose proof (winv_core0 _ _ _ _ _ _ _ Hw) as Hc.
  destruct (ms_sm (w_ms w)) as [sm|] eqn:Hsm.
  { exists sm. split; [done|]. split; [|auto]. rewrite <- Hsm. by destruct w as [[] ? ? ? ?]. }
  rewrite (core_start _ _ _ _ _ _ _ Hc), (core_size _ _ _ _ _ _ _ Hc).
  destruct (Z.eqb_spec (new_object io) 0); [done|]. cbn [negb verify mbind result_bind].
  eexists. split; [done|]. destruct (fresh_sm_ok (new_object io) Hno) as (Hok & Hl & Hr).
  set (sm := space_map_open _ _ _ _) in *. split.
  2: { cbn. pose proof Hp as (_ & P1 & P2 & P3 & _). assert (96 * (2 ^ 57 + 1) < 2 ^ 64) by reflexivity. lia. }
  destruct Hw. constructor; try done. cbn [w_ms set_w_ms]. constructor; try apply Hc. cbn.
  pose proof (core_log _ _ _ _ _ _ _ Hc) as Hlog. rewrite Hsm in Hlog.
  assert (forall x, inside x -> ~ on_disk (sp x) /\ sp x <> Freed) as Hnd.
  { intros x Hx. destruct (Hlog x Hx) as [-> |[[b ->]| ->]]; cbn; auto. }
  split; [done|]. split; [|intros _; split; [done|]]; (eapply log_repr_equiv; [eassumption|]); intros x; split;
    try done; intros [Hx H]; destruct (Hnd x Hx); tauto.
Qed.

Lemma winv0_hist op s pass sp w :
  winv0 e start size s pass sp w ->
  exists w', group_histograms op e w = Ret w' /\ winv0 e start size s pass sp w' /\ w_ms w' = w_ms w /\
    w_st w' = w_st w /\ w_ck w' = w_ck w /\ w_ms_array w' = w_ms_array w.
Proof using All.
  intros Hw. pose proof Hp as (Hash & _). pose proof (winv_core0 _ _ _ _ _ _ _ Hw) as Hc.
  destruct (group_histograms_ok e Hash op w (winv_group _ _ _ _ _ _ _ Hw)) as (w' & -> & Hg & E1 & E2 & E3 & E4 & Hsl).
  { intros sm Hsm. pose proof (core_log _ _ _ _ _ _ _ Hc) as Hl. rewrite Hsm in Hl. apply Hl. }
  exists w'. split; [done|]. split; [|done]. destruct Hw. constructor; rewrite ?E1; auto.
  - apply (owner_same w); auto; by rewrite E1.
  - pose proof (Hsl true) as Ht. pose proof (Hsl false) as Hf. cbn in *. congruence.
Qed.

Lemma checkpoint_empty s pass sp ms tr :
  core0 s pass sp ms -> ms_trees ms = Some tr -> range_tree_is_empty (ms_checkpointing tr) = true.
Proof using All.
  intros Hc Htr. pose proof (core_trees _ _ _ _ _ _ _ Hc) as (tr' & Htr' & (_ & _ & _ & _ & _ & Hck) & _).
  rewrite Htr in Htr'. injection Htr' as <-. apply Z.eqb_eq, (set_empty no_owner _ _ Hck). by intros x [_ []].
Qed.

Lemma marks_keep sel sel' : condense_marks sel sel' ->
  ms_weight sel' = ms_weight sel /\ ms_allocator sel' = ms_allocator sel /\ ms_primary sel' = ms_primary sel /\
  ms_selected_txg sel' = ms_selected_txg sel.
Proof using All. by intros (? & ? & ->). Qed.

(** From the log to the end: the last part of [metaslab_sync]. *)
Lemma sync_finish_ok s pass sp w sm sel c io :
  winv0 e start size s pass sp w -> sync_args s pass c io (w_ms w) -> ms_sm (w_ms w) <> None ->
  condense_marks (ms_sel (w_ms w)) sel -> sm_ok sm ->
  log_repr sm (fun x => inside x /\ on_disk (sync_state s (sp x))) ->
  (ms_loaded (w_ms w) = false -> sm_length sm <= smp_objsize sm /\
     log_repr (rollback sm) (fun x => inside x /\ (on_disk (sp x) \/ sp x = Freed))) ->
  exists w', (w ← sync_checkpointing e c (set_w_ms w (set_ms_sel (w_ms w) sel)) s;
      tr ← trees (w_ms w);
      sm ← sync_histogram (w_ms w) tr sm;
      w ← metaslab_group_histogram_add e (set_w_ms w (set_ms_sm (w_ms w) (Some sm)));
      ms ← sync_trees e c (w_ms w) s; Ret (set_w_ms w ms)) = Ret w' /\
    winv0 e start size s (pass + 1) (fun x => sync_state s (sp x)) w' /\
    ms_txg_node (w_ms w') = ms_txg_node (w_ms w) /\ w_st w' = w_st w.
Proof using All.
  intros Hw (H0 & H1 & H2 & H3 & H4 & _) Hns Hmarks Hok Hl Hr. pose proof (winv_core0 _ _ _ _ _ _ _ Hw) as Hc.
  set (ms1 := set_ms_sel (w_ms w) sel). assert (core0 s pass sp ms1) as Hc1 by (by apply core0_sel).
  pose proof (core_trees _ _ _ _ _ _ _ Hc) as (tr & Htr & Ht & _).
  unfold sync_checkpointing, trees. cbn [w_ms set_w_ms]. change (ms_trees ms1) with (ms_trees (w_ms w)). rewrite Htr.
  cbn [mbind result_bind]. rewrite (checkpoint_empty s pass sp (w_ms w) tr Hc Htr). cbn [mbind result_bind w_ms set_w_ms].
  change (ms_trees ms1) with (ms_trees (w_ms w)). rewrite Htr. cbn [mbind result_bind].
  destruct (sync_histogram_ok s pass sp ms1 tr sm Hc1 Htr Hok) as (sm2 & -> & R2). cbn [mbind result_bind].
  pose proof (rehist_ok _ _ Hok R2) as Hok2. destruct (rehist_log _ _ (fun x => inside x /\ on_disk (sync_state s (sp x))) R2) as [Hl2 _].
  destruct (rehist_log _ _ (fun x => inside x /\ (on_disk (sp x) \/ sp x = Freed)) R2) as [_ Hr2].
  set (w3 := set_w_ms (set_w_ms w ms1) (set_ms_sm ms1 (Some sm2))).
  pose proof (marks_keep _ _ Hmarks) as (M1 & M2 & M3 & M4). destruct Hw as [_ Hg Ho Hsl Ha Hse].
  assert (group_ok w3) as Hg3.
  { destruct Hg as ((Hwf & ks & Hel & Hks & Hnd) & Hh1 & Hh2 & Hslot). split_and!; auto.
    - split; [done|]. exists ks. unfold key in *. cbn. by rewrite M1, M2, M3.
    - unfold slot_ok in *. cbn. by rewrite M2, M3. }
  pose proof Hp as (Hash & _).
  destruct (group_histograms_ok e Hash add64 w3 Hg3) as (w4 & Hgh & Hg4 & E1 & E2 & E3 & E4 & Hsl4).
  { intros sm' [= <-]. apply Hok2. }
  unfold metaslab_group_histogram_add. rewrite Hgh. cbn [mbind result_bind]. rewrite E1.
  destruct (sync_trees_ok s pass sp (w_ms w3) tr c Htr Ht (core_states _ _ _ _ _ _ _ Hc) H4 H2) as (tr' & -> & Ht' & Hdf').
  cbn [mbind result_bind]. eexists. split; [done|]. split; [|split; [done|exact E2]].
  constructor; cbn [w_ms set_w_ms w_mg].
  - eapply core_sync; eauto. intros Hu. destruct (Hr Hu) as [Hle Hlog]. split; [|auto]. by destruct R2 as (h & -> & _).
  - destruct Hg4 as ((Hwf & ks & Hel & Hks & Hnd) & Hh1 & Hh2 & Hslot). rewrite E1 in Hel, Hks, Hslot.
    split; [split; [done|]; by exists ks|done].
  - apply (owner_same w); auto.
  - pose proof (Hsl4 true) as Hst. pose proof (Hsl4 false) as Hsf. cbn in Hst, Hsf. cbn. congruence.
  - destruct Ha as [Ha1 Ha2]. unfold active_ok. cbn. rewrite M1, M2. done.
  - destruct Hse as [Hb1 Hb2]. unfold selected_ok. cbn. rewrite M4. split; [done|].
    intros x b Hx [E _]%sync_live Hne. eauto.
Qed.

(** A pass of [metaslab_sync]. *)
Lemma metaslab_sync_ok s pass sp w c io :
  winv0 e start size s pass sp w -> sync_args s pass c io (w_ms w) ->
  exists w', metaslab_sync e c io w s = Ret w' /\
    winv0 e start size s (pass + 1) (fun x => sync_state s (sp x)) w' /\
    ms_txg_node (w_ms w') = ms_txg_node (w_ms w) /\ w_st w' = w_st w.
Proof using All.
  intros Hw Hargs. pose proof Hargs as (H0 & H1 & H2 & H3 & H4 & H5 & Hno & Htr0 & _).
  pose proof (winv_core0 _ _ _ _ _ _ _ Hw) as Hc. pose proof (core_trees _ _ _ _ _ _ _ Hc) as (tr & Htr & Ht & _).
  unfold metaslab_sync. rewrite Htr. destruct (allocating_ok e start size Hp s sp tr s Ht) as (al & -> & _ & Hal); [lia|].
  cbn [mbind result_bind]. pose proof Ht as (_ & _ & Hf & _).
  destruct (_ && _ && _ && _) eqn:Hem.
  { exists w. split; [done|]. split; [|done]. apply andb_true_iff in Hem as [[[E1 E2]%andb_true_iff _]%andb_true_iff _].
    assert (forall x, inside x -> sync_state s (sp x) = sp x) as Heq.
    { intros x Hx. pose proof (sync_empty sp _ _ Hal E1 x Hx) as N1. pose proof (sync_empty sp _ _ Hf E2 x Hx) as N2.
      unfold is_allocating in N1. rewrite is_freeing_iff in N2. destruct (sp x) as [|b []|[]| |]; cbn; try done.
      destruct (Z.eqb_spec b s); [|done]. subst. exfalso. auto. }
    pose proof (winv_selected _ _ _ _ _ _ _ Hw) as [Hb1 Hb2].
    destruct Hw as [? ? ? ? ? _]. constructor; auto; [eapply core0_ext; eauto; lia|].
    split; [done|]. intros x b Hx. rewrite Heq by done. eauto. }
  destruct (Z.leb_spec s (spa_final_dirty_txg c)); [|lia]. cbn [verify mbind result_bind].
  destruct (open_sm_ok s pass sp w c io Hw Hargs) as (sm & -> & Hw1 & Hroom). cbn [mbind result_bind].
  set (w1 := set_w_ms w _) in *.
  assert (open_checkpoint_sm e io w1 tr = Ret w1) as ->.
  { unfold open_checkpoint_sm. rewrite (checkpoint_empty s pass sp (w_ms w) tr Hc Htr). by destruct (vdev_checkpoint_sm _). }
  cbn [mbind result_bind]. unfold metaslab_group_histogram_remove.
  destruct (winv0_hist sub64 s pass sp w1 Hw1) as (w2 & -> & Hw2 & E2 & F2 & G2 & A2). cbn [mbind result_bind].
  pose proof (winv_core0 _ _ _ _ _ _ _ Hw2) as Hc2.
  assert (ms_sm (w_ms w2) = Some sm) as Hsm2 by (by rewrite E2).
  destruct (sync_log_ok s pass sp (w_ms w2) sm c io Hc2 Hsm2 Htr0 H0 ltac:(lia) ltac:(lia) Hroom)
    as (sel & sm' & -> & Hmarks & Hok' & Hl' & Hwr). cbn [mbind result_bind].
  destruct (sync_finish_ok s pass sp w2 sm' sel c io Hw2) as (w' & Hfin & Hw' & Hnode & Hst); auto.
  { do 8 (split; [done|]). intros sm0 E. rewrite Hsm2 in E. injection E as <-. done. }
  { by rewrite Hsm2. }
  { intros Hu. pose proof (core_log _ _ _ _ _ _ _ Hc2) as Hlog. rewrite Hsm2 in Hlog. destruct Hlog as (_ & _ & Hr).
    destruct (Hr Hu) as [Hle Hrr]. apply (rollback_written sm); auto. }
  revert Hfin. destruct (sync_checkpointing _ _ _ _) as [w3|]; cbn [mbind result_bind]; [|done].
  destruct (trees (w_ms w3)) as [tr3|]; cbn [mbind result_bind]; [|done].
  destruct (sync_histogram _ _ _) as [sm3|]; cbn [mbind result_bind]; [|done].
  destruct (metaslab_group_histogram_add _ _) as [w4|]; cbn [mbind result_bind]; [|done].
  destruct (sync_trees _ _ _ _) as [ms5|]; cbn [mbind result_bind]; [|done]. intros [= <-].
  eexists. split; [done|]. rewrite E2 in Hnode. split; [|split_if; (split; [exact Hnode|etransitivity; [exact Hst|exact F2]])].
  split_if; [done|]. destruct Hw'. by constructor.
Qed.

(** ** The list of dirty metaslabs *)

Lemma is_dirty_unset ms t t' :
  length (ms_txg_node ms) = 4%nat ->
  is_dirty (txg_list_remove ms t) t' = true <-> is_dirty ms t' = true /\ txg_slot t' <> txg_slot t.
Proof using All.
  intros Hl. pose proof (txg_slot_lt t) as Ht. unfold is_dirty, txg_list_remove; cbn.
  destruct (decide (txg_slot t = txg_slot t')) as [<- |Hne].
  - rewrite list_lookup_insert_eq by lia. cbn. intuition congruence.
  - rewrite list_lookup_insert_ne by done. intuition congruence.
Qed.

Lemma clean_slot s : 0 < s -> s < 2 ^ 63 ->
  TXG_CLEAN s = s - 1 /\ txg_slot (s - 1) <> txg_slot s /\ forall t, s < t <= s + 2 -> txg_slot t <> txg_slot s.
Proof using All.
  intros H0 H1. split; [apply sub64_small; unfold u64; lia|]. split.
  - rewrite <- txg_slot_clean. intros E. apply (txg_slot_inj s) in E; lia.
  - intros t Ht E. apply (txg_slot_inj s) in E; lia.
Qed.

Lemma sync_idle s sp ms :
  dirty_ok start size s sp ms -> is_dirty ms s = false -> forall x, inside x -> sync_state s (sp x) = sp x.
Proof using All.
  intros [_ Hd] Hnd x Hx. specialize (Hd x Hx). destruct (sp x) as [|b []|[]| |]; cbn; try congruence.
  destruct (Z.eqb_spec b s); congruence.
Qed.

(** A pass of [vdev_sync], for this metaslab. *)
Lemma vdev_sync_ok s pass sp w c io :
  winv e start size s pass sp w -> sync_args s pass c io (w_ms w) ->
  exists w', vdev_sync e c io w s = Ret w' /\
    winv e start size s (pass + 1) (fun x => sync_state s (sp x)) w' /\ is_dirty (w_ms w') s = false /\
    w_st w' = w_st w.
Proof using All.
  intros [Hw Hd] Hargs. pose proof Hargs as (H0 & H1 & H2 & _). unfold vdev_sync.
  pose proof Hd as [Hl Hd']. destruct (clean_slot s) as (Hcl & Hs1 & Hs2); [lia..|].
  destruct (is_dirty (w_ms w) s) eqn:Edirty.
  - set (w0 := set_w_ms w (txg_list_remove (w_ms w) s)).
    assert (winv0 e start size s pass sp w0) as Hw0.
    { destruct Hw as [[] ? ? ? ? ?]. by constructor. }
    destruct (metaslab_sync_ok s pass sp w0 c io Hw0 Hargs) as (w' & -> & Hw' & Hnode & Hst). cbn [mbind result_bind].
    rewrite Hcl. eexists. split; [done|].
    assert (forall t, is_dirty (vdev_dirty (w_ms w') (s - 1)) t = true <->
      is_dirty (w_ms w) t = true /\ txg_slot t <> txg_slot s \/ txg_slot t = txg_slot (s - 1)) as Hiff.
    { intros t. rewrite is_dirty_set by (rewrite Hnode; cbn; by rewrite length_insert).
      rewrite <- is_dirty_unset by done. unfold is_dirty at 1. rewrite Hnode. done. }
    split; [split|split; [|done]].
    + destruct Hw' as [[] ? ? ? ? ?]. by constructor.
    + split; [cbn; by rewrite length_insert, Hnode; cbn; rewrite length_insert|]. intros x Hx. cbn [w_ms set_w_ms].
      specialize (Hd' x Hx). pose proof (core_states _ _ _ _ _ _ _ (winv_core0 _ _ _ _ _ _ _ Hw)) as (_ & Hb & _).
      specialize (Hb x). destruct (sp x) as [|b []|[]| |]; cbn; try done.
      * specialize (Hb b false Hx eq_refl). cbn in Hb. destruct (Z.eqb_spec b s); [done|]. apply Hiff. left. split; [done|].
        apply Hs2. lia.
      * apply Hiff. by right.
      * apply Hiff. by right.
      * apply Hiff. by right.
      * right. apply Hiff. by right.
    + apply not_true_iff_false. cbn [w_ms set_w_ms]. rewrite Hiff. intros [[_ ?]|?]; congruence.
  - exists w. split; [done|]. split; [|done]. pose proof (sync_idle s sp _ Hd Edirty) as Heq. split.
    + pose proof (winv_selected _ _ _ _ _ _ _ Hw) as [Hb1 Hb2]. destruct Hw as [? ? ? ? ? _].
      constructor; auto; [eapply core0_ext; eauto; lia|]. split; [done|]. intros x b Hx. rewrite Heq by done. eauto.
    + split; [done|]. intros x Hx. rewrite (Heq x Hx). exact (proj2 Hd x Hx).
Qed.
End Sync.
