(* ===== verification/MetaslabDone.v ===== *)
(** * Metaslabs: the end of a transaction group

    [metaslab_sync_done] makes the frees of two txgs before available, defers
    those of the txg, and unloads a metaslab that is not in use; the states of
    [MetaslabInv] change as [done_state] says, and the next txg is the one
    being synced. *)

From S2P Require Import Prelude TxgData Avl RangeTree RangeSet SpaceMap SpaceMapLog MetaslabAlloc MetaslabData.
From S2P Require Import MetaslabWeight MetaslabGroup Metaslab MetaslabInv MetaslabSteps MetaslabWorld MetaslabSync.

Lemma defer_slot_lt s : (defer_slot s < 2)%nat.
Proof. destruct (defer_slot_cases s) as [-> | ->]; lia. Qed.

Section Done.
Context (e : env) (start size : Z) (Hp : place_ok e start size) (Hcf : config_ok e).
Notation inside := (inside start size).
Notation core0 := (core0 e start size).
Notation holds := (holds start size).
Notation trees_ok := (trees_ok start size).
Notation sm_ok := (sm_ok e start size).

(** A metaslab of which nothing is left to sync in [s]. *)
Record settled (s : Z) (sp : Z -> ostate) (ms : metaslab) : Prop := Settled {
  settled_start : ms_start ms = start;
  settled_size : ms_size ms = size;
  settled_idle : ms_initializing ms = 0;
  settled_lbas : length (ms_lbas ms) = MAX_LBAS;
  settled_units : forall x y, inside x -> x / unit_bytes e = y / unit_bytes e -> sp x = sp y;
  settled_births : forall x b d, inside x -> sp x = Live b d -> if d then b <= s else s + 1 <= b <= s + 2;
  settled_defer : forall x i, inside x -> sp x = Deferred i -> (i < 2)%nat;
  settled_freeing : forall x d, inside x -> sp x <> Freeing d;
  settled_trees : exists tr, ms_trees ms = Some tr /\ trees_ok s sp tr /\
    forall d0 d1, ms_defer tr = [d0; d1] -> ms_deferspace ms = rt_space d0 + rt_space d1;
  settled_free : free_ok start size sp (ms_loaded ms) (ms_allocatable ms);
  settled_log : log_ok e start size sp true (ms_sm ms) }.

Lemma core_settled s pass sp ms :
  core0 s pass sp ms -> dirty_ok start size s sp ms -> is_dirty ms s = false -> settled s sp ms.
Proof using All.
  intros Hc [_ Hd] Hnd. pose proof (core_states _ _ _ _ _ _ _ Hc) as (Hu & Hb & Hdf & _).
  constructor; try apply Hc; auto.
  - intros x b d Hx E. specialize (Hb x b d Hx E). destruct d; [done|]. specialize (Hd x Hx). rewrite E in Hd.
    destruct (Z.eq_dec b s) as [-> |]; [congruence|lia].
  - intros x d Hx E. specialize (Hd x Hx). rewrite E in Hd. congruence.
  - pose proof (core_log _ _ _ _ _ _ _ Hc) as Hl. destruct (ms_sm ms); [|done]. destruct Hl as (? & ? & _). by split_and!.
Qed.

(** ** The deferred frees *)

Section Rotate.
Context (s : Z) (sp : Z -> ostate) (defer : bool).
Notation sp' := (fun x => done_state s defer (sp x)).

Lemma done_live o b d : done_state s defer o = Live b d <-> o = Live b d.
Proof using All. destruct o; cbn; try done; split_if; intuition congruence. Qed.

Lemma done_not_freed o : done_state s defer o <> Freed.
Proof using All. destruct o; cbn; try done; split_if; done. Qed.

Lemma done_freeing o d : done_state s defer o = Freeing d <-> o = Freeing d.
Proof using All. destruct o; cbn; try done; split_if; intuition congruence. Qed.

Lemma done_free o :
  done_state s defer o = Free <-> o = Free \/ o = Deferred (defer_slot s) \/ (defer = false /\ o = Freed).
Proof using All.
  destruct o; cbn; try (intuition congruence).
  - destruct defer; intuition congruence.
  - destruct (Nat.eqb_spec i (defer_slot s)); intuition congruence.
Qed.

Lemma done_deferred o i :
  done_state s defer o = Deferred i <->
    o = Deferred i /\ i <> defer_slot s \/ defer = true /\ o = Freed /\ i = defer_slot s.
Proof using All.
  destruct o as [|b d|d| |j]; cbn; try (intuition congruence).
  - destruct defer; intuition congruence.
  - destruct (Nat.eqb_spec j (defer_slot s)); intuition congruence.
Qed.

Lemma done_on_disk o : on_disk (done_state s defer o) <-> on_disk o.
Proof using All. destruct o; cbn; try done; split_if; done. Qed.

Lemma vacate_to_free_ok ms src P F :
  holds sp P src -> (forall o, P o -> ~ F o) ->
  (ms_loaded ms = true -> is_set mirrors (fun x => inside x /\ F (sp x)) (ms_allocatable ms)) ->
  exists src' rt, vacate_to_free e ms src = Ret (src', set_ms_allocatable ms rt) /\
    is_set no_owner (fun _ => False) src' /\ rt_space src' = 0 /\ rt_ops rt = rt_ops (ms_allocatable ms) /\
    if ms_loaded ms then is_set mirrors (fun x => inside x /\ (F (sp x) \/ P (sp x))) rt else rt = ms_allocatable ms.
Proof using All.
  intros Hsrc Hdis Hfree. unfold vacate_to_free. destruct (ms_loaded ms) eqn:Hld.
  - destruct (set_vacate_into no_owner mirrors (zfs_recover e) src (ms_allocatable ms) _ _ Hsrc (Hfree eq_refl))
      as (src' & rt & -> & Hs' & Hz & _ & _ & Hrt & _ & Hop).
    { intros x [_ HP] [_ HF]. by apply (Hdis (sp x)). }
    cbn [mbind result_bind]. exists src', rt. do 4 (split; [done|]).
    eapply is_set_ext; [exact Hrt|]. intros x. cbn. tauto.
  - destruct (set_vacate_any no_owner src _ (ms_allocatable ms) Hsrc) as (src' & -> & Hs' & Hz & _ & _).
    cbn [mbind result_bind]. by exists src', (ms_allocatable ms).
Qed.

(** The trees of the deferred frees, one by one. *)
Definition deferred_ok (q : Z -> ostate) (l : list (range_tree unit)) : Prop :=
  length l = 2%nat /\ forall i, (i < 2)%nat -> exists d, l !! i = Some d /\ holds q (fun o => o = Deferred i) d.

Lemma deferred_iff q l :
  deferred_ok q l <-> exists d0 d1, l = [d0; d1] /\ holds q (fun o => o = Deferred 0) d0 /\ holds q (fun o => o = Deferred 1) d1.
Proof using All.
  split.
  - intros [Hl Hi]. destruct l as [|d0 [|d1 []]]; try done. exists d0, d1. split; [done|].
    destruct (Hi 0%nat) as (? & [= <-] & ?); [lia|]. destruct (Hi 1%nat) as (? & [= <-] & ?); [lia|]. done.
  - intros (d0 & d1 & -> & H0 & H1). split; [done|]. intros [|[|i]] Hi; [by exists d0|by exists d1|lia].
Qed.

Lemma deferred_set l d :
  deferred_ok sp l -> holds sp' (fun o => o = Deferred (defer_slot s)) d -> deferred_ok sp' (<[defer_slot s := d]> l).
Proof using All.
  intros [Hl Hi] Hd. split; [by rewrite length_insert|]. intros i Hlt. destruct (decide (i = defer_slot s)) as [-> |Hne].
  - exists d. split; [|done]. apply list_lookup_insert_eq. lia.
  - destruct (Hi i Hlt) as (d' & Hd' & Hh). exists d'. rewrite list_lookup_insert_ne by done. split; [done|].
    eapply holds_ext; [exact Hp|exact Hh|]. intros x _. rewrite done_deferred. intuition congruence.
Qed.

(** The trees of the next txg. *)
Lemma trees_done ms tr freed defers :
  settled s sp ms -> trees_ok s sp tr -> is_set no_owner (fun _ => False) freed -> deferred_ok sp' defers ->
  trees_ok (s + 1) sp' (set_ms_defer (set_ms_freed tr freed) defers).
Proof using All.
  intros Hset (Hl & Ha & Hf & _ & _ & Hck) Hfd Hdf. split; [done|]. split_and!.
  - intros t Ht. cbn. assert (exists u, s <= u <= s + 3 /\ txg_slot u = txg_slot t /\ (u = t \/ u = s /\ t = s + 4)) as (u & Hu & Hut & Hcase).
    { destruct (Z.eq_dec t (s + 4)) as [-> |]; [exists s|exists t]; split_and!; auto; try lia.
      rewrite !txg_slot_mod. f_equal. eucl. }
    destruct (Ha u Hu) as (rt & Hrt & Hh). exists rt. rewrite <- Hut. split; [done|].
    eapply holds_ext; [exact Hp|exact Hh|]. intros x Hx. unfold is_allocating. rewrite done_live, done_freeing.
    pose proof (settled_births _ _ _ Hset x) as Hb. pose proof (settled_freeing _ _ _ Hset x false Hx) as Hnf.
    destruct Hcase as [-> |[-> ->]]; [intuition congruence|].
    split; [intros [E|[_ ?]]; [|done]|intros [E|[_ ?]]; [|done]]; specialize (Hb _ _ Hx E); cbn in Hb; lia.
  - eapply holds_ext; [exact Hp|exact Hf|]. intros x Hx. unfold is_freeing. by setoid_rewrite done_freeing.
  - eapply is_set_ext; [exact Hfd|]. intros x. split; [done|]. intros [_ E]. by apply done_not_freed in E.
  - by apply deferred_iff.
  - eapply holds_ext; [exact Hp|exact Hck|]. done.
Qed.
End Rotate.

Lemma space_small sp P rt : holds sp P rt -> 0 <= rt_space rt <= 2 ^ 57.
Proof using All.
  intros H. pose proof (counted_bound e start size Hp sp P _ (holds_counted e start size Hp no_owner sp P rt H)).
  destruct Hp as (_ & ? & ? & ? & _). lia.
Qed.

(** The space of the deferred frees, when one of the trees changes. *)
Lemma defer_sum s (l : list (range_tree unit)) d d' d0 d1 d0' d1' :
  l = [d0; d1] -> l !! defer_slot s = Some d -> <[defer_slot s := d']> l = [d0'; d1'] ->
  rt_space d0' + rt_space d1' = rt_space d0 + rt_space d1 + (rt_space d' - rt_space d).
Proof using All.
  intros -> Hl Hi. destruct (defer_slot_cases s) as [E|E]; rewrite E in *; cbn in *; simplify_eq; lia.
Qed.

Lemma rotate_ok s sp ms ps :
  settled s sp ms ->
  exists tr tr' rt dd, ms_trees ms = Some tr /\
    rotate_defer e ps ms s = Ret (set_trees (set_ms_allocatable ms rt) tr') /\
    trees_ok (s + 1) (fun x => done_state s (defer_allowed e ps) (sp x)) tr' /\
    free_ok start size (fun x => done_state s (defer_allowed e ps) (sp x)) (ms_loaded ms) rt /\
    defer_delta e ps tr s = Ret dd /\ s64 (ms_deferspace ms + dd) /\
    forall d0 d1, ms_defer tr' = [d0; d1] -> ms_deferspace ms + dd = rt_space d0 + rt_space d1.
Proof using All.
  intros Hset. pose proof (settled_trees _ _ _ Hset) as (tr & Htr & Ht & Hds).
  pose proof Ht as (_ & _ & _ & Hfd & Hdf & _). pose proof Hdf as (d0 & d1 & Ed & _).
  apply (deferred_iff s sp true) in Hdf. pose proof Hdf as [_ Hi].
  destruct (Hi (defer_slot s) (defer_slot_lt s)) as (d & Hd & Hh).
  pose proof (settled_free _ _ _ Hset) as (Hwf & Hop & Hm).
  destruct (vacate_to_free_ok s sp true ms d (fun o => o = Deferred (defer_slot s)) (fun o => o = Free) Hh)
    as (d' & rt & Hv & Hd' & Hz & Hop' & Hrt).
  { by intros o ->. }
  { intros Hld. rewrite Hld in Hm. by split. }
  pose proof (space_small sp _ d Hh) as Bd. pose proof (space_small sp _ (ms_freed tr) Hfd) as Bf.
  assert (0 <= rt_space d0 <= 2 ^ 57 /\ 0 <= rt_space d1 <= 2 ^ 57) as [B0 B1].
  { destruct (Hi 0%nat ltac:(lia)) as (x0 & E0 & H0). destruct (Hi 1%nat ltac:(lia)) as (x1 & E1 & H1).
    rewrite Ed in E0, E1. injection E0 as <-. injection E1 as <-. split; eapply space_small; eauto. }
  assert (4 * 2 ^ 57 < 2 ^ 63) as E63 by reflexivity.
  unfold rotate_defer, defer_delta, trees, tree_at. exists tr. rewrite Htr. cbn [mbind result_bind]. rewrite Hd.
  cbn [mbind result_bind]. rewrite Hv. cbn [mbind result_bind]. destruct (defer_allowed e ps) eqn:Hal.
  - rewrite (set_swap no_owner (ms_freed tr) _ _ Hd') by tauto. cbn [mbind result_bind]. do 3 eexists. split; [done|]. split; [done|]. split_and!.
    + apply (trees_done s sp true ms); auto. apply deferred_set; [done|].
      eapply holds_ext; [exact Hp|exact Hfd|]. intros x _. rewrite (done_deferred s sp true). intuition congruence.
    + split; [destruct (ms_loaded ms); [apply Hrt|by subst]|]. split; [congruence|]. destruct (ms_loaded ms).
      * intros x. destruct Hrt as [_ ->]. rewrite (done_free s sp true). intuition congruence.
      * subst rt. destruct Hm as [Hn Hno]. split; [done|]. intros x Hx. destruct (Hno x Hx) as [N1 N2]. split.
        { intros b. rewrite (done_live s sp true). apply N1. }
        { by rewrite (done_freeing s sp true). }
    + done.
    + rewrite wraps64_small by (unfold s64; lia). rewrite (Hds d0 d1 Ed). unfold s64. lia.
    + rewrite wraps64_small by (unfold s64; lia). intros d0' d1' E'. rewrite (Hds d0 d1 Ed).
      rewrite (defer_sum s _ d (ms_freed tr) d0 d1 d0' d1' Ed Hd E'). lia.
  - destruct (vacate_to_free_ok s sp true (set_ms_allocatable ms rt) (ms_freed tr) (fun o => o = Freed)
      (fun o => o = Free \/ o = Deferred (defer_slot s)) Hfd) as (fd' & rt' & Hv' & Hfd' & Hz' & Hop'' & Hrt').
    { intros o ->. intuition congruence. }
    { cbn. intros Hld. rewrite Hld in Hrt. exact Hrt. }
    rewrite Hv'. cbn [mbind result_bind]. do 3 eexists. split; [done|]. split; [done|]. cbn in Hop''. split_and!.
    + apply (trees_done s sp false ms); auto. apply deferred_set; [done|].
      eapply is_set_ext; [exact Hd'|]. intros x. rewrite (done_deferred s sp false). intuition congruence.
    + cbn in Hrt'. split; [destruct (ms_loaded ms); [apply Hrt'|by subst]|]. split; [congruence|]. destruct (ms_loaded ms).
      * intros x. destruct Hrt' as [_ ->]. rewrite (done_free s sp false). intuition congruence.
      * subst rt' rt. destruct Hm as [Hn Hno]. split; [done|]. intros x Hx. destruct (Hno x Hx) as [N1 N2]. split.
        { intros b. rewrite (done_live s sp false). apply N1. }
        { by rewrite (done_freeing s sp false). }
    + done.
    + rewrite wraps64_small by (unfold s64; lia). rewrite (Hds d0 d1 Ed). unfold s64. lia.
    + rewrite wraps64_small by (unfold s64; lia). intros d0' d1' E'. rewrite (Hds d0 d1 Ed).
      rewrite (defer_sum s _ d d' d0 d1 d0' d1' Ed Hd E'). lia.
Qed.

(** What is written of the space map is what is synced. *)
Definition sm_synced (ms : metaslab) : Prop := forall sm, ms_sm ms = Some sm -> synced sm.

(** The space map of the next txg. *)
Lemma log_update sp sp' osm loaded :
  log_ok e start size sp true osm -> (forall x, inside x -> on_disk (sp' x) <-> on_disk (sp x)) ->
  (forall x, inside x -> sp' x <> Freed) ->
  (osm = None -> forall x, inside x -> sp' x = sp x) ->
  log_ok e start size sp' loaded (space_map_update <$> osm).
Proof using All.
  intros Hl Hd Hnf Hnone. destruct osm as [sm|]; cbn.
  2: { intros x Hx. rewrite (Hnone eq_refl x Hx). by apply Hl. }
  destruct Hl as ((E1 & E2 & E3 & E4 & E5 & _) & Hl & _).
  assert (log_repr (space_map_update sm) (fun x => inside x /\ on_disk (sp' x))) as Hl'.
  { eapply log_repr_equiv; [eapply (log_repr_same sm); try done|]. intros x. specialize (Hd x). tauto. }
  split; [|split; [done|intros _; split; [done|]]].
  - unfold MetaslabInv.sm_ok. pose proof (log_sized e start size Hp sm _ Hl : counted start size sp on_disk _) as Hc.
    apply (counted_bound e start size Hp) in Hc. split_and!; try done; cbn; lia.
  - eapply log_repr_equiv; [eapply (log_repr_same (space_map_update sm)); eauto; done|].
    intros x. specialize (Hnf x). tauto.
Qed.

Lemma states_done s sp ms defer :
  settled s sp ms -> states_ok e start size (s + 1) 0 (fun x => done_state s defer (sp x)).
Proof using All.
  intros Hset. split_and!.
  - intros x y Hx Hxy. by rewrite (settled_units _ _ _ Hset x y).
  - intros x b d Hx. rewrite (done_live s sp defer). intros E. pose proof (settled_births _ _ _ Hset x b d Hx E). destruct d; lia.
  - intros x i Hx. rewrite (done_deferred s sp defer). intros [[E _]|(_ & _ & ->)]; [by apply (settled_defer _ _ _ Hset x)|apply defer_slot_lt].
  - intros _ x Hx. apply (done_not_freed s sp defer).
Qed.

Lemma done_core s sp ms ps :
  settled s sp ms ->
  exists tr tr' rt dd, ms_trees ms = Some tr /\ defer_delta e ps tr s = Ret dd /\
    rotate_defer e ps ms s = Ret (set_trees (set_ms_allocatable ms rt) tr') /\
    let ms1 := set_trees (set_ms_allocatable ms rt) tr' in
    let ms2 := set_ms_deferspace (set_ms_sm ms1 (space_map_update <$> ms_sm ms1)) (wraps64 (ms_deferspace ms1 + dd)) in
    core0 (s + 1) 0 (fun x => done_state s (defer_allowed e ps) (sp x)) ms2 /\ sm_synced ms2.
Proof using All.
  intros Hset. set (df := defer_allowed e ps).
  destruct (rotate_ok s sp ms ps Hset) as (tr & tr' & rt & dd & Htr & Hrot & Ht & Hfr & Hdd & H64 & Hsum).
  exists tr, tr', rt, dd. do 3 (split; [done|]). cbn zeta. split.
  2: { intros sm Hsm. cbn in Hsm. destruct (ms_sm ms); cbn in Hsm; simplify_eq. done. }
  constructor; try apply Hset.
  - by eapply states_done.
  - exists tr'. split; [done|]. split; [done|]. intros d0 d1 Hd. cbn. rewrite wraps64_small by done. auto.
  - exact Hfr.
  - cbn. eapply log_update; [apply Hset|intros x Hx; apply (done_on_disk s sp)|intros x Hx; apply (done_not_freed s sp)|].
    intros Hn x Hx. pose proof (settled_log _ _ _ Hset) as Hl. rewrite Hn in Hl.
    destruct (Hl x Hx) as [-> |[[b ->]| ->]]; done.
Qed.

(** ** Unloading *)

Lemma act_cleared w : act (Z.land w (not64 METASLAB_ACTIVE_MASK)) = 0.
Proof using All. apply act_off. Qed.

(** A metaslab that is synced, has no allocations under way and is not active. *)
Lemma unload_ok s sp w :
  winv e start size s 0 sp w -> sm_synced (w_ms w) -> ms_allocator (ms_sel (w_ms w)) = -1 ->
  (forall x b, inside x -> sp x <> Live b false) -> (forall x d, inside x -> sp x <> Freeing d) ->
  exists w', metaslab_unload w = Ret w' /\ winv e start size s 0 sp w' /\ w_st w' = w_st w.
Proof using All.
  intros Hw Hsy Hal Hnl Hnf. pose proof (winv_core e start size Hp _ _ _ _ Hw) as Hc.
  pose proof (core_free _ _ _ _ _ _ _ Hc) as (Hwf & Hop & _). unfold metaslab_unload.
  destruct (set_vacate_any mirrors (ms_allocatable (w_ms w)) _ tt (conj Hwf (fun x => iff_refl _))) as (rt & -> & [Hwf' _] & _ & Hop' & Hnil).
  cbn [mbind result_bind]. eexists. split; [done|]. split; [|done]. destruct Hw as [Hw Hd]. split; [|done].
  destruct Hw as [_ (Hg & Hh1 & Hh2 & Hslot) Ho Hsl Ha Hse]. constructor; auto.
  - constructor; try apply Hc. 
    + cbn. split; [done|]. split; [congruence|]. split; [done|]. intros x Hx. split; auto.
    + cbn. pose proof (core_log _ _ _ _ _ _ _ Hc) as Hl. destruct (ms_sm (w_ms w)) as [sm|] eqn:Hsm; [|done].
      destruct Hl as (Hok & Hl & _). split; [done|]. split; [done|]. intros _.
      destruct (Hsy sm Hsm) as [Hlen Halloc]. split; [lia|].
      eapply log_repr_equiv; [eapply (log_repr_same sm); eauto; done|]. intros x.
      pose proof (core_states _ _ _ _ _ _ _ Hc) as (_ & _ & _ & Hnfd). specialize (Hnfd eq_refl x). tauto.
  - split_and!; auto. by apply in_group_set.
  - split; cbn; rewrite act_cleared; [done|]. auto.
Qed.

Lemma unload_idle_ok s sp w :
  winv e start size (s + 1) 0 sp w -> sm_synced (w_ms w) -> 0 <= s -> s + 3 < 2 ^ 63 ->
  (forall x b, inside x -> sp x = Live b false -> s < b <= ms_selected_txg (ms_sel (w_ms w)) + 3) ->
  (forall x d, inside x -> sp x <> Freeing d) ->
  exists w', unload_idle e w s = Ret w' /\ winv e start size (s + 1) 0 sp w' /\ w_st w' = w_st w /\
    (ms_loaded (w_ms w) = false -> ms_loaded (w_ms w') = false).
Proof using All.
  intros Hw Hsy H0 Hs Hlive Hnf. unfold unload_idle. destruct (may_unload e (w_ms w) s) eqn:Hmu; [|by exists w].
  assert (ms_loaded (w_ms w) = true) as Hld by (unfold may_unload in Hmu; by destruct (ms_loaded (w_ms w))).
  rewrite Hld.
  destruct Hcf as (_ & _ & Hdelay). pose proof (winv_selected _ _ _ _ _ _ _ Hw) as [Hb _].
  assert (ms_selected_txg (ms_sel (w_ms w)) + 3 < s + 1) as Hold.
  { unfold may_unload in Hmu. apply andb_true_iff in Hmu as [_ Hlt%Z.ltb_lt].
    assert (2 ^ 62 + 2 ^ 63 < 2 ^ 64) by reflexivity. rewrite add64_small in Hlt by (unfold u64; lia). lia. }
  assert (forall x b, inside x -> sp x <> Live b false) as Hnl.
  { intros x b Hx E. specialize (Hlive x b Hx E). lia. }
  pose proof (winv_core e start size Hp _ _ _ _ Hw) as Hc. pose proof (core_trees _ _ _ _ _ _ _ Hc) as (tr & Htr & Ht & _).
  unfold trees. rewrite Htr. cbn [mbind result_bind]. change (Z.to_nat (TXG_CONCURRENT_STATES - 1)) with 2%nat. cbn [for_loop].
  assert (forall t, s + 1 <= t <= s + 2 -> exists al, allocating tr t = Ret al /\ rt_space al = 0) as Hal.
  { intros t Htt. destruct (allocating_ok e start size Hp (s + 1) sp tr t Ht) as (al & -> & _ & Hh); [lia|].
    exists al. split; [done|]. apply (set_empty no_owner al _ Hh). intros x [Hx [E|[_ E]]]; [by apply (Hnl x t)|by apply (Hnf x false)]. }
  rewrite !add64_small by (unfold u64; lia). change (Z.of_nat 1) with 1. change (Z.of_nat 2) with 2.
  destruct (Hal (s + 1)) as (a1 & -> & Z1); [lia|]. cbn [mbind result_bind]. rewrite Z1. cbn [Z.eqb verify mbind result_bind].
  destruct (Hal (s + 2)) as (a2 & -> & Z2); [lia|]. cbn [mbind result_bind]. rewrite Z2. cbn [Z.eqb verify mbind result_bind].
  assert (exists w1, (if negb (ms_allocator (ms_sel (w_ms w)) =? -1)
         then metaslab_passivate w (Z.land (ms_weight (ms_sel (w_ms w))) (not64 METASLAB_ACTIVE_MASK))
         else Ret w) = Ret w1 /\ winv e start size (s + 1) 0 sp w1 /\ ms_sm (w_ms w1) = ms_sm (w_ms w) /\
         ms_allocator (ms_sel (w_ms w1)) = -1 /\ w_st w1 = w_st w) as (w1 & -> & Hw1 & Hsm1 & Hal1 & Hst1).
  { pose proof (winv_active _ _ _ _ _ _ _ Hw) as [_ Ha].
    destruct (Z.eqb_spec (ms_allocator (ms_sel (w_ms w))) (-1)) as [E|E]; cbn [negb]; [by exists w|].
    destruct (passivate_winv e start size Hp (s + 1) 0 sp w (Z.land (ms_weight (ms_sel (w_ms w))) (not64 METASLAB_ACTIVE_MASK)) Hw)
      as (w1 & -> & Hw1 & Hwt & _ & Hr); [|apply act_cleared|].
    { destruct Ha as [[? _]|[_ [Ha|Ha]]]; [done|rewrite Ha; done..]. }
    exists w1. split; [done|]. split; [done|]. destruct Hr as ((? & ? & E1 & _) & Hst & _). split; [by rewrite E1|].
    split; [|done]. pose proof (winv_active _ _ _ _ _ _ _ Hw1) as [_ Ha1]. rewrite Hwt, act_cleared in Ha1.
    destruct Ha1 as [[? _]|[_ [Ha1|Ha1]]]; done. }
  cbn [mbind result_bind]. destruct (metaslab_debug_unload e); [by exists w1|].
  destruct (unload_ok (s + 1) sp w1 Hw1) as (w' & -> & Hw' & Hst'); auto; [unfold sm_synced; by rewrite Hsm1|].
  exists w'. by rewrite Hst'.
Qed.

(** ** [metaslab_sync_done] *)

(** A metaslab of which nothing is left to sync in [s], in its group. *)
Record quiet (s : Z) (sp : Z -> ostate) (w : world) : Prop := Quiet {
  quiet_settled : settled s sp (w_ms w);
  quiet_group : group_ok w;
  quiet_owner : owner_ok w;
  quiet_slots : length (mg_secondaries (w_mg w)) = length (mg_primaries (w_mg w));
  quiet_active : active_ok (w_ms w);
  quiet_selected : 0 <= ms_selected_txg (ms_sel (w_ms w)) < 2 ^ 63 /\
    forall x b, inside x -> sp x = Live b false -> b <= ms_selected_txg (ms_sel (w_ms w)) + 3;
  quiet_dirty : length (ms_txg_node (w_ms w)) = 4%nat /\
    forall x b, inside x -> sp x = Live b false -> is_dirty (w_ms w) b = true }.

(** The metaslab after the trees have changed, dirty while frees are deferred. *)
Lemma defer_dirty s sp ms2 :
  core0 s 0 sp ms2 -> length (ms_txg_node ms2) = 4%nat ->
  (forall x b, inside x -> sp x = Live b false -> is_dirty ms2 b = true) ->
  (forall x d, inside x -> sp x <> Freeing d) ->
  let ms3 := if negb (ms_deferspace ms2 =? 0) then vdev_dirty ms2 s else ms2 in
  core e start size s 0 sp ms3.
Proof using All.
  intros Hc Hl Hlive Hnf ms3. pose proof (core_trees _ _ _ _ _ _ _ Hc) as (tr & Htr & (_ & _ & _ & _ & (d0 & d1 & Hd & H0 & H1) & _) & Hds).
  specialize (Hds d0 d1 Hd). pose proof (core_states _ _ _ _ _ _ _ Hc) as (_ & _ & Hdf & Hnfd).
  split; [unfold ms3; destruct (negb _); [|done]; destruct Hc; by constructor|].
  split; [unfold ms3; destruct (negb _); [cbn; by rewrite length_insert|done]|].
  intros x Hx. specialize (Hnfd eq_refl x Hx). destruct (sp x) as [|b []| | |i] eqn:E; try done.
  - specialize (Hlive x b Hx E). unfold ms3. destruct (negb _); [|done]. apply is_dirty_set; auto.
  - by destruct (Hnf x disk Hx).
  - left. assert (ms_deferspace ms2 <> 0) as Hne.
    { rewrite Hds. pose proof (set_space_nonneg no_owner _ _ H0). pose proof (set_space_nonneg no_owner _ _ H1).
      intros Hz. assert (rt_space d0 = 0 /\ rt_space d1 = 0) as [Z0 Z1] by lia. specialize (Hdf x i Hx E).
      destruct i as [|[|i]]; [by apply (proj1 (set_empty no_owner _ _ H0) Z0 x)|by apply (proj1 (set_empty no_owner _ _ H1) Z1 x)|lia]. }
    unfold ms3. destruct (Z.eqb_spec (ms_deferspace ms2) 0); [done|]. cbn [negb]. apply is_dirty_set; auto.
Qed.

Lemma count_ready_ok s sp w :
  winv e start size s 0 sp w -> winv e start size s 0 sp (count_ready w) /\
  ms_loaded (w_ms (count_ready w)) = ms_loaded (w_ms w) /\
  ms_sel (w_ms (count_ready w)) = ms_sel (w_ms w) /\ ms_sm (w_ms (count_ready w)) = ms_sm (w_ms w) /\
  w_st (count_ready w) = w_st w.
Proof using All.
  intros Hw. unfold count_ready. destruct (ms_new (w_ms w)); [|done]. split; [|done].
  destruct Hw as [[[] ? ? ? ? ?] ?]. split; [|done]. constructor; try done.
Qed.

(** The new weight of the metaslab, and its place in the group. *)
Lemma reweigh_ok s sp w c :
  winv e start size s 0 sp w ->
  exists w', ('(ms, weight) ← metaslab_weight e c (w_ms w);
     metaslab_group_sort (set_w_ms w ms) (Z.lor weight (Z.land (ms_weight (ms_sel ms)) METASLAB_ACTIVE_MASK))) = Ret w' /\
    winv e start size s 0 sp w' /\ ms_sm (w_ms w') = ms_sm (w_ms w) /\
    ms_selected_txg (ms_sel (w_ms w')) = ms_selected_txg (ms_sel (w_ms w)) /\ w_st w' = w_st w /\
    ms_loaded (w_ms w') = ms_loaded (w_ms w).
Proof using All.
  intros Hw. pose proof (winv_core e start size Hp _ _ _ _ Hw) as Hc. pose proof Hp as (Hash & _).
  destruct (weight_ok e Hash c (w_ms w)) as (ms' & r & -> & Hr & Hk & Hact).
  - apply Hcf.
  - by eapply (core_histogram e start size Hp), Hc.
  - intros sm Hsm. pose proof (core_log _ _ _ _ _ _ _ Hc) as Hl. rewrite Hsm in Hl. destruct Hl as (Hok & _). split; apply Hok.
  - cbn [mbind result_bind]. pose proof Hr as (node & sel & Heq & Hmd & Hsel).
    assert (winv e start size s 0 sp (set_w_ms w ms')) as Hw1.
    { eapply winv_ms; [exact Hp|exact Hw|by eapply core_reselect|done|by rewrite Heq|]. rewrite Heq. unfold selected_ok. cbn.
      rewrite Hsel. apply Hw. }
    unfold metaslab_group_sort.
    destruct (group_sort_ok (set_w_ms w ms') (Z.lor r (Z.land (ms_weight (ms_sel ms')) METASLAB_ACTIVE_MASK))
      (winv_group _ _ _ _ _ _ _ Hw1)) as (w' & -> & Hg & Hrg & Hsel' & Hsl').
    exists w'. split; [done|]. pose proof Hrg as ((n2 & s2 & E2 & _ & S2) & Hst & _). split; [|split; [by rewrite E2, Heq|split; [|split; [done|by rewrite E2, Heq]]]].
    2: { rewrite Hsel'. cbn. by rewrite Heq. }
    eapply winv_regroup; [exact Hp|exact Hw1|done|done| |].
    + apply (owner_same (set_w_ms w ms')); [apply Hw1|by rewrite E2|by rewrite Hsel'..|done].
    + pose proof (winv_active _ _ _ _ _ _ _ Hw1) as [Ha1 Ha2]. injection Hk as _ Kw _ _. unfold active_ok. rewrite Hsel'. cbn [ms_weight set_ms_weight ms_allocator w_ms set_w_ms] in *.
      assert (act (Z.lor r (Z.land (ms_weight (ms_sel ms')) METASLAB_ACTIVE_MASK)) = act (ms_weight (ms_sel ms'))) as ->.
      { fold (act (ms_weight (ms_sel ms'))). rewrite act_lor, act_act. unfold act_from in Hact. rewrite <- Kw in Hact.
        destruct Hact as [-> | ->]; [done|apply Z.lor_diag]. }
      split; [|done]. intros Hne. rewrite E2. cbn. auto.
Qed.

Lemma sync_done_ok s sp w w0 c ps :
  init_trees e w = Ret w0 -> quiet s sp w0 -> 0 <= s -> s + 3 < 2 ^ 63 ->
  exists w', metaslab_sync_done e c ps w s = Ret w' /\
    winv e start size (s + 1) 0 (fun x => done_state s (defer_allowed e ps) (sp x)) w' /\
    (ms_loaded (w_ms w0) = false -> ms_loaded (w_ms w') = false).
Proof using All.
  intros Hinit Hq H0 Hs. pose proof Hq as [Hset Hg Ho Hsl Ha [Hb Hlive] [Hl Hdirty]].
  unfold metaslab_sync_done. rewrite Hinit. cbn [mbind result_bind].
  destruct (done_core s sp (w_ms w0) ps Hset) as (tr & tr' & rt & dd & Htr & Hdd & Hrot & Hc2 & Hsy2).
  set (sp' := fun x => done_state s (defer_allowed e ps) (sp x)) in *.
  unfold trees. rewrite Htr. cbn [mbind result_bind]. rewrite Hdd. cbn [mbind result_bind w_ms set_w_st]. rewrite Hrot.
  cbn [mbind result_bind]. set (ms1 := set_trees _ tr') in *. cbn zeta in Hc2, Hsy2.
  set (ms2 := set_ms_deferspace _ _) in *. rewrite add64_small by (unfold u64; lia).
  assert (forall x b, inside x -> sp' x = Live b false -> sp x = Live b false) as Hlv.
  { intros x b Hx. unfold sp'. by rewrite (done_live s sp). }
  assert (forall x d, inside x -> sp' x <> Freeing d) as Hnf.
  { intros x d Hx. unfold sp'. rewrite (done_freeing s sp). apply (settled_freeing _ _ _ Hset x d Hx). }
  pose proof (defer_dirty (s + 1) sp' ms2 Hc2 Hl (fun x b Hx E => Hdirty x b Hx (Hlv x b Hx E)) Hnf) as Hc3.
  cbn zeta in Hc3. set (ms3 := if negb _ then _ else _) in *.
  assert (ms_sel ms3 = ms_sel (w_ms w0) /\ ms_loaded ms3 = ms_loaded (w_ms w0) /\ ms_start ms3 = ms_start (w_ms w0) /\
    ms_sm ms3 = ms_sm ms2) as (F1 & F2 & F3 & F4) by (unfold ms3; by destruct (negb _)).
  set (w3 := set_w_ms (set_w_st w0 _) ms3).
  assert (winv e start size (s + 1) 0 sp' w3) as Hw3.
  { destruct Hc3 as [Hc3 Hd3]. split; [constructor|]; auto; cbn [w_ms set_w_ms w3].
    - destruct Hg as ((Hwf & ks & Hel & Hks & Hnd) & Hh1 & Hh2 & Hslot). split; [|split_and!; auto].
      + split; [done|]. exists ks. unfold key in *. cbn [w_ms set_w_ms w3]. rewrite F1, F3. done.
      + unfold slot_ok. cbn [w_ms set_w_ms w3]. rewrite F1. done.
    - apply (owner_same w0); auto; cbn [w_ms set_w_ms w3]; by rewrite F1.
    - unfold active_ok. rewrite F1, F2. done.
    - unfold selected_ok. rewrite F1. split; [done|]. intros x b Hx E _. eauto. }
  destruct (count_ready_ok (s + 1) sp' w3 Hw3) as (Hw4 & L4 & S4 & M4 & _).
  destruct (reweigh_ok (s + 1) sp' (count_ready w3) c Hw4) as (w5 & Hwt & Hw5 & M5 & S5 & _ & L5).
  destruct (metaslab_weight e c (w_ms (count_ready w3))) as [[ms5 r]|]; cbn [mbind result_bind] in Hwt |- *; [|done].
  rewrite Hwt. cbn [mbind result_bind].
  destruct (unload_idle_ok s sp' w5 Hw5) as (w' & -> & Hw' & _ & L'); auto.
  - unfold sm_synced. rewrite M5, M4. cbn [w_ms set_w_ms w3]. by rewrite F4.
  - intros x b Hx E. rewrite S5, S4. cbn [w_ms set_w_ms w3]. rewrite F1. specialize (Hlv x b Hx E).
    pose proof (settled_births _ _ _ Hset x b false Hx Hlv). specialize (Hlive x b Hx Hlv). cbn in *. lia.
  - exists w'. split; [done|]. split; [done|]. intros Hu. apply L'. rewrite L5, L4. cbn [w_ms set_w_ms w3]. congruence.
Qed.

(** The end of a txg that has nothing left to sync, for this metaslab. *)
Lemma vdev_sync_done_ok s pass sp w c ps :
  winv e start size s pass sp w -> is_dirty (w_ms w) s = false -> 0 < s -> s + 3 < 2 ^ 63 ->
  exists w', vdev_sync_done e c ps w s = Ret w' /\
    winv e start size (s + 1) 0 (fun x => done_state s (defer_allowed e ps) (sp x)) w'.
Proof using All.
  intros [Hw Hd] Hnd H0 Hs. unfold vdev_sync_done. pose proof (winv_core0 _ _ _ _ _ _ _ Hw) as Hc.
  pose proof (core_settled s pass sp (w_ms w) Hc Hd Hnd) as Hset.
  destruct (clean_slot e start size Hp Hcf s) as (Hcl & Hs1 & _); [lia..|]. rewrite Hcl. pose proof Hd as [Hl Hd'].
  assert (forall x b, inside x -> sp x = Live b false -> s < b <= s + 2 /\ is_dirty (w_ms w) b = true) as Hlive.
  { intros x b Hx E. pose proof (settled_births _ _ _ Hset x b false Hx E) as Hb. specialize (Hd' x Hx). rewrite E in Hd'.
    cbn in Hb. split; [lia|done]. }
  destruct (is_dirty (w_ms w) (s - 1)) eqn:Ed.
  - set (w0 := set_w_ms w _).
    assert (quiet s sp w0) as Hq.
    { destruct Hw as [_ Hg Ho Hsl Ha [Hb Hsel]]. constructor; auto.
      - destruct Hset. by constructor.
      - split; [done|]. intros x b Hx E. apply (Hsel x b Hx E). destruct (Hlive x b Hx E). lia.
      - split; [cbn; by rewrite length_insert|]. intros x b Hx E. destruct (Hlive x b Hx E) as [Hb' Hdb].
        apply (is_dirty_unset e start size Hp Hcf); [done|]. split; [done|]. rewrite <- txg_slot_clean. intros Es.
        apply (txg_slot_inj s) in Es; lia. }
    destruct (sync_done_ok s sp w0 w0 c ps) as (w' & -> & Hw' & _); auto; [|lia|eauto].
    unfold init_trees. destruct (settled_trees _ _ _ (quiet_settled _ _ _ Hq)) as (tr & -> & _). done.
  - exists w. split; [done|].
    assert (forall x, inside x -> done_state s (defer_allowed e ps) (sp x) = sp x) as Heq.
    { intros x Hx. specialize (Hd' x Hx). destruct (sp x); try done; cbn in Hd'; destruct Hd'; congruence. }
    pose proof (core0_ext e start size Hp Hcf s pass pass sp _ (w_ms w) Hc Heq (fun E => E)) as Hc'.
    destruct Hw as [_ Hg Ho Hsl Ha [Hb Hsel]]. split; [constructor; auto|].
    + constructor; try apply Hc'; [by eapply states_done|].
      destruct (settled_trees _ _ _ Hset) as (tr & Htr & Ht & Hds). exists tr. split; [done|]. split; [|done].
      pose proof Ht as (_ & _ & _ & Hfd & Hdf & _). apply (deferred_iff s sp true) in Hdf as [Hdl Hdf].
      replace tr with (set_ms_defer (set_ms_freed tr (ms_freed tr)) (ms_defer tr)) by (by destruct tr).
      apply (trees_done s sp (defer_allowed e ps) (w_ms w)); auto.
      * eapply is_set_ext; [exact Hfd|]. intros x. split; [|done]. intros [Hx E]. specialize (Hd' x Hx). rewrite E in Hd'. congruence.
      * split; [done|]. intros i Hi. destruct (Hdf i Hi) as (d & Hd1 & Hh). exists d. split; [done|].
        eapply holds_ext; [exact Hp|exact Hh|]. intros x Hx. by rewrite Heq.
    + split; [done|]. intros x b Hx. rewrite Heq by done. intros E _. apply (Hsel x b Hx E). destruct (Hlive x b Hx E). lia.
    + split; [done|]. intros x Hx. rewrite Heq by done. specialize (Hd' x Hx).
      destruct (sp x) as [|b []| | |]; cbn in *; try done; try (destruct Hd'; congruence); congruence.
Qed.
End Done.
