(* ===== verification/MetaslabInit.v ===== *)
(** * Metaslabs: opening and closing

    [metaslab_init] on a new or an existing device establishes the invariant of
    [MetaslabInv]: what the space map on disk has allocated is allocated, and
    all the rest is free. *)

From S2P Require Import Prelude TxgData Avl RangeTree RangeSet SpaceMap SpaceMapLog MetaslabAlloc MetaslabData.
From S2P Require Import MetaslabWeight MetaslabGroup Metaslab MetaslabInv MetaslabSteps MetaslabWorld.
From S2P Require Import MetaslabSync MetaslabDone.

(** A group that does not have the metaslab yet. *)
Definition fresh_group (start : Z) (mg : metaslab_group) : Prop :=
  avl_wf (mg_metaslab_tree mg) /\ NoDup (elements (mg_metaslab_tree mg)) /\
  Forall (fun k => k_start k <> start) (elements (mg_metaslab_tree mg)) /\
  length (mg_histogram mg) = RANGE_TREE_HISTOGRAM_SIZE /\
  length (mc_histogram mg) = RANGE_TREE_HISTOGRAM_SIZE /\
  length (mg_secondaries mg) = length (mg_primaries mg) /\
  forall p a, slots mg p !! a <> Some (Some start).

Section Init.
Context (e : env) (start size : Z) (Hp : place_ok e start size) (Hcf : config_ok e).
Notation inside := (inside start size).
Notation core0 := (core0 e start size).
Notation holds := (holds start size).
Notation trees_ok := (trees_ok start size).
Notation winv := (winv e start size).

(** What is on disk, before anything is opened: every byte is free, or
    allocated according to the space map. *)
Definition disk_ok (sp : Z -> ostate) (disk : option space_map) : Prop :=
  (forall x, inside x -> sp x = Free \/ exists b, b <= 0 /\ sp x = Live b true) /\
  (forall x y, inside x -> x / unit_bytes e = y / unit_bytes e -> sp x = sp y) /\
  match disk with
  | None => forall x, inside x -> sp x = Free
  | Some d => sm_object d <> 0 /\ length (smp_histogram d) = SPACE_MAP_HISTOGRAM_SIZE /\ sm_has_hist d = true /\
      log_repr (space_map_open d start size (vdev_ashift e)) (fun x => inside x /\ on_disk (sp x))
  end.

Lemma group_add_ok w :
  fresh_group start (w_mg w) -> ms_start (w_ms w) = start ->
  ms_allocator (ms_sel (w_ms w)) = -1 ->
  (forall sm, ms_sm (w_ms w) = Some sm -> sm_shape (vdev_ashift e) sm) ->
  exists w', metaslab_group_add e w = Ret w' /\ group_ok w' /\ owner_ok w' /\
    w_ms w' = set_ms_sel (w_ms w) (set_ms_weight (ms_sel (w_ms w)) 0) /\ w_st w' = w_st w /\
    length (mg_secondaries (w_mg w')) = length (mg_primaries (w_mg w')).
Proof using All.
  intros (Hwf & Hnd & Hks & Hh1 & Hh2 & Hsl & Hno) Hst Hal Hsm. unfold metaslab_group_add.
  set (ms := set_ms_sel (w_ms w) _).
  destruct (avl_add_any (mg_metaslab_tree (w_mg w)) (key ms) Hwf) as (t & -> & Hwf' & Hel).
  { eapply Forall_impl; [exact Hks|]. intros k Hk. apply compare_start. cbn. congruence. }
  cbn [mbind result_bind]. set (w1 := set_w_mg _ _).
  assert (group_ok w1) as Hg1.
  { split; [|split_and!; try done; by left]. split; [done|]. exists (elements (mg_metaslab_tree (w_mg w))).
    split; [done|]. split; [cbn; by rewrite Hst|]. cbn [w_mg w1 set_w_mg set_mg_metaslab_tree mg_metaslab_tree].
    rewrite Hel. apply NoDup_cons. split; [|done]. intros Hin. rewrite Forall_forall in Hks. apply (Hks _ Hin). done. }
  pose proof Hp as (Hash & _). unfold metaslab_group_histogram_add.
  destruct (group_histograms_ok e Hash add64 w1 Hg1 Hsm) as (w' & -> & Hg' & E1 & E2 & E3 & E4 & Hsl').
  exists w'. split; [done|]. split; [done|]. split; [|split; [done|]; split; [done|]].
  - intros p a. rewrite Hsl', E1. split; [|intros [? _]; cbn in *; lia].
    intros Hl. exfalso. apply (Hno p a). rewrite <- Hst. by destruct p.
  - pose proof (Hsl' true) as Ht. pose proof (Hsl' false) as Hf. cbn in *. congruence.
Qed.

(** Trees that hold nothing. *)
Lemma fresh_trees s sp :
  (forall x, inside x -> sp x = Free \/ exists b, b <= s /\ sp x = Live b true) ->
  exists tr, create_trees = Ret tr /\ trees_ok s sp tr /\
    forall d0 d1, ms_defer tr = [d0; d1] -> rt_space d0 + rt_space d1 = 0.
Proof using All.
  intros Hsp. unfold create_trees. destruct set_create as (rt & -> & Hs & Hz). cbn [mbind result_bind].
  eexists. split; [done|]. split; [|intros d0 d1 [= <- <-]; lia].
  assert (forall P : ostate -> Prop, ~ P Free -> (forall b, ~ P (Live b true)) -> holds sp P rt) as Hh.
  { intros P N1 N2. eapply is_set_ext; [exact Hs|]. intros x. split; [done|]. intros [Hx HP].
    destruct (Hsp x Hx) as [E|(b & _ & E)]; rewrite E in HP; [done|by apply (N2 b)]. }
  split; [done|]. split_and!; cbn.
  - intros t Ht. exists rt. split.
    + pose proof (txg_slot_lt t) as Hlt. destruct (txg_slot t) as [|[|[|[|k]]]]; try done. lia.
    + apply Hh; unfold is_allocating; intuition congruence.
  - apply Hh; [intros [? ?]|intros b [? ?]]; congruence.
  - apply Hh; congruence.
  - exists rt, rt. split; [done|]. split; apply Hh; congruence.
  - apply Hh; tauto.
Qed.

Lemma winv_ext s pass sp sp' w : winv s pass sp w -> (forall x, inside x -> sp' x = sp x) -> winv s pass sp' w.
Proof using All.
  intros [[Hc Hg Ho Hsl Ha [Hb Hse]] [Hl Hd]] Heq. split; [constructor; auto|].
  - by eapply (core0_ext e start size Hp Hcf s pass pass).
  - split; [done|]. intros x b Hx. rewrite Heq by done. eauto.
  - split; [done|]. intros x Hx. rewrite Heq by done. exact (Hd x Hx).
Qed.

Lemma winv_mark s pass sp w t : winv s pass sp w -> winv s pass sp (set_w_ms w (vdev_dirty (w_ms w) t)).
Proof using All.
  intros Hw. eapply winv_ms; [exact Hp|exact Hw| |done|done|apply Hw].
  eapply core_reselect; [exact Hp|by apply (winv_core e start size Hp)|]. exists (<[txg_slot t := true]> (ms_txg_node (w_ms w))), (ms_sel (w_ms w)).
  split; [by destruct (w_ms w)|]. split; [apply vdev_dirty_more|done].
Qed.

(** When nothing is under way, any txg can be the next. *)
Lemma winv_start s s' sp w :
  winv s 0 sp w -> s <= s' -> (forall x, inside x -> sp x = Free \/ exists b, b <= s /\ sp x = Live b true) ->
  winv s' 0 sp w.
Proof using All.
  intros [[Hc Hg Ho Hsl Ha [Hb Hse]] [Hl Hd]] Hs Hsp. pose proof (core_states _ _ _ _ _ _ _ Hc) as (Hu & _ & Hdf & Hnf).
  split; [constructor; auto|].
  - constructor; try apply Hc.
    + split_and!; auto. intros x b d Hx E. destruct (Hsp x Hx) as [E'|(b' & Hb' & E')]; rewrite E' in E; simplify_eq. lia.
    + destruct (core_trees _ _ _ _ _ _ _ Hc) as (tr & Htr & (Hlen & Hal & Hf & Hfd & Hde & Hck) & Hds).
      exists tr. split; [done|]. split; [|done]. split; [done|]. split_and!; auto. intros t Ht.
      assert (exists u, s <= u <= s + 3 /\ txg_slot u = txg_slot t) as (u & Hut & Hslot).
      { exists (s + (t - s) mod 4). pose proof (Z.mod_pos_bound (t - s) 4 ltac:(lia)). split; [lia|].
        rewrite !txg_slot_mod. f_equal. rewrite Zplus_mod_idemp_r. f_equal. lia. }
      destruct (Hal u Hut) as (rt & Hrt & Hh). exists rt. rewrite <- Hslot. split; [done|].
      eapply holds_ext; [exact Hp|exact Hh|]. intros x Hx. unfold is_allocating.
      destruct (Hsp x Hx) as [->|(b & _ & ->)]; intuition congruence.
  - split; [done|]. intros x b Hx E. destruct (Hsp x Hx) as [E'|(b' & _ & E')]; congruence.
  - split; [done|]. intros x Hx. destruct (Hsp x Hx) as [->|(b' & _ & ->)]; done.
Qed.

(** ** [metaslab_init] *)

Lemma new_metaslab_ok id ms_shift sm :
  start = id * 2 ^ ms_shift -> size = 2 ^ ms_shift -> 0 <= ms_shift ->
  exists rt, new_metaslab id ms_shift sm = Ret (Metaslab id start size sm rt None (replicate MAX_LBAS 0) false 0 0 0 true
      (replicate (Z.to_nat TXG_SIZE) false) (MsSelection 0 0 0 0 0 (-1) false false 0)) /\
    rt_wf mirrors rt /\ segs rt = [] /\ rt_ops rt = Some metaslab_rt_ops.
Proof using All.
  intros Hst Hsz Hsh. unfold new_metaslab. pose proof Hp as (_ & P1 & P2 & P3 & _).
  assert (2 ^ 57 < 2 ^ 64) by (apply Z.pow_lt_mono_r; lia).
  destruct (create_ok mirrors (Some metaslab_rt_ops) (RtOwner avl_create false)) as (rt & -> & Hwf & Hn & Hop).
  { intros ops [= <-]. split; [apply _|apply metaslab_rt_creates]. }
  cbn [mbind result_bind]. exists rt. split; [|done].
  rewrite !Z.shiftl_mul_pow2, Z.mul_1_l, <- Hst, <- Hsz by done.
  by rewrite !wrap64_small by (unfold u64; lia).
Qed.

(** What [metaslab_sync_done] finds in a metaslab that was just made. *)
Lemma init_quiet id sp disk rt w node sel :
  disk_ok sp disk -> rt_wf mirrors rt -> segs rt = [] -> rt_ops rt = Some metaslab_rt_ops ->
  group_ok w -> owner_ok w -> length (mg_secondaries (w_mg w)) = length (mg_primaries (w_mg w)) ->
  w_ms w = Metaslab id start size ((fun d => space_map_open d start size (vdev_ashift e)) <$> disk) rt None
      (replicate MAX_LBAS 0) false 0 0 0 true node sel ->
  length node = 4%nat -> ms_weight sel = 0 -> ms_allocator sel = -1 -> 0 <= ms_selected_txg sel < 2 ^ 63 ->
  exists w0, init_trees e w = Ret w0 /\ quiet e start size 0 sp w0 /\ ms_loaded (w_ms w0) = false.
Proof using All.
  intros (Hsp & Hu & Hdisk) Hwf Hn Hop Hg Ho Hsl Hms Hl Hwt Hal Hse. unfold init_trees. rewrite Hms. cbn [ms_trees].
  destruct (fresh_trees 0 sp Hsp) as (tr & -> & Ht & Hds). cbn [mbind result_bind]. eexists. split; [done|]. split; [|done].
  assert (forall x b, inside x -> sp x <> Live b false) as Hnl.
  { intros x b Hx E. destruct (Hsp x Hx) as [E'|(b' & _ & E')]; congruence. }
  constructor; cbn [w_ms set_w_ms set_w_st set_trees set_ms_trees w_mg].
  - constructor; cbn; auto.
    + intros x b d Hx E. destruct (Hsp x Hx) as [E'|(b' & Hb' & E')]; rewrite E' in E; simplify_eq. lia.
    + intros x i Hx E. destruct (Hsp x Hx) as [E'|(b' & _ & E')]; congruence.
    + intros x d Hx E. destruct (Hsp x Hx) as [E'|(b' & _ & E')]; congruence.
    + exists tr. split; [done|]. split; [done|]. intros d0 d1 Hd. by rewrite (Hds d0 d1 Hd).
    + split; [done|]. split; [done|]. split; [done|]. intros x Hx. split; [auto|].
      destruct (Hsp x Hx) as [->|(b' & _ & ->)]; done.
    + destruct disk as [d|]; cbn; [|auto]. destruct Hdisk as (D1 & D2 & D3 & D4). split; [|done].
      destruct Hp as (_ & _ & P2 & _). unfold sm_ok, sm_shape. cbn. split_and!; auto; lia.
  - destruct Hg as ((Hwf' & ks & Hel & Hks & Hnd) & Hh1 & Hh2 & Hslot). rewrite Hms in Hel, Hks, Hslot.
    split; [split; [done|]; exists ks; done|]. split_and!; done.
  - intros p a. specialize (Ho p a). rewrite Hms in Ho. exact Ho.
  - done.
  - split; cbn; rewrite Hwt; [done|]. left. auto.
  - split; [done|]. intros x b Hx E. by destruct (Hnl x b Hx).
  - split; [done|]. intros x b Hx E. by destruct (Hnl x b Hx).
Qed.

Lemma done_static s defer o : o = Free \/ (exists b, o = Live b true) -> done_state s defer o = o.
Proof using All. by intros [->|[b ->]]. Qed.

Lemma ms_init_ok c ps load mg st ck id ms_shift disk txg sp :
  start = id * 2 ^ ms_shift -> size = 2 ^ ms_shift -> 0 <= ms_shift -> 0 <= txg <= TXG_INITIAL ->
  fresh_group start mg -> disk_ok sp disk ->
  exists w, metaslab_init e c ps load mg st ck id ms_shift (inr <$> disk) txg = Ret (inr w) /\
    (forall s, 1 <= s -> winv s 0 sp w) /\ (load = false -> ms_loaded (w_ms w) = false).
Proof using All.
  intros Hst Hsz Hsh Htxg Hfg Hdisk. pose proof Hdisk as (Hsp & _ & Hd). 
  assert (metaslab_init e c ps load mg st ck id ms_shift (inr <$> disk) txg =
    (w ← init_opened e c ps load mg st ck id ms_shift disk txg; Ret (inr w))) as -> by (by destruct disk).
  unfold init_opened. cbn zeta.
  set (sm := _ <$> disk). destruct (new_metaslab_ok id ms_shift sm Hst Hsz Hsh) as (rt & -> & Hwf & Hn & Hop).
  cbn [mbind result_bind]. set (ms0 := Metaslab _ _ _ _ _ _ _ _ _ _ _ _ _ _).
  assert (sm = (fun d => space_map_open d start size (vdev_ashift e)) <$> disk) as Esm.
  { unfold sm. pose proof Hp as (_ & P1 & P2 & P3 & _). assert (2 ^ 57 < 2 ^ 64) by (apply Z.pow_lt_mono_r; lia).
    rewrite !Z.shiftl_mul_pow2, Z.mul_1_l, <- Hst, <- Hsz by done. by rewrite !wrap64_small by (unfold u64; lia). }
  assert (forall s1, sm = Some s1 -> sm_shape (vdev_ashift e) s1) as Hshape.
  { intros s1 E. rewrite Esm in E. destruct disk as [d|]; cbn in E; simplify_eq. split; [done|apply Hd]. }
  destruct (group_add_ok (World ms0 mg st ck (space_map_object sm)) Hfg eq_refl eq_refl Hshape)
    as (w1 & -> & Hg1 & Ho1 & E1 & _ & Hsl1). cbn [mbind result_bind]. pose proof Hp as (Hash & _).
  destruct (set_fragmentation_ok e Hash c (w_ms w1)) as (ms2 & -> & Hr2 & Hk2); [by rewrite E1|]. cbn [mbind result_bind].
  destruct (Z.leb_spec txg TXG_INITIAL) as [_|?]; [|lia].
  pose proof Hr2 as (node & sel & Heq & [Hnl _] & Hsel). rewrite E1 in Heq, Hnl, Hsel. cbn in Hnl, Hsel.
  injection Hk2 as _ Kw Ka Kp. rewrite E1 in Kw, Ka, Kp. rewrite Heq in Kw, Ka, Kp. cbn in Kw, Ka, Kp.
  destruct (init_quiet id sp disk rt (set_w_ms w1 ms2) node sel Hdisk Hwf Hn Hop) as (w3 & Hin & Hq & Hld); auto.
  { destruct Hg1 as ((Hwf1 & ks & Hel & Hks & Hnd) & Hh1 & Hh2 & Hslot). rewrite E1 in Hel, Hks, Hslot.
    split; [split; [done|]; exists ks|]; cbn [w_ms set_w_ms w_mg]; rewrite Heq; [|split_and!; [done..|]].
    - unfold key in *. cbn in *. by rewrite Kw, Ka, Kp.
    - left. cbn. exact Ka. }
  { intros p a. specialize (Ho1 p a). rewrite E1 in Ho1. cbn [w_ms set_w_ms w_mg]. rewrite Heq. cbn in *. by rewrite Ka, Kp. }
  { cbn [w_ms set_w_ms]. by rewrite Heq, <- Esm. }
  { rewrite Hsel. lia. }
  destruct (sync_done_ok e start size Hp Hcf 0 sp (set_w_ms w1 ms2) w3 c ps Hin Hq) as (w4 & -> & Hw4 & Hu4); [lia..|].
  specialize (Hu4 Hld). cbn [mbind result_bind].
  assert (winv 1 0 sp w4) as Hw5.
  { eapply winv_ext; [exact Hw4|]. intros x Hx. symmetry. apply done_static.
    destruct (Hsp x Hx) as [?|(b & _ & ?)]; eauto. }
  assert (exists w6, match ms_sm (w_ms w4) with
      | Some _ => if load then '(ms, error) ← metaslab_load e (w_ms w4); _ ← verify (error =? 0); Ret (set_w_ms w4 ms) else Ret w4
      | None => Ret w4 end = Ret w6 /\ winv 1 0 sp w6 /\ (load = false -> ms_loaded (w_ms w6) = false)) as (w6 & -> & Hw6 & Hu6).
  { destruct (ms_sm (w_ms w4)) as [s1|]; [|eauto]. destruct load; [|eauto].
    destruct (load_ms_ok e start size Hp 1 0 sp (w_ms w4) (winv_core e start size Hp _ _ _ _ Hw5) Hu4)
      as (ms' & -> & Hc' & Hl' & Hst' & Hsel'). cbn [mbind result_bind Z.eqb verify]. eexists. split; [done|]. split; [|done].
    eapply winv_ms; [exact Hp|exact Hw5|done|unfold key; by rewrite Hsel', Hst'|done|]. rewrite Hsel'. apply Hw5. }
  cbn [mbind result_bind]. eexists. split; [done|]. split; [|intros Hl; split_if; [auto|cbn; auto]]. intros s Hs.
  apply (winv_start 1); [|done|]. 2: { intros x Hx. destruct (Hsp x Hx) as [?|(b & ? & ?)]; [auto|right; exists b; split; [lia|done]]. }
  split_if; [done|]. by apply winv_mark.
Qed.
End Init.
