(* ===== verification/MetaslabSpec.v ===== *)
(** * Metaslabs: the specification

    A metaslab as the rest of the pool sees it: every byte has a state, and the
    operations change the states.  [exec] runs an operation of [Metaslab],
    [spec_step] is what it should do, and [reach] relates every metaslab that
    operations lead to from [metaslab_init] to the states of its bytes.  The
    theorems are that no operation fails and each does what it should, and what
    follows for the blocks of a pool. *)

From S2P Require Import Prelude TxgData Avl RangeTree RangeSet SpaceMap SpaceMapLog MetaslabAlloc MetaslabData.
From S2P Require Import MetaslabWeight MetaslabGroup Metaslab MetaslabInv MetaslabSteps MetaslabWorld.
From S2P Require Import MetaslabSync MetaslabDone MetaslabInit.

(** ** The operations *)

Inductive ms_op : Type :=
| OpAlloc (c : sync_ctx) (was_active : bool) (asize txg allocator activation_weight : Z)
| OpFree (c : sync_ctx) (offset asize : Z)
| OpUnalloc (offset size txg : Z)
| OpClaim (offset size txg : Z)
| OpPreload (c : sync_ctx)
| OpSync (c : sync_ctx) (io : sync_io)
| OpDone (c : sync_ctx) (ps : pool_space).

Inductive reply : Type := Done | Offset (offset : option Z) | Code (error : Z).

(** Txg [s] is the one being synced. *)
Definition exec (e : env) (s : Z) (w : world) (o : ms_op) : result (world * reply) :=
  match o with
  | OpAlloc c was_active asize txg allocator aw =>
      '(w, r) ← alloc_from e c w was_active asize txg allocator aw; Ret (w, Offset r)
  | OpFree c offset asize =>
      ms ← metaslab_free_concrete e c (w_ms w) offset asize false; Ret (set_w_ms w ms, Done)
  | OpUnalloc offset size txg =>
      ms ← metaslab_unalloc_dva e (w_ms w) offset size txg; Ret (set_w_ms w ms, Done)
  | OpClaim offset size txg =>
      '(w, r) ← metaslab_claim_concrete e w offset size txg; Ret (w, Code r)
  | OpPreload c => ms ← metaslab_preload e c (w_ms w); Ret (set_w_ms w ms, Done)
  | OpSync c io => w ← vdev_sync e c io w s; Ret (w, Done)
  | OpDone c ps => w ← vdev_sync_done e c ps w s; Ret (w, Done)
  end.

Section Spec.
Context (e : env) (start size : Z).
Notation inside := (inside start size).
Notation block_ok := (block_ok e start size).

(** The device: where the metaslab is, the tunables, a block allocator that
    keeps its contract, and a pool that can be written. *)
Definition device_ok : Prop :=
  place_ok e start size /\ config_ok e /\ AllocSpec (ms_ops e) /\ spa_writeable e = true.

(** ** What the operations do to the states *)

Inductive spec_step (s pass : Z) (sp : Z -> ostate) : ms_op -> reply -> Z -> Z -> (Z -> ostate) -> Prop :=
| spec_alloc c b n txg a aw off :
    block_ok off n -> (forall x, off <= x < off + n -> sp x = Free) ->
    spec_step s pass sp (OpAlloc c b n txg a aw) (Offset (Some off)) s pass (upd_range sp off n (fun _ => Live txg false))
| spec_alloc_none c b n txg a aw :
    spec_step s pass sp (OpAlloc c b n txg a aw) (Offset None) s pass sp
| spec_free c off n :
    spec_step s pass sp (OpFree c off n) Done s pass (upd_range sp off n (fun x => free_state (sp x)))
| spec_unalloc off n txg :
    spec_step s pass sp (OpUnalloc off n txg) Done s pass (upd_range sp off n (fun _ => Free))
| spec_claim off n txg :
    (forall x, off <= x < off + n -> sp x = Free) -> txg <> 0 ->
    spec_step s pass sp (OpClaim off n txg) (Code 0) s pass (upd_range sp off n (fun _ => Live txg false))
| spec_claim_check off n :
    (forall x, off <= x < off + n -> sp x = Free) -> spec_step s pass sp (OpClaim off n 0) (Code 0) s pass sp
| spec_claim_not_free off n txg :
    ~ (forall x, off <= x < off + n -> sp x = Free) -> spec_step s pass sp (OpClaim off n txg) (Code ENOENT) s pass sp
| spec_preload c : spec_step s pass sp (OpPreload c) Done s pass sp
| spec_sync c io : spec_step s pass sp (OpSync c io) Done s (pass + 1) (fun x => sync_state s (sp x))
| spec_done c ps :
    spec_step s pass sp (OpDone c ps) Done (s + 1) 0 (fun x => done_state s (defer_allowed e ps) (sp x)).

(** When an operation may be asked for.  Blocks are whole sectors of the
    metaslab.  Allocations are for the txg being synced or the next two; what
    is freed is allocated, and not in a later txg; what is taken back was
    allocated in a txg that has not been synced; claims are of the txg being
    synced; and a txg is done when nothing of it is left to sync. *)
Definition op_pre (s pass : Z) (sp : Z -> ostate) (w : world) (o : ms_op) : Prop :=
  0 < s /\ s + 3 < 2 ^ 63 /\
  match o with
  | OpAlloc c _ n txg a aw =>
      s - 1 <= spa_syncing_txg c <= s /\ 0 < n <= 2 ^ 62 /\ n mod unit_bytes e = 0 /\ s <= txg <= s + 2 /\
      0 <= a < Z.of_nat (length (mg_primaries (w_mg w))) /\
      (aw = METASLAB_WEIGHT_PRIMARY \/ aw = METASLAB_WEIGHT_SECONDARY \/ aw = METASLAB_WEIGHT_CLAIM)
  | OpFree c off n =>
      spa_syncing_txg c = s /\ block_ok off n /\ forall x, off <= x < off + n -> freeable s (sp x)
  | OpUnalloc off n txg =>
      block_ok off n /\ s <= txg <= s + 2 /\ forall x, off <= x < off + n -> sp x = Live txg false
  | OpClaim off n txg => block_ok off n /\ (txg = 0 \/ txg = s) /\ (0 < length (mg_primaries (w_mg w)))%nat
  | OpPreload c => s - 1 <= spa_syncing_txg c <= s
  | OpSync c io => sync_args size s pass c io (w_ms w)
  | OpDone c ps => is_dirty (w_ms w) s = false
  end.

(** The metaslabs that operations lead to, with the states of their bytes. *)
Inductive reach : Z -> Z -> (Z -> ostate) -> world -> Prop :=
| reach_init c ps load mg st ck id ms_shift disk txg sp s w :
    start = id * 2 ^ ms_shift -> size = 2 ^ ms_shift -> 0 <= ms_shift -> 0 <= txg <= TXG_INITIAL ->
    fresh_group start mg -> disk_ok e start size sp disk -> 1 <= s ->
    metaslab_init e c ps load mg st ck id ms_shift (inr <$> disk) txg = Ret (inr w) -> reach s 0 sp w
| reach_step s pass sp w o w' r s' pass' sp' :
    reach s pass sp w -> op_pre s pass sp w o -> exec e s w o = Ret (w', r) ->
    spec_step s pass sp o r s' pass' sp' -> reach s' pass' sp' w'.

(** ** Every operation does what it should *)

Section Refines.
Hypothesis Hdev : device_ok.
Notation winv := (winv e start size).

Lemma spec_det s pass sp o r s1 p1 sp1 s2 p2 sp2 :
  spec_step s pass sp o r s1 p1 sp1 -> spec_step s pass sp o r s2 p2 sp2 -> s1 = s2 /\ p1 = p2 /\ sp1 = sp2.
Proof using All. intros H1 H2. destruct H1; inversion H2; by subst. Qed.

Lemma ms_step_ok s pass sp w o :
  winv s pass sp w -> op_pre s pass sp w o ->
  exists w' r s' pass' sp', exec e s w o = Ret (w', r) /\ spec_step s pass sp o r s' pass' sp' /\ winv s' pass' sp' w'.
Proof using All.
  intros Hw (H0 & Hs & Hpre). destruct Hdev as (Hp & Hcf & Ha & Hwr).
  pose proof (winv_core e start size Hp _ _ _ _ Hw) as Hc.
  destruct o as [c b n txg a aw|c off n|off n txg|off n txg|c|c io|c ps]; cbn [exec].
  - destruct Hpre as (Hsy & Hn & Hmod & Htxg & Hal & Haw).
    destruct (alloc_from_ok e start size Hp s pass sp w c b n txg a aw) as (w' & r & sp' & -> & Hres & Hw'); auto; [lia|].
    cbn [mbind result_bind]. exists w', (Offset r), s, pass, sp'. split; [done|]. split; [|done].
    destruct r as [off|]; cbn in Hres; [destruct Hres as (Hb & Hfree & ->); by constructor|subst; constructor].
  - destruct Hpre as (Hsy & Hb & Hfr).
    destruct (free_concrete_ok e start size Hp s pass sp (w_ms w) c off n Hc Hb Hsy Hfr) as (ms' & -> & Hc' & Hld & Hsel & Hst).
    cbn [mbind result_bind]. do 5 eexists. split; [done|]. split; [constructor|].
    eapply winv_ms; [exact Hp|exact Hw|done|unfold key; by rewrite Hsel, Hst|by rewrite Hld|]. rewrite Hsel.
    destruct (winv_selected _ _ _ _ _ _ _ Hw) as [Hb1 Hb2]. split; [done|]. intros x b Hx E Hne.
    destruct (decide (off <= x < off + n)) as [Hr|Hr].
    + rewrite upd_range_in in E by done. destruct (Hfr x Hr) as (b' & d & E' & _). by rewrite E' in E.
    + rewrite upd_range_out in E by done. by apply (Hb2 x).
  - destruct Hpre as (Hb & Htxg & Hlive).
    destruct (unalloc_ok e start size Hp s pass sp (w_ms w) off n txg Hc Hb Hlive Htxg) as (ms' & -> & Hc' & Hld & Hsel & Hst).
    cbn [mbind result_bind]. do 5 eexists. split; [done|]. split; [constructor|].
    eapply winv_ms; [exact Hp|exact Hw|done|unfold key; by rewrite Hsel, Hst|by rewrite Hld|]. rewrite Hsel.
    destruct (winv_selected _ _ _ _ _ _ _ Hw) as [Hb1 Hb2]. split; [done|]. intros x b Hx E Hne.
    destruct (decide (off <= x < off + n)) as [Hr|Hr]; [by rewrite upd_range_in in E|].
    rewrite upd_range_out in E by done. by apply (Hb2 x).
  - destruct Hpre as (Hb & Htxg & Hl).
    destruct (claim_ok e start size Hp s pass sp w off n txg Hw Hl Hwr Hb Htxg H0) as (w' & err & sp' & -> & Hres & Hw').
    cbn [mbind result_bind]. exists w', (Code err), s, pass, sp'. split; [done|]. split; [|done].
    destruct Hres as [(-> & Hfree & ->)|(-> & Hno & ->)]; [|by constructor].
    destruct (Z.eqb_spec txg 0) as [-> |]; by constructor.
  - destruct (preload_ok e start size Hp s pass sp w c Hw H0 ltac:(lia) Hpre) as (ms' & -> & Hw' & _).
    cbn [mbind result_bind]. do 5 eexists. split; [done|]. split; [constructor|done].
  - destruct (vdev_sync_ok e start size Hp Hcf s pass sp w c io Hw Hpre) as (w' & -> & Hw' & _).
    cbn [mbind result_bind]. do 5 eexists. split; [done|]. split; [constructor|done].
  - destruct (vdev_sync_done_ok e start size Hp Hcf s pass sp w c ps Hw Hpre H0 Hs) as (w' & -> & Hw').
    cbn [mbind result_bind]. do 5 eexists. split; [done|]. split; [constructor|done].
Qed.

Lemma reach_winv s pass sp w : reach s pass sp w -> winv s pass sp w.
Proof using All.
  induction 1 as [c ps load mg st ck id ms_shift disk txg sp s w Hst Hsz Hsh Htxg Hfg Hd Hs Hinit|
    s pass sp w o w' r s' pass' sp' _ IH Hpre Hex Hspec].
  - destruct Hdev as (Hp & Hcf & _).
    destruct (ms_init_ok e start size Hp Hcf c ps load mg st ck id ms_shift disk txg sp) as (w1 & Hi & Hw & _); auto.
    rewrite Hinit in Hi. injection Hi as <-. auto.
  - destruct (ms_step_ok s pass sp w o IH Hpre) as (w1 & r1 & s1 & p1 & sp1 & Hex1 & Hspec1 & Hw1).
    rewrite Hex in Hex1. injection Hex1 as <- <-. by destruct (spec_det _ _ _ _ _ _ _ _ _ _ _ Hspec Hspec1) as (-> & -> & ->).
Qed.
End Refines.
End Spec.
