(* ===== verification/MetaslabDemo.v ===== *)
(** * Metaslabs: an example

    A metaslab of 16 KB on a device with sectors of 512 bytes, and the states it
    goes through: opened, a block allocated, synced, freed, synced again, the
    transaction group done, and another block allocated. *)

From S2P Require Import Prelude TxgData Avl RangeTree RangeSet SpaceMap SpaceMapLog MetaslabAlloc MetaslabData.
From S2P Require Import MetaslabWeight MetaslabGroup Metaslab MetaslabInv MetaslabSteps MetaslabWorld.
From S2P Require Import MetaslabSync MetaslabDone MetaslabInit MetaslabSpec.

Definition demo_env : env :=
  Env false (fun _ => 0) true false (fun _ => false) true (metaslab_df_alloc default_params) 9 200 false (2 ^ 22) 512
    true true true true true true true 70 2 8 false 200 4 (2 ^ 12) (2 ^ 17).
Definition demo_group : metaslab_group :=
  MetaslabGroup avl_create [None; None] [None; None] 0 (replicate 64 0) (replicate 64 0).
Definition demo_ctx (s pass : Z) : sync_ctx := SyncCtx s (2 ^ 40) pass.
Definition demo_ps : pool_space := PoolSpace (2 ^ 30) 0 (2 ^ 20).
Definition demo_io : sync_io := SyncIo 7 8 9 (2 ^ 12) true.
Definition demo_stats : space_stats := SpaceStats 0 0 0 0 0 0 0 0 0 0.
Definition demo_ck : checkpoint_state := CheckpointState None 0 0 None.

(** The world a computation returns. *)
Definition no_world : world :=
  World (Metaslab 0 0 0 None (RangeTree avl_create 0 None (RtOwner avl_create false) []) None [] false 0 0 0 false []
           (MsSelection 0 0 0 0 0 0 false false 0)) demo_group demo_stats demo_ck 0.
Definition world_of (r : result (world * reply)) : world := match r with Ret (w, _) => w | Panic => no_world end.
Definition reply_of (r : result (world * reply)) : option reply := match r with Ret (_, p) => Some p | Panic => None end.

Lemma replied r p : reply_of r = Some p -> r = Ret (world_of r, p).
Proof. destruct r as [[w p']|]; cbn; congruence. Qed.

Definition demo_alloc (s txg : Z) : ms_op := OpAlloc (demo_ctx s 1) false 4096 txg 0 METASLAB_WEIGHT_PRIMARY.
Definition demo_free : ms_op := OpFree (demo_ctx 4 1) 16384 4096.
Definition demo_sync (pass : Z) : ms_op := OpSync (demo_ctx 4 pass) demo_io.
Definition demo_done : ms_op := OpDone (demo_ctx 4 2) demo_ps.
Definition demo_preload : ms_op := OpPreload (demo_ctx 4 1).

Definition demo_open : result (world * reply) :=
  w ← metaslab_init demo_env (demo_ctx 1 1) demo_ps false demo_group demo_stats demo_ck 1 14 None 0;
  match w with inr w => Ret (w, Done) | inl error => Panic end.
Definition demo0 : world := world_of demo_open.
Definition demo1 : world := world_of (exec demo_env 4 demo0 (demo_alloc 4 4)).
Definition demo2 : world := world_of (exec demo_env 4 demo1 (demo_sync 1)).
Definition demo3 : world := world_of (exec demo_env 4 demo2 demo_free).
Definition demo4 : world := world_of (exec demo_env 4 demo3 (demo_sync 2)).
Definition demo5 : world := world_of (exec demo_env 4 demo4 demo_done).
Definition demo6 : world := world_of (exec demo_env 5 demo5 (demo_alloc 5 5)).
Definition demo7 : world := world_of (exec demo_env 5 demo5 (OpSync (demo_ctx 5 1) demo_io)).
Definition demo8 : world := world_of (exec demo_env 5 demo7 (OpDone (demo_ctx 5 1) demo_ps)).
Definition demo9 : world := world_of (exec demo_env 6 demo8 (OpSync (demo_ctx 6 1) demo_io)).
Definition demo10 : world := world_of (exec demo_env 6 demo9 (OpDone (demo_ctx 6 1) demo_ps)).

(** The states of the bytes along the way. *)
Definition sp0 (x : Z) : ostate := Free.
Definition sp1 : Z -> ostate := upd_range sp0 16384 4096 (fun _ => Live 4 false).
Definition sp2 (x : Z) : ostate := sync_state 4 (sp1 x).
Definition sp3 : Z -> ostate := upd_range sp2 16384 4096 (fun x => free_state (sp2 x)).
Definition sp4 (x : Z) : ostate := sync_state 4 (sp3 x).
Definition sp5 (x : Z) : ostate := done_state 4 (defer_allowed demo_env demo_ps) (sp4 x).

Lemma demo_device : device_ok demo_env 16384 16384.
Proof.
  split; [|split; [|split; [apply df_alloc_spec|done]]].
  - unfold place_ok, unit_bytes. cbn. split_and!; first [lia|done|by left].
  - split; [done|]. cbn. split; [|lia]. exists 512%nat. split; [done|lia].
Qed.

Lemma demo_opens :
  metaslab_init demo_env (demo_ctx 1 1) demo_ps false demo_group demo_stats demo_ck 1 14 None 0 = Ret (inr demo0).
Proof.
  assert (demo_open = Ret (demo0, Done)) as H by (apply replied; vm_compute; reflexivity). revert H.
  unfold demo_open. destruct (metaslab_init _ _ _ _ _ _ _ _ _ _ _) as [[?|?]|]; cbn; congruence.
Qed.

Lemma demo_fresh : fresh_group 16384 demo_group.
Proof.
  split; [apply avl_create_wf|]. split; [constructor|]. split; [constructor|]. split; [done|]. split; [done|].
  split; [done|]. intros [] a Hl; apply list_elem_of_lookup_2 in Hl; cbn in Hl; set_solver.
Qed.

Lemma demo_reach0 : reach demo_env 16384 16384 4 0 sp0 demo0.
Proof.
  apply (reach_init _ _ _ (demo_ctx 1 1) demo_ps false demo_group demo_stats demo_ck 1 14 None 0).
  - lia.
  - lia.
  - lia.
  - unfold TXG_INITIAL, TXG_SIZE. lia.
  - apply demo_fresh.
  - split; [by left|done].
  - lia.
  - apply demo_opens.
Qed.

(** What the operations reply. *)

Lemma demo_exec1 : exec demo_env 4 demo0 (demo_alloc 4 4) = Ret (demo1, Offset (Some 16384)).
Proof. apply replied. vm_compute. reflexivity. Qed.
Lemma demo_exec2 : exec demo_env 4 demo1 (demo_sync 1) = Ret (demo2, Done).
Proof. apply replied. vm_compute. reflexivity. Qed.
Lemma demo_exec3 : exec demo_env 4 demo2 demo_free = Ret (demo3, Done).
Proof. apply replied. vm_compute. reflexivity. Qed.
Lemma demo_exec4 : exec demo_env 4 demo3 (demo_sync 2) = Ret (demo4, Done).
Proof. apply replied. vm_compute. reflexivity. Qed.
Lemma demo_exec5 : exec demo_env 4 demo4 demo_done = Ret (demo5, Done).
Proof. apply replied. vm_compute. reflexivity. Qed.
Lemma demo_exec6 : exec demo_env 5 demo5 (demo_alloc 5 5) = Ret (demo6, Offset (Some 20480)).
Proof. apply replied. vm_compute. reflexivity. Qed.
Lemma demo_exec7 : exec demo_env 5 demo5 (OpSync (demo_ctx 5 1) demo_io) = Ret (demo7, Done).
Proof. apply replied. vm_compute. reflexivity. Qed.
Lemma demo_exec8 : exec demo_env 5 demo7 (OpDone (demo_ctx 5 1) demo_ps) = Ret (demo8, Done).
Proof. apply replied. vm_compute. reflexivity. Qed.
Lemma demo_exec9 : exec demo_env 6 demo8 (OpSync (demo_ctx 6 1) demo_io) = Ret (demo9, Done).
Proof. apply replied. vm_compute. reflexivity. Qed.
Lemma demo_exec10 : exec demo_env 6 demo9 (OpDone (demo_ctx 6 1) demo_ps) = Ret (demo10, Done).
Proof. apply replied. vm_compute. reflexivity. Qed.

(** One step of the example. *)
Lemma demo_step s pass sp w o r w' s' pass' sp' :
  reach demo_env 16384 16384 s pass sp w -> op_pre demo_env 16384 16384 s pass sp w o ->
  exec demo_env s w o = Ret (w', r) -> spec_step demo_env 16384 16384 s pass sp o r s' pass' sp' ->
  reach demo_env 16384 16384 s' pass' sp' w'.
Proof. apply reach_step. Qed.

Lemma demo_pre1 : op_pre demo_env 16384 16384 4 0 sp0 demo0 (demo_alloc 4 4).
Proof.
  split; [lia|]. split; [lia|]. unfold unit_bytes, demo_alloc. cbn [vdev_ashift demo_env spa_syncing_txg demo_ctx].
  split_and!; first [lia|done].
Qed.

Lemma demo_reach1 : reach demo_env 16384 16384 4 0 sp1 demo1.
Proof.
  eapply demo_step; [apply demo_reach0|apply demo_pre1|apply demo_exec1|].
  constructor; [|done]. unfold block_ok, unit_bytes. cbn [vdev_ashift demo_env]. split_and!; try lia; done.
Qed.

Lemma demo_sync_args s pass w :
  0 < s -> s + 3 < 2 ^ 40 -> 0 <= pass -> (forall sm, ms_sm (w_ms w) = Some sm -> smp_objsize sm <= 2 ^ 32) ->
  sync_args 16384 s pass (demo_ctx s (pass + 1)) demo_io (w_ms w).
Proof.
  intros H0 Hs Hp Hsm. unfold sync_args. cbn. split_and!; try lia. intros sm E. specialize (Hsm sm E). lia.
Qed.

Lemma demo_pre2 : op_pre demo_env 16384 16384 4 0 sp1 demo1 (demo_sync 1).
Proof.
  split; [lia|]. split; [lia|]. apply (demo_sync_args 4 0); try lia.
  intros sm E. assert (ms_sm (w_ms demo1) = None) as E' by (vm_compute; reflexivity). congruence.
Qed.

Lemma demo_reach2 : reach demo_env 16384 16384 4 1 sp2 demo2.
Proof.
  eapply demo_step; [apply demo_reach1|apply demo_pre2|apply demo_exec2|].
  apply (spec_sync _ _ _ 4 0).
Qed.

Lemma demo_pre3 : op_pre demo_env 16384 16384 4 1 sp2 demo2 demo_free.
Proof.
  split; [lia|]. split; [lia|]. split; [done|]. split.
  - unfold block_ok, unit_bytes. cbn [vdev_ashift demo_env]. split_and!; first [lia|done].
  - intros x Hx. exists 4, true. split; [|done]. unfold sp2, sp1. by rewrite upd_range_in.
Qed.

Lemma demo_reach3 : reach demo_env 16384 16384 4 1 sp3 demo3.
Proof.
  eapply demo_step; [apply demo_reach2|apply demo_pre3|apply demo_exec3|]. constructor.
Qed.

(** The size of the space map of a world. *)
Definition objsize (w : world) : Z := match ms_sm (w_ms w) with Some sm => smp_objsize sm | None => 0 end.

Lemma demo_pre4 : op_pre demo_env 16384 16384 4 1 sp3 demo3 (demo_sync 2).
Proof.
  split; [lia|]. split; [lia|]. apply (demo_sync_args 4 1); try lia. intros sm E.
  assert (objsize demo3 <= 2 ^ 32) as H by (vm_compute; discriminate). unfold objsize in H. by rewrite E in H.
Qed.

Lemma demo_reach4 : reach demo_env 16384 16384 4 2 sp4 demo4.
Proof.
  eapply demo_step; [apply demo_reach3|apply demo_pre4|apply demo_exec4|].
  apply (spec_sync _ _ _ 4 1).
Qed.

Lemma demo_pre5 : op_pre demo_env 16384 16384 4 2 sp4 demo4 demo_done.
Proof. split; [lia|]. split; [lia|]. vm_compute. reflexivity. Qed.

Lemma demo_reach5 : reach demo_env 16384 16384 5 0 sp5 demo5.
Proof.
  eapply demo_step; [apply demo_reach4|apply demo_pre5|apply demo_exec5|].
  apply (spec_done _ _ _ 4 2).
Qed.

Lemma demo_pre6 : op_pre demo_env 16384 16384 5 0 sp5 demo5 (demo_alloc 5 5).
Proof.
  split; [lia|]. split; [lia|]. unfold unit_bytes, demo_alloc. cbn [vdev_ashift demo_env spa_syncing_txg demo_ctx].
  split_and!; first [lia|done].
Qed.

(** The two txgs after, in which nothing is done. *)

Definition sp7 (x : Z) : ostate := sync_state 5 (sp5 x).
Definition sp8 (x : Z) : ostate := done_state 5 (defer_allowed demo_env demo_ps) (sp7 x).
Definition sp9 (x : Z) : ostate := sync_state 6 (sp8 x).

Lemma demo_pre7 : op_pre demo_env 16384 16384 5 0 sp5 demo5 (OpSync (demo_ctx 5 1) demo_io).
Proof.
  split; [lia|]. split; [lia|]. apply (demo_sync_args 5 0); try lia. intros sm E.
  assert (objsize demo5 <= 2 ^ 32) as H by (vm_compute; discriminate). unfold objsize in H. by rewrite E in H.
Qed.

Lemma demo_pre8 : op_pre demo_env 16384 16384 5 1 sp7 demo7 (OpDone (demo_ctx 5 1) demo_ps).
Proof. split; [lia|]. split; [lia|]. vm_compute. reflexivity. Qed.

Lemma demo_pre9 : op_pre demo_env 16384 16384 6 0 sp8 demo8 (OpSync (demo_ctx 6 1) demo_io).
Proof.
  split; [lia|]. split; [lia|]. apply (demo_sync_args 6 0); try lia. intros sm E.
  assert (objsize demo8 <= 2 ^ 32) as H by (vm_compute; discriminate). unfold objsize in H. by rewrite E in H.
Qed.

Lemma demo_pre10 : op_pre demo_env 16384 16384 6 1 sp9 demo9 (OpDone (demo_ctx 6 1) demo_ps).
Proof. split; [lia|]. split; [lia|]. vm_compute. reflexivity. Qed.

(** The tree of free space after the first txg. *)
Lemma demo_free_tree : free_tree (ms_allocatable (w_ms demo5)).
Proof.
  assert (ms_loaded (w_ms demo5) = true) as Hl by (vm_compute; reflexivity).
  pose proof (reach_winv _ _ _ demo_device _ _ _ _ demo_reach5) as Hw.
  exact (proj1 (core_free_tree _ _ _ (proj1 demo_device) _ _ _ _ (winv_core0 _ _ _ _ _ _ _ Hw) Hl)).
Qed.
