(* ===== verification/MetaslabSpace.v ===== *)
(** * Metaslabs: the accounting of space

    Whatever operations a metaslab goes through, the device's count of
    allocated space is what the metaslab has allocated and deferred, and closing
    the metaslab gives back what opening it added.  That much needs nothing
    of the invariant: the operations that return keep the books.  In the runs of
    the specification the two numbers are the sizes of the sets they stand for. *)

From S2P Require Import Prelude TxgData Avl RangeTree SpaceMap MetaslabAlloc MetaslabData.
From S2P Require Import RangeSet SpaceMapLog MetaslabWeight MetaslabGroup Metaslab MetaslabInv MetaslabSteps.
From S2P Require Import MetaslabWorld MetaslabSync MetaslabDone MetaslabInit MetaslabSpec MetaslabDemo.

(** ** Returning computations *)

(** Take apart the hypothesis that a computation returns. *)
Ltac returned :=
  repeat match goal with
  | H : Panic = Ret _ |- _ => discriminate H
  | H : Ret _ = Ret _ |- _ => injection H as H; subst
  | H : (_, _) = (_, _) |- _ => injection H as H; subst
  | H : mbind _ ?m = Ret _ |- _ =>
      let E := fresh "R" in destruct m eqn:E; cbn [mbind result_bind] in H; [|discriminate H]
  | H : (let '(_, _) := ?p in _) = Ret _ |- _ => destruct p eqn:?
  | H : match ?o with Some _ => _ | None => _ end = Ret _ |- _ => destruct o eqn:?
  | H : (if ?b then _ else _) = Ret _ |- _ => destruct b
  end.

(** What the books depend on. *)
Definition acct (ms : metaslab) : Z * Z * Z * bool :=
  (space_map_allocated (ms_sm ms), ms_deferspace ms, ms_size ms,
   match ms_trees ms with Some _ => true | None => false end).

Definition books (w : world) : space_stats * (Z * Z * Z * bool) := (w_st w, acct (w_ms w)).

Lemma trees_some ms tr : trees ms = Ret tr -> ms_trees ms = Some tr.
Proof. unfold trees. intros H. by returned. Qed.

Lemma acct_trees ms tr tr' : trees ms = Ret tr -> acct (set_trees ms tr') = acct ms.
Proof. intros H%trees_some. unfold acct. cbn. by rewrite H. Qed.

Lemma load_acct e ms ms' err : metaslab_load e ms = Ret (ms', err) -> acct ms' = acct ms.
Proof. unfold metaslab_load. intros H. returned; done. Qed.

Lemma sort_books w weight w' : metaslab_group_sort_impl w weight = Ret w' -> books w' = books w.
Proof. unfold metaslab_group_sort_impl. intros H. by returned. Qed.

Lemma set_allocator_books w a p : books (set_allocator w a p) = books w.
Proof. done. Qed.

Lemma passivate_books w weight w' : metaslab_passivate w weight = Ret w' -> books w' = books w.
Proof.
  unfold metaslab_passivate, metaslab_passivate_allocator, metaslab_group_sort. intros H. returned.
  - by apply sort_books in H.
  - by apply sort_books in H.
Qed.

Lemma activate_allocator_books w a aw w' err : metaslab_activate_allocator w a aw = Ret (w', err) -> books w' = books w.
Proof. unfold metaslab_activate_allocator. intros H. by returned. Qed.

(** What is known to keep the books, in the hypotheses. *)
Ltac balance :=
  repeat match goal with
  | H : metaslab_load _ _ = Ret _ |- _ => apply load_acct in H
  | H : metaslab_group_sort _ _ = Ret _ |- _ => apply sort_books in H
  | H : metaslab_passivate _ _ = Ret _ |- _ => apply passivate_books in H
  | H : metaslab_activate_allocator _ _ _ = Ret _ |- _ => apply activate_allocator_books in H
  end;
  unfold books, acct in *; cbn in *; simplify_eq; try congruence.

Lemma activate_books e w a aw w' err : metaslab_activate e w a aw = Ret (w', err) -> books w' = books w.
Proof. unfold metaslab_activate. intros H. returned; balance. Qed.

Lemma may_passivate_books e c w w' : metaslab_segment_may_passivate e c w = Ret w' -> books w' = books w.
Proof. unfold metaslab_segment_may_passivate. intros H. returned; balance. Qed.

(** The account of a metaslab whose trees are known. *)
Ltac tally :=
  repeat match goal with H : trees _ = Ret _ |- _ => apply trees_some in H end;
  unfold acct; repeat split_if; cbn; by repeat match goal with H : ms_trees _ = Some _ |- _ => rewrite H end.

Lemma add_allocating_acct e ms off n txg ms' : add_allocating e ms off n txg = Ret ms' -> acct ms' = acct ms.
Proof. unfold add_allocating. intros H. returned. tally. Qed.

Lemma block_alloc_acct e c ms n txg ms' o : metaslab_block_alloc e c ms n txg = Ret (ms', o) -> acct ms' = acct ms.
Proof.
  unfold metaslab_block_alloc. intros H. returned; [|done].
  match goal with H : add_allocating _ _ _ _ _ = Ret _ |- _ => apply add_allocating_acct in H; unfold acct in *; cbn in *; congruence end.
Qed.

Lemma alloc_from_books e c w b n txg a aw w' r : alloc_from e c w b n txg a aw = Ret (w', r) -> books w' = books w.
Proof.
  unfold alloc_from. intros H. returned; try done;
    repeat match goal with
    | H : metaslab_activate _ _ _ _ = Ret _ |- _ => apply activate_books in H
    | H : metaslab_segment_may_passivate _ _ _ = Ret _ |- _ => apply may_passivate_books in H
    | H : metaslab_block_alloc _ _ _ _ _ = Ret _ |- _ => apply block_alloc_acct in H
    end; balance.
Qed.

Lemma free_concrete_acct e c ms off n ck ms' : metaslab_free_concrete e c ms off n ck = Ret ms' -> acct ms' = acct ms.
Proof. unfold metaslab_free_concrete. intros H. returned; tally. Qed.

Lemma unalloc_acct e ms off n txg ms' : metaslab_unalloc_dva e ms off n txg = Ret ms' -> acct ms' = acct ms.
Proof. unfold metaslab_unalloc_dva. intros H. returned. tally. Qed.

Lemma claim_books e w off n txg w' r : metaslab_claim_concrete e w off n txg = Ret (w', r) -> books w' = books w.
Proof.
  unfold metaslab_claim_concrete. intros H. returned;
    repeat match goal with
    | H : metaslab_activate _ _ _ _ = Ret _ |- _ => apply activate_books in H
    | H : add_allocating _ _ _ _ _ = Ret _ |- _ => apply add_allocating_acct in H
    end; balance.
Qed.

Lemma preload_acct e c ms ms' : metaslab_preload e c ms = Ret ms' -> acct ms' = acct ms.
Proof. unfold metaslab_preload. intros H. returned; balance. Qed.

(** *** [vdev_sync] *)

Lemma write_loop_alloc : forall fuel sm t v words db cursor start size sm' db',
  write_loop fuel sm t v words db cursor start size = Ret (sm', db') -> sm_alloc sm' = sm_alloc sm.
Proof.
  induction fuel as [|fuel IH]; intros sm t v words db cursor start size sm' db' H; cbn [write_loop] in H.
  - returned; done.
  - destruct (size =? 0); [by returned|]. destruct (verify (cursor <=? blk_words sm)%nat); cbn [mbind result_bind] in H; [|discriminate H]. destruct (cursor =? blk_words sm)%nat.
    + destruct (hold_block _ _ _) as [db1 ws1]. returned; apply IH in H; done.
    + returned; apply IH in H; done.
Qed.

Lemma write_segs_alloc v2 force t v : forall rss sm db sm',
  write_segs v2 force sm rss t v db = Ret sm' -> sm_alloc sm' = sm_alloc sm.
Proof.
  induction rss as [|rs rss IH]; intros sm db sm' H; cbn [write_segs] in H; returned; [done|].
  apply IH in H. unfold space_map_write_seg in *. returned.
  match goal with H : write_loop _ _ _ _ _ _ _ _ _ = Ret _ |- _ => apply write_loop_alloc in H; congruence end.
Qed.

Lemma sm_write_alloc {S} e c txg sm (rt : range_tree S) t sm' :
  sm_write e c txg sm rt t = Ret sm' -> sm_alloc sm' = sm_alloc sm.
Proof.
  unfold sm_write, space_map_write. intros H. returned; [done|]. unfold space_map_write_impl in H.
  destruct (hold_block _ _ _) as [db ws]. returned. match goal with H : write_segs _ _ _ _ _ _ _ = Ret _ |- _ => by apply write_segs_alloc in H end.
Qed.

Lemma histogram_add_alloc {S} sm (rt : range_tree S) sm' :
  space_map_histogram_add sm rt = Ret sm' -> sm_alloc sm' = sm_alloc sm.
Proof. unfold space_map_histogram_add. intros H. returned; done. Qed.

(** A loop that returns keeps what its rounds keep. *)
Lemma for_loop_keeps {A} (P : A -> Prop) body : forall n c (a a' : A),
  for_loop n c body a = Ret a' -> (forall i a a', body i a = Ret a' -> P a -> P a') -> P a -> P a'.
Proof.
  induction n as [|n IH]; intros c a a' H Hb Ha; cbn [for_loop] in H; returned; [done|]. eauto.
Qed.

Lemma sync_histogram_alloc ms tr sm sm' : sync_histogram ms tr sm = Ret sm' -> sm_alloc sm' = sm_alloc sm.
Proof.
  unfold sync_histogram. intros H. returned; apply histogram_add_alloc in H; rewrite H.
  - match goal with H : for_loop _ _ _ _ = Ret _ |- _ =>
      eapply (for_loop_keeps (fun s => sm_alloc s = sm_alloc sm)) in H; [exact H| |] end.
    + intros i s s' Hs Ha. returned. match goal with H : space_map_histogram_add _ _ = Ret _ |- _ => apply histogram_add_alloc in H; congruence end.
    + repeat match goal with H : space_map_histogram_add _ _ = Ret _ |- _ => apply histogram_add_alloc in H end.
      unfold space_map_histogram_clear in *. destruct (sm_has_hist sm); cbn in *; congruence.
  - done.
Qed.

Lemma condense_acct e c io ms sm txg ms' sm' :
  metaslab_condense e c io ms sm txg = Ret (ms', sm') -> sm_alloc sm' = sm_alloc sm /\ acct ms' = acct ms.
Proof.
  unfold metaslab_condense. intros H. returned.
  repeat match goal with H : sm_write _ _ _ _ _ _ = Ret _ |- _ => apply sm_write_alloc in H; try rewrite H end.
  split; [|done]. unfold space_map_truncate. by split_if.
Qed.

Lemma should_condense_acct e c io ms sm ms' b :
  metaslab_should_condense e c io ms sm = Ret (ms', b) -> acct ms' = acct ms.
Proof. unfold metaslab_should_condense. intros H. returned; done. Qed.

Lemma sync_log_acct e c io ms sm txg ms' sm' :
  sync_log e c io ms sm txg = Ret (ms', sm') -> sm_alloc sm' = sm_alloc sm /\ acct ms' = acct ms.
Proof.
  unfold sync_log. intros H. returned;
    repeat match goal with
    | H : metaslab_should_condense _ _ _ _ _ = Ret _ |- _ => apply should_condense_acct in H
    | H : metaslab_condense _ _ _ _ _ _ = Ret _ |- _ => apply condense_acct in H as [? ?]
    | H : sm_write _ _ _ _ _ _ = Ret _ |- _ => apply sm_write_alloc in H
    end; split; congruence.
Qed.

Lemma open_checkpoint_books e io w tr w' : open_checkpoint_sm e io w tr = Ret w' -> books w' = books w.
Proof. unfold open_checkpoint_sm. intros H. returned; done. Qed.

Lemma histograms_books op e w w' : group_histograms op e w = Ret w' -> books w' = books w /\ w_ms w' = w_ms w.
Proof. unfold group_histograms. intros H. returned; done. Qed.

Lemma sync_checkpointing_books e c w txg w' :
  sync_checkpointing e c w txg = Ret w' -> books w' = books w /\ ms_sm (w_ms w') = ms_sm (w_ms w).
Proof. unfold sync_checkpointing. intros H. returned; split; try done. unfold books. f_equal. tally. Qed.

Lemma sync_trees_acct e c ms txg ms' : sync_trees e c ms txg = Ret ms' -> acct ms' = acct ms.
Proof. unfold sync_trees. intros H. returned; tally. Qed.

Lemma metaslab_sync_books e c io w txg w' : metaslab_sync e c io w txg = Ret w' -> books w' = books w.
Proof.
  assert (wrap64 0 = 0) as E0 by done.
  unfold metaslab_sync, metaslab_group_histogram_remove, metaslab_group_histogram_add. intros H. returned; try done;
  repeat match goal with
  | H : sync_trees _ _ _ _ = Ret _ |- _ => apply sync_trees_acct in H
  | H : group_histograms _ _ _ = Ret _ |- _ => apply histograms_books in H as [? ?]
  | H : sync_histogram _ _ _ = Ret _ |- _ => apply sync_histogram_alloc in H
  | H : sync_checkpointing _ _ _ _ = Ret _ |- _ => apply sync_checkpointing_books in H as [? ?]
  | H : sync_log _ _ _ _ _ _ = Ret _ |- _ => apply sync_log_acct in H as [? ?]
  | H : open_checkpoint_sm _ _ _ _ = Ret _ |- _ => apply open_checkpoint_books in H
  end; split_if; unfold books, acct in *; cbn in *; simplify_eq;
  repeat match goal with H : ms_sm _ = _ |- _ => progress rewrite H in * end; cbn in *; congruence.
Qed.

Lemma vdev_sync_books e c io w txg w' : vdev_sync e c io w txg = Ret w' -> books w' = books w.
Proof.
  unfold vdev_sync. intros H. returned; [|done].
  match goal with H : metaslab_sync _ _ _ _ _ = Ret _ |- _ => apply metaslab_sync_books in H; exact H end.
Qed.

(** ** Arithmetic modulo [2^64] *)

Definition cong64 (a b : Z) : Prop := wrap64 a = wrap64 b.
Infix "≡64" := cong64 (at level 70, no associativity) : Z_scope.

#[export] Instance cong64_equiv : Equivalence cong64.
Proof. unfold cong64. split; [done|by intros ???|intros ???; congruence]. Qed.

#[export] Instance add_cong64 : Proper (cong64 ==> cong64 ==> cong64) Z.add.
Proof. unfold cong64, wrap64. intros a a' Ha b b' Hb. by rewrite Zplus_mod, Ha, Hb, <- Zplus_mod. Qed.

#[export] Instance sub_cong64 : Proper (cong64 ==> cong64 ==> cong64) Z.sub.
Proof. unfold cong64, wrap64. intros a a' Ha b b' Hb. by rewrite Zminus_mod, Ha, Hb, <- Zminus_mod. Qed.

Lemma cong64_eq a b : a = b -> a ≡64 b.
Proof. by intros ->. Qed.

Lemma wrap64_cong a : wrap64 a ≡64 a.
Proof. unfold cong64, wrap64. by rewrite Zmod_mod. Qed.

Lemma wraps64_cong a : wraps64 a ≡64 a.
Proof.
  unfold cong64, wrap64, wraps64. rewrite Zminus_mod, Zmod_mod, <- Zminus_mod. f_equal. lia.
Qed.

Lemma add64_cong a b : add64 a b ≡64 a + b.
Proof. apply wrap64_cong. Qed.

(** ** [vdev_sync_done] *)

(** The counts of the device and the class, [st] being those without this
    metaslab: what the metaslab has allocated and what it defers count as
    allocated, and the class has what is deferred. *)
Definition accounted (st : space_stats) (w : world) : Prop :=
  let ms := w_ms w in
  let used := space_map_allocated (ms_sm ms) + ms_deferspace ms in
  let space := match ms_trees ms with Some _ => ms_size ms | None => 0 end in
  vs_alloc (w_st w) ≡64 vs_alloc st + used /\ mc_alloc (w_st w) ≡64 mc_alloc st + used /\
  mc_deferred (w_st w) ≡64 mc_deferred st + ms_deferspace ms /\
  vs_space (w_st w) ≡64 vs_space st + space /\ mc_space (w_st w) ≡64 mc_space st + space.

Lemma accounted_books st w w' : accounted st w -> books w' = books w -> accounted st w'.
Proof.
  unfold accounted, books, acct. intros H E. injection E as E1 E2 E3 E4 E5. rewrite E1, E2, E3, E4.
  destruct (ms_trees (w_ms w')), (ms_trees (w_ms w)); try done; by rewrite E4 in H.
Qed.

Lemma init_trees_accounted e st w w' :
  accounted st w -> init_trees e w = Ret w' -> accounted st w' /\ ms_trees (w_ms w') <> None.
Proof.
  unfold init_trees. intros Ha H. returned; [split; [done|congruence]|]. split; [|done].
  unfold accounted in *. rewrite Heqo in Ha. destruct Ha as (H1 & H2 & H3 & H4 & H5). cbn.
  rewrite !add64_cong, !Z.add_0_r. rewrite Z.add_0_r in H4, H5. by rewrite H4, H5.
Qed.

Lemma vacate_to_free_acct e ms src src' ms' : vacate_to_free e ms src = Ret (src', ms') -> acct ms' = acct ms.
Proof. unfold vacate_to_free. intros H. by returned. Qed.

Lemma rotate_acct e ps ms txg ms' : rotate_defer e ps ms txg = Ret ms' -> acct ms' = acct ms /\ ms_sm ms' = ms_sm ms.
Proof.
  unfold rotate_defer, vacate_to_free, range_tree_swap. intros H. returned; split; try done; tally.
Qed.

Lemma count_ready_books w : books (count_ready w) = books w.
Proof. unfold count_ready. by split_if. Qed.

Lemma weight_acct e c ms ms' weight : metaslab_weight e c ms = Ret (ms', weight) -> acct ms' = acct ms.
Proof.
  unfold metaslab_weight, metaslab_set_fragmentation. intros H. returned; repeat split_if; try done.
Qed.

Lemma unload_books w w' : metaslab_unload w = Ret w' -> books w' = books w.
Proof. unfold metaslab_unload. intros H. by returned. Qed.

Lemma unload_idle_books e w txg w' : unload_idle e w txg = Ret w' -> books w' = books w.
Proof.
  unfold unload_idle. intros H. returned; try done;
    repeat match goal with
    | H : metaslab_passivate _ _ = Ret _ |- _ => apply passivate_books in H
    | H : metaslab_unload _ = Ret _ |- _ => apply unload_books in H
    end; congruence.
Qed.

Lemma sync_done_accounted e c ps st w txg w' :
  accounted st w -> metaslab_sync_done e c ps w txg = Ret w' -> accounted st w'.
Proof.
  unfold metaslab_sync_done. intros Ha H.
  destruct (init_trees e w) as [w0|] eqn:E0; cbn [mbind result_bind] in H; [|done].
  destruct (init_trees_accounted e st w w0 Ha E0) as [Ha0 Htr]. clear Ha E0.
  destruct (trees (w_ms w0)) as [tr|]; cbn [mbind result_bind] in H; [|done].
  destruct (defer_delta e ps tr txg) as [dd|]; cbn [mbind result_bind] in H; [|done].
  set (w1 := set_w_st w0 _) in H. destruct (rotate_defer e ps (w_ms w1) txg) as [ms|] eqn:Er; cbn [mbind result_bind] in H; [|done].
  apply rotate_acct in Er as [Er Es]. set (ms2 := set_ms_deferspace _ _) in H.
  assert (accounted st (set_w_ms w1 ms2)) as H2.
  { destruct Ha0 as (H1 & H2 & H3 & H4 & H5). unfold accounted, acct in *. cbn in *.
    injection Er as E1 E2 E3 E4. rewrite Es, E2, E3.
    assert (match ms_trees ms with Some _ => ms_size (w_ms w0) | None => 0 end =
      match ms_trees (w_ms w0) with Some _ => ms_size (w_ms w0) | None => 0 end) as ->
      by (destruct (ms_trees ms), (ms_trees (w_ms w0)); congruence).
    rewrite !add64_cong, !wraps64_cong, !Z.add_0_r, H1, H2, H3, H4, H5.
    assert (space_map_allocated (space_map_update <$> ms_sm (w_ms w0)) ≡64
      space_map_allocated (ms_sm (w_ms w0)) + sm_alloc_delta (ms_sm (w_ms w0))) as ->.
    { destruct (ms_sm (w_ms w0)) as [sm|]; cbn; [|done]. unfold space_map_alloc_delta.
      rewrite !wrap64_cong, wraps64_cong. by replace (sm_alloc sm + (smp_alloc sm - sm_alloc sm)) with (smp_alloc sm) by lia. }
    split_and!; try done; apply cong64_eq; lia. }
  set (ms3 := if negb _ then _ else _) in H.
  assert (accounted st (count_ready (set_w_ms w1 ms3))) as H3.
  { eapply accounted_books; [exact H2|]. rewrite count_ready_books. unfold ms3. by split_if. }
  clearbody ms3. returned.
  repeat match goal with
  | H : metaslab_weight _ _ _ = Ret _ |- _ => apply weight_acct in H
  | H : metaslab_group_sort _ _ = Ret _ |- _ => apply sort_books in H
  | H : unload_idle _ _ _ = Ret _ |- _ => apply unload_idle_books in H
  end.
  eapply accounted_books; [exact H3|]. unfold books in *; cbn in *; congruence.
Qed.

(** ** Operations *)

Lemma exec_accounted e st s w o w' r : accounted st w -> exec e s w o = Ret (w', r) -> accounted st w'.
Proof.
  intros Ha H. destruct o as [| | | | | |c ps]; cbn [exec] in H; returned;
    try (eapply accounted_books; [exact Ha|];
      repeat match goal with
      | H : alloc_from _ _ _ _ _ _ _ _ = Ret _ |- _ => by apply alloc_from_books in H
      | H : metaslab_free_concrete _ _ _ _ _ _ = Ret _ |- _ => apply free_concrete_acct in H
      | H : metaslab_unalloc_dva _ _ _ _ _ = Ret _ |- _ => apply unalloc_acct in H
      | H : metaslab_claim_concrete _ _ _ _ _ = Ret _ |- _ => by apply claim_books in H
      | H : metaslab_preload _ _ _ = Ret _ |- _ => apply preload_acct in H
      | H : vdev_sync _ _ _ _ _ = Ret _ |- _ => by apply vdev_sync_books in H
      end; by (unfold books; cbn; congruence)).
  unfold vdev_sync_done in *. returned; [|done]. eapply sync_done_accounted; [|eassumption]. exact Ha.
Qed.

(** Operations one after the other; the end of a txg begins the next. *)
Fixpoint execs (e : env) (s : Z) (w : world) (os : list ms_op) : result (Z * world) :=
  match os with
  | [] => Ret (s, w)
  | o :: os =>
      '(w, _) ← exec e s w o;
      execs e (match o with OpDone _ _ => s + 1 | _ => s end) w os
  end.

Lemma execs_accounted e st os : forall s w s' w', accounted st w -> execs e s w os = Ret (s', w') -> accounted st w'.
Proof.
  induction os as [|o os IH]; intros s w s' w' Ha H; cbn [execs] in H; returned; [done|].
  eapply IH; [|exact H]. eapply exec_accounted; [exact Ha|eassumption].
Qed.

Lemma set_fragmentation_acct e c ms ms' : metaslab_set_fragmentation e c ms = Ret ms' -> acct ms' = acct ms.
Proof. unfold metaslab_set_fragmentation. intros H. returned; repeat split_if; done. Qed.

Lemma opened_accounted e c ps load mg st ck id ms_shift disk txg w :
  init_opened e c ps load mg st ck id ms_shift disk txg = Ret w -> accounted st w.
Proof.
  unfold init_opened. set (sm := _ <$> disk). intros H.
  destruct (new_metaslab id ms_shift sm) as [ms|] eqn:E1; cbn [mbind result_bind] in H; [|done].
  assert (accounted st (World ms mg st ck (space_map_object sm))) as Ha.
  { clear H. unfold new_metaslab in E1. returned. unfold accounted. cbn.
    assert (space_map_allocated sm = 0) as -> by (unfold sm; by destruct disk).
    rewrite !Z.add_0_r. done. }
  destruct (metaslab_group_add e _) as [w1|] eqn:E2; cbn [mbind result_bind] in H; [|done].
  assert (accounted st w1) as Ha1.
  { clear H. eapply accounted_books; [exact Ha|]. unfold metaslab_group_add in E2. returned. by apply histograms_books in E2 as [E2 _]. }
  destruct (metaslab_set_fragmentation e c (w_ms w1)) as [ms2|] eqn:E3; cbn [mbind result_bind] in H; [|done].
  apply set_fragmentation_acct in E3.
  assert (accounted st (set_w_ms w1 ms2)) as Ha2 by (eapply accounted_books; [exact Ha1|]; unfold books; cbn; congruence).
  clear Ha Ha1 E1 E2 E3.
  assert (forall w3, (if txg <=? TXG_INITIAL then metaslab_sync_done e c ps (set_w_ms w1 ms2) 0 else Ret (set_w_ms w1 ms2)) = Ret w3 ->
    accounted st w3) as Hd by (clear H; intros w3 E; returned; [by eapply sync_done_accounted|done]).
  destruct (if txg <=? TXG_INITIAL then _ else _) as [w3|] eqn:E4; cbn [mbind result_bind] in H; [|done].
  specialize (Hd w3 eq_refl). eapply accounted_books; [exact Hd|]. clear Hd E4 Ha2. returned; destruct (txg =? 0); balance.
Qed.

Lemma init_accounted e c ps load mg st ck id ms_shift object txg w :
  metaslab_init e c ps load mg st ck id ms_shift object txg = Ret (inr w) -> accounted st w.
Proof.
  unfold metaslab_init. intros H. destruct object as [[?|?]|]; [done|..];
    (destruct (init_opened _ _ _ _ _ _ _ _ _ _ _) eqn:E; [|done]; cbn in H; simplify_eq; by eapply opened_accounted).
Qed.

(** What closing the metaslab leaves of the counts. *)
Lemma fini_accounted e st w mg st' :
  accounted st w -> metaslab_fini e w = Ret (mg, st') ->
  vs_alloc st' ≡64 vs_alloc st + ms_deferspace (w_ms w) /\ mc_alloc st' ≡64 mc_alloc st + ms_deferspace (w_ms w) /\
  mc_deferred st' ≡64 mc_deferred st + ms_deferspace (w_ms w) /\
  vs_space st' ≡64 vs_space st /\ mc_space st' ≡64 mc_space st.
Proof.
  unfold metaslab_fini, metaslab_group_remove, metaslab_group_histogram_remove. intros Ha H. returned.
  match goal with H : group_histograms _ _ _ = Ret ?w1 |- _ => apply histograms_books in H as [Hb _];
    assert (accounted st w1) as Ha1 by (by eapply accounted_books); clear Ha end.
  match goal with H : metaslab_unload _ = Ret _ |- _ => apply unload_books in H as Hu end.
  match goal with H : trees _ = Ret _ |- _ => apply trees_some in H as Ht end.
  unfold books, acct in *. cbn in *. simplify_eq. rewrite Ht in *.
  destruct Ha1 as (A1 & A2 & A3 & A4 & A5).
  match goal with E : ms_deferspace _ = ms_deferspace (w_ms w) |- _ => rewrite <- E end.
  destruct (ms_trees (w_ms _)); [|done]. rewrite !add64_cong, !wraps64_cong, A1, A2, A3, A4, A5.
  split_and!; apply cong64_eq; lia.
Qed.

(** ** The space map is synced at the end of a txg

    Between the end of a txg and the first pass of the next, the allocated
    space counted as synced is that of the space map as written. *)

(** The space map is the same, and what is dirty stays dirty. *)
Definition keeps (ms ms' : metaslab) : Prop :=
  ms_sm ms' = ms_sm ms /\ forall t, is_dirty ms t = true -> is_dirty ms' t = true.

#[export] Instance keeps_refl : Reflexive keeps.
Proof. done. Qed.
#[export] Instance keeps_trans : Transitive keeps.
Proof. intros a b c [H1 H2] [H3 H4]. split; [congruence|auto]. Qed.

Lemma keeps_same ms ms' : ms_sm ms' = ms_sm ms -> ms_txg_node ms' = ms_txg_node ms -> keeps ms ms'.
Proof. intros H1 H2. split; [done|]. intros t. unfold is_dirty. by rewrite H2. Qed.

Lemma keeps_dirty ms t : keeps ms (vdev_dirty ms t).
Proof. split; [done|]. intros t'. apply is_dirty_more, vdev_dirty_more. Qed.

(** The last change is one that [keeps], or of other fields. *)
Ltac keeps_tac :=
  repeat match goal with
  | |- keeps ?a ?a => reflexivity
  | H : keeps _ ?b |- keeps _ ?b => etrans; [|exact H]; clear H
  | |- keeps _ (vdev_dirty ?m _) => etrans; [|apply keeps_dirty]
  | |- keeps _ (set_ms_sel ?m _) => etrans; [|by apply (keeps_same m)]
  | |- keeps _ (set_ms_allocatable ?m _) => etrans; [|by apply (keeps_same m)]
  | |- keeps _ (set_ms_lbas ?m _) => etrans; [|by apply (keeps_same m)]
  | |- keeps _ (set_ms_loaded ?m _) => etrans; [|by apply (keeps_same m)]
  | |- keeps _ (set_trees ?m _) => etrans; [|by apply (keeps_same m)]
  | |- keeps _ (set_ms_alloc_txg ?m _) => etrans; [|by apply (keeps_same m)]
  | |- keeps _ (set_ms_new ?m _) => etrans; [|by apply (keeps_same m)]
  | |- keeps _ (if ?b then _ else _) => destruct b
  end.

Lemma load_keeps e ms ms' err : metaslab_load e ms = Ret (ms', err) -> keeps ms ms'.
Proof. unfold metaslab_load. intros H. returned; by apply keeps_same. Qed.

Lemma sort_keeps w weight w' : metaslab_group_sort_impl w weight = Ret w' -> keeps (w_ms w) (w_ms w').
Proof. unfold metaslab_group_sort_impl. intros H. returned. by apply keeps_same. Qed.

Lemma passivate_keeps w weight w' : metaslab_passivate w weight = Ret w' -> keeps (w_ms w) (w_ms w').
Proof.
  unfold metaslab_passivate, metaslab_passivate_allocator, metaslab_group_sort. intros H. returned; apply sort_keeps in H;
    (etrans; [|exact H]); by apply keeps_same.
Qed.

Lemma activate_allocator_keeps w a aw w' err : metaslab_activate_allocator w a aw = Ret (w', err) -> keeps (w_ms w) (w_ms w').
Proof. unfold metaslab_activate_allocator. intros H. returned; by apply keeps_same. Qed.

(** What the parts of an operation keep. *)
Ltac keep_parts :=
  repeat match goal with
  | H : metaslab_load _ _ = Ret _ |- _ => apply load_keeps in H
  | H : metaslab_group_sort _ _ = Ret _ |- _ => apply sort_keeps in H
  | H : metaslab_passivate _ _ = Ret _ |- _ => apply passivate_keeps in H
  | H : metaslab_activate_allocator _ _ _ = Ret _ |- _ => apply activate_allocator_keeps in H
  end; cbn [w_ms set_w_ms set_w_mg] in *.

Lemma activate_keeps e w a aw w' err : metaslab_activate e w a aw = Ret (w', err) -> keeps (w_ms w) (w_ms w').
Proof. unfold metaslab_activate. intros H. returned; keep_parts; keeps_tac. Qed.

Lemma may_passivate_keeps e c w w' : metaslab_segment_may_passivate e c w = Ret w' -> keeps (w_ms w) (w_ms w').
Proof. unfold metaslab_segment_may_passivate. intros H. returned; keep_parts; keeps_tac. Qed.

Lemma add_allocating_keeps e ms off n txg ms' : add_allocating e ms off n txg = Ret ms' -> keeps ms ms'.
Proof. unfold add_allocating. intros H. returned; keeps_tac. Qed.

Lemma block_alloc_keeps e c ms n txg ms' o : metaslab_block_alloc e c ms n txg = Ret (ms', o) -> keeps ms ms'.
Proof.
  unfold metaslab_block_alloc, set_max_size. intros H. returned;
    repeat match goal with H : add_allocating _ _ _ _ _ = Ret _ |- _ => apply add_allocating_keeps in H end; keeps_tac.
Qed.

Lemma alloc_from_keeps e c w b n txg a aw w' r : alloc_from e c w b n txg a aw = Ret (w', r) -> keeps (w_ms w) (w_ms w').
Proof.
  unfold alloc_from. intros H. returned;
    repeat match goal with
    | H : metaslab_activate _ _ _ _ = Ret _ |- _ => apply activate_keeps in H
    | H : metaslab_segment_may_passivate _ _ _ = Ret _ |- _ => apply may_passivate_keeps in H
    | H : metaslab_block_alloc _ _ _ _ _ = Ret _ |- _ => apply block_alloc_keeps in H
    end; keep_parts; keeps_tac.
Qed.

Lemma free_concrete_keeps e c ms off n ck ms' : metaslab_free_concrete e c ms off n ck = Ret ms' -> keeps ms ms'.
Proof. unfold metaslab_free_concrete. intros H. returned; keeps_tac. Qed.

Lemma unalloc_keeps e ms off n txg ms' : metaslab_unalloc_dva e ms off n txg = Ret ms' -> keeps ms ms'.
Proof. unfold metaslab_unalloc_dva. intros H. returned; keeps_tac. Qed.

Lemma claim_keeps e w off n txg w' r : metaslab_claim_concrete e w off n txg = Ret (w', r) -> keeps (w_ms w) (w_ms w').
Proof.
  unfold metaslab_claim_concrete. intros H. returned;
    repeat match goal with
    | H : metaslab_activate _ _ _ _ = Ret _ |- _ => apply activate_keeps in H
    | H : add_allocating _ _ _ _ _ = Ret _ |- _ => apply add_allocating_keeps in H
    end; keep_parts; keeps_tac.
Qed.

Lemma preload_keeps e c ms ms' : metaslab_preload e c ms = Ret ms' -> keeps ms ms'.
Proof. unfold metaslab_preload. intros H. returned; keep_parts; keeps_tac. Qed.

Lemma weight_sm e c ms ms' weight : metaslab_weight e c ms = Ret (ms', weight) -> ms_sm ms' = ms_sm ms.
Proof. unfold metaslab_weight, metaslab_set_fragmentation. intros H. returned; repeat split_if; done. Qed.

Lemma unload_idle_sm e w txg w' : unload_idle e w txg = Ret w' -> ms_sm (w_ms w') = ms_sm (w_ms w).
Proof.
  unfold unload_idle, metaslab_unload. intros H. returned; keep_parts;
    repeat match goal with H : keeps _ _ |- _ => destruct H as [H _] end; cbn in *; congruence.
Qed.

Lemma count_ready_sm w : ms_sm (w_ms (count_ready w)) = ms_sm (w_ms w).
Proof. unfold count_ready. by split_if. Qed.

(** The space map as written is the one that counts as synced. *)
Definition alloc_synced (ms : metaslab) : Prop := forall sm, ms_sm ms = Some sm -> sm_alloc sm = smp_alloc sm.

Lemma sync_done_synced e c ps w txg w' : metaslab_sync_done e c ps w txg = Ret w' -> alloc_synced (w_ms w').
Proof.
  unfold metaslab_sync_done. intros H sm E. returned.
  match goal with H : unload_idle _ _ _ = Ret _ |- _ => apply unload_idle_sm in H; rewrite H in E; clear H end.
  keep_parts. repeat match goal with H : keeps _ _ |- _ => destruct H as [H _] end.
  match goal with H : ms_sm (w_ms _) = ms_sm _ |- _ => rewrite H in E; clear H end.
  match goal with H : metaslab_weight _ _ _ = Ret _ |- _ => apply weight_sm in H; rewrite H in E; clear H end.
  rewrite count_ready_sm in E. cbn in E. match type of E with ms_sm (if ?b then _ else _) = _ => destruct b end; cbn in E;
    match type of E with _ <$> ?o = _ => destruct o; [|done] end; injection E as <-; done.
Qed.

Lemma init_synced e c ps load mg st ck id ms_shift object txg w :
  0 <= txg <= TXG_INITIAL -> metaslab_init e c ps load mg st ck id ms_shift object txg = Ret (inr w) -> alloc_synced (w_ms w).
Proof.
  intros Htxg H. assert (exists disk, init_opened e c ps load mg st ck id ms_shift disk txg = Ret w) as [disk Ho].
  { unfold metaslab_init in H. destruct object as [[?|sm]|]; [done|exists (Some sm)|exists None];
      (destruct (init_opened _ _ _ _ _ _ _ _ _ _ _); [|done]; cbn in H; by simplify_eq). }
  clear H. unfold init_opened in Ho. rewrite (proj2 (Z.leb_le txg TXG_INITIAL)) in Ho by lia. intros sm Esm.
  returned; keep_parts; repeat match goal with H : keeps _ _ |- _ => destruct H as [H _] end;
    match goal with H : metaslab_sync_done _ _ _ _ _ = Ret _ |- _ => apply sync_done_synced in H; apply H end;
    destruct (txg =? 0); cbn in Esm; congruence.
Qed.

(** The metaslab is synced before the first pass of a txg, and afterwards unless
    it is on the list of [vdev_sync_done]. *)
Definition synced_ok (s pass : Z) (ms : metaslab) : Prop :=
  0 <= pass /\ (pass = 0 \/ is_dirty ms (s - 1) = false -> alloc_synced ms).

Lemma synced_keeps s pass ms ms' : synced_ok s pass ms -> keeps ms ms' -> synced_ok s pass ms'.
Proof.
  intros [Hp Ha] [Hsm Hd]. split; [done|]. intros Hor. unfold alloc_synced. rewrite Hsm. apply Ha.
  destruct Hor as [|Hn]; [by left|right]. destruct (is_dirty ms (s - 1)) eqn:E; [|done]. by rewrite (Hd _ E) in Hn.
Qed.

Lemma txg_clean s : 0 < s < 2 ^ 63 -> TXG_CLEAN s = s - 1.
Proof. intros Hs. unfold TXG_CLEAN. apply sub64_small; unfold u64; lia. Qed.

Section Synced.
Context (e : env) (start size : Z) (Hdev : device_ok e start size).

Lemma reach_synced s pass sp w : reach e start size s pass sp w -> synced_ok s pass (w_ms w).
Proof using All.
  induction 1 as [c ps load mg st ck id ms_shift disk txg sp s w Hst Hsz Hsh Htxg Hfg Hd Hs Hinit|
    s pass sp w o w' r s' pass' sp' Hr IH Hpre Hex Hspec].
  { split; [done|]. intros _. by eapply init_synced. }
  pose proof (reach_winv e start size Hdev _ _ _ _ (reach_step e start size _ _ _ _ _ _ _ _ _ _ Hr Hpre Hex Hspec)) as Hw'.
  apply winv_dirty in Hw' as [Hlen _]. destruct Hpre as (H0 & Hlt & Hpre).
  destruct o as [| | | | |c io|c ps]; cbn [exec] in Hex; returned; inversion Hspec; subst.
  all: try (eapply synced_keeps; [exact IH|]; cbn [w_ms set_w_ms];
    first [by eapply alloc_from_keeps | by eapply free_concrete_keeps | by eapply unalloc_keeps |
           by eapply claim_keeps | by eapply preload_keeps]).
  - destruct IH as [Hp Ha]. split; [lia|]. intros [?|Hn]; [lia|]. unfold vdev_sync in R. returned; [exfalso|apply Ha; by right].
    cbn [w_ms set_w_ms] in Hn, Hlen. rewrite txg_clean in Hn, Hlen by lia. cbn in Hlen. rewrite length_insert in Hlen.
    apply not_true_iff_false in Hn. apply Hn, is_dirty_set; auto.
  - destruct IH as [Hp Ha]. split; [lia|]. intros _. unfold vdev_sync_done in R. rewrite txg_clean in R by lia.
    destruct (is_dirty (w_ms w) (s - 1)) eqn:E; [by apply sync_done_synced in R|]. returned. apply Ha. by right.
Qed.

(** The deferred bytes are counted in [ms_deferspace]. *)
Lemma deferspace_sized s pass sp w :
  reach e start size s pass sp w ->
  sized (fun x => inside start size x /\ exists i, sp x = Deferred i) (ms_deferspace (w_ms w)).
Proof using All.
  intros Hr. pose proof (winv_core0 _ _ _ _ _ _ _ (reach_winv e start size Hdev _ _ _ _ Hr)) as Hc. destruct Hdev as [Hp _].
  destruct (core_trees _ _ _ _ _ _ _ Hc) as (tr & _ & (_ & _ & _ & _ & (d0 & d1 & Hd & H0 & H1) & _) & Hds).
  rewrite (Hds _ _ Hd). destruct (core_states _ _ _ _ _ _ _ Hc) as (_ & _ & Hi & _).
  eapply sized_join; [by eapply sized_set|by eapply sized_set| |].
  - intros x [_ E] [_ E']. congruence.
  - intros x. split; [|intros [[Hx E]|[Hx E]]; eauto]. intros (Hx & [|[|i]] & E); [by left|by right|].
    specialize (Hi x _ Hx E). lia.
Qed.

(** Between txgs the bytes allocated on disk are counted by the space map. *)
Lemma allocated_sized s sp w :
  reach e start size s 0 sp w ->
  sized (fun x => inside start size x /\ on_disk (sp x)) (space_map_allocated (ms_sm (w_ms w))).
Proof using All.
  intros Hr. pose proof (reach_synced _ _ _ _ Hr) as [_ Ha]. specialize (Ha (or_introl eq_refl)).
  pose proof (core_log _ _ _ _ _ _ _ (winv_core0 _ _ _ _ _ _ _ (reach_winv e start size Hdev _ _ _ _ Hr))) as Hl.
  destruct (ms_sm (w_ms w)) as [sm|] eqn:E; cbn [log_ok space_map_allocated] in *.
  - destruct Hl as ((_ & _ & _ & _ & _ & Hb) & Hl & _). destruct Hdev as [Hp _].
    pose proof Hp as (_ & ? & ? & ? & _). assert (2 ^ 57 < 2 ^ 64) by (apply Z.pow_lt_mono_r; lia).
    rewrite wrap64_small, (Ha _ E) by (unfold u64; lia). by eapply log_sized.
  - destruct set_create as (r & _ & Hr0 & Hz). exists r. split; [|done]. eapply is_set_ext; [exact Hr0|].
    intros x. split; [done|]. intros [Hx Hd]. destruct (Hl x Hx) as [Ex|[[b Ex]|Ex]]; by rewrite Ex in Hd.
Qed.
End Synced.

(** C8: the accounting of space.  Whatever operations a metaslab goes through
    after [metaslab_init], the device's and the class's counts of allocated
    space are what they were without it plus what its space map has allocated
    and what it defers; the class's count of deferred space and the sizes agree
    too.  Once nothing is deferred, [metaslab_fini] leaves the counts as
    [metaslab_init] found them.  All these counts are modulo [2^64].  When the
    run is one of the specification, what is deferred is the number of bytes
    that are waiting in the defer trees, and between two txgs what the space
    map has allocated is the number of bytes allocated on disk. *)
Theorem metaslab_space_accounted e c ps load mg st ck id ms_shift object txg w0 s os s' w' :
  metaslab_init e c ps load mg st ck id ms_shift object txg = Ret (inr w0) -> execs e s w0 os = Ret (s', w') ->
  accounted st w' /\
  (forall mg' st', metaslab_fini e w' = Ret (mg', st') -> ms_deferspace (w_ms w') = 0 ->
    vs_alloc st' ≡64 vs_alloc st /\ mc_alloc st' ≡64 mc_alloc st /\ mc_deferred st' ≡64 mc_deferred st /\
    vs_space st' ≡64 vs_space st /\ mc_space st' ≡64 mc_space st) /\
  forall start size pass sp, device_ok e start size -> reach e start size s' pass sp w' ->
    sized (fun x => inside start size x /\ exists i, sp x = Deferred i) (ms_deferspace (w_ms w')) /\
    (pass = 0 ->
     sized (fun x => inside start size x /\ on_disk (sp x)) (space_map_allocated (ms_sm (w_ms w')))).
Proof.
  intros Hi Hos. apply init_accounted in Hi. pose proof (execs_accounted _ _ _ _ _ _ _ Hi Hos) as Ha. split_and!; [done| |].
  - intros mg' st' Hf Hz. pose proof (fini_accounted _ _ _ _ _ Ha Hf) as H. by rewrite Hz, !Z.add_0_r in H.
  - intros start size pass sp Hdev Hr. split; [by eapply deferspace_sized|]. intros ->. by eapply allocated_sized.
Qed.

Definition demo_ops : list ms_op := [demo_alloc 4 4; demo_sync 1; demo_free; demo_sync 2; demo_done].

Lemma execs_step e s w o w1 r os s1 res :
  exec e s w o = Ret (w1, r) -> match o with OpDone _ _ => s + 1 | _ => s end = s1 -> execs e s1 w1 os = res ->
  execs e s w (o :: os) = res.
Proof. intros Hex <- <-. cbn [execs]. by rewrite Hex. Qed.

Lemma demo_runs : execs demo_env 4 demo0 demo_ops = Ret (5, demo5).
Proof.
  eapply execs_step; [exact demo_exec1|reflexivity|]. eapply execs_step; [exact demo_exec2|reflexivity|].
  eapply execs_step; [exact demo_exec3|reflexivity|]. eapply execs_step; [exact demo_exec4|reflexivity|].
  eapply execs_step; [exact demo_exec5|reflexivity|]. reflexivity.
Qed.

Lemma metaslab_space_accounted_witness :
  accounted demo_stats demo5 /\ vs_alloc (w_st demo5) = 4096 /\ ms_deferspace (w_ms demo5) = 4096 /\
  sized (fun x => inside 16384 16384 x /\ exists i, sp5 x = Deferred i) (ms_deferspace (w_ms demo5)) /\
  sized (fun x => inside 16384 16384 x /\ on_disk (sp5 x)) (space_map_allocated (ms_sm (w_ms demo5))).
Proof.
  destruct (metaslab_space_accounted _ _ _ _ _ _ _ _ _ _ _ _ _ _ _ _ demo_opens demo_runs) as (Ha & _ & Hs).
  destruct (Hs _ _ _ _ demo_device demo_reach5) as [Hd Hm].
  split_and!; [exact Ha|vm_compute; reflexivity|vm_compute; reflexivity|exact Hd|by apply Hm].
Defined.
