(* ===== verification/MetaslabChoice.v ===== *)
(** * Metaslabs: what a weight says

    The segment-based weight of a loaded metaslab has the bucket of its largest
    free segment and the number of free segments of that bucket, whatever is
    said besides about activation; [metaslab_should_allocate], which has only
    the weight to go by, turns away no request that the metaslab could meet.
    The dynamic-fit allocator, the default, meets every such request. *)

From S2P Require Import Prelude Avl RangeTree SpaceMap SpaceMapLog MetaslabAlloc MetaslabData.
From S2P Require Import MetaslabWeight MetaslabGroup MetaslabDemo.

(** ** Fields *)

Lemma bucket_weight_fields count idx :
  0 <= count < 2 ^ 54 -> 0 <= idx < 2 ^ 6 ->
  bucket_weight count idx = count + idx * 2 ^ 54.
Proof.
  intros Hc Hi. destruct (bucket_weight_value count idx) as [-> _]. by rewrite !Z.mod_small by lia.
Qed.

(** The activation bits on top of the other fields. *)
Lemma set_active_value x a :
  0 <= x < 2 ^ 60 -> 0 <= a < 2 ^ 3 -> WEIGHT_SET_ACTIVE x a = x + a * 2 ^ 61.
Proof.
  intros Hx Ha. unfold WEIGHT_SET_ACTIVE. rewrite BF64_SET_clear by lia. by rewrite (Z.mod_small a) by lia.
Qed.

Lemma weight_fields count idx a :
  0 <= count < 2 ^ 54 -> 0 <= idx < 2 ^ 6 -> 0 <= a < 2 ^ 3 ->
  let w := WEIGHT_SET_ACTIVE (bucket_weight count idx) a in
  WEIGHT_GET_COUNT w = count /\ WEIGHT_GET_INDEX w = idx /\ WEIGHT_GET_ACTIVE w = a /\
  (0 < count -> WEIGHT_IS_SPACEBASED w = false).
Proof.
  intros Hc Hi Ha w. assert (w = count + idx * 2 ^ 54 + a * 2 ^ 61) as Ew.
  { unfold w. rewrite bucket_weight_fields by done. apply set_active_value; lia. }
  unfold WEIGHT_GET_COUNT, WEIGHT_GET_INDEX, WEIGHT_GET_ACTIVE, WEIGHT_IS_SPACEBASED.
  rewrite !BF64_DECODE_mod by lia. rewrite Ew. split_and!.
  - change (2 ^ 0) with 1. rewrite Z.div_1_r. symmetry. apply (Z.mod_unique_pos _ _ (idx + a * 2 ^ 7)); lia.
  - rewrite <- (Z.div_unique_pos (count + idx * 2 ^ 54 + a * 2 ^ 61) (2 ^ 54) (idx + a * 2 ^ 7) count) by lia.
    symmetry. apply (Z.mod_unique_pos _ _ (a * 2)); lia.
  - rewrite <- (Z.div_unique_pos (count + idx * 2 ^ 54 + a * 2 ^ 61) (2 ^ 61) a (count + idx * 2 ^ 54)) by lia.
    by rewrite Z.mod_small by lia.
  - intros Hpos. destruct (Z.eqb_spec (count + idx * 2 ^ 54 + a * 2 ^ 61) 0); [lia|].
    rewrite <- (Z.div_unique_pos (count + idx * 2 ^ 54 + a * 2 ^ 61) (2 ^ 60) (a * 2) (count + idx * 2 ^ 54)) by lia.
    by rewrite Z.mod_mul by lia.
Qed.

(** ** The bucket of the largest segment *)

(** The loop stops at the highest bucket that is not empty. *)
Lemma weight_loop_stops ashift hist m c : forall n,
  length hist = RANGE_TREE_HISTOGRAM_SIZE -> SPA_MINBLOCKSHIFT <= m < Z.of_nat n + SPA_MINBLOCKSHIFT ->
  (n <= 55)%nat -> m <= Z.of_nat SPACE_MAP_HISTOGRAM_SIZE + ashift - 1 ->
  hist !! Z.to_nat m = Some c -> 0 < c < 2 ^ 32 ->
  (forall i, (Z.to_nat m < i < RANGE_TREE_HISTOGRAM_SIZE)%nat -> hist !! i = Some 0) ->
  range_tree_weight_loop n ashift hist 0 = Ret (bucket_weight c m).
Proof.
  induction n as [|n IH]; intros Hl Hm Hn Hmax Hc Hpos Hz; [lia|]. cbn [range_tree_weight_loop].
  unfold SPA_MINBLOCKSHIFT, RANGE_TREE_HISTOGRAM_SIZE in *.
  destruct (decide (Z.of_nat n + 9 = m)) as [E|Hne].
  - rewrite E, (rd_ok _ _ _ Hc). cbn [mbind result_bind]. rewrite Z.shiftl_0_l.
    assert (wrap32 (wrap32 0 + c) = c) as -> by (unfold wrap32; rewrite (Z.mod_0_l (2 ^ 32)) by lia; apply Z.mod_small; lia).
    destruct (Z.ltb_spec (Z.of_nat SPACE_MAP_HISTOGRAM_SIZE + ashift - 1) m); [lia|].
    destruct (Z.eqb_spec c 0); [lia|done].
  - rewrite (rd_ok hist _ 0) by (apply Hz; lia). cbn [mbind result_bind]. rewrite Z.shiftl_0_l.
    change (wrap32 (wrap32 0 + 0)) with 0. cbn [Z.eqb negb].
    assert (range_tree_weight_loop n ashift hist 0 = Ret (bucket_weight c m)) as -> by (apply IH; auto; lia).
    by split_if.
Qed.

(** Counts of segments, when there are not too many of them. *)
Lemma count_bound i L : 0 <= count i L <= Z.of_nat (length L).
Proof. unfold count. pose proof (length_filter (fun rs => bucket rs = i) L). lia. Qed.

Lemma count_pos rs L : rs ∈ L -> 0 < count (bucket rs) L.
Proof.
  intros Hin. unfold count. assert (rs ∈ filter (fun r => bucket r = bucket rs) L) as H by (by apply list_elem_of_filter).
  destruct (filter _ L); [by apply elem_of_nil in H|cbn; lia].
Qed.

Lemma count_none i L : (forall rs, rs ∈ L -> bucket rs <> i) -> count i L = 0.
Proof.
  intros H. unfold count. destruct (filter _ L) as [|rs k] eqn:E; [done|]. exfalso.
  assert (rs ∈ filter (fun r => bucket r = i) L) as Hin by (rewrite E; by left).
  apply list_elem_of_filter in Hin as [Hb Hin]. by apply (H rs).
Qed.

(** The largest free segment of a tree. *)
Lemma maxsize_attained rt :
  free_tree rt -> 0 < metaslab_block_maxsize rt ->
  exists rs, rs ∈ segs rt /\ metaslab_block_maxsize rt = rs_end rs - rs_start rs /\
    forall rs', rs' ∈ segs rt -> rs_end rs' - rs_start rs' <= rs_end rs - rs_start rs.
Proof.
  intros Hrt Hpos. unfold metaslab_block_maxsize in *.
  destruct (avl_last _) as [rs|] eqn:E; [|lia]. destruct (largest_last rt rs Hrt E) as [Hin Hle].
  pose proof (free_tree_small rt Hrt) as Hs. rewrite Forall_forall in Hs. destruct (Hs rs Hin) as [Hok _].
  exists rs. split; [done|]. split; [|done]. exact (seg_size_ok rs Hok).
Qed.

Section Choice.
Context (e : env) (ms : metaslab).
Notation rt := (ms_allocatable ms).
Notation largest := (metaslab_block_maxsize rt).
Hypothesis Hrt : free_tree rt.
Hypothesis Hash : 0 <= vdev_ashift e <= 28.
Hypothesis Hmin : SPA_MINBLOCKSIZE <= largest.
Hypothesis Hmax : largest < 2 ^ (Z.of_nat SPACE_MAP_HISTOGRAM_SIZE + vdev_ashift e).
Hypothesis Hfew : Z.of_nat (length (segs rt)) < 2 ^ 32.

Lemma largest_bucket : SPA_MINBLOCKSHIFT <= Z.log2 largest < Z.of_nat SPACE_MAP_HISTOGRAM_SIZE + vdev_ashift e.
Proof using All.
  unfold SPA_MINBLOCKSIZE in Hmin. split.
  - apply Z.log2_le_pow2; [|done]. enough (0 < 2 ^ SPA_MINBLOCKSHIFT) by lia. done.
  - apply Z.log2_lt_pow2; [|done]. enough (0 < 2 ^ SPA_MINBLOCKSHIFT) by lia. done.
Qed.

Lemma weight_of_largest :
  metaslab_weight_from_range_tree e ms =
    Ret (bucket_weight (count (Z.to_nat (Z.log2 largest)) (segs rt)) (Z.log2 largest)) /\
  0 < count (Z.to_nat (Z.log2 largest)) (segs rt) < 2 ^ 32.
Proof using All.
  pose proof largest_bucket as Hb. pose proof Hrt as ((_ & _ & _ & [Hl Hh] & _) & _).
  pose proof (free_tree_small rt Hrt) as Hsm. rewrite Forall_forall in Hsm.
  destruct (maxsize_attained rt Hrt) as (rs & Hin & Hsz & Hle).
  { unfold SPA_MINBLOCKSIZE in Hmin. assert (0 < 2 ^ SPA_MINBLOCKSHIFT) by done. lia. }
  assert (bucket rs = Z.to_nat (Z.log2 largest)) as Hbk.
  { unfold bucket. by rewrite seg_bucket_log2, Hsz by apply (Hsm rs Hin). }
  pose proof (count_pos rs (segs rt) Hin) as Hcp. rewrite Hbk in Hcp.
  pose proof (count_bound (Z.to_nat (Z.log2 largest)) (segs rt)) as Hcb.
  unfold SPA_MINBLOCKSHIFT, SPACE_MAP_HISTOGRAM_SIZE in Hb.
  assert (forall i, (i < RANGE_TREE_HISTOGRAM_SIZE)%nat -> rt_histogram rt !! i = Some (count i (segs rt))) as Hh'.
  { intros i Hi. rewrite Hh by done. pose proof (count_bound i (segs rt)).
    rewrite wrap64_small; [done|]. assert (2 ^ 32 < 2 ^ 64) by done. unfold u64. lia. }
  split; [|lia]. unfold metaslab_weight_from_range_tree. apply weight_loop_stops; auto;
    try (unfold RANGE_TREE_HISTOGRAM_SIZE, SPACE_MAP_HISTOGRAM_SIZE, SPA_MINBLOCKSHIFT; lia); try lia.
  - apply Hh'. unfold RANGE_TREE_HISTOGRAM_SIZE. lia.
  - intros i [Hi1 Hi2]. rewrite Hh' by done. f_equal. apply count_none. intros rs' Hin' Hbi.
    unfold bucket in Hbi. rewrite seg_bucket_log2 in Hbi by apply (Hsm rs' Hin').
    assert (Z.log2 (rs_end rs' - rs_start rs') <= Z.log2 largest); [|lia].
    rewrite Hsz. apply Z.log2_le_mono. by apply Hle.
Qed.
End Choice.

(** ** Theorems *)

(** The weight of a loaded metaslab.  [metaslab_weight_from_range_tree]
    gives a segment-based weight whose index is the bucket of the largest free
    segment and whose count is the number of free segments of that bucket;
    setting the activation bits changes neither.  A metaslab of which only this
    weight is known is not turned away by [metaslab_should_allocate] for any
    request that its largest free segment could meet. *)
Theorem metaslab_weight_correct e ms :
  free_tree (ms_allocatable ms) -> 0 <= vdev_ashift e <= 28 ->
  SPA_MINBLOCKSIZE <= metaslab_block_maxsize (ms_allocatable ms) <
    2 ^ (Z.of_nat SPACE_MAP_HISTOGRAM_SIZE + vdev_ashift e) ->
  Z.of_nat (length (segs (ms_allocatable ms))) < 2 ^ 32 ->
  exists weight, metaslab_weight_from_range_tree e ms = Ret weight /\
    forall a, 0 <= a < 2 ^ 3 ->
      let w := WEIGHT_SET_ACTIVE weight a in
      let idx := WEIGHT_GET_INDEX w in
      WEIGHT_GET_ACTIVE w = a /\ WEIGHT_IS_SPACEBASED w = false /\
      2 ^ idx <= metaslab_block_maxsize (ms_allocatable ms) < 2 ^ (idx + 1) /\
      WEIGHT_GET_COUNT w = count (Z.to_nat idx) (segs (ms_allocatable ms)) /\
      forall ms' asize, ms_weight (ms_sel ms') = w -> ms_max_size (ms_sel ms') = 0 ->
        asize <= metaslab_block_maxsize (ms_allocatable ms) -> metaslab_should_allocate ms' asize = true.
Proof.
  intros Hrt Hash [Hmin Hmax] Hfew.
  pose proof (largest_bucket e ms Hrt Hash Hmin Hmax Hfew) as Hb.
  destruct (weight_of_largest e ms Hrt Hash Hmin Hmax Hfew) as [-> Hc].
  set (largest := metaslab_block_maxsize _) in *. set (c := count _ _) in *.
  eexists. split; [done|]. intros a Ha w idx.
  assert (2 ^ 32 < 2 ^ 54) by done. unfold SPA_MINBLOCKSHIFT, SPACE_MAP_HISTOGRAM_SIZE in Hb.
  destruct (weight_fields c (Z.log2 largest) a) as (F1 & F2 & F3 & F4); [lia..|]. fold w in F1, F2, F3, F4.
  assert (0 < largest) as Hpos by (enough (0 < SPA_MINBLOCKSIZE) by lia; done).
  pose proof (Z.log2_spec largest Hpos) as Hlog. rewrite <- Z.add_1_r in Hlog.
  unfold idx. rewrite F2. split; [done|]. split; [apply F4; lia|]. split; [done|]. split; [done|].
  intros ms' asize Hw Hz Hle. unfold metaslab_should_allocate. rewrite Hz, Hw, F4, F2 by lia. cbn [Z.eqb negb].
  rewrite Z.shiftl_1_l, wrap64_small.
  - apply Z.ltb_lt. lia.
  - split; [lia|]. apply Z.pow_lt_mono_r; lia.
Qed.

Lemma metaslab_weight_correct_witness :
  exists weight, metaslab_weight_from_range_tree demo_env (w_ms demo5) = Ret weight.
Proof.
  destruct (metaslab_weight_correct demo_env (w_ms demo5) demo_free_tree) as (weight & H & _).
  - cbn. lia.
  - assert (metaslab_block_maxsize (ms_allocatable (w_ms demo5)) = 12288) as -> by (vm_compute; reflexivity).
    unfold SPA_MINBLOCKSIZE, SPA_MINBLOCKSHIFT, SPACE_MAP_HISTOGRAM_SIZE. cbn. lia.
  - vm_compute. reflexivity.
  - exists weight. exact H.
Defined.

(** C9: the default allocator.  [metaslab_df_alloc] returns; it fails exactly
    when no free segment is large enough, which is when
    [metaslab_should_allocate] turns the request away once [ms_max_size] is set;
    otherwise the block is free, and on a sector when the size and the free
    segments are. *)
Theorem metaslab_df_alloc_correct p ms size :
  free_tree (ms_allocatable ms) -> 0 < size <= 2 ^ 62 -> length (ms_lbas ms) = MAX_LBAS ->
  exists o ms_lbas', metaslab_df_alloc p (ms_allocatable ms) (ms_size ms) (ms_lbas ms) size = Ret (o, ms_lbas') /\
    length ms_lbas' = MAX_LBAS /\
    (o = NO_OFFSET <-> forall rs, rs ∈ segs (ms_allocatable ms) -> rs_end rs - rs_start rs < size) /\
    (o <> NO_OFFSET -> allocated (ms_allocatable ms) size o) /\
    forall ms', ms_max_size (ms_sel ms') = metaslab_block_maxsize (ms_allocatable ms) ->
      segs (ms_allocatable ms) <> [] -> metaslab_should_allocate ms' size = negb (o =? NO_OFFSET).
Proof.
  intros Hrt Hsz Hl.
  destruct (df_alloc_ok p (ms_allocatable ms) (ms_size ms) (ms_lbas ms) size Hrt Hsz Hl) as (o & l & -> & Hl' & Ho).
  pose proof (maxsize_ok (ms_allocatable ms) size Hrt ltac:(lia)) as Hmax.
  assert (segs (ms_allocatable ms) <> [] -> 0 < metaslab_block_maxsize (ms_allocatable ms)) as Hne.
  { intros Hn. destruct (segs (ms_allocatable ms)) as [|rs k] eqn:E; [done|].
    assert (rs ∈ segs (ms_allocatable ms)) as Hin by (rewrite E; by left).
    pose proof (free_tree_small _ Hrt) as Hs. rewrite Forall_forall in Hs. destruct (Hs rs Hin) as [[? ?] _].
    assert (1 <= metaslab_block_maxsize (ms_allocatable ms)); [|lia].
    apply maxsize_ok; [done|lia|]. exists rs. split; [done|lia]. }
  exists o, l. split; [done|]. split; [done|].
  assert (metaslab_block_maxsize (ms_allocatable ms) < size <-> o = NO_OFFSET) as Hiff.
  { destruct Ho as [(-> & _ & ?)|[Ha ?]]; [done|]. split; [lia|]. intros ->.
    by apply allocated_NO_OFFSET in Ha; [|lia]. }
  split; [|split].
  - rewrite <- Hiff. split.
    + intros Hlt rs Hin. destruct (Z.lt_ge_cases (rs_end rs - rs_start rs) size); [done|].
      assert (size <= metaslab_block_maxsize (ms_allocatable ms)); [|lia]. apply Hmax. eauto.
    + intros Hall. destruct (Z.lt_ge_cases (metaslab_block_maxsize (ms_allocatable ms)) size) as [|Hge]; [done|].
      apply Hmax in Hge as (rs & Hin & Hle). specialize (Hall rs Hin). lia.
  - intros Hn. destruct Ho as [(-> & _)|[Ha _]]; done.
  - intros ms' Hm Hn. unfold metaslab_should_allocate. rewrite Hm. specialize (Hne Hn).
    destruct (Z.eqb_spec (metaslab_block_maxsize (ms_allocatable ms)) 0); [lia|]. cbn [negb].
    destruct (Z.leb_spec size (metaslab_block_maxsize (ms_allocatable ms))), (Z.eqb_spec o NO_OFFSET); cbn; try done.
    + apply Hiff in e. lia.
    + exfalso. by apply n0, Hiff.
Qed.

Lemma metaslab_df_alloc_correct_witness :
  exists o ms_lbas', metaslab_df_alloc default_params (ms_allocatable (w_ms demo5)) (ms_size (w_ms demo5)) (ms_lbas (w_ms demo5)) 4096 =
    Ret (o, ms_lbas') /\ length ms_lbas' = MAX_LBAS.
Proof.
  assert (length (ms_lbas (w_ms demo5)) = MAX_LBAS) as Hl by (vm_compute; reflexivity).
  destruct (metaslab_df_alloc_correct default_params (w_ms demo5) 4096 demo_free_tree ltac:(lia) Hl) as (o & l & H1 & H2 & _).
  exists o, l. exact (conj H1 H2).
Defined.
