(* ===== verification/MetaslabProps.v ===== *)
(** * Metaslabs: what the specification gives

    The refinement theorem of [MetaslabSpec] and its consequences for the
    blocks of a pool. *)

From S2P Require Import Prelude TxgData Avl RangeTree RangeSet SpaceMap SpaceMapLog MetaslabAlloc MetaslabData.
From S2P Require Import MetaslabWeight MetaslabGroup Metaslab MetaslabInv MetaslabSteps MetaslabWorld.
From S2P Require Import MetaslabSync MetaslabDone MetaslabInit MetaslabSpec MetaslabDemo.

(** ** Runs *)

Section Runs.
Context (e : env) (start size : Z).

(** Operations that satisfy [ok], one after the other. *)
Inductive run (ok : ms_op -> Prop) (s pass : Z) (sp : Z -> ostate) (w : world)
    : Z -> Z -> (Z -> ostate) -> world -> Prop :=
| run_refl : run ok s pass sp w s pass sp w
| run_step s1 p1 sp1 w1 o r s2 p2 sp2 w2 :
    run ok s pass sp w s1 p1 sp1 w1 -> ok o -> op_pre e start size s1 p1 sp1 w1 o ->
    exec e s1 w1 o = Ret (w2, r) -> spec_step e start size s1 p1 sp1 o r s2 p2 sp2 ->
    run ok s pass sp w s2 p2 sp2 w2.

Lemma run_reach ok s pass sp w s' pass' sp' w' :
  reach e start size s pass sp w -> run ok s pass sp w s' pass' sp' w' -> reach e start size s' pass' sp' w'.
Proof. intros Hr. induction 1; [done|]. by eapply reach_step. Qed.

Lemma run_mono (ok ok' : ms_op -> Prop) s pass sp w s' pass' sp' w' :
  (forall o, ok o -> ok' o) -> run ok s pass sp w s' pass' sp' w' -> run ok' s pass sp w s' pass' sp' w'.
Proof. intros Hok. induction 1; [constructor|]. eapply run_step; eauto. Qed.

(** Every txg ends with its frees deferred. *)
Definition deferring (o : ms_op) : Prop :=
  match o with OpDone _ ps => defer_allowed e ps = true | _ => True end.

(** A run within one txg ends none. *)
Lemma run_same_txg ok s pass sp w s' pass' sp' w' :
  run ok s pass sp w s' pass' sp' w' -> s <= s' /\ (s' = s -> run deferring s pass sp w s' pass' sp' w').
Proof.
  induction 1 as [|s1 p1 sp1 w1 o r s2 p2 sp2 w2 Hrun [IH1 IH2] Hok Hpre Hex Hst]; [split; [lia|constructor]|].
  assert (s1 <= s2) by (destruct Hst; lia). split; [lia|]. intros ->.
  eapply run_step; [apply IH2; lia| |exact Hpre|exact Hex|exact Hst]. destruct Hst; try done. lia.
Qed.

(** A byte freed in txg [f], while [s] is being synced. *)
Definition held (f s : Z) (o : ostate) : Prop :=
  s = f /\ (is_freeing o \/ o = Freed) \/ f < s <= f + 2 /\ o = Deferred (defer_slot f).

Lemma defer_slot_next f : defer_slot (f + 1) <> defer_slot f /\ defer_slot (f + 2) = defer_slot f.
Proof.
  unfold defer_slot, TXG_DEFER_SIZE. pose proof (Z.mod_pos_bound f 2 ltac:(lia)). split.
  - intros E. apply Z2Nat.inj in E; [|apply Z.mod_pos_bound; lia|lia]. eucl.
  - f_equal. rewrite <- (Z.mod_add f 1 2) by lia. f_equal.
Qed.

(** It stays where it is, unless it is the end of the second txg after. *)
Lemma held_step f s pass sp w o r s' pass' sp' x :
  op_pre e start size s pass sp w o -> deferring o ->
  spec_step e start size s pass sp o r s' pass' sp' -> held f s (sp x) -> s' <= f + 2 ->
  (s' = s + 1 -> ~ is_freeing (sp x)) -> held f s' (sp' x).
Proof.
  intros (H0 & Hs & Hpre) Hdf Hst Hh Hle Hnf.
  assert (forall off n g, (forall y, off <= y < off + n -> exists b d, sp y = Live b d) \/
    (forall y, off <= y < off + n -> sp y = Free) -> held f s (upd_range sp off n g x)) as Hout.
  { intros off n g Hr. destruct (decide (off <= x < off + n)) as [Hin|Hin]; [|by rewrite upd_range_out].
    exfalso. destruct Hr as [Hr|Hr]; [destruct (Hr x Hin) as (b & d & E)|pose proof (Hr x Hin) as E];
      rewrite E in Hh; destruct Hh as [[_ [[? ?]|?]]|[_ ?]]; congruence. }
  destruct Hst; try done; try (apply Hout; by right).
  - apply Hout. left. intros y Hy. destruct Hpre as (_ & _ & Hfr). destruct (Hfr y Hy) as (b & d & E & _). eauto.
  - apply Hout. left. intros y Hy. destruct Hpre as (_ & _ & Hl). eauto.
  - destruct Hh as [[-> Ho]|[Hr ->]]; [left|by right]. split; [done|]. right.
    destruct Ho as [[d ->]| ->]; done.
  - right. cbn in Hdf. rewrite Hdf. destruct Hh as [[-> Ho]|[Hr ->]].
    + destruct Ho as [Ho| ->]; [by destruct (Hnf eq_refl)|]. split; [lia|done].
    + split; [lia|]. cbn. assert (s = f + 1) as -> by lia. destruct (defer_slot_next f) as [Hne _].
      by destruct (Nat.eqb_spec (defer_slot f) (defer_slot (f + 1))).
Qed.

(** Nothing is being freed in a txg of which nothing is left to sync. *)
Lemma done_not_freeing s pass sp w c ps x :
  device_ok e start size -> winv e start size s pass sp w -> inside start size x ->
  op_pre e start size s pass sp w (OpDone c ps) -> ~ is_freeing (sp x).
Proof.
  intros (Hp & Hcf & _) [Hw Hd] Hx (_ & _ & Hc) [d E].
  apply (settled_freeing _ _ _ _ _ _ (core_settled e start size Hp Hcf _ _ _ _ (winv_core0 _ _ _ _ _ _ _ Hw) Hd Hc) x d Hx E).
Qed.

(** What is freed in txg [f] is held as long as every txg defers its frees and
    [f + 2] is not done. *)
Lemma held_run f s pass sp w s' pass' sp' w' x :
  device_ok e start size -> reach e start size s pass sp w -> inside start size x -> held f s (sp x) ->
  run deferring s pass sp w s' pass' sp' w' -> s' <= f + 2 -> held f s' (sp' x).
Proof.
  intros Hdev Hr Hx Hh Hrun. induction Hrun as [|s1 p1 sp1 w1 o r s2 p2 sp2 w2 Hrun IH Hok Hpre Hex Hst]; [done|].
  intros Hle. pose proof (run_reach _ _ _ _ _ _ _ _ _ Hr Hrun) as Hr1.
  assert (s1 <= s2) by (destruct Hst; lia).
  apply (held_step f s1 p1 sp1 w1 o r s2 p2 sp2); auto; [apply IH; lia|]. intros Es.
  destruct Hst; try lia. eapply done_not_freeing; eauto. by apply reach_winv.
Qed.

Lemma freed_held s pass sp w c off n w1 r1 s' pass' sp' w' :
  device_ok e start size -> reach e start size s pass sp w ->
  op_pre e start size s pass sp w (OpFree c off n) -> exec e s w (OpFree c off n) = Ret (w1, r1) ->
  run deferring s pass (upd_range sp off n (fun x => free_state (sp x))) w1 s' pass' sp' w' -> s' <= s + 2 ->
  winv e start size s' pass' sp' w' /\ 0 < n /\ forall x, off <= x < off + n -> inside start size x /\ held s s' (sp' x).
Proof.
  intros Hdev Hr Hpre Hex Hrun Hle.
  assert (reach e start size s pass (upd_range sp off n (fun x => free_state (sp x))) w1) as Hr1.
  { eapply reach_step; [exact Hr|exact Hpre|exact Hex|]. cbn in Hex.
    destruct (metaslab_free_concrete _ _ _ _ _ _); cbn in Hex; simplify_eq. constructor. }
  pose proof (run_reach _ _ _ _ _ _ _ _ _ Hr1 Hrun) as Hr'. split; [by apply reach_winv|].
  destruct Hpre as (_ & _ & _ & Hbf & Hfr). pose proof Hdev as (Hp & _).
  pose proof (block_bounds e start size Hp off n Hbf) as (_ & Hn & _ & Hin). split; [done|]. intros x Hx.
  split; [by apply Hin|]. eapply (held_run s s pass); eauto. left. split; [done|]. left. rewrite upd_range_in by done.
  destruct (Hfr _ Hx) as (b' & d & -> & _). by exists d.
Qed.
End Runs.

(** ** Theorems *)

(** C1: a metaslab does what it should.  In every metaslab that operations
    lead to from [metaslab_init], any operation whose preconditions hold
    returns (none of the [VERIFY]s of the code fails), its
    reply and the new states of the bytes are those of the specification, and
    the metaslab is again one that operations lead to. *)
Theorem metaslab_refines e start size s pass sp w o :
  device_ok e start size -> reach e start size s pass sp w -> op_pre e start size s pass sp w o ->
  exists w' r s' pass' sp', exec e s w o = Ret (w', r) /\ spec_step e start size s pass sp o r s' pass' sp' /\
    reach e start size s' pass' sp' w'.
Proof.
  intros Hdev Hr Hpre. destruct (ms_step_ok e start size Hdev s pass sp w o) as (w' & r & s' & p' & sp' & Hex & Hsp & _); auto.
  { by apply reach_winv. }
  do 5 eexists. split; [done|]. split; [done|]. by eapply reach_step.
Qed.

Lemma metaslab_refines_witness :
  exists w' r s' pass' sp', exec demo_env 4 demo2 demo_free = Ret (w', r) /\
    spec_step demo_env 16384 16384 4 1 sp2 demo_free r s' pass' sp' /\ reach demo_env 16384 16384 s' pass' sp' w'.
Proof. exact (metaslab_refines _ _ _ _ _ _ _ _ demo_device demo_reach2 demo_pre3). Defined.

(** A byte is in a tree of the transaction groups. *)
Definition pending (w : world) (x : Z) : Prop :=
  exists tr rt, ms_trees (w_ms w) = Some tr /\
    rt ∈ ms_freeing tr :: ms_freed tr :: ms_allocating tr ++ ms_defer tr /\ rt_mem rt x.

(** What the space map of the metaslab, as far as it is written, has allocated. *)
Definition on_map (w : world) (X : Z -> Prop) : Prop :=
  match ms_sm (w_ms w) with Some sm => log_repr sm X | None => forall x, ~ X x end.

Section Facts.
Context (e : env) (start size : Z) (Hdev : device_ok e start size).

Lemma pending_state s pass sp w x :
  winv e start size s pass sp w -> pending w x -> sp x <> Free.
Proof using All.
  intros Hw (tr & rt & Htr & Hin & Hm).
  pose proof (core_trees _ _ _ _ _ _ _ (winv_core0 _ _ _ _ _ _ _ Hw)) as (tr' & Htr' & (Hl & Ha & Hf & Hd & (d0 & d1 & Hdf & D0 & D1) & _) & _).
  rewrite Htr in Htr'. injection Htr' as <-. rewrite Hdf in Hin. rewrite !elem_of_cons, elem_of_app in Hin.
  destruct Hin as [-> |[-> |[Hin|Hin]]].
  - apply Hf in Hm as [_ [d ->]]. done.
  - apply Hd in Hm as [_ ->]. done.
  - apply list_elem_of_lookup in Hin as [i Hi]. pose proof (lookup_lt_Some _ _ _ Hi) as Hlt. rewrite Hl in Hlt.
    assert (exists t, s <= t <= s + 3 /\ txg_slot t = i) as (t & Ht & <-).
    { exists (s + (Z.of_nat i - s) mod 4). pose proof (Z.mod_pos_bound (Z.of_nat i - s) 4 ltac:(lia)). split; [lia|].
      rewrite txg_slot_mod, Zplus_mod_idemp_r. replace (s + (Z.of_nat i - s)) with (Z.of_nat i) by lia.
      rewrite Z.mod_small by lia. lia. }
    destruct (Ha t Ht) as (rt' & Hrt' & Hh). rewrite Hi in Hrt'. injection Hrt' as <-.
    apply Hh in Hm as [_ [-> |[_ ->]]]; done.
  - rewrite !elem_of_cons, elem_of_nil in Hin. destruct Hin as [-> |[-> |[]]].
    + apply D0 in Hm as [_ ->]. done.
    + apply D1 in Hm as [_ ->]. done.
Qed.

(** Whatever is not free is allocated on disk, or in one of the trees. *)
Lemma not_free_where s pass sp w x :
  winv e start size s pass sp w -> inside start size x -> sp x <> Free -> on_disk (sp x) \/ pending w x.
Proof using All.
  intros Hw Hx Hne. pose proof (winv_core0 _ _ _ _ _ _ _ Hw) as Hc.
  pose proof (core_trees _ _ _ _ _ _ _ Hc) as (tr & Htr & (Hl & Ha & Hf & Hd & (d0 & d1 & Hdf & D0 & D1) & _) & _).
  pose proof (core_states _ _ _ _ _ _ _ Hc) as (_ & Hb & Hdi & _).
  destruct (sp x) as [|b [] |d| |i] eqn:E; [done|by left|right; exists tr..].
  - specialize (Hb x b false Hx E). cbn in Hb. destruct (Ha b) as (rt & Hrt & Hh); [lia|]. exists rt. split; [done|]. split.
    + do 2 right. apply elem_of_app. left. by eapply list_elem_of_lookup_2.
    + apply Hh. split; [done|]. by left.
  - exists (ms_freeing tr). split; [done|]. split; [by left|]. apply Hf. split; [done|]. by exists d.
  - exists (ms_freed tr). split; [done|]. split; [by right; left|]. by apply Hd.
  - pose proof (Hdi x i Hx E). rewrite Hdf. assert (i = 0%nat \/ i = 1%nat) as [-> | ->] by lia.
    + exists d0. split; [done|]. split; [set_solver|]. by apply D0.
    + exists d1. split; [done|]. split; [set_solver|]. by apply D1.
Qed.

Lemma map_of s pass sp w :
  winv e start size s pass sp w -> on_map w (fun x => inside start size x /\ on_disk (sp x)).
Proof using All.
  intros Hw. pose proof (core_log _ _ _ _ _ _ _ (winv_core0 _ _ _ _ _ _ _ Hw)) as Hl. unfold on_map.
  destruct (ms_sm (w_ms w)); [apply Hl|]. intros x [Hx Hd].
  destruct (Hl x Hx) as [E|[[b E]|E]]; by rewrite E in Hd.
Qed.

(** Free is what is neither allocated on disk nor in one of the trees. *)
Lemma free_iff s pass sp w x :
  winv e start size s pass sp w -> inside start size x ->
  sp x = Free <-> ~ (inside start size x /\ on_disk (sp x)) /\ ~ pending w x.
Proof using All.
  intros Hw Hx. split.
  - intros E. split; [intros [_ Hd]; by rewrite E in Hd|]. intros Hpd. by apply (pending_state _ _ _ _ _ Hw Hpd).
  - intros [Hnd Hnp]. destruct (decide (sp x = Free)) as [|Hne]; [done|].
    destruct (not_free_where _ _ _ _ _ Hw Hx Hne); tauto.
Qed.

Lemma holds_none sp P rt : holds start size sp P rt -> (forall x, inside start size x -> ~ P (sp x)) -> rt_space rt = 0.
Proof using All. intros Hh Hn. apply (set_empty _ _ _ Hh). intros x [Hx HP]. by apply (Hn x). Qed.

(** Nothing is being allocated for a txg that is not one of the three. *)
Lemma allocating_none s pass sp tr t t' :
  states_ok e start size s pass sp -> trees_ok start size s sp tr -> s <= t <= s + 3 -> txg_slot t' = txg_slot t ->
  (forall x, inside start size x -> ~ is_allocating s t (sp x)) ->
  exists rt, allocating tr t' = Ret rt /\ rt_space rt = 0.
Proof using All.
  intros Hst Ht Htr Hslot Hn. pose proof Hdev as (Hp & _).
  destruct (allocating_ok e start size Hp s sp tr t Ht Htr) as (rt & Hal & _ & Hh). exists rt.
  unfold allocating in *. rewrite Hslot. split; [done|]. by eapply holds_none.
Qed.

(** What [metaslab_sync] asserts at its end, and [metaslab_sync_done] at its. *)
Definition sync_asserts (ms : metaslab) (txg : Z) : Prop :=
  exists tr, ms_trees ms = Some tr /\
    (forall t, t = txg \/ t = TXG_CLEAN txg -> exists rt, allocating tr t = Ret rt /\ rt_space rt = 0) /\
    rt_space (ms_freeing tr) = 0 /\ rt_space (ms_checkpointing tr) = 0.

Definition sync_done_asserts (ms : metaslab) (txg : Z) : Prop :=
  0 <= ms_deferspace ms <= ms_size ms /\
  exists tr, ms_trees ms = Some tr /\ (exists rt, allocating tr txg = Ret rt /\ rt_space rt = 0) /\
    rt_space (ms_freeing tr) = 0 /\ rt_space (ms_freed tr) = 0 /\ rt_space (ms_checkpointing tr) = 0.

Lemma sync_asserts_ok s pass sp w :
  winv e start size s pass (fun x => sync_state s (sp x)) w -> 0 < s < 2 ^ 63 -> sync_asserts (w_ms w) s.
Proof using All.
  intros Hw Hs. pose proof (winv_core0 _ _ _ _ _ _ _ Hw) as Hc. pose proof Hdev as (Hp & Hcf & _).
  destruct (core_trees _ _ _ _ _ _ _ Hc) as (tr & Htr & Ht & _). pose proof Ht as (_ & _ & Hf & _ & _ & Hck).
  pose proof (core_states _ _ _ _ _ _ _ Hc) as Hst. pose proof Hst as (_ & Hb & _).
  destruct (clean_slot e start size Hp Hcf s) as (Hcl & _); [lia..|].
  exists tr. split; [done|]. split; [|split].
  - intros t [-> | ->].
    + apply (allocating_none s pass _ tr s s Hst Ht); [lia|done|]. intros x Hx.
      rewrite (sync_allocating e start size Hp Hcf) by lia. tauto.
    + apply (allocating_none s pass _ tr (s + 3) _ Hst Ht); [lia|by rewrite Hcl, txg_slot_clean|]. intros x Hx [E|[? _]]; [|lia].
      specialize (Hb x _ _ Hx E). cbn in Hb. lia.
  - eapply holds_none; [exact Hf|]. intros x _. by apply (sync_not_freeing e start size Hp Hcf).
  - eapply holds_none; [exact Hck|]. tauto.
Qed.

Lemma sync_done_asserts_ok s defer sp w :
  winv e start size (s + 1) 0 (fun x => done_state s defer (sp x)) w -> (forall x d, inside start size x -> sp x <> Freeing d) ->
  sync_done_asserts (w_ms w) s.
Proof using All.
  intros Hw Hnf. pose proof (winv_core0 _ _ _ _ _ _ _ Hw) as Hc. pose proof Hdev as (Hp & Hcf & _).
  destruct (core_trees _ _ _ _ _ _ _ Hc) as (tr & Htr & Ht & Hds).
  pose proof Ht as (_ & _ & Hf & Hfd & (d0 & d1 & Hdf & D0 & D1) & Hck).
  pose proof (core_states _ _ _ _ _ _ _ Hc) as Hst. pose proof Hst as (_ & Hb & _).
  split.
  - rewrite (core_size _ _ _ _ _ _ _ Hc), (Hds d0 d1 Hdf).
    eapply counted_bound; [exact Hp|]. eapply counted_join; [exact Hp|by eapply holds_counted|by eapply holds_counted|].
    intros o -> ?. congruence.
  - exists tr. split; [done|]. split_and!.
    + apply (allocating_none (s + 1) 0 _ tr (s + 4) s Hst Ht); [lia| |].
      * rewrite !txg_slot_mod. f_equal. eucl.
      * intros x Hx [E|[? _]]; [|lia]. specialize (Hb x _ _ Hx E). cbn in Hb. lia.
    + eapply holds_none; [exact Hf|]. intros x Hx [d E]. apply (Hnf x d Hx). by apply (done_freeing e start size Hp Hcf s sp) in E.
    + eapply holds_none; [exact Hfd|]. intros x Hx. by apply (done_not_freed e start size Hp Hcf s sp).
    + eapply holds_none; [exact Hck|]. tauto.
Qed.
End Facts.

(** C2: what is allocated is free.  A block that an allocation returns is
    made of whole sectors of the metaslab, no byte of it is allocated according
    to the space map, nor in any of the trees of the transaction groups:
    allocated, being freed, freed or deferred.  It is in the metaslab's
    allocations of the txg afterwards. *)
Theorem metaslab_alloc_safe e start size s pass sp w c b n txg a aw w' off :
  device_ok e start size -> reach e start size s pass sp w ->
  op_pre e start size s pass sp w (OpAlloc c b n txg a aw) ->
  exec e s w (OpAlloc c b n txg a aw) = Ret (w', Offset (Some off)) ->
  block_ok e start size off n /\
  (exists X, on_map w X /\ forall x, off <= x < off + n -> ~ X x) /\
  (forall x, off <= x < off + n -> ~ pending w x) /\
  exists tr rt, ms_trees (w_ms w') = Some tr /\ allocating tr txg = Ret rt /\
    forall x, off <= x < off + n -> rt_mem rt x.
Proof.
  intros Hdev Hr Hpre Hex. pose proof Hdev as (Hp & _). pose proof (reach_winv e start size Hdev _ _ _ _ Hr) as Hw.
  destruct (ms_step_ok e start size Hdev _ _ _ _ _ Hw Hpre) as (w1 & r1 & s1 & p1 & sp1 & Hex1 & Hsp & Hw1).
  rewrite Hex in Hex1. injection Hex1 as <- <-. inversion Hsp as [? ? ? ? ? ? ? Hb Hfree| | | | | | | | |]; subst.
  split; [done|]. split; [|split].
  - exists (fun x => inside start size x /\ on_disk (sp x)). split; [by eapply map_of|].
    intros x Hx [_ Hd]. by rewrite (Hfree x Hx) in Hd.
  - intros x Hx Hpend. by apply (pending_state e start size Hdev s1 p1 sp w x Hw Hpend), Hfree.
  - pose proof (core_trees _ _ _ _ _ _ _ (winv_core0 _ _ _ _ _ _ _ Hw1)) as (tr & Htr & Ht & _).
    destruct Hpre as (_ & _ & _ & _ & _ & Htxg & _).
    destruct (allocating_ok e start size Hp s1 _ tr txg Ht) as (rt & Hal & _ & Hh); [lia|].
    exists tr, rt. split; [done|]. split; [done|]. intros x Hx. apply Hh.
    split; [by apply (block_bounds e start size Hp off n Hb)|]. left. by apply upd_range_in.
Qed.

Lemma metaslab_alloc_safe_witness :
  block_ok demo_env 16384 16384 16384 4096 /\
  (exists X, on_map demo0 X /\ forall x, 16384 <= x < 16384 + 4096 -> ~ X x) /\
  (forall x, 16384 <= x < 16384 + 4096 -> ~ pending demo0 x) /\
  exists tr rt, ms_trees (w_ms demo1) = Some tr /\ allocating tr 4 = Ret rt /\
    forall x, 16384 <= x < 16384 + 4096 -> rt_mem rt x.
Proof. exact (metaslab_alloc_safe _ _ _ _ _ _ _ _ _ _ _ _ _ _ _ demo_device demo_reach0 demo_pre1 demo_exec1). Defined.

(** C3: what is freed is not reused too early.  Whatever operations come
    between, a block freed in txg [s] is not handed out again, in whole or in
    part, before txg [s] is done: an allocation returns a block apart from it.
    As long as every txg from [s] on ends with its frees deferred (there is
    space enough, and no device is being removed), it is not handed out before
    txg [s + 2] is done either. *)
Theorem metaslab_deferral e start size ok s pass sp w c off n w1 r1 s' pass' sp' w' c2 b m txg a aw w2 o :
  device_ok e start size -> reach e start size s pass sp w ->
  op_pre e start size s pass sp w (OpFree c off n) -> exec e s w (OpFree c off n) = Ret (w1, r1) ->
  run e start size ok s pass (upd_range sp off n (fun x => free_state (sp x))) w1 s' pass' sp' w' ->
  s' = s \/ (forall o, ok o -> deferring e o) /\ s' <= s + 2 ->
  op_pre e start size s' pass' sp' w' (OpAlloc c2 b m txg a aw) ->
  exec e s' w' (OpAlloc c2 b m txg a aw) = Ret (w2, Offset (Some o)) ->
  o + m <= off \/ off + n <= o.
Proof.
  intros Hdev Hr Hpre Hex Hrun0 Hcase Hpa Hexa.
  assert (run e start size (deferring e) s pass (upd_range sp off n (fun x => free_state (sp x))) w1 s' pass' sp' w' /\ s' <= s + 2)
    as [Hrun Hle].
  { destruct Hcase as [Hs|[Hd ?]]; [split; [by apply (run_same_txg _ _ _ _ _ _ _ _ _ _ _ _ Hrun0)|lia]|split; [|done]].
    by apply (run_mono _ _ _ ok). }
  destruct (freed_held e start size s pass sp w c off n w1 r1 s' pass' sp' w') as (Hw & Hn & Hh); auto.
  destruct (ms_step_ok e start size Hdev _ _ _ _ _ Hw Hpa) as (w3 & r3 & s3 & p3 & sp3 & Hex3 & Hsp & _).
  rewrite Hexa in Hex3. injection Hex3 as <- <-. inversion Hsp as [? ? ? ? ? ? ? (_ & Hm & _) Hfree| | | | | | | | |]; subst.
  destruct (decide (o + m <= off \/ off + n <= o)) as [|Hov]; [done|]. exfalso.
  destruct (Hh (Z.max off o)) as [_ Hx]; [lia|]. rewrite (Hfree (Z.max off o)) in Hx by lia.
  destruct Hx as [[_ [[? ?]|?]]|[_ ?]]; congruence.
Qed.

(** The example from the free on: the txg of the free is done. *)
Lemma demo_run5 : run demo_env 16384 16384 (deferring demo_env) 4 1 sp3 demo3 5 0 sp5 demo5.
Proof.
  eapply run_step; [eapply run_step; [apply run_refl| |apply demo_pre4|apply demo_exec4|apply (spec_sync _ _ _ 4 1)]| |
    apply demo_pre5|apply demo_exec5|apply (spec_done _ _ _ 4 2)]; done.
Qed.

Lemma metaslab_deferral_witness : 20480 + 4096 <= 16384 \/ 16384 + 4096 <= 20480.
Proof.
  eapply (metaslab_deferral _ _ _ _ _ _ _ _ _ _ _ _ _ _ _ _ _ _ _ _ _ _ _ _ _ demo_device demo_reach2 demo_pre3 demo_exec3
    demo_run5 _ demo_pre6 demo_exec6).
  Unshelve. right. split; [done|lia].
Defined.

(** What is freed comes back.  When txg [s + 2] is done after the
    deferral of a block freed in txg [s], every byte of the block is free: in
    the metaslab's tree of free space, if it is loaded. *)
Theorem metaslab_freed_returns e start size s pass sp w c off n w1 r1 s' pass' sp' w' c2 ps w2 r2 :
  device_ok e start size -> reach e start size s pass sp w ->
  op_pre e start size s pass sp w (OpFree c off n) -> exec e s w (OpFree c off n) = Ret (w1, r1) ->
  run e start size (deferring e) s pass (upd_range sp off n (fun x => free_state (sp x))) w1 s' pass' sp' w' ->
  s' = s + 2 -> op_pre e start size s' pass' sp' w' (OpDone c2 ps) ->
  exec e s' w' (OpDone c2 ps) = Ret (w2, r2) -> ms_loaded (w_ms w2) = true ->
  forall x, off <= x < off + n -> rt_mem (ms_allocatable (w_ms w2)) x.
Proof.
  intros Hdev Hr Hpre Hex Hrun Hs' Hpd Hexd Hld x Hx.
  destruct (freed_held e start size s pass sp w c off n w1 r1 s' pass' sp' w') as (Hw & _ & Hh); auto; [lia|].
  destruct (ms_step_ok e start size Hdev _ _ _ _ _ Hw Hpd) as (w3 & r3 & s3 & p3 & sp3 & Hex3 & Hsp & Hw3).
  rewrite Hexd in Hex3. injection Hex3 as <- <-. inversion Hsp; subst. pose proof Hdev as (Hp & _).
  destruct (core_free_tree e start size Hp _ _ _ _ (winv_core0 _ _ _ _ _ _ _ Hw3) Hld) as [_ [_ Hm]].
  apply Hm. destruct (Hh x Hx) as [Hin Hx']. split; [done|]. destruct Hx' as [[? _]|[_ ->]]; [lia|]. cbn.
  destruct (defer_slot_next s) as [_ ->]. by rewrite Nat.eqb_refl.
Qed.

Lemma demo_run9 : run demo_env 16384 16384 (deferring demo_env) 4 1 sp3 demo3 6 1 sp9 demo9.
Proof.
  eapply run_step; [eapply run_step; [eapply run_step; [apply demo_run5| |apply demo_pre7|apply demo_exec7|
    apply (spec_sync _ _ _ 5 0)]| |apply demo_pre8|apply demo_exec8|apply (spec_done _ _ _ 5 1)]| |
    apply demo_pre9|apply demo_exec9|apply (spec_sync _ _ _ 6 0)]; done.
Qed.

Lemma metaslab_freed_returns_witness : rt_mem (ms_allocatable (w_ms demo10)) 16384 /\ rt_mem (ms_allocatable (w_ms demo10)) 20479.
Proof.
  assert (ms_loaded (w_ms demo10) = true) as Hl by (vm_compute; reflexivity).
  pose proof (metaslab_freed_returns _ _ _ _ _ _ _ _ _ _ _ _ _ _ _ _ _ _ _ _ demo_device demo_reach2 demo_pre3 demo_exec3
    demo_run9 eq_refl demo_pre10 demo_exec10 Hl) as H.
  split; apply H; lia.
Defined.

(** C4: the tree of free space is exact.  A metaslab that is loaded, or that
    [metaslab_load] loads, which does not fail, has as free exactly the bytes
    that its space map does not have allocated and that no tree of the
    transaction groups holds back. *)
Theorem metaslab_free_exact e start size s pass sp w :
  device_ok e start size -> reach e start size s pass sp w ->
  exists ms' X, (if ms_loaded (w_ms w) then Ret (w_ms w, 0) else metaslab_load e (w_ms w)) = Ret (ms', 0) /\
    on_map w X /\
    forall x, rt_mem (ms_allocatable ms') x <-> inside start size x /\ ~ X x /\ ~ pending w x.
Proof.
  intros Hdev Hr. pose proof Hdev as (Hp & _). pose proof (reach_winv e start size Hdev _ _ _ _ Hr) as Hw.
  pose proof (winv_core e start size Hp _ _ _ _ Hw) as Hc.
  assert (exists ms', (if ms_loaded (w_ms w) then Ret (w_ms w, 0) else metaslab_load e (w_ms w)) = Ret (ms', 0) /\
    core e start size s pass sp ms' /\ ms_loaded ms' = true) as (ms' & Hld & Hc' & Hl').
  { destruct (ms_loaded (w_ms w)) eqn:E; [eauto|].
    destruct (load_ms_ok e start size Hp s pass sp (w_ms w) Hc E) as (ms' & ? & ? & ? & _). eauto. }
  exists ms', (fun x => inside start size x /\ on_disk (sp x)). split; [done|]. split; [by eapply map_of|]. intros x.
  destruct (core_free_tree e start size Hp _ _ _ _ Hc' Hl') as [_ [_ ->]]. split.
  - intros [Hx Hf]. split; [done|]. by apply (free_iff e start size Hdev s pass sp w x Hw Hx).
  - intros [Hx Hf]. split; [done|]. by apply (free_iff e start size Hdev s pass sp w x Hw Hx).
Qed.

Lemma metaslab_free_exact_witness :
  exists ms' X, (if ms_loaded (w_ms demo5) then Ret (w_ms demo5, 0) else metaslab_load demo_env (w_ms demo5)) = Ret (ms', 0) /\
    on_map demo5 X /\
    forall x, rt_mem (ms_allocatable ms') x <-> inside 16384 16384 x /\ ~ X x /\ ~ pending demo5 x.
Proof. exact (metaslab_free_exact _ _ _ _ _ _ _ demo_device demo_reach5). Defined.

(** C5: a metaslab can be opened again.  [metaslab_init] on the space map of
    any metaslab that operations lead to gives a metaslab, one that operations
    lead to, in which exactly the bytes that were allocated on disk are
    allocated: those allocated in txgs that were synced, or by the passes of
    this one, and not freed by them.  All else is free.  This is also what the
    space map stands for. *)
Theorem metaslab_reopen e start size s pass sp w sm c ps load mg st ck id ms_shift txg s2 :
  device_ok e start size -> reach e start size s pass sp w -> ms_sm (w_ms w) = Some sm ->
  start = id * 2 ^ ms_shift -> size = 2 ^ ms_shift -> 0 <= ms_shift -> 0 <= txg <= TXG_INITIAL ->
  fresh_group start mg -> 1 <= s2 ->
  exists w2 sp2, metaslab_init e c ps load mg st ck id ms_shift (Some (inr sm)) txg = Ret (inr w2) /\
    reach e start size s2 0 sp2 w2 /\ log_repr sm (fun x => inside start size x /\ on_disk (sp x)) /\
    forall x, inside start size x -> (on_disk (sp x) -> sp2 x = Live 0 true) /\ (~ on_disk (sp x) -> sp2 x = Free).
Proof.
  intros Hdev Hr Hsm Hst Hsz Hsh Htxg Hfg Hs2. pose proof Hdev as (Hp & Hcf & _).
  pose proof (reach_winv e start size Hdev _ _ _ _ Hr) as Hw. pose proof (winv_core0 _ _ _ _ _ _ _ Hw) as Hc.
  set (sp2 := fun x => match sp x with Live _ true | Freeing true => Live 0 true | _ => Free end).
  assert (forall x, sp2 x = Free /\ ~ on_disk (sp x) \/ sp2 x = Live 0 true /\ on_disk (sp x)) as Hsp2.
  { intros x. unfold sp2. destruct (sp x) as [|? []|[]| |]; cbn; auto. }
  pose proof (core_log _ _ _ _ _ _ _ Hc) as Hl. rewrite Hsm in Hl. destruct Hl as ((L1 & L2 & [L3 L4] & L5 & L6 & _) & Hrep & _).
  assert (disk_ok e start size sp2 (Some sm)) as Hdisk.
  { split; [|split].
    - intros x Hx. destruct (Hsp2 x) as [[-> _]|[-> _]]; [by left|]. right. exists 0. split; [lia|done].
    - intros x y Hx Hxy. pose proof (core_states _ _ _ _ _ _ _ Hc) as (Hu & _). unfold sp2. by rewrite (Hu x y Hx Hxy).
    - split_and!; auto. eapply log_repr_equiv; [apply (log_repr_same sm _ _ Hrep)|]; try done.
      intros x. destruct (Hsp2 x) as [[-> Hd]|[-> Hd]]; cbn; tauto. }
  destruct (ms_init_ok e start size Hp Hcf c ps load mg st ck id ms_shift (Some sm) txg sp2) as (w2 & Hi & _); auto.
  exists w2, sp2. split; [done|]. split; [|split; [done|]].
  - by eapply (reach_init e start size c ps load mg st ck id ms_shift (Some sm)).
  - intros x Hx. destruct (Hsp2 x) as [[-> Hd]|[-> Hd]]; tauto.
Qed.

Definition demo_sm : space_map :=
  match ms_sm (w_ms demo2) with Some sm => sm | None => space_map_alloc true 0 0 end.

Lemma demo_has_sm : ms_sm (w_ms demo2) = Some demo_sm.
Proof.
  assert (ms_sm (w_ms demo2) <> None) as H by (vm_compute; discriminate). unfold demo_sm.
  destruct (ms_sm (w_ms demo2)); done.
Qed.

(** The block that was allocated and synced is there, what follows is free. *)
Lemma metaslab_reopen_witness :
  exists w2 sp', metaslab_init demo_env (demo_ctx 1 1) demo_ps true demo_group demo_stats demo_ck 1 14 (Some (inr demo_sm)) 0 = Ret (inr w2) /\
    reach demo_env 16384 16384 7 0 sp' w2 /\ sp' 16384 = Live 0 true /\ sp' 20480 = Free.
Proof.
  destruct (metaslab_reopen _ _ _ _ _ _ _ demo_sm (demo_ctx 1 1) demo_ps true demo_group demo_stats demo_ck 1 14 0 7
    demo_device demo_reach2 demo_has_sm) as (w2 & sp' & Hi & Hr & _ & Hx).
  - lia.
  - lia.
  - lia.
  - unfold TXG_INITIAL, TXG_SIZE. lia.
  - apply demo_fresh.
  - lia.
  - exists w2, sp'. split; [exact Hi|]. split; [exact Hr|]. split.
    + apply Hx; [unfold inside; lia|]. vm_compute. exact I.
    + apply Hx; [unfold inside; lia|]. vm_compute. intros [].
Defined.

(** C6: a transaction group can be finished.  Whatever there is to sync in
    txg [s], one pass of [vdev_sync] leaves nothing of it: the trees that
    [metaslab_sync] asserts to be empty are, and the metaslab is not dirty, so
    that [vdev_sync_done] may follow.  It returns, with what
    [metaslab_sync_done] asserts, and the next txg begins. *)
Theorem metaslab_txg_completes e start size s pass sp w c io c2 ps :
  device_ok e start size -> reach e start size s pass sp w -> op_pre e start size s pass sp w (OpSync c io) ->
  exists w1 w2 sp2, exec e s w (OpSync c io) = Ret (w1, Done) /\ sync_asserts (w_ms w1) s /\
    is_dirty (w_ms w1) s = false /\ exec e s w1 (OpDone c2 ps) = Ret (w2, Done) /\
    sync_done_asserts (w_ms w2) s /\ reach e start size (s + 1) 0 sp2 w2.
Proof.
  intros Hdev Hr (H0 & Hs & Hargs). pose proof Hdev as (Hp & Hcf & _).
  pose proof (reach_winv e start size Hdev _ _ _ _ Hr) as Hw.
  destruct (vdev_sync_ok e start size Hp Hcf s pass sp w c io Hw Hargs) as (w1 & Hex & Hw1 & Hcl & _).
  destruct (vdev_sync_done_ok e start size Hp Hcf _ _ _ w1 c2 ps Hw1 Hcl H0 Hs) as (w2 & Hex2 & Hw2).
  exists w1, w2. eexists. cbn [exec]. rewrite Hex, Hex2. cbn [mbind result_bind].
  split; [done|]. split; [eapply sync_asserts_ok; [exact Hdev|exact Hw1|lia]|]. split; [done|]. split; [done|].
  split; [eapply sync_done_asserts_ok; [exact Hdev|exact Hw2|]|].
  { intros x d _ E. apply (sync_not_freeing e start size Hp Hcf s (sp x)). by exists d. }
  eapply reach_step; [eapply reach_step; [exact Hr| | |apply spec_sync]| | |apply spec_done].
  - by split.
  - cbn [exec]. by rewrite Hex.
  - by split.
  - cbn [exec]. by rewrite Hex2.
Qed.

Lemma metaslab_txg_completes_witness :
  exists w1 w2 sp2, exec demo_env 4 demo1 (demo_sync 1) = Ret (w1, Done) /\ sync_asserts (w_ms w1) 4 /\
    is_dirty (w_ms w1) 4 = false /\ exec demo_env 4 w1 demo_done = Ret (w2, Done) /\
    sync_done_asserts (w_ms w2) 4 /\ reach demo_env 16384 16384 (4 + 1) 0 sp2 w2.
Proof. exact (metaslab_txg_completes _ _ _ _ _ _ _ _ _ (demo_ctx 4 2) demo_ps demo_device demo_reach1 demo_pre2). Defined.

(** C7: the group knows the metaslab.  The tree of the group is balanced and
    has the metaslab once, with the weight and allocator it has; the tables of
    the group have it exactly as the primary or secondary of the allocator it
    is active for; a metaslab whose weight says it is active is loaded, and is
    active for one allocator, or for claims and no allocator. *)
Theorem metaslab_group_consistent e start size s pass sp w :
  device_ok e start size -> reach e start size s pass sp w ->
  in_group (w_ms w) (mg_metaslab_tree (w_mg w)) /\
  (forall p a, slots (w_mg w) p !! a = Some (Some (ms_start (w_ms w))) <->
     ms_allocator (ms_sel (w_ms w)) = Z.of_nat a /\ ms_primary (ms_sel (w_ms w)) = p) /\
  active_ok (w_ms w).
Proof.
  intros Hdev Hr. destruct (reach_winv e start size Hdev _ _ _ _ Hr) as [[_ [Hg _] Ho _ Ha _] _]. done.
Qed.

Lemma metaslab_group_consistent_witness :
  in_group (w_ms demo1) (mg_metaslab_tree (w_mg demo1)) /\
  (forall p a, slots (w_mg demo1) p !! a = Some (Some (ms_start (w_ms demo1))) <->
     ms_allocator (ms_sel (w_ms demo1)) = Z.of_nat a /\ ms_primary (ms_sel (w_ms demo1)) = p) /\
  active_ok (w_ms demo1).
Proof. exact (metaslab_group_consistent _ _ _ _ _ _ _ demo_device demo_reach1). Defined.

(** The space map and the trees agree.  The check of
    [metaslab_verify_space], that the space the space map has free is the space
    of the trees, never fails. *)
Theorem metaslab_space_agrees e start size s pass sp w c txg :
  device_ok e start size -> reach e start size s pass sp w ->
  0 < s < 2 ^ 63 -> s - 1 <= spa_syncing_txg c <= s -> s <= txg ->
  metaslab_verify_space e c (w_ms w) txg = Ret tt.
Proof.
  intros Hdev Hr Hs Hsync Htxg. pose proof Hdev as (Hp & _).
  apply (verify_space_ok e start size Hp s pass sp); auto. apply winv_core0, (reach_winv e start size Hdev _ _ _ _ Hr).
Qed.

Lemma metaslab_space_agrees_witness :
  ms_loaded (w_ms demo4) = true /\ metaslab_verify_space demo_env (demo_ctx 4 3) (w_ms demo4) 4 = Ret tt.
Proof.
  split; [vm_compute; reflexivity|].
  apply (metaslab_space_agrees _ _ _ _ _ _ _ (demo_ctx 4 3) 4 demo_device demo_reach4); cbn; lia.
Defined.
