(* ===== verification/Txg.v ===== *)
(** * Transaction groups

    Model of [kernel/fs/zfs/txg.c] with [txg_impl.h], the per-txg lists apart.
    A pool has a quiesce thread and a sync thread; other threads hold the open
    txg, put changes into it and release it, or wait for a txg.

    A step of a thread goes from one point where other threads can interfere
    to the next.  Sections under [tx_sync_lock] are one step, but where they
    read [tx_open_txg] twice: this field is not protected by the lock, so the
    thread stops between the two reads and keeps the lock.  The loops over the
    cpus of [txg_quiesce] and of [txg_dispatch_callbacks] stop at every cpu.
    [tc_lock] is held only within a step.  A function of a thread that can
    block returns [None] when it does.

    The state also records, to state what the code promises, which callbacks
    were registered, with their txg, and which were called; and whether the
    threads were started and not asked to stop. *)

From stdpp Require Import functions.
From S2P Require Import Prelude TxgData.

(** ** Data *)

(** The quiesce thread, the sync thread, any other. *)
Inductive thr : Type := QT | ST | UT (t : tid).

#[export] Instance thr_eq_dec : EqDecision thr.
Proof. solve_decision. Defined.

(** The condition variables of [tx_state_t] and [tx_cpu_t]. *)
Inductive cv : Type :=
| tx_sync_more_cv
| tx_sync_done_cv
| tx_quiesce_more_cv
| tx_quiesce_done_cv
| tx_exit_cv
| tc_cv (c g : nat).

#[export] Instance cv_eq_dec : EqDecision cv.
Proof. solve_decision. Defined.

(** [dmu_tx_callback_t], with the txg it was registered in. *)
Record callback : Type := Callback { cb_id : nat; cb_txg : Z }.

(** [tx_cpu_t].  A count is a number of threads, far below [2^64]. *)
Record cpu : Type := Cpu {
  tc_open_lock : option thr;
  tc_count : nat -> Z;
  tc_callbacks : nat -> list callback;
}.

Definition set_tc_open_lock (k : cpu) (v : option thr) : cpu := Cpu v (tc_count k) (tc_callbacks k).
Definition set_tc_count (k : cpu) (g : nat) (v : Z) : cpu := Cpu (tc_open_lock k) (upd (tc_count k) g v) (tc_callbacks k).
Definition set_tc_callbacks (k : cpu) (g : nat) (v : list callback) : cpu :=
  Cpu (tc_open_lock k) (tc_count k) (upd (tc_callbacks k) g v).

(** ** Where a thread is *)

(** [txg_quiesce_thread]: not there; starting or in the wait of its loop; in
    the three loops of [txg_quiesce]. *)
Inductive quiesce_place : Type :=
| QNone
| QWait
| QLock (txg : Z) (c : nat)
| QUnlock (txg : Z) (c : nat)
| QDrain (txg : Z) (c : nat).

(** [txg_sync_thread]: not there; starting or in the wait of the first loop; in
    the wait of the second; between the two reads of [tx_open_txg] there, with
    the lock; in [spa_sync]; in [txg_dispatch_callbacks], with the lock. *)
Inductive sync_place : Type :=
| SNone
| SWait1
| SWait2
| SPrompt
| SSync (txg : Z)
| SDispatch (txg : Z) (c : nat).

(** [txg_delay]: before the read of [tx_syncing_txg], of [tx_synced_txg],
    before the lock, in the wait. *)
Inductive delay_place : Type := DSyncing | DSynced | DLock | DLoop.

(** Another thread: outside; in [txg_hold_open], with the open lock; with a
    hold and the open lock; in [txg_delay]; with a hold; in [txg_wait_synced]
    (on behalf of [txg_sync_stop] or not); in [txg_wait_open], with
    [tx_sync_lock] or waiting; in [txg_kick] between the two reads, with the
    lock; in [txg_sync_stop] before [txg_wait_synced], after it, and waiting for
    the threads to exit. *)
Inductive user_place : Type :=
| UIdle
| UEnter (c : nat) (txg : Z)
| UHeld (c : nat) (txg : Z)
| UDelay (c : nat) (txg : Z) (d : delay_place)
| UAssigned (c : nat) (txg : Z)
| UWaitSynced (stop : bool) (txg : Z)
| UOpenCheck (txg : Z)
| UWaitOpen (txg : Z)
| UKick
| UStopCall (txg : Z)
| UStop
| UStopping.

(** [tx_state_t]: a lock is its owner, a thread whether it is there, the taskq
    the tasks dispatched to it and not yet run.  [slp] is the condition
    variable a thread sleeps on. *)
Record sys : Type := Sys {
  tx_cpu : nat -> cpu;
  tx_sync_lock : option thr;
  tx_open_txg : Z;
  tx_quiescing_txg : Z;
  tx_quiesced_txg : Z;
  tx_syncing_txg : Z;
  tx_synced_txg : Z;
  tx_sync_txg_waiting : Z;
  tx_quiesce_txg_waiting : Z;
  tx_threads : Z;
  tx_exiting : bool;
  tx_sync_thread : bool;
  tx_quiesce_thread : bool;
  tx_commit_cb_taskq : option (list (list callback));
  qpc : quiesce_place;
  spc : sync_place;
  upc : tid -> user_place;
  slp : thr -> option cv;
  running : bool;
  registered : list callback;
  called : list callback;
}.

Definition set_tx_cpu (s : sys) (v : nat -> cpu) : sys :=
  Sys v (tx_sync_lock s) (tx_open_txg s) (tx_quiescing_txg s) (tx_quiesced_txg s) (tx_syncing_txg s)
    (tx_synced_txg s) (tx_sync_txg_waiting s) (tx_quiesce_txg_waiting s) (tx_threads s) (tx_exiting s)
    (tx_sync_thread s) (tx_quiesce_thread s) (tx_commit_cb_taskq s) (qpc s) (spc s) (upc s) (slp s)
    (running s) (registered s) (called s).
Definition set_tx_sync_lock (s : sys) (v : option thr) : sys :=
  Sys (tx_cpu s) v (tx_open_txg s) (tx_quiescing_txg s) (tx_quiesced_txg s) (tx_syncing_txg s)
    (tx_synced_txg s) (tx_sync_txg_waiting s) (tx_quiesce_txg_waiting s) (tx_threads s) (tx_exiting s)
    (tx_sync_thread s) (tx_quiesce_thread s) (tx_commit_cb_taskq s) (qpc s) (spc s) (upc s) (slp s)
    (running s) (registered s) (called s).
Definition set_tx_open_txg (s : sys) (v : Z) : sys :=
  Sys (tx_cpu s) (tx_sync_lock s) v (tx_quiescing_txg s) (tx_quiesced_txg s) (tx_syncing_txg s)
    (tx_synced_txg s) (tx_sync_txg_waiting s) (tx_quiesce_txg_waiting s) (tx_threads s) (tx_exiting s)
    (tx_sync_thread s) (tx_quiesce_thread s) (tx_commit_cb_taskq s) (qpc s) (spc s) (upc s) (slp s)
    (running s) (registered s) (called s).
Definition set_tx_quiescing_txg (s : sys) (v : Z) : sys :=
  Sys (tx_cpu s) (tx_sync_lock s) (tx_open_txg s) v (tx_quiesced_txg s) (tx_syncing_txg s) (tx_synced_txg s)
    (tx_sync_txg_waiting s) (tx_quiesce_txg_waiting s) (tx_threads s) (tx_exiting s) (tx_sync_thread s)
    (tx_quiesce_thread s) (tx_commit_cb_taskq s) (qpc s) (spc s) (upc s) (slp s) (running s) (registered s)
    (called s).
Definition set_tx_quiesced_txg (s : sys) (v : Z) : sys :=
  Sys (tx_cpu s) (tx_sync_lock s) (tx_open_txg s) (tx_quiescing_txg s) v (tx_syncing_txg s) (tx_synced_txg s)
    (tx_sync_txg_waiting s) (tx_quiesce_txg_waiting s) (tx_threads s) (tx_exiting s) (tx_sync_thread s)
    (tx_quiesce_thread s) (tx_commit_cb_taskq s) (qpc s) (spc s) (upc s) (slp s) (running s) (registered s)
    (called s).
Definition set_tx_syncing_txg (s : sys) (v : Z) : sys :=
  Sys (tx_cpu s) (tx_sync_lock s) (tx_open_txg s) (tx_quiescing_txg s) (tx_quiesced_txg s) v (tx_synced_txg s)
    (tx_sync_txg_waiting s) (tx_quiesce_txg_waiting s) (tx_threads s) (tx_exiting s) (tx_sync_thread s)
    (tx_quiesce_thread s) (tx_commit_cb_taskq s) (qpc s) (spc s) (upc s) (slp s) (running s) (registered s)
    (called s).
Definition set_tx_synced_txg (s : sys) (v : Z) : sys :=
  Sys (tx_cpu s) (tx_sync_lock s) (tx_open_txg s) (tx_quiescing_txg s) (tx_quiesced_txg s) (tx_syncing_txg s)
    v (tx_sync_txg_waiting s) (tx_quiesce_txg_waiting s) (tx_threads s) (tx_exiting s) (tx_sync_thread s)
    (tx_quiesce_thread s) (tx_commit_cb_taskq s) (qpc s) (spc s) (upc s) (slp s) (running s) (registered s)
    (called s).
Definition set_tx_sync_txg_waiting (s : sys) (v : Z) : sys :=
  Sys (tx_cpu s) (tx_sync_lock s) (tx_open_txg s) (tx_quiescing_txg s) (tx_quiesced_txg s) (tx_syncing_txg s)
    (tx_synced_txg s) v (tx_quiesce_txg_waiting s) (tx_threads s) (tx_exiting s) (tx_sync_thread s)
    (tx_quiesce_thread s) (tx_commit_cb_taskq s) (qpc s) (spc s) (upc s) (slp s) (running s) (registered s)
    (called s).
Definition set_tx_quiesce_txg_waiting (s : sys) (v : Z) : sys :=
  Sys (tx_cpu s) (tx_sync_lock s) (tx_open_txg s) (tx_quiescing_txg s) (tx_quiesced_txg s) (tx_syncing_txg s)
    (tx_synced_txg s) (tx_sync_txg_waiting s) v (tx_threads s) (tx_exiting s) (tx_sync_thread s)
    (tx_quiesce_thread s) (tx_commit_cb_taskq s) (qpc s) (spc s) (upc s) (slp s) (running s) (registered s)
    (called s).
Definition set_tx_threads (s : sys) (v : Z) : sys :=
  Sys (tx_cpu s) (tx_sync_lock s) (tx_open_txg s) (tx_quiescing_txg s) (tx_quiesced_txg s) (tx_syncing_txg s)
    (tx_synced_txg s) (tx_sync_txg_waiting s) (tx_quiesce_txg_waiting s) v (tx_exiting s) (tx_sync_thread s)
    (tx_quiesce_thread s) (tx_commit_cb_taskq s) (qpc s) (spc s) (upc s) (slp s) (running s) (registered s)
    (called s).
Definition set_tx_exiting (s : sys) (v : bool) : sys :=
  Sys (tx_cpu s) (tx_sync_lock s) (tx_open_txg s) (tx_quiescing_txg s) (tx_quiesced_txg s) (tx_syncing_txg s)
    (tx_synced_txg s) (tx_sync_txg_waiting s) (tx_quiesce_txg_waiting s) (tx_threads s) v (tx_sync_thread s)
    (tx_quiesce_thread s) (tx_commit_cb_taskq s) (qpc s) (spc s) (upc s) (slp s) (running s) (registered s)
    (called s).
Definition set_tx_sync_thread (s : sys) (v : bool) : sys :=
  Sys (tx_cpu s) (tx_sync_lock s) (tx_open_txg s) (tx_quiescing_txg s) (tx_quiesced_txg s) (tx_syncing_txg s)
    (tx_synced_txg s) (tx_sync_txg_waiting s) (tx_quiesce_txg_waiting s) (tx_threads s) (tx_exiting s) v
    (tx_quiesce_thread s) (tx_commit_cb_taskq s) (qpc s) (spc s) (upc s) (slp s) (running s) (registered s)
    (called s).
Definition set_tx_quiesce_thread (s : sys) (v : bool) : sys :=
  Sys (tx_cpu s) (tx_sync_lock s) (tx_open_txg s) (tx_quiescing_txg s) (tx_quiesced_txg s) (tx_syncing_txg s)
    (tx_synced_txg s) (tx_sync_txg_waiting s) (tx_quiesce_txg_waiting s) (tx_threads s) (tx_exiting s)
    (tx_sync_thread s) v (tx_commit_cb_taskq s) (qpc s) (spc s) (upc s) (slp s) (running s) (registered s)
    (called s).
Definition set_tx_commit_cb_taskq (s : sys) (v : option (list (list callback))) : sys :=
  Sys (tx_cpu s) (tx_sync_lock s) (tx_open_txg s) (tx_quiescing_txg s) (tx_quiesced_txg s) (tx_syncing_txg s)
    (tx_synced_txg s) (tx_sync_txg_waiting s) (tx_quiesce_txg_waiting s) (tx_threads s) (tx_exiting s)
    (tx_sync_thread s) (tx_quiesce_thread s) v (qpc s) (spc s) (upc s) (slp s) (running s) (registered s)
    (called s).
Definition set_qpc (s : sys) (v : quiesce_place) : sys :=
  Sys (tx_cpu s) (tx_sync_lock s) (tx_open_txg s) (tx_quiescing_txg s) (tx_quiesced_txg s) (tx_syncing_txg s)
    (tx_synced_txg s) (tx_sync_txg_waiting s) (tx_quiesce_txg_waiting s) (tx_threads s) (tx_exiting s)
    (tx_sync_thread s) (tx_quiesce_thread s) (tx_commit_cb_taskq s) v (spc s) (upc s) (slp s) (running s)
    (registered s) (called s).
Definition set_spc (s : sys) (v : sync_place) : sys :=
  Sys (tx_cpu s) (tx_sync_lock s) (tx_open_txg s) (tx_quiescing_txg s) (tx_quiesced_txg s) (tx_syncing_txg s)
    (tx_synced_txg s) (tx_sync_txg_waiting s) (tx_quiesce_txg_waiting s) (tx_threads s) (tx_exiting s)
    (tx_sync_thread s) (tx_quiesce_thread s) (tx_commit_cb_taskq s) (qpc s) v (upc s) (slp s) (running s)
    (registered s) (called s).
Definition set_upc (s : sys) (v : tid -> user_place) : sys :=
  Sys (tx_cpu s) (tx_sync_lock s) (tx_open_txg s) (tx_quiescing_txg s) (tx_quiesced_txg s) (tx_syncing_txg s)
    (tx_synced_txg s) (tx_sync_txg_waiting s) (tx_quiesce_txg_waiting s) (tx_threads s) (tx_exiting s)
    (tx_sync_thread s) (tx_quiesce_thread s) (tx_commit_cb_taskq s) (qpc s) (spc s) v (slp s) (running s)
    (registered s) (called s).
Definition set_slp (s : sys) (v : thr -> option cv) : sys :=
  Sys (tx_cpu s) (tx_sync_lock s) (tx_open_txg s) (tx_quiescing_txg s) (tx_quiesced_txg s) (tx_syncing_txg s)
    (tx_synced_txg s) (tx_sync_txg_waiting s) (tx_quiesce_txg_waiting s) (tx_threads s) (tx_exiting s)
    (tx_sync_thread s) (tx_quiesce_thread s) (tx_commit_cb_taskq s) (qpc s) (spc s) (upc s) v (running s)
    (registered s) (called s).
Definition set_running (s : sys) (v : bool) : sys :=
  Sys (tx_cpu s) (tx_sync_lock s) (tx_open_txg s) (tx_quiescing_txg s) (tx_quiesced_txg s) (tx_syncing_txg s)
    (tx_synced_txg s) (tx_sync_txg_waiting s) (tx_quiesce_txg_waiting s) (tx_threads s) (tx_exiting s)
    (tx_sync_thread s) (tx_quiesce_thread s) (tx_commit_cb_taskq s) (qpc s) (spc s) (upc s) (slp s) v
    (registered s) (called s).
Definition set_registered (s : sys) (v : list callback) : sys :=
  Sys (tx_cpu s) (tx_sync_lock s) (tx_open_txg s) (tx_quiescing_txg s) (tx_quiesced_txg s) (tx_syncing_txg s)
    (tx_synced_txg s) (tx_sync_txg_waiting s) (tx_quiesce_txg_waiting s) (tx_threads s) (tx_exiting s)
    (tx_sync_thread s) (tx_quiesce_thread s) (tx_commit_cb_taskq s) (qpc s) (spc s) (upc s) (slp s)
    (running s) v (called s).
Definition set_called (s : sys) (v : list callback) : sys :=
  Sys (tx_cpu s) (tx_sync_lock s) (tx_open_txg s) (tx_quiescing_txg s) (tx_quiesced_txg s) (tx_syncing_txg s)
    (tx_synced_txg s) (tx_sync_txg_waiting s) (tx_quiesce_txg_waiting s) (tx_threads s) (tx_exiting s)
    (tx_sync_thread s) (tx_quiesce_thread s) (tx_commit_cb_taskq s) (qpc s) (spc s) (upc s) (slp s)
    (running s) (registered s) v.

(** ** Locks and condition variables *)

Definition mutex_held (x : thr) (s : sys) : bool := bool_decide (tx_sync_lock s = Some x).
Definition mutex_enter (x : thr) (s : sys) : sys := set_tx_sync_lock s (Some x).
Definition mutex_exit (s : sys) : sys := set_tx_sync_lock s None.

(** [mutex_enter(&tx->tx_sync_lock)] and what follows; [None]: the lock is
    taken. *)
Definition locked (x : thr) (f : sys -> result sys) (s : sys) : option (result sys) :=
  match tx_sync_lock s with
  | None => Some (f (mutex_enter x s))
  | Some _ => None
  end.

Definition cv_broadcast (v : cv) (s : sys) : sys :=
  set_slp s (fun x => let o := slp s x in if decide (o = Some v) then None else o).
(** [cv_wait] up to the release of the lock. *)
Definition cv_wait (x : thr) (v : cv) (s : sys) : sys := mutex_exit (set_slp s (<[x := Some v]> (slp s))).
Definition wakeup (x : thr) (s : sys) : sys := set_slp s (<[x := None]> (slp s)).

Definition set_place (s : sys) (t : tid) (p : user_place) : sys := set_upc s (upd (upc s) t p).
Definition set_cpu (s : sys) (c : nat) (k : cpu) : sys := set_tx_cpu s (upd (tx_cpu s) c k).

Section txg.
Context (max_ncpus : nat).

(** ** Life of the pool *)

Definition txg_init (txg : Z) : sys :=
  Sys (fun _ => Cpu None (fun _ => 0) (fun _ => [])) None txg 0 0 0 0 0 0 0 false false false None
    QNone SNone (fun _ => UIdle) (fun _ => None) false [] [].

(** [mutex_destroy] and [list_destroy] of something in use panic. *)
Definition txg_fini (s : sys) : result unit :=
  _ ← verify (tx_threads s =? 0);
  _ ← verify (bool_decide (tx_sync_lock s = None));
  for_loop max_ncpus 0 (fun c _ =>
    let tc := tx_cpu s c in
    _ ← verify (bool_decide (tc_open_lock tc = None));
    for_loop (Z.to_nat TXG_SIZE) 0 (fun i _ =>
      verify (match tc_callbacks tc i with [] => true | _ :: _ => false end)) tt) tt.

Definition txg_sync_start (t : tid) (s : sys) : result sys :=
  _ ← verify (tx_threads s =? 0);
  let s := set_tx_threads s 2 in
  let s := set_qpc (set_tx_quiesce_thread s true) QWait in
  let s := set_spc (set_tx_sync_thread s true) SWait1 in
  Ret (set_running (mutex_exit s) true).

Definition txg_thread_exit (x : thr) (s : sys) : result sys :=
  s ← match x with
      | QT => _ ← verify (tx_quiesce_thread s); Ret (set_qpc (set_tx_quiesce_thread s false) QNone)
      | ST => _ ← verify (tx_sync_thread s); Ret (set_spc (set_tx_sync_thread s false) SNone)
      | UT _ => Panic
      end;
  let s := set_tx_threads s ((tx_threads s - 1) mod 256) in
  Ret (mutex_exit (cv_broadcast tx_exit_cv s)).

Definition txg_thread_wait (x : thr) (v : cv) (s : sys) : sys := cv_wait x v s.

(** ** Queries *)

Definition txg_is_syncing (x : thr) (s : sys) : result bool :=
  _ ← verify (mutex_held x s); Ret (negb (tx_syncing_txg s =? 0)).
Definition txg_is_quiescing (x : thr) (s : sys) : result bool :=
  _ ← verify (mutex_held x s); Ret (negb (tx_quiescing_txg s =? 0)).
Definition txg_has_quiesced_to_sync (x : thr) (s : sys) : result bool :=
  _ ← verify (mutex_held x s); Ret (negb (tx_quiesced_txg s =? 0)).

Definition txg_stalled (s : sys) : bool := tx_open_txg s <? tx_quiesce_txg_waiting s.
Definition txg_sync_waiting (s : sys) : bool :=
  (tx_syncing_txg s <=? tx_sync_txg_waiting s) || negb (tx_quiesced_txg s =? 0).

Definition ZILTEST_TXG : Z := 2 ^ 64 - 1 - TXG_CONCURRENT_STATES.

Definition txg_verify (s : sys) (txg : Z) : result unit :=
  if (txg <=? TXG_INITIAL) || (txg =? ZILTEST_TXG) then Ret tt
  else
    _ ← verify (txg <=? tx_open_txg s);
    _ ← verify (tx_synced_txg s <=? txg);
    verify (sub64 (tx_open_txg s) TXG_CONCURRENT_STATES <=? txg).

(** ** The quiesce thread *)

(** From the head of the loop to the next wait, the exit or [txg_quiesce]. *)
Definition txg_quiesce_loop (s : sys) : result sys :=
  wait ← (if tx_exiting s then Ret false
          else if tx_quiesce_txg_waiting s <=? tx_open_txg s then Ret true
          else txg_has_quiesced_to_sync QT s);
  if wait : bool then Ret (set_qpc (txg_thread_wait QT tx_quiesce_more_cv s) QWait)
  else if tx_exiting s then txg_thread_exit QT s
  else
    let txg := tx_open_txg s in
    Ret (set_qpc (mutex_exit (set_tx_quiescing_txg s txg)) (QLock txg 0)).

(** The txg is handed to the sync thread. *)
Definition txg_quiesce_done (txg : Z) (s : sys) : result sys :=
  let s := set_tx_quiesced_txg (set_tx_quiescing_txg s 0) txg in
  txg_quiesce_loop (cv_broadcast tx_quiesce_done_cv (cv_broadcast tx_sync_more_cv s)).

(** [txg_quiesce]: first loop and the new open txg. *)
Definition txg_quiesce_lock (txg : Z) (c : nat) (s : sys) : option (result sys) :=
  if (c <? max_ncpus)%nat then
    match tc_open_lock (tx_cpu s c) with
    | Some _ => None
    | None => Some (Ret (set_qpc (set_cpu s c (set_tc_open_lock (tx_cpu s c) (Some QT))) (QLock txg (S c))))
    end
  else Some (
    _ ← verify (txg =? tx_open_txg s);
    Ret (set_qpc (set_tx_open_txg s (add64 (tx_open_txg s) 1)) (QUnlock txg 0))).

(** Second loop. *)
Definition txg_quiesce_unlock (txg : Z) (c : nat) (s : sys) : result sys :=
  if (c <? max_ncpus)%nat then
    _ ← verify (bool_decide (tc_open_lock (tx_cpu s c) = Some QT));
    Ret (set_qpc (set_cpu s c (set_tc_open_lock (tx_cpu s c) None)) (QUnlock txg (S c)))
  else Ret (set_qpc s (QDrain txg 0)).

(** Third loop, one test of its condition; [tc_lock] protects it. *)
Definition txg_quiesce_drain (txg : Z) (c : nat) (s : sys) : sys :=
  let g := txg_slot txg in
  if negb (tc_count (tx_cpu s c) g =? 0) then set_slp s (<[QT := Some (tc_cv c g)]> (slp s))
  else set_qpc s (QDrain txg (S c)).

Definition txg_quiesce_thread (s : sys) : option (result sys) :=
  if decide (slp s QT = None) then
    match qpc s with
    | QNone => None
    | QWait => locked QT txg_quiesce_loop s
    | QLock txg c => txg_quiesce_lock txg c s
    | QUnlock txg c => Some (txg_quiesce_unlock txg c s)
    | QDrain txg c =>
        if (c <? max_ncpus)%nat then Some (Ret (txg_quiesce_drain txg c s))
        else locked QT (txg_quiesce_done txg) s
    end
  else None.

(** ** The sync thread *)

(** The end of the body of the second loop. *)
Definition txg_sync_prompt (s : sys) : sys :=
  set_spc (txg_thread_wait ST tx_quiesce_done_cv (cv_broadcast tx_quiesce_more_cv s)) SWait2.

(** From the second loop to its wait, the exit or [spa_sync]. *)
Definition txg_sync_loop2 (s : sys) : result sys :=
  wait ← (if tx_exiting s then Ret false else q ← txg_has_quiesced_to_sync ST s; Ret (negb q));
  if wait : bool then
    if tx_quiesce_txg_waiting s <? add64 (tx_open_txg s) 1 then Ret (set_spc s SPrompt)
    else Ret (txg_sync_prompt s)
  else if tx_exiting s then txg_thread_exit ST s
  else
    _ ← verify (negb (tx_quiesced_txg s =? 0));
    let txg := tx_quiesced_txg s in
    let s := set_tx_syncing_txg (set_tx_quiesced_txg s 0) txg in
    Ret (set_spc (mutex_exit (cv_broadcast tx_quiesce_more_cv s)) (SSync txg)).

(** From the head of the loop.  [idle]: no scan is active, the timer has not
    run out, and little data is dirty. *)
Definition txg_sync_loop (idle : bool) (s : sys) : result sys :=
  wait ← (if idle && negb (tx_exiting s) && (tx_sync_txg_waiting s <=? tx_synced_txg s)
          then q ← txg_has_quiesced_to_sync ST s; Ret (negb q)
          else Ret false);
  if wait : bool then Ret (set_spc (txg_thread_wait ST tx_sync_more_cv s) SWait1)
  else txg_sync_loop2 s.

(** After [spa_sync]. *)
Definition txg_sync_done (txg : Z) (s : sys) : sys :=
  let s := set_tx_syncing_txg (set_tx_synced_txg s txg) 0 in
  set_spc (cv_broadcast tx_sync_done_cv s) (SDispatch txg 0).

(** The body of the loop of [txg_dispatch_callbacks]. *)
Definition txg_dispatch_callbacks (txg : Z) (c : nat) (s : sys) : sys :=
  let tc := tx_cpu s c in
  let g := txg_slot txg in
  match tc_callbacks tc g with
  | [] => s
  | cbs =>
      let s := set_tx_commit_cb_taskq s (Some (default [] (tx_commit_cb_taskq s) ++ [cbs])) in
      set_cpu s c (set_tc_callbacks tc g [])
  end.

Definition txg_sync_thread (idle : bool) (s : sys) : option (result sys) :=
  if decide (slp s ST = None) then
    match spc s with
    | SNone => None
    | SWait1 => locked ST (txg_sync_loop idle) s
    | SWait2 => locked ST txg_sync_loop2 s
    | SPrompt => Some (Ret (txg_sync_prompt (set_tx_quiesce_txg_waiting s (add64 (tx_open_txg s) 1))))
    | SSync txg => locked ST (fun s => Ret (txg_sync_done txg s)) s
    | SDispatch txg c =>
        if (c <? max_ncpus)%nat then Some (Ret (set_spc (txg_dispatch_callbacks txg c s) (SDispatch txg (S c))))
        else Some (txg_sync_loop idle s)
    end
  else None.

(** A worker of the taskq runs one task. *)
Definition txg_do_callbacks (k : nat) (s : sys) : option sys :=
  tasks ← tx_commit_cb_taskq s;
  cbs ← tasks !! k;
  Some (set_called (set_tx_commit_cb_taskq s (Some (delete k tasks))) (called s ++ cbs)).

(** ** Holding the open txg *)

(** [txg_hold_open] on cpu [c], up to the read of [tx_open_txg]. *)
Definition txg_hold_open_lock (t : tid) (c : nat) (s : sys) : option (result sys) :=
  match tc_open_lock (tx_cpu s c) with
  | Some _ => None
  | None =>
      let txg := tx_open_txg s in
      Some (Ret (set_place (set_cpu s c (set_tc_open_lock (tx_cpu s c) (Some (UT t)))) t (UEnter c txg)))
  end.

Definition txg_hold_open (t : tid) (c : nat) (txg : Z) (s : sys) : sys :=
  let tc := tx_cpu s c in
  let g := txg_slot txg in
  set_place (set_cpu s c (set_tc_count tc g (tc_count tc g + 1))) t (UHeld c txg).

Definition txg_rele_to_quiesce (t : tid) (c : nat) (txg : Z) (s : sys) : result sys :=
  let tc := tx_cpu s c in
  _ ← verify (bool_decide (tc_open_lock tc = Some (UT t)));
  Ret (set_place (set_cpu s c (set_tc_open_lock tc None)) t (UAssigned c txg)).

(** [ids]: the callbacks of the transaction. *)
Definition txg_register_callbacks (t : tid) (c : nat) (txg : Z) (ids : list nat) (s : sys) : sys :=
  let tc := tx_cpu s c in
  let g := txg_slot txg in
  let cbs := (fun i => Callback i txg) <$> ids in
  set_registered (set_cpu s c (set_tc_callbacks tc g (tc_callbacks tc g ++ cbs))) (registered s ++ cbs).

Definition txg_rele_to_sync (t : tid) (c : nat) (txg : Z) (s : sys) : result sys :=
  let tc := tx_cpu s c in
  let g := txg_slot txg in
  _ ← verify (negb (tc_count tc g =? 0));
  let n := tc_count tc g - 1 in
  let s := set_place (set_cpu s c (set_tc_count tc g n)) t UIdle in
  Ret (if n =? 0 then cv_broadcast (tc_cv c g) s else s).

(** ** Delays: [in_time] is [gethrtime() - start < delay] *)

Definition txg_delay_loop (t : tid) (c : nat) (txg : Z) (in_time : bool) (s : sys) : sys :=
  if in_time && (tx_syncing_txg s <? sub64 txg 1) && negb (txg_stalled s)
  then set_place (cv_wait (UT t) tx_quiesce_more_cv s) t (UDelay c txg DLoop)
  else set_place (mutex_exit s) t (UHeld c txg).

Definition txg_delay (t : tid) (c : nat) (txg : Z) (d : delay_place) (in_time : bool) (s : sys) : option (result sys) :=
  let return_ s := set_place s t (UHeld c txg) in
  match d with
  | DSyncing =>
      Some (Ret (if tx_syncing_txg s =? sub64 txg 1 then return_ s else set_place s t (UDelay c txg DSynced)))
  | DSynced =>
      Some (Ret (if tx_synced_txg s =? sub64 txg 1 then return_ s else set_place s t (UDelay c txg DLock)))
  | DLock =>
      locked (UT t) (fun s =>
        if (txg <? tx_open_txg s) || (tx_synced_txg s =? sub64 txg 1) then Ret (return_ (mutex_exit s))
        else Ret (txg_delay_loop t c txg in_time s)) s
  | DLoop => locked (UT t) (fun s => Ret (txg_delay_loop t c txg in_time s)) s
  end.

(** The call, up to the read of [tx_open_txg]. *)
Definition txg_delay_call (t : tid) (c : nat) (txg : Z) (s : sys) : sys :=
  if txg <? tx_open_txg s then s else set_place s t (UDelay c txg DSyncing).

(** ** Waiting for a txg *)

Definition txg_wait_synced_loop (t : tid) (stop : bool) (txg : Z) (s : sys) : sys :=
  if tx_synced_txg s <? txg
  then set_place (cv_wait (UT t) tx_sync_done_cv (cv_broadcast tx_sync_more_cv s)) t (UWaitSynced stop txg)
  else set_place (mutex_exit s) t (if stop then UStop else UIdle).

Definition txg_wait_synced (t : tid) (stop : bool) (txg : Z) (s : sys) : result sys :=
  _ ← verify (tx_threads s =? 2);
  let txg := if txg =? 0 then add64 (tx_open_txg s) TXG_DEFER_SIZE else txg in
  let s := if tx_sync_txg_waiting s <? txg then set_tx_sync_txg_waiting s txg else s in
  Ret (txg_wait_synced_loop t stop txg s).

Definition txg_wait_open_loop (t : tid) (txg : Z) (s : sys) : sys :=
  if tx_open_txg s <? txg
  then set_place (cv_wait (UT t) tx_quiesce_done_cv (cv_broadcast tx_quiesce_more_cv s)) t (UWaitOpen txg)
  else set_place (mutex_exit s) t UIdle.

(** Up to the loop. *)
Definition txg_wait_open (t : tid) (txg : Z) (s : sys) : result sys :=
  _ ← verify (tx_threads s =? 2);
  let txg := if txg =? 0 then add64 (tx_open_txg s) 1 else txg in
  let s := if tx_quiesce_txg_waiting s <? txg then set_tx_quiesce_txg_waiting s txg else s in
  Ret (set_place s t (UOpenCheck txg)).

(** Up to the second read of [tx_open_txg]. *)
Definition txg_kick (t : tid) (s : sys) : result sys :=
  syncing ← txg_is_syncing (UT t) s;
  quiescing ← txg_is_quiescing (UT t) s;
  if negb syncing && negb quiescing &&
     (tx_quiesce_txg_waiting s <=? tx_open_txg s) &&
     (tx_sync_txg_waiting s <=? tx_synced_txg s) &&
     (tx_quiesced_txg s <=? tx_synced_txg s)
  then Ret (set_place s t UKick)
  else Ret (mutex_exit s).

Definition txg_kick_set (t : tid) (s : sys) : sys :=
  let s := set_tx_quiesce_txg_waiting s (add64 (tx_open_txg s) 1) in
  set_place (mutex_exit (cv_broadcast tx_quiesce_more_cv s)) t UIdle.

(** ** Stopping the threads *)

(** Up to the call of [txg_wait_synced]. *)
Definition txg_sync_stop (t : tid) (s : sys) : result sys :=
  _ ← verify (tx_threads s =? 2);
  Ret (set_place (set_running s false) t (UStopCall (add64 (tx_open_txg s) TXG_DEFER_SIZE))).

Definition txg_sync_stop_loop (t : tid) (s : sys) : sys :=
  if negb (tx_threads s =? 0) then set_place (cv_wait (UT t) tx_exit_cv s) t UStopping
  else set_place (mutex_exit (set_tx_exiting s false)) t UIdle.

Definition txg_sync_stop_exit (t : tid) (s : sys) : result sys :=
  _ ← verify (tx_threads s =? 2);
  let s := set_tx_exiting s true in
  let s := cv_broadcast tx_sync_more_cv (cv_broadcast tx_quiesce_done_cv (cv_broadcast tx_quiesce_more_cv s)) in
  Ret (txg_sync_stop_loop t s).

(** ** Threads other than those of the pool *)

(** What such a thread does next: a call, or going on ([in_time] is for
    [txg_delay]). *)
Inductive action : Type :=
| HoldOpen (c : nat)
| Delay
| ReleToQuiesce
| RegisterCallbacks (ids : list nat)
| ReleToSync
| WaitSynced (txg : Z)
| WaitOpen (txg : Z)
| Kick
| SyncStart
| SyncStop
| Continue (in_time : bool).

Definition user_step (t : tid) (a : action) (s : sys) : option (result sys) :=
  if decide (slp s (UT t) = None) then
    match upc s t, a with
    | UIdle, HoldOpen c => txg_hold_open_lock t c s
    | UEnter c txg, Continue _ => Some (Ret (txg_hold_open t c txg s))
    | UHeld c txg, Delay => Some (Ret (txg_delay_call t c txg s))
    | UDelay c txg d, Continue in_time => txg_delay t c txg d in_time s
    | UHeld c txg, ReleToQuiesce => Some (txg_rele_to_quiesce t c txg s)
    | UAssigned c txg, RegisterCallbacks ids => Some (Ret (txg_register_callbacks t c txg ids s))
    | UAssigned c txg, ReleToSync => Some (txg_rele_to_sync t c txg s)
    | UIdle, WaitSynced txg => locked (UT t) (txg_wait_synced t false txg) s
    | UWaitSynced stop txg, Continue _ => locked (UT t) (fun s => Ret (txg_wait_synced_loop t stop txg s)) s
    | UIdle, WaitOpen txg => locked (UT t) (txg_wait_open t txg) s
    | UOpenCheck txg, Continue _ => Some (Ret (txg_wait_open_loop t txg s))
    | UWaitOpen txg, Continue _ => locked (UT t) (fun s => Ret (txg_wait_open_loop t txg s)) s
    | UIdle, Kick => locked (UT t) (txg_kick t) s
    | UKick, Continue _ => Some (Ret (txg_kick_set t s))
    | UIdle, SyncStart => locked (UT t) (txg_sync_start t) s
    | UIdle, SyncStop => Some (txg_sync_stop t s)
    | UStopCall txg, Continue _ => locked (UT t) (txg_wait_synced t true txg) s
    | UStop, Continue _ => locked (UT t) (txg_sync_stop_exit t) s
    | UStopping, Continue _ => locked (UT t) (fun s => Ret (txg_sync_stop_loop t s)) s
    | _, _ => None
    end
  else None.

(** ** Steps *)

Context (tids : list tid).

(** What callers of these functions keep to: a pool is used while its threads
    run; they are started once and stopped by a thread when no other uses the
    pool. *)
Definition allowed (s : sys) (t : tid) (a : action) : Prop :=
  match a with
  | HoldOpen c => running s = true /\ (c < max_ncpus)%nat
  | WaitSynced txg | WaitOpen txg => running s = true /\ u64 txg
  | Kick => running s = true
  | SyncStart => running s = false /\ forall u, u ∈ tids -> upc s u = UIdle
  | SyncStop => running s = true /\ forall u, u ∈ tids -> upc s u = UIdle
  | Delay | ReleToQuiesce | RegisterCallbacks _ | ReleToSync | Continue _ => True
  end.

(** [cv_timedwait] returns at its time, and [cv_wait] may return for no
    reason. *)
Inductive step : sys -> result sys -> Prop :=
| StepQuiesce s r : txg_quiesce_thread s = Some r -> step s r
| StepSync idle s r : txg_sync_thread idle s = Some r -> step s r
| StepTask k s s' : txg_do_callbacks k s = Some s' -> step s (Ret s')
| StepUser t a s r : t ∈ tids -> allowed s t a -> user_step t a s = Some r -> step s r
| StepWake x s : step s (Ret (wakeup x s)).

(** Numbers of txgs are far from overflow. *)
Definition TXG_LIMIT : Z := 2 ^ 64 - 4.

Inductive reachable : sys -> Prop :=
| ReachInit txg : 0 < txg < TXG_LIMIT -> reachable (txg_init txg)
| ReachStep s s' : reachable s -> step s (Ret s') -> tx_open_txg s' < TXG_LIMIT -> reachable s'.

End txg.
