(* ===== verification/TxgInv.v ===== *)
(** * Transaction groups: the invariant

    What holds in every state of the steps of [Txg]: which txgs are active and
    where, who has which lock, what the counts of holders count, where the
    callbacks are, when the threads are there, and why a thread sleeps. *)

From stdpp Require Import functions.
From S2P Require Import Prelude TxgData Txg.

(** ** The txgs

    The oldest txg the quiesce thread has not handed over, and the oldest that
    is not synced. *)

Definition front (s : sys) : Z :=
  if tx_quiescing_txg s =? 0 then if tx_quiesced_txg s =? 0 then tx_open_txg s else tx_quiesced_txg s
  else tx_quiescing_txg s.
Definition oldest (s : sys) : Z := if tx_syncing_txg s =? 0 then front s else tx_syncing_txg s.

Section invariant.
Context (max_ncpus : nat) (tids : list tid) (Hnd : NoDup tids).

(** The txg being quiesced is the open one until it is replaced, then the one
    before; the quiesced one is the one before the open one; the one being
    synced comes before these, and the synced one is the last before all of
    them, unless none has been synced yet. *)
Definition chain_q (s : sys) : Prop :=
  match qpc s with
  | QNone | QWait => tx_quiescing_txg s = 0
  | QLock txg c => txg = tx_open_txg s /\ tx_quiescing_txg s = txg /\ tx_quiesced_txg s = 0 /\ (c <= max_ncpus)%nat
  | QUnlock txg c | QDrain txg c =>
      0 < txg /\ txg = tx_open_txg s - 1 /\ tx_quiescing_txg s = txg /\ tx_quiesced_txg s = 0 /\ (c <= max_ncpus)%nat
  end.
Definition chain_s (s : sys) : Prop :=
  match spc s with
  | SSync txg => tx_syncing_txg s = txg /\ 0 < txg /\ txg = front s - 1
  | SDispatch txg c => tx_syncing_txg s = 0 /\ tx_synced_txg s = txg /\ 0 < txg /\ (c <= max_ncpus)%nat
  | SPrompt => tx_syncing_txg s = 0 /\ tx_quiesced_txg s = 0
  | SNone | SWait1 | SWait2 => tx_syncing_txg s = 0
  end.
Definition chain (s : sys) : Prop :=
  0 < tx_open_txg s < TXG_LIMIT /\
  (tx_quiesced_txg s <> 0 -> 0 < tx_quiesced_txg s /\ tx_quiesced_txg s = tx_open_txg s - 1) /\
  chain_q s /\ chain_s s /\
  (tx_synced_txg s = oldest s - 1 \/ tx_synced_txg s = 0).

(** ** Locks *)

Definition holds_sync (s : sys) (x : thr) : Prop :=
  match x with
  | QT => False
  | ST => match spc s with SPrompt | SDispatch _ _ => True | _ => False end
  | UT t => match upc s t with UOpenCheck _ | UKick => True | _ => False end
  end.
Definition holds_open (s : sys) (c : nat) (x : thr) : Prop :=
  match x with
  | QT => match qpc s with QLock _ k => (c < k)%nat | QUnlock _ k => (k <= c < max_ncpus)%nat | _ => False end
  | ST => False
  | UT t => match upc s t with UEnter c' _ | UHeld c' _ | UDelay c' _ _ => c' = c | _ => False end
  end.
Definition sync_lock_ok (s : sys) : Prop := forall x, tx_sync_lock s = Some x <-> holds_sync s x.
Definition open_lock_ok (s : sys) : Prop := forall c x, tc_open_lock (tx_cpu s c) = Some x <-> holds_open s c x.

(** ** Holders *)

(** A thread has the open txg, or the one being quiesced on a cpu that is not
    yet drained. *)
Definition held_ok (s : sys) (p : user_place) : Prop :=
  match p with
  | UEnter c txg | UHeld c txg | UDelay c txg _ => txg = tx_open_txg s /\ (c < max_ncpus)%nat
  | UAssigned c txg =>
      (c < max_ncpus)%nat /\
      (txg = tx_open_txg s \/
       match qpc s with QUnlock x _ => txg = x | QDrain x k => txg = x /\ (k <= c)%nat | _ => False end)
  | _ => True
  end.
Definition counted (p : user_place) (c g : nat) : bool :=
  match p with
  | UHeld c' txg | UDelay c' txg _ | UAssigned c' txg => (c' =? c)%nat && (txg_slot txg =? g)%nat
  | _ => false
  end.
Definition holders (s : sys) (c g : nat) : Z := total tids (fun t => if counted (upc s t) c g then 1 else 0).
Definition users_ok (s : sys) : Prop :=
  (forall t, upc s t <> UIdle -> t ∈ tids) /\
  (forall t, held_ok s (upc s t)) /\
  (forall c g, tc_count (tx_cpu s c) g = holders s c g).

(** ** The threads of the pool *)

Definition q_alive (s : sys) : bool := match qpc s with QNone => false | _ => true end.
Definition s_alive (s : sys) : bool := match spc s with SNone => false | _ => true end.
Definition stop_place (p : user_place) : bool :=
  match p with UStopCall _ | UWaitSynced true _ | UStop | UStopping => true | _ => false end.
(** A thread that stops the pool has got so far. *)
Definition stop_ok (s : sys) (p : user_place) : Prop :=
  match p with
  | UStopCall _ | UWaitSynced true _ | UStop => q_alive s = true /\ s_alive s = true /\ tx_exiting s = false
  | UStopping => tx_exiting s = true
  | _ => True
  end.
Definition threads_ok (s : sys) : Prop :=
  tx_quiesce_thread s = q_alive s /\ tx_sync_thread s = s_alive s /\
  tx_threads s = (if q_alive s then 1 else 0) + (if s_alive s then 1 else 0) /\
  (running s = true ->
   q_alive s = true /\ s_alive s = true /\ tx_exiting s = false /\ forall t, stop_place (upc s t) = false) /\
  (running s = false -> forall t, upc s t = UIdle \/ stop_place (upc s t) = true) /\
  (running s = false -> (forall t, upc s t = UIdle) ->
   q_alive s = false /\ s_alive s = false /\ tx_exiting s = false) /\
  (forall t u, stop_place (upc s t) = true -> u <> t -> upc s u = UIdle) /\
  (forall t, stop_ok s (upc s t)).

(** ** Callbacks *)

Definition waiting (s : sys) : list callback :=
  concat ((fun c => concat (tc_callbacks (tx_cpu s c) <$> seq 0 4)) <$> seq 0 max_ncpus).
Definition dispatched (s : sys) : list callback := concat (default [] (tx_commit_cb_taskq s)).
(** A callback that waits is in the list of its txg, which is not synced or
    whose callbacks are being dispatched. *)
Definition cb_ok (s : sys) (c g : nat) (cb : callback) : Prop :=
  (c < max_ncpus)%nat /\ g = txg_slot (cb_txg cb) /\ cb_txg cb <= tx_open_txg s /\
  (oldest s <= cb_txg cb \/ exists k, spc s = SDispatch (cb_txg cb) k /\ (k <= c)%nat).
Definition callbacks_ok (s : sys) : Prop :=
  (forall c g, Forall (cb_ok s c g) (tc_callbacks (tx_cpu s c) g)) /\
  Forall (fun cb => cb_txg cb <= tx_synced_txg s) (dispatched s ++ called s) /\
  registered s ≡ₚ waiting s ++ dispatched s ++ called s.

(** ** Sleep *)

Definition q_sleep_ok (s : sys) (v : cv) : Prop :=
  match qpc s with
  | QWait => v = tx_quiesce_more_cv /\ tx_exiting s = false /\
      (tx_quiesce_txg_waiting s <= tx_open_txg s \/ tx_quiesced_txg s <> 0 \/
       exists t, upc s t = UOpenCheck (tx_quiesce_txg_waiting s))
  | QDrain txg c => v = tc_cv c (txg_slot txg) /\ (c < max_ncpus)%nat /\ tc_count (tx_cpu s c) (txg_slot txg) <> 0
  | _ => False
  end.
Definition s_sleep_ok (s : sys) (v : cv) : Prop :=
  tx_exiting s = false /\ tx_quiesced_txg s = 0 /\
  match spc s with
  | SWait1 => v = tx_sync_more_cv /\ tx_sync_txg_waiting s <= tx_synced_txg s
  | SWait2 => v = tx_quiesce_done_cv /\ (tx_quiescing_txg s <> 0 \/ tx_open_txg s < tx_quiesce_txg_waiting s)
  | _ => False
  end.
Definition u_sleep_ok (s : sys) (p : user_place) (v : cv) : Prop :=
  match p with
  | UWaitSynced _ txg => v = tx_sync_done_cv /\ tx_synced_txg s < txg
  | UWaitOpen txg => v = tx_quiesce_done_cv /\
      (tx_open_txg s < txg \/ tx_quiescing_txg s <> 0 /\ tx_quiescing_txg s = tx_open_txg s - 1)
  | UDelay _ _ DLoop => v = tx_quiesce_more_cv
  | UStopping => v = tx_exit_cv /\ tx_threads s <> 0
  | _ => False
  end.
(** Who waits for a txg, asleep or not, has told the threads. *)
Definition asked_ok (s : sys) (p : user_place) : Prop :=
  match p with
  | UWaitSynced _ txg => txg <= tx_sync_txg_waiting s
  | UOpenCheck txg | UWaitOpen txg => txg <= tx_quiesce_txg_waiting s
  | UKick => tx_quiesce_txg_waiting s <= tx_open_txg s
  | _ => True
  end.
(** The sync thread is about to ask for a txg nobody asked for yet. *)
Definition prompt_ok (s : sys) : Prop :=
  spc s = SPrompt -> tx_exiting s = false /\ tx_quiesce_txg_waiting s <= tx_open_txg s.
Definition sleep_ok (s : sys) : Prop :=
  (forall v, slp s QT = Some v -> q_sleep_ok s v) /\
  (forall v, slp s ST = Some v -> s_sleep_ok s v) /\
  (forall t v, slp s (UT t) = Some v -> u_sleep_ok s (upc s t) v) /\
  (forall t, asked_ok s (upc s t)) /\ prompt_ok s.

Record inv (s : sys) : Prop := Inv {
  i_chain : chain s;
  i_sync_lock : sync_lock_ok s;
  i_open_lock : open_lock_ok s;
  i_users : users_ok s;
  i_threads : threads_ok s;
  i_callbacks : callbacks_ok s;
  i_sleep : sleep_ok s;
}.

End invariant.
