(* ===== verification/TxgFrame.v ===== *)
(** * Transaction groups: frame lemmas and tactics

    What the proofs that the steps keep the invariant share: the parts of the
    invariant that a change of some fields does not touch, and tactics for the
    others. *)

From stdpp Require Import functions.
From S2P Require Import Prelude TxgData Txg TxgInv.

(** ** Sleepers *)

Lemma broadcast_slp v s x w : slp (cv_broadcast v s) x = Some w <-> slp s x = Some w /\ w <> v.
Proof. cbn. case_decide; naive_solver congruence. Qed.

Lemma insert_slp (f : thr -> option cv) x o y w :
  <[x := o]> f y = Some w <-> x = y /\ o = Some w \/ x <> y /\ f y = Some w.
Proof.
  destruct (decide (x = y)) as [->|Hne].
  - rewrite fn_lookup_insert. naive_solver.
  - rewrite fn_lookup_insert_ne by done. naive_solver.
Qed.

Lemma add64_open o : 0 < o < TXG_LIMIT -> add64 o 1 = o + 1.
Proof. intros H. apply add64_small. unfold u64, TXG_LIMIT in *. lia. Qed.

(** What a sleeper of the state after a step was before it. *)
Ltac slp_cbn H :=
  cbn [slp set_tx_cpu set_tx_sync_lock set_tx_open_txg set_tx_quiescing_txg set_tx_quiesced_txg set_tx_syncing_txg
    set_tx_synced_txg set_tx_sync_txg_waiting set_tx_quiesce_txg_waiting set_tx_threads set_tx_exiting set_tx_sync_thread
    set_tx_quiesce_thread set_tx_commit_cb_taskq set_qpc set_spc set_upc set_slp set_running set_registered set_called
    mutex_enter mutex_exit set_place set_cpu cv_wait wakeup txg_thread_wait] in H.
Ltac slept H :=
  slp_cbn H;
  repeat first
    [ apply broadcast_slp in H; let Hv := fresh "Hv" in destruct H as [H Hv]; slp_cbn H
    | apply insert_slp in H; let He := fresh "He" in destruct H as [[He H]|[He H]]; slp_cbn H ].

(** One of several lists replaced. *)
Lemma concat_upd {A} (f : nat -> list A) i v ks :
  NoDup ks -> i ∈ ks -> concat (upd f i v <$> ks) ++ f i ≡ₚ concat (f <$> ks) ++ v.
Proof.
  induction 1 as [|k ks Hk _ IH]; intros Hi; [set_solver|]. rewrite !fmap_cons. cbn [concat].
  apply elem_of_cons in Hi as [->|Hi].
  - rewrite upd_eq. replace (upd f k v <$> ks) with (f <$> ks); [solve_Permutation|].
    apply list_fmap_ext. intros j k' Hj. rewrite upd_ne; [done|]. intros ->. apply Hk. by eapply list_elem_of_lookup_2.
  - rewrite upd_ne by set_solver. rewrite <- !app_assoc, (IH Hi). done.
Qed.

Lemma waiting_upd n s c g v :
  (c < n)%nat -> (g < 4)%nat ->
  waiting n (set_cpu s c (set_tc_callbacks (tx_cpu s c) g v)) ++ tc_callbacks (tx_cpu s c) g ≡ₚ waiting n s ++ v.
Proof.
  intros Hc Hg. set (F := fun c => concat (tc_callbacks (tx_cpu s c) <$> seq 0 4)).
  set (new := concat (upd (tc_callbacks (tx_cpu s c)) g v <$> seq 0 4)).
  assert (waiting n (set_cpu s c (set_tc_callbacks (tx_cpu s c) g v)) = concat (upd F c new <$> seq 0 n)) as ->.
  { unfold waiting. f_equal. apply list_fmap_ext. intros _ c' _. unfold F. cbn [tx_cpu set_cpu set_tx_cpu].
    destruct (decide (c' = c)) as [->|Hne]; [by rewrite !upd_eq|by rewrite !upd_ne]. }
  pose proof (concat_upd F c new (seq 0 n) (NoDup_seq _ _) ltac:(apply elem_of_seq; lia)) as H1.
  pose proof (concat_upd (tc_callbacks (tx_cpu s c)) g v (seq 0 4) (NoDup_seq _ _) ltac:(apply elem_of_seq; lia)) as H2.
  fold new in H2. change (concat (tc_callbacks (tx_cpu s c) <$> seq 0 4)) with (F c) in H2.
  apply (Permutation_app_inv_l (F c)). change (waiting n s) with (concat (F <$> seq 0 n)).
  rewrite (Permutation_app_comm (F c)), <- app_assoc, (Permutation_app_comm _ (F c)), app_assoc, H1, <- app_assoc, H2.
  solve_Permutation.
Qed.

Section frame.
Context {max_ncpus : nat} {tids : list tid}.
Notation inv := (inv max_ncpus tids).
Notation chain := (chain max_ncpus).
Notation open_lock_ok := (open_lock_ok max_ncpus).
Notation users_ok := (users_ok max_ncpus tids).
Notation callbacks_ok := (callbacks_ok max_ncpus).
Notation sleep_ok := (sleep_ok max_ncpus).

(** The outcome of a step is a state that satisfies the invariant. *)
Definition ok (r : result sys) : Prop := exists s, r = Ret s /\ (tx_open_txg s < TXG_LIMIT -> inv s).

Lemma ok_ret s : (tx_open_txg s < TXG_LIMIT -> inv s) -> ok (Ret s).
Proof using. intros H. by exists s. Qed.

(** A lock that nobody holds. *)
Lemma lock_none s : sync_lock_ok s -> tx_sync_lock s = None -> forall x, ~ holds_sync s x.
Proof using. intros H Hn x Hx. apply H in Hx. congruence. Qed.

Lemma lock_none_ok s : tx_sync_lock s = None -> (forall x, ~ holds_sync s x) -> sync_lock_ok s.
Proof using. intros Hn H x. rewrite Hn. split; [done|]. intros Hx. by destruct (H x). Qed.

(** Callbacks do not move, nor the oldest txg that is not synced. *)
Lemma callbacks_same s s' :
  callbacks_ok s -> (forall c, tc_callbacks (tx_cpu s' c) = tc_callbacks (tx_cpu s c)) ->
  oldest s' = oldest s -> tx_open_txg s <= tx_open_txg s' -> tx_synced_txg s' = tx_synced_txg s ->
  (forall x k, spc s = SDispatch x k -> spc s' = spc s) ->
  tx_commit_cb_taskq s' = tx_commit_cb_taskq s -> registered s' = registered s -> called s' = called s ->
  callbacks_ok s'.
Proof using.
  intros (H1 & H2 & H3) Hc Ho Hp Hz Hd Hq Hr Hl. unfold TxgInv.callbacks_ok, dispatched in *. rewrite Hq, Hr, Hl, Hz.
  assert (waiting max_ncpus s' = waiting max_ncpus s) as ->.
  { unfold waiting. f_equal. apply list_fmap_ext. intros _ c _. by rewrite Hc. }
  split_and!; [|done|done]. intros c g. rewrite Hc. eapply Forall_impl; [exact (H1 c g)|].
  intros cb (Hn & Hg & Hle & Hcase). rewrite <- Ho in Hcase. split_and!; [done|done|lia|]. destruct Hcase as [?|(k & Hk & ?)]; [by left|].
  right. exists k. split; [|done]. by rewrite (Hd _ _ Hk).
Qed.

(** The holds, when the counts do not change. *)
Lemma users_same s s' :
  users_ok s -> upc s' = upc s -> (forall c, tc_count (tx_cpu s' c) = tc_count (tx_cpu s c)) ->
  (forall t, held_ok max_ncpus s (upc s t) -> held_ok max_ncpus s' (upc s t)) -> users_ok s'.
Proof using.
  intros (H1 & H2 & H3) Hp Hc Hh. unfold TxgInv.users_ok, holders. rewrite Hp.
  split_and!; [done|by auto|]. intros c g. rewrite Hc. apply H3.
Qed.

(** Who holds a txg is counted. *)
Lemma counted_pos s t c g : users_ok s -> counted (upc s t) c g = true -> 1 <= tc_count (tx_cpu s c) g.
Proof using.
  intros (H1 & _ & H3) Hp. rewrite H3. unfold holders.
  pose proof (total_ge tids (fun u => if counted (upc s u) c g then 1 else 0) t) as H. cbn in H. rewrite Hp in H.
  apply H; [intros u; destruct (counted (upc s u) c g); lia|]. apply H1. intros Hi. by rewrite Hi in Hp.
Qed.

(** Only threads of the list are ever in the module. *)
Lemma idle_all s : users_ok s -> (forall u, u ∈ tids -> upc s u = UIdle) -> forall u, upc s u = UIdle.
Proof using.
  intros (H1 & _) Hidle u. destruct (decide (u ∈ tids)) as [?|Hni]; [auto|].
  destruct (upc s u) eqn:Hp; try done; destruct Hni; apply H1; by rewrite Hp.
Qed.

(** A cpu changed in one field. *)
Lemma upd_field {A} (f : cpu -> A) g c k c' : f k = f (g c) -> f (upd g c k c') = f (g c').
Proof using. intros H. apply upd_case; [by intros ->|done]. Qed.

(** Only the counts matter for sleepers. *)
Lemma sleep_cpu s k : (forall c, tc_count (k c) = tc_count (tx_cpu s c)) -> sleep_ok s -> sleep_ok (set_tx_cpu s k).
Proof using.
  intros Hk (H1 & H2). split; [|done]. intros v Hv. specialize (H1 v Hv). unfold q_sleep_ok in *. cbn.
  destruct (qpc s); try done. by rewrite Hk.
Qed.

(** An open lock that changes hands. *)
Lemma relock_lock g c v c' :
  tc_open_lock (upd g c (set_tc_open_lock (g c) v) c') = (if (c' =? c)%nat then v else tc_open_lock (g c')).
Proof using. unfold upd. by destruct (c' =? c)%nat. Qed.

(** At most three txgs are active, and no more were than the number of slots. *)
Lemma chain_window s : chain s -> oldest s <= tx_open_txg s <= oldest s + 2 /\ 0 < oldest s /\ tx_synced_txg s < oldest s.
Proof using.
  intros Hc. unfold TxgInv.chain, chain_q, chain_s, oldest, front in *.
  destruct (qpc s), (spc s); cbn in *; repeat case_match; bool_to_prop; lia.
Qed.

(** One txg at most is being quiesced or quiesced. *)
Lemma chain_one s : chain s -> tx_quiesced_txg s <> 0 -> tx_quiescing_txg s = 0.
Proof using. intros (_ & _ & Hq & _) Hd. unfold chain_q in Hq. destruct (qpc s); intuition. Qed.

End frame.
Arguments ok : clear implicits.

(** The places that are known. *)
Ltac places :=
  repeat match goal with
  | H : qpc ?s = _ |- _ => rewrite H in *
  | H : spc ?s = _ |- _ => rewrite H in *
  | H : upc ?s ?t = _ |- _ => rewrite H in *
  | H : tx_sync_lock ?s = _ |- _ => rewrite H in *
  end.

(** The chain of txgs, by cases on which of them there are. *)
Ltac chain_tac :=
  unfold TxgInv.chain, chain_q, chain_s, oldest, front in *; cbn in *; places;
  repeat match goal with
  | |- context [?a =? 0] => destruct (Z.eqb_spec a 0)
  | H : context [?a =? 0] |- _ => destruct (Z.eqb_spec a 0)
  end; intuition (try lia);
  try match goal with
  | |- context [match spc ?s with _ => _ end] => destruct (spc s); intuition (try lia)
  | |- context [match qpc ?s with _ => _ end] => destruct (qpc s); intuition (try lia)
  end.

(** The lock of the pool, by who holds it. *)
Ltac lock_tac :=
  match goal with
  | H : sync_lock_ok _ |- _ =>
      let x := fresh "x" in
      intros x; specialize (H x); destruct x as [| |?]; cbn in H |- *; places; intuition congruence
  end.

(** Open locks, when no lock changes hands. *)
Ltac open_tac :=
  match goal with
  | H : TxgInv.open_lock_ok _ _ |- _ =>
      let c := fresh "c" in let x := fresh "x" in
      intros c x; specialize (H c x); destruct x as [| |?]; cbn in H |- *; places; intuition (try lia)
  end.

(** The holds, when only the quiesce thread moves. *)
Ltac users_tac :=
  lazymatch goal with
  | H : TxgInv.users_ok _ _ _ |- _ =>
      let H1 := fresh in let H2 := fresh in let H3 := fresh in let t := fresh "t" in
      destruct H as (H1 & H2 & H3); split_and!; [exact H1| |exact H3];
      intros t; specialize (H2 t); unfold held_ok in *; cbn in *; places;
      destruct (upc _ t); intuition (try lia)
  end.

Ltac threads_tac :=
  unfold threads_ok, stop_ok, q_alive, s_alive in *; cbn in *; places; split_and!; intuition (try congruence).

(** A thread of the pool exits: nobody uses the pool. *)
Ltac exit_tac :=
  threads_tac;
  match goal with
  | H : tx_threads ?s = _ |- _ mod 256 = _ => rewrite H; destruct (spc s), (qpc s); reflexivity
  | H : forall t, match upc ?s t with _ => _ end |- context [upc ?s ?t] =>
      specialize (H t); destruct (upc s t) as [| | | | |[] ?| | | | | |]; intuition congruence
  end.

(** Two threads would hold the lock of the pool. *)
Ltac lock_clash :=
  match goal with
  | H : sync_lock_ok ?s, E : upc ?s ?t = _ |- _ =>
      exfalso; assert (tx_sync_lock s = Some (UT t)) by (apply H; cbn; by rewrite E); congruence
  end.

(** The sleepers, when no other thread than those of the pool moves. *)
Ltac sleep_tac :=
  match goal with
  | H : TxgInv.sleep_ok _ _ |- _ =>
      let H1 := fresh "Hs1" in let H2 := fresh "Hs2" in let H3 := fresh "Hs3" in let H4 := fresh "Hs4" in
      let H5 := fresh "Hs5" in
      destruct H as (H1 & H2 & H3 & H4 & H5);
      let w := fresh "w" in let t := fresh "t" in let Hw := fresh "Hw" in
      split_and!;
      [ intros w Hw; slept Hw; simplify_eq; try specialize (H1 w Hw)
      | intros w Hw; slept Hw; simplify_eq; try specialize (H2 w Hw)
      | intros t w Hw; slept Hw; simplify_eq; try specialize (H3 t w Hw)
      | intros t; specialize (H4 t)
      | intros Hw ];
      unfold q_sleep_ok, s_sleep_ok, u_sleep_ok, asked_ok, prompt_ok in *; cbn in *; places;
      try match goal with
      | |- context [match spc ?s with _ => _ end] => destruct (spc s)
      | |- context [match qpc ?s with _ => _ end] => destruct (qpc s)
      end;
      try destruct (upc _ t) as [| | |? ? []| | | | | | | |] eqn:?; intuition (try (congruence || lia || lock_clash))
  end.

(** The parts of the invariant that the step of a thread of the pool leaves
    as they were, or changes in a simple way. *)
Ltac inv_tac :=
  constructor; try assumption;
  lazymatch goal with
  | |- TxgInv.chain _ _ => try solve [chain_tac]
  | |- sync_lock_ok _ => try solve [by apply lock_none_ok | lock_tac]
  | |- TxgInv.open_lock_ok _ _ => try solve [open_tac]
  | |- TxgInv.users_ok _ _ _ => try solve [users_tac]
  | |- threads_ok _ => try solve [threads_tac | exit_tac]
  | |- TxgInv.callbacks_ok _ _ => try solve [eapply callbacks_same; [eassumption|cbn; (done || by intros; congruence) || idtac..]; chain_tac]
  | |- TxgInv.sleep_ok _ _ => try solve [sleep_tac]
  end.
