(* ===== verification/TxgSteps.v ===== *)
(** * Transaction groups: every step keeps the invariant

    No assertion of the code fails in a step from a state of the invariant, and
    the state after it satisfies the invariant again. *)

From stdpp Require Import functions.
From S2P Require Import Prelude TxgData Txg TxgInv TxgFrame.

Section steps.
Context {max_ncpus : nat} {tids : list tid}.
Notation inv := (inv max_ncpus tids).
Notation chain := (chain max_ncpus).
Notation open_lock_ok := (open_lock_ok max_ncpus).
Notation users_ok := (users_ok max_ncpus tids).
Notation callbacks_ok := (callbacks_ok max_ncpus).
Notation sleep_ok := (sleep_ok max_ncpus).

Notation ok := (ok max_ncpus tids).

(** ** The quiesce thread *)

Lemma quiesce_loop_ok s :
  inv s -> tx_sync_lock s = None -> qpc s = QWait -> slp s QT = None -> ok (txg_quiesce_loop (mutex_enter QT s)).
Proof using.
  intros [Hc Hl Ho Hu Ht Hb Hs] Hn Hq Hz. unfold txg_quiesce_loop, txg_has_quiesced_to_sync, mutex_held.
  rewrite (bool_decide_eq_true_2 (tx_sync_lock (mutex_enter QT s) = Some QT)) by done. cbn [verify mbind result_bind].
  pose proof (lock_none s Hl Hn) as Hnl. pose proof (proj1 Hc) as Hop. assert (tx_quiescing_txg s = 0) as Hq0 by chain_tac.
  cbn. destruct (tx_exiting s) eqn:Hx; cbn.
  - rewrite (proj1 Ht). unfold q_alive. rewrite Hq. cbn. apply ok_ret. intros _. inv_tac.
  - destruct (Z.leb_spec (tx_quiesce_txg_waiting s) (tx_open_txg s)) as [Hw|Hw]; cbn.
    + apply ok_ret. intros _. inv_tac.
    + destruct (Z.eqb_spec (tx_quiesced_txg s) 0) as [Hd|Hd]; cbn; apply ok_ret; intros _; inv_tac.
Qed.

Lemma quiesce_done_ok s txg :
  inv s -> tx_sync_lock s = None -> qpc s = QDrain txg max_ncpus -> slp s QT = None ->
  ok (txg_quiesce_done txg (mutex_enter QT s)).
Proof using.
  intros [Hc Hl Ho Hu Ht Hb Hs] Hn Hq Hz. pose proof (lock_none s Hl Hn) as Hnl. pose proof (proj1 Hc) as Hop.
  set (s1 := cv_broadcast tx_quiesce_done_cv (cv_broadcast tx_sync_more_cv (set_tx_quiesced_txg (set_tx_quiescing_txg s 0) txg))).
  assert (inv (set_qpc s1 QWait)) as Hi.
  { inv_tac. subst s1. specialize (Hnl ST). chain_tac. }
  assert (slp (set_qpc s1 QWait) QT = None) as Hz1 by (cbn; rewrite Hz; by repeat case_decide).
  destruct (quiesce_loop_ok _ Hi Hn eq_refl Hz1) as (s' & He & Hi'). exists s'. split; [|done]. by rewrite <- He.
Qed.

Lemma quiesce_lock_ok s txg c r :
  inv s -> qpc s = QLock txg c -> slp s QT = None -> txg_quiesce_lock max_ncpus txg c s = Some r -> ok r.
Proof using.
  intros [Hc Hl Ho Hu Ht Hb Hs] Hq Hz. pose proof (proj1 Hc) as Hop. unfold txg_quiesce_lock.
  destruct (Nat.ltb_spec c max_ncpus) as [Hlt|Hge].
  - destruct (tc_open_lock (tx_cpu s c)) eqn:Hk; [done|]. intros [= <-]. apply ok_ret. intros _. inv_tac.
    + intros c' x. cbn [tx_cpu set_qpc set_cpu set_tx_cpu]. rewrite relock_lock. specialize (Ho c' x). destruct (Nat.eqb_spec c' c) as [->|Hne].
      * rewrite Hk in Ho. destruct x as [| |u]; cbn in *; places; intuition (congruence || lia).
      * rewrite Ho. destruct x as [| |u]; cbn; places; intuition lia.
    + apply (users_same s); try done; [|intros t; unfold held_ok; cbn; by places]. intros c'. by apply (upd_field tc_count).
    + apply (callbacks_same s); try done. intros c'. by apply (upd_field tc_callbacks).
  - intros [= <-]. assert (txg = tx_open_txg s /\ c = max_ncpus /\ tx_quiescing_txg s = tx_open_txg s) as (-> & -> & Hq0) by chain_tac.
    rewrite Z.eqb_refl. cbn. apply ok_ret. cbn. rewrite add64_open by done.
    intros Hlim. inv_tac.
    apply (users_same s); try done. intros t Hh.
    assert (Hno : forall c, (c < max_ncpus)%nat -> ~ holds_open max_ncpus s c (UT t)).
    { intros c Hlt Hx. apply Ho in Hx. assert (tc_open_lock (tx_cpu s c) = Some QT) by (apply Ho; cbn; rewrite Hq; lia). congruence. }
    unfold held_ok in *. cbn in *. places. destruct (upc s t) as [|c ?|c ?|c ? ?| | | | | | | |]; try done; [..|by intuition];
      destruct Hh as [-> Hlt]; by destruct (Hno c Hlt).
Qed.

Lemma quiesce_unlock_ok s txg c :
  inv s -> qpc s = QUnlock txg c -> slp s QT = None -> ok (txg_quiesce_unlock max_ncpus txg c s).
Proof using.
  intros [Hc Hl Ho Hu Ht Hb Hs] Hq Hz. pose proof (proj1 Hc) as Hop. unfold txg_quiesce_unlock.
  destruct (Nat.ltb_spec c max_ncpus) as [Hlt|Hge].
  - assert (tc_open_lock (tx_cpu s c) = Some QT) as Hk by (apply Ho; cbn; rewrite Hq; lia).
    rewrite bool_decide_eq_true_2 by done. cbn. apply ok_ret. intros _. inv_tac.
    + intros c' x. cbn [tx_cpu set_qpc set_cpu set_tx_cpu]. rewrite relock_lock. specialize (Ho c' x). destruct (Nat.eqb_spec c' c) as [->|Hne].
      * rewrite Hk in Ho. destruct x as [| |u]; cbn in *; places; intuition (congruence || lia).
      * rewrite Ho. destruct x as [| |u]; cbn; places; intuition lia.
    + apply (users_same s); try done; [|intros t; unfold held_ok; cbn; by places]. intros c'. by apply (upd_field tc_count).
    + apply (callbacks_same s); try done. intros c'. by apply (upd_field tc_callbacks).
  - apply ok_ret. intros _. inv_tac.
Qed.

Lemma quiesce_drain_ok s txg c :
  inv s -> qpc s = QDrain txg c -> slp s QT = None -> (c < max_ncpus)%nat -> ok (Ret (txg_quiesce_drain txg c s)).
Proof using.
  intros [Hc Hl Ho Hu Ht Hb Hs] Hq Hz Hlt. pose proof (proj1 Hc) as Hop. unfold txg_quiesce_drain.
  destruct (Z.eqb_spec (tc_count (tx_cpu s c) (txg_slot txg)) 0) as [Hk|Hk]; cbn; apply ok_ret; intros _; inv_tac.
  apply (users_same s); try done. intros t. unfold held_ok. cbn. places.
  destruct (upc s t) as [| | | |c' x| | | | | | |] eqn:Hp; try done. intros [Hc' [Hx|[-> Hle]]]; [by auto|]. split; [done|]. right. split; [done|].
  destruct (decide (c' = c)) as [->|?]; [|lia]. exfalso.
  enough (1 <= tc_count (tx_cpu s c) (txg_slot txg)) by lia. apply (counted_pos s t _ _ Hu). rewrite Hp. cbn. by rewrite !Nat.eqb_refl.
Qed.

Lemma quiesce_ok s r : inv s -> txg_quiesce_thread max_ncpus s = Some r -> ok r.
Proof using.
  intros Hi. unfold txg_quiesce_thread, locked. case_decide as Hz; [|done].
  pose proof (proj1 (proj2 (proj2 (i_chain _ _ _ Hi)))) as Hq. unfold chain_q in Hq.
  destruct (qpc s) as [| |txg c|txg c|txg c] eqn:Hp; [done|..].
  - destruct (tx_sync_lock s) eqn:Hl; [done|]. intros [= <-]. by apply quiesce_loop_ok.
  - by apply quiesce_lock_ok.
  - intros [= <-]. by apply quiesce_unlock_ok.
  - destruct (Nat.ltb_spec c max_ncpus).
    + intros [= <-]. by apply quiesce_drain_ok.
    + destruct (tx_sync_lock s) eqn:Hl; [done|]. intros [= <-]. apply quiesce_done_ok; try done.
      by replace max_ncpus with c by lia.
Qed.

(** ** The sync thread *)

Lemma sync_loop2_ok s :
  inv s -> tx_sync_lock s = None -> spc s = SWait1 \/ spc s = SWait2 -> slp s ST = None -> ok (txg_sync_loop2 (mutex_enter ST s)).
Proof using.
  intros [Hc Hl Ho Hu Ht Hb Hs] Hn Hp Hz. unfold txg_sync_loop2, txg_has_quiesced_to_sync, mutex_held.
  rewrite (bool_decide_eq_true_2 (tx_sync_lock (mutex_enter ST s) = Some ST)) by done. cbn [verify mbind result_bind].
  pose proof (lock_none s Hl Hn) as Hnl. pose proof (proj1 Hc) as Hop. cbn. rewrite add64_open by done. destruct (tx_exiting s) eqn:Hx; cbn.
  - rewrite (proj1 (proj2 Ht)). unfold s_alive. destruct Hp as [Hp|Hp]; rewrite Hp; cbn; apply ok_ret; intros _; inv_tac.
  - destruct (Z.eqb_spec (tx_quiesced_txg s) 0) as [Hd|Hd]; cbn.
    + destruct (Z.ltb_spec (tx_quiesce_txg_waiting s) (tx_open_txg s + 1)) as [Hw|Hw]; apply ok_ret; intros _.
      * destruct Hp as [Hp|Hp]; inv_tac.
      * destruct Hp as [Hp|Hp]; inv_tac.
    + pose proof (chain_one s Hc Hd). apply ok_ret. intros _. destruct Hp as [Hp|Hp]; inv_tac.
Qed.

Lemma sync_loop_ok idle s :
  inv s -> tx_sync_lock s = None -> spc s = SWait1 -> slp s ST = None -> ok (txg_sync_loop idle (mutex_enter ST s)).
Proof using.
  intros Hi Hn Hp Hz. unfold txg_sync_loop. destruct (idle && _ && _) eqn:Hb0.
  - unfold txg_has_quiesced_to_sync, mutex_held. rewrite bool_decide_eq_true_2 by done. cbn [verify mbind result_bind].
    change (tx_quiesced_txg (mutex_enter ST s)) with (tx_quiesced_txg s).
    destruct (Z.eqb_spec (tx_quiesced_txg s) 0) as [Hd|Hd]; cbn [negb]; [|by apply sync_loop2_ok; [..|left|]].
    destruct Hi as [Hc Hl Ho Hu Ht Hb Hs]. pose proof (lock_none s Hl Hn) as Hnl. cbn in Hb0. bool_to_prop. apply ok_ret. intros _. inv_tac.
  - by apply sync_loop2_ok; [..|left|].
Qed.

Lemma sync_prompt_ok s :
  inv s -> spc s = SPrompt -> slp s ST = None ->
  ok (Ret (txg_sync_prompt (set_tx_quiesce_txg_waiting s (add64 (tx_open_txg s) 1)))).
Proof using.
  intros [Hc Hl Ho Hu Ht Hb Hs] Hp Hz. pose proof (proj1 Hc) as Hop. rewrite add64_open by done.
  assert (tx_sync_lock s = Some ST) as Hown by (apply Hl; cbn; by rewrite Hp).
  assert (tx_quiesced_txg s = 0) as Hd by chain_tac. apply ok_ret. intros _. inv_tac.
Qed.

Lemma txg_sync_done_ok s txg :
  inv s -> spc s = SSync txg -> tx_sync_lock s = None -> slp s ST = None -> ok (Ret (txg_sync_done txg (mutex_enter ST s))).
Proof using.
  intros [Hc Hl Ho Hu Ht Hb Hs] Hp Hn Hz. pose proof (proj1 Hc) as Hop. pose proof (lock_none s Hl Hn) as Hnl. apply ok_ret. intros _. inv_tac.
  assert (oldest s = txg /\ oldest (txg_sync_done txg (mutex_enter ST s)) = txg + 1 /\ tx_synced_txg s <= txg) as (Ho1 & Ho2 & Hle)
    by (clear Hb; chain_tac).
  destruct Hb as (H1 & H2 & H3). split_and!; [|eapply Forall_impl; [exact H2|intros; cbn in *; lia]|done].
  intros c g. eapply Forall_impl; [exact (H1 c g)|]. intros cb (Hk & Hg & Hle' & Hcase). split_and!; [done..|].
  rewrite Ho2. destruct (decide (cb_txg cb = txg)) as [He|?].
  - right. exists 0%nat. split; [by rewrite He|lia].
  - left. destruct Hcase as [?|(k & Hk' & _)]; [lia|congruence].
Qed.

Lemma dispatch_ok s txg c :
  inv s -> spc s = SDispatch txg c -> slp s ST = None -> (c < max_ncpus)%nat ->
  ok (Ret (set_spc (txg_dispatch_callbacks txg c s) (SDispatch txg (S c)))).
Proof using.
  intros [Hc Hl Ho Hu Ht Hb Hs] Hp Hz Hlt. pose proof (proj1 Hc) as Hop.
  assert (tx_synced_txg s = txg /\ oldest s = txg + 1) as (Hsyn & Hold) by (clear Hb; chain_tac).
  pose proof (chain_window s Hc) as Hwin.
  assert (tx_sync_lock s = Some ST) as Hown by (apply Hl; cbn; by rewrite Hp).
  assert (forall c' g x, (c' = c -> g <> txg_slot txg) -> cb_ok max_ncpus s c' g x ->
    cb_ok max_ncpus (set_spc s (SDispatch txg (S c))) c' g x) as Hcb.
  { intros c' g x Hne (Hk & Hg & Hle & Hcase). split_and!; [done..|]. destruct Hcase as [?|(k & Hk' & ?)]; [by left|].
    right. exists (S c). rewrite Hp in Hk'. injection Hk' as -> ->. split; [done|].
    destruct (decide (c' = k)) as [->|?]; [by destruct (Hne eq_refl)|lia]. }
  unfold txg_dispatch_callbacks. apply ok_ret. intros _. destruct Hb as (H1 & H2 & H3).
  destruct (tc_callbacks (tx_cpu s c) (txg_slot txg)) as [|cb cbs] eqn:Hk.
  - inv_tac. split_and!; [|done|done]. intros c' g. specialize (H1 c' g). apply Forall_forall. intros x Hx.
    rewrite Forall_forall in H1. apply Hcb; [|by apply H1]. intros -> ->. cbn in Hx. rewrite Hk in Hx. set_solver.
  - assert (Forall (fun x => cb_txg x = txg) (cb :: cbs)) as Hall.
    { rewrite <- Hk. eapply Forall_impl; [exact (H1 c (txg_slot txg))|]. intros x (_ & Hg & Hle & Hcase).
      destruct Hcase as [?|(k & Hk' & _)]; [|congruence]. apply (txg_slot_inj txg); [lia..|done]. }
    inv_tac.
    + intros c' x. cbn. rewrite (upd_field tc_open_lock) by done. apply Ho.
    + apply (users_same s); try done. intros c'. by apply (upd_field tc_count).
    + pose proof (waiting_upd max_ncpus s c (txg_slot txg) [] Hlt (txg_slot_lt txg)) as Hw. rewrite Hk, app_nil_r in Hw.
      unfold TxgInv.callbacks_ok, dispatched. cbn. rewrite concat_app. cbn [concat]. rewrite app_nil_r. split_and!.
      * intros c' g. destruct (decide (c' = c)) as [->|Hne].
       -- rewrite upd_eq. cbn. destruct (decide (g = txg_slot txg)) as [->|Hg]; [rewrite upd_eq; constructor|].
          rewrite upd_ne by done. eapply Forall_impl; [exact (H1 c g)|]. intros x. by apply Hcb.
       -- rewrite upd_ne by done. eapply Forall_impl; [exact (H1 c' g)|]. intros x. by apply Hcb.
      * apply Forall_app in H2 as [H2 H2']. rewrite !Forall_app. split_and!; try done.
        eapply Forall_impl; [exact Hall|]. cbn. lia.
      * rewrite H3, <- Hw. unfold dispatched. solve_Permutation.
    + apply (sleep_cpu (set_spc (set_tx_commit_cb_taskq s (Some (default [] (tx_commit_cb_taskq s) ++ [cb :: cbs]))) (SDispatch txg (S c)))).
      * intros c'. by apply (upd_field tc_count).
      * sleep_tac.
Qed.

Lemma dispatch_done_ok idle s txg :
  inv s -> spc s = SDispatch txg max_ncpus -> slp s ST = None -> ok (txg_sync_loop idle s).
Proof using.
  intros [Hc Hl Ho Hu Ht Hb Hs] Hp Hz. pose proof (proj1 Hc) as Hop.
  assert (tx_sync_lock s = Some ST) as Hown by (apply Hl; cbn; by rewrite Hp).
  assert (inv (set_spc (mutex_exit s) SWait1)) as Hi.
  { inv_tac. destruct Hb as (H1 & H2 & H3). split_and!; [|done|done]. intros c g. eapply Forall_impl; [exact (H1 c g)|].
    intros cb (Hk & Hg & Hle & Hcase). split_and!; [done..|]. left. destruct Hcase as [?|(k & Hk' & ?)]; [done|].
    rewrite Hp in Hk'. injection Hk' as -> <-. lia. }
  destruct (sync_loop_ok idle _ Hi eq_refl eq_refl Hz) as (s' & He & Hi'). exists s'. split; [|done]. rewrite <- He.
  assert (mutex_enter ST (set_spc (mutex_exit s) SWait1) = set_spc s SWait1) as -> by (destruct s; cbn in *; by subst).
  done.
Qed.

Lemma sync_ok idle s r : inv s -> txg_sync_thread max_ncpus idle s = Some r -> ok r.
Proof using.
  intros Hi. unfold txg_sync_thread, locked. case_decide as Hz; [|done].
  pose proof (proj1 (proj2 (proj2 (proj2 (i_chain _ _ _ Hi))))) as Hs. unfold chain_s in Hs.
  destruct (spc s) as [| | | |txg|txg c] eqn:Hp; [done|..].
  - destruct (tx_sync_lock s) eqn:Hl; [done|]. intros [= <-]. by apply sync_loop_ok.
  - destruct (tx_sync_lock s) eqn:Hl; [done|]. intros [= <-]. apply sync_loop2_ok; auto.
  - intros [= <-]. by apply sync_prompt_ok.
  - destruct (tx_sync_lock s) eqn:Hl; [done|]. intros [= <-]. by apply txg_sync_done_ok.
  - destruct (Nat.ltb_spec c max_ncpus); intros [= <-]; [by apply dispatch_ok|].
    apply (dispatch_done_ok idle s txg); try done. by replace max_ncpus with c by lia.
Qed.

End steps.
