(* ===== verification/TxgUsers.v ===== *)
(** * Transaction groups: the steps of the other threads

    The threads that use a pool keep the invariant, and no assertion fails in
    their steps, as long as they keep to what is [allowed]. *)

From stdpp Require Import functions.
From S2P Require Import Prelude TxgData Txg TxgInv TxgFrame.

(** A place that is, or is not, the one that changed. *)
Ltac at_place t :=
  repeat match goal with
  | |- context [upd _ t _ t] => rewrite !upd_eq
  | H : context [upd _ t _ t] |- _ => rewrite !upd_eq in H
  | |- context [upd _ t _ ?u] => destruct (decide (u = t)) as [->|?]; [rewrite !upd_eq|rewrite !(upd_ne _ t u) by done]
  | H : context [upd _ t _ ?u] |- _ =>
      destruct (decide (u = t)) as [->|?]; [rewrite !upd_eq in H|rewrite !(upd_ne _ t u) in H by done]
  end.

Ltac u_lock_tac t :=
  match goal with
  | H : sync_lock_ok _ |- _ =>
      let x := fresh "x" in
      intros x; specialize (H x); destruct x as [| |?]; cbn in H |- *; at_place t; places; intuition congruence
  end.

Ltac u_open_tac t :=
  match goal with
  | H : TxgInv.open_lock_ok _ _ |- _ =>
      let c := fresh "c" in let x := fresh "x" in
      intros c x; specialize (H c x); cbn; rewrite ?(upd_field tc_open_lock) by done;
      destruct x as [| |?]; cbn in H |- *; at_place t; places; intuition (congruence || lia)
  end.

Section users.
Context {max_ncpus : nat} {tids : list tid} (Hnd : NoDup tids).
Notation inv := (inv max_ncpus tids).
Notation chain := (chain max_ncpus).
Notation open_lock_ok := (open_lock_ok max_ncpus).
Notation users_ok := (users_ok max_ncpus tids).
Notation callbacks_ok := (callbacks_ok max_ncpus).
Notation sleep_ok := (sleep_ok max_ncpus).
Notation ok := (ok max_ncpus tids).

Lemma holders_upd s t p c g :
  t ∈ tids ->
  holders tids (set_place s t p) c g =
  holders tids s c g - (if counted (upc s t) c g then 1 else 0) + (if counted p c g then 1 else 0).
Proof using Hnd. intros Ht. exact (total_upd tids (fun p => if counted p c g then 1 else 0) (upc s) t p Hnd Ht). Qed.

(** A thread moves, and the counts with it. *)
Lemma users_move s s' t p :
  users_ok s -> t ∈ tids -> upc s' = upd (upc s) t p ->
  (forall c g, tc_count (tx_cpu s' c) g =
    tc_count (tx_cpu s c) g - (if counted (upc s t) c g then 1 else 0) + (if counted p c g then 1 else 0)) ->
  held_ok max_ncpus s p -> qpc s' = qpc s -> tx_open_txg s' = tx_open_txg s -> users_ok s'.
Proof using Hnd.
  intros (H1 & H2 & H3) Ht Hp Hc Hh Hq Ho. unfold TxgInv.users_ok, holders. rewrite Hp. split_and!.
  - intros u. at_place t; [done|apply H1].
  - intros u. unfold held_ok in *. rewrite Hq, Ho. apply upd_case; [by intros ->|intros _; apply H2].
  - intros c g. rewrite Hc, H3. symmetry. exact (holders_upd s t p c g Ht).
Qed.

(** The counts do not change. *)
Lemma users_move0 s s' t p :
  users_ok s -> t ∈ tids -> upc s' = upd (upc s) t p -> (forall c, tc_count (tx_cpu s' c) = tc_count (tx_cpu s c)) ->
  (forall c g, counted p c g = counted (upc s t) c g) ->
  held_ok max_ncpus s p -> qpc s' = qpc s -> tx_open_txg s' = tx_open_txg s -> users_ok s'.
Proof using Hnd. intros Hu Ht Hp Hc Hk. eapply users_move; try done. intros c g. rewrite Hc, Hk. lia. Qed.

(** A thread that does not stop the pool moves to a place of the same kind. *)
Lemma threads_move s s' t p :
  threads_ok s -> upc s' = upd (upc s) t p -> stop_place p = false -> stop_place (upc s t) = false ->
  running s = true -> running s' = running s -> qpc s' = qpc s -> spc s' = spc s -> tx_threads s' = tx_threads s ->
  tx_exiting s' = tx_exiting s -> tx_quiesce_thread s' = tx_quiesce_thread s -> tx_sync_thread s' = tx_sync_thread s ->
  threads_ok s'.
Proof using.
  intros (H1 & H2 & H3 & H4 & H5 & H6 & H7 & H8) Hp Hsp Hsp' Hr Er Eq Es Et Ex Eqt Est.
  unfold threads_ok, q_alive, s_alive. rewrite Hp, Er, Eq, Es, Et, Ex, Eqt, Est, Hr.
  destruct (H4 Hr) as (Ha & Hb & Hc & Hd). split_and!; try done.
  - intros _. split_and!; try done. intros u. by apply (upd_case (fun p => stop_place p = false)).
  - intros u v Hu. exfalso. revert Hu. apply (upd_case (fun p => stop_place p = true -> False)); [by rewrite Hsp|by rewrite Hd].
  - intros u. apply (upd_case (stop_ok s')); [|intros _]; [intros _|].
    + destruct p as [| | | | |[] ?| | | | | |]; done.
    + specialize (Hd u). destruct (upc s u) as [| | | | |[] ?| | | | | |]; done.
Qed.

Lemma place_running s t : threads_ok s -> upc s t <> UIdle -> stop_place (upc s t) = false -> running s = true.
Proof using.
  intros (_ & _ & _ & _ & H5 & _) Hp Hsp. destruct (running s) eqn:Hr; [done|]. destruct (H5 eq_refl t) as [?|?]; congruence.
Qed.

(** A thread moves, wakes others, and may ask for more. *)
Lemma sleep_ask s s' t p :
  sleep_ok s -> upc s' = upd (upc s) t p ->
  (forall x v, x <> UT t -> slp s' x = Some v -> slp s x = Some v) ->
  (forall v, slp s' (UT t) = Some v -> u_sleep_ok s' p v) -> asked_ok s' p ->
  (forall c g, slp s' QT = Some (tc_cv c g) -> tc_count (tx_cpu s c) g <> 0 -> tc_count (tx_cpu s' c) g <> 0) ->
  (qpc s = QWait -> slp s' QT = Some tx_quiesce_more_cv -> q_sleep_ok max_ncpus s' tx_quiesce_more_cv) ->
  tx_sync_txg_waiting s <= tx_sync_txg_waiting s' -> tx_quiesce_txg_waiting s <= tx_quiesce_txg_waiting s' ->
  (slp s' ST = Some tx_sync_more_cv ->
   tx_sync_txg_waiting s' = tx_sync_txg_waiting s \/ tx_sync_txg_waiting s' <= tx_synced_txg s) ->
  (tx_quiesce_txg_waiting s' = tx_quiesce_txg_waiting s \/ spc s <> SPrompt /\ forall u, u <> t -> upc s u <> UKick) ->
  qpc s' = qpc s -> spc s' = spc s -> tx_open_txg s' = tx_open_txg s -> tx_quiescing_txg s' = tx_quiescing_txg s ->
  tx_quiesced_txg s' = tx_quiesced_txg s -> tx_synced_txg s' = tx_synced_txg s -> tx_exiting s' = tx_exiting s ->
  tx_threads s' = tx_threads s -> sleep_ok s'.
Proof using.
  intros (H1 & H2 & H3 & H4 & H5) Hp Hsl Hown Hask Hcnt Hqw Hsw1 Hqw1 Hsw2 Hqw2 Eq Es Eo Eqg Eqd Ez Ex Et.
  split_and!.
  - intros v Hv. pose proof (H1 v (Hsl QT v ltac:(done) Hv)) as Hq. unfold q_sleep_ok in Hq.
    destruct (qpc s) eqn:Eqs; try done.
    + destruct Hq as (-> & _). by apply Hqw.
    + unfold q_sleep_ok. rewrite Eq. destruct Hq as (-> & ? & ?). split_and!; [done..|]. by apply Hcnt.
  - intros v Hv. pose proof (H2 v (Hsl ST v ltac:(done) Hv)) as Hq. unfold s_sleep_ok in *. rewrite Ex, Eqd, Es, Eo, Eqg, Ez in *.
    destruct (spc s); intuition (subst; intuition lia).
  - intros u v Hv. rewrite Hp in *. destruct (decide (u = t)) as [->|Hne]; [rewrite upd_eq; auto|rewrite upd_ne by done].
    specialize (H3 u v (Hsl (UT u) v ltac:(congruence) Hv)). unfold u_sleep_ok in *. by rewrite Eo, Eqg, Ez, Et.
  - intros u. rewrite Hp. apply upd_case; [done|intros Hne]. specialize (H4 u). unfold asked_ok in *. rewrite Eo.
    destruct (upc s u) eqn:Hu; try lia. destruct Hqw2 as [->|[_ Hk]]; [done|]. by destruct (Hk u Hne).
  - unfold prompt_ok in *. rewrite Es, Ex, Eo. intros Hpr. destruct Hqw2 as [->|[Hk _]]; [auto|done].
Qed.

(** The quiesce thread sleeps for the same reason. *)
Lemma q_sleep_keep s s' t p v :
  sleep_ok s -> upc s' = upd (upc s) t p -> (forall x, upc s t <> UOpenCheck x) -> slp s QT = Some v -> qpc s = QWait ->
  qpc s' = qpc s -> tx_open_txg s' = tx_open_txg s -> tx_quiesced_txg s' = tx_quiesced_txg s -> tx_exiting s' = tx_exiting s ->
  tx_quiesce_txg_waiting s' = tx_quiesce_txg_waiting s -> q_sleep_ok max_ncpus s' v.
Proof using.
  intros (H1 & _) Hp Hno Hv Hq Eq Eo Eqd Ex Eqw. specialize (H1 v Hv). unfold q_sleep_ok in *.
  rewrite Eq, Hq, Ex, Eqw, Eo, Eqd, Hp in *. destruct H1 as (? & ? & [?|[?|[u Hu]]]); split_and!; auto.
  right. right. exists u. rewrite upd_ne; [done|]. intros ->. by destruct (Hno (tx_quiesce_txg_waiting s)).
Qed.

(** A thread moves, and wakes others at most. *)
Lemma sleep_move s s' t p :
  sleep_ok s -> upc s' = upd (upc s) t p -> (forall x, upc s t <> UOpenCheck x) ->
  (forall x v, x <> UT t -> slp s' x = Some v -> slp s x = Some v) ->
  (forall v, slp s' (UT t) = Some v -> u_sleep_ok s' p v) -> asked_ok s' p ->
  (forall c g, slp s' QT = Some (tc_cv c g) -> tc_count (tx_cpu s c) g <> 0 -> tc_count (tx_cpu s' c) g <> 0) ->
  qpc s' = qpc s -> spc s' = spc s -> tx_open_txg s' = tx_open_txg s -> tx_quiescing_txg s' = tx_quiescing_txg s ->
  tx_quiesced_txg s' = tx_quiesced_txg s -> tx_synced_txg s' = tx_synced_txg s -> tx_exiting s' = tx_exiting s ->
  tx_threads s' = tx_threads s -> tx_sync_txg_waiting s' = tx_sync_txg_waiting s ->
  tx_quiesce_txg_waiting s' = tx_quiesce_txg_waiting s -> sleep_ok s'.
Proof using.
  intros Hs Hp Hno Hsl Hown Hask Hcnt Eq Es Eo Eqg Eqd Ez Ex Et Esw Eqw. eapply sleep_ask; try done; [|lia|lia|by left|by left].
  intros Hq Hv. apply (q_sleep_keep s s' t p); auto.
Qed.

(** What a step leaves as it was, when a thread moves without changing what it
    holds. *)
Ltac move_tac t :=
  constructor; try assumption;
  lazymatch goal with
  | |- sync_lock_ok _ => try solve [u_lock_tac t]
  | |- TxgInv.open_lock_ok _ _ => try solve [u_open_tac t]
  | |- TxgInv.users_ok _ _ _ => try solve [eapply users_move0; try done; places; done]
  | |- threads_ok _ => try solve [eapply threads_move; try done; places; done]
  | |- _ => idtac
  end.

(** ** Holding the open txg *)

Lemma hold_open_lock_ok s t c r :
  inv s -> t ∈ tids -> running s = true -> (c < max_ncpus)%nat -> upc s t = UIdle -> slp s (UT t) = None ->
  txg_hold_open_lock t c s = Some r -> ok r.
Proof using Hnd.
  intros [Hc Hl Ho Hu Ht Hb Hs] Hin Hr Hlt Hp Hz. unfold txg_hold_open_lock.
  destruct (tc_open_lock (tx_cpu s c)) eqn:Hk; [done|]. intros [= <-]. apply ok_ret. intros _. constructor; try assumption.
  - u_lock_tac t.
  - intros c' x. cbn [tx_cpu set_place set_upc set_cpu set_tx_cpu]. rewrite relock_lock. specialize (Ho c' x). destruct (Nat.eqb_spec c' c) as [->|Hne].
    + rewrite Hk in Ho. destruct x as [| |u]; cbn in *; at_place t; places; intuition congruence.
    + rewrite Ho. destruct x as [| |u]; cbn in *; at_place t; places; intuition congruence.
  - eapply users_move0; try done; [intros c'; by apply (upd_field tc_count)|by rewrite Hp].
  - eapply threads_move; try done. by rewrite Hp.
  - eapply callbacks_same; try done. intros c'. by apply (upd_field tc_callbacks).
  - eapply sleep_move; try done; [by rewrite Hp|cbn; by rewrite Hz|]. intros c' g _. cbn. by rewrite (upd_field tc_count).
Qed.

(** The count of one slot of one cpu changed. *)
Lemma count_upd g c i n c' i' :
  tc_count (upd g c (set_tc_count (g c) i n) c') i' = if (c =? c')%nat && (i =? i')%nat then n else tc_count (g c') i'.
Proof using.
  destruct (Nat.eqb_spec c c') as [<-|Hne]; [rewrite upd_eq; cbn|rewrite upd_ne by done; done].
  destruct (Nat.eqb_spec i i') as [<-|Hne]; [by rewrite upd_eq|by rewrite upd_ne].
Qed.

Lemma count_nonneg s c g : users_ok s -> 0 <= tc_count (tx_cpu s c) g.
Proof using.
  intros (_ & _ & H3). rewrite H3. apply sum_threads_nonneg. intros t. destruct (counted (upc s t) c g); lia.
Qed.

Lemma hold_open_ok s t c txg :
  inv s -> t ∈ tids -> upc s t = UEnter c txg -> slp s (UT t) = None -> ok (Ret (txg_hold_open t c txg s)).
Proof using Hnd.
  intros [Hc Hl Ho Hu Ht Hb Hs] Hin Hp Hz. apply ok_ret. intros _.
  assert (running s = true) as Hr by (by apply (place_running s t); rewrite ?Hp).
  pose proof (proj1 (proj2 Hu) t) as Hh. rewrite Hp in Hh. constructor; try assumption.
  - u_lock_tac t.
  - u_open_tac t.
  - eapply users_move; try done. intros c' g. cbn. rewrite count_upd, Hp. cbn.
    destruct (Nat.eqb_spec c c') as [<-|?], (Nat.eqb_spec (txg_slot txg) g) as [<-|?]; cbn; lia.
  - eapply threads_move; try done; by rewrite Hp.
  - eapply callbacks_same; try done. intros c'. by apply (upd_field tc_callbacks).
  - eapply sleep_move; try done; [by rewrite Hp|cbn; by rewrite Hz|]. intros c' g _. cbn. rewrite count_upd.
    pose proof (count_nonneg s c (txg_slot txg) Hu). case_match; lia.
Qed.

Lemma delay_call_ok s t c txg :
  inv s -> t ∈ tids -> upc s t = UHeld c txg -> slp s (UT t) = None -> ok (Ret (txg_delay_call t c txg s)).
Proof using Hnd.
  intros Hi Hin Hp Hz. unfold txg_delay_call. apply ok_ret. intros _. destruct (_ <? _); [done|].
  destruct Hi as [Hc Hl Ho Hu Ht Hb Hs].
  assert (running s = true) as Hr by (by apply (place_running s t); rewrite ?Hp).
  pose proof (proj1 (proj2 Hu) t) as Hh. rewrite Hp in Hh. constructor; try assumption.
  - u_lock_tac t.
  - u_open_tac t.
  - eapply users_move0; try done. by rewrite Hp.
  - eapply threads_move; try done; by rewrite Hp.
  - eapply sleep_move; try done; [by rewrite Hp|cbn; by rewrite Hz].
Qed.

Lemma rele_to_quiesce_ok s t c txg :
  inv s -> t ∈ tids -> upc s t = UHeld c txg -> slp s (UT t) = None -> ok (txg_rele_to_quiesce t c txg s).
Proof using Hnd.
  intros [Hc Hl Ho Hu Ht Hb Hs] Hin Hp Hz. unfold txg_rele_to_quiesce.
  assert (tc_open_lock (tx_cpu s c) = Some (UT t)) as Hk by (apply Ho; cbn; by rewrite Hp).
  rewrite bool_decide_eq_true_2 by done. cbn. apply ok_ret. intros _.
  assert (running s = true) as Hr by (by apply (place_running s t); rewrite ?Hp).
  pose proof (proj1 (proj2 Hu) t) as Hh. rewrite Hp in Hh. constructor; try assumption.
  - u_lock_tac t.
  - intros c' x. cbn [tx_cpu set_place set_upc set_cpu set_tx_cpu]. rewrite relock_lock. specialize (Ho c' x). destruct (Nat.eqb_spec c' c) as [->|Hne].
    + rewrite Hk in Ho. destruct x as [| |u]; cbn in *; at_place t; places; intuition congruence.
    + rewrite Ho. destruct x as [| |u]; cbn in *; at_place t; places; intuition congruence.
  - eapply users_move0; try done; [intros c'; by apply (upd_field tc_count)|by rewrite Hp|]. cbn in *. intuition.
  - eapply threads_move; try done; by rewrite Hp.
  - eapply callbacks_same; try done. intros c'. by apply (upd_field tc_callbacks).
  - eapply sleep_move; try done; [by rewrite Hp|cbn; by rewrite Hz|]. intros c' g _. cbn. by rewrite (upd_field tc_count).
Qed.

Lemma rele_to_sync_ok s t c txg :
  inv s -> t ∈ tids -> upc s t = UAssigned c txg -> slp s (UT t) = None -> ok (txg_rele_to_sync t c txg s).
Proof using Hnd.
  intros [Hc Hl Ho Hu Ht Hb Hs] Hin Hp Hz. unfold txg_rele_to_sync.
  assert (1 <= tc_count (tx_cpu s c) (txg_slot txg)) as Hk
    by (apply (counted_pos s t _ _ Hu); rewrite Hp; cbn; by rewrite !Nat.eqb_refl).
  destruct (Z.eqb_spec (tc_count (tx_cpu s c) (txg_slot txg)) 0) as [?|_]; [lia|]. cbn. apply ok_ret. intros _.
  assert (running s = true) as Hr by (by apply (place_running s t); rewrite ?Hp).
  assert (forall c' g, tc_count (upd (tx_cpu s) c (set_tc_count (tx_cpu s c) (txg_slot txg) (tc_count (tx_cpu s c) (txg_slot txg) - 1)) c') g =
    tc_count (tx_cpu s c') g - (if counted (upc s t) c' g then 1 else 0) + 0) as Hcnt.
  { intros c' g. rewrite count_upd, Hp. cbn.
    destruct (Nat.eqb_spec c c') as [<-|?], (Nat.eqb_spec (txg_slot txg) g) as [<-|?]; cbn; lia. }
  destruct (Z.eqb_spec (tc_count (tx_cpu s c) (txg_slot txg) - 1) 0) as [H0|H0]; constructor; try assumption.
  all: try (u_lock_tac t).
  all: try (u_open_tac t).
  all: try (eapply users_move; done).
  all: try (eapply threads_move; try done; by rewrite Hp).
  all: try (eapply callbacks_same; try done; intros c'; by apply (upd_field tc_callbacks)).
  - eapply sleep_move; try done; [by rewrite Hp|..].
    + intros x v _ Hv. by apply broadcast_slp in Hv as [Hv _].
    + intros v Hv. apply broadcast_slp in Hv as [Hv _]. cbn in Hv. congruence.
    + intros c' g Hv. apply broadcast_slp in Hv as [_ Hv]. cbn. rewrite Hcnt, Hp. cbn.
      destruct (Nat.eqb_spec c c') as [<-|?], (Nat.eqb_spec (txg_slot txg) g) as [<-|?]; cbn; lia || congruence.
  - eapply sleep_move; try done; [by rewrite Hp|cbn; by rewrite Hz|]. intros c' g _. cbn. rewrite Hcnt, Hp. cbn.
    destruct (Nat.eqb_spec c c') as [<-|?], (Nat.eqb_spec (txg_slot txg) g) as [<-|?]; cbn; lia.
Qed.

(** A txg that is held is not being synced. *)
Lemma held_window s c txg :
  chain s -> held_ok max_ncpus s (UAssigned c txg) -> front s <= txg <= tx_open_txg s /\ oldest s <= front s.
Proof using.
  intros Hc Hh. unfold TxgInv.chain, chain_q, chain_s, oldest, front, held_ok in *.
  destruct (qpc s), (spc s); cbn in *; repeat case_match; bool_to_prop; lia.
Qed.

Lemma register_ok s t c txg ids :
  inv s -> t ∈ tids -> upc s t = UAssigned c txg -> ok (Ret (txg_register_callbacks t c txg ids s)).
Proof using Hnd.
  intros [Hc Hl Ho Hu Ht Hb Hs] Hin Hp. apply ok_ret. intros _. constructor; try assumption.
  - intros c' x. cbn. rewrite (upd_field tc_open_lock) by done. apply Ho.
  - eapply users_same; try done. intros c'. by apply (upd_field tc_count).
  - pose proof (proj1 (proj2 Hu) t) as Hh. rewrite Hp in Hh. pose proof (held_window s c txg Hc Hh) as [Hwin Hwin'].
    destruct Hh as [Hlt _]. destruct Hb as (H1 & H2 & H3). set (cbs := (fun i => Callback i txg) <$> ids).
    pose proof (waiting_upd max_ncpus s c (txg_slot txg) (tc_callbacks (tx_cpu s c) (txg_slot txg) ++ cbs) Hlt (txg_slot_lt txg)) as Hw.
    split_and!; [|done|].
    + intros c' g. cbn. destruct (decide (c' = c)) as [->|Hne]; [rewrite upd_eq; cbn|rewrite upd_ne by done; apply H1].
      destruct (decide (g = txg_slot txg)) as [->|Hne]; [rewrite upd_eq|rewrite upd_ne by done; apply H1].
      apply Forall_app. split; [apply H1|]. apply Forall_fmap, Forall_true. intros i. split_and!; cbn; [done..|lia|].
      left. change (oldest (txg_register_callbacks t c txg ids s)) with (oldest s). lia.
    + change (registered s ++ cbs ≡ₚ waiting max_ncpus (set_cpu s c (set_tc_callbacks (tx_cpu s c) (txg_slot txg)
        (tc_callbacks (tx_cpu s c) (txg_slot txg) ++ cbs))) ++ dispatched s ++ called s).
      rewrite H3. apply (Permutation_app_inv_l (tc_callbacks (tx_cpu s c) (txg_slot txg))).
      rewrite (app_assoc _ (waiting max_ncpus (set_cpu _ _ _))), (Permutation_app_comm _ (waiting max_ncpus (set_cpu _ _ _))), Hw.
      solve_Permutation.
  - apply (sleep_cpu (set_registered s (registered s ++ ((fun i => Callback i txg) <$> ids)))); [|done].
    intros c'. by apply (upd_field tc_count).
Qed.

(** ** Delays *)

Lemma delay_loop_ok s t c txg d in_time :
  inv s -> t ∈ tids -> upc s t = UDelay c txg d -> slp s (UT t) = None -> tx_sync_lock s = None ->
  ok (Ret (txg_delay_loop t c txg in_time (mutex_enter (UT t) s))).
Proof using Hnd.
  intros [Hc Hl Ho Hu Ht Hb Hs] Hin Hp Hz Hn. unfold txg_delay_loop. apply ok_ret. intros _.
  assert (running s = true) as Hr by (by apply (place_running s t); rewrite ?Hp).
  pose proof (proj1 (proj2 Hu) t) as Hh. rewrite Hp in Hh. pose proof (lock_none s Hl Hn) as Hnl.
  destruct (_ && _ && _); move_tac t.
  - eapply sleep_move; try done; [by rewrite Hp|..].
    + intros x v Hx Hv. apply insert_slp in Hv as [[Hx' _]|[_ Hv]]; [congruence|done].
    + intros v Hv. apply insert_slp in Hv as [[_ Hv]|[Hx _]]; [by injection Hv as <-|done].
  - eapply sleep_move; try done; [by rewrite Hp|cbn; by rewrite Hz].
Qed.

Lemma delay_ok s t c txg d in_time r :
  inv s -> t ∈ tids -> upc s t = UDelay c txg d -> slp s (UT t) = None -> txg_delay t c txg d in_time s = Some r -> ok r.
Proof using Hnd.
  intros Hi Hin Hp Hz. unfold txg_delay, locked. 
  assert (forall l p, l = tx_sync_lock s -> p = UHeld c txg \/ (exists d, p = UDelay c txg d) -> inv (set_place (set_tx_sync_lock s l) t p)) as Hmove.
  { destruct Hi as [Hc Hl Ho Hu Ht Hb Hs]. assert (running s = true) as Hr by (by apply (place_running s t); rewrite ?Hp).
    pose proof (proj1 (proj2 Hu) t) as Hh. rewrite Hp in Hh. intros l p -> [->|[d' ->]]; move_tac t.
    all: eapply sleep_move; try done; [by rewrite Hp|cbn; by rewrite Hz]. }
  assert (set_tx_sync_lock s (tx_sync_lock s) = s) as Heta by (by destruct s).
  destruct d.
  - intros [= <-]. apply ok_ret. intros _. specialize (Hmove _ (if tx_syncing_txg s =? sub64 txg 1 then UHeld c txg else UDelay c txg DSynced) eq_refl).
    rewrite Heta in Hmove. destruct (_ =? _); eauto.
  - intros [= <-]. apply ok_ret. intros _. specialize (Hmove _ (if tx_synced_txg s =? sub64 txg 1 then UHeld c txg else UDelay c txg DLock) eq_refl).
    rewrite Heta in Hmove. destruct (_ =? _); eauto.
  - destruct (tx_sync_lock s) eqn:Hn; [done|]. intros [= <-]. destruct (_ || _).
    + apply ok_ret. intros _. apply (Hmove None (UHeld c txg)); auto.
    + by eapply delay_loop_ok.
  - destruct (tx_sync_lock s) eqn:Hn; [done|]. intros [= <-]. by eapply delay_loop_ok.
Qed.

(** ** Waiting for a txg *)

(** The thread that stops the pool goes on, with the threads still there. *)
Lemma threads_stop s s' t p :
  threads_ok s -> upc s' = upd (upc s) t p -> stop_place (upc s t) = true -> stop_place p = true -> stop_ok s' p ->
  running s' = running s -> qpc s' = qpc s -> spc s' = spc s -> tx_threads s' = tx_threads s ->
  tx_quiesce_thread s' = tx_quiesce_thread s -> tx_sync_thread s' = tx_sync_thread s -> threads_ok s'.
Proof using.
  intros (H1 & H2 & H3 & H4 & H5 & H6 & H7 & H8) Hp Hsp Hsp' Hok Er Eq Es Et Eqt Est.
  assert (running s = false) as Hr.
  { destruct (running s) eqn:Hr; [|done]. destruct (H4 eq_refl) as (_ & _ & _ & Hd). by rewrite Hd in Hsp. }
  unfold threads_ok, q_alive, s_alive. rewrite Er, Eq, Es, Et, Eqt, Est, Hr. split_and!; try done.
  - intros _ u. rewrite Hp. apply upd_case; [by right|intros _]. by apply H5.
  - intros _ Hall. specialize (Hall t). rewrite Hp, upd_eq in Hall. by rewrite Hall in Hsp'.
  - intros u v. rewrite Hp. destruct (decide (u = t)) as [->|Hne].
    + intros _ Hv. rewrite upd_ne by done. by apply (H7 t).
    + rewrite (upd_ne _ _ u) by done. intros Hu _. by rewrite (H7 t u Hsp Hne) in Hu.
  - intros u. rewrite Hp. apply upd_case; [done|intros Hne]. by rewrite (H7 t u Hsp Hne).
Qed.

(** The places from which a thread gets to the loop of [txg_wait_synced]. *)
Definition wait_from (s : sys) (stop : bool) (p : user_place) : Prop :=
  match p with
  | UIdle => running s = true /\ stop = false
  | UWaitSynced b _ => b = stop
  | UStopCall _ => stop = true
  | _ => False
  end.

Definition wait_to (stop : bool) (p : user_place) : Prop :=
  match p with UIdle => stop = false | UStop => stop = true | UWaitSynced b _ => b = stop | _ => False end.

Lemma threads_wait s s' t stop p :
  threads_ok s -> upc s' = upd (upc s) t p -> wait_from s stop (upc s t) -> wait_to stop p ->
  running s' = running s -> qpc s' = qpc s -> spc s' = spc s -> tx_threads s' = tx_threads s -> tx_exiting s' = tx_exiting s ->
  tx_quiesce_thread s' = tx_quiesce_thread s -> tx_sync_thread s' = tx_sync_thread s -> threads_ok s'.
Proof using.
  intros Ht Hp Hf Hto Er Eq Es Et Ex Eqt Est. destruct stop.
  - eapply threads_stop; try done; [by destruct (upc s t) as [| | | | |[] ?| | | | | |]; cbn in *; intuition|by destruct p as [| | | | |[] ?| | | | | |]|].
    assert (q_alive s' = true /\ s_alive s' = true /\ tx_exiting s' = false) as Hok.
    { unfold q_alive, s_alive. rewrite Eq, Es, Ex. destruct Ht as (_ & _ & _ & _ & _ & _ & _ & H8). specialize (H8 t).
      destruct (upc s t) as [| | | | |[] ?| | | | | |]; cbn in *; intuition congruence. }
    destruct p as [| | | | |[] ?| | | | | |]; done.
  - assert (running s = true /\ stop_place (upc s t) = false) as [Hr Hsp].
    { destruct (upc s t) as [| | | | |[] ?| | | | | |] eqn:Hq; cbn in *; intuition (try done). by apply (place_running s t); rewrite ?Hq. }
    eapply threads_move; try done. by destruct p as [| | | | |[] ?| | | | | |].
Qed.

(** Places where a thread holds nothing. *)
Definition free (p : user_place) : bool :=
  match p with UIdle | UWaitSynced _ _ | UWaitOpen _ | UStopCall _ | UStop | UStopping => true | _ => false end.

Lemma free_locks s s' t p :
  sync_lock_ok s -> open_lock_ok s -> upc s' = upd (upc s) t p -> free (upc s t) = true -> free p = true ->
  tx_sync_lock s = None -> tx_sync_lock s' = None -> (forall c, tc_open_lock (tx_cpu s' c) = tc_open_lock (tx_cpu s c)) ->
  qpc s' = qpc s -> spc s' = spc s -> sync_lock_ok s' /\ open_lock_ok s'.
Proof using.
  intros Hl Ho Hp Hf Hf' Hn Hn' Hk Eq Es. split.
  - apply lock_none_ok; [done|]. pose proof (lock_none s Hl Hn) as Hnl. intros x Hx. apply (Hnl x).
    destruct x as [| |u]; cbn in *; [done|by rewrite Es in Hx|]. revert Hx. rewrite Hp. by apply upd_case; [intros ->; destruct p|].
  - intros c x. rewrite Hk, (Ho c x). destruct x as [| |u]; cbn; [by rewrite Eq|done|]. rewrite Hp.
    apply upd_case; [intros ->|done]. by destruct p, (upc s t).
Qed.

Lemma free_users s s' t p :
  users_ok s -> upc s' = upd (upc s) t p -> t ∈ tids -> free (upc s t) = true -> free p = true ->
  (forall c, tc_count (tx_cpu s' c) = tc_count (tx_cpu s c)) -> qpc s' = qpc s -> tx_open_txg s' = tx_open_txg s -> users_ok s'.
Proof using Hnd.
  intros Hu Hp Hin Hf Hf' Hk Eq Eo. eapply users_move0; try done; [|by destruct p]. intros c g. by destruct p, (upc s t).
Qed.

(** A thread that holds nothing, before and after. *)
Ltac free_tac t :=
  match goal with
  | Hf : free (upc ?s t) = true, Hl : sync_lock_ok ?s, Ho : TxgInv.open_lock_ok _ ?s |- TxgInv.inv _ _ ?s' =>
      let H1 := fresh in let H2 := fresh in
      assert (sync_lock_ok s' /\ TxgInv.open_lock_ok max_ncpus s') as [H1 H2] by (eapply free_locks; done);
      constructor; try assumption; try (eapply free_users; done)
  end.

Lemma wait_synced_loop_ok s sw t stop txg :
  inv s -> t ∈ tids -> wait_from s stop (upc s t) -> slp s (UT t) = None -> tx_sync_lock s = None ->
  tx_sync_txg_waiting s <= sw -> txg <= sw -> (sw = tx_sync_txg_waiting s \/ sw = txg) ->
  ok (Ret (txg_wait_synced_loop t stop txg (set_tx_sync_txg_waiting (mutex_enter (UT t) s) sw))).
Proof using Hnd.
  intros [Hc Hl Ho Hu Ht Hb Hs] Hin Hp Hz Hn Hsw Hle Hcase. unfold txg_wait_synced_loop. apply ok_ret. intros _.
  assert (free (upc s t) = true) as Hf by (by destruct (upc s t)). cbn [tx_synced_txg set_tx_sync_txg_waiting mutex_enter set_tx_sync_lock].
  destruct (Z.ltb_spec (tx_synced_txg s) txg) as [Hlt|Hge].
  - free_tac t; [by eapply threads_wait|]. eapply sleep_ask; try done; [..|by left].
    + intros x v Hx Hv. slept Hv; [congruence|done].
    + intros v Hv. slept Hv; [|done]. injection Hv as <-. cbn. by split.
    + intros Hq Hv. slept Hv; try done. by eapply q_sleep_keep; try done; intros x Hx; rewrite Hx in Hf.
    + intros Hv. slept Hv; done.
  - destruct stop; free_tac t; try (by eapply threads_wait).
    all: eapply sleep_ask; try done; [cbn; by rewrite Hz|..|by left].
    all: first [ intros Hq Hv; by eapply q_sleep_keep; try done; intros x Hx; rewrite Hx in Hf
               | intros Hv; cbn; destruct Hcase; [by left|right; lia] ].
Qed.

(** Both threads are there when the pool is used or is about to be stopped. *)
Lemma threads_two s : threads_ok s -> q_alive s = true -> s_alive s = true -> tx_threads s = 2.
Proof using. intros (_ & _ & H & _) Hq Ha. by rewrite H, Hq, Ha. Qed.

Lemma wait_synced_ok s t stop txg :
  inv s -> t ∈ tids -> wait_from s stop (upc s t) -> slp s (UT t) = None -> tx_sync_lock s = None ->
  ok (txg_wait_synced t stop txg (mutex_enter (UT t) s)).
Proof using Hnd.
  intros Hi Hin Hp Hz Hn. unfold txg_wait_synced. pose proof (i_threads _ _ _ Hi) as Ht.
  assert (tx_threads s = 2) as H2.
  { assert (q_alive s = true /\ s_alive s = true) as [??]; [|by apply threads_two].
    assert (Hrun : running s = true -> q_alive s = true /\ s_alive s = true) by (intros Hr; destruct Ht as (_ & _ & _ & H4 & _); by destruct (H4 Hr) as (? & ? & _)).
    pose proof Ht as (_ & _ & _ & _ & _ & _ & _ & H8). specialize (H8 t).
    destruct (upc s t) as [| | | | |[] ?| | | | | |] eqn:Hq; cbn in Hp, H8; try done; [tauto..| |tauto].
    apply Hrun. by apply (place_running s t); rewrite ?Hq. }
  change (tx_threads (mutex_enter (UT t) s)) with (tx_threads s). rewrite H2. cbn [Z.eqb Pos.eqb verify mbind result_bind].
  set (x := if txg =? 0 then _ else txg). change (tx_sync_txg_waiting (mutex_enter (UT t) s)) with (tx_sync_txg_waiting s).
  destruct (Z.ltb_spec (tx_sync_txg_waiting s) x).
  - apply wait_synced_loop_ok; auto; lia.
  - replace (mutex_enter (UT t) s) with (set_tx_sync_txg_waiting (mutex_enter (UT t) s) (tx_sync_txg_waiting s)) by (by destruct s).
    apply wait_synced_loop_ok; auto; lia.
Qed.

Lemma wait_open_ok s t txg :
  inv s -> t ∈ tids -> running s = true -> upc s t = UIdle -> slp s (UT t) = None -> tx_sync_lock s = None ->
  ok (txg_wait_open t txg (mutex_enter (UT t) s)).
Proof using Hnd.
  intros [Hc Hl Ho Hu Ht Hb Hs] Hin Hr Hp Hz Hn. unfold txg_wait_open. 
  assert (tx_threads s = 2) as H2.
  { pose proof (proj1 (proj2 (proj2 (proj2 Ht))) Hr) as (? & ? & _). by apply threads_two. }
  change (tx_threads (mutex_enter (UT t) s)) with (tx_threads s). rewrite H2. cbn [Z.eqb Pos.eqb verify mbind result_bind].
  set (x := if txg =? 0 then _ else txg). change (tx_quiesce_txg_waiting (mutex_enter (UT t) s)) with (tx_quiesce_txg_waiting s).
  pose proof (lock_none s Hl Hn) as Hnl. apply ok_ret. intros _.
  assert (spc s <> SPrompt) as Hnp by (intros Hx; apply (Hnl ST); cbn; by rewrite Hx).
  assert (forall u, upc s u <> UKick) as Hnk by (intros u Hx; apply (Hnl (UT u)); cbn; by rewrite Hx).
  destruct (Z.ltb_spec (tx_quiesce_txg_waiting s) x) as [Hlt|Hge]; move_tac t.
  - eapply sleep_ask; try done; [cbn; by rewrite Hz|cbn; lia|..|cbn; lia|by left|by right].
    intros Hq Hv. cbn in Hv. pose proof (proj1 Hs _ Hv) as H1. unfold q_sleep_ok in *. cbn in *. rewrite Hq in *.
    destruct H1 as (? & ? & _). split_and!; [done..|]. right. right. exists t. by rewrite upd_eq.
  - eapply sleep_move; try done; [by rewrite Hp|cbn; by rewrite Hz].
Qed.

Lemma wait_open_loop_ok s t txg :
  inv s -> t ∈ tids -> upc s t = UOpenCheck txg \/ upc s t = UWaitOpen txg /\ tx_sync_lock s = None -> slp s (UT t) = None ->
  ok (Ret (txg_wait_open_loop t txg (mutex_enter (UT t) s))).
Proof using Hnd.
  intros [Hc Hl Ho Hu Ht Hb Hs] Hin Hp Hz. unfold txg_wait_open_loop. apply ok_ret. intros _. cbn [tx_open_txg mutex_enter set_tx_sync_lock].
  assert (tx_sync_lock s = None \/ tx_sync_lock s = Some (UT t)) as Hn.
  { destruct Hp as [Hp|[_ ?]]; [|by left]. right. apply Hl. cbn. by rewrite Hp. }
  assert (running s = true) as Hr by (destruct Hp as [Hp|[Hp _]]; by apply (place_running s t); rewrite ?Hp).
  pose proof (proj1 (proj2 (proj2 (proj2 Hs))) t) as Hask.
  destruct (Z.ltb_spec (tx_open_txg s) txg) as [Hlt|Hge].
  all: destruct Hp as [Hp|[Hp Hn']]; [assert (tx_sync_lock s = Some (UT t)) as Hn' by (apply Hl; cbn; by rewrite Hp)|]; move_tac t.
  all: rewrite Hp in Hask; eapply sleep_ask; try done; rewrite ?Hz; try (by left).
  all: try (intros x v Hx Hv; slept Hv; (congruence || done)).
  all: try (intros v Hv; slept Hv; try done; injection Hv as <-; cbn; by auto).
  all: try (intros Hq Hv; slept Hv; done).
  all: try (cbn; by rewrite Hz).
  all: intros Hq Hv; cbn in Hv; pose proof (proj1 Hs _ Hv) as H1; unfold q_sleep_ok in *; cbn; rewrite Hq in *.
  all: destruct H1 as (? & ? & [?|[?|[u Hu']]]); split_and!; auto.
  all: destruct (decide (u = t)) as [->|]; [left|right; right; exists u; by rewrite upd_ne].
  all: rewrite Hp in Hu'; simplify_eq; lia.
Qed.

Lemma kick_ok s t :
  inv s -> t ∈ tids -> running s = true -> upc s t = UIdle -> slp s (UT t) = None -> tx_sync_lock s = None ->
  ok (txg_kick t (mutex_enter (UT t) s)).
Proof using Hnd.
  intros [Hc Hl Ho Hu Ht Hb Hs] Hin Hr Hp Hz Hn. unfold txg_kick, txg_is_syncing, txg_is_quiescing, mutex_held.
  rewrite !bool_decide_eq_true_2 by done. cbn [verify mbind result_bind]. pose proof (lock_none s Hl Hn) as Hnl. cbn. destruct (_ && _) eqn:Hk.
  - bool_to_prop. apply ok_ret. intros _. move_tac t. eapply sleep_move; try done; [by rewrite Hp|cbn; by rewrite Hz].
  - apply ok_ret. intros _. constructor; try assumption. by apply lock_none_ok.
Qed.

Lemma kick_set_ok s t :
  inv s -> t ∈ tids -> upc s t = UKick -> slp s (UT t) = None -> ok (Ret (txg_kick_set t s)).
Proof using Hnd.
  intros [Hc Hl Ho Hu Ht Hb Hs] Hin Hp Hz. unfold txg_kick_set. rewrite add64_open by apply Hc. apply ok_ret. intros _.
  assert (tx_sync_lock s = Some (UT t)) as Hn by (apply Hl; cbn; by rewrite Hp).
  assert (running s = true) as Hr by (by apply (place_running s t); rewrite ?Hp).
  pose proof (proj1 (proj2 (proj2 (proj2 Hs))) t) as Hask. rewrite Hp in Hask. cbn in Hask. move_tac t.
  eapply sleep_ask; try done; try (by left).
  - intros x v Hx Hv. by slept Hv.
  - intros v Hv. slept Hv. congruence.
  - intros Hq Hv. by slept Hv.
  - cbn. lia.
  - right. split.
    + intros Hx. assert (tx_sync_lock s = Some ST) by (apply Hl; cbn; by rewrite Hx). congruence.
    + intros u Hu' Hx. assert (tx_sync_lock s = Some (UT u)) by (apply Hl; cbn; by rewrite Hx). congruence.
Qed.

(** ** Starting and stopping *)

Lemma start_ok s t :
  inv s -> t ∈ tids -> running s = false -> (forall u, u ∈ tids -> upc s u = UIdle) -> slp s (UT t) = None -> tx_sync_lock s = None ->
  ok (txg_sync_start t (mutex_enter (UT t) s)).
Proof using Hnd.
  intros [Hc Hl Ho Hu Ht Hb Hs] Hin Hr Hidle Hz Hn. unfold txg_sync_start.
  pose proof (idle_all s Hu Hidle) as Hall.
  pose proof Ht as (_ & _ & H3 & _ & _ & H6 & _). destruct (H6 Hr Hall) as (Hq & Hsa & Hx). rewrite Hq, Hsa in H3. cbn.
  rewrite H3. cbn. apply ok_ret. intros _.
  assert (qpc s = QNone) as Hqn by (by unfold q_alive in Hq; destruct (qpc s)).
  assert (spc s = SNone) as Hsn by (by unfold s_alive in Hsa; destruct (spc s)).
  pose proof (lock_none s Hl Hn) as Hnl. inv_tac.
Qed.

(** The thread that stops the pool is alone. *)
Lemma threads_alone s t :
  (forall u, u <> t -> upc s u = UIdle) -> stop_place (upc s t) = true -> stop_ok s (upc s t) -> running s = false ->
  tx_quiesce_thread s = q_alive s -> tx_sync_thread s = s_alive s ->
  tx_threads s = (if q_alive s then 1 else 0) + (if s_alive s then 1 else 0) -> threads_ok s.
Proof using.
  intros Ho Hsp Hok Hr H1 H2 H3. split_and!; try done; try congruence.
  - intros _ u. destruct (decide (u = t)) as [->|Hne]; [by right|left; auto].
  - intros _ Hall. by rewrite Hall in Hsp.
  - intros u v Hu Hne. destruct (decide (u = t)) as [->|Hne']; [auto|]. by rewrite (Ho u Hne') in Hu.
  - intros u. destruct (decide (u = t)) as [->|Hne']; [done|]. by rewrite (Ho u Hne').
Qed.

(** Others are idle. *)
Lemma stop_others s t : threads_ok s -> stop_place (upc s t) = true -> running s = false /\ forall u, u <> t -> upc s u = UIdle.
Proof using.
  intros (_ & _ & _ & H4 & _ & _ & H7 & _) Hsp. split; [|intros u; by apply H7].
  destruct (running s) eqn:Hr; [|done]. destruct (H4 eq_refl) as (_ & _ & _ & Hd). by rewrite Hd in Hsp.
Qed.

Lemma stop_call_ok s t :
  inv s -> t ∈ tids -> running s = true -> (forall u, u ∈ tids -> upc s u = UIdle) -> slp s (UT t) = None ->
  ok (txg_sync_stop t s).
Proof using Hnd.
  intros [Hc Hl Ho Hu Ht Hb Hs] Hin Hr Hidle Hz. unfold txg_sync_stop.
  pose proof (idle_all s Hu Hidle) as Hall.
  pose proof Ht as (H1 & H2 & H3 & H4 & _). destruct (H4 Hr) as (Hq & Hsa & Hx & _). rewrite (threads_two s Ht Hq Hsa). cbn.
  apply ok_ret. intros _. pose proof (Hall t) as Hp. constructor; try assumption.
  - u_lock_tac t.
  - u_open_tac t.
  - by eapply free_users; try done; rewrite Hp.
  - apply (threads_alone _ t); cbn; rewrite ?upd_eq; try done. intros u Hne. by rewrite upd_ne.
  - eapply sleep_move; try done; [by rewrite Hp|cbn; by rewrite Hz].
Qed.

Lemma stop_loop_ok s t :
  inv s -> t ∈ tids -> upc s t = UStopping -> slp s (UT t) = None -> tx_sync_lock s = None ->
  ok (Ret (txg_sync_stop_loop t (mutex_enter (UT t) s))).
Proof using Hnd.
  intros [Hc Hl Ho Hu Ht Hb Hs] Hin Hp Hz Hn. unfold txg_sync_stop_loop. apply ok_ret. intros _. cbn [tx_threads mutex_enter set_tx_sync_lock].
  assert (free (upc s t) = true) as Hf by (by rewrite Hp).
  destruct (stop_others s t Ht) as [Hr Hothers]; [by rewrite Hp|]. pose proof Ht as (H1 & H2 & H3 & _).
  destruct (Z.eqb_spec (tx_threads s) 0) as [H0|H0]; cbn [negb].
  - assert (qpc s = QNone /\ spc s = SNone) as [Hq Hsp].
    { unfold q_alive, s_alive in H3. destruct (qpc s), (spc s); done || lia. }
    free_tac t.
    + assert (forall u, upd (upc s) t UIdle u = UIdle) as Hall by (intros u; at_place t; auto).
      unfold q_alive, s_alive in *. rewrite Hq, Hsp in *. unfold threads_ok, q_alive, s_alive. cbn. rewrite Hq, Hsp, Hr.
      split_and!; try done; try (by left); intros u; rewrite !Hall; done || by auto.
    + assert (forall u, upd (upc s) t UIdle u = UIdle) as Hall by (intros u; at_place t; auto).
      destruct Hs as (S1 & S2 & S3 & S4 & S5). split_and!.
      * intros v Hv. specialize (S1 v Hv). unfold q_sleep_ok in S1. by rewrite Hq in S1.
      * intros v Hv. specialize (S2 v Hv). unfold s_sleep_ok in S2. rewrite Hsp in S2. tauto.
      * intros u v Hv. destruct (decide (u = t)) as [->|Hne]; [cbn in Hv; congruence|].
        specialize (S3 u v Hv). by rewrite (Hothers u Hne) in S3.
      * intros u. cbn. by rewrite Hall.
      * intros Hx. cbn in Hx. congruence.
  - free_tac t.
    + eapply threads_stop; try done; try (by rewrite Hp). pose proof (proj2 (proj2 (proj2 (proj2 (proj2 (proj2 (proj2 Ht)))))) t) as H8.
      by rewrite Hp in H8.
    + eapply sleep_move; try done; [by rewrite Hp|..].
      * intros x v Hx Hv. slept Hv; [congruence|done].
      * intros v Hv. slept Hv; [|done]. injection Hv as <-. by split.
Qed.

Lemma stop_exit_ok s t :
  inv s -> t ∈ tids -> upc s t = UStop -> slp s (UT t) = None -> tx_sync_lock s = None ->
  ok (txg_sync_stop_exit t (mutex_enter (UT t) s)).
Proof using Hnd.
  intros [Hc Hl Ho Hu Ht Hb Hs] Hin Hp Hz Hn. unfold txg_sync_stop_exit.
  destruct (stop_others s t Ht) as [Hr Hothers]; [by rewrite Hp|]. pose proof Ht as (H1 & H2 & H3 & _ & _ & _ & _ & H8).
  specialize (H8 t). rewrite Hp in H8. destruct H8 as (Hq & Hsa & _).
  change (tx_threads (mutex_enter (UT t) s)) with (tx_threads s).
  rewrite (threads_two s Ht Hq Hsa). cbn [Z.eqb Pos.eqb verify mbind result_bind]. unfold txg_sync_stop_loop.
  cbn [tx_threads cv_broadcast set_slp set_tx_exiting mutex_enter set_tx_sync_lock]. rewrite (threads_two s Ht Hq Hsa). cbn [Z.eqb negb].
  apply ok_ret. intros _. assert (free (upc s t) = true) as Hf by (by rewrite Hp). pose proof (lock_none s Hl Hn) as Hnl. free_tac t.
  - apply (threads_alone _ t); cbn; rewrite ?upd_eq; try done. intros u Hne. rewrite upd_ne by done. auto.
  - destruct Hs as (S1 & S2 & S3 & S4 & S5). split_and!.
    + intros v Hv. slept Hv; try done. specialize (S1 v Hv). unfold q_sleep_ok in *. cbn. destruct (qpc s); try done; intuition.
    + intros v Hv. slept Hv; try done. specialize (S2 v Hv). unfold s_sleep_ok in *. destruct (spc s); intuition.
    + intros u v Hv. cbn [upc set_place set_upc]. at_place t.
      * slept Hv; [|done]. injection Hv as <-. cbn. rewrite (threads_two s Ht Hq Hsa). by split.
      * slept Hv; [congruence|]. specialize (S3 u v Hv). by rewrite (Hothers u) in S3.
    + intros u. cbn. at_place t; [done|]. by rewrite (Hothers u).
    + intros Hx. cbn in Hx. destruct (Hnl ST). cbn. by rewrite Hx.
Qed.

(** ** Any step *)

Lemma user_step_ok s t a r :
  inv s -> t ∈ tids -> allowed max_ncpus tids s t a -> user_step t a s = Some r -> ok r.
Proof using Hnd.
  intros Hi Hin Ha. unfold user_step, locked. case_decide as Hz; [|done].
  destruct (upc s t) as [|c x|c x|c x d|c x|b x|x|x| |x| |] eqn:Hp, a; try done.
  all: try (destruct (tx_sync_lock s) eqn:Hn; [done|]). 
  all: try (intros [= <-]); cbn in Ha.
  - destruct Ha. by apply hold_open_lock_ok.
  - destruct Ha. apply wait_synced_ok; try done. by rewrite Hp.
  - destruct Ha. by apply wait_open_ok.
  - by apply kick_ok.
  - destruct Ha. by apply start_ok.
  - destruct Ha. by apply stop_call_ok.
  - by apply hold_open_ok.
  - by apply delay_call_ok.
  - by apply rele_to_quiesce_ok.
  - by apply delay_ok.
  - by apply register_ok.
  - by apply rele_to_sync_ok.
  - replace (mutex_enter (UT t) s) with (set_tx_sync_txg_waiting (mutex_enter (UT t) s) (tx_sync_txg_waiting s)) by (by destruct s).
    pose proof (proj1 (proj2 (proj2 (proj2 (i_sleep _ _ _ Hi)))) t) as Hask. rewrite Hp in Hask.
    apply wait_synced_loop_ok; auto; [by rewrite Hp|lia].
  - assert (tx_sync_lock s = Some (UT t)) as Hn by (apply (i_sync_lock _ _ _ Hi); cbn; by rewrite Hp).
    replace (txg_wait_open_loop t x s) with (txg_wait_open_loop t x (mutex_enter (UT t) s)) by (f_equal; destruct s; cbn in *; by subst).
    apply wait_open_loop_ok; auto.
  - apply wait_open_loop_ok; auto.
  - by apply kick_set_ok.
  - apply wait_synced_ok; try done. by rewrite Hp.
  - by apply stop_exit_ok.
  - by apply stop_loop_ok.
Qed.

Lemma task_ok s k s' : inv s -> txg_do_callbacks k s = Some s' -> inv s'.
Proof using.
  intros [Hc Hl Ho Hu Ht Hb Hs]. unfold txg_do_callbacks. destruct (tx_commit_cb_taskq s) as [tasks|] eqn:Hq; [|done]. cbn.
  destruct (tasks !! k) as [cbs|] eqn:Hk; [|done]. cbn. intros [= <-]. constructor; try assumption.
  assert (concat tasks ≡ₚ cbs ++ concat (delete k tasks)) as Hperm.
  { rewrite <- (take_drop_middle _ _ _ Hk) at 1. rewrite delete_take_drop, !concat_app. cbn. solve_Permutation. }
  destruct Hb as (H1 & H2 & H3). unfold dispatched in *. rewrite Hq in *. cbn in *.
  split_and!; [done| |]; unfold dispatched; cbn.
  - eapply Forall_Permutation; [..|exact H2]; [done|]. rewrite Hperm. solve_Permutation.
  - rewrite H3, Hperm. change (waiting max_ncpus (set_called _ _)) with (waiting max_ncpus s). solve_Permutation.
Qed.

Lemma wakeup_ok s x : inv s -> inv (wakeup x s).
Proof using.
  intros [Hc Hl Ho Hu Ht Hb Hs]. constructor; try assumption. destruct Hs as (S1 & S2 & S3 & S4 & S5).
  split_and!; [intros v Hv; slept Hv; [done|]; by apply S1|intros v Hv; slept Hv; [done|]; by apply S2| |done..].
  intros t v Hv. slept Hv; [done|]. by apply S3.
Qed.

Lemma init_inv txg : 0 < txg < TXG_LIMIT -> inv (txg_init txg).
Proof using.
  intros Ht. constructor.
  - unfold TxgInv.chain, chain_q, chain_s, oldest, front. cbn. lia.
  - intros [| |t]; cbn; intuition congruence.
  - intros c [| |t]; cbn; intuition congruence.
  - split_and!; [done..|]. intros c g. cbn. unfold holders. generalize tids as k. induction k as [|u k IH]; [done|]. rewrite total_cons, <- IH. done.
  - split_and!; try done. by left.
  - split_and!; [constructor|constructor|]. cbn. rewrite app_nil_r. unfold waiting. cbn. generalize (seq 0 max_ncpus) as k.
    induction k as [|u k IH]; [done|]. exact IH.
  - split_and!; done.
Qed.

End users.
