(* ===== verification/TxgLive.v ===== *)
(** * Transaction groups: waiting ends

    Runs in which the threads of the pool do their work, threads that hold a
    txg release it, and nobody wakes up for no reason. *)

From stdpp Require Import functions relations.
From S2P Require Import Prelude TxgData Txg TxgInv TxgFrame TxgSteps TxgUsers.

Section live.
Context (max_ncpus : nat) (tids : list tid) (Hnd : NoDup tids).
Notation inv := (inv max_ncpus tids).

(** A thread that is in a function of the module goes on in it, and one that
    holds a txg releases it. *)
Definition finishing (a : action) : Prop :=
  match a with Continue _ | ReleToQuiesce | ReleToSync => True | _ => False end.

(** Steps towards the end; a delay ends at its time. *)
Inductive drive : sys -> sys -> Prop :=
| DriveQuiesce s s' : txg_quiesce_thread max_ncpus s = Some (Ret s') -> drive s s'
| DriveSync idle s s' : txg_sync_thread max_ncpus idle s = Some (Ret s') -> drive s s'
| DriveUser t a s s' : t ∈ tids -> finishing a -> user_step t a s = Some (Ret s') -> drive s s'
| DriveTimer t c txg s : upc s t = UDelay c txg DLoop -> drive s (wakeup (UT t) s).

Lemma drive_step s s' : drive s s' -> step max_ncpus tids s (Ret s').
Proof using.
  destruct 1 as [s s' H|idle s s' H|t a s s' Ht Hf H|t c txg s H].
  - by apply StepQuiesce.
  - by eapply StepSync.
  - eapply StepUser; [done| |done]. by destruct a.
  - apply StepWake.
Qed.

Lemma drive_inv s s' : inv s -> drive s s' -> tx_open_txg s' < TXG_LIMIT -> inv s'.
Proof using Hnd.
  intros Hi Hd Ho. destruct Hd as [s s' H|idle s s' H|t a s s' Ht Hf H|t c txg s H].
  - destruct (quiesce_ok s _ Hi H) as (s1 & [= <-] & Hs). auto.
  - destruct (sync_ok idle s _ Hi H) as (s1 & [= <-] & Hs). auto.
  - destruct (user_step_ok Hnd s t a _ Hi Ht ltac:(by destruct a) H) as (s1 & [= <-] & Hs). auto.
  - by apply wakeup_ok.
Qed.

(** ** Ranks: how far each thread is from having done its part *)

Definition urank (p : user_place) (o : option cv) : Z :=
  match p with
  | UEnter _ _ => 3
  | UHeld _ _ => 2
  | UDelay _ _ DSyncing => 6
  | UDelay _ _ DSynced => 5
  | UDelay _ _ DLock => 4
  | UDelay _ _ DLoop => match o with Some _ => 4 | None => 3 end
  | UAssigned _ _ | UOpenCheck _ | UKick => 1
  | _ => 0
  end.
Definition uranks (s : sys) : Z := total tids (fun t => urank (upc s t) (slp s (UT t))).
Definition qrank (p : quiesce_place) : Z :=
  match p with
  | QLock _ c => 3 * Z.of_nat max_ncpus + 3 - Z.of_nat c
  | QUnlock _ c => 2 * Z.of_nat max_ncpus + 2 - Z.of_nat c
  | QDrain _ c => Z.of_nat max_ncpus + 1 - Z.of_nat c
  | QNone | QWait => 0
  end.
Definition srank (p : sync_place) (o : option cv) : Z :=
  match p with
  | SDispatch _ c => Z.of_nat max_ncpus + 4 - Z.of_nat c
  | SWait1 | SWait2 => match o with Some _ => 1 | None => 3 end
  | SPrompt => 2
  | SNone | SSync _ => 0
  end.
Definition rank (s : sys) : Z := uranks s + qrank (qpc s) + srank (spc s) (slp s ST).
Definition rank_bound : Z := 6 * Z.of_nat (length tids) + 4 * Z.of_nat max_ncpus + 8.

Lemma rank_lt s : inv s -> 0 <= rank s < rank_bound.
Proof using.
  intros Hi. assert (0 <= uranks s <= 6 * Z.of_nat (length tids)) as Hu.
  { unfold uranks. generalize tids as k. induction k as [|t k IH]; [done|]. rewrite total_cons. cbn [length].
    assert (0 <= urank (upc s t) (slp s (UT t)) <= 6) by (destruct (upc s t) as [| | |? ? []| | | | | | | |], (slp s (UT t)); cbn; lia). lia. }
  pose proof (proj1 (proj2 (proj2 (i_chain _ _ _ Hi)))) as Hq. pose proof (proj1 (proj2 (proj2 (proj2 (i_chain _ _ _ Hi))))) as Hs.
  unfold rank, rank_bound. revert Hq Hs. unfold chain_q, chain_s. destruct (qpc s), (spc s), (slp s ST); cbn; lia.
Qed.

(** ** Steps that only bring threads nearer to the end *)

Definition alive (s : sys) : Prop := q_alive s = true /\ s_alive s = true /\ tx_exiting s = false.

(** The txgs are where they were, and who holds nothing has not moved. *)
Definition still (s s' : sys) : Prop :=
  tx_open_txg s' = tx_open_txg s /\ tx_quiescing_txg s' = tx_quiescing_txg s /\ tx_quiesced_txg s' = tx_quiesced_txg s /\
  tx_syncing_txg s' = tx_syncing_txg s /\ tx_synced_txg s' = tx_synced_txg s.
Definition kept (s s' : sys) : Prop :=
  tx_sync_txg_waiting s <= tx_sync_txg_waiting s' /\ tx_quiesce_txg_waiting s <= tx_quiesce_txg_waiting s' /\
  alive s' /\ (forall u, free (upc s u) = true -> upc s' u = upc s u).
Definition calmer (s s' : sys) : Prop := still s s' /\ kept s s' /\ rank s' < rank s.

(** A thread gets nearer, and others may wake up. *)
Lemma uranks_lt s s' t :
  t ∈ tids -> (forall u, u <> t -> upc s' u = upc s u) -> (forall u v, u <> t -> slp s' (UT u) = Some v -> slp s (UT u) = Some v) ->
  urank (upc s' t) (slp s' (UT t)) < urank (upc s t) (slp s (UT t)) -> uranks s' < uranks s.
Proof using.
  intros Ht Hp Hs Hlt. apply (total_lt _ _ _ t); [|done|done]. intros u. destruct (decide (u = t)) as [->|Hne]; [lia|].
  rewrite (Hp u Hne). destruct (slp s' (UT u)) as [v|] eqn:Hv; [by rewrite (Hs u v Hne Hv)|].
  destruct (upc s u) as [| | |? ? []| | | | | | | |], (slp s (UT u)); cbn; lia.
Qed.

Lemma uranks_le s s' :
  (forall u, upc s' u = upc s u) -> (forall u v, slp s' (UT u) = Some v -> slp s (UT u) = Some v) -> uranks s' <= uranks s.
Proof using.
  intros Hp Hs. apply total_le. intros u. rewrite (Hp u). destruct (slp s' (UT u)) as [v|] eqn:Hv; [by rewrite (Hs u v Hv)|].
  destruct (upc s u) as [| | |? ? []| | | | | | | |], (slp s (UT u)); cbn; lia.
Qed.

(** A user gets nearer; the threads of the pool do not move. *)
Lemma user_calmer s s' t :
  alive s -> t ∈ tids -> free (upc s t) = false -> still s s' ->
  (forall u, u <> t -> upc s' u = upc s u) -> (forall u v, u <> t -> slp s' (UT u) = Some v -> slp s (UT u) = Some v) ->
  urank (upc s' t) (slp s' (UT t)) < urank (upc s t) (slp s (UT t)) ->
  qpc s' = qpc s -> spc s' = spc s -> slp s' ST = slp s ST -> tx_exiting s' = tx_exiting s ->
  tx_sync_txg_waiting s <= tx_sync_txg_waiting s' -> tx_quiesce_txg_waiting s <= tx_quiesce_txg_waiting s' -> calmer s s'.
Proof using.
  intros (Ha1 & Ha2 & Ha3) Ht Hf Hst Hp Hs Hlt Eq Es El Ex Hsw Hqw.
  refine (conj Hst (conj (conj Hsw (conj Hqw (conj _ _))) _)).
  - unfold alive, q_alive, s_alive. by rewrite Eq, Es, Ex.
  - intros u Hu. apply Hp. intros ->. congruence.
  - pose proof (uranks_lt s s' t Ht Hp Hs Hlt). unfold rank. rewrite Eq, Es, El. lia.
Qed.

Ltac calm_tac t :=
  repeat match goal with
  | |- forall u, u <> t -> upc _ u = _ => intros ? ?; cbn; by rewrite upd_ne
  | |- forall u v, u <> t -> _ => let Hv := fresh in intros ? ? ? Hv; slept Hv; (congruence || done)
  | |- urank _ _ < _ => cbn; rewrite ?upd_eq; places; cbn; try lia
  | |- slp _ ST = _ =>
      cbn; rewrite ?fn_lookup_insert_ne by done; cbn; try case_decide; first [done | exfalso; naive_solver]
  end.

(** A holder of the lock of the pool. *)
Lemma drive_holder s t :
  inv s -> alive s -> tx_sync_lock s = Some (UT t) -> exists s', drive s s' /\ calmer s s'.
Proof using Hnd.
  intros Hi Ha Hl. pose proof (proj1 (i_sync_lock _ _ _ Hi (UT t)) Hl) as Hh. cbn in Hh.
  assert (t ∈ tids) as Hin by (apply (proj1 (i_users _ _ _ Hi)); by intros Hx; rewrite Hx in Hh).
  pose proof (i_sleep _ _ _ Hi) as (_ & S2 & S3 & S4 & _). specialize (S4 t).
  assert (slp s (UT t) = None) as Hz.
  { destruct (slp s (UT t)) as [v|] eqn:Hv; [|done]. specialize (S3 t v Hv). by destruct (upc s t). }
  assert (forall v, slp s ST = Some v -> v <> tx_quiesce_more_cv) as Hst.
  { intros v Hv ->. specialize (S2 _ Hv). unfold s_sleep_ok in S2. destruct (spc s); naive_solver. }
  destruct (upc s t) as [| | | | | |x| | | | |] eqn:Hp; try done.
  - exists (txg_wait_open_loop t x s). split; [eapply (DriveUser t (Continue false)); try done; unfold user_step; by rewrite Hz, Hp|].
    unfold txg_wait_open_loop. destruct (_ <? _); eapply (user_calmer _ _ t); try done; try (by rewrite Hp); calm_tac t.
  - exists (txg_kick_set t s). split; [eapply (DriveUser t (Continue false)); try done; unfold user_step; by rewrite Hz, Hp|].
    eapply (user_calmer _ _ t); try done; try (by rewrite Hp); calm_tac t.
    cbn. rewrite add64_open by apply Hi. cbn in S4. lia.
Qed.

(** The sync thread takes the txg that was quiesced. *)
Definition consumed (s s' : sys) : Prop :=
  tx_quiesced_txg s <> 0 /\ tx_open_txg s' = tx_open_txg s /\ tx_quiescing_txg s' = tx_quiescing_txg s /\
  tx_quiesced_txg s' = 0 /\ tx_syncing_txg s' = tx_quiesced_txg s /\ tx_synced_txg s' = tx_synced_txg s /\ kept s s'.

(** The sync thread moves. *)
Lemma sync_calmer s s' :
  alive s -> still s s' -> (forall u, upc s' u = upc s u) -> (forall u v, slp s' (UT u) = Some v -> slp s (UT u) = Some v) ->
  qpc s' = qpc s -> srank (spc s') (slp s' ST) < srank (spc s) (slp s ST) -> s_alive s' = true ->
  tx_exiting s' = tx_exiting s -> tx_sync_txg_waiting s' = tx_sync_txg_waiting s ->
  tx_quiesce_txg_waiting s <= tx_quiesce_txg_waiting s' -> calmer s s'.
Proof using.
  intros (Ha1 & Ha2 & Ha3) Hst Hp Hs Eq Hr Hal Ex Hsw Hqw.
  refine (conj Hst (conj (conj _ (conj Hqw (conj _ _))) _)).
  - lia.
  - unfold alive, q_alive. by rewrite Eq, Ex.
  - intros u _. apply Hp.
  - pose proof (uranks_le s s' Hp Hs). unfold rank. rewrite Eq. lia.
Qed.

Lemma drive_loop2 s s0 :
  inv s -> alive s -> 3 <= srank (spc s) (slp s ST) -> s0 = mutex_enter ST s ->
  exists s', txg_sync_loop2 s0 = Ret s' /\ (calmer s s' \/ consumed s s').
Proof using.
  intros Hi Ha Hr ->. unfold txg_sync_loop2, txg_has_quiesced_to_sync, mutex_held.
  rewrite bool_decide_eq_true_2 by done. cbn. destruct Ha as (Ha1 & Ha2 & Ha3). rewrite Ha3. cbn.
  rewrite add64_open by apply Hi. destruct (Z.eqb_spec (tx_quiesced_txg s) 0) as [Hd|Hd]; cbn.
  - destruct (Z.ltb_spec (tx_quiesce_txg_waiting s) (tx_open_txg s + 1)); eexists; (split; [done|]); left.
    + apply sync_calmer; try done. change (2 < srank (spc s) (slp s ST)). lia.
    + apply sync_calmer; try done.
      * intros u v Hv. slept Hv; done.
      * change (1 < srank (spc s) (slp s ST)). lia.
  - eexists. split; [done|]. right. split_and!; try done; cbn; lia.
Qed.

(** The sync thread, when it is not in [spa_sync], can move. *)
Lemma drive_sync s :
  inv s -> alive s -> tx_syncing_txg s = 0 -> slp s ST = None -> tx_sync_lock s = None \/ tx_sync_lock s = Some ST ->
  exists s', drive s s' /\ (calmer s s' \/ consumed s s').
Proof using.
  intros Hi Ha Hy Hz Hl. pose proof (i_sync_lock _ _ _ Hi ST) as Hh. cbn in Hh.
  pose proof (i_chain _ _ _ Hi) as (Hop & _ & _ & Hcs & _). unfold chain_s in Hcs.
  destruct (spc s) as [| | | |txg|txg c] eqn:Hp.
  - destruct Ha as (_ & Ha & _). unfold s_alive in Ha. by rewrite Hp in Ha.
  - assert (tx_sync_lock s = None) as Hn by (destruct Hl as [?|Hx]; [done|by apply Hh in Hx]).
    destruct (drive_loop2 s _ Hi Ha ltac:(rewrite Hp, Hz; done) eq_refl) as (s' & He & Hc). exists s'. split; [|done].
    apply (DriveSync false). unfold txg_sync_thread, locked. rewrite Hz, Hp, Hn. cbn. by rewrite <- He.
  - assert (tx_sync_lock s = None) as Hn by (destruct Hl as [?|Hx]; [done|by apply Hh in Hx]).
    destruct (drive_loop2 s _ Hi Ha ltac:(rewrite Hp, Hz; done) eq_refl) as (s' & He & Hc). exists s'. split; [|done].
    apply (DriveSync false). unfold txg_sync_thread, locked. rewrite Hz, Hp, Hn. by rewrite <- He.
  - eexists. split; [apply (DriveSync false); unfold txg_sync_thread; by rewrite Hz, Hp|]. left. apply sync_calmer; try done.
    + intros u v Hv. slept Hv; done.
    + by rewrite Hp.
    + pose proof (i_sleep _ _ _ Hi) as (_ & _ & _ & _ & Hpr). destruct (Hpr Hp). cbn. rewrite add64_open by done. lia.
  - lia.
  - assert (tx_sync_lock s = Some ST) as Hown by (by apply Hh). destruct (Nat.ltb_spec c max_ncpus) as [Hlt|Hge].
    + eexists. split; [apply (DriveSync false); unfold txg_sync_thread; rewrite Hz, Hp, (proj2 (Nat.ltb_lt _ _) Hlt); done|]. left.
      unfold txg_dispatch_callbacks. destruct (tc_callbacks (tx_cpu s c) (txg_slot txg)); apply sync_calmer; try done; rewrite Hp; cbn; lia.
    + destruct (drive_loop2 s s Hi Ha) as (s' & He & Hc); [rewrite Hp; cbn; lia|destruct s; cbn in *; by subst|].
      exists s'. split; [|done]. apply (DriveSync false). unfold txg_sync_thread. rewrite Hz, Hp, (proj2 (Nat.ltb_ge _ _) Hge). by rewrite <- He.
Qed.

(** [spa_sync] is done. *)
Definition synced (s s' : sys) : Prop :=
  tx_open_txg s' = tx_open_txg s /\ tx_quiescing_txg s' = tx_quiescing_txg s /\
  tx_quiesced_txg s' = tx_quiesced_txg s /\ tx_syncing_txg s' = 0 /\ tx_synced_txg s' = tx_syncing_txg s /\ kept s s'.

Lemma drive_synced s :
  inv s -> alive s -> tx_syncing_txg s <> 0 -> tx_sync_lock s = None -> exists s', drive s s' /\ synced s s'.
Proof using.
  intros Hi Ha Hy Hn. pose proof (i_chain _ _ _ Hi) as (Hop & _ & _ & Hcs & _). unfold chain_s in Hcs.
  destruct (spc s) as [| | | |txg|txg c] eqn:Hp; try lia. destruct Hcs as (<- & _).
  assert (slp s ST = None) as Hz.
  { destruct (slp s ST) as [v|] eqn:Hv; [|done]. pose proof (proj1 (proj2 (i_sleep _ _ _ Hi)) v Hv) as H. unfold s_sleep_ok in H. rewrite Hp in H. tauto. }
  eexists. split; [apply (DriveSync false); unfold txg_sync_thread, locked; by rewrite Hz, Hp, Hn|].
  destruct Ha as (Ha1 & Ha2 & Ha3). split_and!; try done; cbn; lia.
Qed.

(** Who holds a txg. *)
Definition holding (p : user_place) : bool :=
  match p with UEnter _ _ | UHeld _ _ | UDelay _ _ _ | UAssigned _ _ => true | _ => false end.

Lemma drive_holding s t :
  inv s -> alive s -> tx_sync_lock s = None -> holding (upc s t) = true -> exists s', drive s s' /\ calmer s s'.
Proof using Hnd.
  intros Hi Ha Hn Hh.
  assert (t ∈ tids) as Hin by (apply (proj1 (i_users _ _ _ Hi)); by intros Hx; rewrite Hx in Hh).
  pose proof (i_sleep _ _ _ Hi) as (_ & _ & S3 & _). specialize (S3 t).
  destruct (slp s (UT t)) as [v|] eqn:Hz.
  { specialize (S3 v eq_refl). destruct (upc s t) as [| | |c txg []| | | | | | | |] eqn:Hp; try done.
    exists (wakeup (UT t) s). split; [by eapply DriveTimer|]. eapply (user_calmer _ _ t); try done; try (by rewrite Hp); calm_tac t.
    rewrite fn_lookup_insert, Hz. lia. }
  destruct (upc s t) as [|c txg|c txg|c txg d|c txg| | | | | | |] eqn:Hp; try done.
  - eexists. split; [eapply (DriveUser t (Continue false)); try done; unfold user_step; by rewrite Hz, Hp|].
    eapply (user_calmer _ _ t); try done; try (by rewrite Hp); calm_tac t.
  - assert (tc_open_lock (tx_cpu s c) = Some (UT t)) as Hk by (apply (i_open_lock _ _ _ Hi); cbn; by rewrite Hp).
    eexists. split; [eapply (DriveUser t ReleToQuiesce); try done; unfold user_step, txg_rele_to_quiesce; rewrite Hz, Hp;
      by rewrite bool_decide_eq_true_2|].
    eapply (user_calmer _ _ t); try done; try (by rewrite Hp); calm_tac t.
  - destruct d.
    + eexists. split; [eapply (DriveUser t (Continue false)); try done; unfold user_step; by rewrite Hz, Hp|].
      destruct (_ =? _); eapply (user_calmer _ _ t); try done; try (by rewrite Hp); calm_tac t.
    + eexists. split; [eapply (DriveUser t (Continue false)); try done; unfold user_step; by rewrite Hz, Hp|].
      destruct (_ =? _); eapply (user_calmer _ _ t); try done; try (by rewrite Hp); calm_tac t.
    + exists (set_place (mutex_exit (mutex_enter (UT t) s)) t (UHeld c txg)). split.
      * eapply (DriveUser t (Continue false)); try done. unfold user_step, txg_delay, locked. rewrite Hz, Hp, Hn. cbn. by destruct (_ || _).
      * eapply (user_calmer _ _ t); try done; try (by rewrite Hp); calm_tac t.
    + exists (set_place (mutex_exit (mutex_enter (UT t) s)) t (UHeld c txg)). split.
      * eapply (DriveUser t (Continue false)); try done. unfold user_step, txg_delay, locked. by rewrite Hz, Hp, Hn.
      * eapply (user_calmer _ _ t); try done; try (by rewrite Hp); calm_tac t. rewrite Hz. lia.
  - assert (1 <= tc_count (tx_cpu s c) (txg_slot txg)) as Hk
      by (apply (counted_pos s t _ _ (i_users _ _ _ Hi)); rewrite Hp; cbn; by rewrite !Nat.eqb_refl).
    eexists. split; [eapply (DriveUser t ReleToSync); try done; unfold user_step, txg_rele_to_sync; rewrite Hz, Hp;
      destruct (Z.eqb_spec (tc_count (tx_cpu s c) (txg_slot txg)) 0); [lia|]; done|].
    assert (forall c g, slp s ST <> Some (tc_cv c g)) as Hst.
    { intros c' g Hv. pose proof (proj1 (proj2 (i_sleep _ _ _ Hi)) _ Hv) as S2. unfold s_sleep_ok in S2. destruct (spc s); naive_solver. }
    destruct (_ =? _); eapply (user_calmer _ _ t); try done; try (by rewrite Hp); calm_tac t.
Qed.

(** The quiesce thread takes the open txg, replaces it, hands it over. *)
Definition started (s s' : sys) : Prop :=
  tx_quiescing_txg s = 0 /\ tx_quiesced_txg s = 0 /\ tx_open_txg s' = tx_open_txg s /\ tx_quiescing_txg s' = tx_open_txg s /\
  tx_quiesced_txg s' = 0 /\ tx_syncing_txg s' = tx_syncing_txg s /\ tx_synced_txg s' = tx_synced_txg s /\ kept s s'.
Definition opened (s s' : sys) : Prop :=
  tx_quiescing_txg s = tx_open_txg s /\ tx_open_txg s' = tx_open_txg s + 1 /\ tx_quiescing_txg s' = tx_quiescing_txg s /\
  tx_quiesced_txg s' = tx_quiesced_txg s /\ tx_syncing_txg s' = tx_syncing_txg s /\ tx_synced_txg s' = tx_synced_txg s /\
  rank s' < rank s /\ kept s s'.
Definition handed (s s' : sys) : Prop :=
  tx_quiescing_txg s = tx_open_txg s - 1 /\ tx_open_txg s' = tx_open_txg s /\ tx_quiescing_txg s' = 0 /\
  tx_quiesced_txg s' = tx_quiescing_txg s /\ tx_syncing_txg s' = tx_syncing_txg s /\ tx_synced_txg s' = tx_synced_txg s /\ kept s s'.

Lemma quiesce_awake s : inv s -> tx_quiescing_txg s <> 0 ->
  (forall txg c, qpc s = QDrain txg c -> (c < max_ncpus)%nat -> tc_count (tx_cpu s c) (txg_slot txg) = 0) -> slp s QT = None.
Proof using.
  intros Hi Hq Hc. destruct (slp s QT) as [v|] eqn:Hv; [|done]. exfalso.
  pose proof (proj1 (i_sleep _ _ _ Hi) v Hv) as H. unfold q_sleep_ok in H.
  pose proof (i_chain _ _ _ Hi) as (_ & _ & Hcq & _). unfold chain_q in Hcq. destruct (qpc s) eqn:Hp; try done.
  destruct H as (_ & Hlt & Hne). by destruct Hne; eapply Hc.
Qed.

(** The quiesce thread moves. *)
Lemma quiesce_calmer s s' :
  alive s -> still s s' -> (forall u, upc s' u = upc s u) -> (forall x, slp s' x = slp s x) ->
  spc s' = spc s -> qrank (qpc s') < qrank (qpc s) -> q_alive s' = true ->
  tx_exiting s' = tx_exiting s -> tx_sync_txg_waiting s' = tx_sync_txg_waiting s ->
  tx_quiesce_txg_waiting s' = tx_quiesce_txg_waiting s -> calmer s s'.
Proof using.
  intros (Ha1 & Ha2 & Ha3) Hst Hp Hs Es Hr Hal Ex Hsw Hqw.
  refine (conj Hst (conj (conj _ (conj _ (conj _ _))) _)); [lia|lia|..].
  - unfold alive, s_alive. by rewrite Es, Ex.
  - intros u _. apply Hp.
  - assert (uranks s' <= uranks s) by (apply uranks_le; [done|intros u v; by rewrite Hs]). unfold rank. rewrite Es, Hs. lia.
Qed.

Lemma drive_quiesce s :
  inv s -> alive s -> tx_quiescing_txg s <> 0 -> tx_sync_lock s = None ->
  exists s', drive s s' /\ (calmer s s' \/ opened s s' \/ handed s s').
Proof using Hnd.
  intros Hi Ha Hq Hn. pose proof (i_chain _ _ _ Hi) as (Hop & _ & Hcq & _). unfold chain_q in Hcq.
  destruct (qpc s) as [| |txg c|txg c|txg c] eqn:Hp; try lia.
  - assert (slp s QT = None) as Hz by (apply quiesce_awake; [done..|congruence]).
    destruct (Nat.ltb_spec c max_ncpus) as [Hlt|Hge].
    + destruct (tc_open_lock (tx_cpu s c)) as [x|] eqn:Hk.
      * pose proof (proj1 (i_open_lock _ _ _ Hi c x) Hk) as Ho. destruct x as [| |t]; cbn in Ho; [rewrite Hp in Ho; lia|done|].
        destruct (drive_holding s t) as (s' & Hd & Hc); try done; [by destruct (upc s t)|eauto].
      * eexists. split; [apply DriveQuiesce; unfold txg_quiesce_thread, txg_quiesce_lock;
          rewrite Hz, Hp, (proj2 (Nat.ltb_lt _ _) Hlt), Hk; done|].
        left. apply quiesce_calmer; try done. rewrite Hp. cbn. lia.
    + destruct Hcq as (-> & ? & ? & ?). eexists. split; [apply DriveQuiesce; unfold txg_quiesce_thread, txg_quiesce_lock;
          rewrite Hz, Hp, (proj2 (Nat.ltb_ge _ _) Hge), Z.eqb_refl; done|].
      right. left. destruct Ha as (? & ? & ?). split_and!; try done; cbn; try lia; [by apply add64_open|].
      assert (uranks (set_qpc (set_tx_open_txg s (add64 (tx_open_txg s) 1)) (QUnlock (tx_open_txg s) 0)) <= uranks s) by (by apply uranks_le).
      unfold rank. cbn. rewrite Hp. cbn. unfold srank. lia.
  - assert (slp s QT = None) as Hz by (apply quiesce_awake; [done..|congruence]).
    destruct (Nat.ltb_spec c max_ncpus) as [Hlt|Hge].
    + assert (tc_open_lock (tx_cpu s c) = Some QT) as Hk by (apply (i_open_lock _ _ _ Hi); cbn; rewrite Hp; lia).
      eexists. split; [apply DriveQuiesce; unfold txg_quiesce_thread, txg_quiesce_unlock;
        rewrite Hz, Hp, (proj2 (Nat.ltb_lt _ _) Hlt), bool_decide_eq_true_2; done|].
      left. apply quiesce_calmer; try done. rewrite Hp. cbn. lia.
    + eexists. split; [apply DriveQuiesce; unfold txg_quiesce_thread, txg_quiesce_unlock;
        rewrite Hz, Hp, (proj2 (Nat.ltb_ge _ _) Hge); done|].
      left. apply quiesce_calmer; try done. rewrite Hp. cbn. lia.
  - destruct (decide ((c < max_ncpus)%nat /\ tc_count (tx_cpu s c) (txg_slot txg) <> 0)) as [[Hlt Hk]|Hno].
    + pose proof (proj2 (proj2 (i_users _ _ _ Hi)) c (txg_slot txg)) as Hc.
      pose proof (count_nonneg s c (txg_slot txg) (i_users _ _ _ Hi)).
      destruct (total_pos tids (fun t => if counted (upc s t) c (txg_slot txg) then 1 else 0)) as (t & _ & Ht); [unfold holders in Hc; lia|].
      destruct (drive_holding s t) as (s' & Hd & Hs'); try done; [by destruct (upc s t)|eauto].
    + assert (slp s QT = None) as Hz by (apply quiesce_awake; [done..|]; intros x k Hx Hlt; rewrite Hp in Hx; injection Hx as <- <-; lia).
      destruct (Nat.ltb_spec c max_ncpus) as [Hlt|Hge].
      * eexists. split; [apply DriveQuiesce; unfold txg_quiesce_thread;
          rewrite Hz, Hp, (proj2 (Nat.ltb_lt _ _) Hlt); done|].
        left. unfold txg_quiesce_drain. destruct (Z.eqb_spec (tc_count (tx_cpu s c) (txg_slot txg)) 0); [|lia].
        apply quiesce_calmer; try done. rewrite Hp. cbn. lia.
      * destruct Ha as (Ha1 & Ha2 & Ha3). destruct Hcq as (Ht0 & -> & Hq1 & Hd & _). eexists. split.
        { apply DriveQuiesce. unfold txg_quiesce_thread, locked. rewrite Hz, Hp, (proj2 (Nat.ltb_ge _ _) Hge), Hn.
          unfold txg_quiesce_done, txg_quiesce_loop, txg_has_quiesced_to_sync, mutex_held. cbn.
          rewrite Ha3, bool_decide_eq_true_2 by done. cbn. destruct (Z.eqb_spec (tx_open_txg s - 1) 0); [lia|]. cbn.
          destruct (_ <=? _); done. }
        right. right. split_and!; try done; cbn; lia.
Qed.

Lemma drive_start s :
  inv s -> alive s -> tx_quiescing_txg s = 0 -> tx_quiesced_txg s = 0 -> tx_open_txg s < tx_quiesce_txg_waiting s ->
  tx_sync_lock s = None -> exists s', drive s s' /\ started s s'.
Proof using.
  intros Hi (Ha1 & Ha2 & Ha3) Hq Hd Hlt Hn. pose proof (i_chain _ _ _ Hi) as (Hop & _ & Hcq & _). unfold chain_q in Hcq.
  destruct (qpc s) as [| |txg c|txg c|txg c] eqn:Hp; try lia; [unfold q_alive in Ha1; by rewrite Hp in Ha1|].
  assert (slp s QT = None) as Hz.
  { destruct (slp s QT) as [v|] eqn:Hv; [|done]. exfalso. pose proof (proj1 (i_sleep _ _ _ Hi) v Hv) as H. unfold q_sleep_ok in H. rewrite Hp in H.
    destruct H as (_ & _ & [?|[?|[u Hu]]]); [lia|done|].
    destruct (lock_none s (i_sync_lock _ _ _ Hi) Hn (UT u)). cbn. by rewrite Hu. }
  eexists. split.
  - apply DriveQuiesce. unfold txg_quiesce_thread, locked. rewrite Hz, Hp, Hn. unfold txg_quiesce_loop, txg_has_quiesced_to_sync, mutex_held. cbn.
    rewrite Ha3, (proj2 (Z.leb_gt _ _) Hlt), bool_decide_eq_true_2, Hd by done. done.
  - split_and!; try done; cbn; lia.
Qed.

(** ** Runs *)

Lemma kept_refl s : alive s -> kept s s.
Proof using. intros Ha. split_and!; try done; apply Ha. Qed.

Lemma kept_trans s1 s2 s3 : kept s1 s2 -> kept s2 s3 -> kept s1 s3.
Proof using.
  intros (H1 & H2 & H3 & H4) (H1' & H2' & H3' & H4'). refine (conj _ (conj _ (conj H3' _))); [lia|lia|].
  intros u Hu. rewrite H4'; [by apply H4|]. by rewrite H4.
Qed.

(** A holder of the lock of the pool, whoever it is, can move. *)
Lemma drive_lock s :
  inv s -> alive s -> tx_sync_lock s <> None -> exists s', drive s s' /\ (calmer s s' \/ consumed s s' /\ tx_syncing_txg s = 0).
Proof using Hnd.
  intros Hi Ha Hl. destruct (tx_sync_lock s) as [[| |t]|] eqn:Hk; [..|done].
  - by destruct (proj1 (i_sync_lock _ _ _ Hi QT) Hk).
  - pose proof (proj1 (i_sync_lock _ _ _ Hi ST) Hk) as Hh. cbn in Hh. pose proof (i_chain _ _ _ Hi) as (_ & _ & _ & Hcs & _). unfold chain_s in Hcs.
    assert (tx_syncing_txg s = 0) as Hy by (by destruct (spc s); try done; destruct Hcs).
    destruct (drive_sync s) as (s' & Hd & Hc); try done; [|by right|exists s'; intuition].
    destruct (slp s ST) as [v|] eqn:Hv; [|done]. pose proof (proj1 (proj2 (i_sleep _ _ _ Hi)) v Hv) as H. unfold s_sleep_ok in H. destruct (spc s); tauto.
  - destruct (drive_holder s t) as (s' & Hd & Hc); eauto.
Qed.

(** What is left: how many steps of the pipeline, each with all its ranks. *)
Definition left_over (n : Z) (s : sys) : Z := n * rank_bound + rank s.

Lemma left_over_rank n s s' : rank s' < rank s -> left_over n s' < left_over n s.
Proof using. unfold left_over. lia. Qed.

Lemma left_over_stage n n' s s' : inv s -> inv s' -> n' < n -> left_over n' s' < left_over n s.
Proof using. intros Hi Hi' Hn. pose proof (rank_lt s Hi). pose proof (rank_lt s' Hi'). unfold left_over. nia. Qed.

(** *** Until a txg is synced *)

Definition sync_stage (s : sys) : Z :=
  if tx_syncing_txg s =? 0 then if tx_quiesced_txg s =? 0 then if tx_quiescing_txg s =? 0 then 3 else 2 else 1 else 0.

(** There is room for the txg that may have to be opened before the next is
    synced. *)
Definition room (s : sys) : Prop :=
  tx_synced_txg s = oldest s - 1 \/
  (tx_quiescing_txg s = tx_open_txg s \/ tx_syncing_txg s = 0 /\ tx_quiesced_txg s = 0 /\ tx_quiescing_txg s = 0 ->
   tx_open_txg s + 1 < TXG_LIMIT).
(** The threads work, and somebody has asked for [x]. *)
Definition sync_ctx (x : Z) (s : sys) : Prop := inv s /\ alive s /\ x <= tx_sync_txg_waiting s /\ room s.
Definition sync_left (x : Z) (s : sys) : Z := (x - tx_synced_txg s) * 4 + sync_stage s.

Lemma sync_calm x s s' :
  sync_ctx x s -> drive s s' -> calmer s s' ->
  sync_ctx x s' /\ kept s s' /\ left_over (sync_left x s') s' < left_over (sync_left x s) s.
Proof using Hnd.
  intros (Hi & Ha & Hsw & Hroom) Hd ((E1 & E2 & E3 & E4 & E5) & Hk & Hr).
  assert (inv s') as Hi' by (apply (drive_inv s); [done..|]; rewrite E1; apply Hi).
  refine (conj (conj Hi' (conj _ (conj _ _))) (conj Hk _)); [apply Hk|destruct Hk as (? & _); lia|..].
  - unfold room, oldest, front in *. by rewrite E1, E2, E3, E4, E5.
  - unfold sync_left, sync_stage. rewrite E2, E3, E4, E5. by apply left_over_rank.
Qed.

Lemma sync_stage_on x s s' :
  sync_ctx x s -> drive s s' -> kept s s' -> tx_open_txg s' < TXG_LIMIT -> room s' -> sync_left x s' < sync_left x s ->
  sync_ctx x s' /\ kept s s' /\ left_over (sync_left x s') s' < left_over (sync_left x s) s.
Proof using Hnd.
  intros (Hi & Ha & Hsw & _) Hd Hk Ho Hroom Hl. assert (inv s') as Hi' by (by apply (drive_inv s)).
  refine (conj (conj Hi' (conj _ (conj _ Hroom))) (conj Hk _)); [apply Hk|destruct Hk as (? & _); lia|].
  by apply left_over_stage.
Qed.

Lemma chain_syncing s : chain max_ncpus s -> tx_syncing_txg s <> 0 -> front s = tx_syncing_txg s + 1.
Proof using. intros (_ & _ & _ & Hs & _) Hy. unfold chain_s in Hs. destruct (spc s); intuition lia. Qed.

(** Nothing to sync: the sync thread is awake if somebody waits and nothing was
    asked of the quiesce thread, or if there is something to sync. *)
Lemma sync_awake s : inv s ->
  tx_quiesced_txg s <> 0 \/
  tx_synced_txg s < tx_sync_txg_waiting s /\ tx_quiescing_txg s = 0 /\ tx_quiesce_txg_waiting s <= tx_open_txg s ->
  slp s ST = None.
Proof using.
  intros Hi H. destruct (slp s ST) as [v|] eqn:Hv; [|done]. pose proof (proj1 (proj2 (i_sleep _ _ _ Hi)) v Hv) as (_ & Hd & Hs).
  exfalso. destruct H as [?|(? & ? & ?)]; [done|]. destruct (spc s); intuition lia.
Qed.

Ltac stage_tac :=
  unfold sync_left, sync_stage, room, oldest, front in *;
  repeat match goal with
  | |- context [?a =? 0] => destruct (Z.eqb_spec a 0)
  | H : context [?a =? 0] |- _ => destruct (Z.eqb_spec a 0)
  end; intuition (try (congruence || lia)).

Lemma sync_progress x s :
  x + 1 < TXG_LIMIT -> sync_ctx x s -> tx_synced_txg s < x ->
  exists s', drive s s' /\ sync_ctx x s' /\ kept s s' /\ left_over (sync_left x s') s' < left_over (sync_left x s) s.
Proof using Hnd.
  intros Hx Hctx Hlt. pose proof Hctx as (Hi & Ha & Hsw & Hroom). pose proof (i_chain _ _ _ Hi) as Hc. pose proof (chain_window s Hc) as Hwin.
  pose proof (proj1 Hc) as Hop. destruct (decide (tx_sync_lock s = None)) as [Hn|Hn].
  2:{ destruct (drive_lock s Hi Ha Hn) as (s' & Hd & [Hcalm|[(Hd0 & E1 & E2 & E3 & E4 & E5 & Hk) Hy]]); exists s'; (split; [done|]).
      - by apply sync_calm.
      - pose proof (chain_one s Hc Hd0). pose proof (proj1 (proj2 Hc) Hd0). apply sync_stage_on; try done; [lia|stage_tac|stage_tac]. }
  destruct (decide (tx_syncing_txg s = 0)) as [Hy|Hy].
  2:{ destruct (drive_synced s Hi Ha Hy Hn) as (s' & Hd & E1 & E2 & E3 & E4 & E5 & Hk). exists s'. split; [done|].
      pose proof (chain_syncing s Hc Hy) as Hf.
      assert (front s' = front s) as Ef by (unfold front; by rewrite E1, E2, E3).
      assert (oldest s = tx_syncing_txg s /\ oldest s' = front s') as [Eo Eo'] by (unfold oldest; rewrite E4; by destruct (Z.eqb_spec (tx_syncing_txg s) 0)).
      apply sync_stage_on; try done; [lia|left; lia|].
      assert (0 <= sync_stage s' <= 3 /\ sync_stage s = 0) by (clear -Hy; unfold sync_stage; repeat case_match; bool_to_prop; lia).
      unfold sync_left. lia. }
  destruct (decide (tx_quiesced_txg s = 0)) as [Hd|Hd].
  2:{ destruct (drive_sync s) as (s' & Hdr & [Hcalm|(Hd0 & E1 & E2 & E3 & E4 & E5 & Hk)]); auto using sync_awake; exists s'; (split; [done|]).
      - by apply sync_calm.
      - pose proof (chain_one s Hc Hd0). pose proof (proj1 (proj2 Hc) Hd0). apply sync_stage_on; try done; [lia|stage_tac|stage_tac]. }
  destruct (decide (tx_quiescing_txg s = 0)) as [Hq|Hq].
  2:{ destruct (drive_quiesce s) as (s' & Hdr & [Hcalm|[(Eq & E1 & E2 & E3 & E4 & E5 & Hr & Hk)|(Eq & E1 & E2 & E3 & E4 & E5 & Hk)]]); auto; exists s'; (split; [done|]).
      - by apply sync_calm.
      - assert (oldest s = tx_open_txg s) as Eo by (clear Hroom Hwin; stage_tac).
        assert (tx_open_txg s + 1 < TXG_LIMIT) as Hlim by (destruct Hroom as [?|Hroom]; [lia|auto]).
        assert (inv s') as Hi' by (apply (drive_inv s); [done..|lia]).
        refine (conj (conj Hi' (conj _ (conj _ _))) (conj Hk _)); [apply Hk|destruct Hk as (? & _); lia|right; lia|].
        unfold sync_left, sync_stage. rewrite E2, E3, E4, E5. by apply left_over_rank.
      - apply sync_stage_on; try done; [lia|right; lia|stage_tac]. }
  destruct (Z_lt_le_dec (tx_open_txg s) (tx_quiesce_txg_waiting s)) as [Hqw|Hqw].
  - destruct (drive_start s) as (s' & Hdr & _ & _ & E1 & E2 & E3 & E4 & E5 & Hk); auto. exists s'. split; [done|].
    apply sync_stage_on; try done; [lia|stage_tac|stage_tac].
  - destruct (drive_sync s) as (s' & Hdr & [Hcalm|(Hd0 & _)]); auto; [apply sync_awake; [done|right; lia]|..|done].
    exists s'. split; [done|]. by apply sync_calm.
Qed.

(** *** Until a txg is open *)

Definition open_stage (s : sys) : Z :=
  if tx_quiescing_txg s =? tx_open_txg s then 0
  else if tx_quiescing_txg s =? 0 then
    if tx_quiesced_txg s =? 0 then 1 else if tx_syncing_txg s =? 0 then 2 else 3
  else 4.
Definition open_ctx (x : Z) (s : sys) : Prop := inv s /\ alive s /\ x <= tx_quiesce_txg_waiting s.
Definition open_left (x : Z) (s : sys) : Z := (x - tx_open_txg s) * 5 + open_stage s.

Lemma open_calm x s s' :
  open_ctx x s -> drive s s' -> calmer s s' ->
  open_ctx x s' /\ kept s s' /\ left_over (open_left x s') s' < left_over (open_left x s) s.
Proof using Hnd.
  intros (Hi & Ha & Hqw) Hd ((E1 & E2 & E3 & E4 & E5) & Hk & Hr).
  assert (inv s') as Hi' by (apply (drive_inv s); [done..|]; rewrite E1; apply Hi).
  refine (conj (conj Hi' (conj _ _)) (conj Hk _)); [apply Hk|destruct Hk as (_ & ? & _); lia|].
  unfold open_left, open_stage. rewrite E1, E2, E3, E4. by apply left_over_rank.
Qed.

Lemma open_stage_on x s s' :
  open_ctx x s -> drive s s' -> kept s s' -> tx_open_txg s' < TXG_LIMIT -> open_left x s' < open_left x s ->
  open_ctx x s' /\ kept s s' /\ left_over (open_left x s') s' < left_over (open_left x s) s.
Proof using Hnd.
  intros (Hi & Ha & Hqw) Hd Hk Ho Hl. assert (inv s') as Hi' by (by apply (drive_inv s)).
  refine (conj (conj Hi' (conj _ _)) (conj Hk _)); [apply Hk|destruct Hk as (_ & ? & _); lia|].
  by apply left_over_stage.
Qed.

Ltac open_tac' :=
  unfold open_left, open_stage in *;
  repeat match goal with
  | |- context [?a =? ?b] => destruct (Z.eqb_spec a b)
  end; intuition (try (congruence || lia)).

Lemma open_progress x s :
  x < TXG_LIMIT -> open_ctx x s -> tx_open_txg s < x ->
  exists s', drive s s' /\ open_ctx x s' /\ kept s s' /\ left_over (open_left x s') s' < left_over (open_left x s) s.
Proof using Hnd.
  intros Hx Hctx Hlt. pose proof Hctx as (Hi & Ha & Hqw). pose proof (i_chain _ _ _ Hi) as Hc. pose proof (proj1 Hc) as Hop.
  destruct (decide (tx_sync_lock s = None)) as [Hn|Hn].
  2:{ destruct (drive_lock s Hi Ha Hn) as (s' & Hd & [Hcalm|[(Hd0 & E1 & E2 & E3 & E4 & E5 & Hk) Hy]]); exists s'; (split; [done|]).
      - by apply open_calm.
      - pose proof (chain_one s Hc Hd0). apply open_stage_on; try done; [lia|open_tac']. }
  destruct (decide (tx_quiescing_txg s = 0)) as [Hq|Hq].
  2:{ destruct (drive_quiesce s) as (s' & Hdr & [Hcalm|[(Eq & E1 & E2 & E3 & E4 & E5 & Hr & Hk)|(Eq & E1 & E2 & E3 & E4 & E5 & Hk)]]); auto; exists s'; (split; [done|]).
      - by apply open_calm.
      - apply open_stage_on; try done; [lia|open_tac'].
      - apply open_stage_on; try done; [lia|open_tac']. }
  destruct (decide (tx_quiesced_txg s = 0)) as [Hd|Hd].
  - destruct (drive_start s) as (s' & Hdr & _ & _ & E1 & E2 & E3 & E4 & E5 & Hk); auto; [lia|]. exists s'. split; [done|].
    apply open_stage_on; try done; [lia|open_tac'].
  - destruct (decide (tx_syncing_txg s = 0)) as [Hy|Hy].
    + destruct (drive_sync s) as (s' & Hdr & [Hcalm|(Hd0 & E1 & E2 & E3 & E4 & E5 & Hk)]); auto using sync_awake; exists s'; (split; [done|]).
      * by apply open_calm.
      * apply open_stage_on; try done; [lia|open_tac'].
    + destruct (drive_synced s Hi Ha Hy Hn) as (s' & Hdr & E1 & E2 & E3 & E4 & E5 & Hk). exists s'. split; [done|].
      apply open_stage_on; try done; [lia|open_tac'].
Qed.

(** *** Runs to the end *)

(** Progress that cannot go on for ever ends where it stops. *)
Lemma run_until (P Q : sys -> Prop) `{!forall s, Decision (Q s)} (m : sys -> Z) :
  (forall s, P s -> alive s) ->
  (forall s, P s -> ~ Q s -> 0 <= m s /\ exists s', drive s s' /\ P s' /\ kept s s' /\ m s' < m s) ->
  forall s, P s -> exists s', rtc drive s s' /\ P s' /\ kept s s' /\ Q s'.
Proof using.
  intros Ha Hstep s. remember (Z.to_nat (m s)) as n eqn:Hn. revert s Hn. induction n as [n IH] using lt_wf_ind. intros s Hn Hp.
  destruct (decide (Q s)) as [Hq|Hq]; [exists s; split_and!; try done; by apply kept_refl, Ha|].
  destruct (Hstep s Hp Hq) as (H0 & s1 & Hd & Hp1 & Hk1 & Hm).
  destruct (decide (Q s1)) as [Hq1|Hq1]; [exists s1; by split_and!; [by apply rtc_once|..]|].
  destruct (Hstep s1 Hp1 Hq1) as (H1 & _).
  destruct (IH (Z.to_nat (m s1)) ltac:(lia) s1 eq_refl Hp1) as (s2 & Hr & Hp2 & Hk2 & Hq2).
  exists s2. split_and!; try done; [by eapply rtc_l|by eapply kept_trans].
Qed.

Lemma left_over_nonneg n s : inv s -> 0 <= n -> 0 <= left_over n s.
Proof using. intros Hi Hn. pose proof (rank_lt s Hi). unfold left_over. nia. Qed.

Lemma run_synced x s :
  x + 1 < TXG_LIMIT -> sync_ctx x s -> exists s', rtc drive s s' /\ sync_ctx x s' /\ kept s s' /\ x <= tx_synced_txg s'.
Proof using Hnd.
  intros Hx. apply (run_until (sync_ctx x) (fun s => x <= tx_synced_txg s) (fun s => left_over (sync_left x s) s)); [by intros ? (_ & ? & _)|].
  intros s' Hs Hlt. split; [|apply sync_progress; [done..|lia]]. apply left_over_nonneg; [apply Hs|].
  unfold sync_left, sync_stage. repeat case_match; lia.
Qed.

Lemma run_open x s :
  x < TXG_LIMIT -> open_ctx x s -> exists s', rtc drive s s' /\ open_ctx x s' /\ kept s s' /\ x <= tx_open_txg s'.
Proof using Hnd.
  intros Hx. apply (run_until (open_ctx x) (fun s => x <= tx_open_txg s) (fun s => left_over (open_left x s) s)); [by intros ? (_ & ? & _)|].
  intros s' Hs Hlt. split; [|apply open_progress; [done..|lia]]. apply left_over_nonneg; [apply Hs|].
  unfold open_left, open_stage. repeat case_match; lia.
Qed.

(** The lock of the pool is free again. *)
Lemma run_unlock x y s :
  inv s -> alive s -> x <= tx_synced_txg s -> y <= tx_open_txg s ->
  exists s', rtc drive s s' /\ (inv s' /\ alive s' /\ x <= tx_synced_txg s' /\ y <= tx_open_txg s') /\ kept s s' /\ tx_sync_lock s' = None.
Proof using Hnd.
  intros Hi Ha Hx Hy.
  apply (run_until (fun s => inv s /\ alive s /\ x <= tx_synced_txg s /\ y <= tx_open_txg s) (fun s => tx_sync_lock s = None)
    (fun s => left_over (if tx_syncing_txg s =? 0 then 1 else 0) s)); [by intros ? (_ & ? & _)|clear s Hi Ha Hx Hy|done].
  intros s (Hi & Ha & Hx & Hy) Hn. split; [apply left_over_nonneg; [done|by destruct (_ =? _)]|]. pose proof (proj1 (i_chain _ _ _ Hi)) as Hop.
  destruct (drive_lock s Hi Ha Hn) as (s' & Hd & [((E1 & E2 & E3 & E4 & E5) & Hk & Hr)|[(Hd0 & E1 & E2 & E3 & E4 & E5 & Hk) Hz]]); exists s'.
  all: assert (inv s') as Hi' by (apply (drive_inv s); [done..|lia]); split_and!; try done; try apply Hk; try lia.
  - rewrite E4. by apply left_over_rank.
  - apply left_over_stage; [done..|]. rewrite Hz, E4. cbn. destruct (Z.eqb_spec (tx_quiesced_txg s) 0); [done|lia].
Qed.

(** Who waits for an open txg that is open is awake when the one before has
    been handed over. *)
Lemma run_awake x t s :
  inv s -> alive s -> x <= tx_open_txg s -> upc s t = UWaitOpen x ->
  exists s', rtc drive s s' /\ (inv s' /\ alive s' /\ x <= tx_open_txg s' /\ upc s' t = UWaitOpen x) /\ kept s s' /\
    (tx_sync_lock s' = None /\ slp s' (UT t) = None).
Proof using Hnd.
  intros Hi Ha Hx Hp.
  apply (run_until (fun s => inv s /\ alive s /\ x <= tx_open_txg s /\ upc s t = UWaitOpen x) (fun s => tx_sync_lock s = None /\ slp s (UT t) = None)
    (fun s => left_over ((if tx_quiescing_txg s =? 0 then 0 else 2) + (if tx_syncing_txg s =? 0 then 1 else 0)) s));
    [by intros ? (_ & ? & _)|clear s Hi Ha Hx Hp|done].
  intros s (Hi & Ha & Hx & Hp) Hno. split; [apply left_over_nonneg; [done|repeat case_match; lia]|]. pose proof (proj1 (i_chain _ _ _ Hi)) as Hop.
  assert (forall s', kept s s' -> upc s' t = UWaitOpen x) as Hkp by (intros s' (_ & _ & _ & Hf); rewrite <- Hp; apply Hf; by rewrite Hp).
  destruct (decide (tx_sync_lock s = None)) as [Hn|Hn].
  - destruct (slp s (UT t)) as [v|] eqn:Hv; [|by destruct Hno].
    pose proof (proj1 (proj2 (proj2 (i_sleep _ _ _ Hi))) t v Hv) as Hs. rewrite Hp in Hs. destruct Hs as (_ & [?|[Hq0 Hq]]); [lia|].
    destruct (drive_quiesce s) as (s' & Hd & [((E1 & E2 & E3 & E4 & E5) & Hk & Hr)|[(Eq & _)|(Eq & E1 & E2 & E3 & E4 & E5 & Hk)]]); auto; [|lia|].
    all: exists s'; assert (inv s') as Hi' by (apply (drive_inv s); [done..|lia]); split_and!; try done; try apply Hk; try lia; auto.
    + rewrite E2, E4. by apply left_over_rank.
    + apply left_over_stage; [done..|]. rewrite E2, E4. cbn. destruct (Z.eqb_spec (tx_quiescing_txg s) 0); [done|]. lia.
  - destruct (drive_lock s Hi Ha Hn) as (s' & Hd & [((E1 & E2 & E3 & E4 & E5) & Hk & Hr)|[(Hd0 & E1 & E2 & E3 & E4 & E5 & Hk) Hz]]); exists s'.
    all: assert (inv s') as Hi' by (apply (drive_inv s); [done..|lia]); split_and!; try done; try apply Hk; try lia; auto.
    + rewrite E2, E4. by apply left_over_rank.
    + apply left_over_stage; [done..|]. rewrite E2, Hz, E4. cbn. destruct (Z.eqb_spec (tx_quiesced_txg s) 0); [done|lia].
Qed.

End live.
