(* ===== verification/TxgProps.v ===== *)
(** * Transaction groups: what the module promises

    The theorems about every reachable state of [Txg], and the schedules that
    serve as examples. *)

From stdpp Require Import functions relations.
From S2P Require Import Prelude TxgData Txg TxgInv TxgFrame TxgSteps TxgUsers TxgLive.

(** The branches of a step. *)
Ltac branches :=
  repeat match goal with
  | H : Some _ = None |- _ => discriminate H
  | H : None = Some _ |- _ => discriminate H
  | H : Panic = Ret _ |- _ => discriminate H
  | H : Some _ = Some _ |- _ => injection H as H
  | H : Ret _ = Ret _ |- _ => injection H as H
  | H : _ ≫= _ = Ret _ |- _ => apply bind_Ret in H as (? & ? & H)
  | H : context [if ?b then _ else _] |- _ => destruct b eqn:?
  | H : context [match ?x with _ => _ end] |- _ => destruct x eqn:?
  end; subst; cbn in *.

(** ** Reachable states *)

Section reach.
Context (max_ncpus : nat) (tids : list tid) (Hnd : NoDup tids).
Notation inv := (inv max_ncpus tids).
Notation reachable := (reachable max_ncpus tids).

Lemma txg_step_ok s r : inv s -> step max_ncpus tids s r -> ok max_ncpus tids r.
Proof using Hnd.
  intros Hi Hs. destruct Hs as [s r H|idle s r H|k s s' H|t a s r Ht Ha H|x s].
  - by eapply quiesce_ok.
  - by eapply sync_ok.
  - apply ok_ret. intros _. by eapply task_ok.
  - by eapply user_step_ok.
  - apply ok_ret. intros _. by apply wakeup_ok.
Qed.

Lemma txg_reachable_inv s : reachable s -> inv s.
Proof using Hnd.
  induction 1 as [txg Ht|s s' _ IH Hs Ho]; [by apply init_inv|].
  destruct (txg_step_ok s _ IH Hs) as (s1 & [= <-] & Hi). auto.
Qed.

(** ** Shutting down

    While the pool is being stopped no callback is registered, and those that
    wait belong to txgs before the one [txg_sync_stop] waits for. *)

Definition waits (s : sys) (cb : callback) : Prop := exists c g, cb ∈ tc_callbacks (tx_cpu s c) g.

Definition stop_inv (s : sys) : Prop :=
  running s = false ->
  (forall cb, ~ waits s cb) \/
  exists t x, (upc s t = UStopCall x \/ upc s t = UWaitSynced true x) /\ x <> 0 /\ forall cb, waits s cb -> cb_txg cb < x.

Lemma stop_inv_mono s s' :
  stop_inv s -> running s' = running s -> upc s' = upc s -> (forall cb, waits s' cb -> waits s cb) -> stop_inv s'.
Proof using.
  intros H Hr Hp Hw Hf. rewrite Hr in Hf. unfold stop_inv in H. destruct (H Hf) as [Hn|(t & x & Ht & Hx & Hb)]; [left; naive_solver|].
  right. exists t, x. rewrite Hp. naive_solver.
Qed.

Lemma waits_same s s' :
  (forall c, tc_callbacks (tx_cpu s' c) = tc_callbacks (tx_cpu s c)) -> forall cb, waits s' cb -> waits s cb.
Proof using. intros H cb (c & g & Hcb). exists c, g. by rewrite <- H. Qed.

Lemma quiesce_stop s s' : txg_quiesce_thread max_ncpus s = Some (Ret s') -> stop_inv s -> stop_inv s'.
Proof using.
  unfold txg_quiesce_thread, locked, txg_quiesce_lock, txg_quiesce_unlock, txg_quiesce_drain, txg_quiesce_done, txg_quiesce_loop,
    txg_has_quiesced_to_sync, txg_thread_exit. intros H Hs.
  assert (running s' = running s /\ upc s' = upc s /\ forall c, tc_callbacks (tx_cpu s' c) = tc_callbacks (tx_cpu s c)) as (H1 & H2 & H3);
    [|eapply stop_inv_mono; eauto using waits_same].
  branches; split_and!; try done.
  all: intros c'; by apply (upd_field tc_callbacks).
Qed.

Lemma sync_stop idle s s' : txg_sync_thread max_ncpus idle s = Some (Ret s') -> stop_inv s -> stop_inv s'.
Proof using.
  unfold txg_sync_thread, locked, txg_sync_loop, txg_sync_loop2, txg_has_quiesced_to_sync, txg_thread_exit, txg_dispatch_callbacks. intros H Hs.
  assert (running s' = running s /\ upc s' = upc s /\ forall cb, waits s' cb -> waits s cb) as (H1 & H2 & H3);
    [|by eapply stop_inv_mono].
  branches; split_and!; try done.
  all: intros cb (c' & g & Hcb); cbn in Hcb; destruct (decide (c' = c)) as [->|]; [rewrite upd_eq in Hcb|rewrite upd_ne in Hcb by done; by exists c', g].
  all: cbn in Hcb; destruct (decide (g = txg_slot txg)) as [->|]; [rewrite upd_eq in Hcb; by apply not_elem_of_nil in Hcb|rewrite upd_ne in Hcb by done; by exists c, g].
Qed.

(** When [txg_sync_stop] has waited, nothing waits. *)
Lemma stop_waited s x :
  inv s -> tx_sync_lock s = None -> x <= tx_synced_txg s -> (forall cb, waits s cb -> cb_txg cb < x) -> forall cb, ~ waits s cb.
Proof using.
  intros Hi Hn Hx Hw cb Hcb. pose proof (Hw cb Hcb). destruct Hcb as (c & g & Hcb).
  pose proof (proj1 (i_callbacks _ _ _ Hi) c g) as Hf. rewrite Forall_forall in Hf. destruct (Hf cb Hcb) as (_ & _ & _ & [Ho|(k & Hk & _)]).
  - pose proof (chain_window s (i_chain _ _ _ Hi)). lia.
  - destruct (lock_none s (i_sync_lock _ _ _ Hi) Hn ST). cbn. by rewrite Hk.
Qed.

Lemma wait_synced_stop s t x :
  inv s -> tx_sync_lock s = None -> x <> 0 -> (forall cb, waits s cb -> cb_txg cb < x) ->
  forall s0, (forall c, tc_callbacks (tx_cpu s0 c) = tc_callbacks (tx_cpu s c)) -> tx_synced_txg s0 = tx_synced_txg s ->
  stop_inv (txg_wait_synced_loop t true x s0).
Proof using.
  intros Hi Hn Hx Hw s0 Hc Hz _. unfold txg_wait_synced_loop. destruct (Z.ltb_spec (tx_synced_txg s0) x) as [Hlt|Hge].
  - right. exists t, x. cbn. rewrite upd_eq. split_and!; [by right|done|]. intros cb Hcb. apply Hw. by eapply waits_same.
  - left. intros cb Hcb. eapply (stop_waited s x); [done|done|lia|done|by eapply waits_same].
Qed.

(** The pool goes on being used, or is asked to stop. *)
Lemma user_running s t a s' :
  running s = true -> user_step t a s = Some (Ret s') ->
  running s' = true \/ s' = set_place (set_running s false) t (UStopCall (add64 (tx_open_txg s) TXG_DEFER_SIZE)).
Proof using.
  intros Hr. unfold user_step, locked. case_decide; [|done].
  destruct (upc s t), a; try done; intros Hst.
  all: unfold txg_hold_open_lock, txg_delay_call, txg_rele_to_quiesce, txg_rele_to_sync, txg_delay, locked, txg_delay_loop, txg_wait_synced,
    txg_wait_synced_loop, txg_wait_open, txg_wait_open_loop, txg_kick, txg_is_syncing, txg_is_quiescing, txg_sync_start, txg_sync_stop,
    txg_sync_stop_exit, txg_sync_stop_loop in Hst; branches; auto.
Qed.

Lemma user_stop s t a s' :
  inv s -> t ∈ tids -> allowed max_ncpus tids s t a -> user_step t a s = Some (Ret s') -> stop_inv s -> stop_inv s'.
Proof using Hnd.
  intros Hi Hin Ha Hst Hs. destruct (running s) eqn:Hr.
  - destruct (user_running s t a s' Hr Hst) as [Hr'| ->]; [intros ?; congruence|]. intros _. right.
    pose proof (proj1 (i_chain _ _ _ Hi)) as Hop. assert (add64 (tx_open_txg s) TXG_DEFER_SIZE = tx_open_txg s + 2) as ->
      by (apply add64_small; unfold u64, TXG_LIMIT, TXG_DEFER_SIZE in *; lia).
    exists t, (tx_open_txg s + 2). cbn. rewrite upd_eq. split_and!; [by left|lia|]. intros cb (c & g & Hcb).
    pose proof (proj1 (i_callbacks _ _ _ Hi) c g) as Hf. rewrite Forall_forall in Hf. destruct (Hf cb Hcb) as (_ & _ & ? & _). lia.
  - pose proof (i_threads _ _ _ Hi) as Hth. pose proof Hth as (_ & _ & _ & _ & H5 & _). specialize (H5 Hr t).
    unfold user_step, locked in Hst. case_decide; [|done]. specialize (Hs Hr).
    assert (Hsole : forall u x, stop_place (upc s t) = true -> upc s u = UStopCall x \/ upc s u = UWaitSynced true x -> u = t).
    { intros u x Hsp Hu. destruct (decide (u = t)) as [|Hne]; [done|]. destruct (stop_others s t Hth Hsp) as [_ Ho]. rewrite (Ho u Hne) in Hu. naive_solver. }
    destruct (upc s t) as [| | | | |[] x| | | |x| |] eqn:Hp; try (by destruct H5).
    1:{ destruct a; try done; cbn in Ha; try (destruct Ha; congruence); try congruence. destruct (tx_sync_lock s); [done|].
        unfold txg_sync_start in Hst. branches. intros Hx. done. }
    all: destruct a; try done; destruct (tx_sync_lock s) eqn:Hn; [done|].
    all: assert (Hsame : (forall cb, ~ waits s cb) -> (forall c, tc_callbacks (tx_cpu s' c) = tc_callbacks (tx_cpu s c)) -> stop_inv s')
      by (intros Hw Hc _; left; intros cb Hcb; apply (Hw cb); by eapply waits_same).
    + injection Hst as <-. destruct Hs as [Hw|(u & y & Hu & Hy & Hw)].
      * apply Hsame; [done|]. unfold txg_wait_synced_loop. by destruct (_ <? _).
      * pose proof (Hsole u y eq_refl Hu) as ->. rewrite Hp in Hu. destruct Hu as [?|[= <-]]; [done|]. by eapply wait_synced_stop.
    + unfold txg_wait_synced in Hst. destruct Hs as [Hw|(u & y & Hu & Hy & Hw)].
      * unfold txg_wait_synced_loop in Hst. branches; by apply Hsame.
      * pose proof (Hsole u y eq_refl Hu) as ->. rewrite Hp in Hu. destruct Hu as [[= <-]|?]; [|done].
        destruct (Z.eqb_spec x 0); [done|]. injection Hst as Hst. apply bind_Ret in Hst as (_ & _ & [= <-]).
        eapply wait_synced_stop; try done; by destruct (_ <? _).
    + destruct Hs as [Hw|(u & y & Hu & _)]; [|pose proof (Hsole u y eq_refl Hu) as ->; rewrite Hp in Hu; by destruct Hu].
      unfold txg_sync_stop_exit, txg_sync_stop_loop in Hst. branches; by apply Hsame.
    + destruct Hs as [Hw|(u & y & Hu & _)]; [|pose proof (Hsole u y eq_refl Hu) as ->; rewrite Hp in Hu; by destruct Hu].
      unfold txg_sync_stop_loop in Hst. branches; by apply Hsame.
Qed.

Lemma reachable_stop s : reachable s -> stop_inv s.
Proof using Hnd.
  induction 1 as [txg Ht|s s' Hr IH Hs Ho].
  - intros _. left. intros cb (c & g & Hcb). cbn in Hcb. by apply not_elem_of_nil in Hcb.
  - apply txg_reachable_inv in Hr. remember (Ret s') as r eqn:He. destruct Hs as [s r H|idle s r H|k s s1 H|t a s r Ht Ha H|x s]; subst.
    + by eapply quiesce_stop.
    + by eapply sync_stop.
    + injection He as <-. unfold txg_do_callbacks in H. destruct (tx_commit_cb_taskq s); [|done]. cbn in H. destruct (l !! k); [|done]. cbn in H.
      injection H as <-. by eapply stop_inv_mono.
    + by eapply user_stop.
    + injection He as <-. by eapply stop_inv_mono.
Qed.

(** ** Holders *)

(** The thread has a hold on the txg. *)
Definition holds (s : sys) (t : tid) (txg : Z) : Prop :=
  exists c, upc s t = UHeld c txg \/ (exists d, upc s t = UDelay c txg d) \/ upc s t = UAssigned c txg.

Lemma holds_stage s t x : inv s -> holds s t x -> front s <= x <= tx_open_txg s /\ (x = tx_open_txg s \/ x = tx_quiescing_txg s).
Proof using.
  intros Hi (c & Hp). pose proof (i_chain _ _ _ Hi) as Hc. pose proof (proj1 (proj2 (i_users _ _ _ Hi)) t) as Hh.
  assert (held_ok max_ncpus s (UAssigned c x)) as Ha.
  { destruct Hp as [Hp|[[d Hp]|Hp]]; rewrite Hp in Hh; [destruct Hh as [-> ?]..|done]; by split; [|left]. }
  destruct (held_window s c x Hc Ha) as [Hw _]. split; [done|]. destruct Ha as [_ [?|Hq]]; [by left|right].
  destruct Hc as (_ & _ & Hcq & _). unfold chain_q in Hcq. destruct (qpc s); intuition congruence.
Qed.

Lemma counted_holds s t c g : counted (upc s t) c g = true -> exists x, holds s t x /\ txg_slot x = g.
Proof using.
  intros H. destruct (upc s t) as [|k x|k x|k x d|k x| | | | | | |] eqn:Hp; try done; cbn in H; apply andb_true_iff in H as [_ H%Nat.eqb_eq];
    exists x; (split; [exists k; eauto|done]).
Qed.

(** Nobody holds a txg that is quiesced or being synced, on any cpu. *)
Lemma not_held s x c :
  inv s -> x <> 0 -> x = tx_syncing_txg s \/ x = tx_quiesced_txg s -> tc_count (tx_cpu s c) (txg_slot x) = 0.
Proof using.
  intros Hi Hx Hcase. rewrite (proj2 (proj2 (i_users _ _ _ Hi))). unfold holders.
  rewrite (total_ext _ _ (fun _ => 0)); [generalize tids as k; induction k as [|t k IH]; [done|]; by rewrite total_cons, IH|].
  intros t _. destruct (counted (upc s t) c (txg_slot x)) eqn:Hk; [exfalso|done].
  destruct (counted_holds s t c _ Hk) as (y & Hy & Hs). destruct (holds_stage s t y Hi Hy) as [Hw Hst].
  pose proof (i_chain _ _ _ Hi) as Hc. pose proof (chain_window s Hc) as Hwin. enough (x < y <= x + 3) by (apply (txg_slot_inj x) in Hs; lia).
  destruct Hcase as [-> | ->].
  - pose proof (chain_syncing max_ncpus s Hc Hx) as Hf. unfold oldest in Hwin. destruct (Z.eqb_spec (tx_syncing_txg s) 0); [done|]. lia.
  - pose proof (chain_one s Hc Hx) as Hq0. pose proof (proj1 (proj2 Hc) Hx).
    assert (front s = tx_quiesced_txg s) by (unfold front; rewrite Hq0; cbn; by destruct (Z.eqb_spec (tx_quiesced_txg s) 0)). lia.
Qed.

Lemma verify_active s x : inv s -> oldest s <= x <= tx_open_txg s -> txg_verify s x = Ret tt.
Proof using.
  intros Hi Hx. unfold txg_verify. destruct (_ || _) eqn:E; [done|]. bool_to_prop. pose proof (chain_window s (i_chain _ _ _ Hi)) as Hwin.
  pose proof (proj1 (i_chain _ _ _ Hi)) as Hop. unfold TXG_INITIAL, TXG_SIZE, TXG_CONCURRENT_STATES, TXG_LIMIT in *.
  rewrite sub64_small by (unfold u64; lia).
  rewrite !(proj2 (Z.leb_le _ _)) by lia. done.
Qed.

End reach.

(** ** Theorems *)

(** C10: The txgs of a pool go through their states in order.  The one being
    quiesced is the open one, or the one before it once the next is open; the
    quiesced one is the one before the open one, and there is at most one of
    these two; the one being synced is the one before them; the synced one
    the one before all of these, unless none has been synced since the pool was
    opened; at most three are active.  A transaction holds the open txg or the
    one being quiesced, for which [txg_verify] passes; once a txg is quiesced,
    and while it is being synced, no cpu counts a holder of it. *)
Theorem txg_order max_ncpus tids s :
  NoDup tids -> reachable max_ncpus tids s ->
  (tx_quiescing_txg s <> 0 -> tx_quiesced_txg s = 0 /\
    (tx_quiescing_txg s = tx_open_txg s \/ tx_quiescing_txg s = tx_open_txg s - 1)) /\
  (tx_quiesced_txg s <> 0 -> tx_quiesced_txg s = tx_open_txg s - 1) /\
  (tx_syncing_txg s <> 0 -> tx_syncing_txg s = front s - 1) /\
  (tx_synced_txg s = oldest s - 1 \/ tx_synced_txg s = 0) /\
  oldest s <= tx_open_txg s <= oldest s + 2 /\
  (forall t x, holds s t x -> (x = tx_open_txg s \/ x = tx_quiescing_txg s) /\ txg_verify s x = Ret tt) /\
  (forall x c, x <> 0 -> x = tx_syncing_txg s \/ x = tx_quiesced_txg s ->
    tc_count (tx_cpu s c) (txg_slot x) = 0 /\ txg_verify s x = Ret tt).
Proof.
  intros Hnd Hr. pose proof (txg_reachable_inv _ _ Hnd s Hr) as Hi. pose proof (i_chain _ _ _ Hi) as Hc. pose proof (chain_window s Hc) as Hwin.
  pose proof Hc as (_ & Hd & Hq & Hs & Hz). split_and!; try done; try lia.
  - intros Hq0. unfold chain_q in Hq. destruct (qpc s); intuition lia.
  - intros Hy. pose proof (chain_syncing _ s Hc Hy). lia.
  - intros t x Hh. destruct (holds_stage _ _ s t x Hi Hh) as [Hw Hst]. split; [done|]. apply (verify_active _ _ s x Hi).
    enough (oldest s <= front s) by lia. unfold oldest. destruct (Z.eqb_spec (tx_syncing_txg s) 0) as [|Hy]; [done|].
    pose proof (chain_syncing _ s Hc Hy). lia.
  - intros x c Hx Hcase. split; [by apply (not_held _ _ s x c Hi)|]. apply (verify_active _ _ s x Hi).
    unfold oldest in *. destruct (Z.eqb_spec (tx_syncing_txg s) 0) as [Hy|Hy].
    + destruct Hcase as [-> | ->]; [done|]. pose proof (chain_one s Hc Hx) as Hq0. pose proof (Hd Hx). unfold front.
      rewrite Hq0. cbn. destruct (Z.eqb_spec (tx_quiesced_txg s) 0); [done|lia].
    + pose proof (chain_syncing _ s Hc Hy) as Hf. destruct Hcase as [-> | ->]; [lia|].
      pose proof (chain_one s Hc Hx) as Hq0. pose proof (Hd Hx). unfold front in Hf. rewrite Hq0 in Hf. cbn in Hf.
      destruct (Z.eqb_spec (tx_quiesced_txg s) 0); [done|]. lia.
Qed.

(** C13: No assertion of the module fails, whatever the threads do and however they
    are interleaved, as long as callers do what is [allowed]. *)
Theorem txg_safe max_ncpus tids s r :
  NoDup tids -> reachable max_ncpus tids s -> step max_ncpus tids s r -> exists s', r = Ret s'.
Proof.
  intros Hnd Hr Hs. destruct (txg_step_ok _ _ Hnd s r (txg_reachable_inv _ _ Hnd s Hr) Hs) as (s' & -> & _). by exists s'.
Qed.

(** C12: Every callback registered is at exactly one place, and as often as it was
    registered: waiting for its txg, dispatched to the taskq, or called.  One
    that was dispatched or called belongs to a txg that is synced, and one that
    waits to a txg that is not, unless the sync thread is just dispatching
    those of its txg; then the thread does not touch a list to which another
    thread can add. *)
Theorem txg_callbacks max_ncpus tids s :
  NoDup tids -> reachable max_ncpus tids s ->
  registered s ≡ₚ waiting max_ncpus s ++ dispatched s ++ called s /\
  Forall (fun cb => cb_txg cb <= tx_synced_txg s) (dispatched s ++ called s) /\
  Forall (fun cb => tx_synced_txg s < cb_txg cb \/ exists c, spc s = SDispatch (cb_txg cb) c) (waiting max_ncpus s) /\
  (forall txg c t x, spc s = SDispatch txg c -> holds s t x -> txg_slot x <> txg_slot txg).
Proof.
  intros Hnd Hr. pose proof (txg_reachable_inv _ _ Hnd s Hr) as Hi. pose proof (i_callbacks _ _ _ Hi) as (H1 & H2 & H3).
  pose proof (i_chain _ _ _ Hi) as Hc. pose proof (chain_window s Hc) as Hwin. split_and!; try done.
  - unfold waiting. apply Forall_concat, Forall_fmap, Forall_forall. intros c _. unfold compose.
    apply Forall_concat, Forall_fmap, Forall_forall. intros g _. unfold compose. eapply Forall_impl; [exact (H1 c g)|].
    intros cb (_ & _ & _ & [?|(k & Hk & _)]); [left; lia|right; by exists k].
  - intros txg c t x Hp Hh Hs. destruct (holds_stage _ _ s t x Hi Hh) as [Hw _].
    destruct Hc as (Hop & Hd & Hq & Hcs & Hz). unfold chain_s in Hcs. rewrite Hp in Hcs. destruct Hcs as (Hy & Hz' & Ht0 & _).
    unfold oldest in *. rewrite Hy in *. cbn in *. apply (txg_slot_inj txg) in Hs; lia.
Qed.

(** C11: Waiting ends.  A thread in [txg_wait_synced] can always be brought to its
    return, with its txg synced, and a thread in [txg_wait_open] to its return
    with its txg open, by the work of the threads of the pool and by the
    threads that hold a txg releasing it, without new transactions, without
    anybody waking up for no reason and without the timer of the sync
    thread: the threads are not deadlocked and no wake-up was lost. *)
Theorem txg_wait_completes max_ncpus tids s t :
  NoDup tids -> reachable max_ncpus tids s ->
  (forall stop x, upc s t = UWaitSynced stop x -> x + 1 < TXG_LIMIT -> tx_open_txg s + 1 < TXG_LIMIT ->
    exists s', rtc (drive max_ncpus tids) s s' /\ x <= tx_synced_txg s' /\ upc s' t = (if stop then UStop else UIdle)) /\
  (forall x, upc s t = UWaitOpen x -> x < TXG_LIMIT ->
    exists s', rtc (drive max_ncpus tids) s s' /\ x <= tx_open_txg s' /\ upc s' t = UIdle).
Proof.
  intros Hnd Hr. pose proof (txg_reachable_inv _ _ Hnd s Hr) as Hi. pose proof (i_threads _ _ _ Hi) as Hth.
  assert (Hin : upc s t <> UIdle -> t ∈ tids) by apply (proj1 (i_users _ _ _ Hi)).
  assert (Halive : running s = true -> alive s) by (intros Hrun; destruct Hth as (_ & _ & _ & H4 & _); destruct (H4 Hrun) as (? & ? & ? & _); by split_and!).
  split.
  - intros stop x Hp Hx Ho.
    assert (alive s) as Ha.
    { destruct stop; [|apply Halive, (place_running s t); by rewrite ?Hp].
      destruct Hth as (_ & _ & _ & _ & _ & _ & _ & H8). specialize (H8 t). by rewrite Hp in H8. }
    pose proof (proj1 (proj2 (proj2 (proj2 (i_sleep _ _ _ Hi)))) t) as Hask. rewrite Hp in Hask.
    destruct (run_synced max_ncpus tids Hnd x s Hx) as (s1 & Hr1 & (Hi1 & Ha1 & _) & Hk1 & Hz1); [split_and!; try done; try apply Ha; by right|].
    destruct (run_unlock max_ncpus tids Hnd x 0 s1 Hi1 Ha1 Hz1) as (s2 & Hr2 & (Hi2 & Ha2 & Hz2 & _) & Hk2 & Hn); [apply Z.lt_le_incl, (i_chain _ _ _ Hi1)|].
    destruct (kept_trans _ _ _ Hk1 Hk2) as (_ & _ & _ & Hfree). assert (upc s2 t = UWaitSynced stop x) as Hp2 by (rewrite <- Hp; apply Hfree; by rewrite Hp).
    exists (set_place (mutex_exit (mutex_enter (UT t) s2)) t (if stop then UStop else UIdle)). split_and!; [|done|cbn; by rewrite upd_eq].
    eapply rtc_r; [etrans; [exact Hr1|exact Hr2]|]. eapply (DriveUser _ _ t (Continue false)); [apply Hin; by rewrite Hp|done|].
    assert (slp s2 (UT t) = None) as Hz.
    { destruct (slp s2 (UT t)) as [v|] eqn:Hv; [|done]. pose proof (proj1 (proj2 (proj2 (i_sleep _ _ _ Hi2))) t v Hv) as H. rewrite Hp2 in H.
      destruct H. lia. }
    unfold user_step, locked. rewrite Hz, Hp2, Hn. cbn. unfold txg_wait_synced_loop. cbn. by rewrite (proj2 (Z.ltb_ge _ _)).
  - intros x Hp Hx. assert (alive s) as Ha by (apply Halive, (place_running s t); by rewrite ?Hp).
    pose proof (proj1 (proj2 (proj2 (proj2 (i_sleep _ _ _ Hi)))) t) as Hask. rewrite Hp in Hask.
    destruct (run_open max_ncpus tids Hnd x s Hx) as (s1 & Hr1 & (Hi1 & Ha1 & _) & Hk1 & Ho1); [by split_and!; try apply Ha|].
    assert (upc s1 t = UWaitOpen x) as Hp1 by (destruct Hk1 as (_ & _ & _ & Hf); rewrite <- Hp; apply Hf; by rewrite Hp).
    destruct (run_awake max_ncpus tids Hnd x t s1 Hi1 Ha1 Ho1 Hp1) as (s2 & Hr2 & (Hi2 & Ha2 & Ho2 & Hp2) & _ & Hn & Hz).
    exists (set_place (mutex_exit (mutex_enter (UT t) s2)) t UIdle). split_and!; [|done|cbn; by rewrite upd_eq].
    eapply rtc_r; [etrans; [exact Hr1|exact Hr2]|]. eapply (DriveUser _ _ t (Continue false)); [apply Hin; by rewrite Hp|done|].
    unfold user_step, locked. rewrite Hz, Hp2, Hn. cbn. unfold txg_wait_open_loop. cbn. by rewrite (proj2 (Z.ltb_ge _ _)).
Qed.

(** C14: When the threads have been stopped, and nobody is in the module, they are
    gone, every callback registered was dispatched, and [txg_fini] finds every
    lock free and every list empty. *)
Theorem txg_fini_safe max_ncpus tids s :
  NoDup tids -> reachable max_ncpus tids s -> running s = false -> (forall t, upc s t = UIdle) ->
  qpc s = QNone /\ spc s = SNone /\ registered s ≡ₚ dispatched s ++ called s /\ txg_fini max_ncpus s = Ret tt.
Proof.
  intros Hnd Hr Hrun Hidle. pose proof (txg_reachable_inv _ _ Hnd s Hr) as Hi. pose proof (i_threads _ _ _ Hi) as (_ & _ & H3 & _ & _ & H6 & _).
  destruct (H6 Hrun Hidle) as (Hq & Hs & _). rewrite Hq, Hs in H3.
  assert (qpc s = QNone) as Hqn by (unfold q_alive in Hq; by destruct (qpc s)).
  assert (spc s = SNone) as Hsn by (unfold s_alive in Hs; by destruct (spc s)).
  assert (forall cb, ~ waits s cb) as Hw.
  { destruct (reachable_stop _ _ Hnd s Hr Hrun) as [?|(t & x & Hx & _)]; [done|]. rewrite Hidle in Hx. by destruct Hx. }
  assert (forall c g, tc_callbacks (tx_cpu s c) g = []) as Hempty.
  { intros c g. destruct (tc_callbacks (tx_cpu s c) g) as [|cb l] eqn:E; [done|]. destruct (Hw cb). exists c, g. rewrite E. by left. }
  split_and!; try done.
  - pose proof (i_callbacks _ _ _ Hi) as (_ & _ & ->). assert (waiting max_ncpus s = []) as ->; [|done].
    unfold waiting. generalize (seq 0 max_ncpus) as k. induction k as [|c k IH]; [done|]. rewrite fmap_cons. cbn. by rewrite !Hempty.
  - unfold txg_fini. rewrite H3. cbn.
    rewrite bool_decide_eq_true_2.
    2:{ destruct (tx_sync_lock s) as [x|] eqn:Hl; [|done]. apply (i_sync_lock _ _ _ Hi) in Hl. destruct x as [| |t]; cbn in Hl; [done|by rewrite Hsn in Hl|by rewrite Hidle in Hl]. }
    cbn. destruct (for_loop_inv (fun _ (_ : unit) => True) max_ncpus 0
      (fun c _ => _ ← verify (bool_decide (tc_open_lock (tx_cpu s c) = None));
        for_loop (Z.to_nat TXG_SIZE) 0 (fun i _ => verify (match tc_callbacks (tx_cpu s c) i with [] => true | _ :: _ => false end)) tt) tt)
      as ([] & He & _); [|done|exact He].
    intros c [] _ _. exists tt. split; [|done]. rewrite bool_decide_eq_true_2; [change (Z.to_nat TXG_SIZE) with 4%nat; cbn; by rewrite !Hempty|].
    destruct (tc_open_lock (tx_cpu s c)) as [x|] eqn:Hl; [|done]. apply (i_open_lock _ _ _ Hi) in Hl.
    destruct x as [| |t]; cbn in Hl; [by rewrite Hqn in Hl|done|by rewrite Hidle in Hl].
Qed.

(** ** Schedules *)

Inductive event : Type := EQuiesce | ESync (idle : bool) | ETask (k : nat) | EUser (t : tid) (a : action).

Definition idle_b (s : sys) (ts : list tid) : bool :=
  forallb (fun t => match upc s t with UIdle => true | _ => false end) ts.

Definition allowed_b (n : nat) (ts : list tid) (s : sys) (t : tid) (a : action) : bool :=
  match a with
  | HoldOpen c => running s && (c <? n)%nat
  | WaitSynced txg | WaitOpen txg => running s && (0 <=? txg) && (txg <? 2 ^ 64)
  | Kick => running s
  | SyncStart => negb (running s) && idle_b s ts
  | SyncStop => running s && idle_b s ts
  | _ => true
  end.

Lemma allowed_b_ok n ts s t a : allowed_b n ts s t a = true -> allowed n ts s t a.
Proof.
  assert (idle_b s ts = true -> forall u, u ∈ ts -> upc s u = UIdle) as Hidle.
  { unfold idle_b. rewrite forallb_forall. intros H u Hu. apply list_elem_of_In in Hu. specialize (H u Hu). by destruct (upc s u). }
  destruct a; cbn; intros H; try done; repeat (apply andb_true_iff in H as [H ?]); bool_to_prop; unfold u64; auto.
  by apply Nat.ltb_lt in H0.
Qed.

Definition exec1 (n : nat) (ts : list tid) (e : event) (s : sys) : option sys :=
  let run (o : option (result sys)) := match o with Some (Ret s') => if tx_open_txg s' <? TXG_LIMIT then Some s' else None | _ => None end in
  match e with
  | EQuiesce => run (txg_quiesce_thread n s)
  | ESync idle => run (txg_sync_thread n idle s)
  | ETask k => run (Ret <$> txg_do_callbacks k s)
  | EUser t a => if (existsb (Nat.eqb t) ts && allowed_b n ts s t a)%bool then run (user_step t a s) else None
  end.

Lemma exec1_reachable n ts e s s' : reachable n ts s -> exec1 n ts e s = Some s' -> reachable n ts s'.
Proof.
  intros Hr E. assert (step n ts s (Ret s') /\ tx_open_txg s' < TXG_LIMIT) as [H1 H2]; [|by eapply ReachStep].
  destruct e as [|idle|k|t a]; cbn in E.
  - destruct (txg_quiesce_thread n s) as [[x|]|] eqn:Hx; try done. branches. split; [by apply StepQuiesce|by apply Z.ltb_lt].
  - destruct (txg_sync_thread n idle s) as [[x|]|] eqn:Hx; try done. branches. split; [by eapply StepSync|by apply Z.ltb_lt].
  - destruct (txg_do_callbacks k s) as [x|] eqn:Hx; try done. cbn in E. branches. split; [by eapply StepTask|by apply Z.ltb_lt].
  - destruct (_ && _)%bool eqn:Ha in E; [|done]. apply andb_true_iff in Ha as [Ht Ha%allowed_b_ok].
    apply existsb_exists in Ht as (u & Hu%list_elem_of_In & ->%Nat.eqb_eq).
    destruct (user_step u a s) as [[x|]|] eqn:Hx; try done. branches. split; [by eapply StepUser|by apply Z.ltb_lt].
Qed.

(** An event that is not possible is skipped. *)
Definition play (n : nat) (ts : list tid) (es : list event) (s : sys) : sys :=
  foldl (fun s e => default s (exec1 n ts e s)) s es.

Lemma play_reachable n ts es s : reachable n ts s -> reachable n ts (play n ts es s).
Proof.
  revert s. induction es as [|e es IH]; intros s Hr; cbn; [done|]. apply IH.
  destruct (exec1 n ts e s) as [s1|] eqn:E; [by eapply exec1_reachable|done].
Qed.

Definition rounds (k : nat) : list event :=
  concat (replicate k [EQuiesce; ESync false; EUser 0%nat (Continue false); ETask 0]).

(** A pool of one cpu, opened at txg 4: thread 0 has a callback in a txg that
    thread 1 waits for, and has not released it. *)
Definition demo_hold : sys :=
  play 1 [0; 1]%nat [EUser 0%nat SyncStart; EUser 0%nat (HoldOpen 0%nat); EUser 0%nat (Continue false); EUser 0%nat ReleToQuiesce;
    EUser 0%nat (RegisterCallbacks [7%nat]); EUser 1%nat (WaitSynced 4)] (txg_init 4).
(** Thread 0 has gone to the next txg, and the first is being synced. *)
Definition demo_sync : sys :=
  play 1 [0; 1]%nat ([ESync false; ESync false; EQuiesce; EQuiesce; EQuiesce; EQuiesce; EQuiesce; EUser 0%nat ReleToSync;
    EUser 0%nat (HoldOpen 0%nat); EUser 0%nat (Continue false); EUser 0%nat ReleToQuiesce] ++ replicate 3 EQuiesce ++ [ESync false]) demo_hold.
(** The pool has been used, stopped, and is about to be closed. *)
Definition demo_stop : sys :=
  play 1 [0; 1]%nat (EUser 0%nat ReleToSync :: rounds 40 ++ [EUser 1%nat (Continue false); EUser 0%nat SyncStop] ++ rounds 80) demo_sync.

Lemma demo_reachable : reachable 1 [0; 1]%nat demo_hold /\ reachable 1 [0; 1]%nat demo_sync /\ reachable 1 [0; 1]%nat demo_stop.
Proof.
  assert (reachable 1 [0; 1]%nat demo_hold) as H1 by (apply play_reachable, ReachInit; unfold TXG_LIMIT; lia).
  assert (reachable 1 [0; 1]%nat demo_sync) as H2 by (by apply play_reachable).
  split_and!; [done..|]. by apply play_reachable.
Qed.

Lemma demo_threads : NoDup [0; 1]%nat.
Proof. by repeat constructor; set_solver. Qed.

Lemma demo_stop_idle t : upc demo_stop t = UIdle.
Proof.
  revert t. apply (idle_all (max_ncpus := 1) (tids := [0; 1]%nat)).
  - exact (i_users _ _ _ (txg_reachable_inv _ _ demo_threads demo_stop (proj2 (proj2 demo_reachable)))).
  - intros t Ht. apply elem_of_cons in Ht as [->|Ht]; [vm_compute; reflexivity|].
    apply list_elem_of_singleton in Ht as ->. vm_compute. reflexivity.
Qed.

(** While txg 4 is synced thread 0 holds txg 5, and nobody holds txg 4. *)
Lemma txg_order_witness :
  tx_syncing_txg demo_sync = 4 /\ holds demo_sync 0%nat 5 /\
  txg_verify demo_sync 5 = Ret tt /\ tc_count (tx_cpu demo_sync 0%nat) (txg_slot 4) = 0.
Proof.
  assert (tx_syncing_txg demo_sync = 4) as H4 by (vm_compute; reflexivity).
  assert (holds demo_sync 0%nat 5) as H5 by (exists 0%nat; right; right; vm_compute; reflexivity).
  destruct (txg_order 1 [0; 1]%nat demo_sync demo_threads (proj1 (proj2 demo_reachable))) as (_ & _ & _ & _ & _ & Hh & Hc).
  split; [exact H4|]. split; [exact H5|]. split; [exact (proj2 (Hh 0%nat 5 H5))|].
  exact (proj1 (Hc 4 0%nat ltac:(lia) (or_introl (eq_sym H4)))).
Defined.

Lemma txg_safe_witness : exists s', txg_sync_start 0%nat (mutex_enter (UT 0%nat) (txg_init 4)) = Ret s'.
Proof.
  apply (txg_safe 1 [0; 1]%nat (txg_init 4) (txg_sync_start 0%nat (mutex_enter (UT 0%nat) (txg_init 4))) demo_threads).
  - apply ReachInit. split; reflexivity.
  - apply (StepUser 1 [0; 1]%nat 0%nat SyncStart).
    + left.
    + split; [reflexivity|]. intros u _. reflexivity.
    + reflexivity.
Defined.

Lemma txg_callbacks_witness :
  waiting 1 demo_sync = [Callback 7 4] /\ registered demo_sync ≡ₚ waiting 1 demo_sync ++ dispatched demo_sync ++ called demo_sync /\
  called demo_stop = [Callback 7 4] /\ Forall (fun cb => cb_txg cb <= tx_synced_txg demo_stop) (dispatched demo_stop ++ called demo_stop).
Proof.
  split; [vm_compute; reflexivity|].
  split; [exact (proj1 (txg_callbacks 1 [0; 1]%nat demo_sync demo_threads (proj1 (proj2 demo_reachable))))|].
  split; [vm_compute; reflexivity|].
  exact (proj1 (proj2 (txg_callbacks 1 [0; 1]%nat demo_stop demo_threads (proj2 (proj2 demo_reachable))))).
Defined.

(** Thread 1 waits for txg 4, which thread 0 holds. *)
Lemma txg_wait_completes_witness :
  upc demo_hold 0%nat = UAssigned 0 4 /\
  exists s', rtc (drive 1 [0; 1]%nat) demo_hold s' /\ 4 <= tx_synced_txg s' /\ upc s' 1%nat = UIdle.
Proof.
  split; [vm_compute; reflexivity|].
  apply (proj1 (txg_wait_completes 1 [0; 1]%nat demo_hold 1%nat demo_threads (proj1 demo_reachable)) false 4).
  - vm_compute. reflexivity.
  - vm_compute. reflexivity.
  - vm_compute. reflexivity.
Defined.

Lemma txg_fini_safe_witness : called demo_stop = [Callback 7 4] /\ txg_fini 1 demo_stop = Ret tt.
Proof.
  split; [vm_compute; reflexivity|].
  apply (txg_fini_safe 1 [0; 1]%nat demo_stop demo_threads (proj2 (proj2 demo_reachable))).
  - vm_compute. reflexivity.
  - exact demo_stop_idle.
Defined.
