(* ===== verification/TxgList.v ===== *)
(** * Lists of objects per transaction group

    Model of the second part of [kernel/fs/zfs/txg.c] with [sys/txg.h]: lists of
    objects that are dirty in a txg, linked through a node in each object.  An
    object and its node are addresses [tl_offset] apart; memory is a function
    from the addresses of nodes; a pointer to a link ([txg_node_t **]) is the
    head of the list or the link of a node, and reading through [NULL] panics.
    The operations that change a list do so under [tl_lock], and are one step.
    The state of the pool, for [txg_verify], is that of [Txg].

    The lists refine lists without repetition, one per slot. *)

From stdpp Require Import functions.
From S2P Require Import Prelude TxgData Txg.

(** ** Data *)

(** [txg_node_t]. *)
Record txg_node : Type := TxgNode { tn_next : nat -> Z; tn_member : nat -> bool }.

(** [txg_list_t] with the memory its nodes are in. *)
Record txg_list : Type := TxgList { tl_offset : Z; tl_head : nat -> Z; nodes : Z -> txg_node }.

Definition NULL : Z := 0.

Definition set_node (tl : txg_list) (n : Z) (v : txg_node) : txg_list :=
  TxgList (tl_offset tl) (tl_head tl) (<[n := v]> (nodes tl)).
Definition set_tn_next (tl : txg_list) (n : Z) (t : nat) (v : Z) : txg_list :=
  set_node tl n (TxgNode (upd (tn_next (nodes tl n)) t v) (tn_member (nodes tl n))).
Definition set_tn_member (tl : txg_list) (n : Z) (t : nat) (v : bool) : txg_list :=
  set_node tl n (TxgNode (tn_next (nodes tl n)) (upd (tn_member (nodes tl n)) t v)).
Definition set_tl_head (tl : txg_list) (t : nat) (v : Z) : txg_list :=
  TxgList (tl_offset tl) (upd (tl_head tl) t v) (nodes tl).

(** A pointer to a link. *)
Inductive link : Type := LHead | LNext (n : Z).

Definition load (tl : txg_list) (t : nat) (tp : link) : Z :=
  match tp with LHead => tl_head tl t | LNext n => tn_next (nodes tl n) t end.
Definition store (tl : txg_list) (t : nat) (tp : link) (v : Z) : txg_list :=
  match tp with LHead => set_tl_head tl t v | LNext n => set_tn_next tl n t v end.

(** ** Operations *)

Definition txg_list_create (offset : Z) (memory : Z -> txg_node) : txg_list := TxgList offset (fun _ => NULL) memory.

Definition txg_list_empty (pool : sys) (tl : txg_list) (txg : Z) : result bool :=
  _ ← txg_verify pool txg; Ret (tl_head tl (txg_slot txg) =? NULL).

Definition txg_list_destroy (pool : sys) (tl : txg_list) : result unit :=
  for_loop (Z.to_nat TXG_SIZE) 0 (fun t _ => e ← txg_list_empty pool tl (Z.of_nat t); verify e) tt.

(** The loop from [i] on. *)
Fixpoint txg_all_lists_empty (n i : nat) (pool : sys) (tl : txg_list) : result bool :=
  match n with
  | O => Ret true
  | S n' => e ← txg_list_empty pool tl (Z.of_nat i); if e : bool then txg_all_lists_empty n' (S i) pool tl else Ret false
  end.

Definition txg_list_add (pool : sys) (tl : txg_list) (p txg : Z) : result (bool * txg_list) :=
  let t := txg_slot txg in
  let tn := p + tl_offset tl in
  _ ← txg_verify pool txg;
  _ ← verify (negb (tn =? NULL));
  let add := negb (tn_member (nodes tl tn) t) in
  Ret (add, if add then
    let tl := set_tn_member tl tn t true in
    let tl := set_tn_next tl tn t (tl_head tl t) in
    set_tl_head tl t tn
  else tl).

(** [for (tp = &tl->tl_head[t]; *tp != NULL; tp = &( *tp)->tn_next[t])]. *)
Fixpoint list_end (fuel : nat) (tl : txg_list) (t : nat) (tp : link) : result link :=
  match fuel with
  | O => Panic
  | S fuel' => if load tl t tp =? NULL then Ret tp else list_end fuel' tl t (LNext (load tl t tp))
  end.

Definition txg_list_add_tail (fuel : nat) (pool : sys) (tl : txg_list) (p txg : Z) : result (bool * txg_list) :=
  let t := txg_slot txg in
  let tn := p + tl_offset tl in
  _ ← txg_verify pool txg;
  _ ← verify (negb (tn =? NULL));
  let add := negb (tn_member (nodes tl tn) t) in
  if add then
    tp ← list_end fuel tl t LHead;
    let tl := set_tn_member tl tn t true in
    let tl := set_tn_next tl tn t NULL in
    Ret (true, store tl t tp tn)
  else Ret (false, tl).

Definition txg_list_remove (pool : sys) (tl : txg_list) (txg : Z) : result (Z * txg_list) :=
  let t := txg_slot txg in
  _ ← txg_verify pool txg;
  let tn := tl_head tl t in
  if negb (tn =? NULL) then
    let next := tn_next (nodes tl tn) t in
    _ ← verify (tn_member (nodes tl tn) t);
    _ ← verify ((next =? NULL) || tn_member (nodes tl next) t);
    let p := tn - tl_offset tl in
    let tl := set_tl_head tl t next in
    let tl := set_tn_next tl tn t NULL in
    Ret (p, set_tn_member tl tn t false)
  else Ret (NULL, tl).

(** The link to the node of [p]; [None]: there is none. *)
Fixpoint find_link (fuel : nat) (tl : txg_list) (t : nat) (p : Z) (tp : link) : result (option link) :=
  match fuel with
  | O => Panic
  | S fuel' =>
      let tn := load tl t tp in
      if tn =? NULL then Ret None
      else if tn - tl_offset tl =? p then Ret (Some tp) else find_link fuel' tl t p (LNext tn)
  end.

Definition txg_list_remove_this (fuel : nat) (pool : sys) (tl : txg_list) (p txg : Z) : result (Z * txg_list) :=
  let t := txg_slot txg in
  _ ← txg_verify pool txg;
  tp ← find_link fuel tl t p LHead;
  match tp with
  | Some tp =>
      let tn := load tl t tp in
      let tl := store tl t tp (tn_next (nodes tl tn) t) in
      let tl := set_tn_next tl tn t NULL in
      Ret (p, set_tn_member tl tn t false)
  | None => Ret (NULL, tl)
  end.

Definition txg_list_member (pool : sys) (tl : txg_list) (p txg : Z) : result bool :=
  let tn := p + tl_offset tl in
  _ ← txg_verify pool txg;
  _ ← verify (negb (tn =? NULL));
  Ret (tn_member (nodes tl tn) (txg_slot txg)).

Definition txg_list_head (pool : sys) (tl : txg_list) (txg : Z) : result Z :=
  let tn := tl_head tl (txg_slot txg) in
  _ ← txg_verify pool txg;
  Ret (if tn =? NULL then NULL else tn - tl_offset tl).

Definition txg_list_next (pool : sys) (tl : txg_list) (p txg : Z) : result Z :=
  let tn := p + tl_offset tl in
  _ ← txg_verify pool txg;
  _ ← verify (negb (tn =? NULL));
  let tn := tn_next (nodes tl tn) (txg_slot txg) in
  Ret (if tn =? NULL then NULL else tn - tl_offset tl).

(** ** What the lists stand for *)

(** The nodes from an address on. *)
Fixpoint linked (tl : txg_list) (t : nat) (a : Z) (ns : list Z) : Prop :=
  match ns with
  | [] => a = NULL
  | n :: ns' => a = n /\ n <> NULL /\ linked tl t (tn_next (nodes tl n) t) ns'
  end.

(** The objects in the list of every slot. *)
Record rep (tl : txg_list) (L : nat -> list Z) : Prop := Rep {
  r_linked t : linked tl t (tl_head tl t) ((fun p => p + tl_offset tl) <$> L t);
  r_nodup t : NoDup (L t);
  r_member t p : tn_member (nodes tl (p + tl_offset tl)) t = bool_decide (p ∈ L t);
}.

(** ** The specification: lists without repetition *)

Inductive op : Type :=
| OpAdd (p : Z)
| OpAddTail (p : Z)
| OpRemove
| OpRemoveThis (p : Z)
| OpMember (p : Z)
| OpEmpty
| OpHead
| OpNext (p : Z).

Inductive value : Type := VBool (b : bool) | VPtr (p : Z).

(** The element after [p]. *)
Fixpoint after (p : Z) (l : list Z) : Z :=
  match l with
  | [] => NULL
  | x :: l' => if x =? p then match l' with [] => NULL | y :: _ => y end else after p l'
  end.

Definition spec_op (o : op) (l : list Z) : value * list Z :=
  match o with
  | OpAdd p => if bool_decide (p ∈ l) then (VBool false, l) else (VBool true, p :: l)
  | OpAddTail p => if bool_decide (p ∈ l) then (VBool false, l) else (VBool true, l ++ [p])
  | OpRemove => match l with [] => (VPtr NULL, []) | p :: l' => (VPtr p, l') end
  | OpRemoveThis p => if bool_decide (p ∈ l) then (VPtr p, filter (fun x => x <> p) l) else (VPtr NULL, l)
  | OpMember p => (VBool (bool_decide (p ∈ l)), l)
  | OpEmpty => (VBool (match l with [] => true | _ :: _ => false end), l)
  | OpHead => (VPtr (match l with [] => NULL | p :: _ => p end), l)
  | OpNext p => (VPtr (after p l), l)
  end.

Definition run_op (fuel : nat) (pool : sys) (txg : Z) (o : op) (tl : txg_list) : result (value * txg_list) :=
  match o with
  | OpAdd p => r ← txg_list_add pool tl p txg; Ret (VBool r.1, r.2)
  | OpAddTail p => r ← txg_list_add_tail fuel pool tl p txg; Ret (VBool r.1, r.2)
  | OpRemove => r ← txg_list_remove pool tl txg; Ret (VPtr r.1, r.2)
  | OpRemoveThis p => r ← txg_list_remove_this fuel pool tl p txg; Ret (VPtr r.1, r.2)
  | OpMember p => b ← txg_list_member pool tl p txg; Ret (VBool b, tl)
  | OpEmpty => b ← txg_list_empty pool tl txg; Ret (VBool b, tl)
  | OpHead => p ← txg_list_head pool tl txg; Ret (VPtr p, tl)
  | OpNext p => p ← txg_list_next pool tl p txg; Ret (VPtr p, tl)
  end.

(** The object is there, and [txg_list_next] is asked of an element. *)
Definition op_ok (offset : Z) (o : op) (l : list Z) : Prop :=
  match o with
  | OpAdd p | OpAddTail p | OpMember p => p + offset <> NULL
  | OpNext p => p ∈ l
  | OpRemove | OpRemoveThis _ | OpEmpty | OpHead => True
  end.

(** Sequences of operations, each on the list of a txg, with the state the pool
    is in at the time. *)

Fixpoint run_ops (fuel : nat) (ops : list (sys * Z * op)) (tl : txg_list) : result (list value * txg_list) :=
  match ops with
  | [] => Ret ([], tl)
  | (pool, txg, o) :: ops' =>
      r ← run_op fuel pool txg o tl;
      rs ← run_ops fuel ops' r.2;
      Ret (r.1 :: rs.1, rs.2)
  end.

Fixpoint spec_ops (ops : list (sys * Z * op)) (L : nat -> list Z) : list value * (nat -> list Z) :=
  match ops with
  | [] => ([], L)
  | (_, txg, o) :: ops' =>
      let r := spec_op o (L (txg_slot txg)) in
      let rs := spec_ops ops' (upd L (txg_slot txg) r.2) in
      (r.1 :: rs.1, rs.2)
  end.

(** The callers: every txg is one of those the pool is working on. *)
Fixpoint ops_ok (offset : Z) (ops : list (sys * Z * op)) (L : nat -> list Z) : Prop :=
  match ops with
  | [] => True
  | (pool, txg, o) :: ops' =>
      let l := L (txg_slot txg) in
      txg_verify pool txg = Ret tt /\ op_ok offset o l /\ ops_ok offset ops' (upd L (txg_slot txg) (spec_op o l).2)
  end.

(** Whether all lists are empty. *)
Definition all_empty (L : nat -> list Z) : bool :=
  forallb (fun t => match L t with [] => true | _ :: _ => false end) (seq 0 (Z.to_nat TXG_SIZE)).

(** ** Lemmas *)

Lemma next_set_next tl n t v m t' :
  tn_next (nodes (set_tn_next tl n t v) m) t' = if bool_decide (m = n /\ t' = t) then v else tn_next (nodes tl m) t'.
Proof.
  cbn. destruct (decide (m = n)) as [->|Hne]; [rewrite fn_lookup_insert; cbn|rewrite fn_lookup_insert_ne by done].
  - destruct (decide (t' = t)) as [->|Ht]; [rewrite upd_eq, bool_decide_eq_true_2 by done|rewrite upd_ne, bool_decide_eq_false_2 by naive_solver]; done.
  - by rewrite bool_decide_eq_false_2 by naive_solver.
Qed.

Lemma member_set_member tl n t v m t' :
  tn_member (nodes (set_tn_member tl n t v) m) t' = if bool_decide (m = n /\ t' = t) then v else tn_member (nodes tl m) t'.
Proof.
  cbn. destruct (decide (m = n)) as [->|Hne]; [rewrite fn_lookup_insert; cbn|rewrite fn_lookup_insert_ne by done].
  - destruct (decide (t' = t)) as [->|Ht]; [rewrite upd_eq, bool_decide_eq_true_2 by done|rewrite upd_ne, bool_decide_eq_false_2 by naive_solver]; done.
  - by rewrite bool_decide_eq_false_2 by naive_solver.
Qed.

Lemma next_set_member tl n t v m t' : tn_next (nodes (set_tn_member tl n t v) m) t' = tn_next (nodes tl m) t'.
Proof. cbn. destruct (decide (m = n)) as [->|Hne]; [by rewrite fn_lookup_insert|by rewrite fn_lookup_insert_ne]. Qed.

Lemma member_set_next tl n t v m t' : tn_member (nodes (set_tn_next tl n t v) m) t' = tn_member (nodes tl m) t'.
Proof. cbn. destruct (decide (m = n)) as [->|Hne]; [by rewrite fn_lookup_insert|by rewrite fn_lookup_insert_ne]. Qed.

Lemma linked_frame tl tl' t a ns :
  (forall n, n ∈ ns -> tn_next (nodes tl' n) t = tn_next (nodes tl n) t) -> linked tl t a ns -> linked tl' t a ns.
Proof.
  revert a. induction ns as [|n ns IH]; intros a Hf; cbn; [done|]. intros (-> & Hn & Hl). split_and!; [done..|].
  rewrite Hf by (by left). apply IH; [|done]. intros m Hm. apply Hf. by right.
Qed.

(** A list whose last link is changed. *)
Lemma linked_relink tl tl' t v a ns ns' r m :
  last ns = Some m -> NoDup ns -> linked tl t a (ns ++ r) ->
  tn_next (nodes tl' m) t = v -> (forall n, n ∈ ns -> n <> m -> tn_next (nodes tl' n) t = tn_next (nodes tl n) t) ->
  linked tl' t v ns' -> linked tl' t a (ns ++ ns').
Proof.
  revert a. induction ns as [|n ns IH]; intros a Hlast Hnd Hl Hm Hf Hv; [done|]. apply NoDup_cons in Hnd as [Hn Hnd].
  cbn in Hl. destruct Hl as (-> & Hn0 & Hl). cbn. split_and!; [done..|]. destruct ns as [|n' ns].
  - cbn in Hlast. injection Hlast as ->. cbn. by rewrite Hm.
  - assert (n <> m) as Hne. { intros ->. apply Hn. apply last_Some_elem_of. by rewrite <- Hlast. }
    rewrite Hf by (done || by left). apply IH; try done. intros x Hx. apply Hf. by right.
Qed.

(** The link at the end of a list. *)
Definition end_link (tp : link) (ns : list Z) : link := match last ns with Some n => LNext n | None => tp end.

Lemma end_link_cons tp n ns : end_link (LNext n) ns = end_link tp (n :: ns).
Proof.
  unfold end_link. destruct ns as [|m ns]; [done|]. rewrite last_cons_cons.
  destruct (last (m :: ns)) eqn:E; [done|]. by apply last_None in E.
Qed.

Lemma list_end_ok fuel tl t tp ns :
  linked tl t (load tl t tp) ns -> (length ns < fuel)%nat -> list_end fuel tl t tp = Ret (end_link tp ns).
Proof.
  revert tp ns. induction fuel as [|fuel IH]; intros tp ns Hl Hlen; [lia|]. cbn. destruct ns as [|n ns]; cbn in Hl.
  - by rewrite Hl.
  - destruct Hl as (Hn & Hn0 & Hl). rewrite Hn. destruct (Z.eqb_spec n NULL); [done|]. cbn in Hlen.
    rewrite (IH (LNext n) ns) by (done || lia). by rewrite (end_link_cons tp).
Qed.

Lemma find_link_ok fuel tl t tp ns1 ns2 p :
  linked tl t (load tl t tp) (ns1 ++ p + tl_offset tl :: ns2) -> p + tl_offset tl ∉ ns1 -> (length ns1 < fuel)%nat ->
  find_link fuel tl t p tp = Ret (Some (end_link tp ns1)) /\ load tl t (end_link tp ns1) = p + tl_offset tl.
Proof.
  revert tp ns1. induction fuel as [|fuel IH]; intros tp ns1 Hl Hni Hlen; [lia|]. cbn [find_link]. destruct ns1 as [|n ns1]; cbn in Hl.
  - destruct Hl as (Hn & Hn0 & _). rewrite Hn. destruct (Z.eqb_spec (p + tl_offset tl) NULL); [done|].
    destruct (Z.eqb_spec (p + tl_offset tl - tl_offset tl) p); [|lia]. done.
  - destruct Hl as (Hn & Hn0 & Hl). rewrite Hn. destruct (Z.eqb_spec n NULL); [done|]. cbn in Hlen.
    apply not_elem_of_cons in Hni as [Hne Hni]. destruct (Z.eqb_spec (n - tl_offset tl) p); [lia|].
    rewrite <- (end_link_cons tp). apply IH; try done. lia.
Qed.

Lemma find_link_none fuel tl t tp ns p :
  linked tl t (load tl t tp) ns -> p + tl_offset tl ∉ ns -> (length ns < fuel)%nat -> find_link fuel tl t p tp = Ret None.
Proof.
  revert tp ns. induction fuel as [|fuel IH]; intros tp ns Hl Hni Hlen; [lia|]. cbn [find_link]. destruct ns as [|n ns]; cbn in Hl.
  - by rewrite Hl.
  - destruct Hl as (Hn & Hn0 & Hl). rewrite Hn. destruct (Z.eqb_spec n NULL); [done|]. cbn in Hlen.
    apply not_elem_of_cons in Hni as [Hne Hni]. destruct (Z.eqb_spec (n - tl_offset tl) p); [lia|]. apply (IH _ ns); try done. lia.
Qed.

(** The stores change one slot only. *)
Definition only (t : nat) (tl tl' : txg_list) : Prop :=
  tl_offset tl' = tl_offset tl /\
  forall t', t' <> t -> tl_head tl' t' = tl_head tl t' /\ forall n, tn_next (nodes tl' n) t' = tn_next (nodes tl n) t' /\
    tn_member (nodes tl' n) t' = tn_member (nodes tl n) t'.

#[export] Instance only_refl t : Reflexive (only t).
Proof. done. Qed.

#[export] Instance only_trans t : Transitive (only t).
Proof.
  intros a b c [Ho1 H1] [Ho2 H2]. split; [congruence|]. intros t' Hne. destruct (H1 t' Hne) as [Hh1 Hn1], (H2 t' Hne) as [Hh2 Hn2].
  split; [congruence|]. intros n. destruct (Hn1 n), (Hn2 n). split; congruence.
Qed.

Lemma only_head t tl v : only t tl (set_tl_head tl t v).
Proof. split; [done|]. intros t' Hne. cbn. by rewrite upd_ne. Qed.

Lemma only_next t tl n v : only t tl (set_tn_next tl n t v).
Proof.
  split; [done|]. intros t' Hne. split; [done|]. intros m. rewrite next_set_next, member_set_next.
  by rewrite bool_decide_eq_false_2 by naive_solver.
Qed.

Lemma only_member t tl n v : only t tl (set_tn_member tl n t v).
Proof.
  split; [done|]. intros t' Hne. split; [done|]. intros m. rewrite member_set_member, next_set_member.
  by rewrite bool_decide_eq_false_2 by naive_solver.
Qed.

Lemma only_store t tl tp v : only t tl (store tl t tp v).
Proof. destruct tp; [apply only_head|apply only_next]. Qed.

(** One list is replaced, and the others are left alone. *)
Lemma rep_change tl tl' L t l :
  rep tl L -> only t tl tl' -> linked tl' t (tl_head tl' t) ((fun p => p + tl_offset tl) <$> l) -> NoDup l ->
  (forall p, tn_member (nodes tl' (p + tl_offset tl)) t = bool_decide (p ∈ l)) -> rep tl' (upd L t l).
Proof.
  intros [H1 H2 H3] [Ho Hf] Hl Hnd Hm. constructor; intros t'; rewrite ?Ho.
  - apply upd_case; [by intros ->|intros Hne]. destruct (Hf t' Hne) as [-> Hn]. eapply linked_frame; [|exact (H1 t')]. intros n _. apply Hn.
  - apply upd_case; [done|]. intros _. apply H2.
  - intros p. destruct (decide (t' = t)) as [->|Hne]; [by rewrite upd_eq|rewrite upd_ne by done].
    destruct (Hf t' Hne) as [_ Hn]. rewrite (proj2 (Hn _)). apply H3.
Qed.

(** A list that is not changed. *)
Lemma rep_same tl L t : rep tl L -> rep tl (upd L t (L t)).
Proof. intros Hr. apply (rep_change tl); try done; apply Hr. Qed.

(** What the link at the end of a prefix is set to, seen from the head: the
    prefix, and what is linked from the new value on. *)
Lemma linked_store tl t ns r v ns' :
  NoDup ns -> linked tl t (tl_head tl t) (ns ++ r) -> Forall (fun n => n ∉ ns) ns' -> linked tl t v ns' ->
  linked (store tl t (end_link LHead ns) v) t (tl_head (store tl t (end_link LHead ns) v) t) (ns ++ ns').
Proof.
  intros Hnd Hl Hni Hv. unfold end_link. destruct (last ns) as [m|] eqn:Hm.
  - assert (m ∈ ns) as Hin by (apply last_Some_elem_of; by rewrite Hm). cbn [store].
    apply (linked_relink tl _ t v _ ns ns' r m); try done.
    + rewrite next_set_next. by rewrite bool_decide_eq_true_2.
    + intros n _ Hne. rewrite next_set_next. rewrite bool_decide_eq_false_2; naive_solver.
    + eapply linked_frame; [|exact Hv]. intros n Hn. rewrite next_set_next. rewrite bool_decide_eq_false_2; [done|].
      rewrite Forall_forall in Hni. specialize (Hni n Hn). naive_solver.
  - apply last_None in Hm as ->. cbn. rewrite upd_eq. eapply linked_frame; [|exact Hv]. done.
Qed.

Lemma member_of_store tl t tp v m t' : tn_member (nodes (store tl t tp v) m) t' = tn_member (nodes tl m) t'.
Proof. destruct tp; [done|apply member_set_next]. Qed.

Lemma linked_app tl t a ns1 ns2 : linked tl t a (ns1 ++ ns2) -> exists b, linked tl t b ns2.
Proof. revert a. induction ns1 as [|n ns1 IH]; intros a; cbn; [eauto|]. intros (_ & _ & Hl). eauto. Qed.

Lemma head_null tl L t : rep tl L -> (tl_head tl t =? NULL) = match L t with [] => true | _ :: _ => false end.
Proof.
  intros Hr. pose proof (r_linked _ _ Hr t) as Hl. destruct (L t) as [|p l]; cbn in Hl; [by rewrite Hl|].
  destruct Hl as (-> & Hp & _). by apply Z.eqb_neq.
Qed.

(** ** Every operation does what the specification says *)

Section operations.
Context (pool : sys) (tl : txg_list) (L : nat -> list Z) (txg : Z).
Context (Hr : rep tl L) (Hv : txg_verify pool txg = Ret tt).
Notation t := (txg_slot txg).
Notation node p := (p + tl_offset tl).

Lemma node_elem p (l : list Z) : node p ∈ (fun p => node p) <$> l <-> p ∈ l.
Proof using. rewrite list_elem_of_fmap. split; [intros (q & Hq & Hin); by replace p with q by lia|eauto]. Qed.

Lemma nodup_nodes (l : list Z) : NoDup l -> NoDup ((fun p => node p) <$> l).
Proof using. apply NoDup_fmap_2. intros p q. lia. Qed.

(** The node of an object that is not in the list can be changed. *)
Lemma linked_fresh tl1 tl2 n a (l : list Z) :
  (forall m, m <> node n -> tn_next (nodes tl2 m) t = tn_next (nodes tl1 m) t) -> n ∉ l ->
  linked tl1 t a ((fun p => node p) <$> l) -> linked tl2 t a ((fun p => node p) <$> l).
Proof using. intros Hf Hni. apply linked_frame. intros m Hm. apply Hf. intros ->. by apply (proj1 (node_elem n l)) in Hm. Qed.

Lemma member_insert tl' p (l : list Z) :
  (forall q, tn_member (nodes tl' (node q)) t = if bool_decide (q = p) then true else bool_decide (q ∈ L t)) ->
  (forall q, q ∈ l <-> q = p \/ q ∈ L t) -> forall q, tn_member (nodes tl' (node q)) t = bool_decide (q ∈ l).
Proof using.
  intros H1 H2 q. rewrite H1. destruct (bool_decide_reflect (q = p)) as [->|Hne].
  - symmetry. apply bool_decide_eq_true_2. apply H2. by left.
  - apply bool_decide_ext. rewrite H2. naive_solver.
Qed.

Lemma member_delete tl' p (l : list Z) :
  (forall q, tn_member (nodes tl' (node q)) t = if bool_decide (q = p) then false else bool_decide (q ∈ L t)) ->
  (forall q, q ∈ l <-> q <> p /\ q ∈ L t) -> forall q, tn_member (nodes tl' (node q)) t = bool_decide (q ∈ l).
Proof using.
  intros H1 H2 q. rewrite H1. destruct (bool_decide_reflect (q = p)) as [->|Hne].
  - symmetry. apply bool_decide_eq_false_2. rewrite H2. naive_solver.
  - apply bool_decide_ext. rewrite H2. naive_solver.
Qed.

(** The member bits after a store of one. *)
Lemma member_store p v q :
  (if bool_decide (node q = node p /\ t = t) then v else tn_member (nodes tl (node q)) t) =
  if bool_decide (q = p) then v else bool_decide (q ∈ L t).
Proof using Hr. rewrite (r_member _ _ Hr). erewrite (bool_decide_ext (_ /\ _)); [done|]. lia. Qed.

Lemma list_add_ok p :
  node p <> NULL -> exists tl', txg_list_add pool tl p txg = Ret (negb (bool_decide (p ∈ L t)), tl') /\
    rep tl' (upd L t (if bool_decide (p ∈ L t) then L t else p :: L t)).
Proof using Hr Hv.
  intros Hp. unfold txg_list_add. rewrite Hv. cbn [mbind result_bind]. destruct (Z.eqb_spec (node p) NULL); [done|].
  cbn [negb verify mbind result_bind]. rewrite (r_member _ _ Hr).
  destruct (bool_decide_reflect (p ∈ L t)) as [Hin|Hni]; cbn [negb]; eexists; (split; [done|]); [by apply rep_same|].
  apply (rep_change tl); [done|..].
  - etrans; [apply only_member|]. etrans; [apply only_next|]. apply only_head.
  - rewrite fmap_cons. cbn [linked tl_head set_tl_head nodes]. rewrite upd_eq, next_set_next, bool_decide_eq_true_2 by done.
    split_and!; [done..|]. eapply (linked_fresh tl _ p); [|done|exact (r_linked _ _ Hr t)].
    intros m Hm. cbn [nodes set_tl_head]. rewrite next_set_next, bool_decide_eq_false_2 by naive_solver. apply next_set_member.
  - apply NoDup_cons. split; [done|apply Hr].
  - apply (member_insert _ p); [|by intros; rewrite elem_of_cons]. intros q. cbn [nodes set_tl_head].
    rewrite member_set_next, member_set_member. apply member_store.
Qed.

Lemma list_add_tail_ok fuel p :
  node p <> NULL -> (length (L t) < fuel)%nat ->
  exists tl', txg_list_add_tail fuel pool tl p txg = Ret (negb (bool_decide (p ∈ L t)), tl') /\
    rep tl' (upd L t (if bool_decide (p ∈ L t) then L t else L t ++ [p])).
Proof using Hr Hv.
  intros Hp Hlen. unfold txg_list_add_tail. rewrite Hv. cbn [mbind result_bind]. destruct (Z.eqb_spec (node p) NULL); [done|].
  cbn [negb verify mbind result_bind]. rewrite (r_member _ _ Hr).
  destruct (bool_decide_reflect (p ∈ L t)) as [Hin|Hni]; cbn [negb]; [eexists; split; [done|by apply rep_same]|].
  rewrite (list_end_ok fuel tl t LHead _ (r_linked _ _ Hr t)) by (by rewrite length_fmap).
  cbn [mbind result_bind]. eexists. split; [done|]. apply (rep_change tl); [done|..].
  - etrans; [apply only_member|]. etrans; [apply only_next|]. apply only_store.
  - rewrite fmap_app. apply (linked_store _ _ _ []).
    + apply nodup_nodes, Hr.
    + rewrite app_nil_r. cbn [tl_head set_tn_next set_tn_member set_node]. eapply (linked_fresh tl _ p); [|done|exact (r_linked _ _ Hr t)].
      intros m Hm. rewrite next_set_next, bool_decide_eq_false_2 by naive_solver. apply next_set_member.
    + constructor; [|constructor]. intros Hx. by apply (proj1 (node_elem p _)) in Hx.
    + cbn [fmap list_fmap linked]. rewrite next_set_next, bool_decide_eq_true_2 by done. done.
  - apply NoDup_app. split_and!; [apply Hr| |apply NoDup_singleton]. intros q Hq Hx%list_elem_of_singleton. by subst.
  - apply (member_insert _ p); [|intros q; rewrite elem_of_app, list_elem_of_singleton; tauto]. intros q.
    rewrite member_of_store, member_set_next, member_set_member. apply member_store.
Qed.

(** A node is taken out after a prefix of the list. *)
Lemma take_out l1 l2 p :
  L t = l1 ++ p :: l2 ->
  rep (set_tn_member (set_tn_next (store tl t (end_link LHead ((fun p => node p) <$> l1)) (tn_next (nodes tl (node p)) t))
    (node p) t NULL) (node p) t false) (upd L t (l1 ++ l2)).
Proof using Hr.
  intros Hsplit. pose proof (r_nodup _ _ Hr t) as Hnd. rewrite Hsplit in Hnd. pose proof (r_linked _ _ Hr t) as Hl.
  rewrite Hsplit, fmap_app, fmap_cons in Hl. apply NoDup_app in Hnd as (Hnd1 & Hdisj & [Hp Hnd2]%NoDup_cons).
  assert (p ∉ l1) as Hp1 by (intros Hx; apply (Hdisj p Hx); by left).
  apply (rep_change tl); [done|..].
  - etrans; [apply only_store|]. etrans; [apply only_next|]. apply only_member.
  - eapply (linked_fresh (store _ _ _ _) _ p _ (l1 ++ l2)).
    + intros m Hm. rewrite next_set_member, next_set_next, bool_decide_eq_false_2 by naive_solver. done.
    + rewrite elem_of_app. tauto.
    + rewrite fmap_app. eapply (linked_store _ _ _ _); [by apply nodup_nodes|exact Hl| |].
      * apply Forall_forall. intros m Hm Hm'. apply list_elem_of_fmap in Hm as (q & -> & Hq). apply (proj1 (node_elem q _)) in Hm'.
        apply (Hdisj q Hm'). by right.
      * apply linked_app in Hl as [b (_ & _ & Hl)]. done.
  - apply NoDup_app. split_and!; [done| |done]. intros q Hq Hx. apply (Hdisj q Hq). by right.
  - apply (member_delete _ p).
    + intros q. rewrite member_set_member, member_set_next, member_of_store. apply member_store.
    + intros q. rewrite Hsplit, !elem_of_app, elem_of_cons. destruct (decide (q = p)) as [->|]; tauto.
Qed.

Lemma list_remove_ok :
  exists tl', txg_list_remove pool tl txg = Ret (match L t with [] => NULL | p :: _ => p end, tl') /\ rep tl' (upd L t (tail (L t))).
Proof using Hr Hv.
  unfold txg_list_remove. rewrite Hv. cbn [mbind result_bind]. pose proof (r_linked _ _ Hr t) as Hl. destruct (L t) as [|p l] eqn:Hk.
  - cbn in Hl. rewrite Hl. cbn. eexists. split; [done|]. cbn [tail]. replace (upd L t []) with (upd L t (L t)) by (by rewrite Hk). by apply rep_same.
  - rewrite fmap_cons in Hl. destruct Hl as (Hh & Hp & Hl). rewrite Hh. destruct (Z.eqb_spec (node p) NULL); [done|]. cbn [negb].
    rewrite (r_member _ _ Hr), bool_decide_eq_true_2 by (rewrite Hk; by left). cbn [verify mbind result_bind].
    assert ((tn_next (nodes tl (node p)) t =? NULL) || tn_member (nodes tl (tn_next (nodes tl (node p)) t)) t = true) as ->.
    { destruct l as [|q l]; cbn in Hl; [by rewrite Hl|]. destruct Hl as (-> & _ & _). rewrite (r_member _ _ Hr).
      rewrite bool_decide_eq_true_2 by (rewrite Hk; right; by left). apply orb_true_r. }
    cbn [verify mbind result_bind]. eexists. split; [by rewrite Z.add_simpl_r|]. exact (take_out [] l p Hk).
Qed.

Lemma list_remove_this_ok fuel p :
  (length (L t) < fuel)%nat ->
  exists tl', txg_list_remove_this fuel pool tl p txg = Ret (if bool_decide (p ∈ L t) then p else NULL, tl') /\
    rep tl' (upd L t (if bool_decide (p ∈ L t) then filter (fun x => x <> p) (L t) else L t)).
Proof using Hr Hv.
  intros Hlen. unfold txg_list_remove_this. rewrite Hv. cbn [mbind result_bind]. pose proof (r_linked _ _ Hr t) as Hl.
  destruct (bool_decide_reflect (p ∈ L t)) as [Hin|Hni].
  - apply list_elem_of_split in Hin as (l1 & l2 & Hsplit). pose proof (r_nodup _ _ Hr t) as Hnd. rewrite Hsplit in Hnd.
    apply NoDup_app in Hnd as (_ & Hdisj & [Hp2 _]%NoDup_cons). assert (p ∉ l1) as Hp1 by (intros Hx; apply (Hdisj p Hx); by left).
    rewrite Hsplit, fmap_app, fmap_cons in Hl. rewrite Hsplit, length_app in Hlen.
    destruct (find_link_ok fuel tl t LHead _ _ p Hl) as [-> Hld].
    { intros Hx. by apply (proj1 (node_elem p _)) in Hx. }
    { rewrite length_fmap. lia. }
    cbn [mbind result_bind]. rewrite Hld. eexists. split; [done|].
    replace (filter (fun x => x <> p) (L t)) with (l1 ++ l2); [by apply take_out|].
    rewrite Hsplit, filter_app, filter_cons_False by tauto.
    rewrite !(filter_all _ (fun x => x <> p)); try done; apply Forall_forall; by intros x Hx ->.
  - rewrite (find_link_none fuel tl t LHead _ p Hl); [|intros Hx; by apply (proj1 (node_elem p _)) in Hx|by rewrite length_fmap].
    eexists. split; [done|by apply rep_same].
Qed.

Lemma next_ok p : p ∈ L t -> txg_list_next pool tl p txg = Ret (after p (L t)).
Proof using Hr Hv.
  intros Hin. pose proof (r_linked _ _ Hr t) as Hl. unfold txg_list_next. rewrite Hv. cbn [mbind result_bind].
  revert Hin Hl. generalize (tl_head tl t). induction (L t) as [|x l IH]; intros a Hin Hl; [by apply not_elem_of_nil in Hin|].
  rewrite fmap_cons in Hl. destruct Hl as (-> & Hx & Hl). cbn [after]. destruct (Z.eqb_spec x p) as [->|Hne].
  - destruct (Z.eqb_spec (node p) NULL); [done|]. cbn [negb verify mbind result_bind].
    destruct l as [|y l]; cbn in Hl; [by rewrite Hl|]. destruct Hl as (-> & Hy & _).
    destruct (Z.eqb_spec (node y) NULL); [done|]. by rewrite Z.add_simpl_r.
  - apply elem_of_cons in Hin as [->|Hin]; [done|]. by apply (IH _ Hin Hl).
Qed.

(** Every operation gives the result of the specification. *)
Lemma op_refines fuel o :
  op_ok (tl_offset tl) o (L t) -> (length (L t) < fuel)%nat ->
  exists tl', run_op fuel pool txg o tl = Ret ((spec_op o (L t)).1, tl') /\ rep tl' (upd L t (spec_op o (L t)).2).
Proof using Hr Hv.
  intros Hok Hlen. destruct o as [p|p| |p|p| | |p]; cbn in Hok |- *.
  - destruct (list_add_ok p Hok) as (tl' & -> & Hr'). exists tl'. by case_bool_decide.
  - destruct (list_add_tail_ok fuel p Hok Hlen) as (tl' & -> & Hr'). exists tl'. by case_bool_decide.
  - destruct list_remove_ok as (tl' & -> & Hr'). exists tl'. by destruct (L t).
  - destruct (list_remove_this_ok fuel p Hlen) as (tl' & -> & Hr'). exists tl'. by case_bool_decide.
  - exists tl. split; [|by apply rep_same]. unfold txg_list_member. rewrite Hv. cbn [mbind result_bind].
    destruct (Z.eqb_spec (node p) NULL); [done|]. cbn. by rewrite (r_member _ _ Hr).
  - exists tl. split; [|by apply rep_same]. unfold txg_list_empty. rewrite Hv. cbn. by rewrite (head_null _ _ _ Hr).
  - exists tl. split; [|by apply rep_same]. unfold txg_list_head. rewrite Hv. cbn. rewrite (head_null _ _ _ Hr).
    pose proof (r_linked _ _ Hr t) as Hl. destruct (L t) as [|p l]; [done|]. destruct Hl as [-> _]. by rewrite Z.add_simpl_r.
  - exists tl. split; [|by apply rep_same]. by rewrite next_ok.
Qed.

End operations.

(** ** Sequences of operations *)

Lemma store_offset tl t tp v : tl_offset (store tl t tp v) = tl_offset tl.
Proof. by destruct tp. Qed.

Lemma run_op_offset fuel pool txg o tl v tl' : run_op fuel pool txg o tl = Ret (v, tl') -> tl_offset tl' = tl_offset tl.
Proof.
  destruct o; cbn; unfold txg_list_add, txg_list_add_tail, txg_list_remove, txg_list_remove_this; intros H;
    
    unfold mbind, result_bind in *; repeat (case_match; simplify_eq/=; try done); by rewrite ?store_offset.
Qed.

Lemma spec_op_length o l : (length (spec_op o l).2 <= S (length l))%nat.
Proof.
  destruct o; cbn; repeat case_match; cbn; rewrite ?length_app; cbn; try lia.
  etrans; [apply length_filter|]. lia.
Qed.

Lemma ops_refine fuel ops tl L :
  rep tl L -> ops_ok (tl_offset tl) ops L -> (forall t, length (L t) + length ops <= fuel)%nat ->
  exists tl', run_ops fuel ops tl = Ret ((spec_ops ops L).1, tl') /\ rep tl' (spec_ops ops L).2.
Proof.
  revert tl L. induction ops as [|[[pool txg] o] ops IH]; intros tl L Hr Hok Hf; cbn; [eauto|].
  destruct Hok as (Hv & Ho & Hok). cbn in Hf.
  destruct (op_refines pool tl L txg Hr Hv fuel o Ho) as (tl' & Hrun & Hr'); [specialize (Hf (txg_slot txg)); lia|].
  rewrite Hrun. cbn. rewrite <- (run_op_offset _ _ _ _ _ _ _ Hrun) in Hok.
  destruct (IH tl' _ Hr' Hok) as (tl2 & Hrun2 & Hr2).
  { intros t. apply upd_case; intros Ht; [|specialize (Hf t); lia].
    pose proof (spec_op_length o (L (txg_slot txg))). specialize (Hf (txg_slot txg)). lia. }
  rewrite Hrun2. cbn. eauto.
Qed.

Lemma create_rep offset memory : (forall n t, tn_member (memory n) t = false) -> rep (txg_list_create offset memory) (fun _ => []).
Proof. intros Hm. constructor; intros t; [done|apply NoDup_nil_2|]. intros p. cbn. by rewrite Hm. Qed.

Lemma empty_index pool tl L t :
  rep tl L -> (t < 4)%nat -> txg_list_empty pool tl (Z.of_nat t) = Ret (match L t with [] => true | _ :: _ => false end).
Proof.
  intros Hr Ht. unfold txg_list_empty, txg_verify. rewrite (proj2 (Z.leb_le _ _)) by (unfold TXG_INITIAL, TXG_SIZE; lia). cbn.
  rewrite (head_null _ _ _ Hr). replace (txg_slot (Z.of_nat t)) with t; [done|].
  rewrite txg_slot_mod. rewrite Z.mod_small; lia.
Qed.

Lemma all_lists_empty_ok pool tl L : rep tl L -> txg_all_lists_empty (Z.to_nat TXG_SIZE) 0 pool tl = Ret (all_empty L).
Proof.
  intros Hr. cbn [Z.to_nat TXG_SIZE Pos.to_nat Pos.iter_op Nat.add txg_all_lists_empty].
  unfold all_empty. change (Z.to_nat TXG_SIZE) with 4%nat. cbn.
  rewrite !(empty_index _ _ L) by (done || lia). cbn. by destruct (L 0%nat), (L 1%nat), (L 2%nat), (L 3%nat).
Qed.

Lemma destroy_ok pool tl L : rep tl L -> txg_list_destroy pool tl = verify (all_empty L).
Proof.
  intros Hr. unfold txg_list_destroy, all_empty. change (Z.to_nat TXG_SIZE) with 4%nat. cbn [for_loop seq forallb].
  rewrite !(empty_index _ _ L) by (done || lia). cbn. by destruct (L 0%nat), (L 1%nat), (L 2%nat), (L 3%nat).
Qed.

(** ** The theorem *)

(** C15: The lists of a [txg_list_t] are lists without repetition, one for each of
    the last [TXG_SIZE] txgs: from [txg_list_create] on, any operations on
    txgs the pool is working on give what the operations on lists give, and
    leave the nodes linked in the order of the lists; no operation runs into a
    dead link, fails an assertion or goes round a cycle; at the end
    [txg_all_lists_empty] says whether the lists are empty, and
    [txg_list_destroy] accepts them exactly when they are. *)
Theorem txg_list_refines offset memory fuel ops pool :
  (forall n t, tn_member (memory n) t = false) -> ops_ok offset ops (fun _ => []) -> (length ops <= fuel)%nat ->
  exists tl', run_ops fuel ops (txg_list_create offset memory) = Ret ((spec_ops ops (fun _ => [])).1, tl') /\
    rep tl' (spec_ops ops (fun _ => [])).2 /\
    txg_all_lists_empty (Z.to_nat TXG_SIZE) 0 pool tl' = Ret (all_empty (spec_ops ops (fun _ => [])).2) /\
    txg_list_destroy pool tl' = verify (all_empty (spec_ops ops (fun _ => [])).2).
Proof.
  intros Hm Hok Hf. destruct (ops_refine fuel ops (txg_list_create offset memory) (fun _ => [])) as (tl' & Hrun & Hr).
  - by apply create_rep.
  - done.
  - intros t. cbn. lia.
  - exists tl'. split_and!; [done..|by apply all_lists_empty_ok|by apply destroy_ok].
Qed.

(** A pool that has synced txg 11, with 14 open. *)
Definition demo_pool : sys := set_tx_synced_txg (txg_init 14) 11.

Definition demo_ops : list (sys * Z * op) :=
  [(demo_pool, 14, OpAdd 100); (demo_pool, 14, OpAddTail 200); (demo_pool, 13, OpAdd 100); (demo_pool, 14, OpAdd 300);
   (demo_pool, 14, OpAdd 100); (demo_pool, 14, OpNext 300); (demo_pool, 14, OpRemoveThis 100); (demo_pool, 14, OpMember 100);
   (demo_pool, 14, OpRemoveThis 100); (demo_pool, 14, OpHead); (demo_pool, 14, OpRemove); (demo_pool, 14, OpRemove);
   (demo_pool, 14, OpRemove); (demo_pool, 14, OpEmpty); (demo_pool, 13, OpEmpty)].

Lemma txg_list_refines_witness :
  exists tl', run_ops 15 demo_ops (txg_list_create 8 (fun _ => TxgNode (fun _ => NULL) (fun _ => false))) = Ret
      ([VBool true; VBool true; VBool true; VBool true; VBool false; VPtr 100; VPtr 100; VBool false;
        VPtr NULL; VPtr 300; VPtr 300; VPtr 200; VPtr NULL; VBool true; VBool false], tl') /\
    txg_list_destroy demo_pool tl' = Panic.
Proof.
  destruct (txg_list_refines 8 (fun _ => TxgNode (fun _ => NULL) (fun _ => false)) 15 demo_ops demo_pool) as (tl' & Hrun & _ & _ & Hd).
  - done.
  - unfold demo_ops. cbn [ops_ok op_ok]. split_and!;
      first [exact I | vm_compute; reflexivity | discriminate | apply (bool_decide_unpack _); vm_compute; exact I].
  - cbn. lia.
  - exists tl'. split; [exact Hrun|exact Hd].
Defined.
