(* ===== verification/Lzjb.v ===== *)
(** * LZJB compression

    Model of [kernel/fs/zfs/lzjb.c].  Source and destination are buffers; a
    pointer into one is its index.  The compressor also looks at the address
    of its source, so that is a parameter [base]. *)

From S2P Require Import Prelude.

Definition NBBY : Z := 8.
Definition MATCH_BITS : Z := 6.
Definition MATCH_MIN : nat := 3.
Definition MATCH_MAX : nat := 66.
Definition OFFSET_MASK : Z := 1023.
Definition LEMPEL_SIZE : nat := 1024.

(** The locals of [lzjb_compress] besides [src]: the destination buffer, [dst],
    [copymap] (no group is open before the first item), [copymask] and
    [lempel]. *)
Record lz_state : Type := LzState {
  lz_out : list Z; lz_dst : nat; lz_copymap : nat; lz_copymask : Z; lz_lempel : list Z }.

(** The top of the loop: every eighth item opens a group.  [None] is the
    early return. *)
Definition lzjb_group (d_len : nat) (st : lz_state) : result (option lz_state) :=
  let copymask := Z.shiftl (lz_copymask st) 1 in
  if copymask =? Z.shiftl 1 NBBY then
    if Z.of_nat d_len - 1 - 2 * NBBY <=? Z.of_nat (lz_dst st) then Ret None
    else
      out ← wr (lz_out st) (lz_dst st) 0;
      Ret (Some (LzState out (S (lz_dst st)) (lz_dst st) 1 (lz_lempel st)))
  else Ret (Some (LzState (lz_out st) (lz_dst st) (lz_copymap st) copymask (lz_lempel st))).

(** [*dst++ = *src++]. *)
Definition lzjb_literal (src : list Z) (i : nat) (st : lz_state) : result lz_state :=
  b ← rd src i;
  out ← wr (lz_out st) (lz_dst st) b;
  Ret (LzState out (S (lz_dst st)) (lz_copymap st) (lz_copymask st) (lz_lempel st)).

Definition lzjb_hash (b0 b1 b2 : Z) : Z :=
  let hash := Z.shiftl b0 16 + Z.shiftl b1 8 + b2 in
  let hash := hash + Z.shiftr hash 9 in
  let hash := hash + Z.shiftr hash 5 in
  Z.land hash (Z.of_nat LEMPEL_SIZE - 1).

(** [for (mlen = ...; mlen < MATCH_MAX; mlen++)]: [n] more rounds. *)
Fixpoint match_loop (src : list Z) (i cpy mlen n : nat) : result nat :=
  match n with
  | O => Ret mlen
  | S n' =>
      a ← rd src (i + mlen);
      b ← rd src (cpy + mlen);
      if a =? b then match_loop src i cpy (S mlen) n' else Ret mlen
  end.

(** The body of the [if] that found a match: the copy item. *)
Definition lzjb_copy (src : list Z) (i cpy : nat) (offset : Z) (st : lz_state)
    : result (lz_state * nat) :=
  m ← rd (lz_out st) (lz_copymap st);
  out1 ← wr (lz_out st) (lz_copymap st) (Z.lor m (lz_copymask st));
  mlen ← match_loop src i cpy MATCH_MIN (MATCH_MAX - MATCH_MIN);
  out2 ← wr out1 (lz_dst st)
           (Z.lor (Z.shiftl (Z.of_nat (mlen - MATCH_MIN)) (NBBY - MATCH_BITS))
                  (Z.shiftr offset NBBY));
  out3 ← wr out2 (S (lz_dst st)) (offset mod 256);
  Ret (LzState out3 (S (S (lz_dst st))) (lz_copymap st) (lz_copymask st) (lz_lempel st),
       (i + mlen)%nat).

(** One item, the group being open; also where [src] is after it. *)
Definition lzjb_item (base : Z) (src : list Z) (i : nat) (st : lz_state)
    : result (lz_state * nat) :=
  if Z.of_nat (length src) - Z.of_nat MATCH_MAX <? Z.of_nat i then
    st' ← lzjb_literal src i st; Ret (st', S i)
  else
    b0 ← rd src i;
    b1 ← rd src (i + 1);
    b2 ← rd src (i + 2);
    let hp := Z.to_nat (lzjb_hash b0 b1 b2) in
    h ← rd (lz_lempel st) hp;
    let offset := Z.land (base + Z.of_nat i - h) OFFSET_MASK in
    lempel ← wr (lz_lempel st) hp ((base + Z.of_nat i) mod 2 ^ 16);
    let st1 := LzState (lz_out st) (lz_dst st) (lz_copymap st) (lz_copymask st) lempel in
    let cpy := (i - Z.to_nat offset)%nat in
    if (offset <=? Z.of_nat i) && negb (offset =? 0) then
      c0 ← rd src cpy;
      c1 ← rd src (cpy + 1);
      c2 ← rd src (cpy + 2);
      if (b0 =? c0) && (b1 =? c1) && (b2 =? c2)
      then lzjb_copy src i cpy offset st1
      else st' ← lzjb_literal src i st1; Ret (st', S i)
    else st' ← lzjb_literal src i st1; Ret (st', S i).

(** The main loop.  Every item takes a byte of the source at least, so that
    the length of the source is fuel enough. *)
Fixpoint compress_loop (fuel : nat) (base : Z) (src : list Z) (d_len : nat) (i : nat)
    (st : lz_state) : result (nat * list Z) :=
  if (i <? length src)%nat then
    match fuel with
    | O => Panic
    | S fuel' =>
        o ← lzjb_group d_len st;
        match o with
        | None => Ret (length src, lz_out st)
        | Some st1 =>
            '(st2, i') ← lzjb_item base src i st1;
            compress_loop fuel' base src d_len i' st2
        end
    end
  else Ret (lz_dst st, lz_out st).

(** The value returned and the destination buffer, which was [out]. *)
Definition lzjb_compress (base : Z) (src out : list Z) (d_len : nat) : result (nat * list Z) :=
  compress_loop (length src) base src d_len 0
    (LzState out 0 0 (Z.shiftl 1 (NBBY - 1)) (replicate LEMPEL_SIZE 0)).

(** [while (--mlen >= 0 && dst < d_end) *dst++ = *cpy++]: where [dst] is
    after it. *)
Fixpoint copy_loop (mlen : nat) (out : list Z) (dst cpy d_len : nat) : result (list Z * nat) :=
  match mlen with
  | O => Ret (out, dst)
  | S mlen' =>
      if (dst <? d_len)%nat then
        b ← rd out cpy;
        out' ← wr out dst b;
        copy_loop mlen' out' (S dst) (S cpy) d_len
      else Ret (out, dst)
  end.

(** The top of the loop of [lzjb_decompress]: every eighth item is preceded by
    a map. *)
Definition lzjb_next_map (src : list Z) (i : nat) (copymap copymask : Z) : result (Z * Z * nat) :=
  let copymask := Z.shiftl copymask 1 in
  if copymask =? Z.shiftl 1 NBBY
  then b ← rd src i; Ret (b, 1, S i)
  else Ret (copymap, copymask, i).

(** One item of [lzjb_decompress]: a copy item when [hit].  The buffer, [src]
    and [dst] after it; [None] is the return of -1. *)
Definition lzjb_unpack (src : list Z) (i : nat) (out : list Z) (dst d_len : nat) (hit : bool)
    : result (option (list Z * nat * nat)) :=
  if hit then
    s0 ← rd src i;
    s1 ← rd src (S i);
    let mlen := Z.shiftr s0 (NBBY - MATCH_BITS) + Z.of_nat MATCH_MIN in
    let offset := Z.land (Z.lor (Z.shiftl s0 NBBY) s1) OFFSET_MASK in
    if Z.of_nat dst - offset <? 0 then Ret None
    else
      '(out', dst') ← copy_loop (Z.to_nat mlen) out dst (dst - Z.to_nat offset) d_len;
      Ret (Some (out', S (S i), dst'))
  else
    b ← rd src i;
    out' ← wr out dst b;
    Ret (Some (out', S i, S dst)).

(** The loop of [lzjb_decompress].  Every round writes at least one byte: the
    length of the destination is fuel enough.  The source is read without
    regard to its length. *)
Fixpoint decompress_loop (fuel : nat) (src : list Z) (i : nat) (out : list Z) (dst d_len : nat)
    (copymap copymask : Z) : result (Z * list Z) :=
  if (dst <? d_len)%nat then
    match fuel with
    | O => Panic
    | S fuel' =>
        '(copymap, copymask, i) ← lzjb_next_map src i copymap copymask;
        o ← lzjb_unpack src i out dst d_len (negb (Z.land copymap copymask =? 0));
        match o with
        | None => Ret (-1, out)
        | Some (out', i', dst') => decompress_loop fuel' src i' out' dst' d_len copymap copymask
        end
    end
  else Ret (0, out).

(** The value returned and the destination buffer, which was [out]. *)
Definition lzjb_decompress (src out : list Z) (d_len : nat) : result (Z * list Z) :=
  decompress_loop d_len src 0 out 0 d_len 0 (Z.shiftl 1 (NBBY - 1)).

(** * Properties *)

(** ** The format: groups of eight items under a map of the copies *)

Inductive item : Type := Lit (b : Z) | Copy (mlen : nat) (offset : Z).

Definition is_copy (t : item) : bool := match t with Lit _ => false | Copy _ _ => true end.

Definition item_bytes (t : item) : list Z :=
  match t with
  | Lit b => [b]
  | Copy mlen offset => [Z.of_nat (mlen - 3) * 4 + offset / 256; offset mod 256]
  end.

Fixpoint hdr (k : Z) (ts : list item) : Z :=
  match ts with
  | [] => 0
  | t :: ts' => (if is_copy t then 2 ^ k else 0) + hdr (k + 1) ts'
  end.

Definition group (ts : list item) : list Z := hdr 0 ts :: concat (item_bytes <$> ts).
Definition enc (gs : list (list item)) : list Z := concat (group <$> gs).

(** The items stand for the bytes [i, e) of [src]. *)
Fixpoint describes (src : list Z) (i : nat) (ts : list item) (e : nat) : Prop :=
  match ts with
  | [] => i = e
  | Lit b :: ts' => src !! i = Some b /\ describes src (S i) ts' e
  | Copy m o :: ts' =>
      (3 <= m <= 66)%nat /\ 1 <= o < 1024 /\ (Z.to_nat o <= i)%nat /\ (i + m <= length src)%nat /\
      (forall k, (k < m)%nat -> src !! (i + k)%nat = src !! (i + k - Z.to_nat o)%nat) /\
      describes src (i + m) ts' e
  end.

Lemma describes_app src ts1 ts2 : forall i e,
  describes src i (ts1 ++ ts2) e <->
  exists m, describes src i ts1 m /\ describes src m ts2 e.
Proof.
  induction ts1 as [|[b|m o] ts1 IH]; intros i e; cbn.
  - split; [by exists i|by intros (m & -> & ?)].
  - rewrite IH. firstorder.
  - rewrite IH. firstorder.
Qed.

Lemma hdr_snoc ts t : forall k, 0 <= k ->
  hdr k (ts ++ [t]) = hdr k ts + (if is_copy t then 2 ^ (k + Z.of_nat (length ts)) else 0).
Proof.
  induction ts as [|t' ts IH]; intros k Hk; cbn [app hdr length].
  - change (Z.of_nat 0) with 0. rewrite !Z.add_0_r. lia.
  - rewrite IH by lia. replace (k + 1 + Z.of_nat (length ts)) with (k + Z.of_nat (S (length ts))) by lia.
    lia.
Qed.

Lemma hdr_bound ts : 0 <= hdr 0 ts < 2 ^ Z.of_nat (length ts).
Proof.
  induction ts as [|t ts IH] using rev_ind; cbn [hdr length]; [lia|].
  rewrite hdr_snoc, Z.add_0_l, length_app, Nat2Z.inj_add by lia.
  rewrite (Z.pow_add_r 2 (Z.of_nat (length ts))) by (cbn; lia).
  change (2 ^ Z.of_nat (length [t])) with 2. destruct (is_copy t); lia.
Qed.

(** Setting the bit of one more copy. *)
Lemma hdr_lor ts : Z.lor (hdr 0 ts) (2 ^ Z.of_nat (length ts)) =
  hdr 0 ts + 2 ^ Z.of_nat (length ts).
Proof.
  rewrite Z.lor_comm, <- (Z.mul_1_l (2 ^ _)), <- Z.shiftl_mul_pow2 by lia.
  rewrite lor_shiftl_add by (try lia; apply hdr_bound).
  rewrite Z.shiftl_mul_pow2 by lia. lia.
Qed.

Lemma land_pow2 a k : 0 <= k -> negb (Z.land a (2 ^ k) =? 0) = Z.testbit a k.
Proof.
  intros Hk. destruct (Z.testbit a k) eqn:E.
  - apply negb_true_iff, Z.eqb_neq. intros H0. apply (f_equal (fun z => Z.testbit z k)) in H0.
    rewrite Z.land_spec, E, Z.pow2_bits_true, Z.bits_0 in H0 by done. done.
  - apply negb_false_iff, Z.eqb_eq, Z.bits_inj'. intros j Hj.
    rewrite Z.land_spec, Z.bits_0. destruct (Z.eq_dec k j) as [->|Hne]; [by rewrite E|].
    rewrite Z.pow2_bits_false by lia. apply andb_false_r.
Qed.

Lemma hdr_shift ts : forall k, 0 <= k -> hdr k ts = hdr 0 ts * 2 ^ k.
Proof.
  assert (forall ts k j, 0 <= k -> 0 <= j -> hdr (k + j) ts = hdr j ts * 2 ^ k) as H.
  { clear ts. induction ts as [|t ts IH]; intros k j Hk Hj; cbn [hdr]; [lia|].
    replace (k + j + 1) with (k + (j + 1)) by lia. rewrite IH by lia.
    rewrite Z.mul_add_distr_r. destruct (is_copy t); [rewrite Z.pow_add_r by lia|]; lia. }
  intros k Hk. by rewrite <- (H ts k 0), Z.add_0_r by lia.
Qed.

Lemma hdr_testbit ts t rest :
  Z.testbit (hdr 0 (ts ++ t :: rest)) (Z.of_nat (length ts)) = is_copy t.
Proof.
  induction ts as [|t' ts IH]; cbn [app hdr length].
  - rewrite hdr_shift by lia. replace (Z.of_nat 0) with 0 by lia.
    rewrite Z.add_comm, Z.mul_comm. destruct (is_copy t); cbn.
    + apply Z.testbit_odd_0.
    + rewrite Z.add_0_r. apply Z.testbit_even_0.
  - rewrite hdr_shift by lia. replace (hdr 0 (ts ++ t :: rest) * 2 ^ (0 + 1)) with
      (2 * hdr 0 (ts ++ t :: rest)) by lia. rewrite Nat2Z.inj_succ.
    destruct (is_copy t'); rewrite Z.add_comm.
    + rewrite Z.testbit_odd_succ by lia. exact IH.
    + rewrite Z.add_0_r, Z.testbit_even_succ by lia. exact IH.
Qed.

(** ** Compression *)

Section Compress.
Context (src : list Z) (d_len : nat).

(** The group [cur] is open after the groups [gs]; [e] source bytes are
    behind. *)
Definition lz_open (st : lz_state) (e : nat) (gs : list (list item)) (cur : list item) : Prop :=
  Forall (fun g => length g = 8%nat) gs /\
  lz_copymap st = length (enc gs) /\
  lz_dst st = length (enc gs ++ group cur) /\
  take (lz_dst st) (lz_out st) = enc gs ++ group cur /\
  (length (enc gs) + 17 < d_len <= length (lz_out st))%nat /\
  length (lz_lempel st) = LEMPEL_SIZE /\
  describes src 0 (concat gs ++ cur) e.

(** At the top of the loop: nothing is done yet, or a group has an item. *)
Definition lz_top (st : lz_state) (e : nat) : Prop :=
  (lz_dst st = 0%nat /\ lz_copymask st = 128 /\ e = 0%nat /\ (d_len <= length (lz_out st))%nat /\
   length (lz_lempel st) = LEMPEL_SIZE) \/
  exists gs cur, lz_open st e gs cur /\ (1 <= length cur <= 8)%nat /\
    lz_copymask st = 2 ^ (Z.of_nat (length cur) - 1).

Definition lz_item (st : lz_state) (e : nat) : Prop :=
  exists gs cur, lz_open st e gs cur /\ (length cur < 8)%nat /\
    lz_copymask st = 2 ^ Z.of_nat (length cur).

Lemma enc_snoc gs cur : enc (gs ++ [cur]) = enc gs ++ group cur.
Proof. unfold enc. rewrite fmap_app, concat_app. cbn. by rewrite app_nil_r. Qed.

Lemma length_item t : (1 <= length (item_bytes t) <= 2)%nat.
Proof. destruct t; cbn; lia. Qed.

Lemma length_group cur : (length (group cur) <= 1 + 2 * length cur)%nat.
Proof.
  unfold group. cbn. enough (length (concat (item_bytes <$> cur)) <= 2 * length cur)%nat by lia.
  induction cur as [|t cur IH]; cbn; [lia|]. rewrite length_app. pose proof (length_item t). lia.
Qed.

Lemma group_snoc cur t :
  group (cur ++ [t]) = <[0%nat := hdr 0 (cur ++ [t])]> (group cur) ++ item_bytes t.
Proof. unfold group. rewrite fmap_app, concat_app. cbn. by rewrite app_nil_r. Qed.

Lemma mask_top (cur : list item) :
  (1 <= length cur <= 8)%nat ->
  Z.shiftl (2 ^ (Z.of_nat (length cur) - 1)) 1 = 2 ^ Z.of_nat (length cur).
Proof.
  intros H. rewrite Z.shiftl_mul_pow2 by lia. rewrite <- Z.pow_add_r by lia. f_equal. lia.
Qed.

Lemma lzjb_group_ok st e :
  lz_top st e ->
  lzjb_group d_len st = Ret None \/
  exists st', lzjb_group d_len st = Ret (Some st') /\ lz_item st' e.
Proof.
  unfold lzjb_group. change (Z.shiftl 1 NBBY) with (2 ^ 8).
  intros [(Hd & Hm & -> & Hlen & Hlem)|(gs & cur & (Hgs & Hcm & Hd & Htake & Hlen & Hlem & Hdes) & Hcur & Hm)].
  - rewrite Hm, Hd. change (Z.shiftl 128 1 =? 2 ^ 8) with true. change (2 * NBBY) with 16.
    destruct (Z.leb_spec (Z.of_nat d_len - 1 - 16) (Z.of_nat 0)); [by left|]. right.
    rewrite wr_ok by lia. eexists; split; [done|]. exists [], []. split; [|cbn; lia].
    unfold lz_open; cbn. split_and!; auto; try lia.
    + change 1%nat with (S 0). by rewrite take_insert_snoc by lia.
    + by rewrite length_insert.
  - rewrite Hm, mask_top by done. destruct (Z.eqb_spec (2 ^ Z.of_nat (length cur)) (2 ^ 8)) as [E|E].
    + apply Z.pow_inj_r in E; [|lia..]. change (2 * NBBY) with 16.
      destruct (Z.leb_spec (Z.of_nat d_len - 1 - 16) (Z.of_nat (lz_dst st))); [by left|]. right.
      rewrite wr_ok by lia. eexists; split; [done|]. exists (gs ++ [cur]), []. split; [|cbn; lia].
      unfold lz_open; cbn. rewrite enc_snoc, <- Hd. split_and!; auto; try lia.
      * apply Forall_app. split; [done|]. apply Forall_singleton. lia.
      * rewrite length_app, <- Hd. cbn. lia.
      * by rewrite take_insert_snoc, Htake by lia.
      * rewrite length_insert. lia.
      * rewrite concat_app. cbn. by rewrite !app_nil_r.
    + right. eexists; split; [done|]. exists gs, cur. split; [done|]. split; [|done].
      destruct (Nat.eq_dec (length cur) 8%nat) as [E8|]; [|lia]. rewrite E8 in E. done.
Qed.

Lemma lz_open_dst st e gs cur :
  lz_open st e gs cur -> (length cur < 8)%nat -> (lz_dst st + 2 <= length (lz_out st))%nat.
Proof.
  intros (_ & _ & -> & _ & Hlen & _) Hcur. rewrite length_app.
  pose proof (length_group cur). lia.
Qed.

(** One more item, whose bytes have been written. *)
Lemma lz_item_top st st' e e' gs cur t :
  lz_open st e gs cur -> (length cur < 8)%nat ->
  lz_copymask st = 2 ^ Z.of_nat (length cur) ->
  lz_copymap st' = lz_copymap st -> lz_copymask st' = lz_copymask st ->
  lz_lempel st' = lz_lempel st -> length (lz_out st') = length (lz_out st) ->
  lz_dst st' = (lz_dst st + length (item_bytes t))%nat ->
  take (lz_dst st') (lz_out st') =
    <[lz_copymap st := hdr 0 (cur ++ [t])]> (take (lz_dst st) (lz_out st)) ++ item_bytes t ->
  describes src e [t] e' -> lz_top st' e'.
Proof.
  intros (Hgs & Hcm & Hd & Htake & Hlen & Hlem & Hdes) Hcur Hm Hcm' Hm' Hlem' Hlen' Hd' Htake' Ht.
  right. exists gs, (cur ++ [t]). rewrite length_app. cbn. split; [|split; [lia|]].
  - unfold lz_open. rewrite Hcm', Hlem', Hlen', Hd', <- Hd', Htake', Htake, Hcm.
    split_and!; auto; try lia.
    + rewrite Hd', Hd, group_snoc, !length_app, length_insert. lia.
    + rewrite insert_app_r_alt, Nat.sub_diag by lia. by rewrite group_snoc, app_assoc.
    + rewrite app_assoc. apply describes_app. eauto.
  - rewrite Hm', Hm. f_equal. lia.
Qed.

Lemma lz_open_hdr st e gs cur :
  lz_open st e gs cur -> take (lz_dst st) (lz_out st) !! lz_copymap st = Some (hdr 0 cur).
Proof.
  intros (_ & -> & _ & -> & _). by rewrite lookup_app_r, Nat.sub_diag by done.
Qed.

Lemma lzjb_literal_ok st e :
  lz_item st e -> (e < length src)%nat ->
  exists st', lzjb_literal src e st = Ret st' /\ lz_top st' (S e).
Proof.
  intros (gs & cur & Ho & Hcur & Hm) He. pose proof (lz_open_dst _ _ _ _ Ho Hcur).
  destruct (lookup_lt_is_Some_2 src e He) as [b Hb].
  unfold lzjb_literal. rewrite (rd_ok _ _ _ Hb). cbn. rewrite wr_ok by lia. cbn.
  eexists; split; [done|].
  eapply (lz_item_top st _ e (S e) gs cur (Lit b)); cbn; auto using length_insert; try lia.
  rewrite hdr_snoc by lia. cbn. rewrite Z.add_0_r.
  rewrite (list_insert_id _ _ _ (lz_open_hdr _ _ _ _ Ho)). apply take_insert_snoc. lia.
Qed.

Lemma match_loop_ok i cpy : forall n mlen,
  (i + mlen + n <= length src)%nat -> (cpy <= i)%nat ->
  exists m, match_loop src i cpy mlen n = Ret m /\ (mlen <= m <= mlen + n)%nat /\
    forall k, (mlen <= k < m)%nat -> src !! (i + k)%nat = src !! (cpy + k)%nat.
Proof.
  induction n as [|n IH]; intros mlen Hlen Hcpy; cbn.
  { exists mlen. split_and!; auto; lia. }
  destruct (lookup_lt_is_Some_2 src (i + mlen)) as [a Ha]; [lia|].
  destruct (lookup_lt_is_Some_2 src (cpy + mlen)) as [b Hb]; [lia|].
  rewrite (rd_ok _ _ _ Ha), (rd_ok _ _ _ Hb). cbn.
  destruct (Z.eqb_spec a b) as [->|].
  - destruct (IH (S mlen)) as (m & -> & Hm & Heq); [lia..|]. exists m. split_and!; auto; [lia..|].
    intros k Hk. destruct (Nat.eq_dec k mlen) as [->|]; [congruence|]. apply Heq. lia.
  - exists mlen. split_and!; auto; lia.
Qed.

(** The bytes of a copy item. *)
Lemma copy_bytes mlen offset :
  (3 <= mlen <= 66)%nat -> 1 <= offset < 1024 ->
  Z.lor (Z.shiftl (Z.of_nat (mlen - MATCH_MIN)) (NBBY - MATCH_BITS)) (Z.shiftr offset NBBY) =
    Z.of_nat (mlen - 3) * 4 + offset / 256.
Proof.
  intros Hm Ho. rewrite Z.shiftr_div_pow2 by done. change (2 ^ NBBY) with 256.
  assert (0 <= offset / 256 < 4) by (split; [apply Z.div_pos; lia|apply Z.div_lt_upper_bound; lia]).
  by rewrite lor_shiftl_add.
Qed.

Lemma lzjb_copy_ok st e offset b0 b1 b2 :
  lz_item st e -> (e + MATCH_MAX <= length src)%nat -> 1 <= offset < 1024 ->
  (Z.to_nat offset <= e)%nat ->
  let cpy := (e - Z.to_nat offset)%nat in
  src !! e = Some b0 -> src !! (e + 1)%nat = Some b1 -> src !! (e + 2)%nat = Some b2 ->
  src !! cpy = Some b0 -> src !! (cpy + 1)%nat = Some b1 -> src !! (cpy + 2)%nat = Some b2 ->
  exists st' e', lzjb_copy src e cpy offset st = Ret (st', e') /\ lz_top st' e' /\
    (e < e' <= length src)%nat.
Proof.
  intros (gs & cur & Ho & Hcur & Hm) Hlen Hoff Hle cpy H0 H1 H2 C0 C1 C2.
  pose proof (lz_open_dst _ _ _ _ Ho Hcur) as Hdst. pose proof (lz_open_hdr _ _ _ _ Ho) as Hh.
  pose proof Hh as Hh'. apply lookup_take_Some in Hh' as [Hh' Hcm].
  unfold lzjb_copy. rewrite (rd_ok _ _ _ Hh'). cbn [mbind result_bind].
  rewrite wr_ok by lia. cbn [mbind result_bind].
  destruct (match_loop_ok e cpy (MATCH_MAX - MATCH_MIN) MATCH_MIN) as (m & -> & Hmm & Heq);
    [unfold MATCH_MAX, MATCH_MIN in *; lia|lia|]. unfold MATCH_MAX, MATCH_MIN in Hmm, Hlen.
  cbn [mbind result_bind]. rewrite wr_ok by (rewrite length_insert; lia). cbn [mbind result_bind].
  rewrite wr_ok by (rewrite !length_insert; lia). cbn [mbind result_bind].
  eexists _, (e + m)%nat. split; [done|]. split; [|lia].
  rewrite copy_bytes by lia.
  eapply (lz_item_top st _ e (e + m) gs cur (Copy m offset)); cbn [lz_copymap lz_copymask lz_lempel
    lz_out lz_dst item_bytes length]; auto; [by rewrite !length_insert|lia| |].
  - rewrite take_insert_snoc, take_insert_snoc by (rewrite ?length_insert; lia).
    rewrite <- app_assoc. cbn. f_equal. rewrite take_insert_lt by lia. f_equal. f_equal.
    rewrite Hm, hdr_lor, hdr_snoc by lia. done.
  - cbn. split_and!; try lia. intros k Hk. replace (e + k - Z.to_nat offset)%nat with (cpy + k)%nat by lia.
    destruct k as [|[|[|k]]]; [rewrite !Nat.add_0_r; congruence|congruence|congruence|].
    apply Heq. unfold MATCH_MIN. lia.
Qed.

Lemma lzjb_hash_lt b0 b1 b2 : (Z.to_nat (lzjb_hash b0 b1 b2) < LEMPEL_SIZE)%nat.
Proof.
  unfold lzjb_hash. change (Z.of_nat LEMPEL_SIZE - 1) with (Z.ones 10).
  rewrite Z.land_ones by lia. unfold LEMPEL_SIZE.
  pose proof (Z.mod_pos_bound
    (Z.shiftl b0 16 + Z.shiftl b1 8 + b2 + Z.shiftr (Z.shiftl b0 16 + Z.shiftl b1 8 + b2) 9 +
     Z.shiftr (Z.shiftl b0 16 + Z.shiftl b1 8 + b2 +
       Z.shiftr (Z.shiftl b0 16 + Z.shiftl b1 8 + b2) 9) 5) (2 ^ 10)). lia.
Qed.

Lemma lz_item_lempel st e lempel :
  lz_item st e -> length lempel = LEMPEL_SIZE ->
  lz_item (LzState (lz_out st) (lz_dst st) (lz_copymap st) (lz_copymask st) lempel) e.
Proof.
  intros (gs & cur & (? & ? & ? & ? & ? & ? & ?) & ? & ?) Hl. exists gs, cur.
  split; [unfold lz_open; cbn; split_and!; auto; lia|done].
Qed.

Lemma lzjb_item_ok base st e :
  lz_item st e -> (e < length src)%nat ->
  exists st' e', lzjb_item base src e st = Ret (st', e') /\ lz_top st' e' /\
    (e < e' <= length src)%nat.
Proof.
  intros Hst He. assert (length (lz_lempel st) = LEMPEL_SIZE) as Hlem
    by (destruct Hst as (? & ? & (_ & _ & _ & _ & _ & ? & _) & _); done).
  assert (forall st, lz_item st e -> exists st' e',
    (st' ← lzjb_literal src e st; Ret (st', S e)) = Ret (st', e') /\ lz_top st' e' /\
    (e < e' <= length src)%nat) as Hlit.
  { intros st0 H0. destruct (lzjb_literal_ok st0 e H0 He) as (st' & -> & Ht).
    exists st', (S e). split_and!; auto; lia. }
  unfold lzjb_item. destruct (Z.ltb_spec (Z.of_nat (length src) - Z.of_nat MATCH_MAX) (Z.of_nat e));
    [by apply Hlit|]. unfold MATCH_MAX in *.
  destruct (lookup_lt_is_Some_2 src e) as [b0 H0]; [lia|].
  destruct (lookup_lt_is_Some_2 src (e + 1)) as [b1 H1]; [lia|].
  destruct (lookup_lt_is_Some_2 src (e + 2)) as [b2 H2]; [lia|].
  rewrite (rd_ok _ _ _ H0), (rd_ok _ _ _ H1), (rd_ok _ _ _ H2). cbn [mbind result_bind].
  pose proof (lzjb_hash_lt b0 b1 b2) as Hhp. set (hp := Z.to_nat _) in *.
  destruct (lookup_lt_is_Some_2 (lz_lempel st) hp) as [h Hh]; [lia|].
  rewrite (rd_ok _ _ _ Hh), wr_ok by lia. cbn [mbind result_bind].
  set (offset := Z.land _ OFFSET_MASK). set (st1 := LzState _ _ _ _ _).
  assert (lz_item st1 e) as Hst1 by (apply lz_item_lempel; [done|by rewrite length_insert]).
  assert (0 <= offset < 1024) as Hoff.
  { unfold offset, OFFSET_MASK. change 1023 with (Z.ones 10). rewrite Z.land_ones by lia.
    apply Z.mod_pos_bound. lia. }
  destruct (Z.leb_spec offset (Z.of_nat e)), (Z.eqb_spec offset 0); cbn [andb negb];
    try by apply Hlit.
  destruct (lookup_lt_is_Some_2 src (e - Z.to_nat offset)) as [c0 C0]; [lia|].
  destruct (lookup_lt_is_Some_2 src (e - Z.to_nat offset + 1)) as [c1 C1]; [lia|].
  destruct (lookup_lt_is_Some_2 src (e - Z.to_nat offset + 2)) as [c2 C2]; [lia|].
  rewrite (rd_ok _ _ _ C0), (rd_ok _ _ _ C1), (rd_ok _ _ _ C2). cbn [mbind result_bind].
  destruct (Z.eqb_spec b0 c0) as [<-|], (Z.eqb_spec b1 c1) as [<-|], (Z.eqb_spec b2 c2) as [<-|];
    cbn [andb]; try by apply Hlit.
  eapply lzjb_copy_ok; eauto; unfold MATCH_MAX; lia.
Qed.

(** All groups but the last are full. *)
Fixpoint groups_ok (gs : list (list item)) : Prop :=
  match gs with
  | [] => True
  | g :: gs' => (1 <= length g <= 8)%nat /\ (gs' = [] \/ length g = 8%nat) /\ groups_ok gs'
  end.

Lemma groups_ok_snoc gs cur :
  Forall (fun g => length g = 8%nat) gs -> (1 <= length cur <= 8)%nat -> groups_ok (gs ++ [cur]).
Proof.
  intros Hgs Hcur. induction Hgs as [|g gs Hg _ IH]; cbn; split_and!; auto; lia.
Qed.

(** The compressor gives up and returns the length of its source, or leaves
    items that describe the whole source. *)
Definition lz_result (c : nat) (out : list Z) : Prop :=
  c = length src \/
  (c <= d_len)%nat /\ exists gs, take c out = enc gs /\ groups_ok gs /\
    describes src 0 (concat gs) (length src).

Lemma compress_loop_ok base : forall fuel i st,
  lz_top st i -> (i <= length src)%nat -> (length src - i <= fuel)%nat ->
  exists c out, compress_loop fuel base src d_len i st = Ret (c, out) /\ lz_result c out.
Proof.
  induction fuel as [|fuel IH]; intros i st Hst Hi Hf; cbn [compress_loop];
    destruct (Nat.ltb_spec i (length src)) as [Hlt|Hge]; try lia.
  2: { destruct (lzjb_group_ok st i Hst) as [->|(st1 & -> & Hst1)]; cbn.
       - eexists _, _. split; [done|]. by left.
       - destruct (lzjb_item_ok base st1 i Hst1 Hlt) as (st2 & i' & -> & Hst2 & Hi'). cbn.
         apply IH; [done|lia..]. }
  all: eexists _, _; split; [done|]; assert (i = length src) as -> by lia.
  all: destruct Hst as [(-> & _ & Hz & _)|(gs & cur & (Hgs & _ & Hd & Ht & Hlen & _ & Hdes) & Hcur & _)];
    [left; lia|right; split].
  1, 3: rewrite Hd, length_app; pose proof (length_group cur); lia.
  all: exists (gs ++ [cur]); rewrite enc_snoc, concat_app; cbn; rewrite app_nil_r.
  all: auto using groups_ok_snoc.
Qed.

Lemma lzjb_compress_ok base out :
  (d_len <= length out)%nat ->
  exists c out', lzjb_compress base src out d_len = Ret (c, out') /\ lz_result c out'.
Proof.
  intros Hlen. apply compress_loop_ok; [|lia..]. left. cbn. split_and!; auto.
Qed.
End Compress.

(** ** Decompression *)

Lemma copy_item_decode mlen offset :
  (3 <= mlen <= 66)%nat -> 1 <= offset < 1024 ->
  let s0 := Z.of_nat (mlen - 3) * 4 + offset / 256 in
  let s1 := offset mod 256 in
  Z.to_nat (Z.shiftr s0 (NBBY - MATCH_BITS) + Z.of_nat MATCH_MIN) = mlen /\
  Z.land (Z.lor (Z.shiftl s0 NBBY) s1) OFFSET_MASK = offset.
Proof.
  intros Hm Ho s0 s1. subst s0 s1.
  assert (0 <= offset / 256 < 4) by (split; [apply Z.div_pos; lia|apply Z.div_lt_upper_bound; lia]).
  pose proof (Z.mod_pos_bound offset 256). unfold MATCH_MIN, OFFSET_MASK. split.
  - rewrite Z.shiftr_div_pow2 by done. change (2 ^ (NBBY - MATCH_BITS)) with 4.
    rewrite Z.div_add_l, (Z.div_small (offset / 256)) by lia. lia.
  - rewrite lor_shiftl_add by (try done; change (2 ^ NBBY) with 256; lia).
    change 1023 with (Z.ones 10). rewrite Z.land_ones by lia. change (2 ^ NBBY) with 256.
    replace ((Z.of_nat (mlen - 3) * 4 + offset / 256) * 256 + offset mod 256)
      with (offset + Z.of_nat (mlen - 3) * 2 ^ 10).
    + rewrite Z.mod_add by lia. apply Z.mod_small. lia.
    + pose proof (Z.div_mod offset 256). lia.
Qed.

Section Decompress.
Context (orig : list Z).

(** The first [dst] bytes of the destination are those of [orig]. *)
Definition unpacked (out : list Z) (dst : nat) : Prop :=
  length out = length orig /\ (dst <= length orig)%nat /\ take dst out = take dst orig.

Lemma unpacked_write out dst b :
  unpacked out dst -> orig !! dst = Some b ->
  wr out dst b = Ret (<[dst := b]> out) /\ unpacked (<[dst := b]> out) (S dst).
Proof.
  intros (Hl & Hd & Ht) Hb. pose proof (lookup_lt_Some _ _ _ Hb).
  split; [apply wr_ok; lia|]. unfold unpacked. rewrite length_insert. split_and!; auto.
  rewrite take_insert_snoc, Ht by lia. symmetry. by apply take_S_r.
Qed.

Lemma unpacked_lookup out dst i :
  unpacked out dst -> (i < dst)%nat -> out !! i = orig !! i.
Proof.
  intros (_ & _ & Ht) Hi. rewrite <- (lookup_take_lt out dst), Ht by done. by apply lookup_take_lt.
Qed.

Lemma copy_loop_ok : forall mlen out dst off,
  unpacked out dst -> (1 <= off <= dst)%nat -> (dst + mlen <= length orig)%nat ->
  (forall k, (k < mlen)%nat -> orig !! (dst + k)%nat = orig !! (dst + k - off)%nat) ->
  exists out', copy_loop mlen out dst (dst - off) (length orig) = Ret (out', (dst + mlen)%nat) /\
    unpacked out' (dst + mlen).
Proof.
  induction mlen as [|mlen IH]; intros out dst off Hu Hoff Hlen Heq; cbn [copy_loop].
  { exists out. by rewrite Nat.add_0_r. }
  destruct (Nat.ltb_spec dst (length orig)); [|lia].
  destruct (lookup_lt_is_Some_2 orig dst) as [b Hb]; [lia|].
  assert (out !! (dst - off)%nat = Some b) as Hc.
  { rewrite (unpacked_lookup out dst) by (done || lia). specialize (Heq 0%nat ltac:(lia)).
    rewrite Nat.add_0_r in Heq. congruence. }
  rewrite (rd_ok _ _ _ Hc). cbn.
  destruct (unpacked_write out dst b Hu Hb) as [-> Hu']. cbn.
  replace (S (dst - off)) with (S dst - off)%nat by lia.
  destruct (IH (<[dst:=b]> out) (S dst) off) as (out' & -> & Hu''); auto; try lia.
  - intros k Hk. specialize (Heq (S k) ltac:(lia)).
    replace (S dst + k)%nat with (dst + S k)%nat by lia. done.
  - exists out'. rewrite Nat.add_succ_r. done.
Qed.

(** One item is unpacked. *)
Lemma lzjb_unpack_ok src i tail out dst t e :
  drop i src = item_bytes t ++ tail -> unpacked out dst -> describes orig dst [t] e ->
  exists out' i', lzjb_unpack src i out dst (length orig) (is_copy t) = Ret (Some (out', i', e)) /\
    drop i' src = tail /\ unpacked out' e /\ (dst < e <= length orig)%nat.
Proof.
  intros Hsrc Hu Ht.
  assert (forall k b, (item_bytes t ++ tail) !! k = Some b -> rd src (i + k) = Ret b) as Hrd.
  { intros k b Hk. apply rd_ok. by rewrite <- Hsrc, lookup_drop in Hk. }
  destruct t as [b|m o]; cbn [describes is_copy item_bytes lzjb_unpack app] in *.
  - destruct Ht as [Hb <-]. pose proof (lookup_lt_Some _ _ _ Hb).
    specialize (Hrd 0%nat b eq_refl). rewrite Nat.add_0_r in Hrd. rewrite Hrd. cbn.
    destruct (unpacked_write out dst b Hu Hb) as [-> Hu']. cbn.
    eexists _, (S i). split_and!; auto. by rewrite <- Nat.add_1_r, <- drop_drop, Hsrc.
  - destruct Ht as (Hm & Ho & Hle & Hlen & Heq & <-).
    pose proof (Hrd 0%nat _ eq_refl) as H0. pose proof (Hrd 1%nat _ eq_refl) as H1.
    rewrite Nat.add_0_r in H0. rewrite Nat.add_1_r in H1. rewrite H0, H1. cbn [mbind result_bind].
    destruct (copy_item_decode m o Hm Ho) as [-> ->].
    destruct (Z.ltb_spec (Z.of_nat dst - o) 0); [lia|].
    destruct (copy_loop_ok m out dst (Z.to_nat o)) as (out' & -> & Hu'); auto; [lia|]. cbn.
    eexists _, _. split_and!; auto; [|lia].
    replace (S (S i)) with (i + 2)%nat by lia. by rewrite <- drop_drop, Hsrc.
Qed.

(** One round of the loop. *)
Lemma decompress_step src fuel i out dst cm mask cm' mask' i1 k tail t e :
  lzjb_next_map src i cm mask = Ret (cm', mask', i1) ->
  mask' = 2 ^ k -> 0 <= k -> Z.testbit cm' k = is_copy t ->
  drop i1 src = item_bytes t ++ tail -> unpacked out dst -> describes orig dst [t] e ->
  (length orig - dst <= fuel)%nat ->
  exists out' i' fuel', decompress_loop fuel src i out dst (length orig) cm mask =
      decompress_loop fuel' src i' out' e (length orig) cm' mask' /\
    drop i' src = tail /\ unpacked out' e /\ (length orig - e <= fuel')%nat.
Proof.
  intros Hmap -> Hk Hbit Hsrc Hu Ht Hf.
  destruct (lzjb_unpack_ok src i1 tail out dst t e Hsrc Hu Ht) as (out' & i' & Hun & Hd & Hu' & Hlt).
  destruct fuel as [|fuel]; [lia|]. exists out', i', fuel. split_and!; auto; [|lia].
  cbn [decompress_loop]. destruct (Nat.ltb_spec dst (length orig)); [|lia].
  rewrite Hmap. cbn [mbind result_bind]. rewrite land_pow2, Hbit, Hun by done. done.
Qed.

(** The rest of a group. *)
Lemma items_ok src tail e : forall rest done i out dst fuel,
  (1 <= length done)%nat -> (length (done ++ rest) <= 8)%nat ->
  drop i src = concat (item_bytes <$> rest) ++ tail -> unpacked out dst ->
  describes orig dst rest e -> (length orig - dst <= fuel)%nat ->
  exists out' i' fuel',
    decompress_loop fuel src i out dst (length orig) (hdr 0 (done ++ rest))
        (2 ^ (Z.of_nat (length done) - 1)) =
      decompress_loop fuel' src i' out' e (length orig) (hdr 0 (done ++ rest))
        (2 ^ (Z.of_nat (length (done ++ rest)) - 1)) /\
    drop i' src = tail /\ unpacked out' e /\ (length orig - e <= fuel')%nat.
Proof.
  induction rest as [|t rest IH]; intros done i out dst fuel Hdone H8 Hsrc Hu Hdes Hf.
  { cbn in *. subst e. exists out, i, fuel. by rewrite app_nil_r. }
  change (t :: rest) with ([t] ++ rest) in Hdes. apply describes_app in Hdes as (m & Ht & Hdes).
  cbn [fmap list_fmap concat] in Hsrc. rewrite <- app_assoc in Hsrc.
  rewrite length_app in H8. cbn [length] in H8.
  destruct (decompress_step src fuel i out dst (hdr 0 (done ++ t :: rest))
      (2 ^ (Z.of_nat (length done) - 1)) (hdr 0 (done ++ t :: rest))
      (2 ^ Z.of_nat (length done)) i (Z.of_nat (length done))
      (concat (item_bytes <$> rest) ++ tail) t m)
    as (out1 & i1 & fuel1 & -> & Hd1 & Hu1 & Hf1); auto; [|lia|by apply hdr_testbit|].
  { unfold lzjb_next_map. rewrite mask_top by lia. change (Z.shiftl 1 NBBY) with (2 ^ 8).
    destruct (Z.eqb_spec (2 ^ Z.of_nat (length done)) (2 ^ 8)) as [E|E]; [|done].
    apply Z.pow_inj_r in E; lia. }
  destruct (IH (done ++ [t]) i1 out1 m fuel1) as (out' & i' & fuel' & Heq & H); auto.
  { rewrite length_app. lia. }
  { rewrite <- app_assoc, length_app. cbn. lia. }
  exists out', i', fuel'. split; [|done]. rewrite <- app_assoc, (length_app done [t]) in Heq.
  cbn [app length] in Heq. rewrite Nat2Z.inj_add in Heq.
  replace (Z.of_nat (length done) + Z.of_nat 1 - 1) with (Z.of_nat (length done)) in Heq by lia.
  exact Heq.
Qed.

Lemma groups_unpack src tail e : forall gs i out dst cm fuel,
  groups_ok gs -> drop i src = enc gs ++ tail -> unpacked out dst ->
  describes orig dst (concat gs) e -> (length orig - dst <= fuel)%nat -> e = length orig ->
  exists out', decompress_loop fuel src i out dst (length orig) cm 128 = Ret (0, out') /\
    unpacked out' e.
Proof.
  induction gs as [|g gs IH]; intros i out dst cm fuel Hok Hsrc Hu Hdes Hf He.
  { cbn in Hdes. subst. exists out. split; [|done].
    destruct fuel; cbn [decompress_loop]; by rewrite Nat.ltb_irrefl. }
  destruct Hok as (Hg & Hlast & Hok). cbn in Hsrc, Hdes. rewrite <- app_assoc in Hsrc.
  apply describes_app in Hdes as (m & Hg1 & Hdes).
  destruct g as [|t g]; [cbn in Hg; lia|]. cbn [length] in Hg.
  change (t :: g) with ([t] ++ g) in Hg1. apply describes_app in Hg1 as (m1 & Ht & Hg1).
  cbn [concat fmap list_fmap] in Hsrc. rewrite <- app_assoc in Hsrc.
  destruct (decompress_step src fuel i out dst cm 128 (hdr 0 (t :: g)) 1 (S i) 0
      (concat (item_bytes <$> g) ++ enc gs ++ tail) t m1)
    as (out1 & i1 & fuel1 & -> & Hd1 & Hu1 & Hf1); auto; [|lia|apply (hdr_testbit []) | |].
  { unfold lzjb_next_map. change (Z.shiftl 128 1 =? Z.shiftl 1 NBBY) with true. cbn [fst].
    rewrite (rd_ok src i (hdr 0 (t :: g))); [done|].
    by rewrite <- (Nat.add_0_r i), <- lookup_drop, Hsrc. }
  { by rewrite <- Nat.add_1_r, <- drop_drop, Hsrc. }
  destruct (items_ok src (enc gs ++ tail) m g [t] i1 out1 m1 fuel1)
    as (out2 & i2 & fuel2 & Heq & Hd2 & Hu2 & Hf2); cbn [length app]; auto; [lia|].
  cbn [length app] in Heq. change (2 ^ (Z.of_nat 1 - 1)) with 1 in Heq. rewrite Heq.
  destruct Hlast as [->|Hlast].
  - cbn in Hdes. subst. exists out2. split; [|done].
    destruct fuel2; cbn [decompress_loop]; by rewrite Nat.ltb_irrefl.
  - cbn [length] in Hlast. rewrite Hlast. change (2 ^ (Z.of_nat 8 - 1)) with 128.
    by apply (IH i2 out2 m).
Qed.

Lemma unpacked_all out : unpacked out (length orig) -> out = orig.
Proof. intros (Hl & _ & Ht). by rewrite !firstn_all2 in Ht by lia. Qed.
End Decompress.

(** ** Main theorems *)

(** C25: LZJB is lossless and stays inside its buffers.  For every source
    address, source and destination buffer of at least [d_len] bytes, the
    compressor returns without reading outside the source or writing outside
    the first [d_len] bytes.  If it returns less than the length of the source,
    decompressing the bytes it wrote, into any buffer of the source's length,
    succeeds and gives the source back. *)
Theorem lzjb_roundtrip base (src out : list Z) (d_len : nat) :
  (d_len <= length out)%nat ->
  exists c out', lzjb_compress base src out d_len = Ret (c, out') /\
    ((c < length src)%nat -> (c <= d_len)%nat /\ forall buf, length buf = length src ->
       lzjb_decompress (take c out') buf (length src) = Ret (0, src)).
Proof.
  intros Hlen. destruct (lzjb_compress_ok src d_len base out Hlen) as (c & out' & Hc & Hres).
  exists c, out'. split; [done|]. intros Hlt.
  destruct Hres as [->|(Hd & gs & Ht & Hok & Hdes)]; [lia|]. split; [done|].
  intros buf Hbuf. rewrite Ht.
  destruct (groups_unpack src (enc gs) [] (length src) gs 0 buf 0 0 (length src))
    as (out2 & Hun & Hu); auto; [by rewrite app_nil_r| |lia|].
  { unfold unpacked. cbn. split_and!; auto. lia. }
  unfold lzjb_decompress. change (Z.shiftl 1 (NBBY - 1)) with 128.
  rewrite Hun. by rewrite (unpacked_all src out2 Hu).
Qed.

(** ** The address of the source *)

(** Same outcome, related values. *)
Definition res_rel {A} (R : A -> A -> Prop) (x y : result A) : Prop :=
  match x, y with
  | Ret a, Ret b => R a b
  | Panic, Panic => True
  | _, _ => False
  end.

Lemma res_rel_bind {A B} (R : A -> A -> Prop) (Q : B -> B -> Prop) x y f g :
  res_rel R x y -> (forall a b, R a b -> res_rel Q (f a) (g b)) -> res_rel Q (x ≫= f) (y ≫= g).
Proof. destruct x, y; cbn; auto; done. Qed.

Lemma res_rel_same {A B} (Q : B -> B -> Prop) (x : result A) f g :
  (forall a, res_rel Q (f a) (g a)) -> res_rel Q (x ≫= f) (x ≫= g).
Proof. destruct x; cbn; auto. Qed.

(** Equal modulo the reach of a copy. *)
Definition congr (a b : Z) : Prop := a mod 1024 = b mod 1024.

Definition lz_sim (st st' : lz_state) : Prop :=
  exists lempel, st' = LzState (lz_out st) (lz_dst st) (lz_copymap st) (lz_copymask st) lempel /\
    Forall2 congr (lz_lempel st) lempel.

Lemma literal_sim src i st st' :
  lz_sim st st' -> res_rel lz_sim (lzjb_literal src i st) (lzjb_literal src i st').
Proof.
  intros (lem & -> & H). unfold lzjb_literal. cbn. do 2 (apply res_rel_same; intros).
  exists lem. done.
Qed.

Definition item_sim (x y : lz_state * nat) : Prop := lz_sim (fst x) (fst y) /\ snd x = snd y.

Lemma literal_item_sim src i st st' :
  lz_sim st st' ->
  res_rel item_sim (st1 ← lzjb_literal src i st; Ret (st1, S i))
    (st1 ← lzjb_literal src i st'; Ret (st1, S i)).
Proof. intros H. eapply res_rel_bind; [by apply literal_sim|]. cbn. by intros. Qed.

Lemma copy_sim src i cpy offset st st' :
  lz_sim st st' -> res_rel item_sim (lzjb_copy src i cpy offset st) (lzjb_copy src i cpy offset st').
Proof.
  intros (lem & -> & H). unfold lzjb_copy. cbn. do 5 (apply res_rel_same; intros).
  split; [|done]. exists lem. done.
Qed.

Lemma rd_congr k k' i : Forall2 congr k k' -> res_rel congr (rd k i) (rd k' i).
Proof.
  intros H. unfold rd.
  destruct (k !! i) as [a|] eqn:E.
  - destruct (Forall2_lookup_l _ _ _ _ _ H E) as (b & -> & Hb). done.
  - apply lookup_ge_None in E. rewrite (Forall2_length _ _ _ H) in E.
    by apply lookup_ge_None in E as ->.
Qed.

Lemma wr_congr k k' i a b :
  Forall2 congr k k' -> congr a b -> res_rel (Forall2 congr) (wr k i a) (wr k' i b).
Proof.
  intros H Hab. unfold wr. rewrite <- (Forall2_length _ _ _ H).
  destruct (i <? length k)%nat; [|done]. by apply Forall2_insert.
Qed.

Lemma mod_pow2_16_10 a : (a mod 2 ^ 16) mod 2 ^ 10 = a mod 2 ^ 10.
Proof.
  rewrite <- !Z.land_ones by lia. rewrite <- Z.land_assoc. f_equal.
Qed.

Lemma lzjb_item_sim base base' src i st st' :
  congr base base' -> lz_sim st st' ->
  res_rel item_sim (lzjb_item base src i st) (lzjb_item base' src i st').
Proof.
  intros Hb Hst. pose proof Hst as (lem & -> & Hlem). unfold lzjb_item. cbn.
  split_if; [by apply literal_item_sim|]. do 3 (apply res_rel_same; intros).
  eapply res_rel_bind; [by apply rd_congr|]. intros h h' Hh.
  assert (forall a b c d, congr a b -> congr c d -> congr (a + Z.of_nat i - c) (b + Z.of_nat i - d)) as Hc.
  { unfold congr. intros u v w x Hac Hcd. rewrite Zminus_mod, Zplus_mod, Hac, Hcd.
    by rewrite <- Zplus_mod, <- Zminus_mod. }
  assert (Z.land (base + Z.of_nat i - h) OFFSET_MASK = Z.land (base' + Z.of_nat i - h') OFFSET_MASK)
    as <-. { unfold OFFSET_MASK. change 1023 with (Z.ones 10). rewrite !Z.land_ones by lia. by apply Hc. }
  eapply res_rel_bind.
  { apply wr_congr; [done|]. unfold congr. specialize (Hc base base' 0 0 Hb eq_refl).
    unfold congr in Hc. rewrite !Z.sub_0_r in Hc.
    change 1024 with (2 ^ 10) in *. rewrite !mod_pow2_16_10. exact Hc. }
  intros k k' Hk. assert (lz_sim
    (LzState (lz_out st) (lz_dst st) (lz_copymap st) (lz_copymask st) k)
    (LzState (lz_out st) (lz_dst st) (lz_copymap st) (lz_copymask st) k')) as Hs by (by exists k').
  split_if; [|by apply literal_item_sim]. do 3 (apply res_rel_same; intros).
  split_if; [by apply copy_sim|by apply literal_item_sim].
Qed.

Lemma compress_loop_sim base base' src d_len : congr base base' -> forall fuel i st st',
  lz_sim st st' ->
  compress_loop fuel base src d_len i st = compress_loop fuel base' src d_len i st'.
Proof.
  intros Hb. induction fuel as [|fuel IH]; intros i st st' Hst; pose proof Hst as (lem & -> & Hlem);
    cbn [compress_loop]; (destruct (i <? length src)%nat; [|reflexivity]); [reflexivity|].
  assert (res_rel (fun o o' => match o, o' with
                     | Some a, Some b => lz_sim a b | None, None => True | _, _ => False end)
    (lzjb_group d_len st)
    (lzjb_group d_len (LzState (lz_out st) (lz_dst st) (lz_copymap st) (lz_copymask st) lem)))
    as Hg.
  { unfold lzjb_group. cbn [lz_out lz_dst lz_copymap lz_copymask lz_lempel]. split_if.
    - split_if; [done|]. apply res_rel_same. intros. exists lem. done.
    - exists lem. done. }
  destruct (lzjb_group d_len st) as [[st1|]|], (lzjb_group d_len _) as [[st1'|]|];
    cbn [res_rel] in Hg; try contradiction; cbn [mbind result_bind]; [|reflexivity..].
  cbn [mbind result_bind]. pose proof (lzjb_item_sim base base' src i st1 st1' Hb Hg) as Hi.
  destruct (lzjb_item base src i st1) as [[st2 e]|], (lzjb_item base' src i st1') as [[st2' e']|];
    cbn [res_rel] in Hi; try contradiction; cbn [mbind result_bind]; [|reflexivity]. destruct Hi as [Hi1 Hi2]; cbn in Hi1, Hi2 |- *. subst. by apply IH.
Qed.

(** A block in which the bytes at offset 512 lie inside a copy and come up
    again at 601. *)
Definition lz_block : list Z :=
  replicate 470 0 ++ replicate 44 97 ++ [98] ++ replicate 85 0 ++ [99; 97; 97; 98] ++ replicate 420 0.

(** The address of the source matters modulo 1024 and no further.
    Identical blocks in buffers that are equally aligned to 1K compress to
    identical bytes; but there is a block of 1K that compresses to different
    bytes at addresses 0 and 512, and buffers of up to 2K are aligned to 512
    bytes only. *)
Theorem lzjb_address :
  (forall base base' src out d_len, base mod 1024 = base' mod 1024 ->
     lzjb_compress base src out d_len = lzjb_compress base' src out d_len) /\
  lzjb_compress 0 lz_block (replicate 896 0) 896 <> lzjb_compress 512 lz_block (replicate 896 0) 896.
Proof.
  split; [|vm_compute; discriminate].
  intros base base' src out d_len Hb. apply compress_loop_sim; [done|]. eexists; split; [done|].
  cbn [lz_lempel]. apply Forall_Forall2_diag, Forall_true. done.
Qed.

Definition lz_demo : list Z := concat (replicate 30 [1; 2; 3; 4; 5; 6; 7; 8; 9]).

Lemma lzjb_roundtrip_witness :
  exists out, lzjb_compress 4096 lz_demo (replicate 236 0) 236 = Ret (88%nat, out) /\
    lzjb_decompress (take 88 out) (replicate 270 55) 270 = Ret (0, lz_demo).
Proof.
  destruct (lzjb_roundtrip 4096 lz_demo (replicate 236 0) 236) as (c & out & Hc & H).
  { reflexivity. }
  assert (c = 88%nat) as ->.
  { apply (f_equal (fun r => match r with Ret (c, _) => c | Panic => 0%nat end)) in Hc.
    vm_compute in Hc. by rewrite <- Hc. }
  exists out. split; [exact Hc|]. apply H; [vm_compute; lia|reflexivity].
Defined.
