(* ===== verification/Zle.v ===== *)
(** * Zero-length encoding

    Model of [kernel/fs/zfs/zle.c]. *)

From S2P Require Import Prelude.

(** [while (src < MIN(last, s_end) && src[0] == 0) src++], [k] bytes before
    the bound. *)
Fixpoint zle_zeros (k : nat) (src : list Z) (i : nat) : result nat :=
  match k with
  | O => Ret i
  | S k' => b ← rd src i; if b =? 0 then zle_zeros k' src (S i) else Ret i
  end.

(** [while (src < MIN(last, s_end) - 1 && (src[0] | src[1])) *dst++ = *src++]. *)
Fixpoint zle_literals (k : nat) (src : list Z) (i : nat) (out : list Z) (j : nat)
    : result (nat * list Z * nat) :=
  match k with
  | O => Ret (i, out, j)
  | S k' =>
      a ← rd src i;
      b ← rd src (S i);
      if Z.lor a b =? 0 then Ret (i, out, j)
      else out' ← wr out j a; zle_literals k' src (S i) out' (S j)
  end.

(** The literal bytes of a chunk: a last one that is not zero goes along. *)
Definition zle_run (k : nat) (src : list Z) (i : nat) (out : list Z) (j : nat)
    : result (nat * list Z * nat) :=
  '(i, out, j) ← zle_literals k src i out j;
  c ← rd src i;
  if c =? 0 then Ret (i, out, j) else out ← wr out j c; Ret (S i, out, S j).

(** One chunk, from source index [i] to destination index [j]; [None] is the
    [break]. *)
Definition zle_chunk (src : list Z) (i : nat) (out : list Z) (j d_len n : nat)
    : result (option (nat * list Z * nat)) :=
  let first := i in
  let len := j in
  let j := S j in
  b ← rd src i;
  if b =? 0 then
    let last := (i + (256 - n))%nat in
    i ← zle_zeros (Nat.min last (length src) - i) src i;
    out ← wr out len (Z.of_nat (i - first - 1 + n) mod 256);
    Ret (Some (i, out, j))
  else
    let last := (i + n)%nat in
    if (d_len - j <? n)%nat then Ret None
    else
      '(i, out, j) ← zle_run (Nat.min last (length src) - 1 - i) src i out j;
      out ← wr out len (Z.of_nat (i - first - 1) mod 256);
      Ret (Some (i, out, j)).

(** The main loop.  Every chunk takes a byte of the source at least: the
    length of the source is fuel enough. *)
Fixpoint zle_compress_loop (fuel : nat) (src : list Z) (i : nat) (out : list Z)
    (j d_len n : nat) : result (nat * list Z) :=
  if (i <? length src)%nat && (j <? d_len - 1)%nat then
    match fuel with
    | O => Panic
    | S fuel' =>
        o ← zle_chunk src i out j d_len n;
        match o with
        | None => Ret (length src, out)
        | Some (i', out', j') => zle_compress_loop fuel' src i' out' j' d_len n
        end
    end
  else Ret (if (i =? length src)%nat then j else length src, out).

(** The value returned and the destination buffer, which was [out]. *)
Definition zle_compress (src out : list Z) (d_len n : nat) : result (nat * list Z) :=
  zle_compress_loop (length src) src 0 out 0 d_len n.

(** [while (len-- != 0) *dst++ = *src++], which looks at neither end. *)
Fixpoint zle_copy (len : nat) (src : list Z) (i : nat) (out : list Z) (j : nat)
    : result (list Z) :=
  match len with
  | O => Ret out
  | S len' => b ← rd src i; out' ← wr out j b; zle_copy len' src (S i) out' (S j)
  end.

Fixpoint zle_fill (len : nat) (out : list Z) (j : nat) : result (list Z) :=
  match len with
  | O => Ret out
  | S len' => out' ← wr out j 0; zle_fill len' out' (S j)
  end.

(** The loop of [zle_decompress]; each round reads a byte of the source. *)
Fixpoint zle_decompress_loop (fuel : nat) (src : list Z) (i : nat) (out : list Z)
    (j d_len n : nat) : result (Z * list Z) :=
  if (i <? length src)%nat && (j <? d_len)%nat then
    match fuel with
    | O => Panic
    | S fuel' =>
        b ← rd src i;
        let i := S i in
        let len := S (Z.to_nat b) in
        if (len <=? n)%nat then
          out ← zle_copy len src i out j;
          zle_decompress_loop fuel' src (i + len) out (j + len) d_len n
        else
          let len := (len - n)%nat in
          out ← zle_fill len out j;
          zle_decompress_loop fuel' src i out (j + len) d_len n
    end
  else Ret (if (j =? d_len)%nat then 0 else -1, out).

Definition zle_decompress (src out : list Z) (d_len n : nat) : result (Z * list Z) :=
  zle_decompress_loop (length src) src 0 out 0 d_len n.

(** * Properties *)

(** ** The format: chunks *)

Inductive chunk : Type := Zeros (m : nat) | Literals (bs : list Z).

Definition chunk_ok (n : nat) (c : chunk) : Prop :=
  match c with
  | Zeros m => (1 <= m <= 256 - n)%nat
  | Literals bs => (1 <= length bs <= n)%nat
  end.

Definition chunk_bytes (n : nat) (c : chunk) : list Z :=
  match c with
  | Zeros m => [Z.of_nat (m - 1 + n)]
  | Literals bs => Z.of_nat (length bs - 1) :: bs
  end.

Definition chunk_data (c : chunk) : list Z :=
  match c with
  | Zeros m => replicate m 0
  | Literals bs => bs
  end.

Definition chunks_bytes (n : nat) (cs : list chunk) : list Z := concat (chunk_bytes n <$> cs).
Definition chunks_data (cs : list chunk) : list Z := concat (chunk_data <$> cs).

Lemma chunks_bytes_snoc n cs c : chunks_bytes n (cs ++ [c]) = chunks_bytes n cs ++ chunk_bytes n c.
Proof. unfold chunks_bytes. rewrite fmap_app, concat_app. cbn. by rewrite app_nil_r. Qed.
Lemma chunks_data_snoc cs c : chunks_data (cs ++ [c]) = chunks_data cs ++ chunk_data c.
Proof. unfold chunks_data. rewrite fmap_app, concat_app. cbn. by rewrite app_nil_r. Qed.

(** ** Compression *)

Section Compress.
Context (src : list Z) (d_len n : nat).
Hypothesis Hn : (1 <= n <= 255)%nat.

(** The chunks [cs] are written and [i] source bytes are behind. *)
Definition zle_inv (i : nat) (out : list Z) (j : nat) (cs : list chunk) : Prop :=
  (i <= length src)%nat /\ (d_len <= length out)%nat /\ (j <= d_len)%nat /\
  take j out = chunks_bytes n cs /\ take i src = chunks_data cs /\ Forall (chunk_ok n) cs.

Lemma take_snoc {A} (k : list A) i x : k !! i = Some x -> take (S i) k = take i k ++ [x].
Proof. apply take_S_r. Qed.

Lemma zle_zeros_ok : forall k i,
  (i + k <= length src)%nat ->
  exists m, zle_zeros k src i = Ret (i + m)%nat /\ (m <= k)%nat /\
    take (i + m) src = take i src ++ replicate m 0 /\
    ((0 < k)%nat -> src !! i = Some 0 -> (0 < m)%nat).
Proof.
  induction k as [|k IH]; intros i Hk; cbn [zle_zeros].
  { exists 0%nat. rewrite Nat.add_0_r, app_nil_r. split_and!; auto; lia. }
  destruct (lookup_lt_is_Some_2 src i) as [b Hb]; [lia|]. rewrite (rd_ok _ _ _ Hb). cbn.
  destruct (Z.eqb_spec b 0) as [->|Hne].
  - destruct (IH (S i)) as (m & -> & Hm & Ht & _); [lia|]. exists (S m).
    replace (i + S m)%nat with (S i + m)%nat by lia. split_and!; auto; [lia| |lia].
    by rewrite Ht, (take_snoc _ _ _ Hb), <- app_assoc.
  - exists 0%nat. rewrite Nat.add_0_r, app_nil_r. split_and!; auto; [lia|].
    intros _ ?. congruence.
Qed.

(** The literals copied; [bs] is what they are. *)
Lemma zle_literals_ok : forall k i out j,
  (i + k + 1 <= length src)%nat -> (j + k <= length out)%nat ->
  exists bs out', zle_literals k src i out j = Ret ((i + length bs)%nat, out', (j + length bs)%nat) /\
    (length bs <= k)%nat /\ length out' = length out /\
    take (i + length bs) src = take i src ++ bs /\ take (j + length bs) out' = take j out ++ bs.
Proof.
  induction k as [|k IH]; intros i out j Hi Hj; cbn [zle_literals].
  { exists [], out. cbn. rewrite !Nat.add_0_r, !app_nil_r. done. }
  destruct (lookup_lt_is_Some_2 src i) as [a Ha]; [lia|].
  destruct (lookup_lt_is_Some_2 src (S i)) as [b Hb]; [lia|].
  rewrite (rd_ok _ _ _ Ha), (rd_ok _ _ _ Hb). cbn [mbind result_bind].
  destruct (Z.lor a b =? 0).
  { exists [], out. cbn. rewrite !Nat.add_0_r, !app_nil_r. split_and!; auto; lia. }
  rewrite wr_ok by lia. cbn [mbind result_bind].
  destruct (IH (S i) (<[j:=a]> out) (S j)) as (bs & out' & -> & Hl & Hlen & Hs & Hd);
    [lia|rewrite length_insert; lia|]. rewrite length_insert in Hlen.
  exists (a :: bs), out'. cbn [length]. rewrite <- !Nat.add_succ_comm. split_and!; auto; [lia| |].
  - rewrite Hs, (take_snoc _ _ _ Ha), <- app_assoc. done.
  - rewrite Hd, take_insert_snoc, <- app_assoc by lia. done.
Qed.

Lemma zle_run_ok k i out j b :
  (i + k + 1 <= length src)%nat -> (j + k + 1 <= length out)%nat -> src !! i = Some b -> b <> 0 ->
  exists bs out', zle_run k src i out j = Ret ((i + length bs)%nat, out', (j + length bs)%nat) /\
    (1 <= length bs <= k + 1)%nat /\ length out' = length out /\
    take (i + length bs) src = take i src ++ bs /\ take (j + length bs) out' = take j out ++ bs.
Proof.
  intros Hi Hj Hb Hne. unfold zle_run.
  destruct (zle_literals_ok k i out j) as (bs & out1 & -> & Hbs & Hl1 & Hs1 & Hd1); [lia..|].
  cbn [mbind result_bind].
  destruct (lookup_lt_is_Some_2 src (i + length bs)) as [c Hc]; [lia|].
  rewrite (rd_ok _ _ _ Hc). cbn [mbind result_bind]. destruct (Z.eqb_spec c 0) as [->|Hcne].
  - exists bs, out1. split_and!; auto; [|lia]. destruct bs; cbn; [|lia]. exfalso.
    cbn in Hc. rewrite Nat.add_0_r in Hc. congruence.
  - rewrite wr_ok by lia. cbn [mbind result_bind].
    exists (bs ++ [c]), (<[(j + length bs)%nat := c]> out1).
    rewrite length_app, length_insert. cbn [length]. rewrite !Nat.add_1_r, !Nat.add_succ_r.
    split_and!; auto; try lia.
    + by rewrite (take_snoc _ _ _ Hc), Hs1, app_assoc.
    + by rewrite take_insert_snoc, Hd1, app_assoc by lia.
Qed.

(** Filling in the length byte after the data of the chunk. *)
Lemma set_length_byte (out out' : list Z) j data (b : Z) :
  (j < length out)%nat -> take (S j + length data) out' = take (S j) out ++ data ->
  take (S j + length data) (<[j := b]> out') = take j out ++ b :: data.
Proof.
  intros Hj Ht. rewrite take_insert_lt, Ht, insert_app_l by (rewrite ?length_take; lia).
  rewrite <- take_insert_lt, take_insert_snoc by lia. by rewrite <- app_assoc.
Qed.

Lemma zle_chunk_zeros i out j cs :
  zle_inv i out j cs -> (i < length src)%nat -> (j < d_len - 1)%nat -> src !! i = Some 0 ->
  exists i' out' j' cs', zle_chunk src i out j d_len n = Ret (Some (i', out', j')) /\
    zle_inv i' out' j' cs' /\ (i < i')%nat.
Proof.
  intros (Hi & Hout & Hj & Htj & Hti & Hcs) Hlt Hjd Hb. unfold zle_chunk.
  rewrite (rd_ok _ _ _ Hb). cbn [mbind result_bind]. change (0 =? 0) with true. cbn match.
  destruct (zle_zeros_ok (Nat.min (i + (256 - n)) (length src) - i) i) as (m & -> & Hm & Ht & Hpos);
    [lia|]. specialize (Hpos ltac:(lia) Hb). cbn [mbind result_bind]. rewrite wr_ok by lia.
  cbn [mbind result_bind]. replace (i + m - i - 1 + n)%nat with (m - 1 + n)%nat by lia.
  rewrite Z.mod_small by lia.
  eexists _, _, _, (cs ++ [Zeros m]). split; [done|]. split; [|lia]. unfold zle_inv.
  rewrite length_insert, take_insert_snoc, Htj, chunks_bytes_snoc, Ht, Hti, chunks_data_snoc by lia.
  split_and!; auto; [lia..|]. apply Forall_app. split; [done|]. apply Forall_singleton. cbn. lia.
Qed.

Lemma zle_chunk_literals i out j cs b :
  zle_inv i out j cs -> (i < length src)%nat -> (j < d_len - 1)%nat ->
  src !! i = Some b -> b <> 0 ->
  zle_chunk src i out j d_len n = Ret None \/
  exists i' out' j' cs', zle_chunk src i out j d_len n = Ret (Some (i', out', j')) /\
    zle_inv i' out' j' cs' /\ (i < i')%nat.
Proof.
  intros (Hi & Hout & Hj & Htj & Hti & Hcs) Hlt Hjd Hb Hne. unfold zle_chunk.
  rewrite (rd_ok _ _ _ Hb). cbn [mbind result_bind]. destruct (Z.eqb_spec b 0); [done|].
  destruct (Nat.ltb_spec (d_len - S j) n); [by left|]. right.
  destruct (zle_run_ok (Nat.min (i + n) (length src) - 1 - i) i out (S j) b)
    as (bs & out2 & -> & Hbs & Hl2 & Hs2 & Hd2); auto; [lia..|].
  cbn [mbind result_bind]. rewrite wr_ok by lia. cbn [mbind result_bind].
  replace (i + length bs - i - 1)%nat with (length bs - 1)%nat by lia. rewrite Z.mod_small by lia.
  eexists _, _, _, (cs ++ [Literals bs]). split; [done|]. split; [|lia]. unfold zle_inv.
  rewrite length_insert, chunks_bytes_snoc, chunks_data_snoc, Hs2, Hti.
  rewrite (set_length_byte out) by (done || lia). rewrite Htj.
  split_and!; auto; [lia..|]. apply Forall_app. split; [done|]. apply Forall_singleton. cbn. lia.
Qed.

Lemma zle_compress_loop_ok : forall fuel i out j cs,
  zle_inv i out j cs -> (length src - i <= fuel)%nat ->
  exists c out', zle_compress_loop fuel src i out j d_len n = Ret (c, out') /\
    (c = length src \/ (c <= d_len)%nat /\ exists cs', take c out' = chunks_bytes n cs' /\
       chunks_data cs' = src /\ Forall (chunk_ok n) cs').
Proof.
  induction fuel as [|fuel IH]; intros i out j cs Hinv Hf; cbn [zle_compress_loop];
    pose proof Hinv as (Hi & Hout & Hj & Htj & Hti & Hcs).
  all: destruct (Nat.ltb_spec i (length src)), (Nat.ltb_spec j (d_len - 1)); cbn [andb]; try lia.
  3: { destruct (lookup_lt_is_Some_2 src i) as [b Hb]; [done|].
       assert (zle_chunk src i out j d_len n = Ret None \/ exists i' out' j' cs',
         zle_chunk src i out j d_len n = Ret (Some (i', out', j')) /\
         zle_inv i' out' j' cs' /\ (i < i')%nat) as [->|(i' & out' & j' & cs' & -> & Hinv' & Hlt)].
       { destruct (Z.eq_dec b 0) as [->|]; [right; by eapply zle_chunk_zeros|].
         by eapply zle_chunk_literals. }
       - cbn. eexists _, _. split; [done|]. by left.
       - cbn [mbind result_bind]. eapply IH; [done|lia]. }
  all: eexists _, _; split; [done|]; destruct (Nat.eqb_spec i (length src)) as [->|]; [|by left].
  all: right; split; [done|]; exists cs; split_and!; auto; by rewrite <- Hti, firstn_all.
Qed.
End Compress.

(** ** Decompression *)

Lemma zle_fill_ok : forall m (out : list Z) j,
  (j + m <= length out)%nat ->
  exists out', zle_fill m out j = Ret out' /\ length out' = length out /\
    take (j + m) out' = take j out ++ replicate m 0.
Proof.
  induction m as [|m IH]; intros out j Hj; cbn [zle_fill].
  { exists out. by rewrite Nat.add_0_r, app_nil_r. }
  rewrite wr_ok by lia. cbn [mbind result_bind].
  destruct (IH (<[j := 0]> out) (S j)) as (out' & -> & Hl & Ht); [rewrite length_insert; lia|].
  rewrite length_insert in Hl. exists out'. split_and!; auto.
  rewrite <- Nat.add_succ_comm, Ht, take_insert_snoc, <- app_assoc by lia. done.
Qed.

Lemma zle_copy_ok src : forall bs i (out : list Z) j tail,
  (j + length bs <= length out)%nat -> drop i src = bs ++ tail ->
  exists out', zle_copy (length bs) src i out j = Ret out' /\ length out' = length out /\
    take (j + length bs) out' = take j out ++ bs.
Proof.
  induction bs as [|b bs IH]; intros i out j tail Hj Hd; cbn [zle_copy length].
  { exists out. by rewrite Nat.add_0_r, app_nil_r. }
  assert (src !! i = Some b) as Hb by (by rewrite <- (Nat.add_0_r i), <- lookup_drop, Hd).
  cbn [length] in Hj. rewrite (rd_ok _ _ _ Hb). cbn [mbind result_bind]. rewrite wr_ok by lia.
  cbn [mbind result_bind].
  destruct (IH (S i) (<[j := b]> out) (S j) tail) as (out' & -> & Hl & Ht);
    [rewrite length_insert; lia|by rewrite <- Nat.add_1_r, <- drop_drop, Hd|].
  rewrite length_insert in Hl. exists out'. split_and!; auto.
  rewrite <- Nat.add_succ_comm, Ht, take_insert_snoc, <- app_assoc by lia. done.
Qed.

Lemma zle_decompress_loop_ok src n : (1 <= n <= 255)%nat -> forall cs fuel i out j,
  Forall (chunk_ok n) cs -> drop i src = chunks_bytes n cs -> (length src - i <= fuel)%nat ->
  (i <= length src)%nat -> length out = (j + length (chunks_data cs))%nat ->
  zle_decompress_loop fuel src i out j (length out) n = Ret (0, take j out ++ chunks_data cs).
Proof.
  intros Hn. induction cs as [|c cs IH]; intros fuel i out j Hok Hd Hf Hi Hl.
  { cbn in Hd, Hl. rewrite Nat.add_0_r in Hl. rewrite app_nil_r, firstn_all2 by lia.
    destruct fuel; cbn [zle_decompress_loop]; rewrite Hl, Nat.ltb_irrefl, andb_false_r, Nat.eqb_refl; done. }
  apply Forall_cons in Hok as [Hc Hok]. unfold chunks_bytes, chunks_data in *.
  cbn [fmap list_fmap concat] in Hd, Hl |- *. rewrite length_app in Hl.
  assert (length (drop i src) = (length src - i)%nat) as Hlen by apply length_drop.
  rewrite Hd, length_app in Hlen.
  assert (forall b k, chunk_bytes n c ++ concat (chunk_bytes n <$> cs) = b :: k ->
            rd src i = Ret b /\ drop (S i) src = k) as Hhd.
  { intros b k Heq. rewrite Heq in Hd. split.
    - apply rd_ok. by rewrite <- (Nat.add_0_r i), <- lookup_drop, Hd.
    - by rewrite <- Nat.add_1_r, <- drop_drop, Hd. }
  destruct c as [m|bs]; cbn [chunk_ok chunk_bytes chunk_data length app] in *.
  - destruct (Hhd _ _ eq_refl) as [Hrd Hd1]. rewrite length_replicate in Hl.
    destruct fuel as [|fuel]; [lia|]. cbn [zle_decompress_loop].
    destruct (Nat.ltb_spec i (length src)); [|lia].
    destruct (Nat.ltb_spec j (length out)); [|lia]. cbn [andb]. rewrite Hrd. cbn [mbind result_bind].
    rewrite Nat2Z.id. destruct (Nat.leb_spec (S (m - 1 + n)) n); [lia|].
    replace (S (m - 1 + n) - n)%nat with m by lia.
    destruct (zle_fill_ok m out j) as (out' & -> & Hl' & Ht); [lia|]. cbn [mbind result_bind].
    rewrite <- Hl', (IH fuel (S i) out' (j + m)%nat), Ht, <- app_assoc; auto; lia.
  - destruct (Hhd _ _ eq_refl) as [Hrd Hd1]. destruct fuel as [|fuel]; [lia|].
    cbn [zle_decompress_loop].
    destruct (Nat.ltb_spec i (length src)); [|lia].
    destruct (Nat.ltb_spec j (length out)); [|lia]. cbn [andb]. rewrite Hrd. cbn [mbind result_bind].
    rewrite Nat2Z.id. destruct (Nat.leb_spec (S (length bs - 1)) n); [|lia].
    replace (S (length bs - 1)) with (length bs) by lia.
    destruct (zle_copy_ok src bs (S i) out j (concat (chunk_bytes n <$> cs)))
      as (out' & -> & Hl' & Ht); [lia|done|]. cbn [mbind result_bind].
    rewrite <- Hl', (IH fuel (S i + length bs)%nat out' (j + length bs)%nat), Ht, <- app_assoc; auto;
      [|lia..]. by rewrite <- drop_drop, Hd1, drop_app_length.
Qed.

(** ** Main theorems *)

(** C26: zero-length encoding is lossless and the compressor stays inside its
    buffers, for every parameter [1 <= n <= 255] (the kernel uses 64): it
    returns without reading beyond the source or writing beyond a destination
    of [d_len] bytes, and if it returns less than the length of the source,
    decompressing what it wrote into any buffer of the source's length gives
    the source back. *)
Theorem zle_roundtrip (src out : list Z) (d_len n : nat) :
  (1 <= n <= 255)%nat -> (d_len <= length out)%nat ->
  exists c out', zle_compress src out d_len n = Ret (c, out') /\
    ((c < length src)%nat -> (c <= d_len)%nat /\ forall buf, length buf = length src ->
       zle_decompress (take c out') buf (length src) n = Ret (0, src)).
Proof.
  intros Hn Hlen.
  destruct (zle_compress_loop_ok src d_len n Hn (length src) 0 out 0 []) as (c & out' & Hc & Hres);
    [|lia|].
  { unfold zle_inv. cbn. split_and!; auto; lia. }
  exists c, out'. split; [done|]. intros Hlt.
  destruct Hres as [->|(Hd & cs & Ht & Hdata & Hok)]; [lia|]. split; [done|]. intros buf Hbuf.
  rewrite Ht. unfold zle_decompress. rewrite <- Hbuf.
  rewrite (zle_decompress_loop_ok _ n Hn cs); auto; cbn; [by rewrite Hdata|lia..|by rewrite Hdata].
Qed.

Lemma zle_zero_run (n b : nat) buf :
  (1 <= n <= b)%nat -> (b <= 255)%nat -> length buf = (b - n + 1)%nat ->
  zle_decompress [Z.of_nat b] buf (b - n + 1) n = Ret (0, replicate (b - n + 1) 0).
Proof.
  intros Hn Hb Hl. unfold zle_decompress. rewrite <- Hl at 1.
  rewrite (zle_decompress_loop_ok [Z.of_nat b] n ltac:(lia) [Zeros (b - n + 1)]); cbn; auto; try lia.
  - by rewrite app_nil_r.
  - repeat constructor; cbn; lia.
  - unfold chunks_bytes. cbn. do 2 f_equal. lia.
  - unfold chunks_data. cbn. rewrite app_nil_r, length_replicate. lia.
Qed.

Lemma zle_copy_overrun src : forall len i (out : list Z) j,
  (j <= length out < j + len)%nat -> zle_copy len src i out j = Panic.
Proof.
  induction len as [|len IH]; intros i out j Hj; [lia|]. cbn [zle_copy].
  destruct (rd src i); [|done]. cbn [mbind result_bind]. unfold wr.
  destruct (Nat.ltb_spec j (length out)); [|done]. cbn [mbind result_bind].
  apply IH. rewrite length_insert. lia.
Qed.

(** C27: what the decompressor makes of a single chunk.  A length byte
    [b >= n] stands for [b - n + 1] zero bytes.  A chunk of literals is copied
    without regard to the end of the destination: when it is longer than the
    destination the copy runs past the end of the buffer. *)
Theorem zle_decompress_chunk (n : nat) (buf : list Z) :
  (1 <= n <= 255)%nat ->
  (forall b, (n <= b <= 255)%nat -> length buf = (b - n + 1)%nat ->
     zle_decompress [Z.of_nat b] buf (length buf) n = Ret (0, replicate (b - n + 1) 0)) /\
  (forall bs, (1 <= length buf < length bs)%nat -> (length bs <= n)%nat ->
     zle_decompress (Z.of_nat (length bs - 1) :: bs) buf (length buf) n = Panic).
Proof.
  intros Hn. split.
  - intros b Hb Hl. rewrite Hl. apply zle_zero_run; lia.
  - intros bs Hbs Hle. unfold zle_decompress. cbn [length zle_decompress_loop].
    destruct (Nat.ltb_spec 0 (S (length bs))); [|lia].
    destruct (Nat.ltb_spec 0 (length buf)); [|lia].
    cbn [andb rd lookup list_lookup mbind result_bind]. rewrite Nat2Z.id.
    destruct (Nat.leb_spec (S (length bs - 1)) n); [|lia].
    by rewrite zle_copy_overrun by lia.
Qed.

Lemma zle_decompress_chunk_witness :
  zle_decompress [66] [7; 7; 7] 3 64 = Ret (0, [0; 0; 0]) /\
  zle_decompress [3; 1; 2; 3; 4] [0; 0] 2 64 = Panic.
Proof.
  split.
  - apply (zle_decompress_chunk 64 [7; 7; 7] ltac:(lia)) with (b := 66%nat); [lia|reflexivity].
  - apply (zle_decompress_chunk 64 [0; 0] ltac:(lia)) with (bs := [1; 2; 3; 4]); cbn; lia.
Defined.

Definition zle_demo : list Z := [5; 0; 7; 0; 0; 0; 0; 0; 0; 0; 0; 0; 9; 9; 0; 0; 0; 0; 0; 0].

Lemma zle_roundtrip_witness :
  exists out, zle_compress zle_demo (replicate 17 1) 17 4 = Ret (9%nat, out) /\
    zle_decompress (take 9 out) (replicate 20 55) 20 4 = Ret (0, zle_demo).
Proof.
  destruct (zle_roundtrip zle_demo (replicate 17 1) 17 4) as (c & out & Hc & H); [lia|reflexivity|].
  assert (c = 9%nat) as ->.
  { apply (f_equal (fun r => match r with Ret (c, _) => c | Panic => 0%nat end)) in Hc.
    vm_compute in Hc. by rewrite <- Hc. }
  exists out. split; [exact Hc|]. apply H; [vm_compute; lia|reflexivity].
Defined.
