(* ===== verification/Fletcher.v ===== *)
(** * Fletcher checksums

    Model of [kernel/fs/zfs/common/zfs_fletcher.c].  A buffer is a list of
    bytes; its words are read in the byte order of the machine, which is
    little-endian ([buf_words]). *)

From S2P Require Import Prelude.

(** [zio_cksum_t]. *)
Record zio_cksum : Type := ZioCksum { zc_word0 : Z; zc_word1 : Z; zc_word2 : Z; zc_word3 : Z }.

(** [include/sys/byteorder.h]. *)
Definition wrap32 (x : Z) : Z := x mod 2 ^ 32.
Definition BSWAP_32 (x : Z) : Z :=
  Z.lor (Z.lor (Z.lor (wrap32 (Z.shiftl x 24)) (Z.land (wrap32 (Z.shiftl x 8)) 0xff0000))
               (Z.land (Z.shiftr x 8) 0xff00)) (Z.shiftr x 24).
Definition BSWAP_64 (x : Z) : Z :=
  Z.lor (Z.lor (Z.lor (Z.lor (Z.lor (Z.lor (Z.lor
    (wrap64 (Z.shiftl x 56))
    (Z.land (wrap64 (Z.shiftl x 40)) 0xff000000000000))
    (Z.land (wrap64 (Z.shiftl x 24)) 0xff0000000000))
    (Z.land (wrap64 (Z.shiftl x 8)) 0xff00000000))
    (Z.land (Z.shiftr x 8) 0xff000000))
    (Z.land (Z.shiftr x 24) 0xff0000))
    (Z.land (Z.shiftr x 40) 0xff00))
    (Z.shiftr x 56).

Definition fletcher_init : zio_cksum := ZioCksum 0 0 0 0.

(** The loop of the second-order checksum over words taken through [f]; it
    reads words in pairs, whatever their number. *)
Fixpoint fletcher_2_loop (f : Z -> Z) (ip : list Z) (a0 a1 b0 b1 : Z) : result zio_cksum :=
  match ip with
  | [] => Ret (ZioCksum a0 a1 b0 b1)
  | [_] => Panic
  | w0 :: w1 :: ip' =>
      let a0 := add64 a0 (f w0) in
      let a1 := add64 a1 (f w1) in
      fletcher_2_loop f ip' a0 a1 (add64 b0 a0) (add64 b1 a1)
  end.

Definition fletcher_2_incremental_native (buf : list Z) (zcp : zio_cksum) : result zio_cksum :=
  fletcher_2_loop (fun w => w) (buf_words 8 buf)
    (zc_word0 zcp) (zc_word1 zcp) (zc_word2 zcp) (zc_word3 zcp).
Definition fletcher_2_native (buf : list Z) : result zio_cksum :=
  fletcher_2_incremental_native buf fletcher_init.
Definition fletcher_2_incremental_byteswap (buf : list Z) (zcp : zio_cksum) : result zio_cksum :=
  fletcher_2_loop BSWAP_64 (buf_words 8 buf)
    (zc_word0 zcp) (zc_word1 zcp) (zc_word2 zcp) (zc_word3 zcp).
Definition fletcher_2_byteswap (buf : list Z) : result zio_cksum :=
  fletcher_2_incremental_byteswap buf fletcher_init.

(** The loop of the fourth-order checksum. *)
Fixpoint fletcher_4_loop (f : Z -> Z) (ip : list Z) (a b c d : Z) : zio_cksum :=
  match ip with
  | [] => ZioCksum a b c d
  | w :: ip' =>
      let a := add64 a (f w) in
      let b := add64 b a in
      let c := add64 c b in
      let d := add64 d c in
      fletcher_4_loop f ip' a b c d
  end.

Definition fletcher_4_incremental_native (buf : list Z) (zcp : zio_cksum) : zio_cksum :=
  fletcher_4_loop (fun w => w) (buf_words 4 buf)
    (zc_word0 zcp) (zc_word1 zcp) (zc_word2 zcp) (zc_word3 zcp).
Definition fletcher_4_native (buf : list Z) : zio_cksum :=
  fletcher_4_incremental_native buf fletcher_init.
Definition fletcher_4_incremental_byteswap (buf : list Z) (zcp : zio_cksum) : zio_cksum :=
  fletcher_4_loop BSWAP_32 (buf_words 4 buf)
    (zc_word0 zcp) (zc_word1 zcp) (zc_word2 zcp) (zc_word3 zcp).
Definition fletcher_4_byteswap (buf : list Z) : zio_cksum :=
  fletcher_4_incremental_byteswap buf fletcher_init.

(** * Properties *)

(** ** The series of the comment in the source *)

Definition coef_a (i : Z) : Z := 1.
Definition coef_b (i : Z) : Z := i.
Definition coef_c (i : Z) : Z := i * (i + 1) / 2.
Definition coef_d (i : Z) : Z := i * (i + 1) * (i + 2) / 6.

(** [sum (i = 1 .. n) coef(i) * f_(n - i)] over [f_0 .. f_(n - 1)]. *)
Fixpoint series (coef : Z -> Z) (fs : list Z) : Z :=
  match fs with
  | [] => 0
  | f :: fs' => coef (Z.of_nat (length fs)) * f + series coef fs'
  end.

Lemma coef_c_succ i : coef_c (i + 1) = coef_c i + (i + 1).
Proof.
  unfold coef_c. replace ((i + 1) * (i + 1 + 1)) with (i * (i + 1) + (i + 1) * 2) by lia.
  apply Z.div_add. lia.
Qed.

Lemma coef_c_twice i : 2 * coef_c i = i * (i + 1).
Proof.
  unfold coef_c. pose proof (Z.div_mod (i * (i + 1)) 2 ltac:(lia)) as H.
  enough ((i * (i + 1)) mod 2 = 0) by lia.
  destruct (Z.Even_or_Odd i) as [[k ->]|[k ->]].
  - replace (2 * k * (2 * k + 1)) with (k * (2 * k + 1) * 2) by lia. apply Z.mod_mul. lia.
  - replace ((2 * k + 1) * (2 * k + 1 + 1)) with ((2 * k + 1) * (k + 1) * 2) by lia. apply Z.mod_mul. lia.
Qed.

Lemma coef_d_succ i : coef_d (i + 1) = coef_d i + coef_c (i + 1).
Proof.
  unfold coef_d. pose proof (coef_c_twice (i + 1)) as H.
  replace ((i + 1) * (i + 1 + 1) * (i + 1 + 2)) with (i * (i + 1) * (i + 2) + coef_c (i + 1) * 6) by lia.
  apply Z.div_add. lia.
Qed.

Lemma series_snoc (coef coef' : Z -> Z) fs f :
  (forall i, coef (i + 1) = coef i + coef' (i + 1)) -> coef 0 = 0 ->
  series coef (fs ++ [f]) = series coef fs + series coef' (fs ++ [f]).
Proof.
  intros Hs H0. induction fs as [|g fs IH]; cbn [app series length].
  - specialize (Hs 0). rewrite H0 in Hs. change (Z.of_nat 1) with (0 + 1). rewrite Hs. lia.
  - rewrite length_app. cbn [length]. rewrite IH.
    replace (Z.of_nat (S (length fs + 1))) with (Z.of_nat (S (length fs)) + 1) by lia.
    rewrite Hs. lia.
Qed.

Lemma series_a_snoc fs f : series coef_a (fs ++ [f]) = series coef_a fs + f.
Proof. induction fs as [|g fs IH]; cbn [app series]; [unfold coef_a; cbn; lia|]. rewrite IH. unfold coef_a. lia. Qed.

Lemma fletcher_4_loop_app f ip1 ip2 a b c d :
  fletcher_4_loop f (ip1 ++ ip2) a b c d =
    let z := fletcher_4_loop f ip1 a b c d in
    fletcher_4_loop f ip2 (zc_word0 z) (zc_word1 z) (zc_word2 z) (zc_word3 z).
Proof. revert a b c d. induction ip1 as [|w ip1 IH]; intros a b c d; cbn; [done|]. apply IH. Qed.

Lemma fletcher_4_series fs :
  fletcher_4_loop (fun w => w) fs 0 0 0 0 =
    ZioCksum (wrap64 (series coef_a fs)) (wrap64 (series coef_b fs))
             (wrap64 (series coef_c fs)) (wrap64 (series coef_d fs)).
Proof.
  induction fs as [|f fs IH] using rev_ind; [done|].
  rewrite fletcher_4_loop_app, IH. cbn.
  rewrite (series_snoc coef_d coef_c), (series_snoc coef_c coef_b), (series_snoc coef_b coef_a), series_a_snoc
    by (try done; intros i; unfold coef_a, coef_b in *; auto using coef_c_succ, coef_d_succ).
  unfold add64. rewrite !wrap64_add_l.
  assert (forall x y, wrap64 (x + wrap64 y) = wrap64 (x + y)) as Hr.
  { intros x y. by rewrite Z.add_comm, wrap64_add_l, Z.add_comm. }
  by rewrite !Hr.
Qed.

(** ** Byte order *)

Lemma BSWAP_32_le b0 b1 b2 b3 :
  bytes [b0; b1; b2; b3] -> BSWAP_32 (le [b0; b1; b2; b3]) = le [b3; b2; b1; b0].
Proof.
  intros (H0 & (H1 & (H2 & (H3 & _)%Forall_cons)%Forall_cons)%Forall_cons)%Forall_cons.
  cbn [le]. set (x := b0 + 256 * (b1 + 256 * (b2 + 256 * (b3 + 256 * 0)))).
  assert (x = b0 + 2 ^ 8 * b1 + 2 ^ 16 * b2 + 2 ^ 24 * b3) as Hx by lia. clearbody x.
  unfold BSWAP_32, wrap32.
  change 0xff0000 with (255 * 2 ^ 16). change 0xff00 with (255 * 2 ^ 8). rewrite !land_byte by lia.
  rewrite !Z.shiftl_mul_pow2, !Z.shiftr_div_pow2 by lia.
  replace ((x * 2 ^ 24) mod 2 ^ 32) with (b0 * 2 ^ 24) by eucl.
  replace (((x * 2 ^ 8) mod 2 ^ 32) / 2 ^ 16 mod 256) with b1 by eucl.
  replace (x / 2 ^ 8 / 2 ^ 8 mod 256) with b2 by eucl.
  replace (x / 2 ^ 24) with b3 by eucl.
  rewrite (lor_add (b0 * 2 ^ 24) _ 24); [|lia|apply Z.mod_mul; lia|lia].
  rewrite (lor_add (b0 * 2 ^ 24 + _) _ 16); [|lia|eucl|lia].
  rewrite (lor_add _ _ 8); [lia|lia|eucl|lia].
Qed.

Lemma BSWAP_64_le b0 b1 b2 b3 b4 b5 b6 b7 :
  bytes [b0; b1; b2; b3; b4; b5; b6; b7] ->
  BSWAP_64 (le [b0; b1; b2; b3; b4; b5; b6; b7]) = le [b7; b6; b5; b4; b3; b2; b1; b0].
Proof.
  intros (H0 & (H1 & (H2 & (H3 & (H4 & (H5 & (H6 & (H7 & _)%Forall_cons)%Forall_cons)%Forall_cons)
    %Forall_cons)%Forall_cons)%Forall_cons)%Forall_cons)%Forall_cons.
  set (x := le _).
  assert (x = b0 + 2 ^ 8 * b1 + 2 ^ 16 * b2 + 2 ^ 24 * b3 + 2 ^ 32 * b4 + 2 ^ 40 * b5 +
            2 ^ 48 * b6 + 2 ^ 56 * b7) as Hx by (unfold x; cbn [le]; lia).
  cbn [le]. clearbody x. unfold BSWAP_64, wrap64.
  change 0xff000000000000 with (255 * 2 ^ 48). change 0xff0000000000 with (255 * 2 ^ 40).
  change 0xff00000000 with (255 * 2 ^ 32). change 0xff000000 with (255 * 2 ^ 24).
  change 0xff0000 with (255 * 2 ^ 16). change 0xff00 with (255 * 2 ^ 8). rewrite !land_byte by lia.
  rewrite !Z.shiftl_mul_pow2, !Z.shiftr_div_pow2 by lia.
  replace ((x * 2 ^ 56) mod 2 ^ 64) with (b0 * 2 ^ 56) by eucl.
  replace (((x * 2 ^ 40) mod 2 ^ 64) / 2 ^ 48 mod 256) with b1 by eucl.
  replace (((x * 2 ^ 24) mod 2 ^ 64) / 2 ^ 40 mod 256) with b2 by eucl.
  replace (((x * 2 ^ 8) mod 2 ^ 64) / 2 ^ 32 mod 256) with b3 by eucl.
  replace (x / 2 ^ 8 / 2 ^ 24 mod 256) with b4 by eucl.
  replace (x / 2 ^ 24 / 2 ^ 16 mod 256) with b5 by eucl.
  replace (x / 2 ^ 40 / 2 ^ 8 mod 256) with b6 by eucl.
  replace (x / 2 ^ 56) with b7 by eucl.
  rewrite (lor_add (b0 * 2 ^ 56) _ 56); [|lia|apply Z.mod_mul; lia|lia].
  rewrite (lor_add (b0 * 2 ^ 56 + b1 * 2 ^ 48) _ 48); [|lia|eucl|lia].
  rewrite (lor_add (b0 * 2 ^ 56 + b1 * 2 ^ 48 + b2 * 2 ^ 40) _ 40); [|lia|eucl|lia].
  rewrite (lor_add (b0 * 2 ^ 56 + b1 * 2 ^ 48 + b2 * 2 ^ 40 + b3 * 2 ^ 32) _ 32); [|lia|eucl|lia].
  rewrite (lor_add (b0 * 2 ^ 56 + b1 * 2 ^ 48 + b2 * 2 ^ 40 + b3 * 2 ^ 32 + b4 * 2 ^ 24) _ 24); [|lia|eucl|lia].
  rewrite (lor_add (b0 * 2 ^ 56 + b1 * 2 ^ 48 + b2 * 2 ^ 40 + b3 * 2 ^ 32 + b4 * 2 ^ 24 + b5 * 2 ^ 16) _ 16); [|lia|eucl|lia].
  rewrite (lor_add _ _ 8); [lia|lia|eucl|lia].
Qed.

(** The buffer as a machine of the other byte order would have written it. *)
Fixpoint swap_words (n w : nat) (buf : list Z) : list Z :=
  match n with
  | O => buf
  | S n' => rev (take w buf) ++ swap_words n' w (drop w buf)
  end.
Definition swapped (w : nat) (buf : list Z) : list Z := swap_words (length buf / w) w buf.

Lemma length_swap_words n w buf : length (swap_words n w buf) = length buf.
Proof.
  revert buf. induction n as [|n IH]; intros buf; cbn; [done|].
  rewrite length_app, length_rev, IH, length_take, length_drop. lia.
Qed.

Lemma words_swap (bswap : Z -> Z) w n buf :
  (forall bs, length bs = w -> bytes bs -> bswap (le bs) = le (rev bs)) ->
  bytes buf -> (n * w <= length buf)%nat ->
  words n w (swap_words n w buf) = bswap <$> words n w buf.
Proof.
  intros Hsw. revert buf. induction n as [|n IH]; intros buf Hb Hn; cbn; [done|]. cbn in Hn.
  assert (length (rev (take w buf)) = w) as Hl by (rewrite length_rev, length_take; lia).
  rewrite take_app_le, drop_app_ge, Hl, Nat.sub_diag, drop_0 by lia. rewrite take_ge by lia.
  rewrite Hsw; [|rewrite length_take; lia|by apply Forall_take]. f_equal.
  apply IH; [by apply Forall_drop|]. rewrite length_drop. lia.
Qed.

Lemma bytes4 bs : length bs = 4%nat -> bytes bs -> BSWAP_32 (le bs) = le (rev bs).
Proof.
  destruct bs as [|b0 [|b1 [|b2 [|b3 [|]]]]]; try done. intros _ H. by rewrite BSWAP_32_le.
Qed.
Lemma bytes8 bs : length bs = 8%nat -> bytes bs -> BSWAP_64 (le bs) = le (rev bs).
Proof.
  destruct bs as [|b0 [|b1 [|b2 [|b3 [|b4 [|b5 [|b6 [|b7 [|]]]]]]]]]; try done.
  intros _ H. by rewrite BSWAP_64_le.
Qed.

Lemma fletcher_4_loop_map f ip a b c d :
  fletcher_4_loop f ip a b c d = fletcher_4_loop (fun w => w) (f <$> ip) a b c d.
Proof. revert a b c d. induction ip as [|w ip IH]; intros a b c d; cbn; [done|]. apply IH. Qed.

Lemma fletcher_2_loop_map f : forall n ip a0 a1 b0 b1, (length ip <= n)%nat ->
  fletcher_2_loop f ip a0 a1 b0 b1 = fletcher_2_loop (fun w => w) (f <$> ip) a0 a1 b0 b1.
Proof.
  induction n as [|n IH]; intros [|w0 [|w1 ip]] a0 a1 b0 b1 Hn; try done; cbn in Hn; [lia..|].
  cbn. apply IH. lia.
Qed.

Lemma fletcher_2_loop_app f : forall n ip1 ip2 a0 a1 b0 b1, length ip1 = (2 * n)%nat ->
  fletcher_2_loop f (ip1 ++ ip2) a0 a1 b0 b1 =
    (z ← fletcher_2_loop f ip1 a0 a1 b0 b1;
     fletcher_2_loop f ip2 (zc_word0 z) (zc_word1 z) (zc_word2 z) (zc_word3 z)).
Proof.
  induction n as [|n IH]; intros [|w0 [|w1 ip1]] ip2 a0 a1 b0 b1 Hn; try done; cbn in Hn; try lia.
  cbn. apply IH. lia.
Qed.

Lemma buf_words_swapped (bswap : Z -> Z) w buf :
  (0 < w)%nat -> (forall bs, length bs = w -> bytes bs -> bswap (le bs) = le (rev bs)) ->
  bytes buf -> buf_words w (swapped w buf) = bswap <$> buf_words w buf.
Proof.
  intros Hw Hsw Hb. unfold buf_words, swapped. rewrite length_swap_words.
  apply words_swap; [done|done|]. rewrite Nat.mul_comm. apply Nat.Div0.mul_div_le.
Qed.


(** ** What the accumulators can hold *)

Lemma series_bound coef fs m :
  (forall i, 1 <= i <= Z.of_nat (length fs) -> 0 <= coef i <= m) ->
  Forall (fun f => 0 <= f < 2 ^ 32) fs ->
  0 <= series coef fs <= Z.of_nat (length fs) * m * 2 ^ 32.
Proof.
  intros Hc. induction 1 as [|f fs Hf _ IH]; cbn [series length] in *; [lia|].
  assert (0 <= series coef fs <= Z.of_nat (length fs) * m * 2 ^ 32) as H1.
  { apply IH. intros i Hi. apply Hc. lia. }
  specialize (Hc (Z.of_nat (S (length fs))) ltac:(lia)). nia.
Qed.

Lemma series_b_replicate n f :
  2 * series coef_b (replicate n f) = f * (Z.of_nat n * (Z.of_nat n + 1)).
Proof.
  induction n as [|n IH]; [cbn; lia|]. cbn [replicate series]. unfold coef_b at 1.
  cbn [length]. rewrite length_replicate. lia.
Qed.

Lemma word_range n buf : bytes buf -> Forall (fun f => 0 <= f < 2 ^ 32) (words n 4 buf).
Proof.
  revert buf. induction n as [|n IH]; intros buf Hb; cbn; constructor.
  - pose proof (le_bound (take 4 buf) ltac:(by apply Forall_take)) as Hle.
    rewrite length_take in Hle. split; [lia|]. eapply Z.lt_le_trans; [apply Hle|].
    change (2 ^ 32) with (256 ^ 4). apply Z.pow_le_mono_r; lia.
  - apply IH. by apply Forall_drop.
Qed.

(** The fourth-order checksum is the series of the comment in the source,
    modulo 2^64.  Up to 32768 words (128K) the first two accumulators do not
    overflow; in a block of 2^22 words (16M, the largest block size) the second
    one can. *)
Theorem fletcher_4_closed_form buf :
  bytes buf ->
  let fs := buf_words 4 buf in
  fletcher_4_native buf =
    ZioCksum (wrap64 (series coef_a fs)) (wrap64 (series coef_b fs))
             (wrap64 (series coef_c fs)) (wrap64 (series coef_d fs)) /\
  (Z.of_nat (length buf) <= 131072 -> u64 (series coef_a fs) /\ u64 (series coef_b fs)) /\
  2 ^ 64 <= series coef_b (replicate (Z.to_nat (2 ^ 22)) (2 ^ 32 - 1)).
Proof.
  intros Hb fs. split; [apply fletcher_4_series|]. split.
  - intros Hl. assert (Z.of_nat (length fs) <= 32768) as Hn.
    { unfold fs, buf_words. rewrite length_words, Nat2Z.inj_div.
      apply Z.div_le_upper_bound; lia. }
    pose proof (word_range (length buf / 4) buf Hb) as Hr. fold (buf_words 4 buf) in Hr. fold fs in Hr.
    pose proof (series_bound coef_a fs 1 ltac:(unfold coef_a; lia) Hr).
    pose proof (series_bound coef_b fs 32768 ltac:(unfold coef_b; lia) Hr). unfold u64. lia.
  - pose proof (series_b_replicate (Z.to_nat (2 ^ 22)) (2 ^ 32 - 1)) as H.
    rewrite Z2Nat.id in H by lia. set (X := series _ _) in *. clearbody X. lia.
Qed.

(** ** Every word counts *)

Lemma odd_divide (k : nat) a b : Z.Odd b -> (2 ^ Z.of_nat k | a * b) -> (2 ^ Z.of_nat k | a).
Proof.
  intros Hb. revert a. induction k as [|k IH]; intros a Hd; [apply Z.divide_1_l|].
  rewrite Nat2Z.inj_succ, Z.pow_succ_r in * by lia.
  destruct (Z.Even_or_Odd a) as [[a' ->]|[a' Ha]].
  - apply Z.mul_divide_mono_l. apply IH. rewrite <- Z.mul_assoc in Hd.
    apply Z.mul_divide_cancel_l in Hd; [done|lia].
  - exfalso. destruct Hb as [b' ->]. destruct Hd as [m Hm]. subst a. lia.
Qed.

Lemma pow2_divide (p q : nat) a b :
  (2 ^ Z.of_nat (p + q) | a * b) -> ~ (2 ^ Z.of_nat p | b) -> (2 ^ Z.of_nat (S q) | a).
Proof.
  revert b. induction p as [|p IH]; intros b Hd Hn.
  { exfalso. apply Hn. change (2 ^ Z.of_nat 0) with 1. apply Z.divide_1_l. }
  destruct (Z.Even_or_Odd b) as [[b' ->]|Hodd].
  - apply (IH b').
    + rewrite Nat.add_succ_l, Nat2Z.inj_succ, Z.pow_succ_r in Hd by lia.
      replace (a * (2 * b')) with (2 * (a * b')) in Hd by lia.
      apply Z.mul_divide_cancel_l in Hd; [done|lia].
    + intros Hp. apply Hn. rewrite Nat2Z.inj_succ, Z.pow_succ_r by lia.
      by apply Z.mul_divide_mono_l.
  - apply Z.divide_trans with (2 ^ Z.of_nat (S p + q)).
    { exists (2 ^ Z.of_nat p). rewrite <- Z.pow_add_r by lia. f_equal. lia. }
    by apply (odd_divide _ a b).
Qed.

Lemma not_pow2_divide (k : nat) x : 0 < x < 2 ^ Z.of_nat k -> ~ (2 ^ Z.of_nat k | x).
Proof. intros Hx Hd. apply Z.divide_pos_le in Hd; lia. Qed.

(** The highest powers of 2 in the coefficients, as the comment has them. *)
Lemma coef_c_2s i : 0 < i <= 32768 -> coef_c i mod 2 ^ 16 <> 0.
Proof.
  intros Hi H. apply Z.mod_divide in H as [k Hk]; [|lia].
  pose proof (coef_c_twice i) as H2. rewrite Hk in H2.
  assert (2 ^ Z.of_nat 17 | i * (i + 1)) as Hd by (exists k; lia).
  destruct (Z.Even_or_Odd i) as [[j Hj]|Ho].
  - apply odd_divide in Hd; [|by exists j; lia]. apply (not_pow2_divide 17) in Hd; [done|lia].
  - rewrite Z.mul_comm in Hd. apply odd_divide in Hd; [|done]. apply (not_pow2_divide 17) in Hd; [done|lia].
Qed.

Lemma coef_d_six i : 6 * coef_d i = i * (i + 1) * (i + 2).
Proof.
  unfold coef_d. pose proof (Z.div_mod (i * (i + 1) * (i + 2)) 6 ltac:(lia)) as H.
  enough ((i * (i + 1) * (i + 2)) mod 6 = 0) by lia. clear H.
  pose proof (Z.mod_pos_bound i 6 ltac:(lia)).
  rewrite (Zmult_mod (i * (i + 1))), (Zmult_mod i), (Zplus_mod i 1), (Zplus_mod i 2).
  assert (i mod 6 = 0 \/ i mod 6 = 1 \/ i mod 6 = 2 \/ i mod 6 = 3 \/ i mod 6 = 4 \/ i mod 6 = 5) as Hc by lia.
  by destruct Hc as [->|[->|[->|[->|[->| ->]]]]].
Qed.

Lemma coef_d_2s i : 0 < i <= 32768 -> coef_d i mod 2 ^ 16 <> 0.
Proof.
  intros Hi H. apply Z.mod_divide in H as [k Hk]; [|lia].
  pose proof (coef_d_six i) as H6. rewrite Hk in H6.
  destruct (Z.Even_or_Odd i) as [[j Hj]|[j Hj]].
  - assert (2 ^ Z.of_nat 15 | j * (j + 1)) as Hd.
    { apply (odd_divide 15 _ (i + 1)); [by exists j; lia|]. exists (3 * k). subst i. lia. }
    destruct (Z.Even_or_Odd j) as [[l Hl]|Ho].
    + apply odd_divide in Hd; [|by exists l; lia]. apply (not_pow2_divide 15) in Hd; [done|lia].
    + rewrite Z.mul_comm in Hd. apply odd_divide in Hd; [|done]. apply (not_pow2_divide 15) in Hd; [done|lia].
  - assert (2 ^ Z.of_nat 17 | (i + 1) * (i * (i + 2))) as Hd by (exists (3 * k); lia).
    apply odd_divide in Hd; [|exists (2 * j * j + 4 * j + 1); subst i; lia].
    apply (not_pow2_divide 17) in Hd; [done|lia].
Qed.

Lemma series_change coef l1 f f' l2 :
  series coef (l1 ++ f :: l2) - series coef (l1 ++ f' :: l2) =
    (f - f') * coef (Z.of_nat (S (length l2))).
Proof.
  induction l1 as [|g l1 IH]; cbn [app series]; [cbn [length]; lia|].
  assert (length (l1 ++ f :: l2) = length (l1 ++ f' :: l2)) as Hl by (by rewrite !length_app).
  cbn [length]. rewrite Hl. lia.
Qed.

Lemma series_differ coef l1 f f' l2 :
  0 <= f < 2 ^ 32 -> 0 <= f' < 2 ^ 32 -> f <> f' ->
  coef (Z.of_nat (S (length l2))) mod 2 ^ 16 <> 0 ->
  wrap64 (series coef (l1 ++ f :: l2)) <> wrap64 (series coef (l1 ++ f' :: l2)).
Proof.
  intros Hf Hf' Hne Hc Heq. pose proof (series_change coef l1 f f' l2) as Hd.
  set (x := series coef (l1 ++ f :: l2)) in *. set (y := series coef (l1 ++ f' :: l2)) in *.
  assert (2 ^ 64 | (f - f') * coef (Z.of_nat (S (length l2)))) as Hdiv.
  { rewrite <- Hd. apply Z.mod_divide; [lia|]. rewrite Zminus_mod. unfold wrap64 in Heq.
    by rewrite Heq, Z.sub_diag. }
  apply (pow2_divide 16 48) in Hdiv.
  - destruct Hdiv as [k Hk]. change (2 ^ Z.of_nat 49) with 562949953421312 in Hk. lia.
  - intros Hp. apply Hc. apply Z.mod_divide; [lia|done].
Qed.

(** In blocks of up to 128K every bit of every word has an effect on every
    one of the four accumulators: if two blocks differ in one word, all four
    words of their checksums differ. *)
Theorem fletcher_4_detects buf buf' l1 f f' l2 :
  bytes buf -> bytes buf' -> Z.of_nat (length buf) <= 131072 ->
  buf_words 4 buf = l1 ++ f :: l2 -> buf_words 4 buf' = l1 ++ f' :: l2 -> f <> f' ->
  let z := fletcher_4_native buf in
  let z' := fletcher_4_native buf' in
  zc_word0 z <> zc_word0 z' /\ zc_word1 z <> zc_word1 z' /\
  zc_word2 z <> zc_word2 z' /\ zc_word3 z <> zc_word3 z'.
Proof.
  intros Hb Hb' Hl Hw Hw' Hne z z'.
  pose proof (word_range (length buf / 4) buf Hb) as Hr. fold (buf_words 4 buf) in Hr.
  pose proof (word_range (length buf' / 4) buf' Hb') as Hr'. fold (buf_words 4 buf') in Hr'.
  assert (length (buf_words 4 buf) = (length buf / 4)%nat) as Hlen by apply length_words.
  rewrite Hw in Hr, Hlen. rewrite Hw' in Hr'. rewrite length_app in Hlen. cbn [length] in Hlen.
  apply Forall_app in Hr as [_ [Hf _]%Forall_cons]. apply Forall_app in Hr' as [_ [Hf' _]%Forall_cons].
  assert (0 < Z.of_nat (S (length l2)) <= 32768) as Hi.
  { pose proof (Nat2Z.inj_div (length buf) 4).
    assert (Z.of_nat (length buf) / Z.of_nat 4 <= 32768) by (apply Z.div_le_upper_bound; lia). lia. }
  unfold z, z', fletcher_4_native, fletcher_4_incremental_native. rewrite Hw, Hw'. cbn [zc_word0 zc_word1 zc_word2 zc_word3 fletcher_init].
  rewrite !fletcher_4_series. cbn [zc_word0 zc_word1 zc_word2 zc_word3].
  split_and!; apply series_differ; try done.
  - unfold coef_b. rewrite Z.mod_small; lia.
  - by apply coef_c_2s.
  - by apply coef_d_2s.
Qed.

Definition fletcher_demo : list Z := [1; 2; 3; 4; 5; 6; 7; 8; 9; 10; 11; 12; 13; 14; 15; 16].

Lemma fletcher_demo_bytes : bytes fletcher_demo.
Proof. repeat constructor; lia. Qed.


Lemma fletcher_4_closed_form_witness :
  zc_word1 (fletcher_4_native fletcher_demo) = wrap64 (series coef_b (buf_words 4 fletcher_demo)) /\
  u64 (series coef_b (buf_words 4 fletcher_demo)).
Proof.
  destruct (fletcher_4_closed_form fletcher_demo fletcher_demo_bytes) as (H1 & H2 & _).
  rewrite H1. split; [done|]. apply H2. cbn. lia.
Defined.

Lemma fletcher_4_detects_witness :
  zc_word3 (fletcher_4_native fletcher_demo) <>
  zc_word3 (fletcher_4_native [1; 2; 3; 4; 5; 6; 7; 136; 9; 10; 11; 12; 13; 14; 15; 16]).
Proof.
  apply (fletcher_4_detects fletcher_demo [1; 2; 3; 4; 5; 6; 7; 136; 9; 10; 11; 12; 13; 14; 15; 16]
           [le [1; 2; 3; 4]] (le [5; 6; 7; 8]) (le [5; 6; 7; 136])
           [le [9; 10; 11; 12]; le [13; 14; 15; 16]]).
  - apply fletcher_demo_bytes.
  - repeat constructor; lia.
  - cbn. lia.
  - reflexivity.
  - reflexivity.
  - cbn. lia.
Defined.
