(* ===== verification/Raidz.v ===== *)
(** * RAID-Z: columns, parity and reconstruction

    Model of [kernel/fs/zfs/vdev_raidz.c]: the Galois field of 256 elements
    behind the parity, the map from a block to the columns of a stripe, the
    generation of one, two or three parity columns and the reconstruction of
    missing data columns.

    The data of a column ([rc_abd]) is the list of the bytes it views; code
    that runs over it word by word ([uint64_t *]) reads the words with
    [buf_words] and stores them back with [put_words].  An ABD is taken to be
    contiguous: iterating over the pieces of a scattered one advances the
    parity pointers from piece to piece, as one run does. *)

From S2P Require Import Prelude.

(** ** The field *)

Definition VDEV_RAIDZ_P : nat := 0.
Definition VDEV_RAIDZ_Q : nat := 1.
Definition VDEV_RAIDZ_R : nat := 2.

(** A byte stored from [VDEV_RAIDZ_MUL_2] keeps its low eight bits. *)
Definition VDEV_RAIDZ_MUL_2 (x : Z) : Z :=
  Z.lxor (Z.shiftl x 1) (if Z.land x 0x80 =? 0 then 0 else 0x1d) mod 256.
Definition VDEV_RAIDZ_MUL_4 (x : Z) : Z := VDEV_RAIDZ_MUL_2 (VDEV_RAIDZ_MUL_2 x).

Definition VDEV_RAIDZ_64MUL_2 (x : Z) : Z :=
  let mask := Z.land x 0x8080808080808080 in
  let mask := sub64 (wrap64 (Z.shiftl mask 1)) (Z.shiftr mask 7) in
  Z.lxor (Z.land (wrap64 (Z.shiftl x 1)) 0xfefefefefefefefe) (Z.land mask 0x1d1d1d1d1d1d1d1d).
Definition VDEV_RAIDZ_64MUL_4 (x : Z) : Z := VDEV_RAIDZ_64MUL_2 (VDEV_RAIDZ_64MUL_2 x).

(** Powers of 2 in the field. *)
Definition vdev_raidz_pow2 : list Z :=
  [0x01; 0x02; 0x04; 0x08; 0x10; 0x20; 0x40; 0x80;
   0x1d; 0x3a; 0x74; 0xe8; 0xcd; 0x87; 0x13; 0x26;
   0x4c; 0x98; 0x2d; 0x5a; 0xb4; 0x75; 0xea; 0xc9;
   0x8f; 0x03; 0x06; 0x0c; 0x18; 0x30; 0x60; 0xc0;
   0x9d; 0x27; 0x4e; 0x9c; 0x25; 0x4a; 0x94; 0x35;
   0x6a; 0xd4; 0xb5; 0x77; 0xee; 0xc1; 0x9f; 0x23;
   0x46; 0x8c; 0x05; 0x0a; 0x14; 0x28; 0x50; 0xa0;
   0x5d; 0xba; 0x69; 0xd2; 0xb9; 0x6f; 0xde; 0xa1;
   0x5f; 0xbe; 0x61; 0xc2; 0x99; 0x2f; 0x5e; 0xbc;
   0x65; 0xca; 0x89; 0x0f; 0x1e; 0x3c; 0x78; 0xf0;
   0xfd; 0xe7; 0xd3; 0xbb; 0x6b; 0xd6; 0xb1; 0x7f;
   0xfe; 0xe1; 0xdf; 0xa3; 0x5b; 0xb6; 0x71; 0xe2;
   0xd9; 0xaf; 0x43; 0x86; 0x11; 0x22; 0x44; 0x88;
   0x0d; 0x1a; 0x34; 0x68; 0xd0; 0xbd; 0x67; 0xce;
   0x81; 0x1f; 0x3e; 0x7c; 0xf8; 0xed; 0xc7; 0x93;
   0x3b; 0x76; 0xec; 0xc5; 0x97; 0x33; 0x66; 0xcc;
   0x85; 0x17; 0x2e; 0x5c; 0xb8; 0x6d; 0xda; 0xa9;
   0x4f; 0x9e; 0x21; 0x42; 0x84; 0x15; 0x2a; 0x54;
   0xa8; 0x4d; 0x9a; 0x29; 0x52; 0xa4; 0x55; 0xaa;
   0x49; 0x92; 0x39; 0x72; 0xe4; 0xd5; 0xb7; 0x73;
   0xe6; 0xd1; 0xbf; 0x63; 0xc6; 0x91; 0x3f; 0x7e;
   0xfc; 0xe5; 0xd7; 0xb3; 0x7b; 0xf6; 0xf1; 0xff;
   0xe3; 0xdb; 0xab; 0x4b; 0x96; 0x31; 0x62; 0xc4;
   0x95; 0x37; 0x6e; 0xdc; 0xa5; 0x57; 0xae; 0x41;
   0x82; 0x19; 0x32; 0x64; 0xc8; 0x8d; 0x07; 0x0e;
   0x1c; 0x38; 0x70; 0xe0; 0xdd; 0xa7; 0x53; 0xa6;
   0x51; 0xa2; 0x59; 0xb2; 0x79; 0xf2; 0xf9; 0xef;
   0xc3; 0x9b; 0x2b; 0x56; 0xac; 0x45; 0x8a; 0x09;
   0x12; 0x24; 0x48; 0x90; 0x3d; 0x7a; 0xf4; 0xf5;
   0xf7; 0xf3; 0xfb; 0xeb; 0xcb; 0x8b; 0x0b; 0x16;
   0x2c; 0x58; 0xb0; 0x7d; 0xfa; 0xe9; 0xcf; 0x83;
   0x1b; 0x36; 0x6c; 0xd8; 0xad; 0x47; 0x8e; 0x01].

(** Logarithms to base 2 in the field. *)
Definition vdev_raidz_log2 : list Z :=
  [0x00; 0x00; 0x01; 0x19; 0x02; 0x32; 0x1a; 0xc6;
   0x03; 0xdf; 0x33; 0xee; 0x1b; 0x68; 0xc7; 0x4b;
   0x04; 0x64; 0xe0; 0x0e; 0x34; 0x8d; 0xef; 0x81;
   0x1c; 0xc1; 0x69; 0xf8; 0xc8; 0x08; 0x4c; 0x71;
   0x05; 0x8a; 0x65; 0x2f; 0xe1; 0x24; 0x0f; 0x21;
   0x35; 0x93; 0x8e; 0xda; 0xf0; 0x12; 0x82; 0x45;
   0x1d; 0xb5; 0xc2; 0x7d; 0x6a; 0x27; 0xf9; 0xb9;
   0xc9; 0x9a; 0x09; 0x78; 0x4d; 0xe4; 0x72; 0xa6;
   0x06; 0xbf; 0x8b; 0x62; 0x66; 0xdd; 0x30; 0xfd;
   0xe2; 0x98; 0x25; 0xb3; 0x10; 0x91; 0x22; 0x88;
   0x36; 0xd0; 0x94; 0xce; 0x8f; 0x96; 0xdb; 0xbd;
   0xf1; 0xd2; 0x13; 0x5c; 0x83; 0x38; 0x46; 0x40;
   0x1e; 0x42; 0xb6; 0xa3; 0xc3; 0x48; 0x7e; 0x6e;
   0x6b; 0x3a; 0x28; 0x54; 0xfa; 0x85; 0xba; 0x3d;
   0xca; 0x5e; 0x9b; 0x9f; 0x0a; 0x15; 0x79; 0x2b;
   0x4e; 0xd4; 0xe5; 0xac; 0x73; 0xf3; 0xa7; 0x57;
   0x07; 0x70; 0xc0; 0xf7; 0x8c; 0x80; 0x63; 0x0d;
   0x67; 0x4a; 0xde; 0xed; 0x31; 0xc5; 0xfe; 0x18;
   0xe3; 0xa5; 0x99; 0x77; 0x26; 0xb8; 0xb4; 0x7c;
   0x11; 0x44; 0x92; 0xd9; 0x23; 0x20; 0x89; 0x2e;
   0x37; 0x3f; 0xd1; 0x5b; 0x95; 0xbc; 0xcf; 0xcd;
   0x90; 0x87; 0x97; 0xb2; 0xdc; 0xfc; 0xbe; 0x61;
   0xf2; 0x56; 0xd3; 0xab; 0x14; 0x2a; 0x5d; 0x9e;
   0x84; 0x3c; 0x39; 0x53; 0x47; 0x6d; 0x41; 0xa2;
   0x1f; 0x2d; 0x43; 0xd8; 0xb7; 0x7b; 0xa4; 0x76;
   0xc4; 0x17; 0x49; 0xec; 0x7f; 0x0c; 0x6f; 0xf6;
   0x6c; 0xa1; 0x3b; 0x52; 0x29; 0x9d; 0x55; 0xaa;
   0xfb; 0x60; 0x86; 0xb1; 0xbb; 0xcc; 0x3e; 0x5a;
   0xcb; 0x59; 0x5f; 0xb0; 0x9c; 0xa9; 0xa0; 0x51;
   0x0b; 0xf5; 0x16; 0xeb; 0x7a; 0x75; 0x2c; 0xd7;
   0x4f; 0xae; 0xd5; 0xe9; 0xe6; 0xe7; 0xad; 0xe8;
   0x74; 0xd6; 0xf4; 0xea; 0xa8; 0x50; 0x58; 0xaf].

(** [a] multiplied by 2 to the power [exp]. *)
Definition vdev_raidz_exp2 (a exp : Z) : result Z :=
  if a =? 0 then Ret 0 else
  _ ← verify (0 <=? exp);
  l ← rd vdev_raidz_log2 (Z.to_nat a);
  _ ← verify ((0 <? l) || (a =? 1));
  let exp := exp + l in
  rd vdev_raidz_pow2 (Z.to_nat (if exp >? 255 then exp - 255 else exp)).

(** ** Columns and maps *)

Record raidz_col : Type := RaidzCol {
  rc_devidx : Z;
  rc_offset : Z;
  rc_size : Z;
  rc_abd : list Z;
  rc_error : Z;
  rc_tried : bool;
  rc_skipped : bool;
}.

Record raidz_map : Type := RaidzMap {
  rm_cols : nat;
  rm_scols : nat;
  rm_bigcols : Z;
  rm_asize : Z;
  rm_missingdata : Z;
  rm_missingparity : Z;
  rm_firstdatacol : nat;
  rm_nskip : Z;
  rm_skipstart : Z;
  rm_col : list raidz_col;
}.

(** [&rm->rm_col[c]]. *)
Definition get_col (rm : raidz_map) (c : nat) : result raidz_col :=
  match rm_col rm !! c with Some rc => Ret rc | None => Panic end.

Definition set_cols (rm : raidz_map) (cols : list raidz_col) : raidz_map :=
  RaidzMap (rm_cols rm) (rm_scols rm) (rm_bigcols rm) (rm_asize rm) (rm_missingdata rm)
    (rm_missingparity rm) (rm_firstdatacol rm) (rm_nskip rm) (rm_skipstart rm) cols.

Definition col_abd (abd : list Z) (rc : raidz_col) : raidz_col :=
  RaidzCol (rc_devidx rc) (rc_offset rc) (rc_size rc) abd (rc_error rc) (rc_tried rc) (rc_skipped rc).
Definition col_size (size : Z) (rc : raidz_col) : raidz_col :=
  RaidzCol (rc_devidx rc) (rc_offset rc) size (rc_abd rc) (rc_error rc) (rc_tried rc) (rc_skipped rc).
Definition col_place (devidx offset : Z) (rc : raidz_col) : raidz_col :=
  RaidzCol devidx offset (rc_size rc) (rc_abd rc) (rc_error rc) (rc_tried rc) (rc_skipped rc).

(** [rm->rm_col[c].rc_abd = abd] and [rm->rm_col[c].rc_size = size]. *)
Definition set_abd (rm : raidz_map) (c : nat) (abd : list Z) : raidz_map :=
  set_cols rm (alter (col_abd abd) c (rm_col rm)).
Definition set_size (rm : raidz_map) (c : nat) (size : Z) : raidz_map :=
  set_cols rm (alter (col_size size) c (rm_col rm)).

(** Buffers ([abd.c], [memcpy]). *)

Definition view (buf : list Z) (off n : nat) : result (list Z) :=
  if (off + n <=? length buf)%nat then Ret (take n (drop off buf)) else Panic.

(** [abd_copy], [abd_copy_to_buf], [memcpy]. *)
Definition abd_copy (dst src : list Z) (n : nat) : result (list Z) :=
  d ← view src 0 n;
  if (n <=? length dst)%nat then Ret (d ++ drop n dst) else Panic.

Definition abd_zero_off (dst : list Z) (off n : nat) : result (list Z) :=
  if (off + n <=? length dst)%nat
  then Ret (take off dst ++ replicate n 0 ++ drop (off + n) dst) else Panic.

(** The bytes of a word, low byte first. *)
Fixpoint to_bytes (n : nat) (w : Z) : list Z :=
  match n with O => [] | S n' => w mod 256 :: to_bytes n' (w / 256) end.

(** A buffer after its first words were stored. *)
Definition put_words (buf ws : list Z) : list Z :=
  (ws ≫= to_bytes 8) ++ drop (8 * length ws) buf.

(** ** The columns of a block *)

Definition shl64 (x n : Z) : Z := wrap64 (Z.shiftl x n).
Definition mul64 (a b : Z) : Z := wrap64 (a * b).

(** [sysmacros.h]. *)
Definition roundup (x y : Z) : Z := mul64 (add64 x (sub64 y 1) / y) y.

(** The size the block takes up on the device. *)
Definition vdev_raidz_asize (ashift cols nparity psize : Z) : Z :=
  let asize := add64 (Z.shiftr (sub64 psize 1) ashift) 1 in
  let asize := add64 asize
    (mul64 nparity (sub64 (sub64 (add64 asize cols) nparity) 1 / sub64 cols nparity)) in
  shl64 (roundup asize (nparity + 1)) ashift.

Section map_alloc.
(** What a fresh buffer holds. *)
Context (abd_alloc_linear : Z -> list Z).

Definition vdev_raidz_map_alloc (abd : list Z) (size offset unit_shift dcols nparity : Z) :
    result raidz_map :=
  let b := Z.shiftr offset unit_shift in
  let s := Z.shiftr size unit_shift in
  let f := b mod dcols in
  let o := shl64 (b / dcols) unit_shift in
  let q := s / sub64 dcols nparity in
  let r := sub64 s (mul64 q (sub64 dcols nparity)) in
  let bc := if r =? 0 then 0 else add64 r nparity in
  let tot := add64 s (mul64 nparity (add64 q (if r =? 0 then 0 else 1))) in
  let acols := if q =? 0 then bc else dcols in
  let scols := if q =? 0 then Z.min dcols (roundup bc (nparity + 1)) else dcols in
  _ ← verify (acols <=? scols);
  '(cols, asize) ← for_loop (Z.to_nat scols) 0 (fun c '(cols, asize) =>
    let wrapped := add64 f (Z.of_nat c) >=? dcols in
    let col := if wrapped then sub64 (add64 f (Z.of_nat c)) dcols else add64 f (Z.of_nat c) in
    let coff := if wrapped then add64 o (shl64 1 unit_shift) else o in
    let sz := if Z.of_nat c >=? acols then 0
              else if Z.of_nat c <? bc then shl64 (add64 q 1) unit_shift
              else shl64 q unit_shift in
    Ret (cols ++ [RaidzCol col coff sz [] 0 false false], add64 asize sz)) ([], 0);
  let rm := RaidzMap (Z.to_nat acols) (Z.to_nat scols) bc
    (roundup asize (shl64 (nparity + 1) unit_shift)) 0 0 (Z.to_nat nparity)
    (sub64 (roundup tot (nparity + 1)) tot) bc cols in
  _ ← verify (asize =? shl64 tot unit_shift);
  _ ← verify (sub64 (rm_asize rm) asize =? shl64 (rm_nskip rm) unit_shift);
  _ ← verify (rm_nskip rm <=? nparity);
  rm ← for_loop (rm_firstdatacol rm) 0 (fun c rm =>
    rc ← get_col rm c;
    Ret (set_abd rm c (abd_alloc_linear (rc_size rc)))) rm;
  rc ← get_col rm (rm_firstdatacol rm);
  d ← view abd 0 (Z.to_nat (rc_size rc));
  let rm := set_abd rm (rm_firstdatacol rm) d in
  '(rm, _) ← for_loop (rm_cols rm - S (rm_firstdatacol rm)) (S (rm_firstdatacol rm))
    (fun c '(rm, off) =>
      rc ← get_col rm c;
      d ← view abd (Z.to_nat off) (Z.to_nat (rc_size rc));
      Ret (set_abd rm c d, add64 off (rc_size rc))) (rm, rc_size rc);
  _ ← verify (2 <=? rm_cols rm)%nat;
  c0 ← get_col rm 0;
  c1 ← get_col rm 1;
  _ ← verify (rc_size c0 =? rc_size c1);
  if ((rm_firstdatacol rm =? 1)%nat && negb (Z.land offset (Z.shiftl 1 20) =? 0))%bool then
    let cols := alter (col_place (rc_devidx c1) (rc_offset c1)) 0%nat (rm_col rm) in
    let cols := alter (col_place (rc_devidx c0) (rc_offset c0)) 1%nat cols in
    Ret (RaidzMap (rm_cols rm) (rm_scols rm) (rm_bigcols rm) (rm_asize rm) (rm_missingdata rm)
           (rm_missingparity rm) (rm_firstdatacol rm) (rm_nskip rm)
           (if rm_skipstart rm =? 0 then 1 else rm_skipstart rm) cols)
  else Ret rm.
End map_alloc.

(** ** Parity *)

Fixpoint p_loop (src p : list Z) : result (list Z) :=
  match src, p with
  | [], _ => Ret p
  | s :: src', x :: p' => r ← p_loop src' p'; Ret (Z.lxor x s :: r)
  | _ :: _, [] => Panic
  end.
Definition vdev_raidz_p_func (buf p : list Z) : result (list Z) :=
  ws ← p_loop (buf_words 8 buf) (buf_words 8 p); Ret (put_words p ws).

Fixpoint pq_loop (src p q : list Z) : result (list Z * list Z) :=
  match src, p, q with
  | [], _, _ => Ret (p, q)
  | s :: src', x :: p', y :: q' =>
      '(rp, rq) ← pq_loop src' p' q';
      Ret (Z.lxor x s :: rp, Z.lxor (VDEV_RAIDZ_64MUL_2 y) s :: rq)
  | _, _, _ => Panic
  end.
Definition vdev_raidz_pq_func (buf p q : list Z) : result (list Z * list Z) :=
  '(ps, qs) ← pq_loop (buf_words 8 buf) (buf_words 8 p) (buf_words 8 q);
  Ret (put_words p ps, put_words q qs).

Fixpoint pqr_loop (src p q r : list Z) : result (list Z * list Z * list Z) :=
  match src, p, q, r with
  | [], _, _, _ => Ret (p, q, r)
  | s :: src', x :: p', y :: q', z :: r' =>
      '(rp, rq, rr) ← pqr_loop src' p' q' r';
      Ret (Z.lxor x s :: rp, Z.lxor (VDEV_RAIDZ_64MUL_2 y) s :: rq,
           Z.lxor (VDEV_RAIDZ_64MUL_4 z) s :: rr)
  | _, _, _, _ => Panic
  end.
Definition vdev_raidz_pqr_func (buf p q r : list Z) : result (list Z * list Z * list Z) :=
  '(ps, qs, rs) ← pqr_loop (buf_words 8 buf) (buf_words 8 p) (buf_words 8 q) (buf_words 8 r);
  Ret (put_words p ps, put_words q qs, put_words r rs).

(** [for (i = lo; i < hi; i++) f(x[i])] over the words of a buffer. *)
Definition each_word (f : Z -> Z) (lo hi : nat) (buf : list Z) : result (list Z) :=
  ws ← for_loop (hi - lo) lo (fun i ws => w ← rd ws i; wr ws i (f w)) (buf_words 8 buf);
  Ret (put_words buf ws).

(** The data of column [c], [rc_size] bytes of it. *)
Definition col_data (rc : raidz_col) : result (list Z) := view (rc_abd rc) 0 (Z.to_nat (rc_size rc)).

Definition vdev_raidz_generate_parity_p (rm : raidz_map) : result raidz_map :=
  for_loop (rm_cols rm - rm_firstdatacol rm) (rm_firstdatacol rm) (fun c rm =>
    rc ← get_col rm c;
    pc ← get_col rm VDEV_RAIDZ_P;
    p ← (if (c =? rm_firstdatacol rm)%nat
         then abd_copy (rc_abd pc) (rc_abd rc) (Z.to_nat (rc_size rc))
         else src ← col_data rc; vdev_raidz_p_func src (rc_abd pc));
    Ret (set_abd rm VDEV_RAIDZ_P p)) rm.

Definition vdev_raidz_generate_parity_pq (rm : raidz_map) : result raidz_map :=
  pc0 ← get_col rm VDEV_RAIDZ_P;
  qc0 ← get_col rm VDEV_RAIDZ_Q;
  _ ← verify (rc_size pc0 =? rc_size qc0);
  let pcnt := Z.to_nat (rc_size pc0 / 8) in
  for_loop (rm_cols rm - rm_firstdatacol rm) (rm_firstdatacol rm) (fun c rm =>
    rc ← get_col rm c;
    pc ← get_col rm VDEV_RAIDZ_P;
    qc ← get_col rm VDEV_RAIDZ_Q;
    let ccnt := Z.to_nat (rc_size rc / 8) in
    '(p, q) ← (if (c =? rm_firstdatacol rm)%nat then
                 p ← abd_copy (rc_abd pc) (rc_abd rc) (Z.to_nat (rc_size rc));
                 q ← abd_copy (rc_abd qc) p (Z.to_nat (rc_size rc));
                 Ret (p, q)
               else src ← col_data rc; vdev_raidz_pq_func src (rc_abd pc) (rc_abd qc));
    '(p, q) ← (if (c =? rm_firstdatacol rm)%nat then
                 p ← each_word (fun _ => 0) ccnt pcnt p;
                 q ← each_word (fun _ => 0) ccnt pcnt q;
                 Ret (p, q)
               else q ← each_word VDEV_RAIDZ_64MUL_2 ccnt pcnt q; Ret (p, q));
    Ret (set_abd (set_abd rm VDEV_RAIDZ_P p) VDEV_RAIDZ_Q q)) rm.

Definition vdev_raidz_generate_parity_pqr (rm : raidz_map) : result raidz_map :=
  pc0 ← get_col rm VDEV_RAIDZ_P;
  qc0 ← get_col rm VDEV_RAIDZ_Q;
  _ ← verify (rc_size pc0 =? rc_size qc0);
  wc0 ← get_col rm VDEV_RAIDZ_R;
  _ ← verify (rc_size pc0 =? rc_size wc0);
  let pcnt := Z.to_nat (rc_size pc0 / 8) in
  for_loop (rm_cols rm - rm_firstdatacol rm) (rm_firstdatacol rm) (fun c rm =>
    rc ← get_col rm c;
    pc ← get_col rm VDEV_RAIDZ_P;
    qc ← get_col rm VDEV_RAIDZ_Q;
    wc ← get_col rm VDEV_RAIDZ_R;
    let ccnt := Z.to_nat (rc_size rc / 8) in
    '(p, q, r) ← (if (c =? rm_firstdatacol rm)%nat then
                    p ← abd_copy (rc_abd pc) (rc_abd rc) (Z.to_nat (rc_size rc));
                    q ← abd_copy (rc_abd qc) p (Z.to_nat (rc_size rc));
                    r ← abd_copy (rc_abd wc) p (Z.to_nat (rc_size rc));
                    Ret (p, q, r)
                  else src ← col_data rc;
                       vdev_raidz_pqr_func src (rc_abd pc) (rc_abd qc) (rc_abd wc));
    '(p, q, r) ← (if (c =? rm_firstdatacol rm)%nat then
                    p ← each_word (fun _ => 0) ccnt pcnt p;
                    q ← each_word (fun _ => 0) ccnt pcnt q;
                    r ← each_word (fun _ => 0) ccnt pcnt r;
                    Ret (p, q, r)
                  else q ← each_word VDEV_RAIDZ_64MUL_2 ccnt pcnt q;
                       r ← each_word VDEV_RAIDZ_64MUL_4 ccnt pcnt r;
                       Ret (p, q, r));
    Ret (set_abd (set_abd (set_abd rm VDEV_RAIDZ_P p) VDEV_RAIDZ_Q q) VDEV_RAIDZ_R r)) rm.

Definition vdev_raidz_generate_parity (rm : raidz_map) : result raidz_map :=
  match rm_firstdatacol rm with
  | 1%nat => vdev_raidz_generate_parity_p rm
  | 2%nat => vdev_raidz_generate_parity_pq rm
  | 3%nat => vdev_raidz_generate_parity_pqr rm
  | _ => Panic
  end.

(** ** Reconstruction of data columns *)

Definition vdev_raidz_reconst_p_func (dbuf sbuf : list Z) : result (list Z) :=
  ws ← p_loop (buf_words 8 sbuf) (buf_words 8 dbuf); Ret (put_words dbuf ws).

Fixpoint q_pre_loop (dst src : list Z) : result (list Z) :=
  match src, dst with
  | [], _ => Ret dst
  | s :: src', x :: dst' =>
      r ← q_pre_loop dst' src'; Ret (Z.lxor (VDEV_RAIDZ_64MUL_2 x) s :: r)
  | _ :: _, [] => Panic
  end.
Definition vdev_raidz_reconst_q_pre_func (dbuf sbuf : list Z) : result (list Z) :=
  ws ← q_pre_loop (buf_words 8 dbuf) (buf_words 8 sbuf); Ret (put_words dbuf ws).

Definition vdev_raidz_reconst_q_pre_tail_func (buf : list Z) : list Z :=
  put_words buf (VDEV_RAIDZ_64MUL_2 <$> buf_words 8 buf).

(** The bytes of [*dst ^= *q], each multiplied by 2 to the power [exp]. *)
Fixpoint q_post_loop (exp : Z) (dst q : list Z) : result (list Z) :=
  match dst, q with
  | [], _ => Ret []
  | x :: dst', y :: q' =>
      bs ← mapM (fun b => vdev_raidz_exp2 b exp) (to_bytes 8 (Z.lxor x y));
      r ← q_post_loop exp dst' q';
      Ret (le bs :: r)
  | _ :: _, [] => Panic
  end.
Definition vdev_raidz_reconst_q_post_func (exp : Z) (buf q : list Z) : result (list Z) :=
  ws ← q_post_loop exp (buf_words 8 buf) (buf_words 8 q); Ret (put_words buf ws).

(** [reconst_pq_struct], its pointers the bytes they point at. *)
Record reconst_pq_struct : Type := ReconstPq {
  rpq_p : list Z; rpq_q : list Z; rpq_pxy : list Z; rpq_qxy : list Z; aexp : Z; bexp : Z }.

(** The bytes under the four pointers, and the pointers moved on. *)
Definition rpq_next (rpq : reconst_pq_struct) : result (Z * Z * Z * Z * reconst_pq_struct) :=
  match rpq_p rpq, rpq_q rpq, rpq_pxy rpq, rpq_qxy rpq with
  | p :: ps, q :: qs, u :: us, v :: vs => Ret (p, q, u, v, ReconstPq ps qs us vs (aexp rpq) (bexp rpq))
  | _, _, _, _ => Panic
  end.

Definition rpq_x (rpq : reconst_pq_struct) (p q u v : Z) : result Z :=
  a ← vdev_raidz_exp2 (Z.lxor p u) (aexp rpq);
  b ← vdev_raidz_exp2 (Z.lxor q v) (bexp rpq);
  Ret (Z.lxor a b).

Fixpoint vdev_raidz_reconst_pq_func (size : nat) (rpq : reconst_pq_struct) :
    result (list Z * list Z * reconst_pq_struct) :=
  match size with
  | O => Ret ([], [], rpq)
  | S size' =>
      '(p, q, u, v, rpq') ← rpq_next rpq;
      xd ← rpq_x rpq p q u v;
      '(xs, ys, rpq'') ← vdev_raidz_reconst_pq_func size' rpq';
      Ret (xd :: xs, Z.lxor (Z.lxor p u) xd :: ys, rpq'')
  end.

Fixpoint vdev_raidz_reconst_pq_tail_func (size : nat) (rpq : reconst_pq_struct) :
    result (list Z * reconst_pq_struct) :=
  match size with
  | O => Ret ([], rpq)
  | S size' =>
      '(p, q, u, v, rpq') ← rpq_next rpq;
      xd ← rpq_x rpq p q u v;
      '(xs, rpq'') ← vdev_raidz_reconst_pq_tail_func size' rpq';
      Ret (xd :: xs, rpq'')
  end.

(** The targets are as many as the methods take. *)
Definition vdev_raidz_reconstruct_p (rm : raidz_map) (x : nat) : result (raidz_map * Z) :=
  _ ← verify (rm_firstdatacol rm <=? x)%nat;
  _ ← verify (x <? rm_cols rm)%nat;
  pc ← get_col rm VDEV_RAIDZ_P;
  xc ← get_col rm x;
  _ ← verify (rc_size xc <=? rc_size pc);
  _ ← verify (0 <? rc_size xc);
  d ← abd_copy (rc_abd xc) (rc_abd pc) (Z.to_nat (rc_size xc));
  rm ← for_loop (rm_cols rm - rm_firstdatacol rm) (rm_firstdatacol rm) (fun c rm =>
    rc ← get_col rm c;
    xc ← get_col rm x;
    let size := Z.to_nat (Z.min (rc_size xc) (rc_size rc)) in
    if (c =? x)%nat then Ret rm else
    src ← view (rc_abd rc) 0 size;
    dst ← view (rc_abd xc) 0 size;
    d ← vdev_raidz_reconst_p_func dst src;
    Ret (set_abd rm x (d ++ drop size (rc_abd xc)))) (set_abd rm x d);
  Ret (rm, Z.shiftl 1 (Z.of_nat VDEV_RAIDZ_P)).

Definition vdev_raidz_reconstruct_q (rm : raidz_map) (x : nat) : result (raidz_map * Z) :=
  xc ← get_col rm x;
  qc ← get_col rm VDEV_RAIDZ_Q;
  _ ← verify (rc_size xc <=? rc_size qc);
  rm ← for_loop (rm_cols rm - rm_firstdatacol rm) (rm_firstdatacol rm) (fun c rm =>
    rc ← get_col rm c;
    xc ← get_col rm x;
    let xsize := Z.to_nat (rc_size xc) in
    let size := if (c =? x)%nat then O else Z.to_nat (Z.min (rc_size xc) (rc_size rc)) in
    if (c =? rm_firstdatacol rm)%nat then
      d ← abd_copy (rc_abd xc) (rc_abd rc) size;
      d ← (if (size <? xsize)%nat then abd_zero_off d size (xsize - size) else Ret d);
      Ret (set_abd rm x d)
    else
      _ ← verify (size <=? xsize)%nat;
      src ← view (rc_abd rc) 0 size;
      dst ← view (rc_abd xc) 0 size;
      tail ← view (rc_abd xc) size (xsize - size);
      d ← vdev_raidz_reconst_q_pre_func dst src;
      let t := vdev_raidz_reconst_q_pre_tail_func tail in
      Ret (set_abd rm x (d ++ t ++ drop xsize (rc_abd xc)))) rm;
  qc ← get_col rm VDEV_RAIDZ_Q;
  xc ← get_col rm x;
  let exp := 255 - (Z.of_nat (rm_cols rm) - 1 - Z.of_nat x) in
  dst ← col_data xc;
  d ← vdev_raidz_reconst_q_post_func exp dst (rc_abd qc);
  Ret (set_abd rm x (d ++ drop (Z.to_nat (rc_size xc)) (rc_abd xc)),
       Z.shiftl 1 (Z.of_nat VDEV_RAIDZ_Q)).

(** The exponents of the two-column method, [aexp] and [bexp]. *)
Definition pq_exps (cols x y : nat) : result (Z * Z) :=
  a ← rd vdev_raidz_pow2 (Z.to_nat (255 + Z.of_nat x - Z.of_nat y));
  b ← rd vdev_raidz_pow2 (Z.to_nat (255 - (Z.of_nat cols - 1 - Z.of_nat x)));
  l ← rd vdev_raidz_log2 (Z.to_nat (Z.lxor a 1));
  let tmp := 255 - l in
  ea ← vdev_raidz_exp2 a tmp;
  eb ← vdev_raidz_exp2 b tmp;
  la ← rd vdev_raidz_log2 (Z.to_nat ea);
  lb ← rd vdev_raidz_log2 (Z.to_nat eb);
  Ret (la, lb).

Section reconstruct.
Context (abd_alloc_linear : Z -> list Z).

Definition vdev_raidz_reconstruct_pq (rm : raidz_map) (x y : nat) : result (raidz_map * Z) :=
  _ ← verify (x <? y)%nat;
  _ ← verify (rm_firstdatacol rm <=? x)%nat;
  _ ← verify (y <? rm_cols rm)%nat;
  pc ← get_col rm VDEV_RAIDZ_P;
  qc ← get_col rm VDEV_RAIDZ_Q;
  xc ← get_col rm x;
  yc ← get_col rm y;
  _ ← verify (rc_size yc <=? rc_size xc);
  let xsize := Z.to_nat (rc_size xc) in
  let ysize := Z.to_nat (rc_size yc) in
  let rm := set_abd rm VDEV_RAIDZ_P (abd_alloc_linear (rc_size pc)) in
  let rm := set_abd rm VDEV_RAIDZ_Q (abd_alloc_linear (rc_size qc)) in
  rm ← vdev_raidz_generate_parity_pq (set_size (set_size rm x 0) y 0);
  let rm := set_size (set_size rm x (rc_size xc)) y (rc_size yc) in
  pxy ← get_col rm VDEV_RAIDZ_P;
  qxy ← get_col rm VDEV_RAIDZ_Q;
  xc ← get_col rm x;
  yc ← get_col rm y;
  '(ea, eb) ← pq_exps (rm_cols rm) x y;
  _ ← verify (ysize <=? xsize)%nat;
  let rpq := ReconstPq (rc_abd pc) (rc_abd qc) (rc_abd pxy) (rc_abd qxy) ea eb in
  _ ← view (rc_abd xc) 0 ysize;
  _ ← view (rc_abd yc) 0 ysize;
  '(xs, ys, rpq) ← vdev_raidz_reconst_pq_func ysize rpq;
  _ ← view (rc_abd xc) ysize (xsize - ysize);
  '(ts, _) ← vdev_raidz_reconst_pq_tail_func (xsize - ysize) rpq;
  let rm := set_abd rm x (xs ++ ts ++ drop (ysize + (xsize - ysize)) (rc_abd xc)) in
  let rm := set_abd rm y (ys ++ drop ysize (rc_abd yc)) in
  let rm := set_abd (set_abd rm VDEV_RAIDZ_P (rc_abd pc)) VDEV_RAIDZ_Q (rc_abd qc) in
  Ret (rm, Z.lor (Z.shiftl 1 (Z.of_nat VDEV_RAIDZ_P)) (Z.shiftl 1 (Z.of_nat VDEV_RAIDZ_Q))).
End reconstruct.
