(* ===== verification/RaidzParity.v ===== *)
(** * RAID-Z: parity and reconstruction are right

    The field operations of [Raidz] against multiplication by 2, the word-wise
    loops against byte-wise ones, and the recovery of lost columns. *)

From S2P Require Import Prelude Raidz.

(** ** The field *)

#[local] Notation mul2 := VDEV_RAIDZ_MUL_2.
#[local] Notation mul4 := VDEV_RAIDZ_MUL_4.

Definition byte (b : Z) : Prop := 0 <= b < 256.

(** Checking a boolean fact of all small naturals. *)
Fixpoint allb (n : nat) (f : Z -> bool) : bool :=
  match n with O => true | S n' => f (Z.of_nat n') && allb n' f end.

Lemma allb_ok n f b : allb n f = true -> 0 <= b < Z.of_nat n -> f b = true.
Proof.
  induction n as [|n IH]; cbn [allb]; [lia|]. intros [H1 H2]%andb_prop Hb.
  destruct (decide (b = Z.of_nat n)) as [->|]; [done|]. apply IH; [done|lia].
Qed.

Lemma mul2_byte a : byte (mul2 a).
Proof. unfold mul2. apply Z.mod_pos_bound. lia. Qed.

Lemma mod256_lxor a b : Z.lxor a b mod 256 = Z.lxor (a mod 256) (b mod 256).
Proof.
  change 256 with (2 ^ 8). rewrite <- !Z.land_ones by lia.
  apply Z.bits_inj'. intros k Hk. rewrite !Z.land_spec, !Z.lxor_spec, !Z.land_spec.
  by destruct (Z.testbit a k), (Z.testbit b k), (Z.testbit (Z.ones 8) k).
Qed.

Lemma lxor_byte a b : byte a -> byte b -> byte (Z.lxor a b).
Proof.
  intros Ha Hb. rewrite <- (Z.mod_small a 256), <- (Z.mod_small b 256), <- mod256_lxor by done.
  apply Z.mod_pos_bound. lia.
Qed.

Lemma mul2_testbit a : mul2 a = Z.lxor (Z.shiftl a 1) (if Z.testbit a 7 then 0x1d else 0) mod 256.
Proof.
  unfold mul2. do 2 f_equal. change 0x80 with (Z.shiftl 1 7).
  assert (Z.land a (Z.shiftl 1 7) = if Z.testbit a 7 then 128 else 0) as ->; [|by destruct (Z.testbit a 7)].
  apply Z.bits_inj'. intros k Hk. rewrite Z.land_spec, Z.shiftl_spec by done.
  assert (Z.testbit 128 k = Z.testbit 1 (k - 7)) as H1 by (change 128 with (Z.shiftl 1 7); by apply Z.shiftl_spec).
  assert (Z.testbit 1 (k - 7) = (k =? 7)) as H2.
  { destruct (Z.eqb_spec k 7) as [->|Hne]; [done|]. change 1 with (2 ^ 0).
    destruct (Z_lt_le_dec k 7); [apply Z.testbit_neg_r; lia|]. apply Z.pow2_bits_false. lia. }
  destruct (Z.testbit a 7) eqn:E7; rewrite ?H1, ?Z.bits_0, H2; destruct (Z.eqb_spec k 7) as [->|];
    by rewrite ?E7, ?andb_false_r.
Qed.

Lemma mul2_lxor a b : mul2 (Z.lxor a b) = Z.lxor (mul2 a) (mul2 b).
Proof.
  rewrite !mul2_testbit, <- mod256_lxor, Z.shiftl_lxor, Z.lxor_spec. f_equal.
  set (x := Z.shiftl a 1). set (y := Z.shiftl b 1).
  destruct (Z.testbit a 7), (Z.testbit b 7); cbn [xorb]; rewrite ?Z.lxor_0_r; try done.
  - rewrite (Z.lxor_comm y), <- Z.lxor_assoc, (Z.lxor_assoc x 29 29), Z.lxor_nilpotent, Z.lxor_0_r. done.
  - by rewrite !Z.lxor_assoc, (Z.lxor_comm y).
  - by rewrite Z.lxor_assoc.
Qed.

(** Multiplication by a power of 2. *)
Definition mulp (k : nat) (a : Z) : Z := Nat.iter k mul2 a.

Lemma mulp_S k a : mulp (S k) a = mul2 (mulp k a).
Proof. done. Qed.
Lemma mulp_add j k a : mulp (j + k) a = mulp j (mulp k a).
Proof. unfold mulp. apply Nat.iter_add. Qed.
Lemma mulp_byte k a : byte a -> byte (mulp k a).
Proof. destruct k; [done|]. intros _. apply mul2_byte. Qed.
Lemma mulp_lxor k a b : mulp k (Z.lxor a b) = Z.lxor (mulp k a) (mulp k b).
Proof.
  induction k as [|k IH]; [done|]. rewrite !mulp_S, IH. apply mul2_lxor.
Qed.
Lemma mulp_0 k : mulp k 0 = 0.
Proof. induction k as [|k IH]; [done|]. by rewrite mulp_S, IH. Qed.

(** The tables. *)
Lemma pow2_steps :
  allb 255 (fun k => nth (Z.to_nat (k + 1)) vdev_raidz_pow2 0 =? mul2 (nth (Z.to_nat k) vdev_raidz_pow2 0)) = true.
Proof. vm_compute. reflexivity. Qed.

Lemma log2_steps :
  allb 256 (fun a => (a =? 0) ||
    match rd vdev_raidz_log2 (Z.to_nat a) with
    | Ret l => (0 <=? l) && (l <=? 254) && (nth (Z.to_nat l) vdev_raidz_pow2 0 =? a)
    | Panic => false
    end) = true.
Proof. vm_compute. reflexivity. Qed.

Lemma rd_pow2 k : (k <= 255)%nat -> rd vdev_raidz_pow2 k = Ret (mulp k 1).
Proof.
  intros Hk. assert (nth k vdev_raidz_pow2 0 = mulp k 1) as H.
  { induction k as [|k IH]; [done|]. rewrite mulp_S, <- IH by lia.
    pose proof (allb_ok 255 _ (Z.of_nat k) pow2_steps ltac:(lia)) as H. cbn beta in H.
    apply Z.eqb_eq in H. rewrite Nat2Z.id in H. rewrite <- H. f_equal. lia. }
  assert (k < length vdev_raidz_pow2)%nat as Hl by (cbn; lia).
  unfold rd. rewrite <- H, nth_lookup. by destruct (lookup_lt_is_Some_2 _ _ Hl) as [x ->].
Qed.

Lemma rd_log2 a :
  byte a -> a <> 0 ->
  exists l, rd vdev_raidz_log2 (Z.to_nat a) = Ret (Z.of_nat l) /\ (l <= 254)%nat /\ a = mulp l 1.
Proof.
  intros Ha Hne. pose proof (allb_ok 256 _ a log2_steps Ha) as H. cbn beta in H.
  rewrite (proj2 (Z.eqb_neq _ _) Hne) in H. cbn [orb] in H.
  destruct (rd vdev_raidz_log2 (Z.to_nat a)) as [l|]; [|done]. bool_to_prop.
  exists (Z.to_nat l). rewrite Z2Nat.id by lia. split_and!; [done|lia|].
  pose proof (rd_pow2 (Z.to_nat l) ltac:(lia)) as Hp. unfold rd in Hp. subst a. rewrite nth_lookup.
  destruct (vdev_raidz_pow2 !! Z.to_nat l); [|done]. by injection Hp as ->.
Qed.

(** 2 has order 255. *)
Lemma mulp_255 a : byte a -> mulp 255 a = a.
Proof.
  intros Ha. destruct (decide (a = 0)) as [->|Hne]; [by rewrite mulp_0|].
  destruct (rd_log2 a Ha Hne) as (l & _ & _ & ->).
  rewrite <- mulp_add, Nat.add_comm, mulp_add. f_equal.
Qed.

Lemma mulp_comm j k a : mulp j (mulp k a) = mulp k (mulp j a).
Proof. by rewrite <- !mulp_add, Nat.add_comm. Qed.

Lemma mulp_nonzero k a : byte a -> a <> 0 -> mulp k a <> 0.
Proof.
  intros Ha Hne. induction k as [|k IH]; [done|]. intros H. apply IH.
  rewrite <- (mulp_255 (mulp k a)) by (by apply mulp_byte). change 255%nat with (254 + 1)%nat.
  rewrite mulp_add. change (mulp 1 (mulp k a)) with (mulp (S k) a). by rewrite H, mulp_0.
Qed.

Lemma pow2_not_one : allb 255 (fun k => (k =? 0) || negb (nth (Z.to_nat k) vdev_raidz_pow2 0 =? 1)) = true.
Proof. vm_compute. reflexivity. Qed.

Lemma mulp_not_one k : (0 < k < 255)%nat -> mulp k 1 <> 1.
Proof.
  intros Hk H. pose proof (allb_ok 255 _ (Z.of_nat k) pow2_not_one ltac:(lia)) as Hc. cbn beta in Hc.
  rewrite Nat2Z.id, nth_lookup in Hc. pose proof (rd_pow2 k ltac:(lia)) as Hp. unfold rd in Hp.
  destruct (vdev_raidz_pow2 !! k); [|done]. injection Hp as ->. rewrite H in Hc.
  apply orb_prop in Hc as [Hc%Z.eqb_eq|Hc]; [lia|done].
Qed.

(** [vdev_raidz_exp2] reads inside its tables and multiplies by a power of 2. *)
Lemma exp2_mulp a k : byte a -> (k <= 255)%nat -> vdev_raidz_exp2 a (Z.of_nat k) = Ret (mulp k a).
Proof.
  intros Ha Hk. unfold vdev_raidz_exp2. destruct (Z.eqb_spec a 0) as [->|Hne]; [by rewrite mulp_0|].
  rewrite (proj2 (Z.leb_le 0 (Z.of_nat k))) by lia. cbn [verify mbind result_bind].
  destruct (rd_log2 a Ha Hne) as (l & -> & Hl & ->). cbn [mbind result_bind].
  assert ((0 <? Z.of_nat l) || (mulp l 1 =? 1) = true) as ->
    by (destruct l; [done|]; by rewrite (proj2 (Z.ltb_lt _ _)) by lia).
  cbn [verify mbind result_bind]. rewrite Z.gtb_ltb, <- mulp_add.
  split_if.
  - replace (Z.to_nat (Z.of_nat k + Z.of_nat l - 255)) with (k + l - 255)%nat by lia.
    rewrite rd_pow2 by lia. replace (k + l)%nat with (k + l - 255 + 255)%nat at 2 by lia.
    by rewrite mulp_add, mulp_255 by (unfold byte; lia).
  - replace (Z.to_nat (Z.of_nat k + Z.of_nat l)) with (k + l)%nat by lia. apply rd_pow2. lia.
Qed.

(** ** The exponents of the two-column method

    They solve its equations: [A + B 2^kx = 1] and [A + B 2^ky = 0]. *)
Lemma pq_exps_ok cols x y :
  (x < y < cols)%nat -> (cols <= 255)%nat ->
  exists ea eb, pq_exps cols x y = Ret (Z.of_nat ea, Z.of_nat eb) /\ (ea <= 255)%nat /\ (eb <= 255)%nat /\
    forall a, byte a ->
      Z.lxor (mulp ea a) (mulp (eb + (cols - 1 - x)) a) = a /\
      mulp ea a = mulp (eb + (cols - 1 - y)) a.
Proof.
  intros Hxy Hc. set (d := (y - x)%nat). set (kx := (cols - 1 - x)%nat).
  assert (byte 1) as B1 by (unfold byte; lia).
  unfold pq_exps. replace (Z.to_nat (255 + Z.of_nat x - Z.of_nat y)) with (255 - d)%nat by lia.
  replace (Z.to_nat (255 - (Z.of_nat cols - 1 - Z.of_nat x))) with (255 - kx)%nat by lia.
  rewrite !rd_pow2 by lia. cbn [mbind result_bind].
  set (a := mulp (255 - d) 1). set (b := mulp (255 - kx) 1).
  assert (byte a /\ byte b) as [Ha Hb] by (split; by apply mulp_byte).
  assert (Z.lxor a 1 <> 0) as Hne.
  { intros Hx%Z.lxor_eq. apply (mulp_not_one (255 - d)); [lia|done]. }
  destruct (rd_log2 (Z.lxor a 1)) as (l & -> & Hl & Hlog); [by apply lxor_byte|done|].
  cbn [mbind result_bind]. replace (255 - Z.of_nat l) with (Z.of_nat (255 - l)) by lia.
  set (t := (255 - l)%nat). rewrite !exp2_mulp by (done || lia). cbn [mbind result_bind].
  assert (forall k, mulp k 1 <> 0) as Hnz by (intros k; by apply mulp_nonzero).
  destruct (rd_log2 (mulp t a)) as (ea & -> & Hea & Ea); [by apply mulp_byte|unfold a; by rewrite <- mulp_add|].
  destruct (rd_log2 (mulp t b)) as (eb & -> & Heb & Eb); [by apply mulp_byte|unfold b; by rewrite <- mulp_add|].
  exists ea, eb. split_and!; [done|lia..|].
  assert (forall k, mulp (eb + k) 1 = mulp (k + t + (255 - kx)) 1) as Hb'.
  { intros k. rewrite Nat.add_comm, mulp_add, <- Eb. unfold b. by rewrite !mulp_add. }
  intros v Hv. destruct (decide (v = 0)) as [->|Hv0]; [by rewrite !mulp_0|].
  destruct (rd_log2 v Hv Hv0) as (j & _ & _ & ->).
  rewrite (mulp_comm ea), !(mulp_comm (eb + _) j), <- mulp_lxor, !Hb', <- Ea. split; f_equal.
  - replace (kx + t + (255 - kx))%nat with (t + 255)%nat by lia.
    rewrite mulp_add, mulp_255, <- mulp_lxor, Hlog, <- mulp_add by done.
    replace (t + l)%nat with 255%nat by lia. done.
  - unfold a. rewrite <- mulp_add. f_equal. lia.
Qed.

(** ** Words and their bytes *)

Lemma split_byte b x : byte b -> (b + 256 * x) mod 256 = b /\ (b + 256 * x) / 256 = x.
Proof. unfold byte. intros Hb. split; eucl. Qed.

Lemma div256_lxor x y : Z.lxor x y / 256 = Z.lxor (x / 256) (y / 256).
Proof. change 256 with (2 ^ 8). by rewrite <- !Z.shiftr_div_pow2, Z.shiftr_lxor by lia. Qed.
Lemma div256_land x y : Z.land x y / 256 = Z.land (x / 256) (y / 256).
Proof. change 256 with (2 ^ 8). by rewrite <- !Z.shiftr_div_pow2, Z.shiftr_land by lia. Qed.

Lemma lxor_split b c x y :
  byte b -> byte c -> Z.lxor (b + 256 * x) (c + 256 * y) = Z.lxor b c + 256 * Z.lxor x y.
Proof.
  intros Hb Hc. destruct (split_byte b x Hb) as [Hb1 Hb2]. destruct (split_byte c y Hc) as [Hc1 Hc2].
  rewrite (Z.div_mod (Z.lxor (b + 256 * x) (c + 256 * y)) 256), mod256_lxor, Hb1, Hc1 by lia.
  rewrite div256_lxor, Hb2, Hc2. lia.
Qed.

Lemma land_split b c x y :
  byte b -> byte c -> Z.land (b + 256 * x) (c + 256 * y) = Z.land b c + 256 * Z.land x y.
Proof.
  intros Hb Hc. destruct (split_byte b x Hb) as [Hb1 Hb2]. destruct (split_byte c y Hc) as [Hc1 Hc2].
  assert (Z.land (b + 256 * x) (c + 256 * y) mod 256 = Z.land b c) as Hm.
  { rewrite <- Hb1 at 2. rewrite <- Hc1 at 2. change 256 with (2 ^ 8). rewrite <- !Z.land_ones by lia.
    apply Z.bits_inj'. intros k Hk. rewrite !Z.land_spec.
    by destruct (Z.testbit (b + _) k), (Z.testbit (c + _) k), (Z.testbit (Z.ones 8) k). }
  rewrite (Z.div_mod (Z.land (b + 256 * x) (c + 256 * y)) 256), Hm by lia.
  rewrite div256_land, Hb2, Hc2. lia.
Qed.

Lemma le_lxor bs cs :
  bytes bs -> bytes cs -> length bs = length cs ->
  Z.lxor (le bs) (le cs) = le (zip_with Z.lxor bs cs).
Proof.
  intros Hb. revert cs. induction Hb as [|b bs Hb _ IH]; intros [|c cs] Hc Hl; try done.
  apply Forall_cons in Hc as [Hc Hcs]. cbn [le zip_with]. rewrite lxor_split by done. by rewrite IH by (done || cbn in Hl; lia).
Qed.

Lemma le_land_const n c bs :
  bytes bs -> byte c -> length bs = n ->
  Z.land (le bs) (le (replicate n c)) = le ((fun b => Z.land b c) <$> bs).
Proof.
  intros Hb Hc <-. induction Hb as [|b bs Hb _ IH]; [done|].
  rewrite fmap_cons. cbn [le length replicate]. by rewrite land_split, IH by done.
Qed.

Lemma le_scale k bs : le ((fun b => k * b) <$> bs) = k * le bs.
Proof. induction bs as [|b bs IH]; [cbn; lia|]. rewrite fmap_cons. cbn [le]. rewrite IH. lia. Qed.

Lemma to_bytes_le n bs : bytes bs -> length bs = n -> to_bytes n (le bs) = bs.
Proof.
  intros Hb <-. induction Hb as [|b bs Hb _ IH]; [done|]. cbn [le length to_bytes].
  destruct (split_byte b (le bs) Hb) as [-> ->]. by rewrite IH.
Qed.

(** Shifting left by one, the bit that enters each byte masked away. *)
Lemma shift_bytes bs c :
  bytes bs -> 0 <= c <= 1 ->
  Z.land ((2 * le bs + c) mod 256 ^ Z.of_nat (length bs)) (le (replicate (length bs) 254)) =
    le ((fun b => 2 * b mod 256) <$> bs).
Proof.
  intros Hb. revert c. induction Hb as [|b bs Hb _ IH]; intros c Hc; [by rewrite Z.land_0_r|].
  rewrite fmap_cons. cbn [le length replicate].
  assert ((2 * (b + 256 * le bs) + c) mod 256 ^ Z.of_nat (S (length bs)) =
          (2 * b + c) mod 256 + 256 * ((2 * le bs + (2 * b + c) / 256) mod 256 ^ Z.of_nat (length bs))) as ->.
  { rewrite Nat2Z.inj_succ, Z.pow_succ_r by lia.
    set (m := 256 ^ Z.of_nat (length bs)). assert (0 < m) by (apply Z.pow_pos_nonneg; lia).
    rewrite Z.rem_mul_r by lia. f_equal; [|do 2 f_equal]; eucl. }
  rewrite land_split; [|apply Z.mod_pos_bound; lia|unfold byte; lia].
  rewrite IH by eucl. f_equal.
  assert (forall b, byte b -> forall c, c = 0 \/ c = 1 -> Z.land ((2 * b + c) mod 256) 254 = 2 * b mod 256) as Hm.
  { intros b' Hb' c' Hc'.
    assert (((Z.land ((2 * b') mod 256) 254 =? 2 * b' mod 256) &&
             (Z.land ((2 * b' + 1) mod 256) 254 =? 2 * b' mod 256)) = true) as Ht.
    { apply (allb_ok 256 (fun b => (Z.land ((2 * b) mod 256) 254 =? 2 * b mod 256) &&
             (Z.land ((2 * b + 1) mod 256) 254 =? 2 * b mod 256))); [vm_compute; reflexivity|done]. }
    bool_to_prop. destruct Hc' as [->| ->]; [by rewrite Z.add_0_r|done]. }
  apply Hm; [done|lia].
Qed.

Definition top_bit (b : Z) : Z := Z.land b 128 / 128.

Lemma top_bits bs :
  bytes bs -> le ((fun b => Z.land b 128) <$> bs) = 128 * le (top_bit <$> bs) /\
              0 <= le (top_bit <$> bs) < 256 ^ Z.of_nat (length bs) /\ bytes (top_bit <$> bs) /\
              Forall (fun t => t = 0 \/ t = 1) (top_bit <$> bs).
Proof.
  intros Hb. assert (Forall (fun b => (top_bit b = 0 \/ top_bit b = 1) /\ Z.land b 128 = 128 * top_bit b) bs) as Ht.
  { eapply Forall_impl; [exact Hb|]. intros b Hr. cbn in Hr.
    assert (((top_bit b =? 0) || (top_bit b =? 1)) && (Z.land b 128 =? 128 * top_bit b) = true) as H.
    { apply (allb_ok 256 (fun b => ((top_bit b =? 0) || (top_bit b =? 1)) && (Z.land b 128 =? 128 * top_bit b)));
        [vm_compute; reflexivity|done]. }
    bool_to_prop. split; [|done]. destruct H as [H|H]; bool_to_prop; auto. }
  assert (bytes (top_bit <$> bs)) as Hbt.
  { apply Forall_fmap. eapply Forall_impl; [exact Ht|]. cbn. lia. }
  split_and!.
  - clear Hb Hbt. induction Ht as [|b bs [_ Hb] _ IH]; [done|].
    rewrite !fmap_cons. cbn [le]. rewrite IH, Hb. lia.
  - apply le_bound in Hbt. lia.
  - pose proof (le_bound _ Hbt) as Hl. rewrite length_fmap in Hl. lia.
  - done.
  - apply Forall_fmap. eapply Forall_impl; [exact Ht|]. cbn. tauto.
Qed.

(** Multiplying a word multiplies each of its bytes. *)
Lemma mul64_bytes bs :
  bytes bs -> length bs = 8%nat -> VDEV_RAIDZ_64MUL_2 (le bs) = le (mul2 <$> bs).
Proof.
  intros Hb Hl. unfold VDEV_RAIDZ_64MUL_2. destruct (top_bits bs Hb) as (Ht & Hr & Hbt & H01).
  rewrite Hl in Hr. change (256 ^ Z.of_nat 8) with (2 ^ 64) in Hr.
  change 0x8080808080808080 with (le (replicate 8 128)).
  change 0xfefefefefefefefe with (le (replicate 8 254)).
  change 0x1d1d1d1d1d1d1d1d with (le (replicate 8 29)).
  rewrite (le_land_const 8 128), Ht by (done || unfold byte; lia).
  set (T := le (top_bit <$> bs)) in *.
  assert (sub64 (wrap64 (Z.shiftl (128 * T) 1)) (Z.shiftr (128 * T) 7) = le ((fun t => 255 * t) <$> (top_bit <$> bs))) as ->.
  { rewrite le_scale. fold T. unfold sub64. rewrite wrap64_sub_l, Z.shiftl_mul_pow2, Z.shiftr_div_pow2 by lia.
    replace (128 * T * 2 ^ 1 - 128 * T / 2 ^ 7) with (255 * T) by eucl. apply wrap64_small. unfold u64.
    assert (le ((fun t => 255 * t) <$> (top_bit <$> bs)) = 255 * T) as HT by apply le_scale.
    pose proof (le_bound ((fun t => 255 * t) <$> (top_bit <$> bs))) as Hle.
    rewrite HT, !length_fmap, Hl in Hle. apply Hle.
    apply Forall_fmap. eapply Forall_impl; [exact H01|]. cbn. lia. }
  assert (wrap64 (Z.shiftl (le bs) 1) = (2 * le bs + 0) mod 256 ^ Z.of_nat (length bs)) as ->.
  { rewrite Hl, Z.shiftl_mul_pow2 by lia. unfold wrap64. f_equal. lia. }
  rewrite <- Hl, shift_bytes by (done || lia).
  rewrite (le_land_const _ 29); [| |unfold byte; lia|by rewrite !length_fmap].
  2:{ apply Forall_fmap. eapply Forall_impl; [exact H01|]. cbn. lia. }
  rewrite le_lxor; [| | |by rewrite !length_fmap].
  - f_equal. clear -Hb. induction Hb as [|b bs Hb _ IH]; [done|].
    rewrite !fmap_cons. cbn [zip_with]. f_equal; [|exact IH]. apply Z.eqb_eq.
    apply (allb_ok 256 (fun b => Z.lxor (2 * b mod 256) (Z.land (255 * top_bit b) 29) =? mul2 b));
      [vm_compute; reflexivity|done].
  - apply Forall_fmap, Forall_forall. intros b _. apply Z.mod_pos_bound. lia.
  - apply Forall_fmap. apply Forall_fmap. eapply Forall_impl; [exact H01|].
    intros t [->| ->]; vm_compute; split; congruence.
Qed.

Lemma mul64_4_bytes bs :
  bytes bs -> length bs = 8%nat -> VDEV_RAIDZ_64MUL_4 (le bs) = le (mul4 <$> bs).
Proof.
  intros Hb Hl. unfold VDEV_RAIDZ_64MUL_4. rewrite mul64_bytes, mul64_bytes by
    (rewrite ?length_fmap; try done; apply Forall_fmap, Forall_forall; intros; apply mul2_byte).
  by rewrite <- list_fmap_compose.
Qed.

(** ** Runs over the words of a buffer *)

Lemma chunk8 {A} (k : nat) (l : list A) :
  length l = (8 * S k)%nat -> exists c r, l = c ++ r /\ length c = 8%nat /\ length r = (8 * k)%nat.
Proof.
  intros H. exists (take 8 l), (drop 8 l). rewrite take_drop, length_take, length_drop. split_and!; [done|lia..].
Qed.

Lemma buf_words_cons c r : length c = 8%nat -> buf_words 8 (c ++ r) = le c :: buf_words 8 r.
Proof.
  intros Hc. rewrite buf_words_app by (rewrite ?Hc; done || lia).
  unfold buf_words at 1. rewrite Hc. cbn [Nat.div Nat.divmod fst words app]. by rewrite take_ge by lia.
Qed.

Lemma put_words_cons c r w ws : length c = 8%nat -> put_words (c ++ r) (w :: ws) = to_bytes 8 w ++ put_words r ws.
Proof.
  intros Hc. unfold put_words. cbn [mbind list_bind length]. rewrite <- app_assoc. do 2 f_equal.
  rewrite drop_app_ge by lia. f_equal. lia.
Qed.

Lemma put_buf_words k buf : bytes buf -> length buf = (8 * k)%nat -> put_words buf (buf_words 8 buf) = buf.
Proof.
  revert buf. induction k as [|k IH]; intros buf Hb Hl.
  - destruct buf; [done|cbn in Hl; lia].
  - destruct (chunk8 k buf Hl) as (c & r & -> & Hc & Hr). apply Forall_app in Hb as [Hbc Hbr].
    rewrite buf_words_cons, put_words_cons, IH, to_bytes_le by done. done.
Qed.

(** [dst[i] = F (dst[i], src[i])] for the words of [src]. *)
Fixpoint wzip (F : Z -> Z -> Z) (src dst : list Z) : result (list Z) :=
  match src, dst with
  | [], _ => Ret dst
  | s :: src', x :: dst' => r ← wzip F src' dst'; Ret (F x s :: r)
  | _ :: _, [] => Panic
  end.

(** The same on bytes. *)
Fixpoint bzip (f : Z -> Z -> Z) (src dst : list Z) : list Z :=
  match src, dst with
  | s :: src', x :: dst' => f x s :: bzip f src' dst'
  | _, _ => dst
  end.

(** [F] on words is [f] on each of their bytes. *)
Definition bytewise2 (F f : Z -> Z -> Z) : Prop :=
  forall bs cs, bytes bs -> bytes cs -> length bs = 8%nat -> length cs = 8%nat ->
    F (le bs) (le cs) = le (zip_with f bs cs) /\ bytes (zip_with f bs cs).
Definition bytewise (F f : Z -> Z) : Prop :=
  forall bs, bytes bs -> length bs = 8%nat -> F (le bs) = le (f <$> bs) /\ bytes (f <$> bs).

Lemma bzip_app f c1 r1 c2 r2 :
  length c1 = length c2 -> bzip f (c1 ++ r1) (c2 ++ r2) = zip_with f c2 c1 ++ bzip f r1 r2.
Proof.
  revert c2. induction c1 as [|a c1 IH]; intros [|b c2] H; cbn in H; try lia; [done|].
  cbn. f_equal. apply IH. lia.
Qed.

Lemma wzip_bytes F f k m src dst :
  bytewise2 F f -> bytes src -> bytes dst -> length src = (8 * k)%nat -> length dst = (8 * m)%nat -> (k <= m)%nat ->
  exists ws, wzip F (buf_words 8 src) (buf_words 8 dst) = Ret ws /\ put_words dst ws = bzip f src dst.
Proof.
  intros HF. revert m src dst. induction k as [|k IH]; intros m src dst Hs Hd Hls Hld Hkm.
  - destruct src; [|cbn in Hls; lia]. eexists. split; [done|]. rewrite (put_buf_words m) by done. by destruct dst.
  - destruct m as [|m]; [lia|].
    destruct (chunk8 k src Hls) as (c1 & r1 & -> & Hc1 & Hr1). destruct (chunk8 m dst Hld) as (c2 & r2 & -> & Hc2 & Hr2).
    apply Forall_app in Hs as [Hs1 Hs2]. apply Forall_app in Hd as [Hd1 Hd2].
    rewrite !buf_words_cons by done. cbn [wzip].
    destruct (IH m r1 r2) as (ws & -> & Hws); [done..|lia|]. cbn [mbind result_bind].
    eexists. split; [done|]. destruct (HF c2 c1) as [-> Hb]; [done..|].
    rewrite put_words_cons, Hws, bzip_app by congruence. f_equal.
    apply to_bytes_le; [done|]. rewrite length_zip_with. lia.
Qed.

Lemma put_words_map F f k buf :
  bytewise F f -> bytes buf -> length buf = (8 * k)%nat -> put_words buf (F <$> buf_words 8 buf) = f <$> buf.
Proof.
  intros HF. revert buf. induction k as [|k IH]; intros buf Hb Hl.
  - destruct buf; [done|cbn in Hl; lia].
  - destruct (chunk8 k buf Hl) as (c & r & -> & Hc & Hr). apply Forall_app in Hb as [Hbc Hbr].
    destruct (HF c Hbc Hc) as [Hw Hbf].
    rewrite buf_words_cons, fmap_cons, put_words_cons, IH, fmap_app, Hw, to_bytes_le by (rewrite ?length_fmap; done). done.
Qed.

Lemma each_loop F ws1 ws2 :
  for_loop (length ws2) (length ws1) (fun i ws => w ← rd ws i; wr ws i (F w)) (ws1 ++ ws2) = Ret (ws1 ++ (F <$> ws2)).
Proof.
  revert ws1. induction ws2 as [|w ws2 IH]; intros ws1; [done|]. cbn [for_loop length].
  rewrite (rd_ok _ _ w) by (by rewrite lookup_app_r, Nat.sub_diag by lia). cbn [mbind result_bind].
  rewrite wr_ok by (rewrite length_app; cbn; lia). cbn [mbind result_bind].
  rewrite insert_app_r_alt, Nat.sub_diag by lia. cbn [insert list_insert].
  specialize (IH (ws1 ++ [F w])). rewrite length_app in IH. cbn [length] in IH.
  rewrite Nat.add_1_r, <- !app_assoc in IH. exact IH.
Qed.

Lemma put_words_app k b1 b2 ws1 ws2 :
  length b1 = (8 * k)%nat -> length ws1 = k -> put_words (b1 ++ b2) (ws1 ++ ws2) = put_words b1 ws1 ++ put_words b2 ws2.
Proof.
  intros H1 H2. unfold put_words. rewrite bind_app, length_app, (drop_ge b1), app_nil_r, <- app_assoc by lia. do 2 f_equal.
  rewrite drop_app_ge by lia. f_equal. lia.
Qed.

Lemma each_word_bytes F f k j b1 b2 :
  bytewise F f -> bytes b1 -> bytes b2 -> length b1 = (8 * k)%nat -> length b2 = (8 * j)%nat ->
  each_word F k (k + j) (b1 ++ b2) = Ret (b1 ++ (f <$> b2)).
Proof.
  intros HF Hb1 Hb2 H1 H2. unfold each_word.
  assert (forall n b, length b = (8 * n)%nat -> length (buf_words 8 b) = n) as Hlw.
  { intros n b Hb. unfold buf_words. rewrite length_words, Hb, Nat.mul_comm. apply Nat.div_mul. lia. }
  rewrite buf_words_app by (rewrite ?H1, 1?Nat.mul_comm, ?Nat.Div0.mod_mul; done || lia).
  replace (k + j - k)%nat with (length (buf_words 8 b2)) by (rewrite (Hlw j) by done; lia).
  rewrite <- (Hlw k b1) at 1 by done. rewrite each_loop. cbn [mbind result_bind].
  rewrite (put_words_app k), (put_buf_words k), (put_words_map F f j) by auto. done.
Qed.

(** ** One column added to a parity column *)

Definition pad (n : nat) (d : list Z) : list Z := d ++ replicate (n - length d) 0.

(** Horner's step: multiply what is there, add the column, zeros after its
    end. *)
Definition step (M : Z -> Z) (d acc : list Z) : list Z :=
  zip_with (fun x s => Z.lxor (M x) s) acc (pad (length acc) d).

(** Multipliers: 1, 2 and 4. *)
Definition byte_map (M : Z -> Z) : Prop := forall b, byte b -> byte (M b).
Lemma id_map : byte_map (fun x => x). Proof. by intros b. Qed.
Lemma mul2_map : byte_map mul2. Proof. intros b _. apply mul2_byte. Qed.
Lemma mul4_map : byte_map mul4. Proof. intros b _. apply mul2_byte. Qed.

Lemma bytes_fmap M bs : byte_map M -> bytes bs -> bytes (M <$> bs).
Proof. intros HM Hb. apply Forall_fmap. eapply Forall_impl; [exact Hb|]. exact HM. Qed.

Lemma bytes_zip_with M bs cs :
  byte_map M -> bytes bs -> bytes cs -> bytes (zip_with (fun x s => Z.lxor (M x) s) bs cs).
Proof.
  intros HM Hb. revert cs. induction Hb as [|b bs Hb _ IH]; intros cs Hc; [constructor|].
  destruct Hc as [|c cs Hc Hcs]; cbn; constructor; [|by apply IH]. apply lxor_byte; [by apply HM|done].
Qed.

Lemma bytewise2_mul F M :
  byte_map M -> bytewise F M -> bytewise2 (fun x s => Z.lxor (F x) s) (fun x s => Z.lxor (M x) s).
Proof.
  intros HM HF bs cs Hb Hc Hlb Hlc. destruct (HF bs Hb Hlb) as [-> Hbm]. split; [|by apply bytes_zip_with].
  rewrite le_lxor by (rewrite ?length_fmap; congruence || done). f_equal. clear. revert cs.
  induction bs as [|b bs IH]; intros [|c cs]; try done. rewrite fmap_cons. cbn. f_equal. apply IH.
Qed.

Lemma bytewise_id : bytewise (fun x => x) (fun x => x).
Proof. intros bs Hb _. rewrite list_fmap_id. done. Qed.
Lemma bytewise_mul2 : bytewise VDEV_RAIDZ_64MUL_2 mul2.
Proof. intros bs Hb Hl. split; [by apply mul64_bytes|]. apply bytes_fmap; [apply mul2_map|done]. Qed.
Lemma bytewise_mul4 : bytewise VDEV_RAIDZ_64MUL_4 mul4.
Proof. intros bs Hb Hl. split; [by apply mul64_4_bytes|]. apply bytes_fmap; [apply mul4_map|done]. Qed.
Lemma bytewise_zero : bytewise (fun _ => 0) (fun _ => 0).
Proof.
  intros bs _ Hl. split; [|apply Forall_fmap, Forall_forall; cbn; lia].
  destruct bs as [|? [|? [|? [|? [|? [|? [|? [|? [|]]]]]]]]]; done.
Qed.
#[local] Hint Resolve id_map mul2_map mul4_map bytewise_id bytewise_mul2 bytewise_mul4 bytewise_zero : verif.

Lemma bytes_app b1 b2 : bytes b1 -> bytes b2 -> bytes (b1 ++ b2).
Proof. intros. by apply Forall_app. Qed.
Lemma bytes_zeros n : bytes (replicate n 0).
Proof. apply Forall_replicate. lia. Qed.
Lemma bytes_take n b : bytes b -> bytes (take n b).
Proof. apply Forall_take. Qed.
Lemma bytes_drop n b : bytes b -> bytes (drop n b).
Proof. apply Forall_drop. Qed.
#[local] Hint Resolve bytes_app bytes_zeros bytes_take bytes_drop bytes_fmap : verif.

Lemma length_pad n d : (length d <= n)%nat -> length (pad n d) = n.
Proof. intros H. unfold pad. rewrite length_app, length_replicate. lia. Qed.

Lemma length_step M d acc : (length d <= length acc)%nat -> length (step M d acc) = length acc.
Proof. intros H. unfold step. rewrite length_zip_with, length_pad by done. lia. Qed.

Lemma bytes_step M d acc : byte_map M -> bytes d -> bytes acc -> bytes (step M d acc).
Proof. intros HM Hd Ha. apply bytes_zip_with; [done..|]. unfold pad. auto with verif. Qed.
#[local] Hint Resolve bytes_step : verif.

Lemma zip_zeros (M : Z -> Z) (l : list Z) n : (length l <= n)%nat -> zip_with (fun x s => Z.lxor (M x) s) l (replicate n 0) = M <$> l.
Proof.
  revert n. induction l as [|x l IH]; intros [|n] Hn; cbn in Hn; try done; [lia|].
  rewrite fmap_cons. cbn. rewrite Z.lxor_0_r. f_equal. apply IH. lia.
Qed.

(** The step in two parts: where the column has data and after its end. *)
Lemma step_split M d acc :
  (length d <= length acc)%nat ->
  step M d acc = zip_with (fun x s => Z.lxor (M x) s) (take (length d) acc) d ++ (M <$> drop (length d) acc).
Proof.
  intros H. unfold step, pad. rewrite <- (take_drop (length d) acc) at 1.
  rewrite zip_with_app by (rewrite length_take; lia). f_equal. apply zip_zeros. rewrite length_drop. lia.
Qed.

Lemma bzip_split f src dst :
  (length src <= length dst)%nat ->
  bzip f src dst = zip_with f (take (length src) dst) src ++ drop (length src) dst.
Proof.
  intros H. rewrite <- (take_drop (length src) dst) at 1. rewrite <- (app_nil_r src) at 1.
  rewrite bzip_app by (rewrite length_take; lia). f_equal.
Qed.

(** A word-wise run over the column, then the multiplication of the rest. *)
Lemma run_then_tail F M k m src q :
  byte_map M -> bytewise F M -> bytes src -> bytes q ->
  length src = (8 * k)%nat -> length q = (8 * m)%nat -> (k <= m)%nat ->
  exists ws, wzip (fun x s => Z.lxor (F x) s) (buf_words 8 src) (buf_words 8 q) = Ret ws /\
    each_word F k m (put_words q ws) = Ret (step M src q).
Proof.
  intros HM HF Hs Hq Hls Hlq Hkm.
  destruct (wzip_bytes _ _ k m src q (bytewise2_mul F M HM HF)) as (ws & Hw & Hp); [done..|].
  exists ws. split; [done|]. rewrite Hp, bzip_split, step_split by lia.
  replace m with (k + (m - k))%nat by lia. apply each_word_bytes; auto with verif.
  - apply bytes_zip_with; auto with verif.
  - rewrite length_zip_with, length_take. lia.
  - rewrite length_drop. lia.
Qed.

Lemma run_p k m src p :
  bytes src -> bytes p -> length src = (8 * k)%nat -> length p = (8 * m)%nat -> (k <= m)%nat ->
  exists ws, wzip Z.lxor (buf_words 8 src) (buf_words 8 p) = Ret ws /\ put_words p ws = step (fun x => x) src p.
Proof.
  intros Hs Hp Hls Hlp Hkm.
  destruct (wzip_bytes _ _ k m src p (bytewise2_mul _ _ id_map bytewise_id)) as (ws & Hw & Hpw); [done..|].
  exists ws. split; [done|]. by rewrite Hpw, bzip_split, step_split, list_fmap_id by lia.
Qed.

Lemma p_loop_wzip src p : p_loop src p = wzip Z.lxor src p.
Proof. revert p. induction src as [|s src IH]; intros [|x p]; cbn; rewrite ?IH; done. Qed.

Lemma q_pre_loop_wzip src dst : q_pre_loop dst src = wzip (fun x s => Z.lxor (VDEV_RAIDZ_64MUL_2 x) s) src dst.
Proof. revert dst. induction src as [|s src IH]; intros [|x p]; cbn; rewrite ?IH; done. Qed.

Lemma pq_loop_wzip src p q ps qs :
  wzip Z.lxor src p = Ret ps -> wzip (fun x s => Z.lxor (VDEV_RAIDZ_64MUL_2 x) s) src q = Ret qs ->
  pq_loop src p q = Ret (ps, qs).
Proof.
  revert p q ps qs. induction src as [|s src IH]; intros [|x p] [|y q] ps qs Hp Hq; cbn in *; try congruence.
  apply bind_Ret in Hp as (ps' & Hp & [= <-]). apply bind_Ret in Hq as (qs' & Hq & [= <-]).
  by rewrite (IH _ _ _ _ Hp Hq).
Qed.

Lemma pqr_loop_wzip src p q r ps qs rs :
  wzip Z.lxor src p = Ret ps -> wzip (fun x s => Z.lxor (VDEV_RAIDZ_64MUL_2 x) s) src q = Ret qs ->
  wzip (fun x s => Z.lxor (VDEV_RAIDZ_64MUL_4 x) s) src r = Ret rs ->
  pqr_loop src p q r = Ret (ps, qs, rs).
Proof.
  revert p q r ps qs rs. induction src as [|s src IH]; intros [|x p] [|y q] [|z r] ps qs rs Hp Hq Hr; cbn in *; try congruence.
  apply bind_Ret in Hp as (ps' & Hp & [= <-]). apply bind_Ret in Hq as (qs' & Hq & [= <-]).
  apply bind_Ret in Hr as (rs' & Hr & [= <-]). by rewrite (IH _ _ _ _ _ _ Hp Hq Hr).
Qed.

(** ** Parity over all columns *)

Definition par (M : Z -> Z) (n : nat) (ds : list (list Z)) : list Z :=
  foldl (fun acc d => step M d acc) (replicate n 0) ds.

(** The data of a column. *)
Definition data_of (rc : raidz_col) : list Z := take (Z.to_nat (rc_size rc)) (rc_abd rc).

(** The data columns before column [i]. *)
Definition datas_to (rm : raidz_map) (i : nat) : list (list Z) :=
  data_of <$> take (i - rm_firstdatacol rm) (drop (rm_firstdatacol rm) (rm_col rm)).
Definition datas (rm : raidz_map) : list (list Z) := datas_to rm (rm_cols rm).

Definition parity_ok (m : nat) (rc : raidz_col) : Prop :=
  bytes (rc_abd rc) /\ rc_size rc = Z.of_nat (8 * m) /\ length (rc_abd rc) = (8 * m)%nat.
Definition data_ok (m : nat) (rc : raidz_col) : Prop :=
  bytes (rc_abd rc) /\
  exists k, (k <= m)%nat /\ rc_size rc = Z.of_nat (8 * k) /\ (8 * k <= length (rc_abd rc))%nat.

(** A map with parity columns of [m] words and data columns no longer. *)
Record raidz_wf (m : nat) (rm : raidz_map) : Prop := {
  wf_cols : (rm_firstdatacol rm < rm_cols rm <= length (rm_col rm))%nat;
  wf_parity c rc : (c < rm_firstdatacol rm)%nat -> rm_col rm !! c = Some rc -> parity_ok m rc;
  wf_data c rc : (rm_firstdatacol rm <= c < rm_cols rm)%nat -> rm_col rm !! c = Some rc -> data_ok m rc;
}.

(** The map with other buffers in its first columns. *)
Fixpoint put_abds (ps : list (list Z)) (cols : list raidz_col) : list raidz_col :=
  match ps, cols with
  | p :: ps', rc :: cols' => col_abd p rc :: put_abds ps' cols'
  | _, _ => cols
  end.
Definition with_parity (rm : raidz_map) (ps : list (list Z)) : raidz_map :=
  set_cols rm (put_abds ps (rm_col rm)).

Lemma put_abds_ge ps cols c : (length ps <= c)%nat -> put_abds ps cols !! c = cols !! c.
Proof.
  revert ps c. induction cols as [|rc cols IH]; intros [|p ps] [|c] H; cbn in *; try done; [lia|]. apply IH. lia.
Qed.
Lemma put_abds_lt ps cols c p rc :
  ps !! c = Some p -> cols !! c = Some rc -> put_abds ps cols !! c = Some (col_abd p rc).
Proof.
  revert ps c. induction cols as [|rc' cols IH]; intros [|p' ps] [|c] H1 H2; cbn in *; try done; [congruence|by apply IH].
Qed.
Lemma put_abds_alter ps cols c p' :
  (c < length ps)%nat -> alter (col_abd p') c (put_abds ps cols) = put_abds (<[c := p']> ps) cols.
Proof.
  revert ps c. induction cols as [|rc' cols IH]; intros [|p ps] [|c] H; cbn in *; try done; try lia. f_equal. apply IH. lia.
Qed.

Lemma set_abd_parity rm ps c p :
  (c < length ps)%nat -> set_abd (with_parity rm ps) c p = with_parity rm (<[c := p]> ps).
Proof. intros H. unfold set_abd, with_parity. cbn [rm_col set_cols]. rewrite put_abds_alter by done. done. Qed.

Lemma get_col_ok rm c rc : rm_col rm !! c = Some rc -> get_col rm c = Ret rc.
Proof. unfold get_col. by intros ->. Qed.

Lemma get_col_data rm ps c rc :
  (length ps <= c)%nat -> rm_col rm !! c = Some rc -> get_col (with_parity rm ps) c = Ret rc.
Proof. intros H1 H2. apply get_col_ok. cbn. by rewrite put_abds_ge. Qed.
Lemma get_col_parity rm ps c p rc :
  ps !! c = Some p -> rm_col rm !! c = Some rc -> get_col (with_parity rm ps) c = Ret (col_abd p rc).
Proof. intros H1 H2. apply get_col_ok. by apply put_abds_lt. Qed.

Lemma view_ok buf off n : (off + n <= length buf)%nat -> view buf off n = Ret (take n (drop off buf)).
Proof. intros H. unfold view. by rewrite (proj2 (Nat.leb_le _ _) H). Qed.

Lemma abd_copy_ok dst src n :
  (n <= length src)%nat -> (n <= length dst)%nat -> abd_copy dst src n = Ret (take n src ++ drop n dst).
Proof.
  intros H1 H2. unfold abd_copy. rewrite view_ok by lia. cbn [mbind result_bind].
  by rewrite (proj2 (Nat.leb_le _ _) H2), drop_0.
Qed.

Lemma data_ok_data m rc :
  data_ok m rc -> exists k, (k <= m)%nat /\ rc_size rc = Z.of_nat (8 * k) /\ length (data_of rc) = (8 * k)%nat /\
    bytes (data_of rc) /\ col_data rc = Ret (data_of rc) /\ (8 * k <= length (rc_abd rc))%nat.
Proof.
  intros (Hb & k & Hk & Hs & Hl). exists k. unfold data_of, col_data. rewrite Hs, Nat2Z.id.
  split_and!; [done|lia|rewrite length_take; lia|auto with verif| |lia].
  rewrite view_ok by lia. by rewrite drop_0.
Qed.

Lemma datas_to_S rm i rc :
  (rm_firstdatacol rm <= i)%nat -> rm_col rm !! i = Some rc ->
  datas_to rm (S i) = datas_to rm i ++ [data_of rc].
Proof.
  intros Hi Hc. unfold datas_to. replace (S i - rm_firstdatacol rm)%nat with (S (i - rm_firstdatacol rm)) by lia.
  rewrite (take_S_r _ _ rc), fmap_app by (rewrite lookup_drop, <- Hc; f_equal; lia). done.
Qed.

Lemma datas_to_first rm : datas_to rm (rm_firstdatacol rm) = [].
Proof. unfold datas_to. by rewrite Nat.sub_diag. Qed.

Lemma par_snoc M n ds d : par M n (ds ++ [d]) = step M d (par M n ds).
Proof. unfold par. by rewrite foldl_app. Qed.

Lemma step_zeros M d n : M 0 = 0 -> (length d <= n)%nat -> step M d (replicate n 0) = pad n d.
Proof.
  intros H0 Hn. unfold step. rewrite length_replicate. pose proof (length_pad n d Hn) as Hl. revert Hl.
  generalize (pad n d). clear -H0. induction n as [|n IH]; intros [|x l] Hl; cbn in *; try done.
  rewrite H0. f_equal. apply IH. lia.
Qed.

(** The copy of the first data column and the zeros after it. *)
Lemma first_col M k m rc buf :
  M 0 = 0 -> bytes buf -> length buf = (8 * m)%nat -> (k <= m)%nat -> length (data_of rc) = (8 * k)%nat ->
  bytes (data_of rc) ->
  each_word (fun _ => 0) k m (data_of rc ++ drop (8 * k) buf) = Ret (step M (data_of rc) (replicate (8 * m) 0)).
Proof.
  intros H0 Hb Hl Hk Hd Hbd. rewrite step_zeros by (done || lia).
  replace m with (k + (m - k))%nat at 1 by lia.
  rewrite (each_word_bytes _ (fun _ => 0)) by (auto with verif; rewrite length_drop; lia).
  unfold pad. do 2 f_equal. rewrite Hd.
  assert (length (drop (8 * k) buf) = (8 * m - 8 * k)%nat) as <- by (rewrite length_drop; lia).
  induction (drop (8 * k) buf); cbn; f_equal. done.
Qed.

Lemma with_parity_id rm n :
  with_parity rm (rc_abd <$> take n (rm_col rm)) = rm.
Proof.
  unfold with_parity, set_cols. destruct rm as [? ? ? ? ? ? ? ? ? cols]. cbn. f_equal. revert n.
  induction cols as [|rc cols IH]; intros [|n]; try done. cbn. f_equal; [by destruct rc|apply IH].
Qed.

(** A buffer for a parity column of [m] words. *)
Definition buf_ok (m : nat) (p : list Z) : Prop := bytes p /\ length p = (8 * m)%nat.

Lemma buf_ok_zeros m : buf_ok m (replicate (8 * m) 0).
Proof. split; [auto with verif|apply length_replicate]. Qed.
Lemma buf_ok_step m M d p : byte_map M -> bytes d -> (length d <= 8 * m)%nat -> buf_ok m p -> buf_ok m (step M d p).
Proof. intros HM Hd Hl [Hb Hp]. split; [auto with verif|rewrite length_step; lia]. Qed.
#[local] Hint Resolve buf_ok_zeros buf_ok_step : verif.

Lemma wf_col m rm c : raidz_wf m rm -> (c < rm_cols rm)%nat -> exists rc, rm_col rm !! c = Some rc.
Proof. intros [Hc _ _] H. apply lookup_lt_is_Some_2. lia. Qed.

Lemma parity_cols n m rm :
  raidz_wf m rm -> (n <= rm_firstdatacol rm)%nat -> Forall (buf_ok m) (rc_abd <$> take n (rm_col rm)) /\
    length (rc_abd <$> take n (rm_col rm)) = n.
Proof.
  intros Hwf Hn. split.
  - apply Forall_fmap, Forall_lookup. intros c rc (Hc & Hlt)%lookup_take_Some.
    destruct (wf_parity m rm Hwf c rc ltac:(lia) Hc) as (Hb & _ & Hl). done.
  - rewrite length_fmap, length_take. pose proof (wf_cols m rm Hwf). lia.
Qed.

(** What the loops over the data columns keep: the parity columns so far. *)
Definition gen_inv (m : nat) (rm : raidz_map) (Ms : list (Z -> Z)) (i : nat) (rm' : raidz_map) : Prop :=
  exists ps, rm' = with_parity rm ps /\ Forall (buf_ok m) ps /\ length ps = length Ms /\
    ((rm_firstdatacol rm < i)%nat -> ps = (fun M => par M (8 * m) (datas_to rm i)) <$> Ms).

Lemma gen_inv_start m rm Ms :
  raidz_wf m rm -> (length Ms <= rm_firstdatacol rm)%nat -> gen_inv m rm Ms (rm_firstdatacol rm) rm.
Proof.
  intros Hwf Hn. destruct (parity_cols (length Ms) m rm Hwf Hn) as [H1 H2].
  exists (rc_abd <$> take (length Ms) (rm_col rm)). rewrite with_parity_id. split_and!; try done. lia.
Qed.

(** One column of it: every parity column takes a step from zeros at the first
    column, from where it is afterwards. *)
Lemma gen_inv_step m rm Ms i rc ps :
  raidz_wf m rm -> Forall byte_map Ms -> (rm_firstdatacol rm <= i < rm_cols rm)%nat ->
  rm_col rm !! i = Some rc -> Forall (buf_ok m) ps -> length ps = length Ms ->
  ((rm_firstdatacol rm < i)%nat -> ps = (fun M => par M (8 * m) (datas_to rm i)) <$> Ms) ->
  gen_inv m rm Ms (S i) (with_parity rm (zip_with (fun M p => step M (data_of rc)
    (if (i =? rm_firstdatacol rm)%nat then replicate (8 * m) 0 else p)) Ms ps)).
Proof.
  intros Hwf HMs Hi Hrc Hps Hlen Hinv.
  destruct (data_ok_data m rc (wf_data m rm Hwf i rc Hi Hrc)) as (k & Hk & _ & Hl & Hb & _ & _).
  eexists. split; [done|]. split_and!.
  - clear Hinv. revert ps Hps Hlen. induction HMs as [|M Ms HM _ IH]; intros ps Hps Hlen; [constructor|].
    destruct Hps as [|p ps Hp Hps]; [constructor|]. cbn [zip_with]. constructor.
    + apply buf_ok_step; [done..|lia|]. destruct (i =? rm_firstdatacol rm)%nat; auto with verif.
    + apply IH; [done|cbn in Hlen; lia].
  - rewrite length_zip_with. lia.
  - intros _. rewrite (datas_to_S rm i rc) by (done || lia).
    destruct (Nat.eqb_spec i (rm_firstdatacol rm)) as [->|Hne].
    + rewrite datas_to_first. clear -Hlen. revert ps Hlen.
      induction Ms as [|M Ms IH]; intros [|p ps] Hlen; cbn in Hlen; try lia; [done|]. rewrite fmap_cons. cbn [zip_with].
      f_equal. apply IH. lia.
    + rewrite Hinv by lia. clear. induction Ms as [|M Ms IH]; [done|]. rewrite !fmap_cons. cbn [zip_with].
      rewrite par_snoc. f_equal. apply IH.
Qed.

Lemma list2 {A} (l : list A) : length l = 2%nat -> exists a b, l = [a; b].
Proof. destruct l as [|a [|b [|]]]; try done. eauto. Qed.
Lemma list3 {A} (l : list A) : length l = 3%nat -> exists a b c, l = [a; b; c].
Proof. destruct l as [|a [|b [|c [|]]]]; try done. eauto. Qed.
Lemma list1 {A} (l : list A) : length l = 1%nat -> exists a, l = [a].
Proof. destruct l as [|a [|]]; try done. eauto. Qed.

Lemma words8 k : Z.to_nat (Z.of_nat (8 * k) / 8) = k.
Proof. rewrite Nat2Z.inj_mul, Z.mul_comm, Z.div_mul by lia. apply Nat2Z.id. Qed.

(** A loop over all data columns with such an invariant. *)
Lemma gen_loop m rm Ms body :
  raidz_wf m rm -> (length Ms <= rm_firstdatacol rm)%nat -> Forall byte_map Ms ->
  (forall i rc ps, (rm_firstdatacol rm <= i < rm_cols rm)%nat -> rm_col rm !! i = Some rc ->
     Forall (buf_ok m) ps -> length ps = length Ms ->
     body i (with_parity rm ps) = Ret (with_parity rm (zip_with (fun M p => step M (data_of rc)
       (if (i =? rm_firstdatacol rm)%nat then replicate (8 * m) 0 else p)) Ms ps))) ->
  for_loop (rm_cols rm - rm_firstdatacol rm) (rm_firstdatacol rm) body rm =
    Ret (with_parity rm ((fun M => par M (8 * m) (datas rm)) <$> Ms)).
Proof.
  intros Hwf Hn HMs Hbody. pose proof (wf_cols m rm Hwf) as Hc.
  destruct (for_loop_inv (gen_inv m rm Ms) (rm_cols rm - rm_firstdatacol rm) (rm_firstdatacol rm) body rm)
    as (rm' & -> & ps & -> & _ & _ & Hps).
  - intros i rm' Hi (ps & -> & Hps & Hlen & Hinv). destruct (wf_col m rm i Hwf ltac:(lia)) as [rc Hrc].
    eexists. split; [apply (Hbody i rc); [lia|done..]|]. apply gen_inv_step; try done. lia.
  - by apply gen_inv_start.
  - rewrite Hps by lia. unfold datas.
    by replace (rm_firstdatacol rm + (rm_cols rm - rm_firstdatacol rm))%nat with (rm_cols rm) by lia.
Qed.

(** Parity columns have one size. *)
Lemma parity_size_eqb m rm c c' rc rc' :
  raidz_wf m rm -> (c < rm_firstdatacol rm)%nat -> (c' < rm_firstdatacol rm)%nat ->
  rm_col rm !! c = Some rc -> rm_col rm !! c' = Some rc' -> (rc_size rc =? rc_size rc') = true.
Proof.
  intros Hwf Hc Hc' Hrc Hrc'. destruct (wf_parity m rm Hwf c rc Hc Hrc) as (_ & -> & _).
  destruct (wf_parity m rm Hwf c' rc' Hc' Hrc') as (_ & -> & _). apply Z.eqb_refl.
Qed.

Lemma generate_pq m rm :
  raidz_wf m rm -> (2 <= rm_firstdatacol rm)%nat ->
  vdev_raidz_generate_parity_pq rm =
    Ret (with_parity rm [par (fun x => x) (8 * m) (datas rm); par mul2 (8 * m) (datas rm)]).
Proof.
  intros Hwf Hf. pose proof (wf_cols m rm Hwf) as Hc. unfold vdev_raidz_generate_parity_pq, VDEV_RAIDZ_P, VDEV_RAIDZ_Q.
  destruct (wf_col m rm 0 Hwf ltac:(lia)) as [pc Hpc]. destruct (wf_col m rm 1 Hwf ltac:(lia)) as [qc Hqc].
  rewrite (get_col_ok _ _ _ Hpc), (get_col_ok _ _ _ Hqc). cbn [mbind result_bind].
  rewrite (parity_size_eqb m rm 0 1 pc qc Hwf) by (done || lia). cbn [verify mbind result_bind].
  destruct (wf_parity m rm Hwf 0 pc ltac:(lia) Hpc) as (_ & -> & _). rewrite words8.
  apply (gen_loop m rm [fun x => x; mul2]); [done|cbn; lia|auto with verif|].
  intros i rc ps Hi Hrc Hps Hlen. destruct (list2 ps Hlen) as (p & q & ->).
  apply Forall_cons in Hps as [[Hbp Hlp] [[Hbq Hlq] _]%Forall_cons].
  rewrite (get_col_data rm [p; q] i rc) by (cbn; lia || done).
  rewrite (get_col_parity rm [p; q] 0 p pc), (get_col_parity rm [p; q] 1 q qc) by done.
  cbn [mbind result_bind zip_with rc_abd col_abd].
  change (rm_firstdatacol (with_parity rm [p; q])) with (rm_firstdatacol rm).
  destruct (data_ok_data m rc (wf_data m rm Hwf i rc Hi Hrc)) as (k & Hk & Hs & Hl & Hb & Hcd & Hla).
  rewrite Hs, words8, Nat2Z.id. destruct (i =? rm_firstdatacol rm)%nat.
  - rewrite abd_copy_ok by lia. cbn [mbind result_bind].
    replace (take (8 * k) (rc_abd rc)) with (data_of rc) by (unfold data_of; by rewrite Hs, Nat2Z.id).
    rewrite abd_copy_ok by (rewrite ?length_app; lia). cbn [mbind result_bind].
    rewrite take_app_le, take_ge by lia.
    rewrite (first_col (fun x => x) k m rc p), (first_col mul2 k m rc q) by (done || lia). cbn [mbind result_bind].
    rewrite !(set_abd_parity rm) by (cbn; lia). done.
  - rewrite Hcd. cbn [mbind result_bind]. unfold vdev_raidz_pq_func.
    destruct (run_p k m (data_of rc) p) as (ps & Hps & Hpr); [done..|].
    destruct (run_then_tail VDEV_RAIDZ_64MUL_2 mul2 k m (data_of rc) q) as (qs & Hqs & Hqr); [auto with verif..|].
    rewrite (pq_loop_wzip _ _ _ _ _ Hps Hqs). cbn [mbind result_bind]. rewrite Hqr, Hpr. cbn [mbind result_bind].
    rewrite !(set_abd_parity rm) by (cbn; lia). done.
Qed.

Lemma generate_p m rm :
  raidz_wf m rm -> (1 <= rm_firstdatacol rm)%nat ->
  (forall rc, rm_col rm !! rm_firstdatacol rm = Some rc -> rc_size rc = Z.of_nat (8 * m)) ->
  vdev_raidz_generate_parity_p rm = Ret (with_parity rm [par (fun x => x) (8 * m) (datas rm)]).
Proof.
  intros Hwf Hf Hfull. pose proof (wf_cols m rm Hwf) as Hc. unfold vdev_raidz_generate_parity_p, VDEV_RAIDZ_P.
  destruct (wf_col m rm 0 Hwf ltac:(lia)) as [pc Hpc].
  apply (gen_loop m rm [fun x => x]); [done|cbn; lia|auto with verif|].
  intros i rc ps Hi Hrc Hps Hlen. destruct (list1 ps Hlen) as (p & ->).
  apply Forall_cons in Hps as [[Hbp Hlp] _].
  rewrite (get_col_data rm [p] i rc) by (cbn; lia || done).
  rewrite (get_col_parity rm [p] 0 p pc) by done.
  cbn [mbind result_bind zip_with rc_abd col_abd].
  change (rm_firstdatacol (with_parity rm [p])) with (rm_firstdatacol rm).
  destruct (data_ok_data m rc (wf_data m rm Hwf i rc Hi Hrc)) as (k & Hk & Hs & Hl & Hb & Hcd & Hla).
  rewrite Hs, Nat2Z.id. destruct (Nat.eqb_spec i (rm_firstdatacol rm)) as [->|].
  - assert (k = m) as -> by (specialize (Hfull rc Hrc); lia).
    rewrite abd_copy_ok by lia. cbn [mbind result_bind].
    replace (take (8 * m) (rc_abd rc)) with (data_of rc) by (unfold data_of; by rewrite Hs, Nat2Z.id).
    rewrite (set_abd_parity rm) by (cbn; lia). cbn [insert list_insert]. do 3 f_equal.
    rewrite step_zeros by (done || lia). unfold pad. by rewrite drop_ge, Hl, Nat.sub_diag by lia.
  - rewrite Hcd. cbn [mbind result_bind]. unfold vdev_raidz_p_func. rewrite p_loop_wzip.
    destruct (run_p k m (data_of rc) p) as (ps & Hps & Hpr); [done..|].
    rewrite Hps. cbn [mbind result_bind]. rewrite Hpr, (set_abd_parity rm) by (cbn; lia). done.
Qed.

Lemma generate_pqr m rm :
  raidz_wf m rm -> (3 <= rm_firstdatacol rm)%nat ->
  vdev_raidz_generate_parity_pqr rm =
    Ret (with_parity rm [par (fun x => x) (8 * m) (datas rm); par mul2 (8 * m) (datas rm); par mul4 (8 * m) (datas rm)]).
Proof.
  intros Hwf Hf. pose proof (wf_cols m rm Hwf) as Hc. unfold vdev_raidz_generate_parity_pqr, VDEV_RAIDZ_P, VDEV_RAIDZ_Q, VDEV_RAIDZ_R.
  destruct (wf_col m rm 0 Hwf ltac:(lia)) as [pc Hpc]. destruct (wf_col m rm 1 Hwf ltac:(lia)) as [qc Hqc].
  destruct (wf_col m rm 2 Hwf ltac:(lia)) as [wc Hwc].
  rewrite (get_col_ok _ _ _ Hpc), (get_col_ok _ _ _ Hqc), (get_col_ok _ _ _ Hwc). cbn [mbind result_bind].
  rewrite (parity_size_eqb m rm 0 1 pc qc Hwf), (parity_size_eqb m rm 0 2 pc wc Hwf) by (done || lia).
  cbn [verify mbind result_bind].
  destruct (wf_parity m rm Hwf 0 pc ltac:(lia) Hpc) as (_ & -> & _). rewrite words8.
  apply (gen_loop m rm [fun x => x; mul2; mul4]); [done|cbn; lia|auto 6 with verif|].
  intros i rc ps Hi Hrc Hps Hlen. destruct (list3 ps Hlen) as (p & q & r & ->).
  apply Forall_cons in Hps as [[Hbp Hlp] [[Hbq Hlq] [[Hbr Hlr] _]%Forall_cons]%Forall_cons].
  rewrite (get_col_data rm [p; q; r] i rc) by (cbn; lia || done).
  rewrite (get_col_parity rm [p; q; r] 0 p pc), (get_col_parity rm [p; q; r] 1 q qc),
    (get_col_parity rm [p; q; r] 2 r wc) by done.
  cbn [mbind result_bind zip_with rc_abd col_abd].
  change (rm_firstdatacol (with_parity rm [p; q; r])) with (rm_firstdatacol rm).
  destruct (data_ok_data m rc (wf_data m rm Hwf i rc Hi Hrc)) as (k & Hk & Hs & Hl & Hb & Hcd & Hla).
  rewrite Hs, words8, Nat2Z.id. destruct (i =? rm_firstdatacol rm)%nat.
  - rewrite abd_copy_ok by lia. cbn [mbind result_bind].
    replace (take (8 * k) (rc_abd rc)) with (data_of rc) by (unfold data_of; by rewrite Hs, Nat2Z.id).
    rewrite !abd_copy_ok by (rewrite ?length_app; lia). cbn [mbind result_bind].
    rewrite take_app_le, take_ge by lia.
    rewrite (first_col (fun x => x) k m rc p), (first_col mul2 k m rc q), (first_col mul4 k m rc r) by (done || lia). cbn [mbind result_bind].
    rewrite !(set_abd_parity rm) by (cbn; lia). done.
  - rewrite Hcd. cbn [mbind result_bind]. unfold vdev_raidz_pqr_func.
    destruct (run_p k m (data_of rc) p) as (ps & Hps & Hpr); [done..|].
    destruct (run_then_tail VDEV_RAIDZ_64MUL_2 mul2 k m (data_of rc) q) as (qs & Hqs & Hqr); [auto with verif..|].
    destruct (run_then_tail VDEV_RAIDZ_64MUL_4 mul4 k m (data_of rc) r) as (rs & Hrs & Hrr); [auto with verif..|].
    rewrite (pqr_loop_wzip _ _ _ _ _ _ _ Hps Hqs Hrs). cbn [mbind result_bind]. rewrite Hqr, Hpr. cbn [mbind result_bind].
    rewrite Hrr. cbn [mbind result_bind]. rewrite !(set_abd_parity rm) by (cbn; lia). done.
Qed.

(** ** Parity, byte by byte *)

Definition row (ds : list (list Z)) (j : nat) : list Z := (fun d => nth j d 0) <$> ds.

Definition horner (M : Z -> Z) (vs : list Z) : Z := foldl (fun acc v => Z.lxor (M acc) v) 0 vs.

(** The sum of [(2^k)^(n-1-i) v_i]. *)
Fixpoint psum (k : nat) (vs : list Z) : Z :=
  match vs with
  | [] => 0
  | v :: vs' => Z.lxor (mulp (k * length vs') v) (psum k vs')
  end.

Lemma horner_snoc M vs v : horner M (vs ++ [v]) = Z.lxor (M (horner M vs)) v.
Proof. unfold horner. by rewrite foldl_app. Qed.

Lemma psum_snoc k vs v : psum k (vs ++ [v]) = Z.lxor (mulp k (psum k vs)) v.
Proof.
  induction vs as [|u vs IH]; cbn [app psum].
  - rewrite mulp_0. cbn [length]. by rewrite Nat.mul_0_r, Z.lxor_0_r.
  - rewrite IH, length_app, mulp_lxor, <- mulp_add. cbn [length].
    replace (k * (length vs + 1))%nat with (k + k * length vs)%nat by lia. by rewrite Z.lxor_assoc.
Qed.

Lemma horner_psum k vs : horner (mulp k) vs = psum k vs.
Proof. induction vs as [|v vs IH] using rev_ind; [done|]. by rewrite horner_snoc, psum_snoc, IH. Qed.

Lemma pad_lookup n d j : (j < n)%nat -> pad n d !! j = Some (nth j d 0).
Proof.
  intros Hj. unfold pad. rewrite nth_lookup. destruct (decide (j < length d)%nat) as [Hl|Hl].
  - rewrite lookup_app_l by done. by destruct (lookup_lt_is_Some_2 d j Hl) as [x ->].
  - rewrite lookup_app_r, lookup_replicate_2, (lookup_ge_None_2 d) by lia. done.
Qed.

Lemma step_lookup M d acc j a :
  acc !! j = Some a -> step M d acc !! j = Some (Z.lxor (M a) (nth j d 0)).
Proof.
  intros Ha. unfold step. apply lookup_zip_with_Some. eexists _, _. split_and!; [done|exact Ha|].
  apply pad_lookup. by eapply lookup_lt_Some.
Qed.

Lemma par_lookup M n ds j : (j < n)%nat -> par M n ds !! j = Some (horner M (row ds j)).
Proof.
  intros Hj. induction ds as [|d ds IH] using rev_ind.
  - unfold par. cbn. by rewrite lookup_replicate_2.
  - rewrite par_snoc. unfold row. rewrite fmap_app. cbn [fmap list_fmap]. rewrite horner_snoc. by apply step_lookup.
Qed.

Lemma par_length M n ds : Forall (fun d => (length d <= n)%nat) ds -> length (par M n ds) = n.
Proof.
  induction ds as [|d ds IH] using rev_ind; intros Hd; [apply length_replicate|].
  apply Forall_app in Hd as [Hds [Hd _]%Forall_cons]. rewrite par_snoc, length_step; rewrite IH; done.
Qed.

Lemma par_bytes M n ds : byte_map M -> Forall bytes ds -> bytes (par M n ds).
Proof.
  intros HM. induction ds as [|d ds IH] using rev_ind; intros Hd; [apply bytes_zeros|].
  apply Forall_app in Hd as [Hds [Hd _]%Forall_cons]. rewrite par_snoc. auto with verif.
Qed.

Lemma datas_wf m rm :
  raidz_wf m rm -> Forall (fun d => (length d <= 8 * m)%nat) (datas rm) /\ Forall bytes (datas rm) /\
    length (datas rm) = (rm_cols rm - rm_firstdatacol rm)%nat.
Proof.
  intros Hwf. pose proof (wf_cols m rm Hwf) as Hc. unfold datas, datas_to.
  assert (Forall (data_ok m) (take (rm_cols rm - rm_firstdatacol rm) (drop (rm_firstdatacol rm) (rm_col rm)))) as Hok.
  { apply Forall_lookup. intros i rc (Hi & Hlt)%lookup_take_Some. rewrite lookup_drop in Hi.
    apply (wf_data m rm Hwf (rm_firstdatacol rm + i)%nat rc); [lia|done]. }
  split_and!; [| |rewrite length_fmap, length_take, length_drop; lia];
    apply Forall_fmap; (eapply Forall_impl; [exact Hok|]); intros rc Hrc; cbn;
    destruct (data_ok_data m rc Hrc) as (k & Hk & _ & Hl & Hb & _); [lia|done].
Qed.

Lemma row_bytes ds j : Forall bytes ds -> bytes (row ds j).
Proof.
  intros Hd. apply Forall_fmap. eapply Forall_impl; [exact Hd|]. intros d Hb. cbn. rewrite nth_lookup.
  destruct (d !! j) as [x|] eqn:E; cbn; [|lia]. exact (Forall_lookup_1 _ _ _ _ Hb E).
Qed.

(** The multiplier of parity column [c]. *)
Definition parity_mul (c : nat) : Z -> Z := mulp c.

(** The first data column is as long as the parity. *)
Definition first_full (m : nat) (rm : raidz_map) : Prop :=
  forall rc, rm_col rm !! rm_firstdatacol rm = Some rc -> rc_size rc = Z.of_nat (8 * m).

Lemma generate_ok m rm :
  raidz_wf m rm -> (1 <= rm_firstdatacol rm <= 3)%nat -> first_full m rm ->
  vdev_raidz_generate_parity rm =
    Ret (with_parity rm ((fun c => par (parity_mul c) (8 * m) (datas rm)) <$> seq 0 (rm_firstdatacol rm))).
Proof.
  intros Hwf Hf Hfull. unfold vdev_raidz_generate_parity.
  destruct (rm_firstdatacol rm) as [|[|[|[|]]]] eqn:E; try lia; cbn [seq fmap list_fmap].
  - apply generate_p; [done|lia|done].
  - apply generate_pq; [done|lia].
  - apply generate_pqr; [done|lia].
Qed.

(** C31: generation of parity.  On a map whose data columns are no longer than
    its parity columns, and the first as long, the code returns with the data
    columns as they were, and byte [j] of parity column [c] is the sum over
    the data columns of byte [j], zero after the end of a short column, times
    [2^c] to the number of data columns that follow. *)
Theorem vdev_raidz_generate_parity_correct m rm :
  raidz_wf m rm -> (1 <= rm_firstdatacol rm <= 3)%nat -> first_full m rm ->
  exists rm', vdev_raidz_generate_parity rm = Ret rm' /\ rm_cols rm' = rm_cols rm /\
    (forall c, (rm_firstdatacol rm <= c)%nat -> rm_col rm' !! c = rm_col rm !! c) /\
    forall c, (c < rm_firstdatacol rm)%nat -> exists rc, rm_col rm' !! c = Some rc /\
      length (rc_abd rc) = (8 * m)%nat /\
      forall j, (j < 8 * m)%nat -> rc_abd rc !! j = Some (psum c (row (datas rm) j)).
Proof.
  intros Hwf Hf Hfull. eexists. split; [by apply generate_ok|]. split; [done|].
  destruct (datas_wf m rm Hwf) as (Hl & _ & _). split.
  - intros c Hc. cbn [rm_col with_parity set_cols]. apply put_abds_ge. rewrite length_fmap, length_seq. lia.
  - intros c Hc. destruct (wf_col m rm c Hwf) as [rc Hrc]; [pose proof (wf_cols m rm Hwf); lia|].
    exists (col_abd (par (parity_mul c) (8 * m) (datas rm)) rc). split_and!.
    + apply put_abds_lt; [|done]. rewrite list_lookup_fmap, lookup_seq_lt by lia. done.
    + by apply par_length.
    + intros j Hj. cbn [rc_abd col_abd]. rewrite par_lookup by done. by rewrite <- horner_psum.
Qed.

(** ** Lost columns *)

(** The map as if column [x] had no data. *)
Definition lost (rm : raidz_map) (x : nat) : raidz_map := set_size rm x 0.

(** Parity column [c] holds the parity of the data. *)
Definition has_parity (m : nat) (rm : raidz_map) (c : nat) : Prop :=
  forall rc, rm_col rm !! c = Some rc -> rc_abd rc = par (mulp c) (8 * m) (datas rm).

Lemma psum_middle k l1 v l2 :
  psum k (l1 ++ v :: l2) = Z.lxor (mulp (k * length l2) v) (psum k (l1 ++ 0 :: l2)).
Proof.
  induction l1 as [|u l1 IH]; cbn [app psum].
  - by rewrite mulp_0, Z.lxor_0_l.
  - rewrite IH, !length_app. cbn [length]. rewrite <- !Z.lxor_assoc. f_equal. apply Z.lxor_comm.
Qed.

Lemma psum_lost k ds i d j :
  ds !! i = Some d ->
  psum k (row ds j) = Z.lxor (mulp (k * (length ds - 1 - i)) (nth j d 0)) (psum k (row (<[i := []]> ds) j)).
Proof.
  intros Hi. pose proof (lookup_lt_Some _ _ _ Hi) as Hlt.
  rewrite insert_take_drop by done. rewrite <- (take_drop_middle ds i d Hi) at 1.
  unfold row. rewrite !fmap_app, !fmap_cons, psum_middle, length_fmap, length_drop.
  replace (length ds - S i)%nat with (length ds - 1 - i)%nat by lia. by destruct j.
Qed.

Lemma datas_lookup rm c rc :
  (rm_firstdatacol rm <= c < rm_cols rm)%nat -> rm_col rm !! c = Some rc ->
  datas rm !! (c - rm_firstdatacol rm)%nat = Some (data_of rc).
Proof.
  intros Hc Hrc. unfold datas, datas_to. rewrite list_lookup_fmap, lookup_take_lt, lookup_drop by lia.
  replace (rm_firstdatacol rm + (c - rm_firstdatacol rm))%nat with c by lia. by rewrite Hrc.
Qed.

Lemma datas_lost rm x :
  (rm_firstdatacol rm <= x < rm_cols rm)%nat -> datas (lost rm x) = <[(x - rm_firstdatacol rm)%nat := []]> (datas rm).
Proof.
  intros Hx. unfold datas, datas_to. cbn [lost set_size set_cols rm_col rm_cols rm_firstdatacol].
  apply list_eq. intros i. rewrite list_lookup_fmap.
  destruct (decide (i < rm_cols rm - rm_firstdatacol rm)%nat) as [Hi|Hi].
  2:{ rewrite lookup_take_ge by lia. symmetry. apply lookup_ge_None_2.
      rewrite length_insert, length_fmap, length_take. lia. }
  rewrite lookup_take_lt, lookup_drop by done.
  destruct (decide (i = x - rm_firstdatacol rm)%nat) as [->|Hne].
  - replace (rm_firstdatacol rm + (x - rm_firstdatacol rm))%nat with x by lia.
    rewrite list_lookup_alter_eq. destruct (rm_col rm !! x) as [rc|] eqn:E; cbn.
    + rewrite list_lookup_insert_eq; [done|]. rewrite length_fmap, length_take, length_drop.
      pose proof (lookup_lt_Some _ _ _ E). lia.
    + symmetry. apply lookup_ge_None_2. rewrite length_insert, length_fmap, length_take, length_drop.
      apply lookup_ge_None_1 in E. lia.
  - rewrite list_lookup_alter_ne, list_lookup_insert_ne, list_lookup_fmap, lookup_take_lt, lookup_drop by (done || lia). done.
Qed.

Lemma get_set_ne rm x acc c : c <> x -> get_col (set_abd rm x acc) c = get_col rm c.
Proof. intros H. unfold get_col. cbn. by rewrite list_lookup_alter_ne by done. Qed.
Lemma get_set_eq rm x acc xc : rm_col rm !! x = Some xc -> get_col (set_abd rm x acc) x = Ret (col_abd acc xc).
Proof. intros H. unfold get_col. cbn. by rewrite list_lookup_alter_eq, H. Qed.
Lemma set_set_abd rm x a b : set_abd (set_abd rm x a) x b = set_abd rm x b.
Proof.
  unfold set_abd, set_cols. cbn. f_equal. apply list_eq. intros i. destruct (decide (i = x)) as [->|].
  - rewrite !list_lookup_alter_eq. by destruct (rm_col rm !! x).
  - by rewrite !list_lookup_alter_ne.
Qed.
Lemma set_abd_id rm x xc : rm_col rm !! x = Some xc -> set_abd rm x (rc_abd xc) = rm.
Proof.
  intros H. unfold set_abd, set_cols. destruct rm as [? ? ? ? ? ? ? ? ? cols]. cbn in *. f_equal.
  apply list_eq. intros i. destruct (decide (i = x)) as [->|].
  - rewrite list_lookup_alter_eq, H. by destruct xc.
  - by rewrite list_lookup_alter_ne.
Qed.

Lemma lost_snoc rm x i rc :
  (rm_firstdatacol rm <= i)%nat -> rm_col rm !! i = Some rc ->
  datas_to (lost rm x) (S i) = datas_to (lost rm x) i ++ [if (i =? x)%nat then [] else data_of rc].
Proof.
  intros Hi Hrc. destruct (Nat.eqb_spec i x) as [->|Hne].
  - rewrite (datas_to_S (lost rm x) x (col_size 0 rc)); [done|done|]. cbn. by rewrite list_lookup_alter_eq, Hrc.
  - rewrite (datas_to_S (lost rm x) i rc); [done|done|]. cbn. by rewrite list_lookup_alter_ne.
Qed.

(** Cutting the source to the length of the target changes nothing there. *)
Lemma nth_take_min (d : list Z) n k j : (j < n)%nat -> nth j (take (n `min` k) d) 0 = nth j (take k d) 0.
Proof.
  intros Hj. rewrite !nth_lookup. destruct (decide (j < k)%nat).
  - by rewrite !lookup_take_lt by lia.
  - by rewrite !lookup_take_ge by lia.
Qed.

Lemma step_app M src acc :
  (length src <= length acc)%nat ->
  step M src (take (length src) acc) ++ (M <$> drop (length src) acc) = step M src acc.
Proof.
  intros H. rewrite !step_split by (rewrite ?length_take; lia).
  rewrite take_take, Nat.min_id, (drop_ge (take _ _)) by (rewrite length_take; lia). by rewrite app_nil_r.
Qed.

(** The last step: what is left over times the inverse power of 2. *)
Lemma q_post_ok e kx dst q :
  (e <= 255)%nat -> bytes dst -> bytes q -> length dst = (8 * kx)%nat -> (8 * kx <= length q)%nat ->
  (length q mod 8 = 0)%nat ->
  vdev_raidz_reconst_q_post_func (Z.of_nat e) dst q =
    Ret (mulp e <$> zip_with Z.lxor dst q).
Proof.
  intros He Hd Hq Hl Hlq Hq8. unfold vdev_raidz_reconst_q_post_func.
  apply Nat.Div0.div_exact in Hq8. remember (length q / 8)%nat as kq eqn:Ekq. clear Ekq.
  assert (kx <= kq)%nat as Hk by lia. clear Hlq.
  enough (exists ws, q_post_loop (Z.of_nat e) (buf_words 8 dst) (buf_words 8 q) = Ret ws /\
            put_words dst ws = mulp e <$> zip_with Z.lxor dst q) as (ws & -> & Hw) by (cbn [mbind result_bind]; by rewrite Hw).
  revert kq dst q Hd Hq Hl Hq8 Hk. induction kx as [|kx IH]; intros kq dst q Hd Hq Hl Hq8 Hk.
  - destruct dst; [|cbn in Hl; lia]. by eexists.
  - destruct kq as [|kq]; [lia|]. destruct (chunk8 kx dst Hl) as (c1 & r1 & -> & Hc1 & Hr1).
    destruct (chunk8 kq q Hq8) as (c2 & r2 & -> & Hc2 & Hr2).
    apply Forall_app in Hd as [Hd1 Hd2]. apply Forall_app in Hq as [Hq1 Hq2].
    rewrite !buf_words_cons by done. cbn [q_post_loop]. rewrite le_lxor by congruence || done.
    assert (bytes (zip_with Z.lxor c1 c2)) as Hz by (apply (bytes_zip_with _ c1 c2 id_map); done).
    rewrite to_bytes_le by (done || rewrite length_zip_with; lia).
    assert (mapM (fun b => vdev_raidz_exp2 b (Z.of_nat e)) (zip_with Z.lxor c1 c2) =
            Ret (mulp e <$> zip_with Z.lxor c1 c2)) as ->.
    { clear -Hz He. induction Hz as [|b bs Hb _ IH]; [done|]. rewrite fmap_cons. cbn [mapM].
      rewrite exp2_mulp by (done || lia). cbn [mbind result_bind]. by rewrite IH. }
    destruct (IH kq r1 r2) as (ws & -> & Hw); [done..|lia|]. cbn [mbind result_bind].
    eexists. split; [done|]. rewrite put_words_cons, Hw, zip_with_app, fmap_app by congruence. f_equal.
    apply to_bytes_le; [|rewrite length_fmap, length_zip_with; lia].
    apply bytes_fmap; [|done]. intros b Hb. by apply mulp_byte.
Qed.

(** One column taken into the column being rebuilt. *)
Lemma reconst_p_step src k acc :
  length src = (8 * k)%nat -> (8 * k <= length acc)%nat -> bytes src -> bytes acc ->
  exists ws, vdev_raidz_reconst_p_func (take (8 * k) acc) src = Ret ws /\
    ws ++ drop (8 * k) acc = step (fun x => x) src acc.
Proof.
  intros Hl Hk Hb Hba. unfold vdev_raidz_reconst_p_func. rewrite p_loop_wzip.
  destruct (run_p k k src (take (8 * k) acc)) as (ws & -> & Hw); auto with verif.
  { rewrite length_take. lia. }
  eexists. split; [done|]. rewrite Hw, <- Hl. rewrite <- (step_app _ src acc) by lia. by rewrite list_fmap_id.
Qed.

Lemma reconst_q_step src k kx acc :
  length src = (8 * k)%nat -> (k <= kx)%nat -> length acc = (8 * kx)%nat -> bytes src -> bytes acc ->
  exists ws, vdev_raidz_reconst_q_pre_func (take (8 * k) acc) src = Ret ws /\
    ws ++ vdev_raidz_reconst_q_pre_tail_func (drop (8 * k) acc) = step mul2 src acc.
Proof.
  intros Hl Hk Hx8 Hb Hba. unfold vdev_raidz_reconst_q_pre_func, vdev_raidz_reconst_q_pre_tail_func.
  rewrite q_pre_loop_wzip.
  destruct (wzip_bytes _ _ k k src (take (8 * k) acc) (bytewise2_mul _ _ mul2_map bytewise_mul2))
    as (ws & -> & Hw); auto with verif.
  { rewrite length_take. lia. }
  eexists. split; [done|]. rewrite Hw, bzip_split, step_split by (rewrite ?length_take; lia).
  rewrite (put_words_map _ mul2 (kx - k)), Hl by (auto with verif; rewrite length_drop; lia).
  rewrite take_take, Nat.min_id, (drop_ge (take _ _)) by (rewrite length_take; lia). by rewrite app_nil_r.
Qed.

(** The first column copied, zeros after it. *)
Lemma reconst_q_first src abd k acc :
  take (8 * k) abd = src -> (8 * k <= length abd)%nat -> (8 * k <= length acc)%nat ->
  (d ← abd_copy acc abd (8 * k);
   if (8 * k <? length acc)%nat then abd_zero_off d (8 * k) (length acc - 8 * k) else Ret d) =
    Ret (step mul2 src (replicate (length acc) 0)).
Proof.
  intros Hs Ha Hk. rewrite abd_copy_ok, Hs by lia. cbn [mbind result_bind].
  assert (length src = (8 * k)%nat) as Hl by (subst src; rewrite length_take; lia).
  rewrite step_zeros by (done || lia). unfold pad. rewrite Hl.
  destruct (Nat.ltb_spec (8 * k) (length acc)) as [Hlt|Hge].
  - unfold abd_zero_off. rewrite length_app, length_drop.
    rewrite (proj2 (Nat.leb_le _ _)) by lia. rewrite take_app_le, take_ge by lia.
    rewrite (drop_ge (src ++ _)), app_nil_r by (rewrite length_app, length_drop; lia). done.
  - rewrite drop_ge by lia. by replace (length acc - 8 * k)%nat with 0%nat by lia.
Qed.

Section lost_column.
Context (m : nat) (rm : raidz_map) (x : nat) (xc : raidz_col).
Context (Hwf : raidz_wf m rm) (Hx : (rm_firstdatacol rm <= x < rm_cols rm)%nat).
Context (Hxc : rm_col rm !! x = Some xc) (Hxl : Z.of_nat (length (rc_abd xc)) = rc_size xc).

Notation xsize := (length (rc_abd xc)).

Lemma x_words : exists k, (k <= m)%nat /\ xsize = (8 * k)%nat /\ Z.to_nat (rc_size xc) = (8 * k)%nat /\
  rc_size xc = Z.of_nat (8 * k) /\ data_of xc = rc_abd xc /\ bytes (rc_abd xc).
Proof using Hwf Hx Hxc Hxl.
  destruct (wf_data m rm Hwf x xc Hx Hxc) as (Hb & k & Hk & Hs & Hl).
  exists k. split_and!; try done; try lia. unfold data_of. apply take_ge. lia.
Qed.

(** The bytes common to column [c] and the lost column. *)
Definition cut (rc : raidz_col) : list Z := take (Z.to_nat (Z.min (rc_size xc) (rc_size rc))) (rc_abd rc).

Lemma cut_ok c rc :
  (rm_firstdatacol rm <= c < rm_cols rm)%nat -> rm_col rm !! c = Some rc ->
  exists k, length (cut rc) = (8 * k)%nat /\ (8 * k <= xsize)%nat /\ bytes (cut rc) /\
    Z.to_nat (Z.min (rc_size xc) (rc_size rc)) = (8 * k)%nat /\
    view (rc_abd rc) 0 (Z.to_nat (Z.min (rc_size xc) (rc_size rc))) = Ret (cut rc) /\
    forall j, (j < xsize)%nat -> nth j (cut rc) 0 = nth j (data_of rc) 0.
Proof using Hwf Hx Hxc Hxl.
  intros Hc Hrc. destruct x_words as (kx & Hkx & Hx1 & Hx2 & Hx3 & _).
  destruct (wf_data m rm Hwf c rc Hc Hrc) as (Hb & k & Hk & Hs & Hl).
  assert (Z.to_nat (Z.min (rc_size xc) (rc_size rc)) = (8 * (kx `min` k))%nat) as Hmin by lia.
  exists (kx `min` k)%nat. unfold cut. rewrite Hmin. split_and!; auto with verif; try lia.
  - rewrite length_take. lia.
  - rewrite view_ok by lia. by rewrite drop_0.
  - intros j Hj. unfold data_of. rewrite Hs, Nat2Z.id.
    replace (8 * (kx `min` k))%nat with ((8 * kx) `min` (8 * k))%nat by lia. apply nth_take_min. lia.
Qed.

(** The column while it is being rebuilt: byte [j] is [f i j]. *)
Definition rec_inv (f : nat -> nat -> Z) (from : nat) (i : nat) (rm' : raidz_map) : Prop :=
  exists acc, rm' = set_abd rm x acc /\ length acc = xsize /\ bytes acc /\
    ((from <= i)%nat -> forall j, (j < xsize)%nat -> acc !! j = Some (f i j)).

Lemma rebuilt acc :
  length acc = xsize -> (forall j, (j < xsize)%nat -> acc !! j = Some (nth j (data_of xc) 0)) ->
  set_abd rm x acc = rm.
Proof using Hwf Hx Hxc Hxl.
  intros Hl Hj. destruct x_words as (k & _ & _ & _ & _ & Hd & _).
  rewrite <- (set_abd_id rm x xc Hxc) at 2. f_equal. apply list_eq. intros j.
  destruct (decide (j < xsize)%nat) as [Hlt|].
  - rewrite Hj, Hd, nth_lookup by done. by destruct (lookup_lt_is_Some_2 _ _ Hlt) as [b ->].
  - rewrite !lookup_ge_None_2 by lia. done.
Qed.

Lemma step_cut_lookup M rc acc j a :
  (j < xsize)%nat -> nth j (cut rc) 0 = nth j (data_of rc) 0 -> acc !! j = Some a ->
  step M (cut rc) acc !! j = Some (Z.lxor (M a) (nth j (data_of rc) 0)).
Proof using. intros Hj Hn Ha. rewrite <- Hn. by apply step_lookup. Qed.

Lemma reconstruct_p_ok junk :
  (1 <= rm_firstdatacol rm)%nat -> 0 < rc_size xc -> has_parity m rm 0 -> bytes junk -> length junk = xsize ->
  vdev_raidz_reconstruct_p (set_abd rm x junk) x = Ret (rm, 1).
Proof using Hwf Hx Hxc Hxl.
  intros Hf Hpos Hpar Hjb Hjl. destruct x_words as (kx & Hkx & Hx1 & Hx2 & Hx3 & Hxd & Hxb).
  unfold vdev_raidz_reconstruct_p, VDEV_RAIDZ_P. cbn [rm_firstdatacol rm_cols set_abd set_cols].
  rewrite (proj2 (Nat.leb_le _ _)), (proj2 (Nat.ltb_lt _ _)) by lia. cbn [verify mbind result_bind].
  destruct (wf_col m rm 0 Hwf ltac:(lia)) as [pc Hpc].
  rewrite (get_set_ne rm x junk 0), (get_col_ok _ _ _ Hpc), (get_set_eq _ _ _ _ Hxc) by lia. cbn [mbind result_bind rc_abd rc_size col_abd].
  destruct (wf_parity m rm Hwf 0 pc ltac:(lia) Hpc) as (Hpb & Hps & Hpl).
  rewrite (proj2 (Z.leb_le (rc_size xc) _)), (proj2 (Z.ltb_lt 0 _)) by lia. cbn [verify mbind result_bind].
  rewrite abd_copy_ok, Hx2, (drop_ge junk), app_nil_r by lia. cbn [mbind result_bind]. rewrite set_set_abd.
  set (f := fun i j => Z.lxor (nth j (rc_abd pc) 0) (horner (fun x => x) (row (datas_to (lost rm x) i) j))).
  cbn [set_abd set_cols rm_cols rm_firstdatacol].
  match goal with |- context [for_loop ?n ?c ?body ?a] =>
    destruct (for_loop_inv (rec_inv f 0) n c body a) as (rm' & -> & acc & -> & Hl & _ & Hacc) end.
  - intros i rm' Hi (acc & -> & Hl & Hb & Hacc). specialize (Hacc ltac:(lia)).
    destruct (wf_col m rm i Hwf ltac:(lia)) as [rc Hrc].
    rewrite (get_set_eq _ _ _ _ Hxc). cbn [mbind result_bind rc_size rc_abd col_abd].
    destruct (Nat.eqb_spec i x) as [->|Hne].
    + rewrite (get_set_eq _ _ _ _ Hxc). cbn [mbind result_bind]. eexists. split; [done|]. exists acc. split_and!; try done.
      intros _ j Hj. rewrite Hacc by done. f_equal. unfold f. f_equal.
      rewrite (lost_snoc rm x x xc), Nat.eqb_refl by (done || lia). unfold row. rewrite fmap_app. cbn [fmap list_fmap].
      rewrite horner_snoc. destruct j; by rewrite Z.lxor_0_r.
    + rewrite get_set_ne, (get_col_ok _ _ _ Hrc) by done. cbn [mbind result_bind].
      destruct (cut_ok i rc ltac:(lia) Hrc) as (k & Hcl & Hck & Hcb & Hmin & Hv & Hn).
      rewrite Hv, Hmin. cbn [mbind result_bind]. rewrite view_ok, drop_0 by lia. cbn [mbind result_bind].
      destruct (reconst_p_step (cut rc) k acc) as (ws & -> & Hws); [done|lia|done..|]. cbn [mbind result_bind].
      rewrite Hws, set_set_abd. eexists. split; [done|]. eexists. split; [done|].
      split_and!; [rewrite length_step; lia|auto with verif|]. intros _ j Hj.
      rewrite (step_cut_lookup _ _ _ _ _ Hj (Hn j Hj) (Hacc j Hj)). f_equal. unfold f.
      rewrite (lost_snoc rm x i rc), (proj2 (Nat.eqb_neq _ _) Hne) by (done || lia).
      unfold row. rewrite fmap_app. cbn [fmap list_fmap]. by rewrite horner_snoc, Z.lxor_assoc.
  - eexists. split; [done|]. split_and!; [rewrite length_take; lia|auto with verif|].
    intros _ j Hj. unfold f. change (rm_firstdatacol rm) with (rm_firstdatacol (lost rm x)).
    rewrite datas_to_first, lookup_take_lt, nth_lookup, Z.lxor_0_r by lia.
    assert (j < length (rc_abd pc))%nat as Hlt by lia. by destruct (lookup_lt_is_Some_2 _ _ Hlt) as [b ->].
  - cbn [mbind result_bind]. rewrite rebuilt; [done..|]. intros j Hj. rewrite Hacc by (done || lia). f_equal. unfold f.
    replace (rm_firstdatacol rm + (rm_cols rm - rm_firstdatacol rm))%nat with (rm_cols rm) by lia.
    change (datas_to (lost rm x) (rm_cols rm)) with (datas (lost rm x)).
    rewrite (Hpar pc Hpc), nth_lookup, par_lookup by lia. unfold default, id.
    change (fun x => x) with (mulp 0). rewrite !horner_psum, datas_lost by done.
    rewrite (psum_lost 0 (datas rm) _ _ j (datas_lookup rm x xc Hx Hxc)).
    by rewrite Z.lxor_assoc, Z.lxor_nilpotent, Z.lxor_0_r.
Qed.

(** What a column gives to the lost one: nothing if it is the lost one. *)
Lemma lost_src acc i rc kx :
  (rm_firstdatacol rm <= i < rm_cols rm)%nat -> rm_col rm !! i = Some rc -> xsize = (8 * kx)%nat ->
  exists rc' src k, get_col (set_abd rm x acc) i = Ret rc' /\ length src = (8 * k)%nat /\ (k <= kx)%nat /\
    bytes src /\ (if (i =? x)%nat then 0%nat else Z.to_nat (Z.min (rc_size xc) (rc_size rc'))) = (8 * k)%nat /\
    view (rc_abd rc') 0 (8 * k) = Ret src /\ take (8 * k) (rc_abd rc') = src /\ (8 * k <= length (rc_abd rc'))%nat /\
    forall j, (j < xsize)%nat -> nth j src 0 = nth j (if (i =? x)%nat then [] else data_of rc) 0.
Proof using Hwf Hx Hxc Hxl.
  intros Hi Hrc Hx1. destruct (Nat.eqb_spec i x) as [->|Hne].
  - exists (col_abd acc xc), [], 0%nat. rewrite (get_set_eq _ _ _ _ Hxc). split_and!; try done; try lia. constructor.
  - destruct (cut_ok i rc ltac:(lia) Hrc) as (k & Hcl & Hck & Hcb & Hmin & Hv & Hn).
    exists rc, (cut rc), k. rewrite get_set_ne, (get_col_ok _ _ _ Hrc) by done. rewrite Hmin in Hv.
    split_and!; try done; try lia; [unfold cut; by rewrite Hmin|].
    unfold cut in Hcl. rewrite length_take in Hcl. lia.
Qed.

(** The parity without the column and the parity give the column back. *)
Lemma q_last (acc : list Z) j :
  (rm_cols rm <= 255)%nat ->
  acc !! j = Some (Z.lxor (horner mul2 (row (datas (lost rm x)) j)) (horner mul2 (row (datas rm) j))) ->
  (mulp (255 - (rm_cols rm - 1 - x)) <$> acc) !! j = Some (nth j (data_of xc) 0).
Proof using Hwf Hx Hxc Hxl.
  intros Hcols Hj. destruct x_words as (kx & _ & _ & _ & _ & Hxd & Hxb).
  rewrite list_lookup_fmap, Hj. cbn [fmap option_fmap option_map]. f_equal.
  change mul2 with (mulp 1). rewrite !horner_psum, datas_lost by done.
  rewrite (psum_lost 1 (datas rm) _ _ j (datas_lookup rm x xc Hx Hxc)).
  rewrite Z.lxor_comm, Z.lxor_assoc, Z.lxor_nilpotent, Z.lxor_0_r, <- mulp_add.
  destruct (datas_wf m rm Hwf) as (_ & Hdb & ->).
  replace (255 - (rm_cols rm - 1 - x) + 1 * (rm_cols rm - rm_firstdatacol rm - 1 - (x - rm_firstdatacol rm)))%nat with 255%nat by lia.
  apply mulp_255. rewrite Hxd, nth_lookup. destruct (rc_abd xc !! j) as [b|] eqn:E; [|unfold byte; cbn; lia].
  exact (Forall_lookup_1 _ _ _ _ Hxb E).
Qed.

Lemma reconstruct_q_ok junk :
  (2 <= rm_firstdatacol rm)%nat -> (rm_cols rm <= 255)%nat -> has_parity m rm 1 -> bytes junk -> length junk = xsize ->
  vdev_raidz_reconstruct_q (set_abd rm x junk) x = Ret (rm, 2).
Proof using Hwf Hx Hxc Hxl.
  intros Hf Hcols Hpar Hjb Hjl. destruct x_words as (kx & Hkx & Hx1 & Hx2 & Hx3 & Hxd & Hxb).
  unfold vdev_raidz_reconstruct_q, VDEV_RAIDZ_Q.
  destruct (wf_col m rm 1 Hwf ltac:(lia)) as [qc Hqc].
  destruct (wf_parity m rm Hwf 1 qc ltac:(lia) Hqc) as (Hqb & Hqs & Hql).
  rewrite (get_set_eq _ _ _ _ Hxc), (get_set_ne rm x junk 1), (get_col_ok _ _ _ Hqc) by lia.
  cbn [mbind result_bind rc_size col_abd]. rewrite (proj2 (Z.leb_le (rc_size xc) _)) by lia. cbn [verify mbind result_bind].
  set (f := fun i j => horner mul2 (row (datas_to (lost rm x) i) j)).
  cbn [set_abd set_cols rm_cols rm_firstdatacol].
  match goal with |- context [for_loop ?n ?c ?body ?a] =>
    destruct (for_loop_inv (rec_inv f (S (rm_firstdatacol rm))) n c body a) as (rm' & -> & acc & -> & Hl & Hb & Hacc) end.
  - intros i rm' Hi (acc & -> & Hl & Hb & Hacc).
    destruct (wf_col m rm i Hwf ltac:(lia)) as [rc Hrc].
    destruct (lost_src acc i rc kx) as (rc' & src & k & Hget & Hsl & Hk & Hsb & Hsz & Hv & Ht & Hla & Hn); [lia|done..|].
    rewrite Hget, (get_set_eq _ _ _ _ Hxc). cbn [mbind result_bind rc_size rc_abd col_abd]. rewrite Hsz, Hx2.
    assert (forall base, length base = xsize -> bytes base ->
      (forall j, (j < xsize)%nat -> base !! j = Some (f i j)) ->
      rec_inv f (S (rm_firstdatacol rm)) (S i) (set_abd rm x (step mul2 src base))) as Hstep.
    { intros base Hbl Hbb Hbj. eexists. split; [done|].
      split_and!; [rewrite length_step; lia|auto with verif|]. intros _ j Hj. rewrite (step_lookup _ _ _ _ _ (Hbj j Hj)).
      f_equal. unfold f. rewrite (lost_snoc rm x i rc), Hn by (done || lia).
      unfold row. rewrite fmap_app. cbn [fmap list_fmap]. by rewrite horner_snoc. }
    change (rm_firstdatacol (set_abd rm x acc)) with (rm_firstdatacol rm).
    destruct (Nat.eqb_spec i (rm_firstdatacol rm)) as [->|Hne].
    + rewrite <- Hx1, <- Hl. pose proof (reconst_q_first src (rc_abd rc') k acc Ht Hla ltac:(lia)) as Hq1.
      apply bind_Ret in Hq1 as (d & -> & Hd). cbn [mbind result_bind]. rewrite Hd. cbn [mbind result_bind].
      rewrite set_set_abd. eexists. split; [done|]. apply Hstep; auto with verif.
      { by rewrite length_replicate. }
      intros j Hj. rewrite lookup_replicate_2 by lia. unfold f.
      change (rm_firstdatacol rm) with (rm_firstdatacol (lost rm x)). by rewrite datas_to_first.
    + rewrite (proj2 (Nat.leb_le (8 * k) (8 * kx))) by lia. cbn [verify mbind result_bind].
      rewrite Hv, !view_ok, drop_0 by lia. cbn [mbind result_bind]. rewrite (take_ge (drop _ _)) by (rewrite length_drop; lia).
      destruct (reconst_q_step src k kx acc) as (ws & -> & Hw); [done|done|lia|done..|]. cbn [mbind result_bind].
      rewrite (drop_ge acc (8 * kx)) by lia. rewrite app_nil_r, Hw, set_set_abd. eexists. split; [done|].
      apply Hstep; [done..|]. apply Hacc. lia.
  - exists junk. split_and!; try done. lia.
  - specialize (Hacc ltac:(lia)). cbn [mbind result_bind].
    rewrite (get_set_ne rm x acc 1), (get_col_ok _ _ _ Hqc), (get_set_eq _ _ _ _ Hxc) by lia.
    cbn [mbind result_bind rc_abd rc_size col_abd set_abd set_cols rm_cols].
    unfold col_data. cbn [rc_abd rc_size col_abd]. rewrite Hx2, view_ok, drop_0 by lia. cbn [mbind result_bind].
    rewrite take_ge by lia.
    replace (255 - (Z.of_nat (rm_cols rm) - 1 - Z.of_nat x)) with (Z.of_nat (255 - (rm_cols rm - 1 - x))) by lia.
    rewrite (q_post_ok _ kx) by (done || lia || rewrite Hql, Nat.mul_comm; apply Nat.Div0.mod_mul).
    cbn [mbind result_bind]. rewrite drop_ge, app_nil_r by lia.
    change (set_cols rm (alter (col_abd acc) x (rm_col rm))) with (set_abd rm x acc). rewrite set_set_abd.
    rewrite rebuilt; [done| |].
    + rewrite length_fmap, length_zip_with. lia.
    + intros j Hj.
      apply q_last; [done|]. apply lookup_zip_with_Some. eexists _, _. split_and!; [done| |].
      * rewrite Hacc by done. unfold f.
        by replace (rm_firstdatacol rm + (rm_cols rm - rm_firstdatacol rm))%nat with (rm_cols rm) by lia.
      * rewrite (Hpar qc Hqc), par_lookup by lia. done.
Qed.
End lost_column.

(** ** Two lost columns *)

Lemma pq_solve ea eb kx ky a b :
  byte a -> byte b ->
  (forall v, byte v -> Z.lxor (mulp ea v) (mulp (eb + kx) v) = v /\ mulp ea v = mulp (eb + ky) v) ->
  Z.lxor (mulp ea (Z.lxor a b)) (mulp eb (Z.lxor (mulp kx a) (mulp ky b))) = a.
Proof.
  intros Ha Hb H. destruct (H a Ha) as [H1 _]. destruct (H b Hb) as [_ H2].
  rewrite !mulp_lxor, <- !mulp_add, H2, Z.lxor_assoc.
  rewrite (Z.lxor_comm (mulp (eb + kx) a)), <- (Z.lxor_assoc (mulp (eb + ky) b)), Z.lxor_nilpotent, Z.lxor_0_l. exact H1.
Qed.

Definition rpq_drop (n : nat) (rpq : reconst_pq_struct) : reconst_pq_struct :=
  ReconstPq (drop n (rpq_p rpq)) (drop n (rpq_q rpq)) (drop n (rpq_pxy rpq)) (drop n (rpq_qxy rpq)) (aexp rpq) (bexp rpq).

(** Room for [n] more bytes under the four pointers. *)
Definition rpq_room (n : nat) (rpq : reconst_pq_struct) : Prop :=
  (n <= length (rpq_p rpq))%nat /\ (n <= length (rpq_q rpq))%nat /\
  (n <= length (rpq_pxy rpq))%nat /\ (n <= length (rpq_qxy rpq))%nat /\
  bytes (rpq_p rpq) /\ bytes (rpq_q rpq) /\ bytes (rpq_pxy rpq) /\ bytes (rpq_qxy rpq).

(** The byte of column [x] at a position. *)
Definition x_at (ea eb : nat) (rpq : reconst_pq_struct) (j : nat) : Z :=
  Z.lxor (mulp ea (Z.lxor (nth j (rpq_p rpq) 0) (nth j (rpq_pxy rpq) 0)))
         (mulp eb (Z.lxor (nth j (rpq_q rpq) 0) (nth j (rpq_qxy rpq) 0))).

Lemma rpq_next_ok n rpq ea eb :
  rpq_room (S n) rpq -> aexp rpq = Z.of_nat ea -> bexp rpq = Z.of_nat eb -> (ea <= 255)%nat -> (eb <= 255)%nat ->
  exists p q u v, rpq_next rpq = Ret (p, q, u, v, rpq_drop 1 rpq) /\ rpq_room n (rpq_drop 1 rpq) /\
    nth 0 (rpq_p rpq) 0 = p /\ nth 0 (rpq_pxy rpq) 0 = u /\
    rpq_x rpq p q u v = Ret (x_at ea eb rpq 0).
Proof.
  destruct rpq as [ps qs us vs ? ?]. intros (H1 & H2 & H3 & H4 & B1 & B2 & B3 & B4) Ea Eb Hea Heb. cbn in *. subst.
  destruct ps as [|p ps], qs as [|q qs], us as [|u us], vs as [|v vs]; cbn in *; try lia.
  apply Forall_cons in B1 as [], B2 as [], B3 as [], B4 as [].
  exists p, q, u, v. split_and!; try done.
  - unfold rpq_room. cbn. rewrite !drop_0. split_and!; done || lia.
  - unfold rpq_x. cbn [aexp bexp].
    rewrite !exp2_mulp by (try lia; apply lxor_byte; done). done.
Qed.

Lemma x_at_S ea eb rpq j : x_at ea eb (rpq_drop 1 rpq) j = x_at ea eb rpq (S j).
Proof. unfold x_at. cbn. by destruct (rpq_p rpq), (rpq_q rpq), (rpq_pxy rpq), (rpq_qxy rpq); destruct j. Qed.

Lemma rpq_drop_S n rpq : rpq_drop n (rpq_drop 1 rpq) = rpq_drop (S n) rpq.
Proof. unfold rpq_drop. cbn [rpq_p rpq_q rpq_pxy rpq_qxy aexp bexp]. by rewrite !drop_drop. Qed.

Lemma x_at_drop ea eb n rpq j : x_at ea eb (rpq_drop n rpq) j = x_at ea eb rpq (n + j).
Proof. unfold x_at, rpq_drop. cbn. by rewrite !nth_lookup, !lookup_drop. Qed.

Lemma rpq_room_drop n k rpq : rpq_room (n + k) rpq -> rpq_room k (rpq_drop n rpq).
Proof.
  intros (H1 & H2 & H3 & H4 & B1 & B2 & B3 & B4). unfold rpq_room. cbn. rewrite !length_drop.
  split_and!; auto with verif; lia.
Qed.

Lemma reconst_pq_ok ea eb n rpq :
  rpq_room n rpq -> aexp rpq = Z.of_nat ea -> bexp rpq = Z.of_nat eb -> (ea <= 255)%nat -> (eb <= 255)%nat ->
  vdev_raidz_reconst_pq_func n rpq =
    Ret (x_at ea eb rpq <$> seq 0 n,
         (fun j => Z.lxor (Z.lxor (nth j (rpq_p rpq) 0) (nth j (rpq_pxy rpq) 0)) (x_at ea eb rpq j)) <$> seq 0 n,
         rpq_drop n rpq).
Proof.
  revert rpq. induction n as [|n IH]; intros rpq Hr Ea Eb Hea Heb.
  - by destruct rpq.
  - destruct (rpq_next_ok n rpq ea eb) as (p & q & u & v & Hn & Hr' & <- & <- & Hx); [done..|].
    cbn [vdev_raidz_reconst_pq_func]. rewrite Hn. cbn [mbind result_bind]. rewrite Hx. cbn [mbind result_bind].
    rewrite IH by done. cbn [mbind result_bind]. rewrite rpq_drop_S. cbn [seq]. rewrite !fmap_cons, <- !fmap_S_seq, <- !list_fmap_compose.
    do 4 f_equal; apply list_fmap_ext; intros _ j _; cbn; rewrite x_at_S; [done|].
    f_equal. by destruct (rpq_p rpq), (rpq_pxy rpq); destruct j.
Qed.

Lemma reconst_pq_tail_ok ea eb n rpq :
  rpq_room n rpq -> aexp rpq = Z.of_nat ea -> bexp rpq = Z.of_nat eb -> (ea <= 255)%nat -> (eb <= 255)%nat ->
  vdev_raidz_reconst_pq_tail_func n rpq = Ret (x_at ea eb rpq <$> seq 0 n, rpq_drop n rpq).
Proof.
  revert rpq. induction n as [|n IH]; intros rpq Hr Ea Eb Hea Heb.
  - by destruct rpq.
  - destruct (rpq_next_ok n rpq ea eb) as (p & q & u & v & Hn & Hr' & _ & _ & Hx); [done..|].
    cbn [vdev_raidz_reconst_pq_tail_func]. rewrite Hn. cbn [mbind result_bind]. rewrite Hx. cbn [mbind result_bind].
    rewrite IH by done. cbn [mbind result_bind]. rewrite rpq_drop_S. cbn [seq]. rewrite !fmap_cons, <- !fmap_S_seq, <- !list_fmap_compose.
    do 3 f_equal; apply list_fmap_ext; intros _ j _; cbn; by rewrite x_at_S.
Qed.

Lemma lookup_set_abd rm c a i :
  rm_col (set_abd rm c a) !! i = if decide (i = c) then col_abd a <$> rm_col rm !! i else rm_col rm !! i.
Proof. cbn. case_decide; [subst; by rewrite list_lookup_alter_eq|by rewrite list_lookup_alter_ne]. Qed.
Lemma lookup_set_size rm c a i :
  rm_col (set_size rm c a) !! i = if decide (i = c) then col_size a <$> rm_col rm !! i else rm_col rm !! i.
Proof. cbn. case_decide; [subst; by rewrite list_lookup_alter_eq|by rewrite list_lookup_alter_ne]. Qed.
Lemma lookup_with_parity2 rm u v i :
  rm_col (with_parity rm [u; v]) !! i =
    if decide (i = 0%nat) then col_abd u <$> rm_col rm !! i
    else if decide (i = 1%nat) then col_abd v <$> rm_col rm !! i else rm_col rm !! i.
Proof. cbn. destruct (rm_col rm) as [|c0 [|c1 cs]], i as [|[|i]]; done. Qed.

(** A column of a map built from another one. *)
Ltac cols_rw := repeat (rewrite lookup_set_abd || rewrite lookup_set_size || rewrite lookup_with_parity2).
Ltac lookup_cols :=
  cols_rw;
  repeat (case_decide; try lia; subst);
  repeat match goal with H : rm_col _ !! _ = Some _ |- _ => rewrite H end; try done.

Lemma datas_ext rm1 rm2 :
  rm_cols rm1 = rm_cols rm2 -> rm_firstdatacol rm1 = rm_firstdatacol rm2 ->
  (forall c, (rm_firstdatacol rm1 <= c)%nat -> data_of <$> rm_col rm1 !! c = data_of <$> rm_col rm2 !! c) ->
  datas rm1 = datas rm2.
Proof.
  intros Hc Hf Hd. unfold datas, datas_to. rewrite <- Hc, <- Hf. apply list_eq. intros i. rewrite !list_lookup_fmap.
  destruct (decide (i < rm_cols rm1 - rm_firstdatacol rm1)%nat) as [Hi|Hi].
  - rewrite !lookup_take_lt, !lookup_drop by done. apply Hd. lia.
  - by rewrite !lookup_take_ge by lia.
Qed.

Lemma rm_ext rm1 rm2 : set_cols rm1 (rm_col rm2) = rm2 -> (forall i, rm_col rm1 !! i = rm_col rm2 !! i) -> rm1 = rm2.
Proof. intros H Hi. apply list_eq in Hi. destruct rm1, rm2. cbn in *. unfold set_cols in H. cbn in H. by rewrite Hi. Qed.

Lemma seq_rebuild (F : nat -> Z) (d : list Z) :
  (forall j, (j < length d)%nat -> F j = nth j d 0) -> F <$> seq 0 (length d) = d.
Proof.
  intros H. apply list_eq. intros j. rewrite list_lookup_fmap. destruct (decide (j < length d)%nat) as [Hj|Hj].
  - rewrite lookup_seq_lt by done. cbn. rewrite H, nth_lookup by done.
    by destruct (lookup_lt_is_Some_2 d j Hj) as [b ->].
  - rewrite lookup_seq_ge, (lookup_ge_None_2 d) by lia. done.
Qed.

Section lost_two.
Context (m : nat) (rm : raidz_map) (x y : nat) (pc qc xc yc : raidz_col) (jx jy : list Z) (alloc : Z -> list Z).
Context (Hwf : raidz_wf m rm) (Hf : (2 <= rm_firstdatacol rm)%nat).
Context (Hxy : (rm_firstdatacol rm <= x < y)%nat) (Hy : (y < rm_cols rm <= 255)%nat).
Context (Hpc : rm_col rm !! 0%nat = Some pc) (Hqc : rm_col rm !! 1%nat = Some qc).
Context (Hxc : rm_col rm !! x = Some xc) (Hyc : rm_col rm !! y = Some yc).
Context (Hxl : Z.of_nat (length (rc_abd xc)) = rc_size xc) (Hyl : Z.of_nat (length (rc_abd yc)) = rc_size yc).
Context (Hle : (length (rc_abd yc) <= length (rc_abd xc))%nat).
Context (Hp : has_parity m rm 0) (Hq : has_parity m rm 1).
Context (Hjx : bytes jx) (Hjxl : length jx = length (rc_abd xc)).
Context (Hjy : bytes jy) (Hjyl : length jy = length (rc_abd yc)).
Context (Halloc : forall n, bytes (alloc n) /\ length (alloc n) = Z.to_nat n).

(** The map the two columns are lost from, and the one parity is computed
    for without them. *)
Definition holed : raidz_map := set_abd (set_abd rm x jx) y jy.
Definition work : raidz_map :=
  set_size (set_size (set_abd (set_abd holed 0 (alloc (rc_size pc))) 1 (alloc (rc_size qc))) x 0) y 0.

Lemma work_wf : raidz_wf m work.
Proof using All.
  pose proof (wf_cols m rm Hwf) as Hc. split.
  - cbn. rewrite !length_alter. done.
  - intros c rc Hlt Hrc. change (rm_firstdatacol work) with (rm_firstdatacol rm) in Hlt.
    revert Hrc. unfold work, holed. cols_rw.
    destruct (wf_col m rm c Hwf ltac:(lia)) as [rc0 Hrc0]. rewrite Hrc0.
    pose proof (wf_parity m rm Hwf c rc0 Hlt Hrc0) as (Hb & Hs & Hl).
    repeat (case_decide; try lia); intros [= <-]; unfold parity_ok; cbn [rc_abd rc_size col_abd].
    + subst c. simplify_eq. destruct (Halloc (rc_size qc)) as [? ->]. split_and!; [done|done|lia].
    + subst c. simplify_eq. destruct (Halloc (rc_size pc)) as [? ->]. split_and!; [done|done|lia].
    + done.
  - intros c rc Hlt Hrc. change (rm_firstdatacol work) with (rm_firstdatacol rm) in Hlt.
    change (rm_cols work) with (rm_cols rm) in Hlt.
    revert Hrc. unfold work, holed. cols_rw.
    destruct (wf_col m rm c Hwf ltac:(lia)) as [rc0 Hrc0]. rewrite Hrc0.
    pose proof (wf_data m rm Hwf c rc0 Hlt Hrc0) as Hd.
    repeat (case_decide; try lia); intros [= <-]; [| |done]; (split; [done|exists 0%nat; cbn; lia]).
Qed.

Lemma work_datas :
  datas work = <[(y - rm_firstdatacol rm)%nat := []]> (<[(x - rm_firstdatacol rm)%nat := []]> (datas rm)).
Proof using All.
  rewrite <- datas_lost by lia. change (rm_firstdatacol rm) with (rm_firstdatacol (lost rm x)).
  rewrite <- datas_lost by (cbn; lia). apply datas_ext; [done..|]. intros c Hc.
  change (rm_firstdatacol work) with (rm_firstdatacol rm) in Hc.
  unfold work, holed, lost. lookup_cols.
Qed.

Notation kx := (rm_cols rm - 1 - x)%nat.
Notation ky := (rm_cols rm - 1 - y)%nat.
Notation dx j := (nth j (rc_abd xc) 0).
Notation dy j := (nth j (rc_abd yc) 0).

(** The parity and the parity without the two columns differ by their
    terms. *)
Lemma pxy_diff k j :
  Z.lxor (psum k (row (datas rm) j)) (psum k (row (datas work) j)) =
    Z.lxor (mulp (k * kx) (dx j)) (mulp (k * ky) (dy j)).
Proof using All.
  destruct (datas_wf m rm Hwf) as (_ & _ & Hdl).
  assert (data_of xc = rc_abd xc /\ data_of yc = rc_abd yc) as [Hdx Hdy] by (unfold data_of; split; apply take_ge; lia).
  pose proof (datas_lookup rm x xc ltac:(lia) Hxc) as Hix. pose proof (datas_lookup rm y yc ltac:(lia) Hyc) as Hiy.
  rewrite (psum_lost k (datas rm) _ _ j Hix), work_datas.
  rewrite (psum_lost k (<[(x - rm_firstdatacol rm)%nat:=[]]> (datas rm)) (y - rm_firstdatacol rm) (data_of yc) j)
    by (rewrite list_lookup_insert_ne by lia; done).
  rewrite length_insert, Hdl, Hdx, Hdy, Z.lxor_assoc, Z.lxor_assoc, Z.lxor_nilpotent, Z.lxor_0_r.
  replace (rm_cols rm - rm_firstdatacol rm - 1 - (x - rm_firstdatacol rm))%nat with kx by lia.
  by replace (rm_cols rm - rm_firstdatacol rm - 1 - (y - rm_firstdatacol rm))%nat with ky by lia.
Qed.

Definition rpq0 (ea eb : nat) : reconst_pq_struct :=
  ReconstPq (rc_abd pc) (rc_abd qc) (par (fun x => x) (8 * m) (datas work)) (par mul2 (8 * m) (datas work))
    (Z.of_nat ea) (Z.of_nat eb).

Lemma nth_par M ds j : (j < 8 * m)%nat -> nth j (par M (8 * m) ds) 0 = horner M (row ds j).
Proof using. intros Hj. by rewrite nth_lookup, par_lookup by done. Qed.

Lemma p_diff ea eb j : (j < 8 * m)%nat ->
  Z.lxor (nth j (rpq_p (rpq0 ea eb)) 0) (nth j (rpq_pxy (rpq0 ea eb)) 0) = Z.lxor (dx j) (dy j).
Proof using All.
  intros Hj. cbn [rpq0 rpq_p rpq_pxy]. rewrite (Hp pc Hpc), !nth_par by done. change (fun x => x) with (mulp 0).
  rewrite !horner_psum. apply (pxy_diff 0).
Qed.

Lemma x_at_ok ea eb j : (j < 8 * m)%nat ->
  (forall v, byte v -> Z.lxor (mulp ea v) (mulp (eb + kx) v) = v /\ mulp ea v = mulp (eb + ky) v) ->
  x_at ea eb (rpq0 ea eb) j = dx j.
Proof using All.
  intros Hj H. unfold x_at. rewrite p_diff by done. cbn [rpq0 rpq_q rpq_qxy].
  rewrite (Hq qc Hqc), !nth_par by done. change mul2 with (mulp 1). rewrite !horner_psum, (pxy_diff 1), !Nat.mul_1_l.
  assert (forall c rc, (rm_firstdatacol rm <= c < rm_cols rm)%nat -> rm_col rm !! c = Some rc -> byte (nth j (rc_abd rc) 0)) as Hb.
  { intros c rc Hc Hrc. destruct (wf_data m rm Hwf c rc Hc Hrc) as [Hb _]. rewrite nth_lookup.
    destruct (rc_abd rc !! j) as [b|] eqn:E; [exact (Forall_lookup_1 _ _ _ _ Hb E)|unfold byte; cbn; lia]. }
  apply pq_solve; [apply (Hb x); [lia|done]|apply (Hb y); [lia|done]|done].
Qed.

Lemma rpq0_room ea eb n : (n <= 8 * m)%nat -> rpq_room n (rpq0 ea eb).
Proof using All.
  intros Hn. destruct (wf_parity m rm Hwf 0 pc ltac:(lia) Hpc) as (Hpb & _ & Hpl).
  destruct (wf_parity m rm Hwf 1 qc ltac:(lia) Hqc) as (Hqb & _ & Hql).
  destruct (datas_wf m work work_wf) as (Hdl & Hdb & _).
  unfold rpq_room, rpq0. cbn [rpq_p rpq_q rpq_pxy rpq_qxy].
  rewrite Hpl, Hql, !par_length by done. split_and!; try done; apply par_bytes; auto with verif.
Qed.

Lemma sizes : (length (rc_abd xc) <= 8 * m)%nat.
Proof using All. destruct (wf_data m rm Hwf x xc ltac:(lia) Hxc) as (_ & k & Hk & Hs & _). lia. Qed.

(** The two runs together rebuild column [x]; the first rebuilds [y]. *)
Lemma rebuilt_x ea eb :
  (forall v, byte v -> Z.lxor (mulp ea v) (mulp (eb + kx) v) = v /\ mulp ea v = mulp (eb + ky) v) ->
  (x_at ea eb (rpq0 ea eb) <$> seq 0 (length (rc_abd yc))) ++
    (x_at ea eb (rpq_drop (length (rc_abd yc)) (rpq0 ea eb)) <$> seq 0 (length (rc_abd xc) - length (rc_abd yc))) = rc_abd xc.
Proof using All.
  intros H. pose proof sizes as Hsz.
  rewrite (list_fmap_ext _ (x_at ea eb (rpq0 ea eb) ∘ Nat.add (length (rc_abd yc))) (seq 0 (length (rc_abd xc) - length (rc_abd yc))))
    by (intros _ j _; apply x_at_drop).
  rewrite list_fmap_compose, fmap_add_seq, Nat.add_0_r, <- fmap_app.
  rewrite <- (seq_app (length (rc_abd yc)) _ 0).
  replace (length (rc_abd yc) + (length (rc_abd xc) - length (rc_abd yc)))%nat with (length (rc_abd xc)) by lia.
  apply seq_rebuild. intros j Hj. apply x_at_ok; [lia|done].
Qed.

Lemma rebuilt_y ea eb :
  (forall v, byte v -> Z.lxor (mulp ea v) (mulp (eb + kx) v) = v /\ mulp ea v = mulp (eb + ky) v) ->
  (fun j => Z.lxor (Z.lxor (nth j (rpq_p (rpq0 ea eb)) 0) (nth j (rpq_pxy (rpq0 ea eb)) 0)) (x_at ea eb (rpq0 ea eb) j))
    <$> seq 0 (length (rc_abd yc)) = rc_abd yc.
Proof using All.
  intros H. pose proof sizes as Hsz. apply seq_rebuild. intros j Hj.
  rewrite p_diff, x_at_ok by (done || lia). by rewrite Z.lxor_comm, <- Z.lxor_assoc, Z.lxor_nilpotent, Z.lxor_0_l.
Qed.

Lemma reconstruct_pq_ok : vdev_raidz_reconstruct_pq alloc holed x y = Ret (rm, 3).
Proof using All.
  destruct (pq_exps_ok (rm_cols rm) x y) as (ea & eb & Hexp & Hea & Heb & Hsolve); [lia..|].
  assert (rm_col holed !! 0%nat = Some pc) as Hp0 by (unfold holed; lookup_cols).
  assert (rm_col holed !! 1%nat = Some qc) as Hq0 by (unfold holed; lookup_cols).
  assert (rm_col holed !! x = Some (col_abd jx xc)) as Hx0 by (unfold holed; lookup_cols).
  assert (rm_col holed !! y = Some (col_abd jy yc)) as Hy0 by (unfold holed; lookup_cols).
  unfold vdev_raidz_reconstruct_pq, VDEV_RAIDZ_P, VDEV_RAIDZ_Q.
  cbn [rm_firstdatacol rm_cols holed set_abd set_cols].
  rewrite (proj2 (Nat.ltb_lt x y)), (proj2 (Nat.leb_le _ x)), (proj2 (Nat.ltb_lt y _)) by lia. cbn [verify mbind result_bind].
  rewrite (get_col_ok _ _ _ Hp0), (get_col_ok _ _ _ Hq0), (get_col_ok _ _ _ Hx0), (get_col_ok _ _ _ Hy0).
  cbn [mbind result_bind rc_size rc_abd col_abd]. rewrite (proj2 (Z.leb_le (rc_size yc) _)) by lia.
  cbn [verify mbind result_bind]. fold work. rewrite (generate_pq m work work_wf) by done.
  cbn [mbind result_bind].
  set (W := with_parity _ _). set (S := set_size (set_size W x (rc_size xc)) y (rc_size yc)).
  assert (rm_col S !! 0%nat = Some (col_abd (par (fun x => x) (8 * m) (datas work)) pc)) as Hs0
    by (unfold S, W, work; lookup_cols).
  assert (rm_col S !! 1%nat = Some (col_abd (par mul2 (8 * m) (datas work)) qc)) as Hs1
    by (unfold S, W, work; lookup_cols).
  assert (rm_col S !! x = Some (col_abd jx xc)) as Hsx by (unfold S, W, work; lookup_cols).
  assert (rm_col S !! y = Some (col_abd jy yc)) as Hsy by (unfold S, W, work; lookup_cols).
  rewrite (get_col_ok _ _ _ Hs0), (get_col_ok _ _ _ Hs1), (get_col_ok _ _ _ Hsx), (get_col_ok _ _ _ Hsy).
  cbn [mbind result_bind rc_size rc_abd col_abd]. change (rm_cols S) with (rm_cols rm). rewrite Hexp. cbn [mbind result_bind].
  rewrite (proj2 (Nat.leb_le (Z.to_nat (rc_size yc)) _)) by lia. cbn [verify mbind result_bind].
  fold (rpq0 ea eb). rewrite !view_ok by lia. cbn [mbind result_bind].
  replace (Z.to_nat (rc_size xc)) with (length (rc_abd xc)) by lia.
  replace (Z.to_nat (rc_size yc)) with (length (rc_abd yc)) by lia. pose proof sizes as Hsz.
  rewrite (reconst_pq_ok ea eb) by (done || apply rpq0_room; lia). cbn [mbind result_bind].
  rewrite (reconst_pq_tail_ok ea eb) by (done || apply rpq_room_drop, rpq0_room; lia). cbn [mbind result_bind].
  rewrite app_assoc, rebuilt_x, rebuilt_y, !drop_ge, !app_nil_r by (done || lia).
  do 2 f_equal. apply rm_ext; [unfold S, W, work, holed; clear; by destruct rm|]. intros i. unfold S, W, work, holed. cols_rw.
  repeat (case_decide; subst; try lia; simplify_eq); rewrite ?Hpc, ?Hqc, ?Hxc, ?Hyc; cbn; try done.
  all: by destruct xc, yc, pc, qc.
Qed.
End lost_two.

(** ** What a generated map can lose *)

Lemma generated m rm rm' :
  raidz_wf m rm -> (1 <= rm_firstdatacol rm <= 3)%nat -> first_full m rm ->
  vdev_raidz_generate_parity rm = Ret rm' ->
  raidz_wf m rm' /\ rm_firstdatacol rm' = rm_firstdatacol rm /\ rm_cols rm' = rm_cols rm /\
  (forall c, (rm_firstdatacol rm <= c)%nat -> rm_col rm' !! c = rm_col rm !! c) /\
  (forall c, (c < rm_firstdatacol rm)%nat -> has_parity m rm' c).
Proof.
  intros Hwf Hf Hfull. rewrite (generate_ok m) by done. intros [= <-].
  set (ps := _ <$> seq _ _). assert (length ps = rm_firstdatacol rm) as Hps by (unfold ps; by rewrite length_fmap, length_seq).
  assert (forall c, (c < rm_firstdatacol rm)%nat -> ps !! c = Some (par (parity_mul c) (8 * m) (datas rm))) as Hpc.
  { intros c Hc. unfold ps. by rewrite list_lookup_fmap, lookup_seq_lt by lia. }
  assert (forall c, (rm_firstdatacol rm <= c)%nat -> rm_col (with_parity rm ps) !! c = rm_col rm !! c) as Hge.
  { intros c Hc. apply put_abds_ge. lia. }
  assert (datas (with_parity rm ps) = datas rm) as Hd.
  { apply datas_ext; [done..|]. intros c Hc. change (rm_firstdatacol (with_parity rm ps)) with (rm_firstdatacol rm) in Hc. by rewrite Hge. }
  destruct (datas_wf m rm Hwf) as (Hdl & Hdb & _). pose proof (wf_cols m rm Hwf) as Hc.
  assert (forall c rc, (c < rm_firstdatacol rm)%nat -> rm_col (with_parity rm ps) !! c = Some rc ->
    exists rc0, rm_col rm !! c = Some rc0 /\ rc = col_abd (par (parity_mul c) (8 * m) (datas rm)) rc0) as Hlt.
  { intros c rc Hlt Hrc. destruct (wf_col m rm c Hwf ltac:(lia)) as [rc0 Hrc0]. exists rc0. split; [done|].
    pose proof (put_abds_lt ps _ c _ rc0 (Hpc c Hlt) Hrc0) as H. cbn [rm_col with_parity set_cols] in Hrc. congruence. }
  split_and!; try done.
  - split.
    + cbn [rm_cols rm_firstdatacol rm_col with_parity set_cols]. split; [lia|].
      assert (forall ps cols, length (put_abds ps cols) = length cols) as ->; [|lia].
      intros ps'; induction ps' as [|p ps' IH]; intros [|rc cols]; cbn; try done. by rewrite IH.
    + intros c rc Hcf Hrc. change (rm_firstdatacol (with_parity rm ps)) with (rm_firstdatacol rm) in Hcf.
      destruct (Hlt c rc Hcf Hrc) as (rc0 & Hrc0 & ->). destruct (wf_parity m rm Hwf c rc0 Hcf Hrc0) as (_ & Hs & _).
      split_and!; [|done|by apply par_length]. apply par_bytes; [|done]. intros b Hb. by apply mulp_byte.
    + intros c rc Hcr Hrc. change (rm_firstdatacol (with_parity rm ps)) with (rm_firstdatacol rm) in Hcr.
      rewrite Hge in Hrc by lia. by apply (wf_data m rm Hwf c rc).
  - intros c Hcf rc Hrc. destruct (Hlt c rc Hcf Hrc) as (rc0 & _ & ->). rewrite Hd. done.
Qed.

(** One lost column is rebuilt.  After parity was generated, a data column
    [x] that is not empty and whose bytes were replaced by any others is rebuilt from the first
    parity column, and from the second if there is one: the map is exactly as
    it was, and the code says which parity column was used. *)
Theorem raidz_one_lost m rm rm' x xc junk :
  raidz_wf m rm -> (1 <= rm_firstdatacol rm <= 3)%nat -> first_full m rm ->
  vdev_raidz_generate_parity rm = Ret rm' ->
  (rm_firstdatacol rm <= x < rm_cols rm)%nat -> rm_col rm !! x = Some xc ->
  Z.of_nat (length (rc_abd xc)) = rc_size xc -> 0 < rc_size xc ->
  bytes junk -> length junk = length (rc_abd xc) ->
  vdev_raidz_reconstruct_p (set_abd rm' x junk) x = Ret (rm', 1) /\
  ((2 <= rm_firstdatacol rm)%nat -> (rm_cols rm <= 255)%nat ->
   vdev_raidz_reconstruct_q (set_abd rm' x junk) x = Ret (rm', 2)).
Proof.
  intros Hwf Hf Hfull Hgen Hx Hxc Hxl Hpos Hjb Hjl.
  destruct (generated m rm rm' Hwf Hf Hfull Hgen) as (Hwf' & Hf' & Hc' & Hge & Hpar).
  rewrite <- Hge in Hxc by lia. rewrite <- Hf', <- Hc' in *. split.
  - apply (reconstruct_p_ok m rm' x xc); try done; [lia|apply Hpar; lia].
  - intros H2 H255. apply (reconstruct_q_ok m rm' x xc); try done. apply Hpar. lia.
Qed.

(** Two lost columns are rebuilt.  With at least two parity columns and at
    most 255 columns, data columns [x < y] whose bytes were replaced by any
    others are rebuilt from the first two parity columns, whatever the memory
    of the temporary buffers held, and the map is exactly as it was. *)
Theorem raidz_two_lost alloc m rm rm' x y xc yc jx jy :
  (forall n, bytes (alloc n) /\ length (alloc n) = Z.to_nat n) ->
  raidz_wf m rm -> (2 <= rm_firstdatacol rm <= 3)%nat -> first_full m rm ->
  vdev_raidz_generate_parity rm = Ret rm' ->
  (rm_firstdatacol rm <= x < y)%nat -> (y < rm_cols rm <= 255)%nat ->
  rm_col rm !! x = Some xc -> rm_col rm !! y = Some yc ->
  Z.of_nat (length (rc_abd xc)) = rc_size xc -> Z.of_nat (length (rc_abd yc)) = rc_size yc ->
  (length (rc_abd yc) <= length (rc_abd xc))%nat ->
  bytes jx -> length jx = length (rc_abd xc) -> bytes jy -> length jy = length (rc_abd yc) ->
  vdev_raidz_reconstruct_pq alloc (set_abd (set_abd rm' x jx) y jy) x y = Ret (rm', 3).
Proof.
  intros Hal Hwf Hf Hfull Hgen Hxy Hy Hxc Hyc Hxl Hyl Hle Hjx Hjxl Hjy Hjyl.
  destruct (generated m rm rm' Hwf ltac:(lia) Hfull Hgen) as (Hwf' & Hf' & Hc' & Hge & Hpar).
  rewrite <- Hge in Hxc, Hyc by lia. rewrite <- Hf', <- Hc' in *.
  destruct (wf_col m rm' 0 Hwf' ltac:(lia)) as [pc Hpc]. destruct (wf_col m rm' 1 Hwf' ltac:(lia)) as [qc Hqc].
  apply (reconstruct_pq_ok m rm' x y pc qc xc yc); try done; [lia|apply Hpar; lia..].
Qed.

(** A map of one stripe of three parity and three data columns, the last one
    short. *)
Definition demo_col (d : list Z) : raidz_col := RaidzCol 0 0 (Z.of_nat (length d)) d 0 false false.
Definition demo_map : raidz_map :=
  RaidzMap 6 6 5 0 0 0 3 0 5
    (demo_col <$> [replicate 16 7; replicate 16 7; replicate 16 7;
                   [1; 2; 3; 4; 5; 6; 7; 8; 9; 10; 11; 12; 13; 14; 15; 16];
                   [17; 34; 51; 68; 85; 102; 119; 136; 153; 170; 187; 204; 221; 238; 255; 0];
                   [99; 98; 97; 96; 95; 94; 93; 92]]).

Lemma demo_map_wf : raidz_wf 2 demo_map.
Proof.
  split.
  - cbn. lia.
  - intros [|[|[|c]]] rc Hc Hrc; cbn in Hc, Hrc; try lia; injection Hrc as <-; (split_and!; [|done|done]); repeat constructor; lia.
  - intros [|[|[|[|[|[|c]]]]]] rc Hc Hrc; cbn in Hc, Hrc; try lia; injection Hrc as <-;
      (split; [repeat constructor; lia|]); [exists 2%nat|exists 2%nat|exists 1%nat]; cbn; lia.
Qed.

Definition demo_parity : raidz_map :=
  match vdev_raidz_generate_parity demo_map with Ret rm => rm | Panic => demo_map end.

Lemma demo_generated : vdev_raidz_generate_parity demo_map = Ret demo_parity.
Proof. vm_compute. reflexivity. Qed.

Lemma vdev_raidz_generate_parity_correct_witness :
  exists rm', vdev_raidz_generate_parity demo_map = Ret rm' /\
    exists rc, rm_col rm' !! 2%nat = Some rc /\ rc_abd rc !! 9%nat = Some (psum 2 [10; 170; 0]).
Proof.
  destruct (vdev_raidz_generate_parity_correct 2 demo_map) as (rm' & Hg & _ & _ & Hp).
  - apply demo_map_wf.
  - cbn. lia.
  - intros rc Hrc. by injection Hrc as <-.
  - exists rm'. split; [done|]. destruct (Hp 2%nat) as (rc & Hrc & _ & Hj); [cbn; lia|].
    exists rc. split; [done|]. apply (Hj 9%nat). lia.
Defined.

Lemma raidz_one_lost_witness :
  vdev_raidz_reconstruct_q (set_abd demo_parity 5 (replicate 8 255)) 5 = Ret (demo_parity, 2).
Proof.
  eapply (raidz_one_lost 2 demo_map demo_parity 5 _ (replicate 8 255)).
  - apply demo_map_wf.
  - cbn. lia.
  - intros rc Hrc. by injection Hrc as <-.
  - apply demo_generated.
  - cbn. lia.
  - reflexivity.
  - reflexivity.
  - cbn. lia.
  - apply Forall_replicate. lia.
  - reflexivity.
  - cbn. lia.
  - cbn. lia.
Defined.

Lemma raidz_two_lost_witness :
  vdev_raidz_reconstruct_pq (fun n => replicate (Z.to_nat n) 170)
    (set_abd (set_abd demo_parity 3 (replicate 16 0)) 5 (replicate 8 255)) 3 5 = Ret (demo_parity, 3).
Proof.
  eapply (raidz_two_lost _ 2 demo_map demo_parity 3 5).
  - intros n. split; [apply Forall_replicate; lia|apply length_replicate].
  - apply demo_map_wf.
  - cbn. lia.
  - intros rc Hrc. by injection Hrc as <-.
  - apply demo_generated.
  - cbn. lia.
  - cbn. lia.
  - reflexivity.
  - reflexivity.
  - reflexivity.
  - reflexivity.
  - cbn. lia.
  - apply Forall_replicate. lia.
  - reflexivity.
  - apply Forall_replicate. lia.
  - reflexivity.
Defined.
