(* ===== verification/RaidzAlloc.v ===== *)
(** * RAID-Z: the columns of a block

    What [vdev_raidz_map_alloc] hands to the parity code: columns on distinct
    devices that hold the data of the block in order, and the space the block
    takes up. *)

From S2P Require Import Prelude Raidz RaidzParity.

(** The number of bytes in all the columns. *)
Definition total_size (rm : raidz_map) : Z := foldr Z.add 0 (rc_size <$> rm_col rm).

Section alloc.
Context (alloc : Z -> list Z) (abd : list Z) (offset u dcols np s : Z).
Notation U := (2 ^ u).
Notation size := (s * U).
Context (Halloc : forall n, bytes (alloc n) /\ length (alloc n) = Z.to_nat n).
Context (Hu : 0 <= u <= 24) (Hnp : 1 <= np <= 3) (Hd : np < dcols <= 255).
Context (Hs : 1 <= s) (Hsize : size < 2 ^ 32) (Hoff : 0 <= offset < 2 ^ 62).
Context (Habd : Z.of_nat (length abd) = size) (Hbytes : bytes abd).

Definition aq : Z := s / (dcols - np).
Definition ar : Z := s mod (dcols - np).
Definition abc : Z := if ar =? 0 then 0 else ar + np.
Definition aacols : Z := if aq =? 0 then abc else dcols.
Definition atot : Z := aq * aacols + abc.

Lemma U_pos : 1 <= U <= 2 ^ 24.
Proof using All. split; [apply (Z.pow_le_mono_r 2 0 u); lia|apply Z.pow_le_mono_r; lia]. Qed.

Lemma s_split : s = aq * (dcols - np) + ar /\ 0 <= ar < dcols - np /\ 0 <= aq /\ (aq = 0 -> ar <> 0).
Proof using All.
  unfold aq, ar. pose proof (Z.div_mod s (dcols - np) ltac:(lia)).
  pose proof (Z.mod_pos_bound s (dcols - np) ltac:(lia)). pose proof (Z.div_pos s (dcols - np) ltac:(lia) ltac:(lia)).
  split_and!; lia.
Qed.

(** Facts of the counts: there are parity and data columns, the large ones
    come first. *)
Lemma counts :
  np + 1 <= aacols <= dcols /\ 0 <= abc <= aacols /\ (abc = 0 \/ np < abc) /\
  atot = s + np * (aq + if ar =? 0 then 0 else 1).
Proof using All.
  destruct s_split as (Hsp & Hr & Hq & H0). unfold aacols, abc, atot, aacols, abc.
  destruct (Z.eqb_spec ar 0), (Z.eqb_spec aq 0); try (exfalso; tauto); split_and!; lia.
Qed.

(** The size of column [c], the sizes of the columns before it, the device. *)
Definition csize (c : Z) : Z :=
  if c >=? aacols then 0 else if c <? abc then (aq + 1) * U else aq * U.
Definition csum (c : Z) : Z := (aq * Z.min c aacols + Z.min c abc) * U.
Definition cdev (c : Z) : Z :=
  let f := Z.shiftr offset u mod dcols in if f + c >=? dcols then f + c - dcols else f + c.
Definition coff (c : Z) : Z :=
  let f := Z.shiftr offset u mod dcols in
  let o := Z.shiftl (Z.shiftr offset u / dcols) u in if f + c >=? dcols then o + U else o.

Lemma csum_S c : 0 <= c -> csum (c + 1) = csum c + csize c.
Proof using All.
  intros Hc. destruct counts as (H1 & H2 & H3 & _). destruct s_split as (_ & _ & Hq & _). unfold csum, csize.
  rewrite Z.geb_leb. repeat split_if.
  - rewrite !Z.min_r by lia. lia.
  - rewrite !Z.min_l by lia. lia.
  - rewrite !(Z.min_r _ abc), !Z.min_l by lia. lia.
Qed.

Lemma csize_pos c : 0 <= csize c.
Proof using All.
  destruct s_split as (_ & _ & Hq & _). pose proof U_pos. unfold csize. repeat split_if; lia.
Qed.

Lemma csum_bound c : 0 <= c -> 0 <= csum c <= atot * U.
Proof using All.
  intros Hc. destruct counts as (H1 & H2 & H3 & _). destruct s_split as (_ & _ & Hq & _). pose proof U_pos.
  unfold csum, atot. assert (0 <= aq * Z.min c aacols <= aq * aacols) by nia. nia.
Qed.

Lemma tot_small : 0 <= atot * U < 2 ^ 40 /\ 0 <= atot < 2 ^ 40 /\ 0 <= aq <= s /\ 0 <= s < 2 ^ 32.
Proof using All.
  destruct counts as (H1 & H2 & H3 & Ht). destruct s_split as (Hsp & Hr & Hq & _). pose proof U_pos.
  assert (aq <= s) by nia. assert (0 <= atot <= s + 3 * (s + 1)) by (rewrite Ht; destruct (ar =? 0); nia). nia.
Qed.

(** Data start after the parity, and there are [size] bytes of it. *)
Lemma data_size : csum aacols - csum np = size /\ csum np = np * csize 0 /\
  (forall c, 0 <= c <= np -> csize c = csize 0) /\ (forall c, 0 <= c -> csize c <= csize 0).
Proof using All.
  destruct counts as (H1 & H2 & H3 & _). destruct s_split as (Hsp & Hr & Hq & H0). pose proof U_pos.
  unfold csum, csize. rewrite !Z.geb_leb.
  rewrite (Z.min_id aacols), (Z.min_r aacols abc), (Z.min_l np aacols) by lia.
  rewrite (proj2 (Z.leb_gt aacols 0)) by lia.
  destruct H3 as [Hbc|Hbc].
  - assert (ar = 0 /\ aacols = dcols) as [Hr0 Hac].
    { unfold abc, aacols in *. destruct (Z.eqb_spec ar 0); [|lia]. split; [done|]. destruct (Z.eqb_spec aq 0); [tauto|done]. }
    rewrite (Z.min_r np abc) by lia. rewrite Hbc, Hac, Z.ltb_irrefl. split_and!; [nia|lia| |].
    + intros c Hc. rewrite Z.geb_leb. repeat split_if; lia.
    + intros c Hc. rewrite Z.geb_leb. repeat split_if; nia.
  - rewrite (Z.min_l np abc) by lia. rewrite (proj2 (Z.ltb_lt 0 abc)) by lia. split_and!.
    + assert (aq * aacols + abc - (aq * np + np) = s) as Hx; [|nia].
      unfold abc, aacols, abc in *. destruct (Z.eqb_spec ar 0); [lia|]. destruct (Z.eqb_spec aq 0) as [Hq0|]; nia.
    + lia.
    + intros c Hc. rewrite Z.geb_leb, (proj2 (Z.leb_gt aacols c)), (proj2 (Z.ltb_lt c abc)) by lia. done.
    + intros c Hc. rewrite Z.geb_leb. repeat split_if; nia.
Qed.

(** The columns that are accessed are not empty. *)
Lemma csize_nonzero c : 0 <= c < aacols -> 0 < csize c.
Proof using All.
  intros Hc. destruct counts as (H1 & H2 & _). destruct s_split as (_ & _ & Hq & _). pose proof U_pos.
  unfold csize. rewrite Z.geb_leb, (proj2 (Z.leb_gt _ _)) by lia. destruct (Z.ltb_spec c abc); [nia|].
  assert (aq <> 0); [|nia]. intros E. unfold aacols in Hc. rewrite E in Hc. cbn in Hc. lia.
Qed.

Definition rup (x y : Z) : Z := (x + (y - 1)) / y * y.
Definition ascols : Z := if aq =? 0 then Z.min dcols (rup abc (np + 1)) else dcols.

Lemma rup_bounds x y : 0 <= x -> 1 <= y -> x <= rup x y < x + y.
Proof using All. intros Hx Hy. unfold rup. pose proof (Z.div_mod (x + (y - 1)) y ltac:(lia)).
  pose proof (Z.mod_pos_bound (x + (y - 1)) y ltac:(lia)). nia. Qed.

Lemma roundup_small x y : 0 <= x < 2 ^ 50 -> 1 <= y < 2 ^ 50 -> roundup x y = rup x y.
Proof using All.
  intros Hx Hy. pose proof (rup_bounds x y ltac:(lia) ltac:(lia)). unfold roundup, mul64.
  rewrite (sub64_small y 1), add64_small by (unfold u64; lia). fold (rup x y). apply wrap64_small. unfold u64. lia.
Qed.

Lemma scols_bounds : aacols <= ascols <= dcols.
Proof using All.
  destruct counts as (H1 & H2 & _). unfold ascols, aacols in *. destruct (aq =? 0); [|lia].
  pose proof (rup_bounds abc (np + 1) ltac:(lia) ltac:(lia)). lia.
Qed.

Definition base_col (c : nat) : raidz_col :=
  RaidzCol (cdev (Z.of_nat c)) (coff (Z.of_nat c)) (csize (Z.of_nat c)) [] 0 false false.
Definition col_bytes (c : nat) : list Z :=
  if Z.of_nat c <? np then alloc (csize (Z.of_nat c))
  else take (Z.to_nat (csize (Z.of_nat c))) (drop (Z.to_nat (csum (Z.of_nat c) - csum np)) abd).
Definition full_col (c : nat) : raidz_col := col_abd (col_bytes c) (base_col c).

Lemma seq_fmap_S {A} (g : nat -> A) n : g <$> seq 0 (S n) = (g <$> seq 0 n) ++ [g n].
Proof using. by rewrite seq_S, fmap_app. Qed.

Lemma first_dev : 0 <= Z.shiftr offset u mod dcols < dcols /\ 0 <= Z.shiftl (Z.shiftr offset u / dcols) u <= offset.
Proof using All.
  pose proof U_pos. split; [apply Z.mod_pos_bound; lia|].
  rewrite Z.shiftl_mul_pow2, Z.shiftr_div_pow2 by lia.
  pose proof (Z.mul_div_le offset U ltac:(lia)). pose proof (Z.div_pos offset U ltac:(lia) ltac:(lia)).
  pose proof (Z.mul_div_le (offset / U) dcols ltac:(lia)). pose proof (Z.div_pos (offset / U) dcols ltac:(lia) ltac:(lia)). nia.
Qed.

Lemma csize_small c : 0 <= c -> 0 <= csize c < 2 ^ 40.
Proof using All.
  intros Hc. pose proof (csum_S c Hc). pose proof (csum_bound (c + 1) ltac:(lia)). pose proof (csum_bound c Hc).
  pose proof (csize_pos c). destruct tot_small as (? & _). lia.
Qed.

(** The loop that sets up the columns. *)
Lemma columns_loop :
  for_loop (Z.to_nat ascols) 0 (fun c '(cols, asize) =>
    let wrapped := add64 (Z.shiftr offset u mod dcols) (Z.of_nat c) >=? dcols in
    let col := if wrapped then sub64 (add64 (Z.shiftr offset u mod dcols) (Z.of_nat c)) dcols
               else add64 (Z.shiftr offset u mod dcols) (Z.of_nat c) in
    let coff := if wrapped then add64 (shl64 (Z.shiftr offset u / dcols) u) (shl64 1 u)
                else shl64 (Z.shiftr offset u / dcols) u in
    let sz := if Z.of_nat c >=? aacols then 0
              else if Z.of_nat c <? abc then shl64 (add64 aq 1) u else shl64 aq u in
    Ret (cols ++ [RaidzCol col coff sz [] 0 false false], add64 asize sz)) ([], 0) =
  Ret (base_col <$> seq 0 (Z.to_nat ascols), csum ascols).
Proof using All.
  pose proof scols_bounds as Hsc. destruct counts as (Hc1 & Hc2 & _). pose proof U_pos as HU.
  destruct first_dev as [Hf Ho]. destruct tot_small as (Ht & _ & Hq & Hs32).
  match goal with |- for_loop ?n ?c ?body ?a = _ =>
    destruct (for_loop_inv (fun i '(cols, asize) => cols = base_col <$> seq 0 i /\ asize = csum (Z.of_nat i)) n c body a)
      as ([cols asize] & -> & -> & ->) end.
  - intros i [cols asize] Hi [-> ->].
    rewrite (add64_small (_ mod _)) by (unfold u64; lia).
    assert (forall x, 0 <= x <= aq + 1 -> shl64 x u = x * U) as Hshl.
    { intros x Hx. unfold shl64. rewrite Z.shiftl_mul_pow2 by lia. apply wrap64_small. unfold u64. nia. }
    rewrite (add64_small aq 1), (Hshl (aq + 1)), (Hshl aq), (Hshl 1) by (unfold u64; lia).
    unfold shl64. rewrite (wrap64_small (Z.shiftl (_ / _) u)) by (unfold u64; lia). rewrite Z.mul_1_l.
    rewrite (add64_small (Z.shiftl _ _)) by (unfold u64; lia).
    change (if Z.of_nat i >=? aacols then 0 else if Z.of_nat i <? abc then (aq + 1) * U else aq * U) with (csize (Z.of_nat i)).
    pose proof (csize_small (Z.of_nat i) ltac:(lia)). pose proof (csum_bound (Z.of_nat i) ltac:(lia)).
    rewrite (add64_small (csum _)) by (unfold u64; lia).
    eexists. split; [done|]. split.
    + rewrite seq_fmap_S. do 2 f_equal. unfold base_col, cdev, coff. rewrite Z.geb_leb. f_equal. split_if; [|done].
      by rewrite sub64_small by (unfold u64; lia).
    + rewrite <- csum_S by lia. f_equal. lia.
  - split; [done|]. unfold csum. rewrite !Z.min_l by lia. lia.
  - rewrite Nat.add_0_l, Z2Nat.id by lia. done.
Qed.

(** ** The buffers *)

Notation nsc := (Z.to_nat ascols).
Definition fill (i : nat) : list raidz_col :=
  (fun c => if (c <? i)%nat then full_col c else base_col c) <$> seq 0 nsc.

Lemma get_fill rm i : (i < nsc)%nat -> get_col (set_cols rm (fill i)) i = Ret (base_col i).
Proof using.
  intros Hi. apply get_col_ok. cbn [set_cols rm_col]. unfold fill.
  rewrite list_lookup_fmap, lookup_seq_lt by done. cbn [fmap option_fmap option_map Nat.add]. by rewrite Nat.ltb_irrefl.
Qed.

Lemma set_fill rm i : (i < nsc)%nat -> set_abd (set_cols rm (fill i)) i (col_bytes i) = set_cols rm (fill (S i)).
Proof using.
  intros Hi. unfold set_abd, set_cols. cbn. f_equal. apply list_eq. intros j. unfold fill.
  destruct (decide (j < nsc)%nat) as [Hj|Hj].
  2:{ rewrite !lookup_ge_None_2; rewrite ?length_alter, ?length_fmap, ?length_seq; done || lia. }
  destruct (decide (j = i)) as [->|Hne].
  - rewrite list_lookup_alter_eq, !list_lookup_fmap, lookup_seq_lt by done. cbn [fmap option_fmap option_map Nat.add].
    rewrite Nat.ltb_irrefl, (proj2 (Nat.ltb_lt i (S i))) by lia. done.
  - rewrite list_lookup_alter_ne, !list_lookup_fmap, lookup_seq_lt by done. cbn [fmap option_fmap option_map Nat.add].
    destruct (Nat.ltb_spec j i), (Nat.ltb_spec j (S i)); done || lia.
Qed.

Lemma parity_loop rm :
  for_loop (Z.to_nat np) 0 (fun c rm =>
    rc ← get_col rm c; Ret (set_abd rm c (alloc (rc_size rc)))) (set_cols rm (fill 0)) =
  Ret (set_cols rm (fill (Z.to_nat np))).
Proof using All.
  pose proof scols_bounds as Hsc. destruct counts as (Hc1 & _).
  match goal with |- for_loop ?n ?c ?body ?a = _ =>
    destruct (for_loop_inv (fun i rm' => rm' = set_cols rm (fill i)) n c body a) as (rm' & -> & ->) end; [|done..].
  intros i rm' Hi ->. rewrite get_fill by lia. cbn [mbind result_bind]. eexists. split; [done|].
  rewrite <- set_fill by lia. f_equal. unfold col_bytes. by rewrite (proj2 (Z.ltb_lt _ _)) by lia.
Qed.

Lemma csum_mono a b : a <= b -> csum a <= csum b.
Proof using All.
  intros Hab. destruct s_split as (_ & _ & Hq & _). pose proof U_pos. unfold csum.
  assert (aq * Z.min a aacols <= aq * Z.min b aacols) by nia. nia.
Qed.

Lemma data_view i :
  np <= Z.of_nat i < aacols ->
  view abd (Z.to_nat (csum (Z.of_nat i) - csum np)) (Z.to_nat (csize (Z.of_nat i))) = Ret (col_bytes i).
Proof using All.
  intros Hi. pose proof (csum_S (Z.of_nat i) ltac:(lia)). pose proof (csum_mono (Z.of_nat i + 1) aacols ltac:(lia)).
  pose proof (csum_mono np (Z.of_nat i) ltac:(lia)). destruct data_size as (Hds & _). pose proof (csize_pos (Z.of_nat i)).
  rewrite view_ok by lia. unfold col_bytes. by rewrite (proj2 (Z.ltb_ge _ _)) by lia.
Qed.

Lemma data_loop rm :
  rm_cols rm = Z.to_nat aacols -> rm_firstdatacol rm = Z.to_nat np ->
  (rc ← get_col (set_cols rm (fill (Z.to_nat np))) (Z.to_nat np);
   d ← view abd 0 (Z.to_nat (rc_size rc));
   for_loop (Z.to_nat aacols - S (Z.to_nat np)) (S (Z.to_nat np))
    (fun c '(rm, off) =>
      rc ← get_col rm c;
      d ← view abd (Z.to_nat off) (Z.to_nat (rc_size rc));
      Ret (set_abd rm c d, add64 off (rc_size rc)))
    (set_abd (set_cols rm (fill (Z.to_nat np))) (Z.to_nat np) d, rc_size rc)) =
  Ret (set_cols rm (full_col <$> seq 0 nsc), size).
Proof using All.
  intros Hcols Hfirst. pose proof scols_bounds as Hsc. destruct counts as (Hc1 & Hc2 & Hc3 & _).
  destruct data_size as (Hds & Hcn & _). destruct tot_small as (Htot & _).
  rewrite get_fill by lia. cbn [mbind result_bind rc_size base_col].
  pose proof (data_view (Z.to_nat np) ltac:(lia)) as Hv. rewrite Z2Nat.id in Hv by lia. rewrite Z.sub_diag in Hv.
  rewrite Z2Nat.id by lia. change (Z.to_nat 0) with 0%nat in Hv. rewrite Hv. cbn [mbind result_bind]. rewrite set_fill by lia.
  match goal with |- for_loop ?n ?c ?body ?a = _ =>
    destruct (for_loop_inv (fun i '(rm', off) => rm' = set_cols rm (fill i) /\ off = csum (Z.of_nat i) - csum np) n c body a)
      as ([rm' off] & -> & -> & ->) end.
  - intros i [rm' off] Hi [-> ->]. rewrite get_fill by lia. cbn [mbind result_bind rc_size base_col].
    rewrite data_view by lia. cbn [mbind result_bind]. eexists. split; [done|]. split; [by rewrite set_fill by lia|].
    pose proof (csum_bound np ltac:(lia)). pose proof (csum_bound (Z.of_nat i + 1) ltac:(lia)).
    pose proof (csum_S (Z.of_nat i) ltac:(lia)). pose proof (csum_mono np (Z.of_nat i + 1) ltac:(lia)).
    rewrite add64_small by (unfold u64; lia). replace (Z.of_nat (S i)) with (Z.of_nat i + 1) by lia. lia.
  - split; [done|]. replace (Z.of_nat (S (Z.to_nat np))) with (np + 1) by lia. rewrite csum_S by lia. lia.
  - replace (S (Z.to_nat np) + (Z.to_nat aacols - S (Z.to_nat np)))%nat with (Z.to_nat aacols) by lia.
    rewrite Z2Nat.id, Hds by lia. do 3 f_equal. apply list_fmap_ext. intros j c [-> Hj]%lookup_seq.
    destruct (Nat.ltb_spec (0 + j) (Z.to_nat aacols)) as [|Hge]; [done|].
    unfold full_col, col_abd, col_bytes, base_col. cbn [rc_devidx rc_offset rc_size rc_error rc_tried rc_skipped].
    rewrite (proj2 (Z.ltb_ge _ _)) by lia. f_equal. unfold csize. rewrite Z.geb_leb, (proj2 (Z.leb_le _ _)) by lia. done.
Qed.

(** ** The map *)

Definition alloc_map : raidz_map :=
  RaidzMap (Z.to_nat aacols) nsc abc (rup atot (np + 1) * U) 0 0 (Z.to_nat np)
    (rup atot (np + 1) - atot) abc (full_col <$> seq 0 nsc).

(** The first two columns change places on the devices. *)
Definition alloc_swapped : raidz_map :=
  RaidzMap (Z.to_nat aacols) nsc abc (rup atot (np + 1) * U) 0 0 (Z.to_nat np)
    (rup atot (np + 1) - atot) (if abc =? 0 then 1 else abc)
    (alter (col_place (cdev 0) (coff 0)) 1%nat
      (alter (col_place (cdev 1) (coff 1)) 0%nat (full_col <$> seq 0 nsc))).

Lemma rup_scale x y : 0 <= x -> 1 <= y -> rup (x * U) (y * U) = rup x y * U.
Proof using All.
  intros Hx Hy. pose proof U_pos. unfold rup.
  assert ((x * U + (y * U - 1)) / (y * U) = (x + (y - 1)) / y) as ->; [|lia].
  pose proof (Z.div_mod (x + (y - 1)) y ltac:(lia)) as Hd1. pose proof (Z.mod_pos_bound (x + (y - 1)) y ltac:(lia)) as Hd2.
  set (k := (x + (y - 1)) / y) in *. set (t := (x + (y - 1)) mod y) in *.
  symmetry. apply (Z.div_unique _ _ _ (t * U + U - 1)); [left; nia|]. nia.
Qed.

Lemma full_lookup c : (c < nsc)%nat -> (full_col <$> seq 0 nsc) !! c = Some (full_col c).
Proof using. intros Hc. by rewrite list_lookup_fmap, lookup_seq_lt by done. Qed.

Lemma map_alloc_eq :
  vdev_raidz_map_alloc alloc abd size offset u dcols np =
    Ret (if ((Z.to_nat np =? 1)%nat && negb (Z.land offset (Z.shiftl 1 20) =? 0))%bool
         then alloc_swapped else alloc_map).
Proof using All.
  pose proof U_pos as HU. destruct s_split as (Hsp & Hr & Hq & _). destruct counts as (Hc1 & Hc2 & Hc3 & Htot).
  destruct tot_small as (Ht1 & Ht2 & Hqs & Hs32). pose proof scols_bounds as Hsc.
  unfold vdev_raidz_map_alloc.
  assert (Z.shiftr size u = s) as -> by (rewrite Z.shiftr_div_pow2, Z.div_mul by lia; done).
  assert (sub64 dcols np = dcols - np) as -> by (apply sub64_small; unfold u64; lia).
  change (s / (dcols - np)) with aq. cbv zeta.
  assert (sub64 s (mul64 aq (dcols - np)) = ar) as ->.
  { unfold mul64. rewrite wrap64_small by (unfold u64; nia). rewrite sub64_small by (unfold u64; lia). lia. }
  assert ((if ar =? 0 then 0 else add64 ar np) = abc) as ->.
  { unfold abc. destruct (ar =? 0); [done|]. apply add64_small. unfold u64. lia. }
  assert (add64 s (mul64 np (add64 aq (if ar =? 0 then 0 else 1))) = atot) as ->.
  { rewrite Htot. unfold mul64. destruct (ar =? 0);
      rewrite (add64_small aq), wrap64_small, add64_small by (unfold u64; lia); done. }
  rewrite (roundup_small abc (np + 1)) by lia.
  change (if aq =? 0 then abc else dcols) with aacols.
  change (if aq =? 0 then Z.min dcols (rup abc (np + 1)) else dcols) with ascols.
  rewrite (proj2 (Z.leb_le aacols ascols)) by lia. cbn [verify mbind result_bind].
  pose proof columns_loop as Hcl. cbv zeta in Hcl. rewrite Hcl. cbn [mbind result_bind].
  assert (csum ascols = atot * U) as -> by (unfold csum, atot; rewrite !Z.min_r by lia; done).
  assert (shl64 (np + 1) u = (np + 1) * U) as ->.
  { unfold shl64. rewrite Z.shiftl_mul_pow2 by lia. apply wrap64_small. unfold u64. nia. }
  rewrite (roundup_small (atot * U)), rup_scale, (roundup_small atot) by nia.
  pose proof (rup_bounds atot (np + 1) ltac:(lia) ltac:(lia)).
  rewrite (sub64_small (rup atot _)) by (unfold u64; lia).
  cbn [rm_asize rm_nskip].
  assert (shl64 atot u = atot * U) as ->.
  { unfold shl64. rewrite Z.shiftl_mul_pow2 by lia. apply wrap64_small. unfold u64. lia. }
  assert (shl64 (rup atot (np + 1) - atot) u = rup atot (np + 1) * U - atot * U) as ->.
  { unfold shl64. rewrite Z.shiftl_mul_pow2, Z.mul_sub_distr_r by lia. apply wrap64_small. unfold u64. nia. }
  rewrite (sub64_small (rup atot (np + 1) * U)) by (unfold u64; nia). rewrite !Z.eqb_refl, (proj2 (Z.leb_le _ np)) by lia.
  cbn [verify mbind result_bind].
  set (rm0 := RaidzMap _ _ _ _ _ _ _ _ _ _).
  assert (rm0 = set_cols rm0 (fill 0)) as -> by done.
  change (rm_firstdatacol (set_cols rm0 (fill 0))) with (Z.to_nat np).
  rewrite parity_loop. cbn [mbind result_bind].
  change (rm_firstdatacol (set_cols rm0 (fill (Z.to_nat np)))) with (Z.to_nat np).
  pose proof (data_loop rm0 eq_refl eq_refl) as Hdl.
  apply bind_Ret in Hdl as (rc & Hrc & Hdl). apply bind_Ret in Hdl as (d & Hv & Hdl).
  rewrite Hrc. cbn [mbind result_bind]. rewrite Hv. cbn [mbind result_bind].
  set (rm1 := set_abd (set_cols rm0 (fill (Z.to_nat np))) (Z.to_nat np) d) in *.
  change (rm_cols rm1) with (Z.to_nat aacols). change (rm_firstdatacol rm1) with (Z.to_nat np).
  rewrite Hdl. cbn [mbind result_bind].
  change (rm_firstdatacol (set_cols rm0 (full_col <$> seq 0 nsc))) with (Z.to_nat np).
  change (rm_cols (set_cols rm0 (full_col <$> seq 0 nsc))) with (Z.to_nat aacols).
  rewrite (proj2 (Nat.leb_le 2 _)) by lia. cbn [verify mbind result_bind].
  rewrite (get_col_ok _ 0 (full_col 0)), (get_col_ok _ 1 (full_col 1)) by (apply full_lookup; lia).
  cbn [mbind result_bind]. destruct data_size as (_ & _ & Heq & _).
  rewrite (proj2 (Z.eqb_eq (rc_size (full_col 0)) (rc_size (full_col 1)))) by (symmetry; apply (Heq 1); lia). cbn [verify mbind result_bind].
  by destruct (_ && _)%bool.
Qed.

(** What the map is, wherever its first two columns are. *)
Record alloc_spec (rm : raidz_map) : Prop := {
  as_first : rm_firstdatacol rm = Z.to_nat np;
  as_cols : rm_cols rm = Z.to_nat aacols;
  as_scols : rm_scols rm = nsc;
  as_asize : rm_asize rm = rup atot (np + 1) * U;
  as_nskip : rm_nskip rm = rup atot (np + 1) - atot;
  as_size : rc_size <$> rm_col rm = (fun c => csize (Z.of_nat c)) <$> seq 0 nsc;
  as_abd : rc_abd <$> rm_col rm = col_bytes <$> seq 0 nsc;
  as_dev : rc_devidx <$> rm_col rm ≡ₚ (fun c => cdev (Z.of_nat c)) <$> seq 0 nsc;
}.

Lemma alter_fmap_same {A B} (g : A -> B) (f : A -> A) i (l : list A) :
  (forall a, g (f a) = g a) -> g <$> alter f i l = g <$> l.
Proof using.
  intros H. apply list_eq. intros j. rewrite !list_lookup_fmap. destruct (decide (i = j)) as [->|].
  - rewrite list_lookup_alter_eq. destruct (l !! j); cbn; by rewrite ?H.
  - by rewrite list_lookup_alter_ne.
Qed.

Lemma alloc_map_spec : alloc_spec alloc_map /\ alloc_spec alloc_swapped.
Proof using All.
  pose proof scols_bounds as Hsc. destruct counts as (Hc1 & _).
  split; split; try done; cbn [alloc_map alloc_swapped rm_col].
  - by rewrite <- list_fmap_compose.
  - by rewrite <- list_fmap_compose.
  - by rewrite <- list_fmap_compose.
  - rewrite !alter_fmap_same by done. by rewrite <- list_fmap_compose.
  - rewrite !alter_fmap_same by done. by rewrite <- list_fmap_compose.
  - assert (nsc = S (S (nsc - 2))) as -> by lia. cbn [seq]. rewrite !fmap_cons. cbn.
    rewrite <- list_fmap_compose. apply perm_swap.
Qed.

Lemma total_csum n : foldr Z.add 0 ((fun c => csize (Z.of_nat c)) <$> seq 0 n) = csum (Z.of_nat n).
Proof using All.
  destruct counts as (Hc1 & Hc2 & _). induction n as [|n IH].
  { cbn [seq fmap list_fmap foldr]. unfold csum. rewrite !Z.min_l by (cbn; lia). cbn. lia. }
  rewrite seq_fmap_S.
  assert (forall l x, foldr Z.add 0 (l ++ [x]) = foldr Z.add 0 l + x) as Hsn.
  { intros l x. induction l as [|y l IHl]; cbn [foldr app]; lia. }
  rewrite Hsn, IH. replace (Z.of_nat (S n)) with (Z.of_nat n + 1) by lia. symmetry. apply csum_S. lia.
Qed.

(** The size the block is said to take up. *)
Lemma asize_eq : vdev_raidz_asize u dcols np size = rup atot (np + 1) * U.
Proof using All.
  pose proof U_pos as HU. destruct s_split as (Hsp & Hr & Hq & _). destruct counts as (Hc1 & Hc2 & _ & Htot).
  destruct tot_small as (Ht1 & Ht2 & Hqs & Hs32). unfold vdev_raidz_asize.
  rewrite (sub64_small size 1) by (unfold u64; nia).
  assert (Z.shiftr (size - 1) u = s - 1) as ->.
  { rewrite Z.shiftr_div_pow2 by lia. symmetry. apply (Z.div_unique _ _ _ (U - 1)); [left; lia|lia]. }
  rewrite (add64_small (s - 1)), Z.sub_add by (unfold u64; lia).
  rewrite (add64_small s dcols), (sub64_small (s + dcols)), (sub64_small (s + dcols - np)), (sub64_small dcols np)
    by (unfold u64; lia).
  assert ((s + dcols - np - 1) / (dcols - np) = aq + (if ar =? 0 then 0 else 1)) as ->.
  { destruct (Z.eqb_spec ar 0) as [H0|H0].
    - symmetry. apply (Z.div_unique _ _ _ (dcols - np - 1)); [left; lia|]. rewrite Hsp at 1. lia.
    - symmetry. apply (Z.div_unique _ _ _ (ar - 1)); [left; lia|]. rewrite Hsp at 1. lia. }
  assert (add64 s (mul64 np (aq + (if ar =? 0 then 0 else 1))) = atot) as ->.
  { rewrite Htot. unfold mul64. destruct (ar =? 0); rewrite wrap64_small, add64_small by (unfold u64; lia); done. }
  rewrite roundup_small by lia. pose proof (rup_bounds atot (np + 1) ltac:(lia) ltac:(lia)).
  unfold shl64. rewrite Z.shiftl_mul_pow2 by lia. apply wrap64_small. unfold u64. nia.
Qed.

Section spec.
Context (rm : raidz_map) (Hspec : alloc_spec rm).

Lemma as_lookup c rc :
  rm_col rm !! c = Some rc -> (c < nsc)%nat /\ rc_size rc = csize (Z.of_nat c) /\ rc_abd rc = col_bytes c.
Proof using Hspec.
  intros Hrc. pose proof (as_size rm Hspec) as H1. pose proof (as_abd rm Hspec) as H2.
  assert ((rc_size <$> rm_col rm) !! c = Some (rc_size rc)) as H1' by (by rewrite list_lookup_fmap, Hrc).
  assert ((rc_abd <$> rm_col rm) !! c = Some (rc_abd rc)) as H2' by (by rewrite list_lookup_fmap, Hrc).
  rewrite H1, list_lookup_fmap in H1'. rewrite H2, list_lookup_fmap in H2'.
  destruct (seq 0 nsc !! c) as [i|] eqn:Ei; [|done]. apply lookup_seq in Ei as [-> Hlt].
  cbn in H1', H2'. split_and!; [done|congruence..].
Qed.

Lemma as_length : length (rm_col rm) = nsc.
Proof using Hspec.
  pose proof (f_equal length (as_size rm Hspec)) as H. by rewrite !length_fmap, length_seq in H.
Qed.

Lemma as_devs : NoDup (rc_devidx <$> rm_col rm) /\ Forall (fun d => 0 <= d < dcols) (rc_devidx <$> rm_col rm).
Proof using All.
  rewrite (as_dev rm Hspec). pose proof scols_bounds as Hsc. destruct first_dev as [Hf _].
  unfold cdev. set (f := Z.shiftr offset u mod dcols) in *. split.
  - apply NoDup_fmap_2_strong; [|apply NoDup_seq]. intros i j Hi%elem_of_seq Hj%elem_of_seq.
    rewrite !Z.geb_leb. repeat split_if; lia.
  - apply Forall_fmap, Forall_forall. intros i Hi%elem_of_seq. cbn. rewrite Z.geb_leb. split_if; lia.
Qed.

Lemma length_col_bytes c : Z.of_nat c < aacols -> length (col_bytes c) = Z.to_nat (csize (Z.of_nat c)) /\ bytes (col_bytes c).
Proof using All.
  intros Hc. unfold col_bytes. destruct (Z.ltb_spec (Z.of_nat c) np) as [|Hge].
  { split; [apply Halloc|apply Halloc]. }
  pose proof (csum_S (Z.of_nat c) ltac:(lia)). pose proof (csum_mono (Z.of_nat c + 1) aacols ltac:(lia)).
  pose proof (csum_mono np (Z.of_nat c) ltac:(lia)). destruct data_size as (Hds & _). pose proof (csize_pos (Z.of_nat c)).
  split; [rewrite length_take, length_drop; lia|]. by apply Forall_take, Forall_drop.
Qed.

Lemma as_datas : datas rm = col_bytes <$> seq (Z.to_nat np) (Z.to_nat aacols - Z.to_nat np).
Proof using All.
  pose proof scols_bounds as Hsc. destruct counts as (Hc1 & _).
  unfold datas, datas_to. rewrite (as_first rm Hspec), (as_cols rm Hspec).
  apply list_eq. intros i. rewrite !list_lookup_fmap.
  destruct (decide (i < Z.to_nat aacols - Z.to_nat np)%nat) as [Hi|Hi].
  2:{ by rewrite lookup_take_ge, lookup_seq_ge by lia. }
  rewrite lookup_take_lt, lookup_drop, lookup_seq_lt by done.
  destruct (rm_col rm !! (Z.to_nat np + i)%nat) as [rc|] eqn:E.
  2:{ apply lookup_ge_None_1 in E. rewrite as_length in E. lia. }
  destruct (as_lookup _ _ E) as (_ & Hs1 & Ha). cbn. unfold data_of. rewrite Hs1, Ha.
  f_equal. apply take_ge. destruct (length_col_bytes (Z.to_nat np + i)) as [-> _]; lia.
Qed.

Lemma join_prefix k :
  (k <= Z.to_nat aacols - Z.to_nat np)%nat ->
  mjoin (col_bytes <$> seq (Z.to_nat np) k) = take (Z.to_nat (csum (np + Z.of_nat k) - csum np)) abd.
Proof using All.
  induction k as [|k IH]; intros Hk; [by rewrite Z.add_0_r, Z.sub_diag|].
  rewrite seq_S, fmap_app, join_app, IH by lia. cbn [fmap list_fmap mjoin list_join]. rewrite app_nil_r.
  unfold col_bytes at 1. rewrite (proj2 (Z.ltb_ge _ _)) by lia.
  replace (Z.of_nat (Z.to_nat np + k)) with (np + Z.of_nat k) by lia.
  replace (np + Z.of_nat (S k)) with (np + Z.of_nat k + 1) by lia. rewrite csum_S by lia.
  pose proof (csum_mono np (np + Z.of_nat k) ltac:(lia)). pose proof (csize_pos (np + Z.of_nat k)).
  rewrite take_take_drop. f_equal. lia.
Qed.

Lemma as_data : mjoin (datas rm) = abd.
Proof using All.
  destruct counts as (Hc1 & _). destruct data_size as (Hds & _).
  rewrite as_datas, join_prefix by lia.
  replace (np + Z.of_nat (Z.to_nat aacols - Z.to_nat np)) with aacols by lia. apply take_ge. lia.
Qed.

Lemma as_wf : 3 <= u -> exists m, raidz_wf m rm /\ first_full m rm.
Proof using All.
  intros Hu3. pose proof scols_bounds as Hsc. destruct counts as (Hc1 & _). destruct data_size as (_ & _ & Heq & Hmax).
  assert (forall c, exists k, csize c = Z.of_nat (8 * k)) as H8.
  { intros c. assert (exists w, csize c = w * 8) as [w Hw].
    { assert (U = 2 ^ (u - 3) * 8) as HU8.
      { change 8 with (2 ^ 3). rewrite <- Z.pow_add_r by lia. f_equal. lia. }
      unfold csize. rewrite HU8.
      repeat split_if; [by exists 0|by eexists ((aq + 1) * 2 ^ (u - 3)); lia|by eexists (aq * 2 ^ (u - 3)); lia]. }
    pose proof (csize_pos c). exists (Z.to_nat w). lia. }
  destruct (H8 0) as [m Hm]. exists m. split; [split|].
  - rewrite (as_first rm Hspec), (as_cols rm Hspec), as_length. lia.
  - intros c rc Hc Hrc. rewrite (as_first rm Hspec) in Hc. destruct (as_lookup c rc Hrc) as (_ & Hs1 & Ha).
    rewrite Heq, Hm in Hs1 by lia. unfold parity_ok. rewrite Hs1, Ha.
    destruct (length_col_bytes c ltac:(lia)) as [Hl Hb]. rewrite Heq, Hm in Hl by lia. split_and!; [done|done|lia].
  - intros c rc Hc Hrc. rewrite (as_first rm Hspec), (as_cols rm Hspec) in Hc. destruct (as_lookup c rc Hrc) as (_ & Hs1 & Ha).
    destruct (length_col_bytes c ltac:(lia)) as [Hl Hb]. destruct (H8 (Z.of_nat c)) as [k Hk].
    pose proof (Hmax (Z.of_nat c) ltac:(lia)). unfold data_ok. rewrite Ha, Hs1, Hk. split; [done|]. exists k. split_and!; lia.
  - intros rc Hrc. rewrite (as_first rm Hspec) in Hrc. destruct (as_lookup _ rc Hrc) as (_ & Hs1 & _).
    rewrite Hs1, Heq by lia. done.
Qed.

Lemma csize_anti c c' : 0 <= c <= c' -> csize c' <= csize c.
Proof using All.
  intros Hc. destruct s_split as (_ & _ & Hq & _). pose proof U_pos. unfold csize. rewrite !Z.geb_leb.
  repeat split_if; nia.
Qed.

Lemma as_all :
  rm_firstdatacol rm = Z.to_nat np /\ (rm_firstdatacol rm < rm_cols rm <= rm_scols rm)%nat /\
  length (rm_col rm) = rm_scols rm /\
  NoDup (rc_devidx <$> rm_col rm) /\ Forall (fun d => 0 <= d < dcols) (rc_devidx <$> rm_col rm) /\
  mjoin (datas rm) = abd /\
  (forall c rc, (c < rm_cols rm)%nat -> rm_col rm !! c = Some rc -> Z.of_nat (length (rc_abd rc)) = rc_size rc) /\
  (forall c c' rc rc', (c <= c')%nat -> rm_col rm !! c = Some rc -> rm_col rm !! c' = Some rc' ->
     rc_size rc' <= rc_size rc) /\
  (3 <= u -> exists m, raidz_wf m rm /\ first_full m rm) /\
  rm_asize rm = vdev_raidz_asize u dcols np size /\
  rm_asize rm = total_size rm + rm_nskip rm * U /\ 0 <= rm_nskip rm <= np /\
  (forall c rc, (c < rm_cols rm)%nat -> rm_col rm !! c = Some rc -> 0 < rc_size rc).
Proof using All.
  destruct counts as (Hc1 & Hc2 & Hc3 & Htot). pose proof scols_bounds as Hsc. destruct tot_small as (_ & Ht & _).
  pose proof (rup_bounds atot (np + 1) ltac:(lia) ltac:(lia)) as Hrup. destruct as_devs as [Hd1 Hd2].
  rewrite asize_eq, (as_asize rm Hspec), (as_nskip rm Hspec), as_length, (as_first rm Hspec), (as_cols rm Hspec),
    (as_scols rm Hspec).
  split_and!; try done; try lia.
  - apply as_data.
  - intros c rc Hc Hrc. destruct (as_lookup c rc Hrc) as (_ & -> & ->).
    destruct (length_col_bytes c) as [-> _]; [lia|]. pose proof (csize_pos (Z.of_nat c)). lia.
  - intros c c' rc rc' Hcc Hrc Hrc'. destruct (as_lookup c rc Hrc) as (_ & -> & _).
    destruct (as_lookup c' rc' Hrc') as (_ & -> & _). apply csize_anti. lia.
  - apply as_wf.
  - unfold total_size. rewrite (as_size rm Hspec), total_csum, Z2Nat.id by lia.
    unfold csum, atot. rewrite !Z.min_r by lia. lia.
  - intros c rc Hc Hrc. destruct (as_lookup c rc Hrc) as (_ & -> & _). apply csize_nonzero. lia.
Qed.
End spec.
End alloc.

(** C32: the columns of a block.  For one to three parity columns among at most
    255 devices and a block of whole sectors, no assertion fails, and the map
    returned has: parity columns followed by at least one data column; every column on a device of
    its own; the data columns, put together in order, exactly the block, every
    one as long as its size says, not empty, and no longer than one before it;
    columns the parity code can work on ([raidz_wf], [first_full]) when
    sectors are a whole number of words; and the size it gives for the block,
    the one [vdev_raidz_asize] gives, is that of the columns and of at most
    [nparity] sectors skipped. *)
Theorem vdev_raidz_map_alloc_correct alloc abd offset u dcols np s :
  (forall n, bytes (alloc n) /\ length (alloc n) = Z.to_nat n) ->
  0 <= u <= 24 -> 1 <= np <= 3 -> np < dcols <= 255 -> 1 <= s -> s * 2 ^ u < 2 ^ 32 ->
  0 <= offset < 2 ^ 62 -> Z.of_nat (length abd) = s * 2 ^ u -> bytes abd ->
  exists rm, vdev_raidz_map_alloc alloc abd (s * 2 ^ u) offset u dcols np = Ret rm /\
    rm_firstdatacol rm = Z.to_nat np /\ (rm_firstdatacol rm < rm_cols rm <= rm_scols rm)%nat /\
    length (rm_col rm) = rm_scols rm /\
    NoDup (rc_devidx <$> rm_col rm) /\ Forall (fun d => 0 <= d < dcols) (rc_devidx <$> rm_col rm) /\
    mjoin (datas rm) = abd /\
    (forall c rc, (c < rm_cols rm)%nat -> rm_col rm !! c = Some rc -> Z.of_nat (length (rc_abd rc)) = rc_size rc) /\
    (forall c c' rc rc', (c <= c')%nat -> rm_col rm !! c = Some rc -> rm_col rm !! c' = Some rc' -> rc_size rc' <= rc_size rc) /\
    (3 <= u -> exists m, raidz_wf m rm /\ first_full m rm) /\
    rm_asize rm = vdev_raidz_asize u dcols np (s * 2 ^ u) /\
    rm_asize rm = total_size rm + rm_nskip rm * 2 ^ u /\ 0 <= rm_nskip rm <= np /\
    (forall c rc, (c < rm_cols rm)%nat -> rm_col rm !! c = Some rc -> 0 < rc_size rc).
Proof.
  intros Hal Hu Hnp Hd Hs Hsz Hoff Hl Hb. eexists. split; [by apply map_alloc_eq|].
  destruct (alloc_map_spec alloc abd offset u dcols np s) as [H1 H2]; [done..|].
  eapply (as_all alloc abd offset u dcols np s); [done..|]. by destruct (_ && _)%bool.
Qed.

(** A block written across the columns survives the loss of two of them.
    For at least two parity columns and sectors of whole words, the map of the
    block gets its parity; the data columns then still hold the block; and
    whatever two data columns are overwritten with, reconstruction gives the
    same map, hence the block, back. *)
Theorem raidz_block_survives alloc abd offset u dcols np s :
  (forall n, bytes (alloc n) /\ length (alloc n) = Z.to_nat n) ->
  3 <= u <= 24 -> 2 <= np <= 3 -> np < dcols <= 255 -> 1 <= s -> s * 2 ^ u < 2 ^ 32 ->
  0 <= offset < 2 ^ 62 -> Z.of_nat (length abd) = s * 2 ^ u -> bytes abd ->
  exists rm rm', vdev_raidz_map_alloc alloc abd (s * 2 ^ u) offset u dcols np = Ret rm /\
    vdev_raidz_generate_parity rm = Ret rm' /\ mjoin (datas rm') = abd /\
    forall x y xc yc jx jy, (rm_firstdatacol rm' <= x < y)%nat -> (y < rm_cols rm')%nat ->
      rm_col rm' !! x = Some xc -> rm_col rm' !! y = Some yc ->
      bytes jx -> length jx = length (rc_abd xc) -> bytes jy -> length jy = length (rc_abd yc) ->
      vdev_raidz_reconstruct_pq alloc (set_abd (set_abd rm' x jx) y jy) x y = Ret (rm', 3).
Proof.
  intros Hal Hu Hnp Hd Hs Hsz Hoff Hl Hb.
  assert (exists rm, vdev_raidz_map_alloc alloc abd (s * 2 ^ u) offset u dcols np = Ret rm /\
            alloc_spec alloc abd offset u dcols np s rm) as (rm & Hrm & Hsp).
  { eexists. split; [apply map_alloc_eq; done || lia|].
    destruct (alloc_map_spec alloc abd offset u dcols np s) as [H1 H2]; [done || lia..|]. by destruct (_ && _)%bool. }
  destruct (as_all alloc abd offset u dcols np s) with (rm := rm)
    as (Hfirst & Hcols & Hlen & _ & Hdevs & Hdata & Hlens & Hanti & Hwf & _); [done || lia..|].
  destruct (Hwf ltac:(lia)) as (m & Hwfm & Hfull). clear Hwf.
  pose proof (generate_ok m rm Hwfm ltac:(lia) Hfull) as Hgen. set (rm' := with_parity _ _) in Hgen.
  destruct (generated m rm rm' Hwfm ltac:(lia) Hfull Hgen) as (Hwf' & Hf' & Hc' & Hge & Hpar).
  pose proof (scols_bounds alloc abd offset u dcols np s Hal ltac:(lia) ltac:(lia) Hd Hs Hsz Hoff Hl Hb) as Hsc.
  pose proof (as_scols _ _ _ _ _ _ _ _ Hsp) as Hscols.
  exists rm, rm'. split_and!; [done|done| |].
  { rewrite <- Hdata. f_equal. apply datas_ext; [done..|]. intros c Hc. by rewrite Hge by lia. }
  intros x y xc yc jx jy Hxy Hy Hxc Hyc Hjx Hjxl Hjy Hjyl.
  destruct (wf_col m rm' 0 Hwf' ltac:(lia)) as [pc Hpc]. destruct (wf_col m rm' 1 Hwf' ltac:(lia)) as [qc Hqc].
  assert (rm_col rm !! x = Some xc /\ rm_col rm !! y = Some yc) as [Hxc' Hyc'] by (rewrite <- !Hge by lia; done).
  pose proof (Hlens x xc ltac:(lia) Hxc'). pose proof (Hlens y yc ltac:(lia) Hyc').
  pose proof (Hanti x y xc yc ltac:(lia) Hxc' Hyc').
  apply (reconstruct_pq_ok m rm' x y pc qc xc yc); try done; lia || (apply Hpar; lia).
Qed.

Definition raidz_demo : list Z :=
  [1; 2; 3; 4; 5; 6; 7; 8; 9; 10; 11; 12; 13; 14; 15; 16; 17; 18; 19; 20; 21; 22; 23; 24].

Lemma raidz_demo_bytes : bytes raidz_demo.
Proof. repeat constructor; lia. Qed.

Definition fresh (n : Z) : list Z := replicate (Z.to_nat n) 170.
Lemma fresh_ok n : bytes (fresh n) /\ length (fresh n) = Z.to_nat n.
Proof. split; [apply Forall_replicate; lia|apply length_replicate]. Qed.

Lemma vdev_raidz_map_alloc_correct_witness :
  exists rm, vdev_raidz_map_alloc fresh raidz_demo 24 (2 ^ 20) 3 4 1 = Ret rm /\
    NoDup (rc_devidx <$> rm_col rm) /\ mjoin (datas rm) = raidz_demo.
Proof.
  destruct (vdev_raidz_map_alloc_correct fresh raidz_demo (2 ^ 20) 3 4 1 3) as (rm & H1 & _ & _ & _ & H2 & _ & H3 & _).
  - apply fresh_ok.
  - lia.
  - lia.
  - lia.
  - lia.
  - reflexivity.
  - lia.
  - reflexivity.
  - apply raidz_demo_bytes.
  - exists rm. split; [exact H1|]. split; [exact H2|exact H3].
Defined.

Lemma raidz_block_survives_witness :
  exists rm rm', vdev_raidz_map_alloc fresh raidz_demo 24 512 3 5 2 = Ret rm /\
    vdev_raidz_generate_parity rm = Ret rm' /\ mjoin (datas rm') = raidz_demo.
Proof.
  destruct (raidz_block_survives fresh raidz_demo 512 3 5 2 3) as (rm & rm' & H1 & H2 & H3 & _).
  - apply fresh_ok.
  - lia.
  - lia.
  - lia.
  - lia.
  - reflexivity.
  - lia.
  - reflexivity.
  - apply raidz_demo_bytes.
  - exists rm, rm'. split; [exact H1|]. split; [exact H2|exact H3].
Defined.
