(* ===== verification/RaidzXlate.v ===== *)
(** * RAID-Z: logical and physical ranges

    Model of [vdev_raidz_xlate] and [vdev_raidz_io_verify] of
    [kernel/fs/zfs/vdev_raidz.c] and of [vdev_xlate] of
    [kernel/fs/zfs/vdev_initialize.c]: a range of the RAID-Z device is
    translated to the range it takes up on one of its children, and the columns
    of a block are where the translation says. *)

From S2P Require Import Prelude RangeTree Raidz RaidzParity RaidzAlloc.

(** ** Translation *)

Definition vdev_raidz_xlate (width tgt_col ashift : Z) (rin : range_seg) : result range_seg :=
  _ ← verify (rs_start rin mod Z.shiftl 1 ashift =? 0);
  _ ← verify (rs_end rin mod Z.shiftl 1 ashift =? 0);
  let b_start := Z.shiftr (rs_start rin) ashift in
  let b_end := Z.shiftr (rs_end rin) ashift in
  let start_row := if b_start >? tgt_col
    then add64 (sub64 (sub64 b_start tgt_col) 1 / width) 1 else 0 in
  let end_row := if b_end >? tgt_col
    then add64 (sub64 (sub64 b_end tgt_col) 1 / width) 1 else 0 in
  let res := RangeSeg (shl64 start_row ashift) (shl64 end_row ashift) in
  _ ← verify (rs_start res <=? rs_start rin);
  _ ← verify (sub64 (rs_end res) (rs_start res) <=? sub64 (rs_end rin) (rs_start rin));
  Ret res.

(** The translations on the way from the top-level device down to the one the
    range is translated for. *)
Fixpoint vdev_xlate (path : list (range_seg -> result range_seg)) (physical_rs : range_seg) : result range_seg :=
  match path with
  | [] => Ret physical_rs
  | xlate :: path' => rs ← xlate physical_rs; vdev_xlate path' rs
  end.

(** The device of the zio is a top-level device of [children] children. *)
Definition vdev_raidz_io_verify (ashift children nparity io_offset io_size : Z) (rm : raidz_map) (col : nat) : result unit :=
  let logical_rs := RangeSeg io_offset (add64 io_offset (vdev_raidz_asize ashift children nparity io_size)) in
  rc ← get_col rm col;
  physical_rs ← vdev_xlate [vdev_raidz_xlate children (rc_devidx rc) ashift] logical_rs;
  _ ← verify (rc_offset rc =? rs_start physical_rs);
  _ ← verify (rc_offset rc <? rs_end physical_rs);
  if rs_end physical_rs >? add64 (rc_offset rc) (rc_size rc)
  then verify (rs_end physical_rs =? add64 (add64 (rc_offset rc) (rc_size rc)) (Z.shiftl 1 ashift))
  else verify (rs_end physical_rs =? add64 (rc_offset rc) (rc_size rc)).

(** ** Rows *)

(** The number of sectors before [x] that are on child [d]. *)
Definition rows_before (w d x : Z) : Z := if x >? d then (x - d - 1) / w + 1 else 0.

Lemma rows_before_spec w d x r :
  0 < w -> 0 <= d -> 0 <= r -> r < rows_before w d x <-> r * w + d < x.
Proof.
  intros Hw Hd Hr. unfold rows_before. rewrite Z.gtb_ltb. destruct (Z.ltb_spec d x) as [Hx|Hx]; [|nia].
  pose proof (Z.div_mod (x - d - 1) w ltac:(lia)). pose proof (Z.mod_pos_bound (x - d - 1) w Hw). nia.
Qed.

Lemma rows_before_pos w d x : 0 < w -> 0 <= d -> 0 <= rows_before w d x.
Proof.
  intros Hw Hd. unfold rows_before. rewrite Z.gtb_ltb. destruct (Z.ltb_spec d x); [|lia].
  pose proof (Z.div_pos (x - d - 1) w ltac:(lia) Hw). lia.
Qed.

(** Rows are determined by the sectors before them. *)
Lemma rows_before_unique w d x v :
  0 < w -> 0 <= d -> 0 <= v -> (forall r, 0 <= r -> r < v <-> r * w + d < x) -> rows_before w d x = v.
Proof.
  intros Hw Hd Hv H. pose proof (rows_before_pos w d x Hw Hd) as Hp.
  destruct (Z.lt_trichotomy (rows_before w d x) v) as [Hlt|[?|Hlt]]; [|done|].
  - apply H in Hlt; [|done]. apply rows_before_spec in Hlt; lia.
  - apply rows_before_spec in Hlt; [|lia..]. apply H in Hlt; lia.
Qed.

Lemma rows_before_mono w d x y : 0 < w -> 0 <= d -> x <= y -> rows_before w d x <= rows_before w d y <= rows_before w d x + (y - x).
Proof.
  intros Hw Hd Hxy. pose proof (rows_before_pos w d x Hw Hd) as Hp. pose proof (rows_before_pos w d y Hw Hd) as Hp'. split.
  - destruct (Z.le_gt_cases (rows_before w d x) (rows_before w d y)) as [|Hlt]; [done|].
    apply rows_before_spec in Hlt; [|lia..]. assert (rows_before w d y < rows_before w d y) by (apply rows_before_spec; lia). lia.
  - destruct (Z.le_gt_cases (rows_before w d y) (rows_before w d x + (y - x))) as [|Hlt]; [done|].
    apply rows_before_spec in Hlt; [|lia..].
    assert (rows_before w d x < rows_before w d x) by (apply rows_before_spec; [lia..|]; nia). lia.
Qed.

Lemma rows_before_le w d x : 0 < w -> 0 <= d -> 0 <= x -> rows_before w d x <= x.
Proof.
  intros Hw Hd Hx. pose proof (rows_before_mono w d 0 x Hw Hd Hx) as H.
  assert (rows_before w d 0 = 0) as H0; [|lia]. unfold rows_before. rewrite Z.gtb_ltb. by rewrite (proj2 (Z.ltb_ge _ _)) by lia.
Qed.

Lemma rows_at w d x o p a n :
  0 < w -> 0 <= d -> 0 <= o + n -> x + p = o * w + d -> (n - 1) * w + p < a <= n * w + p -> rows_before w d (x + a) = o + n.
Proof.
  intros Hw Hd Hon Hx Ha. apply rows_before_unique; [done..|]. intros r Hr.
  assert (r * w + d < x + a <-> (r - o) * w + p < a) as -> by lia.
  assert (r < o + n <-> r - o < n) as -> by lia. generalize (r - o). clear -Hw Ha. intros t. nia.
Qed.

(** The translation of a range of whole sectors. *)
Lemma xlate_eq w d u b e :
  0 < w < 2 ^ 32 -> 0 <= d < w -> 0 <= u <= 24 -> 0 <= b <= e -> e * 2 ^ u < 2 ^ 63 ->
  vdev_raidz_xlate w d u (RangeSeg (b * 2 ^ u) (e * 2 ^ u)) =
    Ret (RangeSeg (rows_before w d b * 2 ^ u) (rows_before w d e * 2 ^ u)).
Proof.
  intros Hw Hd Hu Hb He. assert (1 <= 2 ^ u) as HU by (apply (Z.pow_le_mono_r 2 0 u); lia).
  assert (e < 2 ^ 63) as He' by nia.
  unfold vdev_raidz_xlate. cbn [rs_start rs_end]. rewrite Z.shiftl_1_l, !Z.mod_mul by lia. cbn [Z.eqb verify mbind result_bind].
  rewrite !Z.shiftr_div_pow2, !Z.div_mul by lia.
  assert (forall x, 0 <= x < 2 ^ 63 -> (if x >? d then add64 (sub64 (sub64 x d) 1 / w) 1 else 0) = rows_before w d x) as Hrow.
  { intros x Hx. unfold rows_before. rewrite Z.gtb_ltb. destruct (Z.ltb_spec d x); [|done].
    rewrite (sub64_small x d), (sub64_small (x - d) 1) by (unfold u64; lia). apply add64_small. unfold u64.
    pose proof (Z.div_pos (x - d - 1) w ltac:(lia) ltac:(lia)). pose proof (Z.div_le_upper_bound (x - d - 1) w (x - d - 1) ltac:(lia) ltac:(nia)). lia. }
  rewrite !Hrow by lia.
  pose proof (rows_before_le w d b ltac:(lia) ltac:(lia) ltac:(lia)). pose proof (rows_before_le w d e ltac:(lia) ltac:(lia) ltac:(lia)).
  pose proof (rows_before_pos w d b ltac:(lia) ltac:(lia)). pose proof (rows_before_pos w d e ltac:(lia) ltac:(lia)).
  pose proof (rows_before_mono w d b e ltac:(lia) ltac:(lia) ltac:(lia)).
  assert (forall x, 0 <= x <= e -> shl64 x u = x * 2 ^ u) as Hshl.
  { intros x Hx. unfold shl64. rewrite Z.shiftl_mul_pow2 by lia. apply wrap64_small. unfold u64. nia. }
  rewrite !Hshl by lia. cbn [rs_start rs_end].
  rewrite (proj2 (Z.leb_le (rows_before w d b * 2 ^ u) _)) by nia. cbn [verify mbind result_bind].
  rewrite !sub64_small by (unfold u64; nia). rewrite (proj2 (Z.leb_le _ _)) by nia. done.
Qed.

(** Translation of a range.  For a range of whole sectors and a child of
    the device, the assertions hold and the result is a range of whole sectors
    of the child: of the sectors that are on the child, exactly those in the
    range are translated. *)
Theorem vdev_raidz_xlate_correct w d u b e :
  0 < w < 2 ^ 32 -> 0 <= d < w -> 0 <= u <= 24 -> 0 <= b <= e -> e * 2 ^ u < 2 ^ 63 ->
  exists lo hi, vdev_raidz_xlate w d u (RangeSeg (b * 2 ^ u) (e * 2 ^ u)) = Ret (RangeSeg (lo * 2 ^ u) (hi * 2 ^ u)) /\
    0 <= lo <= hi /\ hi - lo <= e - b /\
    forall k, 0 <= k -> k mod w = d -> b <= k < e <-> lo <= k / w < hi.
Proof.
  intros Hw Hd Hu Hb He. exists (rows_before w d b), (rows_before w d e).
  pose proof (rows_before_pos w d b ltac:(lia) ltac:(lia)). pose proof (rows_before_mono w d b e ltac:(lia) ltac:(lia) ltac:(lia)).
  split_and!; [by apply xlate_eq|lia..|]. intros k Hk Hm. pose proof (Z.div_mod k w ltac:(lia)) as Hdm.
  pose proof (Z.div_pos k w Hk ltac:(lia)) as Hp.
  pose proof (rows_before_spec w d b (k / w) ltac:(lia) ltac:(lia) Hp) as Hsb.
  pose proof (rows_before_spec w d e (k / w) ltac:(lia) ltac:(lia) Hp) as Hse.
  replace (k / w * w + d) with k in Hsb, Hse by lia. lia.
Qed.

Lemma vdev_raidz_xlate_correct_witness :
  exists lo hi, vdev_raidz_xlate 5 3 9 (RangeSeg (7 * 2 ^ 9) (19 * 2 ^ 9)) = Ret (RangeSeg (lo * 2 ^ 9) (hi * 2 ^ 9)) /\
    (7 <= 18 < 19 <-> lo <= 18 / 5 < hi).
Proof.
  destruct (vdev_raidz_xlate_correct 5 3 9 7 19) as (lo & hi & Hx & _ & _ & Hk); [lia..|].
  exists lo, hi. split; [exact Hx|]. apply Hk; [lia|reflexivity].
Defined.

(** ** The columns of a block *)

Section columns.
Context (alloc : Z -> list Z) (abd : list Z) (b u dcols np s : Z).
Notation U := (2 ^ u).
Notation size := (s * U).
Notation offset := (b * U).
Context (Halloc : forall n, bytes (alloc n) /\ length (alloc n) = Z.to_nat n).
Context (Hu : 0 <= u <= 24) (Hnp : 1 <= np <= 3) (Hd : np < dcols <= 255).
Context (Hs : 1 <= s) (Hsize : size < 2 ^ 32) (Hoff : 0 <= offset < 2 ^ 62).
Context (Habd : Z.of_nat (length abd) = size) (Hbytes : bytes abd).

Notation A := (rup (atot dcols np s) (np + 1)).
Notation q := (aq dcols np s).
Notation bc := (abc dcols np s).
Notation cdev' := (cdev offset u dcols).
Notation coff' := (coff offset u dcols).
Notation csize' := (csize u dcols np s).

Lemma b_small : 0 <= b < 2 ^ 62.
Proof using All. assert (1 <= U) by (apply (Z.pow_le_mono_r 2 0 u); lia). nia. Qed.

(** The first sector of place [p], and the number of sectors of a column
    there. *)
Lemma place p : 0 <= p < dcols ->
  exists o, coff' p = o * U /\ 0 <= o /\ b + p = o * dcols + cdev' p /\ 0 <= cdev' p < dcols.
Proof using All.
  intros Hp. pose proof b_small as Hb. unfold coff, cdev. rewrite Z.shiftr_div_pow2, Z.div_mul by lia.
  pose proof (Z.div_mod b dcols ltac:(lia)). pose proof (Z.mod_pos_bound b dcols ltac:(lia)). pose proof (Z.div_pos b dcols ltac:(lia) ltac:(lia)).
  rewrite Z.geb_leb, Z.shiftl_mul_pow2 by lia. destruct (Z.leb_spec dcols (b mod dcols + p)).
  - exists (b / dcols + 1). split_and!; lia.
  - exists (b / dcols). split_and!; lia.
Qed.

Lemma sectors p : 0 <= p < aacols dcols np s ->
  exists n, csize' p = n * U /\ 1 <= n /\ (n - 1) * dcols + p < atot dcols np s <= n * dcols + p.
Proof using All.
  intros Hp. destruct (s_split alloc abd offset u dcols np s) as (Hsp & Hr & Hq & H0); try done.
  destruct (counts alloc abd offset u dcols np s) as (Hc1 & Hc2 & Hc3 & _); try done.
  unfold csize, atot in *. rewrite Z.geb_leb, (proj2 (Z.leb_gt _ _)) by lia. unfold aacols in *.
  destruct (Z.eqb_spec q 0) as [Hq0|Hq0].
  - rewrite (proj2 (Z.ltb_lt _ _)) by lia. exists 1. rewrite Hq0. split_and!; lia.
  - destruct (Z.ltb_spec p bc); [exists (q + 1)|exists q]; split_and!; nia.
Qed.

(** A column in place [p] is where the translation says. *)
Lemma column_place_ok rm c rc p :
  rm_col rm !! c = Some rc -> rc_devidx rc = cdev' p -> rc_offset rc = coff' p -> rc_size rc = csize' p ->
  0 <= p < aacols dcols np s -> vdev_raidz_io_verify u dcols np offset size rm c = Ret tt.
Proof using All.
  intros Hrc Hdev Hof Hsz Hp. destruct (counts alloc abd offset u dcols np s) as (Hc1 & _ & _ & _); try done.
  destruct (tot_small alloc abd offset u dcols np s) as (Ht1 & Ht2 & _); try done. pose proof b_small as Hb.
  pose proof (U_pos alloc abd offset u dcols np s) as HU. specialize (HU Halloc Hu Hnp Hd Hs Hsize Hoff Habd Hbytes).
  destruct (place p ltac:(lia)) as (o & Ho & Ho0 & Hob & Hcd). destruct (sectors p Hp) as (n & Hn & Hn1 & Hnt).
  pose proof (rup_bounds alloc abd offset u dcols np s Halloc Hu Hnp Hd Hs Hsize Hoff Habd Hbytes (atot dcols np s) (np + 1) ltac:(lia) ltac:(lia)) as Hrup.
  unfold vdev_raidz_io_verify. rewrite (get_col_ok _ _ _ Hrc). cbn [mbind result_bind vdev_xlate].
  rewrite (asize_eq alloc abd offset) by done. rewrite (add64_small offset) by (unfold u64; nia).
  rewrite <- Z.mul_add_distr_r, Hdev, xlate_eq by (lia || nia). cbn [mbind result_bind rs_start rs_end].
  assert (rows_before dcols (cdev' p) b = o) as ->.
  { pose proof (rows_at dcols (cdev' p) b o p 0 0) as H0. rewrite !Z.add_0_r in H0. apply H0; lia. }
  rewrite Hof, Hsz, Ho, Hn, Z.eqb_refl. cbn [verify mbind result_bind].
  assert (o <= b) by nia. assert (n * U < 2 ^ 41) by nia. assert (o * U < 2 ^ 62) by nia.
  assert (Z.shiftl 1 u = U) as -> by apply Z.shiftl_1_l.
  rewrite !(add64_small (o * U)), (add64_small (o * U + n * U)) by (unfold u64; lia).
  assert (rows_before dcols (cdev' p) (b + A) = if A <=? n * dcols + p then o + n else o + n + 1) as ->.
  { destruct (Z.leb_spec A (n * dcols + p)); [|rewrite <- Z.add_assoc]; apply (rows_at _ _ b o p); lia. }
  rewrite (proj2 (Z.ltb_lt (o * U) _)) by (destruct (_ <=? _); nia). cbn [verify mbind result_bind]. rewrite Z.gtb_ltb.
  destruct (Z.leb_spec A (n * dcols + p)).
  - rewrite (proj2 (Z.ltb_ge _ _)), (proj2 (Z.eqb_eq _ _)) by lia. done.
  - rewrite (proj2 (Z.ltb_lt _ _)), (proj2 (Z.eqb_eq _ _)) by lia. done.
Qed.

Notation nsc := (Z.to_nat (ascols dcols np s)).

Lemma full_col_ok rm c :
  (forall j, rm_col rm !! j = (full_col alloc abd offset u dcols np s <$> seq 0 nsc) !! j) ->
  rm_cols rm = Z.to_nat (aacols dcols np s) -> (c < rm_cols rm)%nat ->
  vdev_raidz_io_verify u dcols np offset size rm c = Ret tt.
Proof using All.
  intros Hl Hcols Hc. rewrite Hcols in Hc. pose proof (scols_bounds alloc abd offset u dcols np s) as Hsc.
  specialize (Hsc Halloc Hu Hnp Hd Hs Hsize Hoff Habd Hbytes).
  apply (column_place_ok rm c (full_col alloc abd offset u dcols np s c) (Z.of_nat c)); try done; [|lia].
  rewrite Hl, list_lookup_fmap, lookup_seq_lt by lia. done.
Qed.

(** The places of the first two columns can be exchanged: the columns are of
    the same size. *)
Lemma swapped_ok c :
  np = 1 -> (c < rm_cols (alloc_swapped alloc abd offset u dcols np s))%nat ->
  vdev_raidz_io_verify u dcols np offset size (alloc_swapped alloc abd offset u dcols np s) c = Ret tt.
Proof using All.
  intros Hnp1 Hc. cbn [rm_cols alloc_swapped] in Hc. pose proof (scols_bounds alloc abd offset u dcols np s) as Hsc.
  specialize (Hsc Halloc Hu Hnp Hd Hs Hsize Hoff Habd Hbytes).
  destruct (counts alloc abd offset u dcols np s) as (Hc1 & Hc2 & Hc3 & _); try done.
  assert (csize' 0 = csize' 1) as H01.
  { unfold csize. rewrite !Z.geb_leb, !(proj2 (Z.leb_gt _ _)) by lia. destruct (Z.ltb_spec 0 bc), (Z.ltb_spec 1 bc); lia. }
  set (cols := full_col alloc abd offset u dcols np s <$> seq 0 nsc).
  assert (forall j, (j < nsc)%nat -> cols !! j = Some (full_col alloc abd offset u dcols np s j)) as Hl.
  { intros j Hj. unfold cols. by rewrite list_lookup_fmap, lookup_seq_lt. }
  destruct c as [|[|c]].
  - eapply (column_place_ok _ 0 _ 1); [cbn [rm_col alloc_swapped]; fold cols|..].
    + rewrite list_lookup_alter_ne, list_lookup_alter_eq, Hl by lia. reflexivity.
    + done.
    + done.
    + exact H01.
    + lia.
  - eapply (column_place_ok _ 1 _ 0); [cbn [rm_col alloc_swapped]; fold cols|..].
    + rewrite list_lookup_alter_eq, list_lookup_alter_ne, Hl by lia. reflexivity.
    + done.
    + done.
    + by rewrite H01.
    + lia.
  - eapply (column_place_ok _ (S (S c)) _ (Z.of_nat (S (S c)))); [cbn [rm_col alloc_swapped]; fold cols|..].
    + rewrite !list_lookup_alter_ne, Hl by lia. reflexivity.
    + done.
    + done.
    + done.
    + lia.
Qed.
End columns.

(** The columns of a block are where the translation says.  For a block
    at a sector [b] of a RAID-Z device of one to three parity columns among at
    most 255 children, none of the assertions of [vdev_raidz_io_verify] fires
    for a column of its map: the range of the block, translated for the device
    of the column, starts at the column and ends where the column does or one
    skipped sector later. *)
Theorem vdev_raidz_io_verify_ok alloc abd b u dcols np s :
  (forall n, bytes (alloc n) /\ length (alloc n) = Z.to_nat n) ->
  0 <= u <= 24 -> 1 <= np <= 3 -> np < dcols <= 255 -> 1 <= s -> s * 2 ^ u < 2 ^ 32 ->
  0 <= b * 2 ^ u < 2 ^ 62 -> Z.of_nat (length abd) = s * 2 ^ u -> bytes abd ->
  exists rm, vdev_raidz_map_alloc alloc abd (s * 2 ^ u) (b * 2 ^ u) u dcols np = Ret rm /\
    (2 <= rm_cols rm)%nat /\
    forall c, (c < rm_cols rm)%nat -> vdev_raidz_io_verify u dcols np (b * 2 ^ u) (s * 2 ^ u) rm c = Ret tt.
Proof.
  intros Hal Hu Hnp Hd Hs Hsz Hoff Hl Hb. eexists. split; [by apply map_alloc_eq|].
  destruct (counts alloc abd (b * 2 ^ u) u dcols np s) as (Hc1 & _ & _ & _); try done.
  destruct (_ && _)%bool eqn:E; (split; [cbn; lia|]).
  - intros c Hc. apply andb_prop in E as [E _]. apply Nat.eqb_eq in E. apply swapped_ok; try done. lia.
  - intros c Hc. eapply full_col_ok; try done.
Qed.

Lemma vdev_raidz_io_verify_ok_witness :
  exists rm, vdev_raidz_map_alloc fresh raidz_demo (3 * 2 ^ 3) (2 ^ 17 * 2 ^ 3) 3 5 1 = Ret rm /\
    vdev_raidz_io_verify 3 5 1 (2 ^ 17 * 2 ^ 3) (3 * 2 ^ 3) rm 1 = Ret tt.
Proof.
  destruct (vdev_raidz_io_verify_ok fresh raidz_demo (2 ^ 17) 3 5 1 3) as (rm & Hrm & H2 & Hv).
  - apply fresh_ok.
  - lia.
  - lia.
  - lia.
  - lia.
  - lia.
  - lia.
  - reflexivity.
  - apply raidz_demo_bytes.
  - exists rm. split; [exact Hrm|]. apply Hv. exact H2.
Defined.
