(* ===== verification/RaidzMatrix.v ===== *)
(** * RAID-Z: reconstruction by matrix inversion

    Model of the general reconstruction of [kernel/fs/zfs/vdev_raidz.c]: the
    rows of the dispersal matrix, their inversion by Gauss-Jordan elimination,
    the use of the inverse on the bytes of the columns, and the choice of the
    method for a set of bad columns.

    The rows are arrays of bytes cut out of one allocation; a row is a list and
    an access outside of it a [Panic], as are the code's assertions. *)

From S2P Require Import Prelude Raidz.

Definition VDEV_RAIDZ_MAXPARITY : nat := 3.

(** [a[i]] for an array of ints. *)
Definition idx {A} (l : list A) (i : nat) : result A :=
  match l !! i with Some a => Ret a | None => Panic end.

(** [rows[i][j]] and [rows[i][j] = v]. *)
Definition mrd (rows : list (list Z)) (i j : nat) : result Z :=
  r ← idx rows i; rd r j.
Definition mwr (rows : list (list Z)) (i j : nat) (v : Z) : result (list (list Z)) :=
  r ← idx rows i; r ← wr r j v; Ret (<[i := r]> rows).

(** ** The matrix *)

Definition vdev_raidz_matrix_init (rm : raidz_map) (n nmap : nat) (map : list nat) (rows : list (list Z)) :
    result (list (list Z)) :=
  _ ← verify (n =? rm_cols rm - rm_firstdatacol rm)%nat;
  for_loop nmap 0 (fun i rows =>
    mi ← idx map i;
    _ ← verify (mi <=? 2)%nat;
    let pow := Z.of_nat mi * Z.of_nat n in
    let pow := if pow >? 255 then pow - 255 else pow in
    _ ← verify (pow <=? 255);
    '(rows, _) ← for_loop n 0 (fun j '(rows, pow) =>
      let pow := pow - Z.of_nat mi in
      let pow := if pow <? 0 then pow + 255 else pow in
      v ← rd vdev_raidz_pow2 (Z.to_nat pow);
      rows ← mwr rows i j v;
      Ret (rows, pow)) (rows, pow);
    Ret rows) rows.

(** [invrows[i][j] = (i == j) ? 1 : 0]. *)
Definition matrix_unit (n nmissing : nat) (invrows : list (list Z)) : result (list (list Z)) :=
  for_loop nmissing 0 (fun i invrows =>
    for_loop n 0 (fun j invrows => mwr invrows i j (if (i =? j)%nat then 1 else 0)) invrows) invrows.

(** The trivial rows are subtracted from the rows of consequence. *)
Definition matrix_trivial (rm : raidz_map) (n nmissing : nat) (used : list Z) (rows invrows : list (list Z)) :
    result (list (list Z) * list (list Z)) :=
  for_loop nmissing 0 (fun i st =>
    for_loop (n - nmissing) nmissing (fun j '(rows, invrows) =>
      u ← rd used j;
      _ ← verify (rm_firstdatacol rm <=? Z.to_nat u)%nat;
      let jj := (Z.to_nat u - rm_firstdatacol rm)%nat in
      _ ← verify (jj <? n)%nat;
      v ← mrd rows i jj;
      invrows ← mwr invrows i j v;
      rows ← mwr rows i jj 0;
      Ret (rows, invrows)) st) (rows, invrows).

(** Row [i] multiplied by 2 to the power [log], in both matrices. *)
Definition row_scale (n i : nat) (log : Z) (st : list (list Z) * list (list Z)) :
    result (list (list Z) * list (list Z)) :=
  for_loop n 0 (fun j '(rows, invrows) =>
    a ← mrd rows i j;
    a ← vdev_raidz_exp2 a log;
    rows ← mwr rows i j a;
    b ← mrd invrows i j;
    b ← vdev_raidz_exp2 b log;
    invrows ← mwr invrows i j b;
    Ret (rows, invrows)) st.

(** Row [i] times 2 to the power [log] subtracted from row [ii]. *)
Definition row_subtract (n ii i : nat) (log : Z) (st : list (list Z) * list (list Z)) :
    result (list (list Z) * list (list Z)) :=
  for_loop n 0 (fun j '(rows, invrows) =>
    a ← mrd rows i j;
    a ← vdev_raidz_exp2 a log;
    x ← mrd rows ii j;
    rows ← mwr rows ii j (Z.lxor x a);
    b ← mrd invrows i j;
    b ← vdev_raidz_exp2 b log;
    y ← mrd invrows ii j;
    invrows ← mwr invrows ii j (Z.lxor y b);
    Ret (rows, invrows)) st.

(** Row [i] is normalized and subtracted from the other rows. *)
Definition matrix_pivot (n nmissing : nat) (missing : list nat) (i : nat)
    (st : list (list Z) * list (list Z)) : result (list (list Z) * list (list Z)) :=
  mi ← idx missing i;
  _ ← for_loop mi 0 (fun j _ => a ← mrd (fst st) i j; verify (a =? 0)) tt;
  a ← mrd (fst st) i mi;
  _ ← verify (negb (a =? 0));
  l ← rd vdev_raidz_log2 (Z.to_nat a);
  st ← row_scale n i (255 - l) st;
  for_loop nmissing 0 (fun ii st =>
    if (i =? ii)%nat then Ret st else
    a ← mrd (fst st) ii mi;
    _ ← verify (negb (a =? 0));
    log ← rd vdev_raidz_log2 (Z.to_nat a);
    row_subtract n ii i log st) st.

Definition vdev_raidz_matrix_invert (rm : raidz_map) (n nmissing : nat) (missing : list nat)
    (rows invrows : list (list Z)) (used : list Z) : result (list (list Z) * list (list Z)) :=
  _ ← for_loop nmissing 0 (fun i _ => u ← rd used i; verify (Z.to_nat u <? rm_firstdatacol rm)%nat) tt;
  _ ← for_loop (n - nmissing) nmissing
        (fun i _ => u ← rd used i; verify (rm_firstdatacol rm <=? Z.to_nat u)%nat) tt;
  invrows ← matrix_unit n nmissing invrows;
  st ← matrix_trivial rm n nmissing used rows invrows;
  st ← for_loop nmissing 0 (matrix_pivot n nmissing missing) st;
  _ ← for_loop nmissing 0 (fun i _ =>
        for_loop n 0 (fun j _ =>
          mi ← idx missing i;
          a ← mrd (fst st) i j;
          verify (if (j =? mi)%nat then a =? 1 else a =? 0)) tt) tt;
  Ret st.

(** ** The bytes of the missing columns *)

(** [invlog]: the logarithms of the inverse rows. *)
Definition matrix_logs (n nmissing : nat) (invrows invlog : list (list Z)) : result (list (list Z)) :=
  for_loop nmissing 0 (fun i invlog =>
    for_loop n 0 (fun j invlog =>
      a ← mrd invrows i j;
      _ ← verify (negb (a =? 0));
      l ← rd vdev_raidz_log2 (Z.to_nat a);
      mwr invlog i j l) invlog) invlog.

(** One byte [s] of column [used[i]], at position [x], with its logarithm
    [log], added to byte [x] of each missing column. *)
Definition matrix_byte (nmissing : nat) (missing : list nat) (invlog : list (list Z)) (i x : nat) (s log : Z)
    (rm : raidz_map) : result raidz_map :=
  for_loop nmissing 0 (fun cc rm =>
    mi ← idx missing cc;
    let c := (mi + rm_firstdatacol rm)%nat in
    dc ← get_col rm c;
    if rc_size dc <=? Z.of_nat x then Ret rm else
    val ← (if s =? 0 then Ret 0 else
           il ← mrd invlog cc i;
           let ll := log + il in
           rd vdev_raidz_pow2 (Z.to_nat (if ll >=? 255 then ll - 255 else ll)));
    old ← rd (rc_abd dc) x;
    abd ← wr (rc_abd dc) x (if (i =? 0)%nat then val else Z.lxor old val);
    Ret (set_abd rm c abd)) rm.

(** The bytes of column [c], the [i]-th used. *)
Definition matrix_column (nmissing : nat) (missing : list nat) (invlog : list (list Z)) (i c : nat)
    (st : raidz_map * Z) : result (raidz_map * Z) :=
  rc ← get_col (fst st) c;
  for_loop (Z.to_nat (rc_size rc)) 0 (fun x '(rm, log) =>
    rc ← get_col rm c;
    s ← rd (rc_abd rc) x;
    log ← (if s =? 0 then Ret log else rd vdev_raidz_log2 (Z.to_nat s));
    rm ← matrix_byte nmissing missing invlog i x s log rm;
    Ret (rm, log)) st.

Section general.
Context (kmem_alloc : Z -> list Z) (abd_alloc_linear : Z -> list Z).

Definition vdev_raidz_matrix_reconstruct (rm : raidz_map) (n nmissing : nat) (missing : list nat)
    (invrows : list (list Z)) (used : list Z) : result raidz_map :=
  let p := kmem_alloc (Z.of_nat (n * nmissing)) in
  invlog ← mapM (fun i => view p (i * n) n) (seq 0 nmissing);
  invlog ← matrix_logs n nmissing invrows invlog;
  '(rm, _) ← for_loop n 0 (fun i st =>
    let rm := fst st in
    u ← rd used i;
    let c := Z.to_nat u in
    _ ← verify (c <? rm_cols rm)%nat;
    rc ← get_col rm c;
    _ ← for_loop nmissing 0 (fun j _ =>
      mj ← idx missing j;
      let cc := (mj + rm_firstdatacol rm)%nat in
      _ ← verify (rm_firstdatacol rm <=? cc)%nat;
      _ ← verify (cc <? rm_cols rm)%nat;
      _ ← verify (negb (cc =? c)%nat);
      _ ← get_col rm cc;
      Ret tt) tt;
    m0 ← idx missing 0;
    mc ← get_col rm m0;
    _ ← verify ((rc_size rc >=? rc_size mc) || (0 <? i)%nat);
    matrix_column nmissing missing invlog i c st) (rm, 0);
  Ret rm.

(** The data columns among the targets, less the index of the first one. *)
Definition missing_rows (rm : raidz_map) (tgts : list nat) : result (list nat) :=
  let ms := (fun t => (t - rm_firstdatacol rm)%nat) <$> filter (fun t => (rm_firstdatacol rm <= t)%nat) tgts in
  _ ← verify (length ms <=? VDEV_RAIDZ_MAXPARITY)%nat;
  Ret ms.

(** The parity columns to use, as many as [need]: columns from [c] on that are
    not targets.  The loop asserts that [c] is a parity column, so [fuel],
    the number of parity columns left, is enough. *)
Fixpoint pick_parity (tgts : list nat) (fuel c tn need : nat) (code : Z) (map : list nat) : result (Z * list nat) :=
  match need with
  | O => Ret (code, map)
  | S need' =>
      _ ← verify (tn <? length tgts)%nat;
      match fuel with
      | O => Panic
      | S fuel' =>
          t ← idx tgts tn;
          if (c =? t)%nat then pick_parity tgts fuel' (S c) (S tn) need code map
          else pick_parity tgts fuel' (S c) tn need' (Z.lor code (Z.shiftl 1 (Z.of_nat c))) (map ++ [c])
      end
  end.

(** [used]: the parity columns, then the data columns that are not missing. *)
Definition fill_used (rm : raidz_map) (n : nat) (missing map : list nat) (used : list Z) : result (list Z) :=
  used ← for_loop (length missing) 0 (fun i used => c ← idx map i; wr used i (Z.of_nat c mod 256)) used;
  '(used, _, _) ← for_loop n (rm_firstdatacol rm) (fun c '(used, i, tn) =>
    skip ← (if (tn <? length missing)%nat
            then m ← idx missing tn; Ret (c =? m + rm_firstdatacol rm)%nat else Ret false);
    if skip : bool then Ret (used, i, S tn) else
    _ ← verify (i <? n)%nat;
    used ← wr used i (Z.of_nat c mod 256);
    Ret (used, S i, tn)) (used, length missing, 0%nat);
  Ret used.

(** Linear copies of the data columns, and the way back. *)
Definition linear_copies (rm : raidz_map) : result raidz_map :=
  for_loop (rm_cols rm - rm_firstdatacol rm) (rm_firstdatacol rm) (fun c rm =>
    col ← get_col rm c;
    d ← abd_copy (abd_alloc_linear (rc_size col)) (rc_abd col) (Z.to_nat (rc_size col));
    Ret (set_abd rm c d)) rm.
Definition copies_back (bufs rm : raidz_map) : result raidz_map :=
  for_loop (rm_cols rm - rm_firstdatacol rm) (rm_firstdatacol rm) (fun c rm =>
    col ← get_col rm c;
    buf ← get_col bufs c;
    d ← abd_copy (rc_abd buf) (rc_abd col) (Z.to_nat (rc_size col));
    Ret (set_abd rm c d)) rm.

(** [linear] says whether the buffer of the first data column is linear. *)
Definition vdev_raidz_reconstruct_general (linear : bool) (rm : raidz_map) (tgts : list nat) :
    result (raidz_map * Z) :=
  let bufs := rm in
  rm ← (if linear then Ret rm else linear_copies rm);
  let n := (rm_cols rm - rm_firstdatacol rm)%nat in
  missing ← missing_rows rm tgts;
  let nmissing := length missing in
  '(code, map) ← pick_parity tgts (rm_firstdatacol rm) 0 0 nmissing 0 [];
  _ ← verify (negb (code =? 0));
  _ ← verify (code <? Z.shiftl 1 (Z.of_nat VDEV_RAIDZ_MAXPARITY));
  let p := kmem_alloc (Z.of_nat (2 * nmissing * n + n)) in
  rows ← mapM (fun i => view p (2 * i * n) n) (seq 0 nmissing);
  invrows ← mapM (fun i => view p (2 * i * n + n) n) (seq 0 nmissing);
  used ← view p (2 * nmissing * n) n;
  used ← fill_used rm n missing map used;
  rows ← vdev_raidz_matrix_init rm n nmissing map rows;
  '(_, invrows) ← vdev_raidz_matrix_invert rm n nmissing missing rows invrows used;
  rm ← vdev_raidz_matrix_reconstruct rm n nmissing missing invrows used;
  rm ← (if linear then Ret rm else copies_back bufs rm);
  Ret (rm, code).

(** The columns to rebuild, the parity columns that are good, and the numbers
    of bad parity and bad data columns: a column is bad if it is one of [t] or
    has an error. *)
Definition find_bad (rm : raidz_map) (t : list nat) : result (list nat * list bool * nat * nat) :=
  '(tgts, valid, _, nbadparity, nbaddata) ←
    for_loop (rm_cols rm) 0 (fun c '(tgts, valid, i, nbadparity, nbaddata) =>
      rc ← get_col rm c;
      let valid := if (c <? rm_firstdatacol rm)%nat then valid ++ [false] else valid in
      hit ← (if (i <? length t)%nat then ti ← idx t i; Ret (c =? ti)%nat else Ret false);
      if hit : bool then
        _ ← verify (length tgts <? VDEV_RAIDZ_MAXPARITY)%nat;
        Ret (tgts ++ [c], valid, S i, nbadparity, nbaddata)
      else if negb (rc_error rc =? 0) then
        _ ← verify (length tgts <? VDEV_RAIDZ_MAXPARITY)%nat;
        Ret (tgts ++ [c], valid, i, nbadparity, nbaddata)
      else if (rm_firstdatacol rm <=? c)%nat then
        Ret (tgts, valid, i, nbadparity, (nbaddata - 1)%nat)
      else
        Ret (tgts, <[c := true]> valid, i, (nbadparity - 1)%nat, nbaddata))
      ([], [], 0%nat, rm_firstdatacol rm, (rm_cols rm - rm_firstdatacol rm)%nat);
  Ret (tgts, valid, nbadparity, nbaddata).

(** [default_to_general] is the tunable [vdev_raidz_default_to_general]. *)
Definition vdev_raidz_reconstruct (default_to_general linear : bool) (rm : raidz_map) (t : list nat) :
    result (raidz_map * Z) :=
  _ ← for_loop (length t - 1) 1 (fun i _ =>
        a ← idx t i; b ← idx t (i - 1); verify (b <? a)%nat) tt;
  '(tgts, parity_valid, nbadparity, nbaddata) ← find_bad rm t;
  _ ← verify (length t <=? length tgts)%nat;
  _ ← verify (nbaddata + nbadparity =? length tgts)%nat;
  let dt := drop nbadparity tgts in
  let general :=
    '(rm, code) ← vdev_raidz_reconstruct_general linear rm tgts;
    _ ← verify (code <? Z.shiftl 1 (Z.of_nat VDEV_RAIDZ_MAXPARITY));
    _ ← verify (0 <? code);
    Ret (rm, code) in
  if default_to_general then general else
  match nbaddata with
  | 1%nat =>
      p ← idx parity_valid VDEV_RAIDZ_P;
      if p : bool then x ← idx dt 0; vdev_raidz_reconstruct_p rm x else
      _ ← verify (1 <? rm_firstdatacol rm)%nat;
      q ← idx parity_valid VDEV_RAIDZ_Q;
      if q : bool then x ← idx dt 0; vdev_raidz_reconstruct_q rm x else
      _ ← verify (2 <? rm_firstdatacol rm)%nat;
      general
  | 2%nat =>
      _ ← verify (1 <? rm_firstdatacol rm)%nat;
      p ← idx parity_valid VDEV_RAIDZ_P;
      q ← idx parity_valid VDEV_RAIDZ_Q;
      if p && q then
        x ← idx dt 0; y ← idx dt 1; vdev_raidz_reconstruct_pq abd_alloc_linear rm x y
      else
      _ ← verify (2 <? rm_firstdatacol rm)%nat;
      general
  | _ => general
  end.
End general.
