(* ===== verification/RaidzSolve.v ===== *)
(** * RAID-Z: sparse polynomials over the field of 256 elements

    What makes the matrix method sound.  A row of the matrix is a polynomial
    whose exponents are the numbers of the parity columns in use, evaluated at
    the powers of 2 of the data columns; elimination combines such rows.  A
    polynomial with exponents among 0, 1 and 2 has fewer roots among the powers
    of 2 than it has terms ([few_roots]), so no pivot is ever zero. *)

From S2P Require Import Prelude Raidz RaidzParity.

(** ** Multiplication *)

Definition lg (a : Z) : nat := Z.to_nat (nth (Z.to_nat a) vdev_raidz_log2 0).

Lemma rd_lg a :
  byte a -> a <> 0 ->
  rd vdev_raidz_log2 (Z.to_nat a) = Ret (Z.of_nat (lg a)) /\ (lg a <= 254)%nat /\ mulp (lg a) 1 = a.
Proof.
  intros Ha Hne. destruct (rd_log2 a Ha Hne) as (l & Hl & H254 & Hm).
  assert (lg a = l) as ->; [|done].
  unfold lg. rewrite nth_lookup. unfold rd in Hl. destruct (vdev_raidz_log2 !! Z.to_nat a); [|done].
  injection Hl as ->. cbn. lia.
Qed.

Definition gmul (a b : Z) : Z := if a =? 0 then 0 else mulp (lg a) b.

Lemma gmul_0_r a : gmul a 0 = 0.
Proof. unfold gmul. split_if; [done|apply mulp_0]. Qed.
Lemma gmul_1_l b : gmul 1 b = b.
Proof. done. Qed.
Lemma gmul_byte a b : byte b -> byte (gmul a b).
Proof. intros Hb. unfold gmul. split_if; [unfold byte; lia|by apply mulp_byte]. Qed.
Lemma gmul_lxor_r a b c : gmul a (Z.lxor b c) = Z.lxor (gmul a b) (gmul a c).
Proof. unfold gmul. split_if; [done|apply mulp_lxor]. Qed.
Lemma gmul_mulp_r k a b : gmul a (mulp k b) = mulp k (gmul a b).
Proof. unfold gmul. split_if; [by rewrite mulp_0|apply mulp_comm]. Qed.

Lemma gmul_comm a b : byte a -> byte b -> gmul a b = gmul b a.
Proof.
  intros Ha Hb. unfold gmul.
  destruct (Z.eqb_spec a 0) as [->|Hna], (Z.eqb_spec b 0) as [->|Hnb]; rewrite ?mulp_0; try done.
  destruct (rd_lg a Ha Hna) as (_ & _ & Ea), (rd_lg b Hb Hnb) as (_ & _ & Eb).
  rewrite <- Ea at 2. rewrite <- Eb at 1. apply mulp_comm.
Qed.

Lemma gmul_lxor_l a b c : byte a -> byte b -> byte c -> gmul (Z.lxor a b) c = Z.lxor (gmul a c) (gmul b c).
Proof.
  intros Ha Hb Hc. rewrite !(gmul_comm _ c) by auto using lxor_byte. apply gmul_lxor_r.
Qed.

Lemma gmul_mulp_l k a b : byte a -> byte b -> gmul (mulp k a) b = mulp k (gmul a b).
Proof. intros Ha Hb. rewrite !(gmul_comm _ b) by auto using mulp_byte. apply gmul_mulp_r. Qed.

(** ** Powers of 2 *)

Lemma lxor_0_eq a b : Z.lxor a b = 0 -> a = b.
Proof. apply Z.lxor_eq. Qed.

Lemma mulp_inj k a b : byte a -> byte b -> mulp k a = mulp k b -> a = b.
Proof.
  intros Ha Hb He. apply lxor_0_eq. destruct (decide (Z.lxor a b = 0)) as [|Hne]; [done|].
  exfalso. apply (mulp_nonzero k _ (lxor_byte _ _ Ha Hb) Hne). by rewrite mulp_lxor, He, Z.lxor_nilpotent.
Qed.

(** A power of 2 that fixes a nonzero element is one. *)
Lemma mulp_fix k a : byte a -> a <> 0 -> mulp k a = a -> mulp k 1 = 1.
Proof.
  intros Ha Hne He. destruct (rd_lg a Ha Hne) as (_ & _ & El). rewrite <- El, mulp_comm in He.
  apply mulp_inj in He; [done|by apply mulp_byte|done].
Qed.

(** The powers of 2 and of 4 are distinct below 255. *)
Lemma mulp_distinct s p q a :
  (1 <= s <= 2)%nat -> (p < 255)%nat -> (q < 255)%nat -> byte a -> a <> 0 -> mulp (s * p) a = mulp (s * q) a -> p = q.
Proof.
  intros Hs Hp Hq Ha Hne. revert p q Hp Hq.
  assert (forall p q, (p < q < 255)%nat -> mulp (s * p) a <> mulp (s * q) a) as Hlt.
  { intros p q Hpq He. assert (s = 1 \/ s = 2)%nat as Hs12 by lia. replace (s * q)%nat with (s * p + s * (q - p))%nat in He by lia. rewrite mulp_add in He.
    apply mulp_inj in He; [|done|by apply mulp_byte]. symmetry in He. apply mulp_fix in He; [|done..].
    destruct (decide (s * (q - p) < 255)%nat) as [Hl|Hl]; [apply (mulp_not_one (s * (q - p))); [destruct Hs12; subst s; lia|done]|].
    apply (mulp_not_one (s * (q - p) - 255)); [destruct Hs12; subst s; lia|]. rewrite <- He at 2.
    replace (s * (q - p))%nat with (s * (q - p) - 255 + 255)%nat at 2 by lia.
    by rewrite mulp_add, mulp_255. }
  intros p q Hp Hq He. destruct (lt_eq_lt_dec p q) as [[Hl|Hl]|Hl]; [|done|]; exfalso; by eapply Hlt.
Qed.

(** The sum of two distinct powers of 2 is a power of 2. *)
Lemma pow_sum p q : (p < 255)%nat -> (q < 255)%nat -> p <> q ->
  exists r, forall a, byte a -> Z.lxor (mulp p a) (mulp q a) = mulp r a.
Proof.
  intros Hp Hq Hne. assert (byte 1) as H1 by (unfold byte; lia).
  assert (Z.lxor (mulp p 1) (mulp q 1) <> 0) as Hn.
  { intros He%lxor_0_eq. apply Hne. apply (mulp_distinct 1 p q 1); try done; [lia|].
    by rewrite !Nat.mul_1_l. }
  destruct (rd_lg _ (lxor_byte _ _ (mulp_byte p 1 H1) (mulp_byte q 1 H1)) Hn) as (_ & _ & El).
  set (r := lg _) in El. exists r. intros a Ha. destruct (decide (a = 0)) as [->|Hna]; [by rewrite !mulp_0|].
  destruct (rd_lg a Ha Hna) as (_ & _ & Ea). rewrite <- Ea, !(mulp_comm _ (lg a)), El. symmetry. apply mulp_lxor.
Qed.

(** ** Roots of sparse polynomials *)

Lemma root_one k a : byte a -> mulp k a = 0 -> a = 0.
Proof. intros Ha H. destruct (decide (a = 0)) as [|Hne]; [done|]. by destruct (mulp_nonzero k a Ha Hne). Qed.

Lemma root_two s t p q c d :
  (s < t <= 2)%nat -> (p < 255)%nat -> (q < 255)%nat -> p <> q -> byte c -> byte d ->
  Z.lxor (mulp (s * p) c) (mulp (t * p) d) = 0 -> Z.lxor (mulp (s * q) c) (mulp (t * q) d) = 0 -> d = 0 /\ c = 0.
Proof.
  intros Hst Hp Hq Hne Hc Hd Ep%lxor_0_eq Eq%lxor_0_eq.
  replace (t * p)%nat with (s * p + (t - s) * p)%nat in Ep by nia.
  replace (t * q)%nat with (s * q + (t - s) * q)%nat in Eq by nia.
  rewrite mulp_add in Ep, Eq. apply mulp_inj in Ep, Eq; try done; try (by apply mulp_byte).
  assert (d = 0) as ->.
  { destruct (decide (d = 0)) as [|Hnd]; [done|]. destruct Hne. apply (mulp_distinct (t - s) p q d); try done; [lia|].
    congruence. }
  split; [done|]. by rewrite Ep, mulp_0.
Qed.

Lemma pow_square p q u e :
  (forall a, byte a -> Z.lxor (mulp p a) (mulp q a) = mulp u a) -> byte e ->
  Z.lxor (mulp (2 * p) e) (mulp (2 * q) e) = mulp u (Z.lxor (mulp p e) (mulp q e)).
Proof.
  intros Hu He. rewrite <- Hu by (apply lxor_byte; by apply mulp_byte).
  rewrite !mulp_lxor, (mulp_comm q p), <- !mulp_add. replace (2 * p)%nat with (p + p)%nat by lia.
  replace (2 * q)%nat with (q + q)%nat by lia. rewrite !Z.lxor_assoc. f_equal.
  by rewrite <- Z.lxor_assoc, Z.lxor_nilpotent, Z.lxor_0_l.
Qed.

(** Two roots of a quadratic give its linear coefficient. *)
Lemma root_pair p q c d e :
  (p < 255)%nat -> (q < 255)%nat -> p <> q -> byte c -> byte d -> byte e ->
  Z.lxor c (Z.lxor (mulp p d) (mulp (2 * p) e)) = 0 -> Z.lxor c (Z.lxor (mulp q d) (mulp (2 * q) e)) = 0 ->
  d = Z.lxor (mulp p e) (mulp q e).
Proof.
  intros Hp Hq Hne Hc Hd He Ep%lxor_0_eq Eq%lxor_0_eq. destruct (pow_sum p q Hp Hq Hne) as [u Hu].
  apply (mulp_inj u); [done|apply lxor_byte; by apply mulp_byte|].
  rewrite <- pow_square, <- Hu by done. rewrite Ep in Eq. clear -Eq.
  apply lxor_0_eq. rewrite !Z.lxor_assoc. rewrite <- (Z.lxor_assoc (mulp q d)), (Z.lxor_comm (mulp q d)).
  rewrite !Z.lxor_assoc, <- (Z.lxor_assoc (mulp p d)), Eq. apply Z.lxor_nilpotent.
Qed.

Lemma root_three p q r c d e :
  (p < 255)%nat -> (q < 255)%nat -> (r < 255)%nat -> p <> q -> p <> r -> q <> r -> byte c -> byte d -> byte e ->
  Z.lxor c (Z.lxor (mulp p d) (mulp (2 * p) e)) = 0 -> Z.lxor c (Z.lxor (mulp q d) (mulp (2 * q) e)) = 0 ->
  Z.lxor c (Z.lxor (mulp r d) (mulp (2 * r) e)) = 0 -> e = 0 /\ d = 0 /\ c = 0.
Proof.
  intros Hp Hq Hr Hpq Hpr Hqr Hc Hd He Ep Eq Er.
  pose proof (root_pair p q c d e Hp Hq Hpq Hc Hd He Ep Eq) as D1.
  pose proof (root_pair p r c d e Hp Hr Hpr Hc Hd He Ep Er) as D2.
  assert (e = 0) as ->.
  { destruct (decide (e = 0)) as [|Hne]; [done|]. destruct Hqr. apply (mulp_distinct 1 q r e); try done; [lia|].
    rewrite !Nat.mul_1_l. rewrite D1 in D2. apply (f_equal (Z.lxor (mulp p e))) in D2.
    by rewrite <- !Z.lxor_assoc, !Z.lxor_nilpotent, !Z.lxor_0_l in D2. }
  rewrite !mulp_0, Z.lxor_0_l in D1. subst d. rewrite !mulp_0 in Ep. cbn in Ep. by rewrite Z.lxor_0_r in Ep.
Qed.

(** The polynomial with the coefficients [f] at the exponents [es], at [2^e]. *)
Definition ev (es : list nat) (f : list Z) (e : nat) : Z :=
  foldr Z.lxor 0 (zip_with (fun s c => mulp (s * e) c) es f).

(** The number of its terms. *)
Definition terms (f : list Z) : nat := length (filter (fun c => c <> 0) f).

Ltac roots :=
  repeat match goal with
  | H : Forall _ (_ :: _) |- _ => apply Forall_cons in H as [? H]
  | H : NoDup (_ :: _) |- _ => apply NoDup_cons in H as [? H]
  | H : _ ∉ _ :: _ |- _ => apply not_elem_of_cons in H as [? H]
  | H : ev _ _ _ = 0 |- _ => unfold ev in H; cbn [zip_with foldr] in H; rewrite ?mulp_0, ?Z.lxor_0_r, ?Z.lxor_0_l in H
  end.

Ltac no_root :=
  exfalso; roots;
  first
  [ match goal with H : mulp _ ?c = 0, _ : ?c <> 0 |- _ => apply root_one in H; [done|done] end
  | match goal with
    | H1 : Z.lxor (mulp (?s * ?p) ?c) (mulp (?t * ?p) ?d) = 0, H2 : Z.lxor (mulp (?s * ?q) ?c) (mulp (?t * ?q) ?d) = 0,
      Hn : ?p <> ?q |- _ =>
        destruct (root_two s t p q c d) as [? ?]; [lia|lia|lia|exact Hn|done..]
    end ].

(** The exponents that can occur. *)
Lemma exponents es :
  StronglySorted lt es -> Forall (fun s => s <= 2)%nat es ->
  es = [] \/ (exists s, (s <= 2)%nat /\ es = [s]) \/ (exists s t, (s < t <= 2)%nat /\ es = [s; t]) \/ es = [0; 1; 2]%nat.
Proof.
  intros Hs H. destruct es as [|a [|b [|c [|d es]]]]; [auto|right; left; exists a|right; right; left; exists a, b|..];
    repeat match goal with
    | H : StronglySorted _ (_ :: _) |- _ => apply StronglySorted_inv in H as [H ?]
    | H : Forall _ (_ :: _) |- _ => apply Forall_cons in H as [? H]
    end; [done|split; [lia|done]| |lia].
  do 3 right. repeat f_equal; lia.
Qed.

Lemma no_roots es f R :
  StronglySorted lt es -> Forall (fun s => s <= 2)%nat es -> length f = length es -> bytes f ->
  NoDup R -> Forall (fun e => e < 255)%nat R -> Forall (fun e => ev es f e = 0) R ->
  Exists (fun c => c <> 0) f -> length R <> terms f.
Proof.
  intros Hs H2 Hl Hb Hnd H255 Hr He.
  destruct (exponents es Hs H2) as [-> | [(s & Hs2 & ->) | [(s & t & Hst & ->) | ->]]]; clear Hs H2;
    destruct f as [|c [|d [|e [|]]]]; try discriminate Hl; [by apply Exists_nil in He|..];
    repeat (apply Forall_cons in Hb as [? Hb]); unfold terms; rewrite !filter_cons;
    repeat case_decide;
    repeat match goal with H : ¬ (?c <> 0) |- _ => apply dec_stable in H end; subst;
    (destruct R as [|p [|q [|r [|]]]]; [try done..]); try no_root;
    rewrite ?Exists_cons, ?Exists_nil in He; try naive_solver.
  exfalso. clear He. roots. rewrite Nat.mul_1_l in *.
  assert (e = 0 /\ d = 0 /\ c = 0); [|tauto]. by apply (root_three p q r).
Qed.

(** A polynomial with exponents among 0, 1 and 2 has fewer roots among the
    powers of 2 than terms. *)
Lemma few_roots es f R :
  StronglySorted lt es -> Forall (fun s => s <= 2)%nat es -> length f = length es -> bytes f ->
  NoDup R -> Forall (fun e => e < 255)%nat R -> Forall (fun e => ev es f e = 0) R ->
  Exists (fun c => c <> 0) f -> (length R < terms f)%nat.
Proof.
  intros Hs H2 Hl Hb Hnd H255 Hr He. apply Nat.nle_gt. intros Hle.
  eapply (no_roots es f (take (terms f) R)); try done.
  - rewrite <- (take_drop (terms f) R) in Hnd. by apply NoDup_app in Hnd as [? _].
  - by apply Forall_take.
  - by apply Forall_take.
  - rewrite length_take. lia.
Qed.

(** ** Evaluation is linear *)

Lemma ev_scale es f e k : ev es (mulp k <$> f) e = mulp k (ev es f e).
Proof.
  unfold ev. revert f. induction es as [|s es IH]; intros [|c f]; cbn; rewrite ?mulp_0; try done.
  rewrite IH, mulp_lxor. f_equal. apply mulp_comm.
Qed.

Lemma lxor_shuffle a b c d : Z.lxor (Z.lxor a b) (Z.lxor c d) = Z.lxor (Z.lxor a c) (Z.lxor b d).
Proof.
  rewrite !Z.lxor_assoc. f_equal. rewrite <- !Z.lxor_assoc. f_equal. apply Z.lxor_comm.
Qed.

Lemma ev_add es f g e : length f = length g -> ev es (zip_with Z.lxor f g) e = Z.lxor (ev es f e) (ev es g e).
Proof.
  unfold ev. revert f g. induction es as [|s es IH]; intros [|c f] [|d g] Hl; cbn in *; try done.
  rewrite IH, mulp_lxor by lia. apply lxor_shuffle.
Qed.

Lemma ev_byte es f e : bytes f -> byte (ev es f e).
Proof.
  unfold ev. revert f. induction es as [|s es IH]; intros [|c f] Hb; cbn; try (unfold byte; lia).
  apply Forall_cons in Hb as [Hc Hf]. apply lxor_byte; [by apply mulp_byte|by apply IH].
Qed.

Lemma ev_zero es f e : Forall (fun c => c = 0) f -> ev es f e = 0.
Proof.
  unfold ev. revert f. induction es as [|s es IH]; intros [|c f] Hb; cbn; try done.
  apply Forall_cons in Hb as [-> Hf]. by rewrite IH, mulp_0.
Qed.

(** The coefficients of a row that was not combined yet: one at [i], zero
    elsewhere. *)
Definition unit_row (k i : nat) : list Z := <[i := 1]> (replicate k 0).

Lemma unit_row_lookup k i l : (l < k)%nat -> unit_row k i !! l = Some (if (i =? l)%nat then 1 else 0).
Proof.
  intros Hl. unfold unit_row. destruct (Nat.eqb_spec i l) as [-> | Hne].
  - apply list_lookup_insert_eq. by rewrite length_replicate.
  - rewrite list_lookup_insert_ne by done. by apply lookup_replicate_2.
Qed.

Lemma unit_row_length k i : length (unit_row k i) = k.
Proof. unfold unit_row. by rewrite length_insert, length_replicate. Qed.

Lemma unit_row_bytes k i : bytes (unit_row k i).
Proof. apply Forall_insert; [apply bytes_zeros|lia]. Qed.

Lemma ev_unit es i s e : es !! i = Some s -> ev es (unit_row (length es) i) e = mulp (s * e) 1.
Proof.
  unfold unit_row, ev. revert i. induction es as [|t es IH]; intros [|i] Hi; [done..|injection Hi as ->|]; cbn.
  - fold (ev es (replicate (length es) 0) e). rewrite ev_zero by (by apply Forall_replicate). apply Z.lxor_0_r.
  - rewrite mulp_0, Z.lxor_0_l. by apply IH.
Qed.

Lemma terms_le f (T : list nat) :
  (forall l c, f !! l = Some c -> c <> 0 -> l ∈ T) -> (terms f <= length T)%nat.
Proof.
  intros H. assert (exists L, NoDup L /\ length L = terms f /\ forall l, l ∈ L -> exists c, f !! l = Some c /\ c <> 0)
    as (L & Hnd & <- & HL).
  { clear H. unfold terms. induction f as [|c f (L & Hnd & Hl & HL)] using rev_ind.
    - exists []. split_and!; [constructor|done|]. intros l Hl%elem_of_nil. done.
    - rewrite filter_app, length_app, filter_cons, filter_nil. case_decide as Hc.
      + exists (length f :: L). split_and!.
        * apply NoDup_cons. split; [|done]. intros (d & Hd & _)%HL. apply lookup_lt_Some in Hd. lia.
        * cbn. lia.
        * intros l [-> | Hl']%elem_of_cons.
          -- exists c. by rewrite lookup_app_r, Nat.sub_diag by lia.
          -- destruct (HL l Hl') as (d & Hd & Hnz). exists d. split; [|done]. by apply lookup_app_l_Some.
      + exists L. split_and!; [done|cbn; lia|]. intros l Hl'. destruct (HL l Hl') as (d & Hd & Hnz).
        exists d. split; [|done]. by apply lookup_app_l_Some. }
  apply submseteq_length, NoDup_submseteq; [done|]. intros l (c & Hc & Hnz)%HL. eauto.
Qed.

Lemma terms_length f : (terms f <= length f)%nat.
Proof. apply length_filter. Qed.

Lemma terms_full f : (length f <= terms f)%nat -> Forall (fun c => c <> 0) f.
Proof.
  unfold terms. induction f as [|c f IH]; intros H; [constructor|].
  rewrite filter_cons in H. pose proof (length_filter (fun c => c <> 0) f). case_decide; cbn in H; [|lia].
  constructor; [done|]. apply IH. lia.
Qed.

Lemma Forall_delete_lookup {A} (P : A -> Prop) (l : list A) i :
  (forall j x, l !! j = Some x -> j <> i -> P x) -> Forall P (delete i l).
Proof.
  intros H. apply Forall_lookup. intros j x Hj. destruct (decide (j < i)%nat) as [Hlt|Hge].
  - rewrite list_lookup_delete_lt in Hj by done. apply (H j); [done|lia].
  - rewrite list_lookup_delete_ge in Hj by lia. apply (H (S j)); [done|lia].
Qed.

(** ** Elimination *)

Section elimination.
Context (es pts : list nat).
Context (Hs : StronglySorted lt es) (H2 : Forall (fun s => s <= 2)%nat es).
Context (Hlen : length pts = length es) (Hnd : NoDup pts) (H255 : Forall (fun e => e < 255)%nat pts).

(** Row [i] when the first [t] pivots are done: its value is one or zero at
    their points, and its coefficients from [t] on are those of the unit row. *)
Record row_ok (t i : nat) (f : list Z) : Prop := {
  ro_length : length f = length es;
  ro_bytes : bytes f;
  ro_pts j p : (j < t)%nat -> pts !! j = Some p -> ev es f p = if (i =? j)%nat then 1 else 0;
  ro_unit l c : (t <= l)%nat -> f !! l = Some c -> c = if (i =? l)%nat then 1 else 0;
}.

Lemma row_ok_unit i : row_ok 0 i (unit_row (length es) i).
Proof using All.
  split; [apply unit_row_length|apply unit_row_bytes|lia|].
  intros l c _ Hc. pose proof (lookup_lt_Some _ _ _ Hc) as Hl. rewrite unit_row_length in Hl.
  rewrite unit_row_lookup in Hc by done. by injection Hc as <-.
Qed.

Lemma row_ok_nonzero t i f : (t <= length es)%nat -> (i < length es)%nat -> row_ok t i f -> Exists (fun c => c <> 0) f.
Proof using All.
  intros Ht Hi [Hl Hb Hp Hu]. destruct (decide (Exists (fun c => c <> 0) f)) as [|Hn]; [done|exfalso].
  apply not_Exists_Forall in Hn; [|intros c; apply _].
  assert (Forall (fun c => c = 0) f) as Hz by (eapply Forall_impl; [exact Hn|]; intros c Hc; by apply dec_stable).
  destruct (decide (i < t)%nat) as [Hlt|Hge].
  - destruct (lookup_lt_is_Some_2 pts i ltac:(lia)) as [p Hpi]. pose proof (Hp i p Hlt Hpi) as He.
    rewrite Nat.eqb_refl, ev_zero in He by done. lia.
  - destruct (lookup_lt_is_Some_2 f i ltac:(lia)) as [c Hc]. pose proof (Hu i c ltac:(lia) Hc) as ->.
    rewrite Nat.eqb_refl in Hc. by pose proof (Forall_lookup_1 _ _ _ _ Hz Hc).
Qed.

(** A row is not zero at the next point. *)
Lemma row_pivot t i f p :
  (i < length es)%nat -> row_ok t i f -> pts !! t = Some p -> ev es f p <> 0.
Proof using All.
  intros Hi Hro Hp Hev. pose proof (lookup_lt_Some _ _ _ Hp) as Ht.
  pose proof (row_ok_nonzero t i f ltac:(lia) Hi Hro) as Hnz. destruct Hro as [Hl Hb Hpt Hu].
  assert (forall j q, (j < S t)%nat -> j <> i \/ (t <= i)%nat -> pts !! j = Some q -> ev es f q = 0) as Hroot.
  { intros j q Hj Hji Hq. destruct (decide (j = t)) as [-> | Hjt]; [congruence|].
    rewrite (Hpt j q) by (done || lia). destruct (Nat.eqb_spec i j); [lia|done]. }
  set (R := if decide (i < t)%nat then delete i (take (S t) pts) else take (S t) pts).
  set (T := if decide (i < t)%nat then seq 0 t else i :: seq 0 t).
  assert (length R = length T) as HRT.
  { unfold R, T. case_decide; cbn [length]; rewrite ?length_seq; [|rewrite length_take; lia].
    rewrite length_delete by (apply lookup_lt_is_Some_2; rewrite length_take; lia). rewrite length_take. lia. }
  assert (terms f <= length T)%nat as HT.
  { apply terms_le. intros l c Hc Hcn. unfold T. pose proof (Hu l c) as Hul.
    case_decide; rewrite ?elem_of_cons, elem_of_seq;
      destruct (Nat.eqb_spec i l); specialize (fun H => Hul H Hc); lia. }
  assert (R `sublist_of` pts) as Hsub.
  { unfold R. case_decide; [etrans; [apply sublist_delete|]|]; apply sublist_take. }
  pose proof (few_roots es f R Hs H2 Hl Hb (sublist_NoDup _ _ Hnd Hsub)) as Hfew.
  assert (length R < terms f)%nat; [|lia]. apply Hfew; [| |done].
  - unfold R. case_decide; [apply Forall_delete|]; by apply Forall_take.
  - unfold R. case_decide.
    + apply Forall_delete_lookup. intros j q (Hq & Hj)%lookup_take_Some Hji. eapply Hroot; eauto.
    + apply Forall_lookup. intros j q (Hq & Hj)%lookup_take_Some. eapply Hroot; eauto. lia.
Qed.

(** The pivot row, normalized. *)
Lemma row_scale_ok t f p :
  row_ok t t f -> pts !! t = Some p -> row_ok (S t) t (mulp (255 - lg (ev es f p)) <$> f).
Proof using All.
  intros Hro Hp. pose proof (lookup_lt_Some _ _ _ Hp) as Ht.
  pose proof (row_pivot t t f p ltac:(lia) Hro Hp) as Hnz. destruct Hro as [Hl Hb Hpt Hu]. split.
  - by rewrite length_fmap.
  - apply bytes_fmap; [|done]. intros b. apply mulp_byte.
  - intros j q Hj Hq. rewrite ev_scale. destruct (Nat.eqb_spec t j) as [<- | Hne].
    + replace q with p by congruence. destruct (rd_lg _ (ev_byte es f p Hb) Hnz) as (_ & Hlg & Hm).
      rewrite <- Hm at 2. rewrite <- mulp_add. replace (255 - lg (ev es f p) + lg (ev es f p))%nat with 255%nat by lia.
      apply mulp_255. unfold byte. lia.
    + rewrite (Hpt j q) by (done || lia). rewrite (proj2 (Nat.eqb_neq _ _) Hne). apply mulp_0.
  - intros l c Hlt Hc. rewrite list_lookup_fmap in Hc. destruct (f !! l) as [d|] eqn:Hd; [|done].
    injection Hc as <-. rewrite (Hu l d) by (done || lia). destruct (Nat.eqb_spec t l); [lia|]. apply mulp_0.
Qed.

(** Another row, the pivot row subtracted from it. *)
Lemma row_subtract_ok t i f g p :
  row_ok t i f -> row_ok (S t) t g -> i <> t -> (i < length es)%nat -> pts !! t = Some p ->
  row_ok (S t) i (zip_with Z.lxor f (mulp (lg (ev es f p)) <$> g)).
Proof using All.
  intros Hro Hg Hit Hi Hp. pose proof (lookup_lt_Some _ _ _ Hp) as Ht.
  pose proof (row_pivot t i f p Hi Hro Hp) as Hnz.
  destruct Hro as [Hl Hb Hpt Hu], Hg as [Hlg Hbg Hptg Hug]. split.
  - rewrite length_zip_with, length_fmap. lia.
  - apply (bytes_zip_with (fun x => x)); [apply id_map|done|]. apply bytes_fmap; [|done]. intros b. apply mulp_byte.
  - intros j q Hj Hq. rewrite ev_add, ev_scale, (Hptg j q) by (done || rewrite length_fmap; lia).
    destruct (Nat.eqb_spec t j) as [<- | Hne].
    + replace q with p by congruence. destruct (rd_lg _ (ev_byte es f p Hb) Hnz) as (_ & _ & ->).
      rewrite Z.lxor_nilpotent. by rewrite (proj2 (Nat.eqb_neq _ _) Hit).
    + rewrite mulp_0, Z.lxor_0_r. apply Hpt; [lia|done].
  - intros l c Hlt (a & b & -> & Ha & Hc)%lookup_zip_with_Some. rewrite list_lookup_fmap in Hc.
    destruct (g !! l) as [d|] eqn:Hd; [|done]. injection Hc as <-.
    rewrite (Hug l d), (Hu l a) by (done || lia). destruct (Nat.eqb_spec t l); [lia|]. by rewrite mulp_0, Z.lxor_0_r.
Qed.

(** When all pivots are done a row has no zero coefficient and is zero at no
    other point. *)
Lemma row_done i f :
  (i < length es)%nat -> row_ok (length es) i f ->
  Forall (fun c => c <> 0) f /\ forall u, (u < 255)%nat -> u ∉ pts -> ev es f u <> 0.
Proof using All.
  intros Hi Hro. pose proof (row_ok_nonzero (length es) i f ltac:(lia) Hi Hro) as Hnz. destruct Hro as [Hl Hb Hpt Hu].
  assert (Forall (fun e => ev es f e = 0) (delete i pts)) as Hroot.
  { apply Forall_delete_lookup. intros j q Hq Hji. pose proof (lookup_lt_Some _ _ _ Hq).
    rewrite (Hpt j q) by (done || lia). destruct (Nat.eqb_spec i j); [lia|done]. }
  assert (NoDup (delete i pts)) as HndR by (eapply sublist_NoDup; [exact Hnd|apply sublist_delete]).
  assert (length (delete i pts) = length es - 1)%nat as HlR.
  { rewrite length_delete by (apply lookup_lt_is_Some_2; lia). lia. }
  pose proof (few_roots es f (delete i pts) Hs H2 Hl Hb HndR (Forall_delete _ _ _ H255) Hroot Hnz) as Hf.
  pose proof (terms_length f) as Htl. split; [apply terms_full; lia|].
  intros u Hu255 Hnin Hev.
  assert (length (u :: delete i pts) < terms f)%nat; [|cbn [length] in *; lia].
  apply (few_roots es); try done.
  - apply NoDup_cons. split; [|done]. by intros H%list_elem_of_delete_inv.
  - constructor; [done|]. by apply Forall_delete.
  - by constructor.
Qed.
End elimination.

(** ** The solution of the equations *)

Fixpoint xsum (g : nat -> Z) (l : list nat) : Z :=
  match l with [] => 0 | j :: l' => Z.lxor (g j) (xsum g l') end.

Lemma xsum_app g l1 l2 : xsum g (l1 ++ l2) = Z.lxor (xsum g l1) (xsum g l2).
Proof. induction l1 as [|j l1 IH]; cbn; [by rewrite Z.lxor_0_l|]. by rewrite IH, Z.lxor_assoc. Qed.

Lemma xsum_perm g l1 l2 : l1 ≡ₚ l2 -> xsum g l1 = xsum g l2.
Proof.
  induction 1 as [| |x y l|l1 l2 l3 _ IH1 _ IH2]; cbn; [done|congruence| |congruence].
  rewrite <- !Z.lxor_assoc. f_equal. apply Z.lxor_comm.
Qed.

Lemma xsum_ext g h l : (forall j, j ∈ l -> g j = h j) -> xsum g l = xsum h l.
Proof.
  induction l as [|j l IH]; cbn; intros H; [done|]. rewrite (H j), IH; [done|..].
  - intros i Hi. apply H. by apply list_elem_of_further.
  - apply list_elem_of_here.
Qed.

Lemma xsum_lxor g h l : xsum (fun j => Z.lxor (g j) (h j)) l = Z.lxor (xsum g l) (xsum h l).
Proof. induction l as [|j l IH]; cbn; [done|]. by rewrite IH, lxor_shuffle. Qed.

Lemma xsum_zero g l : (forall j, j ∈ l -> g j = 0) -> xsum g l = 0.
Proof. intros H. rewrite (xsum_ext g (fun _ => 0)) by done. clear. induction l; cbn; [done|]. by rewrite Z.lxor_0_l. Qed.

Lemma xsum_one g l i m : l !! i = Some m -> (forall j x, l !! j = Some x -> j <> i -> g x = 0) -> xsum g l = g m.
Proof.
  revert i. induction l as [|x l IH]; intros [|i] Hi H; [done..|injection Hi as ->|]; cbn [xsum].
  - rewrite xsum_zero, Z.lxor_0_r; [done|]. intros j (k & Hk)%list_elem_of_lookup.
    apply (H (S k) j); [done|lia].
  - rewrite (H 0%nat x), Z.lxor_0_l by (done || lia). apply (IH i); [done|].
    intros j y Hy Hne. apply (H (S j)); [done|lia].
Qed.

Lemma gmul_xsum c g l : gmul c (xsum g l) = xsum (fun j => gmul c (g j)) l.
Proof. induction l as [|j l IH]; cbn; [apply gmul_0_r|]. by rewrite gmul_lxor_r, IH. Qed.

Lemma xsum_seq_S g b n : xsum g (seq (S b) n) = xsum (fun j => g (S j)) (seq b n).
Proof. revert b. induction n as [|n IH]; intros b; cbn; [done|]. f_equal. apply IH. Qed.

Lemma psum_xsum s D :
  psum s D = xsum (fun j => mulp (s * (length D - 1 - j)) (nth j D 0)) (seq 0 (length D)).
Proof.
  induction D as [|d D IH]; [done|]. cbn [psum length seq xsum]. f_equal; [f_equal; lia|].
  rewrite xsum_seq_S, IH. apply xsum_ext. intros j Hj. cbn [nth]. do 2 f_equal. lia.
Qed.

(** The product of a row and a column. *)
Definition dot (a b : list Z) : Z := foldr Z.lxor 0 (zip_with gmul a b).

Lemma dot_app a1 a2 b1 b2 : length a1 = length b1 -> dot (a1 ++ a2) (b1 ++ b2) = Z.lxor (dot a1 b1) (dot a2 b2).
Proof.
  unfold dot. revert b1. induction a1 as [|x a1 IH]; intros [|y b1] Hl; cbn in *; try done.
  rewrite IH by lia. by rewrite Z.lxor_assoc.
Qed.

Lemma dot_xsum g h l : dot (g <$> l) (h <$> l) = xsum (fun j => gmul (g j) (h j)) l.
Proof. unfold dot. induction l as [|j l IH]; cbn; [done|]. by rewrite <- IH. Qed.

(** Coefficients times parities: values times data. *)
Lemma dot_parity es f D :
  bytes f -> bytes D -> length f = length es ->
  dot f ((fun s => psum s D) <$> es) =
    xsum (fun j => gmul (ev es f (length D - 1 - j)) (nth j D 0)) (seq 0 (length D)).
Proof.
  intros Hf HD. revert f Hf. induction es as [|s es IH]; intros [|c f] Hf Hl; cbn in Hl; try lia.
  - symmetry. apply xsum_zero. done.
  - apply Forall_cons in Hf as [Hc Hf]. unfold dot. cbn [fmap list_fmap zip_with foldr].
    fold (dot f ((fun s => psum s D) <$> es)). rewrite IH by (done || lia). rewrite psum_xsum, gmul_xsum, <- xsum_lxor.
    apply xsum_ext. intros j Hj. unfold ev. cbn [zip_with foldr]. fold (ev es f (length D - 1 - j)).
    assert (byte (nth j D 0)) as Hd.
    { rewrite nth_lookup. destruct (D !! j) as [d|] eqn:E; cbn; [|unfold byte; lia]. exact (Forall_lookup_1 _ _ _ _ HD E). }
    rewrite gmul_lxor_l, gmul_mulp_r, gmul_mulp_l; auto using mulp_byte, ev_byte.
Qed.

(** Row [i] of the inverse times the columns in use is the missing column
    [i]. *)
Lemma dot_solve es pts f i m missing rest D :
  row_ok es pts (length es) i f -> (i < length es)%nat -> length pts = length es -> bytes D ->
  pts = (fun j => (length D - 1 - j)%nat) <$> missing -> missing ++ rest ≡ₚ seq 0 (length D) -> missing !! i = Some m ->
  dot (f ++ ((fun j => ev es f (length D - 1 - j)) <$> rest))
      (((fun s => psum s D) <$> es) ++ ((fun j => nth j D 0) <$> rest)) = nth m D 0.
Proof.
  intros Hro Hi Hlp HD Hpts Hperm Hm. destruct Hro as [Hl Hb Hpt _].
  rewrite dot_app by (rewrite length_fmap; done). rewrite dot_parity, dot_xsum by done.
  rewrite <- (xsum_perm _ _ _ Hperm), xsum_app, Z.lxor_assoc, Z.lxor_nilpotent, Z.lxor_0_r.
  assert (forall j x, missing !! j = Some x -> ev es f (length D - 1 - x) = if (i =? j)%nat then 1 else 0) as Hev.
  { intros j x Hj. pose proof (lookup_lt_Some _ _ _ Hj) as Hlt. rewrite <- Hlp, Hpts, length_fmap in Hpt.
    apply Hpt; [done|]. by rewrite list_lookup_fmap, Hj. }
  rewrite (xsum_one _ missing i m Hm).
  - by rewrite (Hev i m Hm), Nat.eqb_refl.
  - intros j x Hj Hne. rewrite (Hev j x Hj). by rewrite (proj2 (Nat.eqb_neq i j)) by lia.
Qed.
