(* ===== verification/RaidzInvert.v ===== *)
(** * RAID-Z: the inverse matrix

    The loops over the rows of the matrix compute the rows of [RaidzSolve]:
    [vdev_raidz_matrix_init] and [vdev_raidz_matrix_invert] return, reach none
    of their assertions, and leave the inverse rows ([invert_ok]). *)

From S2P Require Import Prelude Raidz RaidzParity RaidzMatrix RaidzSolve.

(** ** Access to rows *)

Lemma idx_ok {A} (l : list A) i a : l !! i = Some a -> idx l i = Ret a.
Proof. unfold idx. by intros ->. Qed.

Lemma mrd_eq rows i j r a : (i < length rows)%nat -> r !! j = Some a -> mrd (<[i := r]> rows) i j = Ret a.
Proof. intros Hi Ha. unfold mrd. rewrite (idx_ok _ i r); [by apply rd_ok|by apply list_lookup_insert_eq]. Qed.

Lemma mrd_ok rows i j r a : rows !! i = Some r -> r !! j = Some a -> mrd rows i j = Ret a.
Proof. intros Hi Ha. unfold mrd. rewrite (idx_ok _ _ _ Hi). by apply rd_ok. Qed.

Lemma mrd_ne rows i i' j r : i <> i' -> mrd (<[i := r]> rows) i' j = mrd rows i' j.
Proof. intros Hne. unfold mrd, idx. by rewrite list_lookup_insert_ne. Qed.

Lemma mwr_eq rows i j r a :
  (i < length rows)%nat -> (j < length r)%nat -> mwr (<[i := r]> rows) i j a = Ret (<[i := <[j := a]> r]> rows).
Proof.
  intros Hi Hj. unfold mwr. rewrite (idx_ok _ i r) by (by apply list_lookup_insert_eq). cbn [mbind result_bind].
  rewrite wr_ok by done. cbn [mbind result_bind]. by rewrite list_insert_insert_eq.
Qed.

Lemma sorted_lookup (l : list nat) i j a b :
  StronglySorted lt l -> l !! i = Some a -> l !! j = Some b -> (i < j)%nat -> (a < b)%nat.
Proof.
  intros Hs. revert i j. induction Hs as [|x l _ IH Hx]; intros i j Hi Hj Hlt; [done|].
  destruct j as [|j]; [lia|]. destruct i as [|i]; cbn in Hi, Hj.
  - injection Hi as ->. exact (Forall_lookup_1 _ _ _ _ Hx Hj).
  - apply (IH i j); [done|done|lia].
Qed.

(** A loop that checks something at each step. *)
Lemma check_loop n b (body : nat -> unit -> result unit) :
  (forall i, (b <= i < b + n)%nat -> body i tt = Ret tt) -> for_loop n b body tt = Ret tt.
Proof.
  intros H. destruct (for_loop_inv (fun _ _ => True) n b body tt) as ([] & -> & _); [|done..].
  intros i [] Hi _. exists tt. split; [by apply H|done].
Qed.

(** The first [j] elements replaced. *)
Definition upto (j : nat) (r' r : list Z) : list Z := take j r' ++ drop j r.

Lemma upto_length j r' r : length r' = length r -> length (upto j r' r) = length r.
Proof. intros H. unfold upto. rewrite length_app, length_take, length_drop. lia. Qed.

Lemma upto_at j r' r : (j <= length r')%nat -> upto j r' r !! j = r !! j.
Proof.
  intros H. unfold upto. rewrite lookup_app_r; rewrite length_take_le by done; [|done].
  by rewrite lookup_drop, Nat.sub_diag, Nat.add_0_r.
Qed.

Lemma upto_S j r' r a :
  length r' = length r -> r' !! j = Some a -> <[j := a]> (upto j r' r) = upto (S j) r' r.
Proof.
  intros Hl Ha. pose proof (lookup_lt_Some _ _ _ Ha) as Hj. unfold upto.
  rewrite insert_app_r_alt; rewrite length_take_le by lia; [|done]. rewrite Nat.sub_diag.
  rewrite (take_S_r _ _ _ Ha), <- app_assoc. f_equal.
  destruct (lookup_lt_is_Some_2 r j ltac:(lia)) as [b Hb]. by rewrite (drop_S _ _ _ Hb).
Qed.

Lemma upto_0 r' r : upto 0 r' r = r.
Proof. done. Qed.
Lemma upto_all r' r n : length r' = n -> length r = n -> upto n r' r = r'.
Proof. intros H1 H2. unfold upto. rewrite take_ge, drop_ge, app_nil_r by lia. done. Qed.

(** A loop that replaces row [i] of one matrix, or of two, element by
    element. *)
Lemma row_loop n i (rows : list (list Z)) r r' body :
  rows !! i = Some r -> length r = n -> length r' = n ->
  (forall j a b u, r !! j = Some a -> r' !! j = Some b -> u !! j = Some a -> length u = n ->
    body j (<[i := u]> rows) = Ret (<[i := <[j := b]> u]> rows)) ->
  for_loop n 0 body rows = Ret (<[i := r']> rows).
Proof.
  intros Hi Hl Hl' Hb.
  destruct (for_loop_inv (fun j st => st = <[i := upto j r' r]> rows) n 0 body rows) as (st & -> & ->).
  - intros j st Hj ->. destruct (lookup_lt_is_Some_2 r j ltac:(lia)) as [a Ha].
    destruct (lookup_lt_is_Some_2 r' j ltac:(lia)) as [b Hb']. eexists. split.
    + apply (Hb j a b); [done..| |rewrite upto_length; lia]. rewrite upto_at; [done|lia].
    + by rewrite (upto_S j r' r b) by (done || lia).
  - by rewrite upto_0, list_insert_id.
  - by rewrite upto_all by done.
Qed.

Lemma row_loop2 n i (rows inv : list (list Z)) r v r' v' body :
  rows !! i = Some r -> inv !! i = Some v ->
  length r = n -> length v = n -> length r' = n -> length v' = n ->
  (forall j a b a' b' u w, r !! j = Some a -> v !! j = Some b -> r' !! j = Some a' -> v' !! j = Some b' ->
    u !! j = Some a -> w !! j = Some b -> length u = n -> length w = n ->
    body j (<[i := u]> rows, <[i := w]> inv) = Ret (<[i := <[j := a']> u]> rows, <[i := <[j := b']> w]> inv)) ->
  for_loop n 0 body (rows, inv) = Ret (<[i := r']> rows, <[i := v']> inv).
Proof.
  intros Hi Hv Hl Hlv Hl' Hlv' Hb.
  destruct (for_loop_inv (fun j st => st = (<[i := upto j r' r]> rows, <[i := upto j v' v]> inv)) n 0 body (rows, inv))
    as (st & -> & ->).
  - intros j st Hj ->. destruct (lookup_lt_is_Some_2 r j ltac:(lia)) as [a Ha], (lookup_lt_is_Some_2 v j ltac:(lia)) as [b Hbv].
    destruct (lookup_lt_is_Some_2 r' j ltac:(lia)) as [a' Ha'], (lookup_lt_is_Some_2 v' j ltac:(lia)) as [b' Hb'].
    eexists. split.
    + apply (Hb j a b a' b'); try done; rewrite ?upto_length, ?upto_at; try done; lia.
    + by rewrite (upto_S j r' r a'), (upto_S j v' v b') by (done || lia).
  - by rewrite !upto_0, !list_insert_id.
  - by rewrite !upto_all by done.
Qed.

(** ** Row operations *)

Lemma bytes_lookup (r : list Z) j a : bytes r -> r !! j = Some a -> byte a.
Proof. intros Hr Ha. exact (Forall_lookup_1 _ _ _ _ Hr Ha). Qed.

Lemma row_scale_list n i k rows inv r v :
  rows !! i = Some r -> inv !! i = Some v -> length r = n -> length v = n -> bytes r -> bytes v -> (k <= 255)%nat ->
  row_scale n i (Z.of_nat k) (rows, inv) = Ret (<[i := mulp k <$> r]> rows, <[i := mulp k <$> v]> inv).
Proof.
  intros Hi Hv Hl Hlv Hr Hb Hk. unfold row_scale. apply (row_loop2 n i rows inv r v); try done; [by rewrite length_fmap..|].
  intros j a b a' b' u w Ha Hbj Ha' Hb' Hu Hw Hlu Hlw. rewrite list_lookup_fmap, Ha in Ha'.
  rewrite list_lookup_fmap, Hbj in Hb'. cbn in Ha', Hb'. injection Ha' as <-. injection Hb' as <-.
  pose proof (lookup_lt_Some _ _ _ Hi). pose proof (lookup_lt_Some _ _ _ Hv). pose proof (lookup_lt_Some _ _ _ Ha).
  rewrite (mrd_eq rows i j u a) by done. cbn [mbind result_bind].
  rewrite (exp2_mulp a k (bytes_lookup _ _ _ Hr Ha) Hk). cbn [mbind result_bind].
  rewrite mwr_eq by (done || lia). cbn [mbind result_bind].
  rewrite (mrd_eq inv i j w b) by done. cbn [mbind result_bind].
  rewrite (exp2_mulp b k (bytes_lookup _ _ _ Hb Hbj) Hk). cbn [mbind result_bind].
  by rewrite mwr_eq by (done || lia).
Qed.

Lemma row_subtract_list n ii i k rows inv r v s w :
  ii <> i -> rows !! i = Some r -> inv !! i = Some v -> rows !! ii = Some s -> inv !! ii = Some w ->
  length r = n -> length v = n -> length s = n -> length w = n -> bytes r -> bytes v -> (k <= 255)%nat ->
  row_subtract n ii i (Z.of_nat k) (rows, inv) =
    Ret (<[ii := zip_with Z.lxor s (mulp k <$> r)]> rows, <[ii := zip_with Z.lxor w (mulp k <$> v)]> inv).
Proof.
  intros Hne Hr Hv Hs Hw Hlr Hlv Hls Hlw Hbr Hbv Hk. unfold row_subtract.
  apply (row_loop2 n ii rows inv s w); try done; [rewrite length_zip_with, length_fmap; lia..|].
  intros j a b a' b' x y Ha Hb (a1 & a2 & -> & Ha1 & Ha2)%lookup_zip_with_Some
    (b1 & b2 & -> & Hb1 & Hb2)%lookup_zip_with_Some Hx Hy Hlx Hly.
  rewrite list_lookup_fmap in Ha2, Hb2. destruct (r !! j) as [rj|] eqn:Hrj; [|done]. destruct (v !! j) as [vj|] eqn:Hvj; [|done].
  cbn in Ha2, Hb2. injection Ha2 as <-. injection Hb2 as <-. simplify_eq.
  pose proof (lookup_lt_Some _ _ _ Hs). pose proof (lookup_lt_Some _ _ _ Hw). pose proof (lookup_lt_Some _ _ _ Hrj).
  rewrite (mrd_ne rows ii i j x Hne), (mrd_ok _ _ _ _ _ Hr Hrj). cbn [mbind result_bind].
  rewrite (exp2_mulp rj k (bytes_lookup _ _ _ Hbr Hrj) Hk). cbn [mbind result_bind].
  rewrite (mrd_eq rows ii j x _ (lookup_lt_Some _ _ _ Hs) Hx). cbn [mbind result_bind]. rewrite mwr_eq by (done || lia). cbn [mbind result_bind].
  rewrite (mrd_ne inv ii i j y Hne), (mrd_ok _ _ _ _ _ Hv Hvj). cbn [mbind result_bind].
  rewrite (exp2_mulp vj k (bytes_lookup _ _ _ Hbv Hvj) Hk). cbn [mbind result_bind].
  rewrite (mrd_eq inv ii j y _ (lookup_lt_Some _ _ _ Hw) Hy). cbn [mbind result_bind]. by rewrite mwr_eq by (done || lia).
Qed.

(** ** The rows of a polynomial *)

Section rows.
Context (n : nat) (es missing rest : list nat).

Notation pt j := (n - 1 - j)%nat.
Notation pts := ((fun j => pt j) <$> missing).

(** The row of the matrix: the values at the missing columns; the row of the
    inverse: the coefficients, then the values at the other columns. *)
Definition mrow (f : list Z) : list Z :=
  (fun j => if bool_decide (j ∈ missing) then ev es f (pt j) else 0) <$> seq 0 n.
Definition irow (f : list Z) : list Z := f ++ ((fun j => ev es f (pt j)) <$> rest).

Lemma mrow_lookup f j : (j < n)%nat -> mrow f !! j = Some (if bool_decide (j ∈ missing) then ev es f (pt j) else 0).
Proof using. intros Hj. unfold mrow. by rewrite list_lookup_fmap, lookup_seq_lt. Qed.
Lemma mrow_length f : length (mrow f) = n.
Proof using. unfold mrow. by rewrite length_fmap, length_seq. Qed.
Lemma mrow_bytes f : bytes f -> bytes (mrow f).
Proof using. intros Hf. apply Forall_fmap, Forall_true. intros j. cbn. case_bool_decide; [by apply ev_byte|lia]. Qed.
Lemma irow_bytes f : bytes f -> bytes (irow f).
Proof using. intros Hf. apply bytes_app; [done|]. apply Forall_fmap, Forall_true. intros j. by apply ev_byte. Qed.
Lemma irow_length f : length f = length es -> (length es + length rest = n)%nat -> length (irow f) = n.
Proof using. intros Hf Hn. unfold irow. rewrite length_app, length_fmap. lia. Qed.

Lemma mrow_scale k f : mrow (mulp k <$> f) = mulp k <$> mrow f.
Proof using.
  unfold mrow. rewrite <- list_fmap_compose. apply list_fmap_ext. intros _ j _. cbn.
  case_bool_decide; [apply ev_scale|by rewrite mulp_0].
Qed.
Lemma irow_scale k f : irow (mulp k <$> f) = mulp k <$> irow f.
Proof using.
  unfold irow. rewrite fmap_app, <- list_fmap_compose. f_equal. apply list_fmap_ext. intros _ j _. apply ev_scale.
Qed.

Lemma zip_with_map2 (F G : nat -> Z) l : zip_with Z.lxor (F <$> l) (G <$> l) = (fun j => Z.lxor (F j) (G j)) <$> l.
Proof using. induction l as [|j l IH]; cbn; [done|]. by f_equal. Qed.

Lemma mrow_add f g : length f = length g -> mrow (zip_with Z.lxor f g) = zip_with Z.lxor (mrow f) (mrow g).
Proof using.
  intros Hl. unfold mrow. rewrite zip_with_map2. apply list_fmap_ext. intros _ j _.
  case_bool_decide; [by apply ev_add|done].
Qed.
Lemma irow_add f g : length f = length g -> irow (zip_with Z.lxor f g) = zip_with Z.lxor (irow f) (irow g).
Proof using.
  intros Hl. unfold irow. rewrite zip_with_app by done. f_equal. rewrite zip_with_map2. apply list_fmap_ext.
  intros _ j _. by apply ev_add.
Qed.
End rows.

(** ** All rows *)

(** A loop that replaces the rows of a matrix one by one. *)
Lemma rows_loop k (rows : list (list Z)) R body :
  length rows = k ->
  (forall i r st, rows !! i = Some r -> st !! i = Some r -> length st = k -> body i st = Ret (<[i := R i]> st)) ->
  for_loop k 0 body rows = Ret (R <$> seq 0 k).
Proof.
  intros Hk Hb.
  destruct (for_loop_inv (fun i st => st = (R <$> seq 0 i) ++ drop i rows) k 0 body rows) as (st & -> & ->).
  - intros i st Hi ->. destruct (lookup_lt_is_Some_2 rows i ltac:(lia)) as [r Hr]. eexists. split.
    + apply (Hb i r); [done| |].
      * rewrite lookup_app_r; rewrite length_fmap, length_seq; [|done]. by rewrite lookup_drop, Nat.sub_diag, Nat.add_0_r.
      * rewrite length_app, length_fmap, length_seq, length_drop. lia.
    + rewrite (drop_S _ _ _ Hr), insert_app_r_alt; rewrite length_fmap, length_seq; [|done]. rewrite Nat.sub_diag. cbn [list_insert].
      by rewrite seq_S, fmap_app, <- app_assoc.
  - done.
  - cbn [Nat.add]. by rewrite drop_ge, app_nil_r by lia.
Qed.

Lemma rows_loop2 k (rows inv : list (list Z)) R V body :
  length rows = k -> length inv = k ->
  (forall i r v st st', rows !! i = Some r -> inv !! i = Some v -> st !! i = Some r -> st' !! i = Some v ->
    body i (st, st') = Ret (<[i := R i]> st, <[i := V i]> st')) ->
  for_loop k 0 body (rows, inv) = Ret (R <$> seq 0 k, V <$> seq 0 k).
Proof.
  intros Hk Hk' Hb.
  destruct (for_loop_inv (fun i st => st = ((R <$> seq 0 i) ++ drop i rows, (V <$> seq 0 i) ++ drop i inv)) k 0 body (rows, inv))
    as (st & -> & ->).
  - intros i st Hi ->. destruct (lookup_lt_is_Some_2 rows i ltac:(lia)) as [r Hr], (lookup_lt_is_Some_2 inv i ltac:(lia)) as [v Hv].
    eexists. split.
    + apply (Hb i r v); [done|done|..]; (rewrite lookup_app_r; rewrite length_fmap, length_seq; [|done]);
        by rewrite lookup_drop, Nat.sub_diag, Nat.add_0_r.
    + rewrite (drop_S _ _ _ Hr), (drop_S _ _ _ Hv), !insert_app_r_alt; rewrite ?length_fmap, ?length_seq; [|done..].
      rewrite !Nat.sub_diag. cbn [list_insert]. by rewrite seq_S, !fmap_app, <- !app_assoc.
  - done.
  - cbn [Nat.add]. by rewrite !drop_ge, !app_nil_r by lia.
Qed.

(** Row [i] of the dispersal matrix, for the parity column [s]. *)
Definition vrow (n s : nat) : list Z := (fun j => mulp (s * (n - 1 - j)) 1) <$> seq 0 n.

Lemma vrow_lookup n s j : (j < n)%nat -> vrow n s !! j = Some (mulp (s * (n - 1 - j)) 1).
Proof. intros Hj. unfold vrow. by rewrite list_lookup_fmap, lookup_seq_lt. Qed.
Lemma vrow_length n s : length (vrow n s) = n.
Proof. unfold vrow. by rewrite length_fmap, length_seq. Qed.

Lemma mulp_period a q : mulp (a + 255 * q) 1 = mulp a 1.
Proof.
  induction q as [|q IH]; [by rewrite Nat.mul_0_r, Nat.add_0_r|].
  replace (a + 255 * S q)%nat with (a + 255 * q + 255)%nat by lia. by rewrite mulp_add, mulp_255 by (unfold byte; lia).
Qed.

(** The exponent [pow] of the code, which stays between 0 and 255, for the
    exponent [e]. *)
Definition pow_ok (pow : Z) (e : nat) : Prop := 0 <= pow <= 255 /\ exists q, Z.of_nat e = pow + 255 * Z.of_nat q.

Lemma pow_ok_mulp pow e : pow_ok pow e -> rd vdev_raidz_pow2 (Z.to_nat pow) = Ret (mulp e 1).
Proof.
  intros (Hp & q & Hq). rewrite rd_pow2 by lia. f_equal. rewrite <- (mulp_period (Z.to_nat pow) q). f_equal. lia.
Qed.

Lemma pow_ok_step pow e s : pow_ok pow (e + s) -> (s <= 2)%nat ->
  pow_ok (let pow := pow - Z.of_nat s in if pow <? 0 then pow + 255 else pow) e.
Proof.
  intros (Hp & q & Hq) Hs. unfold pow_ok. cbv zeta. destruct (Z.ltb_spec (pow - Z.of_nat s) 0).
  - split; [lia|]. exists (q - 1)%nat. lia.
  - split; [lia|]. exists q. lia.
Qed.

Lemma pow_ok_start s n : (s <= 2)%nat -> (n < 255)%nat ->
  pow_ok (let pow := Z.of_nat s * Z.of_nat n in if pow >? 255 then pow - 255 else pow) (s * n).
Proof.
  intros Hs Hn. unfold pow_ok. cbv zeta. rewrite Z.gtb_ltb. destruct (Z.ltb_spec 255 (Z.of_nat s * Z.of_nat n)).
  - split; [|exists 1%nat]; nia.
  - split; [nia|exists 0%nat]; lia.
Qed.

Lemma matrix_init_ok rm n es rows :
  n = (rm_cols rm - rm_firstdatacol rm)%nat -> (n < 255)%nat -> Forall (fun s => s <= 2)%nat es ->
  length rows = length es -> Forall (fun r => length r = n) rows ->
  vdev_raidz_matrix_init rm n (length es) es rows = Ret (vrow n <$> es).
Proof.
  intros Hn H255 Hes Hl Hr. unfold vdev_raidz_matrix_init. rewrite (proj2 (Nat.eqb_eq _ _) Hn). cbn [verify mbind result_bind].
  rewrite (rows_loop (length es) rows (fun i => vrow n (nth i es 0%nat))); [|done|].
  { f_equal. apply list_eq. intros i. rewrite !list_lookup_fmap. destruct (decide (i < length es)%nat) as [Hi|Hi].
    - rewrite lookup_seq_lt by done. cbn. rewrite nth_lookup. by destruct (lookup_lt_is_Some_2 es i Hi) as [s ->].
    - by rewrite lookup_seq_ge, (lookup_ge_None_2 es) by lia. }
  intros i r st Hi Hst Hlst. pose proof (lookup_lt_Some _ _ _ Hi) as Hlt.
  destruct (lookup_lt_is_Some_2 es i ltac:(lia)) as [s Hsi]. rewrite (idx_ok _ _ _ Hsi), nth_lookup, Hsi. cbn [mbind result_bind default].
  pose proof (Forall_lookup_1 _ _ _ _ Hes Hsi) as Hs2. pose proof (Forall_lookup_1 _ _ _ _ Hr Hi) as Hrl. cbn beta in Hs2, Hrl.
  rewrite (proj2 (Nat.leb_le _ _) Hs2). cbn [verify mbind result_bind].
  pose proof (pow_ok_start s n Hs2 H255) as Hp. cbv zeta in Hp. set (pow := if _ >? 255 then _ else _) in *.
  rewrite (proj2 (Z.leb_le pow 255)) by (destruct Hp; lia). cbn [verify mbind result_bind].
  match goal with |- for_loop n 0 ?body _ ≫= _ = _ =>
    destruct (for_loop_inv (fun j st' => fst st' = <[i := upto j (vrow n s) r]> st /\ pow_ok (snd st') (s * (n - j))) n 0 body (st, pow))
      as ([st' pow'] & -> & Hst' & _) end.
  - intros j [u pw] Hj [Hu Hpw]. cbn [fst snd] in Hu, Hpw. subst u.
    replace (s * (n - j))%nat with (s * (n - 1 - j) + s)%nat in Hpw by nia.
    pose proof (pow_ok_step _ _ _ Hpw Hs2) as Hstep. cbv zeta in Hstep.
    eexists (_, _). split; [|split; [|cbn [snd]; replace (n - S j)%nat with (n - 1 - j)%nat by lia; exact Hstep]].
    + cbv zeta. rewrite (pow_ok_mulp _ _ Hstep). cbn [mbind result_bind].
      rewrite mwr_eq by (rewrite ?upto_length by (by rewrite vrow_length); lia). cbn [mbind result_bind]. reflexivity.
    + cbn [fst]. rewrite (upto_S j (vrow n s) r); [done|by rewrite vrow_length|]. rewrite vrow_lookup by lia. done.
  - cbn [fst snd]. rewrite upto_0, list_insert_id, Nat.sub_0_r by done. done.
  - cbn [fst] in Hst'. cbn [mbind result_bind Nat.add] in *. rewrite Hst', upto_all; [done|by rewrite vrow_length|done].
Qed.

Lemma matrix_unit_ok n k inv :
  length inv = k -> Forall (fun r => length r = n) inv -> matrix_unit n k inv = Ret (unit_row n <$> seq 0 k).
Proof.
  intros Hl Hr. apply rows_loop; [done|]. intros i r st Hi Hst Hlst.
  apply (row_loop n i st r); [done|by apply (Forall_lookup_1 _ _ _ _ Hr Hi)|apply unit_row_length|].
  intros j a b u Ha Hb Hu Hlu. pose proof (lookup_lt_Some _ _ _ Hu). pose proof (lookup_lt_Some _ _ _ Hst).
  rewrite unit_row_lookup in Hb by lia. injection Hb as <-. apply mwr_eq; done.
Qed.

(** Zeros written one by one. *)
Lemma zeroed_S (rest : list nat) n t jj (g : nat -> Z) :
  rest !! t = Some jj -> (jj < n)%nat ->
  <[jj := 0]> ((fun j => if bool_decide (j ∈ take t rest) then 0 else g j) <$> seq 0 n) =
  (fun j => if bool_decide (j ∈ take (S t) rest) then 0 else g j) <$> seq 0 n.
Proof.
  intros Hjj Hlt. apply list_eq. intros j. rewrite (take_S_r _ _ _ Hjj). destruct (decide (j = jj)) as [-> | Hne].
  - rewrite list_lookup_insert_eq by (by rewrite length_fmap, length_seq).
    rewrite list_lookup_fmap, lookup_seq_lt by done. cbn. rewrite bool_decide_true; [done|].
    apply elem_of_app. right. apply list_elem_of_here.
  - rewrite list_lookup_insert_ne, !list_lookup_fmap by done. destruct (seq 0 n !! j) as [j'|] eqn:E; [|done].
    apply lookup_seq in E as [-> _]. cbn. f_equal. apply (f_equal (fun b : bool => if b then 0 else g j)).
    apply bool_decide_ext. rewrite elem_of_app, list_elem_of_singleton. naive_solver.
Qed.

Lemma unit_row_app k m i : (i < k)%nat -> unit_row (k + m) i = unit_row k i ++ replicate m 0.
Proof. intros Hi. unfold unit_row. rewrite replicate_add, insert_app_l; [done|]. by rewrite length_replicate. Qed.

(** ** The elimination *)

Section invert.
Context (rm : raidz_map) (n : nat) (es missing rest : list nat) (used : list Z).
Context (Hn : n = (rm_cols rm - rm_firstdatacol rm)%nat) (H255 : (n < 255)%nat).
Context (Hes : StronglySorted lt es) (Hes2 : Forall (fun s => s <= 2)%nat es).
Context (Hesf : Forall (fun s => s < rm_firstdatacol rm)%nat es).
Context (Hk : length missing = length es) (Hms : StronglySorted lt missing).
Context (Hperm : missing ++ rest ≡ₚ seq 0 n).
Context (Hused : used = (Z.of_nat <$> es) ++ ((fun j => Z.of_nat (j + rm_firstdatacol rm)) <$> rest)).

Notation k := (length es).
Notation pt j := (n - 1 - j)%nat.
Notation pts := ((fun j => pt j) <$> missing).
Notation mrow' := (mrow n es missing).
Notation irow' := (irow n es rest).

Lemma column_counts : (k + length rest = n)%nat.
Proof using All. apply Permutation_length in Hperm. rewrite length_app, length_seq in Hperm. lia. Qed.

Lemma in_range j : j ∈ missing \/ j ∈ rest <-> (j < n)%nat.
Proof using All. rewrite <- elem_of_app, Hperm, elem_of_seq. lia. Qed.

Lemma split_nodup : NoDup missing /\ NoDup rest /\ forall j, j ∈ missing -> j ∉ rest.
Proof using All.
  assert (NoDup (missing ++ rest)) as Hnd by (rewrite Hperm; apply NoDup_seq).
  apply NoDup_app in Hnd as (? & ? & ?). auto.
Qed.

Lemma pts_ok : length pts = k /\ NoDup pts /\ Forall (fun e => e < 255)%nat pts.
Proof using All.
  split_and!; [by rewrite length_fmap| |].
  - destruct split_nodup as (Hnd & _ & _). assert (forall j, j ∈ missing -> (j < n)%nat) as Hlt.
    { intros j Hj. apply in_range. auto. }
    clear -Hnd Hlt. induction Hnd as [|x l Hx _ IH]; cbn; constructor.
    + intros (y & Hy & Hin)%list_elem_of_fmap. assert (x < n)%nat by (apply Hlt, list_elem_of_here).
      assert (y < n)%nat by (by apply Hlt, list_elem_of_further). replace y with x in Hin by lia. done.
    + apply IH. intros j Hj. by apply Hlt, list_elem_of_further.
  - apply Forall_fmap, Forall_true. intros j. cbn. lia.
Qed.

Lemma used_parity i s : es !! i = Some s -> rd used i = Ret (Z.of_nat s).
Proof using All.
  intros Hi. apply rd_ok. rewrite Hused, lookup_app_l by (rewrite length_fmap; by eapply lookup_lt_Some).
  by rewrite list_lookup_fmap, Hi.
Qed.
Lemma used_data i j : rest !! i = Some j -> rd used (k + i) = Ret (Z.of_nat (j + rm_firstdatacol rm)).
Proof using All.
  intros Hi. apply rd_ok. rewrite Hused, lookup_app_r; rewrite length_fmap; [|lia].
  by rewrite list_lookup_fmap, Nat.add_comm, Nat.add_sub, Hi.
Qed.

(** The data columns in use are moved to the inverse. *)
Lemma trivial_row i s st st' :
  es !! i = Some s -> st !! i = Some (vrow n s) -> st' !! i = Some (unit_row n i) ->
  for_loop (n - k) k (fun j '(rows, invrows) =>
      u ← rd used j;
      _ ← verify (rm_firstdatacol rm <=? Z.to_nat u)%nat;
      let jj := (Z.to_nat u - rm_firstdatacol rm)%nat in
      _ ← verify (jj <? n)%nat;
      v ← mrd rows i jj;
      invrows ← mwr invrows i j v;
      rows ← mwr rows i jj 0;
      Ret (rows, invrows)) (st, st') =
  Ret (<[i := mrow' (unit_row k i)]> st, <[i := irow' (unit_row k i)]> st').
Proof using All.
  intros Hsi Hst Hst'. pose proof (lookup_lt_Some _ _ _ Hst) as Hil. pose proof (lookup_lt_Some _ _ _ Hst') as Hil'.
  pose proof (lookup_lt_Some _ _ _ Hsi) as Hik. pose proof column_counts as Hcn. destruct split_nodup as (_ & Hndr & Hdis).
  set (R := fun t => (fun j => if bool_decide (j ∈ take t rest) then 0 else mulp (s * pt j) 1) <$> seq 0 n).
  set (V := fun t => unit_row k i ++ ((fun j => mulp (s * pt j) 1) <$> take t rest) ++ replicate (length rest - t) 0).
  assert (forall t, length (R t) = n) as HlR by (intros t; unfold R; by rewrite length_fmap, length_seq).
  assert (forall t, (t <= length rest)%nat -> length (V t) = n) as HlV.
  { intros t Ht. unfold V. rewrite !length_app, unit_row_length, length_fmap, length_take, length_replicate. lia. }
  match goal with |- for_loop _ _ ?body _ = _ =>
    destruct (for_loop_inv (fun j st0 => st0 = (<[i := R (j - k)%nat]> st, <[i := V (j - k)%nat]> st')) (n - k) k body (st, st'))
      as (st0 & -> & ->) end.
  - intros j st0 Hj ->. assert (exists t, j = k + t /\ t < length rest)%nat as (t & -> & Ht) by (exists (j - k)%nat; lia).
    replace (k + t - k)%nat with t by lia. replace (S (k + t) - k)%nat with (S t) by lia.
    destruct (lookup_lt_is_Some_2 rest t ltac:(lia)) as [jj Hjj]. rewrite (used_data t jj Hjj). cbn [mbind result_bind].
    assert (jj < n)%nat as Hjn by (apply in_range; right; by eapply list_elem_of_lookup_2).
    rewrite Nat2Z.id, (proj2 (Nat.leb_le _ _)), Nat.add_sub, (proj2 (Nat.ltb_lt _ _)) by lia. cbn [verify mbind result_bind].
    assert (jj ∉ take t rest) as Hnt.
    { intros (t' & Ht')%list_elem_of_lookup. apply lookup_take_Some in Ht' as [Ht' Hlt].
      assert (t = t'); [|lia]. by eapply NoDup_lookup. }
    eexists. split.
    + rewrite (mrd_eq st i jj _ (mulp (s * pt jj) 1)); [|done|].
      2:{ unfold R. rewrite list_lookup_fmap, lookup_seq_lt by done. cbn. by rewrite bool_decide_false. }
      cbn [mbind result_bind]. rewrite (mwr_eq st') by (rewrite ?HlV; lia).
      cbn [mbind result_bind]. rewrite (mwr_eq st) by (rewrite ?HlR; lia). cbn [mbind result_bind]. reflexivity.
    + f_equal; f_equal; [apply (zeroed_S rest); done|].
      unfold V. rewrite (take_S_r _ _ _ Hjj), fmap_app, <- app_assoc.
      replace (length rest - t)%nat with (S (length rest - S t)) by lia. cbn [replicate].
      rewrite app_assoc, insert_app_r_alt; rewrite length_app, unit_row_length, length_fmap, length_take_le by lia; [|done].
      rewrite Nat.sub_diag, <- app_assoc. done.
  - rewrite Nat.sub_diag. f_equal; rewrite list_insert_id; [done| |done|].
    + rewrite Hst. done.
    + rewrite Hst'. unfold V. cbn [take fmap list_fmap app]. rewrite Nat.sub_0_r. f_equal. rewrite <- Hcn. by apply unit_row_app.
  - replace (k + (n - k) - k)%nat with (length rest) by lia. do 2 f_equal; f_equal.
    + apply list_fmap_ext. intros _ j Hj%list_elem_of_lookup_2%elem_of_seq. rewrite firstn_all, (ev_unit es i s) by done.
      destruct (proj2 (in_range j) ltac:(lia)) as [Hin|Hin].
      * rewrite bool_decide_false, bool_decide_true by auto. done.
      * rewrite bool_decide_true, bool_decide_false by (try done; intros H; by apply (Hdis j)). done.
    + unfold V, irow. rewrite Nat.sub_diag, firstn_all, app_nil_r. f_equal. apply list_fmap_ext. intros _ j _.
      symmetry. by apply ev_unit.
Qed.

Lemma matrix_trivial_ok :
  matrix_trivial rm n k used (vrow n <$> es) (unit_row n <$> seq 0 k) =
    Ret (mrow' <$> (unit_row k <$> seq 0 k), irow' <$> (unit_row k <$> seq 0 k)).
Proof using All.
  unfold matrix_trivial. rewrite <- !list_fmap_compose. apply rows_loop2; [by rewrite length_fmap|by rewrite length_fmap, length_seq|].
  intros i r v st st' Hr Hv Hst Hst'. rewrite list_lookup_fmap in Hr, Hv.
  destruct (es !! i) as [s|] eqn:Hsi; [|done]. rewrite lookup_seq_lt in Hv by (by eapply lookup_lt_Some).
  cbn in Hr, Hv. injection Hr as <-. injection Hv as <-. by apply (trivial_row i s).
Qed.

(** The rows when the first [t] pivots are done. *)
Definition elim (t : nat) (fs : list (list Z)) : Prop :=
  length fs = k /\ forall i f, fs !! i = Some f -> row_ok es pts t i f.

Lemma elim_start : elim 0 (unit_row k <$> seq 0 k).
Proof using All.
  split; [by rewrite length_fmap, length_seq|]. intros i f Hf. rewrite list_lookup_fmap in Hf.
  destruct (seq 0 k !! i) as [j|] eqn:E; [|done]. apply lookup_seq in E as [-> _]. injection Hf as <-.
  apply row_ok_unit; try done; apply pts_ok.
Qed.

Lemma mrow_missing f i m : missing !! i = Some m -> mrow' f !! m = Some (ev es f (pt m)).
Proof using All.
  intros Hm. pose proof (list_elem_of_lookup_2 _ _ _ Hm) as Hin.
  rewrite mrow_lookup by (apply in_range; auto). by rewrite bool_decide_true.
Qed.

(** What is before the pivot is zero. *)
Lemma before_pivot t f m j :
  row_ok es pts t t f -> missing !! t = Some m -> (j < m)%nat -> mrow' f !! j = Some 0.
Proof using All.
  intros Hro Hm Hj. assert (m < n)%nat by (apply in_range; left; by eapply list_elem_of_lookup_2).
  rewrite mrow_lookup by lia. case_bool_decide as Hin; [|done].
  apply list_elem_of_lookup in Hin as (j' & Hj'). f_equal.
  assert (j' < t)%nat as Hlt.
  { destruct (decide (j' < t)%nat); [done|]. destruct (decide (j' = t)) as [-> |]; [simplify_eq; lia|].
    pose proof (sorted_lookup missing t j' m j Hms Hm Hj' ltac:(lia)). lia. }
  rewrite (ro_pts _ _ _ _ _ Hro j' (pt j) Hlt) by (by rewrite list_lookup_fmap, Hj').
  destruct (Nat.eqb_spec t j'); [lia|done].
Qed.

Definition half (t ii : nat) (fs : list (list Z)) : Prop :=
  length fs = k /\ forall i f, fs !! i = Some f -> row_ok es pts (if bool_decide (i < ii \/ i = t)%nat then S t else t) i f.

Lemma pivot_rows t m fs ii :
  missing !! t = Some m -> half t ii fs -> (ii < k)%nat ->
  exists fs', (if (t =? ii)%nat then Ret (mrow' <$> fs, irow' <$> fs) else
      a ← mrd (mrow' <$> fs) ii m;
      _ ← verify (negb (a =? 0));
      log ← rd vdev_raidz_log2 (Z.to_nat a);
      row_subtract n ii t log (mrow' <$> fs, irow' <$> fs)) = Ret (mrow' <$> fs', irow' <$> fs') /\ half t (S ii) fs'.
Proof using All.
  intros Hm [Hl Hro] Hii. pose proof (lookup_lt_Some _ _ _ Hm) as Ht. pose proof column_counts as Hcn.
  destruct pts_ok as (Hpl & Hpnd & Hp255). destruct (Nat.eqb_spec t ii) as [<- | Hne].
  { exists fs. split; [done|]. split; [done|]. intros i f Hf. specialize (Hro i f Hf).
    replace (bool_decide (i < S t \/ i = t)%nat) with (bool_decide (i < t \/ i = t)%nat); [done|]. apply bool_decide_ext. lia. }
  destruct (lookup_lt_is_Some_2 fs ii ltac:(lia)) as [f Hf], (lookup_lt_is_Some_2 fs t ltac:(lia)) as [g Hg].
  pose proof (Hro ii f Hf) as Hof. rewrite bool_decide_false in Hof by lia.
  pose proof (Hro t g Hg) as Hog. rewrite bool_decide_true in Hog by lia.
  assert (pts !! t = Some (pt m)) as Hp by (by rewrite list_lookup_fmap, Hm).
  pose proof (row_pivot es pts Hes Hes2 Hpl Hpnd Hp255 t ii f _ ltac:(lia) Hof Hp) as Hnz.
  rewrite (mrd_ok _ ii m (mrow' f) (ev es f (pt m))); [|by rewrite list_lookup_fmap, Hf|by eapply mrow_missing].
  cbn [mbind result_bind]. rewrite (proj2 (Z.eqb_neq _ _) Hnz). cbn [negb verify mbind result_bind].
  destruct (rd_lg _ (ev_byte es f (pt m) (ro_bytes _ _ _ _ _ Hof)) Hnz) as (-> & Hlg & _). cbn [mbind result_bind].
  pose proof (ro_length _ _ _ _ _ Hof) as Hlf. pose proof (ro_bytes _ _ _ _ _ Hof) as Hbf.
  pose proof (ro_length _ _ _ _ _ Hog) as Hlg'. pose proof (ro_bytes _ _ _ _ _ Hog) as Hbg.
  exists (<[ii := zip_with Z.lxor f (mulp (lg (ev es f (pt m))) <$> g)]> fs). split.
  - rewrite (row_subtract_list n ii t (lg (ev es f (pt m))) _ _ (mrow' g) (irow' g) (mrow' f) (irow' f));
      rewrite ?list_lookup_fmap, ?Hf, ?Hg; try done; try lia.
    + f_equal. rewrite !list_fmap_insert, mrow_add, irow_add, mrow_scale, irow_scale by (rewrite length_fmap; lia). done.
    + apply mrow_length.
    + by apply irow_length.
    + apply mrow_length.
    + by apply irow_length.
    + by apply mrow_bytes.
    + by apply irow_bytes.
  - split; [by rewrite length_insert|]. intros i h Hh. destruct (decide (i = ii)) as [-> | Hi].
    + rewrite list_lookup_insert_eq in Hh by lia. injection Hh as <-. rewrite bool_decide_true by lia.
      by apply row_subtract_ok.
    + rewrite list_lookup_insert_ne in Hh by done. pose proof (Hro i h Hh) as Ho.
      replace (bool_decide (i < S ii \/ i = t)%nat) with (bool_decide (i < ii \/ i = t)%nat); [done|].
      apply bool_decide_ext. lia.
Qed.

(** One pivot: no assertion fires, and one more point is done. *)
Lemma pivot_ok t fs :
  (t < k)%nat -> elim t fs ->
  exists fs', matrix_pivot n k missing t (mrow' <$> fs, irow' <$> fs) = Ret (mrow' <$> fs', irow' <$> fs') /\ elim (S t) fs'.
Proof using All.
  intros Ht [Hl Hro]. pose proof column_counts as Hcn. destruct pts_ok as (Hpl & Hpnd & Hp255).
  destruct (lookup_lt_is_Some_2 missing t ltac:(lia)) as [m Hm], (lookup_lt_is_Some_2 fs t ltac:(lia)) as [f Hf].
  pose proof (Hro t f Hf) as Hof. assert (pts !! t = Some (pt m)) as Hp by (by rewrite list_lookup_fmap, Hm).
  pose proof (row_pivot es pts Hes Hes2 Hpl Hpnd Hp255 t t f _ ltac:(lia) Hof Hp) as Hnz.
  pose proof (ro_length _ _ _ _ _ Hof) as Hlf. pose proof (ro_bytes _ _ _ _ _ Hof) as Hbf.
  unfold matrix_pivot. rewrite (idx_ok _ _ _ Hm). cbn [mbind result_bind fst].
  rewrite check_loop.
  2:{ intros j Hj. rewrite (mrd_ok _ t j (mrow' f) 0); [done|by rewrite list_lookup_fmap, Hf|].
      apply (before_pivot t f m); [done|done|lia]. }
  cbn [mbind result_bind].
  rewrite (mrd_ok _ t m (mrow' f) (ev es f (pt m))); [|by rewrite list_lookup_fmap, Hf|by eapply mrow_missing].
  cbn [mbind result_bind]. rewrite (proj2 (Z.eqb_neq _ _) Hnz). cbn [negb verify mbind result_bind].
  destruct (rd_lg _ (ev_byte es f (pt m) Hbf) Hnz) as (-> & Hlg & _). cbn [mbind result_bind].
  replace (255 - Z.of_nat (lg (ev es f (pt m)))) with (Z.of_nat (255 - lg (ev es f (pt m)))) by lia.
  rewrite (row_scale_list n t _ _ _ (mrow' f) (irow' f)); rewrite ?list_lookup_fmap, ?Hf; try done; try lia;
    [|apply mrow_length|by apply irow_length|by apply mrow_bytes|by apply irow_bytes].
  cbn [mbind result_bind]. rewrite <- mrow_scale, <- irow_scale, <- !list_fmap_insert.
  set (fs1 := <[t := _]> fs).
  assert (half t 0 fs1) as Hhalf.
  { split; [unfold fs1; by rewrite length_insert|]. intros i h Hh. unfold fs1 in Hh. destruct (decide (i = t)) as [-> | Hi].
    - rewrite list_lookup_insert_eq in Hh by lia. injection Hh as <-. rewrite bool_decide_true by lia. by apply row_scale_ok.
    - rewrite list_lookup_insert_ne in Hh by done. rewrite bool_decide_false by lia. by apply Hro. }
  match goal with |- context [for_loop ?a ?b ?body ?st0] =>
    destruct (for_loop_inv (fun ii st => exists fs', st = (mrow' <$> fs', irow' <$> fs') /\ half t ii fs') a b body st0)
      as (st' & -> & fs' & -> & Hl' & Hro') end.
  - intros ii st' Hii (fs' & -> & Hh). destruct (pivot_rows t m fs' ii Hm Hh ltac:(lia)) as (fs'' & Heq & Hh'').
    eexists. split; [exact Heq|]. eauto.
  - eauto.
  - exists fs'. split; [done|]. split; [done|]. intros i h Hh. specialize (Hro' i h Hh).
    rewrite bool_decide_true in Hro'; [done|]. pose proof (lookup_lt_Some _ _ _ Hh). lia.
Qed.

(** The inversion returns the inverse rows. *)
Lemma invert_ok inv :
  length inv = k -> Forall (fun r => length r = n) inv ->
  exists rows' fs, vdev_raidz_matrix_invert rm n k missing (vrow n <$> es) inv used = Ret (rows', irow' <$> fs) /\
    elim k fs.
Proof using All.
  intros Hli Hfi. pose proof column_counts as Hcn. unfold vdev_raidz_matrix_invert.
  rewrite (check_loop k 0).
  2:{ intros i Hi. destruct (lookup_lt_is_Some_2 es i ltac:(lia)) as [s Hs]. rewrite (used_parity i s Hs). cbn [mbind result_bind].
      rewrite Nat2Z.id, (proj2 (Nat.ltb_lt _ _)); [done|]. exact (Forall_lookup_1 _ _ _ _ Hesf Hs). }
  cbn [mbind result_bind]. rewrite (check_loop (n - k) k).
  2:{ intros i Hi. destruct (lookup_lt_is_Some_2 rest (i - k) ltac:(lia)) as [j Hj].
      replace i with (k + (i - k))%nat by lia. rewrite (used_data _ j Hj). cbn [mbind result_bind].
      by rewrite Nat2Z.id, (proj2 (Nat.leb_le _ _)) by lia. }
  cbn [mbind result_bind]. rewrite matrix_unit_ok by done. cbn [mbind result_bind]. rewrite matrix_trivial_ok. cbn [mbind result_bind].
  match goal with |- context [for_loop ?a ?b ?body (mrow' <$> ?f0, irow' <$> ?f0)] =>
    destruct (for_loop_inv (fun t st => exists fs', st = (mrow' <$> fs', irow' <$> fs') /\ elim t fs') a b body (mrow' <$> f0, irow' <$> f0))
      as (st' & -> & fs' & -> & Hl' & Hro') end.
  - intros t st' Ht (fs' & -> & He). destruct (pivot_ok t fs' ltac:(lia) He) as (fs'' & Heq & He''). eauto.
  - exists (unit_row k <$> seq 0 k). split; [done|apply elim_start].
  - cbn [mbind result_bind fst]. rewrite check_loop.
    + cbn [mbind result_bind]. exists (mrow' <$> fs'), fs'. split; [done|]. by split.
    + intros i Hi. apply check_loop. intros j Hj.
      destruct (lookup_lt_is_Some_2 missing i ltac:(lia)) as [m Hm], (lookup_lt_is_Some_2 fs' i ltac:(lia)) as [f Hf].
      rewrite (idx_ok _ _ _ Hm). cbn [mbind result_bind].
      rewrite (mrd_ok _ i j (mrow' f) (if (j =? m)%nat then 1 else 0)); [by destruct (j =? m)%nat|by rewrite list_lookup_fmap, Hf|].
      rewrite mrow_lookup by lia. f_equal. case_bool_decide as Hin.
      * apply list_elem_of_lookup in Hin as (j' & Hj'). pose proof (lookup_lt_Some _ _ _ Hj').
        rewrite (ro_pts _ _ _ _ _ (Hro' i f Hf) j' (pt j)); [|lia|by rewrite list_lookup_fmap, Hj'].
        destruct (Nat.eqb_spec i j') as [<- | Hne], (Nat.eqb_spec j m) as [-> | Hne']; try done; [simplify_eq; done|].
        destruct Hne. destruct split_nodup as (Hnd & _). by eapply NoDup_lookup.
      * destruct (Nat.eqb_spec j m) as [-> | Hne]; [|done]. destruct Hin. by eapply list_elem_of_lookup_2.
Qed.
End invert.
