(* ===== verification/RaidzRecover.v ===== *)
(** * RAID-Z: recovery of the missing columns

    [vdev_raidz_matrix_reconstruct] and [vdev_raidz_reconstruct_general] leave
    in the missing columns the bytes that were there when parity was
    generated; [vdev_raidz_reconstruct] picks a method that does, for every
    set of bad columns no larger than the number of parity columns. *)

From S2P Require Import Prelude Raidz RaidzParity RaidzMatrix RaidzSolve RaidzInvert.

(** ** Maps with other buffers in some columns *)

(** [rm'] is [rm] with the buffers [B] in the columns [cs]. *)
Record filled (rm : raidz_map) (cs : list nat) (B : nat -> list Z) (rm' : raidz_map) : Prop := {
  fi_frame : set_cols rm (rm_col rm') = rm';
  fi_in i c : cs !! i = Some c -> rm_col rm' !! c = col_abd (B i) <$> rm_col rm !! c;
  fi_out c : c ∉ cs -> rm_col rm' !! c = rm_col rm !! c;
}.

Lemma filled_ext rm cs B B' rm' :
  (forall i, (i < length cs)%nat -> B i = B' i) -> filled rm cs B rm' -> filled rm cs B' rm'.
Proof.
  intros He [Hf Hi Ho]. split; [done| |done]. intros i c Hc. rewrite <- He; [by apply Hi|by eapply lookup_lt_Some].
Qed.

Lemma filled_set rm cs B rm' i c b :
  NoDup cs -> cs !! i = Some c -> filled rm cs B rm' ->
  filled rm cs (fun j => if (j =? i)%nat then b else B j) (set_abd rm' c b).
Proof.
  intros Hnd Hc [Hf Hi Ho]. split.
  - rewrite <- Hf. done.
  - intros j c' Hc'. rewrite lookup_set_abd. destruct (Nat.eqb_spec j i) as [-> | Hne].
    + replace c' with c by congruence. rewrite decide_True, (Hi i c Hc) by done. by destruct (rm_col rm !! c).
    + rewrite decide_False; [by apply Hi|]. intros ->. destruct Hne. by eapply NoDup_lookup.
  - intros c' Hc'. rewrite lookup_set_abd, decide_False; [by apply Ho|]. intros ->. destruct Hc'.
    by eapply list_elem_of_lookup_2.
Qed.

Lemma nth_Some {A} (l : list A) i x d : l !! i = Some x -> nth i l d = x.
Proof. intros H. by rewrite nth_lookup, H. Qed.

Lemma upto_ge j r' r : (length r' <= j)%nat -> (length r <= j)%nat -> upto j r' r = r'.
Proof. intros H1 H2. unfold upto. by rewrite take_ge, drop_ge, app_nil_r by lia. Qed.

(** Rows cut out of one allocation. *)
Lemma slices p (off : nat -> nat) n l :
  (forall i, i ∈ l -> (off i + n <= length p)%nat) ->
  exists rows, mapM (fun i => view p (off i) n) l = Ret rows /\ length rows = length l /\ Forall (fun r => length r = n) rows.
Proof.
  induction l as [|i l IH]; intros H; [by exists []|].
  destruct IH as (rows & Hr & Hl & Hf); [intros j Hj; apply H; by apply list_elem_of_further|].
  specialize (H i (list_elem_of_here _ _)). exists (take n (drop (off i) p) :: rows).
  split_and!; [cbn [mapM]; rewrite view_ok, Hr by done; done|cbn; by rewrite Hl|].
  constructor; [rewrite length_take, length_drop; lia|done].
Qed.

Section recover.
Context (kmem_alloc : Z -> list Z) (Halloc : forall z, length (kmem_alloc z) = Z.to_nat z).
Context (rm : raidz_map) (m n : nat) (es missing rest : list nat) (used : list Z) (D : list (list Z)) (fs : list (list Z)) (V : nat -> nat -> Z).
Context (Hn : n = (rm_cols rm - rm_firstdatacol rm)%nat) (H255 : (n < 255)%nat).
Context (Hes : StronglySorted lt es) (Hes2 : Forall (fun s => s <= 2)%nat es).
Context (Hesf : Forall (fun s => s < rm_firstdatacol rm)%nat es).
Context (Hk : length missing = length es) (Hms : StronglySorted lt missing) (Hpos : (0 < length es)%nat).
Context (Hperm : missing ++ rest ≡ₚ seq 0 n).
Context (Hused : used = (Z.of_nat <$> es) ++ ((fun j => Z.of_nat (j + rm_firstdatacol rm)) <$> rest)).
Context (Helim : elim n es missing (length es) fs).

(** The data columns in use hold [D], the parity columns in use hold [V]. *)
Context (HD : length D = n) (HDb : Forall bytes D) (HDl : Forall (fun d => length d <= 8 * m)%nat D).
Context (Hpar : forall s, s ∈ es -> exists rc, rm_col rm !! s = Some rc /\ rc_size rc = Z.of_nat (8 * m) /\
  length (rc_abd rc) = (8 * m)%nat /\ forall y, (y < 8 * m)%nat -> nth y (rc_abd rc) 0 = V s y).
Context (HVb : forall s y, s ∈ es -> byte (V s y)).
Context (Hdat : forall j, j ∈ rest -> exists rc d, rm_col rm !! (j + rm_firstdatacol rm)%nat = Some rc /\ D !! j = Some d /\
  rc_size rc = Z.of_nat (length d) /\ take (length d) (rc_abd rc) = d).
Context (Hmis : forall j, j ∈ missing -> exists rc d, rm_col rm !! (j + rm_firstdatacol rm)%nat = Some rc /\ D !! j = Some d /\
  rc_size rc = Z.of_nat (length d) /\ length (rc_abd rc) = length d).
Context (Hsz : forall c rc, (c < rm_cols rm)%nat -> rm_col rm !! c = Some rc -> rc_size rc <= Z.of_nat (8 * m)).
Context (Hle : (rm_cols rm <= length (rm_col rm))%nat).

Notation k := (length es).
Notation fdc := (rm_firstdatacol rm).
Notation cs := ((fun j => (j + fdc)%nat) <$> missing).
Notation irow' := (irow n es rest).

(** The coefficient of the [a]-th column in use for the missing column [cc],
    and its byte at [y]. *)
Definition coef (cc a : nat) : Z := nth a (irow' (nth cc fs [])) 0.
Definition val (a y : nat) : Z :=
  if (a <? k)%nat then V (nth a es 0%nat) y
  else nth y (nth (nth (a - k) rest 0%nat) D []) 0.
Definition size_of (cc : nat) : nat := length (nth (nth cc missing 0%nat) D []).

(** The bytes of the missing column [cc] when [i] columns were used. *)
Definition part (cc i y : nat) : Z := xsum (fun a => gmul (coef cc a) (val a y)) (seq 0 i).
Definition junk_of (cc : nat) : list Z :=
  match rm_col rm !! (nth cc missing 0 + fdc)%nat with Some rc => rc_abd rc | None => [] end.
Definition prog (i cc : nat) : list Z := if (i =? 0)%nat then junk_of cc else part cc i <$> seq 0 (size_of cc).

Lemma used_counts : (k + length rest = n)%nat.
Proof using All. apply Permutation_length in Hperm. rewrite length_app, length_seq in Hperm. lia. Qed.

Lemma missing_at cc : (cc < k)%nat -> exists mi rc, missing !! cc = Some mi /\ (mi < n)%nat /\ (nth cc missing 0 = mi)%nat /\
  rm_col rm !! (mi + fdc)%nat = Some rc /\ rc_size rc = Z.of_nat (size_of cc) /\ length (rc_abd rc) = size_of cc /\
  junk_of cc = rc_abd rc /\ (size_of cc <= 8 * m)%nat.
Proof using All.
  intros Hcc. destruct (lookup_lt_is_Some_2 missing cc ltac:(lia)) as [mi Hmi].
  pose proof (list_elem_of_lookup_2 _ _ _ Hmi) as Hin. destruct (Hmis mi Hin) as (rc & d & Hrc & Hd & Hs & Hl).
  assert (nth cc missing 0 = mi)%nat as Hnth by (by apply nth_Some).
  assert (size_of cc = length d) as Hsz' by (unfold size_of; by rewrite Hnth, (nth_Some _ _ _ _ Hd)).
  exists mi, rc. rewrite Hsz'. split_and!; try done.
  - assert (mi ∈ seq 0 n) as H by (rewrite <- Hperm; by apply elem_of_app; left). apply elem_of_seq in H. lia.
  - unfold junk_of. by rewrite Hnth, Hrc.
  - exact (Forall_lookup_1 _ _ _ _ HDl Hd).
Qed.

Lemma prog_length i cc : (cc < k)%nat -> length (prog i cc) = size_of cc.
Proof using All.
  intros Hcc. unfold prog. destruct (i =? 0)%nat; [|by rewrite length_fmap, length_seq].
  destruct (missing_at cc Hcc) as (mi & rc & _ & _ & _ & _ & _ & Hl & -> & _). done.
Qed.

(** The [a]-th column in use. *)
Lemma used_col a : (a < n)%nat -> exists c rc, rd used a = Ret (Z.of_nat c) /\ rm_col rm !! c = Some rc /\ (c < rm_cols rm)%nat /\
  c ∉ cs /\ (Z.to_nat (rc_size rc) <= length (rc_abd rc))%nat /\ 0 <= rc_size rc /\
  ((a < k)%nat -> rc_size rc = Z.of_nat (8 * m)) /\
  (forall y, (y < Z.to_nat (rc_size rc))%nat -> rc_abd rc !! y = Some (val a y)) /\
  (forall y, (Z.to_nat (rc_size rc) <= y)%nat -> (k <= a)%nat -> val a y = 0).
Proof using All.
  intros Ha. pose proof used_counts as Hcn. destruct (decide (a < k)%nat) as [Hlt|Hge].
  - destruct (lookup_lt_is_Some_2 es a Hlt) as [s Hs]. pose proof (list_elem_of_lookup_2 _ _ _ Hs) as Hin.
    destruct (Hpar s Hin) as (rc & Hrc & Hs8 & Hl & Hp). pose proof (Forall_lookup_1 _ _ _ _ Hesf Hs) as Hsf. cbn beta in Hsf.
    exists s, rc. split_and!; try done; try lia.
    + by apply (used_parity rm n es missing rest).
    + intros (j & -> & _)%list_elem_of_fmap. lia.
    + intros y Hy. rewrite Hs8, Nat2Z.id in Hy. unfold val. rewrite (proj2 (Nat.ltb_lt _ _) Hlt), (nth_Some _ _ _ _ Hs).
      rewrite <- Hp by done. rewrite nth_lookup. destruct (lookup_lt_is_Some_2 (rc_abd rc) y ltac:(lia)) as [b ->]. done.
  - destruct (lookup_lt_is_Some_2 rest (a - k) ltac:(lia)) as [j Hj]. pose proof (list_elem_of_lookup_2 _ _ _ Hj) as Hin.
    destruct (Hdat j Hin) as (rc & d & Hrc & Hd & Hsd & Htk).
    assert (nth (nth (a - k) rest 0%nat) D [] = d) as Hnd by (by rewrite (nth_Some _ _ _ _ Hj), (nth_Some _ _ _ _ Hd)).
    assert (length d <= length (rc_abd rc))%nat as Hld by (rewrite <- Htk, length_take; lia).
    assert (j < n)%nat as Hjn by (rewrite <- HD; by eapply lookup_lt_Some).
    exists (j + fdc)%nat, rc. split_and!; try done; try lia.
    + replace a with (k + (a - k))%nat by lia. by apply (used_data rm n es missing rest).
    + intros (j' & Heq & Hin')%list_elem_of_fmap. replace j' with j in Hin' by lia.
      destruct (split_nodup rm n es missing rest used Hn H255 Hes Hes2 Hesf Hk Hms Hperm Hused) as (_ & _ & Hdis). by apply (Hdis j).
    + intros y Hy. unfold val. rewrite (proj2 (Nat.ltb_ge _ _)), Hnd, nth_lookup by lia. rewrite Hsd, Nat2Z.id in Hy.
      rewrite <- Htk, lookup_take_lt by done. destruct (lookup_lt_is_Some_2 (rc_abd rc) y ltac:(lia)) as [b ->]. done.
    + intros y Hy _. unfold val. rewrite (proj2 (Nat.ltb_ge _ _)), Hnd by lia. apply nth_overflow. lia.
Qed.

Lemma coef_ok cc a : (cc < k)%nat -> (a < n)%nat -> exists f, fs !! cc = Some f /\ irow' f !! a = Some (coef cc a) /\
  byte (coef cc a) /\ coef cc a <> 0.
Proof using All.
  intros Hcc Ha. pose proof used_counts as Hcn. destruct Helim as [Hfl Hro].
  destruct (lookup_lt_is_Some_2 fs cc ltac:(lia)) as [f Hf]. pose proof (Hro cc f Hf) as Ho.
  pose proof (ro_length _ _ _ _ _ Ho) as Hlf. pose proof (ro_bytes _ _ _ _ _ Ho) as Hbf.
  destruct (lookup_lt_is_Some_2 (irow' f) a) as [c Hc]; [by rewrite irow_length|].
  assert (coef cc a = c) as -> by (unfold coef; by rewrite (nth_Some _ _ _ _ Hf), (nth_Some _ _ _ _ Hc)).
  exists f. split_and!; [done|done|by eapply bytes_lookup; [apply irow_bytes|]|].
  destruct (pts_ok rm n es missing rest used Hn H255 Hes Hes2 Hesf Hk Hms Hperm Hused) as (Hpl & Hpnd & Hp255).
  destruct (row_done es _ Hes Hes2 Hpl Hpnd Hp255 cc f Hcc Ho) as [Hnz Hev].
  unfold irow in Hc. apply lookup_app_Some in Hc as [Hc|[Hge Hc]]; [exact (Forall_lookup_1 _ _ _ _ Hnz Hc)|].
  rewrite list_lookup_fmap in Hc. destruct (rest !! (a - length f)%nat) as [j|] eqn:Hj; [|done]. injection Hc as <-.
  apply list_elem_of_lookup_2 in Hj. apply Hev; [lia|]. intros (j' & Heq & Hin)%list_elem_of_fmap.
  destruct (split_nodup rm n es missing rest used Hn H255 Hes Hes2 Hesf Hk Hms Hperm Hused) as (_ & _ & Hdis).
  assert (forall i, i ∈ missing \/ i ∈ rest -> (i < n)%nat) as Hr.
  { intros i Hi. apply (in_range rm n es missing rest used); done. }
  pose proof (Hr j (or_intror Hj)). pose proof (Hr j' (or_introl Hin)). replace j' with j in Hin by lia. by apply (Hdis j).
Qed.

Lemma val_byte a y : (a < n)%nat -> byte (val a y).
Proof using All.
  intros Ha. unfold val. destruct (Nat.ltb_spec a k).
  - destruct (lookup_lt_is_Some_2 es a) as [s Hs]; [done|]. rewrite (nth_Some _ _ _ _ Hs). by eapply HVb, list_elem_of_lookup_2.
  - rewrite !nth_lookup. destruct (D !! _) as [d|] eqn:Hd; cbn; [|unfold byte; destruct y; cbn; lia].
    destruct (d !! y) as [b|] eqn:Hb; cbn; [|unfold byte; lia].
    exact (bytes_lookup _ _ _ (Forall_lookup_1 _ _ _ _ HDb Hd) Hb).
Qed.

(** ** The logarithms *)

Definition logs : list (list Z) := (fun cc => (fun a => Z.of_nat (lg (coef cc a))) <$> seq 0 n) <$> seq 0 k.

Lemma logs_at cc a : (cc < k)%nat -> (a < n)%nat -> mrd logs cc a = Ret (Z.of_nat (lg (coef cc a))).
Proof using All.
  intros Hcc Ha. eapply mrd_ok.
  - unfold logs. by rewrite list_lookup_fmap, lookup_seq_lt.
  - by rewrite list_lookup_fmap, lookup_seq_lt.
Qed.

Lemma matrix_logs_ok invlog :
  length invlog = k -> Forall (fun r => length r = n) invlog -> matrix_logs n k (irow' <$> fs) invlog = Ret logs.
Proof using All.
  intros Hl Hf. apply rows_loop; [done|]. intros i r st Hi Hst Hlst. pose proof (lookup_lt_Some _ _ _ Hi) as Hik.
  apply (row_loop n i st r); [done|exact (Forall_lookup_1 _ _ _ _ Hf Hi)|by rewrite length_fmap, length_seq|].
  intros j a b u Ha Hb Hu Hlu. assert (j < n)%nat as Hj by (rewrite <- Hlu; by eapply lookup_lt_Some).
  destruct (coef_ok i j ltac:(lia) Hj) as (f & Hfi & Hc & Hcb & Hcn).
  rewrite (mrd_ok _ i j (irow' f) (coef i j)) by (done || by rewrite list_lookup_fmap, Hfi). cbn [mbind result_bind].
  rewrite (proj2 (Z.eqb_neq _ _) Hcn). cbn [negb verify mbind result_bind].
  destruct (rd_lg _ Hcb Hcn) as (-> & _ & _). cbn [mbind result_bind].
  rewrite list_lookup_fmap, lookup_seq_lt in Hb by done. injection Hb as <-.
  apply mwr_eq; [lia|]. by rewrite Hlu.
Qed.

(** ** The bytes *)

Lemma part_S cc i y : part cc (S i) y = Z.lxor (part cc i y) (gmul (coef cc i) (val i y)).
Proof using. unfold part. rewrite seq_S, xsum_app. cbn [xsum]. by rewrite Z.lxor_0_r. Qed.

Lemma prog_S cc i y : (y < size_of cc)%nat -> prog (S i) cc !! y = Some (part cc (S i) y).
Proof using. intros Hy. unfold prog. cbn [Nat.eqb]. by rewrite list_lookup_fmap, lookup_seq_lt. Qed.

(** What one byte of a column in use adds. *)
Lemma byte_val cc i x log :
  (cc < k)%nat -> (i < n)%nat -> (val i x <> 0 -> log = Z.of_nat (lg (val i x))) ->
  (if val i x =? 0 then Ret 0 else
     il ← mrd logs cc i;
     let ll := log + il in
     rd vdev_raidz_pow2 (Z.to_nat (if ll >=? 255 then ll - 255 else ll))) = Ret (gmul (coef cc i) (val i x)).
Proof using All.
  intros Hcc Hi Hlog. destruct (Z.eqb_spec (val i x) 0) as [-> | Hne]; [by rewrite gmul_0_r|].
  rewrite logs_at, (Hlog Hne) by done. cbn [mbind result_bind]. cbv zeta.
  destruct (coef_ok cc i Hcc Hi) as (_ & _ & _ & Hcb & Hcn).
  destruct (rd_lg _ Hcb Hcn) as (_ & Hl1 & E1), (rd_lg _ (val_byte i x Hi) Hne) as (_ & Hl2 & E2).
  assert (gmul (coef cc i) (val i x) = mulp (lg (coef cc i) + lg (val i x)) 1) as ->.
  { unfold gmul. rewrite (proj2 (Z.eqb_neq _ _) Hcn), mulp_add, E2. done. }
  rewrite Z.geb_leb. destruct (Z.leb_spec 255 (Z.of_nat (lg (val i x)) + Z.of_nat (lg (coef cc i)))).
  - rewrite rd_pow2 by lia. f_equal. rewrite <- (mulp_period _ 1). f_equal. lia.
  - rewrite rd_pow2 by lia. f_equal. f_equal. lia.
Qed.

(** The buffers of the missing columns when the [i]-th column was used up to
    [x], for those before [cc] one byte further. *)
Definition stage (i x cc j : nat) : list Z := upto (if (j <? cc)%nat then S x else x) (prog (S i) j) (prog i j).

Lemma cs_nodup : NoDup cs.
Proof using All.
  destruct (split_nodup rm n es missing rest used Hn H255 Hes Hes2 Hesf Hk Hms Hperm Hused) as (Hnd & _).
  apply NoDup_fmap_2; [|done]. intros a b H. lia.
Qed.

Lemma byte_ok i x log cur :
  (i < n)%nat -> (val i x <> 0 -> log = Z.of_nat (lg (val i x))) -> filled rm cs (stage i x 0) cur ->
  exists cur', matrix_byte k missing logs i x (val i x) log cur = Ret cur' /\ filled rm cs (stage i (S x) 0) cur'.
Proof using All.
  intros Hi Hlog Hcur. unfold matrix_byte.
  match goal with |- context [for_loop k 0 ?body cur] =>
    destruct (for_loop_inv (fun cc cur => filled rm cs (stage i x cc) cur) k 0 body cur) as (cur' & -> & Hc') end.
  - intros cc c' Hcc Hf. destruct (missing_at cc ltac:(lia)) as (mi & rc & Hmi & Hmn & Hnth & Hrc & Hsize & Hlen & Hjunk & H8).
    rewrite (idx_ok _ _ _ Hmi). cbn [mbind result_bind].
    assert (cs !! cc = Some (mi + fdc)%nat) as Hcs by (by rewrite list_lookup_fmap, Hmi).
    assert (rm_firstdatacol c' = fdc) as -> by (rewrite <- (fi_frame _ _ _ _ Hf); done).
    pose proof (fi_in _ _ _ _ Hf cc _ Hcs) as Hcol. rewrite Hrc in Hcol. cbn [fmap option_fmap option_map] in Hcol.
    rewrite (get_col_ok _ _ _ Hcol). cbn [mbind result_bind rc_size rc_abd col_abd]. rewrite Hsize.
    pose proof (prog_length i cc ltac:(lia)) as Hp1. pose proof (prog_length (S i) cc ltac:(lia)) as Hp2.
    assert (stage i x cc cc = upto x (prog (S i) cc) (prog i cc)) as Hstage by (unfold stage; by rewrite Nat.ltb_irrefl).
    destruct (Z.leb_spec (Z.of_nat (size_of cc)) (Z.of_nat x)) as [Hle'|Hlt].
    + exists c'. split; [done|]. eapply filled_ext; [|exact Hf]. intros j Hj. cbn beta. unfold stage.
      destruct (Nat.ltb_spec j cc), (Nat.ltb_spec j (S cc)); try done; try lia. replace j with cc by lia.
      by rewrite !upto_ge by lia.
    + rewrite byte_val by (done || lia). cbn [mbind result_bind]. rewrite Hstage.
      destruct (lookup_lt_is_Some_2 (prog i cc) x ltac:(lia)) as [b Hb].
      rewrite (rd_ok _ x b) by (rewrite upto_at by lia; done). cbn [mbind result_bind].
      rewrite wr_ok by (rewrite upto_length; lia). cbn [mbind result_bind]. eexists. split; [reflexivity|].
      eapply filled_ext; [|apply filled_set; [apply cs_nodup|exact Hcs|exact Hf]].
      intros j Hj. cbn beta. destruct (Nat.eqb_spec j cc) as [-> | Hne].
      * unfold stage. rewrite (proj2 (Nat.ltb_lt cc (S cc))) by lia. apply upto_S; [lia|].
        rewrite prog_S by lia. f_equal. rewrite part_S. unfold prog in Hb. destruct (Nat.eqb_spec i 0) as [-> | Hi0]; [done|].
        rewrite list_lookup_fmap, lookup_seq_lt in Hb by lia. injection Hb as <-. done.
      * unfold stage. destruct (Nat.ltb_spec j cc), (Nat.ltb_spec j (S cc)); try done; lia.
  - done.
  - exists cur'. split; [done|]. eapply filled_ext; [|exact Hc']. intros j Hj. rewrite length_fmap in Hj. unfold stage.
    rewrite (proj2 (Nat.ltb_lt j (0 + k))) by lia. done.
Qed.

(** The bytes past the end of a column in use change nothing. *)
Lemma upto_done i j x :
  (j < k)%nat -> (i < n)%nat -> (forall y, (x <= y)%nat -> val i y = 0) -> i <> 0%nat ->
  upto x (prog (S i) j) (prog i j) = prog (S i) j.
Proof using All.
  intros Hj Hi Hz Hi0. unfold upto. rewrite <- (take_drop x (prog (S i) j)) at 2. f_equal.
  apply list_eq. intros y. rewrite !lookup_drop. destruct (decide (x + y < size_of j)%nat) as [Hy|Hy].
  - rewrite prog_S, part_S, Hz, gmul_0_r, Z.lxor_0_r by (done || lia). unfold prog.
    rewrite (proj2 (Nat.eqb_neq _ _) Hi0). by rewrite list_lookup_fmap, lookup_seq_lt.
  - rewrite !lookup_ge_None_2; [done|rewrite prog_length; lia..].
Qed.

Lemma column_ok i c rc log cur :
  (i < n)%nat -> rd used i = Ret (Z.of_nat c) -> filled rm cs (prog i) cur -> rm_col rm !! c = Some rc ->
  exists cur' log', matrix_column k missing logs i c (cur, log) = Ret (cur', log') /\ filled rm cs (prog (S i)) cur'.
Proof using All.
  intros Hi Hu Hcur Hrc'. destruct (used_col i Hi) as (c0 & rc0 & Hu0 & Hrc & Hcc & Hnin & Hlen & Hsz0 & Hpar8 & Hval & Hz).
  rewrite Hu in Hu0. injection Hu0 as Heq%Nat2Z.inj. subst c0. rewrite Hrc in Hrc'. injection Hrc' as ->.
  unfold matrix_column. cbn [fst]. rewrite (get_col_ok _ c rc) by (by rewrite (fi_out _ _ _ _ Hcur c Hnin)). cbn [mbind result_bind].
  match goal with |- context [for_loop ?a 0 ?body (cur, log)] =>
    destruct (for_loop_inv (fun x st => filled rm cs (stage i x 0) (fst st)) a 0 body (cur, log)) as ([cur' log'] & -> & Hc') end.
  - intros x [cu lo] Hx Hf. cbn [fst] in Hf. rewrite (get_col_ok _ c rc) by (by rewrite (fi_out _ _ _ _ Hf c Hnin)). cbn [mbind result_bind].
    rewrite (rd_ok _ x (val i x)) by (apply Hval; lia). cbn [mbind result_bind].
    assert (exists lo', (if val i x =? 0 then Ret lo else rd vdev_raidz_log2 (Z.to_nat (val i x))) = Ret lo' /\
      (val i x <> 0 -> lo' = Z.of_nat (lg (val i x)))) as (lo' & -> & Hlo').
    { destruct (Z.eqb_spec (val i x) 0) as [E|E]; [exists lo; by split|]. destruct (rd_lg _ (val_byte i x Hi) E) as (-> & _). eauto. }
    cbn [mbind result_bind]. destruct (byte_ok i x lo' cu Hi Hlo' Hf) as (cu' & -> & Hf'). cbn [mbind result_bind].
    exists (cu', lo'). done.
  - cbn [fst]. eapply filled_ext; [|exact Hcur]. intros j Hj. done.
  - exists cur', log'. split; [done|]. cbn [fst] in Hc'. eapply filled_ext; [|exact Hc']. intros j Hj. rewrite length_fmap in Hj.
    unfold stage. cbn [Nat.ltb Nat.leb Nat.add].
    destruct (missing_at j ltac:(lia)) as (_ & _ & _ & _ & _ & _ & _ & _ & _ & H8).
    destruct (decide (i < k)%nat) as [Hik|Hik].
    + specialize (Hpar8 Hik). apply upto_ge; rewrite prog_length; lia.
    + apply upto_done; try done; try lia. intros y Hy. apply Hz; lia.
Qed.

(** All columns in use together give the data, if the parity columns hold its
    parity. *)
Lemma prog_all cc d :
  (forall s y, s ∈ es -> (y < 8 * m)%nat -> V s y = psum s (row D y)) ->
  (cc < k)%nat -> D !! nth cc missing 0%nat = Some d -> prog n cc = d.
Proof using All.
  intros Hps Hcc Hd. pose proof used_counts as Hcn. destruct (missing_at cc Hcc) as (mi & rc & Hmi & Hmn & Hnth & _).
  rewrite Hnth in Hd. assert (size_of cc = length d) as Hsd by (unfold size_of; by rewrite Hnth, (nth_Some _ _ _ _ Hd)).
  apply list_eq. intros y. unfold prog. rewrite (proj2 (Nat.eqb_neq n 0)), Hsd by lia.
  destruct (decide (y < length d)%nat) as [Hy|Hy].
  2:{ rewrite !lookup_ge_None_2; [done|lia|rewrite length_fmap, length_seq; lia]. }
  rewrite list_lookup_fmap, lookup_seq_lt by done. cbn [fmap option_fmap option_map Nat.add].
  destruct (coef_ok cc 0 Hcc ltac:(lia)) as (f & Hf & _). destruct Helim as [_ Hro]. pose proof (Hro cc f Hf) as Ho.
  assert (length (row D y) = n) as HlD by (unfold row; by rewrite length_fmap).
  destruct (pts_ok rm n es missing rest used Hn H255 Hes Hes2 Hesf Hk Hms Hperm Hused) as (Hpl & _ & _).
  pose proof (dot_solve es _ f cc mi missing rest (row D y) Ho Hcc Hpl (row_bytes D y HDb)) as Hsol.
  rewrite HlD in Hsol. specialize (Hsol eq_refl Hperm Hmi).
  assert (nth mi (row D y) 0 = nth y d 0) as Hrow.
  { apply nth_Some. unfold row. by rewrite list_lookup_fmap, Hd. }
  rewrite Hrow in Hsol. unfold part.
  rewrite <- dot_xsum. destruct (lookup_lt_is_Some_2 d y Hy) as [b Hb]. rewrite Hb, (nth_Some _ _ _ _ Hb) in *. f_equal.
  rewrite <- Hsol. pose proof (ro_length _ _ _ _ _ Ho) as Hlf. f_equal.
  - apply list_eq. intros a. rewrite list_lookup_fmap. destruct (decide (a < n)%nat) as [Ha|Ha].
    + rewrite lookup_seq_lt by done. cbn [fmap option_fmap option_map Nat.add].
      destruct (coef_ok cc a Hcc Ha) as (f' & Hf' & Hc & _). replace f' with f in Hc by congruence. symmetry. exact Hc.
    + rewrite lookup_seq_ge by lia. symmetry. apply lookup_ge_None_2. rewrite length_app, length_fmap. lia.
  - apply list_eq. intros a. rewrite list_lookup_fmap. destruct (decide (a < n)%nat) as [Ha|Ha].
    + rewrite lookup_seq_lt by done. cbn [fmap option_fmap option_map Nat.add]. unfold val. destruct (Nat.ltb_spec a k) as [Hak|Hak].
      * rewrite lookup_app_l by (by rewrite length_fmap). rewrite list_lookup_fmap.
        destruct (lookup_lt_is_Some_2 es a Hak) as [s Hs]. rewrite Hs, (nth_Some _ _ _ _ Hs). cbn [fmap option_fmap option_map].
        f_equal. apply Hps; [by eapply list_elem_of_lookup_2|]. pose proof (Forall_lookup_1 _ _ _ _ HDl Hd) as H8. cbn beta in H8. lia.
      * rewrite lookup_app_r by (by rewrite length_fmap). rewrite length_fmap, list_lookup_fmap.
        destruct (lookup_lt_is_Some_2 rest (a - k) ltac:(lia)) as [j Hj]. rewrite Hj, (nth_Some _ _ _ _ Hj). cbn [fmap option_fmap option_map].
        f_equal. pose proof (list_elem_of_lookup_2 _ _ _ Hj) as Hin. destruct (Hdat j Hin) as (rc' & d' & _ & Hd' & _).
        rewrite (nth_Some _ _ _ _ Hd'). symmetry. apply nth_Some. unfold row. by rewrite list_lookup_fmap, Hd'.
    + rewrite lookup_seq_ge by lia. symmetry. apply lookup_ge_None_2. rewrite length_app, !length_fmap. lia.
Qed.

Definition truth (cc : nat) : list Z := nth (nth cc missing 0%nat) D [].

Lemma prog_bytes cc : bytes (prog n cc).
Proof using All.
  unfold prog. rewrite (proj2 (Nat.eqb_neq n 0)) by (pose proof used_counts; lia).
  apply Forall_fmap, Forall_true. intros y. cbn. unfold part.
  assert (forall l, Forall (fun a => a < n)%nat l -> byte (xsum (fun a => gmul (coef cc a) (val a y)) l)) as H.
  { induction 1 as [|a l Ha _ IH]; cbn; [unfold byte; lia|]. apply lxor_byte; [by apply gmul_byte, val_byte|done]. }
  apply H, Forall_forall. intros a Ha%elem_of_seq. lia.
Qed.

Lemma matrix_reconstruct_runs :
  exists rm', vdev_raidz_matrix_reconstruct kmem_alloc rm n k missing (irow' <$> fs) used = Ret rm' /\
    filled rm cs (prog n) rm'.
Proof using All.
  pose proof used_counts as Hcn. unfold vdev_raidz_matrix_reconstruct.
  destruct (slices (kmem_alloc (Z.of_nat (n * k))) (fun i => i * n)%nat n (seq 0 k)) as (lg0 & -> & Hl0 & Hf0).
  { intros i Hi%elem_of_seq. rewrite Halloc, Nat2Z.id. nia. }
  cbn [mbind result_bind]. rewrite length_seq in Hl0. rewrite matrix_logs_ok by done. cbn [mbind result_bind].
  match goal with |- context [for_loop n 0 ?body (rm, 0)] =>
    destruct (for_loop_inv (fun i st => filled rm cs (prog i) (fst st)) n 0 body (rm, 0)) as ([rm' log'] & -> & Hc') end.
  - intros i [cur log] Hi Hf. cbn [fst] in *.
    destruct (used_col i ltac:(lia)) as (c & rc & Hu & Hrc & Hcc & Hnin & Hlen & Hsz0 & Hpar8 & _ & _).
    rewrite Hu. cbn [mbind result_bind]. rewrite Nat2Z.id.
    assert (rm_cols cur = rm_cols rm) as -> by (rewrite <- (fi_frame _ _ _ _ Hf); done).
    assert (rm_firstdatacol cur = fdc) as -> by (rewrite <- (fi_frame _ _ _ _ Hf); done).
    rewrite (proj2 (Nat.ltb_lt _ _) Hcc). cbn [verify mbind result_bind].
    rewrite (get_col_ok _ c rc) by (by rewrite (fi_out _ _ _ _ Hf c Hnin)). cbn [mbind result_bind].
    rewrite (check_loop k 0).
    2:{ intros j Hj. destruct (missing_at j ltac:(lia)) as (mi & mc & Hmi & Hmn & _ & Hmc & _).
        assert (cs !! j = Some (mi + fdc)%nat) as Hcs by (by rewrite list_lookup_fmap, Hmi).
        rewrite (idx_ok _ _ _ Hmi). cbn [mbind result_bind].
        rewrite (proj2 (Nat.leb_le _ _)), (proj2 (Nat.ltb_lt _ _)), (proj2 (Nat.eqb_neq _ _)) by
          (try lia; intros <-; apply Hnin; by eapply list_elem_of_lookup_2).
        cbn [negb verify mbind result_bind]. erewrite get_col_ok; [done|]. by rewrite (fi_in _ _ _ _ Hf _ _ Hcs), Hmc. }
    cbn [mbind result_bind]. destruct (missing_at 0 Hpos) as (m0 & mc & Hm0 & Hmn & _). rewrite (idx_ok _ _ _ Hm0). cbn [mbind result_bind].
    assert (exists c0, rm_col cur !! m0 = Some c0 /\ rc_size c0 <= Z.of_nat (8 * m)) as (c0 & Hc0 & Hs0).
    { destruct (lookup_lt_is_Some_2 (rm_col rm) m0 ltac:(lia)) as [c0 Hc0]. pose proof (Hsz m0 c0 ltac:(lia) Hc0) as Hs0.
      destruct (decide (m0 ∈ cs)) as [Hin|Hout].
      - apply list_elem_of_lookup in Hin as (j & Hj). exists (col_abd (prog i j) c0). split; [|done].
        by rewrite (fi_in _ _ _ _ Hf _ _ Hj), Hc0.
      - exists c0. split; [|done]. by rewrite (fi_out _ _ _ _ Hf _ Hout). }
    rewrite (get_col_ok _ _ _ Hc0). cbn [mbind result_bind].
    assert ((rc_size rc >=? rc_size c0) || (0 <? i)%nat = true) as ->.
    { destruct i as [|i]; [|by rewrite orb_true_r]. specialize (Hpar8 Hpos). rewrite Z.geb_leb, (proj2 (Z.leb_le _ _)) by lia. done. }
    cbn [verify mbind result_bind]. destruct (column_ok i c rc log cur ltac:(lia) Hu Hf Hrc) as (cur' & lo' & -> & Hf'). eauto.
  - cbn [fst]. split; [by destruct rm| |done]. intros j c Hc. rewrite list_lookup_fmap in Hc.
    destruct (missing !! j) as [mi|] eqn:Hmi; [|done]. injection Hc as <-.
    unfold prog. cbn [Nat.eqb]. unfold junk_of. rewrite (nth_Some _ _ _ _ Hmi). destruct (rm_col rm !! _) as [[]|]; done.
  - cbn [mbind result_bind fst Nat.add] in *. exists rm'. done.
Qed.

Lemma filled_truth rm' :
  (forall s y, s ∈ es -> (y < 8 * m)%nat -> V s y = psum s (row D y)) ->
  filled rm cs (prog n) rm' -> filled rm cs truth rm'.
Proof using All.
  intros Hps Hc'. eapply filled_ext; [|exact Hc'].
  intros j Hj. rewrite length_fmap in Hj. destruct (missing_at j ltac:(lia)) as (mi & mc & Hmi & _ & Hnth & _).
  destruct (Hmis mi (list_elem_of_lookup_2 _ _ _ Hmi)) as (_ & d & _ & Hd & _).
  unfold truth. rewrite Hnth, (nth_Some _ _ _ _ Hd). apply prog_all; [done|lia|]. by rewrite Hnth.
Qed.
End recover.
