(* ===== verification/RaidzGeneral.v ===== *)
(** * RAID-Z: any columns up to the number of parity columns

    The choice of the parity columns and of the columns in use, the general
    method as a whole, and the choice of the method. *)

From S2P Require Import Prelude Raidz RaidzParity RaidzMatrix RaidzSolve RaidzInvert RaidzRecover.

(** ** Sorted lists of columns *)

Lemma sorted_filter (P : nat -> Prop) `{!forall j, Decision (P j)} l : StronglySorted lt l -> StronglySorted lt (filter P l).
Proof.
  induction 1 as [|x l _ IH Hx]; [constructor|]. rewrite filter_cons. case_decide; [|done].
  constructor; [done|]. apply Forall_forall. intros y (_ & Hy)%list_elem_of_filter. by eapply Forall_forall in Hx.
Qed.

Lemma sorted_seq b n : StronglySorted lt (seq b n).
Proof.
  revert b. induction n as [|n IH]; intros b; cbn; constructor; [apply IH|].
  apply Forall_forall. intros y Hy%elem_of_seq. lia.
Qed.

Lemma sorted_nodup l : StronglySorted lt l -> NoDup l.
Proof.
  induction 1 as [|x l _ IH Hx]; constructor; [|done]. intros Hin. eapply Forall_forall in Hx; [|exact Hin]. lia.
Qed.

Lemma sorted_ext l1 l2 :
  StronglySorted lt l1 -> StronglySorted lt l2 -> (forall x, x ∈ l1 <-> x ∈ l2) -> l1 = l2.
Proof.
  intros H1 H2 He. apply (StronglySorted_unique_strong lt); [lia|done|done|].
  apply NoDup_Permutation; [by apply sorted_nodup..|done].
Qed.

Lemma sorted_sub f l :
  StronglySorted lt l -> Forall (fun t => f <= t)%nat l -> StronglySorted lt ((fun t => (t - f)%nat) <$> l).
Proof.
  induction 1 as [|x l _ IH Hx]; intros Hf; cbn; [constructor|]. apply Forall_cons in Hf as [Hfx Hf].
  constructor; [by apply IH|]. apply Forall_fmap, Forall_forall. intros y Hy. cbn. eapply Forall_forall in Hx, Hf; [|exact Hy..]. lia.
Qed.

(** The place of a column among those that satisfy [P]. *)
Lemma filter_seq_at (P : nat -> Prop) `{!forall j, Decision (P j)} n j :
  (j < n)%nat -> P j -> filter P (seq 0 n) !! length (filter P (seq 0 j)) = Some j.
Proof.
  intros Hj HP. replace n with (j + S (n - j - 1))%nat by lia. rewrite seq_app, filter_app, lookup_app_r, Nat.sub_diag by done.
  cbn [seq Nat.add]. rewrite filter_cons_True by done. done.
Qed.

Lemma filter_seq_S (P : nat -> Prop) `{!forall j, Decision (P j)} j :
  length (filter P (seq 0 (S j))) = (length (filter P (seq 0 j)) + if decide (P j) then 1 else 0)%nat.
Proof. rewrite seq_S, filter_app, length_app, filter_cons. cbn [Nat.add]. by case_decide. Qed.

Section targets.
Context (fdc n : nat) (tgts : list nat).
Context (Hs : StronglySorted lt tgts) (Hlt : Forall (fun t => t < fdc + n)%nat tgts).

(** The data columns that are missing and those that are not, counted from the
    first data column; the parity columns that are good. *)
Definition gone : list nat := filter (fun j => (j + fdc)%nat ∈ tgts) (seq 0 n).
Definition kept : list nat := filter (fun j => (j + fdc)%nat ∉ tgts) (seq 0 n).
Definition good_parity : list nat := filter (fun c => c ∉ tgts) (seq 0 fdc).

Lemma gone_kept : gone ++ kept ≡ₚ seq 0 n.
Proof using. apply filter_app_complement. Qed.

Lemma gone_tgts : (fun t => (t - fdc)%nat) <$> filter (fun t => (fdc <= t)%nat) tgts = gone.
Proof using Hs Hlt.
  apply sorted_ext; [| |].
  - apply sorted_sub; [by apply sorted_filter|]. apply Forall_forall. by intros t (? & _)%list_elem_of_filter.
  - apply sorted_filter, sorted_seq.
  - intros j. unfold gone. rewrite list_elem_of_fmap, list_elem_of_filter, elem_of_seq. split.
    + intros (t & -> & (Hge & Hin)%list_elem_of_filter). pose proof (proj1 (Forall_forall _ _) Hlt t Hin) as H. cbn beta in H.
      split; [|lia]. by replace (t - fdc + fdc)%nat with t by lia.
    + intros [Hin Hj]. exists (j + fdc)%nat. split; [lia|]. apply list_elem_of_filter. split; [lia|done].
Qed.

Lemma split_tgts : (length (filter (fun t => t < fdc) tgts) + length gone = length tgts)%nat.
Proof using Hs Hlt.
  rewrite <- gone_tgts, length_fmap. pose proof (filter_app_complement (fun t => (t < fdc)%nat) tgts) as Hp.
  apply Permutation_length in Hp. rewrite length_app in Hp. rewrite <- Hp. f_equal. f_equal.
  apply list_filter_iff. intros t. lia.
Qed.

(** There are as many good parity columns as missing data columns. *)
Lemma enough_parity : (length tgts <= fdc)%nat -> (length gone <= length good_parity)%nat.
Proof using Hs Hlt.
  intros Hle. pose proof split_tgts as Hsp. unfold good_parity.
  pose proof (filter_app_complement (fun c => c ∈ tgts) (seq 0 fdc)) as Hp. apply Permutation_length in Hp.
  rewrite length_app, length_seq in Hp.
  assert (filter (fun c => c ∈ tgts) (seq 0 fdc) = filter (fun t => (t < fdc)%nat) tgts) as Heq; [|rewrite Heq in Hp; lia].
  apply sorted_ext; [apply sorted_filter, sorted_seq|by apply sorted_filter|].
  intros c. rewrite !list_elem_of_filter, elem_of_seq. naive_solver lia.
Qed.

(** ** The parity columns in use *)

Definition add_bit (code : Z) (c : nat) : Z := Z.lor code (Z.shiftl 1 (Z.of_nat c)).

Lemma pick_parity_ok fuel c T need code map :
  (c + fuel = fdc)%nat -> suffix T tgts -> (forall t, t ∈ tgts -> t ∈ T \/ (t < c)%nat) -> Forall (fun t => c <= t)%nat T ->
  Exists (fun t => fdc <= t)%nat T ->
  (need <= length (filter (fun c => c ∉ tgts) (seq c fuel)))%nat ->
  pick_parity tgts fuel c (length tgts - length T) need code map =
    Ret (let ps := take need (filter (fun c => c ∉ tgts) (seq c fuel)) in (foldl add_bit code ps, map ++ ps)).
Proof using Hs Hlt.
  revert c T need code map. induction fuel as [|fuel IH]; intros c T need code map Hc Hsuf Hin HT Hex Hneed;
    (destruct need as [|need]; [cbv zeta; by rewrite take_0, app_nil_r|]); [cbn in Hneed; lia|].
  destruct T as [|t T]; [by apply Exists_nil in Hex|]. pose proof (suffix_length _ _ Hsuf) as Hsl. cbn [length] in Hsl.
  assert (tgts !! (length tgts - length (t :: T))%nat = Some t) as Ht.
  { destruct Hsuf as [l0 ->]. rewrite length_app, Nat.add_sub, lookup_app_r, Nat.sub_diag by done. done. }
  cbn [pick_parity]. rewrite (proj2 (Nat.ltb_lt _ _)), (idx_ok _ _ _ Ht) by (cbn [length]; lia). cbn [verify mbind result_bind].
  apply Forall_cons in HT as [Hct HT]. cbn [seq] in *.
  assert (StronglySorted lt (t :: T)) as HsT.
  { destruct Hsuf as [l0 Heq]. pose proof Hs as Hs'. rewrite Heq in Hs'. clear -Hs'.
    induction l0 as [|x l0 IH]; [done|]. apply IH. by apply StronglySorted_inv in Hs' as [? _]. }
  apply StronglySorted_inv in HsT as [HsT HtT].
  destruct (Nat.eqb_spec c t) as [<- | Hne].
  - replace (S (length tgts - length (c :: T)))%nat with (length tgts - length T)%nat by (cbn [length]; lia).
    assert (c ∈ tgts) as Hcin by (eapply list_elem_of_lookup_2, Ht).
    rewrite filter_cons_False in * by (by intros H). apply IH; [lia|..|done].
    + destruct Hsuf as [l0 ->]. exists (l0 ++ [c]). by rewrite <- app_assoc.
    + intros t [[-> | Hi]%elem_of_cons | Hi]%Hin; [right; lia|by left|right; lia].
    + eapply Forall_impl; [exact HtT|]. cbn beta. lia.
    + apply Exists_cons in Hex as [Hex|Hex]; [lia|done].
  - assert (c ∉ tgts) as Hcn.
    { intros [[-> | Hi]%elem_of_cons | Hi]%Hin; [done| |lia]. eapply Forall_forall in HtT; [|exact Hi]. lia. }
    rewrite filter_cons_True in * by done. cbn [length] in Hneed. cbn [take foldl].
    rewrite (IH (S c) (t :: T)); [cbv zeta; by rewrite <- app_assoc|lia|done| | |done|lia].
    + intros t' [Hi|Hi]%Hin; [by left|right; lia].
    + constructor; [lia|]. eapply Forall_impl; [exact HtT|]. cbn beta. lia.
Qed.
End targets.

(** ** The columns in use *)

Lemma wr_upto j r' r a :
  length r' = length r -> r' !! j = Some a -> wr (upto j r' r) j a = Ret (upto (S j) r' r).
Proof.
  intros Hl Ha. pose proof (lookup_lt_Some _ _ _ Ha). rewrite wr_ok by (rewrite upto_length; lia). by rewrite (upto_S j r' r a).
Qed.

Lemma byte_mod c : (c < 255)%nat -> Z.of_nat c mod 256 = Z.of_nat c.
Proof. intros H. apply Z.mod_small. lia. Qed.

Lemma fill_used_ok rm n tgts es used :
  (rm_firstdatacol rm + n < 256)%nat -> Forall (fun c => c < 255)%nat es ->
  length es = length (gone (rm_firstdatacol rm) n tgts) -> length used = n ->
  fill_used rm n (gone (rm_firstdatacol rm) n tgts) es used =
    Ret ((Z.of_nat <$> es) ++ ((fun j => Z.of_nat (j + rm_firstdatacol rm)) <$> kept (rm_firstdatacol rm) n tgts)).
Proof.
  intros H255 Hes Hle Hlu. set (fdc := rm_firstdatacol rm) in *. set (ms := gone fdc n tgts) in *. set (rest := kept fdc n tgts).
  set (final := (Z.of_nat <$> es) ++ ((fun j => Z.of_nat (j + fdc)) <$> rest)).
  pose proof (Permutation_length (gone_kept fdc n tgts)) as Hpl. fold ms rest in Hpl. rewrite length_app, length_seq in Hpl.
  assert (length final = length used) as Hlf by (unfold final; rewrite length_app, !length_fmap; lia).
  unfold fill_used. fold fdc.
  destruct (for_loop_inv (fun i u => u = upto i final used) (length ms) 0
    (fun i used => c ← idx es i; wr used i (Z.of_nat c mod 256)) used) as (u & -> & ->).
  { intros i u Hi ->. destruct (lookup_lt_is_Some_2 es i ltac:(lia)) as [c Hc]. rewrite (idx_ok _ _ _ Hc). cbn [mbind result_bind].
    rewrite byte_mod by exact (Forall_lookup_1 _ _ _ _ Hes Hc). eexists. split; [|done]. apply wr_upto; [done|].
    unfold final. rewrite lookup_app_l by (rewrite length_fmap; lia). by rewrite list_lookup_fmap, Hc. }
  { done. }
  cbn [mbind result_bind Nat.add].
  match goal with |- for_loop n fdc ?body ?st0 ≫= _ = _ =>
    destruct (for_loop_inv (fun c st =>
      let g := length (filter (fun j => (j + fdc)%nat ∈ tgts) (seq 0 (c - fdc))) in
      let r := length (filter (fun j => (j + fdc)%nat ∉ tgts) (seq 0 (c - fdc))) in
      st = (upto (length ms + r) final used, (length ms + r)%nat, g)) n fdc body st0) as (st' & -> & ->) end.
  - intros c st Hc ->. cbv zeta. set (j := (c - fdc)%nat). replace c with (j + fdc)%nat by lia.
    assert (j < n)%nat as Hj by lia. replace (S (j + fdc) - fdc)%nat with (S j) by lia.
    rewrite !filter_seq_S.
    set (g := length (filter (fun j => (j + fdc)%nat ∈ tgts) (seq 0 j))).
    set (r := length (filter (fun j => (j + fdc)%nat ∉ tgts) (seq 0 j))).
    destruct (decide ((j + fdc)%nat ∈ tgts)) as [Hin|Hout].
    + rewrite (decide_False (P := (j + fdc)%nat ∉ tgts)) by (by intros H).
      pose proof (filter_seq_at (fun j => (j + fdc)%nat ∈ tgts) n j Hj Hin) as Hat. fold g in Hat. fold (gone fdc n tgts) in Hat. fold ms in Hat.
      pose proof (lookup_lt_Some _ _ _ Hat) as Hgl. rewrite (proj2 (Nat.ltb_lt _ _) Hgl), (idx_ok _ _ _ Hat). cbn [mbind result_bind].
      rewrite Nat.eqb_refl. eexists. split; [reflexivity|]. by rewrite Nat.add_0_r, Nat.add_1_r.
    + rewrite (decide_True (P := (j + fdc)%nat ∉ tgts)) by done.
      assert ((if (g <? length ms)%nat then m0 ← idx ms g; Ret (j + fdc =? m0 + fdc)%nat else Ret false) = Ret false) as ->.
      { destruct (Nat.ltb_spec g (length ms)) as [Hg|]; [|done]. destruct (lookup_lt_is_Some_2 ms g Hg) as [m0 Hm0].
        rewrite (idx_ok _ _ _ Hm0). cbn [mbind result_bind]. f_equal. apply Nat.eqb_neq. intros Heq. destruct Hout. rewrite Heq.
        apply list_elem_of_lookup_2 in Hm0. by apply list_elem_of_filter in Hm0 as [? _]. }
      cbn [mbind result_bind].
      pose proof (filter_seq_at (fun j => (j + fdc)%nat ∉ tgts) n j Hj Hout) as Hat. fold r in Hat.
      fold (kept fdc n tgts) in Hat. fold rest in Hat. pose proof (lookup_lt_Some _ _ _ Hat) as Hrl.
      rewrite (proj2 (Nat.ltb_lt _ _)), byte_mod by lia. cbn [verify mbind result_bind].
      rewrite wr_upto; [|done|].
      * cbn [mbind result_bind]. eexists. split; [reflexivity|]. by rewrite Nat.add_0_r, Nat.add_1_r, Nat.add_succ_r.
      * unfold final. rewrite lookup_app_r; rewrite length_fmap; [|lia]. rewrite list_lookup_fmap.
        replace (length ms + r - length es)%nat with r by lia. by rewrite Hat.
  - cbv zeta. rewrite Nat.sub_diag. cbn [seq]. by rewrite !filter_nil, Nat.add_0_r.
  - cbv zeta. cbn [mbind result_bind]. f_equal. replace (fdc + n - fdc)%nat with n by lia.
    fold (kept fdc n tgts). fold rest. apply upto_ge; lia.
Qed.

(** ** Stripes *)

(** [rm] holds a stripe of the data columns [D]: the columns that are not bad
    are as they were when parity was generated. *)
Record stripe (m : nat) (D : list (list Z)) (bad : nat -> Prop) (rm : raidz_map) : Prop := {
  st_wf : raidz_wf m rm;
  st_parities : (1 <= rm_firstdatacol rm <= 3)%nat;
  st_cols : (rm_cols rm <= 255)%nat;
  st_length : length D = (rm_cols rm - rm_firstdatacol rm)%nat;
  st_bytes : Forall bytes D;
  st_desc i j d d' : (i <= j)%nat -> D !! i = Some d -> D !! j = Some d' -> (length d' <= length d)%nat;
  st_size j d rc : D !! j = Some d -> rm_col rm !! (j + rm_firstdatacol rm)%nat = Some rc ->
    rc_size rc = Z.of_nat (length d) /\ length (rc_abd rc) = length d;
  st_pos j d : D !! j = Some d -> (0 < length d)%nat;
  st_parity c rc : (c < rm_firstdatacol rm)%nat -> ~ bad c -> rm_col rm !! c = Some rc -> rc_abd rc = par (mulp c) (8 * m) D;
  st_data j d rc : ~ bad (j + rm_firstdatacol rm)%nat -> D !! j = Some d ->
    rm_col rm !! (j + rm_firstdatacol rm)%nat = Some rc -> rc_abd rc = d;
}.

(** [rm'] is [rm] with all data columns as they were. *)
Record repaired (D : list (list Z)) (rm rm' : raidz_map) : Prop := {
  re_frame : set_cols rm (rm_col rm') = rm';
  re_other c : (c < rm_firstdatacol rm \/ rm_cols rm <= c)%nat -> rm_col rm' !! c = rm_col rm !! c;
  re_data j d : D !! j = Some d ->
    rm_col rm' !! (j + rm_firstdatacol rm)%nat = col_abd d <$> rm_col rm !! (j + rm_firstdatacol rm)%nat;
}.

Section stripe.
Context (m : nat) (D : list (list Z)) (bad : nat -> Prop) (rm : raidz_map).
Context (Hst : stripe m D bad rm).

Notation fdc := (rm_firstdatacol rm).
Notation n := (rm_cols rm - rm_firstdatacol rm)%nat.

Lemma stripe_col j d : D !! j = Some d -> exists rc, rm_col rm !! (j + fdc)%nat = Some rc.
Proof using All.
  intros Hd. pose proof (lookup_lt_Some _ _ _ Hd) as Hj. rewrite (st_length _ _ _ _ Hst) in Hj.
  apply (wf_col m rm _ (st_wf _ _ _ _ Hst)). lia.
Qed.

Lemma stripe_short j d : D !! j = Some d -> (length d <= 8 * m)%nat.
Proof using All.
  intros Hd. destruct (stripe_col j d Hd) as [rc Hrc]. pose proof (lookup_lt_Some _ _ _ Hd) as Hj. rewrite (st_length _ _ _ _ Hst) in Hj.
  destruct (wf_data m rm (st_wf _ _ _ _ Hst) (j + fdc) rc ltac:(lia) Hrc) as (_ & k & Hk & Hs & _).
  destruct (st_size _ _ _ _ Hst j d rc Hd Hrc) as [Hs' _]. lia.
Qed.

Lemma stripe_lengths : Forall (fun d => length d <= 8 * m)%nat D.
Proof using All. apply Forall_lookup. intros j d Hd. by eapply stripe_short. Qed.

Lemma stripe_size c rc : (c < rm_cols rm)%nat -> rm_col rm !! c = Some rc -> rc_size rc <= Z.of_nat (8 * m).
Proof using All.
  intros Hc Hrc. destruct (decide (c < fdc)%nat) as [Hlt|Hge].
  - destruct (wf_parity m rm (st_wf _ _ _ _ Hst) c rc Hlt Hrc) as (_ & -> & _). lia.
  - destruct (wf_data m rm (st_wf _ _ _ _ Hst) c rc ltac:(lia) Hrc) as (_ & k & Hk & -> & _). lia.
Qed.

(** Copies to and from linear buffers change nothing. *)
Lemma linear_copies_ok alloc : (forall z, length (alloc z) = Z.to_nat z) -> linear_copies alloc rm = Ret rm.
Proof using All.
  intros Hal. unfold linear_copies.
  match goal with |- for_loop ?a ?b ?body _ = _ =>
    destruct (for_loop_inv (fun _ r => r = rm) a b body rm) as (rm' & -> & ->); [|done|done] end.
  intros c r Hc ->. pose proof (st_length _ _ _ _ Hst) as HlD.
  destruct (lookup_lt_is_Some_2 D (c - fdc) ltac:(lia)) as [d Hd]. destruct (stripe_col _ d Hd) as [rc Hrc].
  destruct (st_size _ _ _ _ Hst _ d rc Hd Hrc) as [Hs Hl]. replace (c - fdc + fdc)%nat with c in * by lia.
  rewrite (get_col_ok _ _ _ Hrc). cbn [mbind result_bind]. rewrite abd_copy_ok by (rewrite ?Hal; lia). cbn [mbind result_bind].
  exists rm. split; [|done]. f_equal. rewrite take_ge, drop_ge, app_nil_r by (rewrite ?Hal; lia). by apply set_abd_id.
Qed.

Lemma copies_back_ok rm' :
  (forall j d, D !! j = Some d -> exists d', length d' = length d /\
    rm_col rm' !! (j + fdc)%nat = col_abd d' <$> rm_col rm !! (j + fdc)%nat) ->
  rm_firstdatacol rm' = fdc -> rm_cols rm' = rm_cols rm -> copies_back rm rm' = Ret rm'.
Proof using All.
  intros Hd' Hf Hc'. unfold copies_back. rewrite Hf, Hc'.
  match goal with |- for_loop ?a ?b ?body _ = _ =>
    destruct (for_loop_inv (fun _ r => r = rm') a b body rm') as (r & -> & ->); [|done|done] end.
  intros c r Hc ->. pose proof (st_length _ _ _ _ Hst) as HlD.
  destruct (lookup_lt_is_Some_2 D (c - fdc) ltac:(lia)) as [d Hd]. destruct (stripe_col _ d Hd) as [rc Hrc].
  destruct (st_size _ _ _ _ Hst _ d rc Hd Hrc) as [Hs Hl]. destruct (Hd' _ d Hd) as (d' & Hl' & Hrc').
  replace (c - fdc + fdc)%nat with c in * by lia. rewrite Hrc in Hrc'. cbn in Hrc'.
  rewrite (get_col_ok _ _ _ Hrc'), (get_col_ok _ _ _ Hrc). cbn [mbind result_bind rc_size rc_abd col_abd].
  rewrite abd_copy_ok by lia. cbn [mbind result_bind].
  exists rm'. split; [|done]. f_equal. rewrite take_ge, drop_ge, app_nil_r by lia.
  change d' with (rc_abd (col_abd d' rc)). by apply set_abd_id.
Qed.

(** Filled with the data, the map is repaired. *)
Lemma filled_repaired ms rm' :
  (forall j, bad (j + fdc)%nat -> (j < n)%nat -> j ∈ ms) -> (forall j, j ∈ ms -> (j < n)%nat) ->
  filled rm ((fun j => (j + fdc)%nat) <$> ms) (truth ms D) rm' -> repaired D rm rm'.
Proof using All.
  intros Hbad Hlt [Hf Hi Ho]. split; [done| |].
  - intros c Hc. apply Ho. intros (j & -> & Hj%Hlt)%list_elem_of_fmap. lia.
  - intros j d Hd. destruct (decide (j ∈ ms)) as [Hin|Hout].
    + apply list_elem_of_lookup in Hin as (i & Hij). rewrite (Hi i) by (by rewrite list_lookup_fmap, Hij).
      unfold truth. by rewrite (nth_Some _ _ _ _ Hij), (nth_Some _ _ _ _ Hd).
    + rewrite Ho by (intros (j' & Heq & Hj')%list_elem_of_fmap; replace j' with j in Hj' by lia; done).
      destruct (stripe_col j d Hd) as [rc Hrc]. rewrite Hrc. cbn [fmap option_fmap option_map].
      pose proof (lookup_lt_Some _ _ _ Hd) as Hj. rewrite (st_length _ _ _ _ Hst) in Hj.
      assert (rc_abd rc = d) as <-; [|by destruct rc]. apply (st_data _ _ _ _ Hst j); try done.
      intros Hb. apply Hout. by apply Hbad.
Qed.
End stripe.

(** ** The general method *)

(** The parity columns the general method uses. *)
Definition in_use (fdc n : nat) (tgts : list nat) : list nat := take (length (gone fdc n tgts)) (good_parity fdc tgts).

Lemma code_bounds es :
  StronglySorted lt es -> Forall (fun s => s <= 2)%nat es -> es <> [] -> 0 < foldl add_bit 0 es < 8.
Proof.
  intros Hs H2 Hne. destruct (exponents es Hs H2) as [-> | [(s & Hs2 & ->) | [(s & t & Hst & ->) | ->]]]; [done|..|done].
  - destruct s as [|[|[|]]]; [done..|lia].
  - destruct s as [|[|[|]]], t as [|[|[|]]]; try lia; done.
Qed.

Section general_method.
Context (kmem_alloc abd_alloc : Z -> list Z).
Context (Hkm : forall z, length (kmem_alloc z) = Z.to_nat z) (Habd : forall z, length (abd_alloc z) = Z.to_nat z).
Context (m : nat) (D : list (list Z)) (bad : nat -> Prop) (rm : raidz_map) (tgts : list nat).
Context (Hst : stripe m D bad rm) (Hbad : forall c, (rm_firstdatacol rm <= c < rm_cols rm)%nat -> bad c -> c ∈ tgts).
Context (Hs : StronglySorted lt tgts) (Hlt : Forall (fun t => t < rm_cols rm)%nat tgts).
Context (Hfew : (length tgts <= rm_firstdatacol rm)%nat) (Hdata : Exists (fun t => rm_firstdatacol rm <= t)%nat tgts).

Notation fdc := (rm_firstdatacol rm).
Notation n := (rm_cols rm - rm_firstdatacol rm)%nat.
Notation ms := (gone fdc n tgts).
Notation es := (in_use fdc n tgts).

Lemma tgts_lt : Forall (fun t => t < fdc + n)%nat tgts.
Proof using All.
  pose proof (wf_cols _ _ (st_wf _ _ _ _ Hst)). eapply Forall_impl; [exact Hlt|]. cbn beta. lia.
Qed.

Lemma in_use_length : length es = length ms.
Proof using All.
  unfold in_use. apply length_take_le. apply enough_parity; [done|apply tgts_lt|done].
Qed.

Lemma in_use_ok :
  StronglySorted lt es /\ Forall (fun s => s <= 2)%nat es /\ Forall (fun s => s < fdc)%nat es /\ es <> [] /\
  forall s, s ∈ es -> s ∉ tgts /\ (s < fdc)%nat.
Proof using All.
  assert (forall s, s ∈ es -> s ∉ tgts /\ (s < fdc)%nat) as Hin.
  { intros s Hin. unfold in_use in Hin. apply list_elem_of_lookup in Hin as (i & (Hi & _)%lookup_take_Some).
    apply list_elem_of_lookup_2, list_elem_of_filter in Hi as [? H%elem_of_seq]. split; [done|lia]. }
  pose proof (st_parities _ _ _ _ Hst) as H3. split_and!; [| | | |done].
  - assert (StronglySorted lt (good_parity fdc tgts)) as Hg by apply sorted_filter, sorted_seq.
    unfold in_use. rewrite <- (take_drop (length ms) (good_parity fdc tgts)) in Hg. clear -Hg.
    revert Hg. generalize (take (length ms) (good_parity fdc tgts)) as a, (drop (length ms) (good_parity fdc tgts)) as b.
    intros a b. induction a as [|x a IH]; intros Hg; [constructor|]. cbn in Hg. apply StronglySorted_inv in Hg as [Hg Hx].
    apply Forall_app in Hx as [Hx _]. constructor; [by apply IH|done].
  - apply Forall_forall. intros s [_ ?]%Hin. lia.
  - apply Forall_forall. intros s [_ ?]%Hin. done.
  - intros Hnil. pose proof in_use_length as Hl. rewrite Hnil in Hl. destruct ms as [|j l] eqn:E; [|done].
    apply Exists_exists in Hdata as (t & Ht & Hge). pose proof (proj1 (Forall_forall _ _) Hlt t Ht) as Htl. cbn beta in Htl.
    assert ((t - fdc)%nat ∈ ms) as Hi; [|rewrite E in Hi; by apply elem_of_nil in Hi].
    apply list_elem_of_filter. rewrite elem_of_seq. replace (t - fdc + fdc)%nat with t by lia. split; [done|lia].
Qed.

(** What the general method finds in the columns. *)
Definition held (s y : nat) : Z := match rm_col rm !! s with Some rc => nth y (rc_abd rc) 0 | None => 0 end.

Lemma use_parity s : (s < fdc)%nat -> exists rc, rm_col rm !! s = Some rc /\ rc_size rc = Z.of_nat (8 * m) /\
  length (rc_abd rc) = (8 * m)%nat /\ forall y, (y < 8 * m)%nat -> nth y (rc_abd rc) 0 = held s y.
Proof using All.
  intros Hf. pose proof (wf_cols _ _ (st_wf _ _ _ _ Hst)). destruct (wf_col m rm s (st_wf _ _ _ _ Hst) ltac:(lia)) as [rc Hrc].
  destruct (wf_parity m rm (st_wf _ _ _ _ Hst) s rc Hf Hrc) as (_ & Hs8 & Hl). exists rc. split_and!; try done.
  intros y Hy. unfold held. by rewrite Hrc.
Qed.

Lemma held_byte s y : (s < fdc)%nat -> byte (held s y).
Proof using All.
  intros Hf. unfold held. destruct (rm_col rm !! s) as [rc|] eqn:Hrc; [|unfold byte; lia].
  destruct (wf_parity m rm (st_wf _ _ _ _ Hst) s rc Hf Hrc) as (Hb & _). rewrite nth_lookup.
  destruct (rc_abd rc !! y) as [b|] eqn:E; [exact (bytes_lookup _ _ _ Hb E)|unfold byte; cbn; lia].
Qed.

Lemma held_parity s y : (s < fdc)%nat -> ~ bad s -> (y < 8 * m)%nat -> held s y = psum s (row D y).
Proof using All.
  intros Hf Hg Hy. unfold held. pose proof (wf_cols _ _ (st_wf _ _ _ _ Hst)).
  destruct (wf_col m rm s (st_wf _ _ _ _ Hst) ltac:(lia)) as [rc Hrc]. rewrite Hrc.
  rewrite (st_parity _ _ _ _ Hst s rc Hf Hg Hrc). apply nth_Some. by rewrite par_lookup, horner_psum.
Qed.

Lemma use_column j : (j < n)%nat -> exists rc d, rm_col rm !! (j + fdc)%nat = Some rc /\ D !! j = Some d /\
  rc_size rc = Z.of_nat (length d) /\ length (rc_abd rc) = length d /\ ((j + fdc)%nat ∉ tgts -> rc_abd rc = d).
Proof using All.
  intros Hj. rewrite <- (st_length _ _ _ _ Hst) in Hj. destruct (lookup_lt_is_Some_2 D j Hj) as [d Hd].
  destruct (stripe_col m D _ rm Hst j d Hd) as [rc Hrc]. destruct (st_size _ _ _ _ Hst j d rc Hd Hrc) as [Hs8 Hl].
  exists rc, d. split_and!; try done. intros Hout. apply (st_data _ _ _ _ Hst j); [|done..]. intros Hb. apply Hout, Hbad; [|done]. pose proof (st_length _ _ _ _ Hst). lia.
Qed.

Lemma use_data j : j ∈ kept fdc n tgts -> exists rc d, rm_col rm !! (j + fdc)%nat = Some rc /\ D !! j = Some d /\
  rc_size rc = Z.of_nat (length d) /\ take (length d) (rc_abd rc) = d.
Proof using All.
  intros (Hout & Hj%elem_of_seq)%list_elem_of_filter. destruct (use_column j ltac:(lia)) as (rc & d & Hrc & Hd & Hs8 & _ & He).
  exists rc, d. split_and!; try done. rewrite (He Hout). by apply take_ge.
Qed.

Lemma use_missing j : j ∈ ms -> exists rc d, rm_col rm !! (j + fdc)%nat = Some rc /\ D !! j = Some d /\
  rc_size rc = Z.of_nat (length d) /\ length (rc_abd rc) = length d.
Proof using All.
  intros (_ & Hj%elem_of_seq)%list_elem_of_filter. destruct (use_column j ltac:(lia)) as (rc & d & Hrc & Hd & Hs8 & Hl & _).
  by exists rc, d.
Qed.

(** The method always returns; it stores into the missing data columns, and
    stores the data there if the parity columns are good. *)
Lemma general_runs linear :
  exists rm' B, vdev_raidz_reconstruct_general kmem_alloc abd_alloc linear rm tgts = Ret (rm', foldl add_bit 0 es) /\
    filled rm ((fun j => (j + fdc)%nat) <$> ms) B rm' /\
    (forall i j d, ms !! i = Some j -> D !! j = Some d -> bytes (B i) /\ length (B i) = length d) /\
    ((forall c, (c < fdc)%nat -> c ∉ tgts -> ~ bad c) -> repaired D rm rm').
Proof using All.
  pose proof (wf_cols _ _ (st_wf _ _ _ _ Hst)) as Hwc. pose proof (st_parities _ _ _ _ Hst) as H3. pose proof (st_cols _ _ _ _ Hst) as H255.
  pose proof (st_length _ _ _ _ Hst) as HlD. destruct in_use_ok as (Hes & Hes2 & Hesf & Hesn & Hesg). pose proof in_use_length as Hel.
  pose proof (Permutation_length (gone_kept fdc n tgts)) as Hpl. rewrite length_app, length_seq in Hpl.
  assert (0 < length es)%nat as Hpos by (destruct es; [done|cbn; lia]).
  assert (length ms <= 3)%nat as Hms3.
  { rewrite <- Hel. destruct (exponents es Hes Hes2) as [-> | [(s & _ & ->) | [(s & t & _ & ->) | ->]]]; cbn; lia. }
  pose proof (code_bounds es Hes Hes2 Hesn) as Hcode.
  unfold vdev_raidz_reconstruct_general.
  replace (if linear then Ret rm else linear_copies abd_alloc rm) with (Ret rm).
  2:{ destruct linear; [done|]. symmetry. by eapply linear_copies_ok. }
  cbn [mbind result_bind]. unfold missing_rows. rewrite (gone_tgts fdc n tgts Hs tgts_lt).
  rewrite (proj2 (Nat.leb_le _ _)) by done. cbn [verify mbind result_bind].
  pose proof (pick_parity_ok fdc n tgts Hs tgts_lt fdc 0 tgts (length ms) 0 []) as Hpick. rewrite Nat.sub_diag in Hpick.
  rewrite Hpick; [|done|done|by left|apply Forall_true; intros; lia|done|apply (enough_parity fdc n); [done|apply tgts_lt|done]].
  cbv zeta. cbn [mbind result_bind app]. fold (good_parity fdc tgts). fold es.
  rewrite (proj2 (Z.eqb_neq (foldl add_bit 0 es) 0)) by lia. cbn [negb verify mbind result_bind].
  change (Z.shiftl 1 (Z.of_nat VDEV_RAIDZ_MAXPARITY)) with 8. rewrite (proj2 (Z.ltb_lt (foldl add_bit 0 es) 8)) by lia. cbn [verify mbind result_bind].
  set (p := kmem_alloc _). assert (length p = 2 * length ms * n + n)%nat as Hlp by (unfold p; by rewrite Hkm, Nat2Z.id).
  destruct (slices p (fun i => 2 * i * n)%nat n (seq 0 (length ms))) as (rows & -> & Hlr & Hfr).
  { intros i Hi%elem_of_seq. nia. }
  cbn [mbind result_bind].
  destruct (slices p (fun i => 2 * i * n + n)%nat n (seq 0 (length ms))) as (inv & -> & Hli & Hfi).
  { intros i Hi%elem_of_seq. nia. }
  cbn [mbind result_bind]. rewrite view_ok by lia. cbn [mbind result_bind]. rewrite length_seq in Hlr, Hli.
  rewrite fill_used_ok; [|lia|eapply Forall_impl; [exact Hes2|]; cbn beta; lia|done|rewrite length_take, length_drop; lia].
  cbn [mbind result_bind]. rewrite <- Hel in *.
  rewrite (matrix_init_ok rm n es rows); [|done|lia|done|lia|done]. cbn [mbind result_bind].
  set (used := _ ++ _).
  assert (StronglySorted lt ms) as Hmss by apply sorted_filter, sorted_seq.
  destruct (invert_ok rm n es ms (kept fdc n tgts) used eq_refl ltac:(lia) Hes Hes2 Hesf (eq_sym Hel) Hmss (gone_kept fdc n tgts) eq_refl inv)
    as (rows' & fs & -> & Helim); [lia|done|]. cbn [mbind result_bind].
  assert (forall s, s ∈ es -> exists rc, rm_col rm !! s = Some rc /\ rc_size rc = Z.of_nat (8 * m) /\
    length (rc_abd rc) = (8 * m)%nat /\ forall y, (y < 8 * m)%nat -> nth y (rc_abd rc) 0 = held s y) as Hup.
  { intros s Hin. apply use_parity. by apply Hesg. }
  assert (forall s y, s ∈ es -> byte (held s y)) as Hhb.
  { intros s y Hin. apply held_byte. by apply Hesg. }
  pose proof (gone_kept fdc n tgts) as Hgk. pose proof (st_bytes _ _ _ _ Hst) as HDb. pose proof (stripe_lengths m D _ rm Hst) as HDl.
  assert (forall c rc, (c < rm_cols rm)%nat -> rm_col rm !! c = Some rc -> rc_size rc <= Z.of_nat (8 * m)) as Hsz.
  { intros c rc. by eapply stripe_size. }
  destruct (matrix_reconstruct_runs kmem_alloc Hkm rm m n es ms (kept fdc n tgts) used D fs held) as (rm' & -> & Hfill);
    first [done|lia|apply use_data|apply use_missing|idtac].
  cbn [mbind result_bind].
  match type of Hfill with filled _ _ ?b _ => set (B := b) in * end.
  assert (forall i j d, ms !! i = Some j -> D !! j = Some d -> bytes (B i) /\ length (B i) = length d) as HB.
  { intros i j d Hi Hd. pose proof (lookup_lt_Some _ _ _ Hi). split.
    - apply (prog_bytes kmem_alloc Hkm rm m n es ms (kept fdc n tgts) used D fs held); first [done|lia|apply use_data|apply use_missing|idtac].
    - unfold B. rewrite (prog_length kmem_alloc Hkm rm m n es ms (kept fdc n tgts) used D fs held); first [done|lia|apply use_data|apply use_missing|idtac].
      unfold size_of. by rewrite (nth_Some _ _ _ _ Hi), (nth_Some _ _ _ _ Hd). }
  exists rm', B. split_and!; [|done..|].
  - destruct linear; [done|]. rewrite (copies_back_ok m D _ rm Hst); [done| | |].
    + intros j d Hd. destruct (decide (j ∈ ms)) as [(i & Hi)%list_elem_of_lookup|Hout].
      * exists (B i). split; [by eapply HB|]. by rewrite (fi_in _ _ _ _ Hfill i) by (by rewrite list_lookup_fmap, Hi).
      * pose proof (lookup_lt_Some _ _ _ Hd). destruct (use_column j ltac:(lia)) as (rc & d' & Hrc & Hd' & _ & Hl & _).
        replace d' with d in Hl by congruence. exists (rc_abd rc). split; [done|].
        rewrite (fi_out _ _ _ _ Hfill), Hrc; [by destruct rc|].
        intros (j' & Heq & Hj')%list_elem_of_fmap. replace j' with j in Hj' by lia. done.
    + by rewrite <- (fi_frame _ _ _ _ Hfill).
    + by rewrite <- (fi_frame _ _ _ _ Hfill).
  - intros Hgood. eapply (filled_repaired m D _ rm Hst ms).
    + intros j Hj Hjn. apply list_elem_of_filter. rewrite elem_of_seq. split; [apply Hbad; [lia|done]|lia].
    + intros j (_ & Hj%elem_of_seq)%list_elem_of_filter. lia.
    + eapply (filled_truth kmem_alloc Hkm rm m n es ms (kept fdc n tgts) used D fs held); first [done|lia|apply use_data|apply use_missing|idtac].
      intros s y Hin Hy. destruct (Hesg s Hin). apply held_parity; [done|by apply Hgood|done].
Qed.
End general_method.
