(* ===== verification/RaidzRuns.v ===== *)
(** * RAID-Z: the methods on any contents

    Each method of reconstruction returns whatever bytes the columns hold, and
    changes only the bytes of the columns it rebuilds.  A search that tries
    one set of columns after another rests on this. *)

From S2P Require Import Prelude Raidz RaidzParity RaidzMatrix RaidzSolve RaidzInvert RaidzRecover RaidzGeneral.

#[local] Hint Resolve id_map mul2_map bytes_app bytes_zeros bytes_take bytes_drop bytes_fmap bytes_step : verif.

(** [rm'] is [rm] with other bytes, as many, in some of the columns [cs]. *)
Record touched (rm : raidz_map) (cs : list nat) (rm' : raidz_map) : Prop := {
  to_frame : set_cols rm (rm_col rm') = rm';
  to_out c : c ∉ cs -> rm_col rm' !! c = rm_col rm !! c;
  to_in c : c ∈ cs -> exists b, rm_col rm' !! c = col_abd b <$> rm_col rm !! c /\
    forall rc, rm_col rm !! c = Some rc -> length b = length (rc_abd rc) /\ (bytes (rc_abd rc) -> bytes b);
}.

Lemma col_abd_id rc : col_abd (rc_abd rc) rc = rc.
Proof. by destruct rc. Qed.

Lemma touched_any rm cs rm' c : touched rm cs rm' ->
  exists b, rm_col rm' !! c = col_abd b <$> rm_col rm !! c /\
    forall rc, rm_col rm !! c = Some rc -> length b = length (rc_abd rc) /\ (bytes (rc_abd rc) -> bytes b).
Proof.
  intros Ht. destruct (decide (c ∈ cs)) as [Hin|Hout]; [by apply (to_in _ _ _ Ht)|]. rewrite (to_out _ _ _ Ht c Hout).
  destruct (rm_col rm !! c) as [rc|]; [|by exists []]. exists (rc_abd rc). cbn. rewrite col_abd_id. split; [done|]. by intros ? [= <-].
Qed.

Lemma touched_refl rm cs : touched rm cs rm.
Proof.
  split; [by destruct rm|done|]. intros c Hc. destruct (rm_col rm !! c) as [rc|]; [|by exists []].
  exists (rc_abd rc). cbn. rewrite col_abd_id. split; [done|]. by intros ? [= <-].
Qed.

Lemma touched_trans rm1 rm2 rm3 cs : touched rm1 cs rm2 -> touched rm2 cs rm3 -> touched rm1 cs rm3.
Proof.
  intros H1 H2. split.
  - rewrite <- (to_frame _ _ _ H2), <- (to_frame _ _ _ H1). done.
  - intros c Hc. rewrite (to_out _ _ _ H2 c Hc). by apply (to_out _ _ _ H1).
  - intros c _. destruct (touched_any _ _ _ c H1) as (b1 & E1 & B1), (touched_any _ _ _ c H2) as (b2 & E2 & B2).
    exists b2. rewrite E2, E1. destruct (rm_col rm1 !! c) as [rc|]; [|done]. split; [done|]. intros ? [= <-].
    destruct (B1 rc eq_refl) as [L1 b1']. cbn in E1. destruct (B2 _ E1) as [L2 b2']. cbn in L2, b2'. split; [lia|auto].
Qed.

Lemma touched_mono rm cs cs' rm' : (forall c, c ∈ cs -> c ∈ cs') -> touched rm cs rm' -> touched rm cs' rm'.
Proof.
  intros Hsub Ht. split; [apply (to_frame _ _ _ Ht)| |].
  - intros c Hc. apply (to_out _ _ _ Ht). auto.
  - intros c _. by apply (touched_any _ cs).
Qed.

Lemma touched_counts rm cs rm' : touched rm cs rm' ->
  rm_cols rm' = rm_cols rm /\ rm_firstdatacol rm' = rm_firstdatacol rm /\ length (rm_col rm') = length (rm_col rm).
Proof.
  intros Ht. split_and!; [by rewrite <- (to_frame _ _ _ Ht)..|].
  assert (forall c, rm_col rm' !! c = None <-> rm_col rm !! c = None) as H.
  { intros c. destruct (touched_any _ _ _ c Ht) as (b & -> & _). by rewrite fmap_None. }
  setoid_rewrite lookup_ge_None in H. pose proof (proj1 (H _) (Nat.le_refl _)). pose proof (proj2 (H _) (Nat.le_refl _)). lia.
Qed.

(** A column of the changed map is one of the map with other bytes. *)
Lemma touched_inv rm cs rm' c rc' : touched rm cs rm' -> rm_col rm' !! c = Some rc' ->
  exists rc b, rm_col rm !! c = Some rc /\ rc' = col_abd b rc /\ length b = length (rc_abd rc) /\
    (bytes (rc_abd rc) -> bytes b) /\ (c ∉ cs -> rc' = rc).
Proof.
  intros Ht Hc. destruct (touched_any _ _ _ c Ht) as (b & E & B). rewrite Hc in E. destruct (rm_col rm !! c) as [rc|] eqn:Hrc; [|done].
  cbn in E. injection E as ->. destruct (B rc eq_refl). exists rc, b. split_and!; try done. intros Hout.
  pose proof (to_out _ _ _ Ht c Hout). congruence.
Qed.

Lemma touched_wf m rm cs rm' : raidz_wf m rm -> touched rm cs rm' -> raidz_wf m rm'.
Proof.
  intros Hwf Ht. destruct (touched_counts _ _ _ Ht) as (Ec & Ef & El). split; rewrite Ef, ?Ec.
  - rewrite El. apply (wf_cols m rm Hwf).
  - intros c rc' Hc Hrc'. destruct (touched_inv _ _ _ _ _ Ht Hrc') as (rc & b & Hrc & -> & Hl & Hb & _).
    destruct (wf_parity m rm Hwf c rc Hc Hrc) as (B & S8 & L8). unfold parity_ok. cbn [rc_abd rc_size col_abd]. rewrite Hl. auto.
  - intros c rc' Hc Hrc'. destruct (touched_inv _ _ _ _ _ Ht Hrc') as (rc & b & Hrc & -> & Hl & Hb & _).
    destruct (wf_data m rm Hwf c rc Hc Hrc) as (B & k & Hk & S8 & L8). unfold data_ok; cbn [rc_abd rc_size col_abd]. split; [auto|]. exists k. by rewrite Hl.
Qed.

Lemma touched_one rm x xc acc :
  rm_col rm !! x = Some xc -> length acc = length (rc_abd xc) -> bytes acc -> touched rm [x] (set_abd rm x acc).
Proof.
  intros Hx Hl Hb. split; [done| |].
  - intros c Hc. rewrite lookup_set_abd, decide_False; [done|]. intros ->. apply Hc. apply list_elem_of_here.
  - intros c ->%list_elem_of_singleton. exists acc. rewrite lookup_set_abd, decide_True by done. split; [done|].
    intros rc Hrc. replace rc with xc by congruence. done.
Qed.

(** ** One column from P, from Q *)

Section one.
Context (m : nat) (rm : raidz_map) (x : nat) (xc : raidz_col).
Context (Hwf : raidz_wf m rm) (Hx : (rm_firstdatacol rm <= x < rm_cols rm)%nat).
Context (Hxc : rm_col rm !! x = Some xc) (Hxl : Z.of_nat (length (rc_abd xc)) = rc_size xc).

Notation shape := (rec_inv rm x xc (fun _ _ => 0) (S (rm_cols rm))).

Lemma shape_intro acc i : (i <= rm_cols rm)%nat -> length acc = length (rc_abd xc) -> bytes acc -> shape i (set_abd rm x acc).
Proof using Hx. intros Hi Hl Hb. exists acc. split_and!; try done. lia. Qed.

Lemma reconstruct_p_runs :
  (1 <= rm_firstdatacol rm)%nat -> 0 < rc_size xc -> exists rm', vdev_raidz_reconstruct_p rm x = Ret (rm', 1) /\ touched rm [x] rm'.
Proof using All.
  intros Hf Hpos. destruct (x_words m rm x xc Hwf Hx Hxc Hxl) as (kx & Hkx & Hx1 & Hx2 & Hx3 & _ & Hxb).
  unfold vdev_raidz_reconstruct_p, VDEV_RAIDZ_P.
  rewrite (proj2 (Nat.leb_le _ x)), (proj2 (Nat.ltb_lt x _)) by lia. cbn [verify mbind result_bind]. destruct (wf_col m rm 0 Hwf ltac:(lia)) as [pc Hpc].
  rewrite (get_col_ok _ _ _ Hpc), (get_col_ok _ _ _ Hxc). cbn [mbind result_bind].
  destruct (wf_parity m rm Hwf 0 pc ltac:(lia) Hpc) as (Hpb & Hps & Hpl).
  rewrite (proj2 (Z.leb_le (rc_size xc) _)), (proj2 (Z.ltb_lt 0 _)) by lia. cbn [verify mbind result_bind].
  rewrite abd_copy_ok, Hx2, drop_ge, app_nil_r by lia. cbn [mbind result_bind].
  match goal with |- context [for_loop ?n ?c ?body ?a] =>
    destruct (for_loop_inv shape n c body a) as (rm' & -> & acc & -> & Hl & Hb & _) end.
  - intros i rm' Hi (acc & -> & Hl & Hb & _). destruct (wf_col m rm i Hwf ltac:(lia)) as [rc Hrc].
    rewrite (get_set_eq _ _ _ _ Hxc). cbn [mbind result_bind rc_size rc_abd col_abd].
    destruct (Nat.eqb_spec i x) as [->|Hne].
    + rewrite (get_set_eq _ _ _ _ Hxc). cbn [mbind result_bind]. eexists. split; [done|]. apply shape_intro; [lia|done..].
    + rewrite get_set_ne, (get_col_ok _ _ _ Hrc) by done. cbn [mbind result_bind].
      destruct (cut_ok m rm x xc Hwf Hx Hxc Hxl i rc ltac:(lia) Hrc) as (k & Hcl & Hck & Hcb & Hmin & Hv & _).
      rewrite Hv, Hmin. cbn [mbind result_bind]. rewrite view_ok, drop_0 by lia. cbn [mbind result_bind].
      destruct (reconst_p_step (cut xc rc) k acc) as (ws & -> & Hws); [done|lia|done..|]. cbn [mbind result_bind].
      rewrite Hws, set_set_abd. eexists. split; [done|]. apply shape_intro; [lia|rewrite length_step; lia|auto with verif].
  - apply shape_intro; [lia|rewrite length_take; lia|auto with verif].
  - cbn [mbind result_bind]. eexists. split; [done|]. by apply (touched_one _ _ xc).
Qed.

Lemma reconstruct_q_runs :
  (2 <= rm_firstdatacol rm)%nat -> (rm_cols rm <= 255)%nat ->
  exists rm', vdev_raidz_reconstruct_q rm x = Ret (rm', 2) /\ touched rm [x] rm'.
Proof using All.
  intros Hf Hcols. destruct (x_words m rm x xc Hwf Hx Hxc Hxl) as (kx & Hkx & Hx1 & Hx2 & Hx3 & _ & Hxb).
  unfold vdev_raidz_reconstruct_q, VDEV_RAIDZ_Q.
  destruct (wf_col m rm 1 Hwf ltac:(lia)) as [qc Hqc].
  destruct (wf_parity m rm Hwf 1 qc ltac:(lia) Hqc) as (Hqb & Hqs & Hql).
  rewrite (get_col_ok _ _ _ Hxc), (get_col_ok _ _ _ Hqc). cbn [mbind result_bind].
  rewrite (proj2 (Z.leb_le (rc_size xc) _)) by lia. cbn [verify mbind result_bind].
  match goal with |- context [for_loop ?n ?c ?body ?a] =>
    destruct (for_loop_inv shape n c body a) as (rm' & -> & acc & -> & Hl & Hb & _) end.
  - intros i rm' Hi (acc & -> & Hl & Hb & _). destruct (wf_col m rm i Hwf ltac:(lia)) as [rc Hrc].
    destruct (lost_src m rm x xc Hwf Hx Hxc Hxl acc i rc kx) as (rc' & src & k & Hget & Hsl & Hk & Hsb & Hsz & Hv & Ht & Hla & _); [lia|done..|].
    rewrite Hget, (get_set_eq _ _ _ _ Hxc). cbn [mbind result_bind rc_size rc_abd col_abd]. rewrite Hsz, Hx2.
    change (rm_firstdatacol (set_abd rm x acc)) with (rm_firstdatacol rm).
    destruct (Nat.eqb_spec i (rm_firstdatacol rm)) as [->|Hne].
    + rewrite <- Hx1, <- Hl. pose proof (reconst_q_first src (rc_abd rc') k acc Ht Hla ltac:(lia)) as Hq1.
      apply bind_Ret in Hq1 as (d & -> & Hd). cbn [mbind result_bind]. rewrite Hd. cbn [mbind result_bind].
      rewrite set_set_abd. eexists. split; [done|].
      apply shape_intro; [lia|rewrite length_step; rewrite length_replicate; lia|auto with verif].
    + rewrite (proj2 (Nat.leb_le (8 * k) (8 * kx))) by lia. cbn [verify mbind result_bind].
      rewrite Hv, !view_ok, drop_0 by lia. cbn [mbind result_bind]. rewrite (take_ge (drop _ _)) by (rewrite length_drop; lia).
      destruct (reconst_q_step src k kx acc) as (ws & -> & Hw); [done|done|lia|done..|]. cbn [mbind result_bind].
      rewrite (drop_ge acc (8 * kx)) by lia. rewrite app_nil_r, Hw, set_set_abd. eexists. split; [done|].
      apply shape_intro; [lia|rewrite length_step; lia|auto with verif].
  - exists (rc_abd xc). rewrite (set_abd_id rm x xc Hxc). split_and!; try done. lia.
  - cbn [mbind result_bind].
    rewrite (get_set_ne rm x acc 1), (get_col_ok _ _ _ Hqc), (get_set_eq _ _ _ _ Hxc) by lia.
    cbn [mbind result_bind rc_abd rc_size col_abd set_abd set_cols rm_cols].
    unfold col_data. cbn [rc_abd rc_size col_abd]. rewrite Hx2, view_ok, drop_0 by lia. cbn [mbind result_bind].
    rewrite take_ge by lia.
    replace (255 - (Z.of_nat (rm_cols rm) - 1 - Z.of_nat x)) with (Z.of_nat (255 - (rm_cols rm - 1 - x))) by lia.
    rewrite (q_post_ok _ kx) by (done || lia || rewrite Hql, Nat.mul_comm; apply Nat.Div0.mod_mul).
    cbn [mbind result_bind]. rewrite drop_ge, app_nil_r by lia.
    change (set_cols rm (alter (col_abd acc) x (rm_col rm))) with (set_abd rm x acc). rewrite set_set_abd.
    eexists. split; [done|]. apply (touched_one _ _ xc); [done|rewrite length_fmap, length_zip_with; lia|].
    apply bytes_fmap; [intros b Hbb; by apply mulp_byte|]. by apply (bytes_zip_with _ _ _ id_map).
Qed.
End one.

(** ** Two columns from P and Q *)

Lemma room_bytes ea eb n rpq l : rpq_room n rpq -> bytes (x_at ea eb rpq <$> l) /\
  bytes ((fun j => Z.lxor (Z.lxor (nth j (rpq_p rpq) 0) (nth j (rpq_pxy rpq) 0)) (x_at ea eb rpq j)) <$> l).
Proof.
  intros (_ & _ & _ & _ & B1 & B2 & B3 & B4).
  assert (forall b j, bytes b -> byte (nth j b 0)) as Hn.
  { intros b j Hb. rewrite nth_lookup. destruct (b !! j) as [v|] eqn:E; [exact (bytes_lookup _ _ _ Hb E)|unfold byte; cbn; lia]. }
  assert (forall j, byte (x_at ea eb rpq j)) as Hx.
  { intros j. unfold x_at. apply lxor_byte; apply mulp_byte, lxor_byte; by apply Hn. }
  split; apply Forall_fmap, Forall_true; intros j; cbn; [apply Hx|]. apply lxor_byte; [|apply Hx]. by apply lxor_byte; apply Hn.
Qed.

Section two.
Context (m : nat) (rm : raidz_map) (x y : nat) (pc qc xc yc : raidz_col) (alloc : Z -> list Z).
Context (Hwf : raidz_wf m rm) (Hf : (2 <= rm_firstdatacol rm)%nat).
Context (Hxy : (rm_firstdatacol rm <= x < y)%nat) (Hy : (y < rm_cols rm <= 255)%nat).
Context (Hpc : rm_col rm !! 0%nat = Some pc) (Hqc : rm_col rm !! 1%nat = Some qc).
Context (Hxc : rm_col rm !! x = Some xc) (Hyc : rm_col rm !! y = Some yc).
Context (Hxl : Z.of_nat (length (rc_abd xc)) = rc_size xc) (Hyl : Z.of_nat (length (rc_abd yc)) = rc_size yc).
Context (Hle : (length (rc_abd yc) <= length (rc_abd xc))%nat).
Context (Halloc : forall n, bytes (alloc n) /\ length (alloc n) = Z.to_nat n).

(** The map parity is computed for: fresh parity columns, nothing in the two
    columns. *)
Notation blank := (set_size (set_size (set_abd (set_abd rm 0 (alloc (rc_size pc))) 1 (alloc (rc_size qc))) x 0) y 0).

Lemma blank_wf : raidz_wf m blank.
Proof using All.
  pose proof (wf_cols m rm Hwf) as Hc. split.
  - cbn. rewrite !length_alter. done.
  - intros c rc Hlt Hrc. change (rm_firstdatacol blank) with (rm_firstdatacol rm) in Hlt. revert Hrc. cols_rw.
    destruct (wf_col m rm c Hwf ltac:(lia)) as [rc0 Hrc0]. rewrite Hrc0.
    pose proof (wf_parity m rm Hwf c rc0 Hlt Hrc0) as (Hb & Hs & Hl).
    repeat (case_decide; try lia); intros [= <-]; unfold parity_ok; cbn [rc_abd rc_size col_abd].
    + subst c. simplify_eq. destruct (Halloc (rc_size qc)) as [? ->]. split_and!; [done|done|lia].
    + subst c. simplify_eq. destruct (Halloc (rc_size pc)) as [? ->]. split_and!; [done|done|lia].
    + done.
  - intros c rc Hlt Hrc. change (rm_firstdatacol blank) with (rm_firstdatacol rm) in Hlt.
    change (rm_cols blank) with (rm_cols rm) in Hlt. revert Hrc. cols_rw.
    destruct (wf_col m rm c Hwf ltac:(lia)) as [rc0 Hrc0]. rewrite Hrc0.
    pose proof (wf_data m rm Hwf c rc0 Hlt Hrc0) as Hd.
    repeat (case_decide; try lia); intros [= <-]; [| |done]; (split; [by apply Hd|exists 0%nat; cbn; lia]).
Qed.

Lemma reconstruct_pq_runs : exists rm', vdev_raidz_reconstruct_pq alloc rm x y = Ret (rm', 3) /\ touched rm [x; y] rm'.
Proof using All.
  destruct (pq_exps_ok (rm_cols rm) x y) as (ea & eb & Hexp & Hea & Heb & _); [lia..|].
  unfold vdev_raidz_reconstruct_pq, VDEV_RAIDZ_P, VDEV_RAIDZ_Q.
  rewrite (proj2 (Nat.ltb_lt x y)), (proj2 (Nat.leb_le _ x)), (proj2 (Nat.ltb_lt y _)) by lia. cbn [verify mbind result_bind].
  rewrite (get_col_ok _ _ _ Hpc), (get_col_ok _ _ _ Hqc), (get_col_ok _ _ _ Hxc), (get_col_ok _ _ _ Hyc).
  cbn [mbind result_bind rc_size rc_abd]. rewrite (proj2 (Z.leb_le (rc_size yc) _)) by lia. cbn [verify mbind result_bind].
  rewrite (generate_pq m blank blank_wf) by done. cbn [mbind result_bind].
  destruct (datas_wf m blank blank_wf) as (Hdl & Hdb & _). set (ds := datas blank) in *.
  set (W := with_parity _ _). set (S := set_size (set_size W x (rc_size xc)) y (rc_size yc)).
  assert (rm_col S !! 0%nat = Some (col_abd (par (fun x => x) (8 * m) ds) pc)) as Hs0 by (unfold S, W; lookup_cols).
  assert (rm_col S !! 1%nat = Some (col_abd (par VDEV_RAIDZ_MUL_2 (8 * m) ds) qc)) as Hs1 by (unfold S, W; lookup_cols).
  assert (rm_col S !! x = Some xc) as Hsx by (unfold S, W; lookup_cols; cbn; by destruct xc).
  assert (rm_col S !! y = Some yc) as Hsy by (unfold S, W; lookup_cols; cbn; by destruct yc).
  rewrite (get_col_ok _ _ _ Hs0), (get_col_ok _ _ _ Hs1), (get_col_ok _ _ _ Hsx), (get_col_ok _ _ _ Hsy).
  cbn [mbind result_bind rc_size rc_abd col_abd]. change (rm_cols S) with (rm_cols rm). rewrite Hexp. cbn [mbind result_bind].
  rewrite (proj2 (Nat.leb_le (Z.to_nat (rc_size yc)) _)) by lia. cbn [verify mbind result_bind].
  set (rpq := ReconstPq _ _ _ _ _ _). destruct (wf_parity m rm Hwf 0 pc ltac:(lia) Hpc) as (Hpb & _ & Hpl).
  destruct (wf_parity m rm Hwf 1 qc ltac:(lia) Hqc) as (Hqb & _ & Hql).
  destruct (wf_data m rm Hwf x xc ltac:(lia) Hxc) as (Hxb & k & Hk & Hs & _).
  assert (forall n, (n <= 8 * m)%nat -> rpq_room n rpq) as Hroom.
  { intros n Hn. unfold rpq_room, rpq. cbn [rpq_p rpq_q rpq_pxy rpq_qxy].
    rewrite Hpl, Hql, !par_length by done. split_and!; try done; apply par_bytes; auto with verif. }
  rewrite !view_ok by lia. cbn [mbind result_bind].
  replace (Z.to_nat (rc_size xc)) with (length (rc_abd xc)) by lia.
  replace (Z.to_nat (rc_size yc)) with (length (rc_abd yc)) by lia.
  rewrite (reconst_pq_ok ea eb) by (done || apply Hroom; lia). cbn [mbind result_bind].
  rewrite (reconst_pq_tail_ok ea eb) by (done || apply rpq_room_drop, Hroom; lia). cbn [mbind result_bind].
  rewrite app_assoc, !drop_ge, !app_nil_r by lia. set (bx := _ ++ _). set (by_ := _ <$> seq 0 (length (rc_abd yc))).
  assert (length bx = length (rc_abd xc) /\ bytes bx) as [Hbxl Hbxb].
  { unfold bx. rewrite length_app, !length_fmap, !length_seq. split; [lia|].
    apply bytes_app; [by apply (room_bytes _ _ 0), Hroom; lia|]. apply (room_bytes _ _ 0), rpq_room_drop, Hroom. lia. }
  assert (length by_ = length (rc_abd yc) /\ bytes by_) as [Hbyl Hbyb].
  { unfold by_. rewrite length_fmap, length_seq. split; [done|]. apply (room_bytes _ _ 0), Hroom. lia. }
  eexists. split; [reflexivity|]. split.
  - unfold S, W. clear. by destruct rm.
  - intros c Hc. rewrite !not_elem_of_cons in Hc. destruct Hc as (Hcx & Hcy & _). unfold S, W. lookup_cols; cbn; try (by destruct pc); by destruct qc.
  - intros c Hc. apply elem_of_cons in Hc as [-> | ->%list_elem_of_singleton].
    + exists bx. split; [unfold S, W; lookup_cols; cbn; by destruct xc|]. intros rc Hrc. replace rc with xc by congruence. done.
    + exists by_. split; [unfold S, W; lookup_cols; cbn; by destruct yc|]. intros rc Hrc. replace rc with yc by congruence. done.
Qed.
End two.
