(* ===== verification/RaidzReconstruct.v ===== *)
(** * RAID-Z: reconstruction of a stripe

    [vdev_raidz_reconstruct] finds the bad columns of a stripe and repairs it
    by the method that fits. *)

From S2P Require Import Prelude Raidz RaidzParity RaidzMatrix RaidzSolve RaidzInvert RaidzRecover RaidzGeneral RaidzRuns.

(** ** The optimized methods on a stripe *)

Section optimized.
Context (m : nat) (D : list (list Z)) (bad : nat -> Prop) (rm : raidz_map).
Context (Hst : stripe m D bad rm).

Notation fdc := (rm_firstdatacol rm).
Notation n := (rm_cols rm - rm_firstdatacol rm)%nat.

(** The stripe with all its data. *)
Definition whole : raidz_map :=
  set_cols rm (imap (fun c rc => if (fdc <=? c)%nat && (c <? rm_cols rm)%nat then col_abd (nth (c - fdc) D []) rc else rc) (rm_col rm)).

Lemma whole_lookup c :
  rm_col whole !! c =
    (fun rc => if (fdc <=? c)%nat && (c <? rm_cols rm)%nat then col_abd (nth (c - fdc) D []) rc else rc) <$> rm_col rm !! c.
Proof using. cbn. by rewrite list_lookup_imap. Qed.

Lemma whole_data j d : D !! j = Some d -> rm_col whole !! (j + fdc)%nat = col_abd d <$> rm_col rm !! (j + fdc)%nat.
Proof using All.
  intros Hd. pose proof (lookup_lt_Some _ _ _ Hd) as Hj. rewrite (st_length _ _ _ _ Hst) in Hj.
  rewrite whole_lookup, (proj2 (Nat.leb_le _ _)), (proj2 (Nat.ltb_lt _ _)) by lia. cbn [andb].
  by rewrite Nat.add_sub, (nth_Some _ _ _ _ Hd).
Qed.

Lemma whole_other c : (c < fdc \/ rm_cols rm <= c)%nat -> rm_col whole !! c = rm_col rm !! c.
Proof using.
  intros Hc. rewrite whole_lookup. destruct (Nat.leb_spec fdc c), (Nat.ltb_spec c (rm_cols rm)); try lia; cbn [andb]; by destruct (rm_col rm !! c).
Qed.

Lemma whole_repaired : repaired D rm whole.
Proof using All. split; [done|exact whole_other|exact whole_data]. Qed.

(** A data column of the whole stripe. *)
Lemma whole_column c : (fdc <= c < rm_cols rm)%nat -> exists rc d, rm_col rm !! c = Some rc /\ D !! (c - fdc)%nat = Some d /\
  rm_col whole !! c = Some (col_abd d rc) /\ Z.of_nat (length d) = rc_size rc /\ length (rc_abd rc) = length d /\ bytes d.
Proof using All.
  intros Hc. destruct (lookup_lt_is_Some_2 D (c - fdc)) as [d Hd]; [rewrite (st_length _ _ _ _ Hst); lia|].
  destruct (stripe_col m D bad rm Hst _ d Hd) as [rc Hrc]. destruct (st_size _ _ _ _ Hst _ d rc Hd Hrc) as [Hs Hl].
  pose proof (whole_data _ _ Hd) as Hw. replace (c - fdc + fdc)%nat with c in * by lia. rewrite Hrc in Hw.
  exists rc, d. split_and!; try done. exact (Forall_lookup_1 _ _ _ _ (st_bytes _ _ _ _ Hst) Hd).
Qed.

Lemma whole_wf : raidz_wf m whole.
Proof using All.
  pose proof (st_wf _ _ _ _ Hst) as Hwf. split.
  - cbn. rewrite length_imap. apply (wf_cols m rm Hwf).
  - intros c rc Hc Hrc. cbn [rm_firstdatacol whole set_cols] in Hc. rewrite whole_other in Hrc by lia. by apply (wf_parity m rm Hwf c).
  - intros c rc Hc Hrc. destruct (whole_column c Hc) as (rc0 & d & Hrc0 & Hd & Hw & Hs & Hl & Hb).
    rewrite Hrc in Hw. injection Hw as ->. destruct (wf_data m rm Hwf c rc0 Hc Hrc0) as (_ & k & Hk & Hs' & Hl').
    split; [done|]. exists k. cbn [rc_size rc_abd col_abd]. split_and!; [done|done|lia].
Qed.

Lemma whole_datas : datas whole = D.
Proof using All.
  destruct (datas_wf m whole whole_wf) as (_ & _ & Hl). cbn [rm_cols rm_firstdatacol whole set_cols] in Hl.
  pose proof (st_length _ _ _ _ Hst) as HlD. apply list_eq. intros j. destruct (decide (j < n)%nat) as [Hj|Hj].
  - destruct (whole_column (j + fdc) ltac:(lia)) as (rc & d & Hrc & Hd & Hw & Hs & _). rewrite Nat.add_sub in Hd. rewrite Hd.
    pose proof (datas_lookup whole (j + fdc) _ ltac:(cbn; lia) Hw) as H. cbn [rm_firstdatacol whole set_cols] in H.
    rewrite Nat.add_sub in H. rewrite H. unfold data_of. cbn [rc_size rc_abd col_abd]. f_equal. apply take_ge. lia.
  - rewrite !lookup_ge_None_2 by lia. done.
Qed.

Lemma whole_parity c : (c < fdc)%nat -> ~ bad c -> has_parity m whole c.
Proof using All.
  intros Hc Hb rc Hrc. rewrite whole_other in Hrc by lia. rewrite whole_datas. by apply (st_parity _ _ _ _ Hst c).
Qed.

(** The stripe is the whole one with other bytes in its bad data columns. *)
Lemma whole_same c : ~ bad c -> rm_col whole !! c = rm_col rm !! c.
Proof using All.
  intros Hb. destruct (decide (fdc <= c < rm_cols rm)%nat) as [Hc|Hc]; [|apply whole_other; lia].
  destruct (whole_column c Hc) as (rc & d & Hrc & Hd & Hw & _). rewrite Hw, Hrc. f_equal.
  assert (rc_abd rc = d) as <-; [|by destruct rc].
  apply (st_data _ _ _ _ Hst (c - fdc)); replace (c - fdc + fdc)%nat with c by lia; done.
Qed.

Lemma whole_one x xc :
  rm_col rm !! x = Some xc -> (forall c, (c < rm_cols rm)%nat -> bad c -> c <> x -> (c < fdc)%nat) -> rm = set_abd whole x (rc_abd xc).
Proof using All.
  intros Hx Hb. symmetry. apply rm_ext; [unfold set_abd, whole, set_cols; clear; by destruct rm|]. intros c. rewrite lookup_set_abd.
  destruct (decide (c = x)) as [-> | Hne].
  - rewrite whole_lookup, Hx. cbn. destruct (_ && _); by destruct xc.
  - destruct (decide (fdc <= c < rm_cols rm)%nat) as [Hc|Hc]; [|apply whole_other; lia]. apply whole_same.
    intros Hbc. specialize (Hb c ltac:(lia) Hbc Hne). lia.
Qed.

Lemma whole_two x y xc yc :
  x <> y -> rm_col rm !! x = Some xc -> rm_col rm !! y = Some yc -> (forall c, (c < rm_cols rm)%nat -> bad c -> c <> x -> c <> y -> (c < fdc)%nat) ->
  rm = set_abd (set_abd whole x (rc_abd xc)) y (rc_abd yc).
Proof using All.
  intros Hxy Hx Hy Hb. symmetry. apply rm_ext; [unfold set_abd, whole, set_cols; clear; by destruct rm|]. intros c. rewrite !lookup_set_abd.
  destruct (decide (c = y)) as [-> | Hney]; [rewrite decide_False by done; rewrite whole_lookup, Hy; cbn; destruct (_ && _); by destruct yc|].
  destruct (decide (c = x)) as [-> | Hne]; [rewrite whole_lookup, Hx; cbn; destruct (_ && _); by destruct xc|].
  destruct (decide (fdc <= c < rm_cols rm)%nat) as [Hc|Hc]; [|apply whole_other; lia]. apply whole_same.
  intros Hbc. specialize (Hb c ltac:(lia) Hbc Hne Hney). lia.
Qed.

Lemma stripe_p x :
  (fdc <= x < rm_cols rm)%nat -> (forall c, (c < rm_cols rm)%nat -> bad c -> c <> x -> (c < fdc)%nat) -> ~ bad 0%nat ->
  exists rm', vdev_raidz_reconstruct_p rm x = Ret (rm', 1) /\ repaired D rm rm'.
Proof using All.
  intros Hx Hb H0. pose proof (st_parities _ _ _ _ Hst). destruct (whole_column x Hx) as (xc & d & Hxc & Hd & Hw & Hs & Hl & Hdb).
  exists whole. split; [|apply whole_repaired]. rewrite (whole_one x xc Hxc Hb) at 1.
  pose proof (st_pos _ _ _ _ Hst _ d Hd) as Hpos.
  apply (reconstruct_p_ok m whole x (col_abd d xc)); try done; [apply whole_wf|cbn; lia|cbn; lia|apply whole_parity; [lia|done]|].
  by apply (wf_data m rm (st_wf _ _ _ _ Hst) x xc).
Qed.

Lemma stripe_q x :
  (fdc <= x < rm_cols rm)%nat -> (forall c, (c < rm_cols rm)%nat -> bad c -> c <> x -> (c < fdc)%nat) -> (1 < fdc)%nat -> ~ bad 1%nat ->
  exists rm', vdev_raidz_reconstruct_q rm x = Ret (rm', 2) /\ repaired D rm rm'.
Proof using All.
  intros Hx Hb H2 H0. destruct (whole_column x Hx) as (xc & d & Hxc & Hd & Hw & Hs & Hl & Hdb).
  exists whole. split; [|apply whole_repaired]. rewrite (whole_one x xc Hxc Hb) at 1.
  apply (reconstruct_q_ok m whole x (col_abd d xc)); try done; [apply whole_wf|apply (st_cols _ _ _ _ Hst)|by apply whole_parity|].
  by apply (wf_data m rm (st_wf _ _ _ _ Hst) x xc).
Qed.

Lemma stripe_pq alloc x y :
  (forall z, bytes (alloc z) /\ length (alloc z) = Z.to_nat z) ->
  (fdc <= x < y)%nat -> (y < rm_cols rm)%nat -> (forall c, (c < rm_cols rm)%nat -> bad c -> c <> x -> c <> y -> (c < fdc)%nat) ->
  (1 < fdc)%nat -> ~ bad 0%nat -> ~ bad 1%nat ->
  exists rm', vdev_raidz_reconstruct_pq alloc rm x y = Ret (rm', 3) /\ repaired D rm rm'.
Proof using All.
  intros Hal Hx Hy Hb H2 H0 H1. pose proof (st_cols _ _ _ _ Hst) as H255.
  destruct (whole_column x ltac:(lia)) as (xc & d & Hxc & Hd & Hwx & Hsx & Hlx & Hdx).
  destruct (whole_column y ltac:(lia)) as (yc & e & Hyc & He & Hwy & Hsy & Hly & Hdy).
  assert (length e <= length d)%nat as Hde by (apply (st_desc _ _ _ _ Hst (x - fdc) (y - fdc)); [lia|done|done]).
  destruct (wf_col m whole 0 whole_wf ltac:(cbn; lia)) as [pc Hpc]. destruct (wf_col m whole 1 whole_wf ltac:(cbn; lia)) as [qc Hqc].
  exists whole. split; [|apply whole_repaired]. rewrite (whole_two x y xc yc ltac:(lia) Hxc Hyc Hb) at 1.
  apply (reconstruct_pq_ok m whole x y pc qc (col_abd d xc) (col_abd e yc)); try done.
  - apply whole_wf.
  - apply whole_parity; [lia|done].
  - by apply whole_parity.
  - by apply (wf_data m rm (st_wf _ _ _ _ Hst) x xc ltac:(lia)).
  - by apply (wf_data m rm (st_wf _ _ _ _ Hst) y yc ltac:(lia)).
Qed.
End optimized.

(** ** The bad columns *)

Section bad.
Context (rm : raidz_map) (t : list nat).
Context (Hle : (rm_cols rm <= length (rm_col rm))%nat) (Hfdc : (rm_firstdatacol rm <= rm_cols rm)%nat).
Context (Ht : StronglySorted lt t) (Hlt : Forall (fun c => c < rm_cols rm)%nat t).

Notation fdc := (rm_firstdatacol rm).
Notation n := (rm_cols rm - rm_firstdatacol rm)%nat.

(** Column [c] is one of [t] or has an error. *)
Definition bad_col (c : nat) : Prop := c ∈ t \/ exists rc, rm_col rm !! c = Some rc /\ rc_error rc <> 0.

#[export] Instance bad_col_dec c : Decision (bad_col c).
Proof using.
  destruct (decide (c ∈ t)) as [H|H]; [by left; left|].
  destruct (rm_col rm !! c) as [rc|] eqn:E; [destruct (decide (rc_error rc = 0)) as [Hz|Hz]|].
  - right. intros [Hin|(rc' & Hrc' & Hne)]; [done|]. rewrite E in Hrc'. injection Hrc' as <-. done.
  - left. right. eauto.
  - right. intros [Hin|(rc' & Hrc' & _)]; [done|]. by rewrite E in Hrc'.
Defined.

Definition bads (l : list nat) : list nat := filter bad_col l.
Definition goods (l : list nat) : list nat := filter (fun c => ~ bad_col c) l.

Lemma t_filter : t = filter (fun c => c ∈ t) (seq 0 (rm_cols rm)).
Proof using All.
  apply sorted_ext; [done|apply sorted_filter, sorted_seq|]. intros c. rewrite list_elem_of_filter, elem_of_seq.
  split; [|tauto]. intros Hc. split; [done|]. pose proof (proj1 (Forall_forall _ _) Hlt c Hc) as H. cbn beta in H. lia.
Qed.

(** The test against the next target. *)
Lemma next_target c :
  (c < rm_cols rm)%nat ->
  let i := length (filter (fun c => c ∈ t) (seq 0 c)) in
  (if (i <? length t)%nat then ti ← idx t i; Ret (c =? ti)%nat else Ret false) = Ret (bool_decide (c ∈ t)).
Proof using All.
  intros Hc i. case_bool_decide as Hin.
  - pose proof (filter_seq_at (fun c => c ∈ t) (rm_cols rm) c Hc Hin) as Hat. rewrite <- t_filter in Hat. fold i in Hat.
    rewrite (proj2 (Nat.ltb_lt _ _)), (idx_ok _ _ _ Hat) by (by eapply lookup_lt_Some). cbn. by rewrite Nat.eqb_refl.
  - destruct (Nat.ltb_spec i (length t)) as [Hi|]; [|done]. destruct (lookup_lt_is_Some_2 t i Hi) as [ti Hti].
    rewrite (idx_ok _ _ _ Hti). cbn [mbind result_bind]. f_equal. apply Nat.eqb_neq. intros ->. destruct Hin. by eapply list_elem_of_lookup_2.
Qed.

Lemma bads_room c : (c < rm_cols rm)%nat -> bad_col c -> (length (bads (seq 0 (rm_cols rm))) <= 3)%nat ->
  (length (bads (seq 0 c)) <? VDEV_RAIDZ_MAXPARITY)%nat = true.
Proof using All.
  intros Hc Hb H3. apply Nat.ltb_lt. pose proof (filter_seq_at bad_col (rm_cols rm) c Hc Hb) as Hat.
  apply lookup_lt_Some in Hat. unfold bads, VDEV_RAIDZ_MAXPARITY in *. lia.
Qed.

Lemma bads_goods l : (length (bads l) + length (goods l) = length l)%nat.
Proof using. rewrite <- length_app. apply Permutation_length, filter_app_complement. Qed.

Definition valids (k : nat) : list bool := (fun c => bool_decide (~ bad_col c)) <$> seq 0 k.

Lemma valids_S k : valids (S k) = valids k ++ [bool_decide (~ bad_col k)].
Proof using. unfold valids. by rewrite seq_S, fmap_app. Qed.
Lemma valids_length k : length (valids k) = k.
Proof using. unfold valids. by rewrite length_fmap, length_seq. Qed.

Lemma bads_S c : bads (seq 0 (S c)) = if decide (bad_col c) then bads (seq 0 c) ++ [c] else bads (seq 0 c).
Proof using.
  unfold bads. rewrite seq_S, filter_app, filter_cons. cbn [Nat.add]. case_decide; [done|]. by rewrite filter_nil, app_nil_r.
Qed.
Lemma goods_S b k : length (goods (seq b (S k))) = (length (goods (seq b k)) + if decide (bad_col (b + k)) then 0 else 1)%nat.
Proof using.
  unfold goods. rewrite seq_S, filter_app, length_app, filter_cons. f_equal.
  destruct (decide (bad_col (b + k))), (decide (~ bad_col (b + k))); try done; tauto.
Qed.

Lemma find_bad_ok :
  (length (bads (seq 0 (rm_cols rm))) <= 3)%nat ->
  find_bad rm t = Ret (bads (seq 0 (rm_cols rm)), valids fdc, length (bads (seq 0 fdc)), length (bads (seq fdc n))).
Proof using All.
  intros H3. unfold find_bad.
  match goal with |- for_loop ?a 0 ?body ?st0 ≫= _ = _ =>
    destruct (for_loop_inv (fun c st => st = (bads (seq 0 c), valids (c `min` fdc), length (filter (fun c => c ∈ t) (seq 0 c)),
      (fdc - length (goods (seq 0 (c `min` fdc))))%nat, (n - length (goods (seq fdc (c - fdc))))%nat)) a 0 body st0)
      as (st & -> & ->) end.
  - intros c st Hc ->. destruct (lookup_lt_is_Some_2 (rm_col rm) c ltac:(lia)) as [rc Hrc].
    rewrite (get_col_ok _ _ _ Hrc). cbn [mbind result_bind]. rewrite next_target by lia. cbn [mbind result_bind].
    assert (length (filter (fun c => c ∈ t) (seq 0 (S c))) =
      length (filter (fun c => c ∈ t) (seq 0 c)) + if decide (c ∈ t) then 1 else 0)%nat as Hi by apply filter_seq_S.
    assert ((if (c <? fdc)%nat then valids (c `min` fdc) ++ [false] else valids (c `min` fdc)) =
      if (c <? fdc)%nat then valids c ++ [false] else valids fdc) as Hv.
    { destruct (Nat.ltb_spec c fdc); [by rewrite Nat.min_l by lia|by rewrite Nat.min_r by lia]. }
    assert ((if decide (bad_col c) then if (c <? fdc)%nat then valids c ++ [false] else valids fdc
             else if (c <? fdc)%nat then valids c ++ [true] else valids fdc) = valids (S c `min` fdc)) as Hv'.
    { destruct (Nat.ltb_spec c fdc); [rewrite Nat.min_l, valids_S by lia|rewrite Nat.min_r by lia; by destruct (decide (bad_col c))].
      destruct (decide (bad_col c)); [rewrite bool_decide_false by tauto|rewrite bool_decide_true by done]; done. }
    rewrite bads_S, Hi, Hv. destruct (decide (bad_col c)) as [Hb|Hb].
    + assert ((fdc - length (goods (seq 0 (S c `min` fdc))) = fdc - length (goods (seq 0 (c `min` fdc))))%nat /\
              (n - length (goods (seq fdc (S c - fdc))) = n - length (goods (seq fdc (c - fdc))))%nat) as [-> ->].
      { destruct (Nat.ltb_spec c fdc).
        - rewrite !Nat.min_l, goods_S by lia. cbn [Nat.add]. rewrite decide_True by done.
          replace (S c - fdc)%nat with 0%nat by lia. replace (c - fdc)%nat with 0%nat by lia. lia.
        - rewrite !Nat.min_r by lia. split; [done|]. replace (S c - fdc)%nat with (S (c - fdc)) by lia.
          rewrite goods_S. replace (fdc + (c - fdc))%nat with c by lia. rewrite decide_True by done. lia. }
      rewrite bads_room by (done || lia). rewrite <- Hv'. case_bool_decide as Hin.
      * rewrite decide_True by done. eexists. split; [reflexivity|]. by rewrite Nat.add_1_r.
      * rewrite decide_False by done. destruct Hb as [Hb|(rc' & Hrc' & Hne)]; [done|].
        replace rc' with rc in Hne by congruence. rewrite (proj2 (Z.eqb_neq _ _) Hne). cbn [negb].
        eexists. split; [reflexivity|]. by rewrite Nat.add_0_r.
    + assert (c ∉ t) as Hnt by (intros H; apply Hb; by left). rewrite bool_decide_false, decide_False by done.
      assert (rc_error rc = 0) as Hz. { destruct (decide (rc_error rc = 0)); [done|]. destruct Hb. right. eauto. }
      rewrite Hz. cbn [Z.eqb negb]. rewrite <- Hv', Nat.add_0_r. destruct (Nat.ltb_spec c fdc) as [Hcf|Hcf].
      * rewrite (proj2 (Nat.leb_gt _ _)) by done. eexists. split; [reflexivity|].
        rewrite !Nat.min_l, goods_S by lia. cbn [Nat.add]. rewrite decide_False by done.
        replace (S c - fdc)%nat with 0%nat by lia. replace (c - fdc)%nat with 0%nat by lia.
        rewrite insert_app_r_alt; rewrite valids_length; [|done]. rewrite Nat.sub_diag. cbn [list_insert]. do 2 f_equal. lia.
      * rewrite (proj2 (Nat.leb_le _ _)) by done. eexists. split; [reflexivity|].
        rewrite !Nat.min_r by lia. replace (S c - fdc)%nat with (S (c - fdc)) by lia.
        rewrite goods_S. replace (fdc + (c - fdc))%nat with c by lia. rewrite decide_False by done. f_equal. lia.
  - cbn [seq Nat.min]. rewrite Nat.sub_0_l. cbn. f_equal; [f_equal|]; lia.
  - cbn [mbind result_bind Nat.add]. rewrite Nat.min_r by done. f_equal.
    pose proof (bads_goods (seq 0 fdc)) as H1. pose proof (bads_goods (seq fdc n)) as H2. rewrite length_seq in H1, H2.
    f_equal; [f_equal|]; lia.
Qed.
End bad.

(** ** The choice of the method *)

Lemma stripe_bad m D (bad bad' : nat -> Prop) rm :
  (forall c, (c < rm_cols rm)%nat -> bad c -> bad' c) -> stripe m D bad rm -> stripe m D bad' rm.
Proof.
  intros Hb [Hwf Hp Hc Hl Hby Hde Hs Hpo Hpa Hda]. split; try done.
  - intros c rc Hcf Hn. pose proof (wf_cols _ _ Hwf). apply Hpa; [done|]. intros H'. apply Hn, Hb; [lia|done].
  - intros j d rc Hn Hd. pose proof (lookup_lt_Some _ _ _ Hd). apply Hda; [|done]. intros H'. apply Hn, Hb; [lia|done].
Qed.

Lemma code_bits es a c :
  Z.testbit (foldl add_bit a es) (Z.of_nat c) = true -> Z.testbit a (Z.of_nat c) = true \/ c ∈ es.
Proof.
  revert a. induction es as [|e es IH]; intros a; cbn [foldl]; [by left|]. intros [H|H]%IH.
  - unfold add_bit in H. rewrite Z.lor_spec in H. apply orb_prop in H as [H|H]; [by left|]. right.
    rewrite Z.shiftl_spec in H by lia. destruct (decide (c = e)) as [-> | Hne]; [apply list_elem_of_here|].
    destruct (decide (c < e)%nat); [rewrite Z.testbit_neg_r in H by lia; done|].
    change 1 with (2 ^ 0) in H. rewrite Z.pow2_bits_false in H by lia. done.
  - right. by apply list_elem_of_further.
Qed.

Section dispatch.
Context (kmem_alloc abd_alloc : Z -> list Z).
Context (Hkm : forall z, length (kmem_alloc z) = Z.to_nat z).
Context (Habd : forall z, bytes (abd_alloc z) /\ length (abd_alloc z) = Z.to_nat z).
Context (m : nat) (D : list (list Z)) (bad : nat -> Prop) (rm : raidz_map) (t : list nat).
Context (Hst : stripe m D bad rm).
Context (Hbd : forall c, (rm_firstdatacol rm <= c < rm_cols rm)%nat -> bad c -> bad_col rm t c).
Context (Ht : StronglySorted lt t) (Hlt : Forall (fun c => c < rm_cols rm)%nat t).

Notation fdc := (rm_firstdatacol rm).
Notation n := (rm_cols rm - rm_firstdatacol rm)%nat.
Notation tgts := (bads rm t (seq 0 (rm_cols rm))).
Notation dt := (bads rm t (seq (rm_firstdatacol rm) (rm_cols rm - rm_firstdatacol rm))).

Context (Hfew : (length tgts <= fdc)%nat) (Hdata : dt <> []).

(** What a method has to do: store into bad data columns only, and store the
    data there if no bad parity column passes for good. *)
Definition sound_parity : Prop := forall c, (c < fdc)%nat -> ~ bad_col rm t c -> ~ bad c.

Definition repairs (r : result (raidz_map * Z)) : Prop :=
  exists rm' code, r = Ret (rm', code) /\ touched rm dt rm' /\ (sound_parity -> repaired D rm rm') /\ 0 < code < 8 /\
    forall c, Z.testbit code (Z.of_nat c) = true -> (c < fdc)%nat /\ ~ bad_col rm t c.

Lemma in_bads l c : c ∈ bads rm t l <-> bad_col rm t c /\ c ∈ l.
Proof using. apply list_elem_of_filter. Qed.

Lemma tgts_split : tgts = bads rm t (seq 0 fdc) ++ dt.
Proof using All.
  pose proof (wf_cols _ _ (st_wf _ _ _ _ Hst)). unfold bads. rewrite <- filter_app. f_equal.
  replace (rm_cols rm) with (fdc + n)%nat at 1 by lia. by rewrite seq_app.
Qed.

Lemma sound_stripe : sound_parity -> stripe m D (bad_col rm t) rm.
Proof using All.
  intros Hsp. eapply stripe_bad; [|exact Hst]. intros c Hc Hb. destruct (decide (c < fdc)%nat); [|apply Hbd; [lia|done]].
  destruct (decide (bad_col rm t c)) as [|Hn]; [done|]. by destruct (Hsp c ltac:(done) Hn).
Qed.

Lemma in_dt c : (c < rm_cols rm)%nat -> bad_col rm t c -> (fdc <= c)%nat -> c ∈ dt.
Proof using All. intros Hc Hb Hf. apply in_bads. rewrite elem_of_seq. split; [done|lia]. Qed.

Lemma dt_range c : c ∈ dt -> (fdc <= c < rm_cols rm)%nat.
Proof using All. intros (_ & Hc%elem_of_seq)%in_bads. lia. Qed.

(** Columns filled by the general method are bad data columns. *)
Lemma filled_touched B rm' :
  filled rm ((fun j => (j + fdc)%nat) <$> gone fdc n tgts) B rm' ->
  (forall i j d, gone fdc n tgts !! i = Some j -> D !! j = Some d -> bytes (B i) /\ length (B i) = length d) -> touched rm dt rm'.
Proof using All.
  intros [Hf Hi Ho] HB. pose proof (wf_cols _ _ (st_wf _ _ _ _ Hst)) as Hwc.
  assert (forall c, c ∈ dt <-> c ∈ (fun j => (j + fdc)%nat) <$> gone fdc n tgts) as Hdt.
  { intros c. rewrite list_elem_of_fmap. split.
    - intros Hc. pose proof (dt_range c Hc). exists (c - fdc)%nat. split; [lia|]. apply list_elem_of_filter. rewrite elem_of_seq.
      replace (c - fdc + fdc)%nat with c by lia. split; [|lia]. apply in_bads in Hc as [Hb _]. apply in_bads. rewrite elem_of_seq. split; [done|lia].
    - intros (j & -> & ((Hb & Hj)%in_bads & _)%list_elem_of_filter). apply in_dt; [|done|lia]. apply elem_of_seq in Hj. lia. }
  split; [done| |].
  - intros c Hc. apply Ho. by rewrite <- Hdt.
  - intros c (i & Hci)%Hdt%list_elem_of_lookup. exists (B i). split; [by apply Hi|]. intros rc Hrc. rewrite list_lookup_fmap in Hci.
    destruct (gone fdc n tgts !! i) as [j|] eqn:Hj; [|done]. injection Hci as <-.
    assert (j < n)%nat as Hjn by (apply list_elem_of_lookup_2, list_elem_of_filter in Hj as [_ Hj%elem_of_seq]; lia).
    destruct (lookup_lt_is_Some_2 D j) as [d Hd]; [by rewrite (st_length _ _ _ _ Hst)|].
    destruct (HB i j d Hj Hd) as [? ->]. destruct (st_size _ _ _ _ Hst j d rc Hd Hrc) as [_ ->]. done.
Qed.

Lemma repairs_general linear :
  repairs ('(rm', code) ← vdev_raidz_reconstruct_general kmem_alloc abd_alloc linear rm tgts;
    _ ← verify (code <? Z.shiftl 1 (Z.of_nat VDEV_RAIDZ_MAXPARITY));
    _ ← verify (0 <? code);
    Ret (rm', code)).
Proof using All.
  assert (forall c, (fdc <= c < rm_cols rm)%nat -> bad c -> c ∈ tgts) as Hbt.
  { intros c Hc Hb. apply in_bads. rewrite elem_of_seq. split; [by apply Hbd|lia]. }
  assert (StronglySorted lt tgts) as Hs by apply sorted_filter, sorted_seq.
  assert (Forall (fun c => c < rm_cols rm)%nat tgts) as Hl.
  { apply Forall_forall. intros c (_ & Hc%elem_of_seq)%in_bads. lia. }
  assert (Exists (fun c => fdc <= c)%nat tgts) as Hex.
  { rewrite tgts_split. apply Exists_app. right. destruct dt as [|c l] eqn:E; [done|]. apply Exists_cons. left.
    assert (c ∈ dt) as (_ & Hc%elem_of_seq)%in_bads by (rewrite E; apply list_elem_of_here). lia. }
  assert (forall z, length (abd_alloc z) = Z.to_nat z) as Hal by (intros z; apply Habd).
  destruct (in_use_ok kmem_alloc abd_alloc Hkm Hal m D bad rm tgts Hst Hbt Hs Hl Hfew Hex) as (Hes & Hes2 & _ & Hne & Hg).
  destruct (general_runs kmem_alloc abd_alloc Hkm Hal m D bad rm tgts Hst Hbt Hs Hl Hfew Hex linear) as (rm' & B & -> & Hfill & HB & Hrep).
  set (code := foldl _ _ _). pose proof (code_bounds _ Hes Hes2 Hne : 0 < code < 8) as Hcode. cbn [mbind result_bind].
  change (Z.shiftl 1 (Z.of_nat VDEV_RAIDZ_MAXPARITY)) with 8.
  rewrite (proj2 (Z.ltb_lt code 8)), (proj2 (Z.ltb_lt 0 code)) by lia. cbn [verify mbind result_bind].
  pose proof (wf_cols _ _ (st_wf _ _ _ _ Hst)) as Hwc. exists rm', code. split; [done|]. split; [by eapply filled_touched|]. split; [|split; [lia|]].
  - intros Hsp. apply Hrep. intros c Hc Hout. apply Hsp; [done|]. intros Hb. apply Hout, in_bads. rewrite elem_of_seq. split; [done|lia].
  - intros c Hc. unfold code in Hc. apply code_bits in Hc as [Hc|Hc]; [by rewrite Z.testbit_0_l in Hc|].
    destruct (Hg c Hc) as [Hout Hcf]. split; [done|]. intros Hb. apply Hout, in_bads. rewrite elem_of_seq. split; [done|lia].
Qed.

(** A method that uses the parity columns [es] repairs. *)
Lemma repairs_by r es rm' :
  r = Ret (rm', foldl add_bit 0 es) -> touched rm dt rm' ->
  (sound_parity -> exists rm', r = Ret (rm', foldl add_bit 0 es) /\ repaired D rm rm') -> 0 < foldl add_bit 0 es < 8 ->
  (forall c, c ∈ es -> (c < fdc)%nat /\ ~ bad_col rm t c) -> repairs r.
Proof using.
  intros -> Hto Hrep Hcode Hes. exists rm', (foldl add_bit 0 es). do 2 (split; [done|]). split; [|split; [done|]].
  { intros (rm'' & [= <-] & Hr)%Hrep. done. }
  intros c [Hc|Hc]%code_bits; [by rewrite Z.testbit_0_l in Hc|by apply Hes].
Qed.

Lemma exact_col c : (fdc <= c < rm_cols rm)%nat -> exists rc, rm_col rm !! c = Some rc /\ Z.of_nat (length (rc_abd rc)) = rc_size rc /\ 0 < rc_size rc.
Proof using All.
  intros Hc. destruct (lookup_lt_is_Some_2 D (c - fdc)) as [d Hd]; [rewrite (st_length _ _ _ _ Hst); lia|].
  destruct (stripe_col m D _ rm Hst _ d Hd) as [rc Hrc]. destruct (st_size _ _ _ _ Hst _ d rc Hd Hrc) as [Hs Hl].
  pose proof (st_pos _ _ _ _ Hst _ d Hd) as Hpos.
  exists rc. replace (c - fdc + fdc)%nat with c in Hrc by lia. split; [done|]. rewrite Hs, Hl. lia.
Qed.

Lemma desc_col c c' rc rc' : (fdc <= c <= c')%nat -> (c' < rm_cols rm)%nat -> rm_col rm !! c = Some rc -> rm_col rm !! c' = Some rc' ->
  (length (rc_abd rc') <= length (rc_abd rc))%nat.
Proof using All.
  intros Hc Hc' Hrc Hrc'. destruct (lookup_lt_is_Some_2 D (c - fdc)) as [d Hd]; [rewrite (st_length _ _ _ _ Hst); lia|].
  destruct (lookup_lt_is_Some_2 D (c' - fdc)) as [d' Hd']; [rewrite (st_length _ _ _ _ Hst); lia|].
  pose proof (st_size _ _ _ _ Hst _ d rc Hd) as H1. pose proof (st_size _ _ _ _ Hst _ d' rc' Hd') as H2.
  replace (c - fdc + fdc)%nat with c in H1 by lia. replace (c' - fdc + fdc)%nat with c' in H2 by lia.
  destruct (H1 Hrc) as [_ ->], (H2 Hrc') as [_ ->]. apply (st_desc _ _ _ _ Hst (c - fdc) (c' - fdc)); [lia|done..].
Qed.

Lemma many_bad cs : NoDup cs -> Forall (fun c => c < fdc)%nat cs -> Forall (bad_col rm t) cs -> (length cs + length dt <= fdc)%nat.
Proof using All.
  intros Hnd Hl Hb. etrans; [|exact Hfew]. rewrite tgts_split, length_app.
  assert (length cs <= length (bads rm t (seq 0 fdc)))%nat; [|lia]. apply submseteq_length, NoDup_submseteq; [done|].
  intros c Hc. apply in_bads. rewrite elem_of_seq. pose proof (proj1 (Forall_forall _ _) Hl c Hc) as H. cbn beta in H.
  split; [by eapply Forall_forall|lia].
Qed.

Lemma reconstruct_one x linear (valid : list bool) :
  dt = [x] -> (forall c, (c < fdc)%nat -> idx valid c = Ret (bool_decide (~ bad_col rm t c))) ->
  repairs (
    p ← idx valid VDEV_RAIDZ_P;
    if p : bool then x ← idx dt 0; vdev_raidz_reconstruct_p rm x else
    _ ← verify (1 <? fdc)%nat;
    q ← idx valid VDEV_RAIDZ_Q;
    if q : bool then x ← idx dt 0; vdev_raidz_reconstruct_q rm x else
    _ ← verify (2 <? fdc)%nat;
    '(rm', code) ← vdev_raidz_reconstruct_general kmem_alloc abd_alloc linear rm tgts;
    _ ← verify (code <? Z.shiftl 1 (Z.of_nat VDEV_RAIDZ_MAXPARITY));
    _ ← verify (0 <? code);
    Ret (rm', code)).
Proof using All.
  intros Hdt Hval. pose proof (st_parities _ _ _ _ Hst) as H3.
  assert (x ∈ dt) as Hx by (rewrite Hdt; apply list_elem_of_here). pose proof (dt_range x Hx) as Hxr.
  assert (forall c, (c < rm_cols rm)%nat -> bad_col rm t c -> c <> x -> (c < fdc)%nat) as Hother.
  { intros c Hc Hb Hne. destruct (decide (c < fdc)%nat); [done|]. pose proof (in_dt c Hc Hb ltac:(lia)) as H.
    rewrite Hdt in H. apply list_elem_of_singleton in H. done. }
  unfold VDEV_RAIDZ_P, VDEV_RAIDZ_Q. rewrite (Hval 0%nat) by lia. cbn [mbind result_bind]. case_bool_decide as H0.
  - rewrite Hdt. cbn [idx mbind result_bind lookup list_lookup]. destruct (exact_col x Hxr) as (xc & Hxc & Hxl & Hpos).
    destruct (reconstruct_p_runs m rm x xc (st_wf _ _ _ _ Hst) Hxr Hxc Hxl ltac:(lia) Hpos) as (rm' & Hr & Hto).
    apply (repairs_by _ [0%nat] rm'); [exact Hr|by rewrite Hdt| |by split|].
    { intros Hsp%sound_stripe. apply (stripe_p m D _ rm Hsp x Hxr Hother H0). } intros c ->%list_elem_of_singleton. split; [lia|done].
  - pose proof (many_bad [0%nat] (NoDup_singleton _)) as Hm. rewrite Hdt in Hm. cbn [length] in Hm.
    assert (1 + 1 <= fdc)%nat as H2 by (apply Hm; apply Forall_singleton; [lia|done]).
    rewrite (proj2 (Nat.ltb_lt 1 fdc)) by lia. cbn [verify mbind result_bind]. rewrite (Hval 1%nat) by lia. cbn [mbind result_bind].
    case_bool_decide as H1.
    + rewrite Hdt. cbn [idx mbind result_bind lookup list_lookup].
      destruct (exact_col x Hxr) as (xc & Hxc & Hxl & _).
      destruct (reconstruct_q_runs m rm x xc (st_wf _ _ _ _ Hst) Hxr Hxc Hxl ltac:(lia) (st_cols _ _ _ _ Hst)) as (rm' & Hr & Hto).
      apply (repairs_by _ [1%nat] rm'); [exact Hr|by rewrite Hdt| |by split|].
      { intros Hsp%sound_stripe. apply (stripe_q m D _ rm Hsp x Hxr Hother ltac:(lia) H1). } intros c ->%list_elem_of_singleton. split; [lia|done].
    + pose proof (many_bad [0; 1]%nat) as Hm2. rewrite Hdt in Hm2. cbn [length] in Hm2.
      assert (2 + 1 <= fdc)%nat as H4.
      { apply Hm2; [|constructor; [lia|apply Forall_singleton; lia]|constructor; [done|by apply Forall_singleton]]. apply NoDup_cons. split; [|apply NoDup_singleton].
        intros H%list_elem_of_singleton. done. }
      rewrite (proj2 (Nat.ltb_lt 2 fdc)) by lia. cbn [verify mbind result_bind]. apply repairs_general.
Qed.

Lemma reconstruct_two x y linear (valid : list bool) :
  dt = [x; y] -> (forall c, (c < fdc)%nat -> idx valid c = Ret (bool_decide (~ bad_col rm t c))) ->
  repairs (
    _ ← verify (1 <? fdc)%nat;
    p ← idx valid VDEV_RAIDZ_P;
    q ← idx valid VDEV_RAIDZ_Q;
    if p && q then x ← idx dt 0; y ← idx dt 1; vdev_raidz_reconstruct_pq abd_alloc rm x y else
    _ ← verify (2 <? fdc)%nat;
    '(rm', code) ← vdev_raidz_reconstruct_general kmem_alloc abd_alloc linear rm tgts;
    _ ← verify (code <? Z.shiftl 1 (Z.of_nat VDEV_RAIDZ_MAXPARITY));
    _ ← verify (0 <? code);
    Ret (rm', code)).
Proof using All.
  intros Hdt Hval. pose proof (st_parities _ _ _ _ Hst) as H3.
  assert (x ∈ dt) as Hx by (rewrite Hdt; apply list_elem_of_here). pose proof (dt_range x Hx) as Hxr.
  assert (y ∈ dt) as Hy by (rewrite Hdt; apply list_elem_of_further, list_elem_of_here). pose proof (dt_range y Hy) as Hyr.
  assert (x < y)%nat as Hxy.
  { assert (StronglySorted lt dt) as Hs by apply sorted_filter, sorted_seq. apply (sorted_lookup dt 0 1); [done|by rewrite Hdt..|lia]. }
  assert (forall c, (c < rm_cols rm)%nat -> bad_col rm t c -> c <> x -> c <> y -> (c < fdc)%nat) as Hother.
  { intros c Hc Hb Hne Hne'. destruct (decide (c < fdc)%nat); [done|]. pose proof (in_dt c Hc Hb ltac:(lia)) as H.
    rewrite Hdt in H. apply elem_of_cons in H as [H|H%list_elem_of_singleton]; done. }
  pose proof (many_bad [] ltac:(constructor) ltac:(constructor) ltac:(constructor)) as H2. rewrite Hdt in H2. cbn [length] in H2.
  unfold VDEV_RAIDZ_P, VDEV_RAIDZ_Q. rewrite (proj2 (Nat.ltb_lt 1 fdc)) by lia. cbn [verify mbind result_bind].
  rewrite !Hval by lia. cbn [mbind result_bind].
  assert (forall c, (c < fdc)%nat -> bad_col rm t c -> (2 <? fdc)%nat = true) as H4.
  { intros c Hc Hb. pose proof (many_bad [c] (NoDup_singleton _)) as Hm. rewrite Hdt in Hm. cbn [length] in Hm.
    apply Nat.ltb_lt. enough (1 + 2 <= fdc)%nat by lia. apply Hm; by apply Forall_singleton. }
  destruct (decide (bad_col rm t 0)) as [H0|H0].
  { rewrite bool_decide_false, (H4 0%nat) by (done || lia || tauto). cbn [andb verify mbind result_bind]. apply repairs_general. }
  destruct (decide (bad_col rm t 1)) as [H1|H1].
  { rewrite (bool_decide_false (~ bad_col rm t 1)), (H4 1%nat), andb_false_r by (done || lia || tauto).
    cbn [verify mbind result_bind]. apply repairs_general. }
  rewrite !bool_decide_true by done. cbn [andb]. rewrite Hdt. cbn [idx mbind result_bind lookup list_lookup].
  destruct (exact_col x Hxr) as (xc & Hxc & Hxl & _), (exact_col y Hyr) as (yc & Hyc & Hyl & _). pose proof (st_wf _ _ _ _ Hst) as Hwf.
  pose proof (wf_cols _ _ Hwf) as Hwc. pose proof (st_cols _ _ _ _ Hst) as H255.
  destruct (wf_col m rm 0 Hwf ltac:(lia)) as [pc Hpc], (wf_col m rm 1 Hwf ltac:(lia)) as [qc Hqc].
  destruct (reconstruct_pq_runs m rm x y pc qc xc yc abd_alloc Hwf) as (rm' & Hr & Hto); try done; try lia; [by apply (desc_col x y); try lia|].
  apply (repairs_by _ [0; 1]%nat rm'); [exact Hr|by rewrite Hdt| |by split|].
  { intros Hsp%sound_stripe. apply (stripe_pq m D _ rm Hsp abd_alloc x y Habd ltac:(lia) ltac:(lia) Hother ltac:(lia) H0 H1). }
  intros c [-> | ->%list_elem_of_singleton]%elem_of_cons; (split; [lia|done]).
Qed.

Lemma reconstruct_ok default_to_general linear :
  repairs (vdev_raidz_reconstruct kmem_alloc abd_alloc default_to_general linear rm t).
Proof using All.
  pose proof (wf_cols _ _ (st_wf _ _ _ _ Hst)) as Hwc. pose proof (st_parities _ _ _ _ Hst) as H3. pose proof tgts_split as Hsp.
  unfold vdev_raidz_reconstruct. rewrite (check_loop (length t - 1) 1).
  2:{ intros i Hi. destruct (lookup_lt_is_Some_2 t i ltac:(lia)) as [a Ha], (lookup_lt_is_Some_2 t (i - 1) ltac:(lia)) as [b Hb].
      rewrite (idx_ok _ _ _ Ha), (idx_ok _ _ _ Hb). cbn [mbind result_bind].
      by rewrite (proj2 (Nat.ltb_lt _ _) (sorted_lookup t (i - 1) i b a Ht Hb Ha ltac:(lia))). }
  cbn [mbind result_bind]. rewrite find_bad_ok by (done || lia). cbn [mbind result_bind].
  rewrite (proj2 (Nat.leb_le (length t) (length tgts))).
  2:{ rewrite (t_filter rm t ltac:(lia) ltac:(lia) Ht Hlt) at 1. unfold bads. apply submseteq_length, NoDup_submseteq.
      - apply NoDup_filter, NoDup_seq.
      - intros c (Hc & Hs)%list_elem_of_filter. apply list_elem_of_filter. split; [by left|done]. }
  cbn [verify mbind result_bind].
  rewrite (proj2 (Nat.eqb_eq (length dt + length (bads rm t (seq 0 fdc))) (length tgts))) by (apply (f_equal length) in Hsp; rewrite length_app in Hsp; lia).
  cbn [verify mbind result_bind].
  assert (drop (length (bads rm t (seq 0 fdc))) tgts = dt) as -> by (rewrite Hsp at 1; apply drop_app_length).
  destruct default_to_general; [apply repairs_general|].
  assert (forall c, (c < fdc)%nat -> idx (valids rm t fdc) c = Ret (bool_decide (~ bad_col rm t c))) as Hval.
  { intros c Hc. apply idx_ok. unfold valids. by rewrite list_lookup_fmap, lookup_seq_lt. }
  destruct (length dt) as [|[|[|l]]] eqn:Hl; [by apply nil_length_inv in Hl| | |apply repairs_general].
  - destruct (list1 _ Hl) as [x Hdt]. by apply (reconstruct_one x).
  - destruct (list2 _ Hl) as (x & y & Hdt). by apply (reconstruct_two x y).
Qed.
End dispatch.

(** ** Damage *)

(** A map whose data columns are exactly as long as they say, none empty, the
    longer ones first. *)
Record raidz_sized (rm : raidz_map) : Prop := {
  sz_exact c rc : (rm_firstdatacol rm <= c < rm_cols rm)%nat -> rm_col rm !! c = Some rc ->
    Z.of_nat (length (rc_abd rc)) = rc_size rc;
  sz_desc c c' rc rc' : (rm_firstdatacol rm <= c <= c')%nat -> (c' < rm_cols rm)%nat ->
    rm_col rm !! c = Some rc -> rm_col rm !! c' = Some rc' -> rc_size rc' <= rc_size rc;
  sz_pos c rc : (rm_firstdatacol rm <= c < rm_cols rm)%nat -> rm_col rm !! c = Some rc -> 0 < rc_size rc;
}.

(** [rmd] is [rm] after some columns were read back wrong or not at all: any
    bytes may be in the columns of [t] and in those with an error. *)
Record damaged (rm : raidz_map) (t : list nat) (rmd : raidz_map) : Prop := {
  dm_frame : set_cols rm (rm_col rmd) = rmd;
  dm_length : length (rm_col rmd) = length (rm_col rm);
  dm_col c rc rcd : rm_col rm !! c = Some rc -> rm_col rmd !! c = Some rcd ->
    rc_size rcd = rc_size rc /\ bytes (rc_abd rcd) /\ length (rc_abd rcd) = length (rc_abd rc) /\
    (~ bad_col rmd t c -> rc_abd rcd = rc_abd rc);
}.

Lemma damaged_lookup rm t rmd c rcd :
  damaged rm t rmd -> rm_col rmd !! c = Some rcd -> exists rc, rm_col rm !! c = Some rc.
Proof.
  intros Hd Hc. apply lookup_lt_is_Some_2. rewrite <- (dm_length _ _ _ Hd). by eapply lookup_lt_Some.
Qed.

Lemma damaged_wf m rm t rmd : raidz_wf m rm -> damaged rm t rmd -> raidz_wf m rmd.
Proof.
  intros Hwf Hd. assert (rm_cols rmd = rm_cols rm /\ rm_firstdatacol rmd = rm_firstdatacol rm) as [Ec Ef].
  { by rewrite <- (dm_frame _ _ _ Hd). }
  split; rewrite Ef, ?Ec.
  - rewrite (dm_length _ _ _ Hd). apply (wf_cols m rm Hwf).
  - intros c rcd Hc Hrcd. destruct (damaged_lookup _ _ _ _ _ Hd Hrcd) as [rc Hrc].
    destruct (dm_col _ _ _ Hd c rc rcd Hrc Hrcd) as (Hs & Hb & Hl & _).
    destruct (wf_parity m rm Hwf c rc Hc Hrc) as (_ & Hs8 & Hl8). unfold parity_ok. rewrite Hs, Hl. done.
  - intros c rcd Hc Hrcd. destruct (damaged_lookup _ _ _ _ _ Hd Hrcd) as [rc Hrc].
    destruct (dm_col _ _ _ Hd c rc rcd Hrc Hrcd) as (Hs & Hb & Hl & _).
    destruct (wf_data m rm Hwf c rc Hc Hrc) as (_ & k & Hk & Hs8 & Hl8). split; [done|]. exists k. rewrite Hs, Hl. done.
Qed.

Lemma damaged_stripe m rm t rmd :
  raidz_wf m rm -> (1 <= rm_firstdatacol rm <= 3)%nat -> (rm_cols rm <= 255)%nat -> raidz_sized rm ->
  (forall c, (c < rm_firstdatacol rm)%nat -> has_parity m rm c) -> damaged rm t rmd ->
  stripe m (datas rm) (bad_col rmd t) rmd.
Proof.
  intros Hwf Hf H255 Hsz Hpar Hd. destruct (datas_wf m rm Hwf) as (_ & Hdb & Hdl). pose proof (wf_cols m rm Hwf) as Hwc.
  assert (rm_cols rmd = rm_cols rm /\ rm_firstdatacol rmd = rm_firstdatacol rm) as [Ec Ef].
  { by rewrite <- (dm_frame _ _ _ Hd). }
  assert (forall j d, datas rm !! j = Some d -> exists rc, rm_col rm !! (j + rm_firstdatacol rm)%nat = Some rc /\
    (j + rm_firstdatacol rm < rm_cols rm)%nat /\ rc_abd rc = d /\ rc_size rc = Z.of_nat (length d)) as Hdat.
  { intros j d Hj. pose proof (lookup_lt_Some _ _ _ Hj) as Hlt. rewrite Hdl in Hlt.
    destruct (wf_col m rm (j + rm_firstdatacol rm) Hwf ltac:(lia)) as [rc Hrc]. exists rc.
    pose proof (datas_lookup rm (j + rm_firstdatacol rm) rc ltac:(lia) Hrc) as Hlk. rewrite Nat.add_sub, Hj in Hlk.
    injection Hlk as ->. pose proof (sz_exact _ Hsz (j + rm_firstdatacol rm) rc ltac:(lia) Hrc) as He. unfold data_of.
    split_and!; [done|lia|rewrite take_ge; [done|lia]|rewrite length_take; lia]. }
  split; rewrite ?Ec, ?Ef; try done.
  - by eapply damaged_wf.
  - intros i j d d' Hij Hi Hj. destruct (Hdat i d Hi) as (rc & Hrc & Hl & _ & Hs), (Hdat j d' Hj) as (rc' & Hrc' & Hl' & _ & Hs').
    assert (rc_size rc' <= rc_size rc); [|lia]. by apply (sz_desc _ Hsz (i + rm_firstdatacol rm) (j + rm_firstdatacol rm)); [lia|..].
  - intros j d rcd Hj Hrcd. destruct (Hdat j d Hj) as (rc & Hrc & Hl & Ha & Hs).
    destruct (dm_col _ _ _ Hd _ rc rcd Hrc Hrcd) as (Hs' & _ & Hl' & _). rewrite Hs', Hl', Ha. done.
  - intros j d Hj. destruct (Hdat j d Hj) as (rc & Hrc & Hl & _ & Hs). pose proof (sz_pos _ Hsz (j + rm_firstdatacol rm) rc ltac:(lia) Hrc). lia.
  - intros c rcd Hc Hg Hrcd. destruct (damaged_lookup _ _ _ _ _ Hd Hrcd) as [rc Hrc].
    destruct (dm_col _ _ _ Hd c rc rcd Hrc Hrcd) as (_ & _ & _ & He). rewrite (He Hg). by apply Hpar.
  - intros j d rcd Hg Hj Hrcd. destruct (Hdat j d Hj) as (rc & Hrc & _ & Ha & _).
    destruct (dm_col _ _ _ Hd _ rc rcd Hrc Hrcd) as (_ & _ & _ & He). by rewrite (He Hg).
Qed.


(** The stripe of [RaidzParity] with the second parity column and the first
    data column wrong, and an error on the last one. *)
Definition demo_lost : raidz_map :=
  set_cols demo_parity
    (<[1%nat := demo_col (replicate 16 0)]>
      (<[3%nat := demo_col (replicate 16 255)]>
        (<[5%nat := RaidzCol 0 0 8 (replicate 8 77) 5 true false]> (rm_col demo_parity)))).

Lemma bytes_dec (l : list Z) : forallb (fun b => (0 <=? b) && (b <? 256)) l = true -> bytes l.
Proof.
  intros H. apply Forall_forall. intros b Hb. apply list_elem_of_In in Hb.
  pose proof (proj1 (forallb_forall _ _) H b Hb) as Hc. cbn beta in Hc. bool_to_prop. lia.
Qed.

Lemma demo_damaged : damaged demo_parity [1; 3]%nat demo_lost.
Proof.
  split; [reflexivity|reflexivity|]. intros c rc rcd Hrc Hrcd.
  destruct c as [|[|[|[|[|[|c]]]]]]; vm_compute in Hrc, Hrcd; try discriminate Hrc;
    injection Hrc as <-; injection Hrcd as <-;
    (split; [reflexivity|split; [apply bytes_dec; reflexivity|split; [reflexivity|]]]); try reflexivity.
  - intros Hn. destruct Hn. left. apply list_elem_of_here.
  - intros Hn. destruct Hn. left. apply list_elem_of_further, list_elem_of_here.
  - intros Hn. destruct Hn. right. eexists. split; [reflexivity|done].
Qed.

Lemma demo_sized : raidz_sized demo_map.
Proof.
  split.
  - intros [|[|[|[|[|[|c]]]]]] rc Hc Hrc; cbn in Hc, Hrc; try lia; injection Hrc as <-; reflexivity.
  - intros c c' rc rc' Hc Hc' Hrc Hrc'. cbn in Hc, Hc'.
    destruct c as [|[|[|[|[|[|c]]]]]]; try lia; destruct c' as [|[|[|[|[|[|c']]]]]]; try lia;
      cbn in Hrc, Hrc'; injection Hrc as <-; injection Hrc' as <-; cbn; lia.
  - intros [|[|[|[|[|[|c]]]]]] rc Hc Hrc; cbn in Hc, Hrc; try lia; injection Hrc as <-; reflexivity.
Qed.

