(* ===== verification/RaidzIo.v ===== *)
(** * RAID-Z: reading and writing a block

    Model of the I/O side of [kernel/fs/zfs/vdev_raidz.c]: what a read or a
    write issues to the children ([vdev_raidz_io_start]), what a finished
    child leaves in its column ([vdev_raidz_child_done]), and what happens
    when all are finished ([vdev_raidz_io_done]): the checksum is verified, bad
    columns are reconstructed, combinations of columns are tried
    ([vdev_raidz_combrec]), parity is verified and damaged children are
    repaired.

    Calls that leave this file (child I/Os, ereports, the next pipeline stage)
    are appended to the log of the I/O, in order.  The checksum of the block
    is a parameter: [zio_checksum_error] maps the bytes of the block to an
    error and whether it was injected. *)

From S2P Require Import Prelude Raidz RaidzXlate RaidzMatrix.

(** ** The I/O *)

Inductive zio_type : Type := ZIO_TYPE_READ | ZIO_TYPE_WRITE.

(** [enum zio_flag]. *)
Definition ZIO_FLAG_IO_REPAIR : Z := Z.shiftl 1 1.
Definition ZIO_FLAG_SELF_HEAL : Z := Z.shiftl 1 2.
Definition ZIO_FLAG_RESILVER : Z := Z.shiftl 1 3.
Definition ZIO_FLAG_SCRUB : Z := Z.shiftl 1 4.
Definition ZIO_FLAG_SPECULATIVE : Z := Z.shiftl 1 8.
Definition ZIO_FLAG_NODATA : Z := Z.shiftl 1 12.
Definition ZIO_FLAG_OPTIONAL : Z := Z.shiftl 1 18.

Definition ZIO_PRIORITY_ASYNC_WRITE : Z := 3.
Definition ZIO_CHECKSUM_NOPARITY : Z := 10.

Definition EIO : Z := 5.
Definition ENXIO : Z := 6.
Definition ECKSUM : Z := 50.
Definition ESTALE : Z := 151.

(** What an I/O asks of the rest of the system. *)
Inductive effect : Type :=
| ChildIo (dev offset : Z) (abd : option (list Z)) (size : Z) (type : zio_type) (priority flags : Z) (col : option nat)
    (** [zio_nowait(zio_vdev_child_io(...))]; [col] is the column its
        completion is recorded in, if any. *)
| ChecksumError (dev offset size : Z) (good bad : list Z) (injected : bool)
    (** [vs_checksum_errors++] and [zfs_ereport_post_checksum]. *)
| StartChecksum (dev offset size : Z) (col : nat) (injected : bool)
    (** [zfs_ereport_start_checksum]. *)
| Redone  (** [zio_vdev_io_redone]. *)
| Execute  (** [zio_execute]. *)
| ChecksumVerified  (** [zio_checksum_verified]. *).

Record zio : Type := Zio {
  io_type : zio_type;
  io_flags : Z;
  io_priority : Z;
  io_txg : Z;
  io_checksum : Z;  (** of [io_bp]; [ZIO_CHECKSUM_GANG_HEADER] for a gang block *)
  io_error : Z;
  io_vsd : raidz_map;
  rm_ecksuminjected : bool;  (** of [io_vsd] *)
  raidz_corrected : list Z;
  io_log : list effect;
}.

Definition flag (z : zio) (f : Z) : bool := negb (Z.land (io_flags z) f =? 0).

Definition set_vsd (rm : raidz_map) (z : zio) : zio :=
  Zio (io_type z) (io_flags z) (io_priority z) (io_txg z) (io_checksum z) (io_error z) rm
    (rm_ecksuminjected z) (raidz_corrected z) (io_log z).
Definition set_error (e : Z) (z : zio) : zio :=
  Zio (io_type z) (io_flags z) (io_priority z) (io_txg z) (io_checksum z) e (io_vsd z)
    (rm_ecksuminjected z) (raidz_corrected z) (io_log z).
Definition set_injected (z : zio) : zio :=
  Zio (io_type z) (io_flags z) (io_priority z) (io_txg z) (io_checksum z) (io_error z) (io_vsd z)
    true (raidz_corrected z) (io_log z).
Definition set_corrected (cs : list Z) (z : zio) : zio :=
  Zio (io_type z) (io_flags z) (io_priority z) (io_txg z) (io_checksum z) (io_error z) (io_vsd z)
    (rm_ecksuminjected z) cs (io_log z).
Definition emit (e : effect) (z : zio) : zio :=
  Zio (io_type z) (io_flags z) (io_priority z) (io_txg z) (io_checksum z) (io_error z) (io_vsd z)
    (rm_ecksuminjected z) (raidz_corrected z) (io_log z ++ [e]).

(** The column's error, tried and skipped fields. *)
Definition col_state (error : Z) (tried skipped : bool) (rc : raidz_col) : raidz_col :=
  RaidzCol (rc_devidx rc) (rc_offset rc) (rc_size rc) (rc_abd rc) error tried skipped.
Definition col_error (error : Z) (rc : raidz_col) : raidz_col := col_state error (rc_tried rc) (rc_skipped rc) rc.

Definition alter_col (f : raidz_col -> raidz_col) (c : nat) (rm : raidz_map) : raidz_map :=
  set_cols rm (alter f c (rm_col rm)).

Definition set_missing (data parity : Z) (rm : raidz_map) : raidz_map :=
  RaidzMap (rm_cols rm) (rm_scols rm) (rm_bigcols rm) (rm_asize rm) data parity
    (rm_firstdatacol rm) (rm_nskip rm) (rm_skipstart rm) (rm_col rm).

(** [vdev_raidz_child_done]: the child I/O of column [c] finished with
    [error]; a read left the bytes [abd] in it. *)
Definition vdev_raidz_child_done (c : nat) (error : Z) (abd : list Z) (z : zio) : zio :=
  set_vsd (alter_col (fun rc => col_abd abd (col_state error true false rc)) c (io_vsd z)) z.

(** The ranks of errors. *)
Definition zio_error_rank (e : Z) : nat :=
  if e =? 0 then 0 else if e =? ENXIO then 1 else if e =? ECKSUM then 2 else if e =? EIO then 3 else 4.
Definition zio_worst_error (e1 e2 : Z) : Z :=
  if (zio_error_rank e2 <? zio_error_rank e1)%nat then e1 else e2.

Definition vdev_raidz_worst_error (rm : raidz_map) : result Z :=
  for_loop (rm_cols rm) 0 (fun c error => rc ← get_col rm c; Ret (zio_worst_error error (rc_error rc))) 0.

(** The child I/O of column [c], as both [vdev_raidz_io_start] and
    [vdev_raidz_io_done] issue it. *)
Definition column_io (z : zio) (c : nat) (rc : raidz_col) : effect :=
  ChildIo (rc_devidx rc) (rc_offset rc) (Some (rc_abd rc)) (rc_size rc) (io_type z) (io_priority z) 0 (Some c).

(** ** Starting *)

Section start.
Context (abd_alloc_linear : Z -> list Z).
(** [vdev_readable] and [vdev_dtl_contains(cvd, DTL_MISSING, txg, 1)] of the
    children. *)
Context (vdev_readable : Z -> bool) (dtl_missing : Z -> Z -> bool).

(** The optional writes over the sectors the padding skips. *)
Fixpoint skip_writes (n : nat) (ashift : Z) (c : Z) (z : zio) : result zio :=
  match n with
  | O => Ret z
  | S n' =>
      let rm := io_vsd z in
      _ ← verify (c <=? Z.of_nat (rm_scols rm));
      let c := if c =? Z.of_nat (rm_scols rm) then 0 else c in
      rc ← get_col rm (Z.to_nat c);
      skip_writes n' ashift (c + 1)
        (emit (ChildIo (rc_devidx rc) (add64 (rc_offset rc) (rc_size rc)) None (Z.shiftl 1 ashift) (io_type z)
                 (io_priority z) (Z.lor ZIO_FLAG_NODATA ZIO_FLAG_OPTIONAL) None) z)
  end.

(** One column of a read. *)
Definition read_column (c : nat) (z : zio) : result zio :=
  let rm := io_vsd z in
  rc ← get_col rm c;
  let missing rm :=
    if (rm_firstdatacol rm <=? c)%nat then set_missing (rm_missingdata rm + 1) (rm_missingparity rm) rm
    else set_missing (rm_missingdata rm) (rm_missingparity rm + 1) rm in
  if negb (vdev_readable (rc_devidx rc)) then
    Ret (set_vsd (alter_col (col_state ENXIO true true) c (missing rm)) z)
  else if dtl_missing (rc_devidx rc) (io_txg z) then
    Ret (set_vsd (alter_col (col_state ESTALE (rc_tried rc) true) c (missing rm)) z)
  else if (rm_firstdatacol rm <=? c)%nat || (0 <? rm_missingdata rm) || flag z (Z.lor ZIO_FLAG_SCRUB ZIO_FLAG_RESILVER) then
    Ret (emit (column_io z c rc) z)
  else Ret z.

Definition vdev_raidz_io_start (abd : list Z) (size offset ashift children nparity : Z) (z : zio) : result zio :=
  rm ← vdev_raidz_map_alloc abd_alloc_linear abd size offset ashift children nparity;
  let z := set_vsd rm z in
  _ ← verify (rm_asize rm =? vdev_raidz_asize ashift children nparity size);
  match io_type z with
  | ZIO_TYPE_WRITE =>
      rm ← vdev_raidz_generate_parity rm;
      let z := set_vsd rm z in
      z ← for_loop (rm_cols rm) 0 (fun c z =>
        rc ← get_col (io_vsd z) c;
        _ ← vdev_raidz_io_verify ashift children nparity offset size (io_vsd z) c;
        Ret (emit (column_io z c rc) z)) z;
      z ← skip_writes (Z.to_nat (rm_nskip rm)) ashift (rm_skipstart rm) z;
      Ret (emit Execute z)
  | ZIO_TYPE_READ =>
      z ← for_loop (rm_cols rm) 0 (fun i z => read_column (rm_cols rm - 1 - i) z) z;
      Ret (emit Execute z)
  end.
End start.

(** ** Finishing *)

Section finish.
Context (kmem_alloc abd_alloc_linear zio_buf_alloc : Z -> list Z).
Context (vdev_raidz_default_to_general linear : bool).
Context (zio_checksum_error : list Z -> Z * bool).
Context (spa_writeable : bool).

(** The bytes of the block: the data columns, one after the other. *)
Definition io_abd (rm : raidz_map) : result (list Z) :=
  ds ← mapM (fun c => rc ← get_col rm c; col_data rc) (seq (rm_firstdatacol rm) (rm_cols rm - rm_firstdatacol rm));
  Ret (mjoin ds).

Definition raidz_checksum_error (rc : raidz_col) (bad_data : list Z) (z : zio) : result zio :=
  if flag z ZIO_FLAG_SPECULATIVE then Ret z else
  buf ← col_data rc;
  Ret (emit (ChecksumError (rc_devidx rc) (rc_offset rc) (rc_size rc) buf bad_data (rm_ecksuminjected z)) z).

Definition raidz_checksum_verify (z : zio) : result (zio * Z) :=
  d ← io_abd (io_vsd z);
  let '(ret, injected) := zio_checksum_error d in
  Ret (if negb (ret =? 0) && injected then set_injected z else z, ret).

(** [!rc->rc_tried || rc->rc_error != 0] fails. *)
Definition was_read (rc : raidz_col) : bool := rc_tried rc && (rc_error rc =? 0).

Definition raidz_parity_verify (z : zio) : result (zio * Z) :=
  if io_checksum z =? ZIO_CHECKSUM_NOPARITY then Ret (z, 0) else
  let rm := io_vsd z in
  orig ← mapM (fun c =>
    rc ← get_col rm c;
    if was_read rc then
      buf ← abd_copy (zio_buf_alloc (rc_size rc)) (rc_abd rc) (Z.to_nat (rc_size rc)); Ret (Some buf)
    else Ret None) (seq 0 (rm_firstdatacol rm));
  rm ← vdev_raidz_generate_parity rm;
  for_loop (rm_firstdatacol rm) 0 (fun c '(z, ret) =>
    rc ← get_col (io_vsd z) c;
    if was_read rc then
      o ← idx orig c;
      match o with
      | None => Panic
      | Some buf =>
          d ← col_data rc;
          b ← view buf 0 (Z.to_nat (rc_size rc));
          if bool_decide (d = b) then Ret (z, ret) else
          z ← raidz_checksum_error rc buf z;
          Ret (set_vsd (alter_col (col_error ECKSUM) c (io_vsd z)) z, ret + 1)
      end
    else Ret (z, ret)) (set_vsd rm z, 0).

(** [atomic_inc_64(&raidz_corrected[code])]. *)
Definition count_corrected (code : Z) (z : zio) : result zio :=
  k ← rd (raidz_corrected z) (Z.to_nat code);
  corrected ← wr (raidz_corrected z) (Z.to_nat code) (add64 k 1);
  Ret (set_corrected corrected z).

(** ** Combinatorial reconstruction *)

(** [tgts[i]], where [tgts] is [&tstore[1]]. *)
Definition tget (tstore : list Z) (i : Z) : result Z := rd tstore (Z.to_nat (i + 1)).
Definition tset (tstore : list Z) (i : Z) (c : Z) : result (list Z) := wr tstore (Z.to_nat (i + 1)) c.

(** The first column from [c] on without an error; there must be one.  The
    loop that sets up the targets asserts it, the other does not. *)
Fixpoint skip_bad (assert : bool) (fuel : nat) (rm : raidz_map) (c : nat) : result nat :=
  match fuel with
  | O => Panic
  | S fuel' =>
      rc ← get_col rm c;
      if rc_error rc =? 0 then Ret c else
      _ ← verify (negb assert || (S c <? rm_cols rm)%nat);
      skip_bad assert fuel' rm (S c)
  end.

(** The first column from [c] on without an error, or [rm_cols]. *)
Fixpoint next_valid (fuel : nat) (rm : raidz_map) (c : nat) : result nat :=
  match fuel with
  | O => Panic
  | S fuel' =>
      if (c <? rm_cols rm)%nat then
        rc ← get_col rm c;
        if rc_error rc =? 0 then Ret c else next_valid fuel' rm (S c)
      else Ret c
  end.

(** The first [n] targets. *)
Definition init_targets (rm : raidz_map) (n : nat) (data_errors : Z) (tstore : list Z) : result (list Z) :=
  '(tstore, _) ← for_loop n 0 (fun i '(tstore, c) =>
    let c := if (i =? n - 1)%nat && (data_errors =? 0) && (c <? rm_firstdatacol rm)%nat
             then rm_firstdatacol rm else c in
    c ← skip_bad true (S (rm_cols rm)) rm c;
    tstore ← tset tstore (Z.of_nat i) (Z.of_nat c);
    Ret (tstore, S c)) (tstore, O);
  tset tstore (Z.of_nat n) (Z.of_nat (rm_cols rm)).

(** [tgts[0] .. tgts[n-1]]. *)
Definition targets (n : nat) (tstore : list Z) : result (list nat) :=
  mapM (fun i => c ← tget tstore (Z.of_nat i); Ret (Z.to_nat c)) (seq 0 n).

Definition save_targets (rm : raidz_map) (n : nat) (tstore : list Z) (orig : list (list Z)) : result (list (list Z)) :=
  for_loop n 0 (fun i orig =>
    o ← idx orig i;
    c ← tget tstore (Z.of_nat i);
    _ ← verify (0 <=? c);
    _ ← verify (c <? Z.of_nat (rm_cols rm));
    rc ← get_col rm (Z.to_nat c);
    o ← abd_copy o (rc_abd rc) (Z.to_nat (rc_size rc));
    Ret (<[i := o]> orig)) orig.

Definition restore_targets (n : nat) (tstore : list Z) (orig : list (list Z)) (rm : raidz_map) : result raidz_map :=
  for_loop n 0 (fun i rm =>
    c ← tget tstore (Z.of_nat i);
    rc ← get_col rm (Z.to_nat c);
    o ← idx orig i;
    d ← abd_copy (rc_abd rc) o (Z.to_nat (rc_size rc));
    Ret (set_abd rm (Z.to_nat c) d)) rm.

(** The targets were the bad columns. *)
Definition mark_targets (n : nat) (tstore : list Z) (orig : list (list Z)) (z : zio) : result zio :=
  for_loop n 0 (fun i z =>
    c ← tget tstore (Z.of_nat i);
    rc ← get_col (io_vsd z) (Z.to_nat c);
    _ ← verify (rc_error rc =? 0);
    o ← idx orig i;
    z ← (if rc_tried rc then raidz_checksum_error rc o z else Ret z);
    Ret (set_vsd (alter_col (col_error ECKSUM) (Z.to_nat c) (io_vsd z)) z)) z.

(** The next combination: the position that moves, and where it moves to. *)
Fixpoint advance (fuel : nat) (rm : raidz_map) (n : nat) (tstore : list Z) (current : nat) : result (list Z * nat * nat) :=
  match fuel with
  | O => Panic
  | S fuel' =>
      t ← tget tstore (Z.of_nat current);
      next ← next_valid (S (rm_cols rm)) rm (Z.to_nat (t + 1));
      t1 ← tget tstore (Z.of_nat current + 1);
      _ ← verify (Z.of_nat next <=? t1);
      if negb (Z.of_nat next =? t1) then Ret (tstore, current, next) else
      t0 ← tget tstore (Z.of_nat current - 1);
      c ← skip_bad false (S (rm_cols rm)) rm (Z.to_nat (t0 + 1));
      tstore ← tset tstore (Z.of_nat current) (Z.of_nat c);
      if (S current =? n)%nat then Ret (tstore, n, next) else advance fuel' rm n tstore (S current)
  end.

(** All combinations of [n] columns. *)
Fixpoint search (fuel n : nat) (tstore : list Z) (orig : list (list Z)) (current next : nat) (z : zio) :
    result (zio * list Z * list (list Z) * option Z) :=
  if (current =? n)%nat then Ret (z, tstore, orig, None) else
  match fuel with
  | O => Panic
  | S fuel' =>
      tstore ← tset tstore (Z.of_nat current) (Z.of_nat next);
      orig ← save_targets (io_vsd z) n tstore orig;
      tgts ← targets n tstore;
      '(rm, code) ← vdev_raidz_reconstruct kmem_alloc abd_alloc_linear vdev_raidz_default_to_general linear (io_vsd z) tgts;
      '(z, ret) ← raidz_checksum_verify (set_vsd rm z);
      if ret =? 0 then
        z ← count_corrected code z;
        z ← mark_targets n tstore orig z;
        Ret (z, tstore, orig, Some code)
      else
        rm ← restore_targets n tstore orig (io_vsd z);
        let z := set_vsd rm z in
        '(tstore, current, next) ← advance n rm n tstore 0;
        search fuel' n tstore orig current next z
  end.

(** No less than the number of combinations of [n] columns. *)
Definition search_fuel (rm : raidz_map) (n : nat) : nat := S (rm_cols rm) ^ n.

(** [for (n = n0; n < n0 + k; n++)]. *)
Fixpoint combrec_sizes (k n : nat) (data_errors : Z) (tstore : list Z) (orig : list (list Z)) (z : zio) : result (zio * Z) :=
  match k with
  | O => Ret (z, 0)
  | S k' =>
      let rm := io_vsd z in
      tstore ← init_targets rm n data_errors tstore;
      _ ← verify (length orig =? n - 1)%nat;
      rc ← get_col rm 0;
      let orig := orig ++ [zio_buf_alloc (rc_size rc)] in
      next ← tget tstore 0;
      '(z, tstore, orig, code) ← search (search_fuel rm n) n tstore orig 0 (Z.to_nat next) z;
      match code with
      | Some code => Ret (z, code)
      | None => combrec_sizes k' (S n) data_errors tstore orig z
      end
  end.

(** [tstore0] is what the array holds on entry. *)
Definition vdev_raidz_combrec (tstore0 : list Z) (total_errors data_errors : Z) (z : zio) : result (zio * Z) :=
  let fdc := rm_firstdatacol (io_vsd z) in
  _ ← verify (total_errors <? Z.of_nat fdc);
  tstore ← tset tstore0 (-1) (-1);
  combrec_sizes (fdc - Z.to_nat total_errors) 1 data_errors tstore [] z.

(** ** Completion *)

(** What the columns report. *)
Record tally : Type := Tally {
  unexpected_errors : Z;
  parity_errors : Z;
  parity_untried : Z;
  data_errors : Z;
  total_errors : Z;
}.

Definition count_errors (rm : raidz_map) : result tally :=
  for_loop (rm_cols rm) 0 (fun c t =>
    rc ← get_col rm c;
    let parity := (c <? rm_firstdatacol rm)%nat in
    if negb (rc_error rc =? 0) then
      _ ← verify (negb (rc_error rc =? ECKSUM));
      Ret (Tally (if rc_skipped rc then unexpected_errors t else unexpected_errors t + 1)
             (if parity then parity_errors t + 1 else parity_errors t)
             (parity_untried t)
             (if parity then data_errors t else data_errors t + 1)
             (total_errors t + 1))
    else if parity && negb (rc_tried rc) then
      Ret (Tally (unexpected_errors t) (parity_errors t) (parity_untried t + 1) (data_errors t) (total_errors t))
    else Ret t) (Tally 0 0 0 0 0).

(** The data columns that reported an error. *)
Definition bad_data_columns (rm : raidz_map) : result (list nat) :=
  for_loop (rm_cols rm - rm_firstdatacol rm) (rm_firstdatacol rm) (fun c tgts =>
    rc ← get_col rm c;
    if negb (rc_error rc =? 0) then
      _ ← verify (length tgts <? VDEV_RAIDZ_MAXPARITY)%nat;
      Ret (tgts ++ [c])
    else Ret tgts) [].

(** Parity is verified if more was read than was used, or to be written. *)
Definition verify_parity (more : bool) (t : tally) (z : zio) : result (zio * Z) :=
  if more || flag z ZIO_FLAG_RESILVER then
    '(z, n) ← raidz_parity_verify z;
    _ ← verify (parity_errors t + n <=? Z.of_nat (rm_firstdatacol (io_vsd z)));
    Ret (z, unexpected_errors t + n)
  else Ret (z, unexpected_errors t).

(** Valid data from the columns read and the errors known; [None] if there is
    none. *)
Definition known_errors (t : tally) (z : zio) : result (zio * option Z) :=
  let rm := io_vsd z in
  let fdc := Z.of_nat (rm_firstdatacol rm) in
  if negb (total_errors t <=? fdc - parity_untried t) then Ret (z, None)
  else if data_errors t =? 0 then
    '(z, ret) ← raidz_checksum_verify z;
    if ret =? 0 then
      '(z, u) ← verify_parity (parity_errors t + parity_untried t <? fdc) t z;
      Ret (z, Some u)
    else Ret (z, None)
  else
    _ ← verify (parity_untried t =? 0);
    _ ← verify (parity_errors t <? fdc);
    tgts ← bad_data_columns rm;
    let n := Z.of_nat (length tgts) in
    _ ← verify (n <=? fdc);
    '(rm, code) ← vdev_raidz_reconstruct kmem_alloc abd_alloc_linear vdev_raidz_default_to_general linear rm tgts;
    '(z, ret) ← raidz_checksum_verify (set_vsd rm z);
    if ret =? 0 then
      z ← count_corrected code z;
      '(z, u) ← verify_parity (parity_errors t <? fdc - n) t z;
      Ret (z, Some u)
    else Ret (z, None).

(** Read the columns that were not read yet; [false] if there are none. *)
Definition read_rest (z : zio) : result (zio * bool) :=
  for_loop (rm_cols (io_vsd z)) 0 (fun c '(z, some) =>
    rc ← get_col (io_vsd z) c;
    if rc_tried rc then Ret (z, some) else
    Ret (emit (column_io z c rc) (if some : bool then z else emit Redone z), true)) (z, false).

(** Checksum ereports for the children that have not failed. *)
Definition report_all (z : zio) : result zio :=
  if flag z ZIO_FLAG_SPECULATIVE then Ret z else
  for_loop (rm_cols (io_vsd z)) 0 (fun c z =>
    rc ← get_col (io_vsd z) c;
    if rc_error rc =? 0 then
      Ret (emit (StartChecksum (rc_devidx rc) (rc_offset rc) (rc_size rc) c (rm_ecksuminjected z)) z)
    else Ret z) z.

(** [done]: use the good data to repair damaged children. *)
Definition repair_children (unexpected : Z) (z : zio) : result zio :=
  let z := emit ChecksumVerified z in
  if (io_error z =? 0) && spa_writeable && (negb (unexpected =? 0) || flag z ZIO_FLAG_RESILVER) then
    for_loop (rm_cols (io_vsd z)) 0 (fun c z =>
      rc ← get_col (io_vsd z) c;
      if rc_error rc =? 0 then Ret z else
      Ret (emit (ChildIo (rc_devidx rc) (rc_offset rc) (Some (rc_abd rc)) (rc_size rc) ZIO_TYPE_WRITE ZIO_PRIORITY_ASYNC_WRITE
                   (Z.lor ZIO_FLAG_IO_REPAIR (if unexpected =? 0 then 0 else ZIO_FLAG_SELF_HEAL)) None) z)) z
  else Ret z.

Definition vdev_raidz_io_done (tstore0 : list Z) (z : zio) : result zio :=
  let rm := io_vsd z in
  let fdc := Z.of_nat (rm_firstdatacol rm) in
  _ ← verify (rm_missingparity rm <=? fdc);
  _ ← verify (rm_missingdata rm <=? Z.of_nat (rm_cols rm) - fdc);
  t ← count_errors rm;
  match io_type z with
  | ZIO_TYPE_WRITE =>
      if fdc <? total_errors t then e ← vdev_raidz_worst_error rm; Ret (set_error e z) else Ret z
  | ZIO_TYPE_READ =>
      '(z, r) ← known_errors t z;
      match r with
      | Some unexpected => repair_children unexpected z
      | None =>
          let z := set_vsd (set_missing 0 0 (io_vsd z)) z in
          '(z, some) ← read_rest z;
          if some : bool then Ret z else
          if fdc <? total_errors t then
            e ← vdev_raidz_worst_error (io_vsd z);
            repair_children 1 (set_error e z)
          else
            '(z, code) ← (if total_errors t <? fdc then vdev_raidz_combrec tstore0 (total_errors t) (data_errors t) z
                          else Ret (z, 0));
            if negb (code =? 0) then
              '(z, _) ← (if code =? Z.shiftl 1 fdc - 1 then Ret (z, 0) else raidz_parity_verify z);
              repair_children 1 z
            else
              z ← report_all (set_error ECKSUM z);
              repair_children 1 z
      end
  end.
End finish.

(** ** The state of the device *)

Inductive vdev_state : Type := VDEV_STATE_CANT_OPEN | VDEV_STATE_DEGRADED | VDEV_STATE_HEALTHY.
Inductive vdev_aux : Type := VDEV_AUX_NONE | VDEV_AUX_NO_REPLICAS.

(** What [vdev_set_state] is called with. *)
Definition vdev_raidz_state_change (vdev_nparity faulted degraded : Z) : vdev_state * vdev_aux :=
  if vdev_nparity <? faulted then (VDEV_STATE_CANT_OPEN, VDEV_AUX_NO_REPLICAS)
  else if negb (degraded + faulted =? 0) then (VDEV_STATE_DEGRADED, VDEV_AUX_NONE)
  else (VDEV_STATE_HEALTHY, VDEV_AUX_NONE).
