(* ===== verification/RaidzEnum.v ===== *)
(** * RAID-Z: the combinations of columns

    The combinatorial search goes through sets of columns without an error,
    each held in increasing order.  This file is about the order it goes
    through them: from one set it goes to the least one after it, compared
    from the highest column down, so none is left out. *)

From S2P Require Import Prelude RaidzGeneral.

#[local] Open Scope nat_scope.

(** ** Numbers written with the lowest digit first *)

Fixpoint digits (B : nat) (l : list nat) : nat :=
  match l with [] => 0 | x :: l' => x + B * digits B l' end.

Lemma digits_bound B l : Forall (fun x => x < B) l -> digits B l < B ^ length l.
Proof. induction 1 as [|x l Hx _ IH]; cbn [digits length Nat.pow]; nia. Qed.

Lemma digits_app B l r : digits B (l ++ r) = digits B l + B ^ length l * digits B r.
Proof. induction l as [|x l IH]; cbn [digits app length Nat.pow]; [lia|]. rewrite IH. nia. Qed.

Lemma digits_mono B l m : Forall2 (fun x y => x <= y) l m -> digits B l <= digits B m.
Proof. induction 1 as [|x y l m Hxy _ IH]; cbn [digits]; nia. Qed.

(** The highest digit that differs decides. *)
Lemma digits_lt B l l' x y r :
  Forall (fun x => x < B) l -> length l = length l' -> x < y -> digits B (l ++ x :: r) < digits B (l' ++ y :: r).
Proof.
  intros Hl Hlen Hxy. rewrite !digits_app, Hlen. cbn [digits]. pose proof (digits_bound B l Hl) as Hb. rewrite Hlen in Hb. nia.
Qed.

Lemma digits_inj B l m :
  Forall (fun x => x < B) l -> Forall (fun x => x < B) m -> length l = length m -> digits B l = digits B m -> l = m.
Proof.
  intros Hl. revert m. induction Hl as [|x l Hx Hl IH]; intros m Hm Hlen Heq; destruct Hm as [|y m Hy Hm]; cbn in *; try done.
  assert (digits B l = digits B m) as He by nia. assert (x = y) as -> by nia. f_equal. apply IH; [done|lia|done].
Qed.

Lemma digits_differ B l m :
  Forall (fun x => x < B) l -> Forall (fun x => x < B) m -> length l = length m -> digits B l < digits B m ->
  exists p q x y r, l = p ++ x :: r /\ m = q ++ y :: r /\ length p = length q /\ x < y.
Proof.
  revert m. induction l as [|x l IH]; intros [|y m] Hl Hm Hlen Hd; cbn in Hlen, Hd; try lia.
  apply Forall_cons in Hl as [Hx Hl]. apply Forall_cons in Hm as [Hy Hm].
  destruct (decide (l = m)) as [-> | Hne]; [exists [], [], x, y, m; split_and!; try done; lia|].
  assert (digits B l < digits B m \/ digits B m < digits B l \/ digits B l = digits B m) as [Hlt|[Hgt|Heq]] by lia.
  - destruct (IH m Hl Hm ltac:(lia) Hlt) as (p & q & x' & y' & r & -> & -> & Hpq & Hxy').
    exists (x :: p), (y :: q), x', y', r. cbn. by rewrite Hpq.
  - nia.
  - by destruct Hne; apply (digits_inj B); try lia.
Qed.

(** ** Columns without an error *)

Section columns.
Context (cols : nat) (err : nat -> bool).

Definition good (c : nat) : Prop := c < cols /\ err c = false.

(** The first good column from [c] on, or [cols]. *)
Fixpoint nxt_from (k c : nat) : nat :=
  match k with O => c | S k' => if err c then nxt_from k' (S c) else c end.
Definition nxt (c : nat) : nat := nxt_from (cols - c) c.

Lemma nxt_from_spec k c : c + k = cols ->
  c <= nxt_from k c <= cols /\ (nxt_from k c < cols -> good (nxt_from k c)) /\ forall w, good w -> c <= w -> nxt_from k c <= w.
Proof using.
  revert c. induction k as [|k IH]; intros c Hc; cbn; [split_and!; [lia..|]; intros w [Hw _]; lia|].
  destruct (err c) eqn:E.
  - destruct (IH (S c) ltac:(lia)) as (H1 & H2 & H3). split_and!; [lia|lia|done|].
    intros w Hw Hle. apply H3; [done|]. destruct (decide (c = w)) as [-> |]; [destruct Hw; congruence|lia].
  - split_and!; [lia|lia|done|]. intros w Hw Hle. done.
Qed.

Lemma nxt_ge c : c <= cols -> c <= nxt c <= cols.
Proof using. intros Hc. by apply (nxt_from_spec (cols - c) c); lia. Qed.
Lemma nxt_good c : c <= cols -> nxt c < cols -> good (nxt c).
Proof using. intros Hc. by apply (nxt_from_spec (cols - c) c); lia. Qed.
Lemma nxt_le c w : good w -> c <= w -> nxt c <= w.
Proof using. intros Hw Hc. apply (nxt_from_spec (cols - c) c); [|done..]. destruct Hw. lia. Qed.

Lemma nxt_step c : c < cols -> nxt c = if err c then nxt (S c) else c.
Proof using. intros Hc. unfold nxt. replace (cols - c) with (S (cols - S c)) by lia. done. Qed.
Lemma nxt_end : nxt cols = cols.
Proof using. unfold nxt. by rewrite Nat.sub_diag. Qed.

(** The lowest good columns, in order. *)
Fixpoint low (j : nat) : nat := match j with O => nxt 0 | S j' => nxt (S (low j')) end.
Definition lows (k : nat) : list nat := low <$> seq 0 k.

Lemma lows_length k : length (lows k) = k.
Proof using. unfold lows. by rewrite length_fmap, length_seq. Qed.
Lemma lows_S k : lows (S k) = lows k ++ [low k].
Proof using. unfold lows. by rewrite seq_S, fmap_app. Qed.

(** ** Sets of columns *)

Record vec (a : list nat) : Prop := {
  vec_sorted : StronglySorted lt a;
  vec_good : Forall good a;
}.

Lemma vec_digits a : vec a -> Forall (fun x => x < S cols) a.
Proof using. intros [_ Hg]. eapply Forall_impl; [exact Hg|]. intros x [Hx _]. lia. Qed.

Lemma low_le a j x : vec a -> a !! j = Some x -> low j <= x /\ good (low j).
Proof using.
  intros [Hs Hg]. revert x. induction j as [|j IH]; intros x Hx.
  - pose proof (Forall_lookup_1 _ _ _ _ Hg Hx) as Hgx. pose proof (nxt_le 0 x Hgx ltac:(lia)). cbn [low].
    split; [done|]. apply nxt_good; [lia|]. destruct Hgx. lia.
  - pose proof (Forall_lookup_1 _ _ _ _ Hg Hx) as Hgx. destruct (lookup_lt_is_Some_2 a j) as [y Hy]; [apply lookup_lt_Some in Hx; lia|].
    destruct (IH y Hy) as [Hl [Hlc _]].
    assert (y < x) as Hyx.
    { clear -Hs Hx Hy. pose proof (take_drop_middle a j y Hy) as Ha. rewrite <- Ha in Hs.
      eapply (StronglySorted_app_1_elem_of lt (take j a ++ [y]) (drop (S j) a)); [by rewrite <- app_assoc|apply elem_of_app; right; apply list_elem_of_here|].
      apply list_elem_of_lookup. exists 0. by rewrite lookup_drop, Nat.add_0_r. }
    pose proof (nxt_le (S (low j)) x Hgx ltac:(lia)). cbn [low]. split; [done|]. apply nxt_good; [lia|]. destruct Hgx. lia.
Qed.

Lemma low_lt j : low j < cols -> low j < low (S j).
Proof using. intros H. cbn [low]. pose proof (nxt_ge (S (low j))). lia. Qed.

(** The lows below a column of a set are a set. *)
Lemma lows_vec a k : vec a -> k <= length a -> vec (lows k) /\ forall x, x ∈ lows k -> exists y, y ∈ take k a /\ x <= y.
Proof using.
  intros Ha. induction k as [|k IH]; intros Hk; [split; [split; constructor|]; by intros x Hx%elem_of_nil|].
  destruct (IH ltac:(lia)) as [[Hs Hg] Hle]. destruct (lookup_lt_is_Some_2 a k ltac:(lia)) as [x Hx].
  destruct (low_le a k x Ha Hx) as [Hl Hgood]. rewrite lows_S, (take_S_r _ _ _ Hx). split; [split|].
  - clear -Hs Hg Hgood. destruct k as [|k]; [repeat constructor|]. rewrite lows_S in *.
    assert (forall y, y ∈ lows k ++ [low k] -> y <= low k) as Hm.
    { intros y [Hy | ->%list_elem_of_singleton]%elem_of_app; [|done].
      pose proof (StronglySorted_app_1_elem_of lt (lows k) [low k] y (low k) Hs Hy (list_elem_of_here _ _)). lia. }
    pose proof (proj2 (proj1 (Forall_app _ _ _) Hg)) as Hg1. apply Forall_singleton in Hg1 as [Hg1 _].
    pose proof (low_lt k Hg1) as Hlt.
    apply StronglySorted_app; split_and!; [|done|repeat constructor].
    intros y z Hy Hz%list_elem_of_singleton. specialize (Hm y Hy). lia.
  - apply Forall_app. split; [done|by apply Forall_singleton].
  - intros y [Hy | ->%list_elem_of_singleton]%elem_of_app.
    + destruct (Hle y Hy) as (w & Hw & Hyw). exists w. split; [apply elem_of_app; by left|done].
    + exists x. split; [apply elem_of_app; right; apply list_elem_of_here|done].
Qed.

(** ** The next set *)

(** Each column of [l] is followed by the next good one; [y] follows the
    last. *)
Fixpoint packed (l : list nat) (y : nat) : Prop :=
  match l with [] => True | x :: l' => nxt (S x) = hd y l' /\ packed l' y end.

Lemma packed_app l r y : packed (l ++ r) y <-> packed l (hd y r) /\ packed r y.
Proof using.
  induction l as [|x l IH]; cbn [packed app]; [tauto|]. rewrite IH. destruct l; cbn; tauto.
Qed.

Lemma packed_at p x r y : packed (p ++ x :: r) y -> nxt (S x) = hd y r.
Proof using. rewrite packed_app. cbn. tauto. Qed.

Section next.
Context (p s : list nat) (x : nat).
Context (Ha : vec (p ++ x :: s)) (Hp : packed p x).

(** The columns below [x] go back to the lowest, [x] moves on. *)
Definition succ : list nat := lows (length p) ++ nxt (S x) :: s.

Lemma succ_length : length succ = length (p ++ x :: s).
Proof using. unfold succ. rewrite !length_app, lows_length. done. Qed.

Lemma x_good : good x /\ x < nxt (S x).
Proof using Ha.
  destruct Ha as [_ Hg]. apply Forall_app in Hg as [_ Hg]. apply Forall_cons in Hg as [[Hx He] _].
  split; [by split|]. pose proof (nxt_ge (S x) ltac:(lia)). lia.
Qed.

Lemma succ_vec : nxt (S x) < hd cols s -> vec succ.
Proof using Ha.
  intros Hlt. destruct (lows_vec _ (length p) Ha) as [[Hls Hlg] Hle]; [rewrite length_app; lia|]. rewrite take_app_length in Hle.
  destruct x_good as [[Hx _] Hxn]. destruct Ha as [Hs Hg]. apply Forall_app in Hg as [_ Hg]. apply Forall_cons in Hg as [_ Hg].
  pose proof (StronglySorted_app_1_r lt _ _ Hs) as Hs2. apply StronglySorted_cons in Hs2 as [Hxs Hss].
  assert (Forall (lt (nxt (S x))) s) as Hns.
  { clear -Hlt Hss. destruct s as [|y s']; [done|]. cbn in Hlt. apply StronglySorted_cons in Hss as [Hy _].
    constructor; [done|]. eapply Forall_impl; [exact Hy|]. cbn. lia. }
  assert (hd cols s <= cols) as Hhd by (destruct Hg as [|y s' [Hy _] _]; cbn; lia).
  split.
  - apply StronglySorted_app. split_and!; [|done|by apply StronglySorted_cons].
    intros y z Hy Hz. destruct (Hle y Hy) as (w & Hw & Hyw). pose proof (StronglySorted_app_1_elem_of lt _ _ w x Hs Hw (list_elem_of_here _ _)).
    apply elem_of_cons in Hz as [-> | Hz]; [lia|]. eapply Forall_forall in Hns; [|exact Hz]. lia.
  - apply Forall_app. split; [done|]. constructor; [|done]. apply nxt_good; [lia|]. lia.
Qed.

Lemma succ_gt : digits (S cols) (p ++ x :: s) < digits (S cols) succ.
Proof using Ha.
  unfold succ. apply digits_lt; [|by rewrite lows_length|apply x_good].
  pose proof (vec_digits _ Ha) as Hd. by apply Forall_app in Hd as [? _].
Qed.

(** A column that differs from a packed one cannot be lower than its
    successor. *)
Lemma packed_differ x1 r q y z :
  vec (q ++ y :: r) -> x1 < y -> nxt (S x1) = hd z r -> r = [] /\ z <= y.
Proof using.
  intros [Hs Hg] Hxy Hpk. apply Forall_app in Hg as [_ Hg]. apply Forall_cons in Hg as [Hy _].
  pose proof (nxt_le (S x1) y Hy ltac:(lia)) as Hn. destruct r as [|z' r]; cbn in Hpk; [split; [done|lia]|].
  apply StronglySorted_app_1_r, StronglySorted_cons in Hs as [Hs _]. apply Forall_cons in Hs as [Hs _]. lia.
Qed.

Lemma succ_least w :
  vec w -> length w = length (p ++ x :: s) -> digits (S cols) (p ++ x :: s) < digits (S cols) w ->
  digits (S cols) succ <= digits (S cols) w.
Proof using Ha Hp.
  intros Hw Hl Hd. destruct (digits_differ _ _ _ (vec_digits _ Ha) (vec_digits _ Hw) (eq_sym Hl) Hd)
    as (p1 & q & x1 & y & r & Heq & -> & Hpq & Hxy).
  destruct (lows_vec _ (length p) Ha) as [Hlv _]; [rewrite length_app; lia|].
  assert (length p1 < length p \/ length p1 = length p \/ length p < length p1) as [Hlt|[He|Hgt]] by lia.
  - exfalso. assert (exists r1, p = p1 ++ x1 :: r1 /\ r = r1 ++ x :: s) as (r1 & -> & ->).
    { exists (drop (S (length p1)) p). pose proof (f_equal (drop (length p1)) Heq) as H1. rewrite drop_app_length, drop_app_le in H1 by lia.
      assert (drop (length p1) p = x1 :: drop (S (length p1)) p) as Hd1.
      { destruct (lookup_lt_is_Some_2 p (length p1) Hlt) as [z Hz]. rewrite (drop_S _ _ _ Hz) in *. cbn in H1. injection H1 as -> _. done. }
      rewrite Hd1 in H1. cbn in H1. injection H1 as <-. split; [|done].
      rewrite <- Hd1. pose proof (f_equal (take (length p1)) Heq) as H2. rewrite take_app_length, take_app_le in H2 by lia.
      rewrite <- H2 at 1. by rewrite take_drop. }
    destruct (packed_differ x1 (r1 ++ x :: s) q y cols) as [Hnil _]; [done|done| |by destruct r1].
    rewrite (packed_at _ _ _ _ Hp). by destruct r1.
  - apply app_inj_1 in Heq as [<- [= <- <-]]; [|done]. destruct Hw as [Hws Hwg].
    assert (nxt (S x) <= y) as Hny.
    { apply nxt_le; [|lia]. apply Forall_app in Hwg as [_ Hg]. by apply Forall_cons in Hg as [? _]. }
    destruct (decide (nxt (S x) = y)) as [<- | Hne].
    + apply digits_mono, Forall2_app; [|apply (reflexivity (R := Forall2 Nat.le))].
      apply Forall2_same_length_lookup_2; [by rewrite lows_length|]. intros j u v Hu Hv.
      unfold lows in Hu. rewrite list_lookup_fmap in Hu. pose proof (lookup_lt_Some _ _ _ Hv) as Hj. rewrite lookup_seq_lt in Hu by lia.
      injection Hu as <-. apply (low_le (q ++ nxt (S x) :: s) j v); [by split|]. by rewrite lookup_app_l.
    + apply Nat.lt_le_incl, digits_lt; [|rewrite lows_length; lia|lia]. by apply vec_digits.
  - assert (exists s1, s = s1 ++ x1 :: r) as (s1 & Hs1).
    { exists (drop (S (length p)) p1). pose proof (f_equal (drop (S (length p))) Heq) as H1.
      rewrite (drop_app_le p1) in H1 by lia. change (p ++ x :: s) with (p ++ [x] ++ s) in H1. rewrite app_assoc in H1.
      replace (S (length p)) with (length (p ++ [x])) in H1 at 1 by (rewrite length_app; cbn; lia). by rewrite drop_app_length in H1. }
    pose proof (vec_digits _ Ha) as Hdg. unfold succ. rewrite Hs1 in Heq, Hdg |- *. rewrite app_comm_cons, (app_assoc _ (_ :: s1)).
    assert (length p1 = length p + S (length s1)) as Hlp.
    { apply (f_equal length) in Heq. rewrite !length_app in Heq. cbn in Heq. rewrite length_app in Heq. cbn in Heq. lia. }
    apply Nat.lt_le_incl, digits_lt; [|rewrite length_app, lows_length; cbn; lia|done].
    apply Forall_app. split; [by apply vec_digits|]. destruct x_good as [[Hx _] _]. constructor; [pose proof (nxt_ge (S x)); lia|].
    apply Forall_app in Hdg as [_ Hdg]. apply Forall_cons in Hdg as [_ Hdg]. by apply Forall_app in Hdg as [? _].
Qed.
End next.

(** When every column is followed by the next good one, the set is the last. *)
Lemma packed_last a w :
  vec a -> packed a cols -> vec w -> length w = length a -> digits (S cols) w <= digits (S cols) a.
Proof using.
  intros Ha Hpk Hw Hl. destruct (decide (digits (S cols) w <= digits (S cols) a)) as [|Hgt]; [done|]. exfalso.
  destruct (digits_differ _ _ _ (vec_digits _ Ha) (vec_digits _ Hw) (eq_sym Hl) ltac:(lia)) as (p1 & q & x1 & y & r & -> & -> & Hpq & Hxy).
  destruct (packed_differ x1 r q y cols Hw Hxy (packed_at _ _ _ _ Hpk)) as [_ Hc]. destruct Hw as [_ Hg].
  apply Forall_app in Hg as [_ Hg]. apply Forall_cons in Hg as [[Hy _] _]. lia.
Qed.
End columns.
