(* ===== verification/RaidzCombrec.v ===== *)
(** * RAID-Z: the combinatorial search

    [vdev_raidz_combrec] goes through all sets of columns without an error, as
    many as the parity that is left allows, and stops at the first one whose
    reconstruction has a valid checksum. *)

From S2P Require Import Prelude Raidz RaidzParity RaidzMatrix RaidzSolve RaidzInvert RaidzRecover RaidzGeneral RaidzRuns RaidzReconstruct.
From S2P Require Import RaidzIo RaidzEnum.

(** ** The array of targets *)

Section targets.
Context (cols : nat).

(** [tgts[-1]] is -1 and [tgts[0]], ... are [a]. *)
Record front (ts : list Z) (a : list nat) : Prop := {
  fr_low : ts !! 0%nat = Some (-1);
  fr_at i c : a !! i = Some c -> ts !! S i = Some (Z.of_nat c);
}.

(** [tgts[n]] is [rm_cols]. *)
Record tgts_are (ts : list Z) (a : list nat) : Prop := {
  ta_front : front ts a;
  ta_top : ts !! S (length a) = Some (Z.of_nat cols);
}.

Lemma tget_at ts a i c : front ts a -> a !! i = Some c -> tget ts (Z.of_nat i) = Ret (Z.of_nat c).
Proof using. intros Hf Hi. unfold tget. apply rd_ok. replace (Z.to_nat _) with (S i) by lia. by apply (fr_at _ _ Hf). Qed.
Lemma tget_low ts a : front ts a -> tget ts (Z.of_nat 0 - 1) = Ret (-1).
Proof using. intros Hf. apply rd_ok, (fr_low _ _ Hf). Qed.

Lemma tset_app ts a r c : front ts (a ++ r) -> (S (length a) < length ts)%nat ->
  exists ts', tset ts (Z.of_nat (length a)) (Z.of_nat c) = Ret ts' /\ front ts' (a ++ c :: tail r) /\ length ts' = length ts /\
    forall j, j <> S (length a) -> ts' !! j = ts !! j.
Proof using.
  intros Hf Hl. unfold tset. replace (Z.to_nat _) with (S (length a)) by lia. rewrite wr_ok by done. eexists. split; [done|].
  split; [split|split; [apply length_insert|]].
  - rewrite list_lookup_insert_ne by done. apply (fr_low _ _ Hf).
  - intros i x Hi. destruct (decide (i = length a)) as [-> | Hne].
    + rewrite list_lookup_insert_eq by done. rewrite list_lookup_middle in Hi by done. by injection Hi as ->.
    + rewrite list_lookup_insert_ne by lia. apply (fr_at _ _ Hf).
      destruct (decide (i < length a)%nat); [by rewrite lookup_app_l in * by done|]. rewrite lookup_app_r in * by lia.
      destruct (i - length a)%nat as [|k] eqn:E; [lia|]. cbn in Hi. by destruct r.
  - intros j Hj. by apply list_lookup_insert_ne.
Qed.

Lemma targets_ok ts a : front ts a -> targets (length a) ts = Ret a.
Proof using.
  intros Hf. unfold targets.
  enough (forall l k, (forall i c, l !! i = Some c -> a !! (k + i)%nat = Some c) ->
    mapM (fun i => c ← tget ts (Z.of_nat i); Ret (Z.to_nat c)) (seq k (length l)) = Ret l) as H by (by apply (H a 0%nat)).
  induction l as [|x l IH]; intros k Hl; [done|]. cbn [length seq mapM].
  rewrite (tget_at ts a k x) by (try done; specialize (Hl 0%nat x eq_refl); by rewrite Nat.add_0_r in Hl). cbn [mbind result_bind].
  rewrite Nat2Z.id, IH; [done|]. intros i c Hi. specialize (Hl (S i) c Hi). by rewrite Nat.add_succ_comm.
Qed.

(** ** Stepping over the columns with an error *)

Context (err : nat -> bool) (rm : raidz_map).
Context (Hcols : rm_cols rm = cols).
Context (Herr : forall c, (c < cols)%nat -> exists rc, rm_col rm !! c = Some rc /\ negb (rc_error rc =? 0) = err c).

Lemma next_valid_ok c : (c <= cols)%nat -> next_valid (S (rm_cols rm)) rm c = Ret (nxt cols err c).
Proof using All.
  intros Hc. rewrite Hcols. assert (cols - c < S cols)%nat as Hk by lia. revert c Hc Hk. generalize (S cols) as k.
  induction k as [|k IH]; intros c Hc Hk; [lia|]. cbn [next_valid]. rewrite Hcols. destruct (Nat.ltb_spec c cols) as [Hlt|Hge].
  - destruct (Herr c Hlt) as (rc & Hrc & He). rewrite (get_col_ok _ _ _ Hrc), nxt_step, <- He by done. cbn [mbind result_bind].
    destruct (rc_error rc =? 0); [done|]. apply IH; lia.
  - replace c with cols by lia. by rewrite nxt_end.
Qed.

Lemma skip_bad_ok b c w : good cols err w -> (c <= w)%nat -> skip_bad b (S (rm_cols rm)) rm c = Ret (nxt cols err c).
Proof using All.
  intros [Hw Hwe] Hc. rewrite Hcols. assert (cols - c < S cols)%nat as Hk by lia. revert c Hc Hk. generalize (S cols) as k.
  induction k as [|k IH]; intros c Hc Hk; [lia|]. cbn [skip_bad]. rewrite Hcols.
  destruct (Herr c ltac:(lia)) as (rc & Hrc & He). rewrite (get_col_ok _ _ _ Hrc), nxt_step, <- He by lia. cbn [mbind result_bind].
  destruct (rc_error rc =? 0) eqn:E; cbn [negb]; [done|].
  assert (c <> w) by (intros ->; rewrite Hwe in He; done).
  rewrite (proj2 (Nat.ltb_lt _ _)), orb_true_r by lia. cbn [verify mbind result_bind]. apply IH; lia.
Qed.

(** ** The next combination *)

(** What [advance] returns from the set [a]. *)
Definition advanced (a : list nat) (ts : list Z) (r : result (list Z * nat * nat)) : Prop :=
  (exists p x s ts', a = p ++ x :: s /\ packed cols err p x /\ (nxt cols err (S x) < hd cols s)%nat /\
     tgts_are ts' (lows cols err (length p) ++ x :: s) /\ length ts' = length ts /\
     r = Ret (ts', length p, nxt cols err (S x))) \/
  (packed cols err a cols /\ exists ts' next, front ts' [] /\ length ts' = length ts /\ r = Ret (ts', length a, next)).

Lemma advance_ok fuel p x s ts :
  vec cols err (p ++ x :: s) -> packed cols err p x -> tgts_are ts (lows cols err (length p) ++ x :: s) -> (length s < fuel)%nat ->
  (length (p ++ x :: s) + 1 < length ts)%nat ->
  advanced (p ++ x :: s) ts (advance fuel rm (length (p ++ x :: s)) ts (length p)).
Proof using All.
  revert p x s ts. induction fuel as [|fuel IH]; intros p x s ts Ha Hp [Hts Htop] Hfuel Hlen; [lia|].
  destruct (x_good cols err p s x Ha) as [[Hx _] Hxn]. cbn [advance]. pose proof (lows_length cols err (length p)) as Hll.
  rewrite (tget_at ts _ (length p) x Hts) by (apply list_lookup_middle; lia). cbn [mbind result_bind].
  replace (Z.to_nat (Z.of_nat x + 1)) with (S x) by lia. rewrite next_valid_ok by lia. cbn [mbind result_bind].
  assert (tget ts (Z.of_nat (length p) + 1) = Ret (Z.of_nat (hd cols s))) as ->.
  { replace (Z.of_nat (length p) + 1) with (Z.of_nat (S (length p))) by lia. destruct s as [|y s].
    - unfold tget. apply rd_ok. rewrite length_app, Hll in Htop. cbn in Htop. replace (Z.to_nat _) with (S (length p + 1)) by lia. done.
    - apply (tget_at ts _ _ y Hts). rewrite lookup_app_r by lia. rewrite Hll. by replace (S (length p) - length p)%nat with 1%nat by lia. }
  cbn [mbind result_bind].
  assert (nxt cols err (S x) <= hd cols s)%nat as Hle.
  { destruct s as [|y s]; cbn; [apply (nxt_ge cols err (S x)); lia|]. destruct Ha as [Hs Hg]. apply Forall_app in Hg as [_ Hg].
    apply StronglySorted_app_1_r, StronglySorted_cons in Hs as [Hs _]. apply Forall_cons in Hs as [Hs _].
    apply Forall_cons in Hg as [_ Hg]. apply Forall_cons in Hg as [Hg _]. apply nxt_le; [done|lia]. }
  rewrite (proj2 (Z.leb_le _ _)) by lia. cbn [verify mbind result_bind].
  destruct (Z.eqb_spec (Z.of_nat (nxt cols err (S x))) (Z.of_nat (hd cols s))) as [Heq|Hne]; cbn [negb].
  2:{ left. exists p, x, s, ts. split_and!; try done. lia. }
  apply Nat2Z.inj in Heq.
  destruct (low_le cols err _ (length p) x Ha) as [Hlow Hlg]; [by apply list_lookup_middle|].
  assert (exists t0, tget ts (Z.of_nat (length p) - 1) = Ret t0 /\ (Z.to_nat (t0 + 1) <= x)%nat /\
    nxt cols err (Z.to_nat (t0 + 1)) = low cols err (length p)) as (t0 & -> & Ht0 & Hnx).
  { destruct p as [|y p']; [exists (-1); split; [exact (tget_low ts _ Hts)|split; [lia|done]]|].
    cbn [length] in *. exists (Z.of_nat (low cols err (length p'))). replace (Z.of_nat (S (length p')) - 1) with (Z.of_nat (length p')) by lia.
    split.
    - apply (tget_at ts _ _ _ Hts). rewrite lows_S, <- app_assoc. apply list_lookup_middle. by rewrite lows_length.
    - replace (Z.to_nat _) with (S (low cols err (length p'))) by lia. split; [|done].
      destruct (lookup_lt_is_Some_2 (y :: p') (length p') ltac:(cbn; lia)) as [z Hz].
      destruct (low_le cols err _ (length p') z Ha) as [Hl' _]; [rewrite lookup_app_l by (cbn; lia); done|].
      destruct Ha as [Hs _]. pose proof (StronglySorted_app_1_elem_of lt _ _ z x Hs (list_elem_of_lookup_2 _ _ _ Hz) (list_elem_of_here _ _)). lia. }
  cbn [mbind result_bind]. rewrite (skip_bad_ok false _ x), Hnx; [|apply (x_good cols err p s x Ha)|done]. cbn [mbind result_bind].
  destruct (tset_app ts (lows cols err (length p)) (x :: s) (low cols err (length p)) Hts) as (ts' & Hset & Hts' & Hl' & Hkeep).
  { rewrite Hll. rewrite length_app in Hlen. cbn in Hlen. lia. }
  rewrite Hll in Hset, Hkeep. rewrite Hset. cbn [mbind result_bind tail] in *.
  assert (packed cols err (p ++ [x]) (hd cols s)) as Hpk by (rewrite packed_app; cbn; split; [done|split; done]).
  destruct s as [|y s].
  - rewrite (proj2 (Nat.eqb_eq _ _)) by (rewrite length_app; cbn; lia). right. cbn [hd] in Hpk. split; [done|].
    exists ts', (nxt cols err (S x)). split; [|done]. split; [apply (fr_low _ _ Hts')|]. by intros i c Hi.
  - rewrite (proj2 (Nat.eqb_neq _ _)) by (rewrite length_app; cbn; lia).
    assert (p ++ x :: y :: s = (p ++ [x]) ++ y :: s) as Heqa by (by rewrite <- app_assoc). rewrite Heqa in *.
    specialize (IH (p ++ [x]) y s ts'). rewrite length_app, Nat.add_1_r in IH. cbn [length] in Hfuel.
    assert (tgts_are ts' (lows cols err (S (length p)) ++ y :: s)) as Hta.
    { rewrite lows_S, <- app_assoc. split; [done|]. rewrite Hkeep; [|rewrite !length_app, Hll; cbn; lia].
      rewrite !length_app, Hll in *. cbn in *. by replace (length p + S (S (length s)))%nat with (length p + 1 + S (length s))%nat in * by lia. }
    specialize (IH Ha Hpk Hta ltac:(lia) ltac:(by rewrite Hl')). unfold advanced in *. rewrite Hl' in IH. exact IH.
Qed.
End targets.

(** ** Maps that differ in some columns *)

Lemma touched_sized rm cs rm' : raidz_sized rm -> touched rm cs rm' -> raidz_sized rm'.
Proof.
  intros Hsz Ht. destruct (touched_counts _ _ _ Ht) as (Ec & Ef & _). split; rewrite Ef, ?Ec.
  - intros c rc' Hc Hrc'. destruct (touched_inv _ _ _ _ _ Ht Hrc') as (rc & b & Hrc & -> & Hl & _).
    cbn [rc_abd rc_size col_abd]. rewrite Hl. by apply (sz_exact _ Hsz c).
  - intros c c' rc1 rc2 Hc Hcc H1 H2. destruct (touched_inv _ _ _ _ _ Ht H1) as (r1 & b1 & Hr1 & -> & _).
    destruct (touched_inv _ _ _ _ _ Ht H2) as (r2 & b2 & Hr2 & -> & _). exact (sz_desc _ Hsz c c' r1 r2 Hc Hcc Hr1 Hr2).
  - intros c rc' Hc Hrc'. destruct (touched_inv _ _ _ _ _ Ht Hrc') as (rc & b & Hrc & -> & _). exact (sz_pos _ Hsz c rc Hc Hrc).
Qed.

Lemma own_stripe m rm :
  raidz_wf m rm -> (1 <= rm_firstdatacol rm <= 3)%nat -> (rm_cols rm <= 255)%nat -> raidz_sized rm ->
  stripe m (datas rm) (fun c => c < rm_firstdatacol rm)%nat rm.
Proof.
  intros Hwf Hf H255 Hsz. destruct (datas_wf m rm Hwf) as (_ & Hdb & Hdl). pose proof (wf_cols m rm Hwf) as Hwc.
  assert (forall j d, datas rm !! j = Some d -> exists rc, rm_col rm !! (j + rm_firstdatacol rm)%nat = Some rc /\
    (j + rm_firstdatacol rm < rm_cols rm)%nat /\ rc_abd rc = d /\ rc_size rc = Z.of_nat (length d)) as Hdat.
  { intros j d Hj. pose proof (lookup_lt_Some _ _ _ Hj) as Hlt. rewrite Hdl in Hlt.
    destruct (wf_col m rm (j + rm_firstdatacol rm) Hwf ltac:(lia)) as [rc Hrc]. exists rc.
    pose proof (datas_lookup rm (j + rm_firstdatacol rm) rc ltac:(lia) Hrc) as Hlk. rewrite Nat.add_sub, Hj in Hlk.
    injection Hlk as ->. pose proof (sz_exact _ Hsz (j + rm_firstdatacol rm) rc ltac:(lia) Hrc) as He. unfold data_of.
    split_and!; [done|lia|rewrite take_ge; [done|lia]|rewrite length_take; lia]. }
  split; try done.
  - intros i j d d' Hij Hi Hj. destruct (Hdat i d Hi) as (rc & Hrc & Hl & _ & Hs), (Hdat j d' Hj) as (rc' & Hrc' & Hl' & _ & Hs').
    assert (rc_size rc' <= rc_size rc); [|lia]. by apply (sz_desc _ Hsz (i + rm_firstdatacol rm) (j + rm_firstdatacol rm)); [lia|..].
  - intros j d rc Hj Hrc. destruct (Hdat j d Hj) as (rc' & Hrc' & _ & Ha & Hs). replace rc' with rc in * by congruence. subst d. done.
  - intros j d Hj. destruct (Hdat j d Hj) as (rc & Hrc & Hl & _ & Hs). pose proof (sz_pos _ Hsz (j + rm_firstdatacol rm) rc ltac:(lia) Hrc). lia.
  - intros j d rc _ Hj Hrc. destruct (Hdat j d Hj) as (rc' & Hrc' & _ & Ha & Hs). replace rc' with rc in * by congruence. done.
Qed.

(** Putting a column back. *)
Lemma touched_restore rm c l cur rc :
  touched rm (c :: l) cur -> rm_col rm !! c = Some rc -> touched rm l (set_abd cur c (rc_abd rc)).
Proof.
  intros Ht Hc. pose proof (touched_any _ _ _ c Ht) as (b & Eb & _). rewrite Hc in Eb. cbn in Eb.
  assert (rm_col (set_abd cur c (rc_abd rc)) !! c = Some rc) as Hcc.
  { rewrite lookup_set_abd, decide_True, Eb by done. cbn. by destruct rc. }
  split.
  - rewrite <- (to_frame _ _ _ Ht). done.
  - intros c' Hc'. destruct (decide (c' = c)) as [-> | Hne]; [by rewrite Hcc|].
    rewrite lookup_set_abd, decide_False by done. apply (to_out _ _ _ Ht). rewrite not_elem_of_cons. done.
  - intros c' _. destruct (decide (c' = c)) as [-> | Hne].
    + exists (rc_abd rc). rewrite Hcc, Hc. cbn. rewrite col_abd_id. split; [done|]. by intros ? [= <-].
    + rewrite lookup_set_abd, decide_False by done. by apply (touched_any _ (c :: l)).
Qed.

Lemma io_abd_ok m rm : raidz_wf m rm -> io_abd rm = Ret (mjoin (datas rm)).
Proof.
  intros Hwf. pose proof (wf_cols m rm Hwf) as Hwc. unfold io_abd.
  enough (mapM (fun c => rc ← get_col rm c; col_data rc) (seq (rm_firstdatacol rm) (rm_cols rm - rm_firstdatacol rm)) = Ret (datas rm)) as -> by done.
  assert (datas rm = (fun c => match rm_col rm !! c with Some rc => data_of rc | None => [] end) <$>
    seq (rm_firstdatacol rm) (rm_cols rm - rm_firstdatacol rm)) as ->.
  { destruct (datas_wf m rm Hwf) as (_ & _ & Hdl). apply list_eq. intros j. rewrite list_lookup_fmap.
    destruct (decide (j < rm_cols rm - rm_firstdatacol rm)%nat) as [Hj|Hj].
    - rewrite lookup_seq_lt by done. cbn. destruct (wf_col m rm (rm_firstdatacol rm + j) Hwf ltac:(lia)) as [rc Hrc]. rewrite Hrc.
      rewrite <- (datas_lookup rm (rm_firstdatacol rm + j) rc) by (done || lia). f_equal. lia.
    - rewrite lookup_ge_None_2, lookup_seq_ge by lia. done. }
  assert (forall l, Forall (fun c => rm_firstdatacol rm <= c < rm_cols rm)%nat l ->
    mapM (fun c => rc ← get_col rm c; col_data rc) l =
      Ret ((fun c => match rm_col rm !! c with Some rc => data_of rc | None => [] end) <$> l)) as H.
  { induction 1 as [|c l Hc _ IH]; [done|]. cbn [mapM]. destruct (wf_col m rm c Hwf ltac:(lia)) as [rc Hrc].
    rewrite (get_col_ok _ _ _ Hrc). cbn [mbind result_bind]. destruct (wf_data m rm Hwf c rc Hc Hrc) as (_ & k & _ & Hs & Hl).
    assert (col_data rc = Ret (data_of rc)) as -> by (unfold col_data; rewrite view_ok by lia; done).
    cbn [mbind result_bind]. rewrite IH, fmap_cons, Hrc. done. }
  apply H, Forall_forall. intros c Hc%elem_of_seq. lia.
Qed.

(** ** What stays of the I/O *)

Definition is_report (e : effect) : Prop := match e with ChecksumError _ _ _ _ _ _ => True | _ => False end.

(** [z'] is [z] with another map, another count of corrections and more
    reports. *)
Record same_io (z z' : zio) : Prop := {
  si_type : io_type z' = io_type z;
  si_flags : io_flags z' = io_flags z;
  si_priority : io_priority z' = io_priority z;
  si_txg : io_txg z' = io_txg z;
  si_checksum : io_checksum z' = io_checksum z;
  si_error : io_error z' = io_error z;
  si_corrected : length (raidz_corrected z') = length (raidz_corrected z);
  si_log : exists l, io_log z' = io_log z ++ l /\ Forall is_report l;
}.

Lemma same_refl z : same_io z z.
Proof. split; try done. exists []. by rewrite app_nil_r. Qed.

Lemma same_trans z1 z2 z3 : same_io z1 z2 -> same_io z2 z3 -> same_io z1 z3.
Proof.
  intros [? ? ? ? ? ? ? (l1 & E1 & F1)] [? ? ? ? ? ? ? (l2 & E2 & F2)]. split; try congruence.
  exists (l1 ++ l2). rewrite E2, E1, app_assoc. split; [done|by apply Forall_app].
Qed.

Lemma same_vsd rm z : same_io z (set_vsd rm z).
Proof. split; try done. exists []. by rewrite app_nil_r. Qed.

(** The targets with their new error. *)
Record marked (rm : raidz_map) (w : list nat) (rm' : raidz_map) : Prop := {
  ma_frame : set_cols rm (rm_col rm') = rm';
  ma_col c : rm_col rm' !! c = (fun rc => if decide (c ∈ w) then col_error ECKSUM rc else rc) <$> rm_col rm !! c;
}.

Lemma alter_col_lookup f c rm i : rm_col (alter_col f c rm) !! i = if decide (i = c) then f <$> rm_col rm !! i else rm_col rm !! i.
Proof. cbn. case_decide; [subst; by rewrite list_lookup_alter_eq|by rewrite list_lookup_alter_ne]. Qed.

Lemma mark_ok m rm n cols ts a orig z :
  raidz_wf m rm -> io_vsd z = rm -> rm_cols rm = cols -> tgts_are cols ts a -> n = length a -> NoDup a -> length orig = n ->
  (forall c rc, c ∈ a -> rm_col rm !! c = Some rc -> rc_error rc = 0) -> Forall (fun c => c < cols)%nat a ->
  exists z', mark_targets n ts orig z = Ret z' /\ same_io z z' /\ marked rm a (io_vsd z').
Proof.
  intros Hwf Hz Hcols [Hts _] -> Hnd Hlo Hgood Ha. unfold mark_targets. pose proof (wf_cols m rm Hwf) as Hwc.
  match goal with |- context [for_loop ?k 0 ?body z] =>
    destruct (for_loop_inv (fun i z' => same_io z z' /\ marked rm (take i a) (io_vsd z')) k 0 body z) as (z' & -> & Hs & Hm) end.
  - intros i z1 Hi [Hs Hm]. destruct (lookup_lt_is_Some_2 a i ltac:(lia)) as [c Hc].
    rewrite (tget_at ts a i c Hts Hc). cbn [mbind result_bind]. rewrite Nat2Z.id.
    pose proof (Forall_lookup_1 _ _ _ _ Ha Hc) as Hcc. cbn beta in Hcc. destruct (wf_col m rm c Hwf ltac:(lia)) as [rc Hrc].
    assert (c ∉ take i a) as Hnew.
    { intros (j & (Hj & Hji)%lookup_take_Some)%list_elem_of_lookup. pose proof (NoDup_lookup _ _ _ _ Hnd Hc Hj). lia. }
    assert (rm_col (io_vsd z1) !! c = Some rc) as Hrc1 by (rewrite (ma_col _ _ _ Hm), Hrc; cbn; by rewrite decide_False).
    rewrite (get_col_ok _ _ _ Hrc1). cbn [mbind result_bind].
    rewrite (Hgood c rc (list_elem_of_lookup_2 _ _ _ Hc) Hrc). cbn [Z.eqb verify mbind result_bind].
    destruct (lookup_lt_is_Some_2 orig i ltac:(lia)) as [o Ho]. rewrite (idx_ok _ _ _ Ho). cbn [mbind result_bind].
    assert (exists buf, col_data rc = Ret buf) as [buf Hbuf].
    { unfold col_data. exists (take (Z.to_nat (rc_size rc)) (rc_abd rc)). rewrite view_ok; [by rewrite drop_0|].
      destruct (decide (c < rm_firstdatacol rm)%nat).
      - destruct (wf_parity m rm Hwf c rc ltac:(done) Hrc) as (_ & Hs8 & Hl8). lia.
      - destruct (wf_data m rm Hwf c rc ltac:(lia) Hrc) as (_ & k & _ & Hs8 & Hl8). lia. }
    assert (exists z2, (if rc_tried rc then raidz_checksum_error rc o z1 else Ret z1) = Ret z2 /\ same_io z1 z2 /\ io_vsd z2 = io_vsd z1)
      as (z2 & -> & Hs2 & Hv2).
    { destruct (rc_tried rc); [|by exists z1; split; [|split; [apply same_refl|]]]. unfold raidz_checksum_error.
      destruct (flag z1 ZIO_FLAG_SPECULATIVE); [by exists z1; split; [|split; [apply same_refl|]]|]. rewrite Hbuf. cbn [mbind result_bind].
      eexists. split; [done|]. split; [|done]. split; try done. eexists. split; [done|]. by apply Forall_singleton. }
    cbn [mbind result_bind]. eexists. split; [done|]. split.
    + eapply same_trans; [exact Hs|]. eapply same_trans; [exact Hs2|]. apply same_vsd.
    + cbn [io_vsd set_vsd]. rewrite Hv2, (take_S_r _ _ _ Hc). split.
      * rewrite <- (ma_frame _ _ _ Hm). done.
      * intros c'. rewrite alter_col_lookup, (ma_col _ _ _ Hm). destruct (rm_col rm !! c') as [rc'|]; [|by case_decide].
        cbn. destruct (decide (c' = c)) as [-> | Hne].
        -- rewrite (decide_False (P := c ∈ take i a)) by done. rewrite decide_True; [done|]. apply elem_of_app. right. apply list_elem_of_here.
        -- f_equal. destruct (decide (c' ∈ take i a)) as [Hin|Hout].
           ++ rewrite decide_True; [done|]. apply elem_of_app. by left.
           ++ rewrite decide_False; [done|]. intros [?|?%list_elem_of_singleton]%elem_of_app; done.
  - rewrite Hz. split; [apply same_refl|]. split; [by destruct rm|]. intros c. cbn. destruct (rm_col rm !! c); done.
  - exists z'. rewrite take_ge in Hm by lia. done.
Qed.

(** ** The search *)

Lemma length_filter_or (P Q R : nat -> Prop) `{!forall c, Decision (P c)} `{!forall c, Decision (Q c)} `{!forall c, Decision (R c)} l :
  (forall c, c ∈ l -> R c -> P c \/ Q c) -> (length (filter R l) <= length (filter P l) + length (filter Q l))%nat.
Proof.
  induction l as [|c l IH]; intros HR; [done|]. rewrite !filter_cons. specialize (IH ltac:(set_solver)). specialize (HR c ltac:(by left)).
  repeat case_decide; cbn [length]; tauto || lia.
Qed.

Section search.
Context (kmem_alloc abd_alloc zio_buf_alloc : Z -> list Z) (dg linear : bool) (zio_checksum_error : list Z -> Z * bool).
Context (Hkm : forall z, length (kmem_alloc z) = Z.to_nat z).
Context (Habd : forall z, bytes (abd_alloc z) /\ length (abd_alloc z) = Z.to_nat z).
Context (Hbuf : forall z, length (zio_buf_alloc z) = Z.to_nat z).
Context (m : nat) (rm0 : raidz_map).
Context (Hwf : raidz_wf m rm0) (Hf : (1 <= rm_firstdatacol rm0 <= 3)%nat) (H255 : (rm_cols rm0 <= 255)%nat) (Hsz : raidz_sized rm0).

Notation cols := (rm_cols rm0).
Notation fdc := (rm_firstdatacol rm0).
Notation reconstruct := (vdev_raidz_reconstruct kmem_alloc abd_alloc dg linear).

Definition errs (c : nat) : bool := match rm_col rm0 !! c with Some rc => negb (rc_error rc =? 0) | None => true end.

Notation nxt := (nxt cols errs).
Notation vec := (vec cols errs).
Notation val := (digits (S cols)).

(** The columns with an error, those of them with data. *)
Definition all_errs : list nat := filter (fun c => errs c = true) (seq 0 cols).
Definition data_errs : list nat := filter (fun c => errs c = true) (seq fdc (cols - fdc)).

(** A set the search tries: it leaves a data column to reconstruct. *)
Definition reaches (a : list nat) : Prop := data_errs <> [] \/ Exists (fun c => fdc <= c)%nat a.

Lemma errs_in rm cs c : touched rm0 cs rm -> (c < cols)%nat -> exists rc, rm_col rm !! c = Some rc /\ negb (rc_error rc =? 0) = errs c.
Proof using All.
  intros Ht Hc. pose proof (wf_cols m rm0 Hwf). destruct (wf_col m rm0 c Hwf ltac:(lia)) as [rc Hrc].
  destruct (touched_any _ _ _ c Ht) as (b & E & _). rewrite Hrc in E. cbn in E. exists (col_abd b rc). split; [done|]. unfold errs. by rewrite Hrc.
Qed.

Lemma bad_col_iff rm cs a c : touched rm0 cs rm -> (c < cols)%nat -> bad_col rm a c <-> c ∈ a \/ errs c = true.
Proof using All.
  intros Ht Hc. destruct (errs_in rm cs c Ht Hc) as (rc & Hrc & <-). unfold bad_col. rewrite negb_true_iff, Z.eqb_neq.
  split; (intros [|H]; [by left|right]); [destruct H as (rc' & Hrc' & ?); congruence|by exists rc].
Qed.

(** The columns a set and the known errors make bad: no more than the parity
    columns, and one of them with data. *)
Lemma set_fits rm a :
  touched rm0 data_errs rm -> vec a -> (length a + length all_errs <= fdc)%nat -> reaches a ->
  Forall (fun c => c < rm_cols rm)%nat a /\ (length (bads rm a (seq 0 (rm_cols rm))) <= rm_firstdatacol rm)%nat /\
  bads rm a (seq (rm_firstdatacol rm) (rm_cols rm - rm_firstdatacol rm)) <> [].
Proof using All.
  intros Ht [Hs Hg] Hlen Hreach. destruct (touched_counts _ _ _ Ht) as (Ec & Ef & El). pose proof (wf_cols m rm0 Hwf) as Hwc.
  assert (Forall (fun c => c < cols)%nat a) as Hlt by (eapply Forall_impl; [exact Hg|]; by intros c [? _]).
  rewrite ?Ec, ?Ef. split; [done|]. split.
  - etrans; [apply (length_filter_or (fun c => c ∈ a) (fun c => errs c = true))|].
    + intros c Hc%elem_of_seq Hb. rewrite <- (bad_col_iff rm data_errs) by (done || lia). done.
    + fold all_errs. enough (filter (fun c => c ∈ a) (seq 0 cols) = a) as -> by lia.
      symmetry. rewrite <- Ec. apply (t_filter rm a); rewrite ?Ec, ?Ef; try lia; done.
  - intros Hnil. assert (exists c, (fdc <= c < cols)%nat /\ bad_col rm a c) as (c & Hc & Hb).
    { destruct Hreach as [Hne|(c & Hca & Hfc)%Exists_exists].
      - destruct data_errs as [|c l] eqn:E; [done|]. assert (c ∈ data_errs) as Hin by (rewrite E; apply list_elem_of_here).
        apply list_elem_of_filter in Hin as [He Hc%elem_of_seq]. exists c. split; [lia|]. apply (bad_col_iff rm _ a c Ht ltac:(lia)). by right.
      - exists c. pose proof (proj1 (Forall_forall _ _) Hlt c Hca) as H. cbn beta in H. split; [lia|by left]. }
    assert (c ∈ bads rm a (seq fdc (cols - fdc))) as Hin; [|rewrite Hnil in Hin; by apply elem_of_nil in Hin].
    apply list_elem_of_filter. rewrite elem_of_seq. split; [done|lia].
Qed.

(** Any set with as many columns as the parity left allows can be
    reconstructed. *)
Lemma attempt rm a :
  touched rm0 data_errs rm -> vec a -> (length a + length all_errs <= fdc)%nat -> reaches a ->
  exists rm' code, reconstruct rm a = Ret (rm', code) /\ touched rm (a ++ data_errs) rm' /\ 0 < code < 8 /\
    (forall c, (c < fdc)%nat -> rm_col rm' !! c = rm_col rm !! c) /\
    (forall c, Z.testbit code (Z.of_nat c) = true -> (c < fdc)%nat /\ c ∉ a /\ errs c = false).
Proof using All.
  intros Ht Hv Hlen Hreach. destruct (touched_counts _ _ _ Ht) as (Ec & Ef & _). pose proof (wf_cols m rm0 Hwf) as Hwc.
  pose proof (own_stripe m rm (touched_wf m _ _ _ Hwf Ht) ltac:(lia) ltac:(lia) (touched_sized _ _ _ Hsz Ht)) as Hst.
  destruct (set_fits rm a Ht Hv Hlen Hreach) as (Hlt & Hn & Hne).
  destruct (reconstruct_ok kmem_alloc abd_alloc Hkm Habd m (datas rm) (fun c => c < rm_firstdatacol rm)%nat rm a Hst)
    with (default_to_general := dg) (linear := linear) as (rm' & code & Hr & Hto & _ & Hcode & Hbits); try done; [|apply Hv|].
  - intros c Hc Hb. lia.
  - exists rm', code. rewrite Ec, Ef in *. split_and!; try done; try lia.
    + eapply touched_mono; [|exact Hto]. intros c (Hb & Hc%elem_of_seq)%list_elem_of_filter. apply elem_of_app.
      apply (bad_col_iff rm data_errs) in Hb as [Hb|Hb]; [by left| |done|lia]. right. apply list_elem_of_filter. rewrite elem_of_seq. split; [done|lia].
    + intros c Hc. apply (to_out _ _ _ Hto). intros (_ & Hin%elem_of_seq)%list_elem_of_filter. lia.
    + intros c Hb. destruct (Hbits c Hb) as [Hcf Hnb]. rewrite (bad_col_iff rm data_errs) in Hnb by (done || lia).
      split_and!; [done|tauto|]. destruct (errs c); [tauto|done].
Qed.

(** The buffers the targets are saved in. *)
Definition buffers (n : nat) (orig : list (list Z)) : Prop := length orig = n /\ Forall (fun o => length o = 8 * m)%nat orig.

Lemma col_exact rm cs c rc : touched rm0 cs rm -> (c < cols)%nat -> rm_col rm !! c = Some rc ->
  Z.to_nat (rc_size rc) = length (rc_abd rc) /\ (length (rc_abd rc) <= 8 * m)%nat.
Proof using All.
  intros Ht Hc Hrc. destruct (touched_counts _ _ _ Ht) as (Ec & Ef & _). pose proof (touched_wf m _ _ _ Hwf Ht) as Hwf'.
  destruct (decide (c < fdc)%nat).
  - destruct (wf_parity m rm Hwf' c rc ltac:(lia) Hrc) as (_ & Hs8 & Hl8). lia.
  - pose proof (sz_exact _ (touched_sized _ _ _ Hsz Ht) c rc ltac:(lia) Hrc).
    destruct (wf_data m rm Hwf' c rc ltac:(lia) Hrc) as (_ & k & Hk & Hs8 & Hl8). lia.
Qed.

Lemma save_ok rm ts a orig :
  touched rm0 data_errs rm -> vec a -> tgts_are cols ts a -> buffers (length a) orig ->
  exists orig', save_targets rm (length a) ts orig = Ret orig' /\ buffers (length a) orig' /\
    forall i c rc, a !! i = Some c -> rm_col rm !! c = Some rc -> exists o, orig' !! i = Some o /\ take (length (rc_abd rc)) o = rc_abd rc.
Proof using All.
  intros Ht [_ Hg] [Hts _] [Hlo Hbo]. destruct (touched_counts _ _ _ Ht) as (Ec & Ef & El). unfold save_targets.
  match goal with |- context [for_loop ?k 0 ?body orig] =>
    destruct (for_loop_inv (fun j orig' => buffers (length a) orig' /\
      forall i c rc, (i < j)%nat -> a !! i = Some c -> rm_col rm !! c = Some rc ->
        exists o, orig' !! i = Some o /\ take (length (rc_abd rc)) o = rc_abd rc) k 0 body orig) as (o' & -> & Hb & Hsv) end.
  - intros j o1 Hj [[Hl1 Hb1] Hsv]. destruct (lookup_lt_is_Some_2 a j ltac:(lia)) as [c Hc].
    destruct (lookup_lt_is_Some_2 o1 j ltac:(lia)) as [o Ho]. rewrite (idx_ok _ _ _ Ho), (tget_at ts a j c Hts Hc). cbn [mbind result_bind].
    pose proof (Forall_lookup_1 _ _ _ _ Hg Hc) as [Hcc _]. rewrite Ec, (proj2 (Z.leb_le _ _)), (proj2 (Z.ltb_lt _ _)) by lia.
    cbn [verify mbind result_bind]. rewrite Nat2Z.id. pose proof (touched_wf m _ _ _ Hwf Ht) as Hwf'. pose proof (wf_cols m rm Hwf').
    destruct (wf_col m rm c Hwf' ltac:(lia)) as [rc Hrc]. rewrite (get_col_ok _ _ _ Hrc). cbn [mbind result_bind].
    destruct (col_exact rm data_errs c rc Ht Hcc Hrc) as [Hex H8]. pose proof (Forall_lookup_1 _ _ _ _ Hb1 Ho) as Hlo'. cbn beta in Hlo'.
    rewrite Hex, abd_copy_ok by lia. cbn [mbind result_bind]. eexists. split; [done|]. rewrite take_ge by lia. split; [split|].
    + by rewrite length_insert.
    + apply Forall_insert; [done|]. rewrite length_app, length_drop. lia.
    + intros i c' rc' Hi Hc' Hrc'. destruct (decide (i = j)) as [-> | Hne].
      * replace c' with c in * by congruence. replace rc' with rc in * by congruence. eexists. split; [apply list_lookup_insert_eq; lia|].
        by rewrite take_app_length.
      * rewrite list_lookup_insert_ne by done. apply (Hsv i c' rc'); [lia|done..].
  - split; [by split|]. lia.
  - exists o'. split; [done|]. split; [done|]. intros i c rc Hi. apply (Hsv i c rc); [|done]. by eapply lookup_lt_Some.
Qed.

Lemma restore_ok rm rm1 ts a orig :
  touched rm0 data_errs rm -> vec a -> tgts_are cols ts a -> touched rm (a ++ data_errs) rm1 ->
  buffers (length a) orig ->
  (forall i c rc, a !! i = Some c -> rm_col rm !! c = Some rc -> exists o, orig !! i = Some o /\ take (length (rc_abd rc)) o = rc_abd rc) ->
  exists rm2, restore_targets (length a) ts orig rm1 = Ret rm2 /\ touched rm0 data_errs rm2.
Proof using All.
  intros Ht [_ Hg] [Hts _] Ht1 [Hlo Hbo] Hsv. unfold restore_targets.
  match goal with |- context [for_loop ?k 0 ?body rm1] =>
    destruct (for_loop_inv (fun j cur => touched rm (drop j a ++ data_errs) cur) k 0 body rm1) as (rm2 & -> & Hr) end.
  - intros j cur Hj Hcur. destruct (lookup_lt_is_Some_2 a j ltac:(lia)) as [c Hc]. rewrite (tget_at ts a j c Hts Hc). cbn [mbind result_bind].
    rewrite Nat2Z.id. pose proof (Forall_lookup_1 _ _ _ _ Hg Hc) as [Hcc _]. pose proof (touched_wf m _ _ _ Hwf Ht) as Hwf'.
    destruct (touched_counts _ _ _ Ht) as (Ec & _ & _). pose proof (wf_cols m rm Hwf'). destruct (wf_col m rm c Hwf' ltac:(lia)) as [rc Hrc].
    destruct (touched_any _ _ _ c Hcur) as (b & Eb & Hbl). rewrite Hrc in Eb. cbn in Eb. destruct (Hbl rc Hrc) as [Hb _].
    rewrite (get_col_ok _ _ _ Eb). cbn [mbind result_bind rc_abd rc_size col_abd]. destruct (Hsv j c rc Hc Hrc) as (o & Ho & Hto).
    rewrite (idx_ok _ _ _ Ho). cbn [mbind result_bind]. destruct (col_exact rm data_errs c rc Ht Hcc Hrc) as [Hex H8].
    pose proof (Forall_lookup_1 _ _ _ _ Hbo Ho) as Hlo'. cbn beta in Hlo'. rewrite Hex, abd_copy_ok by lia. cbn [mbind result_bind].
    rewrite Hto, drop_ge, app_nil_r by lia. eexists. split; [done|]. apply touched_restore; [|done]. by rewrite (drop_S _ _ _ Hc) in Hcur.
  - done.
  - exists rm2. split; [done|]. rewrite drop_ge in Hr by lia. eapply touched_trans; [exact Ht|done].
Qed.

(** ** One number of columns *)

Definition checks (rm : raidz_map) : Z := fst (zio_checksum_error (mjoin (datas rm))).

(** The set [w] was tried, and what it gave did not have a valid checksum. *)
Definition failed (w : list nat) : Prop :=
  exists rm1 rm2 code, touched rm0 data_errs rm1 /\ reconstruct rm1 w = Ret (rm2, code) /\ checks rm2 <> 0.

(** The set [w] was tried with success; [rm'] is what is left. *)
Record found (w : list nat) (code : Z) (rm' : raidz_map) : Prop := {
  fo_vec : vec w;
  fo_few : (1 <= length w)%nat /\ (length w + length all_errs <= fdc)%nat;
  fo_reaches : reaches w;
  fo_map : exists rm1 rm2, touched rm0 data_errs rm1 /\ reconstruct rm1 w = Ret (rm2, code) /\ checks rm2 = 0 /\ marked rm2 w rm';
}.

Lemma checksum_verify_ok z : raidz_wf m (io_vsd z) ->
  exists z', raidz_checksum_verify zio_checksum_error z = Ret (z', checks (io_vsd z)) /\ same_io z z' /\ io_vsd z' = io_vsd z.
Proof using All.
  intros Hw. unfold raidz_checksum_verify, checks. rewrite (io_abd_ok m _ Hw). cbn [mbind result_bind].
  destruct (zio_checksum_error (mjoin (datas (io_vsd z)))) as [e inj]. cbn [fst]. eexists. split; [done|].
  destruct (_ && inj); (split; [|done]); [|apply same_refl]. split; try done. exists []. by rewrite app_nil_r.
Qed.

Lemma corrected_ok code z : 0 <= code < 8 -> length (raidz_corrected z) = 8%nat ->
  exists z', count_corrected code z = Ret z' /\ same_io z z' /\ io_vsd z' = io_vsd z.
Proof using All.
  intros Hc Hl. unfold count_corrected. destruct (lookup_lt_is_Some_2 (raidz_corrected z) (Z.to_nat code) ltac:(lia)) as [k Hk].
  rewrite (rd_ok _ _ _ Hk). cbn [mbind result_bind]. rewrite wr_ok by lia. cbn [mbind result_bind]. eexists. split; [done|]. split; [|done].
  split; try done; [by cbn; rewrite length_insert|]. exists []. by rewrite app_nil_r.
Qed.

Lemma marked_errs w a : vec a -> w = a -> forall rm cs c rc, touched rm0 cs rm -> c ∈ w -> rm_col rm !! c = Some rc -> rc_error rc = 0.
Proof using All.
  intros [_ Hg] -> rm cs c rc Ht Hc Hrc. pose proof (proj1 (Forall_forall _ _) Hg c Hc) as [Hcc He].
  destruct (errs_in rm cs c Ht Hcc) as (rc' & Hrc' & He'). replace rc' with rc in He' by congruence. rewrite He in He'.
  by apply negb_false_iff, Z.eqb_eq in He'.
Qed.

(** The set that [advance] leads to. *)
Lemma reaches_succ p x s : vec (p ++ x :: s) -> reaches (p ++ x :: s) -> reaches (succ cols errs p s x).
Proof using All.
  intros Ha [H|H]; [by left|]. right. destruct (x_good cols errs p s x Ha) as [_ Hxn]. destruct Ha as [Hs _].
  unfold succ. apply Exists_app. right. apply Exists_exists in H as (c & Hin & Hc).
  apply elem_of_app in Hin as [Hin|Hin].
  - pose proof (StronglySorted_app_1_elem_of lt _ _ c x Hs Hin (list_elem_of_here _ _)). apply Exists_cons. left. lia.
  - apply elem_of_cons in Hin as [-> | Hin]; apply Exists_cons; [left; lia|right]. apply Exists_exists. eauto.
Qed.

Lemma search_ok fuel a ts orig current next z :
  touched rm0 data_errs (io_vsd z) -> vec a -> (1 <= length a)%nat -> (length a + length all_errs <= fdc)%nat -> reaches a ->
  (exists ts1, tset ts (Z.of_nat current) (Z.of_nat next) = Ret ts1 /\ tgts_are cols ts1 a /\ length ts1 = 5%nat) ->
  (current < length a)%nat -> buffers (length a) orig -> length (raidz_corrected z) = 8%nat -> (S cols ^ length a <= fuel + val a)%nat ->
  exists z' ts' orig' o,
    search kmem_alloc abd_alloc dg linear zio_checksum_error fuel (length a) ts orig current next z = Ret (z', ts', orig', o) /\
    same_io z z' /\
    match o with
    | Some code => exists w, found w code (io_vsd z')
    | None => touched rm0 data_errs (io_vsd z') /\ front ts' [] /\ length ts' = 5%nat /\ buffers (length a) orig' /\
        forall w, vec w -> length w = length a -> reaches w -> (val a <= val w)%nat -> failed w
    end.
Proof using All.
  revert a ts orig current next z. induction fuel as [|fuel IH]; intros a ts orig current next z Ht Ha H1 Hfew Hre Hts Hcur Hbo Hcor Hfuel.
  { pose proof (digits_bound _ _ (vec_digits cols errs a Ha)). lia. }
  cbn [search]. rewrite (proj2 (Nat.eqb_neq _ _)) by lia. destruct Hts as (ts1 & -> & Hta & Hl5). cbn [mbind result_bind].
  destruct (save_ok (io_vsd z) ts1 a orig Ht Ha Hta Hbo) as (orig' & -> & Hbo' & Hsv). cbn [mbind result_bind].
  rewrite (targets_ok ts1 a) by apply Hta. cbn [mbind result_bind].
  destruct (attempt (io_vsd z) a Ht Ha Hfew Hre) as (rm1 & code & Hr & Hto & Hcode & _). rewrite Hr. cbn [mbind result_bind].
  assert (touched rm0 (a ++ data_errs) rm1) as Ht1.
  { eapply touched_trans; [|exact Hto]. eapply touched_mono; [|exact Ht]. intros c Hc. apply elem_of_app. by right. }
  assert (raidz_wf m rm1) as Hwf1 by (eapply touched_wf; [exact Hwf|exact Ht1]).
  destruct (checksum_verify_ok (set_vsd rm1 z) Hwf1) as (z1 & -> & Hs1 & Hv1). cbn [mbind result_bind].
  pose proof (same_trans _ _ _ (same_vsd rm1 z) Hs1) as Hs1'. cbn [io_vsd set_vsd] in Hv1.
  destruct (Z.eqb_spec (checks (io_vsd (set_vsd rm1 z))) 0) as [Hck|Hck].
  - destruct (corrected_ok code z1 ltac:(lia)) as (z2 & -> & Hs2 & Hv2); [by rewrite (si_corrected _ _ Hs1')|]. cbn [mbind result_bind].
    destruct (mark_ok m rm1 (length a) cols ts1 a orig' z2) as (z3 & -> & Hs3 & Hm); try done.
    + by rewrite Hv2.
    + by destruct (touched_counts _ _ _ Ht1).
    + apply sorted_nodup, Ha.
    + apply Hbo'.
    + intros c rc Hc Hrc. by apply (marked_errs a a Ha eq_refl rm1 (a ++ data_errs) c).
    + destruct Ha as [_ Hg]. eapply Forall_impl; [exact Hg|]. by intros c [? _].
    + cbn [mbind result_bind]. eexists _, _, _, _. split; [done|]. split; [by eapply same_trans; [exact Hs1'|eapply same_trans]|].
      exists a. split; [done..|]. exists (io_vsd z), rm1. done.
  - rewrite Hv1. destruct (restore_ok (io_vsd z) rm1 ts1 a orig' Ht Ha Hta Hto Hbo' Hsv) as (rm2 & -> & Ht2). cbn [mbind result_bind].
    destruct (touched_counts _ _ _ Ht2) as (Ec2 & _ & _).
    assert (failed a) as Hfail by (exists (io_vsd z), rm1, code; done).
    destruct a as [|x s]; [cbn in H1; lia|].
    assert (advanced cols errs (x :: s) ts1 (advance (length (x :: s)) rm2 (length (x :: s)) ts1 0)) as Hadv.
    { apply (advance_ok cols errs rm2 Ec2 ltac:(intros c Hc; by apply (errs_in rm2 data_errs)) (length (x :: s)) [] x s ts1);
        [done|done|done|cbn; lia|cbn [length app] in *; lia]. }
    destruct Hadv as [(p & y & r & ts2 & Heq & Hpk & Hlt & Hta2 & Hl2 & ->)|(Hpk & ts2 & next2 & Hf2 & Hl2 & ->)]; cbn [mbind result_bind].
    + rewrite Heq in *. pose proof (succ_vec cols errs p r y Ha Hlt) as Hv. pose proof (succ_length cols errs p r y) as Hsl.
      pose proof (succ_gt cols errs p r y Ha) as Hgt.
      destruct (tset_app ts2 (lows cols errs (length p)) (y :: r) (nxt (S y))) as (ts3 & Hset & Hf3 & Hl3 & Hk3); [apply Hta2| |].
      { rewrite lows_length, Hl2, Hl5. rewrite length_app in Hfew. lia. }
      rewrite lows_length in Hset, Hk3. cbn [tail] in Hf3.
      destruct (IH (succ cols errs p r y) ts2 orig' (length p) (nxt (S y)) (set_vsd rm2 z1)) as (z' & ts' & o' & o & Hsr & Hs & Hpost);
        rewrite ?Hsl; try done; try lia.
      * by apply reaches_succ.
      * exists ts3. split; [done|]. split; [|by rewrite Hl3, Hl2]. split; [done|]. rewrite Hsl, Hk3 by (rewrite length_app; cbn; lia).
        pose proof (ta_top _ _ _ Hta2) as Htop. rewrite length_app, lows_length in *. done.
      * rewrite length_app. cbn. lia.
      * pose proof (si_corrected _ _ Hs1') as Hc1. cbn [raidz_corrected set_vsd]. lia.
      * rewrite Hsl in Hsr. exists z', ts', o', o. split; [done|]. split; [eapply same_trans; [exact Hs1'|]; eapply same_trans; [apply same_vsd|exact Hs]|].
        destruct o as [code'|]; [done|]. destruct Hpost as (Hp1 & Hp2 & Hp3 & Hp4 & Hp5). rewrite Hsl in Hp4, Hp5. split_and!; try done; try apply Hp4.
        intros w Hw Hlw Hrw Hle. destruct (decide (val (p ++ y :: r) = val w)) as [He|Hne].
        -- by rewrite <- (digits_inj _ _ _ (vec_digits _ _ _ Ha) (vec_digits _ _ _ Hw) (eq_sym Hlw) He).
        -- apply Hp5; try done. apply (succ_least cols errs p r y Ha Hpk w Hw Hlw). lia.
    + exists (set_vsd rm2 z1), ts2, orig', None. split; [destruct fuel; cbn [search]; by rewrite Nat.eqb_refl|].
      split; [eapply same_trans; [exact Hs1'|apply same_vsd]|]. do 2 (split; [done|]). split; [lia|]. split; [done|].
      intros w Hw Hlw Hrw Hle. pose proof (packed_last cols errs _ w Ha Hpk Hw Hlw).
      by rewrite <- (digits_inj _ _ _ (vec_digits _ _ _ Ha) (vec_digits _ _ _ Hw) (eq_sym Hlw) ltac:(lia)).
Qed.

(** ** The first set *)

Definition valid_cols : list nat := filter (fun c => errs c = false) (seq 0 cols).

Lemma valid_cols_vec : vec valid_cols.
Proof using All.
  split; [apply sorted_filter, sorted_seq|]. apply Forall_forall. intros c (He & Hc%elem_of_seq)%list_elem_of_filter. split; [lia|done].
Qed.

Lemma valid_cols_length : (length all_errs + length valid_cols = cols)%nat.
Proof using All.
  unfold all_errs, valid_cols. rewrite <- length_app. rewrite <- (length_seq cols 0) at 3. apply Permutation_length.
  rewrite <- (filter_app_complement (fun c => errs c = true) (seq 0 cols)) at 3. apply Permutation_app_head.
  apply Permutation_refl', list_filter_iff. intros c. by rewrite not_true_iff_false.
Qed.

(** Where the search for the [i]-th target starts. *)
Definition start (i : nat) : nat := match i with O => O | S j => S (low cols errs j) end.

Lemma start_low i : nxt (start i) = low cols errs i.
Proof using All. by destruct i. Qed.

Lemma start_le w i x : vec w -> w !! i = Some x -> (start i <= x)%nat.
Proof using All.
  intros Hw Hx. destruct i as [|j]; cbn; [lia|]. destruct (lookup_lt_is_Some_2 w j) as [y Hy]; [apply lookup_lt_Some in Hx; lia|].
  destruct (low_le cols errs w j y Hw Hy) as [Hl _]. pose proof (sorted_lookup w j (S j) y x (vec_sorted _ _ _ Hw) Hy Hx ltac:(lia)). lia.
Qed.

Section first.
Context (n : nat) (de : Z) (Hn : (S n + length all_errs <= fdc)%nat) (Hde : de = 0 <-> data_errs = []).

(** The last target is pushed up to the data columns if none has an error. *)
Definition top_start : nat := if (de =? 0) && (start n <? fdc)%nat then fdc else start n.
Definition first_set : list nat := lows cols errs n ++ [nxt top_start].

Lemma first_length : length first_set = S n.
Proof using All. unfold first_set. rewrite length_app, lows_length. cbn. lia. Qed.

Lemma valid_at i : (i <= n)%nat -> exists x, valid_cols !! i = Some x /\ good cols errs x /\ (start i <= x)%nat.
Proof using All.
  intros Hi. pose proof valid_cols_length. pose proof (wf_cols m rm0 Hwf).
  destruct (lookup_lt_is_Some_2 valid_cols i ltac:(lia)) as [x Hx]. exists x. split; [done|].
  split; [exact (Forall_lookup_1 _ _ _ _ (vec_good _ _ _ valid_cols_vec) Hx)|]. by apply (start_le valid_cols i x valid_cols_vec).
Qed.

Lemma no_data_errs c : de = 0 -> (fdc <= c < cols)%nat -> errs c = false.
Proof using All.
  intros H0 Hc. destruct (errs c) eqn:E; [|done]. assert (c ∈ data_errs) as Hin; [|rewrite (proj1 Hde H0) in Hin; by apply elem_of_nil in Hin].
  apply list_elem_of_filter. rewrite elem_of_seq. split; [done|lia].
Qed.

Lemma top_good : exists x, good cols errs x /\ (top_start <= x)%nat.
Proof using All.
  destruct (valid_at n ltac:(lia)) as (x & _ & Hg & Hx). unfold top_start.
  destruct (Z.eqb_spec de 0) as [H0|H0]; cbn [andb]; [|by exists x]. destruct (Nat.ltb_spec (start n) fdc); [|by exists x].
  exists fdc. pose proof (wf_cols m rm0 Hwf). split; [|done]. split; [lia|]. apply no_data_errs; [done|lia].
Qed.

Lemma nxt_top : good cols errs (nxt top_start) /\ (start n <= nxt top_start)%nat /\ (de = 0 -> (fdc <= nxt top_start)%nat).
Proof using All.
  destruct top_good as (x & [Hx He] & Hle). pose proof (nxt_le cols errs top_start x (conj Hx He) Hle) as Hn1.
  pose proof (nxt_ge cols errs top_start ltac:(lia)) as Hge. split; [apply nxt_good; lia|].
  unfold top_start in *. destruct (Z.eqb_spec de 0), (Nat.ltb_spec (start n) fdc); cbn [andb] in *; lia.
Qed.

Lemma first_vec : vec first_set.
Proof using All.
  destruct nxt_top as (Hg & Hst & _). pose proof valid_cols_length. pose proof (wf_cols m rm0 Hwf).
  destruct (lows_vec cols errs valid_cols n valid_cols_vec ltac:(lia)) as [[Hls Hlg] _]. split.
  - apply StronglySorted_app. split_and!; [|done|repeat constructor]. intros y z Hy ->%list_elem_of_singleton.
    destruct n as [|k]; [by apply elem_of_nil in Hy|]. cbn [start] in Hst. rewrite lows_S in Hls, Hy.
    apply elem_of_app in Hy as [Hy | ->%list_elem_of_singleton]; [|lia].
    pose proof (StronglySorted_app_1_elem_of lt _ _ y _ Hls Hy (list_elem_of_here _ _)). lia.
  - apply Forall_app. split; [done|by apply Forall_singleton].
Qed.

Lemma first_reaches : reaches first_set.
Proof using All.
  destruct nxt_top as (_ & _ & Htop). destruct (decide (data_errs = [])) as [He|He]; [|by left]. right.
  apply Exists_app. right. apply Exists_cons. left. apply Htop. by apply Hde.
Qed.

Lemma first_least w : vec w -> length w = S n -> reaches w -> (val first_set <= val w)%nat.
Proof using All.
  intros Hw Hl Hre. destruct (lookup_lt_is_Some_2 w n ltac:(lia)) as [x Hx].
  assert (w = take n w ++ [x]) as Hsplit.
  { rewrite <- (take_drop n w) at 1. f_equal. rewrite (drop_S _ _ _ Hx), drop_ge by lia. done. }
  pose proof (Forall_lookup_1 _ _ _ _ (vec_good _ _ _ Hw) Hx) as Hgx. pose proof (start_le w n x Hw Hx) as Hsx.
  assert (top_start <= x)%nat as Htop.
  { unfold top_start. destruct (Z.eqb_spec de 0) as [H0|]; cbn [andb]; [|done]. destruct (Nat.ltb_spec (start n) fdc); [|done].
    destruct Hre as [Hd|(c & Hc & Hfc)%Exists_exists]; [by destruct Hd; apply Hde|].
    rewrite Hsplit in Hc. apply elem_of_app in Hc as [Hc | ->%list_elem_of_singleton]; [|done].
    pose proof (vec_sorted _ _ _ Hw) as Hs. rewrite Hsplit in Hs. pose proof (StronglySorted_app_1_elem_of lt _ _ c x Hs Hc (list_elem_of_here _ _)). lia. }
  rewrite Hsplit. apply digits_mono. unfold first_set. apply Forall2_app.
  - apply Forall2_same_length_lookup_2; [rewrite lows_length, length_take; lia|]. intros j u v Hu (Hv & Hj)%lookup_take_Some.
    unfold lows in Hu. rewrite list_lookup_fmap, lookup_seq_lt in Hu by done. injection Hu as <-. by apply (low_le cols errs w j v).
  - constructor; [by apply nxt_le|constructor].
Qed.

Lemma combrec_init_ok rm ts : touched rm0 data_errs rm -> front ts [] -> length ts = 5%nat ->
  exists ts', init_targets rm (S n) de ts = Ret ts' /\ tgts_are cols ts' first_set /\ length ts' = 5%nat.
Proof using All.
  intros Ht Hfr Hl. destruct (touched_counts _ _ _ Ht) as (Ec & Ef & _). unfold init_targets.
  assert (forall c, (c < cols)%nat -> exists rc, rm_col rm !! c = Some rc /\ negb (rc_error rc =? 0) = errs c) as Herr
    by (intros c Hc; by apply (errs_in rm data_errs)).
  match goal with |- context [for_loop (S n) 0 ?body ?st0] =>
    destruct (for_loop_inv (fun i st => length (fst st) = 5%nat /\
      if (i <=? n)%nat then front (fst st) (lows cols errs i) /\ snd st = start i else front (fst st) first_set) (S n) 0 body st0)
      as ([ts1 c1] & -> & Hl1 & Hf1) end.
  - intros i [ts1 c1] Hi [Hl1 Hf1]. cbn [fst snd] in *. rewrite (proj2 (Nat.leb_le i n)) in Hf1 by lia. destruct Hf1 as [Hf1 ->].
    rewrite Ef. replace (S n - 1)%nat with n by lia.
    cbv zeta. assert (exists v, skip_bad true (S (rm_cols rm)) rm
      (if (i =? n)%nat && (de =? 0) && (start i <? fdc)%nat then fdc else start i) = Ret v /\ (if (i =? n)%nat then v = nxt top_start else v = low cols errs i)) as (v & -> & Hv).
    { destruct (Nat.eqb_spec i n) as [-> | Hne]; cbn [andb].
      - fold top_start. destruct top_good as (x & Hg & Hx). exists (nxt top_start). split; [|done]. by apply (skip_bad_ok cols errs rm Ec Herr true _ x).
      - destruct (valid_at i ltac:(lia)) as (x & _ & Hg & Hx). exists (low cols errs i). split; [|done]. rewrite <- start_low.
        by apply (skip_bad_ok cols errs rm Ec Herr true _ x). }
    cbn [mbind result_bind].
    destruct (tset_app ts1 (lows cols errs i) [] v) as (ts2 & Hset & Hf2 & Hl2 & _); [by rewrite app_nil_r|rewrite lows_length; lia|].
    rewrite lows_length in Hset. rewrite Hset. cbn [mbind result_bind tail] in *. eexists. split; [done|]. cbn [fst snd]. split; [lia|].
    destruct (Nat.eqb_spec i n) as [-> | Hne]; subst v.
    + rewrite (proj2 (Nat.leb_gt (S n) n)) by lia. done.
    + rewrite (proj2 (Nat.leb_le (S i) n)) by lia. rewrite lows_S. done.
  - cbn [fst snd Nat.leb]. split; [done|]. done.
  - cbn [fst snd Nat.add] in *. rewrite (proj2 (Nat.leb_gt (S n) n)) in Hf1 by lia. cbn [mbind result_bind]. rewrite Ec.
    destruct (tset_app ts1 first_set [] cols) as (ts2 & Hset & Hf2 & Hl2 & _); [by rewrite app_nil_r|rewrite first_length; lia|].
    rewrite first_length in Hset. rewrite Hset. exists ts2. split; [done|]. split; [|lia]. split.
    + split; [apply (fr_low _ _ Hf2)|]. intros i c Hi. apply (fr_at _ _ Hf2). by apply lookup_app_l_Some.
    + rewrite first_length. apply (fr_at _ _ Hf2). rewrite <- first_length. by apply list_lookup_middle.
Qed.
End first.

(** ** All numbers of columns *)

Lemma sizes_ok k n de ts orig z :
  touched rm0 data_errs (io_vsd z) -> (1 <= n)%nat -> (k = 0%nat \/ n + k + length all_errs <= S fdc)%nat -> (de = 0 <-> data_errs = []) ->
  front ts [] -> length ts = 5%nat -> buffers (n - 1) orig -> length (raidz_corrected z) = 8%nat ->
  exists z' code,
    combrec_sizes kmem_alloc abd_alloc zio_buf_alloc dg linear zio_checksum_error k n de ts orig z = Ret (z', code) /\ same_io z z' /\
    ((exists w, 0 < code < 8 /\ found w code (io_vsd z')) \/
     (code = 0 /\ touched rm0 data_errs (io_vsd z') /\ forall w, vec w -> (n <= length w < n + k)%nat -> reaches w -> failed w)).
Proof using All.
  revert n ts orig z. induction k as [|k IH]; intros n ts orig z Ht Hn Hk Hde Hfr Hl Hbo Hcor.
  { exists z, 0. split; [done|]. split; [apply same_refl|]. right. split_and!; try done. lia. }
  cbn [combrec_sizes]. destruct n as [|n]; [lia|]. destruct Hk as [|Hk]; [done|].
  destruct (combrec_init_ok n de ltac:(lia) Hde (io_vsd z) ts Ht Hfr Hl) as (ts1 & -> & Hta & Hl1). cbn [mbind result_bind].
  destruct Hbo as [Hlo Hbo]. rewrite Hlo, Nat.eqb_refl. cbn [verify mbind result_bind].
  destruct (touched_counts _ _ _ Ht) as (Ec & Ef & _). pose proof (touched_wf m _ _ _ Hwf Ht) as Hwf'. pose proof (wf_cols m _ Hwf') as Hwc.
  destruct (wf_col m (io_vsd z) 0 Hwf' ltac:(lia)) as [rc Hrc]. rewrite (get_col_ok _ _ _ Hrc). cbn [mbind result_bind].
  destruct (wf_parity m _ Hwf' 0 rc ltac:(lia) Hrc) as (_ & Hs8 & _).
  pose proof (first_vec n de ltac:(lia) Hde) as Hv. pose proof (first_length n de ltac:(lia) Hde) as Hfl. pose proof (first_reaches n de ltac:(lia) Hde) as Hre.
  destruct (lookup_lt_is_Some_2 (first_set n de) 0 ltac:(lia)) as [c0 Hc0].
  pose proof (tget_at ts1 _ 0 c0 (ta_front _ _ _ Hta) Hc0) as Ht0. change (Z.of_nat 0) with 0 in Ht0. rewrite Ht0. cbn [mbind result_bind]. rewrite Nat2Z.id.
  assert (buffers (S n) (orig ++ [zio_buf_alloc (rc_size rc)])) as Hbo'.
  { split; [rewrite length_app; cbn; lia|]. apply Forall_app. split; [done|]. apply Forall_singleton. rewrite Hbuf. lia. }
  destruct (search_ok (search_fuel (io_vsd z) (S n)) (first_set n de) ts1 (orig ++ [zio_buf_alloc (rc_size rc)]) 0 c0 z)
    as (z1 & ts2 & orig2 & o & Hsr & Hs & Hpost); rewrite ?Hfl; try done; try lia.
  { exists ts1. split; [|done]. destruct (first_set n de) as [|c l] eqn:Efs; [done|]. injection Hc0 as ->.
    unfold tset. change (Z.to_nat (Z.of_nat 0 + 1)) with 1%nat. rewrite wr_ok by lia. f_equal. apply list_insert_id.
    apply (fr_at _ _ (ta_front _ _ _ Hta) 0%nat). done. }
  { unfold search_fuel. rewrite Ec. apply Nat.le_add_r. }
  rewrite Hfl in Hsr. rewrite Hsr. cbn [mbind result_bind]. destruct o as [code|].
  - destruct Hpost as (w & Hw). exists z1, code. split; [done|]. split; [done|]. left. exists w. split; [|done].
    destruct Hw as [Hvw [_ Hfw] Hrw (rm1 & rm2 & Ht1 & Hr & _)]. destruct (attempt rm1 w Ht1 Hvw Hfw Hrw) as (? & ? & Hr' & _ & Hc & _).
    rewrite Hr in Hr'. by injection Hr' as _ <-.
  - destruct Hpost as (Ht1 & Hf1 & Hl2 & Hb2 & Hall). rewrite Hfl in Hb2, Hall.
    destruct (IH (S (S n)) ts2 orig2 z1) as (z2 & code & Hsz2 & Hs2 & Hpost2); try done; try lia.
    { by rewrite (si_corrected _ _ Hs). }
    rewrite Hsz2. exists z2, code. split; [done|]. split; [by eapply same_trans|].
    destruct Hpost2 as [?|(Hc0' & Ht2 & Hall2)]; [by left|]. right. split_and!; try done. intros w Hw Hlw Hrw.
    destruct (decide (length w = S n)) as [He|Hne]; [|apply Hall2; [done|lia|done]]. apply Hall; try done. by apply first_least; try lia.
Qed.

Lemma combrec_ok te de tstore0 z :
  touched rm0 data_errs (io_vsd z) -> te = Z.of_nat (length all_errs) -> te < Z.of_nat fdc -> (de = 0 <-> data_errs = []) ->
  length tstore0 = 5%nat -> length (raidz_corrected z) = 8%nat ->
  exists z' code,
    vdev_raidz_combrec kmem_alloc abd_alloc zio_buf_alloc dg linear zio_checksum_error tstore0 te de z = Ret (z', code) /\ same_io z z' /\
    ((exists w, 0 < code < 8 /\ found w code (io_vsd z')) \/
     (code = 0 /\ touched rm0 data_errs (io_vsd z') /\
      forall w, vec w -> (1 <= length w)%nat -> (length w + length all_errs <= fdc)%nat -> reaches w -> failed w)).
Proof using All.
  intros Ht -> Hlt Hde Hl Hcor. destruct (touched_counts _ _ _ Ht) as (Ec & Ef & _). unfold vdev_raidz_combrec. rewrite Ef.
  rewrite (proj2 (Z.ltb_lt _ _)) by done. cbn [verify mbind result_bind]. unfold tset. cbn [Z.add Z.to_nat]. rewrite wr_ok by lia. cbn [mbind result_bind].
  rewrite Nat2Z.id.
  destruct (sizes_ok (fdc - length all_errs) 1 de (<[0%nat:=-1]> tstore0) [] z) as (z' & code & Hr & Hs & Hpost); try done; try lia.
  - split; [apply list_lookup_insert_eq; lia|]. by intros i c Hi.
  - by rewrite length_insert.
  - exists z', code. split; [done|]. split; [done|]. destruct Hpost as [?|(-> & Ht' & Hall)]; [by left|]. right. split_and!; try done.
    intros w Hw H1 Hfew Hre. apply Hall; [done|lia|done].
Qed.
End search.
