(* ===== verification/RaidzSearch.v ===== *)
(** * RAID-Z: what the search finds

    Silent damage on top of known errors is found and undone, as long as both
    together are within the parity. *)

From S2P Require Import Prelude Raidz RaidzParity RaidzMatrix RaidzSolve RaidzInvert RaidzRecover RaidzGeneral RaidzRuns RaidzReconstruct.
From S2P Require Import RaidzIo RaidzEnum RaidzCombrec.

(** Parity generated for a map: only the bytes of the parity columns change. *)
Lemma generate_touched m rm :
  raidz_wf m rm -> (1 <= rm_firstdatacol rm <= 3)%nat -> first_full m rm ->
  exists rmg, vdev_raidz_generate_parity rm = Ret rmg /\ touched rm (seq 0 (rm_firstdatacol rm)) rmg /\ datas rmg = datas rm /\
    forall c, (c < rm_firstdatacol rm)%nat -> has_parity m rmg c.
Proof.
  intros Hwf Hf Hfull. destruct (vdev_raidz_generate_parity rm) as [rmg|] eqn:Hgen; [|by rewrite (generate_ok m rm Hwf Hf Hfull) in Hgen].
  exists rmg. split; [done|]. destruct (generated m rm rmg Hwf Hf Hfull Hgen) as (Hwf' & Ef & Ec & Hge & Hpar).
  rewrite (generate_ok m rm Hwf Hf Hfull) in Hgen. injection Hgen as <-. set (ps := _ <$> seq _ _) in *.
  destruct (datas_wf m rm Hwf) as (Hdl & Hdb & _). pose proof (wf_cols m rm Hwf) as Hwc. split; [split|split; [|done]].
  - done.
  - intros c Hc. apply Hge. rewrite elem_of_seq in Hc. lia.
  - intros c Hc%elem_of_seq. exists (par (parity_mul c) (8 * m) (datas rm)). destruct (wf_col m rm c Hwf ltac:(lia)) as [rc Hrc]. rewrite Hrc. split.
    + cbn. apply put_abds_lt; [|done]. unfold ps. by rewrite list_lookup_fmap, lookup_seq_lt by lia.
    + intros ? [= <-]. destruct (wf_parity m rm Hwf c rc ltac:(lia) Hrc) as (_ & _ & ->). split; [by apply par_length|].
      intros _. apply par_bytes; [|done]. intros b Hb. by apply mulp_byte.
  - apply datas_ext; [done..|]. intros c Hc. by rewrite Hge by (rewrite <- Ef; lia).
Qed.

(** Equal bytes in all data columns. *)
Lemma datas_cols rm1 rm2 :
  rm_cols rm1 = rm_cols rm2 -> rm_firstdatacol rm1 = rm_firstdatacol rm2 ->
  (forall c, (rm_firstdatacol rm1 <= c < rm_cols rm1)%nat -> data_of <$> rm_col rm1 !! c = data_of <$> rm_col rm2 !! c) -> datas rm1 = datas rm2.
Proof.
  intros Hc Hf Hd. unfold datas, datas_to. rewrite <- Hc, <- Hf. apply list_eq. intros i. rewrite !list_lookup_fmap.
  destruct (decide (i < rm_cols rm1 - rm_firstdatacol rm1)%nat) as [Hi|Hi].
  - rewrite !lookup_take_lt, !lookup_drop by done. apply Hd. lia.
  - by rewrite !lookup_take_ge by lia.
Qed.

Lemma repaired_datas m rm rmd rmr :
  raidz_wf m rmd -> length (datas rm) = (rm_cols rmd - rm_firstdatacol rmd)%nat ->
  (forall j d rc, datas rm !! j = Some d -> rm_col rmd !! (j + rm_firstdatacol rmd)%nat = Some rc -> rc_size rc = Z.of_nat (length d)) ->
  repaired (datas rm) rmd rmr -> datas rmr = datas rm.
Proof.
  intros Hwf Hl Hs Hrep. assert (rm_cols rmr = rm_cols rmd /\ rm_firstdatacol rmr = rm_firstdatacol rmd) as [Ec Ef].
  { by rewrite <- (re_frame _ _ _ Hrep). }
  pose proof (wf_cols m _ Hwf) as Hwc. apply list_eq. intros j. destruct (decide (j < rm_cols rmd - rm_firstdatacol rmd)%nat) as [Hj|Hj].
  - destruct (lookup_lt_is_Some_2 (datas rm) j ltac:(lia)) as [d Hd]. rewrite Hd. pose proof (re_data _ _ _ Hrep j d Hd) as Hcol.
    destruct (wf_col m rmd (j + rm_firstdatacol rmd) Hwf ltac:(lia)) as [rc Hrc]. rewrite Hrc in Hcol. cbn in Hcol. rewrite <- Ef in Hcol.
    pose proof (datas_lookup rmr (j + rm_firstdatacol rmr) _ ltac:(lia) Hcol) as Hlk. rewrite Nat.add_sub in Hlk. rewrite Hlk. unfold data_of. cbn [rc_size rc_abd col_abd].
    rewrite (Hs j d rc Hd Hrc), Nat2Z.id. by rewrite take_ge.
  - assert (length (datas rmr) <= rm_cols rmd - rm_firstdatacol rmd)%nat.
    { unfold datas, datas_to. rewrite length_fmap, length_take, length_drop, Ec, Ef. lia. }
    rewrite !lookup_ge_None_2 by lia. done.
Qed.

(** ** A damaged stripe *)

Section damage.
Context (m : nat) (rm rm' rmd : raidz_map) (s : list nat).
Context (Hwf : raidz_wf m rm) (Hf : (1 <= rm_firstdatacol rm <= 3)%nat) (Hfull : first_full m rm) (H255 : (rm_cols rm <= 255)%nat).
Context (Hsz : raidz_sized rm) (Hgen : vdev_raidz_generate_parity rm = Ret rm') (Hd : damaged rm' s rmd).

Lemma gen_counts : rm_cols rm' = rm_cols rm /\ rm_firstdatacol rm' = rm_firstdatacol rm /\ raidz_wf m rm' /\ datas rm' = datas rm /\
  raidz_sized rm' /\ (forall c, (c < rm_firstdatacol rm)%nat -> has_parity m rm' c) /\ touched rm (seq 0 (rm_firstdatacol rm)) rm'.
Proof using All.
  destruct (generate_touched m rm Hwf Hf Hfull) as (rmg & Hg & Ht & Hds & Hpar). rewrite Hgen in Hg. injection Hg as <-.
  destruct (touched_counts _ _ _ Ht) as (Ec & Ef & _). split_and!; try done; [by eapply touched_wf|by eapply touched_sized].
Qed.

Lemma dmg_counts : rm_cols rmd = rm_cols rm /\ rm_firstdatacol rmd = rm_firstdatacol rm /\ raidz_wf m rmd /\ raidz_sized rmd.
Proof using All.
  destruct gen_counts as (Ec & Ef & Hwf' & _ & Hsz' & _). pose proof (damaged_wf m rm' s rmd Hwf' Hd) as Hwfd.
  assert (rm_cols rmd = rm_cols rm /\ rm_firstdatacol rmd = rm_firstdatacol rm) as [Ecd Efd].
  { rewrite <- (dm_frame _ _ _ Hd). done. }
  split_and!; try done. split.
  - intros c rcd Hc Hrcd. destruct (damaged_lookup _ _ _ _ _ Hd Hrcd) as [rc Hrc].
    destruct (dm_col _ _ _ Hd c rc rcd Hrc Hrcd) as (-> & _ & -> & _). apply (sz_exact _ Hsz' c); [lia|done].
  - intros c c' r1 r2 Hc Hcc Hr1 Hr2. destruct (damaged_lookup _ _ _ _ _ Hd Hr1) as [o1 Ho1], (damaged_lookup _ _ _ _ _ Hd Hr2) as [o2 Ho2].
    destruct (dm_col _ _ _ Hd c o1 r1 Ho1 Hr1) as (-> & _), (dm_col _ _ _ Hd c' o2 r2 Ho2 Hr2) as (-> & _).
    apply (sz_desc _ Hsz' c c'); [lia|lia|done|done].
  - intros c rcd Hc Hrcd. destruct (damaged_lookup _ _ _ _ _ Hd Hrcd) as [rc Hrc].
    destruct (dm_col _ _ _ Hd c rc rcd Hrc Hrcd) as (-> & _). apply (sz_pos _ Hsz' c); [lia|done].
Qed.

(** Changing columns that are bad anyway leaves the damage the same. *)
Lemma damaged_touched cs rm1 : touched rmd cs rm1 -> (forall c, c ∈ cs -> bad_col rmd s c) -> damaged rm' s rm1.
Proof using All.
  intros Ht Hcs. destruct (touched_counts _ _ _ Ht) as (_ & _ & El).
  assert (forall c, bad_col rm1 s c <-> bad_col rmd s c) as Hb.
  { intros c. unfold bad_col. destruct (touched_any _ _ _ c Ht) as (b & E & _). rewrite E.
    split; (intros [|(rc & Hrc & Hne)]; [by left|right]).
    - destruct (rm_col rmd !! c) as [rc0|]; [|done]. injection Hrc as <-. by exists rc0.
    - rewrite Hrc. cbn. eexists. by split. }
  split.
  - rewrite <- (to_frame _ _ _ Ht), <- (dm_frame _ _ _ Hd). done.
  - rewrite El. apply (dm_length _ _ _ Hd).
  - intros c rc rc1 Hrc Hrc1. destruct (touched_inv _ _ _ _ _ Ht Hrc1) as (rcd & b & Hrcd & -> & Hl & Hbb & Hout).
    destruct (dm_col _ _ _ Hd c rc rcd Hrc Hrcd) as (Hs & Hby & Hlen & Hsame). cbn [rc_size rc_abd col_abd]. split_and!; [done|auto|lia|].
    intros Hn. rewrite Hb in Hn. assert (c ∉ cs) as Hnc by (intros Hc; by apply Hn, Hcs). specialize (Hout Hnc).
    apply (f_equal rc_abd) in Hout. cbn in Hout. rewrite Hout. by apply Hsame.
Qed.

Lemma data_errs_bad c : c ∈ data_errs rmd -> bad_col rmd s c.
Proof using All.
  destruct dmg_counts as (Ec & Ef & Hwfd & _). pose proof (wf_cols m _ Hwfd).
  intros (He & Hc%elem_of_seq)%list_elem_of_filter. unfold errs in He. destruct (wf_col m rmd c Hwfd ltac:(lia)) as [rc Hrc]. rewrite Hrc in He.
  right. exists rc. split; [done|]. by apply negb_true_iff, Z.eqb_neq in He.
Qed.

End damage.

Section search_damage.
Context (kmem_alloc abd_alloc zio_buf_alloc : Z -> list Z) (dg linear : bool) (zio_checksum_error : list Z -> Z * bool).
Context (Hkm : forall z, length (kmem_alloc z) = Z.to_nat z).
Context (Habd : forall z, bytes (abd_alloc z) /\ length (abd_alloc z) = Z.to_nat z).
Context (Hbuf : forall z, length (zio_buf_alloc z) = Z.to_nat z).
Context (m : nat) (rm rm' rmd : raidz_map) (s : list nat).
Context (Hwf : raidz_wf m rm) (Hf : (1 <= rm_firstdatacol rm <= 3)%nat) (Hfull : first_full m rm) (H255 : (rm_cols rm <= 255)%nat).
Context (Hsz : raidz_sized rm) (Hgen : vdev_raidz_generate_parity rm = Ret rm') (Hd : damaged rm' s rmd).

Notation checks := (checks zio_checksum_error).
#[local] Notation gen_facts := (gen_counts m rm rm' rmd s Hwf Hf Hfull H255 Hsz Hgen Hd).
#[local] Notation dmg_facts := (dmg_counts m rm rm' rmd s Hwf Hf Hfull H255 Hsz Hgen Hd).

(** The right set gives the data back, whatever is in the columns with an
    error. *)
Lemma right_set rm1 :
  touched rmd (data_errs rmd) rm1 -> vec (rm_cols rmd) (errs rmd) s -> (length s + length (all_errs rmd) <= rm_firstdatacol rmd)%nat -> reaches rmd s ->
  exists rm2 code, vdev_raidz_reconstruct kmem_alloc abd_alloc dg linear rm1 s = Ret (rm2, code) /\ datas rm2 = datas rm.
Proof using All.
  intros Ht Hv Hfew Hre. destruct gen_facts as (Ec & Ef & Hwf' & Hds & Hsz' & Hpar & _). destruct dmg_facts as (Ecd & Efd & Hwfd & Hszd).
  pose proof (damaged_touched m rm rm' rmd s Hwf Hf Hfull H255 Hsz Hgen Hd _ rm1 Ht (data_errs_bad m rm rm' rmd s Hwf Hf Hfull H255 Hsz Hgen Hd)) as Hd1. destruct (touched_counts _ _ _ Ht) as (Ec1 & Ef1 & El1).
  pose proof (damaged_stripe m rm' s rm1 Hwf' ltac:(lia) ltac:(lia) Hsz' ltac:(by rewrite Ef) Hd1) as Hst.
  destruct (attempt kmem_alloc abd_alloc zio_buf_alloc dg linear zio_checksum_error Hkm Habd Hbuf m rmd Hwfd ltac:(lia) ltac:(lia) Hszd rm1 s Ht Hv Hfew Hre)
    as (rm2 & code & Hr & _). exists rm2, code. split; [done|].
  destruct (set_fits kmem_alloc abd_alloc zio_buf_alloc dg linear zio_checksum_error Hkm Habd Hbuf m rmd Hwfd ltac:(lia) ltac:(lia) Hszd rm1 s Ht Hv Hfew Hre)
    as (Hlt & Hn & Hne).
  destruct (reconstruct_ok kmem_alloc abd_alloc Hkm Habd m (datas rm') (bad_col rm1 s) rm1 s Hst) with (default_to_general := dg) (linear := linear)
    as (rm3 & code3 & Hr3 & _ & Hrep & _ & _); try done; [apply Hv|].
  rewrite Hr in Hr3. injection Hr3 as -> ->. specialize (Hrep ltac:(by intros c _)). rewrite <- Hds.
  destruct (datas_wf m rm' Hwf') as (_ & _ & Hdl).
  apply (repaired_datas m rm' rm1 rm3); [apply (touched_wf m _ _ _ Hwfd Ht)|rewrite Hdl; lia| |done].
  intros j d rc Hj Hrc. apply (st_size _ _ _ _ Hst j d rc Hj Hrc).
Qed.

Lemma combrec_finds te de tstore0 z :
  touched rmd (data_errs rmd) (io_vsd z) -> vec (rm_cols rmd) (errs rmd) s -> s <> [] ->
  (length s + length (all_errs rmd) <= rm_firstdatacol rmd)%nat -> reaches rmd s ->
  te = Z.of_nat (length (all_errs rmd)) -> (de = 0 <-> data_errs rmd = []) -> length tstore0 = 5%nat -> length (raidz_corrected z) = 8%nat ->
  checks rm = 0 ->
  exists z' code,
    vdev_raidz_combrec kmem_alloc abd_alloc zio_buf_alloc dg linear zio_checksum_error tstore0 te de z = Ret (z', code) /\ same_io z z' /\
    0 < code < 8 /\ exists w, found kmem_alloc abd_alloc dg linear zio_checksum_error rmd w code (io_vsd z').
Proof using All.
  intros Ht Hv Hne Hfew Hre -> Hde Hl Hcor Hck. destruct dmg_facts as (Ecd & Efd & Hwfd & Hszd).
  assert (1 <= length s)%nat as Hs1 by (destruct s; [done|cbn; lia]).
  destruct (combrec_ok kmem_alloc abd_alloc zio_buf_alloc dg linear zio_checksum_error Hkm Habd Hbuf m rmd Hwfd ltac:(lia) ltac:(lia) Hszd
    (Z.of_nat (length (all_errs rmd))) de tstore0 z Ht eq_refl ltac:(lia) Hde Hl Hcor)
    as (z' & code & Hr & Hs & [(w & Hcode & Hw)|(_ & _ & Hall)]).
  - exists z', code. split_and!; try done; try lia. by exists w.
  - exfalso. destruct (Hall s Hv Hs1 Hfew Hre) as (rm1 & rm2 & code' & Ht1 & Hr1 & Hbad).
    destruct (right_set rm1 Ht1 Hv Hfew Hre) as (rm3 & code3 & Hr3 & Hds). rewrite Hr1 in Hr3. injection Hr3 as <- <-.
    apply Hbad. unfold checks. rewrite Hds. exact Hck.
Qed.
End search_damage.

(** Marking columns changes no data. *)
Lemma marked_counts rm w rm' : marked rm w rm' ->
  rm_cols rm' = rm_cols rm /\ rm_firstdatacol rm' = rm_firstdatacol rm /\ datas rm' = datas rm.
Proof.
  intros Hm. assert (rm_cols rm' = rm_cols rm /\ rm_firstdatacol rm' = rm_firstdatacol rm) as [Ec Ef] by (by rewrite <- (ma_frame _ _ _ Hm)).
  split_and!; [done..|]. apply datas_ext; [done..|]. intros c _. rewrite (ma_col _ _ _ Hm). destruct (rm_col rm !! c) as [rc|]; [|done].
  cbn. by case_decide.
Qed.

Lemma marked_wf m rm w rm' : raidz_wf m rm -> marked rm w rm' -> raidz_wf m rm'.
Proof.
  intros Hwf Hm. destruct (marked_counts _ _ _ Hm) as (Ec & Ef & _).
  assert (forall c rc', rm_col rm' !! c = Some rc' -> exists rc, rm_col rm !! c = Some rc /\ rc_size rc' = rc_size rc /\ rc_abd rc' = rc_abd rc) as Hcol.
  { intros c rc' Hc. rewrite (ma_col _ _ _ Hm) in Hc. destruct (rm_col rm !! c) as [rc|]; [|done]. injection Hc as <-.
    exists rc. by case_decide. }
  split; rewrite Ef, ?Ec.
  - pose proof (wf_cols m rm Hwf) as Hwc. split; [lia|]. enough (length (rm_col rm) <= length (rm_col rm'))%nat by lia.
    apply Nat.nlt_ge. intros Hlt. destruct (lookup_lt_is_Some_2 (rm_col rm) _ Hlt) as [rc Hrc].
    pose proof (ma_col _ _ _ Hm (length (rm_col rm'))) as H. rewrite Hrc, (lookup_ge_None_2 (rm_col rm')) in H by done. done.
  - intros c rc' Hc Hrc'. destruct (Hcol c rc' Hrc') as (rc & Hrc & Hs & Ha). unfold parity_ok. rewrite Hs, Ha. by apply (wf_parity m rm Hwf c).
  - intros c rc' Hc Hrc'. destruct (Hcol c rc' Hrc') as (rc & Hrc & Hs & Ha). unfold data_ok. rewrite Hs, Ha. by apply (wf_data m rm Hwf c).
Qed.

(** The same bytes cut up in the same way are the same columns. *)
Lemma join_inj {A} (l l' : list (list A)) : Forall2 (fun a b => length a = length b) l l' -> mjoin l = mjoin l' -> l = l'.
Proof.
  induction 1 as [|a b l l' Hab _ IH]; [done|]. cbn. intros H. apply app_inj_1 in H as [-> H]; [|done]. f_equal. by apply IH.
Qed.

Lemma touched_lengths m rm cs rm' :
  raidz_wf m rm -> touched rm cs rm' -> Forall2 (fun a b => length a = length b) (datas rm') (datas rm).
Proof.
  intros Hwf Ht. destruct (touched_counts _ _ _ Ht) as (Ec & Ef & _). pose proof (touched_wf m _ _ _ Hwf Ht) as Hwf'.
  destruct (datas_wf m rm Hwf) as (_ & _ & Hl), (datas_wf m rm' Hwf') as (_ & _ & Hl'). pose proof (wf_cols m rm Hwf) as Hwc.
  apply Forall2_same_length_lookup_2; [by rewrite Hl, Hl', Ec, Ef|]. intros j a b Ha Hb.
  pose proof (lookup_lt_Some _ _ _ Hb) as Hj. rewrite Hl in Hj.
  destruct (wf_col m rm' (j + rm_firstdatacol rm) Hwf' ltac:(lia)) as [rc' Hrc'].
  destruct (touched_inv _ _ _ _ _ Ht Hrc') as (rc & d & Hrc & -> & Hd & _).
  pose proof (datas_lookup rm (j + rm_firstdatacol rm) rc ltac:(lia) Hrc) as H1.
  pose proof (datas_lookup rm' (j + rm_firstdatacol rm) _ ltac:(lia) Hrc') as H2. rewrite Ef, Nat.add_sub in H2. rewrite Nat.add_sub in H1.
  rewrite Ha in H2. rewrite Hb in H1. injection H1 as ->. injection H2 as ->. unfold data_of. cbn [rc_size rc_abd col_abd].
  rewrite !length_take, Hd. done.
Qed.

(** What a successful search leaves. *)
Lemma found_map kmem_alloc abd_alloc dg linear zce (zio_buf_alloc : Z -> list Z) m rm0 w code rm' :
  (forall z, length (kmem_alloc z) = Z.to_nat z) -> (forall z, bytes (abd_alloc z) /\ length (abd_alloc z) = Z.to_nat z) ->
  (forall z, length (zio_buf_alloc z) = Z.to_nat z) ->
  raidz_wf m rm0 -> (1 <= rm_firstdatacol rm0 <= 3)%nat -> (rm_cols rm0 <= 255)%nat -> raidz_sized rm0 ->
  found kmem_alloc abd_alloc dg linear zce rm0 w code rm' ->
  exists rm2, touched rm0 (w ++ data_errs rm0) rm2 /\ marked rm2 w rm' /\ raidz_wf m rm' /\ io_abd rm' = Ret (mjoin (datas rm')) /\
    fst (zce (mjoin (datas rm'))) = 0 /\ Forall2 (fun a b => length a = length b) (datas rm') (datas rm0) /\
    (forall c, (c < rm_firstdatacol rm0)%nat -> rm_col rm2 !! c = rm_col rm0 !! c) /\
    (forall c, Z.testbit code (Z.of_nat c) = true -> (c < rm_firstdatacol rm0)%nat /\ c ∉ w /\ errs rm0 c = false).
Proof.
  intros Hkm Habd Hbuf Hwf Hf H255 Hsz [Hv [H1 Hfew] Hre (rm1 & rm2 & Ht1 & Hr & Hck & Hm)].
  destruct (attempt kmem_alloc abd_alloc zio_buf_alloc dg linear zce Hkm Habd Hbuf m rm0 Hwf Hf H255 Hsz rm1 w Ht1 Hv Hfew Hre)
    as (rm2' & code' & Hr' & Ht2 & _ & Hpar & Hbits). rewrite Hr in Hr'. injection Hr' as <- <-.
  assert (touched rm0 (w ++ data_errs rm0) rm2) as Ht.
  { eapply touched_trans; [|exact Ht2]. eapply touched_mono; [|exact Ht1]. intros c Hc. apply elem_of_app. by right. }
  pose proof (marked_wf m _ _ _ (touched_wf m _ _ _ Hwf Ht) Hm) as Hwf'. destruct (marked_counts _ _ _ Hm) as (_ & _ & Hd).
  exists rm2. split_and!; try done.
  - by apply (io_abd_ok m).
  - rewrite Hd. exact Hck.
  - rewrite Hd. by eapply touched_lengths.
  - intros c Hc. rewrite Hpar by done. apply (to_out _ _ _ Ht1). intros (_ & Hin%elem_of_seq)%list_elem_of_filter. lia.
Qed.

Lemma damaged_lengths m rm s rmd :
  raidz_wf m rm -> damaged rm s rmd -> Forall2 (fun a b => length a = length b) (datas rmd) (datas rm).
Proof.
  intros Hwf Hd. pose proof (damaged_wf m rm s rmd Hwf Hd) as Hwfd.
  assert (rm_cols rmd = rm_cols rm /\ rm_firstdatacol rmd = rm_firstdatacol rm) as [Ec Ef] by (by rewrite <- (dm_frame _ _ _ Hd)).
  destruct (datas_wf m rm Hwf) as (_ & _ & Hl), (datas_wf m rmd Hwfd) as (_ & _ & Hl'). pose proof (wf_cols m rm Hwf) as Hwc.
  apply Forall2_same_length_lookup_2; [by rewrite Hl, Hl', Ec, Ef|]. intros j a b Ha Hb.
  pose proof (lookup_lt_Some _ _ _ Hb) as Hj. rewrite Hl in Hj.
  destruct (wf_col m rmd (j + rm_firstdatacol rm) Hwfd ltac:(pose proof (wf_cols m rmd Hwfd); lia)) as [rcd Hrcd].
  destruct (damaged_lookup _ _ _ _ _ Hd Hrcd) as [rc Hrc]. destruct (dm_col _ _ _ Hd _ rc rcd Hrc Hrcd) as (Hs & _ & Hla & _).
  pose proof (datas_lookup rm (j + rm_firstdatacol rm) rc ltac:(lia) Hrc) as H1.
  pose proof (datas_lookup rmd (j + rm_firstdatacol rm) _ ltac:(lia) Hrcd) as H2. rewrite Ef, Nat.add_sub in H2. rewrite Nat.add_sub in H1.
  rewrite Ha in H2. rewrite Hb in H1. injection H1 as ->. injection H2 as ->. unfold data_of. by rewrite !length_take, Hs, Hla.
Qed.

(** The combinatorial search finds silent damage.  After parity was
    generated for a block, let any bytes be in the columns that reported an
    error and in the columns [s], which reported none.  If there is damage
    beyond the errors, and both together are no more than the parity columns
    and touch the data, [vdev_raidz_combrec] returns a code, and the data then
    has the checksum of the block; if no other data has it, every data column
    holds the bytes it had. *)
Theorem combrec_recovers kmem_alloc abd_alloc zio_buf_alloc dg linear zio_checksum_error tstore0 m rm rm' s z :
  (forall n, length (kmem_alloc n) = Z.to_nat n) ->
  (forall n, bytes (abd_alloc n) /\ length (abd_alloc n) = Z.to_nat n) ->
  (forall n, length (zio_buf_alloc n) = Z.to_nat n) ->
  raidz_wf m rm -> (1 <= rm_firstdatacol rm <= 3)%nat -> first_full m rm -> (rm_cols rm <= 255)%nat -> raidz_sized rm ->
  vdev_raidz_generate_parity rm = Ret rm' -> damaged rm' s (io_vsd z) ->
  s <> [] -> StronglySorted lt s -> Forall (fun c => c < rm_cols rm /\ errs (io_vsd z) c = false)%nat s ->
  (length s + length (all_errs (io_vsd z)) <= rm_firstdatacol rm)%nat -> reaches (io_vsd z) s ->
  length tstore0 = 5%nat -> length (raidz_corrected z) = 8%nat -> fst (zio_checksum_error (mjoin (datas rm))) = 0 ->
  exists z' code d,
    vdev_raidz_combrec kmem_alloc abd_alloc zio_buf_alloc dg linear zio_checksum_error tstore0
      (Z.of_nat (length (all_errs (io_vsd z)))) (Z.of_nat (length (data_errs (io_vsd z)))) z = Ret (z', code) /\
    0 < code < 8 /\ io_abd (io_vsd z') = Ret d /\ fst (zio_checksum_error d) = 0 /\ same_io z z' /\
    ((forall d', fst (zio_checksum_error d') = 0 -> d' = mjoin (datas rm)) -> datas (io_vsd z') = datas rm).
Proof.
  intros Hkm Habd Hbuf Hwf Hf Hfull H255 Hsz Hgen Hd Hne Hs Hgood Hfew Hre Hl5 Hl8 Hck.
  destruct (dmg_counts m rm rm' (io_vsd z) s Hwf Hf Hfull H255 Hsz Hgen Hd) as (Ec & Ef & Hwfd & Hszd).
  destruct (gen_counts m rm rm' (io_vsd z) s Hwf Hf Hfull H255 Hsz Hgen Hd) as (_ & _ & Hwf' & Hds & _).
  destruct (combrec_finds kmem_alloc abd_alloc zio_buf_alloc dg linear zio_checksum_error Hkm Habd Hbuf m rm rm' (io_vsd z) s
    Hwf Hf Hfull H255 Hsz Hgen Hd (Z.of_nat (length (all_errs (io_vsd z)))) (Z.of_nat (length (data_errs (io_vsd z)))) tstore0 z)
    as (z' & code & Hr & Hsame & Hcode & w & Hw); try done.
  - apply touched_refl.
  - split; [done|]. eapply Forall_impl; [exact Hgood|]. intros c [? ?]. by rewrite <- Ec in *.
  - by rewrite Ef.
  - rewrite <- length_zero_iff_nil. lia.
  - destruct (found_map kmem_alloc abd_alloc dg linear zio_checksum_error zio_buf_alloc m (io_vsd z) w code (io_vsd z') Hkm Habd Hbuf Hwfd ltac:(lia) ltac:(lia) Hszd Hw)
      as (rm2 & _ & _ & _ & Habd' & Hck' & Hlen & _).
    exists z', code, (mjoin (datas (io_vsd z'))). split_and!; try done; try lia. intros Hex. apply join_inj; [|by apply Hex].
    rewrite <- Hds. pose proof (damaged_lengths m rm' s (io_vsd z) Hwf' Hd) as Hl2. clear -Hlen Hl2.
    eapply Forall2_trans; [|exact Hlen|exact Hl2]. cbn. congruence.
Qed.


(** ** An example *)

Definition demo_alloc (n : Z) : list Z := replicate (Z.to_nat n) 85.
Definition demo_checksum (d : list Z) : Z * bool := if bool_decide (d = mjoin (datas demo_map)) then (0, false) else (ECKSUM, false).
Definition demo_zio (rm : raidz_map) : zio := Zio ZIO_TYPE_READ 0 0 0 7 0 rm false (replicate 8 0) [].

Lemma demo_alloc_ok n : bytes (demo_alloc n) /\ length (demo_alloc n) = Z.to_nat n.
Proof. split; [apply Forall_replicate; lia|apply length_replicate]. Qed.
Lemma demo_exact d : fst (demo_checksum d) = 0 -> d = mjoin (datas demo_map).
Proof. unfold demo_checksum. case_bool_decide; [done|]. discriminate. Qed.

Lemma demo_full : first_full 2 demo_map.
Proof. intros rc Hrc. by injection Hrc as <-. Qed.
Lemma demo_lost_facts : raidz_wf 2 demo_lost /\ raidz_sized demo_lost.
Proof.
  destruct (dmg_counts 2 demo_map demo_parity demo_lost [1; 3]%nat demo_map_wf ltac:(cbn; lia) demo_full ltac:(cbn; lia) demo_sized demo_generated demo_damaged)
    as (_ & _ & Hwf & Hsz). done.
Qed.

Lemma combrec_recovers_witness :
  exists z' code, vdev_raidz_combrec demo_alloc demo_alloc demo_alloc false false demo_checksum (replicate 5 9) 1 1 (demo_zio demo_lost) = Ret (z', code) /\
    0 < code < 8 /\ datas (io_vsd z') = datas demo_map.
Proof.
  destruct (combrec_recovers demo_alloc demo_alloc demo_alloc false false demo_checksum (replicate 5 9) 2 demo_map demo_parity [1; 3]%nat (demo_zio demo_lost))
    as (z' & code & d & Hr & Hc & _ & _ & _ & Hd).
  - apply demo_alloc_ok.
  - apply demo_alloc_ok.
  - apply demo_alloc_ok.
  - apply demo_map_wf.
  - cbn. lia.
  - apply demo_full.
  - cbn. lia.
  - apply demo_sized.
  - apply demo_generated.
  - apply demo_damaged.
  - discriminate.
  - repeat constructor.
  - repeat constructor; cbn; lia.
  - vm_compute. lia.
  - left. vm_compute. discriminate.
  - reflexivity.
  - reflexivity.
  - unfold demo_checksum. by rewrite bool_decide_true.
  - exists z', code. split; [exact Hr|]. split; [exact Hc|]. apply Hd. apply demo_exact.
Defined.

