(* ===== verification/RaidzRead.v ===== *)
(** * RAID-Z: reads

    What [vdev_raidz_io_done] makes of the columns of a read: the data is
    valid at the end, or all columns not read yet are read; and what it writes
    back to damaged children. *)

From S2P Require Import Prelude Raidz RaidzParity RaidzMatrix RaidzSolve RaidzInvert RaidzRecover RaidzGeneral RaidzRuns RaidzReconstruct.
From S2P Require Import RaidzIo RaidzEnum RaidzCombrec RaidzSearch.

(** ** Counting the errors *)

Definition count (p : nat -> bool) (k : nat) : nat := length (filter (fun c => p c = true) (seq 0 k)).

Lemma count_S p k : count p (S k) = (count p k + if p k then 1 else 0)%nat.
Proof. unfold count. rewrite filter_seq_S. by destruct (p k). Qed.

Lemma count_le p q k : (forall c, (c < k)%nat -> p c = true -> q c = true) -> (count p k <= count q k)%nat.
Proof.
  induction k as [|k IH]; intros H; [done|]. rewrite !count_S. specialize (IH ltac:(auto)). specialize (H k ltac:(lia)). destruct (p k), (q k); try lia; by specialize (H eq_refl).
Qed.

Lemma count_split p q k : count p k = (count (fun c => p c && q c) k + count (fun c => p c && negb (q c)) k)%nat.
Proof. induction k as [|k IH]; [done|]. rewrite !count_S, IH. destruct (p k), (q k); cbn; lia. Qed.

Lemma count_zero p k : count p k = 0%nat -> forall c, (c < k)%nat -> p c = false.
Proof.
  intros H c Hc. destruct (p c) eqn:E; [|done]. unfold count in H. apply length_zero_iff_nil in H.
  assert (c ∈ filter (fun c => p c = true) (seq 0 k)) as Hin; [|rewrite H in Hin; by apply elem_of_nil in Hin].
  apply list_elem_of_filter. rewrite elem_of_seq. split; [done|lia].
Qed.


Lemma lcount_none p k : (forall c, (c < k)%nat -> p c = false) -> count p k = 0%nat.
Proof. induction k as [|k IH]; intros H; [done|]. rewrite count_S, IH, H by auto. done. Qed.

Lemma count_high f d p : count (fun c => p c && negb (c <? f)%nat) (f + d) = length (filter (fun c => p c = true) (seq f d)).
Proof.
  induction d as [|d IH].
  - rewrite Nat.add_0_r. apply lcount_none. intros c Hc. rewrite (proj2 (Nat.ltb_lt _ _) Hc). apply andb_false_r.
  - rewrite Nat.add_succ_r, count_S, IH, seq_S, filter_app, length_app, filter_cons, (proj2 (Nat.ltb_ge (f + d) f)), andb_true_r by lia.
    by destruct (p (f + d)%nat).
Qed.

Lemma count_low f d p : count (fun c => p c && (c <? f)%nat) (f + d) = count p f.
Proof.
  induction d as [|d IH].
  - rewrite Nat.add_0_r. apply Nat.le_antisymm; apply count_le; intros c Hc; rewrite (proj2 (Nat.ltb_lt _ _) Hc), andb_true_r; done.
  - rewrite Nat.add_succ_r, count_S, IH, (proj2 (Nat.ltb_ge (f + d) f)), andb_false_r by lia. lia.
Qed.

Section tally.
Context (rm : raidz_map).
Notation cols := (rm_cols rm).
Notation fdc := (rm_firstdatacol rm).

Definition skipped (c : nat) : bool := match rm_col rm !! c with Some rc => rc_skipped rc | None => false end.
Definition tried (c : nat) : bool := match rm_col rm !! c with Some rc => rc_tried rc | None => false end.
Definition parity (c : nat) : bool := (c <? fdc)%nat.

(** The numbers the loop of [vdev_raidz_io_done] arrives at. *)
Definition tally_of (k : nat) : tally := Tally
  (Z.of_nat (count (fun c => errs rm c && negb (skipped c)) k))
  (Z.of_nat (count (fun c => errs rm c && parity c) k))
  (Z.of_nat (count (fun c => negb (errs rm c) && parity c && negb (tried c)) k))
  (Z.of_nat (count (fun c => errs rm c && negb (parity c)) k))
  (Z.of_nat (count (errs rm) k)).

Context (Hle : (cols <= length (rm_col rm))%nat).
Context (Hck : forall c rc, (c < cols)%nat -> rm_col rm !! c = Some rc -> rc_error rc <> ECKSUM).

Lemma count_errors_ok : count_errors rm = Ret (tally_of cols).
Proof using All.
  unfold count_errors.
  match goal with |- for_loop ?a 0 ?body ?st0 = _ =>
    destruct (for_loop_inv (fun c t => t = tally_of c) a 0 body st0) as (t & -> & ->); [|done|done] end.
  intros c t Hc ->. destruct (lookup_lt_is_Some_2 (rm_col rm) c ltac:(lia)) as [rc Hrc]. rewrite (get_col_ok _ _ _ Hrc). cbn [mbind result_bind].
  unfold tally_of. rewrite !count_S. cbn [unexpected_errors parity_errors parity_untried data_errors total_errors].
  assert (errs rm c = negb (rc_error rc =? 0)) as He by (unfold errs; by rewrite Hrc).
  assert (skipped c = rc_skipped rc /\ tried c = rc_tried rc) as [Hsk Htr] by (unfold skipped, tried; by rewrite Hrc).
  rewrite He, Hsk, Htr. unfold parity. destruct (rc_error rc =? 0) eqn:E; cbn [negb andb].
  - destruct (c <? fdc)%nat, (rc_tried rc); cbn [negb andb]; (eexists; split; [done|]); f_equal; lia.
  - apply Z.eqb_neq in E. specialize (Hck c rc ltac:(lia) Hrc). rewrite (proj2 (Z.eqb_neq _ _) Hck). cbn [negb verify mbind result_bind].
    eexists. split; [done|]. destruct (c <? fdc)%nat, (rc_skipped rc); cbn [negb]; f_equal; lia.
Qed.

Lemma tally_facts : (fdc <= cols)%nat ->
  total_errors (tally_of cols) = Z.of_nat (length (all_errs rm)) /\
  data_errors (tally_of cols) = Z.of_nat (length (data_errs rm)) /\
  parity_errors (tally_of cols) = Z.of_nat (count (errs rm) fdc) /\
  parity_untried (tally_of cols) = Z.of_nat (count (fun c => negb (errs rm c) && negb (tried c)) fdc) /\
  (count (errs rm) fdc + length (data_errs rm) = length (all_errs rm))%nat.
Proof using.
  clear. intros Hfc. cbn [tally_of total_errors data_errors parity_errors parity_untried]. unfold parity.
  pose proof (count_high fdc (cols - fdc) (errs rm)) as Hh. pose proof (count_low fdc (cols - fdc) (errs rm)) as Hl.
  pose proof (count_low fdc (cols - fdc) (fun c => negb (errs rm c) && negb (tried c))) as Hu.
  replace (fdc + (cols - fdc))%nat with cols in Hh, Hl, Hu by lia.
  assert (count (fun c => negb (errs rm c) && (c <? fdc)%nat && negb (tried c)) cols =
    count (fun c => negb (errs rm c) && negb (tried c)) fdc) as ->.
  { rewrite <- Hu. apply Nat.le_antisymm; apply count_le; intros c _; destruct (errs rm c), (tried c), (c <? fdc)%nat; done. }
  split_and!; try done; [by rewrite Hh|by rewrite Hl|].
  unfold all_errs. fold (count (errs rm) cols). rewrite (count_split (errs rm) (fun c => c <? fdc)%nat cols). cbn beta. rewrite Hl, Hh. done.
Qed.
End tally.

Lemma bad_data_ok m rm : raidz_wf m rm -> (length (data_errs rm) <= 3)%nat -> bad_data_columns rm = Ret (data_errs rm).
Proof.
  intros Hwf H3. pose proof (wf_cols m rm Hwf) as Hwc. unfold bad_data_columns.
  match goal with |- for_loop ?a ?b ?body ?st0 = _ =>
    destruct (for_loop_inv (fun c l => l = filter (fun c => errs rm c = true) (seq b (c - b))) a b body st0) as (l & -> & ->) end.
  - intros c l Hc ->. destruct (wf_col m rm c Hwf ltac:(lia)) as [rc Hrc]. rewrite (get_col_ok _ _ _ Hrc). cbn [mbind result_bind].
    replace (S c - rm_firstdatacol rm)%nat with (S (c - rm_firstdatacol rm)) by lia. rewrite seq_S, filter_app, filter_cons.
    replace (rm_firstdatacol rm + (c - rm_firstdatacol rm))%nat with c by lia.
    assert (errs rm c = negb (rc_error rc =? 0)) as He by (unfold errs; by rewrite Hrc). rewrite He.
    destruct (rc_error rc =? 0); cbn [negb]; [exists (filter (fun c => errs rm c = true) (seq (rm_firstdatacol rm) (c - rm_firstdatacol rm))); split; [done|by rewrite app_nil_r]|].
    rewrite (proj2 (Nat.ltb_lt _ _)); [cbn [verify mbind result_bind]; by eexists|].
    unfold data_errs in H3. unfold VDEV_RAIDZ_MAXPARITY. eapply Nat.lt_le_trans; [|exact H3].
    replace (rm_cols rm - rm_firstdatacol rm)%nat with ((c - rm_firstdatacol rm) + S (rm_cols rm - S c))%nat by lia.
    rewrite seq_app, filter_app, length_app. cbn [seq]. rewrite filter_cons_True; [cbn; lia|].
    replace (rm_firstdatacol rm + (c - rm_firstdatacol rm))%nat with c by lia. done.
  - by rewrite Nat.sub_diag.
  - f_equal. unfold data_errs. f_equal. f_equal. lia.
Qed.

(** ** Verifying parity *)

(** The error of a parity column after the check of its bytes. *)
Definition parity_error (m : nat) (ds : list (list Z)) (c : nat) (rc : raidz_col) : Z :=
  if was_read rc && negb (bool_decide (rc_abd rc = par (mulp c) (8 * m) ds)) then ECKSUM else rc_error rc.

(** [rm'] is [rm] with the parity of its data; columns that were read and did
    not hold it have an error. *)
Record reparity (m : nat) (rm rm' : raidz_map) : Prop := {
  rp_frame : set_cols rm (rm_col rm') = rm';
  rp_data c : (rm_firstdatacol rm <= c)%nat -> rm_col rm' !! c = rm_col rm !! c;
  rp_parity c rc : (c < rm_firstdatacol rm)%nat -> rm_col rm !! c = Some rc ->
    rm_col rm' !! c = Some (col_error (parity_error m (datas rm) c rc) (col_abd (par (mulp c) (8 * m) (datas rm)) rc));
}.

Lemma reparity_counts m rm rm' : reparity m rm rm' ->
  rm_cols rm' = rm_cols rm /\ rm_firstdatacol rm' = rm_firstdatacol rm /\ datas rm' = datas rm.
Proof.
  intros Hr. assert (rm_cols rm' = rm_cols rm /\ rm_firstdatacol rm' = rm_firstdatacol rm) as [Ec Ef] by (by rewrite <- (rp_frame _ _ _ Hr)).
  split_and!; [done..|]. apply datas_ext; [done..|]. intros c Hc. by rewrite (rp_data _ _ _ Hr) by lia.
Qed.

Lemma reparity_wf m rm rm' : raidz_wf m rm -> reparity m rm rm' -> raidz_wf m rm'.
Proof.
  intros Hwf Hr. destruct (reparity_counts _ _ _ Hr) as (Ec & Ef & _). pose proof (wf_cols m rm Hwf) as Hwc.
  destruct (datas_wf m rm Hwf) as (Hdl & Hdb & _). split; rewrite Ef, ?Ec.
  - split; [lia|]. apply Nat.nlt_ge. intros Hlt. destruct (wf_col m rm (rm_cols rm - 1) Hwf ltac:(lia)) as [rc Hrc].
    assert (rm_col rm' !! (rm_cols rm - 1)%nat <> None) as H; [|apply H, lookup_ge_None_2; lia].
    rewrite (rp_data _ _ _ Hr), Hrc by lia. done.
  - intros c rc' Hc Hrc'. destruct (wf_col m rm c Hwf ltac:(lia)) as [rc Hrc]. rewrite (rp_parity _ _ _ Hr c rc Hc Hrc) in Hrc'. injection Hrc' as <-.
    destruct (wf_parity m rm Hwf c rc Hc Hrc) as (_ & Hs & _). unfold parity_ok. cbn [rc_abd rc_size col_abd col_error col_state].
    split_and!; [|done|by apply par_length]. apply par_bytes; [|done]. intros b Hb. by apply mulp_byte.
  - intros c rc' Hc Hrc'. rewrite (rp_data _ _ _ Hr) in Hrc' by lia. by apply (wf_data m rm Hwf c).
Qed.

Lemma reports_ok m rm rc o z : raidz_wf m rm -> (exists c, (c < rm_cols rm)%nat /\ rm_col rm !! c = Some rc) ->
  exists z', raidz_checksum_error rc o z = Ret z' /\ same_io z z' /\ io_vsd z' = io_vsd z.
Proof.
  intros Hwf (c & Hc & Hrc). unfold raidz_checksum_error. destruct (flag z ZIO_FLAG_SPECULATIVE); [by exists z; split; [|split; [apply same_refl|]]|].
  assert (exists buf, col_data rc = Ret buf) as [buf ->].
  { unfold col_data. exists (take (Z.to_nat (rc_size rc)) (rc_abd rc)). rewrite view_ok; [by rewrite drop_0|].
    destruct (decide (c < rm_firstdatacol rm)%nat).
    - destruct (wf_parity m rm Hwf c rc ltac:(done) Hrc) as (_ & Hs8 & Hl8). lia.
    - destruct (wf_data m rm Hwf c rc ltac:(lia) Hrc) as (_ & k & _ & Hs8 & Hl8). lia. }
  cbn [mbind result_bind]. eexists. split; [done|]. split; [|done]. split; try done. eexists. split; [done|]. by apply Forall_singleton.
Qed.

Lemma mapM_ok {A B} (f : A -> result B) (g : A -> B) l : (forall x, x ∈ l -> f x = Ret (g x)) -> mapM f l = Ret (g <$> l).
Proof.
  induction l as [|x l IH]; intros H; [done|]. cbn [mapM]. rewrite H by apply list_elem_of_here. cbn [mbind result_bind].
  rewrite IH; [done|]. intros y Hy. apply H. by apply list_elem_of_further.
Qed.

Section verify.
Context (zio_buf_alloc : Z -> list Z) (Hbuf : forall z, length (zio_buf_alloc z) = Z.to_nat z).
Context (m : nat) (z : zio).
Notation rm := (io_vsd z).
Notation fdc := (rm_firstdatacol rm).
Context (Hwf : raidz_wf m rm) (Hf : (1 <= fdc <= 3)%nat) (Hfull : first_full m rm).

Definition read_parity (c : nat) : bool := negb (errs rm c) && tried rm c.

(** What is saved of the parity columns that were read. *)
Definition saved_parity (c : nat) : option (list Z) :=
  match rm_col rm !! c with Some rc => if was_read rc then Some (rc_abd rc) else None | None => None end.

Lemma saved_ok c : c ∈ seq 0 fdc ->
  (rc ← get_col rm c; if was_read rc then buf ← abd_copy (zio_buf_alloc (rc_size rc)) (rc_abd rc) (Z.to_nat (rc_size rc)); Ret (Some buf) else Ret None)
    = Ret (saved_parity c).
Proof using All.
  intros Hc%elem_of_seq. pose proof (wf_cols m rm Hwf). destruct (wf_col m rm c Hwf ltac:(lia)) as [rc Hrc]. unfold saved_parity.
  rewrite (get_col_ok _ _ _ Hrc), Hrc. cbn [mbind result_bind]. destruct (was_read rc); [|done].
  destruct (wf_parity m rm Hwf c rc ltac:(lia) Hrc) as (_ & Hs8 & Hl8). rewrite abd_copy_ok by (rewrite ?Hbuf; lia). cbn [mbind result_bind].
  rewrite take_ge, drop_ge, app_nil_r by (rewrite ?Hbuf; lia). done.
Qed.

Lemma parity_verify_ok :
  io_checksum z <> ZIO_CHECKSUM_NOPARITY ->
  exists z' n, raidz_parity_verify zio_buf_alloc z = Ret (z', n) /\ same_io z z' /\
    0 <= n <= Z.of_nat (count read_parity fdc) /\ reparity m rm (io_vsd z').
Proof using All.
  intros Hnp. unfold raidz_parity_verify. rewrite (proj2 (Z.eqb_neq _ _) Hnp). rewrite (mapM_ok _ saved_parity) by apply saved_ok. cbn [mbind result_bind].
  destruct (generate_touched m rm Hwf Hf Hfull) as (rmg & -> & Ht & Hds & Hpar). cbn [mbind result_bind].
  destruct (touched_counts _ _ _ Ht) as (Ec & Ef & El). pose proof (wf_cols m rm Hwf) as Hwc. rewrite Ef. pose proof (touched_wf m _ _ _ Hwf Ht) as Hwfg.
  assert (forall c rc, (c < fdc)%nat -> rm_col rm !! c = Some rc -> rm_col rmg !! c = Some (col_abd (par (mulp c) (8 * m) (datas rm)) rc)) as Hg.
  { intros c rc Hc Hrc. destruct (touched_any _ _ _ c Ht) as (b & E & _). rewrite Hrc in E. cbn in E.
    pose proof (Hpar c Hc _ E) as Hp. cbn in Hp. rewrite Hds in Hp. by rewrite E, Hp. }
  match goal with |- context [for_loop ?a 0 ?body ?st0] =>
    destruct (for_loop_inv (fun i st => same_io z (fst st) /\ 0 <= snd st <= Z.of_nat (count read_parity i) /\
      set_cols rmg (rm_col (io_vsd (fst st))) = io_vsd (fst st) /\
      (forall c, (i <= c)%nat -> rm_col (io_vsd (fst st)) !! c = rm_col rmg !! c) /\
      (forall c rc, (c < i)%nat -> rm_col rm !! c = Some rc -> rm_col (io_vsd (fst st)) !! c =
         Some (col_error (parity_error m (datas rm) c rc) (col_abd (par (mulp c) (8 * m) (datas rm)) rc))))
      a 0 body st0) as ([z' n] & -> & Hs & Hn & Hfr & Hge & Hlt) end.
  - intros c [z1 n1] Hc (Hs1 & Hn1 & Hfr1 & Hge1 & Hlt1). cbn [fst snd] in *. destruct (wf_col m rm c Hwf ltac:(lia)) as [rc Hrc].
    pose proof (Hg c rc ltac:(lia) Hrc) as Hrg. rewrite (get_col_ok _ c _ (eq_trans (Hge1 c ltac:(lia)) Hrg)). cbn [mbind result_bind].
    change (was_read (col_abd (par (mulp c) (8 * m) (datas rm)) rc)) with (was_read rc).
    assert (read_parity c = was_read rc) as Hrp.
    { unfold read_parity, errs, tried, was_read. rewrite Hrc. destruct (rc_error rc =? 0), (rc_tried rc); done. }
    assert (forall c', (c < c')%nat -> rm_col (io_vsd z1) !! c' = rm_col rmg !! c') as Hge2 by (intros c' Hc'; apply Hge1; lia).
    destruct (was_read rc) eqn:Ew.
    2:{ eexists. split; [done|]. cbn [fst snd]. rewrite count_S, Hrp. split_and!; try done; try lia. intros c' rc' Hc' Hrc'.
        destruct (decide (c' = c)) as [-> | Hne]; [|apply Hlt1; [lia|done]]. replace rc' with rc by congruence. unfold parity_error.
        rewrite Hge1, Hrg, Ew by lia. by destruct rc. }
    assert (((saved_parity <$> seq 0 fdc) : list (option (list Z))) !! c = Some (Some (rc_abd rc))) as Hsv.
    { rewrite list_lookup_fmap, lookup_seq_lt by lia. cbn. unfold saved_parity. by rewrite Hrc, Ew. }
    rewrite (idx_ok _ _ _ Hsv). cbn [mbind result_bind].
    destruct (wf_parity m rm Hwf c rc ltac:(lia) Hrc) as (_ & Hs8 & Hl8). unfold col_data. cbn [rc_abd rc_size col_abd].
    destruct (datas_wf m rm Hwf) as (Hdl & _ & _). rewrite !view_ok by (rewrite ?par_length; lia || done). cbn [mbind result_bind].
    rewrite !drop_0, !take_ge by (rewrite ?par_length; lia || done). case_bool_decide as Heq.
    + eexists. split; [done|]. cbn [fst snd]. rewrite count_S, Hrp. split_and!; try done; try lia. intros c' rc' Hc' Hrc'.
      destruct (decide (c' = c)) as [-> | Hne]; [|apply Hlt1; [lia|done]]. replace rc' with rc by congruence. unfold parity_error.
      rewrite Hge1, Hrg, bool_decide_true, andb_false_r by (done || lia). by destruct rc.
    + destruct (reports_ok m rmg (col_abd (par (mulp c) (8 * m) (datas rm)) rc) (rc_abd rc) z1 Hwfg) as (z2 & -> & Hs2 & Hv2).
      { exists c. split; [lia|done]. }
      cbn [mbind result_bind]. eexists. split; [done|]. cbn [fst snd io_vsd set_vsd]. rewrite Hv2, count_S, Hrp. split_and!; try lia.
      * eapply same_trans; [exact Hs1|]. eapply same_trans; [exact Hs2|apply same_vsd].
      * rewrite <- Hfr1. done.
      * intros c' Hc'. rewrite alter_col_lookup, decide_False by lia. apply Hge1. lia.
      * intros c' rc' Hc' Hrc'. rewrite alter_col_lookup. destruct (decide (c' = c)) as [-> | Hne]; [|apply Hlt1; [lia|done]].
        replace rc' with rc by congruence. unfold parity_error.
        by rewrite Hge1, Hrg, Ew, bool_decide_false by (done || lia).
  - cbn [fst snd]. split_and!; try done; try lia; [apply same_vsd|by destruct rmg].
  - exists z', n. cbn [fst snd] in *. split; [done|]. split; [done|]. split; [done|]. split.
    + rewrite <- Hfr, <- (to_frame _ _ _ Ht). done.
    + intros c Hc. rewrite Hge by lia. apply (to_out _ _ _ Ht). rewrite elem_of_seq. lia.
    + intros c rc Hc Hrc. apply Hlt; [lia|done].
Qed.
End verify.

(** ** What is issued *)

(** [z] with more in its log. *)
Definition logged (l : list effect) (z : zio) : zio :=
  Zio (io_type z) (io_flags z) (io_priority z) (io_txg z) (io_checksum z) (io_error z) (io_vsd z)
    (rm_ecksuminjected z) (raidz_corrected z) (io_log z ++ l).

Lemma logged_nil z : logged [] z = z.
Proof. unfold logged. rewrite app_nil_r. by destruct z. Qed.
Lemma emit_logged e l z : emit e (logged l z) = logged (l ++ [e]) z.
Proof. unfold emit, logged. cbn. by rewrite <- app_assoc. Qed.

(** An effect for each of the columns [cs]. *)
Definition per_col (f : nat -> raidz_col -> effect) (rm : raidz_map) (cs : list nat) : list effect :=
  omap (fun c => f c <$> rm_col rm !! c) cs.

Definition repair_write (u : Z) (_ : nat) (rc : raidz_col) : effect :=
  ChildIo (rc_devidx rc) (rc_offset rc) (Some (rc_abd rc)) (rc_size rc) ZIO_TYPE_WRITE ZIO_PRIORITY_ASYNC_WRITE
    (Z.lor ZIO_FLAG_IO_REPAIR (if u =? 0 then 0 else ZIO_FLAG_SELF_HEAL)) None.

Definition repairs_of (writeable : bool) (u : Z) (z : zio) : list effect :=
  if (io_error z =? 0) && writeable && (negb (u =? 0) || flag z ZIO_FLAG_RESILVER)
  then per_col (repair_write u) (io_vsd z) (all_errs (io_vsd z)) else [].

Lemma per_col_S f rm (P : nat -> Prop) `{!forall c, Decision (P c)} c rc :
  rm_col rm !! c = Some rc ->
  per_col f rm (filter P (seq 0 (S c))) = per_col f rm (filter P (seq 0 c)) ++ if decide (P c) then [f c rc] else [].
Proof.
  intros Hrc. unfold per_col. rewrite seq_S, filter_app, omap_app, filter_cons, filter_nil. f_equal. cbn [Nat.add].
  case_decide; [|done]. cbn. by rewrite Hrc.
Qed.

Lemma repair_ok m writeable u z : raidz_wf m (io_vsd z) ->
  repair_children writeable u z = Ret (logged (ChecksumVerified :: repairs_of writeable u z) z).
Proof.
  intros Hwf. pose proof (wf_cols m _ Hwf) as Hwc. unfold repair_children, repairs_of. cbv zeta. cbn [io_error emit io_vsd].
  change (flag (emit ChecksumVerified z) ZIO_FLAG_RESILVER) with (flag z ZIO_FLAG_RESILVER).
  destruct (_ && _ && _); [|done].
  match goal with |- for_loop ?a 0 ?body ?st0 = _ =>
    destruct (for_loop_inv (fun i z' => z' = logged (ChecksumVerified :: per_col (repair_write u) (io_vsd z)
      (filter (fun c => errs (io_vsd z) c = true) (seq 0 i))) z) a 0 body st0) as (z' & -> & ->); [|done|done] end.
  intros c z' Hc ->. destruct (wf_col m _ c Hwf ltac:(lia)) as [rc Hrc]. cbn [io_vsd logged]. rewrite (get_col_ok _ _ _ Hrc). cbn [mbind result_bind].
  rewrite (per_col_S _ _ _ c rc Hrc). assert (errs (io_vsd z) c = negb (rc_error rc =? 0)) as -> by (unfold errs; by rewrite Hrc).
  destruct (rc_error rc =? 0); cbn [negb]; eexists; (split; [done|]); rewrite ?emit_logged; cbn; by rewrite ?app_nil_r.
Qed.

(** The columns not read yet. *)
Definition untried (rm : raidz_map) : list nat := filter (fun c => tried rm c = false) (seq 0 (rm_cols rm)).

Definition rest_reads (z : zio) (cs : list nat) : list effect :=
  match cs with [] => [] | _ :: _ => Redone :: per_col (column_io z) (io_vsd z) cs end.

Lemma column_io_logged l z : column_io (logged l z) = column_io z.
Proof. done. Qed.

Lemma missing_rest_ok m z : raidz_wf m (io_vsd z) ->
  read_rest z = Ret (logged (rest_reads z (untried (io_vsd z))) z, bool_decide (untried (io_vsd z) <> [])).
Proof.
  intros Hwf. pose proof (wf_cols m _ Hwf) as Hwc. unfold read_rest, untried.
  match goal with |- for_loop ?a 0 ?body ?st0 = _ =>
    destruct (for_loop_inv (fun i st => let cs := filter (fun c => tried (io_vsd z) c = false) (seq 0 i) in
      st = (logged (rest_reads z cs) z, bool_decide (cs <> []))) a 0 body st0) as (z' & -> & ->); [| |done] end.
  - intros c z' Hc ->. cbv zeta. destruct (wf_col m _ c Hwf ltac:(lia)) as [rc Hrc]. cbn [io_vsd logged]. rewrite (get_col_ok _ _ _ Hrc). cbn [mbind result_bind].
    set (cs := filter _ (seq 0 c)). set (cs' := filter _ (seq 0 (S c))).
    assert (cs' = cs ++ if rc_tried rc then [] else [c]) as Hcs'.
    { unfold cs', cs. rewrite seq_S, filter_app, filter_cons, filter_nil. f_equal. cbn [Nat.add].
      assert (tried (io_vsd z) c = rc_tried rc) as -> by (unfold tried; by rewrite Hrc). by destruct (rc_tried rc). }
    destruct (rc_tried rc); [eexists; split; [done|]; by rewrite Hcs', app_nil_r|]. eexists. split; [done|].
    rewrite Hcs'. rewrite column_io_logged. destruct cs as [|x cs]; cbn [app].
    + rewrite bool_decide_false by (intros H; by apply H). rewrite bool_decide_true by done. rewrite !emit_logged. unfold rest_reads, per_col. cbn. by rewrite Hrc.
    + rewrite !bool_decide_true by done. rewrite emit_logged. unfold rest_reads. f_equal. f_equal. unfold per_col.
      change (x :: cs ++ [c]) with ((x :: cs) ++ [c]). rewrite omap_app. cbn [app omap list_omap]. by rewrite Hrc.
  - cbn. by rewrite logged_nil.
Qed.

(** ** The errors known *)

Lemma touched_full m rm cs rm' : first_full m rm -> touched rm cs rm' -> first_full m rm'.
Proof.
  intros Hfull Ht rc' Hrc'. destruct (touched_counts _ _ _ Ht) as (_ & Ef & _). rewrite Ef in Hrc'.
  destruct (touched_inv _ _ _ _ _ Ht Hrc') as (rc & b & Hrc & -> & _). exact (Hfull rc Hrc).
Qed.

Lemma touched_state rm cs rm' : touched rm cs rm' ->
  (forall c, errs rm' c = errs rm c) /\ (forall c, tried rm' c = tried rm c) /\ (forall c, skipped rm' c = skipped rm c) /\
  all_errs rm' = all_errs rm /\ data_errs rm' = data_errs rm /\ untried rm' = untried rm.
Proof.
  intros Ht. destruct (touched_counts _ _ _ Ht) as (Ec & Ef & _).
  assert (forall c, errs rm' c = errs rm c) as He.
  { intros c. unfold errs. destruct (touched_any _ _ _ c Ht) as (b & -> & _). by destruct (rm_col rm !! c). }
  assert (forall c, tried rm' c = tried rm c) as Htr.
  { intros c. unfold tried. destruct (touched_any _ _ _ c Ht) as (b & -> & _). by destruct (rm_col rm !! c). }
  split_and!; try done.
  - intros c. unfold skipped. destruct (touched_any _ _ _ c Ht) as (b & -> & _). by destruct (rm_col rm !! c).
  - unfold all_errs. rewrite Ec. apply list_filter_iff. intros c. by rewrite He.
  - unfold data_errs. rewrite Ec, Ef. apply list_filter_iff. intros c. by rewrite He.
  - unfold untried. rewrite Ec. apply list_filter_iff. intros c. by rewrite Htr.
Qed.

Lemma parity_room z k : (count (errs (io_vsd z)) k + count (read_parity z) k <= k)%nat.
Proof.
  induction k as [|k IH]; [done|]. rewrite !count_S. unfold read_parity at 2. destruct (errs (io_vsd z) k), (tried (io_vsd z) k); cbn; lia.
Qed.

Lemma count_ext p q k : (forall c, (c < k)%nat -> p c = q c) -> count p k = count q k.
Proof. intros H. apply Nat.le_antisymm; apply count_le; intros c Hc; by rewrite (H c Hc). Qed.

Section known.
Context (kmem_alloc abd_alloc zio_buf_alloc : Z -> list Z) (dg linear : bool) (zio_checksum_error : list Z -> Z * bool).
Context (Hkm : forall z, length (kmem_alloc z) = Z.to_nat z).
Context (Habd : forall z, bytes (abd_alloc z) /\ length (abd_alloc z) = Z.to_nat z).
Context (Hbuf : forall z, length (zio_buf_alloc z) = Z.to_nat z).
Context (m : nat) (z : zio).
Notation rmd := (io_vsd z).
Notation fdc := (rm_firstdatacol rmd).
Notation cols := (rm_cols rmd).
Notation checks := (checks zio_checksum_error).
Notation reconstruct := (vdev_raidz_reconstruct kmem_alloc abd_alloc dg linear).
Context (Hwf : raidz_wf m rmd) (Hf : (1 <= fdc <= 3)%nat) (Hfull : first_full m rmd) (H255 : (cols <= 255)%nat) (Hsz : raidz_sized rmd).
Context (Hcor : length (raidz_corrected z) = 8%nat).

(** The parity columns not read: none, or all that could be. *)
Definition parity_together : Prop :=
  (forall c, (c < fdc)%nat -> errs rmd c = false -> tried rmd c = true) \/ (forall c, (c < fdc)%nat -> errs rmd c = false -> tried rmd c = false).

Notation t := (tally_of rmd cols).

(** Parity is verified, or left alone. *)
Lemma verify_parity_ok more z1 :
  same_io z z1 -> touched rmd (data_errs rmd) (io_vsd z1) ->
  exists z2 u, verify_parity zio_buf_alloc more t z1 = Ret (z2, u) /\ same_io z z2 /\
    unexpected_errors t <= u /\ (io_vsd z2 = io_vsd z1 \/ reparity m (io_vsd z1) (io_vsd z2)) /\
    (io_checksum z <> ZIO_CHECKSUM_NOPARITY -> more || flag z ZIO_FLAG_RESILVER = true -> reparity m (io_vsd z1) (io_vsd z2)).
Proof using All.
  intros Hs Ht. unfold verify_parity. assert (flag z1 ZIO_FLAG_RESILVER = flag z ZIO_FLAG_RESILVER) as Hfl by (unfold flag; by rewrite (si_flags _ _ Hs)).
  rewrite Hfl. destruct (more || flag z ZIO_FLAG_RESILVER) eqn:Em.
  2:{ exists z1, (unexpected_errors t). split_and!; try done; [by left]. }
  destruct (touched_counts _ _ _ Ht) as (Ec & Ef & _). destruct (touched_state _ _ _ Ht) as (He & Htr & _).
  destruct (tally_facts rmd) as (_ & _ & Hpe & _); [pose proof (wf_cols m _ Hwf); lia|].
  destruct (Z.eq_dec (io_checksum z1) ZIO_CHECKSUM_NOPARITY) as [Hnp|Hnp].
  - assert (raidz_parity_verify zio_buf_alloc z1 = Ret (z1, 0)) as -> by (unfold raidz_parity_verify; by rewrite Hnp).
    cbn [mbind result_bind]. rewrite (proj2 (Z.leb_le _ _)) by (rewrite Hpe; pose proof (parity_room z fdc); lia). cbn [verify mbind result_bind].
    eexists _, _. split; [done|]. split_and!; try done; [lia|by left|]. rewrite (si_checksum _ _ Hs) in Hnp. done.
  - destruct (parity_verify_ok zio_buf_alloc Hbuf m z1) as (z2 & n & -> & Hs2 & Hn & Hrp); try done.
    { by eapply touched_wf. } { lia. } { by eapply touched_full. }
    cbn [mbind result_bind]. destruct (reparity_counts _ _ _ Hrp) as (_ & Ef2 & _). rewrite Ef2, Ef.
    assert (count (read_parity z1) (rm_firstdatacol (io_vsd z1)) = count (read_parity z) fdc) as Hcnt.
    { rewrite Ef. apply count_ext. intros c _. unfold read_parity. by rewrite He, Htr. }
    rewrite (proj2 (Z.leb_le _ _)) by (rewrite Hpe; pose proof (parity_room z fdc); lia). cbn [verify mbind result_bind].
    eexists _, _. split; [done|]. split_and!; try done; [by eapply same_trans|lia|by right].
Qed.

Lemma known_bad c : (c < cols)%nat -> bad_col rmd (data_errs rmd) c <-> errs rmd c = true.
Proof using All.
  intros Hc. pose proof (wf_cols m _ Hwf) as Hwc. destruct (wf_col m rmd c Hwf ltac:(lia)) as [rc Hrc]. unfold bad_col.
  assert (errs rmd c = negb (rc_error rc =? 0)) as He by (unfold errs; by rewrite Hrc). rewrite He, negb_true_iff, Z.eqb_neq. split.
  - intros [(H & _)%list_elem_of_filter|(rc' & Hrc' & ?)]; [|congruence]. by rewrite He, negb_true_iff, Z.eqb_neq in H.
  - intros H. right. by exists rc.
Qed.

(** The columns that reported an error can be reconstructed. *)
Lemma known_fits : (length (all_errs rmd) <= fdc)%nat -> data_errs rmd <> [] ->
  StronglySorted lt (data_errs rmd) /\ Forall (fun c => c < cols)%nat (data_errs rmd) /\
  (length (bads rmd (data_errs rmd) (seq 0 cols)) <= fdc)%nat /\ bads rmd (data_errs rmd) (seq fdc (cols - fdc)) <> [].
Proof using All.
  intros Hfew Hne. assert (Forall (fun c => fdc <= c < cols)%nat (data_errs rmd)) as Hin.
  { apply Forall_forall. intros c (_ & Hc%elem_of_seq)%list_elem_of_filter. lia. }
  split_and!.
  - apply sorted_filter, sorted_seq.
  - eapply Forall_impl; [exact Hin|]. cbn. lia.
  - etrans; [apply (length_filter_or (fun c => errs rmd c = true) (fun _ => False))|].
    + intros c Hc%elem_of_seq Hb%known_bad; [by left|lia].
    + fold (all_errs rmd). assert (forall l : list nat, filter (fun _ => False) l = []) as -> by (by induction l). cbn. lia.
  - destruct (data_errs rmd) as [|c l] eqn:E; [done|]. apply Forall_cons in Hin as [Hc _]. intros Hnil.
    assert (c ∈ bads rmd (c :: l) (seq fdc (cols - fdc))) as H; [|rewrite Hnil in H; by apply elem_of_nil in H].
    apply list_elem_of_filter. rewrite elem_of_seq. split; [left; apply list_elem_of_here|lia].
Qed.

Lemma known_runs : (length (all_errs rmd) <= fdc)%nat -> data_errs rmd <> [] ->
  exists rm1 code, reconstruct rmd (data_errs rmd) = Ret (rm1, code) /\ touched rmd (data_errs rmd) rm1 /\ 0 < code < 8.
Proof using All.
  intros Hfew Hne. destruct (known_fits Hfew Hne) as (Hs & Hlt & Hn & Hdt). pose proof (own_stripe m rmd Hwf Hf H255 Hsz) as Hst.
  destruct (reconstruct_ok kmem_alloc abd_alloc Hkm Habd m (datas rmd) (fun c => c < fdc)%nat rmd (data_errs rmd) Hst)
    with (default_to_general := dg) (linear := linear) as (rm1 & code & Hr & Hto & _ & Hcode & _); try done; [intros c Hc Hb; lia|].
  exists rm1, code. split_and!; try done; try lia. eapply touched_mono; [|exact Hto].
  intros c (Hb & Hc%elem_of_seq)%list_elem_of_filter. apply known_bad in Hb; [|lia]. apply list_elem_of_filter. rewrite elem_of_seq. split; [done|lia].
Qed.

(** What a failure with the errors known says. *)
Definition known_fails : Prop :=
  (data_errs rmd = [] /\ checks rmd <> 0) \/
  (data_errs rmd <> [] /\ exists rm1 code, reconstruct rmd (data_errs rmd) = Ret (rm1, code) /\ checks rm1 <> 0).

#[local] Notation known_args lem := (lem kmem_alloc abd_alloc zio_buf_alloc dg linear zio_checksum_error Hkm Habd Hbuf m rmd Hwf Hf H255 Hsz).

Lemma known_ok : parity_together ->
  exists z1 r, known_errors kmem_alloc abd_alloc zio_buf_alloc dg linear zio_checksum_error t z = Ret (z1, r) /\ same_io z z1 /\
    match r with
    | Some u => exists rm1, touched rmd (data_errs rmd) rm1 /\ checks rm1 = 0 /\ unexpected_errors t <= u /\
        (io_vsd z1 = rm1 \/ reparity m rm1 (io_vsd z1)) /\
        (io_checksum z <> ZIO_CHECKSUM_NOPARITY -> (total_errors t + parity_untried t <? Z.of_nat fdc) || flag z ZIO_FLAG_RESILVER = true ->
          reparity m rm1 (io_vsd z1))
    | None => touched rmd (data_errs rmd) (io_vsd z1) /\ (total_errors t + parity_untried t <= Z.of_nat fdc -> known_fails)
    end.
Proof using All.
  intros Htog. pose proof (wf_cols m _ Hwf) as Hwc. destruct (tally_facts rmd ltac:(lia)) as (Hte & Hde & Hpe & Hpu & Hsum). unfold known_errors.
  destruct (Z.leb_spec (total_errors t) (Z.of_nat fdc - parity_untried t)) as [Hle|Hgt]; cbn [negb].
  2:{ exists z, None. split; [done|]. split; [apply same_refl|]. split; [apply touched_refl|]. lia. }
  destruct (Z.eqb_spec (data_errors t) 0) as [H0|H0].
  - assert (data_errs rmd = []) as Hnil by (apply length_zero_iff_nil; lia).
    destruct (known_args checksum_verify_ok z Hwf) as (z1 & -> & Hs1 & Hv1). cbn [mbind result_bind].
    destruct (Z.eqb_spec (checks rmd) 0) as [Hck|Hck].
    + destruct (verify_parity_ok (parity_errors t + parity_untried t <? Z.of_nat fdc) z1 Hs1) as (z2 & u & -> & Hs2 & Hu & Hor & Hrp).
      { rewrite Hv1. apply touched_refl. }
      cbn [mbind result_bind]. exists z2, (Some u). split; [done|]. split; [done|]. exists rmd. rewrite Hv1 in Hor, Hrp. split_and!; try done; [apply touched_refl|].
      intros Hnp Hc. apply Hrp; [done|]. by replace (parity_errors t) with (total_errors t) by lia.
    + exists z1, None. split; [done|]. split; [done|]. rewrite Hv1. split; [apply touched_refl|]. intros _. by left.
  - assert (data_errs rmd <> []) as Hne by (intros E; apply H0; by rewrite Hde, E).
    assert (parity_untried t = 0) as Hu0.
    { rewrite Hpu. destruct Htog as [Hall|Hnone].
      - rewrite lcount_none; [done|]. intros c Hc. destruct (errs rmd c) eqn:E; [done|]. by rewrite (Hall c Hc E).
      - exfalso. assert (count (errs rmd) fdc + count (fun c => negb (errs rmd c) && negb (tried rmd c)) fdc = fdc)%nat; [|lia].
        clear -Hnone. revert Hnone. generalize fdc as k. induction k as [|k IH]; intros Hn; [done|]. rewrite !count_S.
        specialize (IH ltac:(auto)). specialize (Hn k ltac:(lia)). destruct (errs rmd k); cbn [negb andb]; [lia|]. rewrite Hn by done. cbn. lia. }
    rewrite Hu0 in *. cbn [Z.eqb verify mbind result_bind]. rewrite (proj2 (Z.ltb_lt _ _)) by lia. cbn [verify mbind result_bind].
    rewrite (bad_data_ok m) by (done || lia). cbn [mbind result_bind]. rewrite (proj2 (Z.leb_le _ _)) by lia. cbn [verify mbind result_bind].
    destruct (known_runs ltac:(lia) Hne) as (rm1 & code & Hr & Hto & Hcode). rewrite Hr. cbn [mbind result_bind].
    destruct (known_args checksum_verify_ok (set_vsd rm1 z) (touched_wf m _ _ _ Hwf Hto)) as (z1 & -> & Hs1 & Hv1). cbn [mbind result_bind io_vsd set_vsd] in *.
    pose proof (same_trans _ _ _ (same_vsd rm1 z) Hs1) as Hs1'. destruct (Z.eqb_spec (checks rm1) 0) as [Hck|Hck].
    + destruct (known_args corrected_ok code z1 ltac:(lia)) as (z2 & -> & Hs2 & Hv2); [by rewrite (si_corrected _ _ Hs1')|]. cbn [mbind result_bind].
      destruct (verify_parity_ok (parity_errors t <? Z.of_nat fdc - Z.of_nat (length (data_errs rmd))) z2) as (z3 & u & -> & Hs3 & Hu & Hor & Hrp).
      { by eapply same_trans. } { by rewrite Hv2, Hv1. }
      cbn [mbind result_bind]. exists z3, (Some u). split; [done|]. split; [done|]. exists rm1. rewrite Hv2, Hv1 in Hor, Hrp. split_and!; try done.
      intros Hnp Hc. apply Hrp; [done|]. apply orb_true_iff in Hc as [Hc%Z.ltb_lt | ->]; [|apply orb_true_r]. apply orb_true_iff. left. apply Z.ltb_lt. lia.
    + exists z1, None. split; [done|]. split; [done|]. rewrite Hv1. split; [done|]. intros _. right. split; [done|]. eauto.
Qed.
End known.

(** ** The counts of missing columns do not matter *)

Section missing.
Context (a b : Z).
Notation mis := (set_missing a b).

Lemma wf_missing m rm : raidz_wf m rm -> raidz_wf m (mis rm).
Proof using. by intros [? ? ?]. Qed.
Lemma sized_missing rm : raidz_sized rm -> raidz_sized (mis rm).
Proof using. by intros [? ? ?]. Qed.
Lemma full_missing m rm : first_full m rm -> first_full m (mis rm).
Proof using. done. Qed.
Lemma touched_missing rm cs rm' : touched rm cs rm' -> touched (mis rm) cs (mis rm').
Proof using. intros [Hf Ho Hi]. split; [|exact Ho|exact Hi]. by rewrite <- Hf. Qed.
Lemma damaged_missing rm s rmd : damaged rm s rmd -> damaged (mis rm) s (mis rmd).
Proof using. intros [Hf Hl Hc]. split; [|exact Hl|exact Hc]. by rewrite <- Hf. Qed.
Lemma generate_missing m rm rm' :
  raidz_wf m rm -> (1 <= rm_firstdatacol rm <= 3)%nat -> first_full m rm ->
  vdev_raidz_generate_parity rm = Ret rm' -> vdev_raidz_generate_parity (mis rm) = Ret (mis rm').
Proof using.
  intros Hwf Hf Hfull Hg. rewrite (generate_ok m) in Hg by done. injection Hg as <-.
  rewrite (generate_ok m) by (done || by apply wf_missing). done.
Qed.
End missing.

Lemma missing_own rm : set_missing (rm_missingdata rm) (rm_missingparity rm) rm = rm.
Proof. by destruct rm. Qed.

Lemma damaged_mono rm s t rmd : (forall c, bad_col rmd s c -> bad_col rmd t c) -> damaged rm s rmd -> damaged rm t rmd.
Proof.
  intros Hb [Hfr Hl Hc]. split; [done..|]. intros c rc rcd Hrc Hrcd. destruct (Hc c rc rcd Hrc Hrcd) as (H1 & H2 & H3 & H4).
  split_and!; try done. intros Hn. apply H4. intros Hx. by apply Hn, Hb.
Qed.

(** ** The whole *)

(** What a read that is over leaves: from [rmd], some data columns were
    rebuilt, the columns [w] found to be bad, and parity generated from the
    data, or left alone. *)
Record settled (zce : list Z -> Z * bool) (m : nat) (rmd : raidz_map) (w : list nat) (rm2 rmf : raidz_map) : Prop := {
  se_vec : vec (rm_cols rmd) (errs rmd) w;
  se_map : exists a b rm1, touched (set_missing a b rmd) (w ++ data_errs rmd) rm1 /\ marked rm1 w rm2 /\
    forall c, (c < rm_firstdatacol rmd)%nat -> rm_col rm1 !! c = rm_col rmd !! c;
  se_checks : fst (zce (mjoin (datas rm2))) = 0;
  se_final : rmf = rm2 \/ reparity m rm2 rmf;
}.

Section read.
Context (kmem_alloc abd_alloc zio_buf_alloc : Z -> list Z) (dg linear : bool) (zio_checksum_error : list Z -> Z * bool) (writeable : bool).
Context (Hkm : forall z, length (kmem_alloc z) = Z.to_nat z).
Context (Habd : forall z, bytes (abd_alloc z) /\ length (abd_alloc z) = Z.to_nat z).
Context (Hbuf : forall z, length (zio_buf_alloc z) = Z.to_nat z).
Context (m : nat) (rm rm' : raidz_map) (s : list nat) (z : zio) (tstore0 : list Z).
Notation rmd := (io_vsd z).
Notation fdc := (rm_firstdatacol rmd).
Notation cols := (rm_cols rmd).
Notation checks := (checks zio_checksum_error).
Notation t := (tally_of rmd cols).
Context (Hwf : raidz_wf m rm) (Hf : (1 <= rm_firstdatacol rm <= 3)%nat) (Hfull : first_full m rm) (H255 : (rm_cols rm <= 255)%nat).
Context (Hsz : raidz_sized rm) (Hgen : vdev_raidz_generate_parity rm = Ret rm') (Hd : damaged rm' s rmd).
Context (Hsv : vec cols (errs rmd) s) (Hck : checks rm = 0).
Context (Hcor : length (raidz_corrected z) = 8%nat) (Hl5 : length tstore0 = 5%nat).

#[local] Notation gen_facts := (gen_counts m rm rm' rmd s Hwf Hf Hfull H255 Hsz Hgen Hd).
#[local] Notation dmg_facts := (dmg_counts m rm rm' rmd s Hwf Hf Hfull H255 Hsz Hgen Hd).

Lemma dmg_full : first_full m rmd.
Proof using All.
  intros rcd Hrcd. destruct dmg_facts as (_ & Ef & _), gen_facts as (_ & Ef' & _ & _ & _ & _ & Ht).
  rewrite Ef in Hrcd. destruct (damaged_lookup _ _ _ _ _ Hd Hrcd) as [rc' Hrc']. destruct (dm_col _ _ _ Hd _ _ _ Hrc' Hrcd) as (-> & _).
  destruct (touched_inv _ _ _ _ _ Ht Hrc') as (rc & b & Hrc & -> & _). exact (Hfull rc Hrc).
Qed.

(** The errors known do not explain the bytes: something else is wrong. *)
Lemma search_needed :
  known_fails kmem_alloc abd_alloc dg linear zio_checksum_error z -> (length s + length (all_errs rmd) <= fdc)%nat -> s <> [] /\ reaches rmd s.
Proof using All.
  destruct dmg_facts as (Ec & Ef & Hwfd & Hszd), gen_facts as (Ec' & Ef' & Hwf' & Hds & Hsz' & Hpar & _). pose proof (wf_cols m _ Hwfd) as Hwc. pose proof dmg_full as Hfulld.
  intros [[Hnil Hbad]|[Hne (rm1 & code & Hr & Hbad)]] Hfew.
  - enough (reaches rmd s) as H by (split; [|done]; destruct H as [H|H]; [done|by intros ->; apply Exists_nil in H]).
    right. destruct (decide (Exists (fun c => fdc <= c)%nat s)) as [|Hno]; [done|]. destruct Hbad. unfold RaidzCombrec.checks.
    replace (datas rmd) with (datas rm); [exact Hck|]. rewrite <- Hds. symmetry. apply datas_cols; [lia|lia|]. intros c Hc.
    destruct (wf_col m rmd c Hwfd ltac:(lia)) as [rcd Hrcd]. destruct (damaged_lookup _ _ _ _ _ Hd Hrcd) as [rc' Hrc'].
    destruct (dm_col _ _ _ Hd _ _ _ Hrc' Hrcd) as (Hs & _ & _ & He). rewrite Hrc', Hrcd. cbn. unfold data_of. rewrite Hs, He; [done|].
    intros [Hin|(rc & Hrc & Herr)].
    + apply Hno, Exists_exists. exists c. split; [done|lia].
    + assert (c ∈ data_errs rmd) as Hx; [|rewrite Hnil in Hx; by apply elem_of_nil in Hx]. apply list_elem_of_filter. rewrite elem_of_seq. split; [|lia].
      unfold errs. rewrite Hrc. by apply negb_true_iff, Z.eqb_neq.
  - split; [|by left]. intros ->. apply Hbad. unfold RaidzCombrec.checks. replace (datas rm1) with (datas rm); [exact Hck|].
    destruct (known_fits kmem_alloc abd_alloc zio_buf_alloc dg linear zio_checksum_error Hkm Habd Hbuf m z Hwfd ltac:(lia) Hfulld ltac:(lia) Hszd Hcor ltac:(cbn in Hfew; lia) Hne) as (Hs & Hlt & Hn & Hdt).
    assert (damaged rm' (data_errs rmd) rmd) as Hd2 by (eapply damaged_mono; [|exact Hd]; intros c [Hx|Hx]; [by apply elem_of_nil in Hx|by right]).
    pose proof (damaged_stripe m rm' _ rmd Hwf' ltac:(lia) ltac:(lia) Hsz' ltac:(by rewrite Ef') Hd2) as Hst.
    destruct (reconstruct_ok kmem_alloc abd_alloc Hkm Habd m (datas rm') (bad_col rmd (data_errs rmd)) rmd (data_errs rmd) Hst)
      with (default_to_general := dg) (linear := linear) as (rm3 & code3 & Hr3 & _ & Hrep & _); try done.
    rewrite Hr in Hr3. injection Hr3 as <- <-. specialize (Hrep ltac:(by intros c _)). rewrite <- Hds. symmetry.
    destruct (datas_wf m rm' Hwf') as (_ & _ & Hdl). apply (repaired_datas m rm' rmd rm1); [done|rewrite Hdl; lia| |done].
    intros j d rc Hj Hrc. apply (st_size _ _ _ _ Hst j d rc Hj Hrc).
Qed.

(** The parity of the final map [rmf], made from [rm2], is right or was never in doubt. *)
Definition parity_settled (rm2 rmf : raidz_map) : Prop :=
  reparity m rm2 rmf \/ (rmf = rm2 /\ forall c, (c < fdc)%nat -> errs rm2 c = false).

Lemma full_code code c : code = Z.shiftl 1 (Z.of_nat fdc) - 1 -> (c < fdc)%nat -> Z.testbit code (Z.of_nat c) = true.
Proof using.
  intros -> Hc. clear -Hc. replace (Z.shiftl 1 (Z.of_nat fdc) - 1) with (Z.ones (Z.of_nat fdc)) by (rewrite Z.ones_equiv, Z.shiftl_1_l; lia).
  apply Z.ones_spec_low. lia.
Qed.

(** From a failure with the errors known to the end. *)
Lemma search_path z1 :
  same_io z z1 -> touched rmd (data_errs rmd) (io_vsd z1) -> known_fails kmem_alloc abd_alloc dg linear zio_checksum_error z ->
  (length s + length (all_errs rmd) <= fdc)%nat ->
  exists zf w rm2 code z2,
    vdev_raidz_combrec kmem_alloc abd_alloc zio_buf_alloc dg linear zio_checksum_error tstore0 (total_errors t) (data_errors t)
      (set_vsd (set_missing 0 0 (io_vsd z1)) z1) = Ret (z2, code) /\ total_errors t < Z.of_nat fdc /\ code <> 0 /\
    (exists n, (if code =? Z.shiftl 1 (Z.of_nat fdc) - 1 then Ret (z2, 0) else raidz_parity_verify zio_buf_alloc z2) = Ret (zf, n)) /\
    same_io z zf /\ settled zio_checksum_error m rmd w rm2 (io_vsd zf) /\
    (io_checksum z <> ZIO_CHECKSUM_NOPARITY -> parity_settled rm2 (io_vsd zf)).
Proof using All.
  intros Hs1 Ht1 Hfails Hfew. destruct (search_needed Hfails Hfew) as [Hne Hre].
  destruct dmg_facts as (Ec & Ef & Hwfd & Hszd). pose proof (wf_cols m _ Hwfd) as Hwc. pose proof dmg_full as Hfulld.
  destruct (tally_facts rmd ltac:(lia)) as (Hte & Hde & _).
  set (z2 := set_vsd (set_missing 0 0 (io_vsd z1)) z1).
  destruct (combrec_finds kmem_alloc abd_alloc zio_buf_alloc dg linear zio_checksum_error Hkm Habd Hbuf m (set_missing 0 0 rm) (set_missing 0 0 rm')
    (set_missing 0 0 rmd) s (wf_missing 0 0 m rm Hwf) Hf (full_missing 0 0 m rm Hfull) H255 (sized_missing 0 0 rm Hsz)
    (generate_missing 0 0 m rm rm' Hwf Hf Hfull Hgen) (damaged_missing 0 0 rm' s rmd Hd) (total_errors t) (data_errors t) tstore0 z2)
    as (z3 & code & Hr & Hs3 & Hcode & w & Hw); try done.
  { by apply touched_missing. } { change (data_errs (set_missing 0 0 rmd)) with (data_errs rmd). rewrite Hde, <- length_zero_iff_nil. lia. } { cbn. by rewrite (si_corrected _ _ Hs1). }
  destruct (found_map kmem_alloc abd_alloc dg linear zio_checksum_error zio_buf_alloc m (set_missing 0 0 rmd) w code (io_vsd z3) Hkm Habd Hbuf
    (wf_missing 0 0 m rmd Hwfd) ltac:(cbn; lia) ltac:(cbn; lia) (sized_missing 0 0 rmd Hszd) Hw)
    as (rm1 & Ht & Hm & Hwf3 & _ & Hck3 & _ & Hkeep & Hbits).
  assert (same_io z z3) as Hs by (eapply same_trans; [exact Hs1|]; eapply same_trans; [apply same_vsd|exact Hs3]).
  assert (forall rmf, rmf = io_vsd z3 \/ reparity m (io_vsd z3) rmf -> settled zio_checksum_error m rmd w (io_vsd z3) rmf) as Hset.
  { intros rmf Hfin. split; [apply (fo_vec _ _ _ _ _ _ _ _ _ Hw)| |exact Hck3|exact Hfin]. exists 0, 0, rm1. split; [exact Ht|]. split; [exact Hm|exact Hkeep]. }
  assert (total_errors t < Z.of_nat fdc) as Hlt by (destruct s; [done|cbn in Hfew; lia]).
  destruct (marked_counts _ _ _ Hm) as (Ec3 & Ef3 & _). destruct (touched_counts _ _ _ Ht) as (Ec1 & Ef1 & _). cbn in Ec1, Ef1.
  destruct (Z.eqb_spec code (Z.shiftl 1 (Z.of_nat fdc) - 1)) as [Heq|Hneq].
  { exists z3, w, (io_vsd z3), code, z3. rewrite (proj2 (Z.eqb_eq _ _) Heq). split_and!; try done; try lia; [by exists 0|apply Hset; by left|]. intros _. right. split; [done|].
    intros c Hc. destruct (Hbits c (full_code code c Heq Hc)) as (_ & Hnw & He). unfold errs. rewrite (ma_col _ _ _ Hm), Hkeep by done.
    unfold errs in He. cbn [rm_col set_missing] in *. destruct (rm_col rmd !! c) as [rc|]; [|done]. cbn. by rewrite decide_False. }
  destruct (Z.eq_dec (io_checksum z) ZIO_CHECKSUM_NOPARITY) as [Hnp|Hnp].
  - exists z3, w, (io_vsd z3), code, z3. rewrite (proj2 (Z.eqb_neq _ _) Hneq). split_and!; try done; try lia; [|apply Hset; by left].
    exists 0. unfold raidz_parity_verify. by rewrite (si_checksum _ _ Hs), Hnp.
  - destruct (parity_verify_ok zio_buf_alloc Hbuf m z3 Hwf3 ltac:(lia)) as (zf & n & Hpv & Hsf & _ & Hrp); [| |].
    + intros rc Hrc. rewrite Ef3, Ef1, (ma_col _ _ _ Hm) in Hrc. destruct (rm_col rm1 !! fdc) as [rc1|] eqn:Hrc1; [|done].
      destruct (touched_inv _ _ _ _ _ Ht Hrc1) as (rc0 & b & Hrc0 & -> & _). cbn in Hrc. injection Hrc as <-. pose proof (Hfulld rc0 Hrc0) as H8. by case_decide.
    + by rewrite (si_checksum _ _ Hs).
    + exists zf, w, (io_vsd z3), code, z3. rewrite (proj2 (Z.eqb_neq _ _) Hneq). split_and!; try done; try lia.
      * by exists n.
      * by eapply same_trans.
      * apply Hset. by right.
      * intros _. by left.
Qed.

Lemma settled_known rm1 rmf : touched rmd (data_errs rmd) rm1 -> checks rm1 = 0 -> rmf = rm1 \/ reparity m rm1 rmf ->
  settled zio_checksum_error m rmd [] rm1 rmf.
Proof using.
  intros Ht Hc Hfin. split; [by repeat constructor| |exact Hc|exact Hfin]. exists (rm_missingdata rmd), (rm_missingparity rmd), rm1. rewrite missing_own.
  split; [exact Ht|]. split.
  - split; [by destruct rm1|]. intros c. destruct (rm_col rm1 !! c); done.
  - intros c Hc'. apply (to_out _ _ _ Ht). intros (_ & Hin%elem_of_seq)%list_elem_of_filter. clear -Hc' Hin. lia.
Qed.

Lemma settled_wf w rm2 rmf : settled zio_checksum_error m rmd w rm2 rmf -> raidz_wf m rm2 /\ raidz_wf m rmf /\ datas rmf = datas rm2 /\
  Forall2 (fun a b => length a = length b) (datas rm2) (datas rm) /\ rm_cols rmf = cols /\ rm_firstdatacol rmf = fdc.
Proof using All.
  intros [_ (a & b & rm1 & Ht & Hm & _) _ Hfin]. destruct dmg_facts as (Ec & Ef & Hwfd & Hszd), gen_facts as (_ & _ & Hwf' & Hds & _).
  pose proof (touched_wf m _ _ _ (wf_missing a b m _ Hwfd) Ht) as Hwf1. pose proof (marked_wf m _ _ _ Hwf1 Hm) as Hwf2.
  destruct (marked_counts _ _ _ Hm) as (Ec2 & Ef2 & Hd2). destruct (touched_counts _ _ _ Ht) as (Ec1 & Ef1 & _). cbn in Ec1, Ef1.
  assert (Forall2 (fun a b => length a = length b) (datas rm2) (datas rm)) as Hlen.
  { rewrite Hd2, <- Hds. pose proof (touched_lengths m _ _ _ (wf_missing a b m _ Hwfd) Ht) as L1. pose proof (damaged_lengths m _ _ _ Hwf' Hd) as L2.
    eapply Forall2_trans; [|exact L1|exact L2]. cbn. congruence. }
  destruct Hfin as [-> | Hrp]; [split_and!; done || lia|]. destruct (reparity_counts _ _ _ Hrp) as (Ecr & Efr & Hdr).
  split_and!; try done; try lia. by apply (reparity_wf m rm2).
Qed.

Lemma read_ok :
  io_type z = ZIO_TYPE_READ -> rm_missingparity rmd <= Z.of_nat fdc -> rm_missingdata rmd <= Z.of_nat cols - Z.of_nat fdc ->
  (forall c rc, (c < cols)%nat -> rm_col rmd !! c = Some rc -> rc_error rc <> ECKSUM) -> parity_together z ->
  (untried rmd = [] -> (length s + length (all_errs rmd) <= fdc)%nat) ->
  exists z', vdev_raidz_io_done kmem_alloc abd_alloc zio_buf_alloc dg linear zio_checksum_error writeable tstore0 z = Ret z' /\
    ((untried rmd <> [] /\ exists z1, same_io z z1 /\ touched rmd (data_errs rmd) (io_vsd z1) /\
        let z2 := set_vsd (set_missing 0 0 (io_vsd z1)) z1 in z' = logged (rest_reads z2 (untried rmd)) z2) \/
     (exists zf u w rm2, same_io z zf /\ z' = logged (ChecksumVerified :: repairs_of writeable u zf) zf /\
        settled zio_checksum_error m rmd w rm2 (io_vsd zf) /\ (u = 0 -> w = [] /\ unexpected_errors t = 0) /\
        (io_checksum z <> ZIO_CHECKSUM_NOPARITY -> (total_errors t + parity_untried t <? Z.of_nat fdc) || flag z ZIO_FLAG_RESILVER = true ->
          parity_settled rm2 (io_vsd zf)))).
Proof using All.
  intros Hty Hmp Hmd Hec Htog Hfew. destruct dmg_facts as (Ec & Ef & Hwfd & Hszd). pose proof (wf_cols m _ Hwfd) as Hwc. pose proof dmg_full as Hfulld.
  destruct (tally_facts rmd ltac:(lia)) as (Hte & Hde & Hpe & Hpu & Hsum). unfold vdev_raidz_io_done.
  rewrite !(proj2 (Z.leb_le _ _)) by lia. cbn [verify mbind result_bind]. rewrite count_errors_ok by (done || lia). cbn [mbind result_bind]. rewrite Hty.
  destruct (known_ok kmem_alloc abd_alloc zio_buf_alloc dg linear zio_checksum_error Hkm Habd Hbuf m z Hwfd ltac:(lia) Hfulld ltac:(lia) Hszd Hcor Htog)
    as (z1 & [u|] & -> & Hs1 & Hpost); cbn [mbind result_bind].
  - destruct Hpost as (rm1 & Ht1 & Hc1 & Hu & Hfin & Hrp). pose proof (settled_known rm1 (io_vsd z1) Ht1 Hc1 Hfin) as Hset.
    destruct (settled_wf _ _ _ Hset) as (_ & Hwff & _). rewrite (repair_ok m) by done. eexists. split; [done|]. right. exists z1, u, [], rm1. split_and!; try done.
    + intros ->. split; [done|]. cbn in Hu |- *. lia.
    + intros Hnp Hc. left. by apply Hrp.
  - destruct Hpost as [Ht1 Hfails]. set (z2 := set_vsd (set_missing 0 0 (io_vsd z1)) z1).
    destruct (touched_state _ _ _ Ht1) as (_ & _ & _ & _ & _ & Hun). assert (untried (io_vsd z2) = untried rmd) as Hun2 by exact Hun.
    rewrite (missing_rest_ok m) by (apply wf_missing; by eapply touched_wf). cbn [mbind result_bind]. rewrite Hun2. case_bool_decide as Hcase.
    { eexists. split; [done|]. left. split; [done|]. by exists z1. }
    assert (untried rmd = []) as Hnil by (destruct (untried rmd); [done|]; by destruct Hcase). specialize (Hfew Hnil). rewrite Hnil. cbn [rest_reads]. rewrite logged_nil.
    assert (parity_untried t = 0) as Hu0.
    { rewrite Hpu, lcount_none; [done|]. intros c Hc. destruct (tried rmd c) eqn:E; [by destruct (errs rmd c)|].
      assert (c ∈ untried rmd) as Hin; [|rewrite Hnil in Hin; by apply elem_of_nil in Hin]. apply list_elem_of_filter. rewrite elem_of_seq. split; [done|lia]. }
    destruct (search_path z1 Hs1 Ht1 (Hfails ltac:(lia)) Hfew) as (zf & w & rm2 & code & z3 & Hr & Hlt & Hcode & (n & Hpv) & Hsf & Hset & Hps).
    rewrite (proj2 (Z.ltb_ge (Z.of_nat fdc) _)), (proj2 (Z.ltb_lt _ _)) by lia. fold z2 in Hr. rewrite Hr. cbn [mbind result_bind].
    rewrite (proj2 (Z.eqb_neq _ _)) by done. cbn [negb]. rewrite Hpv. cbn [mbind result_bind].
    destruct (settled_wf _ _ _ Hset) as (_ & Hwff & _). rewrite (repair_ok m) by done. eexists. split; [done|]. right.
    exists zf, 1, w, rm2. split_and!; try done. intros Hnp _. by apply Hps.
Qed.
End read.

(** ** Reads *)

(** [rm'] is the block [rm] with its parity, as it was written. *)
Record written (m : nat) (rm rm' : raidz_map) : Prop := {
  wn_wf : raidz_wf m rm;
  wn_parities : (1 <= rm_firstdatacol rm <= 3)%nat;
  wn_full : first_full m rm;
  wn_cols : (rm_cols rm <= 255)%nat;
  wn_sized : raidz_sized rm;
  wn_parity : vdev_raidz_generate_parity rm = Ret rm';
}.

(** The children of the read [z] of that block are done: any bytes may be in
    the columns with an error, in those not read, and in the columns [s],
    which reported none.  Parity was read for all or for none. *)
Record read_back (rm' : raidz_map) (s : list nat) (z : zio) : Prop := {
  rb_type : io_type z = ZIO_TYPE_READ;
  rb_damaged : damaged rm' s (io_vsd z);
  rb_silent : vec (rm_cols (io_vsd z)) (errs (io_vsd z)) s;
  rb_missingparity : rm_missingparity (io_vsd z) <= Z.of_nat (rm_firstdatacol (io_vsd z));
  rb_missingdata : rm_missingdata (io_vsd z) <= Z.of_nat (rm_cols (io_vsd z)) - Z.of_nat (rm_firstdatacol (io_vsd z));
  rb_errors c rc : (c < rm_cols (io_vsd z))%nat -> rm_col (io_vsd z) !! c = Some rc -> rc_error rc <> ECKSUM;
  rb_together : parity_together z;
  rb_corrected : length (raidz_corrected z) = 8%nat;
}.

(** No other data has the checksum of [d]. *)
Definition exact (zce : list Z -> Z * bool) (d : list Z) : Prop := forall d', fst (zce d') = 0 -> d' = d.

(** The log after the columns not read yet were asked for. *)
Lemma rest_log z z1 : same_io z z1 -> untried (io_vsd z) <> [] ->
  let z2 := set_vsd (set_missing 0 0 (io_vsd z1)) z1 in let z' := logged (rest_reads z2 (untried (io_vsd z))) z2 in
  exists l, Forall is_report l /\ io_log z' = io_log z ++ l ++ Redone :: per_col (column_io z) (io_vsd z') (untried (io_vsd z)).
Proof.
  intros Hs Hun. cbv zeta. destruct (si_log _ _ Hs) as (l & Hl & Hrep). exists l. split; [done|]. cbn [io_log logged set_vsd].
  rewrite Hl, <- app_assoc. f_equal. f_equal. unfold rest_reads. destruct (untried (io_vsd z)) as [|x xs]; [done|]. f_equal. unfold column_io.
  cbn [io_type io_priority set_vsd io_vsd logged]. by rewrite (si_type _ _ Hs), (si_priority _ _ Hs).
Qed.

Section theorems.
Context (kmem_alloc abd_alloc zio_buf_alloc : Z -> list Z) (dg linear : bool) (zio_checksum_error : list Z -> Z * bool) (writeable : bool).
Context (Hkm : forall n, length (kmem_alloc n) = Z.to_nat n).
Context (Habd : forall n, bytes (abd_alloc n) /\ length (abd_alloc n) = Z.to_nat n).
Context (Hbuf : forall n, length (zio_buf_alloc n) = Z.to_nat n).
Context (m : nat) (rm rm' : raidz_map) (s : list nat) (z : zio) (tstore0 : list Z).
Context (Hw : written m rm rm') (Hb : read_back rm' s z).
Context (Hck : fst (zio_checksum_error (mjoin (datas rm))) = 0) (Hl5 : length tstore0 = 5%nat).
#[local] Notation read_args lem := (lem kmem_alloc abd_alloc zio_buf_alloc dg linear zio_checksum_error writeable Hkm Habd Hbuf m rm rm' s z tstore0
  (wn_wf _ _ _ Hw) (wn_parities _ _ _ Hw) (wn_full _ _ _ Hw) (wn_cols _ _ _ Hw) (wn_sized _ _ _ Hw) (wn_parity _ _ _ Hw)
  (rb_damaged _ _ _ Hb) (rb_silent _ _ _ Hb) Hck (rb_corrected _ _ _ Hb) Hl5).

Lemma settled_data w rm2 rmf :
  settled zio_checksum_error m (io_vsd z) w rm2 rmf -> exact zio_checksum_error (mjoin (datas rm)) -> datas rmf = datas rm.
Proof using All.
  intros Hset Hex. destruct (read_args settled_wf w rm2 rmf Hset) as (_ & _ & Hdf & Hlen & _).
  rewrite Hdf. apply join_inj; [done|]. apply Hex. apply Hset.
Qed.

Notation io_done := (vdev_raidz_io_done kmem_alloc abd_alloc zio_buf_alloc dg linear zio_checksum_error writeable).
Context (Hfew : untried (io_vsd z) = [] -> (length s + length (all_errs (io_vsd z)) <= rm_firstdatacol (io_vsd z))%nat).

#[local] Notation read_facts := (read_args read_ok (rb_type _ _ _ Hb) (rb_missingparity _ _ _ Hb) (rb_missingdata _ _ _ Hb)
  (rb_errors _ _ _ Hb) (rb_together _ _ _ Hb) Hfew).

Lemma read_correct :
  exists z', io_done tstore0 z = Ret z' /\ io_error z' = io_error z /\
    ((untried (io_vsd z) <> [] /\ damaged (set_missing 0 0 rm') s (io_vsd z') /\
      exists l, Forall is_report l /\
        io_log z' = io_log z ++ l ++ Redone :: per_col (column_io z) (io_vsd z') (untried (io_vsd z))) \/
     (exists d, io_abd (io_vsd z') = Ret d /\ fst (zio_checksum_error d) = 0 /\
        (exact zio_checksum_error (mjoin (datas rm)) -> datas (io_vsd z') = datas rm))).
Proof using All.
  destruct read_facts as (z' & Hr & [(Hun & z1 & Hs1 & Ht1 & ->)|(zf & u & w & rm2 & Hsf & -> & Hset & _)]); (eexists; split; [exact Hr|]).
  - split; [apply (si_error _ _ Hs1)|]. left. split; [done|]. split.
    + apply damaged_missing. destruct Hw, Hb. by apply (damaged_touched m rm rm' (io_vsd z) s) with (cs := data_errs (io_vsd z)); try done; apply (data_errs_bad m rm rm').
    + by apply rest_log.
  - split; [apply (si_error _ _ Hsf)|]. right. cbn [io_vsd logged]. destruct (read_args settled_wf w rm2 (io_vsd zf) Hset) as (_ & Hwff & Hdf & _).
    eexists. split; [by apply (io_abd_ok m)|]. split; [rewrite Hdf; apply Hset|]. intros Hex. by apply (settled_data w rm2).
Qed.

(** The same place on the same child. *)
Definition same_place (rc rc' : raidz_col) : Prop :=
  rc_devidx rc' = rc_devidx rc /\ rc_offset rc' = rc_offset rc /\ rc_size rc' = rc_size rc.

(** A column of the final map, and the one it was. *)
Lemma final_col w rm2 rmf c : settled zio_checksum_error m (io_vsd z) w rm2 rmf -> (c < rm_cols (io_vsd z))%nat ->
  exists rcd rcf, rm_col (io_vsd z) !! c = Some rcd /\ rm_col rmf !! c = Some rcf /\ same_place rcd rcf /\
    (rc_error rcd <> 0 -> rc_error rcf <> 0) /\
    ((rm_firstdatacol (io_vsd z) <= c)%nat -> length (rc_abd rcf) = length (rc_abd rcd) /\ (c ∈ w -> rc_error rcf <> 0) /\
      (c ∉ w -> errs (io_vsd z) c = false -> rcf = rcd)).
Proof using All.
  intros Hset Hc. destruct (dmg_counts m rm rm' (io_vsd z) s) as (Ec & Ef & Hwfd & _); [destruct Hw, Hb; done..|]. pose proof (wf_cols m _ Hwfd) as Hwc.
  destruct (wf_col m _ c Hwfd ltac:(lia)) as [rcd Hrcd]. destruct Hset as [_ (a & b & rm1 & Ht & Hm & _) _ Hfin]. exists rcd.
  destruct (touched_any _ _ _ c Ht) as (bs & E1 & Hbs). cbn [rm_col set_missing] in E1, Hbs. destruct (Hbs rcd Hrcd) as [Hbl _]. rewrite Hrcd in E1. cbn in E1.
  pose proof (ma_col _ _ _ Hm c) as E2. rewrite E1 in E2. cbn in E2.
  destruct (marked_counts _ _ _ Hm) as (Ec2 & Ef2 & _). destruct (touched_counts _ _ _ Ht) as (Ec1 & Ef1 & _). cbn in Ec1, Ef1.
  set (rc2 := if decide (c ∈ w) then col_error ECKSUM (col_abd bs rcd) else col_abd bs rcd) in *.
  assert (same_place rcd rc2 /\ (rc_error rcd <> 0 -> rc_error rc2 <> 0)) as [Hp2 He2] by (unfold rc2; by case_decide).
  assert ((rm_firstdatacol (io_vsd z) <= c)%nat -> length (rc_abd rc2) = length (rc_abd rcd) /\ (c ∈ w -> rc_error rc2 <> 0) /\
      (c ∉ w -> errs (io_vsd z) c = false -> rc2 = rcd)) as Hd2.
  { intros _. unfold rc2. split; [by case_decide|]. split; [intros ?; by rewrite decide_True|]. intros Hnw He. rewrite decide_False by done.
    assert (c ∉ w ++ data_errs (io_vsd z)) as Hout by (intros [?|(He' & _)%list_elem_of_filter]%elem_of_app; congruence).
    pose proof (to_out _ _ _ Ht c Hout) as Ho. cbn in Ho. rewrite E1, Hrcd in Ho. congruence. }
  destruct Hfin as [-> | Hrp]; [by exists rc2|]. destruct (decide (c < rm_firstdatacol (io_vsd z))%nat) as [Hlt|Hge].
  - eexists. split; [done|]. split; [apply (rp_parity _ _ _ Hrp c rc2); [lia|done]|]. split; [done|]. split; [|lia].
    intros Hne. cbn. unfold parity_error. destruct (_ && _); [done|auto].
  - exists rc2. rewrite (rp_data _ _ _ Hrp) by lia. done.
Qed.

(** Columns with an error hold the bytes that were written. *)
Lemma final_bytes w rm2 rmf c : settled zio_checksum_error m (io_vsd z) w rm2 rmf -> exact zio_checksum_error (mjoin (datas rm)) ->
  parity_settled m z rm2 rmf -> (c < rm_cols (io_vsd z))%nat -> errs rmf c = true -> rc_abd <$> rm_col rmf !! c = rc_abd <$> rm_col rm' !! c.
Proof using All.
  intros Hset Hex Hps Hc He. destruct (dmg_counts m rm rm' (io_vsd z) s) as (Ec & Ef & Hwfd & Hszd); [destruct Hw, Hb; done..|].
  destruct (gen_counts m rm rm' (io_vsd z) s) as (Ec' & Ef' & Hwf' & Hds & Hsz' & Hpar & _); [destruct Hw, Hb; done..|].
  pose proof (settled_data w rm2 rmf Hset Hex) as Hdata. destruct (read_args settled_wf w rm2 rmf Hset) as (Hwf2 & Hwff & Hdf & _ & Ecf & Eff).
  destruct (final_col w rm2 rmf c Hset Hc) as (rcd & rcf & Hrcd & Hrcf & (_ & _ & Hsf) & _ & Hdd).
  destruct (damaged_lookup _ _ _ _ _ (rb_damaged _ _ _ Hb) Hrcd) as [rc' Hrc']. destruct (dm_col _ _ _ (rb_damaged _ _ _ Hb) _ _ _ Hrc' Hrcd) as (Hs' & _).
  rewrite Hrcf, Hrc'. cbn. f_equal. destruct (decide (c < rm_firstdatacol (io_vsd z))%nat) as [Hlt|Hge].
  - rewrite (Hpar c ltac:(lia) rc' Hrc'), Hds, <- Hdata, Hdf. destruct Hps as [Hrp|[-> Hno]]; [|by rewrite Hno in He].
    pose proof (wf_cols m _ Hwf2) as Hwc. destruct (reparity_counts _ _ _ Hrp) as (Ecr & Efr & _).
    destruct (wf_col m rm2 c Hwf2 ltac:(lia)) as [rc2 Hrc2]. rewrite (rp_parity _ _ _ Hrp c rc2) in Hrcf by (done || lia). by injection Hrcf as <-.
  - destruct (Hdd ltac:(lia)) as (Hlf & _). pose proof (sz_exact _ Hszd c rcd ltac:(lia) Hrcd) as Hx. pose proof (sz_exact _ Hsz' c rc' ltac:(lia) Hrc') as Hx'.
    pose proof (datas_lookup rmf c rcf ltac:(lia) Hrcf) as L1. pose proof (datas_lookup rm' c rc' ltac:(lia) Hrc') as L2.
    rewrite Hdata, <- Hds, Eff, Ef in L1. rewrite Ef', L1 in L2. injection L2 as L2. unfold data_of in L2.
    rewrite !take_ge in L2 by lia. done.
Qed.

(** Not all of the parity is used up or unread, or all columns were read to be
    rebuilt. *)
Definition spare_parity : Prop :=
  (length (all_errs (io_vsd z)) + count (fun c => negb (errs (io_vsd z) c) && negb (tried (io_vsd z) c)) (rm_firstdatacol (io_vsd z)) <
    rm_firstdatacol (io_vsd z))%nat \/ flag z ZIO_FLAG_RESILVER = true.

(** The write that repairs the column [rcd] with the bytes of [rc']. *)
Definition repaired_with (fl : Z) (rcd rc' : raidz_col) : effect :=
  ChildIo (rc_devidx rcd) (rc_offset rcd) (Some (rc_abd rc')) (rc_size rcd) ZIO_TYPE_WRITE ZIO_PRIORITY_ASYNC_WRITE fl None.

(** A data column that is wrong: it reported an error when it was read, or it
    holds other bytes. *)
Definition needs_repair (rcd rc' : raidz_col) : Prop :=
  (rc_error rcd <> 0 /\ rc_skipped rcd = false) \/ (rc_error rcd = 0 /\ rc_abd rcd <> rc_abd rc').

Lemma repair_write_final w rm2 rmf c u : settled zio_checksum_error m (io_vsd z) w rm2 rmf -> exact zio_checksum_error (mjoin (datas rm)) ->
  parity_settled m z rm2 rmf -> (c < rm_cols (io_vsd z))%nat -> errs rmf c = true ->
  exists rcd rc' rcf fl, rm_col (io_vsd z) !! c = Some rcd /\ rm_col rm' !! c = Some rc' /\ rm_col rmf !! c = Some rcf /\
    repair_write u c rcf = repaired_with fl rcd rc'.
Proof using All.
  intros Hset Hex Hps Hc He. pose proof (final_bytes w rm2 rmf c Hset Hex Hps Hc He) as Hbytes.
  destruct (final_col w rm2 rmf c Hset Hc) as (rcd & rcf & Hrcd & Hrcf & (Hp1 & Hp2 & Hp3) & _).
  destruct (damaged_lookup _ _ _ _ _ (rb_damaged _ _ _ Hb) Hrcd) as [rc' Hrc']. rewrite Hrcf, Hrc' in Hbytes. injection Hbytes as Hbytes.
  eexists rcd, rc', rcf, _. split_and!; try done. unfold repair_write, repaired_with. rewrite Hp1, Hp2, Hp3, Hbytes. done.
Qed.

Lemma needs_error w rm2 rmf u c rcd rc' : settled zio_checksum_error m (io_vsd z) w rm2 rmf -> exact zio_checksum_error (mjoin (datas rm)) ->
  (u = 0 -> w = [] /\ unexpected_errors (tally_of (io_vsd z) (rm_cols (io_vsd z))) = 0) ->
  (rm_firstdatacol (io_vsd z) <= c < rm_cols (io_vsd z))%nat -> rm_col (io_vsd z) !! c = Some rcd -> rm_col rm' !! c = Some rc' ->
  needs_repair rcd rc' -> errs rmf c = true /\ u <> 0.
Proof using All.
  intros Hset Hex Hu Hc Hrcd Hrc' Hneed. destruct (final_col w rm2 rmf c Hset ltac:(lia)) as (rcd' & rcf & Hrcd' & Hrcf & _ & Herr & Hdd).
  replace rcd' with rcd in * by congruence. destruct (Hdd ltac:(lia)) as (Hlen & Hinw & Hout). unfold errs. rewrite Hrcf.
  rewrite negb_true_iff, Z.eqb_neq. destruct Hneed as [[Hne Hsk]|[H0 Hne]].
  - split; [auto|]. intros [_ Hun]%Hu. cbn in Hun. apply (Nat2Z.inj _ 0) in Hun. pose proof (count_zero _ _ Hun c ltac:(lia)) as H. cbn beta in H.
    unfold errs, skipped in H. rewrite Hrcd, Hsk, (proj2 (Z.eqb_neq _ _) Hne) in H. done.
  - assert (c ∈ w) as Hin; [|split; [auto|]; intros [-> _]%Hu; by apply elem_of_nil in Hin].
    destruct (decide (c ∈ w)) as [|Hnw]; [done|]. exfalso. apply Hne.
    assert (errs (io_vsd z) c = false) as He by (unfold errs; by rewrite Hrcd, H0). pose proof (Hout Hnw He) as ->.
    destruct (dmg_counts m rm rm' (io_vsd z) s) as (Ec & Ef & Hwfd & Hszd); [destruct Hw, Hb; done..|].
    destruct (gen_counts m rm rm' (io_vsd z) s) as (Ec' & Ef' & Hwf' & Hds & Hsz' & _); [destruct Hw, Hb; done..|].
    destruct (read_args settled_wf w rm2 rmf Hset) as (_ & _ & _ & _ & Ecf & Eff).
    pose proof (sz_exact _ Hszd c rcd ltac:(lia) Hrcd) as Hx. pose proof (sz_exact _ Hsz' c rc' ltac:(lia) Hrc') as Hx'.
    pose proof (datas_lookup rmf c rcd ltac:(lia) Hrcf) as L1. pose proof (datas_lookup rm' c rc' ltac:(lia) Hrc') as L2.
    rewrite (settled_data w rm2 rmf Hset Hex), <- Hds, Eff, Ef in L1. rewrite Ef', L1 in L2. injection L2 as L2. unfold data_of in L2.
    rewrite !take_ge in L2 by lia. done.
Qed.

Lemma elem_per_col f rm0 cs e : e ∈ per_col f rm0 cs <-> exists c rc, c ∈ cs /\ rm_col rm0 !! c = Some rc /\ e = f c rc.
Proof using.
  unfold per_col. rewrite list_elem_of_omap. split.
  - intros (c & Hc & E). destruct (rm_col rm0 !! c) as [rc|] eqn:Hrc; [|done]. injection E as <-. eauto.
  - intros (c & rc & Hc & Hrc & ->). exists c. by rewrite Hrc.
Qed.

Lemma repair_correct :
  exact zio_checksum_error (mjoin (datas rm)) -> io_checksum z <> ZIO_CHECKSUM_NOPARITY -> io_error z = 0 -> writeable = true -> spare_parity ->
  exists z', io_done tstore0 z = Ret z' /\
    (untried (io_vsd z) <> [] \/
     exists l ws, io_log z' = io_log z ++ l ++ ChecksumVerified :: ws /\ Forall is_report l /\
       (forall e, e ∈ ws -> exists c rcd rc' fl,
          rm_col (io_vsd z) !! c = Some rcd /\ rm_col rm' !! c = Some rc' /\ e = repaired_with fl rcd rc') /\
       (forall c rcd rc', (rm_firstdatacol (io_vsd z) <= c < rm_cols (io_vsd z))%nat ->
          rm_col (io_vsd z) !! c = Some rcd -> rm_col rm' !! c = Some rc' -> needs_repair rcd rc' ->
          exists fl, repaired_with fl rcd rc' ∈ ws)).
Proof using All.
  intros Hex Hnp He Hwr Hsp. destruct read_facts as (z' & Hr & [(Hun & _)|(zf & u & w & rm2 & Hsf & -> & Hset & Hu & Hps)]); (eexists; split; [exact Hr|]); [by left|right].
  destruct (si_log _ _ Hsf) as (l & Hl & Hrep). exists l, (repairs_of writeable u zf). cbn [io_log logged]. rewrite Hl, <- app_assoc. split; [done|]. split; [done|].
  destruct (dmg_counts m rm rm' (io_vsd z) s) as (Ec & Ef & Hwfd & Hszd); [destruct Hw, Hb; done..|]. pose proof (wf_cols m _ Hwfd) as Hwc.
  destruct (tally_facts (io_vsd z) ltac:(lia)) as (Hte & _ & _ & Hpu & _). specialize (Hps Hnp).
  destruct (read_args settled_wf w rm2 (io_vsd zf) Hset) as (_ & _ & _ & _ & Ecf & _).
  assert (parity_settled m z rm2 (io_vsd zf)) as Hset2.
  { apply Hps. apply orb_true_iff. destruct Hsp as [H|H]; [left; apply Z.ltb_lt; lia|by right]. }
  assert (forall c, c ∈ all_errs (io_vsd zf) <-> (c < rm_cols (io_vsd z))%nat /\ errs (io_vsd zf) c = true) as Hall.
  { intros c. unfold all_errs. rewrite list_elem_of_filter, elem_of_seq, Ecf. split; intros [? ?]; (split; [done || lia|done || lia]). }
  unfold repairs_of. rewrite (si_error _ _ Hsf), He, Hwr. cbn [Z.eqb andb]. split.
  - intros e Hin. destruct (negb (u =? 0) || flag zf ZIO_FLAG_RESILVER); [|by apply elem_of_nil in Hin].
    apply elem_per_col in Hin as (c & rcf & [Hc Herr]%Hall & Hrcf & ->).
    destruct (repair_write_final w rm2 _ c u Hset Hex Hset2 Hc Herr) as (rcd & rc' & rcf' & fl & H1 & H2 & H3 & H4). exists c, rcd, rc', fl.
    replace rcf' with rcf in * by congruence. done.
  - intros c rcd rc' Hc Hrcd Hrc' Hneed. destruct (needs_error w rm2 _ u c rcd rc' Hset Hex Hu Hc Hrcd Hrc' Hneed) as [Herr Hu0].
    rewrite (proj2 (Z.eqb_neq _ _) Hu0). cbn [negb orb].
    destruct (repair_write_final w rm2 _ c u Hset Hex Hset2 ltac:(lia) Herr) as (rcd1 & rc1 & rcf & fl & H1 & H2 & H3 & H4). exists fl.
    replace rcd1 with rcd in H4 by congruence. replace rc1 with rc' in H4 by congruence. rewrite <- H4. apply elem_per_col.
    exists c, rcf. split; [|done]. apply Hall. split; [lia|done].
Qed.
End theorems.

(** Reads.  The children of the read of a block that was written with
    its parity are done: columns that reported an error or were not read may
    hold any bytes, and so may the columns [s], which reported nothing.
    [vdev_raidz_io_done] returns without an error, and one of two things has
    happened.  Either the data of the block has its checksum, and is what was
    written if nothing else has that checksum.  Or some columns had not been
    read: then the I/O is redone with a read of each of these and of no other
    column, and no column but those with an error has changed.  Once all
    columns have been read, and no more are bad in either way than there are
    parity columns, only the first is left. *)
Theorem raidz_read_correct kmem_alloc abd_alloc zio_buf_alloc dg linear zio_checksum_error writeable tstore0 m rm rm' s z :
  (forall n, length (kmem_alloc n) = Z.to_nat n) ->
  (forall n, bytes (abd_alloc n) /\ length (abd_alloc n) = Z.to_nat n) ->
  (forall n, length (zio_buf_alloc n) = Z.to_nat n) ->
  written m rm rm' -> read_back rm' s z -> fst (zio_checksum_error (mjoin (datas rm))) = 0 -> length tstore0 = 5%nat ->
  (untried (io_vsd z) = [] -> (length s + length (all_errs (io_vsd z)) <= rm_firstdatacol (io_vsd z))%nat) ->
  exists z', vdev_raidz_io_done kmem_alloc abd_alloc zio_buf_alloc dg linear zio_checksum_error writeable tstore0 z = Ret z' /\
    io_error z' = io_error z /\
    ((untried (io_vsd z) <> [] /\ damaged (set_missing 0 0 rm') s (io_vsd z') /\
      exists l, Forall is_report l /\
        io_log z' = io_log z ++ l ++ Redone :: per_col (column_io z) (io_vsd z') (untried (io_vsd z))) \/
     (exists d, io_abd (io_vsd z') = Ret d /\ fst (zio_checksum_error d) = 0 /\
        (exact zio_checksum_error (mjoin (datas rm)) -> datas (io_vsd z') = datas rm))).
Proof. intros. by apply (read_correct kmem_alloc abd_alloc zio_buf_alloc dg linear zio_checksum_error writeable) with (m := m). Qed.


(** ** Examples *)

(** The damaged stripe of [RaidzReconstruct] with all columns read. *)
Definition all_read (rm : raidz_map) : raidz_map := set_cols rm ((fun rc => col_state (rc_error rc) true false rc) <$> rm_col rm).
Definition demo_read : zio := demo_zio (all_read demo_lost).

Lemma damaged_read rm s rmd : damaged rm s rmd -> damaged rm s (all_read rmd).
Proof.
  intros [Hf Hl Hc]. assert (forall c, bad_col (all_read rmd) s c <-> bad_col rmd s c) as Hb.
  { intros c. unfold bad_col, all_read. cbn [rm_col set_cols]. rewrite list_lookup_fmap.
    split; (intros [|(rc & Hrc & ?)]; [by left|right]).
    - destruct (rm_col rmd !! c) as [rc0|]; [|done]. injection Hrc as <-. by exists rc0.
    - rewrite Hrc. cbn. eexists. by split. }
  split; [by rewrite <- Hf|unfold all_read; cbn; by rewrite length_fmap|]. intros c rc rcd Hrc Hrcd. unfold all_read in Hrcd. cbn [rm_col set_cols] in Hrcd.
  rewrite list_lookup_fmap in Hrcd. destruct (rm_col rmd !! c) as [rcd0|] eqn:E; [|done]. injection Hrcd as <-. cbn [rc_size rc_abd col_state].
  setoid_rewrite Hb. by apply (Hc c).
Qed.

Lemma demo_written : written 2 demo_map demo_parity.
Proof. split; [apply demo_map_wf|cbn; lia|apply demo_full|cbn; lia|apply demo_sized|apply demo_generated]. Qed.

Lemma demo_read_back : read_back demo_parity [1; 3]%nat demo_read.
Proof.
  split.
  - reflexivity.
  - apply damaged_read, demo_damaged.
  - split; [repeat constructor|]. repeat constructor; apply Nat.ltb_lt; reflexivity.
  - apply Z.leb_le. reflexivity.
  - apply Z.leb_le. reflexivity.
  - intros c rc _ Hrc. destruct c as [|[|[|[|[|[|c]]]]]]; vm_compute in Hrc; try discriminate Hrc; injection Hrc as <-; discriminate.
  - left. intros c Hc _. vm_compute in Hc. destruct c as [|[|[|c]]]; [reflexivity..|lia].
  - reflexivity.
Qed.

Lemma demo_valid : fst (demo_checksum (mjoin (datas demo_map))) = 0.
Proof. unfold demo_checksum. by rewrite bool_decide_true. Qed.

Lemma raidz_read_correct_witness :
  exists z', vdev_raidz_io_done demo_alloc demo_alloc demo_alloc false false demo_checksum true (replicate 5 9) demo_read = Ret z' /\
    io_error z' = 0 /\ datas (io_vsd z') = datas demo_map.
Proof.
  destruct (raidz_read_correct demo_alloc demo_alloc demo_alloc false false demo_checksum true (replicate 5 9) 2 demo_map demo_parity [1; 3]%nat demo_read)
    as (z' & Hr & He & Hcase).
  - apply demo_alloc_ok.
  - apply demo_alloc_ok.
  - apply demo_alloc_ok.
  - apply demo_written.
  - apply demo_read_back.
  - apply demo_valid.
  - reflexivity.
  - intros _. apply Nat.leb_le. reflexivity.
  - exists z'. split; [exact Hr|]. split; [exact He|]. destruct Hcase as [[Hun _]|(d & _ & _ & Hd)]; [by destruct Hun|]. apply Hd. intros d'. apply demo_exact.
Defined.


(** A block with good data whose parity could not be read, as a scrub finds
    it: the buffers of the parity columns hold whatever they held. *)
Definition unread_parity : zio :=
  demo_zio (set_cols demo_parity (imap (fun c rc =>
    if (c <? 3)%nat then col_abd (replicate 16 119) (col_state EIO true false rc) else col_state 0 true false rc) (rm_col demo_parity))).

(** All parity failed and the read is no resilver: parity is not generated,
    but the parity columns are written all the same. *)
Example failed_parity_rewritten :
  exists z', vdev_raidz_io_done demo_alloc demo_alloc demo_alloc false false demo_checksum true (replicate 5 9) unread_parity = Ret z' /\
    io_log z' = [ChecksumVerified] ++
      replicate 3 (ChildIo 0 0 (Some (replicate 16 119)) 16 ZIO_TYPE_WRITE ZIO_PRIORITY_ASYNC_WRITE (Z.lor ZIO_FLAG_IO_REPAIR ZIO_FLAG_SELF_HEAL) None).
Proof. eexists. split; [vm_compute; reflexivity|reflexivity]. Qed.
