(* ===== verification/RaidzSafe.v ===== *)
(** * RAID-Z: no wrong data

    Whatever bytes the columns of a read hold, [vdev_raidz_io_done] either
    leaves data that has the checksum of the block, or reads more columns, or
    ends with an error and repairs nothing. *)

From S2P Require Import Prelude Raidz RaidzParity RaidzMatrix RaidzSolve RaidzInvert RaidzRecover RaidzGeneral RaidzRuns RaidzReconstruct.
From S2P Require Import RaidzIo RaidzEnum RaidzCombrec RaidzSearch RaidzRead.

(** ** The worst error *)

(** [e] is the error of a column, and no column has one of a higher rank. *)
Definition worst (rm : raidz_map) (e : Z) : Prop :=
  (e = 0 \/ exists c rc, (c < rm_cols rm)%nat /\ rm_col rm !! c = Some rc /\ rc_error rc = e) /\
  forall c rc, (c < rm_cols rm)%nat -> rm_col rm !! c = Some rc -> (zio_error_rank (rc_error rc) <= zio_error_rank e)%nat.

Lemma worst_rank e1 e2 : zio_error_rank (zio_worst_error e1 e2) = Nat.max (zio_error_rank e1) (zio_error_rank e2).
Proof. unfold zio_worst_error. destruct (Nat.ltb_spec (zio_error_rank e2) (zio_error_rank e1)); lia. Qed.

Lemma rank_zero e : zio_error_rank e = 0%nat <-> e = 0.
Proof. unfold zio_error_rank. destruct (Z.eqb_spec e 0); [done|]. repeat split_if; split; done || lia. Qed.

Lemma worst_ok m rm : raidz_wf m rm -> exists e, vdev_raidz_worst_error rm = Ret e /\ worst rm e.
Proof.
  intros Hwf. pose proof (wf_cols m rm Hwf) as Hwc. unfold vdev_raidz_worst_error.
  match goal with |- context [for_loop ?a 0 ?body ?st0] =>
    destruct (for_loop_inv (fun i e => (e = 0 \/ exists c rc, (c < i)%nat /\ rm_col rm !! c = Some rc /\ rc_error rc = e) /\
      forall c rc, (c < i)%nat -> rm_col rm !! c = Some rc -> (zio_error_rank (rc_error rc) <= zio_error_rank e)%nat) a 0 body st0) as (e & -> & He) end.
  - intros i e Hi [Hin Hmax]. destruct (wf_col m rm i Hwf ltac:(lia)) as [rc Hrc]. rewrite (get_col_ok _ _ _ Hrc). cbn [mbind result_bind].
    eexists. split; [done|]. split.
    + unfold zio_worst_error. destruct (_ <? _)%nat; [|right; exists i, rc; split_and!; try done; lia].
      destruct Hin as [?|(c & rc' & Hc & ?)]; [by left|right]. exists c, rc'. split; [lia|done].
    + intros c rc' Hc Hrc'. rewrite worst_rank. destruct (decide (c = i)) as [-> | Hne]; [replace rc' with rc by congruence; lia|].
      specialize (Hmax c rc' ltac:(lia) Hrc'). lia.
  - split; [by left|]. lia.
  - exists e. done.
Qed.

Lemma worst_errs rm e c : worst rm e -> c ∈ all_errs rm -> (rm_cols rm <= length (rm_col rm))%nat -> e <> 0.
Proof.
  intros [_ Hmax] (He & Hc%elem_of_seq)%list_elem_of_filter Hl ->. destruct (lookup_lt_is_Some_2 (rm_col rm) c ltac:(lia)) as [rc Hrc].
  specialize (Hmax c rc ltac:(lia) Hrc). unfold errs in He. rewrite Hrc in He. apply negb_true_iff, Z.eqb_neq in He.
  apply He, rank_zero. change (zio_error_rank 0) with 0%nat in Hmax. lia.
Qed.

(** ** Reports *)

Definition is_start (e : effect) : Prop := match e with StartChecksum _ _ _ _ _ => True | _ => False end.

Lemma report_all_ok m z : raidz_wf m (io_vsd z) -> exists l, report_all z = Ret (logged l z) /\ Forall is_start l.
Proof.
  intros Hwf. pose proof (wf_cols m _ Hwf) as Hwc. unfold report_all. destruct (flag z ZIO_FLAG_SPECULATIVE); [exists []; by rewrite logged_nil|].
  match goal with |- context [for_loop ?a 0 ?body ?st0] =>
    destruct (for_loop_inv (fun i z' => exists l, z' = logged l z /\ Forall is_start l) a 0 body st0) as (z' & -> & l & -> & Hl) end.
  - intros c z' Hc (l & -> & Hl). destruct (wf_col m _ c Hwf ltac:(lia)) as [rc Hrc]. cbn [io_vsd logged]. rewrite (get_col_ok _ _ _ Hrc). cbn [mbind result_bind].
    destruct (rc_error rc =? 0); (eexists; split; [done|]); [|by exists l]. rewrite emit_logged. eexists. split; [done|]. apply Forall_app. split; [done|]. by apply Forall_singleton.
  - exists []. by rewrite logged_nil.
  - by exists l.
Qed.

(** ** Reads *)

Section safe.
Context (kmem_alloc abd_alloc zio_buf_alloc : Z -> list Z) (dg linear : bool) (zio_checksum_error : list Z -> Z * bool) (writeable : bool).
Context (Hkm : forall z, length (kmem_alloc z) = Z.to_nat z).
Context (Habd : forall z, bytes (abd_alloc z) /\ length (abd_alloc z) = Z.to_nat z).
Context (Hbuf : forall z, length (zio_buf_alloc z) = Z.to_nat z).
Context (m : nat) (z : zio) (tstore0 : list Z).
Notation rmd := (io_vsd z).
Notation fdc := (rm_firstdatacol rmd).
Notation cols := (rm_cols rmd).
Notation t := (tally_of rmd cols).
Context (Hwf : raidz_wf m rmd) (Hf : (1 <= fdc <= 3)%nat) (Hfull : first_full m rmd) (H255 : (cols <= 255)%nat) (Hsz : raidz_sized rmd).
Context (Hcor : length (raidz_corrected z) = 8%nat) (Hl5 : length tstore0 = 5%nat).
Notation io_done := (vdev_raidz_io_done kmem_alloc abd_alloc zio_buf_alloc dg linear zio_checksum_error writeable tstore0).

(** Parity verified at the end leaves the data as it is. *)
Lemma verify_keeps code z1 : same_io z z1 -> raidz_wf m (io_vsd z1) -> rm_firstdatacol (io_vsd z1) = fdc -> first_full m (io_vsd z1) ->
  exists zf n, (if code =? Z.shiftl 1 (Z.of_nat fdc) - 1 then Ret (z1, 0) else raidz_parity_verify zio_buf_alloc z1) = Ret (zf, n) /\
    same_io z zf /\ raidz_wf m (io_vsd zf) /\ datas (io_vsd zf) = datas (io_vsd z1).
Proof using All.
  intros Hs Hwf1 Ef Hfull1. destruct (code =? _); [by exists z1, 0|].
  destruct (Z.eq_dec (io_checksum z1) ZIO_CHECKSUM_NOPARITY) as [Hnp|Hnp].
  - exists z1, 0. unfold raidz_parity_verify. by rewrite Hnp.
  - destruct (parity_verify_ok zio_buf_alloc Hbuf m z1 Hwf1 ltac:(lia) Hfull1 Hnp) as (zf & n & -> & Hsf & _ & Hrp).
    exists zf, n. split; [done|]. split; [by eapply same_trans|]. split; [by eapply reparity_wf|]. by destruct (reparity_counts _ _ _ Hrp) as (_ & _ & ?).
Qed.

(** What a read may come to. *)
Definition redone (z' : zio) : Prop :=
  untried rmd <> [] /\ exists l, io_log z' = io_log z ++ l ++ Redone :: per_col (column_io z) (io_vsd z') (untried rmd) /\ Forall is_report l.
Definition verified (z' : zio) : Prop :=
  io_error z' = io_error z /\ exists d, io_abd (io_vsd z') = Ret d /\ fst (zio_checksum_error d) = 0.
Definition failed_read (z' : zio) : Prop :=
  io_error z' <> 0 /\ (if (fdc <? length (all_errs rmd))%nat then worst rmd (io_error z') else io_error z' = ECKSUM) /\
  exists l, io_log z' = io_log z ++ l ++ [ChecksumVerified] /\ Forall (fun e => is_report e \/ is_start e) l.

Lemma repair_failed z1 : raidz_wf m (io_vsd z1) -> io_error z1 <> 0 -> repair_children writeable 1 z1 = Ret (emit ChecksumVerified z1).
Proof using All.
  intros Hwf1 He. rewrite (repair_ok m) by done. unfold repairs_of. rewrite (proj2 (Z.eqb_neq _ _) He). done.
Qed.

Lemma not_found z1 : same_io z z1 -> raidz_wf m (io_vsd z1) -> (length (all_errs rmd) <= fdc)%nat ->
  exists z', ('(z2, code) ← Ret (z1, 0); if negb (code =? 0) then '(z3, _) ← (if code =? Z.shiftl 1 (Z.of_nat fdc) - 1 then Ret (z2, 0) else raidz_parity_verify zio_buf_alloc z2);
      repair_children writeable 1 z3 else z4 ← report_all (set_error ECKSUM z2); repair_children writeable 1 z4) = Ret z' /\ failed_read z'.
Proof using All.
  intros Hs Hwf1 Hle. cbn [mbind result_bind Z.eqb negb]. destruct (report_all_ok m (set_error ECKSUM z1) Hwf1) as (l & -> & Hl). cbn [mbind result_bind].
  rewrite repair_failed by done. eexists. split; [done|]. split; [done|]. rewrite (proj2 (Nat.ltb_ge _ _)) by done. split; [done|].
  destruct (si_log _ _ Hs) as (l0 & Hl0 & Hr0). exists (l0 ++ l). cbn. rewrite Hl0, <- !app_assoc. split; [done|].
  apply Forall_app. split; (eapply Forall_impl; [eassumption|]); auto.
Qed.

Lemma worst_touched cs rm1 e : touched rmd cs rm1 -> worst (set_missing 0 0 rm1) e -> worst rmd e.
Proof using All.
  intros Ht [Hin Hmax]. destruct (touched_counts _ _ _ Ht) as (Ec1 & _). cbn in Hin, Hmax. rewrite Ec1 in Hin, Hmax. split.
  - destruct Hin as [?|(c & rc & Hc & Hrc & He)]; [by left|right]. destruct (touched_inv _ _ _ _ _ Ht Hrc) as (rc0 & b & Hrc0 & -> & _). by exists c, rc0.
  - intros c rc Hc Hrc. destruct (touched_any _ _ _ c Ht) as (b & E & _). rewrite Hrc in E. exact (Hmax c _ Hc E).
Qed.

Lemma too_many rm1 z2 : touched rmd (data_errs rmd) rm1 -> io_vsd z2 = set_missing 0 0 rm1 -> same_io z z2 -> (fdc < length (all_errs rmd))%nat ->
  exists z', (e ← vdev_raidz_worst_error (io_vsd z2); repair_children writeable 1 (set_error e z2)) = Ret z' /\ failed_read z'.
Proof using All.
  intros Ht Hz Hs Hgt. pose proof (wf_cols m _ Hwf) as Hwc.
  assert (raidz_wf m (io_vsd z2)) as Hwf2 by (rewrite Hz; apply wf_missing; by eapply touched_wf).
  assert (exists c, c ∈ all_errs rmd) as [c0 Hc0] by (destruct (all_errs rmd) as [|c0 l]; [cbn in Hgt; lia|exists c0; apply list_elem_of_here]).
  destruct (worst_ok m (io_vsd z2) Hwf2) as (e & -> & Hw). cbn [mbind result_bind]. rewrite Hz in Hw. pose proof (worst_touched _ _ e Ht Hw) as Hwd.
  pose proof (worst_errs rmd e c0 Hwd Hc0 ltac:(lia)) as Hne. rewrite repair_failed by done. eexists. split; [done|].
  split; [done|]. rewrite (proj2 (Nat.ltb_lt _ _)) by done. split; [done|]. destruct (si_log _ _ Hs) as (l & Hl & Hrep). exists l. cbn [io_log emit set_error].
  rewrite Hl, <- app_assoc. split; [done|]. eapply Forall_impl; [exact Hrep|]. auto.
Qed.

Lemma read_safe :
  io_type z = ZIO_TYPE_READ -> rm_missingparity rmd <= Z.of_nat fdc -> rm_missingdata rmd <= Z.of_nat cols - Z.of_nat fdc ->
  (forall c rc, (c < cols)%nat -> rm_col rmd !! c = Some rc -> rc_error rc <> ECKSUM) -> parity_together z ->
  exists z', io_done z = Ret z' /\ (redone z' \/ verified z' \/ (untried rmd = [] /\ failed_read z')).
Proof using All.
  intros Hty Hmp Hmd Hec Htog. pose proof (wf_cols m _ Hwf) as Hwc. destruct (tally_facts rmd ltac:(lia)) as (Hte & Hde & Hpe & Hpu & Hsum). unfold vdev_raidz_io_done.
  rewrite !(proj2 (Z.leb_le _ _)) by lia. cbn [verify mbind result_bind]. rewrite count_errors_ok by (done || lia). cbn [mbind result_bind]. rewrite Hty.
  destruct (known_ok kmem_alloc abd_alloc zio_buf_alloc dg linear zio_checksum_error Hkm Habd Hbuf m z Hwf Hf Hfull H255 Hsz Hcor Htog)
    as (z1 & [u|] & -> & Hs1 & Hpost); cbn [mbind result_bind].
  { destruct Hpost as (rm1 & Ht1 & Hc1 & _ & Hfin & _). pose proof (touched_wf m _ _ _ Hwf Ht1) as Hwf1.
    assert (raidz_wf m (io_vsd z1) /\ datas (io_vsd z1) = datas rm1) as [Hwff Hdf].
    { destruct Hfin as [-> | Hrp]; [done|]. split; [by eapply reparity_wf|]. by destruct (reparity_counts _ _ _ Hrp) as (_ & _ & ?). }
    rewrite (repair_ok m) by done. eexists. split; [done|]. right. left. split; [apply (si_error _ _ Hs1)|]. cbn.
    eexists. split; [by apply (io_abd_ok m)|]. rewrite Hdf. exact Hc1. }
  destruct Hpost as [Ht1 _]. set (z2 := set_vsd (set_missing 0 0 (io_vsd z1)) z1). pose proof (touched_wf m _ _ _ Hwf Ht1) as Hwf1.
  destruct (touched_state _ _ _ Ht1) as (_ & _ & _ & _ & _ & Hun). assert (untried (io_vsd z2) = untried rmd) as Hun2 by exact Hun.
  assert (same_io z z2) as Hs2 by (eapply same_trans; [exact Hs1|apply same_vsd]). assert (raidz_wf m (io_vsd z2)) as Hwf2 by (by apply wf_missing).
  rewrite (missing_rest_ok m) by done. cbn [mbind result_bind]. rewrite Hun2. case_bool_decide as Hcase.
  { eexists. split; [done|]. left. split; [done|]. destruct (rest_log z z1 Hs1 Hcase) as (l & Hrep & Hl). by exists l. }
  assert (untried rmd = []) as Hnil by (destruct (untried rmd); [done|]; by destruct Hcase). rewrite Hnil. cbn [rest_reads]. rewrite logged_nil.
  destruct (Z.ltb_spec (Z.of_nat fdc) (total_errors t)) as [Hgt|Hle].
  { destruct (too_many (io_vsd z1) z2 Ht1 eq_refl Hs2 ltac:(lia)) as (z' & Hr & Hfail). exists z'. split; [exact Hr|]. by right; right. }
  destruct (Z.ltb_spec (total_errors t) (Z.of_nat fdc)) as [Hlt|Hge].
  2:{ destruct (not_found z2 Hs2 Hwf2 ltac:(lia)) as (z' & Hr & Hfail). exists z'. split; [exact Hr|]. by right; right. }
  destruct (combrec_ok kmem_alloc abd_alloc zio_buf_alloc dg linear zio_checksum_error Hkm Habd Hbuf m (set_missing 0 0 rmd) (wf_missing 0 0 m rmd Hwf) Hf H255
    (sized_missing 0 0 rmd Hsz) (total_errors t) (data_errors t) tstore0 z2) as (z3 & code & -> & Hs3 & Hout); try done.
  { by apply touched_missing. } { change (data_errs (set_missing 0 0 rmd)) with (data_errs rmd). rewrite Hde, <- length_zero_iff_nil. lia. }
  { by rewrite (si_corrected _ _ Hs2). }
  assert (same_io z z3) as Hs3' by (by eapply same_trans). destruct Hout as [(w & Hcode & Hfo)|(-> & Ht3 & _)].
  2:{ destruct (not_found z3 Hs3' (touched_wf m _ _ _ (wf_missing 0 0 m rmd Hwf) Ht3) ltac:(lia)) as (z' & Hr & Hfail). exists z'. split; [exact Hr|]. by right; right. }
  destruct (found_map kmem_alloc abd_alloc dg linear zio_checksum_error zio_buf_alloc m (set_missing 0 0 rmd) w code (io_vsd z3) Hkm Habd Hbuf
    (wf_missing 0 0 m rmd Hwf) Hf H255 (sized_missing 0 0 rmd Hsz) Hfo) as (rm1 & Ht & Hm & Hwf3 & _ & Hck3 & _).
  destruct (marked_counts _ _ _ Hm) as (_ & Ef3 & _). destruct (touched_counts _ _ _ Ht) as (_ & Ef1 & _). cbn in Ef1.
  cbn [mbind result_bind]. rewrite (proj2 (Z.eqb_neq code 0)) by lia. cbn [negb].
  destruct (verify_keeps code z3 Hs3' Hwf3) as (zf & n & -> & Hsf & Hwff & Hdf).
  { by rewrite Ef3. }
  { intros rc Hrc. rewrite Ef3, Ef1, (ma_col _ _ _ Hm) in Hrc. destruct (rm_col rm1 !! fdc) as [rc1|] eqn:Hrc1; [|done].
    destruct (touched_inv _ _ _ _ _ Ht Hrc1) as (rc0 & b & Hrc0 & -> & _). cbn in Hrc. injection Hrc as <-. pose proof (Hfull rc0 Hrc0) as H8. by case_decide. }
  cbn [mbind result_bind]. rewrite (repair_ok m) by done. eexists. split; [done|]. right. left. split; [apply (si_error _ _ Hsf)|]. cbn.
  eexists. split; [by apply (io_abd_ok m)|]. rewrite Hdf. exact Hck3.
Qed.
End safe.

(** C17: a read never passes off wrong data.  Whatever bytes the columns hold
    and however many of them reported an error, [vdev_raidz_io_done] returns,
    and one of three things has happened.  Some columns had not been read, and
    the I/O is redone with a read of each of these.  Or the data has the
    checksum of the block, and the error of the I/O is what it was.  Or all
    columns have been read and the I/O ends with an error: the worst of the
    columns if these have more errors than there is parity, a checksum error
    otherwise; then nothing is written to any child. *)
Theorem raidz_read_safe kmem_alloc abd_alloc zio_buf_alloc dg linear zio_checksum_error writeable tstore0 m z :
  (forall n, length (kmem_alloc n) = Z.to_nat n) ->
  (forall n, bytes (abd_alloc n) /\ length (abd_alloc n) = Z.to_nat n) ->
  (forall n, length (zio_buf_alloc n) = Z.to_nat n) ->
  raidz_wf m (io_vsd z) -> (1 <= rm_firstdatacol (io_vsd z) <= 3)%nat -> first_full m (io_vsd z) -> (rm_cols (io_vsd z) <= 255)%nat -> raidz_sized (io_vsd z) ->
  length (raidz_corrected z) = 8%nat -> length tstore0 = 5%nat -> io_type z = ZIO_TYPE_READ ->
  rm_missingparity (io_vsd z) <= Z.of_nat (rm_firstdatacol (io_vsd z)) ->
  rm_missingdata (io_vsd z) <= Z.of_nat (rm_cols (io_vsd z)) - Z.of_nat (rm_firstdatacol (io_vsd z)) ->
  (forall c rc, (c < rm_cols (io_vsd z))%nat -> rm_col (io_vsd z) !! c = Some rc -> rc_error rc <> ECKSUM) -> parity_together z ->
  exists z', vdev_raidz_io_done kmem_alloc abd_alloc zio_buf_alloc dg linear zio_checksum_error writeable tstore0 z = Ret z' /\
    (redone z z' \/ verified zio_checksum_error z z' \/ (untried (io_vsd z) = [] /\ failed_read z z')).
Proof. intros. by apply (read_safe kmem_alloc abd_alloc zio_buf_alloc dg linear zio_checksum_error writeable) with (m := m). Qed.

Lemma demo_read_facts : raidz_wf 2 (io_vsd demo_read) /\ first_full 2 (io_vsd demo_read) /\ raidz_sized (io_vsd demo_read).
Proof.
  destruct (dmg_counts 2 demo_map demo_parity (io_vsd demo_read) [1; 3]%nat (wn_wf _ _ _ demo_written) (wn_parities _ _ _ demo_written)
    (wn_full _ _ _ demo_written) (wn_cols _ _ _ demo_written) (wn_sized _ _ _ demo_written) (wn_parity _ _ _ demo_written)
    (rb_damaged _ _ _ demo_read_back)) as (_ & _ & Hwf & Hsz). split; [exact Hwf|]. split; [|exact Hsz].
  intros rc Hrc. vm_compute in Hrc. injection Hrc as <-. reflexivity.
Qed.

(** The damaged stripe with a checksum no data has. *)
Lemma raidz_read_safe_witness :
  exists z', vdev_raidz_io_done demo_alloc demo_alloc demo_alloc false false (fun _ => (ECKSUM, false)) true (replicate 5 9) demo_read = Ret z' /\
    failed_read demo_read z'.
Proof.
  destruct (raidz_read_safe demo_alloc demo_alloc demo_alloc false false (fun _ => (ECKSUM, false)) true (replicate 5 9) 2 demo_read)
    as (z' & Hr & Hcase).
  - apply demo_alloc_ok.
  - apply demo_alloc_ok.
  - apply demo_alloc_ok.
  - apply demo_read_facts.
  - split; apply Nat.leb_le; reflexivity.
  - apply demo_read_facts.
  - apply Nat.leb_le. reflexivity.
  - apply demo_read_facts.
  - reflexivity.
  - reflexivity.
  - reflexivity.
  - apply (rb_missingparity _ _ _ demo_read_back).
  - apply (rb_missingdata _ _ _ demo_read_back).
  - apply (rb_errors _ _ _ demo_read_back).
  - apply (rb_together _ _ _ demo_read_back).
  - exists z'. split; [exact Hr|]. destruct Hcase as [[Hun _]|[(_ & d & _ & Hd)|[_ Hf]]]; [by destruct Hun|discriminate Hd|exact Hf].
Defined.

(** A write fails if more children failed than there is parity, with the worst
    of their errors; otherwise the I/O is left as it is. *)
Lemma write_done kmem_alloc abd_alloc zio_buf_alloc dg linear zio_checksum_error writeable tstore0 m z :
  raidz_wf m (io_vsd z) -> io_type z = ZIO_TYPE_WRITE ->
  rm_missingparity (io_vsd z) <= Z.of_nat (rm_firstdatacol (io_vsd z)) ->
  rm_missingdata (io_vsd z) <= Z.of_nat (rm_cols (io_vsd z)) - Z.of_nat (rm_firstdatacol (io_vsd z)) ->
  (forall c rc, (c < rm_cols (io_vsd z))%nat -> rm_col (io_vsd z) !! c = Some rc -> rc_error rc <> ECKSUM) ->
  vdev_raidz_io_done kmem_alloc abd_alloc zio_buf_alloc dg linear zio_checksum_error writeable tstore0 z =
    (if (rm_firstdatacol (io_vsd z) <? length (all_errs (io_vsd z)))%nat then e ← vdev_raidz_worst_error (io_vsd z); Ret (set_error e z) else Ret z) /\
  exists e, vdev_raidz_worst_error (io_vsd z) = Ret e /\ worst (io_vsd z) e.
Proof.
  intros Hwf Hty Hmp Hmd Hec. pose proof (wf_cols m _ Hwf) as Hwc. destruct (tally_facts (io_vsd z) ltac:(lia)) as (Hte & _).
  split; [|by apply (worst_ok m)]. unfold vdev_raidz_io_done. rewrite !(proj2 (Z.leb_le _ _)) by lia. cbn [verify mbind result_bind].
  rewrite count_errors_ok by (done || lia). cbn [mbind result_bind]. rewrite Hty, Hte.
  destruct (Z.ltb_spec (Z.of_nat (rm_firstdatacol (io_vsd z))) (Z.of_nat (length (all_errs (io_vsd z))))), (Nat.ltb_spec (rm_firstdatacol (io_vsd z)) (length (all_errs (io_vsd z)))); done || lia.
Qed.
