(* ===== verification/RaidzStart.v ===== *)
(** * RAID-Z: starting an I/O

    What [vdev_raidz_io_start] issues.  The layout of a block does not depend
    on its bytes; a write sends every column and the sectors the padding
    skips; a read asks for the columns that can be read, parity only when it
    may be needed. *)

From S2P Require Import Prelude Raidz RaidzParity RaidzAlloc RaidzXlate RaidzMatrix RaidzSolve RaidzInvert RaidzRecover RaidzGeneral RaidzRuns RaidzReconstruct.
From S2P Require Import RaidzIo RaidzEnum RaidzCombrec RaidzSearch RaidzRead.

(** ** The layout *)

Lemma placed_fresh d o i (l : list raidz_col) c rc : alter (col_place d o) i l !! c = Some rc ->
  exists rc0, l !! c = Some rc0 /\ rc_error rc = rc_error rc0 /\ rc_tried rc = rc_tried rc0 /\ rc_skipped rc = rc_skipped rc0 /\ rc_size rc = rc_size rc0.
Proof.
  destruct (decide (i = c)) as [-> | Hne]; [|rewrite list_lookup_alter_ne by done; intros Hc; by exists rc]. rewrite list_lookup_alter_eq.
  destruct (l !! c) as [rc0|]; [|done]. intros [= <-]. by exists rc0.
Qed.

Section layout.
Context (offset u dcols np s : Z).
Context (Hu : 3 <= u <= 24) (Hnp : 1 <= np <= 3) (Hd : np < dcols <= 255).
Context (Hs : 1 <= s) (Hsize : s * 2 ^ u < 2 ^ 32) (Hoff : 0 <= offset < 2 ^ 62).
Notation nsc := (Z.to_nat (ascols dcols np s)).

(** The first two columns change places. *)
Definition swapped : bool := (Z.to_nat np =? 1)%nat && negb (Z.land offset (Z.shiftl 1 20) =? 0).

Definition layout (al : Z -> list Z) (abd : list Z) : raidz_map :=
  if swapped then alloc_swapped al abd offset u dcols np s else alloc_map al abd offset u dcols np s.

(** The columns before they get their bytes. *)
Definition blank : list raidz_col :=
  let cols := base_col offset u dcols np s <$> seq 0 nsc in
  if swapped then alter (col_place (cdev offset u dcols 0) (coff offset u dcols 0)) 1%nat
    (alter (col_place (cdev offset u dcols 1) (coff offset u dcols 1)) 0%nat cols) else cols.

Lemma layout_col al abd c : rm_col (layout al abd) !! c = col_abd (col_bytes al abd u dcols np s c) <$> blank !! c.
Proof using.
  unfold layout, blank. assert (forall c, (full_col al abd offset u dcols np s <$> seq 0 nsc) !! c =
    col_abd (col_bytes al abd u dcols np s c) <$> (base_col offset u dcols np s <$> seq 0 nsc) !! c) as H.
  { intros c'. rewrite !list_lookup_fmap. destruct (seq 0 nsc !! c') as [i|] eqn:E; [|done]. apply lookup_seq in E as [-> _]. done. }
  destruct swapped; [|apply H]. cbn [alloc_swapped rm_col].
  destruct (decide (c = 1%nat)) as [-> | H1]; [rewrite !list_lookup_alter_eq, !(list_lookup_alter_ne _ _ 0 1) by done|
    rewrite !(list_lookup_alter_ne _ _ 1 c) by done; destruct (decide (c = 0%nat)) as [-> | H0]; [rewrite !list_lookup_alter_eq|by rewrite !list_lookup_alter_ne by done]];
    rewrite H; by destruct ((base_col offset u dcols np s <$> seq 0 nsc) !! _).
Qed.

Lemma blank_fresh c rc : blank !! c = Some rc ->
  rc_error rc = 0 /\ rc_tried rc = false /\ rc_skipped rc = false /\ rc_size rc = csize u dcols np s (Z.of_nat c).
Proof using.
  unfold blank. assert (forall c rc, (base_col offset u dcols np s <$> seq 0 nsc) !! c = Some rc ->
    rc_error rc = 0 /\ rc_tried rc = false /\ rc_skipped rc = false /\ rc_size rc = csize u dcols np s (Z.of_nat c)) as H.
  { intros c' rc'. rewrite list_lookup_fmap. destruct (seq 0 nsc !! c') as [i|] eqn:E; [|done]. apply lookup_seq in E as [-> _]. by intros [= <-]. }
  destruct swapped; [|apply H]. intros Hc. apply placed_fresh in Hc as (rc1 & Hc & E1). apply placed_fresh in Hc as (rc0 & Hc & E0).
  apply H in Hc. destruct E1 as (-> & -> & -> & ->), E0 as (-> & -> & -> & ->). done.
Qed.

Lemma layout_fields al abd :
  rm_cols (layout al abd) = Z.to_nat (aacols dcols np s) /\ rm_firstdatacol (layout al abd) = Z.to_nat np /\ rm_scols (layout al abd) = nsc /\
  rm_missingdata (layout al abd) = 0 /\ rm_missingparity (layout al abd) = 0 /\
  rm_nskip (layout al abd) = rup (atot dcols np s) (np + 1) - atot dcols np s /\
  rm_skipstart (layout al abd) = (if swapped && (abc dcols np s =? 0) then 1 else abc dcols np s).
Proof using. unfold layout. destruct swapped; split_and!; done. Qed.

Lemma layout_frame al abd al' abd' : set_cols (layout al abd) (rm_col (layout al' abd')) = layout al' abd'.
Proof using. unfold layout. by destruct swapped. Qed.

Section bytes.
Context (al : Z -> list Z) (abd : list Z) (Hal : forall n, bytes (al n) /\ length (al n) = Z.to_nat n).
Context (Habd : Z.of_nat (length abd) = s * 2 ^ u) (Hbytes : bytes abd).
#[local] Notation alloc_args lem := (lem al abd offset u dcols np s Hal ltac:(lia) Hnp Hd Hs Hsize Hoff Habd Hbytes).

Lemma layout_alloc : vdev_raidz_map_alloc al abd (s * 2 ^ u) offset u dcols np = Ret (layout al abd).
Proof using All. rewrite (alloc_args map_alloc_eq). done. Qed.

Lemma layout_spec : alloc_spec al abd offset u dcols np s (layout al abd).
Proof using All. destruct (alloc_args alloc_map_spec) as [H1 H2]. unfold layout. by destruct swapped. Qed.

Lemma layout_len : length (rm_col (layout al abd)) = nsc /\ (Z.to_nat np < Z.to_nat (aacols dcols np s) <= nsc)%nat.
Proof using All.
  pose proof layout_spec as Hsp. destruct (alloc_args as_all (layout al abd) Hsp) as (_ & Hc & Hl & _). destruct (layout_fields al abd) as (Ec & Ef & Es & _).
  rewrite Hl, Es. split; [done|]. rewrite <- Ec, <- Es, <- Ef. lia.
Qed.

Lemma layout_bytes c : length (col_bytes al abd u dcols np s c) = Z.to_nat (csize u dcols np s (Z.of_nat c)) /\ bytes (col_bytes al abd u dcols np s c) /\
  ((Z.to_nat (aacols dcols np s) <= c)%nat -> col_bytes al abd u dcols np s c = []).
Proof using All.
  destruct (decide (Z.of_nat c < aacols dcols np s)) as [Hc|Hc].
  - destruct (alloc_args length_col_bytes (layout al abd) layout_spec c Hc) as [-> ?]. split_and!; [done..|lia].
  - assert (csize u dcols np s (Z.of_nat c) = 0) as H0 by (unfold csize; by rewrite Z.geb_leb, (proj2 (Z.leb_le _ _)) by lia).
    pose proof layout_len as [_ Hlt]. assert (col_bytes al abd u dcols np s c = []) as ->; [|rewrite H0; split_and!; [done|constructor|done]].
    unfold col_bytes. rewrite (proj2 (Z.ltb_ge _ _)), H0 by lia. done.
Qed.

Lemma layout_written : exists m rm', written m (layout al abd) rm' /\ mjoin (datas (layout al abd)) = abd /\
  touched (layout al abd) (seq 0 (Z.to_nat np)) rm' /\ rm_asize (layout al abd) = vdev_raidz_asize u dcols np (s * 2 ^ u).
Proof using All.
  destruct (alloc_args as_all (layout al abd) layout_spec) as (Hf & Hc & Hl & _ & _ & Hdata & Hex & Hdesc & Hwf & Has & _ & _ & Hpos).
  destruct (Hwf ltac:(lia)) as (m & Hwfm & Hfull). exists m. assert (raidz_sized (layout al abd)) as Hsz.
  { split; [intros c rc Hcc; apply Hex; lia| |intros c rc Hcc; apply Hpos; lia]. intros c c' rc rc' Hcc _. apply Hdesc. lia. }
  destruct (generate_touched m (layout al abd) Hwfm ltac:(lia) Hfull) as (rm' & Hg & Ht & _). exists rm'. rewrite Hf in Ht. split_and!; try done.
  split; try done; [lia|]. destruct (layout_fields al abd) as (Ec & _). rewrite Ec. pose proof layout_len as [_ Hlt].
  pose proof (alloc_args scols_bounds). lia.
Qed.

Lemma layout_lookup c : (c < nsc)%nat -> exists rc, rm_col (layout al abd) !! c = Some rc.
Proof using All. intros Hc. apply lookup_lt_is_Some_2. pose proof layout_len. lia. Qed.
End bytes.

(** The bytes of a block do not move its columns. *)
Lemma layout_touched al abd al' abd' :
  (forall n, bytes (al n) /\ length (al n) = Z.to_nat n) -> Z.of_nat (length abd) = s * 2 ^ u -> bytes abd ->
  (forall n, bytes (al' n) /\ length (al' n) = Z.to_nat n) -> Z.of_nat (length abd') = s * 2 ^ u -> bytes abd' ->
  touched (layout al abd) (seq 0 nsc) (layout al' abd').
Proof using All.
  intros Hal Hl Hb Hal' Hl' Hb'. split; [apply layout_frame| |].
  - intros c Hc. rewrite elem_of_seq in Hc. destruct (layout_len al abd Hal Hl Hb) as [E _], (layout_len al' abd' Hal' Hl' Hb') as [E' _].
    rewrite !lookup_ge_None_2 by lia. done.
  - intros c _. destruct (layout_bytes al abd Hal Hl Hb c) as (L & _), (layout_bytes al' abd' Hal' Hl' Hb' c) as (L' & B' & _).
    exists (col_bytes al' abd' u dcols np s c). rewrite !layout_col. destruct (blank !! c) as [rc|]; [|done]. cbn. split; [done|].
    intros ? [= <-]. cbn. split; [lia|done].
Qed.
End layout.

(** ** Child I/Os *)

(** The columns that were to be read. *)
Definition requests (l : list effect) : list nat :=
  omap (fun e => match e with ChildIo _ _ _ _ ZIO_TYPE_READ _ _ (Some c) => Some c | _ => None end) l.

Lemma requests_app l1 l2 : requests (l1 ++ l2) = requests l1 ++ requests l2.
Proof. apply omap_app. Qed.
Lemma requests_reports l : Forall is_report l -> requests l = [].
Proof. induction 1 as [|e l He _ IH]; [done|]. by destruct e. Qed.
Lemma requests_per_col z0 rm0 cs : io_type z0 = ZIO_TYPE_READ -> Forall (fun c => c < length (rm_col rm0))%nat cs ->
  requests (per_col (column_io z0) rm0 cs) = cs.
Proof.
  intros Hty. induction 1 as [|c cs Hc _ IH]; [done|]. destruct (lookup_lt_is_Some_2 _ _ Hc) as [rc Hrc].
  unfold per_col in *. cbn. rewrite Hrc. cbn. rewrite Hty. cbn. by f_equal.
Qed.

(** ** Writes *)

(** An optional write over a skipped sector. *)
Definition is_optional (e : effect) : Prop :=
  match e with
  | ChildIo _ _ None _ ZIO_TYPE_WRITE _ fl None => fl = Z.lor ZIO_FLAG_NODATA ZIO_FLAG_OPTIONAL
  | _ => False
  end.

Lemma skip_writes_ok n ashift c z :
  io_type z = ZIO_TYPE_WRITE -> (1 <= rm_scols (io_vsd z) <= length (rm_col (io_vsd z)))%nat -> 0 <= c <= Z.of_nat (rm_scols (io_vsd z)) ->
  exists l, skip_writes n ashift c z = Ret (logged l z) /\ length l = n /\ Forall is_optional l.
Proof.
  intros Hty Hsc. revert c z Hty Hsc. induction n as [|n IH]; intros c z Hty Hsc Hc; cbn [skip_writes].
  { exists []. by rewrite logged_nil. }
  rewrite (proj2 (Z.leb_le _ _)) by lia. cbn [verify mbind result_bind]. cbv zeta. set (c' := if c =? _ then 0 else c).
  assert (0 <= c' < Z.of_nat (rm_scols (io_vsd z))) as Hc' by (unfold c'; destruct (Z.eqb_spec c (Z.of_nat (rm_scols (io_vsd z)))); lia).
  destruct (lookup_lt_is_Some_2 (rm_col (io_vsd z)) (Z.to_nat c') ltac:(lia)) as [rc Hrc]. rewrite (get_col_ok _ _ _ Hrc). cbn [mbind result_bind].
  set (e := ChildIo _ _ _ _ _ _ _ _). destruct (IH (c' + 1) (emit e z)) as (l & -> & Hl & Ho); [done|exact Hsc|cbn; lia|].
  exists (e :: l). split; [|split; [cbn; lia|]].
  - unfold logged, emit. cbn. by rewrite <- app_assoc.
  - constructor; [|done]. cbn. by rewrite Hty.
Qed.

Lemma verify_touched u dcols np offset size rm cs rm' c :
  touched rm cs rm' -> vdev_raidz_io_verify u dcols np offset size rm' c = vdev_raidz_io_verify u dcols np offset size rm c.
Proof.
  intros Ht. destruct (touched_any _ _ _ c Ht) as (b & E & _). unfold vdev_raidz_io_verify, get_col, idx. rewrite E. by destruct (rm_col rm !! c).
Qed.

Lemma column_loop m rm u dcols np offset size z : raidz_wf m rm -> io_vsd z = rm ->
  (forall c, (c < rm_cols rm)%nat -> vdev_raidz_io_verify u dcols np offset size rm c = Ret tt) ->
  for_loop (rm_cols rm) 0 (fun c z =>
    rc ← get_col (io_vsd z) c; _ ← vdev_raidz_io_verify u dcols np offset size (io_vsd z) c; Ret (emit (column_io z c rc) z)) z =
    Ret (logged (per_col (column_io z) rm (seq 0 (rm_cols rm))) z).
Proof.
  intros Hwf Hz Hver. pose proof (wf_cols m rm Hwf) as Hwc.
  match goal with |- for_loop ?a 0 ?body ?st0 = _ =>
    destruct (for_loop_inv (fun i z' => z' = logged (per_col (column_io z) rm (seq 0 i)) z) a 0 body st0) as (z' & -> & ->); [| |done] end.
  - intros c z' Hc ->. destruct (wf_col m rm c Hwf ltac:(lia)) as [rc Hrc]. cbn [io_vsd logged].
    rewrite Hz, (get_col_ok _ _ _ Hrc), Hver by lia. cbn [mbind result_bind].
    eexists. split; [done|]. rewrite emit_logged, column_io_logged. f_equal. unfold per_col. rewrite seq_S, omap_app. cbn. by rewrite Hrc.
  - cbn. by rewrite logged_nil.
Qed.

Section start.
Context (offset u dcols np s : Z).
Context (Hu : 3 <= u <= 24) (Hnp : 1 <= np <= 3) (Hd : np < dcols <= 255).
Context (Hs : 1 <= s) (Hsize : s * 2 ^ u < 2 ^ 32) (Hoff : 0 <= offset < 2 ^ 62).
Context (al : Z -> list Z) (abd : list Z) (Hal : forall n, bytes (al n) /\ length (al n) = Z.to_nat n).
Context (Habd : Z.of_nat (length abd) = s * 2 ^ u) (Hbytes : bytes abd).
Context (readable : Z -> bool) (dtl_missing : Z -> Z -> bool).
Notation rm := (layout offset u dcols np s al abd).
#[local] Notation lay lem := (lem offset u dcols np s Hu Hnp Hd Hs Hsize Hoff al abd Hal Habd Hbytes).
#[local] Notation alloc_args lem := (lem al abd offset u dcols np s Hal ltac:(lia) Hnp Hd Hs Hsize Hoff Habd Hbytes).
Notation io_start := (vdev_raidz_io_start al readable dtl_missing abd (s * 2 ^ u) offset u dcols np).

Lemma layout_verify : offset mod 2 ^ u = 0 -> forall c, (c < rm_cols rm)%nat -> vdev_raidz_io_verify u dcols np offset (s * 2 ^ u) rm c = Ret tt.
Proof using All.
  intros Hsec. assert (offset = (offset / 2 ^ u) * 2 ^ u) as E by (rewrite Z.mul_comm; apply Z_div_exact_full_2; [lia|done]).
  destruct (vdev_raidz_io_verify_ok al abd (offset / 2 ^ u) u dcols np s) as (rm0 & Hm & _ & Hv); try done; rewrite <- ?E in *; try lia.
  rewrite (lay layout_alloc) in Hm. injection Hm as <-. exact Hv.
Qed.

Lemma start_write m rm' z : offset mod 2 ^ u = 0 -> io_type z = ZIO_TYPE_WRITE -> written m rm rm' ->
  exists l, io_start z = Ret (logged (per_col (column_io z) rm' (seq 0 (rm_cols rm')) ++ l ++ [Execute]) (set_vsd rm' z)) /\
    Z.of_nat (length l) = rm_nskip rm' /\ Forall is_optional l.
Proof using All.
  intros Hsec Hty Hw. unfold vdev_raidz_io_start. rewrite (lay layout_alloc). cbn [mbind result_bind].
  destruct (lay layout_written) as (m' & rm2 & _ & _ & _ & Has). rewrite (proj2 (Z.eqb_eq _ _) Has). cbn [verify mbind result_bind io_type set_vsd]. rewrite Hty.
  rewrite (wn_parity _ _ _ Hw). cbn [mbind result_bind].
  destruct (generated m rm rm' (wn_wf _ _ _ Hw) (wn_parities _ _ _ Hw) (wn_full _ _ _ Hw) (wn_parity _ _ _ Hw)) as (Hwf' & Ef & Ec & _).
  destruct (layout_fields offset u dcols np s al abd) as (Fc & Ff & Fs & _ & _ & Fn & Fk). destruct (lay layout_len) as [Hl Hlt].
  destruct (generate_touched m rm (wn_wf _ _ _ Hw) (wn_parities _ _ _ Hw) (wn_full _ _ _ Hw)) as (rmg & Hg & Ht & _).
  rewrite (wn_parity _ _ _ Hw) in Hg. injection Hg as <-. destruct (touched_counts _ _ _ Ht) as (_ & _ & El).
  rewrite (column_loop m).
  2:{ done. } 2:{ done. } 2:{ intros c Hc. rewrite (verify_touched _ _ _ _ _ _ _ _ _ Ht). apply (layout_verify Hsec). lia. }
  cbn [mbind result_bind].
  assert (rm_scols rm' = rm_scols rm /\ rm_nskip rm' = rm_nskip rm /\ rm_skipstart rm' = rm_skipstart rm) as (E1 & E2 & E3) by (by rewrite <- (to_frame _ _ _ Ht)).
  destruct (alloc_args counts) as (Hc1 & Hc2 & _). pose proof (alloc_args scols_bounds) as Hsb. destruct (alloc_args tot_small) as (_ & Ht0 & _).
  pose proof (alloc_args rup_bounds (atot dcols np s) (np + 1) ltac:(lia) ltac:(lia)) as Hrup.
  set (z1 := logged _ _). destruct (skip_writes_ok (Z.to_nat (rm_nskip rm')) u (rm_skipstart rm') z1) as (l & -> & Hll & Ho).
  - exact Hty.
  - cbn. lia.
  - cbn. rewrite E3, Fk, E1, Fs. destruct (_ && _); lia.
  - cbn [mbind result_bind]. exists l. split; [|split; [|done]].
    + unfold z1. rewrite emit_logged. unfold logged. cbn. by rewrite <- !app_assoc.
    + rewrite Hll, E2, Fn. lia.
Qed.

(** ** Reads *)

(** What becomes of a column. *)
Definition started (txg : Z) (rc : raidz_col) : raidz_col :=
  if negb (readable (rc_devidx rc)) then col_state ENXIO true true rc
  else if dtl_missing (rc_devidx rc) txg then col_state ESTALE (rc_tried rc) true rc else rc.
Definition askable (txg : Z) (rc : raidz_col) : bool := readable (rc_devidx rc) && negb (dtl_missing (rc_devidx rc) txg).

(** The columns from [k] on have been gone through, from the last one down. *)
Record reading (z : zio) (k : nat) (z' : zio) (md mp : Z) (l : list effect) : Prop := {
  rg_io : z' = logged l (set_vsd (io_vsd z') z);
  rg_frame : set_missing md mp (set_cols rm (rm_col (io_vsd z'))) = io_vsd z';
  rg_col c : rm_col (io_vsd z') !! c = (fun rc => if decide (k <= c < rm_cols rm)%nat then started (io_txg z) rc else rc) <$> rm_col rm !! c;
  rg_data : 0 <= md <= Z.of_nat (rm_cols rm - Nat.max k (rm_firstdatacol rm));
  rg_parity : 0 <= mp <= Z.of_nat (rm_firstdatacol rm - k);
  rg_requests c : c ∈ requests l <-> exists rc, rm_col rm !! c = Some rc /\ (k <= c < rm_cols rm)%nat /\ askable (io_txg z) rc = true /\
    ((rm_firstdatacol rm <= c)%nat \/ (0 <? md) || flag z (Z.lor ZIO_FLAG_SCRUB ZIO_FLAG_RESILVER) = true);
}.

Lemma reading_step z k z' md mp l : io_type z = ZIO_TYPE_READ -> (S k <= rm_cols rm)%nat -> (rm_cols rm <= length (rm_col rm))%nat ->
  reading z (S k) z' md mp l -> exists z2 md2 mp2 l2, read_column readable dtl_missing k z' = Ret z2 /\ reading z k z2 md2 mp2 l2.
Proof using All.
  intros Hty Hk Hlen [Hio Hfr Hcol Hmd Hmp Hrq]. destruct (lookup_lt_is_Some_2 (rm_col rm) k ltac:(lia)) as [rc Hrc].
  assert (rm_col (io_vsd z') !! k = Some rc) as Hk' by (rewrite Hcol, Hrc; cbn; by rewrite decide_False by lia).
  unfold read_column. rewrite (get_col_ok _ _ _ Hk'). cbn [mbind result_bind].
  assert (rm_firstdatacol (io_vsd z') = rm_firstdatacol rm /\ rm_missingdata (io_vsd z') = md /\ rm_missingparity (io_vsd z') = mp) as (-> & -> & ->).
  { by rewrite <- Hfr. }
  assert (io_txg z' = io_txg z /\ io_type z' = io_type z /\ flag z' (Z.lor ZIO_FLAG_SCRUB ZIO_FLAG_RESILVER) = flag z (Z.lor ZIO_FLAG_SCRUB ZIO_FLAG_RESILVER))
    as (-> & Hty' & ->) by (by rewrite Hio).
  assert (forall f c, (forall rc0, rc0 = rc -> f rc0 = started (io_txg z) rc) ->
    (if decide (c = k) then f <$> rm_col (io_vsd z') !! c else rm_col (io_vsd z') !! c) =
      (fun rc => if decide (k <= c < rm_cols rm)%nat then started (io_txg z) rc else rc) <$> rm_col rm !! c) as Hnew.
  { intros f c Hf. rewrite Hcol. destruct (decide (c = k)) as [-> | Hne].
    - rewrite Hrc. cbn. rewrite decide_False, decide_True by lia. by rewrite Hf.
    - destruct (rm_col rm !! c); [|done]. cbn. by destruct (decide (S k <= c < rm_cols rm)%nat), (decide (k <= c < rm_cols rm)%nat); try lia. }
  assert (askable (io_txg z) rc = false -> forall (md2 : Z), (forall c, (c < rm_firstdatacol rm)%nat -> (S k <= c)%nat -> md2 = md) -> forall c, c ∈ requests l <->
    exists rc, rm_col rm !! c = Some rc /\ (k <= c < rm_cols rm)%nat /\ askable (io_txg z) rc = true /\
      ((rm_firstdatacol rm <= c)%nat \/ (0 <? md2) || flag z (Z.lor ZIO_FLAG_SCRUB ZIO_FLAG_RESILVER) = true)) as Hsame.
  { intros Hna md2 Hm c. rewrite Hrq. split; intros (rc0 & Hrc0 & Hc & Hask & Hor); exists rc0; (split_and!; [done| |lia|done|]).
    - lia.
    - destruct (decide (rm_firstdatacol rm <= c)%nat); [by left|]. right. rewrite (Hm c) by lia. destruct Hor; [lia|done].
    - destruct (decide (c = k)) as [-> | ?]; [congruence|lia].
    - destruct (decide (rm_firstdatacol rm <= c)%nat); [by left|]. right.
      destruct (decide (c = k)) as [-> | ?]; [congruence|]. rewrite <- (Hm c) by lia. destruct Hor; [lia|done]. }
  assert (forall f, f rc = started (io_txg z) rc -> askable (io_txg z) rc = false -> exists z2 md2 mp2 l2,
    Ret (set_vsd (alter_col f k (if (rm_firstdatacol rm <=? k)%nat then set_missing (md + 1) mp (io_vsd z') else set_missing md (mp + 1) (io_vsd z'))) z') = Ret z2 /\
    reading z k z2 md2 mp2 l2) as Hmiss.
  { intros f Hf Hna. destruct (Nat.leb_spec (rm_firstdatacol rm) k) as [Hge|Hlt];
      [exists (set_vsd (alter_col f k (set_missing (md + 1) mp (io_vsd z'))) z'), (md + 1), mp, l|exists (set_vsd (alter_col f k (set_missing md (mp + 1) (io_vsd z'))) z'), md, (mp + 1), l];
      (split; [done|]); split; try lia; try (by rewrite Hio); try (by cbn; rewrite <- Hfr);
      try (intros c; cbn [io_vsd set_vsd]; rewrite alter_col_lookup; apply Hnew; by intros rc0 ->).
    - apply Hsame; [done|]. intros c; lia.
    - by apply Hsame. }
  destruct (readable (rc_devidx rc)) eqn:Er; cbn [negb]; [|apply Hmiss; [unfold started|unfold askable]; by rewrite Er].
  destruct (dtl_missing (rc_devidx rc) (io_txg z)) eqn:Ed; [apply Hmiss; [unfold started|unfold askable]; by rewrite Er, Ed|].
  assert (askable (io_txg z) rc = true /\ started (io_txg z) rc = rc) as [Hask Hst] by (unfold askable, started; by rewrite Er, Ed).
  assert (forall c, rm_col (io_vsd z') !! c = (fun rc => if decide (k <= c < rm_cols rm)%nat then started (io_txg z) rc else rc) <$> rm_col rm !! c) as Hcol2.
  { intros c. rewrite <- (Hnew (fun rc0 => rc0) c) by (by intros rc0 ->). destruct (decide (c = k)); [|done]. by destruct (rm_col (io_vsd z') !! c). }
  destruct ((rm_firstdatacol rm <=? k)%nat || (0 <? md) || flag z (Z.lor ZIO_FLAG_SCRUB ZIO_FLAG_RESILVER)) eqn:Ea.
  - eexists _, md, mp, (l ++ [column_io z' k rc]). split; [done|]. split; try lia.
    + rewrite <- emit_logged. cbn [io_vsd emit]. by rewrite <- Hio.
    + done.
    + exact Hcol2.
    + intros c. rewrite requests_app. cbn [requests omap list_omap column_io]. rewrite Hty', Hty. cbn. rewrite elem_of_app, Hrq, list_elem_of_singleton. split.
      * intros [(rc0 & Hrc0 & Hc & ? & ?)| ->]; [exists rc0; split_and!; try done; lia|]. exists rc. split_and!; try done; try lia.
        rewrite <- orb_assoc in Ea. apply orb_true_iff in Ea as [Ea%Nat.leb_le|Ea]; [by left|by right].
      * intros (rc0 & Hrc0 & Hc & ? & ?). destruct (decide (c = k)) as [-> | Hne]; [by right|]. left. exists rc0. split_and!; try done; lia.
  - exists z', md, mp, l. split; [done|]. rewrite <- orb_assoc in Ea. apply orb_false_iff in Ea as [Ea%Nat.leb_gt Ea2]. split; try done; try lia.
    intros c. rewrite Hrq. split; intros (rc0 & Hrc0 & Hc & Ha0 & Hor); exists rc0; (split_and!; try done; try lia).
    destruct (decide (c = k)) as [-> | Hne]; [|lia]. destruct Hor; [lia|congruence].
Qed.

Lemma start_read z : io_type z = ZIO_TYPE_READ ->
  exists z1 md mp l, io_start z = Ret (emit Execute z1) /\ reading z 0 z1 md mp l.
Proof using All.
  intros Hty. unfold vdev_raidz_io_start. rewrite (lay layout_alloc). cbn [mbind result_bind].
  destruct (lay layout_written) as (m' & rm2 & _ & _ & _ & Has). rewrite (proj2 (Z.eqb_eq _ _) Has). cbn [verify mbind result_bind io_type set_vsd]. rewrite Hty.
  destruct (layout_fields offset u dcols np s al abd) as (Fc & Ff & Fs & Fd & Fp & _). destruct (lay layout_len) as [Hl Hlt].
  match goal with |- context [for_loop ?a 0 ?body ?st0] =>
    destruct (for_loop_inv (fun i z' => exists md mp l, reading z (rm_cols rm - i) z' md mp l) a 0 body st0) as (z1 & -> & md & mp & l & Hrd) end.
  - intros i z' Hi (md & mp & l & Hrd). destruct (reading_step z (rm_cols rm - 1 - i) z' md mp l Hty) as (z2 & md2 & mp2 & l2 & -> & Hrd2); try lia.
    { replace (S (rm_cols rm - 1 - i)) with (rm_cols rm - i)%nat by lia. exact Hrd. }
    exists z2. split; [done|]. exists md2, mp2, l2. by replace (rm_cols rm - S i)%nat with (rm_cols rm - 1 - i)%nat by lia.
  - exists 0, 0, []. rewrite Nat.sub_0_r. split; try lia.
    + by rewrite logged_nil.
    + cbn [io_vsd set_vsd]. rewrite layout_frame. rewrite <- Fd at 1. rewrite <- Fp. apply missing_own.
    + intros c. cbn. destruct (rm_col rm !! c); [|done]. cbn. by rewrite decide_False by lia.
    + intros c. cbn. rewrite elem_of_nil. split; [done|]. intros (rc & _ & Hc & _). lia.
  - cbn [Nat.add] in *. rewrite Nat.sub_diag in Hrd. cbn [mbind result_bind]. by exists z1, md, mp, l.
Qed.
End start.
