(* ===== verification/RaidzBlock.v ===== *)
(** * RAID-Z: a block written and read back

    The two halves of an I/O together: [vdev_raidz_io_start] issues the child
    I/Os, their completions are recorded by [vdev_raidz_child_done], and
    [vdev_raidz_io_done] finishes the I/O or issues more reads.  A block that
    was written is read back, whatever children fail or lie, as long as they
    are no more than the parity. *)

From S2P Require Import Prelude Raidz RaidzParity RaidzAlloc RaidzMatrix RaidzSolve RaidzInvert RaidzRecover RaidzGeneral RaidzRuns RaidzReconstruct.
From S2P Require Import RaidzIo RaidzEnum RaidzCombrec RaidzSearch RaidzRead RaidzStart.

(** ** Completions *)

(** The child I/Os of the columns [cs] finish, that of column [c] with the
    error and the bytes of [reply c]. *)
Definition children_done (reply : nat -> Z * list Z) (cs : list nat) (z : zio) : zio :=
  foldl (fun z c => vdev_raidz_child_done c (fst (reply c)) (snd (reply c)) z) z cs.

Definition replied (reply : nat -> Z * list Z) (cs : list nat) (c : nat) (rc : raidz_col) : raidz_col :=
  if decide (c ∈ cs) then col_abd (snd (reply c)) (col_state (fst (reply c)) true false rc) else rc.

Lemma children_done_ok reply cs z :
  children_done reply cs z = set_vsd (io_vsd (children_done reply cs z)) z /\
  set_cols (io_vsd z) (rm_col (io_vsd (children_done reply cs z))) = io_vsd (children_done reply cs z) /\
  forall c, rm_col (io_vsd (children_done reply cs z)) !! c = replied reply cs c <$> rm_col (io_vsd z) !! c.
Proof.
  revert z. induction cs as [|x cs IH]; intros z.
  - cbn. split_and!; [by destruct z|by destruct (io_vsd z)|]. intros c. by destruct (rm_col (io_vsd z) !! c).
  - set (z1 := vdev_raidz_child_done x (fst (reply x)) (snd (reply x)) z).
    change (children_done reply (x :: cs) z) with (children_done reply cs z1). destruct (IH z1) as (E1 & E2 & E3). split_and!.
    + rewrite E1 at 1. by destruct z.
    + rewrite <- E2. done.
    + intros c. rewrite E3. unfold z1, vdev_raidz_child_done. cbn [io_vsd set_vsd]. rewrite alter_col_lookup. unfold replied.
      destruct (rm_col (io_vsd z) !! c) as [rc|]; [|by destruct (decide (c = x))]. cbn.
      destruct (decide (c = x)) as [-> | Hne]; cbn.
      * rewrite (decide_True (P := x ∈ x :: cs)) by apply list_elem_of_here. by case_decide.
      * f_equal. destruct (decide (c ∈ cs)) as [Hin|Hout].
        -- rewrite decide_True by (by apply list_elem_of_further). done.
        -- rewrite decide_False; [done|]. intros [?|?]%elem_of_cons; done.
Qed.

(** ** What has been answered *)

(** The replies: child [c] may fail, and if [bad c] then return other bytes
    than were written. *)
Definition replies_ok (rm' : raidz_map) (bad : nat -> bool) (reply : nat -> Z * list Z) : Prop :=
  forall c rc, rm_col rm' !! c = Some rc -> bytes (snd (reply c)) /\ length (snd (reply c)) = length (rc_abd rc) /\ fst (reply c) <> ECKSUM /\
    (fst (reply c) = 0 -> bad c = false -> snd (reply c) = rc_abd rc).

(** [rmd] is [rm'] with the bytes of the replies so far. *)
Record answered (rm' : raidz_map) (bad : nat -> bool) (rmd : raidz_map) : Prop := {
  an_frame : set_missing (rm_missingdata rmd) (rm_missingparity rmd) (set_cols rm' (rm_col rmd)) = rmd;
  an_length : length (rm_col rmd) = length (rm_col rm');
  an_col c rc rcd : rm_col rm' !! c = Some rc -> rm_col rmd !! c = Some rcd ->
    rc_size rcd = rc_size rc /\ bytes (rc_abd rcd) /\ length (rc_abd rcd) = length (rc_abd rc) /\ rc_error rcd <> ECKSUM /\
    (rc_error rcd = 0 -> rc_tried rcd = true -> bad c = false -> rc_abd rcd = rc_abd rc);
}.

Lemma answered_missing rm' bad rmd a b : answered rm' bad rmd -> answered rm' bad (set_missing a b rmd).
Proof. intros [Hf Hl Hc]. split; [|exact Hl|exact Hc]. rewrite <- Hf. done. Qed.

Lemma answered_lookup rm' bad rmd c rcd : answered rm' bad rmd -> rm_col rmd !! c = Some rcd -> exists rc, rm_col rm' !! c = Some rc.
Proof. intros Ha Hc. apply lookup_lt_is_Some_2. rewrite <- (an_length _ _ _ Ha). by eapply lookup_lt_Some. Qed.

Lemma answered_touched rm' bad rmd rm1 : answered rm' bad rmd -> touched rmd (data_errs rmd) rm1 -> answered rm' bad rm1.
Proof.
  intros Ha Ht. destruct (touched_counts _ _ _ Ht) as (_ & _ & El). split.
  - rewrite <- (to_frame _ _ _ Ht). cbn. rewrite <- (an_frame _ _ _ Ha). done.
  - rewrite El. apply (an_length _ _ _ Ha).
  - intros c rc rc1 Hrc Hrc1. destruct (touched_inv _ _ _ _ _ Ht Hrc1) as (rcd & b & Hrcd & -> & Hl & Hb & Hout).
    destruct (an_col _ _ _ Ha c rc rcd Hrc Hrcd) as (Hs & Hby & Hlen & Hck & Hsame). cbn [rc_size rc_abd rc_error rc_tried col_abd]. split_and!; try done; [auto|lia|].
    intros He Htr Hbad. assert (c ∉ data_errs rmd) as Hnc.
    { intros (Herr & _)%list_elem_of_filter. unfold errs in Herr. rewrite Hrcd, He in Herr. done. }
    pose proof (f_equal rc_abd (Hout Hnc)) as Hab. cbn in Hab. rewrite Hab. by apply Hsame.
Qed.

Lemma answered_replied rm' bad reply cs z : replies_ok rm' bad reply -> answered rm' bad (io_vsd z) -> answered rm' bad (io_vsd (children_done reply cs z)).
Proof.
  intros Hrep Ha. destruct (children_done_ok reply cs z) as (_ & Hfr & Hcol). set (rmf := io_vsd (children_done reply cs z)) in *. split.
  - rewrite <- Hfr. cbn. rewrite <- (an_frame _ _ _ Ha). done.
  - rewrite <- (an_length _ _ _ Ha). apply Nat.le_antisymm; apply Nat.nlt_ge; intros Hlt; destruct (lookup_lt_is_Some_2 _ _ Hlt) as [rc Hrc].
    + rewrite Hcol, (lookup_ge_None_2 (rm_col (io_vsd z))) in Hrc by done. done.
    + pose proof (Hcol (length (rm_col rmf))) as H. rewrite Hrc, (lookup_ge_None_2 (rm_col rmf)) in H by done. done.
  - intros c rc rcf Hrc Hrcf. rewrite Hcol in Hrcf. destruct (rm_col (io_vsd z) !! c) as [rcd|] eqn:Hrcd; [|done]. injection Hrcf as <-.
    destruct (an_col _ _ _ Ha c rc rcd Hrc Hrcd) as (Hs & Hby & Hlen & Hck & Hsame). unfold replied.
    destruct (Hrep c rc Hrc) as (Rb & Rl & Re & Rs). case_decide; cbn; split_and!; auto.
Qed.

(** Columns without an error that may hold other bytes. *)
Definition suspects (bad : nat -> bool) (rmd : raidz_map) : list nat :=
  filter (fun c => errs rmd c = false /\ (bad c = true \/ tried rmd c = false)) (seq 0 (rm_cols rmd)).

Lemma suspects_vec bad rmd : vec (rm_cols rmd) (errs rmd) (suspects bad rmd).
Proof.
  split; [apply sorted_filter, sorted_seq|]. apply Forall_forall. intros c ((He & _) & Hc%elem_of_seq)%list_elem_of_filter. split; [lia|done].
Qed.

Lemma answered_damaged rm' bad rmd :
  (forall c rc, (rm_cols rm' <= c)%nat -> rm_col rm' !! c = Some rc -> rc_abd rc = []) -> answered rm' bad rmd ->
  damaged (set_missing (rm_missingdata rmd) (rm_missingparity rmd) rm') (suspects bad rmd) rmd.
Proof.
  intros Hhigh Ha. assert (rm_cols rmd = rm_cols rm') as Ec by (by rewrite <- (an_frame _ _ _ Ha)). split.
  - rewrite <- (an_frame _ _ _ Ha) at 4. done.
  - apply (an_length _ _ _ Ha).
  - intros c rc rcd Hrc Hrcd. destruct (an_col _ _ _ Ha c rc rcd Hrc Hrcd) as (Hs & Hby & Hlen & _ & Hsame). split_and!; try done.
    intros Hn. destruct (decide (c < rm_cols rmd)%nat) as [Hc|Hc].
    2:{ pose proof (Hhigh c rc ltac:(lia) Hrc) as E. rewrite E in Hlen |- *. by apply nil_length_inv. }
    assert (rc_error rcd = 0) as He. { destruct (Z.eq_dec (rc_error rcd) 0); [done|]. destruct Hn. right. by exists rcd. }
    assert (errs rmd c = false) as Her by (unfold errs; by rewrite Hrcd, He).
    assert (tried rmd c = rc_tried rcd) as Htr by (unfold tried; by rewrite Hrcd).
    assert (~ (bad c = true \/ tried rmd c = false)) as Hno.
    { intros Hx. apply Hn. left. apply list_elem_of_filter. rewrite elem_of_seq. split; [done|lia]. }
    apply Hsame; [done| |]; [destruct (rc_tried rcd)|destruct (bad c)]; tauto.
Qed.

(** ** Rounds *)

Lemma written_missing a b m rm rm' : written m rm rm' -> written m (set_missing a b rm) (set_missing a b rm').
Proof.
  intros [? ? ? ? ? ?]. split; try done; [by apply wf_missing|by apply sized_missing|by apply (generate_missing a b m)].
Qed.

Lemma gen_len m rm rm' : written m rm rm' -> (rm_cols rm' <= length (rm_col rm'))%nat /\ (rm_firstdatacol rm' < rm_cols rm')%nat.
Proof.
  intros [Hwf Hf Hfull _ _ Hg]. destruct (generated m rm rm' Hwf Hf Hfull Hg) as (Hwf' & _). pose proof (wf_cols m _ Hwf'). lia.
Qed.

Lemma list_eq_nil_filter {A} (P : A -> Prop) `{!forall x, Decision (P x)} l : (forall x, x ∈ l -> ~ P x) -> filter P l = [].
Proof.
  induction l as [|x l IH]; intros Hl; [done|]. rewrite filter_cons_False by (apply Hl, list_elem_of_here). apply IH. intros y Hy. apply Hl. by apply list_elem_of_further.
Qed.

Lemma replied_state reply cs z c rc : rm_col (io_vsd z) !! c = Some rc ->
  errs (io_vsd (children_done reply cs z)) c = (if decide (c ∈ cs) then negb (fst (reply c) =? 0) else errs (io_vsd z) c) /\
  tried (io_vsd (children_done reply cs z)) c = (if decide (c ∈ cs) then true else tried (io_vsd z) c).
Proof.
  intros Hrc. destruct (children_done_ok reply cs z) as (_ & _ & Hcol). unfold errs, tried. rewrite Hcol, Hrc. cbn. unfold replied. by case_decide.
Qed.

Lemma answered_counts rm' bad rmd : answered rm' bad rmd -> rm_cols rmd = rm_cols rm' /\ rm_firstdatacol rmd = rm_firstdatacol rm'.
Proof. intros Ha. by rewrite <- (an_frame _ _ _ Ha). Qed.

Section rounds.
Context (kmem_alloc abd_alloc zio_buf_alloc : Z -> list Z) (dg linear : bool) (zio_checksum_error : list Z -> Z * bool) (writeable : bool).
Context (Hkm : forall n, length (kmem_alloc n) = Z.to_nat n).
Context (Habd : forall n, bytes (abd_alloc n) /\ length (abd_alloc n) = Z.to_nat n).
Context (Hbuf : forall n, length (zio_buf_alloc n) = Z.to_nat n).
Context (m : nat) (rm rm' : raidz_map) (bad : nat -> bool) (tstore0 : list Z).
Context (Hw : written m rm rm') (Hhigh : forall c rc, (rm_cols rm' <= c)%nat -> rm_col rm' !! c = Some rc -> rc_abd rc = []).
Context (Hck : fst (zio_checksum_error (mjoin (datas rm))) = 0) (Hex : exact zio_checksum_error (mjoin (datas rm))) (Hl5 : length tstore0 = 5%nat).
Notation io_done := (vdev_raidz_io_done kmem_alloc abd_alloc zio_buf_alloc dg linear zio_checksum_error writeable).

(** A read whose children are done. *)
Record round_ready (z : zio) : Prop := {
  rr_type : io_type z = ZIO_TYPE_READ;
  rr_answered : answered rm' bad (io_vsd z);
  rr_missing : rm_missingparity (io_vsd z) <= Z.of_nat (rm_firstdatacol (io_vsd z)) /\
    rm_missingdata (io_vsd z) <= Z.of_nat (rm_cols (io_vsd z)) - Z.of_nat (rm_firstdatacol (io_vsd z));
  rr_together : parity_together z;
  rr_corrected : length (raidz_corrected z) = 8%nat;
}.

Lemma ready_back z : round_ready z ->
  read_back (set_missing (rm_missingdata (io_vsd z)) (rm_missingparity (io_vsd z)) rm') (suspects bad (io_vsd z)) z.
Proof using Hhigh.
  intros [Hty Ha [Hmp Hmd] Htog Hcor]. split; try done.
  - by apply answered_damaged.
  - apply suspects_vec.
  - intros c rcd Hc Hrcd. destruct (answered_lookup _ _ _ _ _ Ha Hrcd) as [rc Hrc]. by destruct (an_col _ _ _ Ha c rc rcd Hrc Hrcd) as (_ & _ & _ & ? & _).
Qed.

Lemma round z : round_ready z ->
  (untried (io_vsd z) = [] -> (length (suspects bad (io_vsd z)) + length (all_errs (io_vsd z)) <= rm_firstdatacol (io_vsd z))%nat) ->
  exists z', io_done tstore0 z = Ret z' /\ io_error z' = io_error z /\
    (io_abd (io_vsd z') = Ret (mjoin (datas rm)) \/
     (untried (io_vsd z) <> [] /\ exists z1, same_io z z1 /\ touched (io_vsd z) (data_errs (io_vsd z)) (io_vsd z1) /\
        let z2 := set_vsd (set_missing 0 0 (io_vsd z1)) z1 in z' = logged (rest_reads z2 (untried (io_vsd z))) z2)).
Proof using All.
  intros Hz Hfew. pose proof (ready_back z Hz) as Hb. set (a := rm_missingdata (io_vsd z)) in *. set (b := rm_missingparity (io_vsd z)) in *.
  pose proof (written_missing a b m rm rm' Hw) as Hwm.
  destruct (read_ok kmem_alloc abd_alloc zio_buf_alloc dg linear zio_checksum_error writeable Hkm Habd Hbuf m (set_missing a b rm) (set_missing a b rm')
    (suspects bad (io_vsd z)) z tstore0) as (z' & Hr & Hcase); try (by destruct Hwm); try (by destruct Hb); try done.
  exists z'. split; [exact Hr|]. destruct Hcase as [(Hun & z1 & Hs & Ht & ->)|(zf & u & w & rm2 & Hs & -> & Hset & _)].
  - split; [apply (si_error _ _ Hs)|]. right. split; [done|]. by exists z1.
  - split; [apply (si_error _ _ Hs)|]. left. cbn [io_vsd logged].
    destruct (settled_wf kmem_alloc abd_alloc zio_buf_alloc dg linear zio_checksum_error writeable Hkm Habd Hbuf m (set_missing a b rm) (set_missing a b rm')
      (suspects bad (io_vsd z)) z tstore0) with (w := w) (rm2 := rm2) (rmf := io_vsd zf) as (_ & Hwff & _); try (by destruct Hwm); try (by destruct Hb); try done.
    rewrite (io_abd_ok m _ Hwff). f_equal. f_equal.
    apply (settled_data kmem_alloc abd_alloc zio_buf_alloc dg linear zio_checksum_error writeable Hkm Habd Hbuf m (set_missing a b rm) (set_missing a b rm')
      (suspects bad (io_vsd z)) z tstore0 Hwm Hb Hck Hl5 w rm2 (io_vsd zf) Hset Hex).
Qed.

(** ** The second round *)

Context (reply : nat -> Z * list Z) (gone : nat -> bool) (Hrep : replies_ok rm' bad reply).

(** Column [c] is lost: its child cannot be read, fails, or lies. *)
Definition lost_col (c : nat) : bool := gone c || negb (fst (reply c) =? 0) || bad c.

(** Errors of columns that were tried are those of lost columns. *)
Definition explained (rmd : raidz_map) : Prop :=
  forall c, (c < rm_cols rmd)%nat -> errs rmd c = true -> tried rmd c = true -> lost_col c = true.

Lemma explained_bound rmd : explained rmd -> untried rmd = [] ->
  (length (suspects bad rmd) + length (all_errs rmd) <= length (filter (fun c => lost_col c = true) (seq 0 (rm_cols rmd))))%nat.
Proof using All.
  intros Hx Hun. assert (forall c, (c < rm_cols rmd)%nat -> tried rmd c = true) as Htr.
  { intros c Hc. destruct (tried rmd c) eqn:E; [done|]. assert (c ∈ untried rmd) as Hin; [|rewrite Hun in Hin; by apply elem_of_nil in Hin].
    apply list_elem_of_filter. rewrite elem_of_seq. split; [done|lia]. }
  rewrite <- length_app. apply submseteq_length, NoDup_submseteq.
  - apply NoDup_app. split_and!; [apply NoDup_filter, NoDup_seq| |apply NoDup_filter, NoDup_seq].
    intros c ((He & _) & _)%list_elem_of_filter (He' & _)%list_elem_of_filter. congruence.
  - intros c [((He & Hb) & Hc)%list_elem_of_filter|(He & Hc)%list_elem_of_filter]%elem_of_app; apply list_elem_of_filter; (split; [|done]); apply elem_of_seq in Hc.
    + specialize (Htr c ltac:(lia)). destruct Hb as [Hb|Hb]; [|congruence]. unfold lost_col. rewrite Hb. apply orb_true_r.
    + apply Hx; [lia|done|]. apply Htr. lia.
Qed.

Lemma rest_requests z z1 :
  same_io z z1 -> io_type z = ZIO_TYPE_READ -> untried (io_vsd z) <> [] -> (rm_cols (io_vsd z) <= length (rm_col (io_vsd z1)))%nat ->
  let z2 := set_vsd (set_missing 0 0 (io_vsd z1)) z1 in
  requests (drop (length (io_log z)) (io_log (logged (rest_reads z2 (untried (io_vsd z))) z2))) = untried (io_vsd z).
Proof using All.
  intros Hs Hty Hun Hle. cbn. destruct (si_log _ _ Hs) as (l & -> & Hl). rewrite <- app_assoc, drop_app_length, requests_app, requests_reports by done. cbn [app].
  unfold rest_reads. destruct (untried (io_vsd z)) as [|x xs] eqn:E; [done|]. cbn [requests omap list_omap]. fold requests.
  apply requests_per_col; [by rewrite <- Hty; apply (si_type _ _ Hs)|]. rewrite <- E. apply Forall_forall. intros c (_ & Hc%elem_of_seq)%list_elem_of_filter. cbn. lia.
Qed.

Context (Hfew : (length (filter (fun c => lost_col c = true) (seq 0 (rm_cols rm'))) <= rm_firstdatacol rm')%nat).

Lemma rounds z : round_ready z -> explained (io_vsd z) ->
  exists z', io_done tstore0 z = Ret z' /\ io_error z' = io_error z /\
    (io_abd (io_vsd z') = Ret (mjoin (datas rm)) \/
     exists z'', io_done tstore0 (children_done reply (requests (drop (length (io_log z)) (io_log z'))) z') = Ret z'' /\
       io_error z'' = io_error z /\ io_abd (io_vsd z'') = Ret (mjoin (datas rm))).
Proof using All.
  intros Hz Hx. destruct (answered_counts _ _ _ (rr_answered _ Hz)) as [Ec Ef].
  destruct (round z Hz) as (z' & Hr & He & Hcase).
  { intros Hun. pose proof (explained_bound _ Hx Hun) as Hbd. rewrite Ec in Hbd. lia. }
  exists z'. split; [exact Hr|]. split; [exact He|]. destruct Hcase as [?|(Hun & z1 & Hs & Ht & Hz')]; [by left|right].
  assert (length (rm_col (io_vsd z1)) = length (rm_col rm')) as Hlen1.
  { destruct (touched_counts _ _ _ Ht) as (_ & _ & ->). apply (an_length _ _ _ (rr_answered _ Hz)). }
  destruct (gen_len m rm rm' Hw) as [Hcl Hlt].
  assert (requests (drop (length (io_log z)) (io_log z')) = untried (io_vsd z)) as ->.
  { rewrite Hz'. apply rest_requests; [done|apply Hz|done|lia]. }
  set (zb := children_done reply (untried (io_vsd z)) z').
  assert (answered rm' bad (io_vsd z')) as Ha'.
  { rewrite Hz'. cbn. apply answered_missing. eapply answered_touched; [apply Hz|done]. }
  pose proof (answered_replied rm' bad reply (untried (io_vsd z)) z' Hrep Ha') as Hab. fold zb in Hab. destruct (answered_counts _ _ _ Hab) as [Ecb Efb], (answered_counts _ _ _ Ha') as [Ec' Ef'].
  destruct (touched_state _ _ _ Ht) as (Hse & Hst & _).
  assert (forall c, errs (io_vsd z') c = errs (io_vsd z) c) as He' by (intros c; rewrite Hz'; apply Hse).
  assert (forall c, tried (io_vsd z') c = tried (io_vsd z) c) as Ht' by (intros c; rewrite Hz'; apply Hst).
  assert (forall c, (c < rm_cols rm')%nat -> exists rc, rm_col (io_vsd z') !! c = Some rc) as Hlk.
  { intros c Hc. apply lookup_lt_is_Some_2. rewrite (an_length _ _ _ Ha'). lia. }
  assert (forall c, (c < rm_cols rm')%nat -> tried (io_vsd zb) c = true) as Hall.
  { intros c Hc. destruct (Hlk c Hc) as [rc Hrc]. destruct (replied_state reply (untried (io_vsd z)) z' c rc Hrc) as [_ Et]. fold zb in Et. rewrite Et. case_decide as Hin; [done|].
    rewrite Ht'. destruct (tried (io_vsd z) c) eqn:E; [done|]. destruct Hin. apply list_elem_of_filter. rewrite elem_of_seq. split; [done|lia]. }
  destruct (children_done_ok reply (untried (io_vsd z)) z') as (Hsv & Hfr & _). fold zb in Hsv, Hfr.
  assert (untried (io_vsd zb) = []) as Hunb.
  { unfold untried. rewrite Ecb. apply list_eq_nil_filter. intros c Hc%elem_of_seq. rewrite Hall by lia. done. }
  assert (round_ready zb) as Hrb.
  { split.
    - rewrite Hsv, Hz'. cbn. rewrite (si_type _ _ Hs). apply Hz.
    - exact Hab.
    - assert (rm_missingdata (io_vsd zb) = 0 /\ rm_missingparity (io_vsd zb) = 0) as [-> ->] by (rewrite <- Hfr, Hz'; done). lia.
    - left. intros c Hc _. apply Hall. lia.
    - rewrite Hsv, Hz'. cbn. rewrite (si_corrected _ _ Hs). apply Hz. }
  assert (explained (io_vsd zb)) as Hxb.
  { intros c Hc. rewrite Ecb in Hc. destruct (Hlk c Hc) as [rc Hrc]. destruct (replied_state reply (untried (io_vsd z)) z' c rc Hrc) as [Ee Et]. fold zb in Ee, Et. rewrite Ee, Et.
    case_decide as Hin; [|rewrite He', Ht'; apply Hx; lia]. intros Hne _. unfold lost_col. rewrite Hne. by rewrite orb_true_r. }
  destruct (round zb Hrb) as (z'' & Hr'' & He'' & [Hd|(Hunb' & _)]); [|exists z''; split_and!; try done|done].
  - intros _. pose proof (explained_bound _ Hxb Hunb) as Hbd. rewrite Ecb in Hbd. lia.
  - rewrite He'', Hsv. cbn. exact He.
Qed.
End rounds.

(** ** From the start *)

(** The reads issued between [z] and [z'] are answered. *)
Definition answer (reply : nat -> Z * list Z) (z z' : zio) : zio :=
  children_done reply (requests (drop (length (io_log z)) (io_log z'))) z'.

(** The child of column [c] cannot be read. *)
Definition unreadable (readable : Z -> bool) (rm : raidz_map) (c : nat) : bool :=
  match rm_col rm !! c with Some rc => negb (readable (rc_devidx rc)) | None => false end.

Lemma lookup_length {A B} (f : nat -> A -> B) (l : list A) (l' : list B) : (forall c, l' !! c = f c <$> l !! c) -> length l' = length l.
Proof.
  intros H. assert (forall c, (length l' <= c)%nat <-> (length l <= c)%nat) as Hiff.
  { intros c. rewrite <- !lookup_ge_None, H. apply fmap_None. }
  pose proof (proj1 (Hiff _) (Nat.le_refl _)). pose proof (proj2 (Hiff _) (Nat.le_refl _)). lia.
Qed.

Section whole.
Context (offset u dcols np s : Z).
Context (Hu : 3 <= u <= 24) (Hnp : 1 <= np <= 3) (Hd : np < dcols <= 255).
Context (Hs : 1 <= s) (Hsize : s * 2 ^ u < 2 ^ 32) (Hoff : 0 <= offset < 2 ^ 62).
Context (alw alr : Z -> list Z) (abd buf : list Z).
Context (Halw : forall n, bytes (alw n) /\ length (alw n) = Z.to_nat n) (Halr : forall n, bytes (alr n) /\ length (alr n) = Z.to_nat n).
Context (Habd : Z.of_nat (length abd) = s * 2 ^ u) (Hbytes : bytes abd) (Hbuf : Z.of_nat (length buf) = s * 2 ^ u) (Hbbuf : bytes buf).
Context (readable : Z -> bool) (dtl_missing : Z -> Z -> bool).
Context (bad : nat -> bool) (reply : nat -> Z * list Z).
Notation rmw := (layout offset u dcols np s alw abd).
Notation rmr := (layout offset u dcols np s alr buf).
Context (m : nat) (rm' : raidz_map) (Hw : written m rmw rm') (Hrep : replies_ok rm' bad reply).
Notation gone := (unreadable readable rm').

Lemma same_layout : touched rmr (seq 0 (length (rm_col rmr))) rm' /\ rm_cols rm' = rm_cols rmr /\ rm_firstdatacol rm' = rm_firstdatacol rmr.
Proof using All.
  destruct (generate_touched m rmw (wn_wf _ _ _ Hw) (wn_parities _ _ _ Hw) (wn_full _ _ _ Hw)) as (rmg & Hg & Ht & _).
  rewrite (wn_parity _ _ _ Hw) in Hg. injection Hg as <-.
  pose proof (layout_touched offset u dcols np s Hu Hnp Hd Hs Hsize Hoff alr buf alw abd Halr Hbuf Hbbuf Halw Habd Hbytes) as Hrw.
  destruct (layout_len offset u dcols np s Hu Hnp Hd Hs Hsize Hoff alr buf Halr Hbuf Hbbuf) as [El Hlt].
  destruct (layout_fields offset u dcols np s alw abd) as (_ & Ff & _).
  assert (touched rmr (seq 0 (length (rm_col rmr))) rm') as Htt.
  { eapply touched_trans; [rewrite El; exact Hrw|]. eapply touched_mono; [|exact Ht]. intros c. rewrite !elem_of_seq, Ff, El. lia. }
  destruct (touched_counts _ _ _ Htt) as (-> & -> & _). done.
Qed.

Lemma high_empty c rc : (rm_cols rm' <= c)%nat -> rm_col rm' !! c = Some rc -> rc_abd rc = [].
Proof using All.
  intros Hc Hrc. destruct same_layout as (Ht & Ec & _). destruct (touched_inv _ _ _ _ _ Ht Hrc) as (rc0 & b & Hrc0 & -> & Hl & _).
  rewrite layout_col in Hrc0. destruct (blank offset u dcols np s !! c) as [rcb|]; [|done]. injection Hrc0 as <-. cbn in *.
  destruct (layout_bytes offset u dcols np s Hu Hnp Hd Hs Hsize Hoff alr buf Halr Hbuf Hbbuf c) as (_ & _ & Hnil).
  destruct (layout_fields offset u dcols np s alr buf) as (Fc & _). rewrite Hnil in Hl by lia. by apply nil_length_inv.
Qed.

Section reading.
Context (z z1 : zio) (md mp : Z) (l : list effect).
Context (Hrd : reading offset u dcols np s alr buf readable dtl_missing z 0 z1 md mp l).

(** What is known of a column that was not answered yet. *)
Lemma started_col c rc1 : (c < rm_cols rm')%nat -> rm_col (io_vsd z1) !! c = Some rc1 ->
  exists rc, rm_col rmr !! c = Some rc /\ rc1 = started readable dtl_missing (io_txg z) rc /\
    rc_error rc = 0 /\ rc_tried rc = false /\ gone c = negb (readable (rc_devidx rc)).
Proof using All.
  intros Hc Hrc1. destruct same_layout as (Ht & Ec & _). rewrite (rg_col _ _ _ _ _ _ _ _ _ _ _ _ _ _ _ Hrd) in Hrc1.
  destruct (rm_col rmr !! c) as [rc|] eqn:Hrc; [|done]. cbn in Hrc1. rewrite decide_True in Hrc1 by lia. injection Hrc1 as <-. exists rc.
  rewrite layout_col in Hrc. destruct (blank offset u dcols np s !! c) as [rcb|] eqn:Hb; [|done]. injection Hrc as <-.
  destruct (blank_fresh _ _ _ _ _ _ _ Hb) as (He & Htr & _). split_and!; try done.
  unfold unreadable. destruct (touched_any _ _ _ c Ht) as (b & -> & _). rewrite layout_col, Hb. done.
Qed.

Lemma reading_answered : answered rm' bad (io_vsd z1).
Proof using All.
  destruct same_layout as (Ht & Ec & Ef). destruct Hrd as [_ Hfr Hcol _ _ _]. split.
  - rewrite <- (to_frame _ _ _ Ht). rewrite <- Hfr. done.
  - destruct (touched_counts _ _ _ Ht) as (_ & _ & ->). by apply (lookup_length _ _ _ Hcol).
  - intros c rc rc1 Hrc Hrc1. destruct (touched_inv _ _ _ _ _ Ht Hrc) as (rc0 & b & Hrc0 & -> & Hl & Hb & _).
    rewrite Hcol, Hrc0 in Hrc1. cbn in Hrc1. injection Hrc1 as <-.
    destruct (layout_bytes offset u dcols np s Hu Hnp Hd Hs Hsize Hoff alr buf Halr Hbuf Hbbuf c) as (_ & Hby & _).
    rewrite layout_col in Hrc0. destruct (blank offset u dcols np s !! c) as [rcb|] eqn:Hbl; [|done]. injection Hrc0 as <-.
    destruct (blank_fresh _ _ _ _ _ _ _ Hbl) as (He & Htr & _). cbn [rc_size rc_abd col_abd] in *.
    case_decide; [unfold started; repeat case_match|]; cbn; split_and!; try done; rewrite ?He, ?Htr; done.
Qed.

Context (Hty : io_type z = ZIO_TYPE_READ) (Hcor : length (raidz_corrected z) = 8%nat).
Notation za := (answer reply z (emit Execute z1)).

Lemma answer_requests : za = children_done reply (requests l) (emit Execute z1).
Proof using All.
  unfold answer. f_equal. pose proof (rg_io _ _ _ _ _ _ _ _ _ _ _ _ _ _ _ Hrd) as Hio. rewrite Hio. cbn.
  rewrite <- app_assoc, drop_app_length, requests_app. cbn. apply app_nil_r.
Qed.

(** A column after the first answers. *)
Lemma answered_state c : (c < rm_cols rm')%nat -> exists rc, rm_col rmr !! c = Some rc /\
  gone c = negb (readable (rc_devidx rc)) /\
  errs (io_vsd za) c = (if decide (c ∈ requests l) then negb (fst (reply c) =? 0) else negb (askable readable dtl_missing (io_txg z) rc)) /\
  tried (io_vsd za) c = (if decide (c ∈ requests l) then true else gone c).
Proof using All.
  intros Hc. destruct same_layout as (Ht & Ec & _). pose proof reading_answered as Ha.
  destruct (gen_len _ _ _ Hw) as [Hl _]. destruct (lookup_lt_is_Some_2 (rm_col (io_vsd z1)) c) as [rc1 Hrc1]; [rewrite (an_length _ _ _ Ha); lia|].
  destruct (started_col c rc1 Hc Hrc1) as (rc & Hrc & -> & He & Htr & Hg). exists rc. split; [done|]. split; [done|]. rewrite answer_requests.
  destruct (replied_state reply (requests l) (emit Execute z1) c _ Hrc1) as [-> ->]. rewrite Hg. cbn [io_vsd emit]. unfold errs, tried. rewrite Hrc1.
  unfold started, askable. destruct (readable (rc_devidx rc)); cbn [negb andb]; [|done].
  destruct (dtl_missing (rc_devidx rc) (io_txg z)); cbn [negb]; rewrite ?He, ?Htr; done.
Qed.

Lemma answered_ready : round_ready rm' bad za /\ explained bad reply gone (io_vsd za).
Proof using All.
  destruct same_layout as (Ht & Ec & Ef). pose proof reading_answered as Ha. rewrite answer_requests.
  pose proof (answered_replied rm' bad reply (requests l) (emit Execute z1) Hrep Ha) as Hab. rewrite <- answer_requests in *.
  destruct (answered_counts rm' bad _ Hab) as [Eca Efa]. destruct (children_done_ok reply (requests l) (emit Execute z1)) as (Hsv & Hfr & _). rewrite <- answer_requests in Hsv, Hfr.
  pose proof (rg_io _ _ _ _ _ _ _ _ _ _ _ _ _ _ _ Hrd) as Hio.
  assert (forall c rc, (c < rm_cols rm')%nat -> rm_col rmr !! c = Some rc -> c ∈ requests l <-> askable readable dtl_missing (io_txg z) rc = true /\
    ((rm_firstdatacol rm' <= c)%nat \/ (0 <? md) || flag z (Z.lor ZIO_FLAG_SCRUB ZIO_FLAG_RESILVER) = true)) as Hrq.
  { intros c rc Hc Hrc. rewrite (rg_requests _ _ _ _ _ _ _ _ _ _ _ _ _ _ _ Hrd), Ef. split.
    - intros (rc' & Hrc' & _ & ? & ?). replace rc' with rc in * by congruence. done.
    - intros [? ?]. exists rc. split_and!; try done; lia. }
  split; [split|].
  - rewrite Hsv, Hio. exact Hty.
  - exact Hab.
  - rewrite <- Hfr. cbn [rm_missingparity rm_missingdata rm_firstdatacol rm_cols set_cols io_vsd emit]. rewrite <- (rg_frame _ _ _ _ _ _ _ _ _ _ _ _ _ _ _ Hrd). cbn.
    pose proof (rg_data _ _ _ _ _ _ _ _ _ _ _ _ _ _ _ Hrd). pose proof (rg_parity _ _ _ _ _ _ _ _ _ _ _ _ _ _ _ Hrd). destruct (gen_len _ _ _ Hw). lia.
  - unfold parity_together. rewrite Efa. destruct ((0 <? md) || flag z (Z.lor ZIO_FLAG_SCRUB ZIO_FLAG_RESILVER)) eqn:Ea; [left|right];
      intros c Hc He; destruct (gen_len _ _ _ Hw) as [_ Hlt]; destruct (answered_state c ltac:(lia)) as (rc & Hrc & Hg & Hae & ->); rewrite Hae in He;
      (case_decide as Hin; [|apply negb_false_iff in He]); try done.
    + destruct Hin. apply (Hrq c rc); [lia|done|]. split; [done|by right].
    + apply (Hrq c rc) in Hin as [_ [?|?]]; [lia|done|lia|done].
    + rewrite Hg. unfold askable in He. destruct (readable (rc_devidx rc)); done.
  - rewrite Hsv, Hio. exact Hcor.
  - intros c Hc He Htr. rewrite Eca in Hc. destruct (answered_state c Hc) as (rc & Hrc & Hg & Hae & Hat). rewrite Hae in He. rewrite Hat in Htr. unfold lost_col.
    case_decide; [rewrite He|rewrite Htr]; by rewrite ?orb_true_r.
Qed.
End reading.
End whole.

(** C16: a block that was written is read back.  A write of a block starts by
    giving every column of its layout, data and parity, to its child.  When
    the block is read, into any buffer, each child that is asked answers with
    an error or with bytes.  Children may be unreadable, lack the transaction,
    fail, or return other bytes than were written without an error; the lost
    columns are those whose child is unreadable, fails or lies.  If these are
    no more than the parity columns and nothing else has the block's checksum,
    then [vdev_raidz_io_done] returns without an error and the buffer holds
    the block; or it asks for the columns it had not asked for, and when they
    are answered it returns without an error and the buffer holds the
    block. *)
Theorem raidz_write_read kmem_alloc abd_alloc zio_buf_alloc dg linear zio_checksum_error writeable tstore0
    alw alr readable dtl_missing abd buf offset u dcols np s zw z :
  (forall n, length (kmem_alloc n) = Z.to_nat n) ->
  (forall n, bytes (abd_alloc n) /\ length (abd_alloc n) = Z.to_nat n) ->
  (forall n, length (zio_buf_alloc n) = Z.to_nat n) ->
  (forall n, bytes (alw n) /\ length (alw n) = Z.to_nat n) -> (forall n, bytes (alr n) /\ length (alr n) = Z.to_nat n) ->
  3 <= u <= 24 -> 1 <= np <= 3 -> np < dcols <= 255 -> 1 <= s -> s * 2 ^ u < 2 ^ 32 -> 0 <= offset < 2 ^ 62 -> offset mod 2 ^ u = 0 ->
  Z.of_nat (length abd) = s * 2 ^ u -> bytes abd -> Z.of_nat (length buf) = s * 2 ^ u -> bytes buf ->
  io_type zw = ZIO_TYPE_WRITE -> io_type z = ZIO_TYPE_READ -> length (raidz_corrected z) = 8%nat -> length tstore0 = 5%nat ->
  fst (zio_checksum_error abd) = 0 -> exact zio_checksum_error abd ->
  let io_start al b := vdev_raidz_io_start al readable dtl_missing b (s * 2 ^ u) offset u dcols np in
  let io_done := vdev_raidz_io_done kmem_alloc abd_alloc zio_buf_alloc dg linear zio_checksum_error writeable tstore0 in
  exists zw' z1 opt, io_start alw abd zw = Ret zw' /\ io_start alr buf z = Ret z1 /\
    let rm' := io_vsd zw' in
    io_log zw' = io_log zw ++ per_col (column_io zw) rm' (seq 0 (rm_cols rm')) ++ opt ++ [Execute] /\ Forall is_optional opt /\
    forall bad reply, replies_ok rm' bad reply ->
      (length (filter (fun c => lost_col bad reply (unreadable readable rm') c = true) (seq 0 (rm_cols rm'))) <= Z.to_nat np)%nat ->
      exists z2, io_done (answer reply z z1) = Ret z2 /\ io_error z2 = io_error z /\
        (io_abd (io_vsd z2) = Ret abd \/
         exists z3, io_done (answer reply (answer reply z z1) z2) = Ret z3 /\ io_error z3 = io_error z /\ io_abd (io_vsd z3) = Ret abd).
Proof.
  intros Hkm Hab Hzb Halw Halr Hu Hnp Hd Hs Hsize Hoff Hsec Habd Hbytes Hbuf Hbbuf Htw Htr Hcor Hl5 Hck Hex io_start io_done.
  destruct (layout_written offset u dcols np s Hu Hnp Hd Hs Hsize Hoff alw abd Halw Habd Hbytes) as (m & rm' & Hw & Hdata & _).
  destruct (start_write offset u dcols np s Hu Hnp Hd Hs Hsize Hoff alw abd Halw Habd Hbytes readable dtl_missing m rm' zw Hsec Htw Hw) as (opt & Hsw & _ & Hopt).
  destruct (start_read offset u dcols np s Hu Hnp Hd Hs Hsize Hoff alr buf Halr Hbuf Hbbuf readable dtl_missing z Htr) as (z1 & md & mp & l & Hsr & Hrd).
  eexists _, _, opt. split; [exact Hsw|]. split; [exact Hsr|]. cbn [io_vsd io_log logged set_vsd]. split; [done|]. split; [done|]. intros bad reply Hrep Hlost.
  destruct (answered_ready offset u dcols np s Hu Hnp Hd Hs Hsize Hoff alw alr abd buf Halw Halr Habd Hbytes Hbuf Hbbuf readable dtl_missing bad reply
    m rm' Hw Hrep z z1 md mp l Hrd Htr Hcor) as [Hready Hx].
  destruct (generated m _ rm' (wn_wf _ _ _ Hw) (wn_parities _ _ _ Hw) (wn_full _ _ _ Hw) (wn_parity _ _ _ Hw)) as (_ & Ef & _).
  destruct (layout_fields offset u dcols np s alw abd) as (_ & Ff & _).
  destruct (rounds kmem_alloc abd_alloc zio_buf_alloc dg linear zio_checksum_error writeable Hkm Hab Hzb m _ rm' bad tstore0 Hw)
    with (reply := reply) (gone := unreadable readable rm') (z := answer reply z (emit Execute z1)) as (z2 & Hr & He & Hcase); try done.
  { apply (high_empty offset u dcols np s Hu Hnp Hd Hs Hsize Hoff alw alr abd buf Halw Halr Habd Hbytes Hbuf Hbbuf readable dtl_missing bad reply m rm' Hw Hrep). }
  { by rewrite Hdata. } { by rewrite Hdata. } { by rewrite Ef, Ff. }
  assert (io_error (answer reply z (emit Execute z1)) = io_error z) as Hez.
  { unfold answer. destruct (children_done_ok reply (requests (drop (length (io_log z)) (io_log (emit Execute z1)))) (emit Execute z1)) as (-> & _).
    cbn. pose proof (rg_io _ _ _ _ _ _ _ _ _ _ _ _ _ _ _ Hrd) as ->. done. }
  rewrite Hdata, Hez in *. exists z2. split; [exact Hr|]. split; [exact He|]. destruct Hcase as [?|(z3 & Hr3 & He3 & Hd3)]; [by left|right]. by exists z3.
Qed.

(** The three data columns of [raidz_demo]; the first returns zeros. *)
Definition lying_child (c : nat) : Z * list Z :=
  (0, match c with
      | 0%nat => [25; 26; 27; 28; 29; 30; 31; 0]
      | 1%nat => replicate 8 0
      | 2%nat => [9; 10; 11; 12; 13; 14; 15; 16]
      | _ => [17; 18; 19; 20; 21; 22; 23; 24]
      end).
Definition demo_write : zio := Zio ZIO_TYPE_WRITE 0 0 0 7 0 demo_map false (replicate 8 0) [].
Definition demo_block_checksum (d : list Z) : Z * bool := if bool_decide (d = raidz_demo) then (0, false) else (ECKSUM, false).

Lemma raidz_write_read_witness :
  exists z1 z2,
    vdev_raidz_io_start fresh (fun _ => true) (fun _ _ => false) (replicate 24 0) (3 * 2 ^ 3) (2 ^ 20) 3 4 1 (demo_zio demo_map) = Ret z1 /\
    vdev_raidz_io_done demo_alloc demo_alloc demo_alloc false false demo_block_checksum true (replicate 5 9) (answer lying_child (demo_zio demo_map) z1) = Ret z2 /\
    (io_abd (io_vsd z2) = Ret raidz_demo \/
     exists z3, vdev_raidz_io_done demo_alloc demo_alloc demo_alloc false false demo_block_checksum true (replicate 5 9)
         (answer lying_child (answer lying_child (demo_zio demo_map) z1) z2) = Ret z3 /\ io_abd (io_vsd z3) = Ret raidz_demo).
Proof.
  destruct (raidz_write_read demo_alloc demo_alloc demo_alloc false false demo_block_checksum true (replicate 5 9)
    fresh fresh (fun _ => true) (fun _ _ => false) raidz_demo (replicate 24 0) (2 ^ 20) 3 4 1 3 demo_write (demo_zio demo_map))
    as (zw' & z1 & opt & Hw & Hr & _ & _ & Hall).
  - apply demo_alloc_ok.
  - apply demo_alloc_ok.
  - apply demo_alloc_ok.
  - apply fresh_ok.
  - apply fresh_ok.
  - lia.
  - lia.
  - lia.
  - lia.
  - reflexivity.
  - lia.
  - reflexivity.
  - reflexivity.
  - apply raidz_demo_bytes.
  - reflexivity.
  - apply Forall_replicate. lia.
  - reflexivity.
  - reflexivity.
  - reflexivity.
  - reflexivity.
  - reflexivity.
  - intros d. unfold demo_block_checksum. case_bool_decide; [done|discriminate].
  - pose (cols_of r := match r with Ret z => rm_col (io_vsd z) | Panic => [] end).
    pose (ncols_of r := match r with Ret z => rm_cols (io_vsd z) | Panic => O end).
    assert (Hcols := f_equal cols_of Hw). assert (Hn := f_equal ncols_of Hw).
    change (cols_of (Ret zw')) with (rm_col (io_vsd zw')) in Hcols. change (ncols_of (Ret zw')) with (rm_cols (io_vsd zw')) in Hn.
    remember (rm_col (io_vsd zw')) as g eqn:Eg. remember (rm_cols (io_vsd zw')) as k eqn:Ek. vm_compute in Hcols, Hn.
    destruct (Hall (fun c => (c =? 1)%nat) lying_child) as (z2 & Hd2 & _ & Hcase).
    + intros c rc Hrc. rewrite <- Eg, <- Hcols in Hrc.
      destruct c as [|[|[|[|c]]]]; [| | | |discriminate Hrc]; injection Hrc as <-;
        (split; [apply bytes_dec; reflexivity|split; [reflexivity|split; [discriminate|]]]); try reflexivity; intros _ Hb; discriminate Hb.
    + rewrite <- Hn. unfold lost_col, unreadable. rewrite <- Eg, <- Hcols. apply Nat.leb_le. reflexivity.
    + exists z1, z2. split; [exact Hr|]. split; [exact Hd2|]. destruct Hcase as [H|(z3 & Hd3 & _ & H)]; [by left|right]. by exists z3.
Defined.
