(* ===== verification/Rrwlock.v ===== *)
(** * Re-entrant read reader/writer locks

    Model of [kernel/fs/zfs/rrwlock.c].  Every operation runs under the mutex
    of the lock ([rr_lock]) from its entry, or from its wake-up in [cv_wait],
    to its return or the next [cv_wait]: that is one step here.  The state is
    that of all locks, of every thread's list of nodes (its thread-specific
    data under [rrw_tsd_key]) and of the place where every thread is.  To state
    what the lock promises, the state also records the locks every thread has
    taken and not yet given back, for reading ([holds]) and for writing
    ([writing]): these change when an operation returns to its caller, and no
    operation looks at them. *)

From S2P Require Import Prelude.

(** ** State *)

Definition lid := nat.

(** [rrwlock_t]; [refcount_t] without tracking is a count. *)
Record rrwlock : Type := Rrwlock {
  rr_writer : option tid;
  rr_anon_rcount : Z;
  rr_linked_rcount : Z;
  rr_writer_wanted : bool;
  rr_track_all : bool;
}.

(** [rrw_node_t]: the list is the chain through [rn_next]. *)
Record rrw_node : Type := RrwNode { rn_rrl : lid; rn_tag : Z }.

#[export] Instance rrw_node_eq_dec : EqDecision rrw_node.
Proof. solve_decision. Defined.

(** Where a thread is: outside, or in [cv_wait] of [rrw_enter_read_impl] or of
    [rrw_enter_write], asleep or woken up. *)
Inductive place : Type :=
| Running
| WaitRead (asleep : bool) (l : lid) (prio : bool) (tag : Z)
| WaitWrite (asleep : bool) (l : lid).

Record sys : Type := Sys {
  lock : lid -> rrwlock;
  tsd : tid -> list rrw_node;
  pc : tid -> place;
  holds : tid -> list rrw_node;
  writing : tid -> lid -> bool;
}.

Definition set_lock (s : sys) (l : lid) (r : rrwlock) : sys := Sys (upd (lock s) l r) (tsd s) (pc s) (holds s) (writing s).
Definition set_tsd (s : sys) (t : tid) (ns : list rrw_node) : sys := Sys (lock s) (upd (tsd s) t ns) (pc s) (holds s) (writing s).
Definition set_pc (s : sys) (t : tid) (p : place) : sys := Sys (lock s) (tsd s) (upd (pc s) t p) (holds s) (writing s).
Definition set_holds (s : sys) (t : tid) (ns : list rrw_node) : sys := Sys (lock s) (tsd s) (pc s) (upd (holds s) t ns) (writing s).
Definition set_writing (s : sys) (t : tid) (l : lid) (b : bool) : sys :=
  Sys (lock s) (tsd s) (pc s) (holds s) (upd (writing s) t (upd (writing s t) l b)).

Definition set_anon (r : rrwlock) (n : Z) : rrwlock :=
  Rrwlock (rr_writer r) n (rr_linked_rcount r) (rr_writer_wanted r) (rr_track_all r).
Definition set_linked (r : rrwlock) (n : Z) : rrwlock :=
  Rrwlock (rr_writer r) (rr_anon_rcount r) n (rr_writer_wanted r) (rr_track_all r).
Definition set_wanted (r : rrwlock) (b : bool) : rrwlock :=
  Rrwlock (rr_writer r) (rr_anon_rcount r) (rr_linked_rcount r) b (rr_track_all r).
Definition set_writer (r : rrwlock) (w : option tid) : rrwlock :=
  Rrwlock w (rr_anon_rcount r) (rr_linked_rcount r) (rr_writer_wanted r) (rr_track_all r).

(** ** Operations of thread [t] on lock [l] *)

Definition rrw_init (s : sys) (l : lid) (track_all : bool) : sys :=
  set_lock s l (Rrwlock None 0 0 false track_all).

(** [rrn_find(rrl) != NULL]. *)
Definition rrn_find (s : sys) (t : tid) (l : lid) : bool :=
  if rr_linked_rcount (lock s l) =? 0 then false
  else existsb (fun rn => (rn_rrl rn =? l)%nat) (tsd s t).

Definition rrn_add (s : sys) (t : tid) (l : lid) (tag : Z) : sys :=
  set_tsd s t (RrwNode l tag :: tsd s t).

(** A list without the first of some elements; [None] if it has none. *)
Fixpoint remove_first (x : rrw_node) (ns : list rrw_node) : option (list rrw_node) :=
  match ns with
  | [] => None
  | n :: ns' => if decide (n = x) then Some ns' else cons n <$> remove_first x ns'
  end.

(** [None]: [B_FALSE]. *)
Definition rrn_find_and_remove (s : sys) (t : tid) (l : lid) (tag : Z) : option sys :=
  if rr_linked_rcount (lock s l) =? 0 then None
  else set_tsd s t <$> remove_first (RrwNode l tag) (tsd s t).

(** [cv_broadcast(&rrl->rr_cv)]: everyone who waits for the lock is awake. *)
Definition wake (l : lid) (p : place) : place :=
  match p with
  | WaitRead _ l' prio tag => if (l' =? l)%nat then WaitRead false l' prio tag else p
  | WaitWrite _ l' => if (l' =? l)%nat then WaitWrite false l' else p
  | Running => p
  end.
Definition cv_broadcast (s : sys) (l : lid) : sys :=
  Sys (lock s) (tsd s) (fun t => wake l (pc s t)) (holds s) (writing s).

Definition is_none {A} (o : option A) : bool := match o with None => true | Some _ => false end.

(** The condition a reader waits on. *)
Definition read_blocked (s : sys) (t : tid) (l : lid) (prio : bool) : bool :=
  let r := lock s l in
  negb (is_none (rr_writer r)) ||
  (rr_writer_wanted r && (rr_anon_rcount r =? 0) && negb prio && negb (rrn_find s t l)).

(** The read lock is taken: the thread goes on, and has one more. *)
Definition read_got (s : sys) (t : tid) (l : lid) (tag : Z) : sys :=
  set_holds (set_pc s t Running) t (RrwNode l tag :: holds s t).

(** The [while] loop and what follows it, up to the next [cv_wait] or the
    return. *)
Definition read_loop (s : sys) (t : tid) (l : lid) (prio : bool) (tag : Z) : sys :=
  if read_blocked s t l prio then set_pc s t (WaitRead true l prio tag)
  else
    let r := lock s l in
    if rr_writer_wanted r || rr_track_all r then
      let s := rrn_add s t l tag in
      read_got (set_lock s l (set_linked r (rr_linked_rcount r + 1))) t l tag
    else read_got (set_lock s l (set_anon r (rr_anon_rcount r + 1))) t l tag.

(** [debug]: the kernel is compiled with [DEBUG], and has no fast path. *)
Definition rrw_enter_read_impl (debug : bool) (s : sys) (t : tid) (l : lid) (prio : bool) (tag : Z) : sys :=
  let r := lock s l in
  if negb debug && is_none (rr_writer r) && negb (rr_writer_wanted r) && negb (rr_track_all r)
  then read_got (set_lock s l (set_anon r (rr_anon_rcount r + 1))) t l tag
  else read_loop s t l prio tag.

Definition rrw_enter_read (debug : bool) (s : sys) (t : tid) (l : lid) (tag : Z) : sys :=
  rrw_enter_read_impl debug s t l false tag.
Definition rrw_enter_read_prio (debug : bool) (s : sys) (t : tid) (l : lid) (tag : Z) : sys :=
  rrw_enter_read_impl debug s t l true tag.

(** [rrw_enter_write]: the loop up to the next [cv_wait] or the return. *)
Definition rrw_enter_write (s : sys) (t : tid) (l : lid) : sys :=
  let r := lock s l in
  if (0 <? rr_anon_rcount r) || (0 <? rr_linked_rcount r) || negb (is_none (rr_writer r))
  then set_pc (set_lock s l (set_wanted r true)) t (WaitWrite true l)
  else set_writing (set_pc (set_lock s l (set_writer (set_wanted r false) (Some t))) t Running) t l true.

Inductive krw : Type := RW_READER | RW_WRITER.

Definition rrw_enter (debug : bool) (s : sys) (t : tid) (l : lid) (rw : krw) (tag : Z) : sys :=
  match rw with
  | RW_READER => rrw_enter_read debug s t l tag
  | RW_WRITER => rrw_enter_write s t l
  end.

(** What the thread gave back. *)
Definition read_released (s : sys) (t : tid) (l : lid) (tag : Z) : sys :=
  match remove_first (RrwNode l tag) (holds s t) with
  | Some ns => set_holds s t ns
  | None => s
  end.

Definition rrw_exit (debug : bool) (s : sys) (t : tid) (l : lid) (tag : Z) : sys :=
  let r := lock s l in
  if negb debug && is_none (rr_writer r) && (rr_linked_rcount r =? 0) then
    let s := read_released (set_lock s l (set_anon r (rr_anon_rcount r - 1))) t l tag in
    if rr_anon_rcount r - 1 =? 0 then cv_broadcast s l else s
  else if is_none (rr_writer r) then
    match rrn_find_and_remove s t l tag with
    | Some s =>
        let s := read_released (set_lock s l (set_linked r (rr_linked_rcount r - 1))) t l tag in
        if rr_linked_rcount r - 1 =? 0 then cv_broadcast s l else s
    | None =>
        let s := read_released (set_lock s l (set_anon r (rr_anon_rcount r - 1))) t l tag in
        if rr_anon_rcount r - 1 =? 0 then cv_broadcast s l else s
    end
  else cv_broadcast (set_writing (set_lock s l (set_writer r None)) t l false) l.

Definition rrw_held (s : sys) (t : tid) (l : lid) (rw : krw) : bool :=
  match rw with
  | RW_WRITER => match rr_writer (lock s l) with Some w => (w =? t)%nat | None => false end
  | RW_READER => negb (rr_anon_rcount (lock s l) =? 0) || rrn_find s t l
  end.

(** ** Steps

    Threads are those of a list; [held_read] and [held_write] say what a thread
    has.  A thread outside calls an operation under the rules of the header:
    it does not ask for what it may not have (no writing re-entrance, no mix of
    reads and writes), and gives back what it has, with the tag it took it
    with.  One woken up in [cv_wait] goes on with its loop; [cv_wait] may also
    return without a broadcast. *)

Definition held_read (s : sys) (t : tid) (l : lid) : Prop := exists tag, RrwNode l tag ∈ holds s t.
Definition held_write (s : sys) (t : tid) (l : lid) : Prop := writing s t l = true.

Section steps.
Context (debug : bool) (tids : list tid).

Inductive step : sys -> sys -> Prop :=
| StepEnterRead s t l prio tag :
    t ∈ tids -> pc s t = Running -> ~ held_write s t l ->
    step s (rrw_enter_read_impl debug s t l prio tag)
| StepReadWoken s t l prio tag :
    t ∈ tids -> pc s t = WaitRead false l prio tag -> step s (read_loop s t l prio tag)
| StepEnterWrite s t l :
    t ∈ tids -> pc s t = Running -> ~ held_write s t l -> ~ held_read s t l ->
    step s (rrw_enter_write s t l)
| StepWriteWoken s t l :
    t ∈ tids -> pc s t = WaitWrite false l -> step s (rrw_enter_write s t l)
| StepExit s t l tag :
    t ∈ tids -> pc s t = Running -> held_write s t l \/ RrwNode l tag ∈ holds s t ->
    step s (rrw_exit debug s t l tag)
| StepSpurious s t l :
    t ∈ tids -> step s (set_pc s t (wake l (pc s t))).

(** All locks initialised, by any choice of [track_all]; no thread has any. *)
Definition initial (s : sys) : Prop :=
  (forall l, exists ta, lock s l = Rrwlock None 0 0 false ta) /\
  (forall t, tsd s t = [] /\ pc s t = Running /\ holds s t = [] /\ forall l, writing s t l = false).

Inductive reachable : sys -> Prop :=
| ReachInit s : initial s -> reachable s
| ReachStep s s' : reachable s -> step s s' -> reachable s'.

End steps.
