(* ===== verification/RrwlockProps.v ===== *)
(** * Re-entrant read locks: exclusion, re-entrance and wake-ups

    The invariant of the steps of [Rrwlock] and what follows from it. *)

From S2P Require Import Prelude Rrwlock.

(** ** Lists of nodes *)

Lemma remove_first_Some x ns ns' : remove_first x ns = Some ns' -> ns ≡ₚ x :: ns'.
Proof.
  revert ns'. induction ns as [|n ns IH]; intros ns' H; cbn in H; [done|]. case_decide as Hn.
  - injection H as <-. by subst.
  - destruct (remove_first x ns) as [k|]; [|done]. injection H as <-. rewrite (IH k) by done. constructor.
Qed.

Lemma remove_first_None x ns : remove_first x ns = None -> x ∉ ns.
Proof.
  induction ns as [|n ns IH]; intros H; [set_solver|]. cbn in H. case_decide as Hn; [done|].
  destruct (remove_first x ns); [done|]. specialize (IH eq_refl). set_solver.
Qed.

Lemma remove_first_elem x ns : x ∈ ns -> exists ns', remove_first x ns = Some ns'.
Proof. intros H. destruct (remove_first x ns) eqn:E; [eauto|]. by apply remove_first_None in E. Qed.

(** The nodes of a list for one lock. *)
Definition cnt (l : lid) (ns : list rrw_node) : Z := Z.of_nat (length (filter (fun n => rn_rrl n = l) ns)).

Lemma cnt_nonneg l ns : 0 <= cnt l ns.
Proof. unfold cnt. lia. Qed.

Lemma cnt_cons l n ns : cnt l (n :: ns) = (if decide (rn_rrl n = l) then 1 else 0) + cnt l ns.
Proof. unfold cnt. rewrite filter_cons. case_decide; cbn [length]; lia. Qed.

#[export] Instance cnt_perm l : Proper ((≡ₚ) ==> eq) (cnt l).
Proof. intros ns ns' H. unfold cnt. by rewrite H. Qed.

Lemma cnt_mono l ns ns' : ns ⊆+ ns' -> cnt l ns <= cnt l ns'.
Proof.
  induction 1 as [|n ns ns' _ IH|n n' ns|n ns ns' _ IH|ns1 ns2 ns3 _ IH1 _ IH2]; rewrite ?cnt_cons;
    try (case_decide; lia); lia.
Qed.

Lemma cnt_pos l ns : 0 < cnt l ns <-> exists tag, RrwNode l tag ∈ ns.
Proof.
  induction ns as [|[l' tag] ns IH].
  - split; [done|]. intros [tag H]. set_solver.
  - rewrite cnt_cons. cbn [rn_rrl]. pose proof (cnt_nonneg l ns). case_decide as Hl.
    + split; [|lia]. intros _. subst. exists tag. set_solver.
    + rewrite Z.add_0_l, IH. split; intros [tag' Ht]; exists tag'; set_solver.
Qed.

Lemma existsb_cnt l ns : existsb (fun rn => (rn_rrl rn =? l)%nat) ns = (0 <? cnt l ns).
Proof.
  induction ns as [|n ns IH]; [done|]. cbn [existsb]. rewrite cnt_cons, IH. pose proof (cnt_nonneg l ns).
  destruct (Nat.eqb_spec (rn_rrl n) l) as [->|Hne].
  - rewrite decide_True by done. symmetry. apply Z.ltb_lt. lia.
  - by rewrite decide_False, Z.add_0_l by done.
Qed.

(** ** The invariant *)

Definition waits_on (p : place) (l : lid) : Prop :=
  match p with WaitRead _ l' _ _ | WaitWrite _ l' => l' = l | Running => False end.

(** The thread the lock names as its writer. *)
Definition is_writer (s : sys) (t : tid) (l : lid) : Prop := rr_writer (lock s l) = Some t.

(** It is the one that took the lock for writing and has not given it back. *)
Definition owners_ok (s : sys) : Prop := forall t l, held_write s t l <-> is_writer s t l.

Section invariant.
Context (debug : bool) (tids : list tid) (Hnd : NoDup tids).

(** The counts of a lock are those of the nodes and of the read locks taken;
    a writer is alone. *)
Record counts_ok (s : sys) : Prop := {
  c_sub t : tsd s t ⊆+ holds s t;
  c_linked l : rr_linked_rcount (lock s l) = total tids (fun t => cnt l (tsd s t));
  c_sum l : rr_anon_rcount (lock s l) + rr_linked_rcount (lock s l) = total tids (fun t => cnt l (holds s t));
  c_writer l w : rr_writer (lock s l) = Some w ->
    rr_anon_rcount (lock s l) + rr_linked_rcount (lock s l) = 0 /\ w ∈ tids;
}.

(** Who sleeps has a reason to; who waits does not hold what it waits for. *)
Record waits_ok (s : sys) : Prop := {
  w_write t l : pc s t = WaitWrite true l ->
    0 < rr_anon_rcount (lock s l) + rr_linked_rcount (lock s l) \/ rr_writer (lock s l) <> None;
  w_read t l prio tag : pc s t = WaitRead true l prio tag ->
    rr_writer (lock s l) <> None \/ rr_writer_wanted (lock s l) = true;
  w_wanted l : rr_writer_wanted (lock s l) = true -> exists t b, t ∈ tids /\ pc s t = WaitWrite b l;
  w_free t l : waits_on (pc s t) l -> ~ held_read s t l /\ ~ is_writer s t l;
}.

Lemma counts_nonneg s l : counts_ok s -> 0 <= rr_anon_rcount (lock s l) /\ 0 <= rr_linked_rcount (lock s l).
Proof using.
  intros Hc. pose proof (c_linked s Hc l) as Hl. pose proof (c_sum s Hc l) as Hs.
  pose proof (sum_threads_nonneg tids (fun t => cnt l (tsd s t)) (fun t => cnt_nonneg l _)).
  pose proof (total_le tids (fun t => cnt l (tsd s t)) (fun t => cnt l (holds s t)) (fun t => cnt_mono l _ _ (c_sub s Hc t))).
  lia.
Qed.

(** A thread that has the lock for reading finds its node, or there are
    anonymous readers. *)
Lemma reader_known s t l :
  counts_ok s -> t ∈ tids -> held_read s t l ->
  rr_writer (lock s l) = None /\ (rr_anon_rcount (lock s l) = 0 -> rrn_find s t l = true) /\
  0 < rr_anon_rcount (lock s l) + rr_linked_rcount (lock s l).
Proof using.
  intros Hc Ht Hh. apply cnt_pos in Hh. pose proof (c_sum s Hc l) as Hs. pose proof (c_linked s Hc l) as Hl.
  pose proof (total_ge tids (fun t => cnt l (holds s t)) t (fun t => cnt_nonneg l _) Ht) as Hge. cbn in Hge.
  split_and!; [|intros Ha|lia].
  - destruct (rr_writer (lock s l)) as [w|] eqn:E; [|done]. destruct (c_writer s Hc l w E). lia.
  - unfold rrn_find. rewrite (proj2 (Z.eqb_neq _ _)), existsb_cnt by lia. apply Z.ltb_lt.
    rewrite (total_squeeze tids (fun t => cnt l (tsd s t)) (fun t => cnt l (holds s t)) t); [done| |lia|done].
    intros u. apply cnt_mono, (c_sub s Hc).
Qed.

(** A change of one lock and of the lists of one thread. *)
Lemma counts_change s s' t l T H :
  counts_ok s -> t ∈ tids ->
  (forall i, tsd s' i = upd (tsd s) t T i) -> (forall i, holds s' i = upd (holds s) t H i) ->
  (forall i, i <> l -> lock s' i = lock s i) ->
  T ⊆+ H ->
  (forall i, i <> l -> cnt i T = cnt i (tsd s t) /\ cnt i H = cnt i (holds s t)) ->
  rr_linked_rcount (lock s' l) = rr_linked_rcount (lock s l) - cnt l (tsd s t) + cnt l T ->
  rr_anon_rcount (lock s' l) + rr_linked_rcount (lock s' l) =
    rr_anon_rcount (lock s l) + rr_linked_rcount (lock s l) - cnt l (holds s t) + cnt l H ->
  (forall w, rr_writer (lock s' l) = Some w ->
     rr_anon_rcount (lock s' l) + rr_linked_rcount (lock s' l) = 0 /\ w ∈ tids) ->
  counts_ok s'.
Proof using Hnd.
  intros Hc Ht Htsd Hholds Hlock Hsub Hother Hlinked Hsum Hw. split.
  - intros i. rewrite Htsd, Hholds. destruct (decide (i = t)) as [->|Hne]; [by rewrite !upd_eq|].
    rewrite !upd_ne by done. apply (c_sub s Hc).
  - intros i. rewrite (total_ext tids _ (fun j => cnt i (upd (tsd s) t T j))) by (intros j _; by rewrite Htsd).
    rewrite total_upd by done. rewrite <- (c_linked s Hc). destruct (decide (i = l)) as [->|Hne]; [done|].
    rewrite Hlock by done. destruct (Hother i Hne). lia.
  - intros i. rewrite (total_ext tids _ (fun j => cnt i (upd (holds s) t H j))) by (intros j _; by rewrite Hholds).
    rewrite total_upd by done. rewrite <- (c_sum s Hc). destruct (decide (i = l)) as [->|Hne]; [done|].
    rewrite Hlock by done. destruct (Hother i Hne). lia.
  - intros i w. destruct (decide (i = l)) as [->|Hne]; [apply Hw|]. rewrite Hlock by done. apply (c_writer s Hc).
Qed.

Lemma upd_same {A} (f : nat -> A) t i : f i = upd f t (f t) i.
Proof using. destruct (decide (i = t)) as [->|]; [by rewrite upd_eq|by rewrite upd_ne]. Qed.

(** The counts do not look at where threads are, nor at [rr_writer_wanted]. *)
Lemma counts_same s s' :
  counts_ok s -> (forall t, tsd s' t = tsd s t) -> (forall t, holds s' t = holds s t) ->
  (forall l, rr_anon_rcount (lock s' l) = rr_anon_rcount (lock s l) /\
             rr_linked_rcount (lock s' l) = rr_linked_rcount (lock s l) /\
             (forall w, rr_writer (lock s' l) = Some w ->
                rr_anon_rcount (lock s l) + rr_linked_rcount (lock s l) = 0 /\ w ∈ tids)) ->
  counts_ok s'.
Proof using.
  intros Hc Htsd Hholds Hl. split.
  - intros t. rewrite Htsd, Hholds. apply (c_sub s Hc).
  - intros l. destruct (Hl l) as (_ & -> & _). rewrite (c_linked s Hc). apply total_ext. intros t _. by rewrite Htsd.
  - intros l. destruct (Hl l) as (-> & -> & _). rewrite (c_sum s Hc). apply total_ext. intros t _. by rewrite Hholds.
  - intros l w Hw. destruct (Hl l) as (-> & -> & H). by apply H.
Qed.

Lemma counts_read_linked s t l tag :
  counts_ok s -> t ∈ tids -> rr_writer (lock s l) = None ->
  counts_ok (read_got (set_lock (rrn_add s t l tag) l (set_linked (lock s l) (rr_linked_rcount (lock s l) + 1))) t l tag).
Proof using Hnd.
  intros Hc Ht Hw. apply (counts_change s _ t l (RrwNode l tag :: tsd s t) (RrwNode l tag :: holds s t)); try done.
  - intros i Hi. cbn. by rewrite upd_ne.
  - apply submseteq_skip, (c_sub s Hc).
  - intros i Hi. rewrite !cnt_cons. cbn [rn_rrl]. by rewrite !decide_False by done.
  - cbn. rewrite upd_eq, cnt_cons. cbn [rn_rrl rr_linked_rcount set_linked]. rewrite decide_True by done. lia.
  - cbn. rewrite upd_eq, cnt_cons. cbn [rn_rrl rr_linked_rcount rr_anon_rcount set_linked]. rewrite decide_True by done. lia.
  - cbn. rewrite upd_eq. cbn. intros w. by rewrite Hw.
Qed.

Lemma counts_read_anon s t l tag :
  counts_ok s -> t ∈ tids -> rr_writer (lock s l) = None ->
  counts_ok (read_got (set_lock s l (set_anon (lock s l) (rr_anon_rcount (lock s l) + 1))) t l tag).
Proof using Hnd.
  intros Hc Ht Hw. apply (counts_change s _ t l (tsd s t) (RrwNode l tag :: holds s t)); try done.
  - intros i. apply upd_same.
  - intros i Hi. cbn. by rewrite upd_ne.
  - apply submseteq_cons, (c_sub s Hc).
  - intros i Hi. rewrite !cnt_cons. cbn [rn_rrl]. by rewrite !decide_False by done.
  - cbn. rewrite upd_eq. cbn [rr_linked_rcount set_anon]. lia.
  - cbn. rewrite upd_eq, cnt_cons. cbn [rn_rrl rr_linked_rcount rr_anon_rcount set_anon]. rewrite decide_True by done. lia.
  - cbn. rewrite upd_eq. cbn. intros w. by rewrite Hw.
Qed.

Lemma counts_exit_linked s t l tag ns :
  counts_ok s -> t ∈ tids -> rr_writer (lock s l) = None -> RrwNode l tag ∈ holds s t ->
  remove_first (RrwNode l tag) (tsd s t) = Some ns ->
  counts_ok (read_released (set_lock (set_tsd s t ns) l (set_linked (lock s l) (rr_linked_rcount (lock s l) - 1))) t l tag).
Proof using Hnd.
  intros Hc Ht Hw Hh Hns. destruct (remove_first_elem _ _ Hh) as (hs & Hhs). unfold read_released. cbn [holds set_lock set_tsd].
  rewrite Hhs. pose proof (remove_first_Some _ _ _ Hns) as P1. pose proof (remove_first_Some _ _ _ Hhs) as P2.
  apply (counts_change s _ t l ns hs); try done.
  - intros i Hi. cbn. by rewrite upd_ne.
  - pose proof (c_sub s Hc t) as Hsub. rewrite P1, P2 in Hsub.
    apply submseteq_cons_l in Hsub as (k & Hk & Hsub). apply (inj _) in Hk. by rewrite Hk.
  - intros i Hi. rewrite P1, P2, !cnt_cons. cbn [rn_rrl]. by rewrite !decide_False by done.
  - cbn. rewrite upd_eq, P1, cnt_cons. cbn [rn_rrl rr_linked_rcount set_linked]. rewrite decide_True by done. lia.
  - cbn. rewrite upd_eq, P2, cnt_cons. cbn [rn_rrl rr_linked_rcount rr_anon_rcount set_linked]. rewrite decide_True by done. lia.
  - cbn. rewrite upd_eq. cbn. intros w. by rewrite Hw.
Qed.

Lemma counts_exit_anon s t l tag :
  counts_ok s -> t ∈ tids -> rr_writer (lock s l) = None -> RrwNode l tag ∈ holds s t ->
  RrwNode l tag ∉ tsd s t ->
  counts_ok (read_released (set_lock s l (set_anon (lock s l) (rr_anon_rcount (lock s l) - 1))) t l tag).
Proof using Hnd.
  intros Hc Ht Hw Hh Hni. destruct (remove_first_elem _ _ Hh) as (hs & Hhs). unfold read_released. cbn [holds set_lock].
  rewrite Hhs. pose proof (remove_first_Some _ _ _ Hhs) as P2.
  apply (counts_change s _ t l (tsd s t) hs); try done.
  - intros i. apply upd_same.
  - intros i Hi. cbn. by rewrite upd_ne.
  - pose proof (c_sub s Hc t) as Hsub. rewrite P2 in Hsub. apply submseteq_cons_r in Hsub as [?|(k & Hk & _)]; [done|].
    exfalso. apply Hni. rewrite Hk. set_solver.
  - intros i Hi. rewrite P2, !cnt_cons. cbn [rn_rrl]. by rewrite !decide_False by done.
  - cbn. rewrite upd_eq. cbn [rr_linked_rcount set_anon]. lia.
  - cbn. rewrite upd_eq, P2, cnt_cons. cbn [rn_rrl rr_linked_rcount rr_anon_rcount set_anon]. rewrite decide_True by done. lia.
  - cbn. rewrite upd_eq. cbn. intros w. by rewrite Hw.
Qed.

Lemma counts_pc s t p : counts_ok s -> counts_ok (set_pc s t p).
Proof using. intros Hc. apply (counts_same s); try done. intros l. split_and!; [done..|]. apply (c_writer s Hc). Qed.
Lemma counts_broadcast s l : counts_ok s -> counts_ok (cv_broadcast s l).
Proof using. intros Hc. apply (counts_same s); try done. intros i. split_and!; [done..|]. apply (c_writer s Hc). Qed.

Lemma counts_read_loop s t l prio tag : counts_ok s -> t ∈ tids -> counts_ok (read_loop s t l prio tag).
Proof using Hnd.
  intros Hc Ht. unfold read_loop. destruct (read_blocked s t l prio) eqn:Eb; [by apply counts_pc|].
  assert (rr_writer (lock s l) = None) as Hw.
  { unfold read_blocked in Eb. apply orb_false_iff in Eb as [Eb _]. by destruct (rr_writer (lock s l)). }
  destruct (_ || _); [by apply counts_read_linked|by apply counts_read_anon].
Qed.

Lemma counts_enter_read s t l prio tag :
  counts_ok s -> t ∈ tids -> counts_ok (rrw_enter_read_impl debug s t l prio tag).
Proof using Hnd.
  intros Hc Ht. unfold rrw_enter_read_impl. destruct (_ && _) eqn:E; [|by apply counts_read_loop].
  apply counts_read_anon; [done..|]. bool_to_prop. by destruct (rr_writer (lock s l)).
Qed.

Lemma counts_enter_write s t l : counts_ok s -> t ∈ tids -> counts_ok (rrw_enter_write s t l).
Proof using.
  intros Hc Ht. destruct (counts_nonneg s l Hc) as [H1 H2]. unfold rrw_enter_write. destruct (_ || _) eqn:E.
  - apply counts_pc, (counts_same s); try done. intros i. cbn. destruct (decide (i = l)) as [->|Hne].
    + rewrite upd_eq. cbn. split_and!; [done..|]. apply (c_writer s Hc).
    + rewrite upd_ne by done. split_and!; [done..|]. apply (c_writer s Hc).
  - apply orb_false_iff in E as [E E3]. apply orb_false_iff in E as [E1 E2]. bool_to_prop.
    apply (counts_same s); try done. intros i. cbn. destruct (decide (i = l)) as [->|Hne].
    + rewrite upd_eq. cbn. split_and!; [done..|]. intros w [= <-]. split; [lia|done].
    + rewrite upd_ne by done. split_and!; [done..|]. apply (c_writer s Hc).
Qed.

Lemma no_node s t l tag :
  counts_ok s -> t ∈ tids -> rr_linked_rcount (lock s l) = 0 -> RrwNode l tag ∉ tsd s t.
Proof using.
  intros Hc Ht H0 Hin. rewrite (c_linked s Hc) in H0.
  pose proof (total_ge tids (fun t => cnt l (tsd s t)) t (fun t => cnt_nonneg l _) Ht) as Hge. cbn in Hge.
  assert (0 < cnt l (tsd s t)) by (apply cnt_pos; eauto). lia.
Qed.

(** The shapes of [rrw_exit] for a thread that holds what it gives back. *)
Lemma exit_cases s t l tag :
  counts_ok s -> t ∈ tids -> is_writer s t l \/ RrwNode l tag ∈ holds s t ->
  (rr_writer (lock s l) <> None /\
     rrw_exit debug s t l tag = cv_broadcast (set_writing (set_lock s l (set_writer (lock s l) None)) t l false) l) \/
  (rr_writer (lock s l) = None /\ RrwNode l tag ∈ holds s t /\ exists s1 n,
     rrw_exit debug s t l tag = (if n =? 0 then cv_broadcast s1 l else s1) /\ counts_ok s1 /\
     (forall i, pc s1 i = pc s i) /\ (forall i, i <> l -> lock s1 i = lock s i) /\
     rr_writer (lock s1 l) = None /\ rr_writer_wanted (lock s1 l) = rr_writer_wanted (lock s l) /\
     (n = rr_anon_rcount (lock s1 l) \/ n = rr_linked_rcount (lock s1 l)) /\
     (forall i, holds s1 i ⊆+ holds s i)).
Proof using Hnd.
  intros Hc Ht Hh. destruct (rr_writer (lock s l)) as [w|] eqn:Ew.
  { left. split; [done|]. unfold rrw_exit. rewrite Ew. cbn [is_none]. rewrite andb_false_r. done. }
  right. assert (RrwNode l tag ∈ holds s t) as Hin by (destruct Hh as [Hh|]; [unfold is_writer in Hh; congruence|done]).
  split; [done|]. split; [done|]. destruct (remove_first_elem _ _ Hin) as (hs & Hhs).
  assert (forall i, upd (holds s) t hs i ⊆+ holds s i) as Hshr.
  { intros i. destruct (decide (i = t)) as [->|]; [|by rewrite upd_ne]. rewrite upd_eq, (remove_first_Some _ _ _ Hhs).
    by apply submseteq_cons. }
  unfold rrw_exit. rewrite Ew. cbn [is_none]. rewrite andb_true_r.
  assert (RrwNode l tag ∉ tsd s t -> exists s1 n,
    (let s0 := read_released (set_lock s l (set_anon (lock s l) (rr_anon_rcount (lock s l) - 1))) t l tag in
     if rr_anon_rcount (lock s l) - 1 =? 0 then cv_broadcast s0 l else s0) = (if n =? 0 then cv_broadcast s1 l else s1) /\
     counts_ok s1 /\ (forall i, pc s1 i = pc s i) /\ (forall i, i <> l -> lock s1 i = lock s i) /\
     rr_writer (lock s1 l) = None /\ rr_writer_wanted (lock s1 l) = rr_writer_wanted (lock s l) /\
     (n = rr_anon_rcount (lock s1 l) \/ n = rr_linked_rcount (lock s1 l)) /\ (forall i, holds s1 i ⊆+ holds s i)) as Hanon.
  { intros Hni. pose proof (counts_exit_anon s t l tag Hc Ht Ew Hin Hni) as Hc1. revert Hc1. unfold read_released.
    cbn [holds set_lock]. rewrite Hhs. intros Hc1. eexists _, _. split; [reflexivity|]. split; [done|]. cbn. rewrite upd_eq. cbn.
    split_and!; try done; [|auto]. intros i Hi. by rewrite upd_ne. }
  destruct (negb debug && (rr_linked_rcount (lock s l) =? 0)) eqn:E.
  { apply Hanon. bool_to_prop. by apply no_node. }
  unfold rrn_find_and_remove. destruct (Z.eqb_spec (rr_linked_rcount (lock s l)) 0) as [H0|H0].
  { apply Hanon. by apply no_node. }
  destruct (remove_first (RrwNode l tag) (tsd s t)) as [ns|] eqn:Ens; cbn [fmap option_fmap option_map].
  2:{ apply Hanon. by apply remove_first_None. }
  pose proof (counts_exit_linked s t l tag ns Hc Ht Ew Hin Ens) as Hc1. revert Hc1. unfold read_released.
  cbn [holds set_lock set_tsd]. rewrite Hhs. intros Hc1. eexists _, _. split; [reflexivity|]. split; [done|]. cbn. rewrite upd_eq. cbn.
  split_and!; try done; [|auto]. intros i Hi. by rewrite upd_ne.
Qed.

(** ** Waiting *)

Ltac solve_wake :=
  match goal with p : place |- _ => destruct p as [|? l0 ? ?|? l0] end; cbn; [done|..];
  match goal with l0 : lid |- context [(?l0 =? ?l)%nat] => destruct (Nat.eqb_spec l0 l) as [->|] end;
  cbn; intros; simplify_eq; auto.

Lemma wake_write l p l' : wake l p = WaitWrite true l' -> p = WaitWrite true l' /\ l' <> l.
Proof using. solve_wake. Qed.
Lemma wake_read l p l' prio tag : wake l p = WaitRead true l' prio tag -> p = WaitRead true l' prio tag /\ l' <> l.
Proof using. solve_wake. Qed.
Lemma wake_waits l p l' : waits_on (wake l p) l' -> waits_on p l'.
Proof using. solve_wake. Qed.
Lemma wake_keeps l p b l' : p = WaitWrite b l' -> exists b', wake l p = WaitWrite b' l'.
Proof using. intros ->. cbn. case_match; eauto. Qed.

(** A step that only wakes threads up. *)
Lemma waits_wake s s' l :
  waits_ok s -> (forall i, lock s' i = lock s i) -> (forall t, holds s' t = holds s t) ->
  (forall t, pc s' t = pc s t \/ pc s' t = wake l (pc s t)) -> waits_ok s'.
Proof using.
  intros Hw Hlock Hh Hpc. split.
  - intros t i H. rewrite Hlock. apply (w_write s Hw t). destruct (Hpc t) as [E|E]; rewrite E in H; [done|]. by apply wake_write in H as [].
  - intros t i prio tag H. rewrite Hlock. apply (w_read s Hw t i prio tag). destruct (Hpc t) as [E|E]; rewrite E in H; [done|].
    by apply wake_read in H as [].
  - intros i H. rewrite Hlock in H. destruct (w_wanted s Hw i H) as (t & b & Ht & Hb). exists t.
    destruct (Hpc t) as [E|E]; rewrite E; [eauto|]. destruct (wake_keeps l _ b i Hb) as [b' ->]. eauto.
  - intros t i H. unfold held_read, is_writer. rewrite Hlock, Hh. apply (w_free s Hw).
    destruct (Hpc t) as [E|E]; rewrite E in H; [done|]. by eapply wake_waits.
Qed.

(** Thread [t] outside, or back at its loop on lock [l]. *)
Definition entering (s : sys) (t : tid) (l : lid) : Prop :=
  ~ is_writer s t l /\ (pc s t = Running \/ waits_on (pc s t) l).

Lemma waits_got s t l tag r :
  counts_ok s -> waits_ok s -> (forall b i, pc s t <> WaitWrite b i) ->
  rr_writer r = rr_writer (lock s l) -> rr_writer_wanted r = rr_writer_wanted (lock s l) ->
  rr_anon_rcount r + rr_linked_rcount r = rr_anon_rcount (lock s l) + rr_linked_rcount (lock s l) + 1 ->
  forall T, waits_ok (read_got (set_lock (set_tsd s t T) l r) t l tag).
Proof using.
  intros Hc Hw Hpc Hwr Hwa Hsum T. split; cbn.
  - intros u i H. destruct (decide (u = t)) as [->|Hu]; [by rewrite upd_eq in H|]. rewrite upd_ne in H by done.
    pose proof (w_write s Hw u i H) as Hi. destruct (decide (i = l)) as [->|Hne]; [|by rewrite upd_ne].
    rewrite upd_eq, Hwr. destruct Hi; [left; lia|by right].
  - intros u i prio tag' H. destruct (decide (u = t)) as [->|Hu]; [by rewrite upd_eq in H|]. rewrite upd_ne in H by done.
    pose proof (w_read s Hw u i prio tag' H) as Hi. destruct (decide (i = l)) as [->|Hne]; [|by rewrite upd_ne].
    by rewrite upd_eq, Hwr, Hwa.
  - intros i H. assert (rr_writer_wanted (lock s i) = true) as H'.
    { destruct (decide (i = l)) as [->|Hne]; [by rewrite upd_eq, Hwa in H|by rewrite upd_ne in H]. }
    destruct (w_wanted s Hw i H') as (u & b & Hu & Hb). exists u, b. split; [done|]. rewrite upd_ne; [done|].
    intros ->. by apply (Hpc b i).
  - intros u i H. destruct (decide (u = t)) as [->|Hu]; [by rewrite upd_eq in H|]. rewrite upd_ne in H by done.
    destruct (w_free s Hw u i H) as [Hf1 Hf2]. unfold held_read, is_writer in *. cbn. rewrite upd_ne by done.
    split; [done|]. destruct (decide (i = l)) as [->|Hne]; [by rewrite upd_eq, Hwr|by rewrite upd_ne].
Qed.

Lemma waits_read_loop s t l prio tag :
  counts_ok s -> waits_ok s -> t ∈ tids -> entering s t l -> (forall b i, pc s t <> WaitWrite b i) ->
  waits_ok (read_loop s t l prio tag).
Proof using.
  intros Hc Hw Ht [Hnw Hpl] Hpc. unfold read_loop. destruct (read_blocked s t l prio) eqn:Eb.
  - split; cbn; unfold held_read, is_writer; cbn.
    + intros u i H. destruct (decide (u = t)) as [->|Hu]; [by rewrite upd_eq in H|]. rewrite upd_ne in H by done. by apply (w_write s Hw u).
    + intros u i prio' tag' H. destruct (decide (u = t)) as [->|Hu].
      * rewrite upd_eq in H. injection H as <- <- <-. unfold read_blocked in Eb. apply orb_prop in Eb as [Eb|Eb].
        { left. by destruct (rr_writer (lock s l)). } bool_to_prop. by right.
      * rewrite upd_ne in H by done. by apply (w_read s Hw u i prio' tag').
    + intros i H. destruct (w_wanted s Hw i H) as (u & b & Hu & Hb). exists u, b. split; [done|]. rewrite upd_ne; [done|].
      intros ->. by apply (Hpc b i).
    + intros u i H. destruct (decide (u = t)) as [->|Hu]; [|rewrite upd_ne in H by done; by apply (w_free s Hw)].
      rewrite upd_eq in H. cbn in H. subst i. split; [|done]. intros Hh.
      destruct (reader_known s t l Hc Ht Hh) as (Hnone & Hfind & _). unfold read_blocked in Eb. rewrite Hnone in Eb. cbn in Eb.
      bool_to_prop. rewrite Hfind in * by done. done.
  - assert (forall r, read_got (set_lock s l r) t l tag = read_got (set_lock (set_tsd s t (tsd s t)) l r) t l tag ->
      True) as _ by done.
    destruct (_ || _).
    + apply (waits_got s t l tag); try done. cbn. lia.
    + pose proof (waits_got s t l tag (set_anon (lock s l) (rr_anon_rcount (lock s l) + 1)) Hc Hw Hpc eq_refl eq_refl ltac:(cbn; lia) (tsd s t)) as H.
      destruct H. by split.
Qed.

Lemma waits_enter_read s t l prio tag :
  counts_ok s -> waits_ok s -> t ∈ tids -> ~ is_writer s t l -> pc s t = Running ->
  waits_ok (rrw_enter_read_impl debug s t l prio tag).
Proof using.
  intros Hc Hw Ht Hnw Hpc. unfold rrw_enter_read_impl.
  destruct (_ && _); [|apply waits_read_loop; [done..|by split; [|left]|by rewrite Hpc]].
  pose proof (waits_got s t l tag (set_anon (lock s l) (rr_anon_rcount (lock s l) + 1)) Hc Hw ltac:(by rewrite Hpc) eq_refl eq_refl ltac:(cbn; lia) (tsd s t)) as H.
  destruct H. by split.
Qed.

Lemma waits_enter_write s t l :
  counts_ok s -> waits_ok s -> t ∈ tids -> ~ is_writer s t l -> ~ held_read s t l ->
  pc s t = Running \/ (exists b, pc s t = WaitWrite b l) -> waits_ok (rrw_enter_write s t l).
Proof using.
  intros Hc Hw Ht Hnw Hnr Hpc. destruct (counts_nonneg s l Hc) as [Ha Hl].
  assert (forall b i, i <> l -> pc s t <> WaitWrite b i) as Hpc'.
  { intros b i Hi. destruct Hpc as [->|[b' ->]]; congruence. }
  unfold rrw_enter_write. destruct (_ || _) eqn:E.
  - assert (0 < rr_anon_rcount (lock s l) + rr_linked_rcount (lock s l) \/ rr_writer (lock s l) <> None) as Hreason.
    { apply orb_prop in E as [E|E]; [|right; by destruct (rr_writer (lock s l))].
      left. apply orb_prop in E as [E|E]; bool_to_prop; lia. }
    split; cbn; unfold held_read, is_writer; cbn.
    + intros u i H. destruct (decide (i = l)) as [->|Hne]; [rewrite upd_eq; cbn; done|]. rewrite upd_ne by done.
      destruct (decide (u = t)) as [->|Hu]; [rewrite upd_eq in H; congruence|]. rewrite upd_ne in H by done. by apply (w_write s Hw u).
    + intros u i prio tag H. destruct (decide (u = t)) as [->|Hu]; [by rewrite upd_eq in H|]. rewrite upd_ne in H by done.
      destruct (decide (i = l)) as [->|Hne]; [rewrite upd_eq; cbn; by right|]. rewrite upd_ne by done. by apply (w_read s Hw u i prio tag).
    + intros i H. destruct (decide (i = l)) as [->|Hne].
      * exists t, true. split; [done|]. by rewrite upd_eq.
      * rewrite upd_ne in H by done. destruct (w_wanted s Hw i H) as (u & b & Hu & Hb). exists u, b. split; [done|].
        rewrite upd_ne; [done|]. intros ->. by apply (Hpc' b i).
    + intros u i H. assert (rr_writer (upd (lock s) l (set_wanted (lock s l) true) i) = rr_writer (lock s i)) as ->.
      { destruct (decide (i = l)) as [->|]; [by rewrite upd_eq|by rewrite upd_ne]. }
      destruct (decide (u = t)) as [->|Hu]; [rewrite upd_eq in H; cbn in H; by subst|]. rewrite upd_ne in H by done. by apply (w_free s Hw).
  - split; cbn; unfold held_read, is_writer; cbn.
    + intros u i H. destruct (decide (u = t)) as [->|Hu]; [by rewrite upd_eq in H|]. rewrite upd_ne in H by done.
      destruct (decide (i = l)) as [->|Hne]; [rewrite upd_eq; cbn; by right|]. rewrite upd_ne by done. by apply (w_write s Hw u).
    + intros u i prio tag H. destruct (decide (u = t)) as [->|Hu]; [by rewrite upd_eq in H|]. rewrite upd_ne in H by done.
      destruct (decide (i = l)) as [->|Hne]; [rewrite upd_eq; cbn; by left|]. rewrite upd_ne by done. by apply (w_read s Hw u i prio tag).
    + intros i H. destruct (decide (i = l)) as [->|Hne]; [by rewrite upd_eq in H|]. rewrite upd_ne in H by done.
      destruct (w_wanted s Hw i H) as (u & b & Hu & Hb). exists u, b. split; [done|]. rewrite upd_ne; [done|].
      intros ->. by apply (Hpc' b i).
    + intros u i H. destruct (decide (u = t)) as [->|Hu]; [by rewrite upd_eq in H|]. rewrite upd_ne in H by done.
      destruct (w_free s Hw u i H) as [Hf1 Hf2]. split; [done|].
      destruct (decide (i = l)) as [->|Hne]; [rewrite upd_eq; cbn; congruence|by rewrite upd_ne].
Qed.

Lemma waits_exit s t l tag :
  counts_ok s -> waits_ok s -> t ∈ tids -> is_writer s t l \/ RrwNode l tag ∈ holds s t ->
  waits_ok (rrw_exit debug s t l tag).
Proof using Hnd.
  intros Hc Hw Ht Hh. destruct (exit_cases s t l tag Hc Ht Hh) as [(Hwr & ->)|(Hwr & Hin & s1 & n & -> & Hc1 & Hpc & Hlo & Hw1 & Hwa & Hn & Hsub)].
  - split; cbn; unfold held_read, is_writer; cbn.
    + intros u i [H Hne]%wake_write. rewrite upd_ne by done. by apply (w_write s Hw u).
    + intros u i prio tag' [H Hne]%wake_read. rewrite upd_ne by done. by apply (w_read s Hw u i prio tag').
    + intros i H. assert (rr_writer_wanted (lock s i) = true) as H'.
      { destruct (decide (i = l)) as [->|]; [by rewrite upd_eq in H|by rewrite upd_ne in H]. }
      destruct (w_wanted s Hw i H') as (u & b & Hu & Hb). destruct (wake_keeps l _ b i Hb) as [b' E]. eauto.
    + intros u i H%wake_waits. destruct (w_free s Hw u i H) as [Hf1 Hf2]. split; [done|].
      destruct (decide (i = l)) as [->|Hne]; [by rewrite upd_eq|by rewrite upd_ne].
  - assert (waits_ok s1 \/ n = 0) as Hor.
    { destruct (Z.eqb_spec n 0) as [|Hn0]; [by right|]. left. destruct (counts_nonneg s1 l Hc1) as [Ha Hl]. split.
      - intros u i H. destruct (decide (i = l)) as [->|Hne]; [left; lia|]. rewrite Hlo by done. rewrite Hpc in H. by apply (w_write s Hw u).
      - intros u i prio tag' H. rewrite Hpc in H. pose proof (w_read s Hw u i prio tag' H) as Hr.
        destruct (decide (i = l)) as [->|Hne]; [|by rewrite Hlo]. rewrite Hwa. by destruct Hr; [|right].
      - intros i H. destruct (decide (i = l)) as [->|Hne]; [rewrite Hwa in H|rewrite Hlo in H by done];
          destruct (w_wanted s Hw _ H) as (u & b & Hu & Hb); exists u, b; by rewrite Hpc.
      - intros u i H. rewrite Hpc in H. destruct (w_free s Hw u i H) as [Hf1 Hf2]. split.
        + intros [tg Htg]. apply Hf1. exists tg. by eapply elem_of_submseteq.
        + unfold is_writer in *. destruct (decide (i = l)) as [->|Hne]; [by rewrite Hw1|by rewrite Hlo]. }
    destruct (Z.eqb_spec n 0) as [Hn0|Hn0]; [|by destruct Hor].
    split; cbn; unfold held_read, is_writer; cbn.
    + intros u i [H Hne]%wake_write. rewrite Hlo by done. rewrite Hpc in H. by apply (w_write s Hw u).
    + intros u i prio tag' [H Hne]%wake_read. rewrite Hlo by done. rewrite Hpc in H. by apply (w_read s Hw u i prio tag').
    + intros i H. assert (rr_writer_wanted (lock s i) = true) as H'.
      { destruct (decide (i = l)) as [->|]; [by rewrite Hwa in H|by rewrite Hlo in H]. }
      destruct (w_wanted s Hw i H') as (u & b & Hu & Hb).
      rewrite <- Hpc in Hb. destruct (wake_keeps l _ b i Hb) as [b' E]. eauto.
    + intros u i H%wake_waits. rewrite Hpc in H. destruct (w_free s Hw u i H) as [Hf1 Hf2]. split.
      * intros [tg Htg]. apply Hf1. exists tg. by eapply elem_of_submseteq.
      * destruct (decide (i = l)) as [->|Hne]; [by rewrite Hw1|by rewrite Hlo].
Qed.

(** ** Owners *)

(** Whoever gives a lock back has it. *)
Lemma exit_holder s t l tag :
  owners_ok s -> held_write s t l \/ RrwNode l tag ∈ holds s t -> is_writer s t l \/ RrwNode l tag ∈ holds s t.
Proof using. intros Ho [H|H]; [left; by apply Ho|by right]. Qed.

Lemma owners_same s s' :
  owners_ok s -> (forall t l, writing s' t l = writing s t l) ->
  (forall l, rr_writer (lock s' l) = rr_writer (lock s l)) -> owners_ok s'.
Proof using. intros Ho Hw Hl t l. unfold held_write, is_writer. rewrite Hw, Hl. apply Ho. Qed.

Lemma owners_read_loop s t l prio tag : owners_ok s -> owners_ok (read_loop s t l prio tag).
Proof using.
  intros Ho. unfold read_loop. destruct (read_blocked s t l prio); [by apply (owners_same s)|].
  destruct (_ || _); (apply (owners_same s); [done..|]); intros i; cbn; (apply upd_case; [by intros ->|done]).
Qed.

Lemma owners_enter_read s t l prio tag : owners_ok s -> owners_ok (rrw_enter_read_impl debug s t l prio tag).
Proof using.
  intros Ho. unfold rrw_enter_read_impl. destruct (_ && _); [|by apply owners_read_loop].
  apply (owners_same s); [done..|]. intros i. cbn. apply upd_case; [by intros ->|done].
Qed.

Lemma owners_enter_write s t l : owners_ok s -> owners_ok (rrw_enter_write s t l).
Proof using.
  intros Ho. unfold rrw_enter_write. destruct (_ || _) eqn:E.
  - apply (owners_same s); [done..|]. intros i. cbn. apply upd_case; [by intros ->|done].
  - apply orb_false_iff in E as [_ E]. assert (rr_writer (lock s l) = None) as Hn by (by destruct (rr_writer (lock s l))).
    intros u i. specialize (Ho u i). unfold held_write, is_writer in *. cbn.
    destruct (decide (i = l)) as [->|Hi]; destruct (decide (u = t)) as [->|Hu]; rewrite ?upd_eq, ?(upd_ne _ t u), ?(upd_ne _ l i) by done; cbn; try done.
    rewrite Ho, Hn. split; congruence.
Qed.

Lemma owners_exit s t l tag :
  counts_ok s -> owners_ok s -> t ∈ tids -> is_writer s t l \/ RrwNode l tag ∈ holds s t ->
  owners_ok (rrw_exit debug s t l tag).
Proof using Hnd.
  intros Hc Ho Ht Hh. assert (rr_writer (lock s l) <> None -> is_writer s t l) as Hwr.
  { intros Hne. destruct Hh as [|Hin]; [done|]. by destruct (reader_known s t l Hc Ht (ex_intro _ tag Hin)) as [? _]. }
  assert (forall r s1 (b : bool), rr_writer r = rr_writer (lock s l) -> lock s1 = upd (lock s) l r -> writing s1 = writing s ->
    owners_ok (if b then cv_broadcast (read_released s1 t l tag) l else read_released s1 t l tag)) as Hrel.
  { intros r s1 b Er El Ew. assert (owners_ok (read_released s1 t l tag)) as H.
    { unfold read_released. destruct (remove_first _ _); apply (owners_same s); try done; intros; cbn; rewrite ?Ew, ?El; try done;
        (apply upd_case; [by intros ->|done]). }
    destruct b; [by apply (owners_same (read_released s1 t l tag))|done]. }
  unfold rrw_exit. destruct (_ && _) eqn:E.
  { by eapply Hrel; [|reflexivity|reflexivity]. }
  destruct (is_none (rr_writer (lock s l))) eqn:Ew.
  - unfold rrn_find_and_remove. destruct (rr_linked_rcount (lock s l) =? 0); [|destruct (remove_first _ _)]; cbn;
      by eapply Hrel; [|reflexivity|reflexivity].
  - assert (is_writer s t l) as Hw by (apply Hwr; by destruct (rr_writer (lock s l))). unfold is_writer in Hw.
    intros u i. specialize (Ho u i). unfold held_write, is_writer in *. cbn.
    destruct (decide (i = l)) as [->|Hi]; destruct (decide (u = t)) as [->|Hu]; rewrite ?upd_eq, ?(upd_ne _ t u), ?(upd_ne _ l i) by done; cbn; try done.
    rewrite Ho, Hw. split; congruence.
Qed.

Lemma step_inv s s' :
  counts_ok s -> waits_ok s -> owners_ok s -> step debug tids s s' -> counts_ok s' /\ waits_ok s' /\ owners_ok s'.
Proof using Hnd.
  intros Hc Hw Ho Hst. revert Hc Hw Ho.
  destruct Hst as [s0 t l prio tag Ht Hpc Hnw|s0 t l prio tag Ht Hpc|s0 t l Ht Hpc Hnw Hnr|s0 t l Ht Hpc|s0 t l tag Ht Hpc Hh|s0 t l Ht];
    intros Hc Hw Ho.
  - split_and!; [by apply counts_enter_read|apply waits_enter_read; [done..| |done]|by apply owners_enter_read]. by rewrite <- (Ho t l).
  - split_and!; [by apply counts_read_loop| |by apply owners_read_loop]. destruct (w_free s0 Hw t l) as [_ Hnw]; [by rewrite Hpc|].
    apply waits_read_loop; try done; [split; [done|right; by rewrite Hpc]|by rewrite Hpc].
  - split_and!; [by apply counts_enter_write| |by apply owners_enter_write].
    apply waits_enter_write; try done; [by rewrite <- (Ho t l)|by left].
  - split_and!; [by apply counts_enter_write| |by apply owners_enter_write]. destruct (w_free s0 Hw t l) as [Hnr Hnw]; [by rewrite Hpc|].
    apply waits_enter_write; try done. right. eauto.
  - apply (exit_holder s0 t l tag Ho) in Hh. split_and!; [|by apply waits_exit|by apply owners_exit].
    destruct (exit_cases s0 t l tag Hc Ht Hh) as [(Hwr & ->)|(Hwr & Hin & s1 & n & -> & Hc1 & _)].
    + apply counts_broadcast, (counts_same s0); try done. intros i. cbn. destruct (decide (i = l)) as [->|].
      * rewrite upd_eq. done.
      * rewrite upd_ne by done. split_and!; [done..|]. apply (c_writer s0 Hc).
    + destruct (n =? 0); [by apply counts_broadcast|done].
  - split_and!; [by apply counts_pc| |by apply (owners_same s0)]. apply (waits_wake s0 _ l); try done. intros u. cbn.
    destruct (decide (u = t)) as [->|]; [right; by rewrite upd_eq|left; by rewrite upd_ne].
Qed.

Lemma initial_inv s : initial s -> counts_ok s /\ waits_ok s /\ owners_ok s.
Proof using.
  intros [Hl Ht]. split; [|split]; [split|split|].
  - intros t. destruct (Ht t) as (-> & _ & -> & _). done.
  - intros l. destruct (Hl l) as [ta ->]. cbn. rewrite (total_ext tids _ (fun _ => 0)).
    + clear. induction tids as [|t ts IH]; [done|]. by rewrite total_cons.
    + intros t _. by destruct (Ht t) as (-> & _).
  - intros l. destruct (Hl l) as [ta ->]. cbn. rewrite (total_ext tids _ (fun _ => 0)).
    + clear. induction tids as [|t ts IH]; [done|]. by rewrite total_cons.
    + intros t _. by destruct (Ht t) as (_ & _ & -> & _).
  - intros l w. destruct (Hl l) as [ta ->]. done.
  - intros t l. by destruct (Ht t) as (_ & -> & _).
  - intros t l prio tag. by destruct (Ht t) as (_ & -> & _).
  - intros l. destruct (Hl l) as [ta ->]. done.
  - intros t l. by destruct (Ht t) as (_ & -> & _).
  - intros t l. unfold held_write, is_writer. destruct (Hl l) as [ta ->]. destruct (Ht t) as (_ & _ & _ & ->). done.
Qed.

Lemma reachable_inv s : reachable debug tids s -> counts_ok s /\ waits_ok s /\ owners_ok s.
Proof using Hnd.
  induction 1 as [s H|s s' _ (Hc & Hw & Ho) Hstep]; [by apply initial_inv|by eapply step_inv].
Qed.
End invariant.


(** Re-entrance.  A thread that has the lock for reading gets it again at
    once, whoever is waiting; a thread that does not have it, and asks without
    priority, goes to sleep when a writer is waiting and there are no
    anonymous readers, and the lock stays as it was. *)
Theorem rrw_reentrant debug tids s t l prio tag :
  NoDup tids -> reachable debug tids s -> t ∈ tids ->
  let s' := rrw_enter_read_impl debug s t l prio tag in
  (held_read s t l -> pc s' t = Running /\ holds s' t = RrwNode l tag :: holds s t) /\
  (~ held_read s t l -> prio = false -> rr_writer_wanted (lock s l) = true -> rr_anon_rcount (lock s l) = 0 ->
   pc s' t = WaitRead true l prio tag /\ lock s' l = lock s l /\ holds s' t = holds s t).
Proof.
  intros Hnd Hr Ht s'. destruct (reachable_inv debug tids Hnd s Hr) as (Hc & _ & _). split.
  - intros Hh. destruct (reader_known tids s t l Hc Ht Hh) as (Hnone & Hfind & _).
    assert (read_blocked s t l prio = false) as Hb.
    { unfold read_blocked. rewrite Hnone. cbn. destruct (Z.eqb_spec (rr_anon_rcount (lock s l)) 0) as [H0|];
        [rewrite Hfind by done|]; destruct (rr_writer_wanted (lock s l)), prio; done. }
    unfold s', rrw_enter_read_impl, read_loop. rewrite Hb.
    destruct (negb debug && _ && _ && _); [|destruct (_ || _)]; cbn; by rewrite !upd_eq.
  - intros Hnh -> Hwa Ha. unfold s', rrw_enter_read_impl, read_loop. rewrite Hwa, andb_false_r. cbn [andb].
    assert (rrn_find s t l = false) as Hf.
    { unfold rrn_find. case_match; [done|]. rewrite existsb_cnt. apply Z.ltb_ge. apply Z.le_ngt. intros Hp.
      apply Hnh, cnt_pos. pose proof (cnt_mono l _ _ (c_sub tids s Hc t)). lia. }
    unfold read_blocked. rewrite Hwa, Ha, Hf, orb_true_r. cbn. by rewrite upd_eq.
Qed.

(** C34: no wake-up is lost.  While a thread sleeps on a lock, some thread has
    the lock and does not itself wait for it, or a writer that waits for it is
    awake; in particular no writer sleeps while the lock is free. *)
Theorem rrw_no_lost_wakeup debug tids s t l :
  NoDup tids -> reachable debug tids s ->
  pc s t = WaitWrite true l \/ (exists prio tag, pc s t = WaitRead true l prio tag) ->
  exists u, u ∈ tids /\
    ((held_read s u l \/ held_write s u l) /\ ~ waits_on (pc s u) l \/ pc s u = WaitWrite false l).
Proof.
  intros Hnd Hr Hsleep. destruct (reachable_inv debug tids Hnd s Hr) as (Hc & Hw & Ho).
  assert (forall u, held_read s u l \/ held_write s u l -> ~ waits_on (pc s u) l) as Hfree.
  { intros u Hh Hwu. destruct (w_free tids s Hw u l Hwu) as [? Hn]. destruct Hh as [|Hh%Ho]; tauto. }
  assert (0 < rr_anon_rcount (lock s l) + rr_linked_rcount (lock s l) \/ rr_writer (lock s l) <> None ->
    exists u, u ∈ tids /\ (held_read s u l \/ held_write s u l)) as Hholder.
  { intros [Hp|Hp].
    - rewrite (c_sum tids s Hc) in Hp. apply total_pos in Hp as (u & Hu & Hp). exists u. split; [done|]. left. by apply cnt_pos.
    - destruct (rr_writer (lock s l)) as [w|] eqn:E; [|done]. exists w. split; [by apply (c_writer tids s Hc l)|right; by apply Ho]. }
  assert (0 < rr_anon_rcount (lock s l) + rr_linked_rcount (lock s l) \/ rr_writer (lock s l) <> None \/
          exists u, u ∈ tids /\ pc s u = WaitWrite false l) as [H|[H|(u & Hu & H)]].
  { destruct Hsleep as [H|(prio & tag & H)].
    - destruct (w_write tids s Hw t l H); auto.
    - destruct (w_read tids s Hw t l prio tag H) as [?|Hwa]; [auto|].
      destruct (w_wanted tids s Hw l Hwa) as (u & [|] & Hu & Hb); [|eauto].
      destruct (w_write tids s Hw u l Hb); auto. }
  - destruct Hholder as (u & Hu & Hh); [auto|]. exists u. auto.
  - destruct Hholder as (u & Hu & Hh); [auto|]. exists u. auto.
  - exists u. auto.
Qed.

(** Thread 0 takes lock 7 for reading, thread 1 waits to write. *)
Definition rrw_start : sys :=
  Sys (fun _ => Rrwlock None 0 0 false false) (fun _ => []) (fun _ => Running) (fun _ => []) (fun _ _ => false).
Definition rrw_read1 : sys := rrw_enter_read_impl false rrw_start 0%nat 7%nat false 11.
Definition rrw_wait1 : sys := rrw_enter_write rrw_read1 1%nat 7%nat.

Lemma rrw_wait1_reachable : reachable false [0; 1]%nat rrw_wait1.
Proof.
  apply ReachStep with rrw_read1; [apply ReachStep with rrw_start|].
  - apply ReachInit. split; [by exists false|done].
  - apply StepEnterRead; [set_solver|done|done].
  - apply StepEnterWrite; [set_solver|done|done|]. intros [tag H]. cbn in H. set_solver.
Qed.

Lemma rrw_threads : NoDup [0; 1]%nat.
Proof. apply (bool_decide_unpack _). vm_compute. exact I. Qed.

(** Thread 0 gives the lock back, and thread 1 gets it. *)
Definition rrw_free1 : sys := rrw_exit false rrw_wait1 0%nat 7%nat 11.
Definition rrw_write1 : sys := rrw_enter_write rrw_free1 1%nat 7%nat.

Lemma rrw_write1_reachable : reachable false [0; 1]%nat rrw_write1.
Proof.
  apply ReachStep with rrw_free1; [apply ReachStep with rrw_wait1|].
  - apply rrw_wait1_reachable.
  - apply StepExit; [set_solver|done|]. right. cbn. set_solver.
  - apply StepWriteWoken; [set_solver|reflexivity].
Qed.


Lemma rrw_reentrant_witness :
  pc (rrw_enter_read_impl false rrw_wait1 0%nat 7%nat false 12) 0%nat = Running.
Proof.
  apply (rrw_reentrant false [0; 1]%nat rrw_wait1 0%nat 7%nat false 12).
  - apply rrw_threads.
  - apply rrw_wait1_reachable.
  - set_solver.
  - exists 11. cbn. set_solver.
Defined.

Lemma rrw_no_lost_wakeup_witness :
  exists u, u ∈ [0; 1]%nat /\
    ((held_read rrw_wait1 u 7%nat \/ held_write rrw_wait1 u 7%nat) /\ ~ waits_on (pc rrw_wait1 u) 7%nat \/
     pc rrw_wait1 u = WaitWrite false 7%nat).
Proof.
  apply (rrw_no_lost_wakeup false [0; 1]%nat rrw_wait1 1%nat 7%nat).
  - apply rrw_threads.
  - apply rrw_wait1_reachable.
  - left. reflexivity.
Defined.
