(* ===== verification/Zrlock.v ===== *)
(** * Reference locks taken with compare-and-swap

    Model of [kernel/fs/zfs/zrlock.c].  The reference count is read, compared
    and swapped and decremented without a lock, so every access to it is a step
    of its own and a thread inside an operation remembers the value it read;
    the parts under [zr_mtx] are one step up to [cv_wait] or the release.  To
    state what the lock promises, the state also records the references every
    thread has and the thread that has it locked. *)

From S2P Require Import Prelude Rrwlock RrwlockProps.

(** [uint32_t] values of the count; [ZRL_LOCKED] is -1. *)
Definition ZRL_LOCKED : Z := 2 ^ 32 - 1.
Definition ZRL_DESTROYED : Z := 2 ^ 32 - 2.

(** Where a thread is in an operation. *)
Inductive zplace : Type :=
| ZIdle
| ZAddLoad                  (** [zrl_add_impl], about to read the count *)
| ZAddCas (n : Z)           (** about to compare it with [n] *)
| ZAddWait (asleep : bool)  (** in the loop around [cv_wait] *)
| ZTryCas.                  (** [zrl_tryenter], having read zero *)

Record zrlock : Type := Zrlock {
  zr_refcount : Z;
  zpc : tid -> zplace;
  zrefs : tid -> Z;
  zowner : option tid;
}.

Definition zset_pc (s : zrlock) (t : tid) (p : zplace) : zrlock :=
  Zrlock (zr_refcount s) (upd (zpc s) t p) (zrefs s) (zowner s).

Definition zrl_init : zrlock := Zrlock 0 (fun _ => ZIdle) (fun _ => 0) None.

(** [atomic_cas_32]: the value found, and the state after it. *)
Definition atomic_cas_32 (s : zrlock) (cmp new : Z) : Z * zrlock :=
  (zr_refcount s,
   if zr_refcount s =? cmp then Zrlock new (zpc s) (zrefs s) (zowner s) else s).

(** Where the inner loop of [zrl_add_impl] goes with the value [n]. *)
Definition add_next (n : Z) : zplace := if n =? ZRL_LOCKED then ZAddWait false else ZAddCas n.

(** One access of [zrl_add_impl]. *)
Definition zrl_add_load (s : zrlock) (t : tid) : zrlock := zset_pc s t (add_next (zr_refcount s)).

Definition zrl_add_cas (s : zrlock) (t : tid) (n : Z) : zrlock :=
  let '(cas, s') := atomic_cas_32 s n ((n + 1) mod 2 ^ 32) in
  if cas =? n
  then Zrlock (zr_refcount s') (upd (zpc s') t ZIdle) (upd (zrefs s') t (zrefs s' t + 1)) (zowner s')
  else zset_pc s' t (add_next cas).

(** Under the mutex: sleep while the lock is locked, else start over. *)
Definition zrl_add_wait (s : zrlock) (t : tid) : zrlock :=
  if zr_refcount s =? ZRL_LOCKED then zset_pc s t (ZAddWait true) else zset_pc s t ZAddLoad.

Definition zrl_remove (s : zrlock) (t : tid) : zrlock :=
  Zrlock ((zr_refcount s - 1) mod 2 ^ 32) (zpc s) (upd (zrefs s) t (zrefs s t - 1)) (zowner s).

(** [zrl_tryenter]: the read, and the compare-and-swap if it read zero. *)
Definition zrl_tryenter_load (s : zrlock) (t : tid) : zrlock :=
  zset_pc s t (if zr_refcount s =? 0 then ZTryCas else ZIdle).
Definition zrl_tryenter_cas (s : zrlock) (t : tid) : zrlock :=
  let '(cas, s') := atomic_cas_32 s 0 ZRL_LOCKED in
  if cas =? 0 then Zrlock (zr_refcount s') (upd (zpc s') t ZIdle) (zrefs s') (Some t)
  else zset_pc s' t ZIdle.

Definition zwake (p : zplace) : zplace := match p with ZAddWait _ => ZAddWait false | _ => p end.
Definition zrl_exit (s : zrlock) : zrlock :=
  Zrlock 0 (fun t => zwake (zpc s t)) (zrefs s) None.

(** The lock may not be used after this: every later operation finds
    [ZRL_DESTROYED]. *)
Definition zrl_destroy (s : zrlock) : zrlock :=
  Zrlock ZRL_DESTROYED (zpc s) (zrefs s) (zowner s).

(** [(int)zrl->zr_refcount] of the queries. *)
Definition int32 (x : Z) : Z := if x <? 2 ^ 31 then x else x - 2 ^ 32.
Definition zrl_refcount (s : zrlock) : Z :=
  let n := int32 (zr_refcount s) in if n <=? 0 then 0 else n.
Definition zrl_is_zero (s : zrlock) : bool := int32 (zr_refcount s) <=? 0.
Definition zrl_is_locked (s : zrlock) : bool := zr_refcount s =? ZRL_LOCKED.

(** ** Steps

    Threads give back what they have; there are fewer than [2^31] references,
    as the assertion in [zrl_add_impl] has it. *)

Section steps.
Context (tids : list tid) (Hnd : NoDup tids).

Notation refs s := (total tids (zrefs s)).

Inductive zstep : zrlock -> zrlock -> Prop :=
| ZAdd s t : t ∈ tids -> zpc s t = ZIdle -> zstep s (zset_pc s t ZAddLoad)
| ZLoad s t : t ∈ tids -> zpc s t = ZAddLoad -> zstep s (zrl_add_load s t)
| ZCas s t n : t ∈ tids -> zpc s t = ZAddCas n -> refs s + 1 < 2 ^ 31 -> zstep s (zrl_add_cas s t n)
| ZWait s t : t ∈ tids -> zpc s t = ZAddWait false -> zstep s (zrl_add_wait s t)
| ZSpurious s t : t ∈ tids -> zpc s t = ZAddWait true -> zstep s (zset_pc s t (ZAddWait false))
| ZRemove s t : t ∈ tids -> zpc s t = ZIdle -> 0 < zrefs s t -> zstep s (zrl_remove s t)
| ZTry s t : t ∈ tids -> zpc s t = ZIdle -> zstep s (zrl_tryenter_load s t)
| ZTryCasStep s t : t ∈ tids -> zpc s t = ZTryCas -> zstep s (zrl_tryenter_cas s t)
| ZExit s t : t ∈ tids -> zpc s t = ZIdle -> zowner s = Some t -> zstep s (zrl_exit s).

Inductive zreachable : zrlock -> Prop :=
| ZReachInit : zreachable zrl_init
| ZReachStep s s' : zreachable s -> zstep s s' -> zreachable s'.

(** The count is the number of references, or the lock is locked by its owner
    and there are none; who sleeps does so because it is locked. *)
Record zinv (s : zrlock) : Prop := {
  z_nonneg t : 0 <= zrefs s t;
  z_small : refs s < 2 ^ 31;
  z_count : match zowner s with
            | None => zr_refcount s = refs s
            | Some w => w ∈ tids /\ zr_refcount s = ZRL_LOCKED /\ refs s = 0
            end;
  z_sleep t : zpc s t = ZAddWait true -> zowner s <> None;
  z_cas t n : zpc s t = ZAddCas n -> 0 <= n < 2 ^ 31;
}.

Lemma z_range s : zinv s -> 0 <= refs s /\ (zr_refcount s = ZRL_LOCKED \/ 0 <= zr_refcount s < 2 ^ 31) /\
  (zr_refcount s = ZRL_LOCKED <-> zowner s <> None).
Proof using.
  intros Hi. pose proof (sum_threads_nonneg tids (zrefs s) (z_nonneg s Hi)). pose proof (z_small s Hi).
  pose proof (z_count s Hi) as Hc. unfold ZRL_LOCKED in *. destruct (zowner s) as [w|].
  - destruct Hc as (_ & -> & _). split_and!; [done|by left|done].
  - rewrite Hc. split_and!; [done|by right|]. split; [lia|done].
Qed.

(** A step that only moves one thread. *)
Lemma zinv_pc s t p :
  zinv s -> (p = ZAddWait true -> zowner s <> None) -> (forall n, p = ZAddCas n -> 0 <= n < 2 ^ 31) -> zinv (zset_pc s t p).
Proof using.
  intros Hi Hs Hc. destruct Hi as [H1 H2 H3 H4 H5]. split; try done; cbn.
  - intros u Hu. destruct (decide (u = t)) as [->|]; [rewrite upd_eq in Hu; auto|rewrite upd_ne in Hu by done; eauto].
  - intros u n Hu. destruct (decide (u = t)) as [->|]; [rewrite upd_eq in Hu; auto|rewrite upd_ne in Hu by done; eauto].
Qed.

Lemma zinv_add_next s t n : zinv s -> n = ZRL_LOCKED \/ 0 <= n < 2 ^ 31 -> zinv (zset_pc s t (add_next n)).
Proof using.
  intros Hi Hn. unfold add_next. apply zinv_pc; [done|..]; destruct (Z.eqb_spec n ZRL_LOCKED); try done.
  intros k [= <-]. tauto.
Qed.

Lemma zstep_inv s s' : zinv s -> zstep s s' -> zinv s'.
Proof using Hnd.
  intros Hi Hst. revert Hi. destruct Hst as [s t Ht Hpc|s t Ht Hpc|s t n Ht Hpc Hroom|s t Ht Hpc|s t Ht Hpc|s t Ht Hpc Hr|s t Ht Hpc|s t Ht Hpc|s t Ht Hpc Ho];
    intros Hi; destruct (z_range s Hi) as (Hnn & Hrange & Hlock).
  - by apply zinv_pc.
  - by apply zinv_add_next.
  - unfold zrl_add_cas, atomic_cas_32. destruct (Z.eqb_spec (zr_refcount s) n) as [<-|Hne].
    2:{ by apply zinv_add_next. }
    pose proof (z_cas s Hi t _ Hpc) as Hn. destruct Hi as [H1 H2 H3 H4 H5].
    assert (zowner s = None) as Hno by (destruct (zowner s); [destruct H3 as (_ & H3 & _); unfold ZRL_LOCKED in H3; lia|done]).
    rewrite Hno in H3. split; cbn.
    + intros u. destruct (decide (u = t)) as [->|]; [rewrite upd_eq; specialize (H1 t); lia|by rewrite upd_ne].
    + rewrite (total_upd tids (fun x => x)) by done. cbn. change (total tids (fun i => zrefs s i)) with (refs s). lia.
    + rewrite Hno, (total_upd tids (fun x => x)), H3 by done. change (total tids (fun i => zrefs s i)) with (refs s).
      rewrite Z.mod_small by lia. lia.
    + intros u Hu. destruct (decide (u = t)) as [->|]; [by rewrite upd_eq in Hu|rewrite upd_ne in Hu by done; eauto].
    + intros u k Hu. destruct (decide (u = t)) as [->|]; [by rewrite upd_eq in Hu|rewrite upd_ne in Hu by done; eauto].
  - unfold zrl_add_wait. destruct (Z.eqb_spec (zr_refcount s) ZRL_LOCKED) as [E|E]; apply zinv_pc; try done.
    intros _. by apply Hlock.
  - by apply zinv_pc.
  - pose proof (total_ge tids (zrefs s) t (z_nonneg s Hi) Ht) as Hge. destruct Hi as [H1 H2 H3 H4 H5].
    assert (zowner s = None) as Hno by (destruct (zowner s); [destruct H3 as (_ & _ & H3); lia|done]).
    rewrite Hno in H3. split; cbn.
    + intros u. destruct (decide (u = t)) as [->|]; [rewrite upd_eq; lia|by rewrite upd_ne].
    + rewrite (total_upd tids (fun x => x)) by done. change (total tids (fun i => zrefs s i)) with (refs s). lia.
    + rewrite Hno, (total_upd tids (fun x => x)), H3 by done. change (total tids (fun i => zrefs s i)) with (refs s).
      rewrite Z.mod_small by lia. lia.
    + done.
    + done.
  - apply zinv_pc; [done|..]; destruct (_ =? _); done.
  - unfold zrl_tryenter_cas, atomic_cas_32. destruct (Z.eqb_spec (zr_refcount s) 0) as [E|E]; [|by apply zinv_pc].
    assert (zowner s = None) as Hno.
    { destruct (zowner s) as [w|] eqn:Eo; [|done]. assert (zr_refcount s = ZRL_LOCKED) as E' by (by apply Hlock).
      unfold ZRL_LOCKED in E'. lia. }
    destruct Hi as [H1 H2 H3 H4 H5]. rewrite Hno in H3. split; cbn.
    + done.
    + done.
    + split_and!; [done..|lia].
    + done.
    + intros u k Hu. destruct (decide (u = t)) as [->|]; [by rewrite upd_eq in Hu|rewrite upd_ne in Hu by done; eauto].
  - destruct Hi as [H1 H2 H3 H4 H5]. rewrite Ho in H3. destruct H3 as (_ & _ & H3). split; cbn.
    + done.
    + done.
    + lia.
    + intros u. by destruct (zpc s u).
    + intros u k Hu. apply (H5 u). by destruct (zpc s u).
Qed.

Lemma zreachable_inv s : zreachable s -> zinv s.
Proof using Hnd.
  induction 1 as [|s s' _ IH Hst]; [|by eapply zstep_inv].
  assert (total tids (fun _ : tid => 0) = 0) as H0.
  { clear. induction tids as [|t ts IH]; [done|]. by rewrite total_cons. }
  split; cbn; rewrite ?H0; done.
Qed.
End steps.


(** Thread 0 is about to swap the zero it read when thread 1 locks. *)
Definition zdemo : zrlock :=
  zrl_tryenter_cas (zrl_tryenter_load (zrl_add_load (zset_pc zrl_init 0%nat ZAddLoad) 0%nat) 1%nat) 1%nat.

Lemma zdemo_reachable : zreachable [0; 1]%nat zdemo.
Proof.
  apply ZReachStep with (zrl_tryenter_load (zrl_add_load (zset_pc zrl_init 0%nat ZAddLoad) 0%nat) 1%nat).
  2:{ apply ZTryCasStep; [set_solver|done]. }
  apply ZReachStep with (zrl_add_load (zset_pc zrl_init 0%nat ZAddLoad) 0%nat).
  2:{ apply ZTry; [set_solver|done]. }
  apply ZReachStep with (zset_pc zrl_init 0%nat ZAddLoad); [|by apply ZLoad; [set_solver|]].
  apply ZReachStep with zrl_init; [constructor|]. apply ZAdd; [set_solver|done].
Qed.

