(* ===== verification/RangeLock.v ===== *)
(** * Byte-range locks of files

    Model of [kernel/fs/zfs/zfs_rlock.c] and of the callback of the POSIX layer
    ([zfs_rangelock_cb] of [zfs_znode.c]).  A [locked_range_t] is shared by its
    owner and the tree, and changed in place: nodes live in a heap, the AVL tree
    holds their addresses, and the comparison reads the heap.  An access
    through a null pointer or to memory that was freed, an assertion that does
    not hold, and a loop that does not end are a [Panic].

    Every operation runs under the mutex of the lock, from its entry or its
    wake-up in [cv_wait] to its release or the next [cv_wait]: that is one step
    of the thread.  [rangelock_exit] of a writer and [rangelock_reduce] wake the
    waiters after releasing the mutex: a second step.  [rl_held] records, for
    the properties, the handles that were returned and not yet given back. *)

From stdpp Require Import gmap.
From S2P Require Import Prelude Avl.

Definition addr := nat.

Inductive rangelock_type : Type := RL_READER | RL_WRITER | RL_APPEND.
#[export] Instance rangelock_type_eq_dec : EqDecision rangelock_type.
Proof. solve_decision. Defined.

(** [locked_range_t]. *)
Record locked_range : Type := LockedRange {
  lr_offset : Z;
  lr_length : Z;
  lr_count : Z;
  lr_type : rangelock_type;
  lr_proxy : bool;
  lr_write_wanted : bool;
  lr_read_wanted : bool;
}.

(** Where a thread is: outside; in [cv_wait] on a condition variable of [lr],
    asleep or woken up, with the range [new] it asks for; between the two steps
    of [rangelock_exit] or [rangelock_reduce]. *)
Inductive rplace : Type :=
| Outside
| WriteWait (asleep : bool) (lr new : addr) (orig_off orig_len : Z) (orig_type : rangelock_type)
| ReadWait (asleep : bool) (lr new : addr)
| Exiting (lr : addr)
| Reducing (lr : addr).

(** [rangelock_t], with the memory and the threads around it. *)
Record rangelock : Type := Rangelock {
  rl_tree : avl_tree addr;
  rl_heap : gmap addr locked_range;
  rl_pc : tid -> rplace;
  rl_held : list addr;
}.

Definition UINT64_MAX : Z := 2 ^ 64 - 1.

(** The kernel memory allocator: what it hands out is not in use. *)
Class RangeKmem := {
  kmem_alloc : gmap addr locked_range -> addr;
  kmem_alloc_fresh h : h !! kmem_alloc h = None }.

(** ** Access to the state *)

Definition set_tree (rl : rangelock) (t : avl_tree addr) : rangelock :=
  Rangelock t (rl_heap rl) (rl_pc rl) (rl_held rl).
Definition set_heap (rl : rangelock) (h : gmap addr locked_range) : rangelock :=
  Rangelock (rl_tree rl) h (rl_pc rl) (rl_held rl).
Definition set_place (rl : rangelock) (t : tid) (p : rplace) : rangelock :=
  Rangelock (rl_tree rl) (rl_heap rl) (upd (rl_pc rl) t p) (rl_held rl).
Definition set_held (rl : rangelock) (l : list addr) : rangelock :=
  Rangelock (rl_tree rl) (rl_heap rl) (rl_pc rl) l.

Definition load (rl : rangelock) (a : addr) : result locked_range :=
  match rl_heap rl !! a with Some l => Ret l | None => Panic end.
Definition store (rl : rangelock) (a : addr) (l : locked_range) : rangelock :=
  set_heap rl (<[a := l]> (rl_heap rl)).
Definition kmem_free (rl : rangelock) (a : addr) : rangelock :=
  set_heap rl (delete a (rl_heap rl)).

Definition set_range (l : locked_range) (off len : Z) (ty : rangelock_type) : locked_range :=
  LockedRange off len (lr_count l) ty (lr_proxy l) (lr_write_wanted l) (lr_read_wanted l).
Definition set_count (l : locked_range) (c : Z) : locked_range :=
  LockedRange (lr_offset l) (lr_length l) c (lr_type l) (lr_proxy l) (lr_write_wanted l) (lr_read_wanted l).
Definition want_write (l : locked_range) : locked_range :=
  LockedRange (lr_offset l) (lr_length l) (lr_count l) (lr_type l) (lr_proxy l) true (lr_read_wanted l).
Definition want_read (l : locked_range) : locked_range :=
  LockedRange (lr_offset l) (lr_length l) (lr_count l) (lr_type l) (lr_proxy l) (lr_write_wanted l) true.

(** [lr->lr_offset + lr->lr_length]. *)
Definition lr_end (l : locked_range) : Z := add64 (lr_offset l) (lr_length l).

(** [uint_t] arithmetic of the reference count. *)
Definition wrap32 (x : Z) : Z := x mod 2 ^ 32.

(** ** The tree *)

Definition rangelock_compare (rl1 rl2 : locked_range) : Z :=
  if lr_offset rl2 <? lr_offset rl1 then 1
  else if lr_offset rl1 <? lr_offset rl2 then -1
  else 0.

Definition node_compar (h : gmap addr locked_range) : Compar addr addr := fun a b =>
  match h !! a, h !! b with
  | Some l1, Some l2 => rangelock_compare l1 l2
  | _, _ => 0
  end.

Definition tree_find (rl : rangelock) (a : addr) : addr + path addr :=
  avl_find (Compar0 := node_compar (rl_heap rl)) (rl_tree rl) a.
Definition tree_add (rl : rangelock) (a : addr) : result rangelock :=
  t ← avl_add (Compar0 := node_compar (rl_heap rl)) (rl_tree rl) a;
  Ret (set_tree rl t).

Definition rangelock_init : rangelock := Rangelock avl_create ∅ (fun _ => Outside) [].

(** [avl_destroy] asserts that the tree is empty. *)
Definition rangelock_fini (rl : rangelock) : result unit :=
  verify (avl_numnodes (rl_tree rl) =? 0).

(** The operation returns the handle [new]. *)
Definition granted (rl : rangelock) (t : tid) (new : addr) : rangelock :=
  set_held (set_place rl t Outside) (new :: rl_held rl).

(** A node that passes a test, if there is a node. *)
Definition check (rl : rangelock) (o : option addr) (test : locked_range -> bool) : result (option addr) :=
  match o with
  | None => Ret None
  | Some lr => l ← load rl lr; Ret (if test l then Some lr else None)
  end.

(** ** Writers *)

(** [wait:] up to [cv_wait]. *)
Definition writer_wait (rl : rangelock) (t : tid) (lr new : addr) (orig_off orig_len : Z)
    (orig_type : rangelock_type) : result rangelock :=
  l ← load rl lr;
  Ret (set_place (store rl lr (want_write l)) t (WriteWait true lr new orig_off orig_len orig_type)).

(** The callback, if there is one. *)
Definition cb_apply (cb : option (locked_range -> locked_range)) (l : locked_range) : locked_range :=
  match cb with Some f => f l | None => l end.

(** One turn of the loop of [rangelock_enter_writer]. *)
Definition writer_loop (cb : option (locked_range -> locked_range)) (rl : rangelock) (t : tid) (new : addr)
    (orig_off orig_len : Z) (orig_type : rangelock_type) : result rangelock :=
  n0 ← load rl new;
  let n := cb_apply cb n0 in
  let rl := store rl new n in
  _ ← verify (bool_decide (lr_type n = RL_WRITER));
  if avl_numnodes (rl_tree rl) =? 0 then
    rl ← tree_add rl new;
    Ret (granted rl t new)
  else
    let wait lr := writer_wait rl t lr new orig_off orig_len orig_type in
    match tree_find rl new with
    | inl lr => wait lr
    | inr where_ =>
        after ← check rl (avl_nearest (rl_tree rl) where_ true) (fun l => lr_offset l <? lr_end n);
        match after with
        | Some lr => wait lr
        | None =>
            before ← check rl (avl_nearest (rl_tree rl) where_ false) (fun l => lr_offset n <? lr_end l);
            match before with
            | Some lr => wait lr
            | None => Ret (granted (set_tree rl (avl_insert (rl_tree rl) new where_)) t new)
            end
        end
    end.

Definition rangelock_enter_writer (cb : option (locked_range -> locked_range)) (rl : rangelock) (t : tid)
    (new : addr) : result rangelock :=
  n ← load rl new;
  writer_loop cb rl t new (lr_offset n) (lr_length n) (lr_type n).

(** After [cv_wait]: reset to the original, and the next turn. *)
Definition writer_woken (cb : option (locked_range -> locked_range)) (rl : rangelock) (t : tid) (new : addr)
    (orig_off orig_len : Z) (orig_type : rangelock_type) : result rangelock :=
  n ← load rl new;
  writer_loop cb (store rl new (set_range n orig_off orig_len orig_type)) t new orig_off orig_len orig_type.

(** ** Readers *)

Section Kmem.
Context `{!RangeKmem}.

Definition proxy_for (off len count : Z) : locked_range :=
  LockedRange off len count RL_READER true false false.

Definition rangelock_proxify (rl : rangelock) (lr : addr) : result (rangelock * addr) :=
  l ← load rl lr;
  if lr_proxy l then Ret (rl, lr)
  else
    _ ← verify (lr_count l =? 1);
    _ ← verify (negb (lr_write_wanted l));
    _ ← verify (negb (lr_read_wanted l));
    let rl := set_tree rl (avl_remove (rl_tree rl) lr) in
    let rl := store rl lr (set_count l 0) in
    let proxy := kmem_alloc (rl_heap rl) in
    let rl := store rl proxy (proxy_for (lr_offset l) (lr_length l) 1) in
    rl ← tree_add rl proxy;
    Ret (rl, proxy).

Definition rangelock_split (rl : rangelock) (lr : addr) (off : Z) : result (rangelock * addr) :=
  l ← load rl lr;
  _ ← verify (1 <? lr_length l);
  _ ← verify (lr_offset l <? off);
  _ ← verify (off <? lr_end l);
  _ ← verify (negb (lr_write_wanted l));
  _ ← verify (negb (lr_read_wanted l));
  let rear := kmem_alloc (rl_heap rl) in
  let rl := store rl rear (proxy_for off (sub64 (lr_end l) off) (lr_count l)) in
  '(rl, front) ← rangelock_proxify rl lr;
  f ← load rl front;
  l ← load rl lr;
  let rl := store rl front (set_range f (lr_offset f) (sub64 off (lr_offset l)) (lr_type f)) in
  Ret (set_tree rl (avl_insert_here (rl_tree rl) rear front true), front).

Definition rangelock_new_proxy (rl : rangelock) (off len : Z) : result rangelock :=
  _ ← verify (negb (len =? 0));
  let lr := kmem_alloc (rl_heap rl) in
  tree_add (store rl lr (proxy_for off len 1)) lr.

(** [next->lr_count++]. *)
Definition incr_count (rl : rangelock) (a : addr) : result rangelock :=
  l ← load rl a;
  Ret (store rl a (set_count l (wrap32 (lr_count l + 1)))).

(** The loop of [rangelock_add_reader] and what follows it. *)
Fixpoint add_loop (fuel : nat) (rl : rangelock) (off len : Z) (prev next : option addr) : result rangelock :=
  let rest :=
    match prev with
    | None => Panic
    | Some pv => p ← load rl pv; rangelock_new_proxy rl (lr_end p) (sub64 (add64 off len) (lr_end p))
    end in
  match fuel, next with
  | O, _ => Panic
  | S _, None => rest
  | S fuel', Some nx =>
      n ← load rl nx;
      if add64 off len <=? lr_offset n then rest
      else
        rl ← match prev with
             | None => Ret rl
             | Some pv =>
                 p ← load rl pv;
                 if lr_end p <? lr_offset n
                 then rangelock_new_proxy rl (lr_end p) (sub64 (lr_offset n) (lr_end p))
                 else Ret rl
             end;
        if add64 off len =? lr_end n then
          '(rl, nx) ← rangelock_proxify rl nx;
          incr_count rl nx
        else if add64 off len <? lr_end n then
          '(rl, nx) ← rangelock_split rl nx (add64 off len);
          incr_count rl nx
        else
          _ ← verify (lr_end n <? add64 off len);
          '(rl, nx) ← rangelock_proxify rl nx;
          rl ← incr_count rl nx;
          add_loop fuel' rl off len (Some nx) (AVL_NEXT (rl_tree rl) nx)
  end.

(** [where_] is [None] where [avl_find] found a node and left the index
    unset. *)
Definition rangelock_add_reader (rl : rangelock) (new : addr) (prev : option addr)
    (where_ : option (path addr)) : result rangelock :=
  n ← load rl new;
  let off := lr_offset n in
  let len := lr_length n in
  '(rl, prev) ← match prev with
                | None => Ret (rl, None)
                | Some pv =>
                    p ← load rl pv;
                    if lr_end p <=? off then Ret (rl, None)
                    else if negb (lr_offset p =? off) then
                      '(rl, pv) ← rangelock_split rl pv off;
                      Ret (rl, AVL_NEXT (rl_tree rl) pv)
                    else Ret (rl, Some pv)
                end;
  _ ← match prev with None => Ret tt | Some pv => p ← load rl pv; verify (lr_offset p =? off) end;
  next ← match prev, where_ with
         | Some pv, _ => Ret (Some pv)
         | None, Some w => Ret (avl_nearest (rl_tree rl) w true)
         | None, None => Panic
         end;
  over ← check rl next (fun x => negb (add64 off len <=? lr_offset x));
  match over, where_ with
  | None, Some w => Ret (set_tree rl (avl_insert (rl_tree rl) new w))
  | None, None => Panic
  | Some nx, _ =>
      x ← load rl nx;
      rl ← (if off <? lr_offset x then rangelock_new_proxy rl off (sub64 (lr_offset x) off) else Ret rl);
      n ← load rl new;
      let rl := store rl new (set_count n 0) in
      add_loop (S (length (elements (rl_tree rl)))) rl off len None (Some nx)
  end.

(** Up to [cv_wait]. *)
Definition reader_wait (rl : rangelock) (t : tid) (lr new : addr) : result rangelock :=
  l ← load rl lr;
  Ret (set_place (store rl lr (want_read l)) t (ReadWait true lr new)).

Definition blocks_reader (l : locked_range) : bool :=
  bool_decide (lr_type l = RL_WRITER) || lr_write_wanted l.

(** The loop over the following ranges: the one to wait for, if any. *)
Fixpoint reader_scan (fuel : nat) (rl : rangelock) (off len : Z) (next : option addr) : result (option addr) :=
  match fuel, next with
  | O, _ => Panic
  | S _, None => Ret None
  | S fuel', Some nx =>
      n ← load rl nx;
      if add64 off len <=? lr_offset n then Ret None
      else if blocks_reader n then Ret (Some nx)
      else if add64 off len <=? lr_end n then Ret None
      else reader_scan fuel' rl off len (AVL_NEXT (rl_tree rl) nx)
  end.

Definition rangelock_enter_reader (rl : rangelock) (t : tid) (new : addr) : result rangelock :=
  n ← load rl new;
  let off := lr_offset n in
  let len := lr_length n in
  let '(prev, where_) :=
    match tree_find rl new with
    | inl p => (Some p, None)
    | inr w => (avl_nearest (rl_tree rl) w false, Some w)
    end in
  over ← check rl prev (fun p => off <? lr_end p);
  wait ← check rl over blocks_reader;
  inside ← check rl over (fun p => add64 off len <? lr_end p);
  match wait, inside with
  | Some lr, _ => reader_wait rl t lr new
  | None, Some _ => rl ← rangelock_add_reader rl new prev where_; Ret (granted rl t new)
  | None, None =>
      let next := match prev, where_ with
                  | Some pv, _ => AVL_NEXT (rl_tree rl) pv
                  | None, Some w => avl_nearest (rl_tree rl) w true
                  | None, None => None
                  end in
      wait ← reader_scan (S (length (elements (rl_tree rl)))) rl off len next;
      match wait with
      | Some lr => reader_wait rl t lr new
      | None => rl ← rangelock_add_reader rl new prev where_; Ret (granted rl t new)
      end
  end.

Definition rangelock_enter (cb : option (locked_range -> locked_range)) (rl : rangelock) (t : tid)
    (off len : Z) (type : rangelock_type) : result rangelock :=
  let new := kmem_alloc (rl_heap rl) in
  let len := if add64 len off <? off then sub64 UINT64_MAX off else len in
  let rl := store rl new (LockedRange off len 1 type false false false) in
  if bool_decide (type = RL_READER) then
    if avl_numnodes (rl_tree rl) =? 0 then rl ← tree_add rl new; Ret (granted rl t new)
    else rangelock_enter_reader rl t new
  else rangelock_enter_writer cb rl t new.
End Kmem.

(** ** Release *)

(** [cv_broadcast] of [lr->lr_write_cv] and [lr->lr_read_cv]. *)
Definition wake_writer (lr : addr) (p : rplace) : rplace :=
  match p with
  | WriteWait _ lr' new o l ty => if (lr' =? lr)%nat then WriteWait false lr' new o l ty else p
  | _ => p
  end.
Definition wake_reader (lr : addr) (p : rplace) : rplace :=
  match p with
  | ReadWait _ lr' new => if (lr' =? lr)%nat then ReadWait false lr' new else p
  | _ => p
  end.
Definition wake_waiters (rl : rangelock) (lr : addr) (l : locked_range) : rangelock :=
  let pc := rl_pc rl in
  let pc := if lr_write_wanted l then fun t => wake_writer lr (pc t) else pc in
  let pc := if lr_read_wanted l then fun t => wake_reader lr (pc t) else pc in
  Rangelock (rl_tree rl) (rl_heap rl) pc (rl_held rl).

(** The loop over the proxies that make up the range. *)
Fixpoint exit_loop (fuel : nat) (rl : rangelock) (lr : addr) (len : Z) : result rangelock :=
  if len =? 0 then Ret rl
  else match fuel with
  | O => Panic
  | S fuel' =>
      l ← load rl lr;
      let len := sub64 len (lr_length l) in
      next ← (if len =? 0 then Ret lr
              else match AVL_NEXT (rl_tree rl) lr with
                   | None => Panic
                   | Some nx =>
                       n ← load rl nx;
                       _ ← verify (lr_end l =? lr_offset n);
                       _ ← verify (negb (lr_count n =? 0));
                       _ ← verify (bool_decide (lr_type n = RL_READER));
                       Ret nx
                   end);
      let l := set_count l (wrap32 (lr_count l - 1)) in
      let rl := store rl lr l in
      let rl := if lr_count l =? 0
                then kmem_free (wake_waiters (set_tree rl (avl_remove (rl_tree rl) lr)) lr l) lr
                else rl in
      exit_loop fuel' rl next len
  end.

Definition rangelock_exit_reader (rl : rangelock) (remove : addr) : result rangelock :=
  r ← load rl remove;
  rl ← (if lr_count r =? 1
        then Ret (wake_waiters (set_tree rl (avl_remove (rl_tree rl) remove)) remove r)
        else
          _ ← verify (lr_count r =? 0);
          _ ← verify (negb (lr_write_wanted r));
          _ ← verify (negb (lr_read_wanted r));
          match tree_find rl remove with
          | inr _ => Panic
          | inl lr =>
              l ← load rl lr;
              _ ← verify (negb (lr_count l =? 0));
              _ ← verify (bool_decide (lr_type l = RL_READER));
              exit_loop (length (elements (rl_tree rl))) rl lr (lr_length r)
          end);
  Ret (kmem_free rl remove).

(** What the thread gave back. *)
Definition released (rl : rangelock) (lr : addr) : rangelock :=
  set_held rl (filter (fun a => a <> lr) (rl_held rl)).

(** [rangelock_exit] up to [mutex_exit], ... *)
Definition rangelock_exit (rl : rangelock) (t : tid) (lr : addr) : result rangelock :=
  l ← load rl lr;
  _ ← verify (bool_decide (lr_type l = RL_WRITER) || bool_decide (lr_type l = RL_READER));
  _ ← verify ((lr_count l =? 1) || (lr_count l =? 0));
  _ ← verify (negb (lr_proxy l));
  if bool_decide (lr_type l = RL_WRITER)
  then Ret (released (set_place (set_tree rl (avl_remove (rl_tree rl) lr)) t (Exiting lr)) lr)
  else rangelock_exit_reader (released rl lr) lr.

(** ... and the rest of it for a writer. *)
Definition rangelock_exit_wake (rl : rangelock) (t : tid) (lr : addr) : result rangelock :=
  l ← load rl lr;
  Ret (kmem_free (set_place (wake_waiters rl lr l) t Outside) lr).

(** [rangelock_reduce] up to [mutex_exit], and the rest. *)
Definition rangelock_reduce (rl : rangelock) (t : tid) (lr : addr) (off len : Z) : result rangelock :=
  l ← load rl lr;
  _ ← verify (avl_numnodes (rl_tree rl) =? 1);
  _ ← verify (lr_offset l =? 0);
  _ ← verify (bool_decide (lr_type l = RL_WRITER));
  _ ← verify (negb (lr_proxy l));
  _ ← verify (lr_length l =? UINT64_MAX);
  _ ← verify (lr_count l =? 1);
  Ret (set_place (store rl lr (set_range l off len (lr_type l))) t (Reducing lr)).

Definition rangelock_reduce_wake (rl : rangelock) (t : tid) (lr : addr) : result rangelock :=
  l ← load rl lr;
  Ret (set_place (wake_waiters rl lr l) t Outside).

(** ** The callback of the POSIX layer *)

Record znode : Type := Znode { z_size : Z; z_blksz : Z; z_max_blksz : Z }.

Definition ISP2 (x : Z) : bool := Z.land x (x - 1) =? 0.

Definition zfs_rangelock_cb (zp : znode) (new : locked_range) : locked_range :=
  let new := if bool_decide (lr_type new = RL_APPEND)
             then set_range new (z_size zp) (lr_length new) RL_WRITER else new in
  let end_size := Z.max (z_size zp) (lr_end new) in
  if (z_blksz zp <? end_size) && (negb (ISP2 (z_blksz zp)) || (z_blksz zp <? z_max_blksz zp))
  then set_range new 0 UINT64_MAX (lr_type new) else new.

(** ** Steps

    What threads do: ask for a range, go on after a wake-up, give a handle
    back, reduce a lock on the whole file.  The requests are those of the
    callers: not empty, and within the offsets a file can have. *)

Inductive rop : Type :=
| OpEnter (t : tid) (off len : Z) (type : rangelock_type) (cb : option (locked_range -> locked_range))
| OpWriteWoken (t : tid) (cb : option (locked_range -> locked_range))
| OpReadWoken (t : tid)
| OpExit (t : tid) (lr : addr)
| OpExitWake (t : tid)
| OpReduce (t : tid) (lr : addr) (off len : Z)
| OpReduceWake (t : tid)
| OpSpurious (t : tid).

Definition run `{!RangeKmem} (o : rop) (rl : rangelock) : result rangelock :=
  match o with
  | OpEnter t off len type cb => rangelock_enter cb rl t off len type
  | OpWriteWoken t cb =>
      match rl_pc rl t with
      | WriteWait _ _ new o l ty => writer_woken cb rl t new o l ty
      | _ => Ret rl
      end
  | OpReadWoken t =>
      match rl_pc rl t with
      | ReadWait _ _ new => rangelock_enter_reader rl t new
      | _ => Ret rl
      end
  | OpExit t lr => rangelock_exit rl t lr
  | OpExitWake t =>
      match rl_pc rl t with Exiting lr => rangelock_exit_wake rl t lr | _ => Ret rl end
  | OpReduce t lr off len => rangelock_reduce rl t lr off len
  | OpReduceWake t =>
      match rl_pc rl t with Reducing lr => rangelock_reduce_wake rl t lr | _ => Ret rl end
  | OpSpurious t =>
      Ret (set_place rl t (match rl_pc rl t with
                           | WriteWait _ lr new o l ty => WriteWait false lr new o l ty
                           | ReadWait _ lr new => ReadWait false lr new
                           | p => p
                           end))
  end.

(** A range of a file: not empty, without overflow. *)
Definition range_ok (off len : Z) : Prop := 0 <= off /\ 0 < len /\ off + len <= UINT64_MAX.

(** The request as [rangelock_enter] stores it. *)
Definition request (off len : Z) (type : rangelock_type) : locked_range :=
  LockedRange off len 1 type false false false.

(** What the callback promises: a range to lock for writing. *)
Definition cb_ok (cb : option (locked_range -> locked_range)) (l : locked_range) : Prop :=
  exists off len, cb_apply cb l = set_range l off len RL_WRITER /\ range_ok off len.

Definition clamp (off len : Z) : Z := if off + len <? 2 ^ 64 then len else UINT64_MAX - off.

Definition whole_file (l : locked_range) : Prop :=
  lr_offset l = 0 /\ lr_length l = UINT64_MAX /\ lr_type l = RL_WRITER.

Definition allowed (rl : rangelock) (o : rop) : Prop :=
  match o with
  | OpEnter t off len type cb =>
      rl_pc rl t = Outside /\ Z.of_nat (length (rl_held rl)) < 2 ^ 32 - 1 /\
      0 <= off < UINT64_MAX /\ 0 < len < 2 ^ 64 /\
      (type <> RL_READER -> cb_ok cb (request off (clamp off len) type))
  | OpWriteWoken t cb =>
      (exists lr new o l ty, rl_pc rl t = WriteWait false lr new o l ty /\ cb_ok cb (request o l ty)) /\
      Z.of_nat (length (rl_held rl)) < 2 ^ 32 - 1
  | OpReadWoken t =>
      (exists lr new, rl_pc rl t = ReadWait false lr new) /\ Z.of_nat (length (rl_held rl)) < 2 ^ 32 - 1
  | OpExit t lr => rl_pc rl t = Outside /\ lr ∈ rl_held rl /\ forall u, rl_pc rl u <> Reducing lr
  | OpExitWake t => exists lr, rl_pc rl t = Exiting lr
  | OpReduce t lr off len =>
      rl_pc rl t = Outside /\ lr ∈ rl_held rl /\ (forall u, rl_pc rl u <> Reducing lr) /\
      (exists l, rl_heap rl !! lr = Some l /\ whole_file l) /\ range_ok off len
  | OpReduceWake t => exists lr, rl_pc rl t = Reducing lr
  | OpSpurious t => True
  end.

Inductive rl_reachable `{!RangeKmem} : rangelock -> Prop :=
| RlInit : rl_reachable rangelock_init
| RlStep rl o rl' : rl_reachable rl -> allowed rl o -> run o rl = Ret rl' -> rl_reachable rl'.
