(* ===== verification/RangeLockTree.v ===== *)
(** * Range locks: the tree of addresses

    What the operations of the AVL tree do to a tree of addresses that is
    ordered by the offsets the heap gives. *)

From stdpp Require Import gmap.
From S2P Require Import Prelude Avl RangeLock.

Notation heap := (gmap addr locked_range) (only parsing).

(** The node at an address, and the range it locks. *)
Definition lr_null : locked_range := LockedRange 0 0 0 RL_READER false false false.
Definition node (h : heap) (a : addr) : locked_range := default lr_null (h !! a).
Definition off (h : heap) (a : addr) : Z := lr_offset (node h a).
Definition fin (h : heap) (a : addr) : Z := lr_offset (node h a) + lr_length (node h a).

Lemma node_Some h a l : h !! a = Some l -> node h a = l.
Proof. unfold node. by intros ->. Qed.
Lemma node_insert h a l : node (<[a := l]> h) a = l.
Proof. unfold node. by rewrite lookup_insert_eq. Qed.
Lemma node_insert_ne h a b l : b <> a -> node (<[a := l]> h) b = node h b.
Proof. intros H. unfold node. by rewrite lookup_insert_ne. Qed.
Lemma node_delete_ne h a b : b <> a -> node (delete a h) b = node h b.
Proof. intros H. unfold node. by rewrite lookup_delete_ne. Qed.

#[export] Instance node_compar_laws h : ComparLaws (Compar0 := node_compar h).
Proof.
  split.
  - intros a b. unfold avl_compar, node_compar. destruct (h !! a), (h !! b); try done.
    unfold rangelock_compare. repeat split_if; cbn; lia.
  - intros a b c. unfold avl_compar, node_compar.
    destruct (h !! a), (h !! b), (h !! c); try lia. unfold rangelock_compare. repeat split_if; lia.
Qed.

Lemma node_compar_spec h a b :
  is_Some (h !! a) -> is_Some (h !! b) ->
  (avl_compar (Compar := node_compar h) a b < 0 <-> off h a < off h b) /\
  (avl_compar (Compar := node_compar h) a b = 0 <-> off h a = off h b) /\
  (0 < avl_compar (Compar := node_compar h) a b <-> off h b < off h a).
Proof.
  intros [l1 H1] [l2 H2]. unfold avl_compar, node_compar, off, node. rewrite H1, H2. cbn.
  unfold rangelock_compare. repeat split_if; lia.
Qed.

(** The tree is balanced, holds addresses in use, and is ordered. *)
Record tree_ok (h : heap) (t : avl_tree addr) : Prop := {
  tk_wf : avl_wf t;
  tk_dom a : a ∈ elements t -> is_Some (h !! a);
  tk_ord : StronglySorted (fun a b => off h a < off h b) (elements t);
}.

Lemma sorted_impl {A} (R R' : A -> A -> Prop) (l : list A) :
  (forall a b, a ∈ l -> b ∈ l -> R a b -> R' a b) -> StronglySorted R l -> StronglySorted R' l.
Proof.
  intros H Hs. induction Hs as [|a l Hs IH Ha]; constructor.
  - apply IH. set_solver.
  - rewrite Forall_forall in *. intros b Hb. apply H; [by left|by right|auto].
Qed.

Section Tree.
Context (h : heap) (t : avl_tree addr) (Ht : tree_ok h t).

Lemma tk_ordered : ordered (Compar0 := node_compar h) t.
Proof using Ht.
  destruct Ht as [_ Hd Ho]. eapply sorted_impl; [|exact Ho]. intros a b Ha Hb Hab.
  by apply (node_compar_spec h a b (Hd a Ha) (Hd b Hb)).
Qed.

Lemma tk_NoDup : NoDup (elements t).
Proof using Ht. apply (ordered_NoDup (Compar0 := node_compar h)), tk_ordered. Qed.

(** The order, between two nodes of the tree. *)
Lemma tk_inj a b : a ∈ elements t -> b ∈ elements t -> off h a = off h b -> a = b.
Proof using Ht.
  intros Ha Hb Hab. apply list_elem_of_split in Ha as (k1 & k2 & E). pose proof (tk_ord h t Ht) as Ho.
  rewrite E in Ho, Hb. apply StronglySorted_app in Ho as (H1 & _ & H2). apply StronglySorted_cons in H2 as [H2 _].
  rewrite Forall_forall in H2. apply elem_of_app in Hb as [Hb|Hb].
  - specialize (H1 b a Hb ltac:(by left)). lia.
  - apply elem_of_cons in Hb as [Hb|Hb]; [done|]. apply H2 in Hb. lia.
Qed.

(** The same nodes at the same offsets. *)
Lemma tk_heap (h' : heap) :
  (forall a, a ∈ elements t -> is_Some (h' !! a) /\ off h' a = off h a) -> tree_ok h' t.
Proof using Ht.
  intros H. destruct Ht as [Hw Hd Ho]. split; [done|intros; by apply H|].
  eapply sorted_impl; [|exact Ho]. intros a b Ha Hb Hab. cbn in *. destruct (H a Ha) as [_ ->], (H b Hb) as [_ ->]. done.
Qed.

(** An insertion point for the offset [x]. *)
Definition place_at (w : path addr) (x : Z) : Prop :=
  hole t w /\ (forall n, n ∈ before w -> off h n < x) /\ (forall n, n ∈ after w -> x < off h n).

Lemma tk_find a :
  is_Some (h !! a) ->
  match avl_find (Compar0 := node_compar h) t a with
  | inl m => m ∈ elements t /\ off h m = off h a
  | inr w => place_at w (off h a)
  end.
Proof using Ht.
  intros Ha. pose proof (tk_dom h t Ht) as Hd. unfold avl_find.
  assert (mono (Compar0 := node_compar h) a (elements t)) as Hm.
  { eapply sorted_impl; [|apply (tk_ord h t Ht)]. intros m n Hm Hn Hmn. cbn in Hmn.
    destruct (node_compar_spec h a m Ha (Hd m Hm)) as (A1 & A2 & A3), (node_compar_spec h a n Ha (Hd n Hn)) as (B1 & B2 & B3).
    destruct (Z.sgn_spec (avl_compar (Compar := node_compar h) a m)) as [[]|[[]|[]]],
      (Z.sgn_spec (avl_compar (Compar := node_compar h) a n)) as [[]|[[]|[]]]; lia. }
  pose proof (find_loop_spec (Compar0 := node_compar h) a (avl_root t) []) as Hf. cbn [before after] in Hf.
  rewrite app_nil_r in Hf. specialize (Hf Hm (Forall_nil_2 _) (Forall_nil_2 _)).
  destruct (find_loop a (avl_root t) []) as [z|w].
  - destruct Hf as [H0 Hp]. assert (p_x z ∈ elements t) as Hz.
    { apply (f_equal inorder) in Hp. rewrite inorder_plug in Hp. cbn in Hp. unfold elements. rewrite <- Hp, !elem_of_app, elem_of_cons. auto. }
    split; [done|]. symmetry. by apply (node_compar_spec h a (p_x z) Ha (Hd _ Hz)).
  - destruct Hf as [(H1 & _ & H2) Hp]. cbn in Hp. assert (hole t w) as Hw by done.
    pose proof (hole_elements t w Hw) as He. rewrite Forall_forall in H1, H2. split_and!; [done|..]; intros n Hn.
    + apply (node_compar_spec h a n Ha); [|by apply H1]. apply Hd. rewrite He, elem_of_app. by left.
    + apply (node_compar_spec h a n Ha); [|by apply H2]. apply Hd. rewrite He, elem_of_app. by right.
Qed.

Lemma tk_insert a w :
  is_Some (h !! a) -> place_at w (off h a) ->
  tree_ok h (avl_insert t a w) /\ elements (avl_insert t a w) ≡ₚ a :: elements t.
Proof using Ht.
  intros Ha (Hw & H1 & H2). destruct (avl_insert_spec t a w (tk_wf h t Ht) Hw) as [Hwf He].
  pose proof (hole_elements t w Hw) as Hel. pose proof (tk_ord h t Ht) as Ho. pose proof (tk_dom h t Ht) as Hd.
  split; [|rewrite He, Hel; symmetry; apply Permutation_middle]. split; [done|..]; rewrite He.
  - intros n Hn. rewrite Hel in Hd. apply elem_of_app in Hn as [Hn|Hn]; [apply Hd, elem_of_app; auto|].
    apply elem_of_cons in Hn as [->|Hn]; [done|apply Hd, elem_of_app; auto].
  - rewrite Hel in Ho. apply StronglySorted_app in Ho as (H3 & H4 & H5). apply StronglySorted_app. split_and!; [|done|].
    + intros x y Hx Hy. apply elem_of_cons in Hy as [->|Hy]; auto.
    + apply StronglySorted_cons. split; [|done]. by apply Forall_forall.
Qed.

Lemma tk_add a :
  is_Some (h !! a) -> (forall n, n ∈ elements t -> off h n <> off h a) ->
  exists t', avl_add (Compar0 := node_compar h) t a = Ret t' /\ tree_ok h t' /\ elements t' ≡ₚ a :: elements t.
Proof using Ht.
  intros Ha Hn. pose proof (tk_find a Ha) as Hf. unfold avl_add. destruct (avl_find t a) as [m|w].
  - destruct Hf as [H1 H2]. by apply Hn in H1.
  - exists (avl_insert t a w). split; [done|]. by apply tk_insert.
Qed.

Lemma tk_remove a :
  a ∈ elements t -> tree_ok h (avl_remove t a) /\ elements t ≡ₚ a :: elements (avl_remove t a).
Proof using Ht.
  intros Ha. apply list_elem_of_split in Ha as (k1 & k2 & E).
  destruct (avl_remove_spec t k1 a k2 (tk_wf h t Ht) tk_NoDup E) as [Hw He].
  rewrite He, E. split; [|symmetry; apply Permutation_middle].
  pose proof (tk_ord h t Ht) as Ho. pose proof (tk_dom h t Ht) as Hd. rewrite E in Ho.
  split; [done|..]; rewrite He.
  { intros n Hn. apply Hd. rewrite E. apply elem_of_app in Hn as [?|?]; apply elem_of_app; [by left|right; by right]. }
  apply StronglySorted_app in Ho as (H3 & H4 & H5).
  apply StronglySorted_cons in H5 as [_ H5]. apply StronglySorted_app. split_and!; [|done..].
  intros x y Hx Hy. apply H3; [done|by right].
Qed.

Lemma tk_insert_here a b :
  a ∈ elements t -> is_Some (h !! b) -> off h a < off h b ->
  (forall n, n ∈ elements t -> off h a < off h n -> off h b < off h n) ->
  tree_ok h (avl_insert_here t b a true) /\ elements (avl_insert_here t b a true) ≡ₚ b :: elements t.
Proof using Ht.
  intros Ha Hb Hab Hn. apply list_elem_of_split in Ha as (k1 & k2 & E).
  destruct (avl_insert_here_spec t k1 a k2 b true (tk_wf h t Ht) tk_NoDup E) as [Hw He].
  pose proof (tk_ord h t Ht) as Ho. pose proof (tk_dom h t Ht) as Hd. rewrite He. split.
  2: { rewrite E. rewrite <- (Permutation_middle k1 (b :: k2) a), <- (Permutation_middle k1 k2 b), <- (Permutation_middle k1 k2 a). apply Permutation_swap. }
  rewrite E in Ho, Hn, Hd. split; [done|..]; rewrite He.
  - intros n. rewrite elem_of_app, !elem_of_cons. intros [?|[->|[->|?]]]; [apply Hd|apply Hd|done|apply Hd]; rewrite elem_of_app, elem_of_cons; auto.
  - apply StronglySorted_app in Ho as (H1 & H2 & H3). apply StronglySorted_cons in H3 as [H3 H4]. rewrite Forall_forall in H3.
    apply StronglySorted_app. split_and!; [|done|].
    + intros x y Hx. rewrite !elem_of_cons. intros [->|[->|Hy]].
      * apply H1; [done|by left].
      * specialize (H1 x a Hx ltac:(by left)). lia.
      * apply H1; [done|by right].
    + apply StronglySorted_cons. split; [|apply StronglySorted_cons; split; [|done]].
      * apply Forall_cons. split; [done|]. by apply Forall_forall.
      * apply Forall_forall. intros x Hx. apply Hn; [|by apply H3]. apply elem_of_app. right. by right.
Qed.

(** [m] is the first node after the offset [x], or the last before it. *)
Definition first_after (x : Z) (m : option addr) : Prop :=
  match m with
  | Some m => m ∈ elements t /\ x < off h m /\ forall n, n ∈ elements t -> x < off h n -> off h m <= off h n
  | None => forall n, n ∈ elements t -> off h n <= x
  end.
Definition last_before (x : Z) (m : option addr) : Prop :=
  match m with
  | Some m => m ∈ elements t /\ off h m < x /\ forall n, n ∈ elements t -> off h n < x -> off h n <= off h m
  | None => forall n, n ∈ elements t -> x <= off h n
  end.

Lemma first_after_split k1 k2 x :
  elements t = k1 ++ k2 -> (forall n, n ∈ k1 -> off h n <= x) -> (forall n, n ∈ k2 -> x < off h n) ->
  first_after x (head k2).
Proof using Ht.
  intros E H1 H2. pose proof (tk_ord h t Ht) as Ho. rewrite E in Ho. apply StronglySorted_app_1_r in Ho.
  unfold first_after. rewrite E. destruct k2 as [|m k2]; cbn.
  - intros n Hn. apply H1. by rewrite app_nil_r in Hn.
  - apply StronglySorted_cons in Ho as [Ho _]. rewrite Forall_forall in Ho. split_and!; [apply elem_of_app; right; by left|apply H2; by left|].
    intros n Hn Hx. apply elem_of_app in Hn as [Hn|Hn]; [apply H1 in Hn; lia|].
    apply elem_of_cons in Hn as [->|Hn]; [lia|]. apply Ho in Hn. lia.
Qed.

Lemma last_before_split k1 k2 x :
  elements t = k1 ++ k2 -> (forall n, n ∈ k1 -> off h n < x) -> (forall n, n ∈ k2 -> x <= off h n) ->
  last_before x (last k1).
Proof using Ht.
  intros E H1 H2. pose proof (tk_ord h t Ht) as Ho. rewrite E in Ho. apply StronglySorted_app_1_l in Ho.
  unfold last_before. rewrite E. destruct k1 as [|m k1 _] using rev_ind.
  - cbn. intros n Hn. by apply H2.
  - rewrite last_snoc. split_and!; [apply elem_of_app; left; apply elem_of_app; right; by left|apply H1, elem_of_app; right; by left|].
    intros n Hn Hx. apply elem_of_app in Hn as [Hn|Hn]; [|apply H2 in Hn; lia].
    apply elem_of_app in Hn as [Hn|Hn]; [|apply list_elem_of_singleton in Hn as ->; lia].
    apply StronglySorted_app in Ho as (Ho & _). specialize (Ho n m Hn ltac:(by left)). lia.
Qed.

Lemma tk_nearest x w :
  place_at w x -> first_after x (avl_nearest t w true) /\ last_before x (avl_nearest t w false).
Proof using Ht.
  intros (Hw & H1 & H2). rewrite avl_nearest_next, avl_nearest_prev. apply hole_elements in Hw. split.
  - apply (first_after_split (before w)); [done|intros n Hn; apply H1 in Hn; lia|done].
  - apply (last_before_split _ (after w)); [done..|intros n Hn; apply H2 in Hn; lia].
Qed.

Lemma tk_next a : a ∈ elements t -> first_after (off h a) (AVL_NEXT t a).
Proof using Ht.
  intros Ha. apply list_elem_of_split in Ha as (k1 & k2 & E).
  destruct (avl_walk_spec t k1 a k2 tk_NoDup E) as [-> _]. pose proof (tk_ord h t Ht) as Ho. rewrite E in Ho.
  apply StronglySorted_app in Ho as (H1 & _ & H2). apply StronglySorted_cons in H2 as [H2 _]. rewrite Forall_forall in H2.
  apply (first_after_split (k1 ++ [a])); [by rewrite <- app_assoc| |done].
  intros n Hn. apply elem_of_app in Hn as [Hn|Hn]; [|apply list_elem_of_singleton in Hn as ->; lia]. specialize (H1 n a Hn ltac:(by left)). lia.
Qed.
End Tree.
