(* ===== verification/RangeLockTiles.v ===== *)
(** * Range locks: nodes and claims

    The state of a range lock as values: [N] are the nodes of the tree and [C]
    the claims, that is the ranges of the readers whose handles were replaced
    by proxies.  [tiled N C] says what they have to do with each other; the
    lemmas say how the changes the code makes to the nodes change the
    claims. *)

From S2P Require Import Prelude RangeLock.

Implicit Types (l : locked_range) (c : Z * Z).

(** The end of a range, without wrap-around. *)
Definition lend l : Z := lr_offset l + lr_length l.
Definition lr_ok l : Prop := range_ok (lr_offset l) (lr_length l).
Definition apart l l' : Prop := lend l <= lr_offset l' \/ lend l' <= lr_offset l.

Lemma lr_ok_end l : lr_ok l -> add64 (lr_offset l) (lr_length l) = lend l.
Proof. intros (? & ? & ?). apply wrap64_small. unfold lend, u64, UINT64_MAX in *. lia. Qed.

(** A claim and a node have an offset in common. *)
Definition meets l c : Prop := Z.max c.1 (lr_offset l) < Z.min c.2 (lend l).
#[export] Instance meets_dec l c : Decision (meets l c).
Proof. unfold meets. apply _. Defined.

Definition cover (C : list (Z * Z)) l : Z := Z.of_nat (length (filter (meets l) C)).

Fixpoint pairwise (N : list locked_range) : Prop :=
  match N with [] => True | l :: N' => Forall (apart l) N' /\ pairwise N' end.

Record node_tiled (C : list (Z * Z)) (l : locked_range) : Prop := {
  nt_ok : lr_ok l;
  nt_type : lr_type l <> RL_APPEND;
  nt_plain : lr_proxy l = false -> lr_count l = 1;
  nt_proxy : lr_proxy l = true -> lr_type l = RL_READER /\ lr_count l = cover C l /\ 0 < lr_count l;
  nt_in c : c ∈ C -> meets l c -> c.1 <= lr_offset l /\ lend l <= c.2 /\ lr_proxy l = true;
  nt_read : lr_read_wanted l = true -> blocks_reader l = true;
}.

Record tiled (N : list locked_range) (C : list (Z * Z)) : Prop := {
  ti_apart : pairwise N;
  ti_node l : l ∈ N -> node_tiled C l;
  ti_tile c x : c ∈ C -> c.1 <= x < c.2 -> exists l, l ∈ N /\ lr_offset l <= x < lend l;
}.

Lemma apart_sym l l' : apart l l' -> apart l' l.
Proof. unfold apart. tauto. Qed.

Lemma pairwise_perm N N' : N ≡ₚ N' -> pairwise N -> pairwise N'.
Proof.
  induction 1 as [|l N N' HN IH|l l' N|N1 N2 N3 H1 IH1 H2 IH2]; cbn; [done|..|by auto].
  - intros [H1 H2]. split; [by rewrite <- HN|auto].
  - rewrite !Forall_cons. intros ([Ha H1] & H2 & H3). apply apart_sym in Ha. auto.
Qed.

Lemma cover_perm C C' l : C ≡ₚ C' -> cover C l = cover C' l.
Proof. intros H. unfold cover. by rewrite H. Qed.

Lemma cover_cons c C l : cover (c :: C) l = (if decide (meets l c) then 1 else 0) + cover C l.
Proof. unfold cover. rewrite filter_cons. destruct (decide (meets l c)); cbn [length]; lia. Qed.

Lemma cover_ext C l l' : (forall c, c ∈ C -> meets l c <-> meets l' c) -> cover C l = cover C l'.
Proof.
  induction C as [|c C IH]; intros H; [done|]. rewrite !cover_cons, IH by set_solver.
  specialize (H c ltac:(by left)). repeat case_decide; tauto.
Qed.

Lemma cover_nonneg C l : 0 <= cover C l <= Z.of_nat (length C).
Proof. unfold cover. pose proof (length_filter (meets l) C). lia. Qed.

Lemma cover_0 C l : (forall c, c ∈ C -> ~ meets l c) -> cover C l = 0.
Proof.
  induction C as [|c C IH]; intros H; [done|]. rewrite cover_cons, IH by set_solver.
  rewrite decide_False by (apply H; by left). done.
Qed.

Lemma cover_pos C l : 0 < cover C l -> exists c, c ∈ C /\ meets l c.
Proof.
  induction C as [|c C IH]; [unfold cover; cbn; lia|]. rewrite cover_cons. destruct (decide (meets l c)).
  - intros _. exists c. split; [by left|done].
  - intros H. destruct IH as (c' & ? & ?); [lia|]. exists c'. split; [by right|done].
Qed.

Lemma tiled_perm N N' C C' : N ≡ₚ N' -> C ≡ₚ C' -> tiled N C -> tiled N' C'.
Proof.
  intros HN HC [H1 H2 H3]. split.
  - by apply (pairwise_perm N).
  - intros l Hl. rewrite <- HN in Hl. destruct (H2 l Hl). split; try done.
    + by rewrite <- (cover_perm C C').
    + intros c. rewrite <- HC. auto.
  - intros c x. rewrite <- HC. intros Hc Hx. destruct (H3 c x Hc Hx) as (l & Hl & ?). exists l. by rewrite <- HN.
Qed.

Lemma tiled_nil : tiled [] [].
Proof. split; [done|set_solver..]. Qed.

Lemma tiled_apart l N C : tiled (l :: N) C -> forall l', l' ∈ N -> apart l l'.
Proof. intros [[H _] _ _]. by apply Forall_forall. Qed.

(** A claim has no offset outside the nodes. *)
Lemma tiled_outside N C l c :
  tiled N C -> c ∈ C -> (forall l', l' ∈ N -> apart l l') -> ~ meets l c.
Proof.
  intros Ht Hc Ha Hm. unfold meets in Hm.
  destruct (ti_tile N C Ht c (Z.max c.1 (lr_offset l)) Hc ltac:(lia)) as (l' & Hl' & Hx).
  destruct (Ha l' Hl'); lia.
Qed.

(** ** Plain nodes *)

Lemma tiled_add_plain l N C :
  tiled N C -> lr_ok l -> lr_proxy l = false -> lr_count l = 1 -> lr_type l <> RL_APPEND ->
  (lr_read_wanted l = true -> blocks_reader l = true) -> (forall l', l' ∈ N -> apart l l') -> tiled (l :: N) C.
Proof.
  intros Ht Hok Hp Hcnt Hty Hr Ha. split.
  - split; [by apply Forall_forall|apply Ht].
  - intros l'. rewrite elem_of_cons. intros [->|Hl']; [|by apply Ht]. split; try done; try congruence.
    intros c Hc Hm. by destruct (tiled_outside N C l c Ht Hc Ha).
  - intros c x Hc Hx. destruct (ti_tile N C Ht c x Hc Hx) as (l' & ? & ?). exists l'. split; [by right|done].
Qed.

Lemma tiled_remove_plain l N C : tiled (l :: N) C -> lr_proxy l = false -> tiled N C.
Proof.
  intros Ht Hp. pose proof (ti_node _ _ Ht) as Hn. split; [apply (ti_apart _ _ Ht)|intros l' Hl'; apply Hn; by right|].
  intros c x Hc Hx. destruct (ti_tile _ _ Ht c x Hc Hx) as (l' & Hl' & Hx').
  apply elem_of_cons in Hl' as [->|Hl']; [|eauto].
  destruct (nt_in _ _ (Hn l ltac:(by left)) c Hc) as (_ & _ & ?); [unfold meets; lia|congruence].
Qed.

(** Change of what the claims do not depend on. *)
Lemma tiled_replace l l' N C :
  tiled (l :: N) C -> lr_offset l' = lr_offset l -> lr_length l' = lr_length l -> lr_proxy l' = lr_proxy l ->
  lr_type l' = lr_type l -> lr_count l' = lr_count l -> (lr_read_wanted l' = true -> blocks_reader l' = true) ->
  tiled (l' :: N) C.
Proof.
  intros Ht Ho Hl Hp Hty Hcnt Hr. pose proof (ti_node _ _ Ht) as Hn.
  assert (lend l' = lend l) as He by (unfold lend; congruence).
  assert (forall c, meets l' c <-> meets l c) as Hm by (intros c; unfold meets; by rewrite Ho, He).
  split.
  - destruct (ti_apart _ _ Ht) as [H1 H2]. split; [|done]. eapply Forall_impl; [exact H1|]. intros k. unfold apart. by rewrite Ho, He.
  - intros k. rewrite elem_of_cons. intros [->|Hk]; [|apply Hn; by right]. destruct (Hn l ltac:(by left)) as [A1 A2 A3 A4 A5 A6].
    split; unfold lr_ok in *; rewrite ?Ho, ?Hl, ?Hp, ?Hty, ?Hcnt, ?He; try done.
    + rewrite (cover_ext C l' l) by auto. done.
    + intros c Hc. rewrite Hm. auto.
  - intros c x Hc Hx. destruct (ti_tile _ _ Ht c x Hc Hx) as (k & Hk & Hx'). apply elem_of_cons in Hk as [->|Hk].
    + exists l'. rewrite Ho, He. split; [by left|done].
    + exists k. split; [by right|done].
Qed.

(** ** Proxies *)

(** [rangelock_proxify]: the handle becomes a claim. *)
Lemma tiled_proxify l N C :
  tiled (l :: N) C -> lr_proxy l = false ->
  tiled (proxy_for (lr_offset l) (lr_length l) 1 :: N) ((lr_offset l, lend l) :: C).
Proof.
  intros Ht Hp. pose proof (ti_node _ _ Ht) as Hn. pose proof (tiled_apart _ _ _ Ht) as Ha.
  pose proof (tiled_remove_plain _ _ _ Ht Hp) as HtN.
  destruct (nt_ok _ _ (Hn l ltac:(by left))) as (Hok1 & Hok2 & Hok3). set (q := proxy_for _ _ _).
  assert (lend q = lend l) as He by done.
  assert (forall k, k ∈ N -> ~ meets k (lr_offset l, lend l)) as Hno.
  { intros k Hk. unfold meets. cbn. destruct (Ha k Hk); unfold lend in *; lia. }
  assert (cover C q = 0) as Hcov.
  { apply cover_0. intros c Hc. apply (tiled_outside N C q c HtN Hc). intros k Hk. by apply (Ha k Hk). }
  split.
  - split; [|apply (ti_apart _ _ HtN)]. apply Forall_forall. intros k Hk. by apply (Ha k Hk).
  - intros k. rewrite elem_of_cons. intros [->|Hk].
    + split; try done.
      * intros _. rewrite cover_cons, Hcov, decide_True by (unfold meets; rewrite He; cbn; unfold lend; lia). done.
      * intros c. rewrite elem_of_cons. intros [->|Hc] Hm; [split_and!; [done|by rewrite He|done]|].
        exfalso. apply (tiled_outside N C q c HtN Hc); [|done]. intros k Hk. by apply (Ha k Hk).
    + destruct (ti_node _ _ HtN k Hk) as [A1 A2 A3 A4 A5 A6]. split; try done.
      * rewrite cover_cons, decide_False by auto. done.
      * intros c. rewrite elem_of_cons. intros [->|Hc] Hm; [by apply Hno in Hm|auto].
  - intros c x. rewrite elem_of_cons. intros [->|Hc] Hx; cbn in Hx.
    + exists q. split; [by left|]. cbn. done.
    + destruct (ti_tile _ _ HtN c x Hc Hx) as (k & ? & ?). exists k. split; [by right|done].
Qed.

(** [rangelock_split] of a proxy. *)
Lemma tiled_split l N C x :
  tiled (l :: N) C -> lr_proxy l = true -> lr_offset l < x < lend l ->
  tiled (proxy_for x (lend l - x) (lr_count l) :: set_range l (lr_offset l) (x - lr_offset l) (lr_type l) :: N) C.
Proof.
  intros Ht Hp Hx. pose proof (ti_node _ _ Ht) as Hn. pose proof (tiled_apart _ _ _ Ht) as Ha.
  destruct (Hn l ltac:(by left)) as [A1 A2 A3 A4 A5 A6]. destruct A1 as (Hok1 & Hok2 & Hok3).
  set (rear := proxy_for _ _ _). set (front := set_range _ _ _ _).
  assert (lend rear = lend l) as Her by (unfold lend; cbn; unfold lend; lia).
  assert (lend front = x) as Hef by (unfold lend; cbn; lia).
  assert (forall c, c ∈ C -> meets l c <-> meets rear c) as Hmr.
  { intros c Hc. split; [intros Hm; destruct (A5 c Hc Hm) as (? & ? & _)|];
      unfold meets in *; rewrite ?Her in *; cbn in *; unfold lend in *; lia. }
  assert (forall c, c ∈ C -> meets l c <-> meets front c) as Hmf.
  { intros c Hc. split; [intros Hm; destruct (A5 c Hc Hm) as (? & ? & _)|];
      unfold meets in *; rewrite ?Hef in *; cbn in *; unfold lend in *; lia. }
  destruct (A4 Hp) as (B1 & B2 & B3). split.
  - destruct (ti_apart _ _ Ht) as [_ Hw]. split; [|split; [|done]].
    + apply Forall_cons. split; [unfold apart; rewrite Hef; cbn; lia|]. apply Forall_forall. intros k Hk.
      destruct (Ha k Hk); unfold apart; rewrite Her; cbn; lia.
    + apply Forall_forall. intros k Hk. destruct (Ha k Hk); unfold apart; rewrite Hef; cbn; lia.
  - intros k. rewrite !elem_of_cons. intros [->|[->|Hk]]; [..|apply Hn; by right].
    + split; try done.
      * unfold lr_ok, range_ok, rear, lend in *. cbn. lia.
      * intros _. by rewrite <- (cover_ext C l rear).
      * intros c Hc Hm. rewrite <- Hmr in Hm by done. destruct (A5 c Hc Hm) as (? & ? & _). rewrite Her. cbn. split_and!; [lia|done..].
    + split; try done.
      * unfold lr_ok, range_ok, front, lend in *. cbn. lia.
      * intros _. cbn. by rewrite <- (cover_ext C l front).
      * intros c Hc Hm. rewrite <- Hmf in Hm by done. destruct (A5 c Hc Hm) as (? & ? & _). rewrite Hef. cbn. split_and!; [lia..|done].
  - intros c y Hc Hy. destruct (ti_tile _ _ Ht c y Hc Hy) as (k & Hk & Hy').
    apply elem_of_cons in Hk as [->|Hk]; [|exists k; split; [by do 2 right|done]].
    destruct (Z_lt_le_dec y x); [exists front|exists rear]; rewrite ?Hef, ?Her; cbn; (split; [set_solver|lia]).
Qed.

(** ** A claim that grows or shrinks

    While a reader is added its claim grows from the left; while it is removed
    its claim shrinks from the left. *)

Lemma node_tiled_claim C c c' l :
  node_tiled (c :: C) l -> (meets l c <-> meets l c') ->
  (meets l c' -> c'.1 <= lr_offset l /\ lend l <= c'.2) -> node_tiled (c' :: C) l.
Proof.
  intros [A1 A2 A3 A4 A5 A6] Hm Hin. split; try done.
  - intros Hp. destruct (A4 Hp) as (B1 & B2 & B3). split_and!; [done| |done]. rewrite B2, !cover_cons. repeat case_decide; tauto.
  - intros k. rewrite elem_of_cons. intros [->|Hk] Hk'; [|apply A5; [by right|done]].
    destruct (A5 c) as (_ & _ & ?); [by left|tauto|]. destruct (Hin Hk'). done.
Qed.

Lemma tiled_empty N C p : tiled N ((p, p) :: C) <-> tiled N C.
Proof.
  assert (forall l, ~ meets l (p, p)) as Hno by (intros l; unfold meets; cbn; lia). split; intros [H1 H2 H3]; split; try done.
  - intros l Hl. destruct (H2 l Hl) as [A1 A2 A3 A4 A5 A6]. split; try done.
    + by rewrite cover_cons, decide_False in A4.
    + intros c Hc. apply A5. by right.
  - intros c x Hc. apply H3. by right.
  - intros l Hl. destruct (H2 l Hl) as [A1 A2 A3 A4 A5 A6]. split; try done.
    + by rewrite cover_cons, decide_False.
    + intros c. rewrite elem_of_cons. intros [->|Hc] Hm; [by apply Hno in Hm|auto].
  - intros c x. rewrite elem_of_cons. intros [->|Hc] Hx; [cbn in Hx; lia|eauto].
Qed.

(** [rangelock_new_proxy] for a gap. *)
Lemma tiled_gap N C s p q :
  tiled N ((s, p) :: C) -> s <= p -> range_ok p (q - p) ->
  (forall l, l ∈ N -> apart (proxy_for p (q - p) 1) l) ->
  tiled (proxy_for p (q - p) 1 :: N) ((s, q) :: C).
Proof.
  intros Ht Hsp Hok Ha. set (g := proxy_for _ _ _) in *. assert (lend g = q) as Heg by (unfold lend; cbn; lia).
  destruct Hok as (Hp & Hq & Hmax).
  assert (forall c, c ∈ C -> ~ meets g c) as Hout.
  { intros c Hc. apply (tiled_outside N ((s, p) :: C) g c Ht); [by right|done]. }
  assert (forall l, l ∈ N -> lend l <= p \/ q <= lr_offset l) as Ha'.
  { intros l Hl. specialize (Ha l Hl). unfold apart in Ha. rewrite Heg in Ha. cbn in Ha. lia. }
  split.
  - split; [by apply Forall_forall|apply Ht].
  - intros l. rewrite elem_of_cons. intros [->|Hl].
    + split; try done.
      * intros _. rewrite cover_cons, (cover_0 C), decide_True; [done|unfold meets; rewrite Heg; cbn; lia|done].
      * intros c. rewrite elem_of_cons. intros [->|Hc] Hm; [rewrite Heg; cbn; split_and!; [lia|done..]|by apply Hout in Hm].
    + pose proof (ti_node _ _ Ht l Hl) as Hnt. destruct (nt_ok _ _ Hnt) as (? & ? & _). specialize (Ha' l Hl).
      apply (node_tiled_claim C (s, p)); [done|unfold meets; cbn; unfold lend in *; lia|].
      intros Hm. assert (meets l (s, p)) as Hm' by (unfold meets in *; cbn in *; unfold lend in *; lia).
      destruct (nt_in _ _ Hnt (s, p) ltac:(by left) Hm') as (? & ? & _). cbn in *. lia.
  - intros c x. rewrite elem_of_cons. intros Hc Hx. destruct (decide (p <= x < q)) as [Hpx|Hpx].
    { exists g. rewrite Heg. cbn. split; [by left|lia]. }
    destruct Hc as [->|Hc]; cbn in Hx.
    + destruct (ti_tile _ _ Ht (s, p) x) as (l & ? & ?); [by left|cbn; lia|]. exists l. split; [by right|done].
    + destruct (ti_tile _ _ Ht c x) as (l & ? & ?); [by right|done|]. exists l. split; [by right|done].
Qed.

(** [lr_count++] of the next proxy. *)
Lemma tiled_incr l N C s :
  tiled (l :: N) ((s, lr_offset l) :: C) -> lr_proxy l = true -> s <= lr_offset l ->
  tiled (set_count l (lr_count l + 1) :: N) ((s, lend l) :: C).
Proof.
  intros Ht Hp Hs. pose proof (ti_node _ _ Ht) as Hn. pose proof (tiled_apart _ _ _ Ht) as Ha.
  destruct (Hn l ltac:(by left)) as [A1 A2 A3 A4 A5 A6]. destruct A1 as (Hok1 & Hok2 & Hok3).
  destruct (A4 Hp) as (B1 & B2 & B3).
  assert (~ meets l (s, lr_offset l)) as Hno by (unfold meets; cbn; lia).
  split.
  - apply (ti_apart _ _ Ht).
  - intros k. rewrite elem_of_cons. intros [->|Hk].
    + split; try done.
      * intros E. cbn in E. congruence.
      * intros _. cbn [set_count lr_count]. split_and!; [done| |lia].
        rewrite cover_cons, decide_True by (unfold meets; cbn; unfold lend; cbn; lia).
        rewrite cover_cons, decide_False in B2 by done.
        rewrite <- (cover_ext C l (set_count l (lr_count l + 1))) by done. lia.
      * intros c. rewrite elem_of_cons. intros [->|Hc] Hm; [done|]. apply A5; [by right|done].
    + pose proof (Hn k ltac:(by right)) as Hnt. destruct (nt_ok _ _ Hnt) as (? & ? & _). specialize (Ha k Hk). unfold apart in Ha.
      apply (node_tiled_claim C (s, lr_offset l)); [done|unfold meets; cbn; unfold lend in *; lia|].
      intros Hm. assert (meets k (s, lr_offset l)) as Hm' by (unfold meets in *; cbn in *; unfold lend in *; lia).
      destruct (nt_in _ _ Hnt _ ltac:(by left) Hm') as (? & ? & _). cbn in *. unfold lend in *. lia.
  - intros c x. rewrite elem_of_cons. intros Hc Hx. destruct (decide (lr_offset l <= x < lend l)) as [Hpx|Hpx].
    { eexists. split; [by left|done]. }
    assert (exists k, k ∈ l :: N /\ lr_offset k <= x < lend k) as (k & Hk & Hkx).
    { destruct Hc as [->|Hc]; cbn in Hx; [apply (ti_tile _ _ Ht (s, lr_offset l)); [by left|cbn; lia]|].
      apply (ti_tile _ _ Ht c); [by right|done]. }
    apply elem_of_cons in Hk as [->|Hk]; [done|]. exists k. split; [by right|done].
Qed.

(** [lr_count--] of the first proxy: its range, and who else is in it. *)
Lemma tiled_first l N C e :
  tiled (l :: N) ((lr_offset l, e) :: C) -> lr_offset l < e ->
  lr_proxy l = true /\ lend l <= e /\ lr_count l = 1 + cover C l.
Proof.
  intros Ht He. destruct (ti_node _ _ Ht l ltac:(by left)) as [A1 A2 A3 A4 A5 A6]. destruct A1 as (Hok1 & Hok2 & Hok3).
  assert (meets l (lr_offset l, e)) as Hm by (unfold meets; cbn; unfold lend; lia).
  destruct (A5 _ ltac:(by left) Hm) as (_ & H2 & Hp). destruct (A4 Hp) as (_ & H3 & _).
  rewrite cover_cons, decide_True in H3 by done. done.
Qed.

(** The other nodes, when the claim shrinks past the first proxy. *)
Lemma tiled_shrink l N C e k :
  tiled (l :: N) ((lr_offset l, e) :: C) -> lr_offset l < e -> k ∈ N -> node_tiled ((lend l, e) :: C) k.
Proof.
  intros Ht He Hk. pose proof (tiled_apart _ _ _ Ht k Hk) as Ha. unfold apart in Ha.
  pose proof (ti_node _ _ Ht k ltac:(by right)) as Hnt. destruct (nt_ok _ _ Hnt) as (? & ? & _).
  destruct (nt_ok _ _ (ti_node _ _ Ht l ltac:(by left))) as (? & ? & _).
  apply (node_tiled_claim C (lr_offset l, e)); [done|unfold meets; cbn; unfold lend in *; lia|].
  intros Hm. assert (meets k (lr_offset l, e)) as Hm' by (unfold meets in *; cbn in *; unfold lend in *; lia).
  destruct (nt_in _ _ Hnt _ ltac:(by left) Hm') as (? & ? & _). unfold meets in *. cbn in *. unfold lend in *. lia.
Qed.

Lemma tiled_decr l N C e :
  tiled (l :: N) ((lr_offset l, e) :: C) -> lr_offset l < e -> lr_count l <> 1 ->
  tiled (set_count l (lr_count l - 1) :: N) ((lend l, e) :: C).
Proof.
  intros Ht He Hc1. pose proof (ti_node _ _ Ht l ltac:(by left)) as [A1 A2 A3 A4 A5 A6].
  destruct (tiled_first _ _ _ _ Ht He) as (Hp & Hle & Hcnt). destruct (A4 Hp) as (B1 & B2 & B3).
  split.
  - apply (ti_apart _ _ Ht).
  - intros k. rewrite elem_of_cons. intros [->|Hk]; [|by apply (tiled_shrink l N)].
    split; try done.
    + intros E. cbn in E. congruence.
    + intros _. cbn [set_count lr_count]. split_and!; [done| |lia].
      rewrite cover_cons, decide_False by (unfold meets; cbn; unfold lend; cbn; lia).
      rewrite <- (cover_ext C l (set_count l (lr_count l - 1))) by done. lia.
    + intros c. rewrite elem_of_cons. intros [->|Hc] Hm; [unfold meets in Hm; cbn in Hm; unfold lend in Hm; cbn in Hm; lia|].
      apply A5; [by right|done].
  - intros c x. rewrite elem_of_cons. intros Hc Hx.
    assert (exists k, k ∈ l :: N /\ lr_offset k <= x < lend k) as (k & Hk & Hkx).
    { destruct A1 as (? & ? & _). destruct Hc as [->|Hc]; cbn in Hx;
        [apply (ti_tile _ _ Ht (lr_offset l, e)); [by left|cbn; unfold lend in *; lia]|].
      apply (ti_tile _ _ Ht c); [by right|done]. }
    apply elem_of_cons in Hk as [->|Hk]; [eexists; split; [by left|done]|]. exists k. split; [by right|done].
Qed.

Lemma tiled_remove_proxy l N C e :
  tiled (l :: N) ((lr_offset l, e) :: C) -> lr_offset l < e -> lr_count l = 1 ->
  tiled N ((lend l, e) :: C).
Proof.
  intros Ht He Hc1. destruct (tiled_first _ _ _ _ Ht He) as (Hp & Hle & Hcnt).
  assert (forall c, c ∈ C -> ~ meets l c) as Hno.
  { intros c Hc Hm. assert (1 <= cover C l); [|lia]. apply list_elem_of_split in Hc as (C1 & C2 & ->).
    rewrite (cover_perm _ (c :: C1 ++ C2)) by (symmetry; apply Permutation_middle).
    rewrite cover_cons, decide_True by done. pose proof (cover_nonneg (C1 ++ C2) l). lia. }
  pose proof (ti_node _ _ Ht l ltac:(by left)) as Hl. destruct (nt_ok _ _ Hl) as (? & ? & _).
  split; [apply (ti_apart _ _ Ht)|intros k Hk; by apply (tiled_shrink l N)|].
  intros c x. rewrite elem_of_cons. intros [->|Hc] Hx; cbn in Hx.
  - destruct (ti_tile _ _ Ht (lr_offset l, e) x) as (k & Hk & ?); [by left|cbn; unfold lend in *; lia|].
    apply elem_of_cons in Hk as [->|Hk]; [lia|eauto].
  - destruct (ti_tile _ _ Ht c x) as (k & Hk & ?); [by right|done|].
    apply elem_of_cons in Hk as [->|Hk]; [|eauto]. destruct (Hno c Hc). unfold meets. lia.
Qed.

(** The nodes that a claim is made of: there is one at its start. *)
Lemma tiled_start N C c :
  tiled N C -> c ∈ C -> c.1 < c.2 -> exists l, l ∈ N /\ lr_offset l = c.1 /\ lr_proxy l = true /\ lr_type l = RL_READER.
Proof.
  intros Ht Hc Hlt. destruct (ti_tile _ _ Ht c c.1 Hc ltac:(lia)) as (l & Hl & Hx).
  destruct (ti_node _ _ Ht l Hl) as [A1 A2 A3 A4 A5 A6]. destruct (A5 c Hc) as (? & ? & Hp); [unfold meets; lia|].
  destruct (A4 Hp) as (? & _). exists l. split_and!; [done|lia|done..].
Qed.
