(* ===== verification/RangeLockInv.v ===== *)
(** * Range locks: the invariant and the operations on readers

    [core rl X] ties the tree, the heap and the handles together; [X] are
    claims of an operation under way.  [frame] says what the operations on
    readers leave alone. *)

From stdpp Require Import gmap.
From S2P Require Import Prelude Avl RangeLock RangeLockTree RangeLockTiles.

Notation elts rl := (elements (rl_tree rl)).
Notation at_ rl := (node (rl_heap rl)).

Definition nodes (rl : rangelock) : list locked_range := at_ rl <$> elts rl.

(** The ranges of the readers that are not in the tree themselves. *)
Definition claim (h : heap) (g : addr) : Z * Z := (lr_offset (node h g), lend (node h g)).
Definition claims (h : heap) (held : list addr) : list (Z * Z) :=
  claim h <$> filter (fun g => lr_count (node h g) = 0) held.

Record held_ok (h : heap) (T : list addr) (g : addr) : Prop := {
  ho_dom : is_Some (h !! g);
  ho_ok : lr_ok (node h g);
  ho_proxy : lr_proxy (node h g) = false;
  ho_type : lr_type (node h g) <> RL_APPEND;
  ho_count : (lr_count (node h g) = 1 /\ g ∈ T) \/
             (lr_count (node h g) = 0 /\ g ∉ T /\ lr_type (node h g) = RL_READER /\
              lr_write_wanted (node h g) = false /\ lr_read_wanted (node h g) = false);
}.

Record core (rl : rangelock) (X : list (Z * Z)) : Prop := {
  cr_tree : tree_ok (rl_heap rl) (rl_tree rl);
  cr_tiled : tiled (nodes rl) (X ++ claims (rl_heap rl) (rl_held rl));
  cr_nodup : NoDup (rl_held rl);
  cr_held g : g ∈ rl_held rl -> held_ok (rl_heap rl) (elts rl) g;
  cr_plain n : n ∈ elts rl -> lr_proxy (at_ rl n) = false -> n ∈ rl_held rl;
}.

(** Threads and handles stay, memory outside the tree stays outside and as it
    is, nodes that keep readers away stay as they are. *)
Record frame (rl rl' : rangelock) : Prop := {
  fr_pc : rl_pc rl' = rl_pc rl;
  fr_held : rl_held rl' = rl_held rl;
  fr_out a : is_Some (rl_heap rl !! a) -> a ∉ elts rl -> rl_heap rl' !! a = rl_heap rl !! a /\ a ∉ elts rl';
  fr_block a : a ∈ elts rl -> blocks_reader (at_ rl a) = true -> rl_heap rl' !! a = rl_heap rl !! a /\ a ∈ elts rl';
}.

Lemma frame_refl rl : frame rl rl.
Proof. split; auto. Qed.

Lemma frame_trans rl1 rl2 rl3 : frame rl1 rl2 -> frame rl2 rl3 -> frame rl1 rl3.
Proof.
  intros [A1 A2 A3 A4] [B1 B2 B3 B4]. split; [congruence..| |].
  - intros a Ha Hn. destruct (A3 a Ha Hn) as [E Hn']. destruct (B3 a) as [E' ?]; [by rewrite E|done|].
    split; [congruence|done].
  - intros a Ha Hb. destruct (A4 a Ha Hb) as [E Hn']. destruct (B4 a Hn') as [E' ?]; [|split; [congruence|done]].
    unfold node in *. by rewrite E.
Qed.

(** ** Claims of the handles *)

Lemma claims_ext_weak h h' held :
  (forall g, g ∈ held -> lr_count (node h' g) = lr_count (node h g) /\ claim h' g = claim h g) -> claims h' held = claims h held.
Proof.
  unfold claims. induction held as [|g held IH]; intros H; [done|]. rewrite !filter_cons.
  destruct (H g ltac:(by left)) as [-> E]. specialize (IH ltac:(intros; apply H; by right)).
  destruct (decide _); csimpl; by rewrite ?E, IH.
Qed.

Lemma claims_ext h h' held : (forall g, g ∈ held -> node h' g = node h g) -> claims h' held = claims h held.
Proof. intros H. apply claims_ext_weak. intros g Hg. unfold claim. by rewrite (H g Hg). Qed.

Lemma claims_perm h held held' : held ≡ₚ held' -> claims h held ≡ₚ claims h held'.
Proof. intros H. unfold claims. by rewrite H. Qed.

Lemma claims_cons h g held :
  claims h (g :: held) = (if decide (lr_count (node h g) = 0) then [claim h g] else []) ++ claims h held.
Proof. unfold claims. rewrite filter_cons. by destruct (decide _). Qed.

Lemma elem_of_claims h held c :
  c ∈ claims h held <-> exists g, g ∈ held /\ lr_count (node h g) = 0 /\ c = claim h g.
Proof.
  unfold claims. rewrite list_elem_of_fmap. split.
  - intros (g & -> & Hg). apply list_elem_of_filter in Hg as [? ?]. eauto.
  - intros (g & Hg & H0 & ->). exists g. split; [done|]. by apply list_elem_of_filter.
Qed.

Lemma length_claims h held : (length (claims h held) <= length held)%nat.
Proof. unfold claims. rewrite length_fmap. apply length_filter. Qed.

(** A handle leaves the tree. *)
Lemma claims_zero h held a l :
  NoDup held -> a ∈ held -> lr_count (node h a) <> 0 ->
  lr_count l = 0 -> lr_offset l = lr_offset (node h a) -> lr_length l = lr_length (node h a) ->
  claims (<[a := l]> h) held ≡ₚ claim h a :: claims h held.
Proof.
  intros Hnd Ha Hc H0 Ho Hl. apply list_elem_of_split in Ha as (k1 & k2 & ->).
  assert (k1 ++ a :: k2 ≡ₚ a :: k1 ++ k2) as Hp by (symmetry; apply Permutation_middle).
  rewrite !(claims_perm _ _ _ Hp). rewrite Hp in Hnd. apply NoDup_cons in Hnd as [Hna _].
  rewrite !claims_cons, node_insert, decide_True, decide_False by done. cbn [app].
  unfold claim at 1. rewrite node_insert, Ho. unfold lend. rewrite Ho, Hl. unfold claim, lend.
  rewrite (claims_ext h (<[a := l]> h)); [done|]. intros g Hg. apply node_insert_ne. by intros ->.
Qed.

Lemma load_Some rl a l : rl_heap rl !! a = Some l -> load rl a = Ret l.
Proof. unfold load. by intros ->. Qed.

(** ** Reading the invariant *)

Section Core.
Context (rl : rangelock) (X : list (Z * Z)) (Hc : core rl X).

Lemma core_node a : a ∈ elts rl -> exists l, rl_heap rl !! a = Some l /\ at_ rl a = l /\
  node_tiled (X ++ claims (rl_heap rl) (rl_held rl)) l.
Proof using Hc.
  intros Ha. destruct (tk_dom _ _ (cr_tree _ _ Hc) a Ha) as [l Hl]. exists l. rewrite (node_Some _ _ _ Hl). split_and!; [done..|].
  apply (ti_node _ _ (cr_tiled _ _ Hc)). rewrite <- (node_Some _ _ _ Hl). apply list_elem_of_fmap. eauto.
Qed.

Lemma core_load a : a ∈ elts rl -> load rl a = Ret (at_ rl a).
Proof using Hc. intros Ha. destruct (core_node a Ha) as (l & H1 & <- & _). unfold load. by rewrite H1. Qed.

(** The tree without one of its nodes. *)
Lemma core_split a : a ∈ elts rl -> exists T0, elts rl ≡ₚ a :: T0 /\ a ∉ T0 /\ (forall n, n ∈ T0 -> n ∈ elts rl) /\
  nodes rl ≡ₚ at_ rl a :: (at_ rl <$> T0) /\
  tiled (at_ rl a :: (at_ rl <$> T0)) (X ++ claims (rl_heap rl) (rl_held rl)) /\
  (forall n, n ∈ T0 -> apart (at_ rl a) (at_ rl n)).
Proof using Hc.
  intros Ha. pose proof (tk_NoDup _ _ (cr_tree _ _ Hc)) as Hnd.
  apply list_elem_of_split in Ha as (k1 & k2 & E). exists (k1 ++ k2).
  assert (elts rl ≡ₚ a :: (k1 ++ k2)) as Hp by (rewrite E; symmetry; apply Permutation_middle).
  assert (nodes rl ≡ₚ at_ rl a :: (at_ rl <$> k1 ++ k2)) as Hn by (unfold nodes; by rewrite Hp).
  assert (tiled (at_ rl a :: (at_ rl <$> k1 ++ k2)) (X ++ claims (rl_heap rl) (rl_held rl))) as Ht
    by (apply (tiled_perm _ _ _ _ Hn (reflexivity _)), Hc).
  rewrite Hp in Hnd. apply NoDup_cons in Hnd as [Hna _]. split_and!; [done..| |done|done|].
  - intros n Hn'. rewrite Hp. by right.
  - intros n Hn'. apply (tiled_apart _ _ _ Ht), list_elem_of_fmap. eauto.
Qed.

Lemma core_apart a b : a ∈ elts rl -> b ∈ elts rl -> a <> b -> apart (at_ rl a) (at_ rl b).
Proof using Hc.
  intros Ha Hb Hab. destruct (core_split a Ha) as (T0 & Hp & _ & _ & _ & _ & H). apply H.
  rewrite Hp in Hb. apply elem_of_cons in Hb as [->|]; done.
Qed.

Lemma core_ok a : a ∈ elts rl ->
  0 <= off (rl_heap rl) a < fin (rl_heap rl) a /\ fin (rl_heap rl) a <= UINT64_MAX /\
  lend (at_ rl a) = fin (rl_heap rl) a /\ lr_end (at_ rl a) = fin (rl_heap rl) a.
Proof using Hc.
  intros Ha. destruct (core_node a Ha) as (l & _ & E & Hn). destruct (nt_ok _ _ Hn) as (H1 & H2 & H3).
  unfold lr_end, off, fin, lend. rewrite E. rewrite add64_small by (unfold u64, UINT64_MAX in *; lia). lia.
Qed.

(** What a node that does not keep readers away looks like. *)
Lemma core_reader a : a ∈ elts rl -> blocks_reader (at_ rl a) = false ->
  lr_type (at_ rl a) = RL_READER /\ lr_write_wanted (at_ rl a) = false /\ lr_read_wanted (at_ rl a) = false.
Proof using Hc.
  intros Ha Hb. destruct (core_node a Ha) as (l & _ & E & Hn). rewrite E in *. pose proof (nt_type _ _ Hn) as Hty.
  pose proof (nt_read _ _ Hn) as Hr. pose proof Hb as Hb'. unfold blocks_reader in Hb'. apply orb_false_iff in Hb' as [H1 ->].
  apply bool_decide_eq_false in H1. split_and!; [by destruct (lr_type l)|done|].
  destruct (lr_read_wanted l); [|done]. rewrite Hr in Hb; done.
Qed.

(** Handles and proxies. *)
Lemma core_held_in g : g ∈ rl_held rl -> is_Some (rl_heap rl !! g).
Proof using Hc. intros Hg. apply (cr_held _ _ Hc g Hg). Qed.

End Core.

(** ** Changing the state *)

Lemma node_same h h' a : h' !! a = h !! a -> node h' a = node h a.
Proof. unfold node. by intros ->. Qed.

(** The nodes [D] are replaced by [D']. *)
Lemma core_change rl rl' X X' D T0 D' :
  core rl X -> rl_held rl' = rl_held rl ->
  elts rl ≡ₚ D ++ T0 -> elts rl' ≡ₚ D' ++ T0 ->
  tree_ok (rl_heap rl') (rl_tree rl') ->
  (forall n, n ∈ T0 -> rl_heap rl' !! n = rl_heap rl !! n) ->
  (forall g, g ∈ rl_held rl -> g ∉ T0 -> held_ok (rl_heap rl') (elts rl') g) ->
  (forall n, n ∈ D' -> lr_proxy (at_ rl' n) = false -> n ∈ rl_held rl) ->
  tiled ((at_ rl' <$> D') ++ (at_ rl <$> T0)) (X' ++ claims (rl_heap rl') (rl_held rl)) ->
  core rl' X'.
Proof.
  intros Hc Hh HT HT' Htree Hsame Hheld Hplain Ht.
  assert ((at_ rl' <$> T0) = (at_ rl <$> T0)) as HN.
  { apply list_fmap_ext. intros i n Hn. apply node_same, Hsame. by apply list_elem_of_lookup_2 in Hn. }
  split; rewrite ?Hh; [done|..].
  - eapply tiled_perm; [|reflexivity|exact Ht]. unfold nodes. by rewrite HT', fmap_app, HN.
  - apply Hc.
  - intros g Hg. destruct (decide (g ∈ T0)) as [Hin|]; [|auto].
    assert (g ∈ elts rl) as HgT by (rewrite HT; apply elem_of_app; by right).
    destruct (cr_held _ _ Hc g Hg) as [H1 H2 H3 H4 H5]. pose proof (node_same _ _ _ (Hsame g Hin)) as E.
    split; rewrite ?E, ?(Hsame g Hin); try done. left. destruct H5 as [[? _]|(_ & ? & _)]; [|done].
    split; [done|]. rewrite HT'. apply elem_of_app. by right.
  - intros n. rewrite HT', elem_of_app. intros [Hn|Hn] Hp; [by apply Hplain|].
    rewrite (node_same _ _ _ (Hsame n Hn)) in Hp. apply (cr_plain _ _ Hc); [|done]. rewrite HT. apply elem_of_app. by right.
Qed.

(** Memory that is neither in the tree nor a handle. *)
Lemma core_other rl rl' X :
  core rl X -> rl_tree rl' = rl_tree rl -> rl_held rl' = rl_held rl ->
  (forall n, n ∈ elts rl \/ n ∈ rl_held rl -> rl_heap rl' !! n = rl_heap rl !! n) -> core rl' X.
Proof.
  intros Hc Ht Hh Hsame.
  assert (forall n, n ∈ elts rl -> at_ rl' n = at_ rl n) as HT by (intros; apply node_same, Hsame; by left).
  assert (forall n, n ∈ rl_held rl -> at_ rl' n = at_ rl n) as HH by (intros; apply node_same, Hsame; by right).
  split; rewrite ?Ht, ?Hh.
  - apply (tk_heap (rl_heap rl)); [apply Hc|]. intros a Ha. unfold off. rewrite HT, Hsame by auto. split; [|done].
    apply (tk_dom _ _ (cr_tree _ _ Hc) a Ha).
  - rewrite (claims_ext (rl_heap rl)) by done. unfold nodes. rewrite Ht.
    erewrite list_fmap_ext; [apply Hc|]. intros i n Hn. apply HT. by apply list_elem_of_lookup_2 in Hn.
  - apply Hc.
  - intros g Hg. destruct (cr_held _ _ Hc g Hg) as [H1 H2 H3 H4 H5]. split; rewrite ?HH, ?Hsame by auto; done.
  - intros n Hn. rewrite HT by done. by apply Hc.
Qed.

Lemma store_fresh rl X a l : core rl X -> rl_heap rl !! a = None -> core (store rl a l) X /\ frame rl (store rl a l).
Proof.
  intros Hc Ha. assert (forall n, is_Some (rl_heap rl !! n) -> <[a := l]> (rl_heap rl) !! n = rl_heap rl !! n) as Hsame.
  { intros n [k Hn]. rewrite lookup_insert_ne; [done|]. intros <-. congruence. }
  split.
  - apply (core_other rl); try done. intros n [Hn|Hn]; apply Hsame; [apply (tk_dom _ _ (cr_tree _ _ Hc) n Hn)|apply (core_held_in _ _ Hc n Hn)].
  - split; try done; cbn; [auto|]. intros n Hn _. split; [|done]. apply Hsame, (tk_dom _ _ (cr_tree _ _ Hc) n Hn).
Qed.

Section Kmem.
Context `{!RangeKmem}.

Lemma alloc_ne (h : heap) a : is_Some (h !! a) -> a <> kmem_alloc h.
Proof. intros [l Hl] ->. by rewrite kmem_alloc_fresh in Hl. Qed.

(** [tree_add] of a node that starts where no other does. *)
Lemma tree_add_ok rl a :
  tree_ok (rl_heap rl) (rl_tree rl) -> is_Some (rl_heap rl !! a) ->
  (forall n, n ∈ elts rl -> off (rl_heap rl) n <> off (rl_heap rl) a) ->
  exists t', tree_add rl a = Ret (set_tree rl t') /\ tree_ok (rl_heap rl) t' /\ elements t' ≡ₚ a :: elts rl.
Proof.
  intros Ht Ha Hn. destruct (tk_add _ _ Ht a Ha Hn) as (t' & E & ? & ?). exists t'. unfold tree_add. by rewrite E.
Qed.

(** [rangelock_proxify]. *)
Record proxified (rl rl' : rangelock) (a p : addr) (T0 : list addr) : Prop := {
  px_frame : frame rl rl';
  px_old : elts rl ≡ₚ a :: T0;
  px_new : elts rl' ≡ₚ p :: T0;
  px_out : a ∉ T0;
  px_same n : n ∈ T0 -> rl_heap rl' !! n = rl_heap rl !! n;
  px_node : at_ rl' p = proxy_for (lr_offset (at_ rl a)) (lr_length (at_ rl a)) (lr_count (at_ rl a));
  px_handle : is_Some (rl_heap rl' !! a) /\ lr_offset (at_ rl' a) = lr_offset (at_ rl a);
}.

Lemma proxify_ok rl X a :
  core rl X -> a ∈ elts rl -> blocks_reader (at_ rl a) = false ->
  exists rl' p T0, rangelock_proxify rl a = Ret (rl', p) /\ core rl' X /\ proxified rl rl' a p T0.
Proof using All.
  intros Hc Ha Hb. destruct (core_split _ _ Hc a Ha) as (T0 & HT & HaT & Hsub & _ & Ht & Hap).
  destruct (core_reader _ _ Hc a Ha Hb) as (Hty & Hww & Hrw). destruct (core_node _ _ Hc a Ha) as (l & Hl & E & Hn).
  unfold rangelock_proxify. rewrite (core_load _ _ Hc a Ha). rewrite E in *. cbn [mbind result_bind].
  destruct (lr_proxy l) eqn:Hp.
  { exists rl, a, T0. split_and!; [done..|]. split; [apply frame_refl|done..| |].
    - rewrite E. destruct l; cbn in *; by subst.
    - rewrite E, Hl. eauto. }
  pose proof (nt_plain _ _ Hn Hp) as Hc1. pose proof (cr_plain _ _ Hc a Ha) as Hheld. rewrite E in Hheld. specialize (Hheld Hp).
  rewrite Hc1, Hww, Hrw. cbn [verify negb Z.eqb Pos.eqb mbind result_bind].
  set (h1 := <[a := set_count l 0]> (rl_heap rl)). set (p := kmem_alloc h1). set (q := proxy_for (lr_offset l) (lr_length l) 1).
  set (rl2 := store (store (set_tree rl (avl_remove (rl_tree rl) a)) a (set_count l 0)) p q). set (h2 := <[p := q]> h1).
  assert (forall n, is_Some (rl_heap rl !! n) -> n <> p) as Hpn.
  { intros n Hs. apply alloc_ne. unfold h1. destruct (decide (n = a)) as [->|]; [by rewrite lookup_insert_eq|by rewrite lookup_insert_ne]. }
  assert (forall n, is_Some (rl_heap rl !! n) -> n <> a -> h2 !! n = rl_heap rl !! n) as Hsame.
  { intros n Hs Hna. unfold h2, h1. rewrite !lookup_insert_ne by (by apply not_eq_sym; auto). done. }
  assert (forall n, n ∈ T0 -> is_Some (rl_heap rl !! n) /\ n <> a) as HT0.
  { intros n Hn0. split; [apply (tk_dom _ _ (cr_tree _ _ Hc)); auto|by intros ->]. }
  destruct (tk_remove _ _ (cr_tree _ _ Hc) a Ha) as [Hr Hperm].
  assert (elements (avl_remove (rl_tree rl) a) ≡ₚ T0) as HrT by (apply (Permutation_cons_inv (a := a)); by rewrite <- Hperm, <- HT).
  assert (h2 !! a = Some (set_count l 0)) as Ha2.
  { unfold h2. rewrite lookup_insert_ne by (apply not_eq_sym, Hpn; eauto). apply lookup_insert_eq. }
  destruct (tree_add_ok rl2 p) as (t' & Eadd & Htk & Hel).
  - apply (tk_heap _ _ Hr). intros n. rewrite HrT. intros Hn0. destruct (HT0 n Hn0) as [Hs Hna].
    cbn. fold h1 h2. unfold off. rewrite (node_same _ _ _ (Hsame n Hs Hna)), Hsame by done. done.
  - cbn. rewrite lookup_insert_eq. eauto.
  - intros n. cbn. rewrite HrT. intros Hn0. destruct (HT0 n Hn0) as [Hs Hna]. fold h1 h2. unfold off.
    rewrite (node_same _ _ _ (Hsame n Hs Hna)). unfold h2. rewrite node_insert. cbn. intros Eo. apply Hna.
    apply (tk_inj _ _ (cr_tree _ _ Hc)); auto. unfold off. by rewrite E.
  - cbn in Eadd. change (tree_add _ _) with (tree_add rl2 p). rewrite Eadd. cbn [mbind result_bind]. exists (set_tree rl2 t'), p, T0. cbn in Hel, Htk. fold h1 h2 in Htk. rewrite HrT in Hel.
    assert (frame rl (set_tree rl2 t')) as Hf.
    { split; try done; cbn; fold h1 h2.
      - intros n Hs Hna. split; [apply Hsame; [done|by intros ->]|]. rewrite Hel, elem_of_cons.
        intros [Hx|Hn0]; [by apply Hpn in Hx|by apply Hna, Hsub].
      - intros n Hn' Hb'. assert (n <> a) as Hna by (intros ->; rewrite E in Hb'; congruence).
        split; [apply Hsame; [apply (tk_dom _ _ (cr_tree _ _ Hc) n Hn')|done]|]. rewrite Hel, elem_of_cons. right.
        rewrite HT, elem_of_cons in Hn'. by destruct Hn'. }
    split_and!; [done| |split; cbn; fold h1 h2; try done].
    + apply (core_change rl _ X X [a] T0 [p]); try done; cbn; fold h1 h2.
      * intros n Hn0. destruct (HT0 n Hn0). by apply Hsame.
      * intros g Hg Hng. destruct (cr_held _ _ Hc g Hg) as [H1 H2 H3 H4 H5]. destruct (decide (g = a)) as [->|Hga].
        -- unfold node in *. rewrite Hl in *. split; unfold node; rewrite ?Ha2; try done. right. cbn. split_and!; try done.
           rewrite Hel, elem_of_cons. intros [Hx|]; [apply Hpn in Hx; eauto|done].
        -- pose proof (node_same _ _ _ (Hsame g H1 Hga)) as Eg. split; rewrite ?Eg, ?Hsame by done; try done.
           destruct H5 as [[_ H5]|(? & ? & ?)]; [rewrite HT, elem_of_cons in H5; by destruct H5|].
           right. split_and!; try tauto. rewrite Hel, elem_of_cons. intros [Hx|Hx]; [by apply Hpn in Hx|auto].
      * intros n Hn0. apply list_elem_of_singleton in Hn0 as ->. unfold h2. by rewrite node_insert.
      * unfold h2. rewrite node_insert. eapply tiled_perm; [reflexivity| |by apply (tiled_proxify l)].
        fold h2. rewrite (claims_ext h1 h2); [|intros g Hg; apply node_insert_ne, Hpn, (core_held_in _ _ Hc g Hg)].
        unfold h1. rewrite (claims_zero _ _ a) by (rewrite ?E; try done; first [apply Hc|lia]).
        unfold claim. rewrite E. apply Permutation_middle.
    + intros n Hn0. destruct (HT0 n Hn0). by apply Hsame.
    + unfold h2. rewrite node_insert. unfold q. by rewrite E, Hc1.
    + rewrite Ha2. split; [eauto|]. rewrite (node_Some _ _ _ Ha2), E. done.
Qed.

(** The second half of [rangelock_split]: the front is cut and the rear put
    into the tree. *)
Lemma split_proxy rl X f r x :
  core rl X -> f ∈ elts rl -> lr_proxy (at_ rl f) = true ->
  lr_offset (at_ rl f) < x < lend (at_ rl f) ->
  rl_heap rl !! r = Some (proxy_for x (lend (at_ rl f) - x) (lr_count (at_ rl f))) -> r ∉ elts rl -> r ∉ rl_held rl ->
  let l := set_range (at_ rl f) (lr_offset (at_ rl f)) (x - lr_offset (at_ rl f)) (lr_type (at_ rl f)) in
  let rl' := set_tree (store rl f l) (avl_insert_here (rl_tree rl) r f true) in
  core rl' X /\ elts rl' ≡ₚ r :: elts rl.
Proof using All.
  intros Hc Hf Hp Hx Hr HrT HrH l rl'. destruct (core_split _ _ Hc f Hf) as (T0 & HT & HfT & Hsub & _ & Ht & Hap).
  set (h' := <[f := l]> (rl_heap rl)).
  assert (forall n, n <> f -> h' !! n = rl_heap rl !! n) as Hsame by (intros; apply lookup_insert_ne; done).
  assert (h' !! f = Some l) as Hf' by apply lookup_insert_eq.
  assert (r <> f) as Hrf by (by intros ->).
  assert (node h' r = proxy_for x (lend (at_ rl f) - x) (lr_count (at_ rl f))) as Er by (apply node_Some; rewrite Hsame; done).
  assert (tree_ok h' (rl_tree rl)) as Htk.
  { apply (tk_heap (rl_heap rl)); [apply Hc|]. intros n Hn. unfold off. destruct (decide (n = f)) as [->|Hne].
    - rewrite (node_Some _ _ _ Hf'), Hf'. split; [eauto|done].
    - rewrite (node_same _ _ _ (Hsame n Hne)), Hsame by done. split; [|done]. apply (tk_dom _ _ (cr_tree _ _ Hc) n Hn). }
  destruct (tk_insert_here h' _ Htk f r Hf) as [Htk' Hel].
  - rewrite Hsame, Hr by done. eauto.
  - unfold off. rewrite Er, (node_Some _ _ _ Hf'). cbn. lia.
  - intros n Hn. unfold off. rewrite Er, (node_Some _ _ _ Hf'). cbn. rewrite HT, elem_of_cons in Hn.
    destruct Hn as [->|Hn]; [rewrite (node_Some _ _ _ Hf'); cbn; lia|].
    rewrite (node_same _ _ _ (Hsame n ltac:(by intros ->))). intros Hlt.
    destruct (core_ok _ _ Hc n (Hsub n Hn)) as (? & _ & E & _). destruct (Hap n Hn); unfold off, fin in *; lia.
  - split; [|done]. apply (core_change rl _ X X [f] T0 [r; f]); try done; cbn; fold h'.
    + by rewrite Hel, HT.
    + intros n Hn. apply Hsame. by intros ->.
    + intros g Hg Hng. destruct (cr_held _ _ Hc g Hg) as [H1 H2 H3 H4 H5].
      assert (g <> f) as Hgf by (intros ->; congruence). rewrite HT, elem_of_cons in H5.
      split; rewrite ?(node_same _ _ _ (Hsame g Hgf)), ?Hsame by done; try done.
      right. destruct H5 as [[_ [?|?]]|(? & ? & ?)]; [done..|]. split_and!; try tauto.
      rewrite Hel, HT, !elem_of_cons. intros [->|?]; [done|tauto].
    + intros n. rewrite elem_of_cons, list_elem_of_singleton. intros [-> | ->]; rewrite ?Er, ?(node_Some _ _ _ Hf'); cbn; congruence.
    + rewrite Er, (node_Some _ _ _ Hf'), (claims_ext (rl_heap rl)); [by apply (tiled_split (at_ rl f))|].
      intros g Hg. apply node_same, Hsame. intros ->. rewrite (ho_proxy _ _ _ (cr_held _ _ Hc f Hg)) in Hp. done.
Qed.

Record splitted (rl rl' : rangelock) (a f r : addr) (x : Z) (T0 : list addr) : Prop := {
  sp_frame : frame rl rl';
  sp_old : elts rl ≡ₚ a :: T0;
  sp_new : elts rl' ≡ₚ r :: f :: T0;
  sp_same n : n ∈ T0 -> rl_heap rl' !! n = rl_heap rl !! n;
  sp_front : at_ rl' f = proxy_for (lr_offset (at_ rl a)) (x - lr_offset (at_ rl a)) (lr_count (at_ rl a));
  sp_rear : at_ rl' r = proxy_for x (lend (at_ rl a) - x) (lr_count (at_ rl a));
}.

Lemma split_ok rl X a x :
  core rl X -> a ∈ elts rl -> blocks_reader (at_ rl a) = false ->
  lr_offset (at_ rl a) < x < lend (at_ rl a) ->
  exists rl' f r T0, rangelock_split rl a x = Ret (rl', f) /\ core rl' X /\ splitted rl rl' a f r x T0.
Proof using All.
  intros Hc Ha Hb Hx. destruct (core_reader _ _ Hc a Ha Hb) as (Hty & Hww & Hrw).
  destruct (core_ok _ _ Hc a Ha) as (Hok1 & Hok2 & El & Ee).
  pose proof (tk_dom _ _ (cr_tree _ _ Hc) a Ha) as Hda.
  unfold rangelock_split. rewrite (core_load _ _ Hc a Ha). cbn [mbind result_bind]. rewrite Hww, Hrw, Ee, <- El.
  rewrite (proj2 (Z.ltb_lt 1 _)), !(proj2 (Z.ltb_lt _ _)) by (unfold lend in *; lia). cbn [verify negb mbind result_bind].
  rewrite sub64_small by (unfold u64, off, fin, lend, UINT64_MAX in *; lia).
  assert (0 <= lr_offset (at_ rl a) /\ lend (at_ rl a) <= UINT64_MAX) as Hbd by (unfold off, fin, lend in *; lia).
  set (l := at_ rl a) in *. set (r := kmem_alloc (rl_heap rl)). set (R := proxy_for x (lend l - x) (lr_count l)).
  assert (rl_heap rl !! r = None) as Hr by apply kmem_alloc_fresh.
  assert (a <> r) as Har by (by apply alloc_ne).
  destruct (store_fresh rl X r R Hc Hr) as [Hc1 Hf1].
  assert (at_ (store rl r R) a = l) as Ea1 by (cbn; by rewrite node_insert_ne).
  destruct (proxify_ok (store rl r R) X a) as (rl2 & f & T0 & Epx & Hc2 & [Hf2 Ho2 Hn2 Hout Hs2 En2 [Hda2 Eo2]]); [done|done|by rewrite Ea1|].
  rewrite Epx. cbn [mbind result_bind]. rewrite Ea1 in En2, Eo2.
  assert (f ∈ elts rl2) as Hfin by (rewrite Hn2; by left).
  assert (r ∉ elts rl) as HrT by (intros Hin; destruct (tk_dom _ _ (cr_tree _ _ Hc) r Hin); congruence).
  destruct (fr_out _ _ Hf2 r) as [Hr2 HrT2]; [cbn; rewrite lookup_insert_eq; eauto|done|]. cbn in Hr2. rewrite lookup_insert_eq in Hr2.
  rewrite (core_load _ _ Hc2 f Hfin). cbn [mbind result_bind]. unfold load at 1. destruct Hda2 as [l2 Hl2]. rewrite Hl2. cbn [mbind result_bind].
  rewrite (node_Some _ _ _ Hl2) in Eo2. rewrite Eo2, sub64_small by (unfold u64, UINT64_MAX in *; lia).
  destruct (split_proxy rl2 X f r x Hc2 Hfin) as [Hc3 He3]; rewrite ?En2; cbn; try done.
  { rewrite (fr_held _ _ Hf2). intros Hin. destruct (core_held_in _ _ Hc r Hin). congruence. }
  rewrite En2 in Hc3, He3. cbn in Hc3, He3 |- *.
  eexists _, f, r, T0. split_and!; [done|exact Hc3|]. set (F := set_range _ _ _ _) in *.
  assert (frame rl rl2) as Hf02 by (by apply (frame_trans _ (store rl r R))).
  assert (forall n, n <> f -> <[f := F]> (rl_heap rl2) !! n = rl_heap rl2 !! n) as HF by (intros; by apply lookup_insert_ne).
  assert (r <> f) as Hrf by (by intros ->).
  split; cbn.
  - destruct Hf02 as [B1 B2 B3 B4]. split; try done; cbn.
    + intros n Hs Hn. destruct (B3 n Hs Hn) as [E1 Hn3]. rewrite HF by (by intros ->). split; [done|].
      rewrite He3, elem_of_cons. intros [->|?]; [|done]. rewrite Hr in Hs. by destruct Hs.
    + intros n Hn Hbn. destruct (B4 n Hn Hbn) as [E1 Hn3]. rewrite He3, elem_of_cons. split; [|by right].
      rewrite HF; [done|]. intros ->. rewrite (node_same _ _ _ E1) in En2. rewrite En2 in Hbn. done.
  - done.
  - by rewrite He3, Hn2.
  - intros n Hn. assert (n ∈ elts rl) as HnT by (rewrite Ho2; by right). pose proof (tk_NoDup _ _ (cr_tree _ _ Hc2)) as Hnd. rewrite Hn2 in Hnd.
    apply NoDup_cons in Hnd as [Hnf _]. rewrite HF, Hs2 by (done || by intros ->). cbn. apply lookup_insert_ne. by intros <-.
  - by rewrite node_insert.
  - rewrite node_insert_ne by done. by apply node_Some.
Qed.

(** [rangelock_new_proxy] for a gap at the end of the claim. *)
Record gap_filled (rl rl' : rangelock) (g : addr) (p q : Z) : Prop := {
  gf_frame : frame rl rl';
  gf_new : elts rl' ≡ₚ g :: elts rl;
  gf_same n : n ∈ elts rl -> rl_heap rl' !! n = rl_heap rl !! n;
  gf_node : at_ rl' g = proxy_for p (q - p) 1;
}.

Lemma new_proxy_ok rl s p q :
  core rl [(s, p)] -> s <= p -> range_ok p (q - p) ->
  (forall n, n ∈ elts rl -> fin (rl_heap rl) n <= p \/ q <= off (rl_heap rl) n) ->
  exists rl' g, rangelock_new_proxy rl p (q - p) = Ret rl' /\ core rl' [(s, q)] /\ gap_filled rl rl' g p q.
Proof using All.
  intros Hc Hs Hok Hgap. unfold rangelock_new_proxy.
  assert (negb (q - p =? 0) = true) as -> by (destruct Hok; apply negb_true_iff, Z.eqb_neq; lia). cbn [verify mbind result_bind].
  set (g := kmem_alloc (rl_heap rl)). set (G := proxy_for p (q - p) 1).
  assert (rl_heap rl !! g = None) as Hg by apply kmem_alloc_fresh.
  destruct (store_fresh rl _ g G Hc Hg) as [Hc1 Hf1]. set (rl1 := store rl g G) in *.
  assert (forall n, is_Some (rl_heap rl !! n) -> n <> g) as Hne by (intros n [? Hs'] ->; congruence).
  assert (forall n, n ∈ elts rl -> rl_heap rl1 !! n = rl_heap rl !! n) as Hsame.
  { intros n Hn. apply lookup_insert_ne, not_eq_sym, Hne, (tk_dom _ _ (cr_tree _ _ Hc) n Hn). }
  assert (at_ rl1 g = G) as EG by apply node_insert.
  destruct (tree_add_ok rl1 g) as (t' & Eadd & Htk & Hel); [apply Hc1|cbn; rewrite lookup_insert_eq; eauto|..].
  { intros n Hn. unfold off. rewrite EG, (node_same _ _ _ (Hsame n Hn)). destruct (core_ok _ _ Hc n Hn) as (? & _).
    specialize (Hgap n Hn). destruct Hok. unfold off, fin in *. cbn. lia. }
  rewrite Eadd. exists (set_tree rl1 t'), g. split; [done|]. split; [|split; try done].
  - apply (core_change rl1 _ [(s, p)] [(s, q)] [] (elts rl) [g]); try done; cbn.
    + intros k Hk _. destruct (cr_held _ _ Hc1 k Hk) as [H1 H2 H3 H4 H5]. split; try done. cbn in H5 |- *. rewrite Hel, elem_of_cons.
      destruct H5 as [[? ?]|(? & ? & ?)]; [left; auto|right]. split_and!; try tauto. intros [->|]; [|done].
      apply (Hne g); [apply (core_held_in _ _ Hc g Hk)|done].
    + intros n Hn. apply list_elem_of_singleton in Hn as ->. rewrite node_insert. done.
    + rewrite node_insert. apply tiled_gap; [apply (cr_tiled _ _ Hc1)|done..|].
      intros l Hl. apply list_elem_of_fmap in Hl as (n & -> & Hn). specialize (Hgap n Hn). fold rl1.
      change (node (<[g:=G]> (rl_heap rl)) n) with (at_ rl1 n). rewrite (node_same _ _ _ (Hsame n Hn)).
      unfold apart, lend, off, fin in *. cbn. lia.
  - destruct Hf1 as [B1 B2 B3 B4]. split; try done; cbn [rl_tree set_tree]; intros n Hn Hn'; rewrite Hel, elem_of_cons.
    + destruct (B3 n Hn Hn'). split; [done|]. intros [->|]; [by apply (Hne g)|done].
    + destruct (B4 n Hn Hn'). split; [done|by right].
Qed.

(** [lr_count++] of the proxy at the end of the claim. *)
Record counted (rl rl' : rangelock) (a : addr) : Prop := {
  ct_frame : frame rl rl';
  ct_elts : elts rl' = elts rl;
  ct_same n : n <> a -> rl_heap rl' !! n = rl_heap rl !! n;
  ct_node : at_ rl' a = set_count (at_ rl a) (lr_count (at_ rl a) + 1);
}.

Lemma incr_ok rl s a :
  core rl [(s, off (rl_heap rl) a)] -> a ∈ elts rl -> lr_proxy (at_ rl a) = true -> blocks_reader (at_ rl a) = false ->
  s <= off (rl_heap rl) a -> Z.of_nat (length (rl_held rl)) < 2 ^ 32 - 1 ->
  exists rl', incr_count rl a = Ret rl' /\ core rl' [(s, fin (rl_heap rl) a)] /\ counted rl rl' a.
Proof using All.
  intros Hc Ha Hp Hb Hs Hlen. destruct (core_split _ _ Hc a Ha) as (T0 & HT & HaT & Hsub & _ & Ht & _).
  destruct (core_node _ _ Hc a Ha) as (l & Hl & E & Hn). destruct (nt_proxy _ _ Hn) as (_ & Hcnt & _); [congruence|].
  cbn [app] in Hcnt. rewrite cover_cons, decide_False in Hcnt by (unfold meets, off; cbn; rewrite E; lia).
  pose proof (cover_nonneg (claims (rl_heap rl) (rl_held rl)) l). pose proof (length_claims (rl_heap rl) (rl_held rl)).
  unfold incr_count. rewrite (core_load _ _ Hc a Ha). cbn [mbind result_bind]. rewrite E. unfold wrap32. rewrite Z.mod_small by lia.
  set (l' := set_count l (lr_count l + 1)). eexists. split; [done|].
  assert (forall n, n <> a -> <[a := l']> (rl_heap rl) !! n = rl_heap rl !! n) as Hsame by (intros; by apply lookup_insert_ne).
  assert (a ∉ rl_held rl) as Hah.
  { intros Hin. rewrite (ho_proxy _ _ _ (cr_held _ _ Hc a Hin)) in Hp. done. }
  split; [|split; try done; cbn].
  - apply (core_change rl _ [(s, off (rl_heap rl) a)] _ [a] T0 [a]); try done; cbn.
    + apply (tk_heap (rl_heap rl)); [apply Hc|]. intros n Hn'. unfold off. destruct (decide (n = a)) as [->|Hne].
      * rewrite node_insert, lookup_insert_eq, E. split; [eauto|done].
      * rewrite node_insert_ne, Hsame by done. split; [|done]. apply (tk_dom _ _ (cr_tree _ _ Hc) n Hn').
    + intros n Hn'. apply Hsame. by intros ->.
    + intros g Hg _. assert (g <> a) as Hga by (by intros ->). destruct (cr_held _ _ Hc g Hg) as [G1 G2 G3 G4 G5].
      split; rewrite ?node_insert_ne, ?Hsame by done; done.
    + intros n Hn'. apply list_elem_of_singleton in Hn' as ->. rewrite node_insert. cbn. congruence.
    + rewrite node_insert. rewrite (claims_ext (rl_heap rl)); [|intros g Hg; apply node_insert_ne; by intros ->].
      rewrite E in Ht. unfold off in Ht, Hs. rewrite E in Ht, Hs, Hp. unfold fin. rewrite E. by apply (tiled_incr l).
  - split; try done; cbn; intros n Hn1 Hn2; (split; [|done]); apply Hsame; intros ->; [done|congruence].
  - by rewrite node_insert, E.
Qed.
End Kmem.
