(* ===== verification/RangeLockReader.v ===== *)
(** * Range locks: adding and removing a reader *)

From stdpp Require Import gmap.
From S2P Require Import Prelude Avl RangeLock RangeLockTree RangeLockTiles RangeLockInv.

Notation off_ rl := (off (rl_heap rl)).
Notation fin_ rl := (fin (rl_heap rl)).

(** Nothing in the range keeps readers away. *)
Definition clear_range (rl : rangelock) (lo hi : Z) : Prop :=
  forall n, n ∈ elts rl -> off_ rl n < hi -> lo < fin_ rl n -> blocks_reader (at_ rl n) = false.

(** The nodes from an offset on. *)
Definition ahead (rl : rangelock) (p : Z) : nat := length (filter (fun n => p <= off_ rl n) (elts rl)).

Definition few_held (rl : rangelock) : Prop := Z.of_nat (length (rl_held rl)) < 2 ^ 32 - 1.

Lemma off_same rl rl' n : rl_heap rl' !! n = rl_heap rl !! n -> off_ rl' n = off_ rl n /\ fin_ rl' n = fin_ rl n /\ at_ rl' n = at_ rl n.
Proof. intros H. unfold off, fin. by rewrite (node_same _ _ _ H). Qed.

(** ** Granting a handle *)

(** [frame], but for the handle that is being granted. *)
Record frame_but (new : addr) (rl rl' : rangelock) : Prop := {
  fb_pc : rl_pc rl' = rl_pc rl;
  fb_held : rl_held rl' = rl_held rl;
  fb_out a : a <> new -> is_Some (rl_heap rl !! a) -> a ∉ elts rl -> rl_heap rl' !! a = rl_heap rl !! a /\ a ∉ elts rl';
  fb_block a : a ∈ elts rl -> blocks_reader (at_ rl a) = true -> rl_heap rl' !! a = rl_heap rl !! a /\ a ∈ elts rl';
}.

Lemma frame_but_l new rl1 rl2 rl3 : frame rl1 rl2 -> frame_but new rl2 rl3 -> frame_but new rl1 rl3.
Proof.
  intros [A1 A2 A3 A4] [B1 B2 B3 B4]. split; [congruence..| |].
  - intros a Hne Ha Hn. destruct (A3 a Ha Hn) as [E Hn']. destruct (B3 a Hne) as [E' ?]; [by rewrite E|done|].
    split; [congruence|done].
  - intros a Ha Hb. destruct (A4 a Ha Hb) as [E Hn']. destruct (B4 a Hn') as [E' ?]; [|split; [congruence|done]].
    by rewrite (node_same _ _ _ E).
Qed.

Lemma frame_but_r new rl1 rl2 rl3 : frame_but new rl1 rl2 -> frame rl2 rl3 -> frame_but new rl1 rl3.
Proof.
  intros [A1 A2 A3 A4] [B1 B2 B3 B4]. split; [congruence..| |].
  - intros a Hne Ha Hn. destruct (A3 a Hne Ha Hn) as [E Hn']. destruct (B3 a) as [E' ?]; [by rewrite E|done|].
    split; [congruence|done].
  - intros a Ha Hb. destruct (A4 a Ha Hb) as [E Hn']. destruct (B4 a Hn') as [E' ?]; [|split; [congruence|done]].
    by rewrite (node_same _ _ _ E).
Qed.

(** The state of a handle that is not granted yet. *)
Record fresh_handle (rl : rangelock) (new : addr) (n : locked_range) : Prop := {
  fh_load : rl_heap rl !! new = Some n;
  fh_tree : new ∉ elts rl;
  fh_held : new ∉ rl_held rl;
  fh_ok : lr_ok n;
  fh_proxy : lr_proxy n = false;
  fh_count : lr_count n = 1;
  fh_type : lr_type n <> RL_APPEND;
  fh_write : lr_write_wanted n = false;
  fh_read : lr_read_wanted n = false;
}.

Definition grant (rl : rangelock) (new : addr) : rangelock := set_held rl (new :: rl_held rl).

(** It enters the tree, or is one more claim. *)
Lemma grant_plain rl new n t' :
  core rl [] -> fresh_handle rl new n -> (forall m, m ∈ elts rl -> apart n (at_ rl m)) ->
  tree_ok (rl_heap rl) t' -> elements t' ≡ₚ new :: elts rl -> core (grant (set_tree rl t') new) [].
Proof.
  intros Hc [Hl HnT HnH Hok Hp Hcnt Hty Hw Hr] Hap Htk Hel. pose proof (node_Some _ _ _ Hl) as E.
  split; cbn [grant set_held set_tree rl_heap rl_tree rl_held].
  - done.
  - rewrite claims_cons, decide_False by (rewrite E; lia). cbn [app].
    eapply tiled_perm; [|reflexivity|apply (tiled_add_plain n); [apply Hc|done..|congruence|]].
    + unfold nodes at 2. cbn. rewrite Hel. csimpl. by rewrite E.
    + intros l Hl'. apply list_elem_of_fmap in Hl' as (m & -> & Hm). auto.
  - apply NoDup_cons. split; [done|apply Hc].
  - intros g. rewrite elem_of_cons. intros [->|Hg].
    + split; rewrite ?E, ?Hl; try done. left. split; [done|]. rewrite Hel. by left.
    + destruct (cr_held _ _ Hc g Hg) as [H1 H2 H3 H4 H5]. split; try done. rewrite Hel, elem_of_cons.
      destruct H5 as [[? ?]|(? & ? & ?)]; [left; auto|right]. split_and!; try tauto. intros [->|]; done.
  - intros m. rewrite Hel, !elem_of_cons. intros [->|Hm] Hpm; [by left|right]. by apply (cr_plain _ _ Hc).
Qed.

Lemma grant_claim rl new n :
  core rl [(lr_offset n, lend n)] -> rl_heap rl !! new = Some n ->
  new ∉ elts rl -> new ∉ rl_held rl -> lr_ok n -> lr_proxy n = false -> lr_count n = 0 -> lr_type n = RL_READER ->
  lr_write_wanted n = false -> lr_read_wanted n = false -> core (grant rl new) [].
Proof.
  intros Hc Hl HnT HnH Hok Hp Hcnt Hty Hw Hr. pose proof (node_Some _ _ _ Hl) as E.
  split; cbn [grant set_held set_tree rl_heap rl_tree rl_held].
  - apply Hc.
  - rewrite claims_cons, decide_True by (by rewrite E). unfold claim. rewrite E. apply (cr_tiled _ _ Hc).
  - apply NoDup_cons. split; [done|apply Hc].
  - intros g. rewrite elem_of_cons. intros [->|Hg]; [|by apply Hc].
    split; rewrite ?E, ?Hl; try done; [congruence|]. right. done.
  - intros m Hm Hpm. right. by apply (cr_plain _ _ Hc).
Qed.

Section Kmem.
Context `{!RangeKmem}.

(** Proxify and count. *)
Record bumped (rl rl' : rangelock) (a p : addr) (T0 : list addr) : Prop := {
  bp_frame : frame rl rl';
  bp_old : elts rl ≡ₚ a :: T0;
  bp_new : elts rl' ≡ₚ p :: T0;
  bp_same n : n ∈ T0 -> rl_heap rl' !! n = rl_heap rl !! n;
  bp_off : off_ rl' p = off_ rl a;
  bp_fin : fin_ rl' p = fin_ rl a;
}.

Lemma bump_ok rl s a :
  core rl [(s, off_ rl a)] -> a ∈ elts rl -> blocks_reader (at_ rl a) = false -> s <= off_ rl a -> few_held rl ->
  exists rl1 p rl2 T0, rangelock_proxify rl a = Ret (rl1, p) /\ incr_count rl1 p = Ret rl2 /\
    core rl2 [(s, fin_ rl a)] /\ bumped rl rl2 a p T0.
Proof using All.
  intros Hc Ha Hb Hs Hlen. destruct (proxify_ok rl _ a Hc Ha Hb) as (rl1 & p & T0 & E1 & Hc1 & [Hf1 Ho1 Hn1 Hout Hs1 En1 _]).
  assert (off_ rl1 p = off_ rl a /\ fin_ rl1 p = fin_ rl a) as [Eo Ef] by (unfold off, fin; rewrite En1; done).
  assert (p ∈ elts rl1) as Hp by (rewrite Hn1; by left).
  destruct (incr_ok rl1 s p) as (rl2 & E2 & Hc2 & [Hf2 He2 Hs2 En2]); [by rewrite Eo|done|by rewrite En1|by rewrite En1|by rewrite Eo| |].
  { unfold few_held in Hlen. by rewrite (fr_held _ _ Hf1). }
  exists rl1, p, rl2, T0. rewrite Ef in Hc2. split_and!; [done..|]. split.
  - by apply (frame_trans _ rl1).
  - done.
  - by rewrite He2.
  - intros n Hn. rewrite Hs2, Hs1; [done..|]. intros ->. pose proof (tk_NoDup _ _ (cr_tree _ _ Hc1)) as Hnd. rewrite Hn1 in Hnd.
    by apply NoDup_cons in Hnd as [? _].
  - unfold off. rewrite En2, En1. done.
  - unfold fin. rewrite En2, En1. done.
Qed.

(** Split and count the front. *)
Lemma bump_split_ok rl s a x :
  core rl [(s, off_ rl a)] -> a ∈ elts rl -> blocks_reader (at_ rl a) = false -> s <= off_ rl a -> few_held rl ->
  off_ rl a < x < fin_ rl a ->
  exists rl1 p rl2, rangelock_split rl a x = Ret (rl1, p) /\ incr_count rl1 p = Ret rl2 /\ core rl2 [(s, x)] /\ frame rl rl2.
Proof using All.
  intros Hc Ha Hb Hs Hlen Hx. destruct (split_ok rl _ a x Hc Ha Hb) as (rl1 & f & r & T0 & E1 & Hc1 & [Hf1 Ho1 Hn1 Hs1 Ef1 Er1]); [done|].
  assert (off_ rl1 f = off_ rl a /\ fin_ rl1 f = x) as [Eo Ef] by (unfold off, fin; rewrite Ef1; cbn; split; [done|lia]).
  assert (f ∈ elts rl1) as Hp by (rewrite Hn1; right; by left).
  destruct (incr_ok rl1 s f) as (rl2 & E2 & Hc2 & [Hf2 _ _ _]); [by rewrite Eo|done|by rewrite Ef1|by rewrite Ef1|by rewrite Eo| |].
  { unfold few_held in Hlen. by rewrite (fr_held _ _ Hf1). }
  exists rl1, f, rl2. rewrite Ef in Hc2. split_and!; [done..|]. by apply (frame_trans _ rl1).
Qed.

(** The gap before the next node, if there is one. *)
Lemma gap_ok rl s p prev nx :
  core rl [(s, p)] -> 0 <= s <= p -> nx ∈ elts rl ->
  match prev with
  | None => off_ rl nx = p
  | Some pv => pv ∈ elts rl /\ fin_ rl pv = p /\ first_after (rl_heap rl) (rl_tree rl) (off_ rl pv) (Some nx)
  end ->
  exists rl' D,
    match prev with
    | None => Ret rl
    | Some pv =>
        p ← load rl pv;
        if lr_end p <? off_ rl nx then rangelock_new_proxy rl (lr_end p) (sub64 (off_ rl nx) (lr_end p)) else Ret rl
    end = Ret rl' /\
    core rl' [(s, off_ rl nx)] /\ frame rl rl' /\ p <= off_ rl nx /\ elts rl' ≡ₚ D ++ elts rl /\
    (forall n, n ∈ elts rl -> rl_heap rl' !! n = rl_heap rl !! n) /\
    (forall g, g ∈ D -> off_ rl' g < off_ rl nx /\ fin_ rl' g = off_ rl nx).
Proof using All.
  intros Hc Hs Hnx Hprev. destruct (core_ok _ _ Hc nx Hnx) as (Hx1 & Hx2 & _).
  destruct prev as [pv|].
  2: { subst p. exists rl, []. split_and!; auto using frame_refl; [lia|]. by intros g Hg%elem_of_nil. }
  destruct Hprev as (Hpv & Hfin & _ & Hlt & Hfirst). destruct (core_ok _ _ Hc pv Hpv) as (Hp1 & Hp2 & El & Ee).
  assert (p <= off_ rl nx) as Hle.
  { destruct (core_apart _ _ Hc pv nx Hpv Hnx) as [H1|H1]; [by intros ->; lia|unfold off in *; lia|].
    destruct (core_ok _ _ Hc nx Hnx) as (_ & _ & El' & _). unfold off, fin in *. lia. }
  rewrite (core_load _ _ Hc pv Hpv). cbn [mbind result_bind]. rewrite Ee, Hfin. destruct (Z.ltb_spec p (off_ rl nx)) as [Hgap|Hno].
  - rewrite sub64_small by (unfold u64, UINT64_MAX in *; lia).
    destruct (new_proxy_ok rl s p (off_ rl nx)) as (rl' & g & E & Hc' & [Hf Hn Hsm Eg]); [done|lia|unfold range_ok; lia|..].
    { intros n Hn. destruct (Z_lt_le_dec (off_ rl pv) (off_ rl n)) as [H1|H1]; [right; by apply Hfirst|left].
      destruct (decide (n = pv)) as [->|Hne]; [lia|]. destruct (core_ok _ _ Hc n Hn) as (_ & _ & El' & _).
      destruct (core_apart _ _ Hc n pv Hn Hpv Hne) as [H2|H2]; unfold off, fin in *; lia. }
    exists rl', [g]. split_and!; try done. intros k Hk. apply list_elem_of_singleton in Hk as ->.
    assert (off_ rl' g = p /\ fin_ rl' g = p + (off_ rl nx - p)) as [-> ->] by (unfold off at 1, fin; by rewrite Eg). lia.
  - assert (p = off_ rl nx) as -> by lia. exists rl, []. split_and!; auto using frame_refl. by intros g Hg%elem_of_nil.
Qed.

Lemma rest_ok rl s p e pv :
  core rl [(s, p)] -> 0 <= s <= p -> p < e <= UINT64_MAX -> pv ∈ elts rl -> fin_ rl pv = p ->
  (forall n, n ∈ elts rl -> off_ rl pv < off_ rl n -> e <= off_ rl n) ->
  exists rl', (p ← load rl pv; rangelock_new_proxy rl (lr_end p) (sub64 e (lr_end p))) = Ret rl' /\ core rl' [(s, e)] /\ frame rl rl'.
Proof using All.
  intros Hc Hs He Hpv Hfin Hfirst. destruct (core_ok _ _ Hc pv Hpv) as (Hp1 & Hp2 & El & Ee).
  rewrite (core_load _ _ Hc pv Hpv). cbn [mbind result_bind]. rewrite Ee, Hfin, sub64_small by (unfold u64, UINT64_MAX in *; lia).
  destruct (new_proxy_ok rl s p e) as (rl' & g & E & Hc' & [Hf _ _ _]); [done|lia|unfold range_ok; lia|..|by exists rl'].
  intros n Hn. destruct (Z_lt_le_dec (off_ rl pv) (off_ rl n)) as [H1|H1]; [right; by apply Hfirst|left].
  destruct (decide (n = pv)) as [->|Hne]; [lia|]. destruct (core_ok _ _ Hc n Hn) as (_ & _ & El' & _).
  destruct (core_apart _ _ Hc n pv Hn Hpv Hne) as [H2|H2]; unfold off, fin in *; lia.
Qed.

(** The nodes ahead, after the next one has been dealt with. *)
Lemma ahead_bumped rl1 rl2 rl nx a D T0 p :
  elts rl1 ≡ₚ D ++ elts rl -> (forall n, n ∈ elts rl -> rl_heap rl1 !! n = rl_heap rl !! n) ->
  (forall g, g ∈ D -> off_ rl1 g < off_ rl nx) ->
  bumped rl1 rl2 nx a T0 -> nx ∈ elts rl -> p <= off_ rl nx < fin_ rl nx ->
  (ahead rl2 (fin_ rl nx) < ahead rl p)%nat.
Proof using All.
  intros HD Hsame HDo [_ Ho Hn Hs Eo Ef] Hnx Hp.
  destruct (off_same rl rl1 nx (Hsame nx Hnx)) as (Eo1 & Ef1 & _). set (F := fin_ rl nx) in *.
  assert (ahead rl2 F <= length (filter (fun n => F <= off_ rl1 n)%Z (elts rl1)))%nat as H1.
  { unfold ahead. rewrite Hn, Ho, !filter_cons_False by (rewrite ?Eo, ?Eo1; lia). apply length_filter_mono.
    intros n Hn'. by destruct (off_same _ _ _ (Hs n Hn')) as (-> & _). }
  assert (length (filter (fun n => F <= off_ rl1 n)%Z (elts rl1)) <= length (filter (fun n => F <= off_ rl n)%Z (elts rl)))%nat as H2.
  { rewrite HD, filter_app, (filter_none _ (fun g => off_ rl1 g < off_ rl nx)); [|by apply Forall_forall|intros; lia].
    apply length_filter_mono. intros n Hn'. by destruct (off_same _ _ _ (Hsame n Hn')) as (-> & _). }
  assert (length (filter (fun n => F <= off_ rl n)%Z (elts rl)) < ahead rl p)%nat as H3; [|lia].
  unfold ahead. apply list_elem_of_split in Hnx as (k1 & k2 & ->). rewrite !filter_app, !filter_cons, !length_app.
  rewrite decide_False, decide_True by lia. cbn [length].
  assert (forall k, length (filter (fun n => F <= off_ rl n)%Z k) <= length (filter (fun n => p <= off_ rl n)%Z k))%nat as Hk.
  { intros k. apply length_filter_mono. intros; lia. }
  pose proof (Hk k1). pose proof (Hk k2). lia.
Qed.

(** What is left of the range after the next node is clear, too. *)
Lemma clear_bumped rl1 rl2 rl nx a D T0 p e :
  elts rl1 ≡ₚ D ++ elts rl -> (forall n, n ∈ elts rl -> rl_heap rl1 !! n = rl_heap rl !! n) ->
  (forall g, g ∈ D -> fin_ rl1 g <= off_ rl nx) ->
  bumped rl1 rl2 nx a T0 -> nx ∈ elts rl -> p <= off_ rl nx < fin_ rl nx ->
  clear_range rl p e -> clear_range rl2 (fin_ rl nx) e.
Proof using All.
  intros HD Hsame HDf [_ Ho Hn Hs Eo Ef] Hnx Hp Hcl n Hn' Hlt Hgt.
  destruct (off_same rl rl1 nx (Hsame nx Hnx)) as (Eo1 & Ef1 & _).
  rewrite Hn, elem_of_cons in Hn'. destruct Hn' as [->|Hn']; [rewrite Ef, Ef1 in Hgt; lia|].
  destruct (off_same _ _ _ (Hs n Hn')) as (E1 & E2 & E3). rewrite E1, E2, E3 in *.
  assert (n ∈ D ++ elts rl) as Hin by (rewrite <- HD, Ho; by right).
  apply elem_of_app in Hin as [Hin|Hin]; [specialize (HDf n Hin); lia|].
  destruct (off_same _ _ _ (Hsame n Hin)) as (E4 & E5 & E6). rewrite E4, E5, E6 in *. apply Hcl; [done|lia..].
Qed.

Lemma add_loop_ok fuel rl s len e p prev next :
  core rl [(s, p)] -> 0 <= s <= p -> p < e <= UINT64_MAX -> add64 s len = e -> few_held rl -> clear_range rl p e ->
  match prev with
  | None => exists nx, next = Some nx /\ nx ∈ elts rl /\ off_ rl nx = p
  | Some pv => pv ∈ elts rl /\ fin_ rl pv = p /\ first_after (rl_heap rl) (rl_tree rl) (off_ rl pv) next
  end ->
  (ahead rl p < fuel)%nat ->
  exists rl', add_loop fuel rl s len prev next = Ret rl' /\ core rl' [(s, e)] /\ frame rl rl'.
Proof using All.
  intros Hc Hs He Elen. revert rl p prev next Hc Hs He.
  induction fuel as [|fuel IH]; intros rl p prev next Hc Hs He Hlen Hcl Hprev Hfuel; [lia|]. cbn [add_loop]. rewrite Elen.
  destruct next as [nx|].
  2: { destruct prev as [pv|]; [|by destruct Hprev as (? & ? & _)]. destruct Hprev as (Hpv & Hfin & Hnone).
       apply (rest_ok rl s p e pv); try done. intros n Hn Hlt. cbn in Hnone. specialize (Hnone n Hn). lia. }
  assert (nx ∈ elts rl) as Hnx.
  { destruct prev as [pv|]; [by destruct Hprev as (_ & _ & ? & _)|by destruct Hprev as (? & [= ->] & ? & _)]. }
  rewrite (core_load _ _ Hc nx Hnx). cbn [mbind result_bind]. change (lr_offset (at_ rl nx)) with (off_ rl nx).
  destruct (Z.leb_spec e (off_ rl nx)) as [Hle|Hgt].
  { destruct prev as [pv|]; [|destruct Hprev as (? & [= ->] & _ & ?); lia]. destruct Hprev as (Hpv & Hfin & _ & _ & Hfirst).
    apply (rest_ok rl s p e pv); try done. intros n Hn Hlt. specialize (Hfirst n Hn Hlt). lia. }
  destruct (gap_ok rl s p prev nx Hc Hs Hnx) as (rl1 & D & E1 & Hc1 & Hf1 & Hpx & HD & Hsame & HDo).
  { destruct prev as [pv|]; [done|by destruct Hprev as (? & [= ->] & _ & ?)]. }
  rewrite E1. cbn [mbind result_bind]. destruct (core_ok _ _ Hc nx Hnx) as (Hx1 & Hx2 & _ & Ee). rewrite Ee.
  destruct (off_same _ _ _ (Hsame nx Hnx)) as (Eo & Ef & Ea).
  assert (nx ∈ elts rl1) as Hnx1 by (rewrite HD; apply elem_of_app; by right).
  assert (blocks_reader (at_ rl1 nx) = false) as Hb by (rewrite Ea; apply Hcl; [done|lia..]).
  assert (few_held rl1) as Hlen1 by (unfold few_held in *; by rewrite (fr_held _ _ Hf1)).
  assert (s <= off_ rl1 nx) as Hs1 by lia. rewrite <- Eo in Hc1.
  destruct (Z.ltb_spec e (fin_ rl nx)) as [Hin|Hout].
  { rewrite (proj2 (Z.eqb_neq _ _)) by lia.
    destruct (bump_split_ok rl1 s nx e) as (rl2 & q & rl3 & -> & Ei & Hc3 & Hf3); [done..|lia|]. cbn [mbind result_bind].
    exists rl3. split_and!; [done..|]. by apply (frame_trans _ rl1). }
  destruct (bump_ok rl1 s nx) as (rl2 & q & rl3 & T0 & -> & Ei & Hc3 & Hb3); [done..|]. cbn [mbind result_bind]. rewrite Ei.
  assert (frame rl rl3) as Hf3 by (apply (frame_trans _ rl1), Hb3; done). rewrite Ef in Hc3.
  destruct (Z.eqb_spec e (fin_ rl nx)) as [->|Hne]; [by exists rl3|].
  rewrite (proj2 (Z.ltb_lt _ _)) by lia. cbn [verify mbind result_bind].
  assert (q ∈ elts rl3) as Hq by (rewrite (bp_new _ _ _ _ _ Hb3); by left).
  destruct (IH rl3 (fin_ rl nx) (Some q) (AVL_NEXT (rl_tree rl3) q)) as (rl' & E' & Hc' & Hf'); [done|lia|lia|..].
  - unfold few_held in *. by rewrite (fr_held _ _ Hf3).
  - apply (clear_bumped rl1 rl3 rl nx q D T0 p e); try done; [intros g Hg; apply HDo in Hg; lia|lia].
  - split_and!; [done|by rewrite (bp_fin _ _ _ _ _ Hb3)|]. apply (tk_next _ _ (cr_tree _ _ Hc3)). done.
  - pose proof (ahead_bumped rl1 rl3 rl nx q D T0 p HD Hsame) as Hah. apply Nat.lt_le_trans with (ahead rl p); [|lia].
    apply Hah; try done; [intros g Hg; by apply HDo|lia].
  - exists rl'. split_and!; [done..|]. by apply (frame_trans _ rl3).
Qed.

Lemma core_empty rl p : core rl [(p, p)] <-> core rl [].
Proof. split; intros [H1 H2 H3 H4 H5]; (split; try done); apply (tiled_empty _ _ p); done. Qed.

(** The proxy for what comes before the first overlap. *)
Lemma first_gap_ok rl o nx :
  core rl [] -> 0 <= o <= off_ rl nx -> nx ∈ elts rl ->
  (forall m, m ∈ elts rl -> off_ rl m < off_ rl nx -> fin_ rl m <= o) ->
  exists rl1 D, (if o <? off_ rl nx then rangelock_new_proxy rl o (sub64 (off_ rl nx) o) else Ret rl) = Ret rl1 /\
    core rl1 [(o, off_ rl nx)] /\ frame rl rl1 /\ elts rl1 ≡ₚ D ++ elts rl /\
    (forall m, m ∈ elts rl -> rl_heap rl1 !! m = rl_heap rl !! m) /\ (forall g, g ∈ D -> fin_ rl1 g = off_ rl nx).
Proof using All.
  intros Hc Ho Hnx Hbefore. destruct (core_ok _ _ Hc nx Hnx) as (Hx1 & Hx2 & _).
  apply (core_empty rl o) in Hc. destruct (Z.ltb_spec o (off_ rl nx)) as [Hlt|Hge].
  - rewrite sub64_small by (unfold u64, UINT64_MAX in *; lia).
    destruct (new_proxy_ok rl o o (off_ rl nx)) as (rl1 & g & E & Hc1 & [Hf Hn Hsm Eg]); [done|lia|unfold range_ok; lia|..].
    { intros m Hm. destruct (Z_lt_le_dec (off_ rl m) (off_ rl nx)); [left; by apply Hbefore|by right]. }
    exists rl1, [g]. split_and!; try done. intros k Hk. apply list_elem_of_singleton in Hk as ->.
    unfold fin. rewrite Eg. cbn -[off Z.add Z.sub]. lia.
  - assert (off_ rl nx = o) as -> by lia. exists rl, []. split_and!; auto using frame_refl. by intros g Hg%elem_of_nil.
Qed.

(** The handle overlaps the node [nx], and none before it. *)
Lemma add_overlap rl new n nx e :
  core rl [] -> fresh_handle rl new n -> lr_type n = RL_READER -> few_held rl ->
  e = lend n -> clear_range rl (lr_offset n) e ->
  nx ∈ elts rl -> lr_offset n <= off_ rl nx < e ->
  (forall m, m ∈ elts rl -> off_ rl m < off_ rl nx -> fin_ rl m <= lr_offset n) ->
  exists rl',
    (rl ← (if lr_offset n <? off_ rl nx then rangelock_new_proxy rl (lr_offset n) (sub64 (off_ rl nx) (lr_offset n)) else Ret rl);
     n' ← load rl new;
     let rl := store rl new (set_count n' 0) in
     add_loop (S (length (elts rl))) rl (lr_offset n) (lr_length n) None (Some nx)) = Ret rl' /\
    core (grant rl' new) [] /\ frame_but new rl rl' /\ rl_heap rl' !! new = Some (set_count n 0).
Proof using All.
  intros Hc [Hl HnT HnH Hok Hp Hcnt Hty Hw Hr] Hrd Hlen -> Hcl Hnx Ho Hbefore. destruct Hok as (Hok1 & Hok2 & Hok3).
  set (o := lr_offset n) in *. destruct (core_ok _ _ Hc nx Hnx) as (Hx1 & Hx2 & _).
  destruct (first_gap_ok rl o nx Hc ltac:(lia) Hnx Hbefore) as (rl1 & D & E1 & Hc1 & Hf1 & HD & Hsame & HDf).
  rewrite E1. cbn [mbind result_bind]. destruct (fr_out _ _ Hf1 new) as [Hl1 HnT1]; [eauto|done|]. rewrite Hl in Hl1.
  rewrite (load_Some _ _ _ Hl1). cbn [mbind result_bind]. set (rl2 := store rl1 new (set_count n 0)).
  assert (forall m, m <> new -> rl_heap rl2 !! m = rl_heap rl1 !! m) as Hs2 by (intros; by apply lookup_insert_ne).
  assert (new ∉ rl_held rl1) as HnH1 by (by rewrite (fr_held _ _ Hf1)).
  assert (core rl2 [(o, off_ rl nx)]) as Hc2.
  { apply (core_other rl1); try done. intros m Hm. apply Hs2. intros ->. tauto. }
  assert (frame_but new rl rl2) as Hf2.
  { apply (frame_but_l _ _ rl1); [done|]. split; try done.
    - intros a Hne Ha Hn. split; [by apply Hs2|done].
    - intros a Ha _. split; [|done]. apply Hs2. by intros ->. }
  assert (forall m, m ∈ elts rl -> rl_heap rl2 !! m = rl_heap rl !! m) as Hsame2.
  { intros m Hm. rewrite Hs2 by (by intros ->). auto. }
  destruct (off_same _ _ _ (Hsame2 nx Hnx)) as (Eo2 & _).
  destruct (add_loop_ok (S (length (elts rl2))) rl2 o (lr_length n) (lend n) (off_ rl nx) None (Some nx)) as (rl' & E' & Hc' & Hf');
    [done|lia|unfold lend in *; lia|..].
  - apply lr_ok_end. by split_and!.
  - unfold few_held in *. cbn. by rewrite (fr_held _ _ Hf1).
  - intros m Hm Hlt Hgt. assert (m ∈ D ++ elts rl) as Hin by (by rewrite <- HD). assert (m <> new) as Hmn by (by intros ->).
    destruct (off_same _ _ _ (Hs2 m Hmn)) as (Ea & Eb & Ec). apply elem_of_app in Hin as [Hin|Hin]; [apply HDf in Hin; lia|].
    destruct (off_same _ _ _ (Hsame2 m Hin)) as (E4 & E5 & E6). rewrite E4, E5, E6 in *. apply Hcl; [done|lia..].
  - exists nx. split_and!; [done| |done]. cbn. rewrite HD. apply elem_of_app. by right.
  - unfold ahead. pose proof (length_filter (fun m => off_ rl nx <= off_ rl2 m) (elts rl2)). lia.
  - exists rl'. split; [done|]. destruct (fr_out _ _ Hf' new) as [Hl' HnT']; [cbn; rewrite lookup_insert_eq; eauto|done|].
    cbn in Hl'. rewrite lookup_insert_eq in Hl'. split_and!; [|by apply (frame_but_r _ _ rl2)|done].
    apply (grant_claim _ _ (set_count n 0)); try done. by rewrite (fr_held _ _ Hf').
Qed.

(** What [rangelock_enter_reader] knows of the place for the offset [o]. *)
Definition reader_place (rl : rangelock) (o : Z) (prev : option addr) (where_ : option (path addr)) : Prop :=
  match where_ with
  | None => exists pv, prev = Some pv /\ pv ∈ elts rl /\ off_ rl pv = o
  | Some w => place_at (rl_heap rl) (rl_tree rl) w o /\ prev = avl_nearest (rl_tree rl) w false
  end.

(** Nodes that start before [pv] end before it starts. *)
Lemma core_below rl X pv m : core rl X -> pv ∈ elts rl -> m ∈ elts rl -> off_ rl m < off_ rl pv -> fin_ rl m <= off_ rl pv.
Proof.
  intros Hc Hpv Hm Hlt. destruct (core_ok _ _ Hc m Hm) as (? & _ & El & _), (core_ok _ _ Hc pv Hpv) as (? & _ & El' & _).
  destruct (core_apart _ _ Hc m pv Hm Hpv) as [Hd|Hd]; [by intros ->; lia|..]; unfold off, fin in *; lia.
Qed.

(** No node that starts before [o] reaches it. *)
Lemma place_left rl X w o :
  core rl X -> place_at (rl_heap rl) (rl_tree rl) w o ->
  match avl_nearest (rl_tree rl) w false with None => True | Some pv => fin_ rl pv <= o end ->
  forall m, m ∈ elts rl -> off_ rl m <= o -> off_ rl m < o /\ fin_ rl m <= o.
Proof.
  intros Hc Hw Hpv m Hm Hle. destruct (tk_nearest _ _ (cr_tree _ _ Hc) o w Hw) as [_ Hlast].
  assert (off_ rl m <> o) as Hne.
  { destruct Hw as (Hh & H1 & H2). rewrite (hole_elements _ _ Hh) in Hm. apply elem_of_app in Hm as [Hm|Hm]; [apply H1 in Hm|apply H2 in Hm]; lia. }
  split; [lia|]. destruct (avl_nearest _ _ _) as [pv|]; cbn in Hlast; [|specialize (Hlast m Hm); lia].
  destruct Hlast as (Hin & Hlt & Hmax). specialize (Hmax m Hm ltac:(lia)).
  destruct (decide (m = pv)) as [->|Hne']; [done|]. destruct (core_ok _ _ Hc pv Hin) as (? & _).
  assert (off_ rl m <> off_ rl pv) by (intros E; by apply Hne', (tk_inj _ _ (cr_tree _ _ Hc))).
  pose proof (core_below rl X pv m Hc Hin Hm ltac:(lia)). lia.
Qed.

(** Nothing overlaps from the left. *)
Lemma add_after rl new n w :
  core rl [] -> fresh_handle rl new n -> lr_type n = RL_READER -> few_held rl -> clear_range rl (lr_offset n) (lend n) ->
  place_at (rl_heap rl) (rl_tree rl) w (lr_offset n) ->
  (forall m, m ∈ elts rl -> off_ rl m <= lr_offset n -> off_ rl m < lr_offset n /\ fin_ rl m <= lr_offset n) ->
  exists rl' c,
    (over ← check rl (avl_nearest (rl_tree rl) w true) (fun x => negb (add64 (lr_offset n) (lr_length n) <=? lr_offset x));
     match over with
     | None => Ret (set_tree rl (avl_insert (rl_tree rl) new w))
     | Some nx =>
         x ← load rl nx;
         rl ← (if lr_offset n <? lr_offset x then rangelock_new_proxy rl (lr_offset n) (sub64 (lr_offset x) (lr_offset n)) else Ret rl);
         n' ← load rl new;
         let rl := store rl new (set_count n' 0) in
         add_loop (S (length (elts rl))) rl (lr_offset n) (lr_length n) None (Some nx)
     end) = Ret rl' /\
    core (grant rl' new) [] /\ frame_but new rl rl' /\ rl_heap rl' !! new = Some (set_count n c).
Proof using All.
  intros Hc Hn Hrd Hlen Hcl Hw Hleft. pose proof Hn as [Hl HnT HnH Hok Hp Hcnt Hty Hww Hr].
  destruct (tk_nearest _ _ (cr_tree _ _ Hc) _ w Hw) as [Hfirst _].
  rewrite lr_ok_end by done.
  assert ((forall m, m ∈ elts rl -> lr_offset n < off_ rl m -> lend n <= off_ rl m) ->
    core (grant (set_tree rl (avl_insert (rl_tree rl) new w)) new) [] /\ frame_but new rl (set_tree rl (avl_insert (rl_tree rl) new w)))
    as Hplain.
  { intros Hright. destruct (tk_insert _ _ (cr_tree _ _ Hc) new w) as [Htk Hel]; [eauto|unfold off; by rewrite (node_Some _ _ _ Hl)|].
    split; [apply (grant_plain _ _ n); try done|].
    - intros m Hm. unfold apart. destruct (core_ok _ _ Hc m Hm) as (_ & _ & El & _). rewrite El.
      destruct (Z_lt_le_dec (lr_offset n) (off_ rl m)); [left; by apply Hright|right; by apply Hleft].
    - split; try done; cbn [set_tree rl_tree rl_heap]; intros a; rewrite Hel, elem_of_cons.
      + intros Hne Ha Hna. split; [done|]. intros [->|]; done.
      + auto. }
  destruct (avl_nearest (rl_tree rl) w true) as [nx|]; cbn [check].
  - destruct Hfirst as (Hnx & Hlt & Hmin). rewrite (core_load _ _ Hc nx Hnx). cbn [mbind result_bind].
    change (lr_offset (at_ rl nx)) with (off_ rl nx). destruct (Z.leb_spec (lend n) (off_ rl nx)) as [Hle|Hgt]; cbn [negb].
    + exists (set_tree rl (avl_insert (rl_tree rl) new w)), 1. split; [done|]. destruct Hplain as [H1 H2].
      { intros m Hm Hm'. specialize (Hmin m Hm Hm'). lia. }
      split_and!; [done..|]. cbn. rewrite Hl. by destruct n; cbn in *; subst.
    + rewrite (core_load _ _ Hc nx Hnx). cbn [mbind result_bind]. change (lr_offset (at_ rl nx)) with (off_ rl nx).
      destruct (add_overlap rl new n nx (lend n)) as (rl' & E & H1 & H2 & H3); try done; [lia|..].
      { intros m Hm Hm'. apply Hleft; [done|]. destruct (Z_lt_le_dec (lr_offset n) (off_ rl m)) as [Hx|]; [|done]. specialize (Hmin m Hm Hx). lia. }
      exists rl', 0. done.
  - exists (set_tree rl (avl_insert (rl_tree rl) new w)), 1. split; [done|]. destruct Hplain as [H1 H2].
    { intros m Hm Hm'. specialize (Hfirst m Hm). lia. }
    split_and!; [done..|]. cbn. rewrite Hl. by destruct n; cbn in *; subst.
Qed.

(** A handle on the same place in a state that differs in the tree only. *)
Lemma fresh_frame rl rl' new n : fresh_handle rl new n -> frame rl rl' -> fresh_handle rl' new n.
Proof.
  intros [Hl HnT HnH] [_ Hh Ho _]. destruct (Ho new) as [E ?]; [eauto|done|]. split; try done; [by rewrite E|by rewrite Hh].
Qed.

Lemma few_frame rl rl' : few_held rl -> frame rl rl' -> few_held rl'.
Proof. intros Hw [_ Hh _ _]. unfold few_held in *. by rewrite Hh. Qed.

Lemma clear_split rl rl' a f r x T0 lo hi : splitted rl rl' a f r x T0 -> clear_range rl lo hi -> clear_range rl' lo hi.
Proof.
  intros [_ Ho Hn Hs Ef Er] Hcl m Hm Hlt Hgt. rewrite Hn, !elem_of_cons in Hm. destruct Hm as [->|[->|Hm]]; [by rewrite Er|by rewrite Ef|].
  destruct (off_same _ _ _ (Hs m Hm)) as (E1 & E2 & E3). rewrite E1, E2, E3 in *. apply Hcl; [|done..]. rewrite Ho. by right.
Qed.

(** The node to start from is cut at [o], where the range begins. *)
Lemma add_split_ok rl pv o :
  core rl [] -> pv ∈ elts rl -> blocks_reader (at_ rl pv) = false -> off_ rl pv < o < fin_ rl pv ->
  exists rl1 f r T0, rangelock_split rl pv o = Ret (rl1, f) /\ core rl1 [] /\ splitted rl rl1 pv f r o T0 /\
    AVL_NEXT (rl_tree rl1) f = Some r /\ r ∈ elts rl1 /\ off_ rl1 r = o /\
    (forall m, m ∈ elts rl1 -> off_ rl1 m < o -> fin_ rl1 m <= o).
Proof using All.
  intros Hc Hpv Hb Hx. destruct (split_ok rl [] pv o Hc Hpv Hb Hx) as (rl1 & f & r & T0 & E & Hc1 & Hs).
  pose proof Hs as [Hf Ho Hn Hsm Ef Er]. exists rl1, f, r, T0.
  assert (r ∈ elts rl1 /\ f ∈ elts rl1) as [Hr Hf'] by (rewrite Hn; split; [by left|right; by left]).
  assert (off_ rl1 r = o /\ off_ rl1 f = off_ rl pv) as [Eor Eof] by (unfold off; rewrite Er, Ef; done).
  assert (forall m, m ∈ elts rl1 -> off_ rl1 m < o -> fin_ rl1 m <= o) as Hbelow by (intros m Hm Hlt; rewrite <- Eor in *; by apply (core_below rl1 [])).
  split_and!; try done. pose proof (tk_next _ _ (cr_tree _ _ Hc1) f Hf') as Hnext.
  destruct (AVL_NEXT (rl_tree rl1) f) as [m|]; cbn in Hnext; [|specialize (Hnext r Hr); lia].
  destruct Hnext as (Hm & Hlt & Hmin). specialize (Hmin r Hr ltac:(lia)). f_equal.
  destruct (Z_lt_le_dec (off_ rl1 m) o) as [Hmo|]; [|by apply (tk_inj _ _ (cr_tree _ _ Hc1)); [done..|lia]].
  assert (m <> f) as Hmf by (intros ->; lia). destruct (core_ok _ _ Hc1 f Hf') as (? & _ & Elf & _), (core_ok _ _ Hc1 m Hm) as (? & _ & Elm & _).
  assert (fin_ rl1 f = o) as Eff by (unfold fin; rewrite Ef; cbn; lia).
  destruct (core_apart _ _ Hc1 m f Hm Hf' Hmf) as [Hd|Hd]; unfold off, fin in *; lia.
Qed.

Lemma add_reader_ok rl new n prev where_ :
  core rl [] -> fresh_handle rl new n -> lr_type n = RL_READER -> few_held rl -> clear_range rl (lr_offset n) (lend n) ->
  reader_place rl (lr_offset n) prev where_ ->
  exists rl' c, rangelock_add_reader rl new prev where_ = Ret rl' /\
    core (grant rl' new) [] /\ frame_but new rl rl' /\ rl_heap rl' !! new = Some (set_count n c).
Proof using All.
  intros Hc Hn Hrd Hlen Hcl Hpl. pose proof Hn as [Hl HnT HnH Hok Hp Hcnt Hty Hww Hr].
  assert (lr_offset n < lend n) as Hne by (destruct Hok as (? & ? & ?); unfold lend; lia).
  unfold rangelock_add_reader. rewrite (load_Some _ _ _ Hl). cbn [mbind result_bind].
  assert (forall rl1 nx, core rl1 [] -> frame rl rl1 -> clear_range rl1 (lr_offset n) (lend n) -> nx ∈ elts rl1 -> off_ rl1 nx = lr_offset n ->
    exists rl' c, (_ ← (p ← load rl1 nx; verify (lr_offset p =? lr_offset n));
      over ← check rl1 (Some nx) (fun x => negb (add64 (lr_offset n) (lr_length n) <=? lr_offset x));
      match over, where_ with
      | None, Some w => Ret (set_tree rl1 (avl_insert (rl_tree rl1) new w))
      | None, None => Panic
      | Some nx, _ =>
          x ← load rl1 nx;
          rl ← (if lr_offset n <? lr_offset x then rangelock_new_proxy rl1 (lr_offset n) (sub64 (lr_offset x) (lr_offset n)) else Ret rl1);
          n' ← load rl new;
          let rl := store rl new (set_count n' 0) in
          add_loop (S (length (elts rl))) rl (lr_offset n) (lr_length n) None (Some nx)
      end) = Ret rl' /\ core (grant rl' new) [] /\ frame_but new rl rl' /\ rl_heap rl' !! new = Some (set_count n c)) as Hover.
  { intros rl1 nx Hc1 Hf1 Hcl1 Hnx Eo. cbn [check]. rewrite !(core_load _ _ Hc1 nx Hnx). cbn [mbind result_bind].
    change (lr_offset (at_ rl1 nx)) with (off_ rl1 nx). rewrite lr_ok_end, Eo, Z.eqb_refl by done. cbn [verify mbind result_bind].
    rewrite (proj2 (Z.leb_gt _ _)) by lia. cbn [negb]. rewrite (core_load _ _ Hc1 nx Hnx). cbn [mbind result_bind].
    destruct (add_overlap rl1 new n nx (lend n)) as (rl' & E & G1 & G2 & G3); try done;
      [by apply (fresh_frame rl)|by apply (few_frame rl)|lia| |].
    - intros m Hm Hlt. rewrite Eo in Hlt. rewrite <- Eo in *. by apply (core_below rl1 []).
    - exists rl', 0. split_and!; [exact E|done|by apply (frame_but_l _ _ rl1)|done]. }
  assert (forall w, where_ = Some w -> place_at (rl_heap rl) (rl_tree rl) w (lr_offset n) ->
    match avl_nearest (rl_tree rl) w false with None => True | Some pv => fin_ rl pv <= lr_offset n end -> _) as Hafter
    by (intros w _ Hw Hnear; exact (add_after rl new n w Hc Hn Hrd Hlen Hcl Hw (place_left rl [] w _ Hc Hw Hnear))).
  destruct where_ as [w|].
  - destruct Hpl as [Hw Eprev]. specialize (Hafter w eq_refl Hw). rewrite <- Eprev in Hafter. destruct prev as [pv|]; [|exact (Hafter I)].
    destruct (tk_nearest _ _ (cr_tree _ _ Hc) _ w Hw) as [_ Hlast]. rewrite <- Eprev in Hlast. destruct Hlast as (Hpv & Hlt & _).
    destruct (core_ok _ _ Hc pv Hpv) as (_ & _ & _ & Ee). rewrite (core_load _ _ Hc pv Hpv). cbn [mbind result_bind]. rewrite Ee.
    destruct (Z.leb_spec (fin_ rl pv) (lr_offset n)) as [Hle|Hgt]; [exact (Hafter Hle)|].
    change (lr_offset (at_ rl pv)) with (off_ rl pv). rewrite (proj2 (Z.eqb_neq _ _)) by lia. cbn [negb].
    destruct (add_split_ok rl pv (lr_offset n)) as (rl1 & f & r & T0 & -> & Hc1 & Hs & Enx & Hr1 & Eo & _); [done..|apply Hcl; [done|lia..]|lia|].
    cbn [mbind result_bind]. rewrite Enx. apply Hover; try done; [apply Hs|by apply (clear_split rl _ pv f r (lr_offset n) T0)].
  - destruct Hpl as (pv & -> & Hpv & Eo). destruct (core_ok _ _ Hc pv Hpv) as (? & _ & _ & Ee).
    rewrite (core_load _ _ Hc pv Hpv). cbn [mbind result_bind]. rewrite Ee, (proj2 (Z.leb_gt _ _)) by lia.
    change (lr_offset (at_ rl pv)) with (off_ rl pv). rewrite Eo, Z.eqb_refl. cbn [negb mbind result_bind]. apply Hover; auto using frame_refl.
Qed.
End Kmem.
