(* ===== verification/RangeLockEnter.v ===== *)
(** * Range locks: asking for a range

    A reader or a writer gets its range, or waits for a node of the tree that
    is in its way. *)

From stdpp Require Import gmap.
From S2P Require Import Prelude Avl RangeLock RangeLockTree RangeLockTiles RangeLockInv RangeLockReader.

(** A handle is granted. *)
Definition got (rl : rangelock) (t : tid) (new : addr) (n : locked_range) (rl' : rangelock) : Prop :=
  exists rl1 c, rl' = granted rl1 t new /\ core (grant rl1 new) [] /\ frame_but new rl rl1 /\
    rl_heap rl1 !! new = Some (set_count n c).

(** [lr] and the range [n] have an offset in common. *)
Definition in_way (rl : rangelock) (n : locked_range) (lr : addr) : Prop :=
  lr ∈ elts rl /\ off_ rl lr < lend n /\ lr_offset n < fin_ rl lr.

(** A flag that says someone waits. *)
Lemma core_flag rl X a l :
  core rl X -> a ∈ elts rl ->
  lr_offset l = lr_offset (at_ rl a) -> lr_length l = lr_length (at_ rl a) -> lr_proxy l = lr_proxy (at_ rl a) ->
  lr_type l = lr_type (at_ rl a) -> lr_count l = lr_count (at_ rl a) -> (lr_read_wanted l = true -> blocks_reader l = true) ->
  core (store rl a l) X.
Proof.
  intros Hc Ha Ho Hl Hp Hty Hcnt Hr. destruct (core_split _ _ Hc a Ha) as (T0 & HT & HaT & Hsub & _ & Ht & _).
  assert (forall n, n <> a -> <[a := l]> (rl_heap rl) !! n = rl_heap rl !! n) as Hsame by (intros; by apply lookup_insert_ne).
  assert (forall n, off (<[a := l]> (rl_heap rl)) n = off_ rl n) as Hoff.
  { intros n. unfold off. destruct (decide (n = a)) as [->|]; [by rewrite node_insert|by rewrite node_insert_ne]. }
  apply (core_change rl _ X X [a] T0 [a]); try done; cbn.
  - apply (tk_heap (rl_heap rl)); [apply Hc|]. intros n Hn. split; [|apply Hoff]. destruct (decide (n = a)) as [->|Hne].
    + rewrite lookup_insert_eq. eauto.
    + rewrite Hsame by done. apply (tk_dom _ _ (cr_tree _ _ Hc) n Hn).
  - intros n Hn. apply Hsame. by intros ->.
  - intros g Hg _. destruct (cr_held _ _ Hc g Hg) as [H1 H2 H3 H4 H5]. destruct (decide (g = a)) as [->|Hne].
    + unfold lr_ok in *. split; rewrite ?node_insert, ?lookup_insert_eq, ?Hp, ?Hty, ?Hcnt; try done; [unfold lr_ok; by rewrite Ho, Hl|].
      left. destruct H5 as [?|(_ & ? & _)]; done.
    + split; rewrite ?node_insert_ne, ?Hsame by done; done.
  - intros n Hn. apply list_elem_of_singleton in Hn as ->. rewrite node_insert, Hp. by apply (cr_plain _ _ Hc).
  - rewrite node_insert.
    assert (claims (<[a := l]> (rl_heap rl)) (rl_held rl) = claims (rl_heap rl) (rl_held rl)) as ->.
    { apply claims_ext_weak. intros g _. unfold claim, lend.
      destruct (decide (g = a)) as [->|]; [rewrite node_insert|rewrite node_insert_ne by done]; rewrite ?Ho, ?Hl, ?Hcnt; done. }
    by apply (tiled_replace (at_ rl a)).
Qed.

(** ** Readers *)

Lemma ahead_next rl X nx x :
  core rl X -> nx ∈ elts rl -> x < off_ rl nx -> (ahead rl (off_ rl nx + 1) < ahead rl (x + 1))%nat.
Proof.
  intros Hc Hnx Hx. unfold ahead. apply list_elem_of_split in Hnx as (k1 & k2 & ->). rewrite !filter_app, !filter_cons, !length_app.
  rewrite decide_False, decide_True by lia. cbn [length].
  assert (forall k, length (filter (fun n => off_ rl nx + 1 <= off_ rl n)%Z k) <= length (filter (fun n => x + 1 <= off_ rl n)%Z k))%nat as Hk.
  { intros k. apply length_filter_mono. intros; lia. }
  pose proof (Hk k1). pose proof (Hk k2). lia.
Qed.

Lemma scan_ok fuel rl X o len e x next :
  core rl X -> add64 o len = e -> first_after (rl_heap rl) (rl_tree rl) x next -> (ahead rl (x + 1) < fuel)%nat ->
  exists r, reader_scan fuel rl o len next = Ret r /\
    match r with
    | None => forall m, m ∈ elts rl -> x < off_ rl m -> off_ rl m < e -> blocks_reader (at_ rl m) = false
    | Some lr => lr ∈ elts rl /\ blocks_reader (at_ rl lr) = true /\ x < off_ rl lr < e
    end.
Proof.
  intros Hc Ee. revert x next. induction fuel as [|fuel IH]; intros x next Hfirst Hfuel; [lia|]. cbn [reader_scan]. rewrite Ee.
  destruct next as [nx|].
  2: { exists None. split; [done|]. intros m Hm Hx. specialize (Hfirst m Hm). lia. }
  destruct Hfirst as (Hnx & Hlt & Hmin). rewrite (core_load _ _ Hc nx Hnx). cbn [mbind result_bind].
  change (lr_offset (at_ rl nx)) with (off_ rl nx). destruct (core_ok _ _ Hc nx Hnx) as (Hx1 & Hx2 & _ & ->).
  destruct (Z.leb_spec e (off_ rl nx)) as [Hle|Hgt].
  { exists None. split; [done|]. intros m Hm Hx. specialize (Hmin m Hm Hx). lia. }
  destruct (blocks_reader (at_ rl nx)) eqn:Hb; [by exists (Some nx)|].
  assert (forall m, m ∈ elts rl -> x < off_ rl m -> off_ rl m <= off_ rl nx -> blocks_reader (at_ rl m) = false) as Hupto.
  { intros m Hm Hx Hle. specialize (Hmin m Hm Hx). assert (m = nx) as ->; [|done]. apply (tk_inj _ _ (cr_tree _ _ Hc)); [done..|lia]. }
  destruct (Z.leb_spec e (fin_ rl nx)) as [Hle|Hgt'].
  - exists None. split; [done|]. intros m Hm Hx Hme. apply Hupto; [done..|].
    destruct (Z_lt_le_dec (off_ rl nx) (off_ rl m)) as [Hl|]; [|done]. destruct (core_ok _ _ Hc m Hm) as (? & _ & Elm & _), (core_ok _ _ Hc nx Hnx) as (_ & _ & Eln & _).
    destruct (core_apart _ _ Hc m nx Hm Hnx) as [Hd|Hd]; [by intros ->; lia|..]; unfold off, fin in *; lia.
  - destruct (IH (off_ rl nx) (AVL_NEXT (rl_tree rl) nx)) as (r & E & Hr).
    + by apply (tk_next _ _ (cr_tree _ _ Hc)).
    + pose proof (ahead_next rl X nx x Hc Hnx Hlt). lia.
    + exists r. split; [done|]. destruct r as [lr|]; [destruct Hr as (? & ? & ?); split_and!; [done..|lia|lia]|].
      intros m Hm Hx Hme. destruct (Z_lt_le_dec (off_ rl nx) (off_ rl m)); [by apply Hr|by apply Hupto].
Qed.

(** The state of a thread that goes to sleep for reading. *)
Definition sleeps_read (rl : rangelock) (t : tid) (new : addr) (n : locked_range) (rl' : rangelock) : Prop :=
  exists lr, in_way rl n lr /\ blocks_reader (at_ rl lr) = true /\
    rl' = set_place (store rl lr (want_read (at_ rl lr))) t (ReadWait true lr new).

Section Kmem.
Context `{!RangeKmem}.

(** Where the code looks first. *)
Lemma find_place rl new n :
  core rl [] -> rl_heap rl !! new = Some n ->
  exists prev where_,
    match tree_find rl new with
    | inl p => (Some p, None)
    | inr w => (avl_nearest (rl_tree rl) w false, Some w)
    end = (prev, where_) /\ reader_place rl (lr_offset n) prev where_ /\
    match prev with
    | Some pv => pv ∈ elts rl /\ off_ rl pv <= lr_offset n /\ forall m, m ∈ elts rl -> off_ rl m <= lr_offset n -> off_ rl m <= off_ rl pv
    | None => (exists w, where_ = Some w) /\ forall m, m ∈ elts rl -> lr_offset n < off_ rl m
    end.
Proof using All.
  intros Hc Hl. pose proof (tk_find _ _ (cr_tree _ _ Hc) new ltac:(eauto)) as Hf. unfold off in Hf at 2 3. rewrite (node_Some _ _ _ Hl) in Hf.
  unfold tree_find. destruct (avl_find (rl_tree rl) new) as [p|w].
  - destruct Hf as [Hp Eo]. exists (Some p), None. split_and!; [done|by exists p|done|lia|]. intros m _ Hm. lia.
  - exists (avl_nearest (rl_tree rl) w false), (Some w). split; [done|]. split; [done|].
    destruct (tk_nearest _ _ (cr_tree _ _ Hc) _ w Hf) as [_ Hlast].
    assert (forall m, m ∈ elts rl -> off_ rl m <> lr_offset n) as Hne.
    { intros m Hm. destruct Hf as (Hh & H1 & H2). rewrite (hole_elements _ _ Hh) in Hm. apply elem_of_app in Hm as [Hm|Hm]; [apply H1 in Hm|apply H2 in Hm]; lia. }
    destruct (avl_nearest (rl_tree rl) w false) as [pv|]; cbn in Hlast.
    + destruct Hlast as (Hpv & Hlt & Hmax). split_and!; [done|lia|]. intros m Hm Hle. apply Hmax; [done|]. specialize (Hne m Hm). lia.
    + split; [by exists w|]. intros m Hm. specialize (Hne m Hm). specialize (Hlast m Hm). lia.
Qed.

Lemma got_add rl t new n prev where_ :
  core rl [] -> fresh_handle rl new n -> lr_type n = RL_READER -> few_held rl -> clear_range rl (lr_offset n) (lend n) ->
  reader_place rl (lr_offset n) prev where_ ->
  exists rl', (rl ← rangelock_add_reader rl new prev where_; Ret (granted rl t new)) = Ret rl' /\ got rl t new n rl'.
Proof using All.
  intros Hc Hn Hrd Hlen Hcl Hpl. destruct (add_reader_ok rl new n prev where_) as (rl1 & c & -> & H1 & H2 & H3); [done..|].
  eexists. split; [done|]. exists rl1, c. done.
Qed.

(** What a reader comes to. *)
Definition reader_outcome (rl : rangelock) (t : tid) (new : addr) (n : locked_range) (rl' : rangelock) : Prop :=
  (clear_range rl (lr_offset n) (lend n) /\ got rl t new n rl') \/ sleeps_read rl t new n rl'.

(** The scan from the offset [x] on, given what is known up to it. *)
Lemma scan_outcome rl t new n prev where_ x next :
  core rl [] -> fresh_handle rl new n -> lr_type n = RL_READER -> few_held rl -> reader_place rl (lr_offset n) prev where_ ->
  first_after (rl_heap rl) (rl_tree rl) x next ->
  (forall m, m ∈ elts rl -> x < off_ rl m -> lr_offset n < fin_ rl m) ->
  (forall m, m ∈ elts rl -> off_ rl m <= x -> lr_offset n < fin_ rl m -> blocks_reader (at_ rl m) = false) ->
  exists rl', (wait ← reader_scan (S (length (elts rl))) rl (lr_offset n) (lr_length n) next;
    match wait with
    | Some lr => reader_wait rl t lr new
    | None => rl ← rangelock_add_reader rl new prev where_; Ret (granted rl t new)
    end) = Ret rl' /\ reader_outcome rl t new n rl'.
Proof using All.
  intros Hc Hn Hrd Hlen Hpl Hfirst Hafter Hupto. pose proof (fh_ok _ _ _ Hn) as Hok.
  destruct (scan_ok (S (length (elts rl))) rl [] (lr_offset n) (lr_length n) (lend n) x next Hc (lr_ok_end n Hok) Hfirst) as (r & -> & Hr).
  { unfold ahead. pose proof (length_filter (fun m => x + 1 <= off_ rl m) (elts rl)). lia. }
  cbn [mbind result_bind]. destruct r as [lr|].
  - destruct Hr as (Hlr & Hb & Hx). unfold reader_wait. rewrite (core_load _ _ Hc lr Hlr). eexists. split; [done|]. right. exists lr.
    split; [|done]. split_and!; [done|lia|apply Hafter; [done|lia]].
  - assert (clear_range rl (lr_offset n) (lend n)) as Hcl.
    { intros m Hm Hlt Hgt. destruct (Z_lt_le_dec x (off_ rl m)); [by apply Hr|by apply Hupto]. }
    destruct (got_add rl t new n prev where_) as (rl' & E & Hg); [done..|]. exists rl'. split; [done|by left].
Qed.

Lemma enter_reader_ok rl t new n :
  core rl [] -> fresh_handle rl new n -> lr_type n = RL_READER -> few_held rl ->
  exists rl', rangelock_enter_reader rl t new = Ret rl' /\ reader_outcome rl t new n rl'.
Proof using All.
  intros Hc Hn Hrd Hlen. pose proof Hn as [Hl HnT HnH Hok Hp Hcnt Hty Hww Hr].
  assert (lr_offset n < lend n) as Hne by (destruct Hok as (? & ? & ?); unfold lend; lia).
  unfold rangelock_enter_reader. rewrite (load_Some _ _ _ Hl). cbn [mbind result_bind].
  destruct (find_place rl new n Hc Hl) as (prev & where_ & -> & Hpl & Hprev). rewrite (lr_ok_end n Hok).
  destruct prev as [pv|]; cbn [check].
  2: { destruct Hprev as [[w ->] Hall]. cbn [mbind result_bind]. apply (scan_outcome rl t new n None (Some w) (lr_offset n)); try done.
       - by apply (tk_nearest _ _ (cr_tree _ _ Hc)), Hpl.
       - intros m Hm Hlt. destruct (core_ok _ _ Hc m Hm). lia.
       - intros m Hm Hle. specialize (Hall m Hm). lia. }
  destruct Hprev as (Hpv & Hle & Hmax). destruct (core_ok _ _ Hc pv Hpv) as (Hx1 & Hx2 & _ & Ee).
  rewrite (core_load _ _ Hc pv Hpv). cbn [mbind result_bind]. rewrite Ee.
  assert (forall m, m ∈ elts rl -> off_ rl m <= off_ rl pv -> m = pv \/ fin_ rl m <= lr_offset n) as Hupto.
  { intros m Hm Hmle. destruct (decide (m = pv)) as [|Hmne]; [by left|right].
    assert (off_ rl m <> off_ rl pv) by (intros E; by apply Hmne, (tk_inj _ _ (cr_tree _ _ Hc))).
    pose proof (core_below rl [] pv m Hc Hpv Hm ltac:(lia)). lia. }
  assert (forall m, m ∈ elts rl -> off_ rl pv < off_ rl m -> lr_offset n < fin_ rl m) as Hafter.
  { intros m Hm Hlt. destruct (core_ok _ _ Hc m Hm). destruct (Z_lt_le_dec (lr_offset n) (off_ rl m)); [lia|].
    specialize (Hmax m Hm ltac:(lia)). lia. }
  pose proof (tk_next _ _ (cr_tree _ _ Hc) pv Hpv) as Hnext.
  destruct (Z.ltb_spec (lr_offset n) (fin_ rl pv)) as [Hover|Hno]; cbn [check mbind result_bind].
  - rewrite (core_load _ _ Hc pv Hpv). cbn [mbind result_bind]. rewrite Ee. destruct (blocks_reader (at_ rl pv)) eqn:Hb; cbn [check mbind result_bind].
    { unfold reader_wait. rewrite (core_load _ _ Hc pv Hpv). eexists. split; [done|]. right. exists pv. split; [|done]. split_and!; [done|lia|done]. }
    destruct (Z.ltb_spec (lend n) (fin_ rl pv)) as [Hin|Hout].
    + assert (clear_range rl (lr_offset n) (lend n)) as Hcl.
      { intros m Hm Hlt Hgt. destruct (Z_lt_le_dec (off_ rl pv) (off_ rl m)) as [Hpm|Hpm].
        - pose proof (core_below rl [] m pv Hc Hm Hpv Hpm). lia.
        - destruct (Hupto m Hm Hpm) as [->|]; [done|lia]. }
      destruct (got_add rl t new n (Some pv) where_) as (rl' & E & Hg); [done..|]. exists rl'. split; [done|by left].
    + apply (scan_outcome rl t new n (Some pv) where_ (off_ rl pv)); try done.
      intros m Hm Hmle Hmf. destruct (Hupto m Hm Hmle) as [->|]; [done|lia].
  - apply (scan_outcome rl t new n (Some pv) where_ (off_ rl pv)); try done.
    intros m Hm Hmle Hmf. destruct (Hupto m Hm Hmle) as [->|]; lia.
Qed.

(** The tree is empty exactly if the count says so. *)
Lemma disjoint_bound rl X lo :
  core rl X -> forall k, (forall m, m ∈ k -> m ∈ elts rl) -> StronglySorted (fun a b => off_ rl a < off_ rl b) k ->
  (forall m, m ∈ k -> lo <= off_ rl m) -> Z.of_nat (length k) <= UINT64_MAX - lo \/ k = [].
Proof.
  intros Hc k. revert lo. induction k as [|a k IH]; intros lo Hin Hs Hlo; [by right|left].
  apply StronglySorted_cons in Hs as [Ha Hs]. rewrite Forall_forall in Ha.
  destruct (core_ok _ _ Hc a ltac:(apply Hin; by left)) as (H1 & H2 & _). specialize (Hlo a ltac:(by left)) as Hloa.
  destruct (IH (off_ rl a + 1)) as [Hk| ->]; cbn [length]; [intros; apply Hin; by right|done|intros m Hm; apply Ha in Hm; lia|lia|cbn; lia].
Qed.

Lemma numnodes_zero rl X : core rl X -> avl_numnodes (rl_tree rl) = 0 <-> elts rl = [].
Proof.
  intros Hc. destruct (tk_wf _ _ (cr_tree _ _ Hc)) as [_ Hn]. unfold avl_numnodes. rewrite Hn. fold (elts rl).
  destruct (disjoint_bound rl X 0 Hc (elts rl)) as [Hb| ->]; [done|apply Hc|intros m Hm; destruct (core_ok _ _ Hc m Hm); lia| |done].
  rewrite wrap64_small by (unfold u64, UINT64_MAX in *; lia). destruct (elts rl); cbn; [done|]. split; [lia|done].
Qed.

(** An empty tree takes any handle. *)
Lemma grant_empty rl t new n :
  core rl [] -> fresh_handle rl new n -> elts rl = [] ->
  exists rl', (rl ← tree_add rl new; Ret (granted rl t new)) = Ret rl' /\ got rl t new n rl'.
Proof using All.
  intros Hc Hn He. destruct (tree_add_ok rl new (cr_tree _ _ Hc)) as (t' & -> & Htk & Hel); [rewrite (fh_load _ _ _ Hn); eauto|rewrite He; by intros m Hm%elem_of_nil|].
  eexists. split; [done|]. exists (set_tree rl t'), 1. split_and!; [done|..].
  - apply (grant_plain _ _ n); try done. rewrite He. by intros m Hm%elem_of_nil.
  - split; try done; cbn [set_tree rl_tree rl_heap]; intros a; rewrite Hel, elem_of_cons; [|auto].
    intros Hne Ha Hna. split; [done|]. intros [->|]; done.
  - cbn. rewrite (fh_load _ _ _ Hn). pose proof (fh_count _ _ _ Hn). by destruct n; cbn in *; subst.
Qed.
End Kmem.

(** ** Writers *)

Definition sleeps_write (rl : rangelock) (t : tid) (new : addr) (n : locked_range) (o l : Z) (ty : rangelock_type)
    (rl' : rangelock) : Prop :=
  exists lr, in_way rl n lr /\
    rl' = set_place (store rl lr (want_write (at_ rl lr))) t (WriteWait true lr new o l ty).

(** What a writer comes to, with the range [n] the callback gave it stored. *)
Definition writer_outcome (rl : rangelock) (t : tid) (new : addr) (n : locked_range) (o l : Z) (ty : rangelock_type)
    (rl' : rangelock) : Prop :=
  ((forall m, m ∈ elts rl -> apart n (at_ rl m)) /\ got rl t new n rl') \/ sleeps_write rl t new n o l ty rl'.

(** The callback's range is put into the handle. *)
Lemma store_handle rl X new n :
  core rl X -> new ∉ elts rl -> new ∉ rl_held rl ->
  core (store rl new n) X /\ (forall m, m ∈ elts rl -> rl_heap (store rl new n) !! m = rl_heap rl !! m).
Proof.
  intros Hc HnT HnH. assert (forall m, m <> new -> rl_heap (store rl new n) !! m = rl_heap rl !! m) as Hs by (intros; by apply lookup_insert_ne).
  split; [|intros m Hm; apply Hs; by intros ->]. apply (core_other rl); try done. intros m Hm. apply Hs. intros ->. tauto.
Qed.

Section Writer.
Context (rl : rangelock) (t : tid) (new : addr) (n : locked_range) (o l : Z) (ty : rangelock_type).
Context (Hc : core rl []) (Hn : fresh_handle rl new n).

Lemma wait_write lr : in_way rl n lr ->
  exists rl', writer_wait rl t lr new o l ty = Ret rl' /\ writer_outcome rl t new n o l ty rl'.
Proof using All.
  intros Hlr. unfold writer_wait. rewrite (core_load _ _ Hc lr) by apply Hlr. eexists. split; [done|]. right. by exists lr.
Qed.

Lemma grant_write w :
  place_at (rl_heap rl) (rl_tree rl) w (lr_offset n) -> (forall m, m ∈ elts rl -> apart n (at_ rl m)) ->
  writer_outcome rl t new n o l ty (granted (set_tree rl (avl_insert (rl_tree rl) new w)) t new).
Proof using All.
  intros Hw Hap. destruct Hn as [Hl HnT HnH Hok Hp Hcnt Hty Hww Hr]. left. split; [done|].
  destruct (tk_insert _ _ (cr_tree _ _ Hc) new w) as [Htk Hel]; [eauto|unfold off; by rewrite (node_Some _ _ _ Hl)|].
  exists (set_tree rl (avl_insert (rl_tree rl) new w)), 1. split_and!; [done|by apply (grant_plain _ _ n)|..].
  - split; try done; cbn [set_tree rl_tree rl_heap]; intros a; rewrite Hel, elem_of_cons; [|auto].
    intros Hne Ha Hna. split; [done|]. intros [->|]; done.
  - cbn. rewrite Hl. by destruct n; cbn in *; subst.
Qed.

(** The turn of the loop after the callback. *)
Lemma writer_turn :
  exists rl',
    match tree_find rl new with
    | inl lr => writer_wait rl t lr new o l ty
    | inr where_ =>
        after ← check rl (avl_nearest (rl_tree rl) where_ true) (fun l => lr_offset l <? lr_end n);
        match after with
        | Some lr => writer_wait rl t lr new o l ty
        | None =>
            before ← check rl (avl_nearest (rl_tree rl) where_ false) (fun l => lr_offset n <? lr_end l);
            match before with
            | Some lr => writer_wait rl t lr new o l ty
            | None => Ret (granted (set_tree rl (avl_insert (rl_tree rl) new where_)) t new)
            end
        end
    end = Ret rl' /\ writer_outcome rl t new n o l ty rl'.
Proof using All.
  destruct Hn as [Hl HnT HnH Hok Hp Hcnt Hty Hww Hr].
  assert (lr_offset n < lend n) as Hne by (destruct Hok as (? & ? & ?); unfold lend; lia).
  assert (lr_end n = lend n) as -> by (by apply lr_ok_end).
  pose proof (tk_find _ _ (cr_tree _ _ Hc) new ltac:(eauto)) as Hf. unfold off in Hf at 2 3. rewrite (node_Some _ _ _ Hl) in Hf.
  unfold tree_find. destruct (avl_find (rl_tree rl) new) as [lr|w].
  { destruct Hf as [Hlr Eo]. apply wait_write. destruct (core_ok _ _ Hc lr Hlr). split_and!; [done|lia..]. }
  destruct (tk_nearest _ _ (cr_tree _ _ Hc) _ w Hf) as [Hfirst Hlast].
  assert ((forall m, m ∈ elts rl -> lr_offset n < off_ rl m -> lend n <= off_ rl m) ->
    exists rl', (before ← check rl (avl_nearest (rl_tree rl) w false) (fun l => lr_offset n <? lr_end l);
            match before with
            | Some lr => writer_wait rl t lr new o l ty
            | None => Ret (granted (set_tree rl (avl_insert (rl_tree rl) new w)) t new)
            end) = Ret rl' /\ writer_outcome rl t new n o l ty rl') as Hbefore.
  { intros Hright.
    assert (match avl_nearest (rl_tree rl) w false with None => True | Some pv => fin_ rl pv <= lr_offset n end ->
      exists rl', Ret (granted (set_tree rl (avl_insert (rl_tree rl) new w)) t new) = Ret rl' /\ writer_outcome rl t new n o l ty rl') as Hgrant.
    { intros Hpv. eexists. split; [done|]. apply grant_write; [done|]. intros m Hm. destruct (core_ok _ _ Hc m Hm) as (_ & _ & El & _).
      unfold apart. rewrite El. destruct (Z_lt_le_dec (lr_offset n) (off_ rl m)) as [Hd|Hd]; [left; by apply Hright|right].
      by apply (place_left rl [] w _ Hc Hf Hpv). }
    destruct (avl_nearest (rl_tree rl) w false) as [pv|]; cbn [check]; [|by apply Hgrant].
    destruct Hlast as (Hpv & Hlt & _). rewrite (core_load _ _ Hc pv Hpv). cbn [mbind result_bind].
    destruct (core_ok _ _ Hc pv Hpv) as (_ & _ & _ & ->). destruct (Z.ltb_spec (lr_offset n) (fin_ rl pv)); [|by apply Hgrant].
    apply wait_write. split_and!; [done|lia|done]. }
  destruct (avl_nearest (rl_tree rl) w true) as [nx|]; cbn [check].
  - destruct Hfirst as (Hnx & Hlt & Hmin). rewrite (core_load _ _ Hc nx Hnx). cbn [mbind result_bind].
    change (lr_offset (at_ rl nx)) with (off_ rl nx). destruct (Z.ltb_spec (off_ rl nx) (lend n)) as [Hin|Hout].
    + apply wait_write. destruct (core_ok _ _ Hc nx Hnx). split_and!; [done|lia..].
    + apply Hbefore. intros m Hm Hm'. specialize (Hmin m Hm Hm'). lia.
  - apply Hbefore. intros m Hm Hm'. specialize (Hfirst m Hm). lia.
Qed.
End Writer.

Lemma request_handle rl new off len ty :
  rl_heap rl !! new = Some (request off len ty) -> new ∉ elts rl -> new ∉ rl_held rl -> range_ok off len -> ty <> RL_APPEND ->
  fresh_handle rl new (request off len ty).
Proof. intros H1 H2 H3 H4 H5. split; done. Qed.

Lemma writer_loop_ok `{!RangeKmem} cb rl t new o l ty :
  core rl [] -> rl_heap rl !! new = Some (request o l ty) -> new ∉ elts rl -> new ∉ rl_held rl -> cb_ok cb (request o l ty) ->
  exists off len rl', range_ok off len /\ cb_apply cb (request o l ty) = request off len RL_WRITER /\
    writer_loop cb rl t new o l ty = Ret rl' /\
    writer_outcome (store rl new (request off len RL_WRITER)) t new (request off len RL_WRITER) o l ty rl'.
Proof.
  intros Hc Hl HnT HnH (off & len & Ecb & Hok). exists off, len. unfold writer_loop. rewrite (load_Some _ _ _ Hl). cbn [mbind result_bind].
  rewrite Ecb. change (set_range (request o l ty) off len RL_WRITER) with (request off len RL_WRITER).
  set (n := request off len RL_WRITER). set (rl1 := store rl new n).
  destruct (store_handle rl [] new n Hc HnT HnH) as [Hc1 Hs1]. fold rl1 in Hc1, Hs1.
  assert (fresh_handle rl1 new n) as Hn by (apply request_handle; [cbn; apply lookup_insert_eq|done..]).
  cbn [lr_type n request]. rewrite bool_decide_true by done. cbn [verify mbind result_bind].
  destruct (Z.eqb_spec (avl_numnodes (rl_tree rl1)) 0) as [E0|E0].
  - apply (numnodes_zero rl1 [] Hc1) in E0. destruct (grant_empty rl1 t new n Hc1 Hn E0) as (rl' & E & Hg). exists rl'.
    split_and!; [done..|]. left. split; [|done]. rewrite E0. by intros m Hm%elem_of_nil.
  - destruct (writer_turn rl1 t new n o l ty Hc1 Hn) as (rl' & E & Hw). exists rl'. done.
Qed.
