(* ===== verification/RangeLockExit.v ===== *)
(** * Range locks: giving a range back

    A handle is removed: its nodes are, or lose one reference; whoever waits
    for a node that goes is awake. *)

From stdpp Require Import gmap.
From S2P Require Import Prelude Avl RangeLock RangeLockTree RangeLockTiles RangeLockInv RangeLockReader.

(** Asleep on [lr], for writing or for reading. *)
Definition sleeps_on (p : rplace) (w : bool) (lr : addr) : Prop :=
  match p with
  | WriteWait true lr' _ _ _ _ => w = true /\ lr' = lr
  | ReadWait true lr' _ => w = false /\ lr' = lr
  | _ => False
  end.
Definition wanted (w : bool) (l : locked_range) : bool := if w then lr_write_wanted l else lr_read_wanted l.

(** The same place, or the same place awake. *)
Definition woken (p p' : rplace) : Prop :=
  match p with
  | WriteWait true lr new o l ty => p' = p \/ p' = WriteWait false lr new o l ty
  | ReadWait true lr new => p' = p \/ p' = ReadWait false lr new
  | _ => p' = p
  end.

Lemma woken_refl p : woken p p.
Proof. destruct p as [|[]|[]| |]; cbn; auto. Qed.

Lemma woken_trans p1 p2 p3 : woken p1 p2 -> woken p2 p3 -> woken p1 p3.
Proof. destruct p1 as [|[]|[]| |]; cbn; intros H; try (subst; done); destruct H as [-> | ->]; cbn; auto. Qed.

Lemma woken_sleeps p p' w lr : woken p p' -> sleeps_on p' w lr -> p' = p.
Proof. destruct p as [|[]|[]| |]; cbn; intros H; try done; destruct H as [-> | ->]; cbn; done. Qed.

(** [wake_waiters]. *)
Lemma wake_woken rl lr l t : woken (rl_pc rl t) (rl_pc (wake_waiters rl lr l) t).
Proof.
  unfold wake_waiters. cbn [rl_pc]. destruct (lr_write_wanted l), (lr_read_wanted l); destruct (rl_pc rl t) as [|[] lr' new o k ty|[] lr' new|lr'|lr']; cbn; auto;
    destruct (Nat.eqb_spec lr' lr); auto.
Qed.

Lemma wake_awake rl lr l t w : sleeps_on (rl_pc (wake_waiters rl lr l) t) w lr -> wanted w l = false.
Proof.
  unfold wake_waiters. cbn [rl_pc]. destruct w, (lr_write_wanted l) eqn:E1, (lr_read_wanted l) eqn:E2;
    destruct (rl_pc rl t) as [|[] lr' new o k ty|[] lr' new|lr'|lr']; cbn;
    try done; rewrite ?E1, ?E2; try done; try (intros [? ->]; done);
    try (destruct (Nat.eqb_spec lr' lr) as [->|]; cbn; try done; intros [? ?]; done).
Qed.

(** What giving back leaves: handles, memory outside the tree but for the
    handle [g], nodes up to their count; who still sleeps does so on a node of
    the tree. *)
Record exit_frame (g : option addr) (rl rl' : rangelock) : Prop := {
  ef_held : rl_held rl' = rl_held rl;
  ef_pc t : woken (rl_pc rl t) (rl_pc rl' t);
  ef_out a : g <> Some a -> is_Some (rl_heap rl !! a) -> a ∉ elts rl -> rl_heap rl' !! a = rl_heap rl !! a /\ a ∉ elts rl';
  ef_plain a : g <> Some a -> a ∈ elts rl -> lr_proxy (at_ rl a) = false -> a ∈ elts rl';
  ef_keep a : a ∈ elts rl' -> a ∈ elts rl /\ at_ rl' a = set_count (at_ rl a) (lr_count (at_ rl' a));
  ef_asleep t w lr : sleeps_on (rl_pc rl' t) w lr -> lr ∈ elts rl -> wanted w (at_ rl lr) = true -> lr ∈ elts rl';
}.

Lemma exit_frame_refl g rl : exit_frame g rl rl.
Proof. split; auto using woken_refl. intros a Ha. split; [done|]. by destruct (at_ rl a). Qed.

Lemma exit_frame_trans g rl1 rl2 rl3 : exit_frame g rl1 rl2 -> exit_frame g rl2 rl3 -> exit_frame g rl1 rl3.
Proof.
  intros [A1 A2 A3 A6 A4 A5] [B1 B2 B3 B6 B4 B5]. split; [congruence|..].
  - intros t. by apply (woken_trans _ (rl_pc rl2 t)).
  - intros a Hg Ha Hn. destruct (A3 a Hg Ha Hn) as [E Hn']. destruct (B3 a Hg) as [E' ?]; [by rewrite E|done|]. split; [congruence|done].
  - intros a Hg Ha Hp. pose proof (A6 a Hg Ha Hp) as Ha2. apply B6; [done..|]. by destruct (A4 a Ha2) as [_ ->].
  - intros a Ha. destruct (B4 a Ha) as [Ha2 E2]. destruct (A4 a Ha2) as [Ha1 E1]. split; [done|]. rewrite E2, E1. done.
  - intros t w lr Hs Hlr Hw. assert (sleeps_on (rl_pc rl2 t) w lr) as Hs2 by (by rewrite (woken_sleeps _ _ _ _ (B2 t) Hs) in Hs).
    pose proof (A5 t w lr Hs2 Hlr Hw) as Hlr2. apply (B5 t w lr Hs Hlr2). destruct (A4 lr Hlr2) as [_ ->]. by destruct w.
Qed.

(** One turn of the loop: the node [lr] loses a reference. *)
Definition drop_ref (rl : rangelock) (lr : addr) : rangelock :=
  let l := set_count (at_ rl lr) (wrap32 (lr_count (at_ rl lr) - 1)) in
  let rl := store rl lr l in
  if lr_count l =? 0
  then kmem_free (wake_waiters (set_tree rl (avl_remove (rl_tree rl) lr)) lr l) lr
  else rl.

Lemma core_first rl lr e X :
  core rl ((off_ rl lr, e) :: X) -> lr ∈ elts rl -> off_ rl lr < e ->
  lr_proxy (at_ rl lr) = true /\ fin_ rl lr <= e /\
  lr_count (at_ rl lr) = 1 + cover (X ++ claims (rl_heap rl) (rl_held rl)) (at_ rl lr).
Proof.
  intros Hc Hlr He. destruct (core_split _ _ Hc lr Hlr) as (T0 & _ & _ & _ & _ & Ht & _). by apply (tiled_first (at_ rl lr) (at_ rl <$> T0)).
Qed.

Lemma drop_ref_ok rl lr e :
  core rl [(off_ rl lr, e)] -> lr ∈ elts rl -> off_ rl lr < e -> Z.of_nat (length (rl_held rl)) < 2 ^ 32 ->
  core (drop_ref rl lr) [(fin_ rl lr, e)] /\ exit_frame None rl (drop_ref rl lr) /\
  (forall m, m ∈ elts rl -> m <> lr -> m ∈ elts (drop_ref rl lr) /\ rl_heap (drop_ref rl lr) !! m = rl_heap rl !! m).
Proof.
  intros Hc Hlr He Hlen. destruct (core_first rl lr e [] Hc Hlr He) as (Hp & Hle & Hcnt). cbn [app] in Hcnt.
  destruct (core_split _ _ Hc lr Hlr) as (T0 & HT & HlT & Hsub & _ & Ht & _). cbn [app] in Ht.
  pose proof (cover_nonneg (claims (rl_heap rl) (rl_held rl)) (at_ rl lr)) as Hcov. pose proof (length_claims (rl_heap rl) (rl_held rl)) as Hlc.
  assert (lr ∉ rl_held rl) as HlH by (intros Hin; rewrite (ho_proxy _ _ _ (cr_held _ _ Hc lr Hin)) in Hp; done).
  unfold drop_ref. unfold wrap32. rewrite Z.mod_small by lia. set (l := set_count (at_ rl lr) (lr_count (at_ rl lr) - 1)).
  assert (forall m, m <> lr -> <[lr := l]> (rl_heap rl) !! m = rl_heap rl !! m) as Hsame by (intros; by apply lookup_insert_ne).
  assert (forall m, m <> lr -> delete lr (<[lr := l]> (rl_heap rl)) !! m = rl_heap rl !! m) as Hsame' by (intros; rewrite lookup_delete_ne by done; auto).
  assert (forall m, m ∈ T0 -> m <> lr) as HT0 by (by intros m Hm ->).
  change (lr_count l) with (lr_count (at_ rl lr) - 1). destruct (Z.eqb_spec (lr_count (at_ rl lr) - 1) 0) as [E0|E0].
  - destruct (tk_remove _ _ (cr_tree _ _ Hc) lr Hlr) as [Htk Hel].
    assert (elements (avl_remove (rl_tree rl) lr) ≡ₚ T0) as HrT by (apply (Permutation_cons_inv (a := lr)); by rewrite <- Hel, <- HT).
    split_and!; [..|intros m Hm Hne; cbn; rewrite Hsame', HrT by done; split; [|done]; rewrite HT, elem_of_cons in Hm; by destruct Hm].
    + apply (core_change rl _ [(off_ rl lr, e)] _ [lr] T0 []); try done; cbn.
      * apply (tk_heap _ _ Htk). intros m. rewrite HrT. intros Hm. unfold off. rewrite (node_same _ _ _ (Hsame' m (HT0 m Hm))), Hsame' by auto.
        split; [|done]. apply (tk_dom _ _ (cr_tree _ _ Hc)). auto.
      * intros m Hm. apply Hsame'. auto.
      * intros g Hg HgT. assert (g <> lr) as Hgl by (by intros ->). destruct (cr_held _ _ Hc g Hg) as [H1 H2 H3 H4 H5].
        split; rewrite ?(node_same _ _ _ (Hsame' g Hgl)), ?Hsame' by done; try done.
        rewrite HT, elem_of_cons in H5. right. destruct H5 as [[_ [?|?]]|(? & ? & ?)]; [done..|]. rewrite HrT. split_and!; tauto.
      * by intros m Hm%elem_of_nil.
      * rewrite (claims_ext (rl_heap rl)); [|intros g Hg; apply node_same, Hsame'; by intros ->].
        apply (tiled_remove_proxy (at_ rl lr)); [done..|lia].
    + split; try done; cbn [kmem_free set_heap wake_waiters rl_heap rl_tree rl_held set_tree store].
      * intros t. apply (wake_woken (set_tree (store rl lr l) (avl_remove (rl_tree (store rl lr l)) lr)) lr l t).
      * intros a _ Ha Hna. rewrite HrT, Hsame' by (by intros ->). split; [done|]. by intros Hin%Hsub.
      * intros a _ Ha Hpa. cbn. rewrite HrT. rewrite HT, elem_of_cons in Ha. destruct Ha as [->|Ha]; [congruence|done].
      * intros a Ha. cbn in Ha. rewrite HrT in Ha. split; [by apply Hsub|]. cbn. rewrite (node_same _ _ _ (Hsame' a (HT0 a Ha))). by destruct (at_ rl a).
      * intros t w a Hs Ha Hw. cbn. rewrite HrT. rewrite HT, elem_of_cons in Ha. destruct Ha as [->|Ha]; [|done].
        change (wanted w l = true) in Hw. apply (wake_awake (set_tree (store rl lr l) (avl_remove (rl_tree (store rl lr l)) lr))) in Hs. congruence.
  - split_and!; [..|intros m Hm Hne; split; [done|]; cbn; auto].
    + apply (core_change rl _ [(off_ rl lr, e)] _ [lr] T0 [lr]); try done; cbn.
      * apply (tk_heap (rl_heap rl)); [apply Hc|]. intros m Hm. unfold off. destruct (decide (m = lr)) as [->|Hne].
        -- rewrite node_insert, lookup_insert_eq. split; [eauto|done].
        -- rewrite node_insert_ne, Hsame by done. split; [|done]. apply (tk_dom _ _ (cr_tree _ _ Hc) m Hm).
      * intros m Hm. apply Hsame. auto.
      * intros g Hg _. assert (g <> lr) as Hgl by (by intros ->). destruct (cr_held _ _ Hc g Hg) as [H1 H2 H3 H4 H5].
        split; rewrite ?node_insert_ne, ?Hsame by done; done.
      * intros m Hm. apply list_elem_of_singleton in Hm as ->. rewrite node_insert. cbn. congruence.
      * rewrite node_insert, (claims_ext (rl_heap rl)); [|intros g Hg; apply node_insert_ne; by intros ->].
        apply (tiled_decr (at_ rl lr)); [done..|lia].
    + split; try done; cbn.
      * intros t. apply woken_refl.
      * intros a _ Ha Hna. split; [|done]. apply Hsame. by intros ->.
      * intros a Ha. split; [done|]. destruct (decide (a = lr)) as [->|Hne]; [by rewrite node_insert|]. rewrite node_insert_ne by done. by destruct (at_ rl a).
Qed.

Lemma exit_frame_weaken g rl rl' : exit_frame None rl rl' -> exit_frame g rl rl'.
Proof. intros [H1 H2 H3 H6 H4 H5]. split; auto. Qed.

(** The next part of the claim. *)
Lemma next_tile rl lr e :
  core rl [(off_ rl lr, e)] -> lr ∈ elts rl -> fin_ rl lr < e ->
  exists nx, AVL_NEXT (rl_tree rl) lr = Some nx /\ nx ∈ elts rl /\ off_ rl nx = fin_ rl lr /\
    lr_count (at_ rl nx) <> 0 /\ lr_type (at_ rl nx) = RL_READER.
Proof.
  intros Hc Hlr He. destruct (core_ok _ _ Hc lr Hlr) as (Hl1 & Hl2 & Ell & _). pose proof (cr_tiled _ _ Hc) as Ht.
  destruct (ti_tile _ _ Ht (off_ rl lr, e) (fin_ rl lr)) as (l & Hl & Hx); [by left|cbn; lia|].
  apply list_elem_of_fmap in Hl as (m & -> & Hm). destruct (core_ok _ _ Hc m Hm) as (Hm1 & Hm2 & Elm & _).
  destruct (core_node _ _ Hc m Hm) as (l & _ & E & [A1 A2 A3 A4 A5 A6]). rewrite E in *.
  destruct (A5 (off_ rl lr, e)) as (_ & _ & Hp); [by left|unfold meets; cbn; unfold off, fin in *; rewrite E in *; lia|].
  destruct (A4 Hp) as (Hty & _ & Hpos).
  assert (off_ rl m = fin_ rl lr) as Eo.
  { destruct (core_apart _ _ Hc lr m Hlr Hm) as [Hd|Hd]; [intros ->; lia|..]; unfold off, fin in *; rewrite E in *; lia. }
  exists m. rewrite E. split_and!; [|done..|lia|done].
  pose proof (tk_next _ _ (cr_tree _ _ Hc) lr Hlr) as Hnext. destruct (AVL_NEXT (rl_tree rl) lr) as [nx|]; cbn in Hnext; [|specialize (Hnext m Hm); lia].
  destruct Hnext as (Hnx & Hlt & Hmin). specialize (Hmin m Hm ltac:(lia)). f_equal.
  pose proof (core_below rl _ nx lr Hc Hnx Hlr Hlt). apply (tk_inj _ _ (cr_tree _ _ Hc)); [done..|lia].
Qed.

Lemma ahead_drop rl lr X :
  core rl X -> lr ∈ elts rl -> exit_frame None rl (drop_ref rl lr) -> NoDup (elts (drop_ref rl lr)) ->
  (ahead (drop_ref rl lr) (fin_ rl lr) < ahead rl (off_ rl lr))%nat.
Proof.
  intros Hc Hlr Hf Hnd. destruct (core_ok _ _ Hc lr Hlr) as (Hl & _). set (rl' := drop_ref rl lr) in *. unfold ahead.
  change (S (length (filter (fun n => fin_ rl lr <= off_ rl' n)%Z (elts rl'))) <= length (filter (fun n => off_ rl lr <= off_ rl n)%Z (elts rl)))%nat.
  assert (forall m, m ∈ filter (fun n => fin_ rl lr <= off_ rl' n) (elts rl') -> m ∈ elts rl /\ fin_ rl lr <= off_ rl m) as Hin.
  { intros m [Hx Hm]%list_elem_of_filter. destruct (ef_keep _ _ _ Hf m Hm) as [Hm' E]. split; [done|]. unfold off in Hx |- *. by rewrite E in Hx. }
  apply (submseteq_length (lr :: filter (fun n => fin_ rl lr <= off_ rl' n) (elts rl'))), NoDup_submseteq.
  - apply NoDup_cons. split; [|by apply NoDup_filter]. intros Hm. apply Hin in Hm as [_ Hm]. lia.
  - intros m Hm. apply list_elem_of_filter. apply elem_of_cons in Hm as [->|Hm]; [done|]. apply Hin in Hm as [? ?]. split; [lia|done].
Qed.

Lemma exit_loop_0 fuel rl lr : exit_loop fuel rl lr 0 = Ret rl.
Proof. by destruct fuel. Qed.

Lemma exit_loop_ok fuel rl lr len e :
  core rl [(off_ rl lr, e)] -> lr ∈ elts rl -> off_ rl lr < e <= UINT64_MAX -> len = e - off_ rl lr ->
  Z.of_nat (length (rl_held rl)) < 2 ^ 32 -> (ahead rl (off_ rl lr) <= fuel)%nat ->
  exists rl', exit_loop fuel rl lr len = Ret rl' /\ core rl' [] /\ exit_frame None rl rl'.
Proof.
  revert rl lr len. induction fuel as [|fuel IH]; intros rl lr len Hc Hlr He -> Hlen Hfuel.
  { unfold ahead in Hfuel. assert (lr ∈ filter (fun n => off_ rl lr <= off_ rl n) (elts rl)) as Hin by (by apply list_elem_of_filter).
    destruct (filter _ _); [by apply elem_of_nil in Hin|cbn in Hfuel; lia]. }
  destruct (core_first rl lr e [] Hc Hlr ltac:(lia)) as (Hp & Hle & _). destruct (core_ok _ _ Hc lr Hlr) as (Hl1 & Hl2 & _ & Ee).
  destruct (drop_ref_ok rl lr e Hc Hlr ltac:(lia) Hlen) as (Hc1 & Hf1 & Hk1).
  cbn [exit_loop]. rewrite (proj2 (Z.eqb_neq _ _)) by lia. rewrite (core_load _ _ Hc lr Hlr). cbn [mbind result_bind].
  assert (sub64 (e - off_ rl lr) (lr_length (at_ rl lr)) = e - fin_ rl lr) as ->.
  { rewrite sub64_small; unfold u64, UINT64_MAX, off, fin in *; lia. }
  destruct (Z.eqb_spec (e - fin_ rl lr) 0) as [E0|E0].
  - cbn [mbind result_bind]. rewrite E0, exit_loop_0. exists (drop_ref rl lr). split_and!; [done| |done].
    assert (fin_ rl lr = e) as Ef by lia. rewrite Ef in Hc1. by apply (core_empty _ e).
  - destruct (next_tile rl lr e Hc Hlr ltac:(lia)) as (nx & -> & Hnx & Enx & Hcnt & Hty).
    rewrite (core_load _ _ Hc nx Hnx). cbn [mbind result_bind]. rewrite Ee. change (lr_offset (at_ rl nx)) with (off_ rl nx).
    rewrite Enx, Z.eqb_refl, (proj2 (Z.eqb_neq (lr_count (at_ rl nx)) 0) Hcnt), bool_decide_true by done. cbn [verify negb mbind result_bind].
    assert (nx <> lr) as Hne by (intros ->; lia). destruct (Hk1 nx Hnx Hne) as [Hnx1 Es]. destruct (off_same _ _ _ Es) as (Eo1 & _).
    destruct (IH (drop_ref rl lr) nx (e - fin_ rl lr)) as (rl' & E' & Hc' & Hf'); rewrite ?Eo1, ?Enx; try done; [lia|..].
    + by rewrite (ef_held _ _ _ Hf1).
    + pose proof (ahead_drop rl lr _ Hc Hlr Hf1 (tk_NoDup _ _ (cr_tree _ _ Hc1))). lia.
    + exists rl'. split_and!; [exact E'|done|]. by apply (exit_frame_trans _ _ (drop_ref rl lr)).
Qed.

(** ** The handle *)

Lemma held_split (held : list addr) g : NoDup held -> g ∈ held -> held ≡ₚ g :: filter (fun a => a <> g) held.
Proof.
  intros Hnd Hg. apply NoDup_Permutation; [done|apply NoDup_cons; split; [|by apply NoDup_filter]|].
  - intros [? _]%list_elem_of_filter. done.
  - intros a. rewrite elem_of_cons, list_elem_of_filter. destruct (decide (a = g)) as [->|]; tauto.
Qed.

Lemma core_pc rl rl' X :
  core rl X -> rl_tree rl' = rl_tree rl -> rl_heap rl' = rl_heap rl -> rl_held rl' = rl_held rl -> core rl' X.
Proof. intros Hc Ht Hh Hd. apply (core_other rl); [done..|]. by rewrite Hh. Qed.

Lemma core_free rl X a : core rl X -> a ∉ elts rl -> a ∉ rl_held rl -> core (kmem_free rl a) X.
Proof.
  intros Hc H1 H2. apply (core_other rl); try done. intros n Hn. cbn. apply lookup_delete_ne. intros <-. tauto.
Qed.

(** A handle that is in the tree leaves it. *)
Lemma release_plain rl g :
  core rl [] -> g ∈ rl_held rl -> lr_count (at_ rl g) = 1 ->
  let rl' := set_tree (released rl g) (avl_remove (rl_tree rl) g) in
  core rl' [] /\ elts rl ≡ₚ g :: elts rl' /\ g ∉ elts rl'.
Proof.
  intros Hc Hg Hcnt rl'. pose proof (cr_held _ _ Hc g Hg) as [H1 H2 H3 H4 H5].
  assert (g ∈ elts rl) as HgT by (destruct H5 as [[_ ?]|[? _]]; [done|lia]).
  destruct (core_split _ _ Hc g HgT) as (T0 & HT & HgT0 & Hsub & _ & Ht & _). cbn [app] in Ht.
  destruct (tk_remove _ _ (cr_tree _ _ Hc) g HgT) as [Htk Hel].
  assert (elements (avl_remove (rl_tree rl) g) ≡ₚ T0) as HrT by (apply (Permutation_cons_inv (a := g)); by rewrite <- Hel, <- HT).
  pose proof (held_split _ g (cr_nodup _ _ Hc) Hg) as Hhs. split; [|split; [done|by cbn; rewrite HrT]].
  split; cbn [rl' released set_tree set_held rl_tree rl_heap rl_held app].
  - done.
  - eapply tiled_perm; [| |apply (tiled_remove_plain _ _ _ Ht H3)].
    + unfold nodes. cbn. by rewrite HrT.
    + by rewrite (claims_perm _ _ _ Hhs), claims_cons, decide_False by lia.
  - apply NoDup_filter, Hc.
  - intros k Hk. apply list_elem_of_filter in Hk as [Hkg Hk]. destruct (cr_held _ _ Hc k Hk) as [G1 G2 G3 G4 G5]. split; try done.
    rewrite HrT. rewrite HT, elem_of_cons in G5. destruct G5 as [[? [?|?]]|(? & ? & ?)]; [done|by left|]. right. split_and!; tauto.
  - intros n. rewrite HrT. intros Hn Hp. apply list_elem_of_filter. split; [by intros ->|]. apply (cr_plain _ _ Hc); auto.
Qed.

(** A handle that has proxies becomes the claim to be taken back. *)
Lemma release_claim rl g :
  core rl [] -> g ∈ rl_held rl -> lr_count (at_ rl g) = 0 -> core (released rl g) [(off_ rl g, fin_ rl g)].
Proof.
  intros Hc Hg Hcnt. pose proof (held_split _ g (cr_nodup _ _ Hc) Hg) as Hhs. pose proof (cr_held _ _ Hc g Hg) as [H1 H2 H3 H4 H5].
  split; cbn [released set_held rl_tree rl_heap rl_held app].
  - apply Hc.
  - eapply tiled_perm; [reflexivity| |apply (cr_tiled _ _ Hc)]. cbn [app]. by rewrite (claims_perm _ _ _ Hhs), claims_cons, decide_True.
  - apply NoDup_filter, Hc.
  - intros k [_ Hk]%list_elem_of_filter. by apply Hc.
  - intros n Hn Hp. apply list_elem_of_filter. split; [|by apply (cr_plain _ _ Hc)]. intros ->.
    destruct H5 as [[? _]|(_ & ? & _)]; [lia|done].
Qed.

Lemma exit_reader_ok rl g :
  core rl [] -> g ∈ rl_held rl -> lr_type (at_ rl g) = RL_READER -> Z.of_nat (length (rl_held rl)) < 2 ^ 32 ->
  exists rl', rangelock_exit_reader (released rl g) g = Ret rl' /\ core rl' [] /\ exit_frame (Some g) (released rl g) rl'.
Proof.
  intros Hc Hg Hty Hlen. pose proof (cr_held _ _ Hc g Hg) as [[r Hl] H2 H3 H4 H5]. pose proof (node_Some _ _ _ Hl) as E.
  assert (g ∉ rl_held (released rl g)) as HgH by (cbn; by intros [? _]%list_elem_of_filter).
  unfold rangelock_exit_reader. rewrite (load_Some (released rl g) _ _ Hl). cbn [mbind result_bind]. rewrite E in *.
  destruct (Z.eqb_spec (lr_count r) 1) as [E1|E1].
  - destruct (release_plain rl g Hc Hg) as (Hc1 & Hel & HgT); [by rewrite E|]. cbn [mbind result_bind]. eexists. split; [done|].
    assert (forall n, n <> g -> delete g (rl_heap rl) !! n = rl_heap rl !! n) as Hsame by (intros; by apply lookup_delete_ne).
    split; [apply core_free; [by eapply core_pc; [apply Hc1|..]|done|done]|]. split; try done; cbn.
    + intros t. apply (wake_woken (set_tree (released rl g) (avl_remove (rl_tree rl) g)) g r t).
    + intros a Hag Ha Hna. rewrite Hsame by congruence. split; [done|]. intros Hin. apply Hna. rewrite Hel. by right.
    + intros a Hag Ha _. rewrite Hel, elem_of_cons in Ha. destruct Ha as [->|]; done.
    + intros a Ha. split; [rewrite Hel; by right|]. rewrite (node_same (rl_heap rl)) by (apply Hsame; by intros ->). by destruct (at_ rl a).
    + intros t w a Hs Ha Hw. rewrite Hel, elem_of_cons in Ha. destruct Ha as [->|Ha]; [|done]. rewrite E in Hw.
      apply (wake_awake (set_tree (released rl g) (avl_remove (rl_tree rl) g))) in Hs. congruence.
  - destruct H5 as [[? _]|(E0 & HgT & _ & Hww & Hrw)]; [done|]. rewrite E0, Hww, Hrw. cbn [verify negb Z.eqb mbind result_bind].
    pose proof (release_claim rl g Hc Hg ltac:(by rewrite E)) as Hc1. destruct H2 as (Hok1 & Hok2 & Hok3).
    assert (off_ rl g = lr_offset r /\ fin_ rl g = lend r) as [Eo Ef] by (unfold off, fin, lend; by rewrite E).
    destruct (tiled_start _ _ _ (cr_tiled _ _ Hc1) ltac:(by left)) as (l & Hl' & Elo & _ & Elt); [cbn; rewrite Eo, Ef; unfold lend; lia|].
    apply list_elem_of_fmap in Hl' as (lr & -> & Hlr). cbn in Elo, Hlr.
    pose proof (tk_find _ _ (cr_tree _ _ Hc1) g ltac:(cbn; eauto)) as Hfind. unfold tree_find.
    destruct (avl_find (rl_tree (released rl g)) g) as [m|w].
    2: { exfalso. destruct Hfind as (Hh & G1 & G2). change (lr ∈ elts (released rl g)) in Hlr. rewrite (hole_elements _ _ Hh) in Hlr. unfold off in *. cbn in *.
         apply elem_of_app in Hlr as [Hlr|Hlr]; [apply G1 in Hlr|apply G2 in Hlr]; lia. }
    destruct Hfind as [Hm Em]. assert (m = lr) as -> by (apply (tk_inj _ _ (cr_tree _ _ Hc1)); [done..|rewrite Em; unfold off in *; cbn in *; lia]).
    rewrite (core_load _ _ Hc1 lr Hlr). cbn [mbind result_bind].
    change (off_ (released rl g) lr = off_ rl g) in Em.
    destruct (core_first (released rl g) lr (fin_ rl g) []) as (_ & _ & Hcnt); [by rewrite Em|done|rewrite Em, Eo, Ef; unfold lend; lia|].
    pose proof (cover_nonneg ([] ++ claims (rl_heap (released rl g)) (rl_held (released rl g))) (at_ (released rl g) lr)).
    rewrite (proj2 (Z.eqb_neq (lr_count (at_ (released rl g) lr)) 0)), bool_decide_true by (done || lia). cbn [verify negb mbind result_bind].
    destruct (exit_loop_ok (length (elts (released rl g))) (released rl g) lr (lr_length r) (fin_ rl g)) as (rl' & -> & Hc' & Hf').
    + by rewrite Em.
    + done.
    + rewrite Em, Eo, Ef. unfold lend. lia.
    + rewrite Em, Eo, Ef. unfold lend. lia.
    + cbn. pose proof (length_filter (fun a => a <> g) (rl_held rl)). lia.
    + apply length_filter.
    + cbn [mbind result_bind]. eexists. split; [done|]. destruct (ef_out _ _ _ Hf' g) as [_ HgT']; [done|cbn; eauto|done|].
      split; [apply core_free; [done..|by rewrite (ef_held _ _ _ Hf')]|]. apply exit_frame_weaken with (g := Some g) in Hf'.
      destruct Hf' as [B1 B2 B3 B6 B4 B5]. split; try done; cbn.
      * intros a Hag Ha Hna. destruct (B3 a Hag Ha Hna). rewrite lookup_delete_ne by congruence. done.
      * intros a Ha. destruct (B4 a Ha) as [Ha' Ea]. split; [done|]. by rewrite node_delete_ne by (by intros ->).
Qed.
