(* ===== verification/RangeLockProps.v ===== *)
(** * Range locks: what they promise

    The invariant of the reachable states, and the properties of the lock:
    exclusion, safety, who is granted a range, and that nobody sleeps without
    a reason. *)

From stdpp Require Import gmap.
From S2P Require Import Prelude Avl RangeLock RangeLockTree RangeLockTiles RangeLockInv RangeLockReader RangeLockEnter RangeLockExit.

(** Memory that belongs to a thread inside an operation. *)
Definition private (p : rplace) : option addr :=
  match p with
  | WriteWait _ _ new _ _ _ | ReadWait _ _ new => Some new
  | Exiting lr => Some lr
  | _ => None
  end.

Definition place_ok (rl : rangelock) (p : rplace) : Prop :=
  match p with
  | WriteWait _ _ new _ _ ty => (exists o l, rl_heap rl !! new = Some (request o l RL_WRITER) /\ range_ok o l) /\ ty <> RL_READER
  | ReadWait _ _ new => exists o l, rl_heap rl !! new = Some (request o l RL_READER) /\ range_ok o l
  | Reducing lr => lr ∈ rl_held rl /\ lr_type (at_ rl lr) = RL_WRITER
  | _ => True
  end.

(** The reason to sleep: a node in the way, or one that a thread is about to
    give up, with the flag that makes that thread wake the sleeper. *)
Definition sleeping (S : tid -> Prop) (rl : rangelock) (p : rplace) (w : bool) (lr : addr) : Prop :=
  wanted w (at_ rl lr) = true /\
  ((lr ∈ elts rl /\ exists new, private p = Some new /\ in_way rl (at_ rl new) lr) \/
   (lr ∈ elts rl /\ exists v, S v /\ rl_pc rl v = Reducing lr) \/
   (exists v, S v /\ rl_pc rl v = Exiting lr)).

(** The invariant, for the threads of [S], who may be woken by those of
    [W]. *)
Record rl_inv (S W : tid -> Prop) (rl : rangelock) : Prop := {
  iv_core : core rl [];
  iv_len : Z.of_nat (length (rl_held rl)) < 2 ^ 32;
  iv_inj t u a : S t -> S u -> private (rl_pc rl t) = Some a -> private (rl_pc rl u) = Some a -> t = u;
  iv_priv t a : S t -> private (rl_pc rl t) = Some a -> is_Some (rl_heap rl !! a) /\ a ∉ elts rl /\ a ∉ rl_held rl;
  iv_place t : S t -> place_ok rl (rl_pc rl t);
  iv_sleep t w lr : S t -> sleeps_on (rl_pc rl t) w lr -> sleeping W rl (rl_pc rl t) w lr;
}.

Notation everyone := (fun _ : tid => True).
Notation but t := (fun u : tid => u <> t).
Notation rl_ok := (rl_inv everyone everyone).
Notation rl_ok_but t := (rl_inv (but t) (but t)).

Lemma woken_private p p' : woken p p' -> private p' = private p.
Proof. destruct p as [|[]|[]| |]; cbn; intros H; try (by subst); by destruct H as [-> | ->]. Qed.

(** A change that leaves the threads of [S] where they are, or wakes them. *)
Lemma inv_frame S W W' rl rl' :
  rl_inv S W rl -> core rl' [] -> Z.of_nat (length (rl_held rl')) < 2 ^ 32 ->
  (forall u, S u -> woken (rl_pc rl u) (rl_pc rl' u)) ->
  (forall u a, S u -> private (rl_pc rl u) = Some a -> rl_heap rl' !! a = rl_heap rl !! a /\ a ∉ elts rl' /\ a ∉ rl_held rl') ->
  (forall u lr, S u -> rl_pc rl u = Reducing lr -> lr ∈ rl_held rl' /\ lr_type (at_ rl' lr) = RL_WRITER) ->
  (forall u w lr, S u -> sleeps_on (rl_pc rl' u) w lr -> sleeping W rl (rl_pc rl u) w lr -> sleeping W' rl' (rl_pc rl' u) w lr) ->
  rl_inv S W' rl'.
Proof.
  intros [I1 I2 I3 I4 I5 I6] Hc Hlen Hpc Hout Hred Hsl. split; try done.
  - intros t u a Ht Hu. rewrite (woken_private _ _ (Hpc t Ht)), (woken_private _ _ (Hpc u Hu)). by apply I3.
  - intros t a Ht. rewrite (woken_private _ _ (Hpc t Ht)). intros Ha. destruct (Hout t a Ht Ha) as (-> & ? & ?). split_and!; try done. by apply (I4 t).
  - intros t Ht. pose proof (Hpc t Ht) as Hw. pose proof (I5 t Ht) as Hp. pose proof (Hout t) as Ho. pose proof (Hred t) as Hr.
    destruct (rl_pc rl t) as [|[]|[]| |]; cbn in Hw; [by rewrite Hw|destruct Hw as [-> | ->]|rewrite Hw|destruct Hw as [-> | ->]|rewrite Hw|by rewrite Hw|rewrite Hw];
      cbn in *; try (destruct (Ho new Ht eq_refl) as (-> & _)); try done. by apply Hr.
  - intros t w lr Ht Hs. apply Hsl; [done..|]. apply I6; [done|]. by rewrite (woken_sleeps _ _ _ _ (Hpc t Ht) Hs) in Hs.
Qed.

(** The reason to sleep stays. *)
Lemma sleeping_keep W W' rl rl' p w lr :
  sleeping W rl p w lr ->
  (forall new, private p = Some new -> rl_heap rl' !! new = rl_heap rl !! new) ->
  (lr ∈ elts rl -> wanted w (at_ rl lr) = true ->
   lr ∈ elts rl' /\ lr_offset (at_ rl' lr) = lr_offset (at_ rl lr) /\ lr_length (at_ rl' lr) = lr_length (at_ rl lr) /\ wanted w (at_ rl' lr) = true) ->
  (forall v, W v -> rl_pc rl v = Reducing lr \/ rl_pc rl v = Exiting lr -> W' v /\ rl_pc rl' v = rl_pc rl v) ->
  (forall v, W v -> rl_pc rl v = Exiting lr -> rl_heap rl' !! lr = rl_heap rl !! lr) ->
  sleeping W' rl' p w lr.
Proof.
  intros [Hw Hcase] Hnew Hkeep Hpc Hex. destruct Hcase as [(Hin & new & Hp & (_ & Hlt & Hgt))|[(Hin & v & Hv & Ev)|(v & Hv & Ev)]].
  - destruct (Hkeep Hin Hw) as (Hin' & Eo & El & Hw'). split; [done|]. left. split; [done|]. exists new. split; [done|].
    rewrite (node_same _ _ _ (Hnew new Hp)). unfold in_way, off, fin in *. by rewrite Eo, El.
  - destruct (Hkeep Hin Hw) as (Hin' & _ & _ & Hw'). split; [done|]. right; left. split; [done|]. destruct (Hpc v Hv) as [? E]; [by left|]. exists v. by rewrite E.
  - split; [by rewrite (node_same _ _ _ (Hex v Hv Ev))|]. right; right. destruct (Hpc v Hv) as [? E]; [by right|]. exists v. by rewrite E.
Qed.

(** Leaving a thread out, and bringing it back. *)
Lemma inv_out t rl :
  rl_ok rl -> (forall lr, rl_pc rl t <> Exiting lr /\ rl_pc rl t <> Reducing lr) -> rl_ok_but t rl.
Proof.
  intros [I1 I2 I3 I4 I5 I6] Ht. split; eauto. intros u w lr Hu Hs. destruct (I6 u w lr I Hs) as [Hw Hcase]. split; [done|].
  destruct Hcase as [?|[(Hin & v & _ & Ev)|(v & _ & Ev)]]; [by left|..]; right; [left|right]; [split; [done|]|]; exists v; (split; [|done]); intros ->; by destruct (Ht lr).
Qed.

Lemma inv_in t rl :
  rl_inv (but t) everyone rl ->
  (forall a, private (rl_pc rl t) = Some a -> (forall u, u <> t -> private (rl_pc rl u) <> Some a) /\
     is_Some (rl_heap rl !! a) /\ a ∉ elts rl /\ a ∉ rl_held rl) ->
  place_ok rl (rl_pc rl t) ->
  (forall w lr, sleeps_on (rl_pc rl t) w lr -> sleeping everyone rl (rl_pc rl t) w lr) ->
  rl_ok rl.
Proof.
  intros [I1 I2 I3 I4 I5 I6] Hp Hpl Hs. split; try done.
  - intros u v a _ _ Hu Hv. destruct (decide (u = t)) as [->|Hut], (decide (v = t)) as [->|Hvt]; [done|..].
    + destruct (Hp a Hu) as [Hn _]. by apply Hn in Hv.
    + destruct (Hp a Hv) as [Hn _]. by apply Hn in Hu.
    + by apply (I3 u v a).
  - intros u a _ Hu. destruct (decide (u = t)) as [->|Hut]; [by apply Hp|by apply (I4 u)].
  - intros u _. destruct (decide (u = t)) as [->|Hut]; auto.
  - intros u w lr _ Hu. destruct (decide (u = t)) as [->|Hut]; auto.
Qed.

(** ** A thread that asks for a range *)

Lemma wanted_blocks rl X lr w : core rl X -> lr ∈ elts rl -> wanted w (at_ rl lr) = true -> blocks_reader (at_ rl lr) = true.
Proof.
  intros Hc Hlr Hw. destruct (core_node _ _ Hc lr Hlr) as (l & _ & E & Hn). rewrite E in *. destruct w; cbn in Hw.
  - unfold blocks_reader. rewrite Hw. apply orb_true_r.
  - by apply (nt_read _ _ Hn).
Qed.

Lemma held_writer rl X g : core rl X -> g ∈ rl_held rl -> lr_type (at_ rl g) = RL_WRITER ->
  g ∈ elts rl /\ blocks_reader (at_ rl g) = true /\ lr_count (at_ rl g) = 1.
Proof.
  intros Hc Hg Hty. destruct (cr_held _ _ Hc g Hg) as [_ _ _ _ [[? ?]|(_ & _ & ? & _)]]; [|congruence].
  split_and!; [done| |done]. unfold blocks_reader. by rewrite bool_decide_true.
Qed.

Lemma got_inv t rl new n rl' :
  rl_ok_but t rl -> few_held rl -> (forall u, u <> t -> private (rl_pc rl u) <> Some new) ->
  got rl t new n rl' -> rl_ok rl'.
Proof.
  intros Hi Hfew Hpriv (rl1 & c & -> & Hc1 & [Hpc Hh Ho Hb] & Hn). pose proof (iv_core _ _ _ Hi) as Hc.
  apply (inv_in t); cbn; rewrite ?upd_eq; try done. apply (inv_frame (but t) (but t) everyone rl); cbn.
  - done.
  - by apply (core_pc (grant rl1 new)).
  - rewrite Hh. unfold few_held in Hfew. lia.
  - intros u Hu. rewrite upd_ne, Hpc by done. apply woken_refl.
  - intros u a Hu Ha. destruct (iv_priv _ _ _ Hi u a Hu Ha) as (Hs & Hna & Hnh). assert (a <> new) as Han by (intros ->; by apply (Hpriv u Hu)).
    destruct (Ho a Han Hs Hna) as [E Hna']. split_and!; [done..|]. rewrite Hh, elem_of_cons. intros [?|?]; done.
  - intros u lr Hu E. pose proof (iv_place _ _ _ Hi u Hu) as Hp. rewrite E in Hp. destruct Hp as [Hlr Hty].
    destruct (held_writer _ _ lr Hc Hlr Hty) as (Hin & Hbl & _). destruct (Hb lr Hin Hbl) as [E' _]. rewrite Hh, elem_of_cons.
    split; [by right|]. by rewrite (node_same _ _ _ E').
  - intros u w lr Hu Hs Hsl. rewrite upd_ne, Hpc by done. apply (sleeping_keep (but t) everyone rl); cbn; try done.
    + intros a Ha. destruct (iv_priv _ _ _ Hi u a Hu Ha) as (Hsm & Hna & Hnh). assert (a <> new) as Han by (intros ->; by apply (Hpriv u Hu)).
      by apply Ho.
    + intros Hin Hw. destruct (Hb lr Hin (wanted_blocks _ _ _ _ Hc Hin Hw)) as [E Hin']. rewrite (node_same _ _ _ E). done.
    + intros v Hv _. split; [done|]. by rewrite upd_ne, Hpc by done.
    + intros v Hv E. destruct (iv_priv _ _ _ Hi v lr Hv) as (Hsm & Hna & Hnh); [by rewrite E|]. apply Ho; [|done..].
      intros ->. apply (Hpriv v Hv). by rewrite E.
Qed.

(** It sets a flag of [lr] and sleeps. *)
Lemma wait_inv t rl new lr l p w :
  rl_ok_but t rl -> (forall u, u <> t -> private (rl_pc rl u) <> Some new) ->
  is_Some (rl_heap rl !! new) -> new ∉ elts rl -> new ∉ rl_held rl ->
  lr ∈ elts rl -> in_way rl (at_ rl new) lr ->
  core (store rl lr l) [] -> lr_offset l = lr_offset (at_ rl lr) -> lr_length l = lr_length (at_ rl lr) ->
  lr_type l = lr_type (at_ rl lr) -> wanted w l = true -> (forall w', wanted w' (at_ rl lr) = true -> wanted w' l = true) ->
  private p = Some new -> place_ok rl p -> sleeps_on p w lr -> (forall w' lr', sleeps_on p w' lr' -> w' = w /\ lr' = lr) ->
  rl_ok (set_place (store rl lr l) t p).
Proof.
  intros Hi Hpriv Hs HnT HnH Hlr (_ & Hlt & Hgt) Hc1 Eo El Ety Hw Hwm Hp Hpl Hsl Hsu. set (rl' := set_place (store rl lr l) t p).
  assert (forall a, a <> lr -> rl_heap rl' !! a = rl_heap rl !! a) as Hsame by (intros; by apply lookup_insert_ne).
  assert (at_ rl' lr = l) as Elr by apply node_insert.
  assert (new <> lr) as Hne by (by intros ->).
  assert (place_ok rl' p) as Hpl'.
  { destruct p as [|? ? new' ? ? ?|? ? new'|?|?]; try done; cbn in Hp; injection Hp as ->; unfold place_ok in *; by rewrite Hsame. }
  apply (inv_in t).
  - apply (inv_frame (but t) (but t) everyone rl); try done.
    + by apply (core_pc (store rl lr l)).
    + apply Hi.
    + intros u Hu. cbn. rewrite upd_ne by done. apply woken_refl.
    + intros u a Hu Ha. destruct (iv_priv _ _ _ Hi u a Hu Ha) as (? & ? & ?). rewrite Hsame by (by intros ->). done.
    + intros u k Hu E. pose proof (iv_place _ _ _ Hi u Hu) as Hpk. rewrite E in Hpk. destruct Hpk as [Hk Hty]. split; [done|].
      destruct (decide (k = lr)) as [->|Hkl]; [by rewrite Elr, Ety|]. by rewrite (node_same _ _ _ (Hsame k Hkl)).
    + intros u w' k Hu Hsk Hslk. cbn. rewrite upd_ne by done. apply (sleeping_keep (but t) everyone rl); try done.
      * intros a Ha. destruct (iv_priv _ _ _ Hi u a Hu Ha) as (? & ? & ?). apply Hsame. by intros ->.
      * intros Hin Hwk. destruct (decide (k = lr)) as [->|Hkl]; [rewrite Elr; auto|]. rewrite (node_same _ _ _ (Hsame k Hkl)). done.
      * intros v Hv _. split; [done|]. cbn. by rewrite upd_ne.
      * intros v Hv E. apply Hsame. intros ->. destruct (iv_priv _ _ _ Hi v lr Hv) as (_ & ? & _); [by rewrite E|done].
  - cbn. rewrite upd_eq, Hp. intros a [= <-]. split; [intros u Hu; rewrite upd_ne by done; auto|]. by rewrite lookup_insert_ne by done.
  - cbn. by rewrite upd_eq.
  - change (rl_pc rl' t) with (upd (rl_pc rl) t p t). rewrite upd_eq. intros w' k Hk. destruct (Hsu w' k Hk) as [-> ->].
    split; [by rewrite Elr|]. left. split; [done|]. exists new. split; [done|]. rewrite (node_same _ _ _ (Hsame new Hne)).
    unfold in_way, off, fin in *. rewrite Elr, Eo, El. done.
Qed.

Lemma sleeps_read_inv t rl new o k rl' :
  rl_ok_but t rl -> (forall u, u <> t -> private (rl_pc rl u) <> Some new) -> fresh_handle rl new (request o k RL_READER) ->
  sleeps_read rl t new (request o k RL_READER) rl' -> rl_ok rl'.
Proof.
  intros Hi Hpriv Hn (lr & Hway & Hb & ->). pose proof (fh_load _ _ _ Hn) as Hl. pose proof (iv_core _ _ _ Hi) as Hc.
  assert (lr ∈ elts rl) as Hlr by apply Hway.
  apply (wait_inv t rl new lr _ _ false); try done; try (by apply Hn); try (rewrite Hl; done).
  - by rewrite (node_Some _ _ _ Hl).
  - by apply core_flag.
  - intros [] Hw; done.
  - exists o, k. split; [done|]. apply (fh_ok _ _ _ Hn).
  - intros w' lr' [-> ->]. done.
Qed.

Lemma sleeps_write_inv t rl new o k o' l' ty' rl' :
  ty' <> RL_READER -> rl_ok_but t rl -> (forall u, u <> t -> private (rl_pc rl u) <> Some new) -> fresh_handle rl new (request o k RL_WRITER) ->
  sleeps_write rl t new (request o k RL_WRITER) o' l' ty' rl' -> rl_ok rl'.
Proof.
  intros Hty Hi Hpriv Hn (lr & Hway & ->). pose proof (fh_load _ _ _ Hn) as Hl. pose proof (iv_core _ _ _ Hi) as Hc.
  assert (lr ∈ elts rl) as Hlr by apply Hway.
  apply (wait_inv t rl new lr _ _ true); try done; try (by apply Hn); try (rewrite Hl; done).
  - by rewrite (node_Some _ _ _ Hl).
  - apply core_flag; try done. intros _. unfold blocks_reader. apply orb_true_r.
  - intros [] Hw; done.
  - split; [|done]. exists o, k. split; [done|]. apply (fh_ok _ _ _ Hn).
  - intros w' lr' [-> ->]. done.
Qed.

(** ** The steps *)

Lemma inv_store_handle S rl new n :
  rl_inv S S rl -> new ∉ elts rl -> new ∉ rl_held rl -> (forall u, S u -> private (rl_pc rl u) <> Some new) ->
  rl_inv S S (store rl new n).
Proof.
  intros Hi HnT HnH Hpriv. destruct (store_handle rl [] new n (iv_core _ _ _ Hi) HnT HnH) as [Hc1 Hs1].
  assert (forall a, a <> new -> rl_heap (store rl new n) !! a = rl_heap rl !! a) as Hsame by (intros; by apply lookup_insert_ne).
  apply (inv_frame S S S rl); try done.
  - apply Hi.
  - intros u _. apply woken_refl.
  - intros u a Hu Ha. destruct (iv_priv _ _ _ Hi u a Hu Ha) as (? & ? & ?). rewrite Hsame; [done|]. intros ->. by apply (Hpriv u Hu).
  - intros u lr Hu E. pose proof (iv_place _ _ _ Hi u Hu) as Hp. rewrite E in Hp. destruct Hp as [Hlr Hty]. split; [done|].
    rewrite (node_same _ _ _ (Hsame lr ltac:(by intros ->))). done.
  - intros u w lr Hu Hs Hsl. apply (sleeping_keep S S rl); try done.
    + intros a Ha. apply Hsame. intros ->. by apply (Hpriv u Hu).
    + intros Hin Hw. rewrite (node_same _ _ _ (Hsame lr ltac:(by intros ->))). done.
    + intros v Hv E. apply Hsame. intros ->. apply (Hpriv v Hv). by rewrite E.
Qed.

Lemma alloc_handle `{!RangeKmem} S W rl :
  rl_inv S W rl -> let new := kmem_alloc (rl_heap rl) in
  new ∉ elts rl /\ new ∉ rl_held rl /\ forall u, S u -> private (rl_pc rl u) <> Some new.
Proof.
  intros Hi new. assert (rl_heap rl !! new = None) as E by apply kmem_alloc_fresh. pose proof (iv_core _ _ _ Hi) as Hc. split_and!.
  - intros Hin. destruct (tk_dom _ _ (cr_tree _ _ Hc) new Hin). congruence.
  - intros Hin. destruct (core_held_in _ _ Hc new Hin). congruence.
  - intros u Hu Hp. destruct (iv_priv _ _ _ Hi u new Hu Hp) as [[? ?] _]. congruence.
Qed.

Lemma clamp_spec off len : 0 <= off < UINT64_MAX -> 0 < len < 2 ^ 64 ->
  (if add64 len off <? off then sub64 UINT64_MAX off else len) = clamp off len /\ range_ok off (clamp off len).
Proof.
  intros Ho Hl. unfold clamp, range_ok, UINT64_MAX in *. destruct (Z.ltb_spec (off + len) (2 ^ 64)) as [Hlt|Hge].
  - rewrite add64_small by (unfold u64; lia). rewrite (proj2 (Z.ltb_ge _ _)) by lia. split; [done|lia].
  - assert (add64 len off = len + off - 2 ^ 64) as ->.
    { unfold add64, wrap64. symmetry. apply (Z.mod_unique_pos _ _ 1); lia. }
    rewrite (proj2 (Z.ltb_lt _ _)), sub64_small by (unfold u64; lia). split; [done|lia].
Qed.

(** What a request comes to, with the handle [new] holding the range [n]. *)
Definition outcome (rl : rangelock) (t : tid) (new : addr) (n : locked_range) (o l : Z) (ty : rangelock_type) (rl' : rangelock) : Prop :=
  if decide (ty = RL_READER) then reader_outcome rl t new n rl' else writer_outcome rl t new n o l ty rl'.

Lemma outcome_inv t rl new o' k' o l ty rl' :
  rl_ok_but t rl -> few_held rl -> (forall u, u <> t -> private (rl_pc rl u) <> Some new) ->
  let n := request o' k' (if decide (ty = RL_READER) then RL_READER else RL_WRITER) in
  fresh_handle rl new n -> outcome rl t new n o l ty rl' -> rl_ok rl'.
Proof.
  intros Hi Hfew Hpriv n Hn. unfold outcome, n in *. destruct (decide (ty = RL_READER)) as [->|Hty].
  - intros [[_ Hg]|Hs]; [exact (got_inv t rl new _ rl' Hi Hfew Hpriv Hg)|by apply (sleeps_read_inv t rl new o' k')].
  - intros [[_ Hg]|Hs]; [exact (got_inv t rl new _ rl' Hi Hfew Hpriv Hg)|by apply (sleeps_write_inv t rl new o' k' o l ty)].
Qed.

(** The range a request asks for: the callback may change a writer's. *)
Definition asks (cb : option (locked_range -> locked_range)) (o l : Z) (ty : rangelock_type) (n : locked_range) : Prop :=
  if decide (ty = RL_READER) then n = request o l RL_READER else n = cb_apply cb (request o l ty).

Section Kmem.
Context `{!RangeKmem}.

Lemma write_turn_step cb rl t new o l ty :
  rl_ok_but t rl -> few_held rl -> (forall u, u <> t -> private (rl_pc rl u) <> Some new) ->
  rl_heap rl !! new = Some (request o l ty) -> new ∉ elts rl -> new ∉ rl_held rl -> ty <> RL_READER -> cb_ok cb (request o l ty) ->
  exists n rl', asks cb o l ty n /\ lr_ok n /\ writer_loop cb rl t new o l ty = Ret rl' /\
    outcome (store rl new n) t new n o l ty rl' /\ rl_ok rl'.
Proof using All.
  intros Hi Hfew Hpriv Hl HnT HnH Hty Hcb.
  destruct (writer_loop_ok cb rl t new o l ty (iv_core _ _ _ Hi) Hl HnT HnH Hcb) as (o' & l' & rl' & Hok & Ecb & E & Hout).
  exists (request o' l' RL_WRITER), rl'. unfold asks, outcome. rewrite !decide_False by done. split_and!; [done..|].
  pose proof (outcome_inv t (store rl new (request o' l' RL_WRITER)) new o' l' o l ty rl') as Hinv. unfold outcome in Hinv.
  rewrite !decide_False in Hinv by done. apply Hinv; try done; [by apply inv_store_handle|].
  apply request_handle; try done. cbn. apply lookup_insert_eq.
Qed.

(** The handle with the request, then with the range asked for. *)
Definition requested (rl : rangelock) (new : addr) (r n : locked_range) : rangelock := store (store rl new r) new n.

Lemma enter_step rl t off len ty cb :
  rl_ok rl -> allowed rl (OpEnter t off len ty cb) ->
  let new := kmem_alloc (rl_heap rl) in
  exists n rl', asks cb off (clamp off len) ty n /\ lr_ok n /\ rangelock_enter cb rl t off len ty = Ret rl' /\
    outcome (requested rl new (request off (clamp off len) ty) n) t new n off (clamp off len) ty rl' /\ rl_ok rl'.
Proof using All.
  intros Hi (Hpc & Hfew & Ho & Hlen & Hcb) new. destruct (clamp_spec off len Ho Hlen) as [Ecl Hok].
  assert (rl_ok_but t rl) as Hi' by (apply inv_out; [done|]; rewrite Hpc; done).
  destruct (alloc_handle _ _ _ Hi) as (HnT & HnH & Hpriv). fold new in HnT, HnH, Hpriv.
  assert (forall u, u <> t -> private (rl_pc rl u) <> Some new) as Hpriv' by auto.
  unfold rangelock_enter. rewrite Ecl. fold new. set (l := clamp off len) in *. change (LockedRange off l 1 ty false false false) with (request off l ty).
  set (rl1 := store rl new (request off l ty)).
  assert (rl_ok_but t rl1) as Hi1 by (by apply inv_store_handle).
  assert (rl_heap rl1 !! new = Some (request off l ty)) as Hl1 by (cbn; apply lookup_insert_eq).
  destruct (decide (ty = RL_READER)) as [->|Hty].
  - rewrite bool_decide_true by done. exists (request off l RL_READER).
    assert (fresh_handle rl1 new (request off l RL_READER)) as Hn by (by apply request_handle).
    assert (store rl1 new (request off l RL_READER) = rl1) as Est by (unfold rl1, store, set_heap; cbn; by rewrite insert_insert_eq).
    assert (exists rl', (if avl_numnodes (rl_tree rl1) =? 0 then rl ← tree_add rl1 new; Ret (granted rl t new) else rangelock_enter_reader rl1 t new) = Ret rl' /\
      reader_outcome rl1 t new (request off l RL_READER) rl') as (rl' & E & Hout).
    { pose proof (iv_core _ _ _ Hi1) as Hc1. destruct (Z.eqb_spec (avl_numnodes (rl_tree rl1)) 0) as [E0|E0]; [|by apply enter_reader_ok].
      apply (numnodes_zero rl1 [] Hc1) in E0. destruct (grant_empty rl1 t new _ Hc1 Hn E0) as (rl' & E & Hg). exists rl'. split; [done|]. left. split; [|done].
      intros m. rewrite E0. by intros ?%elem_of_nil. }
    exists rl'. unfold asks, outcome, requested. fold rl1. rewrite Est, !decide_True by done. split_and!; [done..|].
    apply (outcome_inv t rl1 new off l off l RL_READER); [done..|]. unfold outcome. by rewrite decide_True.
  - rewrite bool_decide_false by done. unfold rangelock_enter_writer. rewrite (load_Some _ _ _ Hl1). cbn [mbind result_bind].
    destruct (write_turn_step cb rl1 t new off l ty) as (n & rl' & Ha & Hokn & E & Hout & Hinv); try done; [auto|].
    exists n, rl'. done.
Qed.

Lemma woken_write_step rl t lr new o l ty cb :
  rl_ok rl -> rl_pc rl t = WriteWait false lr new o l ty -> few_held rl -> cb_ok cb (request o l ty) ->
  exists n rl', asks cb o l ty n /\ lr_ok n /\ writer_woken cb rl t new o l ty = Ret rl' /\
    outcome (store (store rl new (request o l ty)) new n) t new n o l ty rl' /\ rl_ok rl'.
Proof using All.
  intros Hi Hpc Hfew Hcb.
  assert (rl_ok_but t rl) as Hi' by (apply inv_out; [done|]; rewrite Hpc; done).
  destruct (iv_priv _ _ _ Hi t new I) as (_ & HnT & HnH); [by rewrite Hpc|].
  assert (forall u, u <> t -> private (rl_pc rl u) <> Some new) as Hpriv.
  { intros u Hu Hp. apply Hu, (iv_inj _ _ _ Hi u t new I I Hp). by rewrite Hpc. }
  pose proof (iv_place _ _ _ Hi t I) as Hp. rewrite Hpc in Hp. destruct Hp as ((o' & l' & Hl & _) & Hty).
  unfold writer_woken. rewrite (load_Some _ _ _ Hl). cbn [mbind result_bind].
  change (set_range (request o' l' RL_WRITER) o l ty) with (request o l ty).
  apply write_turn_step; try done; [by apply inv_store_handle|]. cbn. apply lookup_insert_eq.
Qed.

Lemma woken_read_step rl t lr new :
  rl_ok rl -> rl_pc rl t = ReadWait false lr new -> few_held rl ->
  exists o l rl', rl_heap rl !! new = Some (request o l RL_READER) /\ range_ok o l /\ rangelock_enter_reader rl t new = Ret rl' /\
    reader_outcome rl t new (request o l RL_READER) rl' /\ rl_ok rl'.
Proof using All.
  intros Hi Hpc Hfew. assert (rl_ok_but t rl) as Hi' by (apply inv_out; [done|]; rewrite Hpc; done).
  destruct (iv_priv _ _ _ Hi t new I) as (_ & HnT & HnH); [by rewrite Hpc|].
  assert (forall u, u <> t -> private (rl_pc rl u) <> Some new) as Hpriv.
  { intros u Hu Hp. apply Hu, (iv_inj _ _ _ Hi u t new I I Hp). by rewrite Hpc. }
  pose proof (iv_place _ _ _ Hi t I) as Hp. rewrite Hpc in Hp. destruct Hp as (o & l & Hl & Hok).
  assert (fresh_handle rl new (request o l RL_READER)) as Hn by (by apply request_handle).
  destruct (enter_reader_ok rl t new _ (iv_core _ _ _ Hi) Hn eq_refl Hfew) as (rl' & E & Hout). exists o, l, rl'. split_and!; [done..|].
  apply (outcome_inv t rl new o l o l RL_READER); [done..|]. unfold outcome. by rewrite decide_True.
Qed.
End Kmem.

(** Giving back a range read. *)
Lemma exit_frame_inv rl g rl' :
  rl_ok rl -> g ∈ rl_held rl -> (forall u, rl_pc rl u <> Reducing g) -> core rl' [] -> exit_frame (Some g) (released rl g) rl' ->
  rl_ok rl'.
Proof.
  intros Hi Hg Hred Hc' [F1 F2 F3 F4 F5 F6]. pose proof (iv_core _ _ _ Hi) as Hc. cbn in F1, F2, F3, F4, F5, F6.
  assert (forall u a, private (rl_pc rl u) = Some a -> rl_heap rl' !! a = rl_heap rl !! a /\ a ∉ elts rl' /\ a ∉ rl_held rl') as Hout.
  { intros u a Ha. destruct (iv_priv _ _ _ Hi u a I Ha) as (Hs & HaT & HaH). destruct (F3 a) as [? ?]; [by intros [= <-]|done..|].
    split_and!; [done..|]. rewrite F1. by intros [_ ?]%list_elem_of_filter. }
  apply (inv_frame everyone everyone everyone rl); try done.
  - rewrite F1. pose proof (iv_len _ _ _ Hi). pose proof (length_filter (fun a => a <> g) (rl_held rl)). lia.
  - intros u a _. apply Hout.
  - intros u lr _ E. pose proof (iv_place _ _ _ Hi u I) as Hp. rewrite E in Hp. destruct Hp as [Hlr Hty].
    assert (lr <> g) as Hne by (intros ->; by apply (Hred u)). split; [rewrite F1; by apply list_elem_of_filter|].
    destruct (held_writer _ _ lr Hc Hlr Hty) as (Hin & _ & _). destruct (F5 lr) as [_ ->]; [|done].
    apply F4; [by intros [= <-]|done|]. apply (ho_proxy _ _ _ (cr_held _ _ Hc lr Hlr)).
  - intros u w lr _ Hs Hsl. rewrite (woken_sleeps _ _ _ _ (F2 u) Hs). apply (sleeping_keep everyone everyone rl); try done.
    + intros a Ha. by apply (Hout u).
    + intros Hin Hw. pose proof (F6 u w lr Hs Hin Hw) as Hin'. destruct (F5 lr Hin') as [_ ->]. by destruct w.
    + intros v _ Hv. split; [done|]. specialize (F2 v). destruct Hv as [E|E]; rewrite E in *; done.
    + intros v _ E. apply (Hout v). by rewrite E.
Qed.

(** Giving back a range written: it leaves the tree, its waiters are still to
    be woken. *)
Lemma exit_writer_inv rl t g :
  rl_ok rl -> rl_pc rl t = Outside -> g ∈ rl_held rl -> (forall u, rl_pc rl u <> Reducing g) -> lr_type (at_ rl g) = RL_WRITER ->
  rl_ok (released (set_place (set_tree rl (avl_remove (rl_tree rl) g)) t (Exiting g)) g).
Proof.
  intros Hi Hpc Hg Hred Hty. pose proof (iv_core _ _ _ Hi) as Hc. destruct (held_writer _ _ g Hc Hg Hty) as (HgT & _ & Hcnt).
  destruct (release_plain rl g Hc Hg Hcnt) as (Hc1 & Hel & HgT'). cbn [released set_tree set_held rl_tree] in Hel, HgT'.
  set (rl' := released _ g). assert (rl_heap rl' = rl_heap rl) as Eh by done.
  assert (elts rl ≡ₚ g :: elts rl') as Hel' by done.
  assert (rl_inv (but t) (but t) rl) as Hi' by (apply inv_out; [done|]; rewrite Hpc; done).
  assert (forall a, a ∈ elts rl -> a <> g -> a ∈ elts rl') as Hin'.
  { intros a Ha Hne. rewrite Hel', elem_of_cons in Ha. by destruct Ha. }
  assert (forall u a, private (rl_pc rl u) = Some a -> rl_heap rl' !! a = rl_heap rl !! a /\ a ∉ elts rl' /\ a ∉ rl_held rl') as Hout.
  { intros u a Ha. destruct (iv_priv _ _ _ Hi u a I Ha) as (Hs & HaT & HaH). split_and!; [done|intros Hin; apply HaT; rewrite Hel'; by right|].
    cbn. by intros [_ ?]%list_elem_of_filter. }
  apply (inv_in t).
  - apply (inv_frame (but t) (but t) everyone rl); try done.
    + by eapply core_pc; [apply Hc1|..].
    + cbn. pose proof (iv_len _ _ _ Hi). pose proof (length_filter (fun a => a <> g) (rl_held rl)). lia.
    + intros u Hu. cbn. rewrite upd_ne by done. apply woken_refl.
    + intros u a _. apply Hout.
    + intros u lr Hu E. pose proof (iv_place _ _ _ Hi u I) as Hp. rewrite E in Hp. destruct Hp as [Hlr Hlty].
      split; [|done]. cbn. apply list_elem_of_filter. split; [|done]. intros ->. by apply (Hred u).
    + intros u w lr Hu Hs [Hw Hcase]. change (rl_pc rl' u) with (upd (rl_pc rl) t (Exiting g) u). rewrite upd_ne by done.
      destruct (decide (lr = g)) as [->|Hne].
      * split; [done|]. right; right. exists t. split; [done|]. cbn. by rewrite upd_eq.
      * apply (sleeping_keep (but t) everyone rl); try done.
        -- intros Hin _. auto.
        -- intros v Hv _. split; [done|]. cbn. by rewrite upd_ne.
  - cbn. rewrite upd_eq. intros a [= <-]. split_and!; [|apply (core_held_in _ _ Hc g Hg)|done|by intros [? _]%list_elem_of_filter].
    intros u Hu. rewrite upd_ne by done. intros Hp. by destruct (iv_priv _ _ _ Hi u g I Hp) as (_ & _ & ?).
  - cbn. by rewrite upd_eq.
  - cbn. by rewrite upd_eq.
Qed.

Lemma exit_step rl t g :
  rl_ok rl -> rl_pc rl t = Outside -> g ∈ rl_held rl -> (forall u, rl_pc rl u <> Reducing g) ->
  exists rl', rangelock_exit rl t g = Ret rl' /\ rl_ok rl' /\ rl_held rl' = filter (fun a => a <> g) (rl_held rl).
Proof.
  intros Hi Hpc Hg Hred. pose proof (iv_core _ _ _ Hi) as Hc. pose proof (cr_held _ _ Hc g Hg) as [[l Hl] H2 H3 H4 H5].
  pose proof (node_Some _ _ _ Hl) as E. unfold rangelock_exit. rewrite (load_Some _ _ _ Hl). cbn [mbind result_bind]. rewrite E in *.
  assert ((lr_count l =? 1) || (lr_count l =? 0) = true) as ->.
  { destruct H5 as [[-> _]|[-> _]]; done. }
  rewrite H3. destruct (bool_decide_reflect (lr_type l = RL_WRITER)) as [Hw|Hw].
  - cbn [orb verify negb mbind result_bind]. eexists. split; [done|]. split; [|done]. apply exit_writer_inv; try done. by rewrite E.
  - assert (lr_type l = RL_READER) as Hr by (by destruct (lr_type l)). rewrite bool_decide_true by done. cbn [orb verify negb mbind result_bind].
    destruct (exit_reader_ok rl g Hc Hg) as (rl' & -> & Hc' & Hf'); [by rewrite E|apply Hi|]. exists rl'. split; [done|].
    split; [by apply (exit_frame_inv rl g)|apply (ef_held _ _ _ Hf')].
Qed.

(** Waking whoever sleeps on [lr], by the thread that said it would. *)
Lemma wake_inv rl t lr l rl' :
  rl_ok rl -> rl_pc rl t = Exiting lr \/ rl_pc rl t = Reducing lr -> rl_heap rl !! lr = Some l ->
  core rl' [] -> rl_held rl' = rl_held rl -> rl_tree rl' = rl_tree rl -> rl_pc rl' = upd (rl_pc (wake_waiters rl lr l)) t Outside ->
  (forall a, a <> lr -> rl_heap rl' !! a = rl_heap rl !! a) -> (rl_pc rl t = Reducing lr -> rl_heap rl' !! lr = rl_heap rl !! lr) ->
  rl_ok rl'.
Proof.
  intros Hi Ht Hl Hc' Hh Htr Hpc Hsame Hsame'. pose proof (iv_core _ _ _ Hi) as Hc. pose proof (node_Some _ _ _ Hl) as E.
  assert (forall u a, u <> t -> private (rl_pc rl u) = Some a -> rl_heap rl' !! a = rl_heap rl !! a) as Hpriv.
  { intros u a Hu Ha. destruct (decide (a = lr)) as [->|]; [|auto]. destruct Ht as [Et|Et]; [|auto].
    destruct Hu. apply (iv_inj _ _ _ Hi u t lr I I Ha). by rewrite Et. }
  assert (forall a, a ∈ elts rl -> rl_heap rl' !! a = rl_heap rl !! a) as Htree.
  { intros a Ha. destruct (decide (a = lr)) as [->|]; [|auto]. destruct Ht as [Et|Et]; [|auto].
    by destruct (iv_priv _ _ _ Hi t lr I) as (_ & ? & _); [by rewrite Et|]. }
  apply (inv_in t); rewrite ?Hpc, ?upd_eq; try done.
  apply (inv_frame (but t) everyone everyone rl); rewrite ?Hpc, ?Hh; try done.
  - destruct Hi as [I1 I2 I3 I4 I5 I6]. split; eauto.
  - apply Hi.
  - intros u Hu. rewrite upd_ne by done. apply wake_woken.
  - intros u a Hu Ha. destruct (iv_priv _ _ _ Hi u a I Ha) as (? & ? & ?). rewrite Htr. split_and!; [by apply (Hpriv u)|done..].
  - intros u k Hu Ek. pose proof (iv_place _ _ _ Hi u I) as Hp. rewrite Ek in Hp. destruct Hp as [Hk Hty]. split; [done|].
    destruct (held_writer _ _ k Hc Hk Hty) as (Hin & _ & _). by rewrite (node_same _ _ _ (Htree k Hin)).
  - intros u w k Hu Hs [Hw Hcase]. rewrite upd_ne in Hs |- * by done. rewrite (woken_sleeps _ _ _ _ (wake_woken rl lr l u) Hs).
    assert (k <> lr) as Hne.
    { intros ->. apply wake_awake in Hs. rewrite E in Hw. congruence. }
    apply (sleeping_keep everyone everyone rl); try done.
    + intros a Ha. by apply (Hpriv u).
    + intros Hin _. rewrite Htr, (node_same _ _ _ (Htree k Hin)). done.
    + intros v _ Hv. split; [done|]. rewrite Hpc. assert (v <> t) as Hvt by (intros ->; destruct Ht as [Et|Et], Hv as [Ev|Ev]; congruence).
      rewrite upd_ne by done. pose proof (wake_woken rl lr l v) as Hwk. destruct Hv as [Ev|Ev]; rewrite Ev in Hwk |- *; done.
    + intros v _ Ev. apply Hsame. done.
Qed.

Lemma exit_wake_step rl t lr :
  rl_ok rl -> rl_pc rl t = Exiting lr -> exists rl', rangelock_exit_wake rl t lr = Ret rl' /\ rl_ok rl'.
Proof.
  intros Hi Ht. destruct (iv_priv _ _ _ Hi t lr I) as ([l Hl] & HlT & HlH); [by rewrite Ht|]. unfold rangelock_exit_wake.
  rewrite (load_Some _ _ _ Hl). eexists. split; [done|].
  apply (wake_inv rl t lr l); try done; [by left| |intros; cbn; by apply lookup_delete_ne|by rewrite Ht].
  apply core_free; [|done..]. by eapply core_pc; [apply Hi|..].
Qed.

Lemma reduce_wake_step rl t lr :
  rl_ok rl -> rl_pc rl t = Reducing lr -> exists rl', rangelock_reduce_wake rl t lr = Ret rl' /\ rl_ok rl'.
Proof.
  intros Hi Ht. pose proof (iv_place _ _ _ Hi t I) as Hp. rewrite Ht in Hp. destruct Hp as [Hlr _].
  destruct (core_held_in _ _ (iv_core _ _ _ Hi) lr Hlr) as [l Hl]. unfold rangelock_reduce_wake. rewrite (load_Some _ _ _ Hl).
  eexists. split; [done|]. apply (wake_inv rl t lr l); try done; [by right|]. by eapply core_pc; [apply Hi|..].
Qed.

(** A lock on the whole file is the only one. *)
Lemma whole_file_alone rl g :
  core rl [] -> g ∈ rl_held rl -> whole_file (at_ rl g) ->
  elts rl = [g] /\ avl_numnodes (rl_tree rl) = 1 /\ claims (rl_heap rl) (rl_held rl) = [].
Proof.
  intros Hc Hg (Ho & Hl & Hty). destruct (held_writer _ _ g Hc Hg Hty) as (HgT & _ & _).
  destruct (core_split _ _ Hc g HgT) as (T0 & HT & HgT0 & Hsub & _ & Ht & Hap). cbn [app] in Ht.
  assert (T0 = []) as ->.
  { destruct T0 as [|m T0]; [done|]. assert (m ∈ elts rl) as Hm by (apply Hsub; by left).
    destruct (core_ok _ _ Hc m Hm) as (? & ? & El & _). specialize (Hap m ltac:(by left)). unfold apart, lend, off, fin in *. lia. }
  assert (elts rl = [g]) as E by (by apply Permutation_singleton_r in HT). split_and!; [done|..].
  - destruct (tk_wf _ _ (cr_tree _ _ Hc)) as [_ Hn]. unfold avl_numnodes. rewrite Hn. fold (elts rl). by rewrite E.
  - destruct (claims (rl_heap rl) (rl_held rl)) as [|c C] eqn:Ec; [done|]. exfalso.
    assert (c ∈ claims (rl_heap rl) (rl_held rl)) as Hin by (rewrite Ec; by left).
    apply elem_of_claims in Hin as (k & Hk & _ & ->). destruct (ho_ok _ _ _ (cr_held _ _ Hc k Hk)) as (? & ? & ?).
    destruct (ti_tile _ _ Ht (claim (rl_heap rl) k) (lr_offset (at_ rl k))) as (l' & Hl' & Hx); [by left|unfold claim, lend; cbn; lia|].
    csimpl in Hl'. apply list_elem_of_singleton in Hl' as ->.
    destruct (nt_in _ _ (ti_node _ _ Ht (at_ rl g) ltac:(by left)) (claim (rl_heap rl) k)) as (_ & _ & Hp); [by left|unfold meets, claim, lend in *; cbn; lia|].
    rewrite (ho_proxy _ _ _ (cr_held _ _ Hc g Hg)) in Hp. done.
Qed.

(** Its range can be changed at will. *)
Lemma reduce_core rl g k :
  core rl [] -> g ∈ rl_held rl -> whole_file (at_ rl g) -> lr_ok k -> lr_type k = RL_WRITER -> lr_count k = 1 -> lr_proxy k = false ->
  core (store rl g k) [].
Proof.
  intros Hc Hg Hwf Hok Hty Hcnt Hp. destruct (whole_file_alone rl g Hc Hg Hwf) as (He & _ & Hcl). set (rl' := store rl g k).
  assert (at_ rl' g = k) as Ek by apply node_insert. assert (elts rl' = [g]) as He' by done.
  assert (forall a, a <> g -> rl_heap rl' !! a = rl_heap rl !! a) as Hsame by (intros; by apply lookup_insert_ne).
  assert (claims (rl_heap rl') (rl_held rl) = []) as Hcl'.
  { destruct (claims (rl_heap rl') (rl_held rl)) as [|c C] eqn:Ec; [done|]. exfalso.
    assert (c ∈ claims (rl_heap rl') (rl_held rl)) as Hin by (rewrite Ec; by left). apply elem_of_claims in Hin as (a & Ha & H0 & _).
    assert (a <> g) as Hne by (intros ->; rewrite Ek in H0; lia). rewrite (node_same _ _ _ (Hsame a Hne)) in H0.
    apply (elem_of_nil (claim (rl_heap rl) a)). rewrite <- Hcl. apply elem_of_claims. eauto. }
  apply (core_change rl rl' [] [] [g] [] [g]); try done; rewrite ?He, ?He'; try done.
  - split; [apply (cr_tree _ _ Hc)|intros a|]; rewrite He'; [|repeat constructor].
    intros Ha. apply list_elem_of_singleton in Ha as ->. cbn. rewrite lookup_insert_eq. eauto.
  - by intros n ?%elem_of_nil.
  - intros a Ha _. destruct (cr_held _ _ Hc a Ha) as [H1 H2 H3 H4 H5]. destruct (decide (a = g)) as [->|Hne].
    + split; rewrite ?Ek; try done; [cbn; rewrite lookup_insert_eq; eauto|congruence|]. left. split; [done|by left].
    + rewrite He in H5. split; rewrite ?(node_same _ _ _ (Hsame a Hne)), ?Hsame by done; done.
  - intros n Hn' _. by apply list_elem_of_singleton in Hn' as ->.
  - rewrite Hcl'. change (at_ rl' <$> [g]) with [at_ rl' g]. rewrite Ek.
    apply (tiled_add_plain k [] []); try done; [apply tiled_nil|congruence|unfold blocks_reader; by rewrite bool_decide_true|by intros ? ?%elem_of_nil].
Qed.

Lemma reduce_step rl t g o l :
  rl_ok rl -> rl_pc rl t = Outside -> g ∈ rl_held rl -> (forall u, rl_pc rl u <> Reducing g) -> whole_file (at_ rl g) -> range_ok o l ->
  exists rl', rangelock_reduce rl t g o l = Ret rl' /\ rl_ok rl' /\ rl_held rl' = rl_held rl /\
    lr_offset (at_ rl' g) = o /\ lr_length (at_ rl' g) = l /\ lr_type (at_ rl' g) = RL_WRITER.
Proof.
  intros Hi Hpc Hg Hred Hwf Hok. pose proof (iv_core _ _ _ Hi) as Hc. destruct (whole_file_alone rl g Hc Hg Hwf) as (He & Hn & _).
  pose proof Hwf as (Ho & Hl & Hty). destruct (held_writer _ _ g Hc Hg Hty) as (HgT & _ & Hcnt).
  pose proof (ho_proxy _ _ _ (cr_held _ _ Hc g Hg)) as Hp. unfold rangelock_reduce. rewrite (core_load _ _ Hc g HgT). cbn [mbind result_bind].
  rewrite Hn, Ho, Hty, Hp, Hl, Hcnt, !Z.eqb_refl, bool_decide_true by done. cbn [verify negb mbind result_bind].
  set (k := set_range (at_ rl g) o l RL_WRITER). set (rl' := set_place (store rl g k) t (Reducing g)). exists rl'. split; [done|].
  assert (at_ rl' g = k) as Ek by apply node_insert. split; [|by rewrite Ek].
  assert (forall a, a <> g -> rl_heap rl' !! a = rl_heap rl !! a) as Hsame by (intros; by apply lookup_insert_ne).
  assert (rl_inv (but t) (but t) rl) as Hi' by (apply inv_out; [done|]; rewrite Hpc; done).
  assert (forall u a, private (rl_pc rl u) = Some a -> a <> g) as Hpriv.
  { intros u a Ha ->. by destruct (iv_priv _ _ _ Hi u g I Ha) as (_ & ? & _). }
  apply (inv_in t); cbn; rewrite ?upd_eq; try done; [|split; [done|by rewrite Ek]].
  apply (inv_frame (but t) (but t) everyone rl); try done.
  - apply (core_pc (store rl g k)); try done. by apply reduce_core.
  - apply Hi.
  - intros u Hu. cbn. rewrite upd_ne by done. apply woken_refl.
  - intros u a Hu Ha. destruct (iv_priv _ _ _ Hi u a I Ha) as (? & ? & ?). rewrite Hsame by (by apply (Hpriv u)). done.
  - intros u a Hu E. pose proof (iv_place _ _ _ Hi u I) as Hpl. rewrite E in Hpl. destruct Hpl as [Ha Hta]. split; [done|].
    rewrite (node_same _ _ _ (Hsame a ltac:(intros ->; by apply (Hred u)))). done.
  - intros u w a Hu Hs Hsl. change (rl_pc rl' u) with (upd (rl_pc rl) t (Reducing g) u). rewrite upd_ne by done.
    destruct (decide (a = g)) as [->|Hne].
    + destruct Hsl as [Hw _]. split; [rewrite Ek; by destruct w|]. right; left. split; [done|]. exists t. split; [done|]. cbn. by rewrite upd_eq.
    + apply (sleeping_keep (but t) everyone rl); try done.
      * intros b Hb. apply Hsame. by apply (Hpriv u).
      * intros Hin _. rewrite He in Hin. by apply list_elem_of_singleton in Hin.
      * intros v Hv _. split; [done|]. cbn. by rewrite upd_ne.
      * intros v Hv E. by apply Hsame.
Qed.

Lemma spurious_step rl t p :
  rl_ok rl -> woken (rl_pc rl t) p -> rl_ok (set_place rl t p).
Proof.
  intros Hi Hw.
  assert (forall u, woken (rl_pc rl u) (rl_pc (set_place rl t p) u)) as Hpc.
  { intros u. cbn. destruct (decide (u = t)) as [->|]; [by rewrite upd_eq|rewrite upd_ne by done; apply woken_refl]. }
  apply (inv_frame everyone everyone everyone rl); try done.
  - by eapply core_pc; [apply Hi|..].
  - apply Hi.
  - intros u a _ Ha. by destruct (iv_priv _ _ _ Hi u a I Ha).
  - intros u lr _ E. pose proof (iv_place _ _ _ Hi u I) as Hp. by rewrite E in Hp.
  - intros u w lr _ Hs Hsl. rewrite (woken_sleeps _ _ _ _ (Hpc u) Hs). apply (sleeping_keep everyone everyone rl); try done.
    intros v _ Hv. split; [done|]. specialize (Hpc v). destruct Hv as [E|E]; rewrite E in *; done.
Qed.

(** Every allowed operation returns, and keeps the invariant. *)
Lemma step_ok `{!RangeKmem} rl o : rl_ok rl -> allowed rl o -> exists rl', run o rl = Ret rl' /\ rl_ok rl'.
Proof.
  intros Hi. destruct o as [t off len ty cb|t cb|t|t g|t|t g off len|t|t]; cbn [run allowed].
  - intros Ha. destruct (enter_step rl t off len ty cb Hi Ha) as (n & rl' & _ & _ & E & _ & Hi'). eauto.
  - intros [(lr & new & o & l & ty & E & Hcb) Hfew]. rewrite E.
    destruct (woken_write_step rl t lr new o l ty cb Hi E Hfew Hcb) as (n & rl' & _ & _ & E' & _ & Hi'). eauto.
  - intros [(lr & new & E) Hfew]. rewrite E. destruct (woken_read_step rl t lr new Hi E Hfew) as (o & l & rl' & _ & _ & E' & _ & Hi'). eauto.
  - intros (E & Hg & Hred). destruct (exit_step rl t g Hi E Hg Hred) as (rl' & E' & Hi' & _). eauto.
  - intros (lr & E). rewrite E. by apply exit_wake_step.
  - intros (E & Hg & Hred & (l & Hl & Hw) & Hok). destruct (reduce_step rl t g off len Hi E Hg Hred) as (rl' & E' & Hi' & _); [by rewrite (node_Some _ _ _ Hl)|done|eauto].
  - intros (lr & E). rewrite E. by apply reduce_wake_step.
  - intros _. eexists. split; [done|]. apply spurious_step; [done|]. destruct (rl_pc rl t) as [|[]|[]| |]; cbn; auto.
Qed.

Lemma init_ok : rl_ok rangelock_init.
Proof.
  split; try done. split.
  - split; [apply avl_create_wf|by intros ? ?%elem_of_nil|constructor].
  - apply tiled_nil.
  - constructor.
  - by intros ? ?%elem_of_nil.
  - by intros ? ?%elem_of_nil.
Qed.

Lemma reachable_ok `{!RangeKmem} rl : rl_reachable rl -> rl_ok rl.
Proof.
  induction 1 as [|rl o rl' _ IH Ha E]; [apply init_ok|]. destruct (step_ok rl o IH Ha) as (rl1 & E1 & Hi). congruence.
Qed.

(** ** Nodes and handles *)

(** Two ranges have an offset in common. *)
Definition overlap (l1 l2 : locked_range) : Prop := lr_offset l1 < lend l2 /\ lr_offset l2 < lend l1.

Lemma held_excl rl g1 g2 :
  core rl [] -> g1 ∈ rl_held rl -> g2 ∈ rl_held rl -> g1 <> g2 -> overlap (at_ rl g1) (at_ rl g2) ->
  lr_type (at_ rl g1) = RL_READER.
Proof.
  intros Hc H1 H2 Hne [Ho1 Ho2]. destruct (cr_held _ _ Hc g1 H1) as [_ Hok1 Hp1 Ht1 [[_ HT1]|(_ & _ & ? & _)]]; [|done].
  pose proof (core_node _ _ Hc g1 HT1) as (l & _ & E & Hn). rewrite E in *.
  destruct (cr_held _ _ Hc g2 H2) as [_ Hok2 Hp2 Ht2 [[_ HT2]|(H0 & _ & _ & _)]].
  - destruct (core_apart _ _ Hc g1 g2 HT1 HT2 Hne) as [Hd|Hd]; rewrite E in Hd; lia.
  - destruct (nt_in _ _ Hn (claim (rl_heap rl) g2)) as (_ & _ & Hp); [cbn; apply elem_of_claims; eauto| |congruence].
    destruct Hok1 as (? & ? & ?), Hok2 as (? & ? & ?). unfold meets, claim, lend in *. cbn. lia.
Qed.

(** Every node is part of a handle's range. *)
Lemma node_owner rl lr :
  core rl [] -> lr ∈ elts rl ->
  exists g, g ∈ rl_held rl /\ lr_offset (at_ rl g) <= lr_offset (at_ rl lr) /\ lend (at_ rl lr) <= lend (at_ rl g).
Proof.
  intros Hc Hlr. destruct (core_node _ _ Hc lr Hlr) as (l & _ & E & Hn). rewrite E. destruct (lr_proxy l) eqn:Hp.
  - destruct (nt_proxy _ _ Hn Hp) as (_ & Hcnt & Hpos). destruct (cover_pos _ l ltac:(rewrite <- Hcnt; exact Hpos)) as (c & Hc' & Hm).
    destruct (nt_in _ _ Hn c Hc' Hm) as (? & ? & _). cbn in Hc'. apply elem_of_claims in Hc' as (g & Hg & _ & ->). exists g. done.
  - exists lr. rewrite E. split_and!; [|done..]. apply (cr_plain _ _ Hc lr Hlr). by rewrite E.
Qed.

Lemma in_way_owner rl n lr : core rl [] -> in_way rl n lr -> exists g, g ∈ rl_held rl /\ overlap n (at_ rl g).
Proof.
  intros Hc (Hlr & H1 & H2). destruct (node_owner rl lr Hc Hlr) as (g & Hg & H3 & H4). exists g. split; [done|].
  destruct (core_ok _ _ Hc lr Hlr) as (_ & _ & El & _). unfold overlap, off, fin in *. lia.
Qed.
