(* ===== verification/RangeLockSpec.v ===== *)
(** * Range locks: the properties

    Exclusion, safety, who is granted a range and who waits, that nobody sleeps
    without a reason, and what a write to a file locks. *)

From stdpp Require Import gmap.
From S2P Require Import Prelude Avl RangeLock RangeLockTree RangeLockTiles RangeLockInv RangeLockReader RangeLockEnter RangeLockExit RangeLockProps.

(** ** Properties *)

(** C36: exclusion.  In every state that the threads can reach, two handles
    that were granted and not given back, and whose ranges have an offset in
    common, are both for reading; granted handles are distinct, in use, and
    for non-empty ranges. *)
Theorem rangelock_exclusion `{!RangeKmem} rl g1 g2 :
  rl_reachable rl -> g1 ∈ rl_held rl -> g2 ∈ rl_held rl ->
  NoDup (rl_held rl) /\
  exists l1 l2, rl_heap rl !! g1 = Some l1 /\ rl_heap rl !! g2 = Some l2 /\ lr_ok l1 /\ lr_ok l2 /\
    (g1 <> g2 -> overlap l1 l2 -> lr_type l1 = RL_READER /\ lr_type l2 = RL_READER).
Proof.
  intros Hr H1 H2. pose proof (iv_core _ _ _ (reachable_ok rl Hr)) as Hc. split; [apply Hc|].
  destruct (cr_held _ _ Hc g1 H1) as [[l1 E1] Hok1 _ _ _], (cr_held _ _ Hc g2 H2) as [[l2 E2] Hok2 _ _ _].
  pose proof (held_excl rl g1 g2 Hc H1 H2) as A. pose proof (held_excl rl g2 g1 Hc H2 H1) as B.
  rewrite (node_Some _ _ _ E1), (node_Some _ _ _ E2) in *. exists l1, l2. split_and!; try done.
  intros Hne [? ?]. split; [by apply A|by apply B].
Qed.

(** C37: safety.  Whatever an allowed operation finds in a state that the
    threads can reach, it returns: no assertion of the code fails, no null
    pointer and no freed memory is used, no insertion into the tree meets an
    entry at the same offset, and every loop ends. *)
Theorem rangelock_safe `{!RangeKmem} rl o :
  rl_reachable rl -> allowed rl o -> exists rl', run o rl = Ret rl'.
Proof.
  intros Hr Ha. destruct (step_ok rl o (reachable_ok rl Hr) Ha) as (rl' & E & _). eauto.
Qed.

(** ** Who is granted a range *)

(** A handle that overlaps [n] meets a node of the tree there. *)
Lemma held_in_way rl n g :
  core rl [] -> g ∈ rl_held rl -> lr_ok n -> overlap n (at_ rl g) -> exists m, in_way rl n m.
Proof.
  intros Hc Hg Hn [H1 H2]. destruct (cr_held _ _ Hc g Hg) as [_ Hok _ _ [[_ HT]|(H0 & _)]].
  - exists g. destruct (core_ok _ _ Hc g HT) as (_ & _ & El & _). unfold in_way, off. split_and!; [done|lia|lia].
  - destruct (ti_tile _ _ (cr_tiled _ _ Hc) (claim (rl_heap rl) g) (Z.max (lr_offset n) (lr_offset (at_ rl g)))) as (l & Hl & Hx).
    + cbn [app]. apply elem_of_claims. eauto.
    + destruct Hn as (? & ? & ?), Hok as (? & ? & ?). unfold claim, lend in *. cbn. lia.
    + apply list_elem_of_fmap in Hl as (m & -> & Hm). exists m. destruct (core_ok _ _ Hc m Hm) as (_ & _ & El & _).
      destruct Hn as (? & ? & ?), Hok as (? & ? & ?). unfold in_way, off, lend in *. split_and!; [done|lia|lia].
Qed.

Lemma outcome_meaning rl t new n o l ty rl' :
  core rl [] -> lr_ok n -> outcome rl t new n o l ty rl' ->
  (rl_pc rl' t = Outside /\ rl_held rl' = new :: rl_held rl /\ (exists c, rl_heap rl' !! new = Some (set_count n c)) /\
   (forall g, g ∈ rl_held rl -> overlap n (at_ rl g) -> ty = RL_READER /\ lr_type (at_ rl g) = RL_READER)) \/
  (rl_held rl' = rl_held rl /\ exists lr w, sleeps_on (rl_pc rl' t) w lr /\ in_way rl n lr /\
   (ty = RL_READER -> blocks_reader (at_ rl lr) = true)).
Proof.
  intros Hc Hn Hout.
  assert (forall rl1 c, frame_but new rl rl1 -> rl_heap rl1 !! new = Some (set_count n c) ->
    rl_pc (granted rl1 t new) t = Outside /\ rl_held (granted rl1 t new) = new :: rl_held rl /\
    exists c, rl_heap (granted rl1 t new) !! new = Some (set_count n c)) as Hgr.
  { intros rl1 c Hf Hl. cbn. rewrite upd_eq, (fb_held _ _ _ Hf). eauto. }
  unfold outcome in Hout. destruct (decide (ty = RL_READER)) as [->|Hty].
  - destruct Hout as [[Hcl (rl1 & c & -> & _ & Hf & Hl)]|(lr & Hway & Hb & ->)].
    + left. destruct (Hgr rl1 c Hf Hl) as (? & ? & ?). split_and!; [done..|]. intros g Hg Hov. split; [done|].
      destruct (lr_type (at_ rl g)) eqn:Et; [done|..]; [|by destruct (ho_type _ _ _ (cr_held _ _ Hc g Hg))].
      destruct (held_writer _ _ g Hc Hg Et) as (HT & Hb & _). destruct (core_ok _ _ Hc g HT) as (_ & _ & El & _).
      destruct Hov as [? ?]. rewrite (Hcl g HT) in Hb; [done|unfold off; lia|lia].
    + right. split; [done|]. exists lr, false. cbn. rewrite upd_eq. done.
  - destruct Hout as [[Hap (rl1 & c & -> & _ & Hf & Hl)]|(lr & Hway & ->)].
    + left. destruct (Hgr rl1 c Hf Hl) as (? & ? & ?). split_and!; [done..|]. intros g Hg Hov. exfalso.
      destruct (held_in_way rl n g Hc Hg Hn Hov) as (m & Hm & ? & ?). destruct (core_ok _ _ Hc m Hm) as (_ & _ & El & _).
      destruct (Hap m Hm); unfold off in *; lia.
    + right. split; [done|]. exists lr, true. cbn. rewrite upd_eq. done.
Qed.

(** The state in which the handle of a new request has been set up. *)
Lemma requested_same `{!RangeKmem} rl r n :
  rl_ok rl -> let new := kmem_alloc (rl_heap rl) in
  core (requested rl new r n) [] /\ forall a, a ∈ elts rl \/ a ∈ rl_held rl -> rl_heap (requested rl new r n) !! a = rl_heap rl !! a.
Proof.
  intros Hi new. destruct (alloc_handle _ _ _ Hi) as (HnT & HnH & _). fold new in HnT, HnH. unfold requested. split.
  - destruct (store_handle rl [] new r (iv_core _ _ _ Hi) HnT HnH) as [Hc1 _]. by apply store_handle.
  - intros a Ha. assert (a <> new) as Hne by (intros ->; tauto). cbn. by rewrite !lookup_insert_ne.
Qed.

Section Spec.
Context `{!RangeKmem}.

(** What asking for a range comes to. *)
Lemma enter_spec rl t off len ty cb :
  rl_ok rl -> allowed rl (OpEnter t off len ty cb) ->
  exists n rl', asks cb off (clamp off len) ty n /\ rangelock_enter cb rl t off len ty = Ret rl' /\
    ((rl_pc rl' t = Outside /\
      exists new l, rl_held rl' = new :: rl_held rl /\ rl_heap rl' !! new = Some l /\
        lr_offset l = lr_offset n /\ lr_length l = lr_length n /\ lr_type l = lr_type n /\
        forall g k, g ∈ rl_held rl -> rl_heap rl !! g = Some k -> overlap n k -> ty = RL_READER /\ lr_type k = RL_READER) \/
     (rl_held rl' = rl_held rl /\
      exists w lr g k m, sleeps_on (rl_pc rl' t) w lr /\ g ∈ rl_held rl /\ rl_heap rl !! g = Some k /\ overlap n k /\
        rl_heap rl !! lr = Some m /\ overlap n m /\
        (ty = RL_READER -> lr_type m = RL_WRITER \/ lr_write_wanted m = true))).
Proof using All.
  intros Hi Ha. pose proof (iv_core _ _ _ Hi) as Hc0.
  destruct (enter_step rl t off len ty cb Hi Ha) as (n & rl' & Hask & Hn & E & Hout & _).
  destruct (requested_same rl (request off (clamp off len) ty) n Hi) as [Hc Hsame].
  exists n, rl'. split_and!; [done..|].
  destruct (outcome_meaning _ t _ n _ _ _ rl' Hc Hn Hout) as [(Hpc & Hh & (c & Hl) & Hov)|(Hh & lr & w & Hs & Hway & Hb)].
  - left. split; [done|]. eexists _, _. split_and!; [exact Hh|exact Hl|done..|]. intros g k Hg Hk Hov'.
    specialize (Hov g Hg). rewrite (node_same _ _ _ (Hsame g ltac:(by right))), (node_Some _ _ _ Hk) in Hov. by apply Hov.
  - right. split; [done|]. destruct (in_way_owner _ _ _ Hc Hway) as (g & Hg & Hog). cbn in Hg.
    rewrite (node_same _ _ _ (Hsame g ltac:(by right))) in Hog. destruct (core_held_in _ _ Hc0 g Hg) as [k Hk]. rewrite (node_Some _ _ _ Hk) in Hog.
    destruct Hway as (Hlr & H1 & H2). destruct (core_ok _ _ Hc lr Hlr) as (_ & _ & El & _). cbn in Hlr.
    destruct (tk_dom _ _ (cr_tree _ _ Hc0) lr Hlr) as [m Hm].
    assert (node (rl_heap (requested rl (kmem_alloc (rl_heap rl)) (request off (clamp off len) ty) n)) lr = m) as Em.
    { rewrite (node_same _ _ _ (Hsame lr ltac:(by left))). by apply node_Some. }
    exists w, lr, g, k, m. split_and!; try done.
    + unfold overlap, RangeLockTree.off, fin in *. rewrite Em in *. lia.
    + intros Hty. specialize (Hb Hty). rewrite Em in Hb. unfold blocks_reader in Hb. apply orb_true_iff in Hb as [Hb|Hb]; [|by right].
      left. by apply bool_decide_eq_true in Hb.
Qed.

(** C38: a thread that asks for a range in a state that the threads can reach
    either gets it at once, and then every granted range that overlaps it is,
    like its own, for reading; or it sleeps, and then some granted range
    overlaps the range asked for, which for a reader is one being written or
    one a writer waits for. *)
Theorem rangelock_enter_correct rl t off len ty cb :
  rl_reachable rl -> allowed rl (OpEnter t off len ty cb) ->
  exists n rl', asks cb off (clamp off len) ty n /\ rangelock_enter cb rl t off len ty = Ret rl' /\
    ((rl_pc rl' t = Outside /\
      exists new l, rl_held rl' = new :: rl_held rl /\ rl_heap rl' !! new = Some l /\
        lr_offset l = lr_offset n /\ lr_length l = lr_length n /\ lr_type l = lr_type n /\
        forall g k, g ∈ rl_held rl -> rl_heap rl !! g = Some k -> overlap n k -> ty = RL_READER /\ lr_type k = RL_READER) \/
     (rl_held rl' = rl_held rl /\
      exists w lr g k m, sleeps_on (rl_pc rl' t) w lr /\ g ∈ rl_held rl /\ rl_heap rl !! g = Some k /\ overlap n k /\
        rl_heap rl !! lr = Some m /\ overlap n m /\
        (ty = RL_READER -> lr_type m = RL_WRITER \/ lr_write_wanted m = true))).
Proof using All. intros Hr. apply enter_spec. by apply reachable_ok. Qed.

(** C39: no wake-up is lost.  Whoever sleeps on a node asks for a range that
    overlaps a granted one, or some thread has left the node and is about to
    wake it: once that thread goes on, it does not sleep on the node any
    more. *)
Theorem rangelock_no_lost_wakeup rl t w lr :
  rl_reachable rl -> sleeps_on (rl_pc rl t) w lr ->
  (exists new n g k, private (rl_pc rl t) = Some new /\ rl_heap rl !! new = Some n /\
     g ∈ rl_held rl /\ rl_heap rl !! g = Some k /\ overlap n k) \/
  (exists u o rl', (o = OpExitWake u \/ o = OpReduceWake u) /\ allowed rl o /\ run o rl = Ret rl' /\ ~ sleeps_on (rl_pc rl' t) w lr).
Proof using All.
  intros Hr Hs. pose proof (reachable_ok rl Hr) as Hi. pose proof (iv_core _ _ _ Hi) as Hc.
  destruct (iv_sleep _ _ _ Hi t w lr I Hs) as [Hw [(Hin & new & Hp & Hway)|[(Hin & u & _ & Eu)|(u & _ & Eu)]]].
  - left. destruct (in_way_owner _ _ _ Hc Hway) as (g & Hg & Hog). destruct (core_held_in _ _ Hc g Hg) as [k Hk].
    destruct (iv_priv _ _ _ Hi t new I Hp) as ([n Hn] & _ & _). rewrite (node_Some _ _ _ Hn), (node_Some _ _ _ Hk) in Hog. eauto 10.
  - right. assert (u <> t) as Hut by (intros ->; by rewrite Eu in Hs). destruct (tk_dom _ _ (cr_tree _ _ Hc) lr Hin) as [l Hl].
    exists u, (OpReduceWake u). eexists. split_and!; [by right|by exists lr|cbn; rewrite Eu; unfold rangelock_reduce_wake; by rewrite (load_Some _ _ _ Hl)|].
    change (~ sleeps_on (upd (rl_pc (wake_waiters rl lr l)) u Outside t) w lr). rewrite upd_ne by done.
    intros Hs'. apply wake_awake in Hs'. rewrite (node_Some _ _ _ Hl) in Hw. congruence.
  - right. assert (u <> t) as Hut by (intros ->; by rewrite Eu in Hs). destruct (iv_priv _ _ _ Hi u lr I) as ([l Hl] & _ & _); [by rewrite Eu|].
    exists u, (OpExitWake u). eexists. split_and!; [by left|by exists lr|cbn; rewrite Eu; unfold rangelock_exit_wake; by rewrite (load_Some _ _ _ Hl)|].
    change (~ sleeps_on (upd (rl_pc (wake_waiters rl lr l)) u Outside t) w lr). rewrite upd_ne by done.
    intros Hs'. apply wake_awake in Hs'. rewrite (node_Some _ _ _ Hl) in Hw. congruence.
Qed.

(** ** Writing to a file *)

(** Where the write starts. *)
Definition write_start (zp : znode) (off : Z) (ty : rangelock_type) : Z :=
  if decide (ty = RL_APPEND) then z_size zp else off.

(** The file has to get larger blocks. *)
Definition grows (zp : znode) (end_ : Z) : bool :=
  (z_blksz zp <? Z.max (z_size zp) end_) && (negb (ISP2 (z_blksz zp)) || (z_blksz zp <? z_max_blksz zp)).

Lemma zfs_cb_spec zp off len ty :
  ty <> RL_READER -> range_ok (write_start zp off ty) len ->
  let start := write_start zp off ty in
  zfs_rangelock_cb zp (request off len ty) =
    if grows zp (start + len) then request 0 UINT64_MAX RL_WRITER else request start len RL_WRITER.
Proof.
  intros Hty Hok start. unfold zfs_rangelock_cb, grows.
  assert ((if bool_decide (lr_type (request off len ty) = RL_APPEND) then set_range (request off len ty) (z_size zp) len RL_WRITER
    else request off len ty) = request start len RL_WRITER) as E.
  { unfold start, write_start. cbn [lr_type request]. destruct ty; [done|done|done]. }
  change (lr_length (request off len ty)) with len. rewrite E. unfold lr_end. rewrite lr_ok_end by done.
  change (lend (request start len RL_WRITER)) with (start + len). by destruct (_ && _).
Qed.

(** What a write to a file locks.  The callback of the POSIX layer keeps
    the promise the range lock relies on; a write or append that is granted has
    locked, for writing, at least the bytes it is going to write (for an append
    those from the end of the file on), exactly them unless the file has to get
    larger blocks, and in that case the whole file, and then no other range of
    the file is locked. *)
Theorem zfs_write_locks zp rl t off len ty :
  rl_reachable rl -> rl_pc rl t = Outside -> few_held rl -> ty <> RL_READER ->
  range_ok off len -> range_ok (write_start zp off ty) len ->
  let start := write_start zp off ty in
  exists rl', rangelock_enter (Some (zfs_rangelock_cb zp)) rl t off len ty = Ret rl' /\
    (rl_pc rl' t = Outside ->
     exists new l, rl_held rl' = new :: rl_held rl /\ rl_heap rl' !! new = Some l /\ lr_type l = RL_WRITER /\
       lr_offset l <= start /\ start + len <= lend l /\
       if grows zp (start + len) then whole_file l /\ rl_held rl = [] else lr_offset l = start /\ lr_length l = len).
Proof using All.
  intros Hr Hpc Hfew Hty Hok Hst start. pose proof (reachable_ok rl Hr) as Hi. pose proof (iv_core _ _ _ Hi) as Hc.
  pose proof (zfs_cb_spec zp off len ty Hty Hst) as Ecb. fold start in Ecb. destruct Hok as (Hok1 & Hok2 & Hok3), Hst as (Hs1 & Hs2 & Hs3). fold start in Hs1, Hs3.
  assert (clamp off len = len) as Ecl by (unfold clamp, UINT64_MAX in *; rewrite (proj2 (Z.ltb_lt _ _)) by lia; done).
  assert (allowed rl (OpEnter t off len ty (Some (zfs_rangelock_cb zp)))) as Ha.
  { cbn. rewrite Ecl. split_and!; try done; [unfold UINT64_MAX in *; lia..|]. intros _. unfold cb_ok, cb_apply. rewrite Ecb.
    destruct (grows zp (start + len)); [exists 0, UINT64_MAX|exists start, len]; (split; [done|]); unfold range_ok, UINT64_MAX in *; lia. }
  destruct (enter_spec rl t off len ty (Some (zfs_rangelock_cb zp)) Hi Ha) as (n & rl' & Hn & E & Hcase). exists rl'. split; [done|]. intros Hout.
  unfold asks in Hn. rewrite decide_False, Ecl in Hn by done. cbn [cb_apply] in Hn. rewrite Ecb in Hn.
  destruct Hcase as [(_ & new & l & Hh & Hl & Eo & El & Et & Hov)|(_ & w & lr & g & k & m & Hs & _)]; [|by rewrite Hout in Hs].
  exists new, l. unfold lend. rewrite Eo, El, Et. destruct (grows zp (start + len)); subst n; cbn; split_and!; try done; try (unfold UINT64_MAX in *; lia).
  destruct (rl_held rl) as [|g k] eqn:Eh; [done|]. exfalso. assert (g ∈ rl_held rl) as Hg by (rewrite Eh; by left).
  destruct (cr_held _ _ Hc g Hg) as [[x Hx] (? & ? & ?) _ _ _]. rewrite (node_Some _ _ _ Hx) in *.
  destruct (Hov g x ltac:(by left) Hx); [|done]. unfold overlap, lend. cbn. unfold UINT64_MAX in *. lia.
Qed.
End Spec.

(** ** Witnesses *)

#[export] Instance demo_kmem : RangeKmem.
Proof. refine {| kmem_alloc h := fresh (dom h) |}. intros h. apply not_elem_of_dom, is_fresh. Defined.

Definition after (o : rop) (rl : rangelock) : rangelock :=
  match run o rl with Ret rl' => rl' | Panic => rangelock_init end.

Lemma reach_after o rl : rl_reachable rl -> allowed rl o -> rl_reachable (after o rl).
Proof.
  intros Hr Ha. destruct (step_ok rl o (reachable_ok rl Hr) Ha) as (rl' & E & _). unfold after. rewrite E. by apply (RlStep rl o).
Qed.

(** Two readers with ranges that overlap, then a writer that has to wait. *)
Definition demo1 : rangelock := after (OpEnter 0%nat 0 10 RL_READER None) rangelock_init.
Definition demo2 : rangelock := after (OpEnter 1%nat 5 10 RL_READER None) demo1.
Definition demo3 : rangelock := after (OpEnter 2%nat 7 1 RL_WRITER None) demo2.

Ltac check_allowed := split_and!; [vm_compute; reflexivity|vm_compute; reflexivity|unfold UINT64_MAX; lia..|].

Lemma demo2_reachable : rl_reachable demo2.
Proof.
  apply reach_after; [apply reach_after; [apply RlInit|]|]; (check_allowed; done).
Qed.

Lemma demo_write_allowed : allowed demo2 (OpEnter 2%nat 7 1 RL_WRITER None).
Proof. check_allowed. intros _. exists 7, 1. split; [done|]. unfold range_ok, UINT64_MAX. lia. Qed.

Lemma demo3_reachable : rl_reachable demo3.
Proof. apply reach_after; [apply demo2_reachable|apply demo_write_allowed]. Qed.

Lemma rangelock_exclusion_witness :
  exists l1 l2, rl_heap demo2 !! 0%nat = Some l1 /\ rl_heap demo2 !! 1%nat = Some l2 /\
    overlap l1 l2 /\ lr_type l1 = RL_READER /\ lr_type l2 = RL_READER.
Proof.
  destruct (rangelock_exclusion demo2 0%nat 1%nat demo2_reachable) as (_ & l1 & l2 & E1 & E2 & _ & _ & H).
  - vm_compute. right. left.
  - vm_compute. left.
  - exists l1, l2. assert (overlap l1 l2) as Ho.
    { vm_compute in E1, E2. injection E1 as <-. injection E2 as <-. unfold overlap, lend. cbn. lia. }
    destruct (H ltac:(done) Ho) as [Ht1 Ht2]. exact (conj E1 (conj E2 (conj Ho (conj Ht1 Ht2)))).
Defined.

Lemma rangelock_safe_witness : exists rl', run (OpEnter 2%nat 7 1 RL_WRITER None) demo2 = Ret rl'.
Proof. apply rangelock_safe; [apply demo2_reachable|apply demo_write_allowed]. Defined.

Lemma rangelock_enter_correct_witness :
  exists rl', rangelock_enter None demo2 2%nat 7 1 RL_WRITER = Ret rl' /\ rl_held rl' = rl_held demo2.
Proof.
  destruct (rangelock_enter_correct demo2 2%nat 7 1 RL_WRITER None demo2_reachable demo_write_allowed) as (n & rl' & Hn & E & Hcase).
  exists rl'. split; [done|]. destruct Hcase as [(_ & new & l & _ & _ & _ & _ & _ & Hov)|[? _]]; [|done]. exfalso.
  destruct (rl_heap demo2 !! 1%nat) as [k|] eqn:Ek; [|by vm_compute in Ek].
  destruct (Hov 1%nat k); [vm_compute; left|done| |done].
  unfold asks in Hn. rewrite decide_False in Hn by done. change (clamp 7 1) with 1 in Hn. subst n. vm_compute in Ek. injection Ek as <-. unfold overlap, lend. cbn. lia.
Defined.

Lemma rangelock_no_lost_wakeup_witness :
  sleeps_on (rl_pc demo3 2%nat) true 2%nat /\
  exists g k, g ∈ rl_held demo3 /\ rl_heap demo3 !! g = Some k /\ lr_offset k < 8.
Proof.
  assert (sleeps_on (rl_pc demo3 2%nat) true 2%nat) as Hs by (vm_compute; done). split; [done|].
  destruct (rangelock_no_lost_wakeup demo3 2%nat true 2%nat demo3_reachable Hs) as [(new & n & g & k & Hp & Hn & Hg & Hk & Ho)|(u & o & rl' & Ho & Ha & _)].
  - exists g, k. split_and!; [done..|]. vm_compute in Hp. injection Hp as <-. vm_compute in Hn. injection Hn as <-. destruct Ho as [_ Ho]. unfold lend in Ho. cbn in Ho. lia.
  - exfalso. destruct Ho as [-> | ->]; destruct Ha as [lr Ha]; destruct u as [|[|[|u]]]; vm_compute in Ha; discriminate Ha.
Defined.

Lemma zfs_write_locks_witness :
  exists rl', rangelock_enter (Some (zfs_rangelock_cb (Znode 100 512 131072))) rangelock_init 0%nat 0 1000 RL_APPEND = Ret rl' /\
    exists new l, rl_held rl' = [new] /\ rl_heap rl' !! new = Some l /\ whole_file l.
Proof.
  destruct (zfs_write_locks (Znode 100 512 131072) rangelock_init 0%nat 0 1000 RL_APPEND) as (rl' & E & H);
    [apply RlInit|done|done|done|unfold range_ok, UINT64_MAX; lia|change (write_start _ _ _) with 100; unfold range_ok, UINT64_MAX; lia|].
  exists rl'. split; [done|]. destruct H as (new & l & Hh & Hl & _ & _ & _ & Hw & _).
  - vm_compute in E. injection E as <-. done.
  - exists new, l. done.
Defined.
